(* ===== verification/_CoqProject ===== *)
-Q . S2P
Prelude.v
Intset.v
Util.v
Glob.v
ListpackEnc.v
Listpack.v
ListpackNav.v
ListpackValid.v
ListpackUpd.v
ListpackBulk.v
Dict.v
DictInv.v
DictMap.v
DictIter.v
DictScan.v
Order.v
Skiplist.v
SkiplistRep.v
SkiplistUpd.v
SkiplistDel.v
SkiplistOps.v
SkiplistRange.v
Zset.v
ZsetInv.v
ZsetRead.v
ZsetSpec.v
Lzf.v
LzfSpec.v
Fwtree.v
Kvstore.v
KvstoreSpec.v
KvstoreThms.v
SdsArgs.v
Resp.v
RespThms.v
RespSafe.v
Bitops.v
BitopsSpec.v
BitopsThms.v
Bitcount.v
BitcountSpec.v
BitrangeThms.v
Bitop.v
BitopThms.v
Crc.v
CrcThms.v
Slots.v
Rio.v
Rdb.v
RdbThms.v
RdbObj.v
DumpThms.v
RdbFile.v
RdbFileThms.v
Cluster.v
ClusterElectThms.v
ClusterSlots.v
ClusterRuns.v
Rax.v
RaxSpec.v
RaxInsert.v
RaxRemove.v
RaxRuns.v
RaxIter.v
RaxIterThms.v
RaxSeek.v
RaxFree.v
Quicklist.v
QuicklistOps.v
QuicklistSpec.v
QuicklistComp.v
QuicklistEnds.v
QuicklistMerge.v
QuicklistIns.v
QuicklistIter.v
QuicklistRep.v
QuicklistThms.v
TList.v
TListSpec.v
TListThms.v
