(* ===== verification/Prelude.v ===== *)
(** * Verification of the Redis core

    Redis keeps a keyspace of typed values in memory and runs the commands its
    clients send.  This library models the parts that carry its own logic: the
    encodings and containers values are made of, the keyspace tables they live
    in, the parser that turns bytes into commands, the files and payloads values
    are saved in, and the slots and elections of a cluster.  File names below
    are those of src/src.

    ** How the parts fit together

    A connection's bytes go through the request parser (networking.c), whose
    inline form splits lines with sds.c and whose numbers are read by util.c.
    Commands work on the keyspace, an array of hash tables (kvstore.c over
    dict.c, with a Fenwick tree, fwtree.c, to find a table by key count); in a
    cluster the table of a key is its hash slot (crc16.c, cluster.h), and
    cluster_legacy.c keeps which node serves a slot.
    Values are small encodings on contiguous bytes (intset.c, listpack.c) or
    linked structures (the skiplist with its dict of t_zset.c, the quicklist of
    quicklist.c, whose nodes are listpacks, the radix trees of rax.c); a list is
    a listpack while it is small and a quicklist afterwards, and the commands of
    t_list.c do not see which; strings
    are also arrays of bits and of small integers (bitops.c).  Inner nodes of
    quicklists and long strings of RDB files are compressed with LZF.  RDB files
    and DUMP payloads (rdb.c over rio.c) end with a CRC-64.  Key patterns are
    matched by stringmatchlen of util.c.

    ** Files

    - [Prelude]: machine integers, byte access, the [cassert] of the C asserts,
      list and arithmetic lemmas, hint databases and tactics.
    - [Intset] (intset.c): every operation on the bytes of the block.  [repr]
      states which set a block holds; the operations refine a finite set.
    - [Util] (util.c): decimal printing and parsing; [Glob]: pattern matching
      against a declarative meaning of patterns.
    - [ListpackEnc] (encodings of one entry), [Listpack] (the operations),
      [ListpackNav] (representation and traversal), [ListpackValid] (validation
      of untrusted bytes), [ListpackUpd] and [ListpackBulk] (updates): listpack.c.
    - [Dict] (the operations of dict.c with both tables and incremental
      rehashing), [DictInv] (invariant), [DictMap] (refinement of finite maps),
      [DictIter] (iterators, bulk rehashing), [DictScan] (the scan cursor).
    - [Order], [Skiplist], [SkiplistRep], [SkiplistUpd], [SkiplistDel],
      [SkiplistOps], [SkiplistRange] (the skiplist of t_zset.c as a heap of
      nodes with forward links, spans and back links), [Zset], [ZsetInv],
      [ZsetRead], [ZsetSpec] (the skiplist with its dict, and the sorted set
      commands).
    - [Lzf], [LzfSpec] (lzf_c.c, lzf_d.c).
    - [Fwtree] (fwtree.c); [Kvstore], [KvstoreSpec], [KvstoreThms]
      (kvstore.c), which use [Fwtree] and [Dict].
    - [SdsArgs] (sdscatrepr and sdssplitargs of sds.c); [Resp] (the parser of
      networking.c), [RespThms], [RespSafe].
    - [Bitops] (bit fields, SETBIT, GETBIT and BITFIELD of bitops.c),
      [BitopsSpec], [BitopsThms]; [Bitcount] (BITCOUNT and BITPOS),
      [BitcountSpec], [BitrangeThms]; [Bitop] (BITOP), [BitopThms].
    - [Crc] (crc64.c, crcspeed.c, crccombine.c), [CrcThms]; [Slots] (crc16.c, keyHashSlot and patternHashSlot).
    - [Rio] (rio.c: streams as a class of backends); [Rdb] (lengths, integers and
      strings of rdb.c), [RdbThms]; [RdbObj] (the interface of the
      codecs of values with its instance for strings, DUMP and RESTORE),
      [DumpThms]; [RdbFile] (whole files), [RdbFileThms].
    - [Cluster] (cluster_legacy.c: slots, roles, epochs, elections),
      [ClusterElectThms] (the world of nodes and messages as a step relation,
      and its elections), [ClusterSlots], [ClusterRuns].
    - [Rax] (nodes, walks, insertion and removal of rax.c), [RaxSpec] (keys and
      well-formedness), [RaxInsert], [RaxRemove], [RaxRuns]; [RaxIter] (iterators),
      [RaxIterThms], [RaxSeek]; [RaxFree] (freeing a tree).
    - [Quicklist] and [QuicklistOps] (quicklist.c), [QuicklistSpec] (contents of
      nodes, raw or compressed), [QuicklistComp] (compression around the ends),
      [QuicklistEnds], [QuicklistMerge], [QuicklistIns], [QuicklistIter],
      [QuicklistRep] (one group of operations each), [QuicklistThms].
    - [TList] (t_list.c: both encodings of lists and the conversions, the class
      [list_ops] of what the commands use of a list, the commands),
      [TListSpec] (the commands on plain lists, the laws of list objects, the
      commands proved from them), [TListThms] (both encodings have the laws;
      histories of commands).

    ** How the code is modelled

    A w-bit integer is a [Z] with its conversions written out ([wrapu],
    [wraps]); a block of memory is a list of bytes, and reading or writing
    outside of it is [None], as is a failed assertion.  So a theorem whose
    conclusion is [Some ...] also says that no access leaves a block and that
    no assertion fails.  Pointers into a heap of nodes are identifiers.
    Allocation succeeds; what uninitialized memory holds and how much more than
    asked for an allocator gives are parameters.  Loops that are not structural
    carry fuel; each model gives itself the fuel, a bound from the data (the
    bytes left, the entries of a table, the levels of a skiplist, the nodes of a
    list or tree), and the theorems that return [Some] show that it is enough.

    Code outside of the modelled files is a parameter: the hash function of a
    dict, the clock of timed rehashing, the random levels of a skiplist and
    random choices, the comparison of floating point scores (a type class of
    total orders with NaN excluded, [Order]), the flags and settings of a
    client, the backend of a stream.  What is needed of them is a hypothesis of the
    section or a class.  The codecs of the values in RDB files are a class as well,
    so that files and payloads do not depend on the types of values; it is
    instantiated for strings, and the properties of files and payloads are about
    strings, with no assumption on the codec.

    Bounds: elements of quicklists are shorter than 4 GB and the threshold for
    plain nodes is at most 65537 bytes, so that no listpack exceeds its limits (its
    default is 0; the debugging command that sets it allows up to 2^32 - 2^20);
    appending listpacks and rotating plain nodes are outside of the invariant;
    for the list commands the setting list-max-listpack-size is at least -4, one
    command pushes or moves at most 16384 elements, no index is -2^63 and a history is
    shorter than 2^49 commands, so that lengths are 64-bit numbers;
    the keys of radix trees are shorter than a node's largest size (2^29 bytes), and
    of the fixed length in trees that have one; intsets have at most 2^29 - 2 members
    before an addition; lexicographical ranges are of sets with equal scores; the
    argument of a saturating SET of a signed bit field is at least 2^(bits-1) - 2^63.

    ** What the theorems show

    - Refinement: intset, dict, kvstore, listpack, quicklist, radix tree and
      sorted set behave as the mathematical set, map, array of maps, list and
      ordered map they stand for, on every branch, in any phase of rehashing,
      upgrading or compression; the list commands, in either encoding and across
      the conversions, behave as on plain lists, with the same replies, errors,
      changes and notifications.
    - Invariants: the state of a sorted set, kvstore, quicklist or radix tree
      reached by any sequence of operations is well formed, with exact counters.
    - Scans and iterators: a key that stays is returned, whatever happens
      between the calls; a scan of an unchanged table ends; seeking and stepping
      in a radix tree lists the keys in order.
    - Round trips: listpack entries, LZF, decimal numbers, quoted arguments,
      RESP requests in any cut into reads, DUMP and RESTORE and RDB files of
      string values.
    - Equivalence: counting, searching and combining bits by words, tables and
      early exits agree with the definitions on single bits; the checksum by
      tables and merged parts agrees with the one bit by bit.
    - Untrusted input: validation of listpacks and intsets, decompression, the
      request parser and the loading of payloads and files never leave their
      buffers and always return; changes in a payload are noticed.
    - Cluster: one winner per epoch when the acting nodes agree on a set of voting
      masters and acknowledgements arrive while an election is open, and the tables of slots agree after every transfer.
    - Flaws: theorems state the inputs on which the code departs from what it
      means to do (an acknowledgement that is counted in a later election, a
      malformed length in a later read, counters of a moved dict, back lengths
      accepted by validation, saturation of bit fields, rotation of compressed
      lists, many empty strings in one push, many integers moved at once, the
      number of keys of LMPOP, and others).

    ** Not modelled

    The commands on strings, sets and hashes, blocking commands, the append-only file,
    replication, gossip, scripting, modules, eviction and the event loop: they
    are input and output, distributed protocols, or glue over the parts above.
    Of the modelled files: random sampling, defragmentation, statistics and
    debugging functions; the memory layout of dict entries and the accounting of
    allocated bytes; the listpack encoding of sorted sets; bookmarks of
    quicklists; the codecs of RDB values other than strings, and the records of
    functions, modules, hash templates and key metadata in RDB files, at which the
    modelled load ends; the threads of the
    input and output layer; the bit operations on vector registers. *)

From Stdlib Require Import ZArith Lia.
From stdpp Require Import base list numbers option tactics.

#[global] Open Scope Z_scope.

(** ** Machine integers

    A [w]-bit C integer is a [Z] kept in range by an explicit conversion:
    [wrapu w] is the conversion to an unsigned type of width [w] and [wraps w]
    the conversion to a two's complement signed type of width [w]. *)

Definition wrapu (w z : Z) : Z := z mod 2 ^ w.
Definition wraps (w z : Z) : Z := (z + 2 ^ (w - 1)) mod 2 ^ w - 2 ^ (w - 1).

Abbreviation u8 := (wrapu 8).
Abbreviation u16 := (wrapu 16).
Abbreviation u32 := (wrapu 32).
Abbreviation u64 := (wrapu 64).
Abbreviation s32 := (wraps 32).
Abbreviation s64 := (wraps 64).

Definition INT16_MIN : Z := -32768.
Definition INT16_MAX : Z := 32767.
Definition INT32_MIN : Z := -2147483648.
Definition INT32_MAX : Z := 2147483647.
Definition INT64_MIN : Z := -9223372036854775808.
Definition INT64_MAX : Z := 9223372036854775807.
Definition UINT32_MAX : Z := 4294967295.
Definition UINT64_MAX : Z := 18446744073709551615.

Definition is_u (w z : Z) : Prop := 0 <= z < 2 ^ w.
Definition is_s (w z : Z) : Prop := - 2 ^ (w - 1) <= z < 2 ^ (w - 1).

Create HintDb redis.
Create Rewrite HintDb zlen.

Lemma wrapu_id w z : 0 <= z < 2 ^ w -> wrapu w z = z.
Proof. intros. unfold wrapu. by rewrite Z.mod_small. Qed.

Lemma wrapu_range w z : 0 <= w -> 0 <= wrapu w z < 2 ^ w.
Proof. intros. apply Z.mod_pos_bound. lia. Qed.

Lemma pow2_split w : 0 < w -> 2 ^ w = 2 * 2 ^ (w - 1).
Proof.
  intros. replace w with (Z.succ (w - 1)) at 1 by lia.
  rewrite Z.pow_succ_r by lia. lia.
Qed.

Lemma wraps_id w z : 0 < w -> is_s w z -> wraps w z = z.
Proof.
  intros Hw [??]. unfold wraps. rewrite Z.mod_small; [lia|].
  rewrite (pow2_split w) by lia. lia.
Qed.

Lemma wraps_range w z : 0 < w -> is_s w (wraps w z).
Proof.
  intros Hw. unfold wraps, is_s.
  pose proof (Z.mod_pos_bound (z + 2 ^ (w - 1)) (2 ^ w) ltac:(lia)) as Hm.
  rewrite (pow2_split w) in Hm at 3 by lia. lia.
Qed.

(** Converting to unsigned and back to signed is the identity on the signed
    range: the fact every [memcpy] of an [intN_t] relies on. *)
Lemma wraps_wrapu w z : 0 < w -> wraps w (wrapu w z) = wraps w z.
Proof.
  intros Hw. unfold wraps, wrapu.
  rewrite Zplus_mod_idemp_l. reflexivity.
Qed.

#[export] Hint Resolve wrapu_id wraps_id : redis.

(** ** Little-endian byte strings *)

Definition is_byte (b : Z) : Prop := 0 <= b < 256.

Fixpoint le_bytes (n : nat) (z : Z) : list Z :=
  match n with
  | O => []
  | S n' => z mod 256 :: le_bytes n' (z / 256)
  end.

Fixpoint le_val (l : list Z) : Z :=
  match l with
  | [] => 0
  | b :: l' => b + 256 * le_val l'
  end.

Lemma length_le_bytes n z : length (le_bytes n z) = n.
Proof. revert z. induction n; simpl; intros; [done|by rewrite IHn]. Qed.

Lemma le_bytes_is_byte n z : Forall is_byte (le_bytes n z).
Proof.
  revert z. induction n as [|n IH]; intros z; simpl; constructor; [|done].
  unfold is_byte. apply Z.mod_pos_bound. lia.
Qed.

Lemma pow256_S n : 2 ^ (8 * Z.of_nat (S n)) = 256 * 2 ^ (8 * Z.of_nat n).
Proof.
  replace (8 * Z.of_nat (S n)) with (8 + 8 * Z.of_nat n) by lia.
  rewrite Z.pow_add_r by lia. lia.
Qed.

Lemma le_val_bytes n z : le_val (le_bytes n z) = wrapu (8 * Z.of_nat n) z.
Proof.
  revert z. induction n as [|n IH]; intros z; cbn [le_bytes le_val].
  - unfold wrapu. by rewrite Z.mod_1_r.
  - rewrite IH. unfold wrapu. rewrite pow256_S, Z.rem_mul_r by lia. lia.
Qed.

Lemma le_val_bound l : Forall is_byte l -> 0 <= le_val l < 2 ^ (8 * Z.of_nat (length l)).
Proof.
  induction 1 as [|b l [??] Hl IH]; cbn [le_val length]; [by cbn|].
  rewrite pow256_S. lia.
Qed.

Lemma le_bytes_val l : Forall is_byte l -> le_bytes (length l) (le_val l) = l.
Proof.
  induction 1 as [|b l Hb Hl IH]; cbn [le_val length le_bytes]; [done|].
  unfold is_byte in Hb. f_equal.
  - rewrite (Z.mul_comm 256), Z_mod_plus_full. apply Z.mod_small. lia.
  - rewrite (Z.mul_comm 256), Z.div_add by lia. rewrite Z.div_small by lia. done.
Qed.

(** ** C buffers

    A C object is a list of bytes.  Reads and writes outside of the object are
    undefined behaviour, which the model reports as [None]: a theorem that an
    operation returns [Some] is a memory-safety theorem. *)

Definition zlen {A} (l : list A) : Z := Z.of_nat (length l).

Definition rd (buf : list Z) (i : Z) : option Z :=
  if (0 <=? i) then buf !! Z.to_nat i else None.

Definition rd_bytes (buf : list Z) (off n : Z) : option (list Z) :=
  if (0 <=? off) && (0 <=? n) && (off + n <=? zlen buf)
  then Some (take (Z.to_nat n) (drop (Z.to_nat off) buf)) else None.

Definition wr_bytes (buf : list Z) (off : Z) (bs : list Z) : option (list Z) :=
  if (0 <=? off) && (off + zlen bs <=? zlen buf)
  then Some (take (Z.to_nat off) buf ++ bs ++ drop (Z.to_nat off + length bs) buf)
  else None.

Definition wr (buf : list Z) (i : Z) (b : Z) : option (list Z) := wr_bytes buf i [b].

Definition memmove (buf : list Z) (dst src n : Z) : option (list Z) :=
  bs ← rd_bytes buf src n; wr_bytes buf dst bs.

(** [realloc junk buf n]: the block resized to [n] bytes.  Bytes past the old
    size are indeterminate; [junk] gives whatever the allocator left there. *)
Definition realloc (junk : nat -> Z) (buf : list Z) (n : Z) : list Z :=
  take (Z.to_nat n) buf ++ (junk <$> seq (length buf) (Z.to_nat n - length buf)).

(** [assert] of the C code: a failed assertion aborts the program. *)
Definition cassert (b : bool) : option unit := if b then Some () else None.

(** *** Lemmas on buffers *)

Lemma zlen_nonneg {A} (l : list A) : 0 <= zlen l.
Proof. unfold zlen. lia. Qed.

Lemma zlen_app {A} (l k : list A) : zlen (l ++ k) = zlen l + zlen k.
Proof. unfold zlen. rewrite length_app. lia. Qed.

Lemma zlen_cons {A} (x : A) l : zlen (x :: l) = 1 + zlen l.
Proof. unfold zlen. simpl. lia. Qed.

Lemma zlen_nil {A} : zlen (@nil A) = 0.
Proof. done. Qed.

Lemma zlen_le_bytes n z : zlen (le_bytes n z) = Z.of_nat n.
Proof. unfold zlen. by rewrite length_le_bytes. Qed.

Lemma zlen_take {A} (l : list A) n :
  0 <= n <= zlen l -> zlen (take (Z.to_nat n) l) = n.
Proof. unfold zlen. rewrite length_take. lia. Qed.

Lemma zlen_drop {A} (l : list A) n :
  0 <= n <= zlen l -> zlen (drop (Z.to_nat n) l) = zlen l - n.
Proof. unfold zlen. rewrite length_drop. lia. Qed.

Lemma zlen_0_nil {A} (l : list A) : zlen l = 0 -> l = [].
Proof. destruct l; [done|]. rewrite zlen_cons. pose proof (zlen_nonneg l). lia. Qed.

#[export] Hint Rewrite @zlen_app @zlen_cons @zlen_nil zlen_le_bytes : zlen.

(** [zlia]: arithmetic with the length of every list normalised. *)
Ltac zlen_facts :=
  repeat match goal with
  | |- context [zlen ?l] =>
      lazymatch goal with _ : 0 <= zlen l |- _ => fail | _ => pose proof (zlen_nonneg l) end
  | _ : context [zlen ?l] |- _ =>
      lazymatch goal with _ : 0 <= zlen l |- _ => fail | _ => pose proof (zlen_nonneg l) end
  end.
Ltac zlia := autorewrite with zlen in *; zlen_facts; lia.

Lemma rd_lookup buf i : 0 <= i -> rd buf i = buf !! Z.to_nat i.
Proof. intros. unfold rd. by destruct (Z.leb_spec 0 i); [|lia]. Qed.

Lemma rd_Some buf i : 0 <= i < zlen buf -> exists b, rd buf i = Some b.
Proof.
  intros. rewrite rd_lookup by lia. apply lookup_lt_is_Some_2. unfold zlen in *. lia.
Qed.

Lemma rd_Some_inv buf i b : rd buf i = Some b -> 0 <= i < zlen buf.
Proof.
  unfold rd. destruct (Z.leb_spec 0 i); [|done].
  intros Hb%lookup_lt_Some. unfold zlen. lia.
Qed.

Lemma rd_None buf i : i < 0 \/ zlen buf <= i -> rd buf i = None.
Proof.
  intros. destruct (rd buf i) eqn:E; [|done]. apply rd_Some_inv in E. lia.
Qed.

Lemma rd_app_l l k i : i < zlen l -> rd (l ++ k) i = rd l i.
Proof.
  intros. unfold rd. destruct (Z.leb_spec 0 i); [|done].
  apply lookup_app_l. unfold zlen in *. lia.
Qed.

Lemma rd_app_r l k i : zlen l <= i -> rd (l ++ k) i = rd k (i - zlen l).
Proof.
  intros. pose proof (zlen_nonneg l). rewrite !rd_lookup by lia.
  rewrite lookup_app_r by (unfold zlen in *; lia). f_equal. unfold zlen. lia.
Qed.

Lemma rd_cons b l i : 0 < i -> rd (b :: l) i = rd l (i - 1).
Proof.
  intros. rewrite !rd_lookup by lia.
  replace (Z.to_nat i) with (S (Z.to_nat (i - 1))) by lia. done.
Qed.

Lemma rd_ext l k : zlen l = zlen k -> (forall i, 0 <= i < zlen l -> rd l i = rd k i) -> l = k.
Proof.
  intros Hlen H. apply list_eq. intros i.
  destruct (decide (i < length l)%nat).
  - specialize (H (Z.of_nat i)). rewrite !rd_lookup, Nat2Z.id in H by lia.
    apply H. unfold zlen. lia.
  - rewrite !lookup_ge_None_2; [done| |]; unfold zlen in *; lia.
Qed.

Lemma rd_bytes_unfold buf off n :
  0 <= off -> 0 <= n -> off + n <= zlen buf ->
  rd_bytes buf off n = Some (take (Z.to_nat n) (drop (Z.to_nat off) buf)).
Proof.
  intros. unfold rd_bytes.
  by rewrite !(proj2 (Z.leb_le _ _)) by lia.
Qed.

Lemma rd_bytes_inv buf off n bs :
  rd_bytes buf off n = Some bs ->
  0 <= off /\ zlen bs = n /\ off + n <= zlen buf /\
  (forall i, 0 <= i < n -> rd bs i = rd buf (off + i)).
Proof.
  unfold rd_bytes. destruct (_ && _) eqn:E; [|done]. intros [= <-].
  rewrite !andb_true_iff, !Z.leb_le in E. destruct E as [[??]?].
  repeat split; [done| |done|].
  - rewrite zlen_take; [done|]. rewrite zlen_drop; lia.
  - intros i Hi. rewrite !rd_lookup, lookup_take_lt, lookup_drop by lia.
    f_equal. lia.
Qed.

Lemma rd_bytes_intro buf off n bs :
  0 <= off -> zlen bs = n -> off + n <= zlen buf ->
  (forall i, 0 <= i < n -> rd buf (off + i) = rd bs i) ->
  rd_bytes buf off n = Some bs.
Proof.
  intros H1 H2 H3 H4. pose proof (zlen_nonneg bs).
  destruct (rd_bytes buf off n) as [bs'|] eqn:E.
  - apply rd_bytes_inv in E as (?&?&?&Hi). f_equal. apply rd_ext; [lia|].
    intros i ?. rewrite Hi, H4 by lia. done.
  - by rewrite rd_bytes_unfold in E by lia.
Qed.

(** Reading the middle of a concatenation, the way the list-of-entries
    representations are read back. *)
Lemma rd_bytes_app a m c : rd_bytes (a ++ m ++ c) (zlen a) (zlen m) = Some m.
Proof.
  apply rd_bytes_intro; try zlia.
  intros i Hi. zlen_facts. rewrite rd_app_r, rd_app_l by lia. f_equal. lia.
Qed.

Lemma rd_bytes_at a m c off n :
  off = zlen a -> n = zlen m -> rd_bytes (a ++ m ++ c) off n = Some m.
Proof. intros -> ->. apply rd_bytes_app. Qed.

Lemma rd_bytes_head m c n : n = zlen m -> rd_bytes (m ++ c) 0 n = Some m.
Proof. intros ->. apply (rd_bytes_app [] m c). Qed.

Lemma rd_app_mid a b c : rd (a ++ b :: c) (zlen a) = Some b.
Proof. zlen_facts. rewrite rd_app_r, Z.sub_diag by lia. done. Qed.

Lemma wr_bytes_spec buf off bs :
  0 <= off -> off + zlen bs <= zlen buf ->
  exists buf', wr_bytes buf off bs = Some buf' /\ zlen buf' = zlen buf /\
    (forall i, 0 <= i < zlen bs -> rd buf' (off + i) = rd bs i) /\
    (forall i, i < off \/ off + zlen bs <= i -> rd buf' i = rd buf i).
Proof.
  intros H1 H2. unfold wr_bytes. rewrite !(proj2 (Z.leb_le _ _)) by lia.
  eexists. split; [done|]. zlen_facts.
  assert (Hd : zlen (drop (Z.to_nat off + length bs) buf) = zlen buf - off - zlen bs).
  { unfold zlen in *. rewrite length_drop. lia. }
  assert (Ht : zlen (take (Z.to_nat off) buf) = off) by (apply zlen_take; lia).
  repeat split.
  - zlia.
  - intros i Hi. rewrite rd_app_r, rd_app_l by lia. f_equal. lia.
  - intros i Hi. destruct (decide (i < off)).
    + destruct (decide (i < 0)); [by rewrite !rd_None by lia|].
      rewrite rd_app_l, !rd_lookup, lookup_take_lt by lia. done.
    + rewrite rd_app_r, rd_app_r, !rd_lookup, lookup_drop by lia.
      f_equal. unfold zlen in *. lia.
Qed.

Lemma wr_bytes_app a m c bs :
  zlen m = zlen bs -> wr_bytes (a ++ m ++ c) (zlen a) bs = Some (a ++ bs ++ c).
Proof.
  intros H. unfold wr_bytes. rewrite !(proj2 (Z.leb_le _ _)) by zlia.
  unfold zlen in *. f_equal. rewrite Nat2Z.id, take_app_length. f_equal. f_equal.
  replace (length bs) with (length m) by lia.
  rewrite drop_app_add, drop_app_length. done.
Qed.

(** The two frame rules every in-place update relies on. *)
Lemma rd_wr_same buf off bs buf' :
  wr_bytes buf off bs = Some buf' -> rd_bytes buf' off (zlen bs) = Some bs.
Proof.
  intros H. assert (Hr : 0 <= off /\ off + zlen bs <= zlen buf).
  { unfold wr_bytes in H. destruct (_ && _) eqn:E in H; [|done].
    rewrite !andb_true_iff, !Z.leb_le in E. lia. }
  destruct (wr_bytes_spec buf off bs) as (b & Hb & Hl & Hin & _); [lia..|].
  simplify_eq. apply rd_bytes_intro; try zlia; done.
Qed.

Lemma rd_wr_disjoint buf off bs buf' o n :
  wr_bytes buf off bs = Some buf' -> o + n <= off \/ off + zlen bs <= o ->
  rd_bytes buf' o n = rd_bytes buf o n.
Proof.
  intros H Hd. assert (Hr : 0 <= off /\ off + zlen bs <= zlen buf).
  { unfold wr_bytes in H. destruct (_ && _) eqn:E in H; [|done].
    rewrite !andb_true_iff, !Z.leb_le in E. lia. }
  destruct (wr_bytes_spec buf off bs) as (b & Hb & Hl & _ & Hout); [lia..|].
  simplify_eq. destruct (rd_bytes buf o n) as [bs'|] eqn:E.
  - apply rd_bytes_inv in E as (?&?&?&Hi). apply rd_bytes_intro; [lia..|].
    intros i Hi'. rewrite Hi by lia. apply Hout. lia.
  - unfold rd_bytes in *. rewrite Hl. by destruct (_ && _).
Qed.

Lemma wr_bytes_zlen buf off bs buf' :
  wr_bytes buf off bs = Some buf' -> zlen buf' = zlen buf.
Proof.
  intros H. unfold wr_bytes in H. destruct (_ && _) eqn:E in H; [|done].
  rewrite !andb_true_iff, !Z.leb_le in E. simplify_eq.
  autorewrite with zlen. zlen_facts. rewrite zlen_take by lia.
  unfold zlen in *. rewrite length_drop. lia.
Qed.

Lemma memmove_spec buf dst src n :
  0 <= dst -> 0 <= src -> 0 <= n -> dst + n <= zlen buf -> src + n <= zlen buf ->
  exists buf', memmove buf dst src n = Some buf' /\ zlen buf' = zlen buf /\
    (forall i, 0 <= i < n -> rd buf' (dst + i) = rd buf (src + i)) /\
    (forall i, i < dst \/ dst + n <= i -> rd buf' i = rd buf i).
Proof.
  intros. unfold memmove. destruct (rd_bytes buf src n) as [bs|] eqn:E.
  2:{ by rewrite rd_bytes_unfold in E by lia. }
  apply rd_bytes_inv in E as (?&?&?&Hi). cbn.
  destruct (wr_bytes_spec buf dst bs) as (b & Hb & Hl & Hin & Hout); [lia..|].
  exists b. repeat split; [done|done| |].
  - intros i ?. rewrite Hin, Hi by lia. done.
  - intros i ?. apply Hout. lia.
Qed.

Lemma zlen_realloc junk buf n : 0 <= n -> zlen (realloc junk buf n) = n.
Proof.
  intros. unfold realloc, zlen. rewrite length_app, length_take, length_fmap, length_seq. lia.
Qed.

Lemma rd_realloc junk buf n i :
  i < Z.min n (zlen buf) -> rd (realloc junk buf n) i = rd buf i.
Proof.
  intros. destruct (decide (i < 0)); [by rewrite !rd_None by lia|].
  unfold realloc. rewrite rd_app_l.
  - rewrite !rd_lookup, lookup_take_lt by lia. done.
  - unfold zlen in *. rewrite length_take. lia.
Qed.

(** Two buffers that agree byte for byte on a range give the same read. *)
Lemma rd_bytes_agree buf buf' o o' n :
  0 <= o -> 0 <= o' -> 0 <= n -> o + n <= zlen buf -> o' + n <= zlen buf' ->
  (forall i, 0 <= i < n -> rd buf' (o' + i) = rd buf (o + i)) ->
  rd_bytes buf' o' n = rd_bytes buf o n.
Proof.
  intros ????? H. destruct (rd_bytes buf o n) as [bs|] eqn:E.
  - apply rd_bytes_inv in E as (?&?&?&Hi). apply rd_bytes_intro; [lia..|].
    intros i ?. rewrite H, Hi by lia. done.
  - by rewrite rd_bytes_unfold in E by lia.
Qed.

Lemma rd_app_off a b i : 0 <= i -> rd (a ++ b) (zlen a + i) = rd b i.
Proof. intros. rewrite rd_app_r by lia. f_equal. lia. Qed.

(** *** Buffers as concatenations *)

Lemma split3 {A} (buf : list A) off n :
  0 <= off -> 0 <= n -> off + n <= zlen buf ->
  exists a m c, buf = a ++ m ++ c /\ zlen a = off /\ zlen m = n.
Proof.
  intros. exists (take (Z.to_nat off) buf), (take (Z.to_nat n) (drop (Z.to_nat off) buf)),
    (drop (Z.to_nat n) (drop (Z.to_nat off) buf)).
  rewrite !take_drop. split; [done|]. rewrite zlen_take by lia. split; [done|].
  apply zlen_take. rewrite zlen_drop by lia. lia.
Qed.

Lemma wr_bytes_at a m c bs off :
  off = zlen a -> zlen m = zlen bs -> wr_bytes (a ++ m ++ c) off bs = Some (a ++ bs ++ c).
Proof. intros ->. apply wr_bytes_app. Qed.

Lemma wr_bytes_head m c bs : zlen m = zlen bs -> wr_bytes (m ++ c) 0 bs = Some (bs ++ c).
Proof. intros H. by apply (wr_bytes_at [] m c bs 0). Qed.

Lemma rd_at a b c i : i = zlen a -> rd (a ++ b :: c) i = Some b.
Proof. intros ->. apply rd_app_mid. Qed.

(** A byte string read inside a larger buffer. *)
Lemma rd_embed a e c i b : rd e i = Some b -> rd (a ++ e ++ c) (zlen a + i) = Some b.
Proof.
  intros H. pose proof (rd_Some_inv _ _ _ H). rewrite rd_app_off, rd_app_l by lia. done.
Qed.

Lemma rd_bytes_embed a e c off n bs :
  rd_bytes e off n = Some bs -> rd_bytes (a ++ e ++ c) (zlen a + off) n = Some bs.
Proof.
  intros H. apply rd_bytes_inv in H as (?&?&?&Hi). zlen_facts.
  apply rd_bytes_intro; [lia..|zlia|]. intros i Hr.
  rewrite <- Z.add_assoc, rd_app_off, rd_app_l by lia. symmetry. by apply Hi.
Qed.

(** Moving the end [t] of a block after its beginning [p]. *)
Lemma memmove_app p m t s ne dst src n :
  dst = zlen p + ne -> src = zlen p + zlen m -> n = zlen t -> 0 <= ne ->
  dst + n <= zlen (p ++ m ++ t ++ s) ->
  exists m' s', memmove (p ++ m ++ t ++ s) dst src n = Some (p ++ m' ++ t ++ s') /\
    zlen m' = ne /\ zlen (p ++ m' ++ t ++ s') = zlen (p ++ m ++ t ++ s).
Proof.
  intros -> -> -> Hne Hb. unfold memmove.
  pose proof (rd_bytes_at (p ++ m) t s (zlen p + zlen m) (zlen t)) as Hr.
  rewrite <- app_assoc, zlen_app in Hr. rewrite Hr by done. cbn [mbind option_bind].
  destruct (split3 (m ++ t ++ s) ne (zlen t)) as (a & x & c & He & Ha & Hx);
    [lia|zlen_facts; lia|rewrite zlen_app in Hb; lia|].
  exists a, c. rewrite He, app_assoc. rewrite wr_bytes_at by (rewrite ?zlen_app; lia).
  rewrite <- !app_assoc. split; [done|]. split; [done|]. zlia.
Qed.

Lemma realloc_app junk p s n :
  zlen p <= n -> exists s', realloc junk (p ++ s) n = p ++ s' /\ zlen (p ++ s') = n.
Proof.
  intros H. pose proof (zlen_nonneg p).
  exists (take (Z.to_nat n - length p) s ++ (junk <$> seq (length (p ++ s)) (Z.to_nat n - length (p ++ s)))).
  assert (He : realloc junk (p ++ s) n = p ++ take (Z.to_nat n - length p) s ++
    (junk <$> seq (length (p ++ s)) (Z.to_nat n - length (p ++ s)))).
  { unfold realloc. rewrite take_app_ge, <- app_assoc by (unfold zlen in *; lia). done. }
  split; [done|]. rewrite <- He. apply zlen_realloc. lia.
Qed.

(** ** Bit operations *)

Lemma land_ones n x : 0 <= n -> Z.land x (2 ^ n - 1) = x mod 2 ^ n.
Proof. intros. rewrite <- Z.land_ones by lia. by rewrite Z.ones_equiv, Z.sub_1_r. Qed.

Lemma land_255 x : Z.land x 255 = x mod 256.
Proof. apply (land_ones 8). lia. Qed.

(** Fields that do not overlap: [|] is [+]. *)
Lemma lor_shiftl_add a b n : 0 <= n -> 0 <= b < 2 ^ n -> Z.lor b (Z.shiftl a n) = b + a * 2 ^ n.
Proof.
  intros Hn Hb. rewrite <- Z.shiftl_mul_pow2 by lia. symmetry.
  assert (H : Z.land b (Z.shiftl a n) = 0).
  { apply Z.bits_inj'. intros i Hi. rewrite Z.land_spec, Z.bits_0.
    destruct (decide (i < n)).
    - by rewrite Z.shiftl_spec_low, andb_false_r by lia.
    - rewrite <- (Z.mod_small b (2 ^ n)) by done.
      by rewrite Z.mod_pow2_bits_high by lia. }
  rewrite Z.add_nocarry_lxor by done. by apply Z.lxor_lor.
Qed.

(** A property of bytes is checked on the 256 of them. *)
Lemma byte_check (P : Z -> bool) :
  forallb P (seqZ 0 256) = true -> forall b, is_byte b -> P b = true.
Proof.
  intros H b Hb. rewrite forallb_forall in H. apply H, list_elem_of_In, elem_of_seqZ.
  unfold is_byte in Hb. lia.
Qed.

(** Membership in lists built by [::] and [++], from the hypotheses. *)
Ltac in_list :=
  repeat first [rewrite elem_of_app | rewrite elem_of_cons]; first [tauto | intuition congruence].

(** Filtering by a test that always, or never, holds. *)
Lemma filter_all {A} (P : A -> Prop) `{!forall x, Decision (P x)} l : Forall P l -> filter P l = l.
Proof. induction 1 as [|x l Hx Hl IH]; [done|]. rewrite filter_cons, decide_True by done. by rewrite IH. Qed.

Lemma filter_none {A} (P : A -> Prop) `{!forall x, Decision (P x)} l : Forall (fun x => ~ P x) l -> filter P l = [].
Proof. induction 1 as [|x l Hx Hl IH]; [done|]. by rewrite filter_cons, decide_False. Qed.
