(* ===== verification/Intset.v ===== *)
(** * The integer set of src/intset.c

    A sorted array of integers stored at the smallest width (2, 4 or 8 bytes)
    that fits every member, in one allocated block.  The record keeps the two
    header fields and the bytes of the flexible [contents] array; every access
    goes through the byte-level reads and writes of the prelude, so an access
    outside of the block shows up as [None].  Hosts are little-endian, where
    [intrev32ifbe] and the [memrevXXifbe] macros are the identity. *)

From stdpp Require Import sorting base list numbers option gmap tactics.
From S2P Require Import Prelude.

Record intset := mk_intset {
  encoding : Z;        (* uint32_t *)
  is_length : Z;       (* uint32_t length *)
  contents : list Z    (* the bytes of contents[] that are allocated *)
}.

Definition INTSET_ENC_INT16 : Z := 2.
Definition INTSET_ENC_INT32 : Z := 4.
Definition INTSET_ENC_INT64 : Z := 8.
Definition sizeof_intset : Z := 8.
Definition SIZE_MAX : Z := UINT64_MAX.

(** ** Operations *)

Definition _intsetValueEncoding (v : Z) : Z :=
  if (v <? INT32_MIN) || (v >? INT32_MAX) then INTSET_ENC_INT64
  else if (v <? INT16_MIN) || (v >? INT16_MAX) then INTSET_ENC_INT32
  else INTSET_ENC_INT16.

Definition _intsetGetEncoded (s : intset) (pos enc : Z) : option Z :=
  if enc =? INTSET_ENC_INT64 then
    bs ← rd_bytes (contents s) (pos * 8) 8; Some (wraps 64 (le_val bs))
  else if enc =? INTSET_ENC_INT32 then
    bs ← rd_bytes (contents s) (pos * 4) 4; Some (wraps 32 (le_val bs))
  else
    bs ← rd_bytes (contents s) (pos * 2) 2; Some (wraps 16 (le_val bs)).

Definition _intsetGet (s : intset) (pos : Z) : option Z :=
  _intsetGetEncoded s pos (u8 (encoding s)).

Definition with_contents (s : intset) (c : list Z) : intset :=
  mk_intset (encoding s) (is_length s) c.
Definition with_length (s : intset) (n : Z) : intset :=
  mk_intset (encoding s) n (contents s).
Definition with_encoding (s : intset) (e : Z) : intset :=
  mk_intset e (is_length s) (contents s).

Definition _intsetSet (s : intset) (pos value : Z) : option intset :=
  if encoding s =? INTSET_ENC_INT64 then
    c ← wr_bytes (contents s) (pos * 8) (le_bytes 8 value); Some (with_contents s c)
  else if encoding s =? INTSET_ENC_INT32 then
    c ← wr_bytes (contents s) (pos * 4) (le_bytes 4 value); Some (with_contents s c)
  else
    c ← wr_bytes (contents s) (pos * 2) (le_bytes 2 value); Some (with_contents s c).

Definition intsetNew : intset := mk_intset INTSET_ENC_INT16 0 [].

Definition intsetAllocSize (s : intset) : option Z :=
  let size := u64 (is_length s * encoding s) in
  _ ← cassert (size <=? SIZE_MAX - sizeof_intset);
  Some (sizeof_intset + size).

Definition intsetResize (junk : nat -> Z) (s : intset) (len : Z) : option intset :=
  let size := u64 (len * encoding s) in
  _ ← cassert (size <=? SIZE_MAX - sizeof_intset);
  Some (with_contents s (realloc junk (contents s) size)).

(** The binary search.  [min], [max] and [mid] are C [int]s; the sum is taken
    on [unsigned int].  Each round narrows [min..max], so [max - min + 1] rounds
    are enough; the search that runs out of fuel is [None]. *)
Fixpoint intsetSearch_loop (fuel : nat) (s : intset) (value min max mid cur : Z)
  : option (Z * Z * Z) :=
  if max >=? min then
    match fuel with
    | O => None
    | S fuel =>
        let mid := s32 (Z.shiftr (u32 (u32 min + u32 max)) 1) in
        cur ← _intsetGet s mid;
        if value >? cur then intsetSearch_loop fuel s value (mid + 1) max mid cur
        else if value <? cur then intsetSearch_loop fuel s value min (mid - 1) mid cur
        else Some (min, mid, cur)
    end
  else Some (min, mid, cur).

Definition intsetSearch (s : intset) (value : Z) : option (bool * Z) :=
  let min := 0 in
  let max := s32 (is_length s - 1) in
  let mid := -1 in
  let cur := -1 in
  let search :=
    '(min, mid, cur) ← intsetSearch_loop (Z.to_nat (max - min + 1)) s value min max mid cur;
    if value =? cur then Some (true, u32 mid) else Some (false, u32 min) in
  if is_length s =? 0 then Some (false, 0)
  else
    last ← _intsetGet s max;
    if value >? last then Some (false, is_length s)
    else
      first ← _intsetGet s 0;
      if value <? first then Some (false, 0) else search.

(** [while(length--) _intsetSet(is,length+prepend,_intsetGetEncoded(is,length,curenc))]:
    every element is widened in place, from the last to the first. *)
Fixpoint intsetUpgrade_loop (len : nat) (s : intset) (prepend curenc : Z) : option intset :=
  match len with
  | O => Some s
  | S len =>
      v ← _intsetGetEncoded s (Z.of_nat len) curenc;
      s ← _intsetSet s (Z.of_nat len + prepend) v;
      intsetUpgrade_loop len s prepend curenc
  end.

Definition intsetUpgradeAndAdd (junk : nat -> Z) (s : intset) (value : Z) : option intset :=
  let curenc := u8 (encoding s) in
  let newenc := _intsetValueEncoding value in
  let len := s32 (is_length s) in
  let prepend := if value <? 0 then 1 else 0 in
  let s := with_encoding s newenc in
  s ← intsetResize junk s (u32 (is_length s + 1));
  _ ← cassert (0 <=? len);
  s ← intsetUpgrade_loop (Z.to_nat len) s prepend curenc;
  s ← (if prepend =? 0 then _intsetSet s (s32 (is_length s)) value else _intsetSet s 0 value);
  Some (with_length s (u32 (is_length s + 1))).

(** The byte count of [intsetMoveTail] is a [uint32_t], the product included. *)
Definition intsetMoveTail_bytes (s : intset) (from : Z) : Z :=
  let bytes := u32 (is_length s - from) in
  if encoding s =? INTSET_ENC_INT64 then u32 (bytes * 8)
  else if encoding s =? INTSET_ENC_INT32 then u32 (bytes * 4)
  else u32 (bytes * 2).

Definition intsetMoveTail (s : intset) (from to : Z) : option intset :=
  let bytes := intsetMoveTail_bytes s from in
  let esize := if encoding s =? INTSET_ENC_INT64 then 8
               else if encoding s =? INTSET_ENC_INT32 then 4 else 2 in
  c ← memmove (contents s) (to * esize) (from * esize) bytes;
  Some (with_contents s c).

Definition intsetAdd (junk : nat -> Z) (s : intset) (value : Z) : option (intset * bool) :=
  let valenc := _intsetValueEncoding value in
  if valenc >? encoding s then
    s ← intsetUpgradeAndAdd junk s value; Some (s, true)
  else
    '(found, pos) ← intsetSearch s value;
    if found : bool then Some (s, false)
    else
      s ← intsetResize junk s (u32 (is_length s + 1));
      s ← (if pos <? is_length s then intsetMoveTail s pos (u32 (pos + 1)) else Some s);
      s ← _intsetSet s (s32 pos) value;
      Some (with_length s (u32 (is_length s + 1)), true).

Definition intsetRemove (junk : nat -> Z) (s : intset) (value : Z) : option (intset * bool) :=
  let valenc := _intsetValueEncoding value in
  if valenc <=? encoding s then
    '(found, pos) ← intsetSearch s value;
    if found : bool then
      let len := is_length s in
      s ← (if pos <? u32 (len - 1) then intsetMoveTail s (u32 (pos + 1)) pos else Some s);
      s ← intsetResize junk s (u32 (len - 1));
      Some (with_length s (u32 (len - 1)), true)
    else Some (s, false)
  else Some (s, false).

Definition intsetFind (s : intset) (value : Z) : option bool :=
  let valenc := _intsetValueEncoding value in
  if valenc <=? encoding s then r ← intsetSearch s value; Some r.1 else Some false.

(** [genrand64_int64()] is the random word [r]. *)
Definition intsetRandom (s : intset) (r : Z) : option Z :=
  let len := is_length s in
  _ ← cassert (negb (len =? 0));
  _intsetGet s (s32 (u64 r mod len)).

Definition intsetMax (s : intset) : option Z := _intsetGet s (s32 (u32 (is_length s - 1))).
Definition intsetMin (s : intset) : option Z := _intsetGet s 0.

Definition intsetGet (s : intset) (pos : Z) : option (option Z) :=
  if pos <? is_length s then v ← _intsetGet s (s32 pos); Some (Some v) else Some None.

Definition intsetLen (s : intset) : Z := is_length s.
Definition intsetBlobLen (s : intset) : Z := u64 (sizeof_intset + is_length s * encoding s).

(** The header of a serialized set is read from the first eight bytes. *)
Definition intset_of_blob (p : list Z) : option intset :=
  e ← rd_bytes p 0 4; l ← rd_bytes p 4 4;
  Some (mk_intset (le_val e) (le_val l) (drop 8 p)).

Definition intset_blob (s : intset) : list Z :=
  le_bytes 4 (encoding s) ++ le_bytes 4 (is_length s) ++ contents s.

Fixpoint intsetValidate_loop (n : nat) (s : intset) (i prev : Z) : option bool :=
  match n with
  | O => Some true
  | S n =>
      cur ← _intsetGet s (s32 i);
      if cur <=? prev then Some false else intsetValidate_loop n s (i + 1) cur
  end.

Definition intsetValidateIntegrity (p : list Z) (deep : bool) : option bool :=
  let size := zlen p in
  if size <? sizeof_intset then Some false
  else
    s ← intset_of_blob p;
    let enc := encoding s in
    if negb ((enc =? INTSET_ENC_INT64) || (enc =? INTSET_ENC_INT32) || (enc =? INTSET_ENC_INT16))
    then Some false
    else
      let count := is_length s in
      if negb (u64 (sizeof_intset + count * enc) =? size) then Some false
      else if count =? 0 then Some false
      else if negb deep then Some true
      else
        prev ← _intsetGet s 0;
        intsetValidate_loop (Z.to_nat (count - 1)) s 1 prev.

(** ** Representation

    [intset_repr s vs]: the block [s] holds exactly the members [vs], in
    strictly increasing order, each stored at the set's encoding.  This is the
    invariant of the component; [vs] is what a client sees. *)

Definition valid_enc (e : Z) : Prop := e = 2 \/ e = 4 \/ e = 8.

Definition holds (s : intset) (vs : list Z) : Prop :=
  valid_enc (encoding s) /\ is_length s = zlen vs /\
  zlen (contents s) = zlen vs * encoding s /\
  mapM (_intsetGet s) (seqZ 0 (is_length s)) = Some vs.

Definition intset_repr (s : intset) (vs : list Z) : Prop :=
  holds s vs /\ StronglySorted Z.lt vs.

(** The largest set on which the 32-bit byte count of [intsetMoveTail] and the
    [int] positions of the search are exact. *)
Definition small_enough (vs : list Z) : Prop := (zlen vs + 1) * 8 < 2 ^ 32.

(** *** Element access *)

Lemma getEncoded_eq s pos enc :
  valid_enc enc ->
  _intsetGetEncoded s pos enc =
    (bs ← rd_bytes (contents s) (pos * enc) enc; Some (wraps (8 * enc) (le_val bs))).
Proof. by intros [->|[->| ->]]. Qed.

Lemma intsetGet_eq s pos :
  valid_enc (encoding s) ->
  _intsetGet s pos =
    (bs ← rd_bytes (contents s) (pos * encoding s) (encoding s);
     Some (wraps (8 * encoding s) (le_val bs))).
Proof.
  intros H. unfold _intsetGet. rewrite <- getEncoded_eq by done.
  f_equal. apply wrapu_id. unfold valid_enc in H. lia.
Qed.

Lemma intsetSet_eq s pos v :
  valid_enc (encoding s) ->
  _intsetSet s pos v =
    (c ← wr_bytes (contents s) (pos * encoding s) (le_bytes (Z.to_nat (encoding s)) v);
     Some (with_contents s c)).
Proof. destruct s as [e l c]. cbn. by intros [->|[->| ->]]. Qed.

Definition fits (enc v : Z) : Prop := is_s (8 * enc) v.

Lemma valueEncoding_valid v : valid_enc (_intsetValueEncoding v).
Proof. unfold _intsetValueEncoding, valid_enc. repeat case_match; auto. Qed.

Lemma valueEncoding_fits v enc :
  valid_enc enc -> is_s 64 v -> _intsetValueEncoding v <= enc <-> fits enc v.
Proof.
  unfold _intsetValueEncoding, fits, is_s, INT32_MIN, INT32_MAX, INT16_MIN, INT16_MAX,
    INTSET_ENC_INT16, INTSET_ENC_INT32, INTSET_ENC_INT64.
  intros [->|[->| ->]] H; cbn in *; repeat case_match; lia.
Qed.

Lemma fits_mono e e' v : valid_enc e -> valid_enc e' -> e <= e' -> fits e v -> fits e' v.
Proof.
  unfold fits, is_s. intros [->|[->| ->]] [->|[->| ->]] ?; cbn in *; lia.
Qed.

Lemma fits_roundtrip enc v :
  valid_enc enc -> fits enc v ->
  wraps (8 * enc) (le_val (le_bytes (Z.to_nat enc) v)) = v.
Proof.
  intros He Hf. assert (0 < enc) by (unfold valid_enc in He; lia).
  rewrite le_val_bytes, Z2Nat.id by lia.
  rewrite wraps_wrapu by lia. apply wraps_id; [lia|done].
Qed.

Lemma wraps_fits enc z : valid_enc enc -> fits enc (wraps (8 * enc) z).
Proof. intros He. apply wraps_range. unfold valid_enc in He. lia. Qed.

(** [holds], element by element. *)
Lemma holds_pointwise s vs :
  valid_enc (encoding s) -> is_length s = zlen vs ->
  zlen (contents s) = zlen vs * encoding s ->
  (forall i v, vs !! i = Some v -> _intsetGet s (Z.of_nat i) = Some v) -> holds s vs.
Proof.
  intros He Hl Hc Hp. repeat split; [done..|].
  apply mapM_Some_2, Forall2_same_length_lookup_2.
  - rewrite length_seqZ, Hl. unfold zlen. lia.
  - intros i z v Hz Hv. apply lookup_seqZ in Hz as [-> _]. apply Hp in Hv. exact Hv.
Qed.

Lemma holds_get s vs i v :
  holds s vs -> vs !! i = Some v -> _intsetGet s (Z.of_nat i) = Some v.
Proof.
  intros (He & Hl & Hc & Hm) Hv. apply mapM_Some_1 in Hm.
  eapply Forall2_lookup_r in Hm as (z & Hz & Hg); [|done].
  apply lookup_seqZ in Hz as [-> _]. exact Hg.
Qed.

Lemma holds_get_z s vs z :
  holds s vs -> 0 <= z < zlen vs ->
  exists v, vs !! Z.to_nat z = Some v /\ _intsetGet s z = Some v.
Proof.
  intros H Hz. destruct (lookup_lt_is_Some_2 vs (Z.to_nat z)) as [v Hv].
  { unfold zlen in Hz. lia. }
  exists v. split; [done|]. pose proof (holds_get _ _ _ _ H Hv) as Hg.
  by rewrite Z2Nat.id in Hg by lia.
Qed.

Lemma intsetGet_fits s pos v :
  valid_enc (encoding s) -> _intsetGet s pos = Some v -> fits (encoding s) v.
Proof.
  intros He. rewrite intsetGet_eq by done.
  destruct (rd_bytes _ _ _); cbn; [|done]. intros [= <-]. by apply wraps_fits.
Qed.

Lemma holds_fits s vs v : holds s vs -> v ∈ vs -> fits (encoding s) v.
Proof.
  intros H [i Hi]%list_elem_of_lookup. eapply intsetGet_fits; [apply H|].
  eapply holds_get; done.
Qed.

Lemma valid_enc_bounds e : valid_enc e -> 2 <= e <= 8.
Proof. unfold valid_enc. lia. Qed.

(** *** Sorted sequences *)

Lemma sorted_lookup_lt (vs : list Z) (i j : nat) (a b : Z) :
  StronglySorted Z.lt vs -> vs !! i = Some a -> vs !! j = Some b -> (i < j)%nat -> a < b.
Proof.
  intros Hs. revert i j. induction Hs as [|x l Hl IH Hf]; intros i j; [done|].
  destruct i as [|i], j as [|j]; cbn; try lia.
  - intros [= ->] Hb _. rewrite list.Forall_forall in Hf. apply Hf.
    apply list_elem_of_lookup. eauto.
  - intros Ha Hb ?. eapply IH; eauto. lia.
Qed.

(** [split_at v vs k]: [k] is the place of [v] in the sorted sequence [vs]. *)
Definition split_at (v : Z) (vs : list Z) (k : nat) : Prop :=
  (k <= length vs)%nat /\ Forall (fun x => x < v) (take k vs) /\
  Forall (fun x => v <= x) (drop k vs).

Lemma split_at_lookup v vs k :
  (k <= length vs)%nat ->
  (forall i x, vs !! i = Some x -> (i < k)%nat -> x < v) ->
  (forall i x, vs !! i = Some x -> (k <= i)%nat -> v <= x) -> split_at v vs k.
Proof.
  intros Hk Hl Hr. repeat split; [done| |]; apply Forall_lookup; intros i x Hi.
  - apply lookup_take_Some in Hi as [??]. eauto.
  - rewrite lookup_drop in Hi. eapply Hr; [done|lia].
Qed.

Lemma split_at_insert_sorted v vs k :
  StronglySorted Z.lt vs -> split_at v vs k -> v ∉ vs ->
  StronglySorted Z.lt (take k vs ++ v :: drop k vs).
Proof.
  intros Hs (Hk & Hl & Hr) Hv.
  rewrite <- (take_drop k vs) in Hs, Hv. remember (take k vs) as a.
  remember (drop k vs) as b. clear Heqa Heqb Hk.
  induction a as [|x a IH]; cbn in *.
  - constructor; [done|]. apply list.Forall_forall. intros y Hy.
    rewrite list.Forall_forall in Hr. specialize (Hr y Hy).
    assert (y <> v) by (intros ->; set_solver). lia.
  - apply StronglySorted_cons in Hs as [Hf Hs']. rewrite list.Forall_cons in Hl; destruct Hl as [Hx Hl].
    constructor; [apply IH; [done..|]; apply not_elem_of_cons in Hv; tauto|].
    rewrite list.Forall_app in Hf. destruct Hf as [Hfa Hfb].
    apply list.Forall_app. split; [done|]. constructor; done.
Qed.

Lemma sorted_delete vs k :
  StronglySorted Z.lt vs -> StronglySorted Z.lt (take k vs ++ drop (S k) vs).
Proof.
  intros Hs. revert k. induction Hs as [|x l Hl IH Hf]; intros k; [destruct k; constructor|].
  destruct k as [|k]; cbn; [done|]. constructor; [done|].
  apply list.Forall_app. split; [by apply Forall_take|by apply Forall_drop].
Qed.

Lemma sorted_NoDup vs : StronglySorted Z.lt vs -> NoDup vs.
Proof.
  induction 1 as [|x l Hl IH Hf]; constructor; [|done].
  intros Hx. rewrite list.Forall_forall in Hf. specialize (Hf x Hx). lia.
Qed.

(** *** The binary search *)

Lemma search_mid min max :
  0 <= min <= max -> max < 2 ^ 31 ->
  s32 (Z.shiftr (u32 (u32 min + u32 max)) 1) = (min + max) / 2.
Proof.
  intros. rewrite (wrapu_id 32 min), (wrapu_id 32 max), (wrapu_id 32 (min + max)) by lia.
  rewrite Z.shiftr_div_pow2 by lia. change (2 ^ 1) with 2.
  apply wraps_id; [lia|]. unfold is_s. cbn.
  split; [|apply Z.div_lt_upper_bound; lia].
  transitivity 0; [lia|]. apply Z.div_pos; lia.
Qed.

Section search.
Context (s : intset) (vs : list Z) (value : Z).
Hypothesis Hh : holds s vs.
Hypothesis Hs : StronglySorted Z.lt vs.
Hypothesis Hlen : zlen vs < 2 ^ 31.

(** The loop keeps the place of [value] between [min] and [max + 1]. *)
Definition search_inv (min max : Z) : Prop :=
  0 <= min <= max + 1 /\ max < zlen vs /\
  (forall i x, vs !! i = Some x -> Z.of_nat i < min -> x < value) /\
  (forall i x, vs !! i = Some x -> max < Z.of_nat i -> value < x).

Lemma search_inv_step (min max mid cur : Z) :
  search_inv min max -> min <= mid <= max -> vs !! Z.to_nat mid = Some cur ->
  (value > cur -> search_inv (mid + 1) max) /\ (value < cur -> search_inv min (mid - 1)).
Proof.
  intros (H1 & H2 & H3 & H4) Hm Hc.
  split; intros Hv; repeat split; try lia; try done; intros i x Hi Hlt.
  - destruct (decide (i = Z.to_nat mid)) as [->|]; [simplify_eq; lia|].
    enough (x < cur) by lia. eapply (sorted_lookup_lt vs i); eauto. lia.
  - destruct (decide (i = Z.to_nat mid)) as [->|]; [simplify_eq; lia|].
    enough (cur < x) by lia. eapply (sorted_lookup_lt vs _ i); eauto. lia.
Qed.

Lemma search_loop_ok fuel min max mid0 cur0 :
  search_inv min max -> max - min + 1 <= Z.of_nat fuel ->
  exists min' mid' cur',
    intsetSearch_loop fuel s value min max mid0 cur0 = Some (min', mid', cur') /\
    ((0 <= mid' < zlen vs /\ vs !! Z.to_nat mid' = Some value /\ cur' = value) \/
     (search_inv min' (min' - 1) /\
      ((cur' = cur0 /\ max < min) \/ cur' <> value))).
Proof.
  revert min max mid0 cur0. induction fuel as [|fuel IH]; intros min max mid0 cur0 Hi Hf;
    cbn [intsetSearch_loop]; rewrite Z.geb_leb; destruct (Z.leb_spec min max) as [Hle|Hgt].
  - lia.
  - do 3 eexists. split; [done|]. right. destruct Hi as (?&?&?&?).
    assert (min = max + 1) as -> by lia. split; [|left; lia].
    rewrite Z.add_simpl_r. repeat split; try lia; done.
  - pose proof Hi as (H1 & H2 & _ & _).
    rewrite search_mid by lia.
    pose proof (Z.div_le_lower_bound (min + max) 2 min ltac:(lia) ltac:(lia)).
    pose proof (Z.div_le_upper_bound (min + max) 2 max ltac:(lia) ltac:(lia)).
    set (mid := (min + max) / 2) in *.
    destruct (holds_get_z s vs mid Hh) as (cur & Hcur & Hg); [lia|].
    rewrite Hg. cbn [mbind option_bind].
    destruct (search_inv_step min max mid cur Hi ltac:(lia) Hcur) as [Hgt' Hlt'].
    rewrite Z.gtb_ltb. destruct (Z.ltb_spec cur value); [|destruct (Z.ltb_spec value cur)].
    + edestruct (IH (mid + 1) max mid cur) as (a & b & c & E & Hor); [apply Hgt'; lia|lia|].
      do 3 eexists. split; [exact E|]. destruct Hor as [?|[? [[? ?]|?]]]; [by left|right..].
      * split; [done|]. right. lia.
      * split; [done|]. by right.
    + edestruct (IH min (mid - 1) mid cur) as (a & b & c & E & Hor); [apply Hlt'; lia|lia|].
      do 3 eexists. split; [exact E|]. destruct Hor as [?|[? [[? ?]|?]]]; [by left|right..].
      * split; [done|]. right. lia.
      * split; [done|]. by right.
    + assert (cur = value) as -> by lia. do 3 eexists. split; [done|]. left.
      repeat split; try lia; done.
  - do 3 eexists. split; [done|]. right. destruct Hi as (?&?&?&?).
    assert (min = max + 1) as -> by lia. split; [|left; lia].
    rewrite Z.add_simpl_r. repeat split; try lia; done.
Qed.
End search.

Lemma split_at_found v vs k :
  StronglySorted Z.lt vs -> vs !! k = Some v -> split_at v vs k.
Proof.
  intros Hs Hk. pose proof (lookup_lt_Some _ _ _ Hk). apply split_at_lookup; [lia|..].
  - intros i x Hi Hlt. eapply sorted_lookup_lt; eauto.
  - intros i x Hi Hle. destruct (decide (i = k)) as [->|]; [simplify_eq; lia|].
    enough (v < x) by lia. eapply (sorted_lookup_lt vs k i); eauto. lia.
Qed.

Lemma split_at_not_elem v vs k :
  split_at v vs k -> vs !! k <> Some v -> StronglySorted Z.lt vs -> v ∉ vs.
Proof.
  intros (Hk & Hl & Hr) Hn Hs [i Hi]%list_elem_of_lookup.
  destruct (decide (i < k)%nat).
  - rewrite Forall_lookup in Hl. enough (v < v) by lia.
    apply (Hl i). by rewrite lookup_take_lt by done.
  - destruct (decide (i = k)) as [->|]; [done|].
    destruct (vs !! k) as [y|] eqn:Hy.
    + rewrite Forall_lookup in Hr. assert (v <= y).
      { apply (Hr 0%nat). by rewrite lookup_drop, Nat.add_0_r. }
      assert (y < v) by (eapply (sorted_lookup_lt vs k i); eauto; lia). lia.
    + apply lookup_ge_None in Hy. apply lookup_lt_Some in Hi. lia.
Qed.

Lemma search_inv_split vs value m :
  search_inv vs value m (m - 1) -> split_at value vs (Z.to_nat m) /\ value ∉ vs.
Proof.
  intros (H1 & H2 & H3 & H4). split.
  - apply split_at_lookup; [unfold zlen in *; lia|..]; intros i x Hi ?.
    + eapply H3; [done|lia].
    + enough (value < x) by lia. eapply H4; [done|lia].
  - intros [i Hi]%list_elem_of_lookup. specialize (H3 i value Hi). specialize (H4 i value Hi).
    lia.
Qed.

(** What [intsetSearch] promises its callers: the search always answers, the
    flag says whether [value] is a member, and the position is the place of
    [value] in the order, its index when it is a member. *)
Record search_post (vs : list Z) (value : Z) (found : bool) (pos : Z) : Prop := {
  search_found : found = bool_decide (value ∈ vs);
  search_range : 0 <= pos <= zlen vs;
  search_split : split_at value vs (Z.to_nat pos);
  search_index : found = true -> vs !! Z.to_nat pos = Some value }.

Lemma search_post_found vs value pos :
  StronglySorted Z.lt vs -> 0 <= pos -> vs !! Z.to_nat pos = Some value ->
  search_post vs value true pos.
Proof.
  intros Hs Hp Hl. pose proof (lookup_lt_Some _ _ _ Hl) as Hlt. split; try done.
  - symmetry. apply bool_decide_eq_true. apply list_elem_of_lookup. eauto.
  - unfold zlen. lia.
  - by apply split_at_found.
Qed.

Lemma search_post_absent vs value pos :
  0 <= pos -> split_at value vs (Z.to_nat pos) -> value ∉ vs ->
  search_post vs value false pos.
Proof.
  intros Hp Hs Hn. split; try done.
  - symmetry. by apply bool_decide_eq_false.
  - destruct Hs as [Hs _]. unfold zlen. lia.
Qed.

Lemma sorted_last_lt vs value last :
  StronglySorted Z.lt vs -> vs !! Z.to_nat (zlen vs - 1) = Some last -> last < value ->
  forall i x, vs !! i = Some x -> x < value.
Proof.
  intros Hs Hl Hv i x Hi. pose proof (lookup_lt_Some _ _ _ Hi).
  destruct (decide (i = Z.to_nat (zlen vs - 1))) as [->|]; [simplify_eq; lia|].
  enough (x < last) by lia. eapply (sorted_lookup_lt vs i); eauto. unfold zlen in *. lia.
Qed.

Lemma sorted_first_gt vs value first :
  StronglySorted Z.lt vs -> vs !! 0%nat = Some first -> value < first ->
  forall i x, vs !! i = Some x -> value < x.
Proof.
  intros Hs Hl Hv i x Hi.
  destruct (decide (i = 0%nat)) as [->|]; [simplify_eq; lia|].
  enough (first < x) by lia. eapply (sorted_lookup_lt vs 0 i); eauto. lia.
Qed.

Lemma all_lt_split vs value :
  (forall i x, vs !! i = Some x -> x < value) ->
  split_at value vs (Z.to_nat (zlen vs)) /\ value ∉ vs.
Proof.
  intros H. apply search_inv_split; repeat split; try (unfold zlen; lia); intros i x Hi.
  - intros _. eauto.
  - apply lookup_lt_Some in Hi. unfold zlen. lia.
Qed.

Lemma all_gt_split vs value :
  (forall i x, vs !! i = Some x -> value < x) ->
  split_at value vs (Z.to_nat 0) /\ value ∉ vs.
Proof.
  intros H. apply search_inv_split; repeat split; try (unfold zlen; lia); intros i x Hi; try lia.
  eauto.
Qed.

Lemma intsetSearch_post s vs value :
  intset_repr s vs -> zlen vs < 2 ^ 31 ->
  exists found pos, intsetSearch s value = Some (found, pos) /\ search_post vs value found pos.
Proof.
  intros [Hh Hs] Hlen. pose proof Hh as (He & Hl & Hc & _). unfold intsetSearch. rewrite Hl.
  destruct (Z.eqb_spec (zlen vs) 0) as [H0|H0].
  { do 2 eexists. split; [done|]. apply zlen_0_nil in H0 as ->.
    apply search_post_absent; [lia| |by apply not_elem_of_nil]. repeat split; done || constructor. }
  pose proof (zlen_nonneg vs).
  rewrite wraps_id by (unfold is_s; cbn; lia).
  destruct (holds_get_z s vs (zlen vs - 1) Hh) as (last & Hlast & ->); [lia|]. cbn.
  rewrite Z.gtb_ltb. destruct (Z.ltb_spec last value).
  { do 2 eexists. split; [done|].
    destruct (all_lt_split vs value) as [??]; [by eapply sorted_last_lt|].
    by apply search_post_absent. }
  destruct (holds_get_z s vs 0 Hh) as (first & Hfirst & ->); [lia|]. cbn.
  destruct (Z.ltb_spec value first).
  { do 2 eexists. split; [done|].
    destruct (all_gt_split vs value) as [??]; [by eapply sorted_first_gt|].
    by apply search_post_absent. }
  edestruct (search_loop_ok s vs value Hh Hs Hlen) with
    (fuel := Z.to_nat (zlen vs - 1 - 0 + 1)) (min := 0) (max := zlen vs - 1)
    (mid0 := -1) (cur0 := -1) as (mn & md & cu & -> & Hor); [|lia|].
  { repeat split; try lia. intros i x Hi%lookup_lt_Some. unfold zlen. lia. }
  cbn. destruct Hor as [(?&?&->)|(Hinv & [[_ ?]|Hne])]; [| lia |].
  - rewrite Z.eqb_refl. do 2 eexists. split; [done|].
    rewrite wrapu_id by lia. apply search_post_found; done || lia.
  - destruct (Z.eqb_spec value cu); [congruence|].
    apply search_inv_split in Hinv as Hsp. destruct Hsp, Hinv as (?&?&_).
    rewrite wrapu_id by (zlen_facts; lia). do 2 eexists. split; [done|].
    apply search_post_absent; done || lia.
Qed.

(** *** Frame rules for the element operations *)

Lemma getEncoded_agree s s' p p' e :
  valid_enc e -> 0 <= p -> 0 <= p' ->
  (p + 1) * e <= zlen (contents s) -> (p' + 1) * e <= zlen (contents s') ->
  (forall j, 0 <= j < e -> rd (contents s') (p' * e + j) = rd (contents s) (p * e + j)) ->
  _intsetGetEncoded s' p' e = _intsetGetEncoded s p e.
Proof.
  intros He ???? H. pose proof (valid_enc_bounds e He). rewrite !getEncoded_eq by done.
  rewrite (rd_bytes_agree (contents s) _ (p * e)) by (done || nia). done.
Qed.

Lemma intsetSet_ok s pos v :
  let enc := encoding s in
  valid_enc enc -> fits enc v -> 0 <= pos -> (pos + 1) * enc <= zlen (contents s) ->
  exists s', _intsetSet s pos v = Some s' /\
    encoding s' = enc /\ is_length s' = is_length s /\ zlen (contents s') = zlen (contents s) /\
    _intsetGetEncoded s' pos enc = Some v /\
    (forall p e, valid_enc e -> (p + 1) * e <= pos * enc \/ (pos + 1) * enc <= p * e ->
       _intsetGetEncoded s' p e = _intsetGetEncoded s p e).
Proof.
  intros enc He Hf Hp Hr. pose proof (valid_enc_bounds enc He).
  rewrite intsetSet_eq by done. fold enc.
  set (bs := le_bytes (Z.to_nat enc) v).
  assert (Hbs : zlen bs = enc) by (unfold bs; rewrite zlen_le_bytes; lia).
  destruct (wr_bytes_spec (contents s) (pos * enc) bs) as (c & Hw & Hl & Hin & Hout);
    [nia|nia|].
  rewrite Hw. cbn. eexists. split; [done|]. cbn. repeat split; try done.
  - rewrite getEncoded_eq by done. cbn.
    apply rd_wr_same in Hw. rewrite Hbs in Hw. rewrite Hw. cbn.
    f_equal. by apply fits_roundtrip.
  - intros p e He' Hd. rewrite !getEncoded_eq by done. cbn.
    erewrite (rd_wr_disjoint (contents s)); [done|exact Hw|]. lia.
Qed.

Lemma intsetResize_ok junk s len :
  valid_enc (encoding s) -> 0 <= len < 2 ^ 32 ->
  exists s', intsetResize junk s len = Some s' /\
    encoding s' = encoding s /\ is_length s' = is_length s /\
    zlen (contents s') = len * encoding s /\
    (forall i, i < Z.min (len * encoding s) (zlen (contents s)) ->
       rd (contents s') i = rd (contents s) i).
Proof.
  intros He Hl. pose proof (valid_enc_bounds _ He). unfold intsetResize.
  assert (0 <= len * encoding s <= 2 ^ 32 * 8) by nia.
  rewrite wrapu_id by lia. unfold cassert.
  rewrite (proj2 (Z.leb_le _ _)) by (unfold SIZE_MAX, UINT64_MAX, sizeof_intset; lia).
  cbn. eexists. split; [done|]. cbn. repeat split; try done.
  - apply zlen_realloc. lia.
  - intros i ?. by apply rd_realloc.
Qed.

Lemma getEncoded_prefix s s' p e :
  valid_enc e -> 0 <= p -> (p + 1) * e <= zlen (contents s) ->
  (p + 1) * e <= zlen (contents s') ->
  (forall i, i < (p + 1) * e -> rd (contents s') i = rd (contents s) i) ->
  _intsetGetEncoded s' p e = _intsetGetEncoded s p e.
Proof.
  intros He ??? H. pose proof (valid_enc_bounds e He).
  apply getEncoded_agree; try done. intros j ?. apply H. nia.
Qed.

Lemma intsetGet_enc s p :
  valid_enc (encoding s) -> _intsetGet s p = _intsetGetEncoded s p (encoding s).
Proof.
  intros He. pose proof (valid_enc_bounds _ He). unfold _intsetGet.
  by rewrite wrapu_id by lia.
Qed.

Lemma intsetMoveTail_ok s from to :
  let enc := encoding s in
  valid_enc enc -> 0 <= from <= is_length s -> 0 <= to ->
  is_length s * 8 < 2 ^ 32 ->
  is_length s * enc <= zlen (contents s) ->
  (to + (is_length s - from)) * enc <= zlen (contents s) ->
  exists s', intsetMoveTail s from to = Some s' /\
    encoding s' = enc /\ is_length s' = is_length s /\ zlen (contents s') = zlen (contents s) /\
    (forall i, 0 <= i < is_length s - from ->
       _intsetGetEncoded s' (to + i) enc = _intsetGetEncoded s (from + i) enc) /\
    (forall p, 0 <= p < to -> (p + 1) * enc <= zlen (contents s) ->
       _intsetGetEncoded s' p enc = _intsetGetEncoded s p enc).
Proof.
  intros enc He Hf Ht H32 Hlen Hto. pose proof (valid_enc_bounds enc He).
  assert (Hb : intsetMoveTail_bytes s from = (is_length s - from) * enc).
  { unfold intsetMoveTail_bytes. fold enc. rewrite (wrapu_id 32 (is_length s - from)) by lia.
    unfold INTSET_ENC_INT64, INTSET_ENC_INT32.
    destruct He as [->|[->| ->]]; cbn -[Z.mul Z.pow]; apply wrapu_id; lia. }
  assert (Hes : (if enc =? INTSET_ENC_INT64 then 8 else if enc =? INTSET_ENC_INT32 then 4 else 2)
                = enc) by (destruct He as [->|[->| ->]]; done).
  unfold intsetMoveTail. rewrite Hb. fold enc. rewrite Hes.
  destruct (memmove_spec (contents s) (to * enc) (from * enc) ((is_length s - from) * enc))
    as (c & Hm & Hl & Hin & Hout); [nia..|].
  rewrite Hm. cbn. eexists. split; [done|]. cbn. repeat split; try done.
  - intros i Hi. apply getEncoded_agree; cbn; try nia; [done|].
    intros j Hj. replace ((to + i) * enc + j) with (to * enc + (i * enc + j)) by lia.
    rewrite Hin by nia. f_equal. lia.
  - intros p Hp Hp'. apply getEncoded_agree; cbn; try nia; [done|].
    intros j Hj. apply Hout. nia.
Qed.

(** *** The in-place upgrade *)

Lemma upgrade_loop_ok (vs : list Z) (old prepend : Z) n :
  valid_enc old -> 0 <= prepend <= 1 -> (n <= length vs)%nat ->
  Forall (fits old) vs ->
  forall s, valid_enc (encoding s) -> old <= encoding s ->
  (Z.of_nat n + prepend) * encoding s <= zlen (contents s) ->
  (forall i v, (i < n)%nat -> vs !! i = Some v ->
     _intsetGetEncoded s (Z.of_nat i) old = Some v) ->
  exists s', intsetUpgrade_loop n s prepend old = Some s' /\
    encoding s' = encoding s /\ is_length s' = is_length s /\
    zlen (contents s') = zlen (contents s) /\
    (forall i v, (i < n)%nat -> vs !! i = Some v ->
       _intsetGetEncoded s' (Z.of_nat i + prepend) (encoding s) = Some v) /\
    (forall p, Z.of_nat n + prepend <= p ->
       _intsetGetEncoded s' p (encoding s) = _intsetGetEncoded s p (encoding s)).
Proof.
  intros Ho Hp. pose proof (valid_enc_bounds _ Ho).
  induction n as [|n IH]; intros Hn Hfit s He Hle Hsz Hold.
  { exists s. repeat split; done || lia. }
  pose proof (valid_enc_bounds _ He).
  destruct (lookup_lt_is_Some_2 vs n) as [v Hv]; [lia|].
  cbn [intsetUpgrade_loop]. rewrite (Hold n v) by (done || lia). cbn [mbind option_bind].
  assert (fits old v) by (rewrite Forall_lookup in Hfit; eauto).
  destruct (intsetSet_ok s (Z.of_nat n + prepend) v) as (s1 & -> & He1 & Hl1 & Hc1 & Hv1 & Hfr1);
    [done|by apply (fits_mono old)|lia|lia|]. cbn [mbind option_bind].
  destruct (IH ltac:(lia) Hfit s1) as (s2 & -> & He2 & Hl2 & Hc2 & Hv2 & Hfr2);
    rewrite ?He1; try done; try nia.
  { intros i x Hi Hx. rewrite Hfr1 by (done || nia). apply Hold; [lia|done]. }
  exists s2. rewrite He1 in *. repeat split; try congruence.
  - intros i x Hi Hx. destruct (decide (i = n)) as [->|].
    + simplify_eq. rewrite Hfr2 by lia. done.
    + apply Hv2; [lia|done].
  - intros p Hp'. rewrite Hfr2, Hfr1 by (done || nia). done.
Qed.

Lemma lookup_insert_at {A} (vs : list A) (k i : nat) (v x : A) :
  (k <= length vs)%nat -> (take k vs ++ v :: drop k vs) !! i = Some x ->
  ((i < k)%nat /\ vs !! i = Some x) \/ (i = k /\ x = v) \/
  ((k < i)%nat /\ vs !! (i - 1)%nat = Some x).
Proof.
  intros Hk Hx. assert (Ht : length (take k vs) = k) by (rewrite length_take; lia).
  destruct (decide (i < k)%nat).
  - rewrite lookup_app_l, lookup_take_lt in Hx by lia. auto.
  - rewrite lookup_app_r in Hx by lia. rewrite Ht in Hx.
    destruct (i - k)%nat as [|d] eqn:Hd; simpl in Hx.
    + simplify_eq. right. left. split; [lia|done].
    + right. right. split; [lia|]. rewrite lookup_drop in Hx.
      rewrite <- Hx. f_equal. lia.
Qed.

Lemma zlen_insert_at {A} (vs : list A) (k : nat) v :
  (k <= length vs)%nat -> zlen (take k vs ++ v :: drop k vs) = zlen vs + 1.
Proof. intros. unfold zlen. rewrite length_app, length_take. cbn. rewrite length_drop. lia. Qed.

Lemma insert_at_set (vs : list Z) (k : nat) v :
  (list_to_set (take k vs ++ v :: drop k vs) : gset Z) = {[v]} ∪ list_to_set vs.
Proof.
  transitivity ({[v]} ∪ list_to_set (take k vs ++ drop k vs) : gset Z).
  - rewrite !list_to_set_app_L, list_to_set_cons. clear. set_solver.
  - by rewrite take_drop.
Qed.

Lemma holds_zget s vs i v :
  holds s vs -> vs !! i = Some v -> _intsetGetEncoded s (Z.of_nat i) (encoding s) = Some v.
Proof.
  intros H Hi. rewrite <- intsetGet_enc by apply H. by eapply holds_get.
Qed.

(** The cells of a set into which [v] was inserted at position [k]. *)
Lemma insert_at_holds s vs k v :
  let enc := encoding s in
  valid_enc enc -> is_length s = zlen vs + 1 -> zlen (contents s) = (zlen vs + 1) * enc ->
  (k <= length vs)%nat ->
  (forall i x, vs !! i = Some x -> (i < k)%nat ->
     _intsetGetEncoded s (Z.of_nat i) enc = Some x) ->
  _intsetGetEncoded s (Z.of_nat k) enc = Some v ->
  (forall i x, vs !! i = Some x -> (k <= i)%nat ->
     _intsetGetEncoded s (Z.of_nat i + 1) enc = Some x) ->
  holds s (take k vs ++ v :: drop k vs).
Proof.
  intros enc He Hl Hc Hk Hlt Heq Hgt. apply holds_pointwise; try done.
  - by rewrite zlen_insert_at.
  - by rewrite zlen_insert_at.
  - intros i x Hx. rewrite intsetGet_enc by done. fold enc.
    apply lookup_insert_at in Hx as [[Hi Hx]|[[-> ->]|[Hi Hx]]]; [by apply Hlt|done| |done].
    replace (Z.of_nat i) with (Z.of_nat (i - 1) + 1) by lia. apply Hgt; [done|lia].
Qed.

(** A value that does not fit the encoding lies outside of the range of the
    members: before all of them when negative, after all of them otherwise. *)
Lemma not_fits_extreme vs v enc :
  valid_enc enc -> Forall (fits enc) vs -> ~ fits enc v ->
  (forall i x, vs !! i = Some x -> if v <? 0 then v < x else x < v).
Proof.
  intros He Hf Hn i x Hi. rewrite Forall_lookup in Hf. specialize (Hf i x Hi).
  unfold fits, is_s in *. destruct He as [->|[->| ->]]; destruct (Z.ltb_spec v 0); cbn in *; lia.
Qed.

Lemma upgradeAndAdd_repr junk s vs v :
  intset_repr s vs -> small_enough vs -> is_s 64 v -> encoding s < _intsetValueEncoding v ->
  let k := if v <? 0 then 0%nat else length vs in
  exists s', intsetUpgradeAndAdd junk s v = Some s' /\
    intset_repr s' (take k vs ++ v :: drop k vs) /\ v ∉ vs.
Proof.
  intros [Hh Hs] Hsm H64 Henc k. unfold small_enough in Hsm.
  pose proof Hh as (He & Hl & Hc & _). pose proof (zlen_nonneg vs).
  pose proof (valueEncoding_valid v) as Hve. set (new := _intsetValueEncoding v) in *.
  pose proof (valid_enc_bounds _ He). pose proof (valid_enc_bounds _ Hve).
  assert (Hnf : ~ fits (encoding s) v) by (rewrite <- valueEncoding_fits by done; lia).
  assert (Hff : Forall (fits (encoding s)) vs).
  { apply list.Forall_forall. intros x Hx. by eapply holds_fits. }
  pose proof (not_fits_extreme vs v _ He Hff Hnf) as Hext.
  assert (Hsplit : split_at v vs k /\ v ∉ vs).
  { unfold k. destruct (v <? 0).
    - by apply (all_gt_split vs v).
    - pose proof (all_lt_split vs v Hext) as Hx. unfold zlen in Hx. by rewrite Nat2Z.id in Hx. }
  destruct Hsplit as [Hsplit Hnin].
  assert (Hvfit : fits new v) by (apply valueEncoding_fits; [done..|]; unfold new; lia).
  unfold intsetUpgradeAndAdd. fold new. cbn [is_length with_encoding].
  rewrite (wrapu_id 8 (encoding s)), (wraps_id 32 (is_length s)), (wrapu_id 32 (is_length s + 1))
    by (unfold is_s; cbn; lia).
  set (pre := if v <? 0 then 1 else 0).
  assert (0 <= pre <= 1) by (unfold pre; destruct (v <? 0); lia).
  destruct (intsetResize_ok junk (with_encoding s new) (is_length s + 1))
    as (s1 & -> & He1 & Hl1 & Hc1 & Hr1); [done|lia|]. cbn [mbind option_bind].
  cbn [encoding is_length with_encoding contents] in *.
  rewrite (proj2 (Z.leb_le 0 _)) by lia. cbn [cassert mbind option_bind].
  replace (Z.to_nat (is_length s)) with (length vs) by (unfold zlen in *; lia).
  destruct (upgrade_loop_ok vs (encoding s) pre (length vs)) with (s := s1)
    as (s2 & -> & He2 & Hl2 & Hc2 & Hv2 & Hfr2); try done; try (rewrite ?He1; done || lia).
  { rewrite He1, Hc1. fold (zlen vs). nia. }
  { intros i x Hi Hx. rewrite (getEncoded_prefix s s1); [by apply (holds_zget s vs)|done|lia|..].
    - rewrite Hc. unfold zlen. nia.
    - rewrite Hc1, Hl. unfold zlen. nia.
    - intros j Hj. apply Hr1. rewrite Hl, Hc. unfold zlen in *. nia. }
  cbn [mbind option_bind].
  assert (Hset : (if pre =? 0 then _intsetSet s2 (s32 (is_length s2)) v else _intsetSet s2 0 v)
                 = _intsetSet s2 (Z.of_nat k) v).
  { unfold pre, k. destruct (v <? 0); cbn; [done|]. rewrite wraps_id; [|lia|].
    - f_equal. rewrite Hl2, Hl1, Hl. done.
    - unfold is_s. rewrite Hl2, Hl1. cbn. lia. }
  rewrite Hset. clear Hset. rewrite He1 in *.
  assert (Hkz : Z.of_nat k <= zlen vs) by (unfold k, zlen; destruct (v <? 0); lia).
  destruct (intsetSet_ok s2 (Z.of_nat k) v) as (s3 & -> & He3 & Hl3 & Hc3 & Hv3 & Hfr3);
    rewrite ?He2; [done|done|lia|rewrite Hc2, Hc1; nia|].
  cbn [mbind option_bind]. eexists. split; [done|]. split; [|done].
  rewrite He2 in *. split; [|by apply split_at_insert_sorted].
  apply insert_at_holds; cbn [encoding is_length contents with_length]; rewrite ?He3;
    change (_intsetGetEncoded (with_length ?a _)) with (_intsetGetEncoded a); try done.
  - rewrite Hl3, Hl2, Hl1, Hl. apply wrapu_id. lia.
  - by rewrite Hc3, Hc2, Hc1, Hl.
  - unfold k. destruct (v <? 0); lia.
  - intros i x Hx Hi. pose proof (lookup_lt_Some _ _ _ Hx). rewrite Hfr3 by (done || nia).
    replace (Z.of_nat i) with (Z.of_nat i + pre); [by apply Hv2|].
    unfold pre, k in *. destruct (v <? 0); lia.
  - intros i x Hx Hi. pose proof (lookup_lt_Some _ _ _ Hx). rewrite Hfr3 by (done || nia).
    replace (Z.of_nat i + 1) with (Z.of_nat i + pre); [by apply Hv2|].
    unfold pre, k in *. destruct (v <? 0); lia.
Qed.

Lemma small_len vs : small_enough vs -> zlen vs < 2 ^ 31.
Proof. unfold small_enough. zlen_facts. lia. Qed.

(** Insertion of an absent value that fits the current encoding. *)
Lemma insert_repr junk s vs v pos :
  intset_repr s vs -> small_enough vs -> fits (encoding s) v -> v ∉ vs ->
  0 <= pos <= zlen vs -> split_at v vs (Z.to_nat pos) ->
  exists s',
    (s ← intsetResize junk s (u32 (is_length s + 1));
     s ← (if pos <? is_length s then intsetMoveTail s pos (u32 (pos + 1)) else Some s);
     s ← _intsetSet s (s32 pos) v;
     Some (with_length s (u32 (is_length s + 1)), true)) = Some (s', true) /\
    intset_repr s' (take (Z.to_nat pos) vs ++ v :: drop (Z.to_nat pos) vs).
Proof.
  intros [Hh Hs] Hsm Hf Hnin Hpos Hsp. pose proof (small_len _ Hsm). unfold small_enough in Hsm.
  pose proof Hh as (He & Hl & Hc & _). pose proof (valid_enc_bounds _ He).
  rewrite (wrapu_id 32 (is_length s + 1)), (wrapu_id 32 (pos + 1)), (wraps_id 32 pos)
    by (unfold is_s; cbn; lia).
  destruct (intsetResize_ok junk s (is_length s + 1)) as (s1 & -> & He1 & Hl1 & Hc1 & Hr1);
    [done|lia|]. cbn [mbind option_bind]. rewrite Hl in *.
  assert (Hcell : forall i x, vs !! i = Some x ->
            _intsetGetEncoded s1 (Z.of_nat i) (encoding s) = Some x).
  { intros i x Hx. pose proof (lookup_lt_Some _ _ _ Hx).
    assert (Z.of_nat i + 1 <= zlen vs) by (unfold zlen; lia).
    rewrite (getEncoded_prefix s s1); [by apply (holds_zget s vs)|done|lia|nia|nia|].
    intros j Hj. apply Hr1. nia. }
  assert (Hmv : exists s2,
    (if pos <? is_length s1 then intsetMoveTail s1 pos (pos + 1) else Some s1) = Some s2 /\
    encoding s2 = encoding s /\ is_length s2 = zlen vs /\
    zlen (contents s2) = (zlen vs + 1) * encoding s /\
    (forall i x, vs !! i = Some x -> Z.of_nat i < pos ->
       _intsetGetEncoded s2 (Z.of_nat i) (encoding s) = Some x) /\
    (forall i x, vs !! i = Some x -> pos <= Z.of_nat i ->
       _intsetGetEncoded s2 (Z.of_nat i + 1) (encoding s) = Some x)).
  { destruct (Z.ltb_spec pos (is_length s1)) as [Hlt|Hge].
    - destruct (intsetMoveTail_ok s1 pos (pos + 1))
        as (s2 & -> & He2 & Hl2 & Hc2 & Hin & Hout); rewrite ?He1, ?Hl1, ?Hc1; try done; try nia.
      rewrite He1, Hl1 in *. exists s2. split; [done|]. repeat split; try congruence.
      + intros i x Hx Hi. pose proof (lookup_lt_Some _ _ _ Hx).
        rewrite Hout; [by apply Hcell|lia|unfold zlen in *; nia].
      + intros i x Hx Hi. pose proof (lookup_lt_Some _ _ _ Hx).
        replace (Z.of_nat i + 1) with (pos + 1 + (Z.of_nat i - pos)) by lia.
        rewrite Hin by (unfold zlen; lia). rewrite Z.add_sub_assoc, Z.add_simpl_l. by apply Hcell.
    - exists s1. split; [done|]. repeat split; try congruence.
      + intros i x Hx _. by apply Hcell.
      + intros i x Hx Hi. pose proof (lookup_lt_Some _ _ _ Hx). unfold zlen in *. lia. }
  destruct Hmv as (s2 & -> & He2 & Hl2 & Hc2 & Hlt & Hgt). cbn [mbind option_bind].
  destruct (intsetSet_ok s2 pos v) as (s3 & -> & He3 & Hl3 & Hc3 & Hv3 & Hfr3);
    rewrite ?He2; [done|done|lia|rewrite Hc2; nia|]. rewrite He2 in *.
  cbn [mbind option_bind]. eexists. split; [done|].
  split; [|by apply split_at_insert_sorted].
  apply insert_at_holds; cbn [encoding is_length contents with_length]; rewrite ?He3;
    change (_intsetGetEncoded (with_length ?a _)) with (_intsetGetEncoded a); try done.
  - rewrite Hl3, Hl2. apply wrapu_id. lia.
  - congruence.
  - unfold zlen in *. lia.
  - intros i x Hx Hi. rewrite Hfr3 by (done || nia). apply Hlt; [done|lia].
  - by rewrite Z2Nat.id by lia.
  - intros i x Hx Hi. rewrite Hfr3 by (done || nia). apply Hgt; [done|lia].
Qed.

Lemma lookup_delete_at {A} (vs : list A) (k i : nat) (x : A) :
  (k < length vs)%nat -> (take k vs ++ drop (S k) vs) !! i = Some x ->
  ((i < k)%nat /\ vs !! i = Some x) \/ ((k <= i)%nat /\ vs !! S i = Some x).
Proof.
  intros Hk Hx. assert (Ht : length (take k vs) = k) by (rewrite length_take; lia).
  destruct (decide (i < k)%nat).
  - rewrite lookup_app_l, lookup_take_lt in Hx by lia. auto.
  - rewrite lookup_app_r, lookup_drop in Hx by lia. rewrite Ht in Hx.
    right. split; [lia|]. rewrite <- Hx. f_equal. lia.
Qed.

Lemma zlen_delete_at {A} (vs : list A) (k : nat) :
  (k < length vs)%nat -> zlen (take k vs ++ drop (S k) vs) = zlen vs - 1.
Proof. intros. unfold zlen. rewrite length_app, length_take, length_drop. lia. Qed.

Lemma delete_at_set (vs : list Z) (k : nat) v :
  NoDup vs -> vs !! k = Some v ->
  (list_to_set (take k vs ++ drop (S k) vs) : gset Z) = list_to_set vs ∖ {[v]}.
Proof.
  intros Hnd Hv. rewrite <- (take_drop_middle vs k v Hv) in Hnd.
  transitivity (list_to_set (take k vs ++ v :: drop (S k) vs) ∖ {[v]} : gset Z).
  - apply list.NoDup_app in Hnd as (_ & Hd & Hn). apply list.NoDup_cons in Hn as [Hn _].
    rewrite !list_to_set_app_L, list_to_set_cons.
    assert (v ∉ take k vs) by (intros Hx; apply (Hd v Hx), list_elem_of_here).
    clear Hv Hd. set_solver.
  - by rewrite take_drop_middle.
Qed.

(** The cells of a set whose element [k] was overwritten by its tail. *)
Lemma delete_at_holds s vs k :
  let enc := encoding s in
  valid_enc enc -> is_length s = zlen vs - 1 -> zlen (contents s) = (zlen vs - 1) * enc ->
  (k < length vs)%nat ->
  (forall i x, vs !! i = Some x -> (i < k)%nat ->
     _intsetGetEncoded s (Z.of_nat i) enc = Some x) ->
  (forall i x, vs !! i = Some x -> (k < i)%nat ->
     _intsetGetEncoded s (Z.of_nat i - 1) enc = Some x) ->
  holds s (take k vs ++ drop (S k) vs).
Proof.
  intros enc He Hl Hc Hk Hlt Hgt. apply holds_pointwise; try done.
  - by rewrite zlen_delete_at.
  - by rewrite zlen_delete_at.
  - intros i x Hx. rewrite intsetGet_enc by done. fold enc.
    apply lookup_delete_at in Hx as [[Hi Hx]|[Hi Hx]]; [by apply Hlt| |done].
    replace (Z.of_nat i) with (Z.of_nat (S i) - 1) by lia. apply Hgt; [done|lia].
Qed.

Lemma remove_repr junk s vs v pos :
  intset_repr s vs -> small_enough vs -> 0 <= pos -> vs !! Z.to_nat pos = Some v ->
  exists s',
    (let len := is_length s in
     s ← (if pos <? u32 (len - 1) then intsetMoveTail s (u32 (pos + 1)) pos else Some s);
     s ← intsetResize junk s (u32 (len - 1));
     Some (with_length s (u32 (len - 1)), true)) = Some (s', true) /\
    intset_repr s' (take (Z.to_nat pos) vs ++ drop (S (Z.to_nat pos)) vs).
Proof.
  intros [Hh Hs] Hsm Hp Hv. pose proof (small_len _ Hsm). unfold small_enough in Hsm.
  pose proof Hh as (He & Hl & Hc & _). pose proof (valid_enc_bounds _ He).
  pose proof (lookup_lt_Some _ _ _ Hv) as Hlt. assert (pos < zlen vs) by (unfold zlen; lia).
  cbv zeta. rewrite Hl. rewrite (wrapu_id 32 (zlen vs - 1)), (wrapu_id 32 (pos + 1)) by lia.
  assert (Hmv : exists s2,
    (if pos <? zlen vs - 1 then intsetMoveTail s (pos + 1) pos else Some s) = Some s2 /\
    encoding s2 = encoding s /\ zlen (contents s2) = zlen vs * encoding s /\
    (forall i x, vs !! i = Some x -> (i < Z.to_nat pos)%nat ->
       _intsetGetEncoded s2 (Z.of_nat i) (encoding s) = Some x) /\
    (forall i x, vs !! i = Some x -> (Z.to_nat pos < i)%nat ->
       _intsetGetEncoded s2 (Z.of_nat i - 1) (encoding s) = Some x)).
  { destruct (Z.ltb_spec pos (zlen vs - 1)).
    - destruct (intsetMoveTail_ok s (pos + 1) pos)
        as (s2 & -> & He2 & Hl2 & Hc2 & Hin & Hout); try done; try nia.
      exists s2. rewrite Hl in Hin. split; [done|]. repeat split; try congruence; intros i x Hx Hi;
        pose proof (lookup_lt_Some _ _ _ Hx).
      + rewrite Hout; [by apply (holds_zget s vs)|lia|unfold zlen in *; nia].
      + replace (Z.of_nat i - 1) with (pos + (Z.of_nat i - 1 - pos)) by lia.
        rewrite Hin by (unfold zlen; lia).
        replace (pos + 1 + (Z.of_nat i - 1 - pos)) with (Z.of_nat i) by lia.
        by apply (holds_zget s vs).
    - exists s. split; [done|]. repeat split; try congruence; intros i x Hx Hi.
      + by apply (holds_zget s vs).
      + apply lookup_lt_Some in Hx. unfold zlen in *. lia. }
  destruct Hmv as (s2 & -> & He2 & Hc2 & Hcl & Hcg). cbn [mbind option_bind].
  destruct (intsetResize_ok junk s2 (zlen vs - 1)) as (s3 & -> & He3 & Hl3 & Hc3 & Hr3);
    [by rewrite He2|lia|]. cbn [mbind option_bind]. eexists. split; [done|].
  rewrite He2 in *.
  assert (Hcell : forall p, 0 <= p < zlen vs - 1 ->
    _intsetGetEncoded s3 p (encoding s) = _intsetGetEncoded s2 p (encoding s)).
  { intros p Hp'. apply getEncoded_prefix; [done|lia|nia|nia|].
    intros j Hj. apply Hr3. nia. }
  split; [|by apply sorted_delete].
  apply delete_at_holds; cbn [encoding is_length contents with_length]; rewrite ?He3;
    change (_intsetGetEncoded (with_length ?a _)) with (_intsetGetEncoded a); try done;
    intros i x Hx Hi; pose proof (lookup_lt_Some _ _ _ Hx);
    rewrite Hcell by (unfold zlen; lia).
  - by apply Hcl.
  - by apply Hcg.
Qed.

(** ** Properties *)

(** C14: Adding [v] to a well-formed set of at most [2^29 - 2] members always
    succeeds without touching memory outside of the block (also when every
    member has to be widened in place), reports [true] exactly when [v] was
    absent, and leaves a well-formed set whose members are the old ones and [v]. *)
Theorem intsetAdd_refines junk s vs v :
  intset_repr s vs -> small_enough vs -> is_s 64 v ->
  exists s' vs', intsetAdd junk s v = Some (s', bool_decide (v ∉ vs)) /\
    intset_repr s' vs' /\ (list_to_set vs' : gset Z) = {[v]} ∪ list_to_set vs.
Proof.
  intros Hr Hsm H64. pose proof Hr as [Hh Hs]. pose proof Hh as (He & _).
  unfold intsetAdd. rewrite Z.gtb_ltb. destruct (Z.ltb_spec (encoding s) (_intsetValueEncoding v)).
  - destruct (upgradeAndAdd_repr junk s vs v) as (s' & -> & Hr' & Hn); [done..|].
    do 2 eexists. rewrite bool_decide_eq_true_2 by done.
    split; [done|]. split; [exact Hr'|apply insert_at_set].
  - assert (fits (encoding s) v) by (by apply valueEncoding_fits).
    destruct (intsetSearch_post s vs v Hr (small_len _ Hsm)) as (f & pos & -> & Hp).
    cbn [mbind option_bind]. destruct Hp as [-> Hrange Hsp Hidx].
    destruct (bool_decide_reflect (v ∈ vs)) as [Hin|Hin].
    + do 2 eexists. rewrite bool_decide_eq_false_2 by (intros ?; done).
      split; [done|]. split; [done|]. set_solver.
    + destruct (insert_repr junk s vs v pos) as (s' & -> & Hr'); [done..|].
      do 2 eexists. rewrite bool_decide_eq_true_2 by done.
      split; [done|]. split; [exact Hr'|apply insert_at_set].
Qed.

(** Removing [v] from a well-formed set never fails, reports [true] exactly
    when [v] was a member, and leaves a well-formed set without [v] and with
    every other member. *)
Theorem intsetRemove_refines junk s vs v :
  intset_repr s vs -> small_enough vs -> is_s 64 v ->
  exists s' vs', intsetRemove junk s v = Some (s', bool_decide (v ∈ vs)) /\
    intset_repr s' vs' /\ (list_to_set vs' : gset Z) = list_to_set vs ∖ {[v]}.
Proof.
  intros Hr Hsm H64. pose proof Hr as [Hh Hs]. pose proof Hh as (He & _).
  unfold intsetRemove. destruct (Z.leb_spec (_intsetValueEncoding v) (encoding s)).
  - destruct (intsetSearch_post s vs v Hr (small_len _ Hsm)) as (f & pos & -> & Hp).
    cbn [mbind option_bind]. destruct Hp as [-> Hrange Hsp Hidx].
    destruct (bool_decide_reflect (v ∈ vs)) as [Hin|Hin].
    + specialize (Hidx eq_refl).
      destruct (remove_repr junk s vs v pos) as (s' & Heq & Hr'); [done..|lia|done|].
      cbv zeta in Heq |- *. rewrite Heq.
      do 2 eexists. split; [done|]. split; [exact Hr'|].
      by apply delete_at_set; [apply sorted_NoDup|].
    + do 2 eexists. split; [done|]. split; [done|]. set_solver.
  - assert (v ∉ vs).
    { intros Hin. pose proof (holds_fits _ _ _ Hh Hin) as Hf.
      apply valueEncoding_fits in Hf; [lia|done..]. }
    do 2 eexists. rewrite bool_decide_eq_false_2 by done.
    split; [done|]. split; [done|]. set_solver.
Qed.

(** Membership: the binary search over the block decides membership,
    whatever the encoding, and reads only inside of the block. *)
Theorem intsetFind_correct s vs v :
  intset_repr s vs -> zlen vs < 2 ^ 31 -> is_s 64 v ->
  intsetFind s v = Some (bool_decide (v ∈ vs)).
Proof.
  intros Hr Hlen H64. pose proof Hr as [Hh Hs]. pose proof Hh as (He & _).
  unfold intsetFind. destruct (Z.leb_spec (_intsetValueEncoding v) (encoding s)).
  - destruct (intsetSearch_post s vs v Hr Hlen) as (f & pos & -> & [-> _ _ _]). done.
  - rewrite bool_decide_eq_false_2; [done|]. intros Hin.
    pose proof (holds_fits _ _ _ Hh Hin) as Hf. apply valueEncoding_fits in Hf; [lia|done..].
Qed.

(** *** Serialized sets *)

Lemma holds_exists s :
  valid_enc (encoding s) -> 0 <= is_length s ->
  zlen (contents s) = is_length s * encoding s -> exists vs, holds s vs.
Proof.
  intros He Hl Hc. pose proof (valid_enc_bounds _ He).
  destruct (mapM_is_Some_2 (_intsetGet s) (seqZ 0 (is_length s))) as [vs Hvs].
  { apply list.Forall_forall. intros z Hz%elem_of_seqZ. unfold compose. rewrite intsetGet_eq by done.
    rewrite rd_bytes_unfold by nia. eauto. }
  exists vs. pose proof (length_mapM _ _ _ Hvs) as Hlen. rewrite length_seqZ in Hlen.
  assert (is_length s = zlen vs) by (unfold zlen; lia).
  repeat split; try done; congruence.
Qed.

Lemma intset_of_blob_ok p :
  Forall is_byte p -> sizeof_intset <= zlen p ->
  exists s, intset_of_blob p = Some s /\ p = intset_blob s /\
    0 <= encoding s < 2 ^ 32 /\ 0 <= is_length s < 2 ^ 32 /\ zlen (contents s) = zlen p - 8.
Proof.
  unfold sizeof_intset. intros Hb Hlen. unfold intset_of_blob.
  destruct (rd_bytes p 0 4) as [e|] eqn:E1; [|by rewrite rd_bytes_unfold in E1 by lia].
  destruct (rd_bytes p 4 4) as [l|] eqn:E2; [|by rewrite rd_bytes_unfold in E2 by lia].
  cbn [mbind option_bind]. eexists. split; [done|]. unfold intset_blob.
  cbn [encoding is_length contents].
  rewrite rd_bytes_unfold in E1, E2 by lia. injection E1 as E1. injection E2 as E2.
  change (Z.to_nat 4) with 4%nat in *. change (Z.to_nat 0) with 0%nat in *. rewrite drop_0 in E1.
  assert (Hl1 : length e = 4%nat) by (rewrite <- E1, length_take; unfold zlen in *; lia).
  assert (Hl2 : length l = 4%nat)
    by (rewrite <- E2, length_take, length_drop; unfold zlen in *; lia).
  assert (Hb1 : Forall is_byte e) by (rewrite <- E1; by apply Forall_take).
  assert (Hb2 : Forall is_byte l) by (rewrite <- E2; by apply Forall_take, Forall_drop).
  pose proof (le_val_bound e Hb1) as B1. pose proof (le_val_bound l Hb2) as B2.
  rewrite Hl1 in B1. rewrite Hl2 in B2. repeat split; try lia.
  - pose proof (le_bytes_val e Hb1) as R1. pose proof (le_bytes_val l Hb2) as R2.
    rewrite Hl1 in R1. rewrite Hl2 in R2. rewrite R1, R2, <- E1, <- E2.
    rewrite app_assoc, take_take_drop. exact (eq_sym (take_drop 8 p)).
  - change 8%nat with (Z.to_nat 8). rewrite zlen_drop by lia. done.
Qed.

Lemma intset_of_blob_blob s :
  0 <= encoding s < 2 ^ 32 -> 0 <= is_length s < 2 ^ 32 ->
  intset_of_blob (intset_blob s) = Some s.
Proof.
  intros He Hl. unfold intset_of_blob, intset_blob.
  rewrite rd_bytes_head, rd_bytes_at by done.
  cbn [mbind option_bind]. rewrite !le_val_bytes, !wrapu_id by lia.
  by destruct s.
Qed.

Lemma validate_loop_ok s vs n : zlen vs < 2 ^ 31 -> holds s vs ->
  forall i prev, (S i + n = length vs)%nat -> vs !! i = Some prev ->
  exists b, intsetValidate_loop n s (Z.of_nat (S i)) prev = Some b /\
    (b = true <-> Sorted Z.lt (drop i vs)).
Proof.
  intros Hlen Hh. induction n as [|n IH]; intros i prev Hi Hp; cbn [intsetValidate_loop].
  - exists true. split; [done|]. split; [intros _|done].
    rewrite (drop_S _ prev) by done. rewrite drop_ge by lia. by repeat constructor.
  - rewrite wraps_id by (unfold is_s, zlen in *; cbn; lia).
    destruct (lookup_lt_is_Some_2 vs (S i)) as [cur Hc]; [lia|].
    rewrite (holds_get s vs (S i) cur) by done. cbn [mbind option_bind].
    rewrite (drop_S _ prev), (drop_S _ cur) by done.
    destruct (Z.leb_spec cur prev).
    + exists false. split; [done|]. split; [done|].
      intros [_ Hd]%Sorted_inv. apply HdRel_inv in Hd. lia.
    + replace (Z.of_nat (S i) + 1) with (Z.of_nat (S (S i))) by lia.
      destruct (IH (S i) cur) as (b & -> & Hb); [lia|done|].
      exists b. split; [done|]. rewrite Hb, (drop_S _ cur) by done. split.
      * intros Hs. constructor; [done|]. by constructor.
      * by intros [? _]%Sorted_inv.
Qed.

Lemma SSorted_Sorted vs : StronglySorted Z.lt vs <-> Sorted Z.lt vs.
Proof.
  split; [apply StronglySorted_Sorted|apply Sorted_StronglySorted].
  intros x y z. lia.
Qed.

Lemma validate_blob s vs :
  holds s vs -> zlen vs < 2 ^ 31 ->
  exists b, intsetValidateIntegrity (intset_blob s) true = Some b /\
    (b = true <-> StronglySorted Z.lt vs /\ vs <> []).
Proof.
  intros Hh Hlen. pose proof Hh as (He & Hl & Hc & _). pose proof (valid_enc_bounds _ He).
  pose proof (zlen_nonneg vs).
  unfold intsetValidateIntegrity.
  assert (Hz : zlen (intset_blob s) = 8 + is_length s * encoding s).
  { unfold intset_blob. autorewrite with zlen. rewrite Hc, Hl. lia. }
  rewrite Hz. unfold sizeof_intset.
  destruct (Z.ltb_spec (8 + is_length s * encoding s) 8); [nia|].
  rewrite intset_of_blob_blob by lia. cbn [mbind option_bind].
  assert ((encoding s =? INTSET_ENC_INT64) || (encoding s =? INTSET_ENC_INT32)
          || (encoding s =? INTSET_ENC_INT16) = true) as ->
    by (destruct He as [->|[->| ->]]; done). cbn [negb].
  rewrite wrapu_id by nia. rewrite Z.eqb_refl. cbn [negb].
  destruct (Z.eqb_spec (is_length s) 0).
  { exists false. split; [done|]. split; [done|]. intros [_ Hne]. exfalso. apply Hne.
    apply zlen_0_nil. lia. }
  destruct (holds_get_z s vs 0 Hh) as (prev & Hp & ->); [lia|]. cbn [mbind option_bind].
  destruct (validate_loop_ok s vs (Z.to_nat (is_length s - 1)) Hlen Hh 0 prev)
    as (b & Hb & Hiff); [unfold zlen in *; lia|done|].
  exists b. split; [exact Hb|]. rewrite Hiff, drop_0, SSorted_Sorted.
  split; [intros ?; split; [done|]|tauto]. by intros ->.
Qed.

(** Deep validation of an untrusted payload accepts exactly the serialized
    form of a non-empty well-formed set. *)
Theorem intsetValidateIntegrity_sound_complete p :
  Forall is_byte p -> zlen p < 2 ^ 31 ->
  intsetValidateIntegrity p true = Some true <->
  exists s vs, p = intset_blob s /\ intset_repr s vs /\ vs <> [].
Proof.
  intros Hb Hlen. split.
  - intros Hv. pose proof Hv as Hv'. unfold intsetValidateIntegrity in Hv'.
    destruct (Z.ltb_spec (zlen p) sizeof_intset); [done|].
    destruct (intset_of_blob_ok p Hb) as (s & Hs & -> & He & Hl & Hc); [done|].
    rewrite Hs in Hv'. cbn [mbind option_bind] in Hv'.
    destruct (negb (_ || _ || _)) eqn:E1; [done|].
    destruct (negb (_ =? _)) eqn:E2; [done|].
    apply negb_false_iff, orb_true_iff in E1. rewrite orb_true_iff, !Z.eqb_eq in E1.
    apply negb_false_iff, Z.eqb_eq in E2.
    unfold sizeof_intset, INTSET_ENC_INT64, INTSET_ENC_INT32, INTSET_ENC_INT16 in *.
    assert (Hve : valid_enc (encoding s)) by (unfold valid_enc; lia).
    pose proof (valid_enc_bounds _ Hve).
    rewrite wrapu_id in E2 by nia.
    destruct (holds_exists s) as [vs Hh]; [done|lia|lia|].
    pose proof Hh as (_ & Hlv & Hcv & _).
    destruct (validate_blob s vs Hh) as (b & Hbv & Hiff).
    { rewrite Hcv in Hc. nia. }
    rewrite Hv in Hbv. injection Hbv as <-. destruct Hiff as [Hiff _].
    destruct Hiff as [??]; [done|]. exists s, vs. done.
  - intros (s & vs & -> & [Hh Hs] & Hne).
    destruct (validate_blob s vs Hh) as (b & -> & Hiff).
    { pose proof Hh as (He & Hl & Hc & _). pose proof (valid_enc_bounds _ He).
      unfold intset_blob in Hlen. autorewrite with zlen in Hlen. nia. }
    f_equal. by apply Hiff.
Qed.

(** On 2^29 or more 8-byte members the [uint32_t] byte count that
    [intsetMoveTail] hands to [memmove] wraps: it is smaller than the tail to
    move.  (At 2^29 members, well below the 2^30 that t_set.c allows, an
    insertion at the front would move 0 bytes.) *)
Theorem intsetMoveTail_bytes_wraps s from :
  encoding s = INTSET_ENC_INT64 -> 0 <= from <= is_length s -> is_length s < 2 ^ 32 ->
  2 ^ 29 <= is_length s - from ->
  intsetMoveTail_bytes s from < (is_length s - from) * 8.
Proof.
  intros He Hf Hl Hw. unfold intsetMoveTail_bytes. rewrite He. cbn [Z.eqb INTSET_ENC_INT64].
  rewrite (wrapu_id 32 (is_length s - from)) by lia. cbn.
  pose proof (wrapu_range 32 ((is_length s - from) * 8) ltac:(lia)). lia.
Qed.

(** ** Witnesses *)

Definition ex_set : intset := mk_intset 2 2 [1; 0; 44; 1].

Lemma ex_set_repr : intset_repr ex_set [1; 300].
Proof.
  split.
  - split; [by left|]. repeat split; vm_compute; reflexivity.
  - repeat constructor.
Qed.

Lemma intsetAdd_refines_witness :
  exists s' vs', intsetAdd (fun _ => 170) ex_set 70000
      = Some (s', bool_decide (70000 ∉ [1; 300])) /\
    intset_repr s' vs' /\ (list_to_set vs' : gset Z) = {[70000]} ∪ list_to_set [1; 300].
Proof. apply intsetAdd_refines; [apply ex_set_repr|by vm_compute|by vm_compute]. Defined.

Lemma intsetRemove_refines_witness :
  exists s' vs', intsetRemove (fun _ => 170) ex_set 1 = Some (s', bool_decide (1 ∈ [1; 300])) /\
    intset_repr s' vs' /\ (list_to_set vs' : gset Z) = list_to_set [1; 300] ∖ {[1]}.
Proof. apply intsetRemove_refines; [apply ex_set_repr|by vm_compute|by vm_compute]. Defined.

Lemma intsetFind_correct_witness :
  intsetFind ex_set 300 = Some (bool_decide (300 ∈ [1; 300])).
Proof. apply intsetFind_correct; [apply ex_set_repr|by vm_compute|by vm_compute]. Defined.

Lemma intsetValidateIntegrity_witness :
  intsetValidateIntegrity (intset_blob ex_set) true = Some true <->
  exists s vs, intset_blob ex_set = intset_blob s /\ intset_repr s vs /\ vs <> [].
Proof.
  apply intsetValidateIntegrity_sound_complete; [|by vm_compute].
  repeat (constructor; [by vm_compute|]). constructor.
Defined.

Lemma intsetMoveTail_bytes_wraps_witness :
  intsetMoveTail_bytes (mk_intset 8 (2 ^ 29) []) 0 < (2 ^ 29 - 0) * 8.
Proof.
  apply (intsetMoveTail_bytes_wraps (mk_intset 8 (2 ^ 29) []) 0); [reflexivity|..];
    cbn [is_length]; lia.
Defined.

Example upgrade_example :
  (r ← intsetAdd (fun _ => 170) ex_set (-70000); Some (contents r.1))
  = Some [144; 238; 254; 255; 1; 0; 0; 0; 44; 1; 0; 0].
Proof. reflexivity. Qed.
