(* ===== verification/Util.v ===== *)
(** * Number and string conversions of src/util.c

    [digits10], [ull2string], [ll2string] and the strict parsers [string2ll],
    [string2l], [string2ull], the memory-size parser [memtoull], and the byte
    searches [mempbrk] and [memmapchars].  A C string argument with an explicit
    length is the list of its bytes; a parser's cursor [p] is the list of the
    bytes that are left, so that [plen < slen] is "the list is not empty".
    [None] is the C result 0 of a parser, and for the printers, which write into
    a caller's buffer, an access outside of that buffer. *)

From stdpp Require Import base list numbers option tactics.
From S2P Require Import Prelude.

Definition LONG_STR_SIZE : Z := 21.
Definition LLONG_MIN : Z := INT64_MIN.
Definition LLONG_MAX : Z := INT64_MAX.
Definition ULLONG_MAX : Z := UINT64_MAX.

(** ASCII codes used by the code. *)
Definition ch_0 : Z := 48.
Definition ch_9 : Z := 57.
Definition ch_minus : Z := 45.

(** ** Printing *)

(** [digits10]: one recursive call per factor 10^12; a 64-bit value needs one. *)
Fixpoint digits10_fuel (fuel : nat) (v : Z) : Z :=
  if v <? 10 then 1
  else if v <? 100 then 2
  else if v <? 1000 then 3
  else if v <? 1000000000000 then
    if v <? 100000000 then
      if v <? 1000000 then
        if v <? 10000 then 4
        else 5 + Z.b2z (v >=? 100000)
      else 7 + Z.b2z (v >=? 10000000)
    else if v <? 10000000000 then 9 + Z.b2z (v >=? 1000000000)
    else 11 + Z.b2z (v >=? 100000000000)
  else match fuel with
       | O => 0
       | S fuel => 12 + digits10_fuel fuel (v / 1000000000000)
       end.
Definition digits10 (v : Z) : Z := digits10_fuel 2 v.

Definition sdigits10 (v : Z) : Z :=
  if v <? 0 then
    let uv := if negb (v =? LLONG_MIN) then u64 (- v) else u64 (LLONG_MAX + 1) in
    digits10 uv + 1
  else digits10 v.

(** The table of the two-digit decimals, "00" to "99". *)
Definition digits_table : list Z :=
  concat ((fun i => [ch_0 + i / 10; ch_0 + i mod 10]) <$> seqZ 0 100).

(** [while (value >= 100)]: two digits per round, from the right.  [dst] is the
    buffer and [off] the position of [dst[0]] in it. *)
Fixpoint ull2string_loop (fuel : nat) (buf : list Z) (off next value : Z)
  : option (list Z * Z * Z) :=
  if value >=? 100 then
    match fuel with
    | O => None
    | S fuel =>
        let i := value mod 100 * 2 in
        let value := value / 100 in
        d1 ← rd digits_table (i + 1);
        buf ← wr buf (off + next) d1;
        d0 ← rd digits_table i;
        buf ← wr buf (off + u32 (next - 1)) d0;
        ull2string_loop fuel buf off (u32 (next - 2)) value
    end
  else Some (buf, next, value).

(** [Handle last 1-2 digits]: the tail of [ull2string] after the loop. *)
Definition ull2string_last (buf : list Z) (off next value : Z) : option (list Z) :=
  if value <? 10 then wr buf (off + next) (ch_0 + value)
  else
    let i := value * 2 in
    d1 ← rd digits_table (i + 1);
    buf ← wr buf (off + next) d1;
    d0 ← rd digits_table i;
    wr buf (off + u32 (next - 1)) d0.

Definition ull2string (buf : list Z) (off dstlen value : Z) : option (list Z * Z) :=
  let length := digits10 value in
  if length >=? dstlen then
    buf ← (if dstlen >? 0 then wr buf off 0 else Some buf);
    Some (buf, 0)
  else
    let next := u32 (length - 1) in
    buf ← wr buf (off + u32 (next + 1)) 0;
    '(buf, next, value) ← ull2string_loop 10 buf off next value;
    buf ← ull2string_last buf off next value;
    Some (buf, length).

Definition ll2string (buf : list Z) (off dstlen svalue : Z) : option (list Z * Z) :=
  if svalue <? 0 then
    let value := if negb (svalue =? LLONG_MIN) then u64 (- svalue) else u64 (LLONG_MAX + 1) in
    if dstlen <? 2 then
      buf ← (if dstlen >? 0 then wr buf off 0 else Some buf);
      Some (buf, 0)
    else
      buf ← wr buf off ch_minus;
      '(buf, length) ← ull2string buf (off + 1) (dstlen - 1) value;
      if length =? 0 then Some (buf, 0) else Some (buf, length + 1)
  else
    '(buf, length) ← ull2string buf off dstlen svalue;
    if length =? 0 then Some (buf, 0) else Some (buf, length).

(** ** Parsing *)

Definition is_digit (c : Z) : bool := (ch_0 <=? c) && (c <=? ch_9).

(** [while (plen < slen && p[0] >= '0' && p[0] <= '9')]: [None] is the overflow
    return; otherwise the value and the bytes that were not used. *)
Fixpoint string2ll_loop (p : list Z) (v : Z) : option (Z * list Z) :=
  match p with
  | c :: p' =>
      if is_digit c then
        if v >? ULLONG_MAX / 10 then None
        else
          let v := u64 (v * 10) in
          if v >? ULLONG_MAX - (c - ch_0) then None
          else string2ll_loop p' (u64 (v + (c - ch_0)))
      else Some (v, p)
  | [] => Some (v, p)
  end.

(** What follows the optional sign: a digit 1-9, the other digits, and the
    conversion to [long long] with its overflow checks. *)
Definition string2ll_tail (negative : bool) (p : list Z) : option Z :=
  match p with
  | [] => None
  | c :: p' =>
      if (c >=? ch_0 + 1) && (c <=? ch_9) then
        '(v, rest) ← string2ll_loop p' (c - ch_0);
        match rest with
        | _ :: _ => None
        | [] =>
            if negative then
              if v >? u64 (- (LLONG_MIN + 1)) + 1 then None else Some (s64 (u64 (- v)))
            else
              if v >? LLONG_MAX then None else Some (s64 v)
        end
      else None
  end.

Definition string2ll (s : list Z) : option Z :=
  if (zlen s =? 0) || (zlen s >=? LONG_STR_SIZE) then None
  else if bool_decide (s = [ch_0]) then Some 0
  else match s with
  | c :: p => if c =? ch_minus then string2ll_tail true p else string2ll_tail false s
  | [] => None
  end.

(** [long] is 64 bits wide on the hosts modelled. *)
Definition LONG_MIN : Z := INT64_MIN.
Definition LONG_MAX : Z := INT64_MAX.

Definition string2l (s : list Z) : option Z :=
  llval ← string2ll s;
  if (llval <? LONG_MIN) || (llval >? LONG_MAX) then None else Some llval.

(** *** [strtoull] of the C library, base 10

    Leading white space, an optional sign, then decimal digits; the value of an
    empty digit sequence is 0 with nothing consumed; an overflow gives
    [ULLONG_MAX] and [ERANGE]; a minus sign negates modulo 2^64. *)

Definition is_space (c : Z) : bool := (c =? 32) || ((9 <=? c) && (c <=? 13)).

Fixpoint skip_space (s : list Z) : list Z :=
  match s with
  | c :: s' => if is_space c then skip_space s' else s
  | [] => []
  end.

Fixpoint take_digits (s : list Z) : list Z * list Z :=
  match s with
  | c :: s' => if is_digit c then let '(d, r) := take_digits s' in (c :: d, r) else ([], s)
  | [] => ([], [])
  end.

Definition dec_value (ds : list Z) : Z := foldl (fun a c => 10 * a + (c - ch_0)) 0 ds.

Record strtoull_result := { sv : Z; send : list Z; serange : bool }.

Definition strtoull10 (s : list Z) : strtoull_result :=
  let p := skip_space s in
  let '(neg, p) := match p with
    | c :: p' => if c =? ch_minus then (true, p') else if c =? 43 then (false, p') else (false, p)
    | [] => (false, p) end in
  let '(ds, rest) := take_digits p in
  match ds with
  | [] => {| sv := 0; send := s; serange := false |}
  | _ =>
      let v := dec_value ds in
      if v >? ULLONG_MAX then {| sv := ULLONG_MAX; send := rest; serange := true |}
      else {| sv := if neg : bool then u64 (- v) else v; send := rest; serange := false |}
  end.

(** [string2ull] takes a NUL-terminated string: [s] is its bytes before the NUL. *)
Definition string2ull (s : list Z) : option Z :=
  match string2ll s with
  | Some ll => if ll <? 0 then None else Some ll
  | None =>
      let r := strtoull10 s in
      if serange r || negb (negb (zlen s =? 0) && (zlen (send r) =? 0)) then None
      else Some (sv r)
  end.

(** *** Memory sizes *)

Definition tolower (c : Z) : Z := if (65 <=? c) && (c <=? 90) then c + 32 else c.

(** [strcasecmp(u, lit) == 0] for NUL-terminated strings. *)
Definition strcaseeq (u lit : list Z) : bool :=
  bool_decide (tolower <$> u = tolower <$> lit).

Definition lit_b : list Z := [98].
Definition lit_k : list Z := [107].
Definition lit_kb : list Z := [107; 98].
Definition lit_m : list Z := [109].
Definition lit_mb : list Z := [109; 98].
Definition lit_g : list Z := [103].
Definition lit_gb : list Z := [103; 98].

(** The unit multiplier, [None] for an unknown unit. *)
Definition memtoull_mul (u : list Z) : option Z :=
  if (zlen u =? 0) || strcaseeq u lit_b then Some 1
  else if strcaseeq u lit_k then Some 1000
  else if strcaseeq u lit_kb then Some 1024
  else if strcaseeq u lit_m then Some (1000 * 1000)
  else if strcaseeq u lit_mb then Some (1024 * 1024)
  else if strcaseeq u lit_g then Some (1000 * 1000 * 1000)
  else if strcaseeq u lit_gb then Some (1024 * 1024 * 1024)
  else None.

(** [memtoull]: [None] is the error return ([*err = 1]). *)
Definition memtoull (p : list Z) : option Z :=
  if match p with c :: _ => c =? ch_minus | [] => false end then None
  else
    let '(ds, u) := take_digits p in
    mul ← memtoull_mul u;
    if zlen ds >=? 128 then None
    else
      let r := strtoull10 ds in
      if negb (zlen (send r) =? 0) then None
      else if sv r >? ULLONG_MAX / mul then Some ULLONG_MAX
      else Some (u64 (sv r * mul)).

(** *** Byte searches *)

Fixpoint mempbrk_from (s : list Z) (chars : list Z) (j : Z) : option Z :=
  match s with
  | [] => None
  | c :: s' => if bool_decide (c ∈ chars) then Some j else mempbrk_from s' chars (j + 1)
  end.
(** The index of the first byte of [s] that is one of [chars]. *)
Definition mempbrk (s chars : list Z) : option Z := mempbrk_from s chars 0.

Fixpoint memmapchars_byte (c : Z) (from to : list Z) : Z :=
  match from, to with
  | f :: from', t :: to' => if c =? f then t else memmapchars_byte c from' to'
  | _, _ => c
  end.
Definition memmapchars (s from to : list Z) : list Z :=
  (fun c => memmapchars_byte c from to) <$> s.

(** ** Decimal numerals

    [dec_pad n v]: the [n] low decimal digits of [v], most significant first. *)

Fixpoint dec_pad (n : nat) (v : Z) : list Z :=
  match n with
  | O => []
  | S n => dec_pad n (v / 10) ++ [ch_0 + v mod 10]
  end.

Definition decimal (v : Z) : list Z := dec_pad (Z.to_nat (digits10 v)) v.

(** The text of a signed integer: the one numeral without leading zeros. *)
Definition ll_text (v : Z) : list Z :=
  if v <? 0 then ch_minus :: decimal (- v) else decimal v.

Definition dec_from (a : Z) (ds : list Z) : Z := foldl (fun a c => 10 * a + (c - ch_0)) a ds.

(** [n] is the number of decimal digits of [v]. *)
Definition dbounds (n v : Z) : Prop := 1 <= n /\ 0 <= v < 10 ^ n /\ (n = 1 \/ 10 ^ (n - 1) <= v).

Lemma digits10_bounds v : 0 <= v < 2 ^ 64 -> dbounds (digits10 v) v /\ digits10 v <= 20.
Proof.
  intros Hv. unfold digits10, dbounds.
  assert (Hs : forall x, 0 <= x < 1000000000000 -> forall f,
    let k := digits10_fuel f x in
    1 <= k <= 12 /\ x < 10 ^ k /\ (k = 1 \/ 10 ^ (k - 1) <= x)).
  { intros x Hx f. destruct f; cbn -[Z.pow Z.add];
      repeat (case_match; rewrite ?Z.ltb_lt, ?Z.ltb_ge in *; cbn -[Z.pow] in *);
      unfold Z.b2z; repeat case_match; cbn in *; lia. }
  destruct (decide (v < 1000000000000)).
  { destruct (Hs v ltac:(lia) 2%nat) as (?&?&?). lia. }
  cbn [digits10_fuel].
  repeat (rewrite (proj2 (Z.ltb_ge v _)) by lia).
  set (q := v / 1000000000000).
  assert (Hq : 1 <= q < 1000000000000).
  { unfold q. split; [apply Z.div_le_lower_bound; lia|apply Z.div_lt_upper_bound; lia]. }
  assert (Hqm : 1000000000000 * q <= v < 1000000000000 * (q + 1)).
  { unfold q. pose proof (Z.mul_div_le v 1000000000000 ltac:(lia)).
    pose proof (Z.mul_succ_div_gt v 1000000000000 ltac:(lia)). lia. }
  destruct (Hs q ltac:(lia) 1%nat) as (Hk & Hlt & Hge).
  cbn [digits10_fuel] in Hk, Hlt, Hge. set (k := if q <? 10 then _ else _) in *.
  assert (Hp : 10 ^ (12 + k) = 1000000000000 * 10 ^ k) by (rewrite Z.pow_add_r by lia; lia).
  assert (Hp' : 10 ^ (12 + k - 1) = 1000000000000 * 10 ^ (k - 1)).
  { replace (12 + k - 1) with (12 + (k - 1)) by lia. rewrite Z.pow_add_r by lia. lia. }
  rewrite Hp, Hp'. repeat split; try lia.
  - right. destruct Hge as [Hk1|?]; [rewrite Hk1; cbn|]; nia.
  - destruct (decide (k <= 8)); [lia|]. exfalso.
    assert (10 ^ 8 <= 10 ^ (k - 1)) by (apply Z.pow_le_mono_r; lia).
    change (10 ^ 8) with 100000000 in *. lia.
Qed.

Lemma dbounds_unique n m v : dbounds n v -> dbounds m v -> n = m.
Proof.
  intros (H1 & H2 & H3) (H4 & H5 & H6).
  destruct (Z.lt_trichotomy n m) as [Hl|[?|Hl]]; [|done|]; exfalso.
  - assert (10 ^ n <= 10 ^ (m - 1)) by (apply Z.pow_le_mono_r; lia). lia.
  - assert (10 ^ m <= 10 ^ (n - 1)) by (apply Z.pow_le_mono_r; lia). lia.
Qed.

Lemma pow10_S n : 0 <= n -> 10 ^ (n + 1) = 10 * 10 ^ n.
Proof. intros. rewrite Z.pow_add_r by lia. lia. Qed.

Lemma length_dec_pad n v : length (dec_pad n v) = n.
Proof. revert v. induction n; intros; cbn; [done|]. rewrite length_app, IHn. cbn. lia. Qed.

Lemma is_digit_spec c : is_digit c = true <-> ch_0 <= c <= ch_9.
Proof. unfold is_digit. rewrite andb_true_iff, !Z.leb_le. done. Qed.

Lemma dec_pad_digits n v : Forall (fun c => ch_0 <= c <= ch_9) (dec_pad n v).
Proof.
  revert v. induction n as [|n IH]; intros v; cbn; [constructor|].
  apply list.Forall_app. split; [done|]. constructor; [|done].
  pose proof (Z.mod_pos_bound v 10 ltac:(lia)). unfold ch_0, ch_9. lia.
Qed.

Lemma dec_from_app a x y : dec_from a (x ++ y) = dec_from (dec_from a x) y.
Proof. unfold dec_from. by rewrite foldl_app. Qed.

Lemma dec_from_shift ds : forall a, dec_from a ds = a * 10 ^ zlen ds + dec_from 0 ds.
Proof.
  induction ds as [|c ds IH]; intros a; [cbn [dec_from foldl]; rewrite zlen_nil, Z.pow_0_r; cbn; lia|].
  change (dec_from a (c :: ds)) with (dec_from (10 * a + (c - ch_0)) ds).
  change (dec_from 0 (c :: ds)) with (dec_from (10 * 0 + (c - ch_0)) ds).
  rewrite IH, (IH (10 * 0 + _)). rewrite zlen_cons, (Z.add_comm 1), pow10_S by apply zlen_nonneg.
  lia.
Qed.

Lemma dec_from_nonneg ds : Forall (fun c => ch_0 <= c <= ch_9) ds ->
  0 <= dec_from 0 ds < 10 ^ zlen ds.
Proof.
  induction 1 as [|c ds Hc Hds IH]; [by vm_compute|].
  change (dec_from 0 (c :: ds)) with (dec_from (10 * 0 + (c - ch_0)) ds).
  rewrite dec_from_shift, zlen_cons, (Z.add_comm 1), pow10_S by apply zlen_nonneg.
  unfold ch_0, ch_9 in *. nia.
Qed.

Lemma dec_from_pad n v : 0 <= v -> dec_from 0 (dec_pad n v) = v mod 10 ^ Z.of_nat n.
Proof.
  revert v. induction n as [|n IH]; intros v Hv; cbn [dec_pad].
  - cbn. by rewrite Z.mod_1_r.
  - rewrite dec_from_app, IH by (apply Z.div_pos; lia).
    cbn -[Z.mul Z.pow]. replace (ch_0 + v mod 10 - ch_0) with (v mod 10) by lia.
    replace (Z.of_nat (S n)) with (Z.of_nat n + 1) by lia.
    rewrite pow10_S by lia. rewrite Z.rem_mul_r by lia. lia.
Qed.

Lemma dec_pad_value ds : Forall (fun c => ch_0 <= c <= ch_9) ds ->
  dec_pad (length ds) (dec_from 0 ds) = ds.
Proof.
  induction ds as [|c ds IH] using rev_ind; intros H; [done|].
  apply list.Forall_app in H as [Hds Hc]. apply Forall_inv in Hc.
  rewrite length_app, Nat.add_comm. cbn [length Nat.add dec_pad].
  rewrite dec_from_app. change (dec_from ?a [c]) with (10 * a + (c - ch_0)).
  unfold ch_0, ch_9 in *.
  rewrite (Z.mul_comm 10), Z.div_add_l, Z.div_small, Z.add_0_r by lia.
  rewrite IH by done. f_equal. f_equal. rewrite (Z.add_comm (_ * 10)), Z_mod_plus_full, Z.mod_small by lia.
  lia.
Qed.

Lemma decimal_unique v ds :
  0 <= v < 2 ^ 64 -> Forall (fun c => ch_0 <= c <= ch_9) ds -> dec_from 0 ds = v ->
  dbounds (zlen ds) v -> ds = decimal v.
Proof.
  intros Hv Hd Hval Hb. unfold decimal.
  destruct (digits10_bounds v Hv) as [Hb' _].
  rewrite <- (dbounds_unique _ _ _ Hb Hb'). unfold zlen. rewrite Nat2Z.id, <- Hval.
  symmetry. by apply dec_pad_value.
Qed.

(** ** The printers *)

Lemma digits_table_spec i :
  0 <= i < 100 ->
  rd digits_table (i * 2) = Some (ch_0 + i / 10) /\
  rd digits_table (i * 2 + 1) = Some (ch_0 + i mod 10).
Proof.
  intros Hi. assert (H : Forall (fun i => rd digits_table (i * 2) = Some (ch_0 + i / 10) /\
    rd digits_table (i * 2 + 1) = Some (ch_0 + i mod 10)) (seqZ 0 100)).
  { vm_compute. repeat (constructor; [split; reflexivity|]). constructor. }
  rewrite list.Forall_forall in H. apply H. apply elem_of_seqZ. lia.
Qed.

Lemma wr_mid a x t y : wr (a ++ x :: t) (zlen a) y = Some (a ++ y :: t).
Proof. apply (wr_bytes_app a [x] t [y]). done. Qed.

Lemma list_snoc {A} (l : list A) : 0 < zlen l -> exists k x, l = k ++ [x] /\ zlen k = zlen l - 1.
Proof.
  intros H. destruct l as [|x l _] using rev_ind; [unfold zlen in H; cbn in H; lia|].
  exists l, x. split; [done|]. zlia.
Qed.

Lemma dec_pad_100 n v : 0 <= v ->
  dec_pad (S (S n)) v = dec_pad n (v / 100) ++ [ch_0 + v mod 100 / 10; ch_0 + v mod 100 mod 10].
Proof.
  intros Hv. cbn [dec_pad]. rewrite Z.div_div, <- app_assoc by lia. cbn.
  assert (H1 : v mod 100 mod 10 = v mod 10).
  { apply Z.mod_mod_divide. by exists 10. }
  assert (H2 : v mod 100 / 10 = v / 10 mod 10).
  { rewrite (Z.mod_eq v 100), (Z.mod_eq (v / 10) 10), Z.div_div by lia.
    change (10 * 10) with 100. replace (v - 100 * (v / 100)) with (v + - (10 * (v / 100)) * 10) by lia.
    rewrite Z.div_add by lia. lia. }
  by rewrite H1, H2.
Qed.

Lemma dbounds_step n v : dbounds n v -> 100 <= v -> 3 <= n /\ dbounds (n - 2) (v / 100).
Proof.
  intros (H1 & H2 & H3) Hv.
  assert (Hn : 3 <= n).
  { destruct (decide (3 <= n)); [done|]. assert (10 ^ n <= 10 ^ 2) by (apply Z.pow_le_mono_r; lia).
    change (10 ^ 2) with 100 in *. lia. }
  split; [done|]. repeat split; try lia.
  - apply Z.div_pos; lia.
  - apply Z.div_lt_upper_bound; [lia|]. change 100 with (10 ^ 2).
    rewrite <- Z.pow_add_r by lia. replace (2 + (n - 2)) with n by lia. lia.
  - right. apply Z.div_le_lower_bound; [lia|]. change 100 with (10 ^ 2).
    rewrite <- Z.pow_add_r by lia. replace (2 + (n - 2 - 1)) with (n - 1) by lia. lia.
Qed.

Lemma ull2string_last_ok a m t v :
  0 <= v < 100 -> dbounds (zlen m) v -> zlen m <= 20 ->
  ull2string_last (a ++ m ++ t) (zlen a) (zlen m - 1) v = Some (a ++ dec_pad (length m) v ++ t).
Proof.
  intros Hv (H1 & H2 & H3) Hm. unfold ull2string_last.
  assert (Hl : zlen m = if v <? 10 then 1 else 2).
  { destruct (Z.ltb_spec v 10).
    - destruct H3 as [?|H3]; [done|]. destruct (decide (zlen m = 1)); [done|].
      assert (10 ^ 1 <= 10 ^ (zlen m - 1)) by (apply Z.pow_le_mono_r; lia).
      change (10 ^ 1) with 10 in *. lia.
    - destruct (decide (zlen m = 1)) as [E|]; [rewrite E in H2; cbn in H2; lia|].
      destruct (decide (3 <= zlen m)); [|lia].
      assert (10 ^ 2 <= 10 ^ (zlen m - 1)) by (apply Z.pow_le_mono_r; lia).
      change (10 ^ 2) with 100 in *. lia. }
  destruct (Z.ltb_spec v 10).
  - destruct m as [|x [|y m]]; autorewrite with zlen in Hl; try (zlen_facts; lia).
    cbn [length dec_pad app]. replace (zlen a + (zlen [x] - 1)) with (zlen a) by zlia.
    rewrite wr_mid, Z.mod_small by lia. done.
  - destruct m as [|x [|y [|z m]]]; autorewrite with zlen in Hl; try (zlen_facts; lia).
    destruct (digits_table_spec v Hv) as [-> ->].
    cbn [mbind option_bind app length].
    rewrite (cons_middle x), (app_assoc a [x]).
    replace (zlen a + (zlen [x; y] - 1)) with (zlen (a ++ [x])) by zlia.
    rewrite wr_mid. cbn [mbind option_bind]. rewrite <- app_assoc. cbn [app].
    rewrite wrapu_id by zlia. replace (zlen a + (zlen [x; y] - 1 - 1)) with (zlen a) by zlia.
    rewrite wr_mid, dec_pad_100 by lia. cbn [dec_pad app]. by rewrite (Z.mod_small v 100) by lia.
Qed.

Lemma ull2string_loop_ok fuel a m t v :
  dbounds (zlen m) v -> zlen m <= 2 * Z.of_nat fuel + 2 -> zlen m <= 20 ->
  ('(buf, next, value) ← ull2string_loop fuel (a ++ m ++ t) (zlen a) (zlen m - 1) v;
   ull2string_last buf (zlen a) next value) = Some (a ++ dec_pad (length m) v ++ t).
Proof.
  revert m t v. induction fuel as [|fuel IH]; intros m t v Hb Hf H20;
    cbn [ull2string_loop]; rewrite Z.geb_leb; destruct (Z.leb_spec 100 v) as [Hge|Hlt].
  - destruct (dbounds_step _ _ Hb Hge). lia.
  - cbn [mbind option_bind]. apply ull2string_last_ok; [|done|lia]. destruct Hb. lia.
  - destruct (dbounds_step _ _ Hb Hge) as [Hn Hb'].
    pose proof (Z.mod_pos_bound v 100 ltac:(lia)).
    destruct (digits_table_spec (v mod 100)) as [T0 T1]; [lia|].
    destruct (list_snoc m) as (m1 & y & -> & Hm1); [lia|].
    destruct (list_snoc m1) as (m2 & x & -> & Hm2); [lia|].
    autorewrite with zlen in *. rewrite T1, T0. cbn [mbind option_bind].
    rewrite <- !app_assoc. cbn [app].
    replace (a ++ m2 ++ x :: y :: t) with ((a ++ m2 ++ [x]) ++ y :: t) by (by rewrite <- !app_assoc).
    replace (zlen a + (zlen m2 + (1 + 0) + (1 + 0) - 1)) with (zlen (a ++ m2 ++ [x])) by zlia.
    rewrite wr_mid. cbn [mbind option_bind]. rewrite !(wrapu_id 32) by (zlen_facts; lia).
    replace ((a ++ m2 ++ [x]) ++ (ch_0 + v mod 100 mod 10) :: t)
      with ((a ++ m2) ++ x :: (ch_0 + v mod 100 mod 10) :: t) by (by rewrite <- !app_assoc).
    replace (zlen a + (zlen m2 + (1 + 0) + (1 + 0) - 1 - 1)) with (zlen (a ++ m2)) by zlia.
    rewrite wr_mid. cbn [mbind option_bind].
    replace (zlen m2 + (1 + 0) + (1 + 0) - 1 - 2) with (zlen m2 - 1) by lia.
    rewrite <- app_assoc.
    replace (zlen m2 + (1 + 0) + (1 + 0) - 2) with (zlen m2) in Hb' by lia.
    rewrite IH by (done || lia).
    replace (length (m2 ++ [x; y])) with (S (S (length m2)))
      by (rewrite !length_app; cbn; lia).
    rewrite dec_pad_100 by (destruct Hb; lia). by rewrite <- app_assoc.
  - cbn [mbind option_bind]. apply ull2string_last_ok; [|done|lia]. destruct Hb. lia.
Qed.

Lemma ull2string_ok a m z t dstlen v :
  0 <= v < 2 ^ 64 -> zlen m = digits10 v -> digits10 v < dstlen ->
  ull2string (a ++ m ++ z :: t) (zlen a) dstlen v = Some (a ++ decimal v ++ 0 :: t, digits10 v).
Proof.
  intros Hv Hm Hd. destruct (digits10_bounds v Hv) as [Hb H20]. pose proof Hb as (H1 & _ & _).
  unfold ull2string. rewrite Z.geb_leb. destruct (Z.leb_spec dstlen (digits10 v)); [lia|].
  rewrite (wrapu_id 32 (digits10 v - 1)), (wrapu_id 32 (digits10 v - 1 + 1)) by lia.
  rewrite Z.sub_add, app_assoc, <- Hm, <- zlen_app, wr_mid, <- app_assoc. cbn [mbind option_bind].
  pose proof (ull2string_loop_ok 10 a m (0 :: t) v) as Hl. rewrite Hm in *.
  specialize (Hl Hb ltac:(lia) H20).
  destruct (ull2string_loop _ _ _ _ _) as [[[buf next] value]|]; [|done].
  cbn [mbind option_bind] in *. rewrite Hl. cbn [mbind option_bind].
  unfold decimal. rewrite <- Hm. unfold zlen. by rewrite Nat2Z.id.
Qed.

Lemma zlen_decimal v : 0 <= v < 2 ^ 64 -> zlen (decimal v) = digits10 v.
Proof.
  intros Hv. destruct (digits10_bounds v Hv) as [(H1 & _) _].
  unfold decimal, zlen. rewrite length_dec_pad. lia.
Qed.

Lemma split_at_len {A} (l : list A) n :
  0 <= n < zlen l -> exists m z t, l = m ++ z :: t /\ zlen m = n /\ drop (Z.to_nat (n + 1)) l = t.
Proof.
  intros Hn. destruct (lookup_lt_is_Some_2 l (Z.to_nat n)) as [z Hz]; [unfold zlen in *; lia|].
  exists (take (Z.to_nat n) l), z, (drop (S (Z.to_nat n)) l). split; [|split].
  - by rewrite take_drop_middle.
  - apply zlen_take. lia.
  - f_equal. lia.
Qed.

Lemma ull2string_prints a m t v :
  0 <= v < 2 ^ 64 -> digits10 v < zlen m ->
  ull2string (a ++ m ++ t) (zlen a) (zlen m) v
  = Some (a ++ (decimal v ++ 0 :: drop (Z.to_nat (digits10 v + 1)) m) ++ t, digits10 v).
Proof.
  intros Hv Hd. destruct (digits10_bounds v Hv) as [(H1 & _) _].
  destruct (split_at_len m (digits10 v)) as (m1 & z & m2 & Hm & Hl & Hdr); [lia|].
  rewrite Hdr. rewrite Hm at 1. rewrite <- app_assoc. cbn [app].
  rewrite ull2string_ok by done. by rewrite <- app_assoc.
Qed.

Lemma ll_value v : is_s 64 v -> v < 0 ->
  (if negb (v =? LLONG_MIN) then u64 (- v) else u64 (LLONG_MAX + 1)) = - v.
Proof.
  unfold is_s, LLONG_MIN, LLONG_MAX, INT64_MIN, INT64_MAX. cbn -[wrapu].
  intros ??. destruct (Z.eqb_spec v (-9223372036854775808)); cbn [negb];
    rewrite wrapu_id by lia; lia.
Qed.

Lemma ll2string_ok a m t v :
  is_s 64 v -> zlen (ll_text v) < zlen m ->
  ll2string (a ++ m ++ t) (zlen a) (zlen m) v
  = Some (a ++ (ll_text v ++ 0 :: drop (Z.to_nat (zlen (ll_text v) + 1)) m) ++ t,
          zlen (ll_text v)).
Proof.
  intros Hv Hlen. unfold ll2string, ll_text in *. pose proof Hv as [Hv1 Hv2]. cbn in Hv1, Hv2.
  destruct (Z.ltb_spec v 0).
  - rewrite ll_value by done. rewrite zlen_cons, zlen_decimal in * by lia.
    destruct (digits10_bounds (- v) ltac:(lia)) as [(Hd & _) _].
    destruct (Z.ltb_spec (zlen m) 2); [lia|].
    destruct m as [|x m]; [unfold zlen in *; cbn in *; lia|]. rewrite zlen_cons in *.
    cbn [app]. rewrite wr_mid. cbn [mbind option_bind].
    rewrite (cons_middle ch_minus), app_assoc.
    replace (zlen a + 1) with (zlen (a ++ [ch_minus])) by zlia.
    replace (1 + zlen m - 1) with (zlen m) by lia.
    rewrite ull2string_prints by lia. cbn [mbind option_bind].
    destruct (Z.eqb_spec (digits10 (- v)) 0); [lia|].
    rewrite <- app_assoc. cbn [app].
    replace (Z.to_nat (1 + digits10 (- v) + 1)) with (S (Z.to_nat (digits10 (- v) + 1))) by lia.
    rewrite (Z.add_comm 1). done.
  - rewrite zlen_decimal in * by lia. rewrite ull2string_prints by lia. cbn [mbind option_bind].
    destruct (digits10_bounds v ltac:(lia)) as [(Hd & _) _].
    destruct (Z.eqb_spec (digits10 v) 0); [lia|]. done.
Qed.

(** [ll2string] prints every 64-bit integer as its canonical numeral
    (LLONG_MIN included), NUL-terminated, returns its length, and changes no
    byte outside of the [dstlen] bytes it was given. *)
Theorem ll2string_prints a m t v :
  is_s 64 v -> zlen (ll_text v) < zlen m ->
  ll2string (a ++ m ++ t) (zlen a) (zlen m) v
  = Some (a ++ (ll_text v ++ 0 :: drop (Z.to_nat (zlen (ll_text v) + 1)) m) ++ t,
          zlen (ll_text v)).
Proof. apply ll2string_ok. Qed.

Lemma ull2string_too_small a m t v :
  0 <= v < 2 ^ 64 -> zlen m <= digits10 v ->
  exists m', ull2string (a ++ m ++ t) (zlen a) (zlen m) v = Some (a ++ m' ++ t, 0) /\
    zlen m' = zlen m.
Proof.
  intros Hv Hm. unfold ull2string. rewrite Z.geb_leb, Z.gtb_ltb.
  rewrite (proj2 (Z.leb_le _ _)) by lia.
  destruct (Z.ltb_spec 0 (zlen m)) as [Hp|Hp]; [|by exists m].
  destruct m as [|x m]; [done|]. cbn [app]. rewrite wr_mid. cbn [mbind option_bind].
  exists (0 :: m). by rewrite !zlen_cons.
Qed.

(** A buffer too small for the numeral and its NUL is reported by a return
    of 0, and no byte outside of the buffer is written. *)
Theorem ll2string_too_small a m t v :
  is_s 64 v -> zlen m <= zlen (ll_text v) ->
  exists m', ll2string (a ++ m ++ t) (zlen a) (zlen m) v = Some (a ++ m' ++ t, 0) /\
    zlen m' = zlen m.
Proof.
  intros Hv Hlen. unfold ll2string, ll_text in *. pose proof Hv as [Hv1 Hv2]. cbn in Hv1, Hv2.
  destruct (Z.ltb_spec v 0).
  - rewrite ll_value by done. rewrite zlen_cons, zlen_decimal in * by lia.
    destruct (Z.ltb_spec (zlen m) 2) as [H2|H2]; rewrite ?Z.gtb_ltb.
    + destruct (Z.ltb_spec 0 (zlen m)) as [Hp|Hp]; [|by exists m].
      destruct m as [|x m]; [done|]. cbn [app]. rewrite wr_mid. cbn [mbind option_bind].
      exists (0 :: m). by rewrite !zlen_cons.
    + destruct m as [|x m]; [done|]. rewrite zlen_cons in *.
      cbn [app]. rewrite wr_mid. cbn [mbind option_bind].
      rewrite (cons_middle ch_minus), app_assoc.
      replace (zlen a + 1) with (zlen (a ++ [ch_minus])) by zlia.
      replace (1 + zlen m - 1) with (zlen m) by lia.
      destruct (ull2string_too_small (a ++ [ch_minus]) m t (- v)) as (m' & -> & Hm'); [lia..|].
      cbn [mbind option_bind]. exists (ch_minus :: m'). rewrite <- app_assoc, zlen_cons. 
      split; [done|lia].
  - rewrite zlen_decimal in * by lia.
    destruct (ull2string_too_small a m t v) as (m' & -> & Hm'); [lia..|]. by exists m'.
Qed.

(** ** The strict parser *)

Abbreviation digit_char := (fun c => ch_0 <= c <= ch_9).

(** On digits the loop computes the value, or reports that it exceeds 64 bits. *)
Lemma string2ll_loop_digits ds v :
  0 <= v <= ULLONG_MAX -> Forall digit_char ds ->
  string2ll_loop ds v
  = if dec_from v ds <=? ULLONG_MAX then Some (dec_from v ds, []) else None.
Proof.
  intros Hv Hds. revert v Hv. induction Hds as [|c ds Hc Hds IH]; intros v Hv.
  - cbn. by destruct (Z.leb_spec v ULLONG_MAX); [|lia].
  - cbn [string2ll_loop]. rewrite (proj2 (is_digit_spec c)) by done.
    change (dec_from v (c :: ds)) with (dec_from (10 * v + (c - ch_0)) ds).
    assert (Hge : 0 <= 10 * v + (c - ch_0) <= dec_from (10 * v + (c - ch_0)) ds).
    { rewrite dec_from_shift. pose proof (dec_from_nonneg ds Hds).
      unfold ch_0, ch_9 in *. nia. }
    unfold ULLONG_MAX, UINT64_MAX, ch_0, ch_9 in *. rewrite Z.gtb_ltb.
    destruct (Z.ltb_spec (18446744073709551615 / 10) v) as [H1|H1].
    { destruct (Z.leb_spec (dec_from (10 * v + (c - 48)) ds) 18446744073709551615); [|done].
      change (18446744073709551615 / 10) with 1844674407370955161 in H1. lia. }
    change (18446744073709551615 / 10) with 1844674407370955161 in H1.
    rewrite (wrapu_id 64 (v * 10)), Z.gtb_ltb by lia.
    destruct (Z.ltb_spec (18446744073709551615 - (c - 48)) (v * 10)) as [H2|H2].
    { destruct (Z.leb_spec (dec_from (10 * v + (c - 48)) ds) 18446744073709551615); [lia|done]. }
    rewrite wrapu_id by lia. rewrite (Z.mul_comm v 10). apply IH. lia.
Qed.

Lemma string2ll_loop_all p v r :
  0 <= v <= ULLONG_MAX -> string2ll_loop p v = Some (r, []) -> Forall digit_char p.
Proof.
  revert v. induction p as [|c p IH]; intros v Hv H; [constructor|].
  cbn in H. destruct (is_digit c) eqn:E; [|done]. apply is_digit_spec in E.
  constructor; [done|]. revert H. case_match; [done|]. case_match; [done|]. intros Hrec.
  eapply IH; [|exact Hrec].
  pose proof (wrapu_range 64 (u64 (v * 10) + (c - ch_0)) ltac:(lia)).
  unfold ULLONG_MAX, UINT64_MAX. lia.
Qed.

Lemma dbounds_lead c ds :
  ch_0 + 1 <= c <= ch_9 -> Forall digit_char ds ->
  dbounds (zlen (c :: ds)) (dec_from 0 (c :: ds)).
Proof.
  intros Hc Hds. pose proof (dec_from_nonneg ds Hds).
  change (dec_from 0 (c :: ds)) with (dec_from (10 * 0 + (c - ch_0)) ds).
  rewrite dec_from_shift, zlen_cons. pose proof (zlen_nonneg ds).
  unfold dbounds. rewrite (Z.add_comm 1), pow10_S, Z.add_simpl_r by lia.
  unfold ch_0, ch_9 in *. repeat split; try nia.
Qed.

Lemma decimal_value v : 0 <= v < 2 ^ 64 -> dec_from 0 (decimal v) = v.
Proof.
  intros Hv. destruct (digits10_bounds v Hv) as [(H1 & H2 & _) _].
  unfold decimal. rewrite dec_from_pad, Z2Nat.id, Z.mod_small by lia. done.
Qed.

Lemma decimal_lead v : 0 < v < 2 ^ 64 ->
  exists c ds, decimal v = c :: ds /\ ch_0 + 1 <= c <= ch_9 /\ Forall digit_char ds.
Proof.
  intros Hv. destruct (digits10_bounds v ltac:(lia)) as [(H1 & H2 & H3) _].
  pose proof (zlen_decimal v ltac:(lia)) as Hl. pose proof (decimal_value v ltac:(lia)) as Hval.
  pose proof (dec_pad_digits (Z.to_nat (digits10 v)) v) as Hd. fold (decimal v) in Hd.
  destruct (decimal v) as [|c ds]; [change (zlen []) with 0 in Hl; lia|].
  apply Forall_cons_1 in Hd as [Hc Hds]. exists c, ds. repeat split; try done; try lia.
  cbv beta in Hc. destruct (decide (c = ch_0)) as [->|]; [exfalso|lia].
  change (dec_from 0 (ch_0 :: ds)) with (dec_from 0 ds) in Hval.
  pose proof (dec_from_nonneg ds Hds). rewrite zlen_cons in Hl.
  replace (digits10 v - 1) with (zlen ds) in H3 by lia.
  destruct H3 as [H3|?]; [|lia]. replace (zlen ds) with 0 in * by lia. cbn in *. lia.
Qed.


Lemma string2ll_tail_parses negative v c ds :
  v = dec_from 0 (c :: ds) -> ch_0 + 1 <= c <= ch_9 -> Forall digit_char ds ->
  (if negative : bool then v <= 2 ^ 63 else v < 2 ^ 63) ->
  string2ll_tail negative (c :: ds) = Some (if negative then - v else v).
Proof.
  intros Hv Hc Hds Hr. unfold string2ll_tail.
  assert (0 <= v <= ULLONG_MAX).
  { split; [|unfold ULLONG_MAX, UINT64_MAX; destruct negative; lia].
    rewrite Hv. apply dec_from_nonneg. constructor; [|done]. lia. }
  rewrite Z.geb_leb, !(proj2 (Z.leb_le _ _)) by lia. cbn [andb].
  rewrite string2ll_loop_digits by (done || (unfold ULLONG_MAX, UINT64_MAX, ch_0, ch_9 in *; lia)).
  change (dec_from (c - ch_0) ds) with (dec_from 0 (c :: ds)). rewrite <- Hv.
  rewrite (proj2 (Z.leb_le _ _)) by lia. cbn [mbind option_bind].
  rewrite !Z.gtb_ltb. unfold LLONG_MIN, LLONG_MAX, INT64_MIN, INT64_MAX.
  destruct negative.
  - rewrite wrapu_id by lia. rewrite (proj2 (Z.ltb_ge _ _)) by lia.
    rewrite wraps_wrapu, wraps_id by (unfold is_s; cbn; lia). done.
  - rewrite (proj2 (Z.ltb_ge _ _)) by lia. rewrite wraps_id by (unfold is_s; cbn; lia). done.
Qed.

Lemma string2ll_tail_inv negative p w :
  string2ll_tail negative p = Some w ->
  exists v, p = decimal v /\ 0 < v /\ w = (if negative then - v else v) /\
    (if negative : bool then v <= 2 ^ 63 else v < 2 ^ 63).
Proof.
  unfold string2ll_tail. destruct p as [|c ds]; [done|].
  destruct (_ && _) eqn:E; [|done]. apply andb_true_iff in E.
  rewrite Z.geb_leb, !Z.leb_le in E.
  destruct (string2ll_loop ds (c - ch_0)) as [[v rest]|] eqn:El; [|done]. cbn [mbind option_bind].
  destruct rest; [|done].
  assert (Hc : 0 <= c - ch_0 <= ULLONG_MAX) by (unfold ULLONG_MAX, UINT64_MAX, ch_0, ch_9 in *; lia).
  pose proof (string2ll_loop_all _ _ _ Hc El) as Hds.
  rewrite string2ll_loop_digits in El by done.
  change (dec_from (c - ch_0) ds) with (dec_from 0 (c :: ds)) in El.
  destruct (Z.leb_spec (dec_from 0 (c :: ds)) ULLONG_MAX) as [Hle|]; [|done].
  assert (Hdv : dec_from 0 (c :: ds) = v) by congruence. clear El. rename Hdv into El. rewrite El in Hle. unfold ULLONG_MAX, UINT64_MAX in Hle.
  pose proof (dbounds_lead c ds ltac:(lia) Hds) as Hb. rewrite El in Hb.
  assert (Hpos : 0 < v).
  { destruct Hb as (_ & _ & [H1|H1]).
    - destruct ds; [|unfold zlen in H1; cbn in H1; lia]. rewrite <- El. cbn. lia.
    - pose proof (zlen_nonneg ds). rewrite zlen_cons in H1.
      assert (0 < 10 ^ (1 + zlen ds - 1)) by (apply Z.pow_pos_nonneg; lia). lia. }
  assert (Hdec : c :: ds = decimal v).
  { apply decimal_unique; [lia| |done|done]. constructor; [lia|done]. }
  rewrite !Z.gtb_ltb. unfold LLONG_MIN, LLONG_MAX, INT64_MIN, INT64_MAX. destruct negative.
  - rewrite wrapu_id by lia. case_match eqn:Hlt; [done|]. apply Z.ltb_ge in Hlt. intros [= <-].
    exists v. rewrite wraps_wrapu, wraps_id by (unfold is_s; cbn; lia).
    repeat split; [done|lia|lia].
  - case_match eqn:Hlt; [done|]. apply Z.ltb_ge in Hlt. intros [= <-].
    exists v. rewrite wraps_id by (unfold is_s; cbn; lia). repeat split; [done|lia|lia].
Qed.

Lemma decimal_0 : decimal 0 = [48].
Proof. done. Qed.

Lemma zlen_ll_text v : is_s 64 v -> 0 < zlen (ll_text v) < LONG_STR_SIZE.
Proof.
  intros [H1 H2]. cbn in H1, H2. unfold ll_text, LONG_STR_SIZE.
  assert (Hk : forall u, 0 <= u <= 2 ^ 63 -> 1 <= digits10 u <= 19).
  { intros u Hu. destruct (digits10_bounds u ltac:(lia)) as [(?&?&Hge) ?].
    split; [lia|]. destruct (decide (digits10 u <= 19)); [done|].
    replace (digits10 u) with 20 in Hge by lia. cbn in Hge. lia. }
  destruct (Z.ltb_spec v 0); rewrite ?zlen_cons, zlen_decimal by lia.
  - specialize (Hk (- v)). lia.
  - specialize (Hk v). lia.
Qed.

Lemma ll_text_bytes v : Forall is_byte (ll_text v).
Proof.
  assert (Hd : forall n, Forall is_byte (decimal n)) by (intros n; eapply list.Forall_impl; [apply dec_pad_digits|]; unfold is_byte, ch_0, ch_9; cbn; lia).
  unfold ll_text. destruct (v <? 0); [|done]. constructor; [by unfold is_byte, ch_minus|done].
Qed.

(** The parser accepts exactly the canonical texts. *)
Lemma string2ll_iff s v :
  string2ll s = Some v <-> is_s 64 v /\ s = ll_text v.
Proof.
  split.
  - unfold string2ll. destruct (_ || _) eqn:E; [done|].
    apply orb_false_iff in E as [E1 E2]. rewrite Z.geb_leb in E2.
    apply Z.eqb_neq in E1. apply Z.leb_gt in E2.
    assert (Htail : forall neg p, string2ll_tail neg p = Some v ->
       s = (if neg : bool then ch_minus :: p else p) -> is_s 64 v /\ s = ll_text v).
    { intros neg p (u & -> & Hu & -> & Hr)%string2ll_tail_inv ->. unfold ll_text, is_s.
      destruct neg; cbn; [destruct (Z.ltb_spec (- u) 0)|destruct (Z.ltb_spec u 0)];
        rewrite ?Z.opp_involutive; (split; [lia|]); done || lia. }
    case_bool_decide as Es; [intros [= <-]; by rewrite Es|].
    destruct s as [|c p]; [done|].
    destruct (Z.eqb_spec c ch_minus) as [->|]; intros H.
    + by apply (Htail true p).
    + by apply (Htail false (c :: p)).
  - intros [Hv ->]. unfold string2ll.
    pose proof (zlen_ll_text v Hv) as Hz. unfold LONG_STR_SIZE in *.
    rewrite Z.geb_leb, (proj2 (Z.eqb_neq _ 0)), (proj2 (Z.leb_gt _ _)) by lia. cbn [orb].
    pose proof Hv as [Hv1 Hv2]. cbn in Hv1, Hv2. unfold ll_text.
    destruct (Z.ltb_spec v 0); [|destruct (decide (v = 0)) as [->|]].
    + case_bool_decide; [done|]. rewrite Z.eqb_refl.
      destruct (decimal_lead (- v)) as (c & ds & Hd & Hc & Hds); [lia|]. rewrite Hd.
      rewrite (string2ll_tail_parses true (- v)); [f_equal; lia| |done|done|lia].
      rewrite <- Hd. symmetry. apply decimal_value. lia.
    + rewrite decimal_0. by rewrite bool_decide_eq_true_2.
    + destruct (decimal_lead v) as (c & ds & Hd & Hc & Hds); [lia|]. rewrite Hd.
      case_bool_decide as E; [injection E as -> ->; unfold ch_0 in *; lia|].
      destruct (Z.eqb_spec c ch_minus); [unfold ch_0, ch_minus in *; lia|].
      apply (string2ll_tail_parses false v); [|done|done|lia].
      rewrite <- Hd. symmetry. apply decimal_value. lia.
Qed.

(** The strictness promised by the comment of [string2ll]: the parser
    accepts a byte string exactly when it is the canonical text of a 64-bit
    integer, so converting back gives the same bytes.  In particular
    [string2ll] inverts [ll2string], and no text with a leading zero, a plus
    sign, a space or an out-of-range value is accepted. *)
Theorem string2ll_canonical s v :
  string2ll s = Some v <-> is_s 64 v /\ s = ll_text v.
Proof. apply string2ll_iff. Qed.

(** ** [strtoull] and its users *)

Lemma take_digits_app ds u :
  Forall digit_char ds -> match u with c :: _ => is_digit c = false | [] => True end ->
  take_digits (ds ++ u) = (ds, u).
Proof.
  intros Hds Hu. induction Hds as [|c ds Hc Hds IH]; cbn.
  - destruct u as [|c u]; [done|]. cbn. by rewrite Hu.
  - rewrite (proj2 (is_digit_spec c)) by done. by rewrite IH.
Qed.

Lemma skip_space_digit c s : ch_0 <= c <= ch_9 -> skip_space (c :: s) = c :: s.
Proof.
  unfold ch_0, ch_9. intros Hc. cbn. unfold is_space.
  destruct (Z.eqb_spec c 32); [lia|]. cbn.
  destruct (Z.leb_spec c 13); [lia|]. by rewrite andb_false_r.
Qed.

Lemma strtoull10_digits ds :
  Forall digit_char ds -> strtoull10 ds = {|
    sv := Z.min (dec_value ds) ULLONG_MAX; send := []; serange := dec_value ds >? ULLONG_MAX |}.
Proof.
  intros Hds. destruct ds as [|c ds]; [done|]. pose proof (Forall_inv Hds) as Hc.
  unfold strtoull10. rewrite skip_space_digit by done.
  cbv beta in Hc. unfold ch_minus, ch_0, ch_9 in Hc |- *.
  rewrite (proj2 (Z.eqb_neq c 45)), (proj2 (Z.eqb_neq c 43)) by lia.
  pose proof (take_digits_app (c :: ds) [] Hds I) as Ht. rewrite app_nil_r in Ht. rewrite Ht.
  rewrite Z.gtb_ltb. destruct (Z.ltb_spec ULLONG_MAX (dec_value (c :: ds))).
  - by rewrite Z.min_r by lia.
  - by rewrite Z.min_l by lia.
Qed.

(** The minus sign of a numeral that [string2ll] rejects reaches [strtoull],
    which negates modulo 2^64. *)
Lemma strtoull10_minus ds :
  Forall digit_char ds -> ds <> [] -> dec_value ds <= ULLONG_MAX ->
  strtoull10 (ch_minus :: ds) = {| sv := u64 (- dec_value ds); send := []; serange := false |}.
Proof.
  intros Hds Hne Hv. unfold strtoull10. cbn [skip_space is_space Z.eqb ch_minus orb andb Z.leb].
  change (is_space ch_minus) with false. cbn iota. rewrite Z.eqb_refl.
  pose proof (take_digits_app ds [] Hds I) as Ht. rewrite app_nil_r in Ht. rewrite Ht.
  destruct ds as [|c ds]; [done|]. rewrite Z.gtb_ltb, (proj2 (Z.ltb_ge _ _)) by lia. done.
Qed.

(** [string2ull] reads back the decimal numeral of every unsigned 64-bit
    value, the ones above LLONG_MAX included. *)
Theorem string2ull_decimal v : 0 <= v < 2 ^ 64 -> string2ull (decimal v) = Some v.
Proof.
  intros Hv. unfold string2ull. destruct (string2ll (decimal v)) as [w|] eqn:E.
  - apply string2ll_iff in E as [[Hw1 Hw2] Hw]. cbn in Hw1, Hw2. unfold ll_text in Hw.
    destruct (Z.ltb_spec w 0).
    + destruct (decide (v = 0)) as [->|]; [by rewrite decimal_0 in Hw|].
      destruct (decimal_lead v) as (c & ds & Hd & Hc & _); [lia|].
      rewrite Hd in Hw. injection Hw as -> _. unfold ch_0, ch_minus in *. lia.
    + f_equal. rewrite <- (decimal_value v), <- (decimal_value w) by lia. by rewrite Hw.
  - rewrite strtoull10_digits by apply dec_pad_digits.
    change (dec_value (decimal v)) with (dec_from 0 (decimal v)). rewrite decimal_value by done.
    cbn [sv send serange]. rewrite Z.gtb_ltb, (proj2 (Z.ltb_ge _ _))
      by (unfold ULLONG_MAX, UINT64_MAX; lia).
    destruct (digits10_bounds v Hv) as [(H1 & _) _].
    rewrite (proj2 (Z.eqb_neq (zlen (decimal v)) 0)) by (rewrite zlen_decimal; lia).
    cbn. f_equal. rewrite Z.min_l; [done|]. unfold ULLONG_MAX, UINT64_MAX. lia.
Qed.

(** A negative numeral with a leading zero is accepted as a huge positive
    number: "-05" parses as 2^64 - 5, although negative values are meant to be
    out of range. *)
Theorem string2ull_accepts_negative k :
  0 < k < 2 ^ 64 -> string2ull (ch_minus :: ch_0 :: decimal k) = Some (2 ^ 64 - k).
Proof.
  intros Hk. unfold string2ull.
  destruct (string2ll (ch_minus :: ch_0 :: decimal k)) as [w|] eqn:E.
  { exfalso. apply string2ll_iff in E as [[Hw1 Hw2] Hw]. cbn in Hw1, Hw2. unfold ll_text in Hw.
    destruct (Z.ltb_spec w 0).
    - destruct (decimal_lead (- w)) as (c & ds & Hd & Hc & _); [lia|].
      rewrite Hd in Hw. injection Hw as <- _. lia.
    - destruct (decide (w = 0)) as [->|]; [by rewrite decimal_0 in Hw|].
      destruct (decimal_lead w) as (c & ds & Hd & Hc & _); [lia|].
      rewrite Hd in Hw. injection Hw as <- _. unfold ch_0, ch_minus in *. lia. }
  assert (Hval : dec_value (ch_0 :: decimal k) = k).
  { change (dec_value (ch_0 :: decimal k)) with (dec_from 0 (decimal k)). apply decimal_value. lia. }
  rewrite strtoull10_minus; [|constructor; [unfold ch_0, ch_9; lia|apply dec_pad_digits]|done|].
  - cbn [sv send serange]. rewrite Hval. transitivity (Some (u64 (- k))); [done|]. f_equal.
    unfold wrapu. rewrite Z.mod_opp_l_nz; [|lia|]; rewrite Z.mod_small by lia; lia.
  - rewrite Hval. unfold ULLONG_MAX, UINT64_MAX. lia.
Qed.

Lemma memtoull_mul_cases u mul :
  memtoull_mul u = Some mul ->
  0 < mul <= 2 ^ 30 /\ match u with c :: _ => is_digit c = false | [] => True end.
Proof.
  unfold memtoull_mul. intros H.
  assert (Hu : forall lit, strcaseeq u lit = true -> match lit with c :: _ => 98 <= c <= 109 | [] => True end ->
    match u with c :: _ => is_digit c = false | [] => True end).
  { intros lit Hl Hc. unfold strcaseeq in Hl. apply bool_decide_eq_true in Hl.
    destruct u as [|c u]; [done|]. destruct lit as [|d lit]; [done|]. cbn in Hl.
    injection Hl as Hl _. unfold is_digit, tolower, ch_0, ch_9 in *.
    repeat case_match; rewrite ?andb_true_iff, ?andb_false_iff, ?Z.leb_le, ?Z.leb_gt in *; lia. }
  destruct (zlen u =? 0) eqn:E0.
  { apply Z.eqb_eq, zlen_0_nil in E0 as ->. cbn in H. simplify_eq. lia. }
  cbn [orb] in H.
  repeat match type of H with
  | (if strcaseeq u ?l then _ else _) = _ =>
      destruct (strcaseeq u l) eqn:?;
      [injection H as <-; split; [lia|]; eapply Hu; [eassumption|cbn; lia]|]
  end. done.
Qed.

(** A size with a known unit is the product of the number and the unit,
    clamped to ULLONG_MAX: the unit conversion never wraps around. *)
Theorem memtoull_saturates ds u mul :
  Forall digit_char ds -> zlen ds < 128 -> memtoull_mul u = Some mul ->
  memtoull (ds ++ u) = Some (Z.min (dec_value ds * mul) ULLONG_MAX).
Proof.
  intros Hds Hlen Hmul. pose proof (memtoull_mul_cases u mul Hmul) as [Hm Hu].
  pose proof (dec_from_nonneg ds Hds) as Hnn. change (dec_from 0 ds) with (dec_value ds) in Hnn.
  unfold memtoull.
  assert (match ds ++ u with c :: _ => c =? ch_minus | [] => false end = false) as ->.
  { destruct ds as [|c ds]; cbn.
    - destruct u as [|c u]; [done|]. unfold memtoull_mul in Hmul.
      destruct (Z.eqb_spec c ch_minus) as [->|]; [|done]. exfalso. revert Hmul.
      unfold strcaseeq, ch_minus, lit_b, lit_k, lit_kb, lit_m, lit_mb, lit_g, lit_gb. cbn.
      rewrite zlen_cons. destruct (Z.eqb_spec (1 + zlen u) 0); [zlen_facts; lia|]. cbn.
      by repeat case_bool_decide.
    - apply Forall_inv in Hds. cbv beta in Hds. apply Z.eqb_neq. unfold ch_0, ch_minus in *. lia. }
  rewrite take_digits_app by done. rewrite Hmul. cbn [mbind option_bind].
  rewrite Z.geb_leb, (proj2 (Z.leb_gt _ _)) by lia.
  rewrite strtoull10_digits by done. cbn [sv send zlen]. cbn [negb Z.eqb].
  change (zlen [] =? 0) with true. cbn [negb]. rewrite Z.gtb_ltb.
  unfold ULLONG_MAX, UINT64_MAX in *.
  pose proof (Z.mul_div_le 18446744073709551615 mul ltac:(lia)).
  pose proof (Z.mul_succ_div_gt 18446744073709551615 mul ltac:(lia)).
  destruct (Z.ltb_spec (18446744073709551615 / mul)
              (Z.min (dec_value ds) 18446744073709551615)).
  - f_equal. rewrite Z.min_r; [done|]. nia.
  - f_equal. destruct (decide (dec_value ds <= 18446744073709551615)).
    + rewrite Z.min_l in * by lia. rewrite Z.min_l by nia. apply wrapu_id. nia.
    + rewrite Z.min_r in * by lia. rewrite Z.min_r by nia.
      assert (mul = 1) as -> by nia. done.
Qed.

(** ** Witnesses *)

Lemma ll2string_prints_witness :
  ll2string (replicate 24 170) 0 24 LLONG_MIN
  = Some ((ll_text LLONG_MIN ++ 0 :: replicate 3 170) ++ [], 20).
Proof.
  apply (ll2string_prints [] (replicate 24 170) [] LLONG_MIN); [by vm_compute|by vm_compute].
Defined.

Lemma ll2string_too_small_witness :
  exists m', ll2string ([] ++ [1; 2; 3] ++ []) 0 3 (-42) = Some ([] ++ m' ++ [], 0) /\
    zlen m' = 3.
Proof. apply (ll2string_too_small [] [1; 2; 3] [] (-42)); by vm_compute. Defined.

Lemma string2ull_decimal_witness : string2ull (decimal (2 ^ 64 - 1)) = Some (2 ^ 64 - 1).
Proof. apply string2ull_decimal. lia. Defined.

Lemma string2ull_accepts_negative_witness : string2ull [45; 48; 53] = Some (2 ^ 64 - 5).
Proof. apply (string2ull_accepts_negative 5). lia. Defined.

(** "20000000000gb" is clamped. *)
Lemma memtoull_saturates_witness :
  memtoull ([50; 48; 48; 48; 48; 48; 48; 48; 48; 48; 48] ++ [103; 66])
  = Some (Z.min (20000000000 * 1073741824) ULLONG_MAX).
Proof.
  apply (memtoull_saturates [50; 48; 48; 48; 48; 48; 48; 48; 48; 48; 48] [103; 66] 1073741824);
    [repeat (constructor; [by vm_compute|]); constructor|by vm_compute|by vm_compute].
Defined.
