(* ===== verification/Glob.v ===== *)
(** * Glob-style matching: [stringmatchlen] of src/util.c

    The matcher of KEYS, SCAN MATCH, PSUBSCRIBE, CONFIG GET and ACL patterns,
    with its early exit [skipLongerMatches] and its nesting limit, is proved
    equal to a denotational semantics of patterns: a pattern is parsed into
    tokens and a token sequence matches a string by the textbook recursion.

    Patterns and strings are byte lists; the byte after the end of a pattern,
    which the star case looks at, is the NUL of the sds or C string that holds
    it.  [char] is signed, as on the hosts of this port. *)

From stdpp Require Import base list numbers option tactics.
From S2P Require Import Prelude Util.

Definition ch_star : Z := 42.
Definition ch_quest : Z := 63.
Definition ch_lbracket : Z := 91.
Definition ch_bslash : Z := 92.
Definition ch_rbracket : Z := 93.
Definition ch_caret : Z := 94.

(** [(int)pattern[0]]: the sign-extended character. *)
Definition char_int (c : Z) : Z := wraps 8 c.

Definition same_char (nocase : bool) (a c : Z) : bool :=
  if negb nocase then a =? c else tolower (char_int a) =? tolower (char_int c).

Definition in_range (nocase : bool) (a b c : Z) : bool :=
  let start := char_int a in
  let stop := char_int b in
  let c := char_int c in
  let '(start, stop) := if start >? stop then (stop, start) else (start, stop) in
  let '(start, stop, c) :=
    if nocase : bool then (tolower start, tolower stop, tolower c) else (start, stop, c) in
  (c >=? start) && (c <=? stop).

(** ** The matcher *)

(** The [while(1)] of a bracket expression: the updated [match] flag and the
    pattern after the closing bracket (or its end, when there is none). *)
Fixpoint bracket (nocase : bool) (c : Z) (p : list Z) (mt : bool) : bool * list Z :=
  match p with
  | [] => (mt, [])
  | a :: p1 =>
      match p1 with
      | x :: p2 =>
          if a =? ch_bslash then bracket nocase c p2 (mt || (x =? c))
          else if a =? ch_rbracket then (mt, p1)
          else match p2 with
               | b :: p3 =>
                   if x =? ch_minus then bracket nocase c p3 (mt || in_range nocase a b c)
                   else bracket nocase c p1 (mt || same_char nocase a c)
               | [] => bracket nocase c p1 (mt || same_char nocase a c)
               end
      | [] =>
          if a =? ch_rbracket then (mt, p1)
          else bracket nocase c p1 (mt || same_char nocase a c)
      end
  end.

(** The cases of the [switch] other than the star: whether the pattern
    character(s) accept [c], and the pattern after them. *)
Definition element (nocase : bool) (a : Z) (p1 : list Z) (c : Z) : bool * list Z :=
  if a =? ch_quest then (true, p1)
  else if a =? ch_lbracket then
    let '(neg, p2) := match p1 with
      | x :: p2 => if x =? ch_caret then (true, p2) else (false, p1)
      | [] => (false, p1) end in
    let '(mt, rest) := bracket nocase c p2 false in
    (if neg : bool then negb mt else mt, rest)
  else if a =? ch_bslash then
    match p1 with
    | x :: p2 => (same_char nocase x c, p2)
    | [] => (same_char nocase a c, p1)
    end
  else (same_char nocase a c, p1).

Fixpoint drop_stars (p : list Z) : list Z :=
  match p with
  | a :: p' => if a =? ch_star then drop_stars p' else p
  | [] => []
  end.

Definition is_nil {A} (l : list A) : bool := match l with [] => true | _ => false end.

(** [while(stringLen)] of the star case: [match_rest] is the recursive call on
    the pattern after the star. *)
Fixpoint star_loop (match_rest : list Z -> bool -> bool * bool) (s : list Z) (skip : bool)
  : bool * bool :=
  match s with
  | [] => (false, true)
  | _ :: s' =>
      let '(r, skip) := match_rest s skip in
      if r : bool then (true, skip)
      else if skip : bool then (false, skip)
      else star_loop match_rest s' skip
  end.

(** [stringmatchlen_impl]: the result and the final [*skipLongerMatches].  Each
    round and each recursive call consume at least one pattern byte, so fuel
    equal to the pattern length is enough. *)
Fixpoint stringmatchlen_impl (fuel : nat) (nocase : bool) (p s : list Z) (skip : bool)
    (nesting : Z) : bool * bool :=
  if nesting >? 1000 then (false, skip)
  else match p, s with
  | a :: p1, c :: s1 =>
      match fuel with
      | O => (false, skip)
      | S fuel =>
          if a =? ch_star then
            let p1 := drop_stars p1 in
            if is_nil p1 then (true, skip)
            else star_loop (fun s skip => stringmatchlen_impl fuel nocase p1 s skip (nesting + 1))
                   s skip
          else
            let '(ok, rest) := element nocase a p1 c in
            if negb ok then (false, skip)
            else if is_nil s1 then (is_nil (drop_stars rest), skip)
            else stringmatchlen_impl fuel nocase rest s1 skip nesting
      end
  | [], [] => (true, skip)
  | _, _ => (false, skip)
  end.

Definition stringmatchlen (p s : list Z) (nocase : bool) : bool :=
  (stringmatchlen_impl (length p) nocase p s false 0).1.

(** [int i = patternLen - 2; i >= 0; i--]: backslashes before the last byte,
    counted on the reversed prefix. *)
Fixpoint count_bslash (rev_p : list Z) : Z :=
  match rev_p with
  | a :: r => if a =? ch_bslash then 1 + count_bslash r else 0
  | [] => 0
  end.

Definition prefixmatch (p s : list Z) (nocase : bool) : bool :=
  if negb (stringmatchlen_impl (length p) nocase p s false 0).1 then false
  else match reverse p with
  | [] => false
  | a :: r =>
      if negb (a =? ch_star) then false
      else count_bslash r mod 2 =? 0
  end.

(** ** Denotational semantics of patterns *)

Inductive citem :=
  | CEsc (x : Z)
  | CRange (a b : Z)
  | CChar (a : Z).

Inductive gtok :=
  | TStar
  | TAny
  | TSet (neg : bool) (items : list citem)
  | TLit (x : Z).

Fixpoint parse_bracket (p : list Z) : list citem * list Z :=
  match p with
  | [] => ([], [])
  | a :: p1 =>
      match p1 with
      | x :: p2 =>
          if a =? ch_bslash then let '(l, r) := parse_bracket p2 in (CEsc x :: l, r)
          else if a =? ch_rbracket then ([], p1)
          else match p2 with
               | b :: p3 =>
                   if x =? ch_minus then let '(l, r) := parse_bracket p3 in (CRange a b :: l, r)
                   else let '(l, r) := parse_bracket p1 in (CChar a :: l, r)
               | [] => let '(l, r) := parse_bracket p1 in (CChar a :: l, r)
               end
      | [] =>
          if a =? ch_rbracket then ([], p1)
          else let '(l, r) := parse_bracket p1 in (CChar a :: l, r)
      end
  end.

Definition parse_elem (a : Z) (p1 : list Z) : gtok * list Z :=
  if a =? ch_star then (TStar, p1)
  else if a =? ch_quest then (TAny, p1)
  else if a =? ch_lbracket then
    match p1 with
    | x :: p2 =>
        if x =? ch_caret then let '(l, r) := parse_bracket p2 in (TSet true l, r)
        else let '(l, r) := parse_bracket p1 in (TSet false l, r)
    | [] => (TSet false [], [])
    end
  else if a =? ch_bslash then
    match p1 with x :: p2 => (TLit x, p2) | [] => (TLit a, p1) end
  else (TLit a, p1).

Fixpoint parse_fuel (fuel : nat) (p : list Z) : list gtok :=
  match p, fuel with
  | a :: p1, S fuel => let '(t, r) := parse_elem a p1 in t :: parse_fuel fuel r
  | _, _ => []
  end.
Definition parse (p : list Z) : list gtok := parse_fuel (length p) p.

Definition item_ok (nocase : bool) (c : Z) (i : citem) : bool :=
  match i with
  | CEsc x => x =? c
  | CRange a b => in_range nocase a b c
  | CChar a => same_char nocase a c
  end.

Definition tok_ok (nocase : bool) (t : gtok) (c : Z) : bool :=
  match t with
  | TStar => false
  | TAny => true
  | TSet neg items => xorb neg (existsb (item_ok nocase c) items)
  | TLit x => same_char nocase x c
  end.

Fixpoint suffixes (s : list Z) : list (list Z) :=
  s :: match s with [] => [] | _ :: s' => suffixes s' end.

(** A star matches any sequence of bytes, every other token one byte. *)
Fixpoint tmatch (nocase : bool) (ts : list gtok) (s : list Z) : bool :=
  match ts with
  | [] => is_nil s
  | t :: ts' =>
      match t with
      | TStar => existsb (tmatch nocase ts') (suffixes s)
      | _ => match s with c :: s' => tok_ok nocase t c && tmatch nocase ts' s' | [] => false end
      end
  end.

Definition is_star (t : gtok) : bool := match t with TStar => true | _ => false end.
Fixpoint nstars (ts : list gtok) : Z :=
  match ts with [] => 0 | t :: ts' => (if is_star t then 1 else 0) + nstars ts' end.

(** ** The matcher follows the parse *)

Lemma bracket_parse nocase c p : forall mt,
  bracket nocase c p mt
  = (mt || existsb (item_ok nocase c) (parse_bracket p).1, (parse_bracket p).2)
  /\ (length (parse_bracket p).2 <= length p)%nat.
Proof.
  remember (length p) as n eqn:Hn. revert p Hn.
  induction n as [n IH] using lt_wf_ind; intros p -> mt.
  destruct p as [|a p1]; [cbn; by rewrite orb_false_r|].
  assert (IHl : forall q, (length q < length (a :: p1))%nat -> forall i mt,
    bracket nocase c q (mt || item_ok nocase c i)
    = (mt || existsb (item_ok nocase c) (i :: (parse_bracket q).1), (parse_bracket q).2)
    /\ (length (parse_bracket q).2 <= length (a :: p1))%nat).
  { intros q Hq i mt'. destruct (IH (length q) Hq q eq_refl (mt' || item_ok nocase c i)) as [-> Hl].
    cbn. rewrite orb_assoc. split; [done|]. cbn in Hq. lia. }
  cbn [bracket parse_bracket].
  destruct p1 as [|x p2]; [|destruct p2 as [|b p3]]; repeat case_match;
    try (cbn; rewrite orb_false_r; split; [done|cbn; lia]).
  all: match goal with
    | H : parse_bracket ?q = (?l, ?r) |- _ =>
        replace l with (parse_bracket q).1 by (by rewrite H);
        replace r with (parse_bracket q).2 by (by rewrite H)
    end.
  all: match goal with
    | |- bracket _ _ ?q (_ || (?y =? ?cc)) = _ /\ _ => apply (IHl q ltac:(cbn; lia) (CEsc y))
    | |- bracket _ _ ?q (_ || in_range _ ?y ?z _) = _ /\ _ =>
        apply (IHl q ltac:(cbn; lia) (CRange y z))
    | |- bracket _ _ ?q (_ || same_char _ ?y _) = _ /\ _ => apply (IHl q ltac:(cbn; lia) (CChar y))
    end.
Qed.

Lemma element_parse nocase a p1 c :
  a <> ch_star ->
  element nocase a p1 c = (tok_ok nocase (parse_elem a p1).1 c, (parse_elem a p1).2)
  /\ (parse_elem a p1).1 <> TStar /\ (length (parse_elem a p1).2 <= length p1)%nat.
Proof.
  intros Ha. unfold element, parse_elem. rewrite (proj2 (Z.eqb_neq a ch_star)) by done.
  destruct (a =? ch_quest); [done|]. destruct (a =? ch_lbracket).
  - destruct p1 as [|x p2]; [done|].
    destruct (x =? ch_caret).
    + destruct (bracket_parse nocase c p2 false) as [-> Hl].
      destruct (parse_bracket p2) as [l r]. cbn in *.
      split; [done|]. split; [done|]. lia.
    + destruct (bracket_parse nocase c (x :: p2) false) as [-> Hl].
      destruct (parse_bracket (x :: p2)) as [l r]. cbn [fst snd] in *.
      split; [|done]. by cbn [tok_ok orb xorb]; destruct (existsb _ _).
  - destruct (a =? ch_bslash); [|done]. destruct p1; cbn; [done|]. split; [done|]. split; [done|]. lia.
Qed.

Lemma parse_elem_le a p1 : (length (parse_elem a p1).2 <= length p1)%nat.
Proof.
  destruct (decide (a = ch_star)) as [->|Ha]; [done|]. by apply (element_parse false a p1 0).
Qed.

Lemma parse_fuel_enough f p : (length p <= f)%nat -> parse_fuel f p = parse p.
Proof.
  unfold parse. intros Hle. remember (length p) as n eqn:Hn. revert f p Hn Hle.
  induction n as [n IH] using lt_wf_ind; intros f p -> Hle.
  destruct p as [|a p1]; [by destruct f|]. cbn [length] in *.
  destruct f as [|f]; [lia|]. cbn [parse_fuel].
  pose proof (parse_elem_le a p1). destruct (parse_elem a p1) as [t r]. cbn in *. f_equal.
  rewrite (IH (length r)) by lia. symmetry. apply (IH (length r)); [lia|done|lia].
Qed.

Lemma parse_cons a p1 : parse (a :: p1) = (parse_elem a p1).1 :: parse (parse_elem a p1).2.
Proof.
  pose proof (parse_elem_le a p1). unfold parse at 1. cbn [length parse_fuel].
  destruct (parse_elem a p1) as [t r]. cbn in *. f_equal. by apply parse_fuel_enough.
Qed.

Lemma parse_star p1 : parse (ch_star :: p1) = TStar :: parse p1.
Proof. by rewrite parse_cons. Qed.

Lemma suffixes_self s : s ∈ suffixes s.
Proof. destruct s; left. Qed.

Lemma suffixes_nil s : [] ∈ suffixes s.
Proof. induction s; [left|]. right. done. Qed.

Lemma suffixes_trans s t u : u ∈ suffixes t -> t ∈ suffixes s -> u ∈ suffixes s.
Proof.
  intros Hu. induction s as [|c s IH]; cbn; rewrite list_elem_of_In; cbn;
    rewrite <- ?list_elem_of_In.
  - intros [<-|[]]. exact Hu.
  - intros [<-|Ht]; [exact Hu|]. right. auto.
Qed.

Lemma existsb_elem {A} (f : A -> bool) l : existsb f l = true <-> exists x, x ∈ l /\ f x = true.
Proof. rewrite existsb_exists. by setoid_rewrite list_elem_of_In. Qed.

Lemma existsb_false_elem {A} (f : A -> bool) l :
  existsb f l = false <-> forall x, x ∈ l -> f x = false.
Proof.
  rewrite <- not_true_iff_false, existsb_elem. split.
  - intros H x Hx. destruct (f x) eqn:E; [|done]. exfalso. eauto.
  - intros H (x & Hx & Hf). by rewrite H in Hf.
Qed.

Lemma tmatch_star_star nocase ts s :
  tmatch nocase (TStar :: TStar :: ts) s = tmatch nocase (TStar :: ts) s.
Proof.
  apply eq_true_iff_eq. cbn [tmatch]. rewrite !existsb_elem. split.
  - intros (t & Ht & (u & Hu & Hm)%existsb_elem). exists u. split; [|done].
    by eapply suffixes_trans.
  - intros (t & Ht & Hm). exists t. split; [done|]. apply existsb_elem. exists t.
    split; [apply suffixes_self|done].
Qed.

Lemma drop_stars_spec p :
  (forall nocase s, tmatch nocase (TStar :: parse (drop_stars p)) s
                    = tmatch nocase (TStar :: parse p) s) /\
  nstars (parse (drop_stars p)) <= nstars (parse p) /\
  (length (drop_stars p) <= length p)%nat /\
  match drop_stars p with a :: _ => a <> ch_star | [] => True end.
Proof.
  induction p as [|a p (IH1 & IH2 & IH3 & IH4)]; [done|]. cbn [drop_stars].
  destruct (Z.eqb_spec a ch_star) as [->|]; [|done]. rewrite parse_star. repeat split.
  - intros nocase s. by rewrite IH1, tmatch_star_star.
  - cbn [nstars is_star]. lia.
  - cbn. lia.
  - done.
Qed.

Lemma nstars_nonneg ts : 0 <= nstars ts.
Proof. induction ts as [|t ts IH]; cbn; [lia|]. destruct (is_star t); lia. Qed.

Lemma parse_nonstar_nil nocase a p :
  a <> ch_star -> tmatch nocase (parse (a :: p)) [] = false.
Proof.
  intros Ha. rewrite parse_cons. destruct (element_parse nocase a p 0 Ha) as (_ & Ht & _).
  cbn. by destruct ((parse_elem a p).1).
Qed.

(** At the end of the string only stars may be left. *)
Lemma drop_stars_nil nocase p : is_nil (drop_stars p) = tmatch nocase (parse p) [].
Proof.
  induction p as [|a p IH]; [done|]. cbn [drop_stars].
  destruct (Z.eqb_spec a ch_star) as [->|Ha].
  - rewrite parse_star, IH. cbn. by rewrite orb_false_r.
  - by rewrite parse_nonstar_nil.
Qed.

(** ** The main induction *)

(** What one call establishes: the answer is the denotation, and a raised
    [skipLongerMatches] flag means that no suffix of the string matches either. *)
Definition impl_post (nocase : bool) (ts : list gtok) (s : list Z) (r : bool * bool) : Prop :=
  r.1 = tmatch nocase ts s /\
  (r.1 = false -> r.2 = true -> forall u, u ∈ suffixes s -> tmatch nocase ts u = false).

Lemma star_loop_post nocase ts f s :
  (forall u, u <> [] -> u ∈ suffixes s -> impl_post nocase ts u (f u false)) ->
  tmatch nocase ts [] = false ->
  let r := star_loop f s false in
  (r.1 = true <-> exists u, u ∈ suffixes s /\ tmatch nocase ts u = true).
Proof.
  intros Hf Hnil. cbn zeta. induction s as [|c s IH].
  - cbn. split; [done|]. intros (u & Hu & Hm). apply list_elem_of_singleton in Hu as ->. congruence.
  - cbn [star_loop]. destruct (Hf (c :: s)) as [Hr Hk]; [done|left|].
    destruct (f (c :: s) false) as [r k]. cbn [fst snd] in *. subst r.
    destruct (tmatch nocase ts (c :: s)) eqn:Em; [|destruct k]; cbn [fst].
    + split; [|done]. intros _. exists (c :: s). split; [left|done].
    + split; [done|]. intros (u & Hu & Hm). by rewrite Hk in Hm.
    + rewrite IH by (intros u ? Hu; apply Hf; [done|by right]). split.
      * intros (u & Hu & Hm). exists u. split; [by right|done].
      * intros (u & Hu & Hm). exists u. split; [|done].
        apply elem_of_cons in Hu as [->|Hu]; [congruence|done].
Qed.

Lemma tmatch_star_suffix nocase ts s u :
  tmatch nocase (TStar :: ts) s = false -> u ∈ suffixes s ->
  tmatch nocase (TStar :: ts) u = false.
Proof.
  cbn [tmatch]. rewrite !existsb_false_elem. intros H Hu x Hx. apply H. by eapply suffixes_trans.
Qed.

Lemma impl_ok nocase fuel : forall p s nesting,
  (length p <= fuel)%nat -> s <> [] -> 0 <= nesting -> nesting + nstars (parse p) <= 1000 ->
  impl_post nocase (parse p) s (stringmatchlen_impl fuel nocase p s false nesting).
Proof.
  induction fuel as [|fuel IH]; intros p s nesting Hf Hs Hn Hst.
  all: pose proof (nstars_nonneg (parse p)).
  all: cbn [stringmatchlen_impl]; rewrite Z.gtb_ltb, (proj2 (Z.ltb_ge _ _)) by lia.
  all: destruct s as [|c s1]; [done|].
  all: destruct p as [|a p1]; [split; [done|]; intros _; cbn; done|].
  { cbn in Hf. lia. }
  cbn [length] in Hf. destruct (Z.eqb_spec a ch_star) as [->|Ha].
  - rewrite parse_star in *. cbn [nstars is_star] in *.
    destruct (drop_stars_spec p1) as (Hds & Hns & Hlen & Hhd).
    assert (Hpost : forall r, r.1 = tmatch nocase (TStar :: parse (drop_stars p1)) (c :: s1) ->
              impl_post nocase (TStar :: parse p1) (c :: s1) r).
    { intros r Hr. rewrite Hds in Hr. split; [done|]. intros Hr1 _ u Hu.
      eapply tmatch_star_suffix; [|done]. congruence. }
    apply Hpost. destruct (drop_stars p1) as [|a' p2] eqn:Ep; cbn [is_nil].
    + symmetry. apply existsb_elem. exists []. split; [apply suffixes_nil|done].
    + apply eq_true_iff_eq. cbn [tmatch]. rewrite existsb_elem.
      apply (star_loop_post nocase (parse (a' :: p2))); [|by apply parse_nonstar_nil].
      intros u Hu _. apply IH; [cbn in *; lia|done|lia|lia].
  - destruct (element_parse nocase a p1 c Ha) as (Hel & Ht & Hlen). rewrite Hel.
    rewrite parse_cons in *. destruct (parse_elem a p1) as [t rest]. cbn [fst snd] in *.
    cbn [nstars] in Hst. assert (is_star t = false) as Hst0 by (by destruct t). rewrite Hst0 in Hst.
    assert (Htm : forall d w, tmatch nocase (t :: parse rest) (d :: w)
                              = tok_ok nocase t d && tmatch nocase (parse rest) w)
      by (intros; by destruct t).
    assert (Htn : tmatch nocase (t :: parse rest) [] = false) by (by destruct t).
    destruct (tok_ok nocase t c) eqn:Et; cbn [negb].
    2:{ split; [|done]. rewrite Htm, Et. done. }
    destruct s1 as [|d s2]; cbn [is_nil].
    + split; [|done]. rewrite Htm, Et. apply drop_stars_nil.
    + destruct (IH rest (d :: s2) nesting) as [Hr Hk]; [lia|done|lia|lia|].
      split; [rewrite Htm, Et; done|]. intros Hf0 Hk0 u Hu.
      apply elem_of_cons in Hu as [->|Hu].
      * rewrite Htm, <- Hr, Hf0. apply andb_false_r.
      * destruct u as [|e w]; [done|]. rewrite Htm, (Hk Hf0 Hk0), andb_false_r; [done|].
        eapply suffixes_trans; [|exact Hu]. right. apply suffixes_self.
Qed.

(** C40: For every pattern with at most 1000 stars and every non-empty string,
    the matcher with its early exit computes the denotational semantics of the
    pattern: the [skipLongerMatches] optimisation never changes an answer. *)
Theorem stringmatchlen_denotes p s nocase :
  nstars (parse p) <= 1000 -> s <> [] ->
  stringmatchlen p s nocase = tmatch nocase (parse p) s.
Proof.
  intros Hn Hs. unfold stringmatchlen.
  destruct (impl_ok nocase (length p) p s 0) as [Hr _]; [done|done|lia|lia|done].
Qed.

(** The empty string is matched by the empty pattern only; a pattern made
    of stars, which matches every other string, does not match it. *)
Theorem stringmatchlen_empty_string p nocase : stringmatchlen p [] nocase = is_nil p.
Proof. unfold stringmatchlen. by destruct p. Qed.

Lemma suffixes_app s u ext : u ∈ suffixes s -> u ++ ext ∈ suffixes (s ++ ext).
Proof.
  induction s as [|c s IH]; cbn.
  - intros ->%list_elem_of_singleton. apply suffixes_self.
  - intros [->|Hu]%elem_of_cons; [left|right; auto].
Qed.

Lemma tmatch_extend nocase ts s ext :
  tmatch nocase (ts ++ [TStar]) s = true -> tmatch nocase (ts ++ [TStar]) (s ++ ext) = true.
Proof.
  revert s. induction ts as [|t ts IH]; intros s; cbn [app].
  - intros _. apply existsb_elem. exists []. split; [apply suffixes_nil|done].
  - destruct t; cbn [tmatch];
      try (destruct s as [|c s]; [done|]; cbn [app]; rewrite !andb_true_iff; intros [??]; by auto).
    rewrite !existsb_elem. intros (u & Hu & Hm). exists (u ++ ext).
    split; [by apply suffixes_app|by apply IH].
Qed.

(** When the last token of the pattern is a star, a prefix accepted by
    [prefixmatch] stands for keys that all match: every extension of the prefix
    is matched by the pattern. *)
Theorem prefixmatch_sound p s ext nocase ts :
  nstars (parse p) <= 1000 -> s <> [] -> parse p = ts ++ [TStar] ->
  prefixmatch p s nocase = true -> stringmatchlen p (s ++ ext) nocase = true.
Proof.
  intros Hn Hs Hp. unfold prefixmatch. fold (stringmatchlen p s nocase).
  destruct (stringmatchlen p s nocase) eqn:E; [|done]. intros _.
  rewrite stringmatchlen_denotes in * by (done || by destruct s).
  rewrite Hp in *. by apply tmatch_extend.
Qed.

(** Without that condition the answer is wrong: the star of "[*" belongs to
    an unterminated bracket expression, [prefixmatch] takes it for a wildcard
    and accepts the prefix "*", but the pattern does not match "*x". *)
Theorem prefixmatch_unterminated_bracket :
  prefixmatch [ch_lbracket; ch_star] [ch_star] false = true /\
  stringmatchlen [ch_lbracket; ch_star] ([ch_star] ++ [120]) false = false.
Proof. done. Qed.

Lemma prefixmatch_sound_witness : stringmatchlen [97; 42] ([97; 98] ++ [99; 100]) false = true.
Proof.
  apply (prefixmatch_sound [97; 42] [97; 98] [99; 100] false [TLit 97]);
    [by vm_compute|done|by vm_compute|by vm_compute].
Defined.

Lemma stringmatchlen_denotes_witness :
  stringmatchlen [42; 97; 42; 98] [120; 97; 97; 98] false
  = tmatch false (parse [42; 97; 42; 98]) [120; 97; 97; 98].
Proof. apply stringmatchlen_denotes; [by vm_compute|done]. Defined.

Example glob_examples :
  stringmatchlen [104; 91; 97; 45; 101; 93; 42; 63] [104; 98; 108; 108] false = true /\
  stringmatchlen [104; 91; 94; 97; 45; 101; 93; 42; 63] [104; 98; 108; 108] false = false /\
  stringmatchlen [92; 42] [42] false = true /\ stringmatchlen [92; 42] [120] false = false.
Proof. done. Qed.
