(* ===== verification/ListpackEnc.v ===== *)
(** * Listpack elements (src/listpack.c): encodings of one entry

    An entry is the encoded element (tag, length, payload) followed by its
    [backlen], the size of the encoded element written so that it can be read
    from right to left.  This file holds the encoders and decoders of elements
    and of the backlen; [Listpack] builds the list operations on them.

    A pointer into a listpack is its offset in the block; [unsigned char]
    stores truncate to 8 bits. *)

From stdpp Require Import base list numbers option tactics.
From S2P Require Import Prelude Util.

Definition LP_HDR_SIZE : Z := 6.
Definition LP_HDR_NUMELE_UNKNOWN : Z := 65535.
Definition LP_INTBUF_SIZE : Z := 21.
Definition LP_EOF : Z := 255.

Definition LP_ENCODING_6BIT_STR : Z := 128.
Definition LP_ENCODING_13BIT_INT : Z := 192.
Definition LP_ENCODING_12BIT_STR : Z := 224.
Definition LP_ENCODING_16BIT_INT : Z := 241.
Definition LP_ENCODING_24BIT_INT : Z := 242.
Definition LP_ENCODING_32BIT_INT : Z := 243.
Definition LP_ENCODING_64BIT_INT : Z := 244.
Definition LP_ENCODING_32BIT_STR : Z := 240.

Definition LP_ENCODING_IS_7BIT_UINT (b : Z) : bool := Z.land b 128 =? 0.
Definition LP_ENCODING_IS_6BIT_STR (b : Z) : bool := Z.land b 192 =? LP_ENCODING_6BIT_STR.
Definition LP_ENCODING_IS_13BIT_INT (b : Z) : bool := Z.land b 224 =? LP_ENCODING_13BIT_INT.
Definition LP_ENCODING_IS_12BIT_STR (b : Z) : bool := Z.land b 240 =? LP_ENCODING_12BIT_STR.
Definition LP_ENCODING_IS_16BIT_INT (b : Z) : bool := Z.land b 255 =? LP_ENCODING_16BIT_INT.
Definition LP_ENCODING_IS_24BIT_INT (b : Z) : bool := Z.land b 255 =? LP_ENCODING_24BIT_INT.
Definition LP_ENCODING_IS_32BIT_INT (b : Z) : bool := Z.land b 255 =? LP_ENCODING_32BIT_INT.
Definition LP_ENCODING_IS_64BIT_INT (b : Z) : bool := Z.land b 255 =? LP_ENCODING_64BIT_INT.
Definition LP_ENCODING_IS_32BIT_STR (b : Z) : bool := Z.land b 255 =? LP_ENCODING_32BIT_STR.

(** [(uint64_t)p[0] | (uint64_t)p[1]<<8 | ...] *)
Fixpoint le_or (bs : list Z) : Z :=
  match bs with
  | [] => 0
  | b :: bs' => Z.lor b (Z.shiftl (le_or bs') 8)
  end.

(** [b[i] = (v>>8*i)&0xff] for the [n] bytes of a field; a store without the
    mask truncates to the same byte. *)
Definition le_store (n : nat) (v : Z) : list Z :=
  (fun i => Z.land (Z.shiftr v (8 * Z.of_nat i)) 255) <$> seq 0 n.

Definition rd_or (lp : list Z) (off n : Z) : option Z :=
  bs ← rd_bytes lp off n; Some (le_or bs).

Definition LP_ENCODING_6BIT_STR_LEN (lp : list Z) (p : Z) : option Z :=
  b0 ← rd lp p; Some (Z.land b0 63).
Definition LP_ENCODING_12BIT_STR_LEN (lp : list Z) (p : Z) : option Z :=
  b0 ← rd lp p; b1 ← rd lp (p + 1); Some (Z.lor (Z.shiftl (Z.land b0 15) 8) b1).
Definition LP_ENCODING_32BIT_STR_LEN (lp : list Z) (p : Z) : option Z := rd_or lp (p + 1) 4.

(** ** Encoders *)

(** Same text as [string2ll], on [int64_t]. *)
Definition lpStringToInt64 (s : list Z) : option Z := string2ll s.

(** The bytes stored in [intenc]; [*enclen] is their number. *)
Definition lpEncodeIntegerGetType (v : Z) : list Z :=
  if (v >=? 0) && (v <=? 127) then [u8 v]
  else if (v >=? -4096) && (v <=? 4095) then
    let v := if v <? 0 then Z.shiftl 1 13 + v else v in
    [u8 (Z.lor (Z.shiftr v 8) LP_ENCODING_13BIT_INT); Z.land v 255]
  else if (v >=? -32768) && (v <=? 32767) then
    let v := if v <? 0 then Z.shiftl 1 16 + v else v in
    LP_ENCODING_16BIT_INT :: le_store 2 v
  else if (v >=? -8388608) && (v <=? 8388607) then
    let v := if v <? 0 then Z.shiftl 1 24 + v else v in
    LP_ENCODING_24BIT_INT :: le_store 3 v
  else if (v >=? -2147483648) && (v <=? 2147483647) then
    let v := if v <? 0 then Z.shiftl 1 32 + v else v in
    LP_ENCODING_32BIT_INT :: le_store 4 v
  else
    let uv := u64 v in
    LP_ENCODING_64BIT_INT :: le_store 8 uv.

(** [enctype] with what goes with it: the encoded integer, or nothing, and
    [*enclen]. *)
Definition lpEncodeGetType (ele : list Z) : option (list Z) * Z :=
  match lpStringToInt64 ele with
  | Some v => let intenc := lpEncodeIntegerGetType v in (Some intenc, zlen intenc)
  | None =>
      let size := zlen ele in
      (None, if size <? 64 then 1 + size else if size <? 4096 then 2 + size else 5 + size)
  end.

Definition lpEncodeBacklen (l : Z) : list Z :=
  if l <=? 127 then [u8 l]
  else if l <=? 16383 then
    [u8 (Z.shiftr l 7); u8 (Z.lor (Z.land l 127) 128)]
  else if l <=? 2097151 then
    [u8 (Z.shiftr l 14); u8 (Z.lor (Z.land (Z.shiftr l 7) 127) 128); u8 (Z.lor (Z.land l 127) 128)]
  else if l <=? 268435455 then
    [u8 (Z.shiftr l 21); u8 (Z.lor (Z.land (Z.shiftr l 14) 127) 128);
     u8 (Z.lor (Z.land (Z.shiftr l 7) 127) 128); u8 (Z.lor (Z.land l 127) 128)]
  else
    [u8 (Z.shiftr l 28); u8 (Z.lor (Z.land (Z.shiftr l 21) 127) 128);
     u8 (Z.lor (Z.land (Z.shiftr l 14) 127) 128); u8 (Z.lor (Z.land (Z.shiftr l 7) 127) 128);
     u8 (Z.lor (Z.land l 127) 128)].

Definition lpEncodeBacklenBytes (l : Z) : Z :=
  if l <=? 127 then 1
  else if l <=? 16383 then 2
  else if l <=? 2097151 then 3
  else if l <=? 268435455 then 4
  else 5.

(** [p] is the offset of the last byte of the backlen. *)
Definition lpDecodeBacklen (lp : list Z) (p : Z) : option Z :=
  b0 ← rd lp p;
  if Z.land b0 128 =? 0 then Some (Z.land b0 127)
  else
    let val := Z.land b0 127 in
    b1 ← rd lp (p - 1);
    if Z.land b1 128 =? 0 then Some (Z.lor val (Z.shiftl (Z.land b1 127) 7))
    else
      let val := Z.lor val (Z.shiftl (Z.land b1 127) 7) in
      b2 ← rd lp (p - 2);
      if Z.land b2 128 =? 0 then Some (Z.lor val (Z.shiftl (Z.land b2 127) 14))
      else
        let val := Z.lor val (Z.shiftl (Z.land b2 127) 14) in
        b3 ← rd lp (p - 3);
        if Z.land b3 128 =? 0 then Some (Z.lor val (Z.shiftl (Z.land b3 127) 21))
        else
          let val := Z.lor val (Z.shiftl (Z.land b3 127) 21) in
          b4 ← rd lp (p - 4);
          if Z.land b4 128 =? 0 then Some (Z.lor val (Z.shiftl (Z.land b4 127) 28))
          else Some UINT64_MAX.

(** The bytes [lpEncodeString] writes at [buf]. *)
Definition lpEncodeString (s : list Z) : list Z :=
  let len := zlen s in
  if len <? 64 then u8 (Z.lor len LP_ENCODING_6BIT_STR) :: s
  else if len <? 4096 then
    u8 (Z.lor (Z.shiftr len 8) LP_ENCODING_12BIT_STR) :: Z.land len 255 :: s
  else LP_ENCODING_32BIT_STR :: le_store 4 len ++ s.

(** ** Sizes *)

Definition lpCurrentEncodedSizeUnsafe (lp : list Z) (p : Z) : option Z :=
  b ← rd lp p;
  if LP_ENCODING_IS_7BIT_UINT b then Some 1
  else if LP_ENCODING_IS_6BIT_STR b then
    n ← LP_ENCODING_6BIT_STR_LEN lp p; Some (1 + n)
  else if LP_ENCODING_IS_13BIT_INT b then Some 2
  else if LP_ENCODING_IS_16BIT_INT b then Some 3
  else if LP_ENCODING_IS_24BIT_INT b then Some 4
  else if LP_ENCODING_IS_32BIT_INT b then Some 5
  else if LP_ENCODING_IS_64BIT_INT b then Some 9
  else if LP_ENCODING_IS_12BIT_STR b then
    n ← LP_ENCODING_12BIT_STR_LEN lp p; Some (2 + n)
  else if LP_ENCODING_IS_32BIT_STR b then
    n ← LP_ENCODING_32BIT_STR_LEN lp p; Some (u32 (5 + n))
  else if b =? LP_EOF then Some 1
  else Some 0.

Definition lpCurrentEncodedSizeBytes (b : Z) : Z :=
  if LP_ENCODING_IS_7BIT_UINT b then 1
  else if LP_ENCODING_IS_6BIT_STR b then 1
  else if LP_ENCODING_IS_13BIT_INT b then 1
  else if LP_ENCODING_IS_16BIT_INT b then 1
  else if LP_ENCODING_IS_24BIT_INT b then 1
  else if LP_ENCODING_IS_32BIT_INT b then 1
  else if LP_ENCODING_IS_64BIT_INT b then 1
  else if LP_ENCODING_IS_12BIT_STR b then 2
  else if LP_ENCODING_IS_32BIT_STR b then 5
  else if b =? LP_EOF then 1
  else 0.

(** ** Decoders

    The result of [lpGet] with a NULL [intbuf]: a pointer into the listpack and
    a length, or an integer. *)
Inductive lpval :=
  | LStr (off len : Z)
  | LInt (v : Z).

(** The tail of the decoders: from the unsigned value to the signed one. *)
Definition lp_signed (uval negstart negmax : Z) : Z :=
  if uval >=? negstart then
    let uval := u64 (negmax - uval) in
    let val := s64 uval in
    - val - 1
  else s64 uval.

(** [lpGetWithSize] with a NULL [intbuf]: the value and [*entry_size], which is
    left alone ([None]) for a tag that no encoding has. *)
Definition lpGetWithSize (lp : list Z) (p : Z) : option (lpval * option Z) :=
  b0 ← rd lp p;
  if LP_ENCODING_IS_7BIT_UINT b0 then
    Some (LInt (lp_signed (Z.land b0 127) UINT64_MAX 0), Some 2)
  else if LP_ENCODING_IS_6BIT_STR b0 then
    count ← LP_ENCODING_6BIT_STR_LEN lp p;
    Some (LStr (p + 1) count, Some (1 + count + lpEncodeBacklenBytes (count + 1)))
  else if LP_ENCODING_IS_13BIT_INT b0 then
    b1 ← rd lp (p + 1);
    let uval := Z.lor (Z.shiftl (Z.land b0 31) 8) b1 in
    Some (LInt (lp_signed uval (Z.shiftl 1 12) 8191), Some 3)
  else if LP_ENCODING_IS_16BIT_INT b0 then
    uval ← rd_or lp (p + 1) 2;
    Some (LInt (lp_signed uval (Z.shiftl 1 15) 65535), Some 4)
  else if LP_ENCODING_IS_24BIT_INT b0 then
    uval ← rd_or lp (p + 1) 3;
    Some (LInt (lp_signed uval (Z.shiftl 1 23) (Z.shiftr UINT32_MAX 8)), Some 5)
  else if LP_ENCODING_IS_32BIT_INT b0 then
    uval ← rd_or lp (p + 1) 4;
    Some (LInt (lp_signed uval (Z.shiftl 1 31) UINT32_MAX), Some 6)
  else if LP_ENCODING_IS_64BIT_INT b0 then
    uval ← rd_or lp (p + 1) 8;
    Some (LInt (lp_signed uval (Z.shiftl 1 63) UINT64_MAX), Some 10)
  else if LP_ENCODING_IS_12BIT_STR b0 then
    count ← LP_ENCODING_12BIT_STR_LEN lp p;
    Some (LStr (p + 2) count, Some (2 + count + lpEncodeBacklenBytes (count + 2)))
  else if LP_ENCODING_IS_32BIT_STR b0 then
    count ← LP_ENCODING_32BIT_STR_LEN lp p;
    Some (LStr (p + 5) count, Some (5 + count + lpEncodeBacklenBytes (count + 5)))
  else Some (LInt (lp_signed (12345678900000000 + b0) UINT64_MAX 0), None).

Definition lpGetWithBuf (lp : list Z) (p : Z) : option lpval :=
  b ← rd lp p;
  if LP_ENCODING_IS_6BIT_STR b then
    count ← LP_ENCODING_6BIT_STR_LEN lp p; Some (LStr (p + 1) count)
  else if LP_ENCODING_IS_12BIT_STR b then
    count ← LP_ENCODING_12BIT_STR_LEN lp p; Some (LStr (p + 2) count)
  else if LP_ENCODING_IS_32BIT_STR b then
    count ← LP_ENCODING_32BIT_STR_LEN lp p; Some (LStr (p + 5) count)
  else if LP_ENCODING_IS_7BIT_UINT b then
    Some (LInt (lp_signed (Z.land b 127) UINT64_MAX 0))
  else if LP_ENCODING_IS_13BIT_INT b then
    b1 ← rd lp (p + 1);
    Some (LInt (lp_signed (Z.lor (Z.shiftl (Z.land b 31) 8) b1) (Z.shiftl 1 12) 8191))
  else if LP_ENCODING_IS_16BIT_INT b then
    uval ← rd_or lp (p + 1) 2; Some (LInt (lp_signed uval (Z.shiftl 1 15) 65535))
  else if LP_ENCODING_IS_24BIT_INT b then
    uval ← rd_or lp (p + 1) 3;
    Some (LInt (lp_signed uval (Z.shiftl 1 23) (Z.shiftr UINT32_MAX 8)))
  else if LP_ENCODING_IS_32BIT_INT b then
    uval ← rd_or lp (p + 1) 4; Some (LInt (lp_signed uval (Z.shiftl 1 31) UINT32_MAX))
  else if LP_ENCODING_IS_64BIT_INT b then
    uval ← rd_or lp (p + 1) 8; Some (LInt (lp_signed uval (Z.shiftl 1 63) UINT64_MAX))
  else Some (LInt (lp_signed (12345678900000000 + b) UINT64_MAX 0)).

(** [lpGet(p,&count,NULL)] *)
Definition lpGet (lp : list Z) (p : Z) : option lpval := lpGetWithBuf lp p.

(** [lpGet(p,&count,intbuf)]: the element as a byte string, printed into
    [intbuf] when it is an integer. *)
Definition lpGet_intbuf (lp : list Z) (p : Z) (intbuf : list Z) : option (list Z) :=
  v ← lpGetWithBuf lp p;
  match v with
  | LStr off len => rd_bytes lp off len
  | LInt val =>
      '(intbuf, count) ← ll2string intbuf 0 LP_INTBUF_SIZE val;
      rd_bytes intbuf 0 count
  end.

(** [lpGetValue]: [slen] is an [unsigned int]. *)
Definition lpGetValue (lp : list Z) (p : Z) : option lpval :=
  v ← lpGet lp p;
  match v with LStr off len => Some (LStr off (u32 len)) | LInt v => Some (LInt v) end.

Definition lpGetIntegerValue (lp : list Z) (p : Z) : option (option Z) :=
  v ← lpGet lp p;
  match v with LStr _ _ => Some None | LInt v => Some (Some v) end.

Definition lpEntrySizeInteger (lval : Z) : Z :=
  let enclen := zlen (lpEncodeIntegerGetType lval) in
  enclen + lpEncodeBacklenBytes enclen.

Definition lpEstimateBytesRepeatedInteger (lval rep : Z) : Z :=
  u64 (LP_HDR_SIZE + lpEntrySizeInteger lval * rep + 1).

(** ** Bytes and fields *)

Lemma le_or_val bs : Forall is_byte bs -> le_or bs = le_val bs.
Proof.
  induction 1 as [|b bs Hb Hbs IH]; [done|]. cbn [le_or le_val].
  rewrite IH, lor_shiftl_add by (unfold is_byte in Hb; lia). lia.
Qed.

Lemma le_store_bytes n : forall v, le_store n v = le_bytes n v.
Proof.
  induction n as [|n IH]; intros v; [done|]. unfold le_store in *. cbn [seq fmap list_fmap le_bytes].
  f_equal; [by rewrite Z.shiftr_0_r, land_255|]. rewrite <- IH.
  rewrite <- fmap_S_seq, <- list_fmap_compose. apply list_fmap_ext. intros _ i _. cbn.
  f_equal. rewrite <- Z.shiftr_div_pow2 with (n := 8) by lia. rewrite Z.shiftr_shiftr by lia.
  f_equal. lia.
Qed.

(** The tag of a byte. *)
Lemma tag_7bit b : is_byte b -> LP_ENCODING_IS_7BIT_UINT b = (b <? 128).
Proof.
  intros Hb. apply eqb_prop. revert b Hb. apply byte_check. by vm_compute.
Qed.
Lemma tag_6str b : is_byte b -> LP_ENCODING_IS_6BIT_STR b = (128 <=? b) && (b <? 192).
Proof. intros Hb. apply eqb_prop. revert b Hb. apply byte_check. by vm_compute. Qed.
Lemma tag_13int b : is_byte b -> LP_ENCODING_IS_13BIT_INT b = (192 <=? b) && (b <? 224).
Proof. intros Hb. apply eqb_prop. revert b Hb. apply byte_check. by vm_compute. Qed.
Lemma tag_12str b : is_byte b -> LP_ENCODING_IS_12BIT_STR b = (224 <=? b) && (b <? 240).
Proof. intros Hb. apply eqb_prop. revert b Hb. apply byte_check. by vm_compute. Qed.
Lemma land_byte b : is_byte b -> Z.land b 255 = b.
Proof. intros Hb. rewrite land_255. by apply Z.mod_small. Qed.

Ltac unfold_tags :=
  unfold LP_ENCODING_IS_16BIT_INT, LP_ENCODING_IS_24BIT_INT, LP_ENCODING_IS_32BIT_INT,
    LP_ENCODING_IS_64BIT_INT, LP_ENCODING_IS_32BIT_STR, LP_ENCODING_16BIT_INT,
    LP_ENCODING_24BIT_INT, LP_ENCODING_32BIT_INT, LP_ENCODING_64BIT_INT,
    LP_ENCODING_32BIT_STR, LP_EOF in *.

(** [rewrite_tags b Hb]: the tag tests of the byte [b] as comparisons. *)
Ltac rewrite_tags Hb :=
  rewrite ?(tag_7bit _ Hb), ?(tag_6str _ Hb), ?(tag_13int _ Hb), ?(tag_12str _ Hb);
  unfold_tags; rewrite ?(land_byte _ Hb).

Lemma lp_signed_wrap k v :
  0 < k <= 64 -> is_s k v -> lp_signed (wrapu k v) (2 ^ (k - 1)) (2 ^ k - 1) = v.
Proof.
  intros Hk [H1 H2]. unfold lp_signed. pose proof (pow2_split k ltac:(lia)) as Hp.
  assert (Hle : 2 ^ (k - 1) <= 2 ^ 63) by (apply Z.pow_le_mono_r; lia).
  rewrite Z.geb_leb. destruct (decide (0 <= v)).
  - rewrite wrapu_id by lia. rewrite (proj2 (Z.leb_gt _ _)) by lia.
    apply wraps_id; [lia|]. unfold is_s. cbn. lia.
  - assert (Hw : wrapu k v = v + 2 ^ k).
    { unfold wrapu. rewrite <- (Z.mod_small (v + 2 ^ k) (2 ^ k)) by lia.
      replace (v + 2 ^ k) with (v + 1 * 2 ^ k) by lia. by rewrite Z_mod_plus_full. }
    rewrite Hw, (proj2 (Z.leb_le _ _)) by lia.
    replace (2 ^ k - 1 - (v + 2 ^ k)) with (- v - 1) by lia.
    rewrite wrapu_id by lia. rewrite wraps_id; [lia|lia|]. unfold is_s. cbn. lia.
Qed.

(** ** Valid entries

    [valid_entry e]: [e] is one encoded element: its tag announces its size. *)
Definition valid_entry (e : list Z) : Prop :=
  Forall is_byte e /\ e !! 0%nat <> Some LP_EOF /\ 0 < zlen e < 2 ^ 32 /\
  lpCurrentEncodedSizeUnsafe e 0 = Some (zlen e).

(** The byte string an entry stands for. *)
Definition entry_text (e : list Z) : option (list Z) :=
  v ← lpGet e 0;
  match v with LStr off len => rd_bytes e off len | LInt v => Some (ll_text v) end.

Lemma wrap_shift k v : 0 <= k -> - 2 ^ k <= v < 2 ^ k ->
  (if v <? 0 then Z.shiftl 1 k + v else v) mod 2 ^ k = v mod 2 ^ k.
Proof.
  intros Hk Hv. destruct (v <? 0); [|done].
  rewrite Z.shiftl_mul_pow2, Z.mul_1_l by lia.
  replace (2 ^ k + v) with (v + 1 * 2 ^ k) by lia. apply Z_mod_plus_full.
Qed.

Lemma le_or_store n v : le_or (le_store n v) = wrapu (8 * Z.of_nat n) v.
Proof. rewrite le_store_bytes, le_or_val, le_val_bytes by apply le_bytes_is_byte. done. Qed.

Lemma zlen_le_store n v : zlen (le_store n v) = Z.of_nat n.
Proof. rewrite le_store_bytes. apply zlen_le_bytes. Qed.

Lemma le_store_is_byte n v : Forall is_byte (le_store n v).
Proof. rewrite le_store_bytes. apply le_bytes_is_byte. Qed.

Lemma rd_or_field tag n v c k :
  k = Z.of_nat n -> rd_or (tag :: le_store n v ++ c) 1 k = Some (wrapu (8 * Z.of_nat n) v).
Proof.
  intros ->. unfold rd_or. rewrite (rd_bytes_at [tag] (le_store n v) c 1) by (rewrite ?zlen_le_store; done).
  cbn [mbind option_bind]. by rewrite le_or_store.
Qed.

Lemma rd_0 b l : rd (b :: l) 0 = Some b.
Proof. done. Qed.
Lemma rd_1 a b l : rd (a :: b :: l) 1 = Some b.
Proof. done. Qed.

(** An entry and the integer it decodes to. *)
Definition int_entry (e : list Z) (v : Z) : Prop :=
  valid_entry e /\ lpGet e 0 = Some (LInt v) /\ zlen e <= 9.

Lemma int_entry_7bit v : 0 <= v <= 127 -> int_entry [v] v.
Proof.
  intros Hv. assert (Hb : is_byte v) by (unfold is_byte; lia).
  unfold int_entry, valid_entry, lpCurrentEncodedSizeUnsafe, lpGet, lpGetWithBuf.
  rewrite rd_0. cbn [mbind option_bind]. rewrite_tags Hb.
  rewrite (proj2 (Z.ltb_lt v 128)), (proj2 (Z.leb_gt 128 v)), (proj2 (Z.leb_gt 224 v)),
    (proj2 (Z.eqb_neq v 240)) by lia. cbn [andb].
  repeat split; try done; try (cbn; lia).
  - constructor; [done|constructor].
  - cbn. intros [= ->]. lia.
  - f_equal. f_equal. change 127 with (2 ^ 7 - 1). rewrite land_ones, Z.mod_small by lia.
    unfold lp_signed. rewrite Z.geb_leb, (proj2 (Z.leb_gt _ _)) by (unfold UINT64_MAX; lia).
    apply wraps_id; [lia|]. unfold is_s. cbn. lia.
Qed.

Lemma lor_192 h : 0 <= h < 32 -> Z.lor h 192 = h + 192 /\ Z.land (h + 192) 31 = h.
Proof.
  intros Hh. split.
  - change 192 with (Z.shiftl 3 6) at 1. rewrite lor_shiftl_add by lia. lia.
  - change 31 with (2 ^ 5 - 1). rewrite land_ones by lia.
    replace (h + 192) with (h + 6 * 2 ^ 5) by lia. rewrite Z_mod_plus_full. apply Z.mod_small. lia.
Qed.

Lemma int_entry_13bit v :
  -4096 <= v <= 4095 ->
  int_entry (let v := if v <? 0 then Z.shiftl 1 13 + v else v in
    [u8 (Z.lor (Z.shiftr v 8) LP_ENCODING_13BIT_INT); Z.land v 255]) v.
Proof.
  intros Hv. cbv zeta. set (w := if v <? 0 then Z.shiftl 1 13 + v else v).
  assert (Hw : 0 <= w < 8192 /\ w = wrapu 13 v).
  { unfold w. destruct (Z.ltb_spec v 0).
    - change (Z.shiftl 1 13) with 8192. split; [lia|]. unfold wrapu.
      rewrite <- (Z.mod_small (8192 + v) (2 ^ 13)) by lia.
      replace (8192 + v) with (v + 1 * 2 ^ 13) by lia. apply Z_mod_plus_full.
    - split; [lia|]. symmetry. apply wrapu_id. lia. }
  destruct Hw as [Hw Hwv]. clearbody w.
  rewrite land_255, Z.shiftr_div_pow2 by lia. change (2 ^ 8) with 256.
  assert (Hh : 0 <= w / 256 < 32) by (split; [apply Z.div_pos|apply Z.div_lt_upper_bound]; lia).
  unfold LP_ENCODING_13BIT_INT. destruct (lor_192 _ Hh) as [-> Hm].
  rewrite wrapu_id by lia. set (b0 := w / 256 + 192) in *.
  assert (Hb : is_byte b0) by (unfold is_byte, b0; lia).
  pose proof (Z.mod_pos_bound w 256 ltac:(lia)).
  unfold int_entry, valid_entry, lpCurrentEncodedSizeUnsafe, lpGet, lpGetWithBuf.
  rewrite rd_0. cbn [mbind option_bind]. rewrite_tags Hb.
  rewrite (proj2 (Z.ltb_ge b0 128)), (proj2 (Z.leb_le 128 b0)), (proj2 (Z.ltb_ge b0 192)),
    (proj2 (Z.leb_le 192 b0)), (proj2 (Z.ltb_lt b0 224)), (proj2 (Z.leb_gt 224 b0)),
    (proj2 (Z.eqb_neq b0 240)) by (unfold b0; lia). cbn [andb]. rewrite Z.add_0_l, rd_1.
  cbn [mbind option_bind]. repeat split; try done; try (cbn; lia).
  - constructor; [done|]. constructor; [done|constructor].
  - cbn. intros [=]. unfold b0 in *. lia.
  - f_equal. f_equal. rewrite Hm, Z.lor_comm, lor_shiftl_add by lia.
    rewrite Z.add_comm, Z.mul_comm, <- Z.div_mod by lia. rewrite Hwv.
    apply (lp_signed_wrap 13); [lia|]. unfold is_s. cbn. lia.
Qed.

Lemma int_entry_field tag n v w :
  is_s (8 * Z.of_nat n) v ->
  (tag, n) ∈ [(241, 2%nat); (242, 3%nat); (243, 4%nat); (244, 8%nat)] ->
  w mod 2 ^ (8 * Z.of_nat n) = v mod 2 ^ (8 * Z.of_nat n) ->
  int_entry (tag :: le_store n w) v.
Proof.
  intros Hv Htag Hw.
  assert (Hf : forall k, k = Z.of_nat n ->
    rd_or (tag :: le_store n w) 1 k = Some (wrapu (8 * Z.of_nat n) w)).
  { intros k Hk. pose proof (rd_or_field tag n w [] k Hk) as Hf. by rewrite app_nil_r in Hf. }
  unfold int_entry, valid_entry, lpCurrentEncodedSizeUnsafe, lpGet, lpGetWithBuf.
  rewrite rd_0. cbn [mbind option_bind]. rewrite Z.add_0_l, zlen_cons, zlen_le_store.
  assert (Hsg : lp_signed (wrapu (8 * Z.of_nat n) w) (2 ^ (8 * Z.of_nat n - 1))
                  (2 ^ (8 * Z.of_nat n) - 1) = v).
  { unfold wrapu. rewrite Hw. apply lp_signed_wrap; [|done].
    repeat (apply elem_of_cons in Htag as [[= -> ->]|Htag]; [lia|]). by apply elem_of_nil in Htag. }
  repeat (apply elem_of_cons in Htag as [[= -> ->]|Htag]; [
    cbn -[rd_or le_store wrapu lp_signed Z.pow];
    first [rewrite (Hf 2) by done|rewrite (Hf 3) by done|rewrite (Hf 4) by done
          |rewrite (Hf 8) by done]; cbn [mbind option_bind];
    repeat split; try done; try lia; try (constructor; [by vm_compute|apply le_store_is_byte]);
    by rewrite <- Hsg|]).
  by apply elem_of_nil in Htag.
Qed.

(** Every 64-bit integer is stored in the shortest of the six integer
    encodings that [lpEncodeIntegerGetType] picks and read back unchanged. *)
Lemma lpEncodeInteger_entry v :
  is_s 64 v -> int_entry (lpEncodeIntegerGetType v) v.
Proof.
  intros Hv. pose proof Hv as [Hv1 Hv2]. cbn in Hv1, Hv2. unfold lpEncodeIntegerGetType.
  rewrite !Z.geb_leb.
  destruct (Z.leb_spec 0 v), (Z.leb_spec v 127); cbn [andb];
    try (rewrite wrapu_id by lia; apply int_entry_7bit; lia).
  all: destruct (Z.leb_spec (-4096) v), (Z.leb_spec v 4095); cbn [andb]; try lia;
    try (apply int_entry_13bit; lia).
  all: destruct (Z.leb_spec (-32768) v), (Z.leb_spec v 32767); cbn [andb]; try lia;
    try (apply (int_entry_field 241 2); [unfold is_s; cbn; lia|by repeat constructor|apply (wrap_shift 16); lia]).
  all: destruct (Z.leb_spec (-8388608) v), (Z.leb_spec v 8388607); cbn [andb]; try lia;
    try (apply (int_entry_field 242 3); [unfold is_s; cbn; lia|by repeat constructor|apply (wrap_shift 24); lia]).
  all: destruct (Z.leb_spec (-2147483648) v), (Z.leb_spec v 2147483647); cbn [andb]; try lia;
    try (apply (int_entry_field 243 4); [unfold is_s; cbn; lia|by repeat constructor|apply (wrap_shift 32); lia]).
  all: apply (int_entry_field 244 8); [done|by repeat constructor|].
  all: unfold wrapu; change (8 * Z.of_nat 8) with 64; apply Z.mod_mod; lia.
Qed.

(** *** Strings *)

Definition str_entry (e s : list Z) : Prop :=
  valid_entry e /\ exists off, lpGet e 0 = Some (LStr off (zlen s)) /\
    rd_bytes e off (zlen s) = Some s.

Lemma str_entry_6bit s :
  Forall is_byte s -> zlen s < 64 ->
  str_entry (u8 (Z.lor (zlen s) LP_ENCODING_6BIT_STR) :: s) s.
Proof.
  intros Hs Hl. pose proof (zlen_nonneg s). unfold LP_ENCODING_6BIT_STR.
  change 128 with (Z.shiftl 2 6). rewrite lor_shiftl_add, wrapu_id by lia.
  set (b := zlen s + 2 * 2 ^ 6). assert (Hb : is_byte b) by (unfold is_byte, b; lia).
  unfold str_entry, valid_entry, lpCurrentEncodedSizeUnsafe, lpGet, lpGetWithBuf,
    LP_ENCODING_6BIT_STR_LEN. rewrite rd_0. cbn [mbind option_bind]. rewrite_tags Hb.
  rewrite (proj2 (Z.ltb_ge b 128)), (proj2 (Z.leb_le 128 b)), (proj2 (Z.ltb_lt b 192))
    by (unfold b; lia). cbn [andb].
  assert (Hn : Z.land b 63 = zlen s).
  { change 63 with (2 ^ 6 - 1). rewrite land_ones by lia. unfold b.
    rewrite Z_mod_plus_full. apply Z.mod_small. lia. }
  rewrite Hn, zlen_cons. repeat split; try lia.
  - by constructor.
  - cbn. intros [=]. unfold b in *. lia.
  - exists 1. split; [done|]. 
    pose proof (rd_bytes_at [b] s [] 1 (zlen s) eq_refl eq_refl) as Hr. by rewrite app_nil_r in Hr.
Qed.

Lemma str_entry_12bit s :
  Forall is_byte s -> 64 <= zlen s < 4096 ->
  str_entry (u8 (Z.lor (Z.shiftr (zlen s) 8) LP_ENCODING_12BIT_STR) :: Z.land (zlen s) 255 :: s) s.
Proof.
  intros Hs Hl. unfold LP_ENCODING_12BIT_STR. rewrite Z.shiftr_div_pow2, land_255 by lia.
  change (2 ^ 8) with 256.
  assert (Hh : 0 <= zlen s / 256 < 16) by (split; [apply Z.div_pos|apply Z.div_lt_upper_bound]; lia).
  change 224 with (Z.shiftl 14 4). rewrite lor_shiftl_add, wrapu_id by lia.
  set (b := zlen s / 256 + 14 * 2 ^ 4). assert (Hb : is_byte b) by (unfold is_byte, b; lia).
  pose proof (Z.mod_pos_bound (zlen s) 256 ltac:(lia)).
  unfold str_entry, valid_entry, lpCurrentEncodedSizeUnsafe, lpGet, lpGetWithBuf,
    LP_ENCODING_12BIT_STR_LEN. rewrite rd_0. cbn [mbind option_bind].
  rewrite Z.add_0_l, rd_1. cbn [mbind option_bind]. rewrite_tags Hb.
  rewrite (proj2 (Z.ltb_ge b 128)), (proj2 (Z.ltb_ge b 192)), (proj2 (Z.ltb_ge b 224)),
    (proj2 (Z.leb_le 224 b)), (proj2 (Z.ltb_lt b 240)), (proj2 (Z.eqb_neq b 241)),
    (proj2 (Z.eqb_neq b 242)), (proj2 (Z.eqb_neq b 243)), (proj2 (Z.eqb_neq b 244))
    by (unfold b; lia). rewrite !andb_false_r. cbn [andb].
  assert (Hn : Z.lor (Z.shiftl (Z.land b 15) 8) (zlen s mod 256) = zlen s).
  { change 15 with (2 ^ 4 - 1). rewrite land_ones by lia. unfold b.
    rewrite Z_mod_plus_full, Z.mod_small by lia.
    rewrite Z.lor_comm, lor_shiftl_add by lia.
    rewrite Z.add_comm, Z.mul_comm, <- Z.div_mod by lia. done. }
  rewrite Hn, !zlen_cons. repeat split; try lia.
  - constructor; [done|]. by constructor.
  - cbn. intros [=]. unfold b in *. lia.
  - f_equal. lia.
  - exists 2. split; [done|].
    pose proof (rd_bytes_at [b; zlen s mod 256] s [] 2 (zlen s) eq_refl eq_refl) as Hr.
    by rewrite app_nil_r in Hr.
Qed.

Lemma str_entry_32bit s :
  Forall is_byte s -> 4096 <= zlen s < 2 ^ 32 - 5 ->
  str_entry (LP_ENCODING_32BIT_STR :: le_store 4 (zlen s) ++ s) s.
Proof.
  intros Hs Hl.
  unfold str_entry, valid_entry, lpCurrentEncodedSizeUnsafe, lpGet, lpGetWithBuf,
    LP_ENCODING_32BIT_STR_LEN. rewrite rd_0. cbn [mbind option_bind].
  rewrite Z.add_0_l, rd_or_field by done. change (8 * Z.of_nat 4) with 32.
  rewrite (wrapu_id 32 (zlen s)) by lia. unfold LP_ENCODING_32BIT_STR.
  cbn -[le_store zlen wrapu Z.add]. rewrite zlen_cons, zlen_app, zlen_le_store.
  rewrite wrapu_id by lia. repeat split; try lia.
  - constructor; [by vm_compute|]. apply list.Forall_app. split; [apply le_store_is_byte|done].
  - done.
  - f_equal. lia.
  - exists (0 + 5). split; [done|].
    pose proof (rd_bytes_at (240 :: le_store 4 (zlen s)) s [] 5 (zlen s)) as Hr.
    rewrite app_nil_r in Hr. apply Hr; [|done]. rewrite zlen_cons, zlen_le_store. done.
Qed.

Lemma lpEncodeString_entry s :
  Forall is_byte s -> zlen s < 2 ^ 32 - 5 -> str_entry (lpEncodeString s) s.
Proof.
  intros Hs Hl. unfold lpEncodeString.
  destruct (Z.ltb_spec (zlen s) 64); [by apply str_entry_6bit|].
  destruct (Z.ltb_spec (zlen s) 4096); [by apply str_entry_12bit|].
  apply str_entry_32bit; [done|lia].
Qed.

(** The encoded element that [lpInsert] stores for a string argument. *)
Definition lp_encode (s : list Z) : list Z :=
  match lpEncodeGetType s with
  | (Some intenc, _) => intenc
  | (None, _) => lpEncodeString s
  end.

Lemma lp_encode_zlen s : zlen (lp_encode s) = (lpEncodeGetType s).2.
Proof.
  unfold lp_encode, lpEncodeGetType. destruct (lpStringToInt64 s) as [v|]; [done|].
  unfold lpEncodeString. cbn [snd].
  destruct (zlen s <? 64); [by rewrite zlen_cons|].
  destruct (zlen s <? 4096); rewrite !zlen_cons; [lia|]. rewrite zlen_app, zlen_le_store. lia.
Qed.

Lemma lp_encode_spec s :
  Forall is_byte s -> zlen s < 2 ^ 32 - 5 ->
  valid_entry (lp_encode s) /\ entry_text (lp_encode s) = Some s.
Proof.
  intros Hs Hl. unfold lp_encode, lpEncodeGetType, lpStringToInt64, entry_text.
  destruct (string2ll s) as [v|] eqn:E.
  - apply string2ll_iff in E as [Hv ->].
    destruct (lpEncodeInteger_entry v Hv) as (Hval & -> & _). done.
  - by destruct (lpEncodeString_entry s Hs Hl) as (Hval & off & -> & Hr).
Qed.

(** Storing any byte string as a listpack element and reading it back
    returns the same bytes, whether it was kept as a string or recognised as an
    integer; and the size announced by [lpEncodeGetType] is the exact number of
    bytes of the encoded element, which is well formed. *)
Theorem lpEncode_roundtrip s :
  Forall is_byte s -> zlen s < 2 ^ 32 - 5 ->
  valid_entry (lp_encode s) /\ entry_text (lp_encode s) = Some s /\
  zlen (lp_encode s) = (lpEncodeGetType s).2.
Proof.
  intros Hs Hl. destruct (lp_encode_spec s Hs Hl). by rewrite lp_encode_zlen.
Qed.

(** The hypotheses of [lpEncode_roundtrip] hold of "-12" and of "ab". *)
Lemma lpEncode_roundtrip_witness :
  entry_text (lp_encode [45; 49; 50]) = Some [45; 49; 50] /\ entry_text (lp_encode [97; 98]) = Some [97; 98].
Proof.
  split.
  - apply (lpEncode_roundtrip [45; 49; 50]); [|by vm_compute].
    repeat constructor; by vm_compute.
  - apply (lpEncode_roundtrip [97; 98]); [|by vm_compute].
    repeat constructor; by vm_compute.
Defined.

(** ** Backlen *)

Lemma group7 x : u8 (Z.lor (Z.land x 127) 128) = x mod 128 + 128.
Proof.
  change 127 with (2 ^ 7 - 1). rewrite land_ones by lia. change (2 ^ 7) with 128.
  pose proof (Z.mod_pos_bound x 128 ltac:(lia)).
  change 128 with (Z.shiftl 1 7) at 2. rewrite lor_shiftl_add by lia.
  change (1 * 2 ^ 7) with 128. apply wrapu_id. lia.
Qed.

Lemma cont_hi b : 0 <= b < 128 -> (Z.land (b + 128) 128 =? 0) = false /\ Z.land (b + 128) 127 = b.
Proof.
  intros Hb. assert (Hx : is_byte (b + 128)) by (unfold is_byte; lia). split.
  - change (LP_ENCODING_IS_7BIT_UINT (b + 128) = false). rewrite tag_7bit by done. lia.
  - change 127 with (2 ^ 7 - 1). rewrite land_ones by lia.
    replace (b + 128) with (b + 1 * 2 ^ 7) by lia. rewrite Z_mod_plus_full. by apply Z.mod_small.
Qed.

Lemma cont_lo b : 0 <= b < 128 -> (Z.land b 128 =? 0) = true /\ Z.land b 127 = b.
Proof.
  intros Hb. assert (Hx : is_byte b) by (unfold is_byte; lia). split.
  - change (LP_ENCODING_IS_7BIT_UINT b = true). rewrite tag_7bit by done. lia.
  - change 127 with (2 ^ 7 - 1). rewrite land_ones by lia. by apply Z.mod_small.
Qed.

Lemma zlen_lpEncodeBacklen l : zlen (lpEncodeBacklen l) = lpEncodeBacklenBytes l.
Proof. unfold lpEncodeBacklen, lpEncodeBacklenBytes. repeat case_match; done. Qed.

Lemma lpEncodeBacklenBytes_pos l : 1 <= lpEncodeBacklenBytes l <= 5.
Proof. unfold lpEncodeBacklenBytes. repeat case_match; lia. Qed.

(** The group number [i] from the left of a run of bytes inside a buffer. *)
Lemma rd_run a bs c p i b :
  bs !! i = Some b -> p = zlen a + Z.of_nat i -> rd (a ++ bs ++ c) p = Some b.
Proof.
  intros Hi ->. assert (Hlt : (i < length bs)%nat) by (by eapply lookup_lt_Some).
  rewrite rd_app_off, rd_app_l by (unfold zlen; lia).
  by rewrite rd_lookup, Nat2Z.id by lia.
Qed.

Ltac divlia := Z.to_euclidean_division_equations; lia.
Ltac rd_run_at i :=
  match goal with |- mbind _ (rd _ ?p) = _ =>
    erewrite (rd_run _ _ _ p i) by (reflexivity || lia) end.
Ltac backlen_hi i x :=
  rd_run_at i; cbn [mbind option_bind];
  let H1 := fresh in let H2 := fresh in
  destruct (cont_hi x) as [H1 H2]; [by apply Z.mod_pos_bound|]; rewrite H1, ?H2; clear H1 H2; cbv iota.
Ltac backlen_lo x :=
  rd_run_at 0%nat; cbn [mbind option_bind];
  let H1 := fresh in let H2 := fresh in
  destruct (cont_lo x) as [H1 H2]; [divlia|]; rewrite H1, ?H2; clear H1 H2; cbv iota;
  repeat match goal with |- context [Z.lor ?b (Z.shiftl ?a ?n)] =>
    lazymatch b with context [Z.lor] => fail | _ => rewrite (lor_shiftl_add a b n) by divlia end
  end; f_equal; divlia.

Lemma lpDecodeBacklen_encode a c l p :
  0 <= l < 2 ^ 35 -> p = zlen a + lpEncodeBacklenBytes l - 1 ->
  lpDecodeBacklen (a ++ lpEncodeBacklen l ++ c) p = Some l.
Proof.
  intros Hl ->. unfold lpDecodeBacklen, lpEncodeBacklenBytes, lpEncodeBacklen.
  rewrite !group7, !Z.shiftr_div_pow2 by lia. change (2 ^ 35) with 34359738368 in Hl.
  change (2 ^ 7) with 128; change (2 ^ 14) with 16384; change (2 ^ 21) with 2097152;
    change (2 ^ 28) with 268435456.
  destruct (Z.leb_spec l 127); [rewrite wrapu_id by lia; backlen_lo l|].
  destruct (Z.leb_spec l 16383).
  { rewrite wrapu_id by divlia. backlen_hi 1%nat (l mod 128). backlen_lo (l / 128). }
  destruct (Z.leb_spec l 2097151).
  { rewrite wrapu_id by divlia. backlen_hi 2%nat (l mod 128). backlen_hi 1%nat ((l / 128) mod 128).
    backlen_lo (l / 16384). }
  destruct (Z.leb_spec l 268435455).
  { rewrite wrapu_id by divlia. backlen_hi 3%nat (l mod 128). backlen_hi 2%nat ((l / 128) mod 128).
    backlen_hi 1%nat ((l / 16384) mod 128). backlen_lo (l / 2097152). }
  rewrite wrapu_id by divlia. backlen_hi 4%nat (l mod 128). backlen_hi 3%nat ((l / 128) mod 128).
  backlen_hi 2%nat ((l / 16384) mod 128). backlen_hi 1%nat ((l / 2097152) mod 128).
  backlen_lo (l / 268435456).
Qed.

(** ** Entries inside a block

    The decoders only read the bytes of the entry: a result on the entry alone
    is a result at its place in the block. *)

Lemma rd_embed0 a e c b : rd e 0 = Some b -> rd (a ++ e ++ c) (zlen a) = Some b.
Proof. intros H. pose proof (rd_embed a e c 0 b H) as He. by rewrite Z.add_0_r in He. Qed.

Lemma rd_or_embed a e c off n v :
  rd_or e off n = Some v -> rd_or (a ++ e ++ c) (zlen a + off) n = Some v.
Proof.
  unfold rd_or. intros H. apply bind_Some in H as (bs & Hr & H).
  by rewrite (rd_bytes_embed a e c _ _ _ Hr).
Qed.

Lemma len12_embed a e c n :
  LP_ENCODING_12BIT_STR_LEN e 0 = Some n -> LP_ENCODING_12BIT_STR_LEN (a ++ e ++ c) (zlen a) = Some n.
Proof.
  unfold LP_ENCODING_12BIT_STR_LEN. intros H.
  apply bind_Some in H as (b0 & H0 & H). apply bind_Some in H as (b1 & H1 & H).
  by rewrite (rd_embed0 a e c _ H0), (rd_embed a e c 1 _ H1).
Qed.

Ltac embed_step a e c :=
  match goal with
  | H : LP_ENCODING_6BIT_STR_LEN _ _ = Some _ |- _ => idtac
  | H : mbind _ _ = Some _ |- _ => apply bind_Some in H as (? & ? & ?)
  | H : LP_ENCODING_12BIT_STR_LEN e 0 = Some _ |- context [LP_ENCODING_12BIT_STR_LEN (a ++ e ++ c) _] =>
      rewrite (len12_embed a e c _ H)
  | H : LP_ENCODING_32BIT_STR_LEN e 0 = Some _ |- context [LP_ENCODING_32BIT_STR_LEN (a ++ e ++ c) _] =>
      rewrite (rd_or_embed a e c 1 _ _ H : LP_ENCODING_32BIT_STR_LEN (a ++ e ++ c) (zlen a) = _)
  | H : rd_or e (0 + ?i) _ = Some _ |- context [rd_or (a ++ e ++ c) _ _] =>
      rewrite (rd_or_embed a e c i _ _ H)
  | H : rd e (0 + ?i) = Some _ |- context [rd (a ++ e ++ c) (zlen a + ?i)] =>
      rewrite (rd_embed a e c i _ H)
  end; cbn [mbind option_bind].

(** [embed a e c]: transport a decoder's result from [e] to [a ++ e ++ c]. *)
Ltac embed a e c H :=
  let b := fresh "b" in let Hb := fresh "Hb" in
  apply bind_Some in H as (b & Hb & H); rewrite (rd_embed0 a e c _ Hb); cbn [mbind option_bind];
  unfold LP_ENCODING_6BIT_STR_LEN in *; rewrite ?Hb in H;
  rewrite ?(rd_embed0 a e c _ Hb); cbn [mbind option_bind] in H |- *;
  repeat case_match; try done; repeat embed_step a e c; simplify_eq; done.

Lemma lpCurrentEncodedSize_embed a e c n :
  lpCurrentEncodedSizeUnsafe e 0 = Some n -> lpCurrentEncodedSizeUnsafe (a ++ e ++ c) (zlen a) = Some n.
Proof. unfold lpCurrentEncodedSizeUnsafe. intros H. embed a e c H. Qed.

Definition lpval_shift (d : Z) (v : lpval) : lpval :=
  match v with LStr off len => LStr (d + off) len | LInt v => LInt v end.

Lemma lpGetWithBuf_embed a e c v :
  lpGetWithBuf e 0 = Some v -> lpGetWithBuf (a ++ e ++ c) (zlen a) = Some (lpval_shift (zlen a) v).
Proof. unfold lpGetWithBuf. intros H. embed a e c H. Qed.

Lemma rd_byte lp p b : Forall is_byte lp -> rd lp p = Some b -> is_byte b.
Proof.
  unfold rd. intros Hf H. destruct (0 <=? p); [|done].
  by eapply list.Forall_lookup_1 in Hf.
Qed.

Lemma rd_or_bound lp off n v :
  Forall is_byte lp -> rd_or lp off n = Some v -> 0 <= v < 2 ^ (8 * n).
Proof.
  unfold rd_or. intros Hf H. apply bind_Some in H as (bs & Hr & [= <-]).
  assert (Hb : Forall is_byte bs).
  { unfold rd_bytes in Hr. destruct (_ && _) in Hr; [|done]. injection Hr as <-.
    by apply Forall_take, Forall_drop. }
  apply rd_bytes_inv in Hr as (?&<-&?&?). rewrite le_or_val by done. by apply le_val_bound.
Qed.

(** [lpGetWithSize] is [lpGetWithBuf] plus the size of the whole entry, when the
    size announced by the tag is that of an entry. *)
Lemma lpGetWithSize_buf lp p b n :
  Forall is_byte lp -> rd lp p = Some b -> b <> LP_EOF ->
  lpCurrentEncodedSizeUnsafe lp p = Some n -> 0 < n -> (b = LP_ENCODING_32BIT_STR -> 5 <= n) ->
  lpGetWithSize lp p = (fun v => (v, Some (n + lpEncodeBacklenBytes n))) <$> lpGetWithBuf lp p.
Proof.
  intros Hf Hr Heof Hn Hpos H5. pose proof (rd_byte _ _ _ Hf Hr) as Hb.
  unfold lpGetWithSize, lpGetWithBuf, lpCurrentEncodedSizeUnsafe, LP_ENCODING_6BIT_STR_LEN in *.
  rewrite Hr in Hn |- *. cbn [mbind option_bind] in Hn |- *.
  unfold LP_EOF, LP_ENCODING_32BIT_STR in Heof, H5.
  revert Hn. rewrite_tags Hb.
  destruct (Z.ltb_spec b 128).
  { rewrite (proj2 (Z.leb_gt 128 b)), (proj2 (Z.leb_gt 224 b)), (proj2 (Z.eqb_neq b 240)) by lia.
    cbn [andb]. by intros [= <-]. }
  rewrite (proj2 (Z.leb_le 128 b)) by lia. cbn [andb].
  destruct (Z.ltb_spec b 192).
  { intros [= <-]. cbn. do 3 f_equal. by rewrite (Z.add_comm 1). }
  rewrite (proj2 (Z.leb_le 192 b)) by lia. cbn [andb].
  destruct (Z.ltb_spec b 224).
  { rewrite (proj2 (Z.leb_gt 224 b)), (proj2 (Z.eqb_neq b 240)) by lia. cbn [andb].
    intros [= <-]. by destruct (rd lp (p + 1)). }
  rewrite (proj2 (Z.leb_le 224 b)) by lia. cbn [andb].
  destruct (Z.ltb_spec b 240).
  { rewrite !(proj2 (Z.eqb_neq b _)) by lia.
    destruct (LP_ENCODING_12BIT_STR_LEN lp p) as [c|]; [|done]. cbn.
    intros [= <-]. do 3 f_equal. by rewrite (Z.add_comm 2). }
  destruct (Z.eqb_spec b 240) as [->|].
  { unfold LP_ENCODING_32BIT_STR_LEN. destruct (rd_or lp (p + 1) 4) as [c|] eqn:Ec; [|done].
    apply rd_or_bound in Ec; [|done]. change (2 ^ (8 * 4)) with 4294967296 in Ec. cbn.
    intros [= <-]. specialize (H5 eq_refl). unfold wrapu in H5 |- *. change (2 ^ 32) with 4294967296 in *.
    assert (Hs : (5 + c) mod 4294967296 = 5 + c).
    { destruct (decide (5 + c < 4294967296)); [apply Z.mod_small; lia|].
      rewrite (Z.mod_eq (5 + c) 4294967296) in H5 by lia.
      assert ((5 + c) / 4294967296 = 1) by (symmetry; apply Z.div_unique with (5 + c - 4294967296); lia).
      lia. }
    rewrite Hs. do 3 f_equal. by rewrite (Z.add_comm 5). }
  destruct (Z.eqb_spec b 241); [intros [= <-]; by destruct (rd_or lp (p + 1) 2)|].
  destruct (Z.eqb_spec b 242); [intros [= <-]; by destruct (rd_or lp (p + 1) 3)|].
  destruct (Z.eqb_spec b 243); [intros [= <-]; by destruct (rd_or lp (p + 1) 4)|].
  destruct (Z.eqb_spec b 244); [intros [= <-]; by destruct (rd_or lp (p + 1) 8)|].
  rewrite (proj2 (Z.eqb_neq b 255)) by lia. intros [= <-]. lia.
Qed.

(** ** Reading back a valid entry *)

Lemma lp_signed_range u negstart negmax : is_s 64 (lp_signed u negstart negmax).
Proof.
  unfold lp_signed. destruct (_ >=? _).
  - pose proof (wraps_range 64 (u64 (negmax - u)) ltac:(lia)) as [H1 H2].
    unfold is_s in *. cbn in *. lia.
  - apply wraps_range. lia.
Qed.

Definition value_ok (e : list Z) (v : lpval) : Prop :=
  match v with
  | LStr off len => exists t, rd_bytes e off len = Some t /\ Forall is_byte t
  | LInt v => is_s 64 v
  end.

Lemma rd_bytes_ok e off len :
  Forall is_byte e -> 0 <= off -> 0 <= len -> off + len <= zlen e -> value_ok e (LStr off len).
Proof.
  intros Hf ???. cbn. rewrite rd_bytes_unfold by lia. eexists. split; [done|].
  by apply Forall_take, Forall_drop.
Qed.

Lemma rd_or_Some e off n : 0 <= off -> 0 <= n -> off + n <= zlen e -> exists v, rd_or e off n = Some v.
Proof. intros. unfold rd_or. rewrite rd_bytes_unfold by lia. by eexists. Qed.

Lemma valid_entry_get e : valid_entry e -> exists v, lpGet e 0 = Some v /\ value_ok e v.
Proof.
  intros (Hf & Heof & Hl & Hs). destruct (rd_Some e 0) as [b Hb]; [lia|].
  pose proof (rd_byte _ _ _ Hf Hb) as Hbb. revert Hs.
  unfold lpGet, lpGetWithBuf, lpCurrentEncodedSizeUnsafe, LP_ENCODING_6BIT_STR_LEN.
  rewrite Hb. cbn [mbind option_bind]. rewrite_tags Hbb. rewrite !Z.add_0_l.
  assert (Hint : forall u n m, exists v, Some (LInt (lp_signed u n m)) = Some v /\ value_ok e v)
    by (intros; eexists; split; [done|apply lp_signed_range]).
  destruct (Z.ltb_spec b 128).
  { rewrite (proj2 (Z.leb_gt 128 b)), (proj2 (Z.leb_gt 224 b)), (proj2 (Z.eqb_neq b 240)) by lia.
    cbn [andb]. intros _. apply Hint. }
  rewrite (proj2 (Z.leb_le 128 b)) by lia. cbn [andb].
  destruct (Z.ltb_spec b 192).
  { intros [= Hs]. eexists. split; [done|].
    assert (0 <= Z.land b 63) by (apply Z.land_nonneg; lia). apply rd_bytes_ok; [done|lia..]. }
  rewrite (proj2 (Z.leb_le 192 b)) by lia. cbn [andb].
  destruct (Z.ltb_spec b 224).
  { rewrite (proj2 (Z.leb_gt 224 b)), (proj2 (Z.eqb_neq b 240)) by lia. cbn [andb].
    intros [= Hs]. destruct (rd_Some e 1) as [b1 ->]; [lia|]. apply Hint. }
  rewrite (proj2 (Z.leb_le 224 b)) by lia. cbn [andb].
  destruct (Z.ltb_spec b 240).
  { rewrite !(proj2 (Z.eqb_neq b _)) by lia. unfold LP_ENCODING_12BIT_STR_LEN. rewrite Hb.
    cbn [mbind option_bind]. rewrite !Z.add_0_l. destruct (rd e 1) as [c|] eqn:Ec; [|done].
    cbn [mbind option_bind]. intros [= Hs]. eexists. split; [done|].
    assert (0 <= Z.lor (Z.shiftl (Z.land b 15) 8) c).
    { apply Z.lor_nonneg. split; [apply Z.shiftl_nonneg, Z.land_nonneg; lia|].
      by apply (rd_byte _ _ _ Hf) in Ec as []. }
    apply rd_bytes_ok; [done|lia..]. }
  destruct (Z.eqb_spec b 240) as [->|].
  { unfold LP_ENCODING_32BIT_STR_LEN. rewrite Z.add_0_l.
    destruct (rd_or e 1 4) as [c|] eqn:Ec; [|done]. pose proof Ec as Ec'.
    apply rd_or_bound in Ec; [|done]. change (2 ^ (8 * 4)) with 4294967296 in Ec. cbn.
    apply bind_Some in Ec' as (bs & Ec' & _). apply rd_bytes_inv in Ec' as (_ & _ & Hlen & _).
    intros [= Hs]. eexists. split; [done|]. unfold wrapu in Hs. change (2 ^ 32) with 4294967296 in *.
    apply rd_bytes_ok; [done|lia..|].
    destruct (decide (5 + c < 4294967296)); [rewrite Z.mod_small in Hs by lia; lia|].
    rewrite (Z.mod_eq (5 + c) 4294967296) in Hs by lia.
    assert ((5 + c) / 4294967296 = 1) by (symmetry; apply Z.div_unique with (5 + c - 4294967296); lia).
    lia. }
  destruct (Z.eqb_spec b 241); [intros [= Hs]; destruct (rd_or_Some e 1 2) as [v ->]; [lia..|apply Hint]|].
  destruct (Z.eqb_spec b 242); [intros [= Hs]; destruct (rd_or_Some e 1 3) as [v ->]; [lia..|apply Hint]|].
  destruct (Z.eqb_spec b 243); [intros [= Hs]; destruct (rd_or_Some e 1 4) as [v ->]; [lia..|apply Hint]|].
  destruct (Z.eqb_spec b 244); [intros [= Hs]; destruct (rd_or_Some e 1 8) as [v ->]; [lia..|apply Hint]|].
  intros _. apply Hint.
Qed.

(** The size [lpGetWithSize] reports for a valid entry is that of the entry
    with its backlen. *)
Lemma valid_entry_getWithSize e v :
  valid_entry e -> lpGet e 0 = Some v ->
  lpGetWithSize e 0 = Some (v, Some (zlen e + lpEncodeBacklenBytes (zlen e))).
Proof.
  intros (Hf & Heof & Hl & Hs) Hv. destruct (rd_Some e 0) as [b Hb]; [lia|].
  rewrite (lpGetWithSize_buf e 0 b (zlen e)); [by unfold lpGet in Hv; rewrite Hv|done..| | |lia|].
  - intros ->. apply Heof. by rewrite rd_lookup in Hb by lia.
  - done.
  - intros ->. revert Hs. unfold lpCurrentEncodedSizeUnsafe. rewrite Hb. cbn -[zlen rd_or].
    unfold LP_ENCODING_32BIT_STR_LEN. intros Hs. apply bind_Some in Hs as (c & Hc & _).
    apply bind_Some in Hc as (bs & Hc & _). apply rd_bytes_inv in Hc. lia.
Qed.

Lemma lpGetWithSize_embed a e c v sz :
  lpGetWithSize e 0 = Some (v, sz) ->
  lpGetWithSize (a ++ e ++ c) (zlen a) = Some (lpval_shift (zlen a) v, sz).
Proof. unfold lpGetWithSize. intros H. embed a e c H. Qed.
