(* ===== verification/Listpack.v ===== *)
(** * Listpacks (src/listpack.c): the list operations

    A listpack is one allocated block: a 4-byte total size, a 2-byte element
    count (65535 means unknown), the entries and a terminator byte.  The model
    keeps the block as the list of its bytes; [zlen lp] is [lp_malloc_size(lp)],
    which may exceed the total size in the header.  A pointer into the block is
    its offset, NULL is [None].  The outer [option] of every result is [None]
    when the code would access memory outside of the block or an [assert]
    fails. *)

From stdpp Require Import base list numbers option tactics.
From S2P Require Import Prelude Util ListpackEnc.

Definition LISTPACK_MAX_SAFETY_SIZE : Z := Z.shiftl 1 30.

Inductive lp_where := LP_BEFORE | LP_AFTER | LP_REPLACE.

#[export] Instance lp_where_eq_dec : EqDecision lp_where.
Proof. solve_decision. Defined.

(** ** Header *)

Definition lpGetTotalBytes (lp : list Z) : option Z := rd_or lp 0 4.
Definition lpGetNumElements (lp : list Z) : option Z := rd_or lp 4 2.
Definition lpSetTotalBytes (lp : list Z) (v : Z) : option (list Z) := wr_bytes lp 0 (le_store 4 v).
Definition lpSetNumElements (lp : list Z) (v : Z) : option (list Z) := wr_bytes lp 4 (le_store 2 v).
Definition lpBytes (lp : list Z) : option Z := lpGetTotalBytes lp.

Definition ASSERT_INTEGRITY (lp : list Z) (p : Z) : option unit :=
  total ← lpGetTotalBytes lp; cassert ((LP_HDR_SIZE <=? p) && (p <? total)).
Definition ASSERT_INTEGRITY_LEN (lp : list Z) (p len : Z) : option unit :=
  total ← lpGetTotalBytes lp; cassert ((LP_HDR_SIZE <=? p) && (p + len <? total)).

(** [lpSafeToAdd(lp, add)]; a NULL [lp] is [None]. *)
Definition lpSafeToAdd (lp : option (list Z)) (add : Z) : option bool :=
  len ← match lp with Some lp => lpGetTotalBytes lp | None => Some 0 end;
  Some (negb ((add >? LISTPACK_MAX_SAFETY_SIZE) || (len >? u64 (LISTPACK_MAX_SAFETY_SIZE - add)))).

(** ** Validation *)

(** [lpValidateNext(lp,&p,lpbytes)]: [Some None] is the result 0, [Some (Some q)]
    the result 1 with [*pp] set to [q]. *)
Definition lpValidateNext (lp : list Z) (p : option Z) (lpbytes : Z) : option (option (option Z)) :=
  let out_of_range q := (q <? LP_HDR_SIZE) || (q >? lpbytes - 1) in
  match p with
  | None => Some None
  | Some p =>
      if out_of_range p then Some None
      else
        b ← rd lp p;
        if b =? LP_EOF then Some (Some None)
        else
          let lenbytes := lpCurrentEncodedSizeBytes b in
          if lenbytes =? 0 then Some None
          else if out_of_range (p + lenbytes) then Some None
          else
            entrylen ← lpCurrentEncodedSizeUnsafe lp p;
            let encodedBacklen := lpEncodeBacklenBytes entrylen in
            let entrylen := entrylen + encodedBacklen in
            if out_of_range (p + entrylen) then Some None
            else
              let p := p + entrylen in
              prevlen ← lpDecodeBacklen lp (p - 1);
              if negb (u64 (prevlen + encodedBacklen) =? entrylen) then Some None
              else Some (Some (Some p))
  end.

Definition lpAssertValidEntry (lp : list Z) (lpbytes p : Z) : option unit :=
  r ← lpValidateNext lp (Some p) lpbytes;
  cassert (bool_decide (is_Some r)).

(** ** Traversal *)

Definition lpSkip (lp : list Z) (p : Z) : option Z :=
  entrylen ← lpCurrentEncodedSizeUnsafe lp p;
  Some (p + (entrylen + lpEncodeBacklenBytes entrylen)).

Definition lpNextWithBytes (lp : list Z) (p lpbytes : Z) : option (option Z) :=
  p ← lpSkip lp p;
  b ← rd lp p;
  if b =? LP_EOF then Some None
  else (_ ← lpAssertValidEntry lp lpbytes p; Some (Some p)).

Definition lpNext (lp : list Z) (p : Z) : option (option Z) :=
  p ← lpSkip lp p;
  b ← rd lp p;
  if b =? LP_EOF then Some None
  else (lpbytes ← lpBytes lp; _ ← lpAssertValidEntry lp lpbytes p; Some (Some p)).

(** The loop of [lpNextN]; the result is [p] and [validated]. *)
Fixpoint lpNextN_loop (fuel : nat) (lp : list Z) (lpbytes p n : Z) (validated : bool)
    : option (option Z * bool) :=
  match fuel with
  | O => None
  | S fuel =>
      if n =? 0 then Some (Some p, validated)
      else
        p ← lpSkip lp p;
        validated ← (if p + 5 >=? lpbytes
                     then (_ ← lpAssertValidEntry lp lpbytes p; Some true)
                     else (_ ← cassert ((LP_HDR_SIZE <=? p) && (p <? lpbytes)); Some false));
        b ← rd lp p;
        if b =? LP_EOF then Some (None, true)
        else lpNextN_loop fuel lp lpbytes p (n - 1) validated
  end.

Definition lpNextN (lp : list Z) (p : option Z) (n : Z) : option (option Z) :=
  lpbytes ← lpBytes lp;
  match p with
  | None => Some None
  | Some p =>
      '(p, validated) ← lpNextN_loop (S (length lp)) lp lpbytes p n true;
      match p with
      | Some p => if (validated : bool) then Some (Some p)
                  else (_ ← lpAssertValidEntry lp lpbytes p; Some (Some p))
      | None => Some None
      end
  end.

Definition lpSkipPrev (lp : list Z) (p : Z) : option Z :=
  let p := p - 1 in
  prevlen ← lpDecodeBacklen lp p;
  let prevlen := u64 (prevlen + lpEncodeBacklenBytes prevlen) in
  Some (p - (prevlen - 1)).

Definition lpPrev (lp : list Z) (p : Z) : option (option Z) :=
  if p =? LP_HDR_SIZE then Some None
  else
    p ← lpSkipPrev lp p;
    lpbytes ← lpBytes lp;
    _ ← lpAssertValidEntry lp lpbytes p;
    Some (Some p).

Fixpoint lpPrevN_loop (fuel : nat) (lp : list Z) (lpbytes p n : Z) (validated : bool)
    : option (option Z * bool) :=
  match fuel with
  | O => None
  | S fuel =>
      if n =? 0 then Some (Some p, validated)
      else if p =? LP_HDR_SIZE then Some (None, validated)
      else
        p ← lpSkipPrev lp p;
        _ ← cassert ((LP_HDR_SIZE <=? p) && (p <? lpbytes));
        lpPrevN_loop fuel lp lpbytes p (n - 1) false
  end.

Definition lpPrevN (lp : list Z) (p : option Z) (n : Z) : option (option Z) :=
  lpbytes ← lpBytes lp;
  match p with
  | None => Some None
  | Some p =>
      '(p, validated) ← lpPrevN_loop (S (length lp)) lp lpbytes p n true;
      match p with
      | Some p => if (validated : bool) then Some (Some p)
                  else (_ ← lpAssertValidEntry lp lpbytes p; Some (Some p))
      | None => Some None
      end
  end.

Definition lpFirst (lp : list Z) : option (option Z) :=
  let p := LP_HDR_SIZE in
  b ← rd lp p;
  if b =? LP_EOF then Some None
  else (lpbytes ← lpBytes lp; _ ← lpAssertValidEntry lp lpbytes p; Some (Some p)).

Definition lpLast (lp : list Z) : option (option Z) :=
  total ← lpGetTotalBytes lp;
  lpPrev lp (total - 1).

(** [while(p) { count++; p = lpNext(lp,p); }] *)
Fixpoint lpLength_loop (fuel : nat) (lp : list Z) (p : option Z) (count : Z) : option Z :=
  match p with
  | None => Some count
  | Some p =>
      match fuel with
      | O => None
      | S fuel => p ← lpNext lp p; lpLength_loop fuel lp p (u32 (count + 1))
      end
  end.

(** The count and the block, whose header may be updated. *)
Definition lpLength (lp : list Z) : option (Z * list Z) :=
  numele ← lpGetNumElements lp;
  if negb (numele =? LP_HDR_NUMELE_UNKNOWN) then Some (numele, lp)
  else
    p ← lpFirst lp;
    count ← lpLength_loop (length lp) lp p 0;
    lp ← (if count <? LP_HDR_NUMELE_UNKNOWN then lpSetNumElements lp count else Some lp);
    Some (count, lp).

Definition lpSeek (lp : list Z) (index : Z) : option (option Z) :=
  numele ← lpGetNumElements lp;
  let seek (forward : bool) index :=
    if forward then (p ← lpFirst lp; lpNextN lp p index)
    else (p ← lpLast lp; lpPrevN lp p index) in
  if negb (numele =? LP_HDR_NUMELE_UNKNOWN) then
    let index := if index <? 0 then numele + index else index in
    if index <? 0 then Some None
    else if index >=? numele then Some None
    else if index >? numele / 2 then seek false (numele - index - 1)
    else seek true index
  else
    if index <? 0 then
      (* [-index] overflows for the smallest index *)
      (_ ← cassert (negb (index =? INT64_MIN)); seek false (- index - 1))
    else seek true index.

(** ** Integrity of untrusted input *)

Definition lpValidateFirst (lp : list Z) : option (option Z) :=
  b ← rd lp LP_HDR_SIZE;
  if b =? LP_EOF then Some None else Some (Some LP_HDR_SIZE).

(** [while(p && p[0] != LP_EOF)]: [Some None] is a [return 0]; otherwise the
    final [p] and [count].  [entry_cb] is given the entry and [numele]. *)
Fixpoint lpValidateIntegrity_loop (fuel : nat) (entry_cb : option (Z -> Z -> bool))
    (lp : list Z) (bytes numele : Z) (p : option Z) (count : Z) : option (option (option Z * Z)) :=
  match p with
  | None => Some (Some (None, count))
  | Some p =>
      b ← rd lp p;
      if b =? LP_EOF then Some (Some (Some p, count))
      else match fuel with
      | O => None
      | S fuel =>
          r ← lpValidateNext lp (Some p) bytes;
          match r with
          | None => Some None
          | Some q =>
              if match entry_cb with Some cb => negb (cb p numele) | None => false end
              then Some None
              else lpValidateIntegrity_loop fuel entry_cb lp bytes numele q (u32 (count + 1))
          end
      end
  end.

Definition lpValidateIntegrity (lp : list Z) (size : Z) (deep : bool)
    (entry_cb : option (Z -> Z -> bool)) : option bool :=
  if size <? LP_HDR_SIZE + 1 then Some false
  else
    bytes ← lpGetTotalBytes lp;
    if negb (bytes =? size) then Some false
    else
      last ← rd lp (size - 1);
      if negb (last =? LP_EOF) then Some false
      else if negb deep then Some true
      else
        numele ← lpGetNumElements lp;
        r ← lpValidateIntegrity_loop (length lp) entry_cb lp bytes numele (Some LP_HDR_SIZE) 0;
        match r with
        | None => Some false
        | Some (p, count) =>
            if negb (bool_decide (p = Some (size - 1))) then Some false
            else if negb (numele =? LP_HDR_NUMELE_UNKNOWN) && negb (numele =? count) then Some false
            else Some true
        end.

(** ** Searching *)

(** [cmp] is given the entry and its decoded value, and threads the caller's
    [user] data. *)
Fixpoint lpFind_loop {U : Type} (cmp : list Z -> Z -> U -> lpval -> option (Z * U)) (skip : Z)
    (lp : list Z) (lp_bytes : Z) (fuel : nat) (p entry_size skipcnt : Z) (user : U)
    : option (option Z * U) :=
  match fuel with
  | O => None
  | S fuel =>
      let continue p entry_size skipcnt user :=
        _ ← (if p + 8 >=? lp_bytes then lpAssertValidEntry lp lp_bytes p
             else cassert ((LP_HDR_SIZE <=? p) && (p <? lp_bytes)));
        b ← rd lp p;
        if b =? LP_EOF then Some (None, user)
        else lpFind_loop cmp skip lp lp_bytes fuel p entry_size skipcnt user in
      if skipcnt =? 0 then
        '(v, sz) ← lpGetWithSize lp p;
        let entry_size := default entry_size sz in
        _ ← match v with
            | LStr _ _ => cassert ((LP_HDR_SIZE <=? p) && (p + entry_size <? lp_bytes))
            | LInt _ => Some ()
            end;
        '(r, user) ← cmp lp p user v;
        if r =? 0 then Some (Some p, user)
        else continue (p + entry_size) entry_size skip user
      else
        p ← lpSkip lp p;
        continue p entry_size (skipcnt - 1) user
  end.

Definition lpFindCbInternal {U : Type} (lp : list Z) (p : option Z) (user : U)
    (cmp : list Z -> Z -> U -> lpval -> option (Z * U)) (skip : Z) : option (option Z * U) :=
  lp_bytes ← lpBytes lp;
  p ← match p with Some p => Some (Some p) | None => lpFirst lp end;
  match p with
  | None => Some (None, user)
  | Some p => lpFind_loop cmp skip lp lp_bytes (S (length lp)) p 123456789 0 user
  end.

Definition lpFindCb {U : Type} (lp : list Z) (p : option Z) (user : U)
    (cmp : list Z -> Z -> U -> lpval -> option (Z * U)) (skip : Z) : option (option Z * U) :=
  lpFindCbInternal lp p user cmp skip.

(** [struct lpFindArg]: [vencoding] is 0 until the first integer entry is met,
    then 1, or [UCHAR_MAX] when the item is not an integer. *)
Record lpFindArg := { fa_s : list Z; vencoding : Z; vll : Z }.

Definition UCHAR_MAX : Z := 255.

Definition lpFindCmp (lp : list Z) (p : Z) (arg : lpFindArg) (v : lpval) : option (Z * lpFindArg) :=
  match v with
  | LStr off slen =>
      if slen =? zlen (fa_s arg) then
        (s ← rd_bytes lp off slen; Some (if bool_decide (fa_s arg = s) then 0 else 1, arg))
      else Some (1, arg)
  | LInt ll =>
      let arg :=
        if vencoding arg =? 0 then
          if (zlen (fa_s arg) >=? 32) || (zlen (fa_s arg) =? 0) then
            {| fa_s := fa_s arg; vencoding := UCHAR_MAX; vll := vll arg |}
          else match lpStringToInt64 (fa_s arg) with
          | None => {| fa_s := fa_s arg; vencoding := UCHAR_MAX; vll := vll arg |}
          | Some v => {| fa_s := fa_s arg; vencoding := 1; vll := v |}
          end
        else arg in
      if negb (vencoding arg =? UCHAR_MAX) && (ll =? vll arg) then Some (0, arg)
      else Some (1, arg)
  end.

Definition lpFind (lp : list Z) (p : option Z) (s : list Z) (skip : Z) : option (option Z) :=
  '(r, _) ← lpFindCbInternal lp p {| fa_s := s; vencoding := 0; vll := 0 |} lpFindCmp skip;
  Some r.

(** [lpCompare(p, s, slen, NULL, NULL)]. *)
Definition lpCompare (lp : list Z) (p : Z) (s : list Z) : option bool :=
  b ← rd lp p;
  if b =? LP_EOF then Some false
  else
    v ← lpGet lp p;
    match v with
    | LStr off sz =>
        if zlen s =? sz then (t ← rd_bytes lp off sz; Some (bool_decide (t = s))) else Some false
    | LInt sz =>
        match lpStringToInt64 s with Some sval => Some (sz =? sval) | None => Some false end
    end.

(** ** Updates

    The allocator is a parameter: [usable n] is the size of the block that an
    allocation of [n] bytes returns (what [zmalloc_size] reports for it), and
    [junk] the contents of new memory.  [zmalloc] and [zrealloc] abort instead
    of returning NULL. *)
Section Alloc.
Context (junk : nat -> Z) (usable : Z -> Z).

Definition lp_realloc (lp : list Z) (n : Z) : list Z := realloc junk lp (usable n).
Definition lp_malloc (n : Z) : list Z := realloc junk [] (usable n).
Definition lp_malloc_size (lp : list Z) : Z := zlen lp.

Definition lpNew (capacity : Z) : option (list Z) :=
  let lp := lp_malloc (if capacity >? LP_HDR_SIZE + 1 then capacity else LP_HDR_SIZE + 1) in
  lp ← lpSetTotalBytes lp (LP_HDR_SIZE + 1);
  lp ← lpSetNumElements lp 0;
  wr lp LP_HDR_SIZE LP_EOF.

Definition lpShrinkToFit (lp : list Z) : option (list Z) :=
  size ← lpGetTotalBytes lp;
  if size <? lp_malloc_size lp then Some (lp_realloc lp size) else Some lp.

(** [lpInsert]: [Some None] is the result NULL; otherwise the new block and
    [*newp].  [elestr] and [eleint] carry their length. *)
Definition lpInsert (lp : list Z) (elestr eleint : option (list Z)) (p : Z) (where_ : lp_where)
    : option (option (list Z * option Z)) :=
  let delete := bool_decide (elestr = None /\ eleint = None) in
  let where_ := if delete then LP_REPLACE else where_ in
  '(p, where_) ←
    (if bool_decide (where_ = LP_AFTER) then
       (p ← lpSkip lp p; _ ← ASSERT_INTEGRITY lp p; Some (p, LP_BEFORE))
     else Some (p, where_));
  let poff := p in
  (* enctype, eleint and enclen *)
  let '(eleint, enclen) :=
    match elestr with
    | Some ele =>
        match lpEncodeGetType ele with
        | (Some intenc, enclen) => (Some intenc, enclen)
        | (None, enclen) => (None, enclen)
        end
    | None => match eleint with Some i => (Some i, zlen i) | None => (None, 0) end
    end in
  let backlen := if negb delete then lpEncodeBacklen enclen else [] in
  let backlen_size := zlen backlen in
  old_listpack_bytes ← lpGetTotalBytes lp;
  replaced_len ←
    (if bool_decide (where_ = LP_REPLACE) then
       (replaced_len ← lpCurrentEncodedSizeUnsafe lp p;
        let replaced_len := u32 (replaced_len + lpEncodeBacklenBytes replaced_len) in
        _ ← ASSERT_INTEGRITY_LEN lp p replaced_len; Some replaced_len)
     else Some 0);
  let new_listpack_bytes := u64 (old_listpack_bytes + enclen + backlen_size - replaced_len) in
  if new_listpack_bytes >? UINT32_MAX then Some None
  else
    let dst := poff in
    (* Realloc before: we need more room. *)
    let lp := if (new_listpack_bytes >? old_listpack_bytes) && (new_listpack_bytes >? lp_malloc_size lp)
              then lp_realloc lp new_listpack_bytes else lp in
    lp ← (if bool_decide (where_ = LP_BEFORE)
          then memmove lp (dst + enclen + backlen_size) dst (old_listpack_bytes - poff)
          else memmove lp (dst + enclen + backlen_size) (dst + replaced_len)
                 (old_listpack_bytes - poff - replaced_len));
    (* Realloc after: we need to free space. *)
    let lp := if new_listpack_bytes <? old_listpack_bytes then lp_realloc lp new_listpack_bytes else lp in
    b ← rd lp dst;
    let newp := if delete && (b =? LP_EOF) then None else Some dst in
    lp ← (if negb delete then
            (lp ← match eleint with
                  | Some i => wr_bytes lp dst i
                  | None => match elestr with
                            | Some ele => wr_bytes lp dst (lpEncodeString ele)
                            | None => None
                            end
                  end;
             wr_bytes lp (dst + enclen) backlen)
          else Some lp);
    lp ← (if negb (bool_decide (where_ = LP_REPLACE)) || delete then
            (num_elements ← lpGetNumElements lp;
             if negb (num_elements =? LP_HDR_NUMELE_UNKNOWN) then
               if negb delete then lpSetNumElements lp (num_elements + 1)
               else lpSetNumElements lp (num_elements - 1)
             else Some lp)
          else Some lp);
    lp ← lpSetTotalBytes lp new_listpack_bytes;
    Some (Some (lp, newp)).

Definition lpInsertString (lp s : list Z) (p : Z) (where_ : lp_where) := lpInsert lp (Some s) None p where_.

Definition lpInsertInteger (lp : list Z) (lval p : Z) (where_ : lp_where) :=
  lpInsert lp None (Some (lpEncodeIntegerGetType lval)) p where_.

Definition lpAppend (lp ele : list Z) : option (option (list Z * option Z)) :=
  listpack_bytes ← lpGetTotalBytes lp;
  lpInsert lp (Some ele) None (listpack_bytes - 1) LP_BEFORE.

Definition lpAppendInteger (lp : list Z) (lval : Z) : option (option (list Z * option Z)) :=
  listpack_bytes ← lpGetTotalBytes lp;
  lpInsertInteger lp lval (listpack_bytes - 1) LP_BEFORE.

Definition lpPrepend (lp s : list Z) : option (option (list Z * option Z)) :=
  p ← lpFirst lp;
  match p with
  | None => lpAppend lp s
  | Some p => lpInsert lp (Some s) None p LP_BEFORE
  end.

Definition lpPrependInteger (lp : list Z) (lval : Z) : option (option (list Z * option Z)) :=
  p ← lpFirst lp;
  match p with
  | None => lpAppendInteger lp lval
  | Some p => lpInsertInteger lp lval p LP_BEFORE
  end.

Definition lpReplace (lp : list Z) (p : Z) (s : list Z) := lpInsert lp (Some s) None p LP_REPLACE.
Definition lpReplaceInteger (lp : list Z) (p lval : Z) := lpInsertInteger lp lval p LP_REPLACE.
Definition lpDelete (lp : list Z) (p : Z) := lpInsert lp None None p LP_REPLACE.

(** *** Batches *)

(** [listpackEntry]: a string or an integer. *)
Inductive listpackEntry := SVal (s : list Z) | LVal (v : Z).

(** [struct listpackInsertEntry] for an entry: [intenc] when it is stored as an
    integer, [enclen] and [backlen]. *)
Definition lpEncodeEntry (e : listpackEntry) : option (list Z) * Z * list Z :=
  let '(intenc, enclen) :=
    match e with
    | SVal s => lpEncodeGetType s
    | LVal v => let intenc := lpEncodeIntegerGetType v in (Some intenc, zlen intenc)
    end in
  (intenc, enclen, lpEncodeBacklen enclen).

(** The encoded entries and [addedlen]. *)
Fixpoint lpEncodeEntries (entries : list listpackEntry) (addedlen : Z)
    : list (option (list Z) * Z * list Z) * Z :=
  match entries with
  | [] => ([], addedlen)
  | e :: entries =>
      let '(intenc, enclen, backlen) := lpEncodeEntry e in
      let '(encs, addedlen) :=
        lpEncodeEntries entries (u64 (u64 (addedlen + enclen) + zlen backlen)) in
      ((intenc, enclen, backlen) :: encs, addedlen)
  end.

(** The block, the pointer past the last entry written and [*newp]. *)
Fixpoint lpWriteEntries (lp : list Z) (dst : Z) (entries : list listpackEntry)
    (encs : list (option (list Z) * Z * list Z)) (newp : option Z) : option (list Z * Z * option Z) :=
  match entries, encs with
  | [], _ => Some (lp, dst, newp)
  | ent :: entries, (intenc, enclen, backlen) :: encs =>
      let newp := Some dst in
      lp ← match intenc, ent with
           | Some i, _ => wr_bytes lp dst i
           | None, SVal s => wr_bytes lp dst (lpEncodeString s)
           | None, LVal _ => None
           end;
      let dst' := dst + enclen in
      lp ← wr_bytes lp dst' backlen;
      lpWriteEntries lp (dst' + zlen backlen) entries encs newp
  | _ :: _, [] => None
  end.

Definition lpBatchInsert (lp : list Z) (p : Z) (where_ : lp_where) (entries : list listpackEntry)
    : option (option (list Z * option Z)) :=
  _ ← cassert (bool_decide (where_ <> LP_REPLACE));
  _ ← cassert (zlen entries >? 0);
  p ← (if bool_decide (where_ = LP_AFTER) then (p ← lpSkip lp p; _ ← ASSERT_INTEGRITY lp p; Some p)
       else Some p);
  let '(encs, addedlen) := lpEncodeEntries entries 0 in
  old_listpack_bytes ← lpGetTotalBytes lp;
  let new_listpack_bytes := u64 (old_listpack_bytes + addedlen) in
  if new_listpack_bytes >? UINT32_MAX then Some None
  else
    let poff := p in
    let dst := poff in
    let lp := if (new_listpack_bytes >? old_listpack_bytes) && (new_listpack_bytes >? lp_malloc_size lp)
              then lp_realloc lp new_listpack_bytes else lp in
    lp ← memmove lp (dst + addedlen) dst (old_listpack_bytes - poff);
    '(lp, _, newp) ← lpWriteEntries lp dst entries encs None;
    num_elements ← lpGetNumElements lp;
    lp ← (if negb (num_elements =? LP_HDR_NUMELE_UNKNOWN) then
            if zlen entries >? LP_HDR_NUMELE_UNKNOWN - num_elements
            then lpSetNumElements lp LP_HDR_NUMELE_UNKNOWN
            else lpSetNumElements lp (num_elements + zlen entries)
          else Some lp);
    lp ← lpSetTotalBytes lp new_listpack_bytes;
    Some (Some (lp, newp)).

Definition lpBatchAppend (lp : list Z) (entries : list listpackEntry) :=
  listpack_bytes ← lpGetTotalBytes lp;
  lpBatchInsert lp (listpack_bytes - 1) LP_BEFORE entries.

Definition lpNewWithEntries (entries : list listpackEntry) : option (option (list Z)) :=
  _ ← cassert (zlen entries >? 0);
  let '(encs, entries_len) := lpEncodeEntries entries 0 in
  let listpack_bytes := u64 (LP_HDR_SIZE + entries_len + 1) in
  if listpack_bytes >? UINT32_MAX then Some None
  else
    let lp := lp_malloc listpack_bytes in
    '(lp, tail, _) ← lpWriteEntries lp LP_HDR_SIZE entries encs None;
    lp ← wr lp tail LP_EOF;
    let num_elements := if zlen entries >=? LP_HDR_NUMELE_UNKNOWN
                        then LP_HDR_NUMELE_UNKNOWN else zlen entries in
    lp ← lpSetNumElements lp num_elements;
    lp ← lpSetTotalBytes lp listpack_bytes;
    Some (Some lp).

(** *** Ranges *)

(** [while (num--)]: the final [tail] and [deleted]. *)
Fixpoint lpDeleteRange_loop (fuel : nat) (lp : list Z) (bytes tail num deleted : Z)
    : option (Z * Z) :=
  match fuel with
  | O => None
  | S fuel =>
      if num =? 0 then Some (tail, deleted)
      else
        let deleted := deleted + 1 in
        tail ← lpSkip lp tail;
        b ← rd lp tail;
        if b =? LP_EOF then Some (tail, deleted)
        else
          _ ← lpAssertValidEntry lp bytes tail;
          lpDeleteRange_loop fuel lp bytes tail (num - 1) deleted
  end.

Definition lpDeleteRangeWithEntry (lp : list Z) (p num : Z) : option (list Z * option Z) :=
  bytes ← lpBytes lp;
  let eofptr := bytes - 1 in
  let first := p in
  if num =? 0 then Some (lp, Some p)
  else
    '(tail, deleted) ← lpDeleteRange_loop (S (length lp)) lp bytes p num 0;
    let poff := first in
    lp ← memmove lp first tail (eofptr - tail + 1);
    lp ← lpSetTotalBytes lp (bytes - (tail - first));
    numele ← lpGetNumElements lp;
    lp ← (if negb (numele =? LP_HDR_NUMELE_UNKNOWN) then lpSetNumElements lp (numele - deleted)
          else Some lp);
    lp ← lpShrinkToFit lp;
    b ← rd lp poff;
    Some (lp, if b =? LP_EOF then None else Some poff).

Definition lpDeleteRange (lp : list Z) (index num : Z) : option (list Z) :=
  numele ← lpGetNumElements lp;
  if num =? 0 then Some lp
  else
    p ← lpSeek lp index;
    match p with
    | None => Some lp
    | Some p =>
        let index := if negb (numele =? LP_HDR_NUMELE_UNKNOWN) && (index <? 0)
                     then numele + index else index in
        if negb (numele =? LP_HDR_NUMELE_UNKNOWN) && (u64 (numele - u64 index) <=? num) then
          lp ← wr lp p LP_EOF;
          lp ← lpSetTotalBytes lp (p + 1);
          lp ← lpSetNumElements lp index;
          lpShrinkToFit lp
        else
          '(lp, _) ← lpDeleteRangeWithEntry lp p num;
          Some lp
    end.

(** The loop of [lpBatchDelete]: [ps] are the entries left to delete. *)
Fixpoint lpBatchDelete_loop (lp : list Z) (ps : list Z) (lp_end dst : Z) : option (list Z * Z) :=
  match ps with
  | [] => Some (lp, dst)
  | skip :: ps =>
      b ← rd lp skip;
      _ ← cassert (negb (b =? LP_EOF));
      keep_start ← lpSkip lp skip;
      let keep_end := match ps with q :: _ => q | [] => lp_end end in
      if bool_decide (ps <> []) && (keep_start =? keep_end) then lpBatchDelete_loop lp ps lp_end dst
      else
        _ ← cassert (keep_start <? keep_end);
        let bytes_to_keep := keep_end - keep_start in
        lp ← memmove lp dst keep_start bytes_to_keep;
        lpBatchDelete_loop lp ps lp_end (dst + bytes_to_keep)
  end.

Definition lpBatchDelete (lp : list Z) (ps : list Z) : option (list Z) :=
  match ps with
  | [] => Some lp
  | dst :: _ =>
      total_bytes ← lpGetTotalBytes lp;
      let lp_end := total_bytes in
      last ← rd lp (lp_end - 1);
      _ ← cassert (last =? LP_EOF);
      '(lp, dst) ← lpBatchDelete_loop lp ps lp_end dst;
      let deleted_bytes := lp_end - dst in
      let total_bytes := total_bytes - deleted_bytes in
      b ← rd lp (total_bytes - 1);
      _ ← cassert (b =? LP_EOF);
      lp ← lpSetTotalBytes lp total_bytes;
      numele ← lpGetNumElements lp;
      lp ← (if negb (numele =? LP_HDR_NUMELE_UNKNOWN) then lpSetNumElements lp (numele - zlen ps)
            else Some lp);
      lpShrinkToFit lp
  end.

(** *** Merging and copying *)

(** [lpMerge(&first,&second)] for two different, non-NULL listpacks; the
    result, and whether it replaces [*first] (the other pointer is freed). *)
Definition lpMerge (first second : list Z) : option (list Z * bool) :=
  first_bytes ← lpBytes first;
  '(first_len, first) ← lpLength first;
  second_bytes ← lpBytes second;
  '(second_len, second) ← lpLength second;
  let append := first_bytes >=? second_bytes in
  let '(target, target_bytes, source, source_bytes) :=
    if append then (first, first_bytes, second, second_bytes)
    else (second, second_bytes, first, first_bytes) in
  let lpbytes := u64 (first_bytes + second_bytes - LP_HDR_SIZE - 1) in
  _ ← cassert (lpbytes <? UINT32_MAX);
  let lplength := u64 (first_len + second_len) in
  let lplength := if lplength <? 65535 then lplength else 65535 in
  let target := lp_realloc target lpbytes in
  target ←
    (if append then
       (src ← rd_bytes source LP_HDR_SIZE (source_bytes - LP_HDR_SIZE);
        wr_bytes target (target_bytes - 1) src)
     else
       (target ← memmove target (source_bytes - 1) LP_HDR_SIZE (target_bytes - LP_HDR_SIZE);
        src ← rd_bytes source 0 (source_bytes - 1);
        wr_bytes target 0 src));
  target ← lpSetNumElements target lplength;
  target ← lpSetTotalBytes target lpbytes;
  Some (target, append).

Definition lpDup (lp : list Z) : option (list Z) :=
  lpbytes ← lpBytes lp;
  src ← rd_bytes lp 0 lpbytes;
  wr_bytes (lp_malloc lpbytes) 0 src.
End Alloc.
