(* ===== verification/ListpackNav.v ===== *)
(** * Listpacks: representation and traversal

    [lp_repr lp es num]: the block [lp] holds exactly the encoded elements [es],
    with the element count [num] in its header.  Traversal, seeking, counting
    and searching are proved against the list [es]. *)

From stdpp Require Import base list numbers option tactics.
From S2P Require Import Prelude Util ListpackEnc Listpack.

(** ** Representation *)

Definition ent (e : list Z) : list Z := e ++ lpEncodeBacklen (zlen e).

Fixpoint body (es : list (list Z)) : list Z :=
  match es with [] => [] | e :: es => ent e ++ body es end.

Definition hdr (total num : Z) : list Z := le_bytes 4 total ++ le_bytes 2 num.

(** The offset of element [i]. *)
Definition pos (es : list (list Z)) (i : nat) : Z := LP_HDR_SIZE + zlen (body (take i es)).

Definition total_bytes (es : list (list Z)) : Z := LP_HDR_SIZE + zlen (body es) + 1.

Definition num_ok (num : Z) (es : list (list Z)) : Prop :=
  num = zlen es /\ zlen es < LP_HDR_NUMELE_UNKNOWN \/ num = LP_HDR_NUMELE_UNKNOWN.

Definition lp_repr (lp : list Z) (es : list (list Z)) (num : Z) : Prop :=
  Forall valid_entry es /\ total_bytes es < 2 ^ 32 /\ num_ok num es /\
  exists slack, lp = hdr (total_bytes es) num ++ body es ++ LP_EOF :: slack.

Lemma body_app es1 es2 : body (es1 ++ es2) = body es1 ++ body es2.
Proof. induction es1 as [|e es1 IH]; [done|]. cbn. by rewrite IH, app_assoc. Qed.

Lemma zlen_hdr t n : zlen (hdr t n) = 6.
Proof. unfold hdr. by rewrite zlen_app, !zlen_le_bytes. Qed.

Lemma zlen_ent e : zlen (ent e) = zlen e + lpEncodeBacklenBytes (zlen e).
Proof. unfold ent. by rewrite zlen_app, zlen_lpEncodeBacklen. Qed.

#[export] Hint Rewrite zlen_hdr body_app : zlen.

Lemma num_ok_range num es : num_ok num es -> 0 <= num < 2 ^ 16.
Proof. unfold num_ok, LP_HDR_NUMELE_UNKNOWN. zlen_facts. lia. Qed.

Lemma pos_0 es : pos es 0 = LP_HDR_SIZE.
Proof. done. Qed.

Lemma pos_ge es i : LP_HDR_SIZE <= pos es i.
Proof. unfold pos. zlen_facts. lia. Qed.

Lemma pos_all es i : (length es <= i)%nat -> pos es i = total_bytes es - 1.
Proof. intros. unfold pos, total_bytes. rewrite take_ge by done. lia. Qed.

Lemma pos_split a e b : pos (a ++ e :: b) (length a) = LP_HDR_SIZE + zlen (body a).
Proof. unfold pos. by rewrite take_app_length. Qed.

Lemma pos_S es i e : es !! i = Some e -> pos es (S i) = pos es i + zlen (ent e).
Proof.
  intros H. unfold pos. rewrite (take_S_r _ _ e), body_app by done.
  cbn [body]. rewrite app_nil_r. zlia.
Qed.

Lemma pos_lt_total es i e :
  es !! i = Some e -> pos es i + zlen (ent e) <= total_bytes es - 1.
Proof.
  intros H. unfold pos, total_bytes. rewrite <- (take_drop_middle _ _ _ H) at 2.
  rewrite body_app. cbn [body]. zlia.
Qed.

(** A valid entry is not empty and its first byte is not the terminator. *)
Lemma valid_entry_head e : valid_entry e -> exists b e', e = b :: e' /\ is_byte b /\ b <> LP_EOF.
Proof.
  intros (Hf & Heof & Hl & _). destruct e as [|b e]; [zlia|].
  exists b, e. split; [done|]. apply list.Forall_cons in Hf as [??]. split; [done|].
  intros ->. by apply Heof.
Qed.

(** ** One entry in its block *)

Section At.
Context (e : list Z) (He : valid_entry e).

Lemma size_at a c : lpCurrentEncodedSizeUnsafe (a ++ ent e ++ c) (zlen a) = Some (zlen e).
Proof.
  unfold ent. rewrite <- app_assoc. apply lpCurrentEncodedSize_embed. apply He.
Qed.

Lemma skip_at a c : lpSkip (a ++ ent e ++ c) (zlen a) = Some (zlen a + zlen (ent e)).
Proof. unfold lpSkip. rewrite size_at. cbn. by rewrite zlen_ent. Qed.

Lemma backlen_at a c :
  lpDecodeBacklen (a ++ ent e ++ c) (zlen a + zlen (ent e) - 1) = Some (zlen e).
Proof.
  destruct He as (_ & _ & Hl & _).
  unfold ent. rewrite <- app_assoc, (app_assoc a e). apply lpDecodeBacklen_encode; [lia|].
  rewrite !zlen_app, zlen_lpEncodeBacklen. lia.
Qed.

Lemma skipPrev_at a c : lpSkipPrev (a ++ ent e ++ c) (zlen a + zlen (ent e)) = Some (zlen a).
Proof.
  destruct He as (_ & _ & Hl & _).
  pose proof (lpEncodeBacklenBytes_pos (zlen e)).
  unfold lpSkipPrev. rewrite backlen_at. cbn [mbind option_bind]. f_equal.
  rewrite wrapu_id by lia. rewrite zlen_ent. lia.
Qed.

Lemma head_at a c :
  exists b, rd (a ++ ent e ++ c) (zlen a) = Some b /\ is_byte b /\ (b =? LP_EOF) = false /\
    0 < lpCurrentEncodedSizeBytes b <= zlen e.
Proof.
  destruct (valid_entry_head e He) as (b & e' & Hbe & Hb & Hne).
  exists b. split; [unfold ent; rewrite Hbe; apply rd_app_mid|]. split; [done|].
  split; [by apply Z.eqb_neq|].
  destruct He as (Hf & _ & Hl & Hs). rewrite Hbe in Hs, Hl |- *. revert Hs.
  unfold lpCurrentEncodedSizeUnsafe, lpCurrentEncodedSizeBytes, LP_ENCODING_6BIT_STR_LEN,
    LP_ENCODING_12BIT_STR_LEN, LP_ENCODING_32BIT_STR_LEN. rewrite rd_0. cbn [mbind option_bind].
  repeat case_match; try (intros; lia); intros Hs.
  - apply bind_Some in Hs as (n & Hn & _). apply bind_Some in Hn as (b1 & Hn & _).
    apply rd_Some_inv in Hn. lia.
  - apply bind_Some in Hs as (n & Hn & _). apply bind_Some in Hn as (bs & Hn & _).
    apply rd_bytes_inv in Hn. lia.
  - injection Hs as Hs. lia.
Qed.

Lemma validate_at a c lpbytes :
  LP_HDR_SIZE <= zlen a -> zlen a + zlen (ent e) <= lpbytes - 1 ->
  lpValidateNext (a ++ ent e ++ c) (Some (zlen a)) lpbytes = Some (Some (Some (zlen a + zlen (ent e)))).
Proof.
  intros Ha Hl. destruct (head_at a c) as (b & Hb & _ & Hne & Hsz).
  pose proof (lpEncodeBacklenBytes_pos (zlen e)). rewrite zlen_ent in Hl.
  assert (Hv : 0 < zlen e < 2 ^ 32) by apply He.
  assert (Hin : forall k, 0 <= k <= zlen e + lpEncodeBacklenBytes (zlen e) ->
    ((zlen a + k <? LP_HDR_SIZE) || (zlen a + k >? lpbytes - 1)) = false).
  { intros k Hk. rewrite Z.gtb_ltb. apply orb_false_iff. split; apply Z.ltb_ge; lia. }
  unfold lpValidateNext. pose proof (Hin 0 ltac:(lia)) as H0. rewrite Z.add_0_r in H0. rewrite H0.
  rewrite Hb. cbn [mbind option_bind]. rewrite Hne, (proj2 (Z.eqb_neq _ 0)), Hin by lia.
  rewrite size_at. cbn [mbind option_bind]. rewrite Hin by lia. rewrite <- zlen_ent, backlen_at.
  cbn [mbind option_bind]. rewrite wrapu_id by lia. by rewrite zlen_ent, Z.eqb_refl.
Qed.

Lemma assert_at a c lpbytes :
  LP_HDR_SIZE <= zlen a -> zlen a + zlen (ent e) <= lpbytes - 1 ->
  lpAssertValidEntry (a ++ ent e ++ c) lpbytes (zlen a) = Some ().
Proof. intros. unfold lpAssertValidEntry. by rewrite validate_at. Qed.
End At.

Lemma assert_eof a c lpbytes :
  LP_HDR_SIZE <= zlen a -> zlen a <= lpbytes - 1 ->
  lpAssertValidEntry (a ++ LP_EOF :: c) lpbytes (zlen a) = Some ().
Proof.
  intros. unfold lpAssertValidEntry, lpValidateNext.
  rewrite Z.gtb_ltb, !(proj2 (Z.ltb_ge _ _)) by lia. cbn [orb]. by rewrite rd_app_mid.
Qed.

(** ** Traversal of a represented list *)

(** Element [i] as a pointer: NULL past the end. *)
Definition ptr (es : list (list Z)) (i : nat) : option Z :=
  if decide (i < length es)%nat then Some (pos es i) else None.

Lemma ptr_lt es i : (i < length es)%nat -> ptr es i = Some (pos es i).
Proof. intros. unfold ptr. by rewrite decide_True. Qed.

Lemma ptr_ge es i : (length es <= i)%nat -> ptr es i = None.
Proof. intros. unfold ptr. rewrite decide_False; [done|lia]. Qed.

Section Nav.
Context (lp : list Z) (es : list (list Z)) (num : Z) (Hlp : lp_repr lp es num).

Lemma repr_valid i e : es !! i = Some e -> valid_entry e.
Proof. intros. destruct Hlp as (Hf & _). by eapply list.Forall_lookup_1. Qed.

Lemma repr_total : lpGetTotalBytes lp = Some (total_bytes es).
Proof.
  destruct Hlp as (_ & Ht & _ & slack & ->). unfold lpGetTotalBytes, rd_or, hdr.
  rewrite <- app_assoc, rd_bytes_head by (by rewrite zlen_le_bytes). cbn [mbind option_bind].
  rewrite le_or_val, le_val_bytes by apply le_bytes_is_byte. f_equal. apply wrapu_id.
  unfold total_bytes, LP_HDR_SIZE in *. change (8 * Z.of_nat 4) with 32. zlen_facts. lia.
Qed.

Lemma repr_num : lpGetNumElements lp = Some num.
Proof.
  destruct Hlp as (_ & _ & Hn & slack & ->). unfold lpGetNumElements, rd_or, hdr.
  rewrite <- app_assoc, rd_bytes_at by (by rewrite zlen_le_bytes). cbn [mbind option_bind].
  rewrite le_or_val, le_val_bytes by apply le_bytes_is_byte. f_equal. apply wrapu_id.
  change (8 * Z.of_nat 2) with 16. by eapply num_ok_range.
Qed.

Lemma repr_at i e : es !! i = Some e ->
  exists a c, lp = a ++ ent e ++ c /\ zlen a = pos es i.
Proof.
  intros Hi. destruct Hlp as (_ & _ & _ & slack & ->).
  exists (hdr (total_bytes es) num ++ body (take i es)), (body (drop (S i) es) ++ LP_EOF :: slack).
  split; [|unfold pos, LP_HDR_SIZE; zlia].
  rewrite <- (take_drop_middle _ _ _ Hi) at 2. rewrite body_app. cbn [body]. by rewrite <- !app_assoc.
Qed.

Lemma repr_eof : exists a c, lp = a ++ LP_EOF :: c /\ zlen a = total_bytes es - 1.
Proof.
  destruct Hlp as (_ & _ & _ & slack & ->).
  exists (hdr (total_bytes es) num ++ body es), slack. split; [by rewrite app_assoc|].
  unfold total_bytes, LP_HDR_SIZE. zlia.
Qed.

Lemma nav_skip i e : es !! i = Some e -> lpSkip lp (pos es i) = Some (pos es (S i)).
Proof.
  intros Hi. destruct (repr_at i e Hi) as (a & c & Hl & Ha). rewrite Hl, <- Ha.
  rewrite skip_at by (by eapply repr_valid). by rewrite Ha, (pos_S _ _ _ Hi).
Qed.

Lemma nav_skipPrev i e : es !! i = Some e -> lpSkipPrev lp (pos es (S i)) = Some (pos es i).
Proof.
  intros Hi. destruct (repr_at i e Hi) as (a & c & Hl & Ha).
  rewrite (pos_S _ _ _ Hi), Hl, <- Ha. apply skipPrev_at. by eapply repr_valid.
Qed.

Lemma nav_head i : (i < length es)%nat ->
  exists b, rd lp (pos es i) = Some b /\ is_byte b /\ (b =? LP_EOF) = false.
Proof.
  intros [e Hi]%lookup_lt_is_Some. destruct (repr_at i e Hi) as (a & c & Hl & Ha).
  destruct (head_at e (repr_valid _ _ Hi) a c) as (b & Hb & ? & ? & _).
  exists b. by rewrite Hl, <- Ha.
Qed.

Lemma nav_eof i : (length es <= i)%nat -> rd lp (pos es i) = Some LP_EOF.
Proof.
  intros Hi. destruct repr_eof as (a & c & Hl & Ha). rewrite pos_all, <- Ha, Hl by done.
  apply rd_app_mid.
Qed.

Lemma nav_assert i : lpAssertValidEntry lp (total_bytes es) (pos es i) = Some ().
Proof.
  destruct (decide (i < length es)%nat) as [Hlt|Hge].
  - apply lookup_lt_is_Some in Hlt as [e Hi].
    destruct (repr_at i e Hi) as (a & c & Hl & Ha). rewrite Hl, <- Ha.
    apply assert_at; [by eapply repr_valid|rewrite Ha; apply pos_ge|].
    rewrite Ha. by apply pos_lt_total.
  - destruct repr_eof as (a & c & Hl & Ha). rewrite pos_all, <- Ha, Hl by lia.
    apply assert_eof; [|lia]. rewrite Ha, <- (pos_all es (length es)) by lia. apply pos_ge.
Qed.

Lemma pos_mono_S i : (i < length es)%nat -> pos es i + 2 <= pos es (S i).
Proof.
  intros [e Hi]%lookup_lt_is_Some. rewrite (pos_S _ _ _ Hi), zlen_ent.
  destruct (repr_valid _ _ Hi) as (_ & _ & ? & _).
  pose proof (lpEncodeBacklenBytes_pos (zlen e)). lia.
Qed.

Lemma pos_mono i j : (i <= j)%nat -> (j <= length es)%nat ->
  pos es i + 2 * (Z.of_nat j - Z.of_nat i) <= pos es j.
Proof.
  intros Hij. induction Hij as [|j Hij IH]; intros Hj; [lia|].
  pose proof (pos_mono_S j ltac:(lia)). specialize (IH ltac:(lia)). lia.
Qed.

Lemma zlen_lp : total_bytes es <= zlen lp.
Proof.
  destruct Hlp as (_ & _ & _ & slack & Hl). rewrite Hl. unfold total_bytes, LP_HDR_SIZE. zlia.
Qed.

Lemma pos_le_total i : pos es i <= total_bytes es - 1.
Proof.
  destruct (decide (i < length es)%nat).
  - rewrite <- (pos_all es (length es)) by lia.
    pose proof (pos_mono i (length es) ltac:(lia) ltac:(lia)). lia.
  - rewrite pos_all by lia. lia.
Qed.

Lemma length_le_lp : (length es <= length lp)%nat.
Proof.
  pose proof (pos_mono 0 (length es) ltac:(lia) ltac:(lia)).
  pose proof (pos_le_total (length es)). pose proof zlen_lp.
  rewrite pos_0 in *. unfold zlen, LP_HDR_SIZE in *. lia.
Qed.

Ltac at_eof Hi := rewrite (nav_eof _ Hi); cbn [mbind option_bind]; rewrite Z.eqb_refl.
Ltac at_head i Hi :=
  let b := fresh "b" in let Hb := fresh "Hb" in let Hne := fresh "Hne" in
  destruct (nav_head i Hi) as (b & Hb & _ & Hne); rewrite Hb; cbn [mbind option_bind]; rewrite Hne.

Lemma nav_next i : (i < length es)%nat -> lpNext lp (pos es i) = Some (ptr es (S i)).
Proof.
  intros [e Hi]%lookup_lt_is_Some. unfold lpNext. rewrite (nav_skip _ _ Hi). cbn [mbind option_bind].
  destruct (decide (S i < length es)%nat) as [Hlt|Hge].
  - at_head (S i) Hlt. unfold lpBytes. rewrite repr_total. cbn [mbind option_bind].
    by rewrite nav_assert, ptr_lt.
  - at_eof (not_lt _ _ Hge). by rewrite ptr_ge by lia.
Qed.

Lemma nav_nextWithBytes i :
  (i < length es)%nat -> lpNextWithBytes lp (pos es i) (total_bytes es) = Some (ptr es (S i)).
Proof.
  intros Hi. rewrite <- nav_next by done. unfold lpNextWithBytes, lpNext, lpBytes.
  by rewrite repr_total.
Qed.

Lemma nav_prev i : (i <= length es)%nat ->
  lpPrev lp (pos es i) = Some (match i with O => None | S j => Some (pos es j) end).
Proof.
  intros Hi. unfold lpPrev. destruct i as [|j]; [by rewrite pos_0, Z.eqb_refl|].
  rewrite (proj2 (Z.eqb_neq _ _)).
  2:{ pose proof (pos_mono_S j Hi). pose proof (pos_ge es j). lia. }
  apply lookup_lt_is_Some in Hi as [e Hi]. rewrite (nav_skipPrev _ _ Hi).
  cbn [mbind option_bind]. unfold lpBytes. rewrite repr_total. cbn [mbind option_bind].
  by rewrite nav_assert.
Qed.

Lemma nav_first : lpFirst lp = Some (ptr es 0).
Proof.
  unfold lpFirst. rewrite <- (pos_0 es).
  destruct (decide (0 < length es)%nat) as [Hlt|Hge].
  - at_head 0%nat Hlt. unfold lpBytes. rewrite repr_total. cbn [mbind option_bind].
    by rewrite nav_assert, ptr_lt.
  - at_eof (not_lt _ _ Hge). by rewrite ptr_ge by lia.
Qed.

Lemma nav_last : lpLast lp = Some (match length es with O => None | S j => Some (pos es j) end).
Proof.
  unfold lpLast. rewrite repr_total. cbn [mbind option_bind].
  rewrite <- (pos_all es (length es)), nav_prev by lia. done.
Qed.

(** *** [lpNextN], [lpPrevN], [lpSeek] *)

Lemma nextN_loop fuel : forall i n validated,
  (i < length es)%nat -> 0 <= n -> (length es - i < fuel)%nat ->
  exists v', lpNextN_loop fuel lp (total_bytes es) (pos es i) n validated =
    Some (if decide (Z.of_nat i + n < zlen es) then Some (pos es (i + Z.to_nat n)) else None, v').
Proof.
  induction fuel as [|fuel IH]; intros i n validated Hi Hn Hf; [lia|]. cbn [lpNextN_loop].
  destruct (Z.eqb_spec n 0) as [->|Hn0].
  { exists validated. rewrite decide_True by (unfold zlen; lia). by rewrite Nat.add_0_r. }
  apply lookup_lt_is_Some in Hi as [e Hi]. rewrite (nav_skip _ _ Hi). cbn [mbind option_bind].
  rewrite nav_assert. cbn [mbind option_bind].
  assert (Hc : exists v, (if pos es (S i) + 5 >=? total_bytes es then Some true
    else (_ ← cassert ((LP_HDR_SIZE <=? pos es (S i)) && (pos es (S i) <? total_bytes es)); Some false))
    = Some v).
  { destruct (_ >=? _) ; [by eexists|]. pose proof (pos_ge es (S i)). pose proof (pos_le_total (S i)).
    rewrite (proj2 (Z.leb_le _ _)), (proj2 (Z.ltb_lt _ _)) by lia. by eexists. }
  destruct Hc as [v ->]. cbn [mbind option_bind].
  pose proof (lookup_lt_Some _ _ _ Hi).
  destruct (decide (S i < length es)%nat) as [Hlt|Hge].
  - at_head (S i) Hlt. destruct (IH (S i) (n - 1) v) as (v' & ->); [lia..|]. exists v'.
    replace (Z.of_nat (S i) + (n - 1)) with (Z.of_nat i + n) by lia.
    replace (S i + Z.to_nat (n - 1))%nat with (i + Z.to_nat n)%nat by lia. done.
  - at_eof (not_lt _ _ Hge). exists true. rewrite decide_False by (unfold zlen; lia). done.
Qed.

Lemma nav_nextN i n : 0 <= n -> lpNextN lp (ptr es i) n = Some (ptr es (i + Z.to_nat n)).
Proof.
  intros Hn. unfold lpNextN, lpBytes. rewrite repr_total. cbn [mbind option_bind].
  destruct (decide (i < length es)%nat) as [Hlt|Hge].
  2:{ by rewrite !ptr_ge by lia. }
  rewrite (ptr_lt es i) by done. pose proof length_le_lp.
  destruct (nextN_loop (S (length lp)) i n true) as (v & ->); [lia..|]. cbn [mbind option_bind].
  case_decide.
  - rewrite nav_assert, ptr_lt by (unfold zlen in *; lia). by destruct v.
  - by rewrite ptr_ge by (unfold zlen in *; lia).
Qed.

Lemma prevN_loop fuel : forall i n validated,
  (i < length es)%nat -> 0 <= n -> (i < fuel)%nat ->
  exists v', lpPrevN_loop fuel lp (total_bytes es) (pos es i) n validated =
    Some (if decide (n <= Z.of_nat i) then Some (pos es (i - Z.to_nat n)) else None, v').
Proof.
  induction fuel as [|fuel IH]; intros i n validated Hi Hn Hf; [lia|]. cbn [lpPrevN_loop].
  destruct (Z.eqb_spec n 0) as [->|Hn0].
  { exists validated. rewrite decide_True by lia. by rewrite Nat.sub_0_r. }
  destruct i as [|i].
  { exists validated. rewrite pos_0, Z.eqb_refl, decide_False by lia. done. }
  pose proof (pos_mono_S i ltac:(lia)). pose proof (pos_ge es i). pose proof (pos_le_total i).
  rewrite (proj2 (Z.eqb_neq _ _)) by lia.
  assert (Hi' : (i < length es)%nat) by lia. apply lookup_lt_is_Some in Hi' as [e He].
  rewrite (nav_skipPrev _ _ He). cbn [mbind option_bind].
  rewrite (proj2 (Z.leb_le _ _)), (proj2 (Z.ltb_lt _ _)) by lia. cbn [andb cassert mbind option_bind].
  destruct (IH i (n - 1) false) as (v' & ->); [lia..|]. exists v'.
  replace (S i - Z.to_nat n)%nat with (i - Z.to_nat (n - 1))%nat by lia.
  repeat case_decide; done || lia.
Qed.

Lemma nav_prevN i n : (i < length es)%nat -> 0 <= n ->
  lpPrevN lp (Some (pos es i)) n =
  Some (if decide (n <= Z.of_nat i) then Some (pos es (i - Z.to_nat n)) else None).
Proof.
  intros Hi Hn. unfold lpPrevN, lpBytes. rewrite repr_total. cbn [mbind option_bind].
  pose proof length_le_lp.
  destruct (prevN_loop (S (length lp)) i n true) as (v & ->); [lia..|]. cbn [mbind option_bind].
  case_decide; [|done]. rewrite nav_assert. by destruct v.
Qed.

(** The position a signed index stands for. *)
Definition seek_index (index : Z) : option nat :=
  let i := if index <? 0 then zlen es + index else index in
  if (0 <=? i) && (i <? zlen es) then Some (Z.to_nat i) else None.

Lemma nav_seek index : INT64_MIN < index -> lpSeek lp index = Some (pos es <$> seek_index index).
Proof.
  intros Hmin. assert (Hfwd : forall j, 0 <= j -> (p ← lpFirst lp; lpNextN lp p j) = Some (ptr es (Z.to_nat j))).
  { intros j Hj. rewrite nav_first. cbn [mbind option_bind]. by rewrite nav_nextN. }
  assert (Hbwd : forall j, 0 <= j -> (p ← lpLast lp; lpPrevN lp p j) =
    Some (if decide (j < zlen es) then Some (pos es (Z.to_nat (zlen es - 1 - j))) else None)).
  { intros j Hj. rewrite nav_last. cbn [mbind option_bind].
    destruct (length es) as [|k] eqn:El.
    - unfold lpPrevN, lpBytes. rewrite repr_total. cbn. unfold zlen. rewrite El.
      by rewrite decide_False by lia.
    - rewrite nav_prevN by lia. unfold zlen. rewrite El. repeat case_decide; try done; try lia.
      do 3 f_equal. lia. }
  unfold lpSeek, seek_index. rewrite repr_num. cbn [mbind option_bind].
  destruct Hlp as (_ & _ & Hn & _). zlen_facts.
  destruct (Z.eqb_spec num LP_HDR_NUMELE_UNKNOWN) as [->|Hk]; cbn [negb].
  - destruct (Z.ltb_spec index 0).
    + rewrite (proj2 (Z.eqb_neq index INT64_MIN)) by lia. cbn [negb cassert mbind option_bind].
      rewrite Hbwd by lia. case_decide.
      * rewrite (proj2 (Z.leb_le _ _)), (proj2 (Z.ltb_lt _ _)) by lia. cbn. do 3 f_equal. lia.
      * rewrite (proj2 (Z.leb_gt _ _)) by lia. done.
    + rewrite Hfwd by lia. rewrite (proj2 (Z.leb_le 0 _)) by lia. cbn [andb]. unfold ptr.
      case_decide; [rewrite (proj2 (Z.ltb_lt _ _)) by (unfold zlen; lia)
                   |rewrite (proj2 (Z.ltb_ge _ _)) by (unfold zlen; lia)]; done.
  - destruct Hn as [[Hn _]|?]; [|done]. subst num. set (i := if index <? 0 then _ else _).
    destruct (Z.ltb_spec i 0); [by rewrite (proj2 (Z.leb_gt _ _)) by lia|].
    rewrite Z.geb_leb, (proj2 (Z.leb_le 0 i)) by lia. cbn [andb].
    destruct (Z.leb_spec (zlen es) i); [by rewrite (proj2 (Z.ltb_ge _ _)) by lia|].
    rewrite (proj2 (Z.ltb_lt i _)) by lia. destruct (i >? zlen es / 2).
    + rewrite Hbwd by lia. rewrite decide_True by lia. cbn. do 3 f_equal. lia.
    + rewrite Hfwd by lia. rewrite ptr_lt by (unfold zlen in *; lia). done.
Qed.

End Nav.

(** ** Header updates *)

Lemma set_num t n r v : lpSetNumElements (hdr t n ++ r) v = Some (hdr t v ++ r).
Proof.
  unfold lpSetNumElements, hdr. rewrite le_store_bytes, <- !app_assoc.
  by apply wr_bytes_at; rewrite ?zlen_le_bytes.
Qed.

Lemma set_total t n r v : lpSetTotalBytes (hdr t n ++ r) v = Some (hdr v n ++ r).
Proof.
  unfold lpSetTotalBytes, hdr. rewrite le_store_bytes, <- !app_assoc.
  by apply (wr_bytes_at []); rewrite ?zlen_le_bytes.
Qed.

Lemma get_num t n r : 0 <= n < 2 ^ 16 -> lpGetNumElements (hdr t n ++ r) = Some n.
Proof.
  intros Hn. unfold lpGetNumElements, rd_or, hdr.
  rewrite <- app_assoc, rd_bytes_at by (by rewrite zlen_le_bytes). cbn [mbind option_bind].
  rewrite le_or_val, le_val_bytes by apply le_bytes_is_byte. f_equal. by apply wrapu_id.
Qed.

Lemma get_total t n r : 0 <= t < 2 ^ 32 -> lpGetTotalBytes (hdr t n ++ r) = Some t.
Proof.
  intros Ht. unfold lpGetTotalBytes, rd_or, hdr.
  rewrite <- app_assoc, rd_bytes_head by (by rewrite zlen_le_bytes). cbn [mbind option_bind].
  rewrite le_or_val, le_val_bytes by apply le_bytes_is_byte. f_equal. by apply wrapu_id.
Qed.

(** *** [lpLength] *)

Section Length.
Context (lp : list Z) (es : list (list Z)) (num : Z) (Hlp : lp_repr lp es num).

Lemma zlen_es_u32 : zlen es < 2 ^ 32.
Proof.
  pose proof (pos_mono lp es num Hlp 0 (length es) ltac:(lia) ltac:(lia)) as H.
  rewrite pos_0, pos_all in H by lia. destruct Hlp as (_ & Ht & _).
  unfold zlen, LP_HDR_SIZE in *. lia.
Qed.

Lemma length_loop fuel : forall i count,
  (length es - i <= fuel)%nat -> 0 <= count -> count + Z.of_nat (length es - i) < 2 ^ 32 ->
  lpLength_loop fuel lp (ptr es i) count = Some (count + Z.of_nat (length es - i)).
Proof.
  induction fuel as [|fuel IH]; intros i count Hf Hc Hb.
  - rewrite ptr_ge by lia. cbn. f_equal. lia.
  - destruct (decide (i < length es)%nat) as [Hi|Hi].
    + rewrite ptr_lt by done. cbn [lpLength_loop]. rewrite (nav_next _ _ _ Hlp) by done.
      cbn [mbind option_bind]. rewrite wrapu_id by lia. rewrite IH by lia. f_equal. lia.
    + rewrite ptr_ge by lia. cbn. f_equal. lia.
Qed.

Lemma nav_length : exists lp' num', lpLength lp = Some (zlen es, lp') /\ lp_repr lp' es num' /\
  zlen lp' = zlen lp.
Proof.
  unfold lpLength. rewrite (repr_num _ _ _ Hlp). cbn [mbind option_bind].
  pose proof Hlp as (Hv & Ht & Hn & slack & Hl).
  destruct (Z.eqb_spec num LP_HDR_NUMELE_UNKNOWN) as [Hk|Hk]; cbn [negb].
  - rewrite (nav_first _ _ _ Hlp). cbn [mbind option_bind].
    pose proof (length_le_lp _ _ _ Hlp). pose proof zlen_es_u32 as Hz. unfold zlen in Hz.
    rewrite length_loop by lia. cbn [mbind option_bind]. rewrite Nat.sub_0_r, Z.add_0_l.
    fold (zlen es). destruct (Z.ltb_spec (zlen es) LP_HDR_NUMELE_UNKNOWN) as [Hlt|].
    + rewrite Hl, set_num. cbn [mbind option_bind]. do 2 eexists. split; [done|].
      split; [|by rewrite !zlen_app, !zlen_hdr]. split; [done|]. split; [done|]. split; [by left|].
      by exists slack.
    + cbn [mbind option_bind]. by exists lp, num.
  - destruct Hn as [[Hn _]|?]; [|done]. rewrite Hn in *. by exists lp, num; rewrite Hn.
Qed.
End Length.

(** ** Searching *)

(** The first element from position [i] on whose text is [s], testing one
    element and skipping [skip]; [k] elements are still to be skipped. *)
Fixpoint find_spec (s : list Z) (skip k : nat) (es : list (list Z)) (i : nat) : option nat :=
  match es with
  | [] => None
  | e :: es =>
      match k with
      | O => if bool_decide (entry_text e = Some s) then Some i else find_spec s skip skip es (S i)
      | S k => find_spec s skip k es (S i)
      end
  end.

(** What [lpFindArg] has cached so far. *)
Definition arg_ok (s : list Z) (arg : lpFindArg) : Prop :=
  fa_s arg = s /\
  (vencoding arg = 0 \/ vencoding arg = 1 /\ string2ll s = Some (vll arg) \/
   vencoding arg = UCHAR_MAX /\ string2ll s = None).

Lemma lpFindCmp_ok s arg a e c v :
  arg_ok s arg -> valid_entry e -> lpGet e 0 = Some v ->
  exists arg', lpFindCmp (a ++ e ++ c) (zlen a) arg (lpval_shift (zlen a) v) =
    Some (if bool_decide (entry_text e = Some s) then 0 else 1, arg') /\ arg_ok s arg'.
Proof.
  intros [<- Harg] He Hv. destruct (valid_entry_get e He) as (v' & Hv' & Hok).
  assert (v' = v) as -> by congruence. clear Hv'.
  unfold entry_text. rewrite Hv. cbn [mbind option_bind]. destruct v as [off len|ll]; cbn [lpval_shift].
  - destruct Hok as (t & Ht & _). cbn [lpFindCmp]. pose proof Ht as (_ & Hl & _)%rd_bytes_inv.
    rewrite Ht. destruct (Z.eqb_spec len (zlen (fa_s arg))).
    + rewrite (rd_bytes_embed a e c _ _ _ Ht). cbn [mbind option_bind]. exists arg.
      split; [|done]. do 2 f_equal. repeat case_bool_decide; congruence.
    + exists arg. rewrite bool_decide_false by (intros [= ->]; lia). done.
  - cbn [lpFindCmp]. set (arg' := if vencoding arg =? 0 then _ else arg).
    assert (Harg' : fa_s arg' = fa_s arg /\
      (vencoding arg' = 1 /\ string2ll (fa_s arg) = Some (vll arg') \/
       vencoding arg' = UCHAR_MAX /\ string2ll (fa_s arg) = None)).
    { unfold arg'. destruct (Z.eqb_spec (vencoding arg) 0) as [E|E].
      - destruct (_ || _) eqn:Hlen; cbn.
        + split; [done|]. right. split; [done|]. unfold string2ll.
          apply orb_true_iff in Hlen as [Hlen|Hlen].
          * rewrite Z.geb_leb in *. rewrite (proj2 (Z.leb_le LONG_STR_SIZE _)) by (unfold LONG_STR_SIZE; lia).
            by rewrite orb_true_r.
          * by rewrite Hlen.
        + unfold lpStringToInt64. destruct (string2ll (fa_s arg)) eqn:Es; cbn; split; auto.
      - split; [done|]. destruct Harg as [?|[?|?]]; [done|by left|by right]. }
    destruct Harg' as [Hs' Henc]. clearbody arg'. exists arg'.
    assert (Heq : (negb (vencoding arg' =? UCHAR_MAX) && (ll =? vll arg')) =
      bool_decide (Some (ll_text ll) = Some (fa_s arg))).
    { destruct Henc as [[-> E]|[-> E]].
      - cbn [negb andb]. rewrite (eq_refl : (1 =? UCHAR_MAX) = false). cbn [negb andb].
        apply string2ll_iff in E as [Hr ->].
        destruct (Z.eqb_spec ll (vll arg')) as [->|Hne]; [by rewrite bool_decide_true|].
        rewrite bool_decide_false; [done|]. intros [= Heq].
        assert (string2ll (ll_text ll) = Some ll) as E1 by (by apply string2ll_iff).
        assert (string2ll (ll_text (vll arg')) = Some (vll arg')) as E2 by (by apply string2ll_iff).
        rewrite Heq in E1. congruence.
      - rewrite Z.eqb_refl. cbn [negb andb]. rewrite bool_decide_false; [done|].
        intros [= Heq]. assert (string2ll (ll_text ll) = Some ll) as E1 by (by apply string2ll_iff).
        rewrite Heq in E1. congruence. }
    rewrite Heq. split; [by case_bool_decide|].
    split; [congruence|]. right. destruct Henc as [?|?]; [left|right]; done.
Qed.

Section Find.
Context (lp : list Z) (es : list (list Z)) (num : Z) (Hlp : lp_repr lp es num).
Context (s : list Z) (skip : Z) (Hskip : 0 <= skip).

(** The end of an iteration of the search: step to element [i]. *)
Lemma find_continue fuel i entry_size skipcnt arg :
  (i <= length es)%nat ->
  (_ ← (if pos es i + 8 >=? total_bytes es then lpAssertValidEntry lp (total_bytes es) (pos es i)
        else cassert ((LP_HDR_SIZE <=? pos es i) && (pos es i <? total_bytes es)));
   b ← rd lp (pos es i);
   if b =? LP_EOF then Some (None, arg)
   else lpFind_loop lpFindCmp skip lp (total_bytes es) fuel (pos es i) entry_size skipcnt arg) =
  if decide (i < length es)%nat
  then lpFind_loop lpFindCmp skip lp (total_bytes es) fuel (pos es i) entry_size skipcnt arg
  else Some (None, arg).
Proof.
  intros Hi. rewrite (nav_assert _ _ _ Hlp). pose proof (pos_ge es i).
  pose proof (pos_le_total _ _ _ Hlp i).
  rewrite (proj2 (Z.leb_le _ _)), (proj2 (Z.ltb_lt _ _)) by lia. cbn [andb cassert].
  destruct (_ >=? _); cbn [mbind option_bind]; case_decide as Hd.
  all: try (destruct (nav_head _ _ _ Hlp i Hd) as (b & -> & _ & Hne); cbn [mbind option_bind];
            by rewrite Hne).
  all: rewrite (nav_eof _ _ _ Hlp) by lia; cbn [mbind option_bind]; by rewrite Z.eqb_refl.
Qed.

Lemma find_loop fuel : forall i k entry_size arg,
  (i < length es)%nat -> (length es - i < fuel)%nat -> arg_ok s arg ->
  exists arg', lpFind_loop lpFindCmp skip lp (total_bytes es) fuel (pos es i) entry_size (Z.of_nat k) arg
    = Some (pos es <$> find_spec s (Z.to_nat skip) k (drop i es) i, arg').
Proof.
  induction fuel as [|fuel IH]; intros i k entry_size arg Hi Hf Harg; [lia|].
  cbn [lpFind_loop]. apply lookup_lt_is_Some in Hi as [e Hi]. pose proof (lookup_lt_Some _ _ _ Hi) as Hlt.
  rewrite (drop_S _ _ _ Hi).
  pose proof (repr_valid _ _ _ Hlp _ _ Hi) as Hv.
  assert (Hnext : forall sz k arg, arg_ok s arg -> exists arg',
    (if decide (S i < length es)%nat
     then lpFind_loop lpFindCmp skip lp (total_bytes es) fuel (pos es (S i)) sz (Z.of_nat k) arg
     else Some (None, arg)) = Some (pos es <$> find_spec s (Z.to_nat skip) k (drop (S i) es) (S i), arg')).
  { intros sz k' arg' Ha. case_decide; [apply IH; [done|lia|done]|].
    exists arg'. rewrite drop_ge by lia. by destruct k'. }
  destruct k as [|k].
  - rewrite (eq_refl : (Z.of_nat 0 =? 0) = true). cbn [find_spec].
    destruct (repr_at _ _ _ Hlp i e Hi) as (a & c & Hl & Ha).
    destruct (valid_entry_get e Hv) as (v & Hget & _).
    pose proof (valid_entry_getWithSize e v Hv Hget) as Hws.
    assert (Hl' : lp = a ++ e ++ (lpEncodeBacklen (zlen e) ++ c)) by (rewrite Hl; unfold ent; by rewrite <- !app_assoc).
    apply (lpGetWithSize_embed a e (lpEncodeBacklen (zlen e) ++ c)) in Hws. rewrite <- Hl', Ha in Hws.
    rewrite Hws. cbn [mbind option_bind default from_option]. cbv beta zeta.
    unfold id. rewrite <- zlen_ent, <- (pos_S _ _ _ Hi).
    destruct (lpFindCmp_ok s arg a e (lpEncodeBacklen (zlen e) ++ c) v Harg Hv Hget) as (arg' & Hcmp & Ha').
    rewrite <- Hl', Ha in Hcmp.
    assert (Hin : pos es (S i) < total_bytes es) by (pose proof (pos_le_total _ _ _ Hlp (S i)); lia).
    replace (match lpval_shift (pos es i) v with
      | LStr _ _ => cassert ((LP_HDR_SIZE <=? pos es i) && (pos es (S i) <? total_bytes es))
      | LInt _ => Some () end) with (Some ()).
    2:{ pose proof (pos_ge es i). rewrite (proj2 (Z.leb_le _ _)), (proj2 (Z.ltb_lt _ _)) by lia.
        by destruct v. }
    cbn [mbind option_bind]. rewrite Hcmp. cbn [mbind option_bind].
    case_bool_decide; [by eexists|]. rewrite (eq_refl : (1 =? 0) = false).
    rewrite find_continue by lia.
    destruct (Hnext (zlen (ent e)) (Z.to_nat skip) arg' Ha') as (x & Hx).
    rewrite Z2Nat.id in Hx by lia. by exists x.
  - rewrite (proj2 (Z.eqb_neq _ 0)) by lia. rewrite (nav_skip _ _ _ Hlp _ _ Hi). cbn [mbind option_bind].
    rewrite find_continue by lia. replace (Z.of_nat (S k) - 1) with (Z.of_nat k) by lia.
    cbn [find_spec]. by apply Hnext.
Qed.

Lemma nav_find i :
  (i < length es)%nat ->
  lpFind lp (Some (pos es i)) s skip =
  Some (pos es <$> find_spec s (Z.to_nat skip) 0 (drop i es) i).
Proof.
  intros Hi. unfold lpFind, lpFindCbInternal, lpBytes. rewrite (repr_total _ _ _ Hlp).
  cbn [mbind option_bind]. pose proof (length_le_lp _ _ _ Hlp).
  destruct (find_loop (S (length lp)) i 0 123456789 {| fa_s := s; vencoding := 0; vll := 0 |})
    as (arg' & Hf); [done|lia|split; [done|by left]|].
  change (Z.of_nat 0) with 0 in Hf. by rewrite Hf.
Qed.

Lemma nav_find_null :
  lpFind lp None s skip = Some (pos es <$> find_spec s (Z.to_nat skip) 0 es 0).
Proof.
  destruct (decide (0 < length es)%nat) as [Hlt|Hge].
  - rewrite <- (drop_0 es) at 2. rewrite <- (nav_find 0 Hlt).
    unfold lpFind, lpFindCbInternal. by rewrite (nav_first _ _ _ Hlp), ptr_lt.
  - unfold lpFind, lpFindCbInternal, lpBytes. rewrite (repr_total _ _ _ Hlp), (nav_first _ _ _ Hlp).
    cbn [mbind option_bind]. rewrite ptr_ge by lia. by destruct es; [|cbn in *; lia].
Qed.
End Find.

(** ** A concrete block *)

(** A listpack of "hi" and 5. *)
Definition sample_lp : list Z := hdr 13 2 ++ body [[130; 104; 105]; [5]] ++ [LP_EOF].

Lemma sample_entries_valid : Forall valid_entry [[130; 104; 105]; [5]].
Proof. repeat (constructor; try done; try lia); by vm_compute. Qed.

Lemma sample_repr : lp_repr sample_lp [[130; 104; 105]; [5]] 2.
Proof.
  split; [apply sample_entries_valid|]. split; [by vm_compute|]. split; [left; by vm_compute|].
  by exists [].
Qed.

Lemma sample_bytes : Forall is_byte sample_lp.
Proof. repeat constructor; by vm_compute. Qed.
