(* ===== verification/ListpackValid.v ===== *)
(** * Listpacks: validation of untrusted bytes

    [lpValidateIntegrity] is given arbitrary bytes (a RESTORE payload, an RDB
    file).  This file proves that it never reads outside of them and that what
    it accepts can be traversed and decoded; and that it accepts every block the
    library builds. *)

From stdpp Require Import base list numbers option tactics.
From S2P Require Import Prelude Util ListpackEnc Listpack ListpackNav.

(** ** Backlen of arbitrary bytes *)

Lemma land_lor_shift a b n : 7 <= n -> Z.land (Z.lor a (Z.shiftl b n)) 127 = Z.land a 127.
Proof.
  intros Hn. rewrite Z.land_lor_distr_l. replace (Z.land (Z.shiftl b n) 127) with 0.
  - apply Z.lor_0_r.
  - change 127 with (2 ^ 7 - 1). rewrite land_ones, Z.shiftl_mul_pow2 by lia.
    replace n with ((n - 7) + 7) by lia. rewrite Z.pow_add_r, Z.mul_assoc by lia.
    symmetry. apply Z_mod_mult.
Qed.

Lemma land_127_idem x : Z.land (Z.land x 127) 127 = Z.land x 127.
Proof. by rewrite <- Z.land_assoc. Qed.

(** The decoder reads at most five bytes, and its result keeps the low 7 bits of
    the last one unless it is the error value. *)
Lemma lpDecodeBacklen_total lp p :
  4 <= p < zlen lp ->
  exists b v, rd lp p = Some b /\ lpDecodeBacklen lp p = Some v /\
    (v = UINT64_MAX \/ Z.land v 127 = Z.land b 127).
Proof.
  intros Hp. unfold lpDecodeBacklen.
  destruct (rd_Some lp p) as [b0 ->]; [lia|]. destruct (rd_Some lp (p - 1)) as [b1 ->]; [lia|].
  destruct (rd_Some lp (p - 2)) as [b2 ->]; [lia|]. destruct (rd_Some lp (p - 3)) as [b3 ->]; [lia|].
  destruct (rd_Some lp (p - 4)) as [b4 ->]; [lia|]. exists b0. cbn [mbind option_bind].
  repeat case_match; eexists; (split; [done|]); (split; [done|]);
    rewrite ?land_lor_shift, ?land_127_idem by lia; auto.
Qed.

(** ** One validated entry *)

(** The size of an entry only depends on its own bytes. *)
Lemma size_restrict a e c b :
  Forall is_byte (a ++ e ++ c) -> rd (a ++ e ++ c) (zlen a) = Some b ->
  lpCurrentEncodedSizeUnsafe (a ++ e ++ c) (zlen a) = Some (zlen e) -> 0 < zlen e ->
  (b = LP_ENCODING_32BIT_STR -> 5 <= zlen e) -> lpCurrentEncodedSizeUnsafe e 0 = Some (zlen e).
Proof.
  intros Hf Hb Hs Hpos H5. pose proof (rd_byte _ _ _ Hf Hb) as Hbb.
  assert (He0 : rd e 0 = Some b).
  { rewrite <- (Z.add_0_r (zlen a)), rd_app_off, rd_app_l in Hb by lia. done. }
  revert Hs. unfold lpCurrentEncodedSizeUnsafe, LP_ENCODING_6BIT_STR_LEN, LP_ENCODING_12BIT_STR_LEN,
    LP_ENCODING_32BIT_STR_LEN. rewrite Hb, He0. cbn [mbind option_bind]. rewrite Z.add_0_l.
  repeat case_match; try done.
  - destruct (rd (a ++ e ++ c) (zlen a + 1)) as [b1|] eqn:E1; [|done]. cbn [mbind option_bind].
    intros [= Hs].
    assert (2 <= zlen e).
    { assert (0 <= Z.lor (Z.shiftl (Z.land b 15) 8) b1); [|lia]. apply Z.lor_nonneg. split.
      - apply Z.shiftl_nonneg, Z.land_nonneg. lia.
      - by apply (rd_byte _ _ _ Hf) in E1 as []. }
    rewrite rd_app_off, rd_app_l in E1 by lia. rewrite E1. cbn [mbind option_bind]. by rewrite Hs.
  - assert (b = LP_ENCODING_32BIT_STR) as ->.
    { unfold LP_ENCODING_IS_32BIT_STR in *. rewrite land_byte in * by done. by apply Z.eqb_eq. }
    specialize (H5 eq_refl).
    assert (Hr : rd_or (a ++ e ++ c) (zlen a + 1) 4 = rd_or e 1 4).
    { destruct (rd_or_Some e 1 4) as [v Hv]; [lia..|]. rewrite Hv. by apply rd_or_embed. }
    by rewrite Hr.
Qed.

(** A 32-bit string length that makes the 32-bit size wrap. *)
Lemma wrapped_backlen lp p k v :
  Forall is_byte lp -> rd lp p = Some LP_ENCODING_32BIT_STR ->
  rd_or lp (p + 1) 4 = Some (2 ^ 32 - 5 + k) -> 0 <= k < 5 -> 4 <= p ->
  lpDecodeBacklen lp (p + k) = Some v -> u64 (v + 1) <> k + 1.
Proof.
  intros Hf Hp Hlen Hk H4 Hv. unfold rd_or in Hlen.
  apply bind_Some in Hlen as (bs & Hbs & [= Hbytes]). pose proof Hbs as (_ & Hl & _ & Hi)%rd_bytes_inv.
  assert (Hfb : Forall is_byte bs).
  { unfold rd_bytes in Hbs. destruct (_ && _) in Hbs; [|done]. injection Hbs as <-.
    by apply Forall_take, Forall_drop. }
  rewrite le_or_val in Hbytes by done.
  assert (Hbs' : bs = le_bytes 4 (2 ^ 32 - 5 + k)).
  { rewrite <- Hbytes. replace 4%nat with (length bs) by (unfold zlen in Hl; lia).
    symmetry. by apply le_bytes_val. }
  assert (Hin : 4 <= p + k < zlen lp).
  { split; [lia|]. apply bind_Some in Hv. destruct Hv as (b0 & Hb0 & _).
    apply rd_Some_inv in Hb0. lia. }
  destruct (lpDecodeBacklen_total lp (p + k) Hin) as (b & v' & Hb & Hv' & Hlow).
  assert (v' = v) as -> by congruence.
  assert (Hb' : Z.land b 127 <> k).
  { intros <-. assert (Z.land b 127 = 0 \/ Z.land b 127 = 1 \/ Z.land b 127 = 2 \/
      Z.land b 127 = 3 \/ Z.land b 127 = 4) as Hc by lia.
    set (k := Z.land b 127) in *.
    destruct (decide (k = 0)) as [E|E].
    { rewrite E, Z.add_0_r in Hb. assert (b = LP_ENCODING_32BIT_STR) as -> by congruence. by vm_compute in E. }
    assert (Hbk : rd bs (k - 1) = Some b).
    { rewrite Hi by lia. rewrite <- Hb. f_equal. lia. }
    rewrite Hbs' in Hbk.
    destruct Hc as [?|[Hc|[Hc|[Hc|Hc]]]]; [done|..]; unfold k in Hbk, Hc; rewrite Hc in Hbk;
      injection Hbk as <-; by vm_compute in Hc. }
  destruct Hlow as [->|Hlow].
  - unfold UINT64_MAX. by replace (u64 (18446744073709551615 + 1)) with 0 by (by vm_compute); lia.
  - intros Hu. apply Hb'. rewrite <- Hlow. change 127 with (2 ^ 7 - 1). rewrite land_ones by lia.
    change (2 ^ 7) with 128. unfold wrapu in Hu.
    pose proof (Z.div_mod (v + 1) (2 ^ 64) ltac:(lia)) as Hdm. rewrite Hu in Hdm.
    replace v with (k + (2 ^ 57 * ((v + 1) / 2 ^ 64)) * 128) by lia.
    rewrite Z_mod_plus_full. apply Z.mod_small. lia.
Qed.

(** The number of bytes that hold an entry's length is enough to compute it. *)
Lemma size_total lp p b :
  Forall is_byte lp -> 0 <= p -> rd lp p = Some b -> b <> LP_EOF ->
  lpCurrentEncodedSizeBytes b <> 0 -> p + lpCurrentEncodedSizeBytes b < zlen lp ->
  exists n, lpCurrentEncodedSizeUnsafe lp p = Some n /\ 0 <= n < 2 ^ 32 /\
    (0 < n \/ b = LP_ENCODING_32BIT_STR) /\
    (b = LP_ENCODING_32BIT_STR -> 5 <= n \/
       exists k, 0 <= k < 5 /\ n = k /\ rd_or lp (p + 1) 4 = Some (2 ^ 32 - 5 + k)).
Proof.
  intros Hf Hp Hb Hne Hz Hl. pose proof (rd_byte _ _ _ Hf Hb) as Hbb.
  revert Hz Hl. unfold lpCurrentEncodedSizeBytes, lpCurrentEncodedSizeUnsafe, LP_ENCODING_6BIT_STR_LEN,
    LP_ENCODING_12BIT_STR_LEN, LP_ENCODING_32BIT_STR_LEN. rewrite Hb. cbn [mbind option_bind].
  rewrite_tags Hbb. unfold LP_EOF in Hne.
  destruct (Z.ltb_spec b 128); [intros; eexists; repeat split; try done; lia|].
  destruct (Z.leb_spec 128 b); [|lia]. destruct (Z.ltb_spec b 192); cbn [andb].
  { intros _ _. change 63 with (2 ^ 6 - 1). rewrite land_ones by lia.
    pose proof (Z.mod_pos_bound b (2 ^ 6) ltac:(lia)). eexists. repeat split; [lia|lia|left; lia|lia]. }
  destruct (Z.leb_spec 192 b); [|lia]. destruct (Z.ltb_spec b 224); cbn [andb];
    [intros; eexists; repeat split; try done; lia|].
  destruct (Z.eqb_spec b 241); [intros; eexists; repeat split; try done; lia|].
  destruct (Z.eqb_spec b 242); [intros; eexists; repeat split; try done; lia|].
  destruct (Z.eqb_spec b 243); [intros; eexists; repeat split; try done; lia|].
  destruct (Z.eqb_spec b 244); [intros; eexists; repeat split; try done; lia|].
  destruct (Z.leb_spec 224 b); [|lia]. destruct (Z.ltb_spec b 240); cbn [andb].
  { intros _ Hl. destruct (rd_Some lp (p + 1)) as [b1 Hb1]; [lia|]. rewrite Hb1. cbn [mbind option_bind].
    pose proof (rd_byte _ _ _ Hf Hb1) as Hbb1. unfold is_byte in Hbb1.
    change 15 with (2 ^ 4 - 1). rewrite land_ones by lia.
    pose proof (Z.mod_pos_bound b (2 ^ 4) ltac:(lia)).
    rewrite Z.lor_comm, lor_shiftl_add by lia. eexists. repeat split; [lia|lia|left; lia|lia]. }
  destruct (Z.eqb_spec b 240) as [->|].
  { intros _ Hl. destruct (rd_or_Some lp (p + 1) 4) as [m Hn]; [lia..|]. rewrite Hn. cbn [mbind option_bind].
    apply rd_or_bound in Hn as Hr; [|done]. change (2 ^ (8 * 4)) with (2 ^ 32) in Hr.
    pose proof (wrapu_range 32 (5 + m) ltac:(lia)). eexists. split; [done|]. split; [done|].
    split; [by right|]. intros _. destruct (decide (5 + m < 2 ^ 32)).
    - left. rewrite wrapu_id by lia. lia.
    - right. exists (5 + m - 2 ^ 32). split; [lia|]. split.
      + unfold wrapu. symmetry. apply (Z.mod_unique_pos _ _ 1); lia.
      + f_equal. lia. }
  rewrite (proj2 (Z.eqb_neq b 255)) by lia. done.
Qed.

Definition entry_at (lp : list Z) (p q : Z) (e : list Z) : Prop :=
  exists a k c, lp = a ++ (e ++ k) ++ c /\ zlen a = p /\ valid_entry e /\
    zlen k = lpEncodeBacklenBytes (zlen e) /\ q = p + zlen e + zlen k /\ q < zlen lp.

(** Whatever the bytes, [lpValidateNext] does not read outside of them, and an
    entry it steps over is well formed and inside of them. *)
Lemma validateNext_spec lp p :
  Forall is_byte lp ->
  exists r, lpValidateNext lp (Some p) (zlen lp) = Some r /\
    match r with
    | Some (Some q) => LP_HDR_SIZE <= p /\ exists e, entry_at lp p q e
    | Some None => rd lp p = Some LP_EOF
    | None => True
    end.
Proof.
  intros Hf. unfold lpValidateNext.
  assert (Hout : forall q, (q <? LP_HDR_SIZE) || (q >? zlen lp - 1) = false -> LP_HDR_SIZE <= q < zlen lp).
  { intros q. rewrite Z.gtb_ltb. intros [?%Z.ltb_ge ?%Z.ltb_ge]%orb_false_iff. lia. }
  cbv beta zeta. destruct (_ || _) eqn:Ep; [eexists; by split|]. apply Hout in Ep. unfold LP_HDR_SIZE in *.
  destruct (rd_Some lp p) as [b Hb]; [lia|]. rewrite Hb. cbn [mbind option_bind].
  destruct (Z.eqb_spec b LP_EOF) as [->|Hne]; [eexists; by split|].
  destruct (Z.eqb_spec (lpCurrentEncodedSizeBytes b) 0) as [|Hz]; [eexists; by split|].
  destruct (_ || _) eqn:El; [eexists; by split|]. apply Hout in El.
  destruct (size_total lp p b) as (n & Hn & Hnr & Hpos & H32); [done|lia|done..|lia|].
  rewrite Hn. cbn [mbind option_bind]. pose proof (lpEncodeBacklenBytes_pos n) as Hk.
  destruct (_ || _) eqn:Ee; [eexists; by split|]. apply Hout in Ee.
  destruct (lpDecodeBacklen_total lp (p + (n + lpEncodeBacklenBytes n) - 1)) as (b' & v & _ & Hv & _); [lia|].
  rewrite Hv. cbn [mbind option_bind].
  destruct (Z.eqb_spec (u64 (v + lpEncodeBacklenBytes n)) (n + lpEncodeBacklenBytes n)) as [Hok|];
    cbn [negb]; [|eexists; by split].
  assert (Hn5 : b = LP_ENCODING_32BIT_STR -> 5 <= n).
  { intros ->. destruct (H32 eq_refl) as [?|(k & Hk5 & -> & Hk32)]; [done|].
    exfalso.
    assert (Hk1 : lpEncodeBacklenBytes k = 1).
    { unfold lpEncodeBacklenBytes. by rewrite (proj2 (Z.leb_le k 127)) by lia. }
    rewrite Hk1 in *. replace (p + (k + 1) - 1) with (p + k) in Hv by lia.
    by eapply wrapped_backlen in Hv; [|done..|lia]. }
  assert (Hn0 : 0 < n) by (destruct Hpos as [?|Hq]; [done|specialize (Hn5 Hq); lia]).
  eexists. split; [done|]. cbn. split; [lia|].
  destruct (split3 lp p n) as (a & e & c & Hlp & Ha & He); [lia..|].
  destruct (split3 c 0 (lpEncodeBacklenBytes n)) as (c0 & k & c' & Hc & Hc0 & Hkl); [lia..| |].
  { rewrite Hlp in Ee. rewrite !zlen_app in Ee. lia. }
  apply zlen_0_nil in Hc0 as ->. exists e, a, k, c'.
  split; [rewrite Hlp, Hc; by rewrite <- !app_assoc|]. split; [done|]. rewrite He.
  split; [|repeat split; lia].
  assert (Hfe : Forall is_byte e) by (rewrite Hlp in Hf; apply list.Forall_app in Hf as [_ Hf]; by apply list.Forall_app in Hf as [? _]).
  split; [done|]. split.
  - intros He0. rewrite Hlp in Hb. subst p. apply Hne.
    rewrite <- (Z.add_0_r (zlen a)), rd_app_off, rd_app_l, rd_lookup in Hb by lia.
    change (Z.to_nat 0) with 0%nat in Hb. rewrite He0 in Hb. by injection Hb.
  - split; [lia|]. subst n p. rewrite Hlp in Hf, Hb, Hn. by apply (size_restrict a e c b).
Qed.

Lemma entry_at_size lp p q e :
  entry_at lp p q e -> lpCurrentEncodedSizeUnsafe lp p = Some (zlen e) /\ lpSkip lp p = Some q.
Proof.
  intros (a & k & c & -> & <- & He & Hk & -> & _).
  assert (Hs : lpCurrentEncodedSizeUnsafe (a ++ (e ++ k) ++ c) (zlen a) = Some (zlen e)).
  { rewrite <- app_assoc. apply lpCurrentEncodedSize_embed. apply He. }
  split; [done|]. unfold lpSkip. rewrite Hs. cbn. f_equal. lia.
Qed.

(** A validated entry can be decoded, and its text lies inside of the block. *)
Lemma entry_at_get lp p q e :
  entry_at lp p q e -> exists v, lpGet lp p = Some v /\
    match v with LStr off len => exists t, rd_bytes lp off len = Some t | LInt v => is_s 64 v end.
Proof.
  intros (a & k & c & -> & <- & He & _). rewrite <- app_assoc.
  destruct (valid_entry_get e He) as (v & Hv & Hok).
  exists (lpval_shift (zlen a) v). split; [by apply lpGetWithBuf_embed|].
  destruct v as [off len|v]; cbn [lpval_shift]; [|done]. destruct Hok as (t & Ht & _). exists t.
  by apply rd_bytes_embed.
Qed.

(** ** The whole block *)

(** A traversal with [lpNext]: the offsets of the entries it visits. *)
Fixpoint lp_walk (fuel : nat) (lp : list Z) (p : option Z) : option (list Z) :=
  match p with
  | None => Some []
  | Some p =>
      match fuel with
      | O => None
      | S fuel => q ← lpNext lp p; ps ← lp_walk fuel lp q; Some (p :: ps)
      end
  end.

Section Valid.
Context (lp : list Z) (Hf : Forall is_byte lp) (cb : option (Z -> Z -> bool)) (numele : Z).

(** What a caller's callback has accepted. *)
Definition cb_ok (p : Z) : Prop := match cb with Some f => f p numele = true | None => True end.

Definition decodable (p : Z) : Prop := exists v, lpGet lp p = Some v /\
  match v with LStr off len => exists t, rd_bytes lp off len = Some t | LInt v => is_s 64 v end.

(** [entries_from p ps q]: the validated entries [ps] follow each other from
    offset [p] to offset [q]. *)
Inductive entries_from : Z -> list Z -> Z -> Prop :=
  | ef_nil p : entries_from p [] p
  | ef_cons p p' e ps q :
      rd lp p <> Some LP_EOF -> cb_ok p ->
      lpValidateNext lp (Some p) (zlen lp) = Some (Some (Some p')) -> entry_at lp p p' e ->
      entries_from p' ps q -> entries_from p (p :: ps) q.

(** The loop terminates; if it stops on a terminator, it went over a sequence
    of well-formed entries. *)
Lemma validate_loop fuel : forall p count,
  LP_HDR_SIZE <= p < zlen lp -> zlen lp - p <= Z.of_nat fuel ->
  exists r, lpValidateIntegrity_loop fuel cb lp (zlen lp) numele (Some p) count = Some r /\
    match r with
    | None => True
    | Some (q, count') => exists p' ps, q = Some p' /\ rd lp p' = Some LP_EOF /\
        count' = foldl (fun c _ => u32 (c + 1)) count ps /\ (length ps < fuel)%nat /\
        entries_from p ps p'
    end.
Proof.
  induction fuel as [|fuel IH]; intros p count Hp Hfuel; [lia|].
  destruct (rd_Some lp p) as [b Hb]; [unfold LP_HDR_SIZE in *; lia|].
  cbn [lpValidateIntegrity_loop]. rewrite Hb. cbn [mbind option_bind].
  destruct (Z.eqb_spec b LP_EOF) as [->|Hne].
  { eexists. split; [done|]. exists p, []. repeat split; [done|cbn; lia|constructor]. }
  destruct (validateNext_spec lp p Hf) as (r & Hr & Hrs). rewrite Hr. cbn [mbind option_bind].
  destruct r as [[q|]|]; [|congruence|by eexists].
  destruct Hrs as (_ & e & He). pose proof He as (a & k & c & _ & Ha & Hv & Hk & Hq & Hql).
  assert (0 < zlen e) by apply Hv. pose proof (lpEncodeBacklenBytes_pos (zlen e)).
  destruct (match cb with Some cb => _ | None => _ end) eqn:Ecb; [by eexists|].
  destruct (IH q (u32 (count + 1))) as (r & Hloop & Hr'); [lia..|].
  exists r. split; [done|]. destruct r as [[q' count']|]; [|done].
  destruct Hr' as (p' & ps & -> & Hp' & -> & Hlen & Hall).
  exists p', (p :: ps). do 3 (split; [done|]). split; [cbn; lia|].
  econstructor; [congruence| |done..].
  unfold cb_ok. destruct cb; [by apply negb_false_iff|done].
Qed.

(** Such a sequence is what a traversal with [lpNext] visits. *)
Lemma entries_walk p ps q fuel :
  entries_from p ps q -> lpGetTotalBytes lp = Some (zlen lp) -> rd lp q = Some LP_EOF ->
  (length ps <= fuel)%nat -> ps <> [] ->
  lp_walk fuel lp (Some p) = Some ps /\ Forall (fun p => cb_ok p /\ decodable p) ps.
Proof.
  intros H Ht Hq. revert fuel. induction H as [p|p p' e ps q Hne Hcb Hval He Hch IH]; intros fuel Hfuel Hps; [done|].
  destruct fuel as [|fuel]; [cbn in Hfuel; lia|]. cbn in Hfuel.
  assert (Hd : cb_ok p /\ decodable p) by (split; [done|by eapply entry_at_get]).
  cbn [lp_walk]. unfold lpNext. destruct (entry_at_size _ _ _ _ He) as [_ ->]. cbn [mbind option_bind].
  destruct Hch as [p'|p' p'' e' ps q Hne' Hcb' Hval' He' Hch].
  - rewrite Hq. cbn [mbind option_bind]. rewrite Z.eqb_refl. split; [by destruct fuel|constructor; [done|constructor]].
  - destruct (IH Hq fuel ltac:(lia) ltac:(done)) as [Hw Hall].
    pose proof He' as (a & k & c & Hl & Ha & Hv & _).
    destruct (rd lp p') as [b|] eqn:Eb.
    2:{ destruct (valid_entry_head e' Hv) as (b & ? & -> & _). rewrite Hl, <- Ha in Eb.
        cbn in Eb. by rewrite rd_app_mid in Eb. }
    cbn [mbind option_bind]. rewrite (proj2 (Z.eqb_neq b LP_EOF)) by congruence.
    unfold lpBytes, lpAssertValidEntry. rewrite Ht. cbn [mbind option_bind]. rewrite Hval'.
    cbn [mbind option_bind]. rewrite bool_decide_true by (by eexists). cbn [cassert mbind option_bind].
    rewrite Hw. split; [done|by constructor].
Qed.

(** Each entry starts where the one before it ends, from [p] to [q]. *)
Fixpoint chained (p : Z) (ps : list Z) (q : Z) : Prop :=
  match ps with
  | [] => p = q
  | x :: ps => x = p /\ exists p', lpSkip lp p = Some p' /\ p < p' /\ chained p' ps q
  end.

Lemma entries_chained p ps q : entries_from p ps q -> chained p ps q.
Proof.
  induction 1 as [p|p p' e ps q Hne Hcb Hval He Hch IH]; [done|]. split; [done|]. exists p'. split; [by apply (entry_at_size _ _ _ _ He)|]. split; [|done].
  destruct He as (a & k & c & _ & _ & Hv & Hk & -> & _). assert (0 < zlen e) by apply Hv. pose proof (lpEncodeBacklenBytes_pos (zlen e)). lia.
Qed.

Lemma entries_count p ps q count :
  entries_from p ps q -> 0 <= count ->
  count + 2 * zlen ps < 2 ^ 32 -> foldl (fun c _ => u32 (c + 1)) count ps = count + zlen ps.
Proof.
  intros H. revert count. induction H as [|p p' e ps q ???? H IH]; intros count Hc Hb; cbn [foldl].
  - zlia.
  - rewrite zlen_cons in *. pose proof (zlen_nonneg ps). rewrite IH; rewrite wrapu_id by lia; lia.
Qed.

Lemma entries_span p ps q : entries_from p ps q -> p + 2 * zlen ps <= q.
Proof.
  induction 1 as [|p p' e ps q ??? He ? IH]; [zlia|]. rewrite zlen_cons.
  destruct He as (a & k & c & _ & _ & Hv & Hk & -> & _).
  assert (0 < zlen e) by apply Hv. pose proof (lpEncodeBacklenBytes_pos (zlen e)). lia.
Qed.
End Valid.

(** Whatever bytes it is given, [lpValidateIntegrity] terminates and never
    reads outside of the [size] bytes it was told about. *)
Theorem lpValidateIntegrity_safe lp deep cb :
  Forall is_byte lp -> exists r, lpValidateIntegrity lp (zlen lp) deep cb = Some r.
Proof.
  intros Hf. unfold lpValidateIntegrity, LP_HDR_SIZE. destruct (Z.ltb_spec (zlen lp) (6 + 1)); [by eexists|].
  destruct (rd_or_Some lp 0 4) as [t Ht]; [lia..|]. unfold lpGetTotalBytes. rewrite Ht.
  cbn [mbind option_bind]. destruct (Z.eqb_spec t (zlen lp)) as [->|]; cbn [negb]; [|by eexists].
  destruct (rd_Some lp (zlen lp - 1)) as [b ->]; [lia|]. cbn [mbind option_bind].
  destruct (b =? LP_EOF); cbn [negb]; [|by eexists]. destruct deep; cbn [negb]; [|by eexists].
  destruct (rd_or_Some lp 4 2) as [n Hn]; [lia..|]. unfold lpGetNumElements. rewrite Hn.
  cbn [mbind option_bind].
  destruct (validate_loop lp Hf cb n (length lp) 6 0) as (r & -> & _);
    [unfold LP_HDR_SIZE; lia|unfold zlen; lia|].
  cbn [mbind option_bind]. destruct r as [[q c]|]; [|by eexists]. repeat case_match; by eexists.
Qed.

Lemma lpValidateIntegrity_safe_witness :
  exists r, lpValidateIntegrity [255; 0; 255] (zlen [255; 0; 255]) true None = Some r.
Proof. apply (lpValidateIntegrity_safe [255; 0; 255]). repeat constructor; by vm_compute. Defined.

(** C38: A block that passes deep validation can be traversed from its first to
    its last entry with [lpFirst] and [lpNext] without any assertion failing or
    any read outside of the block; the entries met follow each other without a gap
    from the end of the header to the terminator, which is the last byte of the
    block; each of them was accepted by the callback and decodes to an integer or to
    a string that lies inside of the block; and the count of the header is that of
    the entries when it is known. *)
Theorem lpValidateIntegrity_sound lp cb :
  Forall is_byte lp -> zlen lp < 2 ^ 32 ->
  lpValidateIntegrity lp (zlen lp) true cb = Some true ->
  exists num ps, lpGetNumElements lp = Some num /\
    (p ← lpFirst lp; lp_walk (length lp) lp p) = Some ps /\
    chained lp LP_HDR_SIZE ps (zlen lp - 1) /\ rd lp (zlen lp - 1) = Some LP_EOF /\
    Forall (fun p => cb_ok cb num p /\ decodable lp p) ps /\
    (num = LP_HDR_NUMELE_UNKNOWN \/ num = zlen ps).
Proof.
  intros Hf Hl. unfold lpValidateIntegrity, LP_HDR_SIZE. destruct (Z.ltb_spec (zlen lp) (6 + 1)); [done|].
  destruct (lpGetTotalBytes lp) as [t|] eqn:Ht; [|done].
  cbn [mbind option_bind]. destruct (Z.eqb_spec t (zlen lp)) as [->|]; cbn [negb]; [|done].
  destruct (rd lp (zlen lp - 1)) as [b|] eqn:Eb; [|done]. cbn [mbind option_bind].
  destruct (Z.eqb_spec b LP_EOF) as [->|]; cbn [negb]; [|done].
  destruct (lpGetNumElements lp) as [num|] eqn:En; [|done]. cbn [mbind option_bind].
  destruct (validate_loop lp Hf cb num (length lp) 6 0) as (r & -> & Hr);
    [unfold LP_HDR_SIZE; lia|unfold zlen; lia|].
  cbn [mbind option_bind]. destruct r as [[q c]|]; [|done].
  destruct Hr as (p' & ps & -> & _ & -> & Hlen & Hch). case_bool_decide as Hlast; cbn [negb]; [|done].
  injection Hlast as ->. pose proof (entries_span _ _ _ _ _ _ Hch).
  rewrite (entries_count _ _ _ _ _ _ _ Hch), Z.add_0_l by lia. intros Hnum.
  exists num, ps. split; [done|].
  assert (Hn : num = LP_HDR_NUMELE_UNKNOWN \/ num = zlen ps).
  { destruct (Z.eqb_spec num LP_HDR_NUMELE_UNKNOWN); [by left|]. cbn [negb andb] in Hnum.
    destruct (Z.eqb_spec num (zlen ps)); [by right|done]. }
  cut ((p ← lpFirst lp; lp_walk (length lp) lp p) = Some ps /\
    Forall (fun p => cb_ok cb num p /\ decodable lp p) ps); [intros [??]; split_and!; try done; by eapply entries_chained|].
  unfold lpFirst, LP_HDR_SIZE. inversion Hch as [p0 E0 E1 E2|p0 p' e ps' q Hne Hcb Hval He Hch' E0 E1 E2]; subst ps.
  - rewrite E2, Eb. cbn [mbind option_bind]. rewrite Z.eqb_refl. cbn [mbind option_bind].
    split; [by destruct lp|constructor].
  - destruct (rd lp 6) as [b|] eqn:Ep.
    2:{ destruct He as (a & k & c & Hlp & Ha & Hv & _).
        destruct (valid_entry_head e Hv) as (b & ? & -> & _). rewrite Hlp, <- Ha in Ep.
        cbn in Ep. by rewrite rd_app_mid in Ep. }
    cbn [mbind option_bind]. rewrite (proj2 (Z.eqb_neq b LP_EOF)) by congruence.
    unfold lpBytes, lpAssertValidEntry. rewrite Ht. cbn [mbind option_bind]. rewrite Hval.
    cbn [mbind option_bind]. rewrite bool_decide_true by (by eexists). cbn [cassert mbind option_bind].
    eapply entries_walk; [exact Hch|done|done|lia|done].
Qed.

Lemma lpValidateIntegrity_sound_witness :
  exists num ps, lpGetNumElements sample_lp = Some num /\
    (p ← lpFirst sample_lp; lp_walk (length sample_lp) sample_lp p) = Some ps /\
    chained sample_lp LP_HDR_SIZE ps (zlen sample_lp - 1) /\ rd sample_lp (zlen sample_lp - 1) = Some LP_EOF /\
    Forall (fun p => cb_ok None num p /\ decodable sample_lp p) ps /\
    (num = LP_HDR_NUMELE_UNKNOWN \/ num = zlen ps).
Proof.
  apply (lpValidateIntegrity_sound sample_lp None); [apply sample_bytes|by vm_compute|by vm_compute].
Defined.

(** ** Every represented list is accepted *)

Lemma nav_validate lp es num i : lp_repr lp es num -> (i < length es)%nat ->
  lpValidateNext lp (Some (pos es i)) (total_bytes es) = Some (Some (Some (pos es (S i)))).
Proof.
  intros Hlp [e Hi]%lookup_lt_is_Some. destruct (repr_at _ _ _ Hlp i e Hi) as (a & c & Hl & Ha).
  rewrite (pos_S _ _ _ Hi), Hl, <- Ha. apply validate_at; [by eapply repr_valid| |].
  - rewrite Ha. apply pos_ge.
  - rewrite Ha. by apply pos_lt_total.
Qed.

Lemma repr_validate_loop lp es num cb : lp_repr lp es num ->
  (forall i, (i < length es)%nat -> cb_ok cb num (pos es i)) ->
  forall fuel i count, (i <= length es)%nat -> (length es - i <= fuel)%nat ->
  0 <= count -> count + Z.of_nat (length es - i) < 2 ^ 32 ->
  lpValidateIntegrity_loop fuel cb lp (total_bytes es) num (Some (pos es i)) count =
  Some (Some (Some (total_bytes es - 1), count + Z.of_nat (length es - i))).
Proof.
  intros Hlp Hcb. induction fuel as [|fuel IH]; intros i count Hi Hf Hc Hb.
  - assert (i = length es) as -> by lia. cbn [lpValidateIntegrity_loop].
    rewrite (nav_eof _ _ _ Hlp), pos_all by lia. cbn [mbind option_bind]. rewrite Z.eqb_refl.
    do 3 f_equal. lia.
  - cbn [lpValidateIntegrity_loop]. destruct (decide (i < length es)%nat) as [Hlt|Hge].
    + destruct (nav_head _ _ _ Hlp i Hlt) as (b & -> & _ & Hne). cbn [mbind option_bind]. rewrite Hne.
      rewrite (nav_validate _ _ _ _ Hlp) by done. cbn [mbind option_bind].
      assert (match cb with Some cb => negb (cb (pos es i) num) | None => false end = false) as ->.
      { specialize (Hcb i Hlt). unfold cb_ok in Hcb. destruct cb; [by rewrite Hcb|done]. }
      rewrite wrapu_id by lia. rewrite IH by lia. do 3 f_equal. lia.
    + rewrite (nav_eof _ _ _ Hlp), pos_all by lia. cbn [mbind option_bind]. rewrite Z.eqb_refl.
      do 3 f_equal. lia.
Qed.

(** Deep validation accepts every block that represents a list, with any
    callback that accepts its entries: what the library writes it can load. *)
Theorem lpValidateIntegrity_complete lp es num cb :
  lp_repr lp es num -> (forall i, (i < length es)%nat -> cb_ok cb num (pos es i)) ->
  lpValidateIntegrity lp (total_bytes es) true cb = Some true.
Proof.
  intros Hlp Hcb. unfold lpValidateIntegrity. rewrite (repr_total _ _ _ Hlp), (repr_num _ _ _ Hlp).
  pose proof (pos_ge es (length es)) as Hp. rewrite pos_all in Hp by lia.
  rewrite (proj2 (Z.ltb_ge _ _)) by lia. cbn [mbind option_bind]. rewrite Z.eqb_refl. cbn [negb].
  rewrite <- (pos_all es (length es)) at 1 by lia. rewrite (nav_eof _ _ _ Hlp) by lia.
  cbn [mbind option_bind]. rewrite Z.eqb_refl. cbn [negb]. rewrite <- (pos_0 es).
  pose proof (zlen_es_u32 _ _ _ Hlp). pose proof (length_le_lp _ _ _ Hlp). unfold zlen in *.
  rewrite (repr_validate_loop _ _ _ _ Hlp Hcb) by lia. cbn [mbind option_bind].
  rewrite bool_decide_true by done. cbn [negb]. rewrite Nat.sub_0_r, Z.add_0_l.
  destruct Hlp as (_ & _ & Hn & _). destruct Hn as [[-> _]| ->].
  - unfold zlen. by rewrite Z.eqb_refl, andb_false_r.
  - by rewrite Z.eqb_refl.
Qed.

Lemma lpValidateIntegrity_complete_witness :
  lpValidateIntegrity sample_lp (total_bytes [[130; 104; 105]; [5]]) true None = Some true.
Proof. apply (lpValidateIntegrity_complete sample_lp _ 2 None sample_repr). intros; exact I. Defined.

(** The encoded empty string with a backlen byte whose continuation bit is set. *)
Definition noncanonical_lp : list Z := [9; 0; 0; 0; 1; 0; 128; 129; 255].

(** C39: Deep validation accepts an entry whose backlen has its continuation bit
    set when the bytes before it happen to complete it; once an element is
    inserted before that entry the backlen decodes to another value, and
    [lpLast] on the new listpack fails its integrity assertion, which aborts the
    server. *)
Theorem lpValidateIntegrity_backlen_gap :
  lpValidateIntegrity noncanonical_lp (zlen noncanonical_lp) true None = Some true /\
  lpLast noncanonical_lp = Some (Some 6) /\
  exists lp', lpPrepend (fun _ => 0) (fun n => n) noncanonical_lp [120] = Some (Some (lp', Some 6)) /\
    lpLast lp' = None.
Proof.
  split; [by vm_compute|]. split; [by vm_compute|].
  exists [12; 0; 0; 0; 2; 0; 129; 120; 2; 128; 129; 255]. split; vm_compute; reflexivity.
Qed.

(** ** Traversal, seeking, counting and searching *)

(** On a block that represents a list, [lpFirst], [lpNext], [lpLast] and
    [lpPrev] walk over exactly its elements, in both directions, without any
    assertion failing. *)
Theorem lp_traversal lp es num :
  lp_repr lp es num ->
  lpFirst lp = Some (ptr es 0) /\
  lpLast lp = Some (match length es with O => None | S j => Some (pos es j) end) /\
  (forall i, (i < length es)%nat -> lpNext lp (pos es i) = Some (ptr es (S i))) /\
  (forall i, (i < length es)%nat -> lpPrev lp (pos es (S i)) = Some (Some (pos es i))) /\
  lpPrev lp (pos es 0) = Some None.
Proof.
  intros Hlp. split; [by eapply nav_first|]. split; [by eapply nav_last|].
  split; [intros; by eapply nav_next|].
  split; [intros i Hi; by rewrite (nav_prev _ _ _ Hlp) by lia|by rewrite (nav_prev _ _ _ Hlp) by lia].
Qed.

Lemma lp_traversal_witness : lpNext sample_lp (pos [[130; 104; 105]; [5]] 0) = Some (Some 10).
Proof.
  apply (proj1 (proj2 (proj2 (lp_traversal sample_lp _ 2 sample_repr))) 0%nat).
  apply Nat.lt_0_succ.
Defined.

(** [lpSeek] returns the element at a signed index, NULL when the index is
    out of range, whichever end it starts from. *)
Theorem lpSeek_index lp es num index :
  lp_repr lp es num -> INT64_MIN < index ->
  lpSeek lp index = Some (pos es <$> seek_index es index).
Proof. intros Hlp Hi. by eapply nav_seek. Qed.

Lemma lpSeek_index_witness : lpSeek sample_lp (-1) = Some (Some 10).
Proof. apply (lpSeek_index sample_lp [[130; 104; 105]; [5]] 2 (-1) sample_repr). by vm_compute. Defined.

(** [lpLength] returns the number of elements, from the header or by a scan,
    and leaves a block that represents the same list. *)
Theorem lpLength_count lp es num :
  lp_repr lp es num ->
  exists lp' num', lpLength lp = Some (zlen es, lp') /\ lp_repr lp' es num' /\ zlen lp' = zlen lp.
Proof. intros Hlp. by eapply nav_length. Qed.

Lemma lpLength_count_witness :
  exists lp' num', lpLength sample_lp = Some (2, lp') /\ lp_repr lp' [[130; 104; 105]; [5]] num' /\
    zlen lp' = zlen sample_lp.
Proof. apply (lpLength_count sample_lp _ 2 sample_repr). Defined.

(** [lpFind] returns the first element whose text is [s] among those it
    tests (one, then [skip] left out, and so on), starting from a given element
    or from the first, with strings and integers compared by their text. *)
Theorem lpFind_first lp es num s skip :
  lp_repr lp es num -> 0 <= skip ->
  lpFind lp None s skip = Some (pos es <$> find_spec s (Z.to_nat skip) 0 es 0) /\
  (forall i, (i < length es)%nat ->
     lpFind lp (Some (pos es i)) s skip =
     Some (pos es <$> find_spec s (Z.to_nat skip) 0 (drop i es) i)).
Proof.
  intros Hlp Hs. split; [by eapply nav_find_null|]. intros i Hi. by eapply nav_find.
Qed.

Lemma lpFind_first_witness : lpFind sample_lp None [53] 0 = Some (Some 10).
Proof. apply (proj1 (lpFind_first sample_lp [[130; 104; 105]; [5]] 2 [53] 0 sample_repr ltac:(lia))). Defined.
