(* ===== verification/ListpackUpd.v ===== *)
(** * Listpacks: updates

    Insertion, replacement, deletion, batches, ranges, merging and copying are
    proved against the list of elements that a block represents, for every
    allocator: [usable] may round sizes up and [junk] is whatever new memory
    holds. *)

From stdpp Require Import base list numbers option tactics.
From S2P Require Import Prelude Util ListpackEnc Listpack ListpackNav.

Section Upd.
Context (junk : nat -> Z) (usable : Z -> Z) (Husable : forall n, 0 <= n -> n <= usable n).

(** ** The block around an update

    [block t n a M b s]: a header, the elements [a], the bytes [M], the elements
    [b], the terminator and unused bytes [s]. *)
Definition block (t n : Z) (a : list (list Z)) (M : list Z) (b : list (list Z)) (s : list Z) : list Z :=
  (hdr t n ++ body a) ++ M ++ (body b ++ [LP_EOF]) ++ s.

Lemma block_repr t n a m b s :
  block t n a (body m) b s = hdr t n ++ body (a ++ m ++ b) ++ LP_EOF :: s.
Proof. unfold block. rewrite !body_app, <- !app_assoc. done. Qed.

Lemma zlen_block t n a M b s :
  zlen (block t n a M b s) = LP_HDR_SIZE + zlen (body a) + zlen M + zlen (body b) + 1 + zlen s.
Proof. unfold block, LP_HDR_SIZE. zlia. Qed.

Lemma lp_realloc_block t n a M b s k :
  LP_HDR_SIZE + zlen (body a) + zlen M + zlen (body b) + 1 <= k ->
  exists s', lp_realloc junk usable (block t n a M b s) k = block t n a M b s' /\
    k <= zlen (block t n a M b s').
Proof.
  intros Hk. unfold lp_realloc, LP_HDR_SIZE in *. pose proof (Husable k ltac:(zlia)).
  destruct (realloc_app junk ((hdr t n ++ body a) ++ M ++ body b ++ [LP_EOF]) s (usable k)) as (s' & Hs' & Hz);
    [zlia|].
  exists s'. unfold block. rewrite <- !app_assoc in *. split; [done|lia].
Qed.

(** Making room for [ne] bytes where [M] was. *)
Lemma memmove_block t n a M b s ne :
  0 <= ne -> LP_HDR_SIZE + zlen (body a) + ne + zlen (body b) + 1 <= zlen (block t n a M b s) ->
  exists M' s', memmove (block t n a M b s) (LP_HDR_SIZE + zlen (body a) + ne)
      (LP_HDR_SIZE + zlen (body a) + zlen M) (zlen (body b) + 1) = Some (block t n a M' b s') /\
    zlen M' = ne /\ zlen (block t n a M' b s') = zlen (block t n a M b s).
Proof.
  intros Hne Hl. unfold block, LP_HDR_SIZE in *.
  apply (memmove_app (hdr t n ++ body a) M (body b ++ [LP_EOF]) s ne); zlia.
Qed.

Lemma wr_block t n a M b s x y :
  zlen M = zlen x + zlen y ->
  (lp ← wr_bytes (block t n a M b s) (LP_HDR_SIZE + zlen (body a)) x;
   wr_bytes lp (LP_HDR_SIZE + zlen (body a) + zlen x) y) = Some (block t n a (x ++ y) b s).
Proof.
  intros HM. destruct (split3 M (zlen x) (zlen y)) as (M1 & M2 & M3 & -> & H1 & H2); [zlia..|].
  assert (M3 = []) as -> by (apply zlen_0_nil; zlia). rewrite app_nil_r.
  unfold block, LP_HDR_SIZE. rewrite <- (app_assoc M1).
  rewrite wr_bytes_at by zlia. cbn [mbind option_bind]. rewrite (app_assoc _ x).
  rewrite wr_bytes_at by zlia. by rewrite <- !app_assoc.
Qed.

Lemma set_num_block t n a M b s v : lpSetNumElements (block t n a M b s) v = Some (block t v a M b s).
Proof. unfold block. rewrite <- !(app_assoc (hdr _ _)). apply set_num. Qed.

Lemma set_total_block t n a M b s v : lpSetTotalBytes (block t n a M b s) v = Some (block v n a M b s).
Proof. unfold block. rewrite <- !(app_assoc (hdr _ _)). apply set_total. Qed.

Lemma get_num_block t n a M b s : 0 <= n < 2 ^ 16 -> lpGetNumElements (block t n a M b s) = Some n.
Proof. intros. unfold block. rewrite <- !(app_assoc (hdr _ _)). by apply get_num. Qed.

Lemma get_total_block t n a M b s : 0 <= t < 2 ^ 32 -> lpGetTotalBytes (block t n a M b s) = Some t.
Proof. intros. unfold block. rewrite <- !(app_assoc (hdr _ _)). by apply get_total. Qed.

(** The byte at the place of the update. *)
Lemma rd_block_nil t n a b s :
  Forall valid_entry b ->
  exists x, rd (block t n a [] b s) (LP_HDR_SIZE + zlen (body a)) = Some x /\
    (x =? LP_EOF) = bool_decide (b = []).
Proof.
  intros Hb. unfold block. rewrite app_nil_l.
  destruct b as [|e b].
  - exists LP_EOF. split; [|done]. apply rd_at. unfold LP_HDR_SIZE. zlia.
  - apply list.Forall_cons in Hb as [He _]. destruct (valid_entry_head e He) as (x & e' & -> & Hx & Hne).
    exists x. split; [apply rd_at; unfold LP_HDR_SIZE; zlia|].
    rewrite bool_decide_false by done. by apply Z.eqb_neq.
Qed.

Lemma rd_block_cons t n a M b s :
  0 < zlen M -> exists x, rd (block t n a M b s) (LP_HDR_SIZE + zlen (body a)) = Some x.
Proof.
  intros HM. apply rd_Some. rewrite zlen_block. unfold LP_HDR_SIZE. zlia.
Qed.

(** ** Insertion, replacement, deletion *)

(** The count after adding [d] elements. *)
Definition num_add (num d : Z) : Z := if num =? LP_HDR_NUMELE_UNKNOWN then num else num + d.

Lemma num_ok_add num es es' d :
  num_ok num es -> zlen es' = zlen es + d -> d <= 1 -> 0 <= num_add num d -> num_ok (num_add num d) es'.
Proof.
  unfold num_ok, num_add, LP_HDR_NUMELE_UNKNOWN. intros Hn Hl Hd Hp.
  destruct (Z.eqb_spec num 65535); [by right|]. destruct Hn as [[-> Hn]|]; [|lia]. lia.
Qed.

(** The element that [lpInsert] stores. *)
Definition enc_arg (elestr eleint : option (list Z)) : option (list Z) :=
  match elestr with Some s => Some (lp_encode s) | None => eleint end.

(** [lpInsert] as one update of the block: [a] before, [m] replaced, [b] after,
    [x] the new elements. *)
Lemma insert_block t num a m b s x old new :
  Forall valid_entry b -> 0 <= num < 2 ^ 16 ->
  old = total_bytes (a ++ m ++ b) -> new = total_bytes (a ++ x ++ b) ->
  new < 2 ^ 32 -> old <= zlen (block t num a (body m) b s) ->
  exists lp2 M s',
    memmove (if (new >? old) && (new >? zlen (block t num a (body m) b s))
             then lp_realloc junk usable (block t num a (body m) b s) new
             else block t num a (body m) b s)
      (LP_HDR_SIZE + zlen (body a) + zlen (body x)) (LP_HDR_SIZE + zlen (body a) + zlen (body m))
      (zlen (body b) + 1) = Some lp2 /\
    (if new <? old then lp_realloc junk usable lp2 new else lp2) = block t num a M b s' /\
    zlen M = zlen (body x).
Proof.
  intros Hb Hnum Hold Hnew Hlt Hz.
  assert (Ho : old = LP_HDR_SIZE + zlen (body a) + zlen (body m) + zlen (body b) + 1)
    by (subst old; unfold total_bytes; zlia).
  assert (Hn : new = LP_HDR_SIZE + zlen (body a) + zlen (body x) + zlen (body b) + 1)
    by (subst new; unfold total_bytes; zlia).
  assert (exists s1, (if (new >? old) && (new >? zlen (block t num a (body m) b s))
             then lp_realloc junk usable (block t num a (body m) b s) new
             else block t num a (body m) b s) = block t num a (body m) b s1 /\
             Z.max old new <= zlen (block t num a (body m) b s1)) as (s1 & -> & Hs1).
  { rewrite !Z.gtb_ltb. destruct (Z.ltb_spec old new); cbn [andb].
    - destruct (Z.ltb_spec (zlen (block t num a (body m) b s)) new).
      + destruct (lp_realloc_block t num a (body m) b s new) as (s1 & -> & Hs1); [lia|].
        exists s1. split; [done|lia].
      + exists s. split; [done|lia].
    - exists s. split; [done|lia]. }
  destruct (memmove_block t num a (body m) b s1 (zlen (body x))) as (M & s2 & -> & HM & Hz2); [zlia|lia|].
  destruct (Z.ltb_spec new old).
  - destruct (lp_realloc_block t num a M b s2 new) as (s3 & Hs3 & _); [lia|]. by exists (block t num a M b s2), M, s3.
  - by exists (block t num a M b s2), M, s2.
Qed.

Definition xlen (x : list (list Z)) : Z := match x with e :: _ => zlen e | [] => 0 end.

(** What [lpInsert] computes from its arguments: whether it deletes, the integer
    encoding if there is one, and the size of the encoded element. *)
Lemma insert_args elestr eleint x :
  option_list (enc_arg elestr eleint) = x ->
  exists i, (match elestr with
    | Some ele => match lpEncodeGetType ele with
        | (Some intenc, enclen) => (Some intenc, enclen) | (None, enclen) => (None, enclen) end
    | None => match eleint with Some i => (Some i, zlen i) | None => (None, 0) end
    end) = (i, xlen x) /\
    bool_decide (elestr = None /\ eleint = None) = bool_decide (x = []) /\
    forall e lp dst, x = [e] ->
      match i with
      | Some i => wr_bytes lp dst i
      | None => match elestr with Some ele => wr_bytes lp dst (lpEncodeString ele) | None => None end
      end = wr_bytes lp dst e.
Proof.
  intros <-. destruct elestr as [s|]; cbv [enc_arg option_list option_rect from_option xlen].
  - pose proof (lp_encode_zlen s) as Hz. rewrite Hz. unfold lp_encode in *.
    destruct (lpEncodeGetType s) as [[i|] n]; cbn [snd] in *;
      eexists; (split; [done|]); (split; [done|]); by intros e lp dst [= <-].
  - destruct eleint as [i|].
    + eexists. split; [done|]. split; [done|]. by intros e lp dst [= <-].
    + eexists. split; [done|]. split; [done|]. by intros e lp dst [=].
Qed.

(** The state of the world before an update: [m] is replaced by [x]. *)
Lemma insert_core lp a m b x num elestr eleint :
  lp_repr lp (a ++ m ++ b) num -> option_list (enc_arg elestr eleint) = x -> Forall valid_entry x ->
  (m = [] /\ x <> []) \/ (exists e0, m = [e0]) ->
  let p := LP_HDR_SIZE + zlen (body a) in
  let w := match m with [] => LP_BEFORE | _ => LP_REPLACE end in
  (2 ^ 32 <= total_bytes (a ++ x ++ b) -> lpInsert junk usable lp elestr eleint p w = Some None) /\
  (total_bytes (a ++ x ++ b) < 2 ^ 32 ->
   exists lp', lpInsert junk usable lp elestr eleint p w =
     Some (Some (lp', if bool_decide (x = []) && bool_decide (b = []) then None else Some p)) /\
     lp_repr lp' (a ++ x ++ b) (num_add num (zlen x - zlen m))).
Proof.
  intros Hlp Hx Hvx Hm p w. destruct (insert_args _ _ _ Hx) as (i & Hi & Hdel & Hst).
  assert (Hxs : x = [] \/ exists e, x = [e] /\ valid_entry e).
  { subst x. destruct (enc_arg elestr eleint) as [e|]; [right|by left].
    exists e. split; [done|]. by apply list.Forall_cons in Hvx as [? _]. }
  pose proof Hlp as (Hv & Ht & Hnum & slack & Hl).
  rewrite <- block_repr in Hl.
  apply list.Forall_app in Hv as [Hva Hv]. apply list.Forall_app in Hv as [Hvm Hvb].
  assert (Hold : total_bytes (a ++ m ++ b) = LP_HDR_SIZE + zlen (body a) + zlen (body m) + zlen (body b) + 1)
    by (unfold total_bytes; zlia).
  assert (Hnew : total_bytes (a ++ x ++ b) = LP_HDR_SIZE + zlen (body a) + zlen (body x) + zlen (body b) + 1)
    by (unfold total_bytes; zlia).
  assert (Hback : xlen x + zlen (if negb (bool_decide (x = [])) then lpEncodeBacklen (xlen x) else [])
    = zlen (body x)).
  { destruct Hxs as [->|(e & -> & _)]; [done|]. rewrite bool_decide_false by done.
    cbn [negb body xlen]. unfold ent. zlia. }
  set (bk := if negb (bool_decide (x = [])) then lpEncodeBacklen (xlen x) else []) in *.
  assert (Hw : (if bool_decide (x = []) then LP_REPLACE else w) = w /\ w <> LP_AFTER).
  { unfold w. destruct Hm as [[-> ?]|[e0 ->]].
    - rewrite bool_decide_false by done. by split.
    - split; [by destruct (bool_decide (x = []))|done]. }
  destruct Hw as [Hw HwA].
  assert (Hrep : (if bool_decide (w = LP_REPLACE) then
      (replaced_len ← lpCurrentEncodedSizeUnsafe lp p;
       _ ← ASSERT_INTEGRITY_LEN lp p (u32 (replaced_len + lpEncodeBacklenBytes replaced_len));
       Some (u32 (replaced_len + lpEncodeBacklenBytes replaced_len))) else Some 0) = Some (zlen (body m))).
  { destruct Hm as [[-> ?]|[e0 ->]]; unfold w; [done|]. rewrite bool_decide_true by done.
    assert (He0 : valid_entry e0) by (by apply list.Forall_cons in Hvm as [? _]).
    assert (Hl0 : lp = (hdr (total_bytes (a ++ [e0] ++ b)) num ++ body a) ++ ent e0 ++ (body b ++ [LP_EOF]) ++ slack).
    { rewrite Hl. unfold block. cbn [body]. by rewrite app_nil_r. }
    assert (Hp : p = zlen (hdr (total_bytes (a ++ [e0] ++ b)) num ++ body a)) by (unfold p, LP_HDR_SIZE; zlia).
    rewrite Hl0 at 1. rewrite Hp at 1. rewrite size_at by done. cbn [mbind option_bind].
    rewrite <- zlen_ent. cbn [body] in Hold |- *. rewrite app_nil_r in *.
    pose proof (zlen_nonneg (body a)). pose proof (zlen_nonneg (body b)). pose proof (zlen_nonneg (ent e0)).
    rewrite wrapu_id by (unfold LP_HDR_SIZE in *; lia).
    unfold ASSERT_INTEGRITY_LEN. rewrite (repr_total _ _ _ Hlp). cbn [mbind option_bind].
    unfold p. rewrite (proj2 (Z.leb_le _ _)), (proj2 (Z.ltb_lt _ _)) by lia. done. }
  unfold lpInsert. rewrite Hdel, Hw, (bool_decide_false (w = LP_AFTER)) by done. cbn [mbind option_bind].
  rewrite Hi. fold bk. rewrite (repr_total _ _ _ Hlp). cbn [mbind option_bind]. cbv zeta in Hrep |- *.
  rewrite Hrep. cbn [mbind option_bind].
  assert (Hxb : 0 <= zlen (body x) < 2 ^ 33).
  { destruct Hxs as [->|(e & -> & He)]; cbn [body]; [by vm_compute|].
    rewrite app_nil_r, zlen_ent.
    assert (0 < zlen e < 2 ^ 32) by apply He. pose proof (lpEncodeBacklenBytes_pos (zlen e)). lia. }
  pose proof (zlen_nonneg (body a)). pose proof (zlen_nonneg (body b)). pose proof (zlen_nonneg (body m)).
  assert (Hnb : u64 (total_bytes (a ++ m ++ b) + xlen x + zlen bk - zlen (body m)) = total_bytes (a ++ x ++ b)).
  { rewrite wrapu_id; unfold LP_HDR_SIZE in *; lia. }
  rewrite Hnb, Z.gtb_ltb. unfold UINT32_MAX. split.
  { intros Hbig. by rewrite (proj2 (Z.ltb_lt _ _)) by lia. }
  intros Hsmall. rewrite (proj2 (Z.ltb_ge _ _)) by lia.
  destruct (insert_block (total_bytes (a ++ m ++ b)) num a m b slack x (total_bytes (a ++ m ++ b))
    (total_bytes (a ++ x ++ b))) as (lp2 & M & s' & Hmv & Hre & HM); [done|by eapply num_ok_range|done..| |].
  { rewrite <- Hl. by eapply zlen_lp. }
  rewrite <- Hl in Hmv.
  assert (Hmv' : (if bool_decide (w = LP_BEFORE)
    then memmove (if (total_bytes (a ++ x ++ b) >? total_bytes (a ++ m ++ b)) && (total_bytes (a ++ x ++ b) >? zlen lp)
                  then lp_realloc junk usable lp (total_bytes (a ++ x ++ b)) else lp)
           (p + xlen x + zlen bk) p (total_bytes (a ++ m ++ b) - p)
    else memmove (if (total_bytes (a ++ x ++ b) >? total_bytes (a ++ m ++ b)) && (total_bytes (a ++ x ++ b) >? zlen lp)
                  then lp_realloc junk usable lp (total_bytes (a ++ x ++ b)) else lp)
           (p + xlen x + zlen bk) (p + zlen (body m)) (total_bytes (a ++ m ++ b) - p - zlen (body m)))
    = Some lp2).
  { replace (p + xlen x + zlen bk) with (LP_HDR_SIZE + zlen (body a) + zlen (body x)) by (unfold p; lia).
    destruct (bool_decide_reflect (w = LP_BEFORE)) as [Hwb|Hwb].
    - assert (m = []) as -> by (unfold w in Hwb; by destruct Hm as [[? _]|[e0 ->]]).
      cbn [body] in Hold. rewrite zlen_nil in Hold. rewrite <- Hmv. f_equal; unfold p; cbn [body]; zlia.
    - rewrite <- Hmv. f_equal. unfold p. lia. }
  unfold lp_malloc_size. rewrite Hmv'. cbn [mbind option_bind]. rewrite Hre.
  clear Hmv Hmv' Hre Hrep Hnb Hdel Hi. subst p.
  destruct Hxs as [->|(e & -> & He)].
  - (* deletion *)
    destruct Hm as [[_ ?]|[e0 ->]]; [done|]. cbn [body] in HM. rewrite zlen_nil in HM.
    apply zlen_0_nil in HM as ->. change (zlen [] - zlen [e0]) with (-1). rewrite (bool_decide_true ([] = [])) by done. cbn [negb andb].
    destruct (rd_block_nil (total_bytes (a ++ [e0] ++ b)) num a b s' Hvb) as (y & -> & Hy).
    cbn [mbind option_bind]. rewrite Hy.
    rewrite orb_true_r, get_num_block by (by eapply num_ok_range). cbn [mbind option_bind].
    exists (block (total_bytes (a ++ [] ++ b)) (num_add num (-1)) a [] b s').
    split.
    + unfold num_add. destruct (Z.eqb_spec num LP_HDR_NUMELE_UNKNOWN); cbn [negb].
      * cbn [mbind option_bind]. rewrite set_total_block. cbn [mbind option_bind].
        by destruct (bool_decide (b = [])).
      * rewrite set_num_block. cbn [mbind option_bind]. rewrite set_total_block. cbn [mbind option_bind].
        by destruct (bool_decide (b = [])).
    + split; [by apply list.Forall_app|]. split; [done|]. split; [|by exists s'; rewrite (block_repr _ _ a [] b)].
      apply (num_ok_add num (a ++ [e0] ++ b)); [done|zlia|lia|].
      unfold num_add. destruct (Z.eqb_spec num LP_HDR_NUMELE_UNKNOWN) as [->|]; [done|].
      destruct Hnum as [[-> _]|?]; [|done]. autorewrite with zlen. zlen_facts. lia.
  - (* insertion or replacement *)
    assert (Hze : 0 < zlen e) by apply He.
    destruct (rd_block_cons (total_bytes (a ++ m ++ b)) num a M b s') as (y & ->).
    { rewrite HM. cbn [body]. rewrite app_nil_r, zlen_ent. pose proof (lpEncodeBacklenBytes_pos (zlen e)). lia. }
    rewrite (bool_decide_false ([e] = [])) by done. cbn [negb andb mbind option_bind].
    rewrite orb_false_r. cbn [xlen] in *.
    assert (Hbk : bk = lpEncodeBacklen (zlen e)) by done. clearbody bk. subst bk.
    pose proof (wr_block (total_bytes (a ++ m ++ b)) num a M b s' e (lpEncodeBacklen (zlen e))) as Hwr.
    rewrite (Hst e _ _ eq_refl), Hwr; clear Hwr. 2:{ rewrite HM. cbn [body]. rewrite app_nil_r. unfold ent. zlia. }
    cbn [mbind option_bind]. change (e ++ lpEncodeBacklen (zlen e)) with (ent e).
    replace (ent e) with (body [e]) by (cbn [body]; by rewrite app_nil_r).
    exists (block (total_bytes (a ++ [e] ++ b)) (num_add num (zlen [e] - zlen m)) a (body [e]) b s').
    split.
    + destruct Hm as [[-> _]|[e0 ->]]; unfold w.
      * rewrite bool_decide_false by done. cbn [negb].
        rewrite get_num_block by (by eapply num_ok_range). cbn [mbind option_bind].
        change (zlen [e] - zlen []) with 1. unfold num_add.
        destruct (Z.eqb_spec num LP_HDR_NUMELE_UNKNOWN); cbn [negb].
        -- cbn [mbind option_bind]. by rewrite set_total_block.
        -- rewrite set_num_block. cbn [mbind option_bind]. by rewrite set_total_block.
      * rewrite bool_decide_true by done. cbn [negb mbind option_bind].
        change (zlen [e] - zlen [e0]) with 0. rewrite set_total_block. cbn [mbind option_bind].
        unfold num_add. rewrite Z.add_0_r. by destruct (num =? _).
    + split; [apply list.Forall_app; split; [done|]; apply list.Forall_app; by split|].
      split; [done|]. split; [|exists s'; by rewrite block_repr].
      assert (Hm1 : zlen m <= 1) by (destruct Hm as [[-> _]|[e0 ->]]; by vm_compute).
      apply (num_ok_add num (a ++ m ++ b)); [done|zlia|zlia|].
      unfold num_add. destruct (Z.eqb_spec num LP_HDR_NUMELE_UNKNOWN) as [->|]; [done|].
      apply num_ok_range in Hnum. zlia.
Qed.

(** *** By position *)

(** An argument of the API: a byte string or an integer. *)
Definition arg_valid (ele : listpackEntry) : Prop :=
  match ele with SVal s => Forall is_byte s /\ zlen s < 2 ^ 32 - 5 | LVal v => is_s 64 v end.

Definition arg_enc (ele : listpackEntry) : list Z :=
  match ele with SVal s => lp_encode s | LVal v => lpEncodeIntegerGetType v end.

Definition arg_text (ele : listpackEntry) : list Z :=
  match ele with SVal s => s | LVal v => ll_text v end.

Lemma arg_enc_valid ele : arg_valid ele ->
  valid_entry (arg_enc ele) /\ entry_text (arg_enc ele) = Some (arg_text ele).
Proof.
  destruct ele as [s|v]; cbn [arg_valid arg_enc arg_text].
  - intros [Hs Hl]. by apply lp_encode_spec.
  - intros Hv. destruct (lpEncodeInteger_entry v Hv) as (Hval & Hg & _). split; [done|].
    unfold entry_text. by rewrite Hg.
Qed.

(** [lpInsertString] or [lpInsertInteger]. *)
Definition lpPut (lp : list Z) (ele : listpackEntry) (p : Z) (w : lp_where) :=
  match ele with
  | SVal s => lpInsertString junk usable lp s p w
  | LVal v => lpInsertInteger junk usable lp v p w
  end.

Definition arg_str (ele : listpackEntry) : option (list Z) := match ele with SVal s => Some s | LVal _ => None end.
Definition arg_int (ele : listpackEntry) : option (list Z) :=
  match ele with SVal _ => None | LVal v => Some (lpEncodeIntegerGetType v) end.

Lemma lpPut_insert lp ele p w : lpPut lp ele p w = lpInsert junk usable lp (arg_str ele) (arg_int ele) p w.
Proof. by destruct ele. Qed.

Lemma arg_enc_arg ele : option_list (enc_arg (arg_str ele) (arg_int ele)) = [arg_enc ele].
Proof. by destruct ele. Qed.

(** The list after the update, and the position of the new element. *)
Definition put_list (es : list (list Z)) (e : list Z) (i : nat) (w : lp_where) : list (list Z) :=
  match w with
  | LP_BEFORE => take i es ++ e :: drop i es
  | LP_AFTER => take (S i) es ++ e :: drop (S i) es
  | LP_REPLACE => <[i := e]> es
  end.
Definition put_pos (i : nat) (w : lp_where) : nat := match w with LP_AFTER => S i | _ => i end.
Definition put_ok (es : list (list Z)) (i : nat) (w : lp_where) : Prop :=
  match w with LP_BEFORE => (i <= length es)%nat | _ => (i < length es)%nat end.

Lemma insert_after lp es num ele i :
  lp_repr lp es num -> (i < length es)%nat ->
  lpPut lp ele (pos es i) LP_AFTER = lpPut lp ele (pos es (S i)) LP_BEFORE.
Proof.
  intros Hlp [e Hi]%lookup_lt_is_Some. rewrite !lpPut_insert. unfold lpInsert.
  rewrite (bool_decide_false (_ /\ _)) by (destruct ele; naive_solver).
  rewrite (bool_decide_true (LP_AFTER = LP_AFTER)), (bool_decide_false (LP_BEFORE = LP_AFTER)) by done.
  rewrite (nav_skip _ _ _ Hlp _ _ Hi). cbn [mbind option_bind]. unfold ASSERT_INTEGRITY.
  rewrite (repr_total _ _ _ Hlp). cbn [mbind option_bind].
  pose proof (pos_ge es (S i)). pose proof (pos_le_total _ _ _ Hlp (S i)).
  by rewrite (proj2 (Z.leb_le _ _)), (proj2 (Z.ltb_lt _ _)) by lia.
Qed.

Lemma pos_app_ge a x i : (length a <= i)%nat -> pos a i = LP_HDR_SIZE + zlen (body a) /\
  pos (a ++ x) (length a) = LP_HDR_SIZE + zlen (body a).
Proof. intros. unfold pos. by rewrite take_ge, take_app_length by done. Qed.

Lemma put_spec lp es num ele i w :
  lp_repr lp es num -> arg_valid ele -> put_ok es i w ->
  let es' := put_list es (arg_enc ele) i w in
  (2 ^ 32 <= total_bytes es' -> lpPut lp ele (pos es i) w = Some None) /\
  (total_bytes es' < 2 ^ 32 -> exists lp' num',
     lpPut lp ele (pos es i) w = Some (Some (lp', Some (pos es' (put_pos i w)))) /\ lp_repr lp' es' num').
Proof.
  intros Hlp Harg Hok es'. destruct (arg_enc_valid ele Harg) as [Hval _].
  assert (Hbefore : forall i, (i <= length es)%nat -> let es' := put_list es (arg_enc ele) i LP_BEFORE in
    (2 ^ 32 <= total_bytes es' -> lpPut lp ele (pos es i) LP_BEFORE = Some None) /\
    (total_bytes es' < 2 ^ 32 -> exists lp' num',
     lpPut lp ele (pos es i) LP_BEFORE = Some (Some (lp', Some (pos es' i))) /\ lp_repr lp' es' num')).
  { clear es' Hok. intros j Hj es'. rewrite lpPut_insert.
    assert (Hpos : pos es j = LP_HDR_SIZE + zlen (body (take j es))) by done.
    assert (Hpos' : pos es' j = pos es j).
    { unfold es', pos, put_list. by rewrite take_app_le, take_take, Nat.min_id by (rewrite length_take; lia). }
    destruct (insert_core lp (take j es) [] (drop j es) [arg_enc ele] num (arg_str ele) (arg_int ele))
      as [Hbig Hsmall]; [by rewrite app_nil_l, take_drop|apply arg_enc_arg|by constructor|by left|].
    rewrite <- Hpos in *. split; [done|]. intros Ht. destruct (Hsmall Ht) as (lp' & Hins & Hr).
    exists lp'. eexists. rewrite Hpos'. split; [exact Hins|exact Hr]. }
  destruct w; cbn [put_ok put_pos] in *.
  - by apply Hbefore.
  - rewrite (insert_after _ _ _ _ _ Hlp) by done. apply (Hbefore (S i)). lia.
  - apply lookup_lt_is_Some in Hok as [e0 Hi]. rewrite lpPut_insert.
    assert (He : es' = take i es ++ [arg_enc ele] ++ drop (S i) es).
    { unfold es'. cbn. apply insert_take_drop. by eapply lookup_lt_Some. }
    assert (Hpos' : pos es' i = pos es i).
    { rewrite He. pose proof (lookup_lt_Some _ _ _ Hi). unfold pos.
      by rewrite take_app_le, take_take, Nat.min_id by (rewrite length_take; lia). }
    destruct (insert_core lp (take i es) [e0] (drop (S i) es) [arg_enc ele] num (arg_str ele) (arg_int ele))
      as [Hbig Hsmall]; [by cbn; rewrite take_drop_middle|apply arg_enc_arg|by constructor|right; by eexists|].
    rewrite <- He in *. split; [done|]. intros Ht. destruct (Hsmall Ht) as (lp' & Hins & Hr).
    exists lp'. eexists. rewrite Hpos'. split; [exact Hins|exact Hr].
Qed.

(** C3: Inserting a string or an integer before or after an element, or in its
    place, never accesses memory outside of the block for any allocator, fails
    exactly when the listpack would not fit in 32 bits of size, and otherwise
    yields a well-formed listpack whose elements are the old ones with the new
    one inserted (or replacing the old one), together with its position. *)
Theorem lpInsert_refines lp es num ele i w :
  lp_repr lp es num -> arg_valid ele -> put_ok es i w ->
  let es' := put_list es (arg_enc ele) i w in
  if decide (total_bytes es' < 2 ^ 32) then
    exists lp' num', lpPut lp ele (pos es i) w = Some (Some (lp', Some (pos es' (put_pos i w)))) /\
      lp_repr lp' es' num'
  else lpPut lp ele (pos es i) w = Some None.
Proof.
  intros Hlp Harg Hok es'. destruct (put_spec lp es num ele i w Hlp Harg Hok).
  case_decide; [auto|]. assert (2 ^ 32 <= total_bytes es') by lia. auto.
Qed.

Lemma delete_spec lp es num i :
  lp_repr lp es num -> (i < length es)%nat ->
  exists lp' num', lpDelete junk usable lp (pos es i) = Some (Some (lp', ptr (delete i es) i)) /\
    lp_repr lp' (delete i es) num'.
Proof.
  intros Hlp Hlt. pose proof Hlt as [e0 Hi]%lookup_lt_is_Some.
  assert (He : delete i es = take i es ++ [] ++ drop (S i) es) by apply delete_take_drop.
  assert (Hpos : pos (delete i es) i = pos es i).
  { rewrite He. unfold pos. rewrite take_app_le, take_take, Nat.min_id by (rewrite length_take; lia). done. }
  destruct (insert_core lp (take i es) [e0] (drop (S i) es) [] num None None) as [_ Hsmall];
    [by cbn; rewrite take_drop_middle|done|constructor|right; by eexists|].
  rewrite <- He in Hsmall. destruct Hsmall as (lp' & Hins & Hr).
  { destruct Hlp as (_ & Ht & _). unfold total_bytes in *. rewrite <- (take_drop_middle _ _ _ Hi) in Ht.
    rewrite He, !body_app in *. cbn [body] in Ht |- *. zlia. }
  exists lp'. eexists. split; [|exact Hr]. unfold lpDelete. cbn [bool_decide andb] in Hins.
  rewrite (bool_decide_true ([] = [])) in Hins by done. cbn [andb] in Hins.
  etransitivity; [exact Hins|]. do 3 f_equal. unfold ptr. rewrite Hpos.
  pose proof (length_delete es i ltac:(by eexists)) as Hld.
  destruct (bool_decide_reflect (drop (S i) es = [])) as [Hd|Hd].
  - rewrite decide_False; [done|]. apply (f_equal length) in Hd. rewrite length_drop in Hd. cbn in Hd. lia.
  - rewrite decide_True; [done|]. destruct (decide (S i < length es)%nat); [lia|].
    exfalso. apply Hd, drop_ge. lia.
Qed.

(** Deleting an element yields a well-formed listpack without it, and the
    element that followed it, or NULL if it was the last. *)
Theorem lpDelete_refines lp es num i :
  lp_repr lp es num -> (i < length es)%nat ->
  exists lp' num', lpDelete junk usable lp (pos es i) = Some (Some (lp', ptr (delete i es) i)) /\
    lp_repr lp' (delete i es) num'.
Proof. apply delete_spec. Qed.
End Upd.

Lemma id_usable : forall n, 0 <= n -> n <= (fun n => n) n.
Proof. intros n _. apply Z.le_refl. Qed.

(** Inserting "42" after the first element of the sample block. *)
Lemma lpInsert_refines_witness :
  exists lp' num', lpPut (fun _ => 0) (fun n => n) sample_lp (SVal [52; 50]) 6 LP_AFTER =
    Some (Some (lp', Some 10)) /\ lp_repr lp' [[130; 104; 105]; [42]; [5]] num'.
Proof.
  apply (lpInsert_refines (fun _ => 0) (fun n => n) id_usable sample_lp [[130; 104; 105]; [5]] 2
    (SVal [52; 50]) 0 LP_AFTER sample_repr).
  - split; [repeat constructor; by vm_compute|by vm_compute].
  - apply Nat.lt_0_succ.
Defined.

Lemma lpDelete_refines_witness :
  exists lp' num', lpDelete (fun _ => 0) (fun n => n) sample_lp 6 = Some (Some (lp', Some 6)) /\
    lp_repr lp' [[5]] num'.
Proof.
  apply (lpDelete_refines (fun _ => 0) (fun n => n) id_usable sample_lp [[130; 104; 105]; [5]] 2 0 sample_repr).
  apply Nat.lt_0_succ.
Defined.
