(* ===== verification/ListpackBulk.v ===== *)
(** * Listpacks: creation, batches, ranges, merging and copying *)

From stdpp Require Import base list numbers option tactics.
From S2P Require Import Prelude Util ListpackEnc Listpack ListpackNav ListpackUpd.

Section Bulk.
Context (junk : nat -> Z) (usable : Z -> Z) (Husable : forall n, 0 <= n -> n <= usable n).

(** ** Creation and the two ends *)

Lemma new_spec capacity : exists lp, lpNew junk usable capacity = Some lp /\ lp_repr lp [] 0.
Proof.
  unfold lpNew. set (c := if capacity >? LP_HDR_SIZE + 1 then capacity else LP_HDR_SIZE + 1).
  assert (Hc : 7 <= c) by (unfold c, LP_HDR_SIZE; destruct (Z.gtb_spec capacity (6 + 1)); lia).
  clearbody c. pose proof (Husable c ltac:(lia)). unfold lp_malloc.
  assert (Hz : zlen (realloc junk [] (usable c)) = usable c) by (apply zlen_realloc; lia).
  destruct (split3 (realloc junk [] (usable c)) 0 6) as (x & h & r & Hs & Hx & Hh); [lia..|].
  apply zlen_0_nil in Hx as ->. rewrite Hs in *. rewrite app_nil_l in *.
  destruct (split3 h 0 4) as (y & h1 & h2 & -> & Hy & H1); [lia..|]. apply zlen_0_nil in Hy as ->.
  destruct r as [|b r]; [autorewrite with zlen in Hz; unfold LP_HDR_SIZE in *; zlia|].
  unfold lpSetTotalBytes, lpSetNumElements. rewrite !le_store_bytes, app_nil_l, <- !app_assoc.
  rewrite wr_bytes_head by (rewrite ?zlen_le_bytes; zlia). cbn [mbind option_bind].
  rewrite wr_bytes_at by (rewrite ?zlen_le_bytes; zlia). cbn [mbind option_bind].
  rewrite (app_assoc (le_bytes 4 _)). change (b :: r) with ([b] ++ r).
  unfold wr. rewrite wr_bytes_at by (rewrite ?zlen_app, ?zlen_le_bytes; done).
  eexists. split; [done|]. split; [constructor|]. split; [by vm_compute|]. split; [left; by vm_compute|].
  by exists r.
Qed.

(** Pushing at the head or at the tail is insertion at that position. *)
Lemma append_put lp es num ele :
  lp_repr lp es num ->
  match ele with SVal s => lpAppend junk usable lp s | LVal v => lpAppendInteger junk usable lp v end
  = lpPut junk usable lp ele (pos es (length es)) LP_BEFORE.
Proof.
  intros Hlp. unfold lpAppend, lpAppendInteger. rewrite (repr_total _ _ _ Hlp). cbn [mbind option_bind].
  rewrite (pos_all es) by lia. by destruct ele.
Qed.

Lemma prepend_put lp es num ele :
  lp_repr lp es num ->
  match ele with SVal s => lpPrepend junk usable lp s | LVal v => lpPrependInteger junk usable lp v end
  = lpPut junk usable lp ele (pos es 0) LP_BEFORE.
Proof.
  intros Hlp. unfold lpPrepend, lpPrependInteger. rewrite (nav_first _ _ _ Hlp). cbn [mbind option_bind].
  destruct (decide (0 < length es)%nat) as [Hlt|Hge].
  - rewrite ptr_lt by done. by destruct ele.
  - rewrite ptr_ge by lia. assert (es = []) as -> by (by destruct es; [|cbn in Hge; lia]).
    pose proof (append_put lp [] num ele Hlp) as Ha. by destruct ele.
Qed.

(** A new listpack is empty, and pushing a string or an integer at its tail
    or at its head appends or prepends it to the list. *)
Theorem lpPush_refines lp es num ele :
  lp_repr lp es num -> arg_valid ele -> total_bytes (es ++ [arg_enc ele]) < 2 ^ 32 ->
  (exists lp' num', match ele with SVal s => lpAppend junk usable lp s
                    | LVal v => lpAppendInteger junk usable lp v end
     = Some (Some (lp', Some (pos es (length es)))) /\ lp_repr lp' (es ++ [arg_enc ele]) num') /\
  (exists lp' num', match ele with SVal s => lpPrepend junk usable lp s
                    | LVal v => lpPrependInteger junk usable lp v end
     = Some (Some (lp', Some LP_HDR_SIZE)) /\ lp_repr lp' (arg_enc ele :: es) num') /\
  (forall capacity, exists lp0, lpNew junk usable capacity = Some lp0 /\ lp_repr lp0 [] 0).
Proof.
  intros Hlp Harg Ht. split; [|split; [|apply new_spec]].
  - rewrite (append_put _ _ _ _ Hlp).
    destruct (put_spec junk usable Husable lp es num ele (length es) LP_BEFORE Hlp Harg) as [_ Hs]; [cbn; lia|].
    cbn [put_list put_pos] in Hs. rewrite firstn_all, drop_ge in Hs by lia.
    destruct (Hs Ht) as (lp' & num' & Hp & Hr). exists lp', num'. rewrite Hp. split; [|done].
    do 4 f_equal. unfold pos. by rewrite take_app_length, firstn_all.
  - rewrite (prepend_put _ _ _ _ Hlp).
    destruct (put_spec junk usable Husable lp es num ele 0 LP_BEFORE Hlp Harg) as [_ Hs]; [cbn; lia|].
    cbn [put_list put_pos] in Hs. rewrite take_0, drop_0 in Hs. apply Hs. unfold total_bytes in *.
    rewrite body_app in Ht. cbn [body app] in *. zlia.
Qed.

(** ** Shrinking *)

Lemma shrink_block t n a b s :
  0 <= t < 2 ^ 32 -> t = LP_HDR_SIZE + zlen (body a) + zlen (body b) + 1 ->
  exists s', lpShrinkToFit junk usable (block t n a [] b s) = Some (block t n a [] b s').
Proof.
  intros Ht Hz. unfold lpShrinkToFit, lp_malloc_size. rewrite get_total_block by done.
  cbn [mbind option_bind]. destruct (_ <? _); [|by exists s].
  destruct (lp_realloc_block junk usable Husable t n a [] b s t) as (s' & -> & _); [zlia|by exists s'].
Qed.

(** ** Ranges *)

Section Range.
Context (lp : list Z) (es : list (list Z)) (num : Z) (Hlp : lp_repr lp es num).

Lemma range_loop fuel : forall i n deleted,
  (i < length es)%nat -> 0 <= n -> (length es - i < fuel)%nat ->
  lpDeleteRange_loop fuel lp (total_bytes es) (pos es i) n deleted =
  Some (pos es (i + Z.to_nat (Z.min n (zlen es - Z.of_nat i))),
        deleted + Z.min n (zlen es - Z.of_nat i)).
Proof.
  induction fuel as [|fuel IH]; intros i n deleted Hi Hn Hf; [lia|]. cbn [lpDeleteRange_loop].
  destruct (Z.eqb_spec n 0) as [->|Hn0].
  { unfold zlen. rewrite Z.min_l by lia. by rewrite Nat.add_0_r, Z.add_0_r. }
  pose proof Hi as [e Hl]%lookup_lt_is_Some. rewrite (nav_skip _ _ _ Hlp _ _ Hl). cbn [mbind option_bind].
  destruct (decide (S i < length es)%nat) as [Hlt|Hge].
  - destruct (nav_head _ _ _ Hlp (S i) Hlt) as (b & -> & _ & Hne). cbn [mbind option_bind]. rewrite Hne.
    rewrite (nav_assert _ _ _ Hlp). cbn [mbind option_bind]. rewrite IH by lia. unfold zlen.
    do 2 f_equal; [|lia]. f_equal. lia.
  - rewrite (nav_eof _ _ _ Hlp) by lia. cbn [mbind option_bind]. rewrite Z.eqb_refl. unfold zlen.
    do 2 f_equal; [|lia]. f_equal. lia.
Qed.

Lemma repr_block i j : (i <= j)%nat -> exists s,
  lp = block (total_bytes es) num (take i es) (body (take (j - i) (drop i es))) (drop j es) s.
Proof.
  intros Hij. destruct Hlp as (_ & _ & _ & s & Hl). exists s. rewrite block_repr, Hl.
  do 2 f_equal. rewrite <- (take_drop i es) at 1. f_equal. f_equal.
  rewrite <- (take_drop (j - i) (drop i es)) at 1. rewrite drop_drop. do 2 f_equal. lia.
Qed.

Lemma delete_range_entry i n :
  (i < length es)%nat -> 0 <= n ->
  let es' := take i es ++ drop (i + Z.to_nat n) es in
  exists lp' num', lpDeleteRangeWithEntry junk usable lp (pos es i) n = Some (lp', ptr es' i) /\
    lp_repr lp' es' num'.
Proof.
  intros Hi Hn es'. pose proof Hlp as (Hv & Ht & Hnum & _).
  unfold lpDeleteRangeWithEntry, lpBytes. rewrite (repr_total _ _ _ Hlp). cbn [mbind option_bind].
  destruct (Z.eqb_spec n 0) as [->|Hn0].
  { exists lp, num. assert (es' = es) as -> by (unfold es'; by rewrite Nat.add_0_r, take_drop).
    by rewrite ptr_lt. }
  pose proof (length_le_lp _ _ _ Hlp). rewrite range_loop by lia. cbn [mbind option_bind].
  set (d := Z.min n (zlen es - Z.of_nat i)). set (j := (i + Z.to_nat d)%nat).
  assert (Hd : 1 <= d) by (unfold d, zlen; lia).
  assert (Hes' : es' = take i es ++ drop j es).
  { unfold es', j, d. f_equal. destruct (decide (n <= zlen es - Z.of_nat i)); [by rewrite Z.min_l|].
    unfold zlen in *. rewrite !drop_ge by lia. done. }
  assert (Hj : (i <= j <= length es)%nat) by (unfold j, d, zlen; lia).
  destruct (repr_block i j ltac:(lia)) as (s & Hl).
  assert (Hpj : pos es j = pos es i + zlen (body (take (j - i) (drop i es)))).
  { unfold pos. rewrite <- (take_drop i es) at 1. rewrite take_app_ge, body_app by (rewrite length_take; lia).
    rewrite length_take, Nat.min_l by lia. zlia. }
  assert (Htot : total_bytes es = pos es j + zlen (body (drop j es)) + 1).
  { unfold total_bytes, pos. rewrite <- (take_drop j es) at 1. rewrite body_app. zlia. }
  destruct (memmove_block (total_bytes es) num (take i es) (body (take (j - i) (drop i es))) (drop j es) s 0)
    as (M & s1 & Hmv & HM & Hz1); [lia| |].
  { rewrite <- Hl. pose proof (zlen_lp _ _ _ Hlp). unfold pos in *. zlia. }
  apply zlen_0_nil in HM as ->. rewrite <- Hl in Hmv.
  replace (memmove lp (pos es i) (pos es j) (total_bytes es - 1 - pos es j + 1)) with
    (Some (block (total_bytes es) num (take i es) [] (drop j es) s1)).
  2:{ rewrite <- Hmv. f_equal; unfold pos in *; lia. }
  cbn [mbind option_bind]. rewrite set_total_block. cbn [mbind option_bind].
  rewrite get_num_block by (by eapply num_ok_range). cbn [mbind option_bind].
  assert (Ht' : total_bytes es - (pos es j - pos es i) = total_bytes es').
  { rewrite Hes'. unfold total_bytes in *. rewrite body_app. unfold pos in *. zlia. }
  assert (Hv' : Forall valid_entry es') by (rewrite Hes'; apply list.Forall_app; split; [by apply Forall_take|by apply Forall_drop]).
  rewrite Ht'. assert (Hs2 : (if negb (num =? LP_HDR_NUMELE_UNKNOWN)
     then lpSetNumElements (block (total_bytes es') num (take i es) [] (drop j es) s1) (num - (0 + d))
     else Some (block (total_bytes es') num (take i es) [] (drop j es) s1)) =
     Some (block (total_bytes es') (num_add num (- d)) (take i es) [] (drop j es) s1)).
  { unfold num_add. destruct (Z.eqb_spec num LP_HDR_NUMELE_UNKNOWN); cbn [negb]; [done|].
    by rewrite set_num_block. }
  rewrite Hs2. cbn [mbind option_bind].
  assert (Htb : total_bytes es' = LP_HDR_SIZE + zlen (body (take i es)) + zlen (body (drop j es)) + 1)
    by (rewrite Hes'; unfold total_bytes; rewrite body_app; zlia).
  assert (Htr : 0 <= total_bytes es' < 2 ^ 32).
  { unfold pos, LP_HDR_SIZE in *. zlen_facts. lia. }
  destruct (shrink_block (total_bytes es') (num_add num (- d)) (take i es) (drop j es) s1 Htr Htb) as (s2 & ->).
  cbn [mbind option_bind].
  destruct (rd_block_nil (total_bytes es') (num_add num (- d)) (take i es) (drop j es) s2) as (x & Hx & Hxe);
    [by apply Forall_drop|].
  change (LP_HDR_SIZE + zlen (body (take i es))) with (pos es i) in Hx. rewrite Hx. cbn [mbind option_bind].
  exists (block (total_bytes es') (num_add num (- d)) (take i es) [] (drop j es) s2), (num_add num (- d)).
  split.
  - rewrite Hxe. do 2 f_equal. unfold ptr. rewrite Hes'.
    assert (Hp : pos (take i es ++ drop j es) i = pos es i).
    { unfold pos. by rewrite take_app_le, take_take, Nat.min_id by (rewrite length_take; lia). }
    rewrite Hp. case_bool_decide as Hnil.
    + rewrite decide_False; [done|]. rewrite Hnil, app_nil_r, length_take. lia.
    + rewrite decide_True; [done|]. rewrite length_app, length_take, length_drop.
      destruct (decide (j < length es)%nat); [lia|]. exfalso. apply Hnil, drop_ge. lia.
  - split; [done|]. split; [lia|]. split.
    2:{ exists s2. pose proof (block_repr (total_bytes es') (num_add num (- d)) (take i es) [] (drop j es) s2) as Hb.
        rewrite app_nil_l, <- Hes' in Hb. exact Hb. }
    assert (Hl' : zlen es' = zlen es + - d).
    { rewrite Hes'. unfold zlen. rewrite length_app, length_take, length_drop. unfold j, d, zlen. lia. }
    apply (num_ok_add num es); [done|done|lia|].
    unfold num_add. destruct (Z.eqb_spec num LP_HDR_NUMELE_UNKNOWN) as [->|]; [done|].
    destruct Hnum as [[-> _]|?]; [|done]. unfold d. zlen_facts. lia.
Qed.
End Range.

(** [lpDeleteRange] removes the [n] elements from a signed index on (all of
    them up to the end if there are fewer), does nothing for an index out of
    range, and leaves a well-formed listpack, whether it moves the terminator or
    the tail. *)
Theorem lpDeleteRange_refines lp es num index n :
  lp_repr lp es num -> INT64_MIN < index -> 0 <= n ->
  exists lp' num', lpDeleteRange junk usable lp index n = Some lp' /\
    lp_repr lp' (match seek_index es index with
                 | Some i => take i es ++ drop (i + Z.to_nat n) es
                 | None => es
                 end) num'.
Proof.
  intros Hlp Hmin Hn. unfold lpDeleteRange. rewrite (repr_num _ _ _ Hlp). cbn [mbind option_bind].
  destruct (Z.eqb_spec n 0) as [->|Hn0].
  { exists lp, num. split; [done|]. destruct (seek_index es index); [|done].
    by rewrite Nat.add_0_r, take_drop. }
  rewrite (nav_seek _ _ _ Hlp) by done. cbn [mbind option_bind].
  destruct (seek_index es index) as [i|] eqn:Ei; cbn [fmap option_fmap option_map]; [|by exists lp, num].
  assert (Hi : (i < length es)%nat /\ Z.of_nat i = (if index <? 0 then zlen es + index else index)).
  { unfold seek_index in Ei. destruct (_ && _) eqn:E in Ei; [|done].
    apply andb_true_iff in E as [E1%Z.leb_le E2%Z.ltb_lt]. injection Ei as <-. unfold zlen in *. lia. }
  destruct Hi as [Hi Hidx].
  destruct (delete_range_entry lp es num Hlp i n Hi Hn) as (lp1 & num1 & Hdel & Hr1).
  destruct (Z.eqb_spec num LP_HDR_NUMELE_UNKNOWN) as [Hunk|Hk]; cbn [negb andb].
  { rewrite Hdel. by exists lp1, num1. }
  pose proof Hlp as (Hv & Ht & Hnum & _). assert (Hlen : num = zlen es /\ zlen es < 65535).
  { destruct Hnum as [?|?]; [done|congruence]. }
  destruct Hlen as [-> Hlen].
  rewrite <- Hidx. rewrite (wrapu_id 64 (Z.of_nat i)) by (unfold zlen in *; lia).
  rewrite wrapu_id by (unfold zlen in *; lia).
  destruct (Z.leb_spec (zlen es - Z.of_nat i) n) as [Hall|Hsome]; [|rewrite Hdel; by exists lp1, num1].
  rewrite (drop_ge es) by (unfold zlen in *; lia). rewrite app_nil_r.
  destruct (repr_block lp es (zlen es) Hlp i i ltac:(lia)) as (s & Hl). rewrite Nat.sub_diag, take_0 in Hl.
  assert (Hsplit : exists x r, body (drop i es) ++ [LP_EOF] = x :: r /\ zlen r = zlen (body (drop i es))).
  { destruct (body (drop i es)) as [|x r]; [by exists LP_EOF, []|].
    exists x, (r ++ [LP_EOF]). split; [done|zlia]. }
  destruct Hsplit as (x & r & Hxr & Hzr).
  assert (Hw : wr lp (pos es i) LP_EOF = Some (block (total_bytes es) (zlen es) (take i es) [] [] (r ++ s))).
  { rewrite Hl. unfold block, wr. cbn [body]. rewrite !app_nil_l, Hxr.
    change ((x :: r) ++ s) with ([x] ++ (r ++ s)). by apply wr_bytes_at; [unfold pos, LP_HDR_SIZE; zlia|]. }
  rewrite Hw. cbn [mbind option_bind]. rewrite set_total_block. cbn [mbind option_bind].
  rewrite set_num_block. cbn [mbind option_bind].
  assert (Htb : pos es i + 1 = total_bytes (take i es)) by (unfold pos, total_bytes; lia).
  assert (Htr : 0 <= pos es i + 1 < 2 ^ 32).
  { pose proof (pos_ge es i). pose proof (pos_le_total _ _ _ Hlp i). unfold LP_HDR_SIZE in *. lia. }
  destruct (shrink_block (pos es i + 1) (Z.of_nat i) (take i es) [] (r ++ s) Htr) as (s2 & ->);
    [unfold pos; cbn [body]; zlia|].
  eexists _, (Z.of_nat i). split; [done|]. split; [by apply Forall_take|]. split; [lia|]. split.
  - left. unfold zlen in *. rewrite length_take. unfold LP_HDR_NUMELE_UNKNOWN. lia.
  - exists s2. rewrite <- Htb. pose proof (block_repr (pos es i + 1) (Z.of_nat i) (take i es) [] [] s2) as Hb.
    rewrite !app_nil_r in Hb. exact Hb.
Qed.

(** ** Batches *)

Lemma encode_entries entries : forall added,
  Forall arg_valid entries -> 0 <= added ->
  added + zlen (body (arg_enc <$> entries)) < 2 ^ 64 ->
  exists encs, lpEncodeEntries entries added = (encs, added + zlen (body (arg_enc <$> entries))) /\
    encs = lpEncodeEntry <$> entries.
Proof.
  induction entries as [|e entries IH]; intros added Hv Ha Hb.
  { exists []. cbn. by rewrite Z.add_0_r. }
  apply list.Forall_cons in Hv as [He Hv]. cbn [lpEncodeEntries fmap list_fmap body] in *.
  assert (Hz : exists i, lpEncodeEntry e = (i, zlen (arg_enc e), lpEncodeBacklen (zlen (arg_enc e)))).
  { unfold lpEncodeEntry. destruct e as [s|v]; cbn [arg_enc]; [|by eexists].
    rewrite lp_encode_zlen. destruct (lpEncodeGetType s) as [i z]. by exists i. }
  destruct Hz as (i & ->). pose proof (zlen_nonneg (body (arg_enc <$> entries))).
  rewrite zlen_app, zlen_ent in Hb. rewrite zlen_lpEncodeBacklen.
  pose proof (zlen_nonneg (arg_enc e)). pose proof (lpEncodeBacklenBytes_pos (zlen (arg_enc e))).
  rewrite (wrapu_id 64 (added + _)), wrapu_id by lia.
  destruct (IH (added + zlen (arg_enc e) + lpEncodeBacklenBytes (zlen (arg_enc e)))) as (encs & -> & ->);
    [done|lia|lia|].
  eexists. split; [|done]. f_equal. rewrite zlen_app, zlen_ent. lia.
Qed.

Lemma write_entries entries : forall P M R newp,
  Forall arg_valid entries -> zlen M = zlen (body (arg_enc <$> entries)) ->
  exists newp', lpWriteEntries (P ++ M ++ R) (zlen P) entries (lpEncodeEntry <$> entries) newp =
    Some (P ++ body (arg_enc <$> entries) ++ R, zlen P + zlen M, newp').
Proof.
  induction entries as [|e entries IH]; intros P M R newp Hv HM.
  { cbn in HM |- *. apply zlen_0_nil in HM as ->. exists newp. by rewrite zlen_nil, Z.add_0_r. }
  apply list.Forall_cons in Hv as [He Hv]. cbn [fmap list_fmap body] in *.
  rewrite zlen_app in HM.
  destruct (split3 M (zlen (arg_enc e)) (lpEncodeBacklenBytes (zlen (arg_enc e)))) as (M1 & M2 & M3 & -> & H1 & H2);
    [zlia|pose proof (lpEncodeBacklenBytes_pos (zlen (arg_enc e))); lia|rewrite zlen_ent in HM; zlen_facts; lia|].
  rewrite zlen_ent, !zlen_app in HM.
  assert (Hz : exists i, lpEncodeEntry e = (i, zlen (arg_enc e), lpEncodeBacklen (zlen (arg_enc e))) /\
    forall lp dst, match i, e with
      | Some i, _ => wr_bytes lp dst i
      | None, SVal s => wr_bytes lp dst (lpEncodeString s)
      | None, LVal _ => None end = wr_bytes lp dst (arg_enc e)).
  { unfold lpEncodeEntry. destruct e as [s|v]; cbn [arg_enc]; [|by eexists].
    rewrite lp_encode_zlen. unfold lp_encode. destruct (lpEncodeGetType s) as [[i|] z]; by eexists. }
  destruct Hz as (i & Hi & Hst). cbn [lpWriteEntries]. rewrite Hi, Hst.
  rewrite <- (app_assoc M1). rewrite wr_bytes_at by lia. cbn [mbind option_bind].
  rewrite (app_assoc P), <- (app_assoc M2).
  rewrite wr_bytes_at by (rewrite ?zlen_app, ?zlen_lpEncodeBacklen; lia). cbn [mbind option_bind].
  rewrite (app_assoc (P ++ arg_enc e)).
  destruct (IH ((P ++ arg_enc e) ++ lpEncodeBacklen (zlen (arg_enc e))) M3 R (Some (zlen P))) as (np & Hnp);
    [done|lia|].
  exists np. rewrite zlen_lpEncodeBacklen. rewrite !zlen_app, zlen_lpEncodeBacklen in Hnp. rewrite Hnp.
  unfold ent. rewrite <- !app_assoc. do 3 f_equal. rewrite !zlen_app. lia.
Qed.

(** [lpBatchInsert] before an element (or at the end) has the effect of
    inserting the given strings and integers one after the other, with a single
    reallocation, and [lpBatchAppend] that of appending them. *)
Theorem lpBatchInsert_refines lp es num entries i :
  lp_repr lp es num -> Forall arg_valid entries -> entries <> [] -> (i <= length es)%nat ->
  let es' := take i es ++ (arg_enc <$> entries) ++ drop i es in
  total_bytes es' < 2 ^ 32 ->
  exists lp' newp num', lpBatchInsert junk usable lp (pos es i) LP_BEFORE entries = Some (Some (lp', newp)) /\
    lp_repr lp' es' num' /\
    (i = length es -> lpBatchAppend junk usable lp entries = Some (Some (lp', newp))).
Proof.
  intros Hlp Hv Hne Hi es' Ht. pose proof Hlp as (Hve & Hto & Hnum & slack & Hl).
  set (x := arg_enc <$> entries) in *.
  assert (Hx : Forall valid_entry x).
  { apply list.Forall_fmap. eapply list.Forall_impl; [exact Hv|]. intros e He. by apply arg_enc_valid. }
  assert (Hnew : total_bytes es' = LP_HDR_SIZE + zlen (body (take i es)) + zlen (body x) + zlen (body (drop i es)) + 1)
    by (unfold es', total_bytes; rewrite !body_app; zlia).
  assert (Hold : total_bytes es = LP_HDR_SIZE + zlen (body (take i es)) + zlen (body (drop i es)) + 1).
  { unfold total_bytes. rewrite <- (take_drop i es) at 1. rewrite !body_app. zlia. }
  pose proof (zlen_nonneg (body x)). pose proof (zlen_nonneg (body (take i es))).
  pose proof (zlen_nonneg (body (drop i es))).
  assert (Hlen : 0 < zlen entries) by (destruct entries; [done|zlia]).
  assert (Hlx : zlen x = zlen entries) by (unfold zlen, x; by rewrite length_fmap).
  destruct (encode_entries entries 0 Hv) as (encs & Henc & ->); [lia|unfold LP_HDR_SIZE in *; fold x; lia|].
  fold x in Henc. rewrite Z.add_0_l in Henc.
  destruct (repr_block lp es num Hlp i i ltac:(lia)) as (s & Hb). rewrite Nat.sub_diag, take_0 in Hb.
  cbn [body] in Hb.
  destruct (insert_block junk usable Husable (total_bytes es) num (take i es) [] (drop i es) s x
    (total_bytes es) (total_bytes es')) as (lp2 & M & s' & Hmv & Hre & HM);
    [by apply Forall_drop|by eapply num_ok_range|by rewrite app_nil_l, take_drop|done|done| |].
  { cbn [body]. rewrite <- Hb. by eapply zlen_lp. }
  cbn [body] in Hmv. rewrite <- Hb, zlen_nil, Z.add_0_r in Hmv.
  rewrite (proj2 (Z.ltb_ge _ _)) in Hre by lia. subst lp2.
  assert (Hins : exists newp, lpBatchInsert junk usable lp (pos es i) LP_BEFORE entries =
    Some (Some (block (total_bytes es') (if num =? LP_HDR_NUMELE_UNKNOWN then num
       else if zlen entries >? LP_HDR_NUMELE_UNKNOWN - num then LP_HDR_NUMELE_UNKNOWN else num + zlen entries)
       (take i es) (body x) (drop i es) s', newp))).
  { unfold lpBatchInsert. rewrite (bool_decide_true (LP_BEFORE <> LP_REPLACE)) by done. cbn [cassert mbind option_bind].
    rewrite Z.gtb_ltb, (proj2 (Z.ltb_lt 0 _)) by lia. cbn [cassert mbind option_bind].
    rewrite (bool_decide_false (LP_BEFORE = LP_AFTER)) by done. cbn [mbind option_bind]. rewrite Henc, (repr_total _ _ _ Hlp).
    cbn [mbind option_bind]. rewrite wrapu_id by (unfold LP_HDR_SIZE in *; lia).
    replace (total_bytes es + zlen (body x)) with (total_bytes es') by lia.
    rewrite (Z.gtb_ltb _ UINT32_MAX), (proj2 (Z.ltb_ge _ _)) by (unfold UINT32_MAX; lia).
    unfold lp_malloc_size. change (pos es i) with (LP_HDR_SIZE + zlen (body (take i es))).
    replace (total_bytes es - (LP_HDR_SIZE + zlen (body (take i es)))) with (zlen (body (drop i es)) + 1) by lia.
    rewrite Hmv. cbn [mbind option_bind].
    destruct (write_entries entries (hdr (total_bytes es) num ++ body (take i es)) M
      ((body (drop i es) ++ [LP_EOF]) ++ s') None Hv HM) as (newp & Hwr).
    replace (zlen (hdr (total_bytes es) num ++ body (take i es)))
      with (LP_HDR_SIZE + zlen (body (take i es))) in Hwr by (unfold LP_HDR_SIZE; zlia).
    exists newp. unfold block at 1. rewrite Hwr. cbn [mbind option_bind]. fold x.
    change ((hdr (total_bytes es) num ++ body (take i es)) ++ body x ++ (body (drop i es) ++ [LP_EOF]) ++ s')
      with (block (total_bytes es) num (take i es) (body x) (drop i es) s').
    rewrite get_num_block by (by eapply num_ok_range). cbn [mbind option_bind].
    destruct (num =? LP_HDR_NUMELE_UNKNOWN); cbn [negb mbind option_bind].
    - by rewrite set_total_block.
    - destruct (zlen entries >? LP_HDR_NUMELE_UNKNOWN - num); rewrite set_num_block; cbn [mbind option_bind]; by rewrite set_total_block. }
  destruct Hins as (newp & Hins). eexists _, newp, _. split; [exact Hins|]. split.
  - split; [apply list.Forall_app; split; [by apply Forall_take|apply list.Forall_app; split; [done|by apply Forall_drop]]|].
    split; [done|]. split; [|exists s'; by rewrite block_repr].
    assert (Hl' : zlen es' = zlen es + zlen entries).
    { unfold es'. rewrite !zlen_app, Hlx. unfold zlen. rewrite length_take, length_drop. lia. }
    unfold num_ok, LP_HDR_NUMELE_UNKNOWN in *. rewrite Z.gtb_ltb.
    destruct (Z.eqb_spec num 65535); [by right|]. destruct Hnum as [[-> Hn]|?]; [|done].
    destruct (Z.ltb_spec (65535 - zlen es) (zlen entries)); [by right|]. lia.
  - intros Heq. rewrite <- Hins. unfold lpBatchAppend. rewrite (repr_total _ _ _ Hlp).
    cbn [mbind option_bind]. by rewrite pos_all by lia.
Qed.

(** ** Merging and copying *)

Lemma lp_realloc_repr lp es num n :
  lp_repr lp es num -> total_bytes es <= n ->
  exists s, lp_realloc junk usable lp n = hdr (total_bytes es) num ++ (body es ++ [LP_EOF]) ++ s /\
    n <= zlen (hdr (total_bytes es) num ++ (body es ++ [LP_EOF]) ++ s).
Proof.
  intros (_ & _ & _ & slack & ->) Hn.
  destruct (lp_realloc_block junk usable Husable (total_bytes es) num [] [] es slack n) as (s & Hs & Hz).
  { cbn [body]. unfold total_bytes in Hn. zlia. }
  exists s. unfold block in *. cbn [body] in *. rewrite app_nil_r, app_nil_l in *.
  rewrite <- !app_assoc in *. done.
Qed.

(** Merging two listpacks yields a well-formed listpack with the elements
    of the first followed by those of the second, whichever of the two blocks is
    kept. *)
Theorem lpMerge_refines lp1 es1 num1 lp2 es2 num2 :
  lp_repr lp1 es1 num1 -> lp_repr lp2 es2 num2 -> total_bytes (es1 ++ es2) < UINT32_MAX ->
  exists lp num, lpMerge junk usable lp1 lp2 =
      Some (lp, bool_decide (total_bytes es2 <= total_bytes es1)) /\
    lp_repr lp (es1 ++ es2) num.
Proof.
  intros H1 H2 Ht.
  destruct (nav_length _ _ _ H1) as (l1 & n1 & Hlen1 & Hr1 & _).
  destruct (nav_length _ _ _ H2) as (l2 & n2 & Hlen2 & Hr2 & _).
  pose proof (zlen_es_u32 _ _ _ H1). pose proof (zlen_es_u32 _ _ _ H2).
  assert (Htb : total_bytes (es1 ++ es2) = total_bytes es1 + total_bytes es2 - LP_HDR_SIZE - 1)
    by (unfold total_bytes; rewrite body_app; zlia).
  assert (Hp1 : LP_HDR_SIZE + 1 <= total_bytes es1) by (unfold total_bytes; zlia).
  assert (Hp2 : LP_HDR_SIZE + 1 <= total_bytes es2) by (unfold total_bytes; zlia).
  unfold LP_HDR_SIZE in Hp1, Hp2, Htb. unfold UINT32_MAX in Ht.
  unfold lpMerge, lpBytes. rewrite (repr_total _ _ _ H1), (repr_total _ _ _ H2), Hlen1, Hlen2.
  cbn [mbind option_bind]. rewrite Z.geb_leb. unfold LP_HDR_SIZE.
  rewrite <- Htb, (wrapu_id 64 (total_bytes _)) by lia.
  zlen_facts. rewrite (wrapu_id 64 (zlen es1 + zlen es2)) by lia.
  set (num := if zlen es1 + zlen es2 <? 65535 then zlen es1 + zlen es2 else 65535).
  assert (Hnum : num_ok num (es1 ++ es2)).
  { unfold num, num_ok, LP_HDR_NUMELE_UNKNOWN. rewrite zlen_app.
    destruct (Z.ltb_spec (zlen es1 + zlen es2) 65535); lia. }
  assert (Hrepr : forall s, lp_repr (hdr (total_bytes (es1 ++ es2)) num ++ body (es1 ++ es2) ++ LP_EOF :: s)
    (es1 ++ es2) num).
  { intros s. split; [|split; [lia|split; [done|by exists s]]].
    destruct H1 as [? _], H2 as [? _]. by apply list.Forall_app. }
  clearbody num.
  destruct (Z.leb_spec (total_bytes es2) (total_bytes es1)) as [Hle|Hlt].
  - rewrite bool_decide_true by done.
    rewrite (proj2 (Z.ltb_lt (total_bytes (es1 ++ es2)) _)) by (unfold UINT32_MAX; lia).
    cbn [cassert mbind option_bind].
    destruct (lp_realloc_repr l1 es1 n1 (total_bytes (es1 ++ es2)) Hr1) as (s & -> & Hz); [lia|].
    destruct Hr2 as (_ & _ & _ & s2 & ->).
    replace (body es2 ++ LP_EOF :: s2) with ((body es2 ++ [LP_EOF]) ++ s2) by (by rewrite <- app_assoc).
    rewrite rd_bytes_at; [|by rewrite zlen_hdr|unfold total_bytes, LP_HDR_SIZE; zlia].
    cbn [mbind option_bind].
    destruct (split3 ([LP_EOF] ++ s) 0 (zlen (body es2 ++ [LP_EOF]))) as (x & y & c & Hs & Hx & Hy);
      [lia|zlia| |].
    { unfold total_bytes, LP_HDR_SIZE in Hz. rewrite body_app in Hz. zlia. }
    apply zlen_0_nil in Hx as ->. rewrite app_nil_l in Hs.
    replace (hdr (total_bytes es1) n1 ++ (body es1 ++ [LP_EOF]) ++ s)
      with ((hdr (total_bytes es1) n1 ++ body es1) ++ y ++ c) by (rewrite <- Hs, <- !app_assoc; done).
    rewrite wr_bytes_at; [|unfold total_bytes, LP_HDR_SIZE; zlia|done]. cbn [mbind option_bind].
    rewrite <- !app_assoc, set_num. cbn [mbind option_bind]. rewrite set_total. cbn [mbind option_bind].
    eexists _, num. split; [done|]. specialize (Hrepr c). rewrite body_app, <- app_assoc in Hrepr. done.
  - rewrite bool_decide_false by lia.
    rewrite (proj2 (Z.ltb_lt (total_bytes (es1 ++ es2)) _)) by (unfold UINT32_MAX; lia).
    cbn [cassert mbind option_bind].
    destruct (lp_realloc_repr l2 es2 n2 (total_bytes (es1 ++ es2)) Hr2) as (s & -> & Hz); [lia|].
    destruct Hr1 as (_ & _ & _ & s1 & ->).
    destruct (memmove_app (hdr (total_bytes es2) n2) [] (body es2 ++ [LP_EOF]) s (zlen (body es1))
      (total_bytes es1 - 1) 6 (total_bytes es2 - 6)) as (M & s' & Hmv & HM & _).
    1-3: by unfold total_bytes, LP_HDR_SIZE; zlia.
    1: zlia.
    { rewrite app_nil_l. unfold total_bytes, LP_HDR_SIZE in *. rewrite body_app in Hz. zlia. }
    rewrite app_nil_l in Hmv. rewrite Hmv. cbn [mbind option_bind].
    replace (hdr (total_bytes es1) n1 ++ body es1 ++ LP_EOF :: s1) with
      ((hdr (total_bytes es1) n1 ++ body es1) ++ LP_EOF :: s1) by (by rewrite <- app_assoc).
    rewrite rd_bytes_head by (unfold total_bytes, LP_HDR_SIZE; zlia). cbn [mbind option_bind].
    rewrite (app_assoc _ M). rewrite wr_bytes_head by zlia. cbn [mbind option_bind].
    rewrite <- !app_assoc, set_num. cbn [mbind option_bind]. rewrite set_total. cbn [mbind option_bind].
    eexists _, num. split; [done|]. specialize (Hrepr s'). rewrite body_app, <- app_assoc in Hrepr. done.
Qed.

(** A copy represents the same list and has no unused bytes before its
    allocation's. *)
Lemma dup_spec lp es num :
  lp_repr lp es num -> exists lp', lpDup junk usable lp = Some lp' /\ lp_repr lp' es num.
Proof.
  intros Hlp. pose proof Hlp as (Hv & Ht & Hn & s & Hl). unfold lpDup, lpBytes.
  rewrite (repr_total _ _ _ Hlp). cbn [mbind option_bind].
  assert (Hl' : lp = (hdr (total_bytes es) num ++ body es ++ [LP_EOF]) ++ s) by (by rewrite Hl, <- !app_assoc).
  rewrite Hl', rd_bytes_head by (unfold total_bytes, LP_HDR_SIZE; zlia). cbn [mbind option_bind].
  set (src := hdr (total_bytes es) num ++ body es ++ [LP_EOF]).
  assert (Hsrc : zlen src = total_bytes es) by (unfold src, total_bytes, LP_HDR_SIZE; zlia).
  pose proof (Husable (total_bytes es) ltac:(zlia)). unfold lp_malloc.
  assert (Hz : zlen (realloc junk [] (usable (total_bytes es))) = usable (total_bytes es))
    by (apply zlen_realloc; zlia).
  destruct (split3 (realloc junk [] (usable (total_bytes es))) 0 (total_bytes es)) as (x & y & c & -> & Hx & Hy);
    [lia|zlia|lia|].
  apply zlen_0_nil in Hx as ->. rewrite app_nil_l, wr_bytes_head by lia.
  eexists. split; [done|]. split; [done|]. split; [done|]. split; [done|]. exists c. unfold src.
  by rewrite <- !app_assoc.
Qed.

(** ** Deleting several elements

    [gs] describes the end of the list as groups: an element to delete and the
    elements to keep that follow it. *)

Fixpoint grouped (gs : list (list Z * list (list Z))) : list (list Z) :=
  match gs with [] => [] | (d, k) :: gs => d :: k ++ grouped gs end.
Fixpoint kept (gs : list (list Z * list (list Z))) : list (list Z) :=
  match gs with [] => [] | (_, k) :: gs => k ++ kept gs end.
Fixpoint starts (o : Z) (gs : list (list Z * list (list Z))) : list Z :=
  match gs with [] => [] | (d, k) :: gs => o :: starts (o + zlen (ent d) + zlen (body k)) gs end.

Lemma memmove_left p m t r :
  exists g, memmove (p ++ m ++ t ++ r) (zlen p) (zlen p + zlen m) (zlen t) = Some (p ++ t ++ g ++ r) /\
    zlen g = zlen m.
Proof.
  unfold memmove. replace (p ++ m ++ t ++ r) with ((p ++ m) ++ t ++ r) by (by rewrite <- app_assoc).
  rewrite rd_bytes_at by (rewrite ?zlen_app; lia). cbn [mbind option_bind].
  destruct (split3 (m ++ t) 0 (zlen t)) as (x & y & g & Hs & Hx & Hy); [lia|zlia|zlia|].
  apply zlen_0_nil in Hx as ->. rewrite app_nil_l in Hs.
  exists g. replace ((p ++ m) ++ t ++ r) with (p ++ y ++ (g ++ r)).
  - rewrite wr_bytes_at by done. split; [done|]. apply (f_equal zlen) in Hs. zlia.
  - rewrite <- app_assoc, (app_assoc m), Hs. by rewrite <- !app_assoc.
Qed.

Lemma batch_loop gs : forall P G s lp_end,
  gs <> [] -> Forall valid_entry (grouped gs) ->
  lp_end = zlen P + zlen G + zlen (body (grouped gs)) + 1 ->
  exists s', lpBatchDelete_loop (P ++ G ++ body (grouped gs) ++ [LP_EOF] ++ s)
      (starts (zlen P + zlen G) gs) lp_end (zlen P) =
    Some (P ++ body (kept gs) ++ [LP_EOF] ++ s', zlen P + zlen (body (kept gs)) + 1).
Proof.
  induction gs as [|[d k] gs IH]; intros P G s lp_end Hne Hv Hend; [done|].
  cbn [grouped kept starts body] in *. apply list.Forall_cons in Hv as [Hd Hv].
  apply list.Forall_app in Hv as [Hk Hv]. rewrite !body_app in *.
  cbn [lpBatchDelete_loop]. rewrite <- !app_assoc.
  set (R := body k ++ body (grouped gs) ++ [LP_EOF] ++ s).
  assert (Hbuf : P ++ G ++ ent d ++ R = (P ++ G) ++ ent d ++ R) by (by rewrite <- app_assoc).
  destruct (head_at d Hd (P ++ G) R) as (b & Hb & _ & Hbne & _).
  rewrite Hbuf. rewrite <- (zlen_app P G), Hb. cbn [mbind option_bind]. rewrite Hbne.
  cbn [negb cassert mbind option_bind]. rewrite skip_at by done. cbn [mbind option_bind].
  rewrite <- Hbuf. clear Hb Hbne b.
  destruct gs as [|[d' k'] gs].
  - (* the last one: keep the rest and the terminator *)
    cbn [starts grouped kept body] in *. rewrite bool_decide_false by naive_solver. cbn [andb].
    rewrite !zlen_app, zlen_nil in Hend. rewrite zlen_app.
    rewrite (proj2 (Z.ltb_lt _ lp_end)) by zlia. cbn [cassert mbind option_bind].
    destruct (memmove_left P (G ++ ent d) (body k ++ [LP_EOF]) s) as (g & Hmv & Hg).
    replace (P ++ G ++ ent d ++ R) with (P ++ (G ++ ent d) ++ (body k ++ [LP_EOF]) ++ s)
      by (unfold R; by rewrite <- !app_assoc).
    replace (memmove _ (zlen P) (zlen P + zlen G + zlen (ent d)) _) with
      (Some (P ++ (body k ++ [LP_EOF]) ++ g ++ s)).
    2:{ rewrite <- Hmv. f_equal; zlia. }
    cbn [mbind option_bind lpBatchDelete_loop]. exists (g ++ s). rewrite !app_nil_r, <- !app_assoc.
    do 2 f_equal. zlia.
  - set (gs1 := (d', k') :: gs) in *.
    rewrite (bool_decide_true (_ <> [])) by (unfold gs1; done). cbn [andb].
    assert (Hhd : match starts (zlen (P ++ G) + zlen (ent d) + zlen (body k)) gs1 with
      | [] => lp_end | q :: _ => q end = zlen (P ++ G) + zlen (ent d) + zlen (body k)) by done.
    rewrite Hhd. pose proof (zlen_nonneg (body k)).
    destruct (Z.eqb_spec (zlen (P ++ G) + zlen (ent d)) (zlen (P ++ G) + zlen (ent d) + zlen (body k))) as [E|E].
    + assert (Hk0 : body k = []) by (apply zlen_0_nil; lia).
      rewrite Hk0, zlen_nil, Z.add_0_r. unfold R. rewrite Hk0, app_nil_l.
      destruct (IH P (G ++ ent d) s lp_end) as (s' & Hl); [done|done| |].
      { rewrite !zlen_app in *. rewrite Hk0, zlen_nil in Hend. lia. }
      exists s'. rewrite app_nil_l.
      replace (zlen P + zlen (G ++ ent d)) with (zlen (P ++ G) + zlen (ent d)) in Hl by zlia.
      rewrite <- Hl. f_equal. by rewrite <- !app_assoc.
    + rewrite (proj2 (Z.ltb_lt _ _)) by lia. cbn [cassert mbind option_bind].
      destruct (memmove_left P (G ++ ent d) (body k) (body (grouped gs1) ++ [LP_EOF] ++ s)) as (g & Hmv & Hg).
      replace (P ++ G ++ ent d ++ R) with (P ++ (G ++ ent d) ++ body k ++ (body (grouped gs1) ++ [LP_EOF] ++ s))
        by (unfold R; by rewrite <- !app_assoc).
      replace (memmove _ (zlen P) (zlen (P ++ G) + zlen (ent d)) _) with
        (Some (P ++ body k ++ g ++ body (grouped gs1) ++ [LP_EOF] ++ s)).
      2:{ rewrite <- Hmv. f_equal; zlia. }
      cbn [mbind option_bind].
      destruct (IH (P ++ body k) g s lp_end) as (s' & Hl); [done|done|rewrite !zlen_app in *; lia|].
      exists s'. rewrite <- !app_assoc in Hl.
      replace (zlen (P ++ body k) + zlen g) with (zlen (P ++ G) + zlen (ent d) + zlen (body k)) in Hl by zlia.
      replace (zlen P + (zlen (P ++ G) + zlen (ent d) + zlen (body k) - (zlen (P ++ G) + zlen (ent d))))
        with (zlen (P ++ body k)) by zlia.
      rewrite Hl, !zlen_app. rewrite <- !app_assoc. do 2 f_equal. lia.
Qed.

(** [lpBatchDelete] of elements given in list order removes exactly them and
    keeps every other element in order. *)
Theorem lpBatchDelete_refines lp a gs num :
  lp_repr lp (a ++ grouped gs) num ->
  exists lp' num', lpBatchDelete junk usable lp (starts (LP_HDR_SIZE + zlen (body a)) gs) = Some lp' /\
    lp_repr lp' (a ++ kept gs) num'.
Proof.
  intros Hlp. destruct gs as [|g0 gs0]; [by exists lp, num|].
  set (gs := g0 :: gs0) in *. pose proof Hlp as (Hv & Ht & Hnum & s & Hl).
  assert (Hst : exists rest, starts (LP_HDR_SIZE + zlen (body a)) gs = (LP_HDR_SIZE + zlen (body a)) :: rest)
    by (unfold gs; destruct g0; by eexists).
  unfold lpBatchDelete. destruct Hst as [rest Hst]. rewrite Hst.
  rewrite (repr_total _ _ _ Hlp). cbn [mbind option_bind].
  pose proof (nav_eof _ _ _ Hlp (length (a ++ grouped gs)) ltac:(lia)) as Hlast.
  rewrite pos_all in Hlast by lia. rewrite Hlast. cbn [mbind option_bind]. rewrite Z.eqb_refl. cbn [cassert mbind option_bind].
  set (P := hdr (total_bytes (a ++ grouped gs)) num ++ body a).
  assert (HP : zlen P = LP_HDR_SIZE + zlen (body a)) by (unfold P, LP_HDR_SIZE; zlia).
  apply list.Forall_app in Hv as [Hva Hvg].
  destruct (batch_loop gs P [] s (total_bytes (a ++ grouped gs))) as (s' & Hloop); [done|done| |].
  { rewrite HP, zlen_nil. unfold total_bytes. rewrite body_app. zlia. }
  rewrite zlen_nil, Z.add_0_r, HP, app_nil_l in Hloop.
  replace (P ++ body (grouped gs) ++ [LP_EOF] ++ s) with lp in Hloop
    by (rewrite Hl; unfold P; rewrite body_app, <- !app_assoc; done).
  rewrite Hst in Hloop. rewrite Hloop. cbn [mbind option_bind].
  set (es' := a ++ kept gs).
  assert (Ht' : total_bytes (a ++ grouped gs) - (total_bytes (a ++ grouped gs) -
    (LP_HDR_SIZE + zlen (body a) + zlen (body (kept gs)) + 1)) = total_bytes es').
  { unfold es', total_bytes. rewrite body_app. zlia. }
  rewrite Ht'.
  assert (Hblk : P ++ body (kept gs) ++ [LP_EOF] ++ s' =
    block (total_bytes (a ++ grouped gs)) num a [] (kept gs) s') by (unfold P, block; by rewrite <- !app_assoc).
  rewrite Hblk.
  assert (Heof : rd (block (total_bytes (a ++ grouped gs)) num a [] (kept gs) s') (total_bytes es' - 1) = Some LP_EOF).
  { rewrite <- Hblk. rewrite app_assoc. apply rd_at. rewrite zlen_app, HP. unfold es', total_bytes.
    rewrite body_app. zlia. }
  rewrite Heof. cbn [mbind option_bind]. rewrite Z.eqb_refl. cbn [cassert mbind option_bind].
  rewrite set_total_block. cbn [mbind option_bind]. rewrite get_num_block by (by eapply num_ok_range).
  cbn [mbind option_bind].
  assert (Hcnt : forall o l, zlen (starts o l) = zlen l /\ zlen (grouped l) = zlen l + zlen (kept l)).
  { intros o l. revert o. induction l as [|[d k] l IH]; intros o; [done|]. cbn [starts grouped kept].
    destruct (IH (o + zlen (ent d) + zlen (body k))). rewrite !zlen_cons, !zlen_app. lia. }
  destruct (Hcnt (LP_HDR_SIZE + zlen (body a)) gs) as [Hc1 Hc2]. rewrite Hst in Hc1. rewrite Hc1.
  assert (Hset : (if negb (num =? LP_HDR_NUMELE_UNKNOWN)
     then lpSetNumElements (block (total_bytes es') num a [] (kept gs) s') (num - zlen gs)
     else Some (block (total_bytes es') num a [] (kept gs) s')) =
     Some (block (total_bytes es') (num_add num (- zlen gs)) a [] (kept gs) s')).
  { unfold num_add. destruct (Z.eqb_spec num LP_HDR_NUMELE_UNKNOWN); cbn [negb]; [done|].
    by rewrite set_num_block. }
  rewrite Hset. cbn [mbind option_bind].
  assert (Htr : 0 <= total_bytes es' < 2 ^ 32).
  { assert (Hle : forall l, zlen (body (kept l)) <= zlen (body (grouped l))).
    { induction l as [|[d k] l IH]; [done|]. cbn [kept grouped body]. rewrite !body_app. zlia. }
    specialize (Hle gs). unfold es', total_bytes, LP_HDR_SIZE in *. rewrite body_app in *. zlia. }
  destruct (shrink_block (total_bytes es') (num_add num (- zlen gs)) a (kept gs) s' Htr) as (s2 & ->).
  { unfold es', total_bytes. rewrite body_app. zlia. }
  exists (block (total_bytes es') (num_add num (- zlen gs)) a [] (kept gs) s2), (num_add num (- zlen gs)).
  split; [done|]. split; [|split; [lia|split; [|exists s2; apply (block_repr _ _ a [])]]].
  - apply list.Forall_app. split; [done|]. clear -Hvg. induction gs as [|[d k] gs IH]; [constructor|].
    cbn [kept grouped] in *. apply list.Forall_cons in Hvg as [_ Hvg]. apply list.Forall_app in Hvg as [??].
    apply list.Forall_app. auto.
  - apply (num_ok_add num (a ++ grouped gs)); [done|unfold es'; rewrite !zlen_app; lia|zlia|].
    unfold num_add. destruct (Z.eqb_spec num LP_HDR_NUMELE_UNKNOWN) as [->|]; [done|].
    destruct Hnum as [[-> _]|?]; [|done]. rewrite zlen_app. zlia.
Qed.
End Bulk.

Lemma lpPush_refines_witness :
  exists lp' num', lpAppendInteger (fun _ => 0) (fun n => n) sample_lp 7 = Some (Some (lp', Some 12)) /\
    lp_repr lp' [[130; 104; 105]; [5]; [7]] num'.
Proof.
  apply (proj1 (lpPush_refines (fun _ => 0) (fun n => n) id_usable sample_lp [[130; 104; 105]; [5]] 2
    (LVal 7) sample_repr ltac:(split; by vm_compute) ltac:(by vm_compute))).
Defined.

Lemma lpDeleteRange_refines_witness :
  exists lp' num', lpDeleteRange (fun _ => 0) (fun n => n) sample_lp (-1) 3 = Some lp' /\
    lp_repr lp' [[130; 104; 105]] num'.
Proof.
  apply (lpDeleteRange_refines (fun _ => 0) (fun n => n) id_usable sample_lp [[130; 104; 105]; [5]] 2
    (-1) 3 sample_repr); [by vm_compute|lia].
Defined.

Lemma lpBatchInsert_refines_witness :
  exists lp' newp num', lpBatchInsert (fun _ => 0) (fun n => n) sample_lp 6 LP_BEFORE [LVal 1; SVal [120]]
      = Some (Some (lp', newp)) /\
    lp_repr lp' [[1]; [129; 120]; [130; 104; 105]; [5]] num' /\
    (0%nat = 2%nat -> lpBatchAppend (fun _ => 0) (fun n => n) sample_lp [LVal 1; SVal [120]]
      = Some (Some (lp', newp))).
Proof.
  apply (lpBatchInsert_refines (fun _ => 0) (fun n => n) id_usable sample_lp [[130; 104; 105]; [5]] 2
    [LVal 1; SVal [120]] 0 sample_repr).
  - constructor; [split; by vm_compute|]. constructor; [|constructor].
    split; [repeat constructor; by vm_compute|by vm_compute].
  - done.
  - apply Nat.le_0_l.
  - by vm_compute.
Defined.

Lemma lpMerge_refines_witness :
  exists lp num, lpMerge (fun _ => 0) (fun n => n) sample_lp sample_lp = Some (lp, true) /\
    lp_repr lp [[130; 104; 105]; [5]; [130; 104; 105]; [5]] num.
Proof.
  apply (lpMerge_refines (fun _ => 0) (fun n => n) id_usable sample_lp [[130; 104; 105]; [5]] 2
    sample_lp [[130; 104; 105]; [5]] 2 sample_repr sample_repr). by vm_compute.
Defined.

Lemma lpBatchDelete_refines_witness :
  exists lp' num', lpBatchDelete (fun _ => 0) (fun n => n) sample_lp [10] = Some lp' /\
    lp_repr lp' [[130; 104; 105]] num'.
Proof.
  apply (lpBatchDelete_refines (fun _ => 0) (fun n => n) id_usable sample_lp [[130; 104; 105]] [([5], [])] 2
    sample_repr).
Defined.
