(* ===== verification/Dict.v ===== *)
(** * Hash tables with incremental rehashing (src/dict.c)

    A dict has two tables of buckets; while it is being resized, entries move
    bucket by bucket from table 0 to table 1.  A bucket is the list of its chain,
    the most recently inserted entry first; a table is the list of its buckets,
    and the NULL table is the empty list.  An entry is its key and value: the
    tagged-pointer encodings of [no_value] dicts change where a key is stored,
    not what a chain holds.  [ht_used] is a count of entries in memory and is
    not wrapped.

    The members of [dictType] that the code calls are parameters: [hash] is
    [hashFunction], keys are compared up to [keyCompare] (equality on [K]), and
    [resize_allowed] is [resizeAllowed] (a NULL member is the constant [true]).
    [can_resize] is the global [dict_can_resize] at the time of a call.  The
    notifications ([rehashingStarted], [rehashingCompleted], [bucketChanged])
    and destructors do not touch the dict and are left out.

    [None] is an out-of-range access, a NULL dereference or a failed assert. *)

From stdpp Require Import base list numbers option tactics gmap.
From S2P Require Import Prelude.

Definition HASHTABLE_MIN_FILL : Z := 8.
Definition DICT_HT_INITIAL_EXP : Z := 2.
Definition DICT_HT_INITIAL_SIZE : Z := Z.shiftl 1 DICT_HT_INITIAL_EXP.
Definition dict_force_resize_ratio : Z := 4.
Definition DICT_LONG_MAX : Z := INT64_MAX.

Inductive dictResizeEnable := DICT_RESIZE_ENABLE | DICT_RESIZE_AVOID | DICT_RESIZE_FORBID.

#[export] Instance dictResizeEnable_eq_dec : EqDecision dictResizeEnable.
Proof. solve_decision. Defined.

Definition DICTHT_SIZE (exp : Z) : Z := if exp =? -1 then 0 else Z.shiftl 1 exp.
Definition DICTHT_SIZE_MASK (exp : Z) : Z := if exp =? -1 then 0 else DICTHT_SIZE exp - 1.

(** [__builtin_clzll], for a positive argument. *)
Definition clzll (x : Z) : Z := 63 - Z.log2 x.

Definition dictNextExpForSize (size : Z) : Z :=
  if size <=? DICT_HT_INITIAL_SIZE then DICT_HT_INITIAL_EXP
  else if size >=? DICT_LONG_MAX then 8 * 8 - 1
  else 8 * 8 - clzll (size - 1).

Section Dict.
Context {K V : Type} `{EqDecision K}.
Context (hash : K -> Z) (resize_allowed : Z -> Z -> Z -> bool) (force_full_rehash : bool)
  (can_resize : dictResizeEnable).

(** [ht_table[i]], [ht_used[i]] and [ht_size_exp[i]]. *)
Record ht := { ht_table : list (list (K * V)); ht_used : Z; ht_size_exp : Z }.

Record dict := { ht0 : ht; ht1 : ht; rehashidx : Z; pauserehash : Z; pauseAutoResize : Z }.

Definition set_hts (d : dict) (h0 h1 : ht) (idx : Z) : dict :=
  {| ht0 := h0; ht1 := h1; rehashidx := idx; pauserehash := pauserehash d;
     pauseAutoResize := pauseAutoResize d |}.

Definition dictIsRehashing (d : dict) : bool := negb (rehashidx d =? -1).
Definition dictSize (d : dict) : Z := ht_used (ht0 d) + ht_used (ht1 d).

Definition dictPauseRehashing (d : dict) : dict :=
  {| ht0 := ht0 d; ht1 := ht1 d; rehashidx := rehashidx d; pauserehash := pauserehash d + 1;
     pauseAutoResize := pauseAutoResize d |}.
Definition dictResumeRehashing (d : dict) : dict :=
  {| ht0 := ht0 d; ht1 := ht1 d; rehashidx := rehashidx d; pauserehash := pauserehash d - 1;
     pauseAutoResize := pauseAutoResize d |}.

Definition dictPauseAutoResize (d : dict) : dict :=
  {| ht0 := ht0 d; ht1 := ht1 d; rehashidx := rehashidx d; pauserehash := pauserehash d;
     pauseAutoResize := pauseAutoResize d + 1 |}.
Definition dictResumeAutoResize (d : dict) : dict :=
  {| ht0 := ht0 d; ht1 := ht1 d; rehashidx := rehashidx d; pauserehash := pauserehash d;
     pauseAutoResize := pauseAutoResize d - 1 |}.

(** [_dictReset] of one table. *)
Definition _dictReset : ht := {| ht_table := []; ht_used := 0; ht_size_exp := -1 |}.

Definition _dictInit : dict :=
  {| ht0 := _dictReset; ht1 := _dictReset; rehashidx := -1; pauserehash := 0; pauseAutoResize := 0 |}.
Definition dictCreate : dict := _dictInit.

(** [t[idx]] and [t[idx] = c]. *)
Definition get_bucket (t : list (list (K * V))) (idx : Z) : option (list (K * V)) :=
  if 0 <=? idx then t !! Z.to_nat idx else None.
Definition set_bucket (t : list (list (K * V))) (idx : Z) (c : list (K * V)) : option (list (list (K * V))) :=
  _ ← get_bucket t idx; Some (<[Z.to_nat idx := c]> t).

(** ** Rehashing *)

(** The [while (de)] loop of [rehashEntriesInBucketAtIndex] over a chain. *)
Fixpoint rehash_chain (h0 h1 : ht) (idx : Z) (de : list (K * V)) : option (ht * ht) :=
  match de with
  | [] => Some (h0, h1)
  | (k, v) :: nextde =>
      let h := if ht_size_exp h1 >? ht_size_exp h0
               then Z.land (hash k) (DICTHT_SIZE_MASK (ht_size_exp h1))
               else Z.land idx (DICTHT_SIZE_MASK (ht_size_exp h1)) in
      c ← get_bucket (ht_table h1) h;
      t1 ← set_bucket (ht_table h1) h ((k, v) :: c);
      rehash_chain {| ht_table := ht_table h0; ht_used := ht_used h0 - 1; ht_size_exp := ht_size_exp h0 |}
        {| ht_table := t1; ht_used := ht_used h1 + 1; ht_size_exp := ht_size_exp h1 |} idx nextde
  end.

Definition rehashEntriesInBucketAtIndex (d : dict) (idx : Z) : option dict :=
  de ← get_bucket (ht_table (ht0 d)) idx;
  '(h0, h1) ← rehash_chain (ht0 d) (ht1 d) idx de;
  t0 ← set_bucket (ht_table h0) idx [];
  Some (set_hts d {| ht_table := t0; ht_used := ht_used h0; ht_size_exp := ht_size_exp h0 |} h1 (rehashidx d)).

(** The dict, and whether rehashing is complete. *)
Definition dictCheckRehashingCompleted (d : dict) : dict * bool :=
  if negb (ht_used (ht0 d) =? 0) then (d, false)
  else (set_hts d (ht1 d) _dictReset (-1), true).

(** [while(d->ht_table[0][d->rehashidx] == NULL)]: the dict, [empty_visits], and
    whether the function returns 1 from here. *)
Fixpoint skip_empty (fuel : nat) (d : dict) (empty_visits : Z) : option (dict * Z * bool) :=
  match fuel with
  | O => None
  | S fuel =>
      c ← get_bucket (ht_table (ht0 d)) (rehashidx d);
      match c with
      | [] =>
          let d := set_hts d (ht0 d) (ht1 d) (rehashidx d + 1) in
          let empty_visits := empty_visits - 1 in
          if empty_visits =? 0 then Some (d, empty_visits, true)
          else skip_empty fuel d empty_visits
      | _ :: _ => Some (d, empty_visits, false)
      end
  end.

(** [while(n-- && d->ht_used[0] != 0)]: the dict, and whether the function
    returns 1 from inside of the loop. *)
Fixpoint dictRehash_loop (n : nat) (d : dict) (empty_visits : Z) : option (dict * bool) :=
  match n with
  | O => Some (d, false)
  | S n =>
      if ht_used (ht0 d) =? 0 then Some (d, false)
      else
        _ ← cassert (DICTHT_SIZE (ht_size_exp (ht0 d)) >? rehashidx d);
        '(d, empty_visits, stop) ← skip_empty (S (length (ht_table (ht0 d)))) d empty_visits;
        if (stop : bool) then Some (d, true)
        else
          d ← rehashEntriesInBucketAtIndex d (rehashidx d);
          dictRehash_loop n (set_hts d (ht0 d) (ht1 d) (rehashidx d + 1)) empty_visits
  end.

(** The guard shared by [dictRehash] and [_dictBucketRehash]. *)
Definition rehash_forbidden (d : dict) : bool :=
  let s0 := DICTHT_SIZE (ht_size_exp (ht0 d)) in
  let s1 := DICTHT_SIZE (ht_size_exp (ht1 d)) in
  bool_decide (can_resize = DICT_RESIZE_FORBID) || negb (dictIsRehashing d) ||
  (bool_decide (can_resize = DICT_RESIZE_AVOID) &&
   (((s1 >? s0) && (s1 <? dict_force_resize_ratio * s0)) ||
    ((s1 <? s0) && (s0 <? HASHTABLE_MIN_FILL * dict_force_resize_ratio * s1)))).

(** The result is true when there are still keys to move. *)
Definition dictRehash (d : dict) (n : Z) : option (dict * bool) :=
  let empty_visits := n * 10 in
  if rehash_forbidden d then Some (d, false)
  else
    '(d, stop) ← dictRehash_loop (Z.to_nat n) d empty_visits;
    if (stop : bool) then Some (d, true)
    else let '(d, done) := dictCheckRehashingCompleted d in Some (d, negb done).

(** The loop of [dictRehashMicroseconds]; [expired i] is
    [elapsedUs(timer) >= us] after call [i]. *)
Fixpoint rehash_timed (fuel : nat) (expired : nat -> bool) (i : nat) (d : dict) (rehashes : Z)
    : option (dict * Z) :=
  match fuel with
  | O => None
  | S fuel =>
      '(d, more) ← dictRehash d 100;
      if (more : bool) then
        let rehashes := rehashes + 100 in
        if expired i then Some (d, rehashes) else rehash_timed fuel expired (S i) d rehashes
      else Some (d, rehashes)
  end.

Definition dictRehashMicroseconds (expired : nat -> bool) (d : dict) : option (dict * Z) :=
  if pauserehash d >? 0 then Some (d, 0)
  else rehash_timed (S (length (ht_table (ht0 d)))) expired 0 d 0.

Definition _dictRehashStep (d : dict) : option dict :=
  if pauserehash d =? 0 then ('(d, _) ← dictRehash d 1; Some d) else Some d.

Definition _dictBucketRehash (d : dict) (idx : Z) : option (dict * bool) :=
  if negb (pauserehash d =? 0) then Some (d, false)
  else if rehash_forbidden d then Some (d, false)
  else
    d ← rehashEntriesInBucketAtIndex d idx;
    let '(d, _) := dictCheckRehashingCompleted d in
    Some (d, true).

Definition _dictRehashStepIfNeeded (d : dict) (visitedIdx : Z) : option dict :=
  if negb (dictIsRehashing d) || negb (pauserehash d =? 0) then Some d
  else if visitedIdx >=? rehashidx d then
    c ← get_bucket (ht_table (ht0 d)) visitedIdx;
    match c with
    | _ :: _ => '(d, _) ← _dictBucketRehash d visitedIdx; Some d
    | [] => '(d, _) ← dictRehash d 1; Some d
    end
  else ('(d, _) ← dictRehash d 1; Some d).

(** ** Resizing *)

(** [while (dictRehash(d, 1000))] *)
Fixpoint full_rehash (fuel : nat) (d : dict) : option dict :=
  match fuel with
  | O => None
  | S fuel =>
      '(d, more) ← dictRehash d 1000;
      if (more : bool) then full_rehash fuel d else Some d
  end.

(** [_dictResize(d, size, NULL)]; the boolean is [DICT_OK]. *)
Definition _dictResize (d : dict) (size : Z) : option (dict * bool) :=
  _ ← cassert (negb (dictIsRehashing d));
  let new_ht_size_exp := dictNextExpForSize size in
  let newsize := DICTHT_SIZE new_ht_size_exp in
  if (newsize <? size) || (u64 (newsize * 8) <? newsize) then Some (d, false)
  else if new_ht_size_exp =? ht_size_exp (ht0 d) then Some (d, false)
  else
    let new_ht := {| ht_table := replicate (Z.to_nat newsize) []; ht_used := 0; ht_size_exp := new_ht_size_exp |} in
    let d := set_hts d (ht0 d) new_ht 0 in
    if bool_decide (ht_table (ht0 d) = []) || (ht_used (ht0 d) =? 0)
    then Some (set_hts d new_ht _dictReset (-1), true)
    else if force_full_rehash then
      (d ← full_rehash (S (length (ht_table (ht0 d)))) d; Some (d, true))
    else Some (d, true).

Definition dictExpand (d : dict) (size : Z) : option (dict * bool) :=
  if dictIsRehashing d || (ht_used (ht0 d) >? size) || (DICTHT_SIZE (ht_size_exp (ht0 d)) >=? size)
  then Some (d, false)
  else _dictResize d size.

Definition dictShrink (d : dict) (size : Z) : option (dict * bool) :=
  if dictIsRehashing d || (ht_used (ht0 d) >? size) || (DICTHT_SIZE (ht_size_exp (ht0 d)) <=? size)
  then Some (d, false)
  else _dictResize d size.

(** The fill ratio given to [resizeAllowed] is the pair of its terms. *)
Definition dictTypeResizeAllowed (d : dict) (size : Z) : bool :=
  resize_allowed (u64 (DICTHT_SIZE (dictNextExpForSize size) * 8)) (ht_used (ht0 d))
    (DICTHT_SIZE (ht_size_exp (ht0 d))).

(** The boolean is [DICT_OK]. *)
Definition dictExpandIfNeeded (d : dict) : option (dict * bool) :=
  if dictIsRehashing d then Some (d, true)
  else
    let size0 := DICTHT_SIZE (ht_size_exp (ht0 d)) in
    let used0 := ht_used (ht0 d) in
    if size0 =? 0 then ('(d, _) ← dictExpand d DICT_HT_INITIAL_SIZE; Some (d, true))
    else if (bool_decide (can_resize = DICT_RESIZE_ENABLE) && (used0 >=? size0)) ||
            (bool_decide (can_resize <> DICT_RESIZE_FORBID) && (used0 >=? dict_force_resize_ratio * size0))
    then
      (if dictTypeResizeAllowed d (used0 + 1) then ('(d, _) ← dictExpand d (used0 + 1); Some (d, true))
       else Some (d, true))
    else Some (d, false).

Definition _dictExpandIfNeeded (d : dict) : option (dict * bool) :=
  if pauseAutoResize d >? 0 then Some (d, false) else dictExpandIfNeeded d.

Definition dictShrinkIfNeeded (d : dict) : option (dict * bool) :=
  if dictIsRehashing d then Some (d, true)
  else
    let size0 := DICTHT_SIZE (ht_size_exp (ht0 d)) in
    let used0 := ht_used (ht0 d) in
    if size0 <=? DICT_HT_INITIAL_SIZE then Some (d, true)
    else if (bool_decide (can_resize = DICT_RESIZE_ENABLE) && (used0 * HASHTABLE_MIN_FILL <=? size0)) ||
            (bool_decide (can_resize <> DICT_RESIZE_FORBID) &&
             (used0 * HASHTABLE_MIN_FILL * dict_force_resize_ratio <=? size0))
    then
      (if dictTypeResizeAllowed d used0 then ('(d, _) ← dictShrink d used0; Some (d, true))
       else Some (d, true))
    else Some (d, false).

Definition _dictShrinkIfNeeded (d : dict) : option dict :=
  if pauseAutoResize d >? 0 then Some d else ('(d, _) ← dictShrinkIfNeeded d; Some d).

(** ** Lookup *)

(** [while (he)] over a chain: the position of the key in it. *)
Fixpoint chain_pos (k : K) (c : list (K * V)) : option nat :=
  match c with
  | [] => None
  | (k', _) :: c => if decide (k = k') then Some O else S <$> chain_pos k c
  end.

(** A [dictEntryLink]: the table (false for 0), the bucket and the place in its
    chain. *)
Record link := { l_table : bool; l_idx : Z; l_pos : nat }.

Definition ht_of (d : dict) (table : bool) : ht := if table then ht1 d else ht0 d.

(** The search of one table. *)
Definition find_in (d : dict) (table : bool) (idx : Z) (k : K) : option (option link) :=
  c ← get_bucket (ht_table (ht_of d table)) idx;
  Some ((fun i => {| l_table := table; l_idx := idx; l_pos := i |}) <$> chain_pos k c).

(** [dictFindLinkInternal]: the link and the bucket ([*bucket]).  The address
    of bucket 0 of a NULL table is NULL, and the loop is not entered. *)
Definition dictFindLinkInternal (d : dict) (k : K) (want_bucket : bool)
    : option (dict * option link * option (bool * Z)) :=
  if negb want_bucket && (dictSize d =? 0) then Some (d, None, None)
  else
    let h := hash k in
    let idx := Z.land h (DICTHT_SIZE_MASK (ht_size_exp (ht0 d))) in
    d ← _dictRehashStepIfNeeded d idx;
    let rehashing := dictIsRehashing d in
    let idx0 := Z.land h (DICTHT_SIZE_MASK (ht_size_exp (ht0 d))) in
    let skip0 := idx <? rehashidx d in
    if bool_decide (ht_table (ht0 d) = []) then Some (d, None, None)
    else
    r0 ← (if skip0 then Some None else find_in d false idx0 k);
    match r0 with
    | Some l => Some (d, Some l, Some (false, idx0))
    | None =>
        if rehashing then
          let idx1 := Z.land h (DICTHT_SIZE_MASK (ht_size_exp (ht1 d))) in
          r1 ← find_in d true idx1 k;
          Some (d, r1, Some (true, idx1))
        else Some (d, None, if skip0 then None else Some (false, idx0))
    end.

Definition dictFindLink (d : dict) (k : K) (want_bucket : bool)
    : option (dict * option link * option (bool * Z)) :=
  if dictSize d =? 0 then Some (d, None, None) else dictFindLinkInternal d k want_bucket.

(** [*link] *)
Definition deref (d : dict) (l : link) : option (K * V) :=
  c ← get_bucket (ht_table (ht_of d (l_table l))) (l_idx l); c !! l_pos l.

Definition dictFind (d : dict) (k : K) : option (dict * option (K * V)) :=
  '(d, l, _) ← dictFindLink d k false;
  match l with
  | None => Some (d, None)
  | Some l => e ← deref d l; Some (d, Some e)
  end.

Definition dictFetchValue (d : dict) (k : K) : option (dict * option V) :=
  '(d, he) ← dictFind d k;
  Some (d, match he with Some (_, v) => Some v | None => None end).

(** ** Insertion *)

Inductive insert_link := Existing (l : link) | Bucket (table : bool) (idx : Z).

Definition dictFindLinkForInsert (d : dict) (k : K) : option (dict * insert_link) :=
  let h := hash k in
  let idx := Z.land h (DICTHT_SIZE_MASK (ht_size_exp (ht0 d))) in
  d ← _dictRehashStepIfNeeded d idx;
  '(d, _) ← _dictExpandIfNeeded d;
  let idx0 := Z.land h (DICTHT_SIZE_MASK (ht_size_exp (ht0 d))) in
  r0 ← (if idx <? rehashidx d then Some None else find_in d false idx0 k);
  match r0 with
  | Some l => Some (d, Existing l)
  | None =>
      if dictIsRehashing d then
        let idx1 := Z.land h (DICTHT_SIZE_MASK (ht_size_exp (ht1 d))) in
        r1 ← find_in d true idx1 k;
        match r1 with
        | Some l => Some (d, Existing l)
        | None => Some (d, Bucket true idx1)
        end
      else Some (d, Bucket false idx0)
  end.

(** Replace the contents of a bucket of a table, and its count. *)
Definition put_bucket (d : dict) (table : bool) (idx : Z) (c : list (K * V)) (used : Z) : option dict :=
  let h := ht_of d table in
  t ← set_bucket (ht_table h) idx c;
  let h := {| ht_table := t; ht_used := used; ht_size_exp := ht_size_exp h |} in
  Some (if table then set_hts d (ht0 d) h (rehashidx d) else set_hts d h (ht1 d) (rehashidx d)).

(** [dictInsertKeyAtLink], with the value that the caller then stores in the
    entry. *)
Definition dictInsertKeyAtLink (d : dict) (k : K) (v : V) (table : bool) (idx : Z) : option dict :=
  let htidx := dictIsRehashing d in
  _ ← cassert (eqb table htidx && (0 <=? idx) &&
               (idx <=? DICTHT_SIZE_MASK (ht_size_exp (ht_of d htidx))));
  c ← get_bucket (ht_table (ht_of d table)) idx;
  put_bucket d table idx ((k, v) :: c) (ht_used (ht_of d htidx) + 1).

(** [dictAddRaw]: the dict, and the existing entry if the key is there. *)
Definition dictAddRaw (d : dict) (k : K) (v : V) : option (dict * option link) :=
  '(d, position) ← dictFindLinkForInsert d k;
  match position with
  | Existing l => Some (d, Some l)
  | Bucket table idx => d ← dictInsertKeyAtLink d k v table idx; Some (d, None)
  end.

(** The boolean is [DICT_OK]. *)
Definition dictAdd (d : dict) (k : K) (v : V) : option (dict * bool) :=
  '(d, existing) ← dictAddRaw d k v;
  Some (d, bool_decide (existing = None)).

(** [dictSetVal] on the entry at a link. *)
Definition dictSetVal (d : dict) (l : link) (v : V) : option dict :=
  c ← get_bucket (ht_table (ht_of d (l_table l))) (l_idx l);
  '(k, _) ← c !! l_pos l;
  put_bucket d (l_table l) (l_idx l) (<[l_pos l := (k, v)]> c) (ht_used (ht_of d (l_table l))).

(** The [link] argument of [dictSetKeyAtLink]: a bucket with [newItem], an entry
    without; [None] is NULL. *)
Inductive key_link := NewItem (bucket : option (bool * Z)) | ExistingItem (l : option link).

(** [v] is the part of the stored key that is not compared. *)
Definition dictSetKeyAtLink (d : dict) (k : K) (v : V) (l : key_link) : option dict :=
  match l with
  | NewItem bucket =>
      let snap := (ht_size_exp (ht0 d), ht_size_exp (ht1 d)) in
      '(d, _) ← dictExpandIfNeeded d;
      '(d, bucket) ←
        (if bool_decide (snap <> (ht_size_exp (ht0 d), ht_size_exp (ht1 d)) \/ bucket = None) then
           ('(d, l, bucket) ← dictFindLinkInternal d k true;
            _ ← cassert (bool_decide (bucket <> None));
            _ ← cassert (bool_decide (l = None));
            Some (d, bucket))
         else Some (d, bucket));
      '(table, idx) ← bucket;
      dictInsertKeyAtLink d k v table idx
  | ExistingItem l =>
      '(d, l) ← match l with
                | Some l => Some (d, l)
                | None => '(d, l, _) ← dictFindLink d k false; l ← l; Some (d, l)
                end;
      c ← get_bucket (ht_table (ht_of d (l_table l))) (l_idx l);
      _ ← c !! l_pos l;
      put_bucket d (l_table l) (l_idx l) (<[l_pos l := (k, v)]> c) (ht_used (ht_of d (l_table l)))
  end.

Definition dictReplace (d : dict) (k : K) (v : V) : option (dict * bool) :=
  '(d, existing) ← dictAddRaw d k v;
  match existing with
  | None => Some (d, true)
  | Some l => d ← dictSetVal d l v; Some (d, false)
  end.

(** [dictAddOrFind]; [v] is the value that the caller stores in a new entry. *)
Definition dictAddOrFind (d : dict) (k : K) (v : V) : option (dict * (K * V)) :=
  '(d, existing) ← dictAddRaw d k v;
  match existing with
  | None => Some (d, (k, v))
  | Some l => e ← deref d l; Some (d, e)
  end.

(** ** Deletion *)

(** Unlink the entry at a link. *)
Definition unlink_at (d : dict) (l : link) : option dict :=
  c ← get_bucket (ht_table (ht_of d (l_table l))) (l_idx l);
  put_bucket d (l_table l) (l_idx l) (delete (l_pos l) c) (ht_used (ht_of d (l_table l)) - 1).

(** [dictGenericDelete]: the dict and the entry that was unlinked. *)
Definition dictGenericDelete (d : dict) (k : K) : option (dict * option (K * V)) :=
  if dictSize d =? 0 then Some (d, None)
  else
    let h := hash k in
    let idx := Z.land h (DICTHT_SIZE_MASK (ht_size_exp (ht0 d))) in
    d ← _dictRehashStepIfNeeded d idx;
    let idx0 := Z.land h (DICTHT_SIZE_MASK (ht_size_exp (ht0 d))) in
    r0 ← (if idx <? rehashidx d then Some None else find_in d false idx0 k);
    r ← match r0 with
        | Some l => Some (Some l)
        | None =>
            if dictIsRehashing d
            then find_in d true (Z.land h (DICTHT_SIZE_MASK (ht_size_exp (ht1 d)))) k
            else Some None
        end;
    match r with
    | None => Some (d, None)
    | Some l =>
        he ← deref d l;
        d ← unlink_at d l;
        d ← _dictShrinkIfNeeded d;
        Some (d, Some he)
    end.

Definition dictDelete (d : dict) (k : K) : option (dict * bool) :=
  '(d, he) ← dictGenericDelete d k;
  Some (d, match he with Some _ => true | None => false end).

Definition dictUnlink (d : dict) (k : K) : option (dict * option (K * V)) := dictGenericDelete d k.

(** [dictTwoPhaseUnlinkFind]; on success rehashing is paused. *)
Definition dictTwoPhaseUnlinkFind (d : dict) (k : K) : option (dict * option link) :=
  if dictSize d =? 0 then Some (d, None)
  else
    d ← (if dictIsRehashing d then _dictRehashStep d else Some d);
    let h := hash k in
    let idx := Z.land h (DICTHT_SIZE_MASK (ht_size_exp (ht0 d))) in
    r0 ← (if idx <? rehashidx d then Some None else find_in d false idx k);
    match r0 with
    | Some l => Some (dictPauseRehashing d, Some l)
    | None =>
        if dictIsRehashing d then
          r1 ← find_in d true (Z.land h (DICTHT_SIZE_MASK (ht_size_exp (ht1 d)))) k;
          match r1 with
          | Some l => Some (dictPauseRehashing d, Some l)
          | None => Some (d, None)
          end
        else Some (d, None)
    end.

Definition dictTwoPhaseUnlinkFree (d : dict) (plink : option link) : option dict :=
  match plink with
  | None => Some d
  | Some l =>
      d ← unlink_at d l;
      d ← _dictShrinkIfNeeded d;
      Some (dictResumeRehashing d)
  end.

(** The loop of [_dictClear]: the entries freed. *)
Fixpoint dictClear_loop (fuel : nat) (h : ht) (i : Z) (freed : list (K * V)) : option (list (K * V)) :=
  if (i <? DICTHT_SIZE (ht_size_exp h)) && (ht_used h >? 0) then
    match fuel with
    | O => None
    | S fuel =>
        he ← get_bucket (ht_table h) i;
        dictClear_loop fuel
          {| ht_table := ht_table h; ht_used := ht_used h - zlen he; ht_size_exp := ht_size_exp h |}
          (i + 1) (freed ++ he)
    end
  else Some freed.

(** [_dictClear] of one table: the entries freed, and the table reset. *)
Definition _dictClear (h : ht) : option (list (K * V) * ht) :=
  freed ← dictClear_loop (length (ht_table h)) h 0 []; Some (freed, _dictReset).

Definition dictEmpty (d : dict) : option (list (K * V) * dict) :=
  '(f0, h0) ← _dictClear (ht0 d);
  '(f1, h1) ← _dictClear (ht1 d);
  Some (f0 ++ f1, {| ht0 := h0; ht1 := h1; rehashidx := -1; pauserehash := 0; pauseAutoResize := 0 |}).

(** ** Iterators *)

(** The fingerprint of unsafe iterators is a hash of addresses and sizes used to
    detect misuse, and is left out: [safe] iterators pause rehashing. *)
Record dictIterator := {
  it_index : Z; it_table : bool; it_safe : bool;
  it_entry : option (K * V); it_nextEntry : list (K * V) }.

Definition dictInitIterator : dictIterator :=
  {| it_index := -1; it_table := false; it_safe := false; it_entry := None; it_nextEntry := [] |}.
Definition dictInitSafeIterator : dictIterator :=
  {| it_index := -1; it_table := false; it_safe := true; it_entry := None; it_nextEntry := [] |}.

(** [dictNext]: the dict (rehashing may be paused), the iterator and the entry.
    [nextEntry] is kept as the chain from that entry on. *)
Fixpoint dictNext (fuel : nat) (d : dict) (it : dictIterator) : option (dict * dictIterator * option (K * V)) :=
  match fuel with
  | O => None
  | S fuel =>
      let emit d it c :=
        match c with
        | e :: next => Some (d, {| it_index := it_index it; it_table := it_table it; it_safe := it_safe it;
                                   it_entry := Some e; it_nextEntry := next |}, Some e)
        | [] => dictNext fuel d {| it_index := it_index it; it_table := it_table it; it_safe := it_safe it;
                                   it_entry := None; it_nextEntry := [] |}
        end in
      match it_entry it with
      | Some _ => emit d it (it_nextEntry it)
      | None =>
          let first := (it_index it =? -1) && negb (it_table it) in
          let d := if first && it_safe it then dictPauseRehashing d else d in
          let index := if first && dictIsRehashing d then rehashidx d - 1 else it_index it in
          let index := index + 1 in
          if index >=? DICTHT_SIZE (ht_size_exp (ht_of d (it_table it))) then
            if dictIsRehashing d && negb (it_table it) then
              (c ← get_bucket (ht_table (ht1 d)) 0;
               emit d {| it_index := 0; it_table := true; it_safe := it_safe it; it_entry := None;
                         it_nextEntry := [] |} c)
            else
              Some (d, {| it_index := index; it_table := it_table it; it_safe := it_safe it;
                          it_entry := None; it_nextEntry := [] |}, None)
          else
            c ← get_bucket (ht_table (ht_of d (it_table it))) index;
            emit d {| it_index := index; it_table := it_table it; it_safe := it_safe it; it_entry := None;
                      it_nextEntry := [] |} c
      end
  end.

Definition dictResetIterator (d : dict) (it : dictIterator) : dict :=
  if negb ((it_index it =? -1) && negb (it_table it)) && it_safe it then dictResumeRehashing d else d.
End Dict.

Arguments ht : clear implicits.
Arguments dict : clear implicits.
