(* ===== verification/DictInv.v ===== *)
(** * Hash tables: invariant and refinement to finite maps

    [dict_wf d] is what every operation of [Dict] preserves; [dict_map d] is the
    finite map a dict stands for.  Rehashing and resizing permute the entries
    and leave the map alone; the public operations are the operations of
    finite maps. *)

From stdpp Require Import base list numbers option tactics gmap fin_maps.
From S2P Require Import Prelude Dict.

(** ** Buckets *)

Lemma concat_split {A} (t : list (list A)) j c :
  t !! j = Some c -> concat t = concat (take j t) ++ c ++ concat (drop (S j) t).
Proof.
  intros H. rewrite <- (take_drop_middle _ _ _ H) at 1. rewrite concat_app. done.
Qed.

Lemma concat_insert {A} (t : list (list A)) j c c' :
  t !! j = Some c -> concat (<[j := c']> t) = concat (take j t) ++ c' ++ concat (drop (S j) t).
Proof.
  intros H. rewrite insert_take_drop by (by eapply lookup_lt_Some). rewrite concat_app. done.
Qed.

(** Changing one chain changes the entries of the table accordingly. *)
Lemma concat_insert_perm {A} (t : list (list A)) j c c' x :
  t !! j = Some c -> c' ≡ₚ x ++ c -> concat (<[j := c']> t) ≡ₚ x ++ concat t.
Proof.
  intros H Hp. rewrite (concat_insert _ _ _ _ H), (concat_split _ _ _ H), Hp.
  rewrite !app_assoc. do 2 f_equiv. apply Permutation_app_comm.
Qed.

Lemma elem_of_concat {A} (t : list (list A)) x :
  x ∈ concat t <-> exists j c, t !! j = Some c /\ x ∈ c.
Proof.
  induction t as [|c t IH]; cbn.
  - split; [by intros ?%elem_of_nil|]. intros (j & c & H & _). by rewrite lookup_nil in H.
  - rewrite elem_of_app, IH. split.
    + intros [Hx|(j & c' & Hj & Hx)]; [by exists 0%nat, c|by exists (S j), c'].
    + intros ([|j] & c' & Hj & Hx); [left; by injection Hj as <-|right; by exists j, c'].
Qed.

Section Inv.
Context {K V : Type} `{Countable K}.
Context (hash : K -> Z).

Abbreviation ht := (ht K V).
Abbreviation dict := (dict K V).

(** The bucket of a key in a table of size [2^exp]. *)
Definition idx_of (exp : Z) (k : K) : Z := Z.land (hash k) (DICTHT_SIZE_MASK exp).

Lemma mask_mod exp x : 0 <= exp -> Z.land x (DICTHT_SIZE_MASK exp) = x mod 2 ^ exp.
Proof.
  intros He. unfold DICTHT_SIZE_MASK, DICTHT_SIZE. rewrite (proj2 (Z.eqb_neq exp (-1))) by lia.
  rewrite Z.shiftl_mul_pow2, Z.mul_1_l by lia. by apply land_ones.
Qed.

Lemma size_pow exp : 0 <= exp -> DICTHT_SIZE exp = 2 ^ exp.
Proof.
  intros He. unfold DICTHT_SIZE. rewrite (proj2 (Z.eqb_neq exp (-1))) by lia.
  by rewrite Z.shiftl_mul_pow2, Z.mul_1_l by lia.
Qed.

Lemma idx_of_range exp k : 0 <= exp -> 0 <= idx_of exp k < 2 ^ exp.
Proof. intros. unfold idx_of. rewrite mask_mod by done. apply Z.mod_pos_bound. lia. Qed.

(** A table: its size is a power of two, its count is exact and every entry is
    in the bucket of its key. *)
Record ht_wf (h : ht) : Prop := {
  hw_size : ht_size_exp h = -1 /\ ht_table h = [] \/
            0 <= ht_size_exp h <= 63 /\ zlen (ht_table h) = 2 ^ ht_size_exp h;
  hw_used : ht_used h = zlen (concat (ht_table h));
  hw_place : forall j c k v, ht_table h !! j = Some c -> (k, v) ∈ c ->
             idx_of (ht_size_exp h) k = Z.of_nat j }.

Definition entries (d : dict) : list (K * V) :=
  concat (ht_table (ht0 d)) ++ concat (ht_table (ht1 d)).

Record dict_wf (d : dict) : Prop := {
  dw_ht0 : ht_wf (ht0 d);
  dw_ht1 : ht_wf (ht1 d);
  dw_keys : NoDup (entries d).*1;
  dw_idle : rehashidx d = -1 -> ht_size_exp (ht1 d) = -1;
  dw_busy : rehashidx d <> -1 -> 0 <= rehashidx d <= 2 ^ ht_size_exp (ht0 d) /\
            0 <= ht_size_exp (ht0 d) /\ 0 <= ht_size_exp (ht1 d) /\
            forall j c, ht_table (ht0 d) !! j = Some c -> Z.of_nat j < rehashidx d -> c = [] }.

Definition dict_map (d : dict) : gmap K V := list_to_map (entries d).

(** The relation between the states before and after internal work. *)
Record preserves (d d' : dict) : Prop := {
  pr_wf : dict_wf d';
  pr_perm : entries d' ≡ₚ entries d;
  pr_pause : pauserehash d' = pauserehash d;
  pr_auto : pauseAutoResize d' = pauseAutoResize d;
  pr_table : ht_table (ht0 d) <> [] -> ht_table (ht0 d') <> [] }.

Lemma preserves_refl d : dict_wf d -> preserves d d.
Proof. by split. Qed.

Lemma preserves_trans d1 d2 d3 : preserves d1 d2 -> preserves d2 d3 -> preserves d1 d3.
Proof.
  intros [? P1 ? ? ?] [? P2 ? ? ?]. split; [done|by rewrite P2|congruence|congruence|auto].
Qed.

Lemma preserves_map d d' : dict_wf d -> preserves d d' -> dict_map d' = dict_map d.
Proof.
  intros Hd [? Hp _ _ _]. unfold dict_map. apply list_to_map_proper; [|done].
  rewrite Hp. by apply dw_keys.
Qed.

Lemma wf_of_perm_keys (es es' : list (K * V)) : es' ≡ₚ es -> NoDup es.*1 -> NoDup es'.*1.
Proof. intros ->. done. Qed.

Lemma get_bucket_Some (t : list (list (K * V))) idx : 0 <= idx < zlen t ->
  exists c, get_bucket t idx = Some c /\ t !! Z.to_nat idx = Some c.
Proof.
  intros Hi. unfold get_bucket. rewrite (proj2 (Z.leb_le _ _)) by lia.
  destruct (lookup_lt_is_Some_2 t (Z.to_nat idx)) as [c Hc]; [unfold zlen in Hi; lia|]. by exists c.
Qed.

Lemma get_bucket_inv (t : list (list (K * V))) idx c :
  get_bucket t idx = Some c -> 0 <= idx < zlen t /\ t !! Z.to_nat idx = Some c.
Proof.
  unfold get_bucket. destruct (Z.leb_spec 0 idx); [|done]. intros Hc. split; [|done].
  apply lookup_lt_Some in Hc. unfold zlen. lia.
Qed.

Lemma set_bucket_Some (t : list (list (K * V))) idx c : 0 <= idx < zlen t ->
  set_bucket t idx c = Some (<[Z.to_nat idx := c]> t).
Proof. intros Hi. unfold set_bucket. by destruct (get_bucket_Some t idx Hi) as (c0 & -> & _). Qed.

(** ** Moving one chain *)

(** Replacing the chain of bucket [idx] by one whose keys belong there. *)
Lemma place_insert (h : ht) idx c' :
  ht_wf h -> 0 <= idx ->
  (forall k v, (k, v) ∈ c' -> idx_of (ht_size_exp h) k = idx) ->
  forall j c k v, <[Z.to_nat idx := c']> (ht_table h) !! j = Some c -> (k, v) ∈ c ->
  idx_of (ht_size_exp h) k = Z.of_nat j.
Proof.
  intros Hw Hi Hc' j c k v Hj Hin. destruct (decide (Z.to_nat idx = j)) as [<-|Hne].
  - apply list_lookup_insert_Some in Hj as [(_ & <- & _)|(? & _)]; [|done].
    rewrite (Hc' _ _ Hin). lia.
  - rewrite list_lookup_insert_ne in Hj by done. by eapply hw_place.
Qed.

Lemma rehash_chain_ok c : forall h0 h1 idx,
  ht_wf h1 -> 0 <= ht_size_exp h1 -> 0 <= ht_size_exp h0 ->
  (forall k v, (k, v) ∈ c -> idx_of (ht_size_exp h0) k = idx) ->
  exists h1', rehash_chain hash h0 h1 idx c =
      Some ({| ht_table := ht_table h0; ht_used := ht_used h0 - zlen c; ht_size_exp := ht_size_exp h0 |}, h1') /\
    ht_wf h1' /\ ht_size_exp h1' = ht_size_exp h1 /\
    concat (ht_table h1') ≡ₚ c ++ concat (ht_table h1).
Proof.
  induction c as [|[k v] c IH]; intros h0 h1 idx Hw H1 H0 Hk.
  { exists h1. cbn. rewrite Z.sub_0_r. by destruct h0. }
  cbn [rehash_chain].
  assert (Hh : (if ht_size_exp h1 >? ht_size_exp h0
      then Z.land (hash k) (DICTHT_SIZE_MASK (ht_size_exp h1))
      else Z.land idx (DICTHT_SIZE_MASK (ht_size_exp h1))) = idx_of (ht_size_exp h1) k).
  { destruct (Z.gtb_spec (ht_size_exp h1) (ht_size_exp h0)); [done|].
    rewrite <- (Hk k v) by (by constructor). unfold idx_of. rewrite !mask_mod by lia.
    replace (ht_size_exp h0) with (ht_size_exp h1 + (ht_size_exp h0 - ht_size_exp h1)) by lia.
    rewrite Z.pow_add_r by lia. rewrite Z.rem_mul_r by lia.
    rewrite Z.mul_comm, Z_mod_plus_full. by rewrite Z.mod_mod by lia. }
  rewrite Hh. destruct (hw_size _ Hw) as [[? _]|[_ Hz]]; [lia|].
  pose proof (idx_of_range (ht_size_exp h1) k H1) as Hr.
  destruct (get_bucket_Some (ht_table h1) (idx_of (ht_size_exp h1) k)) as (c1 & -> & Hc1); [lia|].
  cbn [mbind option_bind]. rewrite set_bucket_Some by lia. cbn [mbind option_bind].
  set (h1a := {| ht_table := <[Z.to_nat (idx_of (ht_size_exp h1) k) := (k, v) :: c1]> (ht_table h1);
                 ht_used := ht_used h1 + 1; ht_size_exp := ht_size_exp h1 |}).
  assert (Hp1 : concat (ht_table h1a) ≡ₚ [(k, v)] ++ concat (ht_table h1))
    by (by apply (concat_insert_perm _ _ c1)).
  assert (Hw1 : ht_wf h1a).
  { split.
    - right. cbn. unfold zlen. rewrite length_insert. split; [|done].
      destruct (hw_size _ Hw) as [[? _]|[? _]]; [lia|done].
    - cbn [ht_used h1a]. rewrite (hw_used _ Hw). unfold zlen. rewrite (Permutation_length Hp1). cbn. lia.
    - apply (place_insert h1); [done|lia|]. intros k' v' [[= -> ->]|Hin]%elem_of_cons; [done|].
      rewrite (hw_place _ Hw _ _ _ _ Hc1 Hin). lia. }
  destruct (IH {| ht_table := ht_table h0; ht_used := ht_used h0 - 1; ht_size_exp := ht_size_exp h0 |} h1a idx)
    as (h1' & -> & Hw' & He & Hp); [done..| |].
  { intros k' v' Hin. apply (Hk k' v'). by constructor. }
  exists h1'. cbn [ht_table ht_used ht_size_exp]. split; [rewrite zlen_cons; do 3 f_equal; lia|].
  split; [done|]. split; [done|]. rewrite Hp, Hp1. cbn. by rewrite Permutation_middle.
Qed.

Lemma wf_busy_sizes d : dict_wf d -> rehashidx d <> -1 ->
  zlen (ht_table (ht0 d)) = 2 ^ ht_size_exp (ht0 d) /\
  zlen (ht_table (ht1 d)) = 2 ^ ht_size_exp (ht1 d).
Proof.
  intros Hd Hb. destruct (dw_busy _ Hd Hb) as (_ & H0 & H1 & _).
  destruct (hw_size _ (dw_ht0 _ Hd)) as [[? _]|[_ ?]]; [lia|].
  destruct (hw_size _ (dw_ht1 _ Hd)) as [[? _]|[_ ?]]; [lia|done].
Qed.

Lemma wf_idle_table1 d : dict_wf d -> rehashidx d = -1 -> ht_table (ht1 d) = [].
Proof.
  intros Hd Hi. pose proof (dw_idle _ Hd Hi). by destruct (hw_size _ (dw_ht1 _ Hd)) as [[_ ?]|[? _]]; [|lia].
Qed.

Lemma rehash_bucket d idx c :
  dict_wf d -> rehashidx d <> -1 -> 0 <= idx -> ht_table (ht0 d) !! Z.to_nat idx = Some c ->
  exists d', rehashEntriesInBucketAtIndex hash d idx = Some d' /\ preserves d d' /\
    rehashidx d' = rehashidx d /\ ht_size_exp (ht0 d') = ht_size_exp (ht0 d) /\
    ht_size_exp (ht1 d') = ht_size_exp (ht1 d) /\
    ht_table (ht0 d') = <[Z.to_nat idx := []]> (ht_table (ht0 d)) /\
    ht_used (ht0 d') = ht_used (ht0 d) - zlen c.
Proof.
  intros Hd Hb Hi Hc. destruct (wf_busy_sizes d Hd Hb) as [Hz0 Hz1].
  destruct (dw_busy _ Hd Hb) as (Hr & He0 & He1 & Hempty).
  pose proof (lookup_lt_Some _ _ _ Hc) as Hlt.
  assert (Hin : 0 <= idx < zlen (ht_table (ht0 d))) by (unfold zlen; lia).
  unfold rehashEntriesInBucketAtIndex.
  destruct (get_bucket_Some _ _ Hin) as (c0 & -> & Hc0). assert (c0 = c) as -> by congruence.
  cbn [mbind option_bind].
  destruct (rehash_chain_ok c (ht0 d) (ht1 d) idx (dw_ht1 _ Hd) He1 He0) as (h1' & -> & Hw1 & Hexp & Hp).
  { intros k v Hkv. rewrite (hw_place _ (dw_ht0 _ Hd) _ _ _ _ Hc Hkv). lia. }
  cbn [mbind option_bind ht_table ht_used ht_size_exp]. rewrite set_bucket_Some by done.
  cbn [mbind option_bind]. eexists. split; [done|].
  assert (Hperm : concat (<[Z.to_nat idx := []]> (ht_table (ht0 d))) ++ concat (ht_table h1') ≡ₚ entries d).
  { unfold entries. rewrite Hp, (concat_insert _ _ _ [] Hc), (concat_split _ _ _ Hc). cbn.
    rewrite <- !app_assoc. f_equiv. rewrite !app_assoc. f_equiv. apply Permutation_app_comm. }
  split.
  - split; [|done|done|done|].
    2:{ cbn. intros Ht Hn. apply (f_equal length) in Hn. rewrite length_insert in Hn. by destruct (ht_table (ht0 d)). }
    split; cbn.
    + split; cbn.
      * right. unfold zlen in *. rewrite length_insert.
        destruct (hw_size _ (dw_ht0 _ Hd)) as [[? _]|[? _]]; [lia|done].
      * rewrite (hw_used _ (dw_ht0 _ Hd)). unfold zlen.
        rewrite (concat_insert _ _ _ [] Hc), (concat_split _ _ _ Hc), !length_app. cbn. lia.
      * apply (place_insert (ht0 d)); [by apply dw_ht0|done|]. by intros k v ?%elem_of_nil.
    + done.
    + eapply wf_of_perm_keys; [exact Hperm|]. by apply dw_keys.
    + done.
    + intros _. rewrite Hexp. split; [done|]. split; [done|]. split; [done|]. intros j c' Hj Hjr.
      destruct (decide (Z.to_nat idx = j)) as [<-|Hne].
      * by apply list_lookup_insert_Some in Hj as [(_ & <- & _)|(? & _)].
      * rewrite list_lookup_insert_ne in Hj by done. by eapply Hempty.
  - cbn. by rewrite Hexp.
Qed.

(** A table that still has entries has a chain at or after [rehashidx]. *)
Lemma busy_chain d : dict_wf d -> rehashidx d <> -1 -> ht_used (ht0 d) <> 0 ->
  exists j c, ht_table (ht0 d) !! j = Some c /\ c <> [] /\ rehashidx d <= Z.of_nat j.
Proof.
  intros Hd Hb Hu. rewrite (hw_used _ (dw_ht0 _ Hd)) in Hu.
  destruct (concat (ht_table (ht0 d))) as [|x l] eqn:E; [done|].
  assert (Hx : x ∈ concat (ht_table (ht0 d))) by (rewrite E; by constructor).
  apply elem_of_concat in Hx as (j & c & Hj & Hc). exists j, c. split; [done|].
  split; [by intros ->; apply elem_of_nil in Hc|].
  destruct (dw_busy _ Hd Hb) as (_ & _ & _ & Hempty).
  destruct (decide (Z.of_nat j < rehashidx d)) as [Hlt|]; [|lia].
  rewrite (Hempty _ _ Hj Hlt) in Hc. by apply elem_of_nil in Hc.
Qed.

Lemma wf_set_rehashidx d idx :
  dict_wf d -> rehashidx d <> -1 -> rehashidx d <= idx <= 2 ^ ht_size_exp (ht0 d) ->
  (forall j c, ht_table (ht0 d) !! j = Some c -> rehashidx d <= Z.of_nat j < idx -> c = []) ->
  preserves d (set_hts d (ht0 d) (ht1 d) idx).
Proof.
  intros Hd Hb Hi He. destruct (dw_busy _ Hd Hb) as (Hr & H0 & H1 & Hempty).
  split; [|done|done|done|done]. split; cbn; try by apply Hd.
  - intros ->. lia.
  - intros _. split; [lia|]. split; [done|]. split; [done|]. intros j c Hj Hlt.
    destruct (decide (Z.of_nat j < rehashidx d)); [by eapply Hempty|]. eapply He; [done|lia].
Qed.

Lemma skip_empty_ok fuel : forall d ev,
  dict_wf d -> rehashidx d <> -1 -> ht_used (ht0 d) <> 0 ->
  2 ^ ht_size_exp (ht0 d) - rehashidx d < Z.of_nat fuel ->
  exists idx ev' stop, skip_empty fuel d ev = Some (set_hts d (ht0 d) (ht1 d) idx, ev', stop) /\
    preserves d (set_hts d (ht0 d) (ht1 d) idx) /\ rehashidx d <= idx /\
    if stop then rehashidx d < idx
    else exists x c, ht_table (ht0 d) !! Z.to_nat idx = Some (x :: c).
Proof.
  induction fuel as [|fuel IH]; intros d ev Hd Hb Hu Hf.
  { pose proof (dw_busy _ Hd Hb) as (? & _). lia. }
  destruct (dw_busy _ Hd Hb) as (Hr & He0 & _ & _). destruct (wf_busy_sizes d Hd Hb) as [Hz0 _].
  destruct (busy_chain d Hd Hb Hu) as (j & cj & Hj & Hcj & Hrj).
  pose proof (lookup_lt_Some _ _ _ Hj) as Hjl.
  cbn [skip_empty].
  destruct (get_bucket_Some (ht_table (ht0 d)) (rehashidx d)) as (c & -> & Hc); [unfold zlen; lia|].
  cbn [mbind option_bind]. destruct c as [|x c].
  - assert (Hpr : preserves d (set_hts d (ht0 d) (ht1 d) (rehashidx d + 1))).
    { apply wf_set_rehashidx; [done|done| |].
      - split; [lia|]. assert (Z.of_nat j <> rehashidx d); [|unfold zlen in *; lia].
        intros Heq. rewrite <- Heq, Nat2Z.id in Hc. congruence.
      - intros j' c' Hj' Hr'. assert (Z.of_nat j' = rehashidx d) as Heq by lia.
        rewrite <- Heq, Nat2Z.id in Hc. congruence. }
    destruct (ev - 1 =? 0).
    + exists (rehashidx d + 1), (ev - 1), true. split; [done|]. split; [done|]. lia.
    + destruct (IH (set_hts d (ht0 d) (ht1 d) (rehashidx d + 1)) (ev - 1)) as (idx & ev' & stop & Hs & Hp & Hle & Hst).
      * apply Hpr.
      * cbn. lia.
      * done.
      * cbn. lia.
      * exists idx, ev', stop. split; [exact Hs|]. split; [by eapply preserves_trans|]. cbn in *.
        split; [lia|]. destruct stop; [lia|done].
  - exists (rehashidx d), ev, false. split; [by destruct d|]. split; [|split; [lia|by exists x, c]].
    apply wf_set_rehashidx; [done|done|lia|]. intros; lia.
Qed.

Lemma rehash_loop_ok n : forall d ev,
  dict_wf d -> rehashidx d <> -1 ->
  exists d' stop, dictRehash_loop hash n d ev = Some (d', stop) /\ preserves d d' /\
    rehashidx d' <> -1 /\ ht_size_exp (ht0 d') = ht_size_exp (ht0 d) /\
    ht_size_exp (ht1 d') = ht_size_exp (ht1 d) /\ rehashidx d <= rehashidx d' /\
    ((0 < n)%nat -> ht_used (ht0 d') = 0 \/ rehashidx d < rehashidx d') /\
    (stop = true -> (0 < n)%nat -> rehashidx d < rehashidx d').
Proof.
  induction n as [|n IH]; intros d ev Hd Hb.
  { exists d, false. split; [done|]. split; [by apply preserves_refl|]. repeat split; try done; lia. }
  cbn [dictRehash_loop]. destruct (Z.eqb_spec (ht_used (ht0 d)) 0) as [Hu|Hu].
  { exists d, false. split; [done|]. split; [by apply preserves_refl|]. repeat split; try done; auto. }
  destruct (dw_busy _ Hd Hb) as (Hr & He0 & He1 & _). destruct (wf_busy_sizes d Hd Hb) as [Hz0 _].
  destruct (busy_chain d Hd Hb Hu) as (j & cj & Hj & Hcj & Hrj). pose proof (lookup_lt_Some _ _ _ Hj) as Hjl.
  rewrite size_pow, Z.gtb_ltb, (proj2 (Z.ltb_lt _ _)) by (unfold zlen in *; lia).
  cbn [cassert mbind option_bind].
  destruct (skip_empty_ok (S (length (ht_table (ht0 d)))) d ev Hd Hb Hu) as (idx & ev' & stop & -> & Hp & Hle & Hst);
    [unfold zlen in *; lia|].
  cbn [mbind option_bind]. destruct stop.
  { eexists _, true. split; [done|]. split; [done|]. cbn. repeat split; try done; try lia; auto. }
  destruct Hst as (x & c & Hxc).
  set (d1 := set_hts d (ht0 d) (ht1 d) idx) in *.
  destruct (rehash_bucket d1 (rehashidx d1) (x :: c)) as (d2 & -> & Hp2 & Hi2 & He02 & He12 & Ht2 & Hu2).
  { apply Hp. } { cbn. lia. } { cbn. lia. } { done. }
  cbn [mbind option_bind]. cbn in Hi2, He02, He12, Ht2.
  assert (Hp3 : preserves d2 (set_hts d2 (ht0 d2) (ht1 d2) (rehashidx d2 + 1))).
  { apply wf_set_rehashidx; [apply Hp2|rewrite Hi2; lia| |].
    - rewrite Hi2, He02. split; [lia|]. pose proof (lookup_lt_Some _ _ _ Hxc). unfold zlen in *. lia.
    - intros j' c' Hj' Hr'. assert (j' = Z.to_nat idx) as -> by lia. rewrite Ht2 in Hj'.
      by apply list_lookup_insert_Some in Hj' as [(_ & <- & _)|(? & _)]. }
  destruct (IH _ ev' (pr_wf _ _ Hp3)) as (d' & stop & Hl & Hpl & Hb' & He0' & He1' & Hle' & _ & _); [cbn; lia|].
  exists d', stop. split; [exact Hl|].
  split; [eapply preserves_trans; [exact Hp|]; eapply preserves_trans; [exact Hp2|]; by eapply preserves_trans|].
  cbn in *. split; [done|]. split; [congruence|]. split; [congruence|]. split; [lia|]. split; [right; lia|lia].
Qed.

Lemma check_completed_ok d : dict_wf d -> rehashidx d <> -1 ->
  let '(d', done) := dictCheckRehashingCompleted d in
  preserves d d' /\ (if done then rehashidx d' = -1 else d' = d /\ ht_used (ht0 d) <> 0).
Proof.
  intros Hd Hb. unfold dictCheckRehashingCompleted.
  destruct (Z.eqb_spec (ht_used (ht0 d)) 0) as [Hu|Hu]; cbn [negb]; [|split; [by apply preserves_refl|done]].
  split; [|done].
  assert (Hc : concat (ht_table (ht0 d)) = []) by (apply zlen_0_nil; by rewrite <- hw_used by apply Hd).
  assert (Hp : concat (ht_table (ht1 d)) ++ concat [] ≡ₚ entries d)
    by (unfold entries; rewrite Hc; cbn; by rewrite app_nil_r).
  split; [|done|done|done|].
  2:{ cbn. intros _ Hn. destruct (wf_busy_sizes d Hd Hb) as [_ Hz]. destruct (dw_busy _ Hd Hb) as (_ & _ & H1 & _).
      rewrite Hn, zlen_nil in Hz. pose proof (Z.pow_pos_nonneg 2 (ht_size_exp (ht1 d)) ltac:(lia) H1). lia. }
  split; cbn; try done.
  - apply Hd.
  - split; cbn; [by left|done|]. intros j c k v Hj. by rewrite lookup_nil in Hj.
  - eapply wf_of_perm_keys; [exact Hp|]. by apply dw_keys.
Qed.

Context (resize_allowed : Z -> Z -> Z -> bool) (force_full_rehash : bool) (can_resize : dictResizeEnable).

(** [dictRehash]: the map is unchanged; a call that reports more work to do has
    advanced, one that was allowed to run and reports none has completed. *)
Lemma dictRehash_ok d n : dict_wf d -> 1 <= n ->
  exists d' more, dictRehash hash can_resize d n = Some (d', more) /\ preserves d d' /\
    (rehashidx d' <> -1 -> ht_size_exp (ht0 d') = ht_size_exp (ht0 d) /\
       ht_size_exp (ht1 d') = ht_size_exp (ht1 d) /\ rehashidx d <> -1 /\ rehashidx d <= rehashidx d') /\
    (if more then rehashidx d' <> -1 /\ rehashidx d < rehashidx d' /\ rehash_forbidden can_resize d = false
     else rehash_forbidden can_resize d = true /\ d' = d \/ rehashidx d' = -1).
Proof.
  intros Hd Hn. unfold dictRehash. destruct (rehash_forbidden can_resize d) eqn:Ef.
  { exists d, false. split; [done|]. split; [by apply preserves_refl|]. split; [done|]. by left. }
  assert (Hb : rehashidx d <> -1).
  { unfold rehash_forbidden, dictIsRehashing in Ef. destruct (Z.eqb_spec (rehashidx d) (-1)); [|done].
    cbn in Ef. by rewrite orb_true_r in Ef. }
  destruct (rehash_loop_ok (Z.to_nat n) d (n * 10) Hd Hb) as (d1 & stop & -> & Hp & Hb1 & He0 & He1 & Hle & Hprog & Hstop).
  cbn [mbind option_bind]. destruct stop.
  { exists d1, true. split; [done|]. split; [done|]. split; [done|]. split; [done|]. split; [|done].
    apply Hstop; [done|lia]. }
  pose proof (check_completed_ok d1 (pr_wf _ _ Hp) Hb1) as Hc.
  destruct (dictCheckRehashingCompleted d1) as [d2 done]. destruct Hc as [Hp2 Hdone].
  exists d2, (negb done). split; [reflexivity|]. split; [by eapply preserves_trans|].
  destruct done; cbn [negb].
  - split; [intros Hx; by rewrite Hdone in Hx|by right].
  - destruct Hdone as [-> Hu]. split; [done|]. split; [done|]. split; [|done].
    destruct Hprog as [?|?]; [lia|done|done].
Qed.

Lemma step_ok d : dict_wf d -> exists d', _dictRehashStep hash can_resize d = Some d' /\ preserves d d' /\
  (rehashidx d' <> -1 -> ht_size_exp (ht0 d') = ht_size_exp (ht0 d)).
Proof.
  intros Hd. unfold _dictRehashStep. destruct (_ =? _).
  - destruct (dictRehash_ok d 1 Hd) as (d' & more & -> & Hp & Hs & _); [lia|]. exists d'.
    split; [done|]. split; [done|]. intros Hb. by apply Hs.
  - exists d. split; [done|]. split; [by apply preserves_refl|done].
Qed.

Lemma step_needed_ok d idx : dict_wf d ->
  (rehashidx d <> -1 -> 0 <= idx < 2 ^ ht_size_exp (ht0 d)) ->
  exists d', _dictRehashStepIfNeeded hash can_resize d idx = Some d' /\ preserves d d' /\
    (rehashidx d' <> -1 -> ht_size_exp (ht0 d') = ht_size_exp (ht0 d)).
Proof.
  intros Hd Hi. unfold _dictRehashStepIfNeeded, dictIsRehashing.
  assert (Hrh : exists d', ('(d', _) ← dictRehash hash can_resize d 1; Some d') = Some d' /\ preserves d d' /\
    (rehashidx d' <> -1 -> ht_size_exp (ht0 d') = ht_size_exp (ht0 d))).
  { destruct (dictRehash_ok d 1 Hd) as (d' & more & -> & Hp & Hs & _); [lia|]. exists d'.
    split; [done|]. split; [done|]. intros Hb'. by apply Hs. }
  destruct (Z.eqb_spec (rehashidx d) (-1)) as [|Hb]; cbn [negb orb].
  { exists d. split; [done|]. split; [by apply preserves_refl|done]. }
  destruct (pauserehash d =? 0) eqn:Epause; cbn [negb].
  2:{ exists d. split; [done|]. split; [by apply preserves_refl|done]. }
  destruct (_ >=? _); [|exact Hrh].
  destruct (wf_busy_sizes d Hd Hb) as [Hz0 _]. specialize (Hi Hb).
  destruct (get_bucket_Some (ht_table (ht0 d)) idx) as (c & -> & Hc); [lia|]. cbn [mbind option_bind].
  destruct c as [|x c]; [exact Hrh|]. unfold _dictBucketRehash. rewrite Epause. cbn [negb].
  destruct (rehash_forbidden can_resize d).
  { exists d. split; [done|]. split; [by apply preserves_refl|done]. }
  destruct (rehash_bucket d idx (x :: c) Hd Hb ltac:(lia) Hc) as (d2 & -> & Hp2 & Hi2 & He02 & _).
  cbn [mbind option_bind].
  pose proof (check_completed_ok d2 (pr_wf _ _ Hp2) ltac:(lia)) as Hcc.
  destruct (dictCheckRehashingCompleted d2) as [d3 done]. destruct Hcc as [Hp3 Hdone].
  exists d3. split; [done|]. split; [by eapply preserves_trans|].
  intros Hb3. destruct done; [done|]. by destruct Hdone as [-> _].
Qed.

(** ** Resizing *)

Lemma next_exp_range size : 2 <= dictNextExpForSize size <= 63.
Proof.
  unfold dictNextExpForSize, DICT_HT_INITIAL_EXP, DICT_HT_INITIAL_SIZE, clzll.
  change (Z.shiftl 1 DICT_HT_INITIAL_EXP) with 4. destruct (Z.leb_spec size 4); [lia|].
  destruct (Z.geb_spec size DICT_LONG_MAX) as [|Hs]; [lia|]. unfold DICT_LONG_MAX, INT64_MAX in Hs.
  assert (2 <= Z.log2 (size - 1)) by (change 2 with (Z.log2 4); apply Z.log2_le_mono; lia).
  assert (Z.log2 (size - 1) < 63) by (apply Z.log2_lt_pow2; [lia|]; change (2 ^ 63) with 9223372036854775808; lia).
  lia.
Qed.

Lemma concat_replicate_nil {A} n : concat (replicate n (@nil A)) = [].
Proof. induction n; [done|]. by cbn. Qed.

Lemma new_ht_wf exp : 0 <= exp <= 63 ->
  ht_wf {| ht_table := replicate (Z.to_nat (DICTHT_SIZE exp)) []; ht_used := 0; ht_size_exp := exp |}.
Proof.
  intros He. split; cbn.
  - right. split; [done|]. unfold zlen. rewrite length_replicate, size_pow by lia. lia.
  - by rewrite concat_replicate_nil.
  - intros j c k v Hj Hin. apply lookup_replicate in Hj as [-> _]. by apply elem_of_nil in Hin.
Qed.

Lemma full_rehash_ok fuel : forall d,
  dict_wf d -> rehashidx d <> -1 -> 2 ^ ht_size_exp (ht0 d) - rehashidx d < Z.of_nat fuel ->
  exists d', full_rehash hash can_resize fuel d = Some d' /\ preserves d d' /\ (d' = d \/ rehashidx d' = -1).
Proof.
  assert (Hgen : forall fuel (d d0 : dict), dict_wf d -> rehashidx d <> -1 ->
    rehash_forbidden can_resize d0 = false -> rehash_forbidden can_resize d = rehash_forbidden can_resize d0 ->
    2 ^ ht_size_exp (ht0 d) - rehashidx d < Z.of_nat fuel ->
    exists d', full_rehash hash can_resize fuel d = Some d' /\ preserves d d' /\ rehashidx d' = -1).
  { clear fuel. induction fuel as [|fuel IH]; intros d d0 Hd Hb Hf0 Hfd Hf.
    { pose proof (dw_busy _ Hd Hb) as (? & _). lia. }
    cbn [full_rehash]. destruct (dictRehash_ok d 1000 Hd) as (d' & more & -> & Hp & Hs & Hm); [lia|].
    cbn [mbind option_bind]. destruct more.
    - destruct Hm as (Hb' & Hlt & _). destruct (Hs Hb') as (He0 & He1 & _ & _).
      destruct (IH d' d0) as (d2 & -> & Hp2 & Hi2); [apply Hp|done|done| |rewrite He0; lia|].
      { rewrite <- Hfd. unfold rehash_forbidden, dictIsRehashing. rewrite He0, He1.
        by rewrite (proj2 (Z.eqb_neq (rehashidx d) (-1))), (proj2 (Z.eqb_neq (rehashidx d') (-1))). }
      exists d2. split; [done|]. split; [by eapply preserves_trans|done].
    - exists d'. split; [done|]. split; [done|]. destruct Hm as [[Hfo _]|?]; [congruence|done]. }
  intros d Hd Hb Hf. destruct (rehash_forbidden can_resize d) eqn:Ef.
  - destruct fuel as [|fuel]; [pose proof (dw_busy _ Hd Hb) as (? & _); lia|].
    exists d. split; [|split; [by apply preserves_refl|by left]].
    cbn [full_rehash]. unfold dictRehash. by rewrite Ef.
  - destruct (Hgen fuel d d Hd Hb Ef eq_refl Hf) as (d' & Hfr & Hp & Hi). exists d'.
    split; [done|]. split; [done|by right].
Qed.

Lemma resize_ok d size : dict_wf d -> rehashidx d = -1 ->
  exists d' ok, _dictResize hash force_full_rehash can_resize d size = Some (d', ok) /\ preserves d d' /\
    (d' = d \/ (rehashidx d' = -1 \/ rehashidx d' = 0) /\ ht_table (ht0 d') <> []) /\
    (ht_table (ht0 d) = [] -> size <= DICT_HT_INITIAL_SIZE -> ht_table (ht0 d') <> []).
Proof.
  intros Hd Hi. unfold _dictResize, dictIsRehashing. rewrite Hi. cbn [negb Z.eqb Pos.eqb cassert mbind option_bind].
  set (e := dictNextExpForSize size). pose proof (next_exp_range size) as Her. fold e in Her.
  assert (Hnz : forall x : list (K * V), replicate (Z.to_nat (DICTHT_SIZE e)) x <> []).
  { intros x. rewrite size_pow by lia. pose proof (Z.pow_pos_nonneg 2 e ltac:(lia) ltac:(lia)).
    destruct (Z.to_nat (2 ^ e)) eqn:E; [lia|done]. }
  destruct (_ || _) eqn:Eov.
  { exists d, false. split; [done|]. split; [by apply preserves_refl|]. split; [by left|].
    intros _ Hs. exfalso. revert Eov. unfold e, dictNextExpForSize. rewrite (proj2 (Z.leb_le _ _)) by done.
    change DICT_HT_INITIAL_SIZE with 4 in Hs. change (DICTHT_SIZE DICT_HT_INITIAL_EXP) with 4. rewrite (proj2 (Z.ltb_ge 4 size)) by lia. by vm_compute. }
  destruct (Z.eqb_spec e (ht_size_exp (ht0 d))) as [Heq|Hne].
  { exists d, false. split; [done|]. split; [by apply preserves_refl|]. split; [by left|].
    intros Hnil. destruct (hw_size _ (dw_ht0 _ Hd)) as [[? _]|[_ Hz]]; [lia|].
    rewrite Hnil, zlen_nil in Hz. lia. }
  set (nh := {| ht_table := replicate (Z.to_nat (DICTHT_SIZE e)) []; ht_used := 0; ht_size_exp := e |}).
  assert (Hnh : ht_wf nh) by (apply new_ht_wf; lia).
  assert (Hcn : concat (ht_table nh) = []) by apply concat_replicate_nil.
  assert (Ht1 : ht_table (ht1 d) = []) by (by apply wf_idle_table1).
  set (d1 := set_hts d (ht0 d) nh 0).
  destruct (bool_decide (ht_table (ht0 d1) = []) || (ht_used (ht0 d1) =? 0)) eqn:Eempty.
  - eexists _, true. split; [reflexivity|].
    assert (Hc0 : concat (ht_table (ht0 d)) = []).
    { cbn in Eempty. apply orb_true_iff in Eempty as [E|E].
      - by apply bool_decide_eq_true in E as ->.
      - apply zlen_0_nil. rewrite <- hw_used by apply Hd. by apply Z.eqb_eq. }
    assert (Hent : entries d = []) by (unfold entries; by rewrite Hc0, Ht1).
    split; [|split; [right; split; [by left|apply Hnz]|intros _ _; apply Hnz]].
    assert (Hent1 : entries (set_hts d1 nh _dictReset (-1)) = []).
    { change (concat (ht_table nh) ++ [] = []). by rewrite Hcn. }
    split; [|by rewrite Hent1, Hent|done|done|intros _; apply Hnz]. split; try done.
    + split; cbn; [by left|done|]. intros j c k v Hj. by rewrite lookup_nil in Hj.
    + rewrite Hent1. constructor.
  - apply orb_false_iff in Eempty as [Et Eu]. cbn in Et, Eu.
    assert (Ht0 : ht_table (ht0 d) <> []) by (by apply bool_decide_eq_false in Et).
    assert (Hp1 : preserves d d1).
    { assert (Hent1 : entries d1 = entries d).
      { change (concat (ht_table (ht0 d)) ++ concat (ht_table nh) = entries d). unfold entries.
        by rewrite Hcn, Ht1. }
      split; [|by rewrite Hent1|done|done|done]. split; try done.
      - apply Hd.
      - rewrite Hent1. apply Hd.
      - intros _. destruct (hw_size _ (dw_ht0 _ Hd)) as [[_ ?]|[? _]]; [done|].
        cbn. split; [lia|]. split; [lia|]. split; [lia|]. intros; lia. }
    destruct force_full_rehash.
    + destruct (full_rehash_ok (S (length (ht_table (ht0 d1)))) d1) as (d2 & -> & Hp2 & Hor);
        [apply Hp1|done| |].
      { destruct (wf_busy_sizes d1 (pr_wf _ _ Hp1)) as [Hz _]; [done|]. cbn [rehashidx d1 set_hts].
        unfold zlen in Hz. lia. }
      cbn [mbind option_bind]. exists d2, true. split; [done|]. split; [by eapply preserves_trans|].
      assert (Hne2 : ht_table (ht0 d2) <> []).
      { intros Hnil. destruct Hor as [->|Hi2]; [done|].
        assert (Hent : entries d2 = []) by (unfold entries; rewrite Hnil, (wf_idle_table1 d2 (pr_wf _ _ Hp2) Hi2); done).
        pose proof (pr_perm _ _ (preserves_trans _ _ _ Hp1 Hp2)) as Hpe. rewrite Hent in Hpe.
        apply Permutation_nil_l in Hpe. unfold entries in Hpe. symmetry in Hpe. apply app_eq_nil in Hpe as [Hc _].
        apply Z.eqb_neq in Eu. apply Eu. rewrite (hw_used _ (dw_ht0 _ Hd)), Hc. done. }
      split; [|done]. right. split; [|done]. destruct Hor as [->|?]; [by right|by left].
    + exists d1, true. split; [done|]. split; [done|]. split; [|done]. right. split; [by right|done].
Qed.

Lemma shrink_ok d : dict_wf d ->
  exists d' ok, dictShrinkIfNeeded hash resize_allowed force_full_rehash can_resize d = Some (d', ok) /\ preserves d d'.
Proof.
  intros Hd. pose proof (preserves_refl d Hd). unfold dictShrinkIfNeeded, dictShrink, dictIsRehashing.
  destruct (Z.eqb_spec (rehashidx d) (-1)) as [Hi|Hb]; cbn [negb orb]; [|by eexists d, _].
  destruct (_ <=? _); [by eexists d, _|]. destruct (_ || _); [|by eexists d, _].
  destruct (dictTypeResizeAllowed _ _ _); [|by eexists d, _]. destruct (_ || _); [by eexists d, _|].
  destruct (resize_ok d (ht_used (ht0 d)) Hd Hi) as (d' & ok & -> & Hp & _). by eexists d', _.
Qed.

Lemma shrink_needed_ok d : dict_wf d ->
  exists d', _dictShrinkIfNeeded hash resize_allowed force_full_rehash can_resize d = Some d' /\ preserves d d'.
Proof.
  intros Hd. unfold _dictShrinkIfNeeded. destruct (_ >? _); [exists d; by split; [|apply preserves_refl]|].
  destruct (shrink_ok d Hd) as (d' & ok & -> & Hp). by exists d'.
Qed.

Lemma expand_ok d : dict_wf d ->
  exists d' ok, dictExpandIfNeeded hash resize_allowed force_full_rehash can_resize d = Some (d', ok) /\
    preserves d d' /\ (0 < rehashidx d' -> d' = d) /\ ht_table (ht0 d') <> [].
Proof.
  intros Hd. pose proof (preserves_refl d Hd) as Hr.
  unfold dictExpandIfNeeded, dictExpand, dictIsRehashing.
  destruct (Z.eqb_spec (rehashidx d) (-1)) as [Hi|Hb]; cbn [negb orb].
  2:{ exists d, true. do 3 (split; [done|]). intros Hnil.
      destruct (wf_busy_sizes d Hd Hb) as [Hz _]. destruct (dw_busy _ Hd Hb) as (_ & H0 & _).
      rewrite Hnil, zlen_nil in Hz. lia. }
  assert (Hd0 : DICTHT_SIZE (ht_size_exp (ht0 d)) = 0 <-> ht_table (ht0 d) = []).
  { destruct (hw_size _ (dw_ht0 _ Hd)) as [[He Ht]|[He Hz]]; [by rewrite He, Ht|].
    rewrite size_pow by lia. split; [lia|]. intros Hn. rewrite Hn, zlen_nil in Hz. lia. }
  destruct (Z.eqb_spec (DICTHT_SIZE (ht_size_exp (ht0 d))) 0) as [Hz0|Hz0].
  - assert (Hu0 : ht_used (ht0 d) = 0) by (rewrite (hw_used _ (dw_ht0 _ Hd)), (proj1 Hd0 Hz0); done).
    rewrite Hz0, Hu0. change (0 >? DICT_HT_INITIAL_SIZE) with false. change (0 >=? DICT_HT_INITIAL_SIZE) with false.
    cbn [orb]. destruct (resize_ok d DICT_HT_INITIAL_SIZE Hd Hi) as (d' & ok & -> & Hp & Hor & Hne). cbn [mbind option_bind].
    exists d', true. split; [done|]. split; [done|]. split.
    + intros Hlt. destruct Hor as [?|[[?|?] _]]; [done|lia|lia].
    + apply Hne; [by apply Hd0|done].
  - assert (Hd1 : ht_table (ht0 d) <> []) by (intros Hn; by apply Hz0, Hd0).
    destruct (_ || _); [|exists d, false; by do 3 (split; [done|])].
    destruct (dictTypeResizeAllowed _ _ _); [|exists d, true; by do 3 (split; [done|])].
    destruct (_ || _); [exists d, true; by do 3 (split; [done|])|].
    destruct (resize_ok d (ht_used (ht0 d) + 1) Hd Hi) as (d' & ok & -> & Hp & Hor & _). cbn [mbind option_bind].
    exists d', true. split; [done|]. split; [done|]. split.
    + intros Hlt. destruct Hor as [?|[[?|?] _]]; [done|lia|lia].
    + by destruct Hor as [->|[_ ?]].
Qed.
Lemma expand_needed_ok d : dict_wf d ->
  exists d' ok, _dictExpandIfNeeded hash resize_allowed force_full_rehash can_resize d = Some (d', ok) /\
    preserves d d' /\ (0 < rehashidx d' -> d' = d) /\
    (pauseAutoResize d <= 0 \/ ht_table (ht0 d) <> [] -> ht_table (ht0 d') <> []).
Proof.
  intros Hd. unfold _dictExpandIfNeeded. destruct (Z.gtb_spec (pauseAutoResize d) 0) as [Hpa|Hpa].
  - exists d, false. split; [done|]. split; [by apply preserves_refl|]. split; [done|]. by intros [?|?]; [lia|].
  - destruct (expand_ok d Hd) as (d' & ok & He & Hp & Hi & Ht). exists d', ok. split_and!; try done.
Qed.
End Inv.

(** ** A dict in the middle of a rehash, for the examples *)

Definition sample_hash (k : Z) : Z := u64 k.

(** Growing from 4 to 8 buckets, the first two already moved. *)
Definition sample_dict : dict Z Z :=
  {| ht0 := {| ht_table := [[]; []; [(2, 20)]; [(7, 70); (3, 30)]]; ht_used := 3; ht_size_exp := 2 |};
     ht1 := {| ht_table := [[]; [(1, 10)]; []; []; []; []; []; []]; ht_used := 1; ht_size_exp := 3 |};
     rehashidx := 2; pauserehash := 0; pauseAutoResize := 0 |}.

(** The placement of the entries of a concrete table, as a check. *)
Definition place_check (h : ht Z Z) : bool :=
  forallb (fun jc => forallb (fun kv => idx_of sample_hash (ht_size_exp h) (fst kv) =? Z.of_nat (fst jc)) (snd jc))
    (zip (seq 0 (length (ht_table h))) (ht_table h)).

Lemma place_check_ok h : place_check h = true ->
  forall j c k v, ht_table h !! j = Some c -> (k, v) ∈ c -> idx_of sample_hash (ht_size_exp h) k = Z.of_nat j.
Proof.
  unfold place_check. rewrite forallb_forall. intros Hc j c k v Hj Hin.
  specialize (Hc (j, c)). rewrite forallb_forall in Hc. cbn [fst snd] in Hc.
  apply Z.eqb_eq, (Hc ltac:(apply list_elem_of_In, list_elem_of_lookup; exists j;
    apply lookup_zip_with_Some; exists j, c; split_and!;
      [done|apply lookup_seq; split; [done|by eapply lookup_lt_Some]|done]) (k, v)).
  by apply list_elem_of_In.
Qed.

Lemma sample_wf : dict_wf sample_hash sample_dict.
Proof.
  split.
  - split; [by right|done|by apply place_check_ok].
  - split; [by right|done|by apply place_check_ok].
  - by apply (bool_decide_unpack _).
  - done.
  - intros _. cbn. split_and!; try done. intros j c Hj Hlt.
    destruct j as [|[|j]]; [by injection Hj as <-|by injection Hj as <-|lia].
Qed.

(** The same dict when the rehash is complete and key 2 has gone. *)
Definition sample_dict2 : dict Z Z :=
  {| ht0 := {| ht_table := [[]; [(1, 10)]; []; [(3, 30)]; []; []; []; [(7, 70)]]; ht_used := 3; ht_size_exp := 3 |};
     ht1 := _dictReset; rehashidx := -1; pauserehash := 0; pauseAutoResize := 0 |}.

Lemma sample_wf2 : dict_wf sample_hash sample_dict2.
Proof.
  split.
  - split; [by right|done|by apply place_check_ok].
  - split; [by left|done|by apply place_check_ok].
  - by apply (bool_decide_unpack _).
  - done.
  - done.
Qed.
