(* ===== verification/DictMap.v ===== *)
(** * Hash tables: the public operations are those of finite maps *)

From stdpp Require Import base list numbers option tactics gmap fin_maps.
From S2P Require Import Prelude Dict DictInv.

Section Map.
Context {K V : Type} `{Countable K}.
Context (hash : K -> Z).
Context (resize_allowed : Z -> Z -> Z -> bool) (force_full_rehash : bool) (can_resize : dictResizeEnable).

Abbreviation ht := (ht K V).
Abbreviation dict := (dict K V).
Abbreviation dict_wf := (dict_wf (V:=V) hash).
Abbreviation preserves := (preserves (V:=V) hash).

(** ** The map of a dict *)

Lemma dict_map_lookup (d : dict) k v : dict_wf d -> dict_map d !! k = Some v <-> (k, v) ∈ entries d.
Proof. intros Hd. symmetry. apply elem_of_list_to_map. by apply (dw_keys hash). Qed.

Lemma dict_map_None (d : dict) k : k ∉ (entries d).*1 -> dict_map d !! k = None.
Proof. apply not_elem_of_list_to_map_1. Qed.

Lemma dict_map_cons (d : dict) k v es :
  dict_wf d -> entries d ≡ₚ (k, v) :: es -> dict_map d = <[k := v]> (list_to_map es) /\ k ∉ es.*1.
Proof.
  intros Hd Hp. pose proof (dw_keys hash _ Hd) as Hk. unfold dict_map. split.
  - change (<[k := v]> (list_to_map es)) with (list_to_map (M:=gmap K V) ((k, v) :: es)).
    by apply list_to_map_proper.
  - rewrite Hp in Hk. cbn in Hk. by apply NoDup_cons in Hk as [? _].
Qed.

(** The size of the map is the number of entries counted. *)
Lemma dict_map_size (d : dict) : dict_wf d -> Z.of_nat (size (dict_map d)) = dictSize d.
Proof.
  intros Hd. unfold dictSize. rewrite (hw_used hash _ (dw_ht0 hash _ Hd)), (hw_used hash _ (dw_ht1 hash _ Hd)).
  rewrite <- zlen_app. change (concat (ht_table (ht0 d)) ++ concat (ht_table (ht1 d))) with (entries d).
  unfold zlen, dict_map. f_equal. rewrite <- length_map_to_list, map_to_list_to_map; [done|].
  by apply (dw_keys hash).
Qed.

(** ** Searching a chain *)

Lemma chain_pos_Some (k : K) c i : chain_pos (V:=V) k c = Some i -> exists v, c !! i = Some (k, v).
Proof.
  revert i. induction c as [|[k' v'] c IH]; intros i Hi; [done|]. cbn in Hi. destruct (decide (k = k')) as [<-|].
  - injection Hi as <-. by exists v'.
  - destruct (chain_pos k c) as [j|]; [|done]. injection Hi as <-. by apply IH.
Qed.

Lemma chain_pos_None (k : K) c v : chain_pos (V:=V) k c = None -> (k, v) ∉ c.
Proof.
  induction c as [|[k' v'] c IH]; intros Hc; [apply not_elem_of_nil|]. cbn in Hc.
  destruct (decide (k = k')); [done|]. destruct (chain_pos k c); [done|].
  intros [[= <- _]|Hin]%elem_of_cons; [done|]. by apply IH.
Qed.

(** What a link found for [k] gives access to. *)
Definition link_ok (d : dict) (l : link) (k : K) (v : V) : Prop :=
  l_idx l = idx_of hash (ht_size_exp (ht_of d (l_table l))) k /\
  exists c, 0 <= l_idx l /\ ht_table (ht_of d (l_table l)) !! Z.to_nat (l_idx l) = Some c /\
    c !! l_pos l = Some (k, v).

Lemma ht_of_wf d b : dict_wf d -> ht_wf hash (ht_of d b).
Proof. intros Hd. destruct b; apply Hd. Qed.

Lemma link_ok_entry d l k v : link_ok d l k v -> (k, v) ∈ entries d /\ deref d l = Some (k, v).
Proof.
  intros (_ & c & Hi & Ht & Hc). split.
  - unfold entries. apply elem_of_app. apply list_elem_of_lookup_2 in Hc.
    unfold ht_of in Ht. destruct (l_table l); [right|left]; apply elem_of_concat; eauto.
  - unfold deref, get_bucket. rewrite (proj2 (Z.leb_le _ _)) by done. by rewrite Ht.
Qed.

Definition found (d : dict) (k : K) (r : option link) (keys : list K) : Prop :=
  match r with Some l => exists v, link_ok d l k v | None => k ∉ keys end.

Lemma find_in_ok d b k : dict_wf d -> 0 <= ht_size_exp (ht_of d b) ->
  exists r, find_in d b (idx_of hash (ht_size_exp (ht_of d b)) k) k = Some r /\
    found d k r (concat (ht_table (ht_of d b))).*1.
Proof.
  intros Hd He. pose proof (ht_of_wf d b Hd) as Hw.
  pose proof (idx_of_range hash (ht_size_exp (ht_of d b)) k He) as Hr.
  destruct (hw_size hash _ Hw) as [[? _]|[_ Hz]]; [lia|]. unfold find_in.
  destruct (get_bucket_Some (ht_table (ht_of d b)) (idx_of hash (ht_size_exp (ht_of d b)) k)) as (c & -> & Hc); [lia|].
  cbn [mbind option_bind]. eexists. split; [reflexivity|].
  destruct (chain_pos k c) as [i|] eqn:Ei; cbn.
  - apply chain_pos_Some in Ei as [v Hv]. exists v. split; [done|]. exists c. split; [cbn; lia|]. done.
  - intros Hin. apply list_elem_of_fmap in Hin as ([k' v] & -> & Hin). cbn in *.
    apply elem_of_concat in Hin as (j & c' & Hj & Hin).
    pose proof (hw_place hash _ Hw _ _ _ _ Hj Hin) as Hp. rewrite Hp, Nat2Z.id in Hc.
    assert (c' = c) as -> by congruence. by apply (chain_pos_None k' c v) in Ei.
Qed.

(** The search of table 0, which is left out for a bucket already moved. *)
Lemma find0_ok d k idx : dict_wf d -> 0 <= ht_size_exp (ht0 d) ->
  (0 < rehashidx d -> idx = idx_of hash (ht_size_exp (ht0 d)) k) -> 0 <= idx ->
  exists r, (if idx <? rehashidx d then Some None
             else find_in d false (idx_of hash (ht_size_exp (ht0 d)) k) k) = Some r /\
    found d k r (concat (ht_table (ht0 d))).*1.
Proof.
  intros Hd He Hidx Hi. destruct (Z.ltb_spec idx (rehashidx d)) as [Hlt|Hge].
  - exists None. split; [done|]. cbn. intros Hin. apply list_elem_of_fmap in Hin as ([k' v] & -> & Hin). cbn in *.
    apply elem_of_concat in Hin as (j & c & Hj & Hin).
    pose proof (hw_place hash _ (dw_ht0 hash _ Hd) _ _ _ _ Hj Hin) as Hp.
    destruct (dw_busy hash _ Hd) as (_ & _ & _ & Hempty); [lia|]. rewrite (Hempty j c) in Hin; [|done|].
    + by apply elem_of_nil in Hin.
    + rewrite <- Hp, <- Hidx by lia. done.
  - apply (find_in_ok d false k Hd He).
Qed.

(** Both tables. *)
Definition find_both (d : dict) (k : K) (r0 : option link) : option (option link) :=
  match r0 with
  | Some l => Some (Some l)
  | None =>
      if dictIsRehashing d
      then find_in d true (Z.land (hash k) (DICTHT_SIZE_MASK (ht_size_exp (ht1 d)))) k
      else Some None
  end.

Lemma find_both_ok d k r0 : dict_wf d -> found d k r0 (concat (ht_table (ht0 d))).*1 ->
  exists r, find_both d k r0 = Some r /\ found d k r (entries d).*1.
Proof.
  intros Hd H0. unfold find_both. destruct r0 as [l|]; [by exists (Some l)|]. unfold dictIsRehashing, entries.
  destruct (Z.eqb_spec (rehashidx d) (-1)) as [Hi|Hb]; cbn [negb].
  - exists None. split; [done|]. cbn in *. rewrite (wf_idle_table1 hash _ Hd Hi). cbn.
    by rewrite app_nil_r.
  - destruct (dw_busy hash _ Hd Hb) as (_ & _ & H1 & _).
    destruct (find_in_ok d true k Hd H1) as (r & Hr & Hf). exists r. split; [exact Hr|].
    destruct r as [l|]; [done|]. cbn in *. rewrite fmap_app, elem_of_app. by intros [?|?].
Qed.

Lemma found_map d k r : dict_wf d -> found d k r (entries d).*1 ->
  match r with
  | Some l => exists v, link_ok d l k v /\ dict_map d !! k = Some v
  | None => dict_map d !! k = None
  end.
Proof.
  intros Hd Hf. destruct r as [l|]; cbn in Hf.
  - destruct Hf as [v Hl]. exists v. split; [done|]. apply dict_map_lookup; [done|]. by apply link_ok_entry in Hl as [? _].
  - by apply dict_map_None.
Qed.

(** ** Changing one chain *)

(** Replace [x] by [y] in a chain: the same happens to the entries of the dict. *)
Lemma put_bucket_ok (d : dict) b idx c c' x y r :
  dict_wf d -> 0 <= idx -> ht_table (ht_of d b) !! Z.to_nat idx = Some c ->
  (forall k v, (k, v) ∈ c' -> idx_of hash (ht_size_exp (ht_of d b)) k = idx) ->
  c ≡ₚ x ++ r -> c' ≡ₚ y ++ r ->
  (rehashidx d <> -1 -> b = false -> c = [] -> c' = []) ->
  exists R, entries d ≡ₚ x ++ R /\
    (NoDup (y ++ R).*1 ->
     exists d', put_bucket d b idx c' (ht_used (ht_of d b) + zlen y - zlen x) = Some d' /\
       dict_wf d' /\ entries d' ≡ₚ y ++ R /\ pauserehash d' = pauserehash d /\
       pauseAutoResize d' = pauseAutoResize d /\ rehashidx d' = rehashidx d).
Proof.
  intros Hd Hi Hc Hplace Hx Hy Hempty. pose proof (ht_of_wf d b Hd) as Hw.
  pose proof (lookup_lt_Some _ _ _ Hc) as Hlt.
  set (t := ht_table (ht_of d b)) in *. set (rest := concat (take (Z.to_nat idx) t) ++ concat (drop (S (Z.to_nat idx)) t)).
  assert (Hpt : concat t ≡ₚ x ++ r ++ rest).
  { rewrite (concat_split _ _ _ Hc), Hx. unfold rest. rewrite !app_assoc. f_equiv.
    rewrite <- app_assoc. apply Permutation_app_comm. }
  assert (Hpt' : concat (<[Z.to_nat idx := c']> t) ≡ₚ y ++ r ++ rest).
  { rewrite (concat_insert _ _ _ c' Hc), Hy. unfold rest. rewrite !app_assoc. f_equiv.
    rewrite <- app_assoc. apply Permutation_app_comm. }
  exists (r ++ rest ++ concat (ht_table (ht_of d (negb b)))). split.
  { unfold entries. destruct b; cbn [ht_of negb] in *; fold t; rewrite Hpt.
    - rewrite Permutation_app_comm. by rewrite <- !app_assoc.
    - by rewrite <- !app_assoc. }
  intros Hnd. unfold put_bucket. fold t. rewrite set_bucket_Some by (unfold zlen; lia). cbn [mbind option_bind].
  set (h' := {| ht_table := <[Z.to_nat idx := c']> t; ht_used := ht_used (ht_of d b) + zlen y - zlen x;
                ht_size_exp := ht_size_exp (ht_of d b) |}).
  assert (Hw' : ht_wf hash h').
  { split.
    - right. cbn. unfold zlen. rewrite length_insert.
      destruct (hw_size hash _ Hw) as [[_ Hn]|Hz]; [fold t in Hn; rewrite Hn in Hlt; cbn in Hlt; lia|done].
    - change (ht_used h') with (ht_used (ht_of d b) + zlen y - zlen x). rewrite (hw_used hash _ Hw). fold t.
      change (ht_table h') with (<[Z.to_nat idx := c']> t). unfold zlen.
      rewrite (Permutation_length Hpt), (Permutation_length Hpt'), !length_app. lia.
    - apply (place_insert hash (ht_of d b)); done. }
  assert (Hent : forall d', ht_of d' b = h' -> ht_of d' (negb b) = ht_of d (negb b) ->
    entries d' ≡ₚ y ++ r ++ rest ++ concat (ht_table (ht_of d (negb b)))).
  { intros d' Hb Hnb. unfold entries. destruct b; cbn [ht_of negb] in *; rewrite Hb, Hnb;
      change (ht_table h') with (<[Z.to_nat idx := c']> t); rewrite Hpt'.
    - rewrite Permutation_app_comm. by rewrite <- !app_assoc.
    - by rewrite <- !app_assoc. }
  destruct b; cbn [ht_of negb] in *.
  - eexists. split; [reflexivity|]. specialize (Hent (set_hts d (ht0 d) h' (rehashidx d)) eq_refl eq_refl).
    split; [|done]. split; cbn [ht0 ht1 set_hts rehashidx]; try done.
    + apply Hd.
    + by rewrite Hent.
    + by apply Hd.
    + intros Hb. by apply Hd.
  - eexists. split; [reflexivity|]. specialize (Hent (set_hts d h' (ht1 d) (rehashidx d)) eq_refl eq_refl).
    split; [|done]. split; cbn [ht0 ht1 set_hts rehashidx]; try done.
    + apply Hd.
    + by rewrite Hent.
    + by apply Hd.
    + intros Hb. destruct (dw_busy hash _ Hd Hb) as (Hr & H0 & H1 & He).
      split; [done|]. split; [done|]. split; [done|]. intros j cj Hj Hjr.
      change (ht_table h') with (<[Z.to_nat idx := c']> t) in Hj.
      destruct (decide (Z.to_nat idx = j)) as [<-|Hne].
      * apply list_lookup_insert_Some in Hj as [(_ & <- & _)|(? & _)]; [|done].
        apply Hempty; [done|done|]. by eapply He.
      * rewrite list_lookup_insert_ne in Hj by done. by eapply He.
Qed.

Lemma dict_insert_ok (d : dict) k v b : dict_wf d -> b = dictIsRehashing d -> ht_table (ht_of d b) <> [] ->
  k ∉ (entries d).*1 ->
  exists d', dictInsertKeyAtLink d k v b (idx_of hash (ht_size_exp (ht_of d b)) k) = Some d' /\ dict_wf d' /\
    entries d' ≡ₚ (k, v) :: entries d.
Proof.
  intros Hd Hb Ht Hk. set (idx := idx_of hash (ht_size_exp (ht_of d b)) k).
  destruct (hw_size hash _ (ht_of_wf d b Hd)) as [[_ ?]|[He Hz]]; [done|].
  pose proof (idx_of_range hash (ht_size_exp (ht_of d b)) k ltac:(lia)) as Hr. fold idx in Hr.
  unfold dictInsertKeyAtLink. rewrite <- Hb, eqb_reflx. unfold DICTHT_SIZE_MASK.
  rewrite (proj2 (Z.eqb_neq _ (-1))) by lia. rewrite size_pow by lia.
  rewrite (proj2 (Z.leb_le 0 idx)), (proj2 (Z.leb_le idx _)) by lia. cbn [andb cassert mbind option_bind].
  destruct (get_bucket_Some (ht_table (ht_of d b)) idx) as (c & -> & Hc); [lia|]. cbn [mbind option_bind].
  destruct (put_bucket_ok d b idx c ((k, v) :: c) [] [(k, v)] c) as (R & HR & Hput); [done|lia|done| |done|done| |].
  - intros k' v' [[= -> ->]|Hin]%elem_of_cons; [done|].
    rewrite (hw_place hash _ (ht_of_wf d b Hd) _ _ _ _ Hc Hin). lia.
  - intros Hbz Hbf. rewrite Hb in Hbf. unfold dictIsRehashing in Hbf.
    by rewrite (proj2 (Z.eqb_neq _ _)) in Hbf.
  - cbn in HR. destruct Hput as (d' & Hp & Hw & Hperm & _).
    { cbn. apply NoDup_cons. rewrite <- HR. split; [done|]. by apply (dw_keys hash). }
    exists d'. split; [|split; [done|]].
    + rewrite <- Hp. f_equal. change (zlen [(k, v)]) with 1. change (@zlen (K * V) []) with 0. lia.
    + rewrite Hperm. cbn. by rewrite HR.
Qed.

Lemma unlink_ok (d : dict) l k v : dict_wf d -> link_ok d l k v ->
  exists d' es, unlink_at d l = Some d' /\ dict_wf d' /\ entries d ≡ₚ (k, v) :: es /\ entries d' ≡ₚ es /\
    pauserehash d' = pauserehash d /\ pauseAutoResize d' = pauseAutoResize d.
Proof.
  intros Hd (_ & c & Hi & Hc & Hkv). unfold unlink_at, get_bucket. rewrite (proj2 (Z.leb_le _ _)) by done.
  rewrite Hc. cbn [mbind option_bind].
  pose proof (delete_Permutation c _ _ Hkv) as Hp.
  destruct (put_bucket_ok d (l_table l) (l_idx l) c (delete (l_pos l) c) [(k, v)] [] (delete (l_pos l) c))
    as (R & HR & Hput); [done|done|done| |done|done| |].
  - intros k' v' Hin. assert (Hin' : (k', v') ∈ c) by (rewrite Hp; by constructor).
    rewrite (hw_place hash _ (ht_of_wf d _ Hd) _ _ _ _ Hc Hin'). lia.
  - intros _ _ ->. by rewrite lookup_nil in Hkv.
  - destruct Hput as (d' & Hpb & Hw & Hperm & ? & ? & _).
    { cbn. pose proof (dw_keys hash _ Hd) as Hk. rewrite HR in Hk. cbn in Hk. by apply NoDup_cons in Hk as [_ ?]. }
    exists d', R. split; [|done]. rewrite <- Hpb. f_equal.
    change (zlen [(k, v)]) with 1. change (@zlen (K * V) []) with 0. lia.
Qed.

Lemma set_val_ok (d : dict) l k v0 v : dict_wf d -> link_ok d l k v0 ->
  exists d' es, dictSetVal d l v = Some d' /\ dict_wf d' /\ entries d ≡ₚ (k, v0) :: es /\
    entries d' ≡ₚ (k, v) :: es.
Proof.
  intros Hd (_ & c & Hi & Hc & Hkv). unfold dictSetVal, get_bucket. rewrite (proj2 (Z.leb_le _ _)) by done.
  rewrite Hc. cbn [mbind option_bind]. rewrite Hkv. cbn [mbind option_bind].
  pose proof (delete_Permutation c _ _ Hkv) as Hp.
  assert (Hp' : <[l_pos l := (k, v)]> c ≡ₚ (k, v) :: delete (l_pos l) c).
  { rewrite insert_take_drop by (by eapply lookup_lt_Some). rewrite delete_take_drop.
    symmetry. apply Permutation_middle. }
  destruct (put_bucket_ok d (l_table l) (l_idx l) c (<[l_pos l := (k, v)]> c) [(k, v0)] [(k, v)] (delete (l_pos l) c))
    as (R & HR & Hput); [done|done|done| |done|done| |].
  - intros k' v' Hin. rewrite Hp' in Hin. apply elem_of_cons in Hin as [[= -> ->]|Hin].
    + assert (Hin' : (k, v0) ∈ c) by (rewrite Hp; by constructor).
      rewrite (hw_place hash _ (ht_of_wf d _ Hd) _ _ _ _ Hc Hin'). lia.
    + assert (Hin' : (k', v') ∈ c) by (rewrite Hp; by constructor).
      rewrite (hw_place hash _ (ht_of_wf d _ Hd) _ _ _ _ Hc Hin'). lia.
  - intros _ _ ->. by rewrite lookup_nil in Hkv.
  - destruct Hput as (d' & Hpb & Hw & Hperm & _).
    { cbn. pose proof (dw_keys hash _ Hd) as Hk. by rewrite HR in Hk. }
    exists d', R. split; [|done]. rewrite <- Hpb. f_equal.
    change (zlen [(k, v0)]) with 1. change (zlen [(k, v)]) with 1. lia.
Qed.

(** ** The public operations *)

Lemma size_0_empty (d : dict) : dict_wf d -> dictSize d = 0 -> dict_map d = ∅.
Proof. intros Hd Hs. pose proof (dict_map_size d Hd) as Hz. apply map_size_empty_iff. lia. Qed.

Lemma size_pos_table (d : dict) : dict_wf d -> dictSize d <> 0 -> 0 <= ht_size_exp (ht0 d).
Proof.
  intros Hd Hs. destruct (decide (rehashidx d = -1)) as [Hi|Hb]; [|by apply (dw_busy hash _ Hd Hb)].
  destruct (hw_size hash _ (dw_ht0 hash _ Hd)) as [[_ Ht]|[? _]]; [|lia]. exfalso. apply Hs.
  unfold dictSize. rewrite (hw_used hash _ (dw_ht0 hash _ Hd)), (hw_used hash _ (dw_ht1 hash _ Hd)).
  by rewrite Ht, (wf_idle_table1 hash _ Hd Hi).
Qed.

Lemma exp_of_table (d : dict) : dict_wf d -> ht_table (ht0 d) <> [] -> 0 <= ht_size_exp (ht0 d).
Proof. intros Hd Ht. destruct (hw_size hash _ (dw_ht0 hash _ Hd)) as [[_ ?]|[? _]]; [done|lia]. Qed.

(** The bucket index computed before the incremental step. *)
Lemma first_idx_ok (d : dict) k : dict_wf d ->
  let idx := Z.land (hash k) (DICTHT_SIZE_MASK (ht_size_exp (ht0 d))) in
  0 <= idx /\ (rehashidx d <> -1 -> 0 <= idx < 2 ^ ht_size_exp (ht0 d)).
Proof.
  intros Hd idx. split.
  - unfold idx, DICTHT_SIZE_MASK. destruct (Z.eqb_spec (ht_size_exp (ht0 d)) (-1)).
    + by rewrite Z.land_0_r.
    + destruct (hw_size hash _ (dw_ht0 hash _ Hd)) as [[? _]|[? _]]; [done|].
      apply Z.land_nonneg. right. rewrite size_pow by lia.
      pose proof (Z.pow_pos_nonneg 2 (ht_size_exp (ht0 d)) ltac:(lia) ltac:(lia)). lia.
  - intros Hb. destruct (dw_busy hash _ Hd Hb) as (_ & H0 & _). apply (idx_of_range hash _ k H0).
Qed.

Lemma table_of_exp (d : dict) : dict_wf d -> 0 <= ht_size_exp (ht0 d) -> ht_table (ht0 d) <> [].
Proof.
  intros Hd He Hn. destruct (hw_size hash _ (dw_ht0 hash _ Hd)) as [[? _]|[_ Hz]]; [lia|].
  rewrite Hn, zlen_nil in Hz. pose proof (Z.pow_pos_nonneg 2 (ht_size_exp (ht0 d)) ltac:(lia) ltac:(lia)). lia.
Qed.

(** An incremental step followed by the search of both tables. *)
Lemma step_find_table (d : dict) k : dict_wf d -> ht_table (ht0 d) <> [] ->
  let idx := Z.land (hash k) (DICTHT_SIZE_MASK (ht_size_exp (ht0 d))) in
  exists d1 r0 r, _dictRehashStepIfNeeded hash can_resize d idx = Some d1 /\ preserves d d1 /\
    0 <= ht_size_exp (ht0 d1) /\
    (if idx <? rehashidx d1 then Some None
     else find_in d1 false (Z.land (hash k) (DICTHT_SIZE_MASK (ht_size_exp (ht0 d1)))) k) = Some r0 /\
    find_both d1 k r0 = Some r /\ found d1 k r (entries d1).*1.
Proof.
  intros Hd Hs idx. destruct (first_idx_ok d k Hd) as [Hi Hib]. fold idx in Hi, Hib.
  destruct (step_needed_ok hash can_resize d idx Hd Hib) as (d1 & Hstep & Hp & Hexp).
  pose proof (pr_wf hash _ _ Hp) as Hd1.
  assert (He1 : 0 <= ht_size_exp (ht0 d1)) by (apply exp_of_table; [done|by apply (pr_table hash _ _ Hp)]).
  destruct (find0_ok d1 k idx Hd1 He1) as (r0 & Hr0 & Hf0); [|done|].
  { intros Hlt. unfold idx, idx_of. by rewrite Hexp by lia. }
  destruct (find_both_ok d1 k r0 Hd1 Hf0) as (r & Hr & Hf). by exists d1, r0, r.
Qed.

Lemma step_find_ok (d : dict) k : dict_wf d -> dictSize d <> 0 ->
  let idx := Z.land (hash k) (DICTHT_SIZE_MASK (ht_size_exp (ht0 d))) in
  exists d1 r0 r, _dictRehashStepIfNeeded hash can_resize d idx = Some d1 /\ preserves d d1 /\
    0 <= ht_size_exp (ht0 d1) /\
    (if idx <? rehashidx d1 then Some None
     else find_in d1 false (Z.land (hash k) (DICTHT_SIZE_MASK (ht_size_exp (ht0 d1)))) k) = Some r0 /\
    find_both d1 k r0 = Some r /\ found d1 k r (entries d1).*1.
Proof. intros Hd Hs. apply step_find_table; [done|]. apply table_of_exp; [done|]. by apply size_pos_table. Qed.

Lemma find_spec (d : dict) k : dict_wf d ->
  exists d', dictFind hash can_resize d k = Some (d', (fun v => (k, v)) <$> dict_map d !! k) /\ preserves d d'.
Proof.
  intros Hd. unfold dictFind, dictFindLink. destruct (Z.eqb_spec (dictSize d) 0) as [Hs|Hs].
  { exists d. cbn. rewrite (size_0_empty d Hd Hs), lookup_empty. split; [done|by apply preserves_refl]. }
  unfold dictFindLinkInternal. rewrite (proj2 (Z.eqb_neq (dictSize d) 0)) by done. cbn [negb andb].
  destruct (step_find_ok d k Hd Hs) as (d1 & r0 & r & -> & Hp & He1 & Hr0 & Hr & Hf).
  cbn [mbind option_bind]. pose proof (pr_wf hash _ _ Hp) as Hd1.
  rewrite bool_decide_false by (by apply table_of_exp). rewrite Hr0. cbn [mbind option_bind].
  pose proof (found_map d1 k r Hd1 Hf) as Hm. rewrite (preserves_map hash d d1 Hd Hp) in Hm.
  exists d1. split; [|done]. destruct r0 as [l|]; cbn [find_both] in Hr.
  - injection Hr as <-. destruct Hm as (v & Hl & ->). apply link_ok_entry in Hl as [_ Hde].
    cbn [mbind option_bind]. by rewrite Hde.
  - destruct (dictIsRehashing d1).
    + rewrite Hr. cbn [mbind option_bind]. destruct r as [l|]; [|by rewrite Hm].
      destruct Hm as (v & Hl & ->). apply link_ok_entry in Hl as [_ Hde]. by rewrite Hde.
    + injection Hr as <-. cbn [mbind option_bind]. by rewrite Hm.
Qed.

Lemma add_raw_spec (d : dict) k v : dict_wf d ->
  pauseAutoResize d <= 0 \/ ht_table (ht0 d) <> [] ->
  exists d' r, dictAddRaw hash resize_allowed force_full_rehash can_resize d k v = Some (d', r) /\ dict_wf d' /\
    match dict_map d !! k, r with
    | Some v0, Some l => link_ok d' l k v0 /\ dict_map d' = dict_map d
    | None, None => dict_map d' = <[k := v]> (dict_map d)
    | _, _ => False
    end.
Proof.
  intros Hd Hpre. unfold dictAddRaw, dictFindLinkForInsert.
  set (idx := Z.land (hash k) (DICTHT_SIZE_MASK (ht_size_exp (ht0 d)))).
  destruct (first_idx_ok d k Hd) as [Hi Hib]. fold idx in Hi, Hib.
  destruct (step_needed_ok hash can_resize d idx Hd Hib) as (d1 & -> & Hp1 & Hexp1). cbn [mbind option_bind].
  pose proof (pr_wf hash _ _ Hp1) as Hd1.
  destruct (expand_needed_ok hash resize_allowed force_full_rehash can_resize d1 Hd1) as (d2 & ok & -> & Hp2 & Hsame & Hne2).
  cbn [mbind option_bind]. pose proof (pr_wf hash _ _ Hp2) as Hd2.
  pose proof (preserves_trans hash _ _ _ Hp1 Hp2) as Hp.
  assert (Ht1 : pauseAutoResize d1 <= 0 \/ ht_table (ht0 d1) <> []).
  { rewrite (pr_auto hash _ _ Hp1). destruct Hpre as [?|Hne]; [by left|]. right. by apply (pr_table hash _ _ Hp1). }
  pose proof (Hne2 Ht1) as Ht2. pose proof (exp_of_table d2 Hd2 Ht2) as He2.
  destruct (find0_ok d2 k idx Hd2 He2) as (r0 & Hr0 & Hf0); [|done|].
  { intros Hlt. assert (d2 = d1) as Heq by auto. rewrite Heq in Hlt |- *. unfold idx, idx_of.
    by rewrite Hexp1 by lia. }
  unfold idx_of in Hr0. rewrite Hr0. cbn [mbind option_bind].
  destruct (find_both_ok d2 k r0 Hd2 Hf0) as (r & Hr & Hf).
  pose proof (found_map d2 k r Hd2 Hf) as Hm. rewrite (preserves_map hash d d2 Hd Hp) in Hm.
  assert (Hins : r = None -> exists d3, dictInsertKeyAtLink d2 k v (dictIsRehashing d2)
      (idx_of hash (ht_size_exp (ht_of d2 (dictIsRehashing d2))) k) = Some d3 /\ dict_wf d3 /\
      dict_map d3 = <[k := v]> (dict_map d)).
  { intros ->. assert (Htb : ht_table (ht_of d2 (dictIsRehashing d2)) <> []).
    { unfold dictIsRehashing. destruct (Z.eqb_spec (rehashidx d2) (-1)) as [|Hb]; cbn [negb ht_of]; [done|].
      intros Hn. destruct (wf_busy_sizes hash d2 Hd2 Hb) as [_ Hz]. destruct (dw_busy hash _ Hd2 Hb) as (_ & _ & H1 & _).
      rewrite Hn, zlen_nil in Hz. pose proof (Z.pow_pos_nonneg 2 (ht_size_exp (ht1 d2)) ltac:(lia) H1). lia. }
    destruct (dict_insert_ok d2 k v _ Hd2 eq_refl Htb Hf) as (d3 & Hi3 & Hd3 & Hp3). exists d3. split; [done|].
    split; [done|]. destruct (dict_map_cons d3 k v _ Hd3 Hp3) as [-> _]. f_equal.
    by apply (preserves_map hash). }
  destruct r0 as [l|]; cbn [find_both] in Hr.
  - injection Hr as <-. destruct Hm as (v0 & Hl & ->). exists d2, (Some l). split; [done|]. split; [done|].
    split; [done|]. by apply (preserves_map hash).
  - unfold idx_of in Hins. destruct (dictIsRehashing d2) eqn:Erh; cbn [ht_of] in Hins.
    + rewrite Hr. cbn [mbind option_bind]. destruct r as [l|].
      * destruct Hm as (v0 & Hl & ->). exists d2, (Some l). split; [done|]. split; [done|].
        split; [done|]. by apply (preserves_map hash).
      * cbn [mbind option_bind]. destruct (Hins eq_refl) as (d3 & -> & Hd3 & Hm3). exists d3, None. split; [done|]. split; [done|]. by rewrite Hm.
    + injection Hr as <-. cbn [mbind option_bind]. destruct (Hins eq_refl) as (d3 & -> & Hd3 & Hm3). exists d3, None.
      split; [done|]. split; [done|]. by rewrite Hm.
Qed.

(** Unlinking a key gives its entry. *)
Lemma generic_delete_spec (d : dict) k : dict_wf d ->
  exists d', dictGenericDelete hash resize_allowed force_full_rehash can_resize d k =
      Some (d', (fun v => (k, v)) <$> dict_map d !! k) /\
    dict_wf d' /\ dict_map d' = delete k (dict_map d).
Proof.
  intros Hd. unfold dictGenericDelete. destruct (Z.eqb_spec (dictSize d) 0) as [Hs|Hs].
  { exists d. cbn. rewrite (size_0_empty d Hd Hs), lookup_empty, delete_empty. done. }
  destruct (step_find_ok d k Hd Hs) as (d1 & r0 & r & -> & Hp & He1 & Hr0 & Hr & Hf).
  cbn [mbind option_bind]. pose proof (pr_wf hash _ _ Hp) as Hd1. rewrite Hr0. cbn [mbind option_bind].
  unfold find_both in Hr. rewrite Hr. cbn [mbind option_bind].
  pose proof (found_map d1 k r Hd1 Hf) as Hm. rewrite (preserves_map hash d d1 Hd Hp) in Hm.
  destruct r as [l|].
  - destruct Hm as (v & Hl & Hkv). pose proof (link_ok_entry _ _ _ _ Hl) as [_ Hde].
    rewrite Hde. cbn [mbind option_bind].
    destruct (unlink_ok d1 l k v Hd1 Hl) as (d2 & es & -> & Hd2 & Hp1 & Hp2 & _). cbn [mbind option_bind].
    destruct (shrink_needed_ok hash resize_allowed force_full_rehash can_resize d2 Hd2) as (d3 & -> & Hp3).
    cbn [mbind option_bind]. exists d3. split; [by rewrite Hkv|]. split; [by apply (pr_wf hash _ _ Hp3)|].
    rewrite (preserves_map hash d2 d3 Hd2 Hp3), <- (preserves_map hash d d1 Hd Hp).
    destruct (dict_map_cons d1 k v es Hd1 Hp1) as [-> Hk].
    rewrite delete_insert_id by (by apply not_elem_of_list_to_map_1).
    unfold dict_map. apply list_to_map_proper; [|done]. by apply (dw_keys hash).
  - exists d1. rewrite Hm. split; [done|]. split; [done|].
    rewrite (preserves_map hash d d1 Hd Hp), delete_id by done. done.
Qed.

Lemma dict_delete_spec (d : dict) k : dict_wf d ->
  exists d', dictDelete hash resize_allowed force_full_rehash can_resize d k =
      Some (d', bool_decide (is_Some (dict_map d !! k))) /\
    dict_wf d' /\ dict_map d' = delete k (dict_map d).
Proof.
  intros Hd. destruct (generic_delete_spec d k Hd) as (d' & Hg & Hw & Hm). exists d'. unfold dictDelete.
  rewrite Hg. cbn [mbind option_bind]. split; [|done]. destruct (dict_map d !! k); [by rewrite !bool_decide_true|].
  by rewrite !bool_decide_false by (by intros [? ?]).
Qed.

(** ** Finding the bucket first, inserting later *)

(** The bucket of a key that is not in the dict. *)
Definition bucket_of (d : dict) (k : K) : bool * Z :=
  (dictIsRehashing d, idx_of hash (ht_size_exp (ht_of d (dictIsRehashing d))) k).

Lemma find_link_internal_spec (d : dict) k : dict_wf d -> ht_table (ht0 d) <> [] ->
  exists d' r b, dictFindLinkInternal hash can_resize d k true = Some (d', r, b) /\ preserves d d' /\
    match r with
    | Some l => exists v, dict_map d !! k = Some v /\ link_ok d' l k v
    | None => dict_map d !! k = None /\ b = Some (bucket_of d' k)
    end.
Proof.
  intros Hd Hs. unfold dictFindLinkInternal. cbn [negb andb].
  destruct (step_find_table d k Hd Hs) as (d1 & r0 & r & -> & Hp & He1 & Hr0 & Hr & Hf).
  cbn [mbind option_bind]. pose proof (pr_wf hash _ _ Hp) as Hd1.
  rewrite bool_decide_false by (by apply table_of_exp). rewrite Hr0. cbn [mbind option_bind].
  pose proof (found_map d1 k r Hd1 Hf) as Hm. rewrite (preserves_map hash d d1 Hd Hp) in Hm.
  assert (Hres : match r with
    | Some l => exists v, dict_map d !! k = Some v /\ link_ok d1 l k v | None => dict_map d !! k = None end).
  { destruct r; [|done]. destruct Hm as (v & ? & ?). by exists v. }
  clear Hm. destruct r0 as [l|]; cbn [find_both] in Hr.
  - injection Hr as <-. by eexists _, _, _.
  - destruct (dictIsRehashing d1) eqn:Erh.
    + rewrite Hr. cbn [mbind option_bind]. eexists _, r, _. split; [done|]. split; [done|].
      destruct r; [exact Hres|]. split; [exact Hres|unfold bucket_of; by rewrite Erh].
    + injection Hr as <-. eexists _, None, _. split; [done|]. split; [done|]. split; [done|]. unfold bucket_of. rewrite Erh.
      assert (rehashidx d1 = -1) by (unfold dictIsRehashing in Erh; by apply negb_false_iff, Z.eqb_eq in Erh).
      destruct (first_idx_ok d k Hd) as [Hi _]. destruct (Z.ltb_spec (Z.land (hash k) (DICTHT_SIZE_MASK (ht_size_exp (ht0 d)))) (rehashidx d1)); [lia|done].
Qed.

Lemma find_link_spec (d : dict) k : dict_wf d ->
  exists d' r b, dictFindLink hash can_resize d k true = Some (d', r, b) /\ preserves d d' /\
    match r with
    | Some l => exists v, dict_map d !! k = Some v /\ link_ok d' l k v
    | None => dict_map d !! k = None /\ (b = None \/ b = Some (bucket_of d' k) /\ ht_table (ht0 d') <> [])
    end.
Proof.
  intros Hd. unfold dictFindLink. destruct (Z.eqb_spec (dictSize d) 0) as [Hs|Hs].
  - exists d, None, None. split; [done|]. split; [by apply preserves_refl|]. rewrite size_0_empty by done. by split; [|left].
  - assert (Ht : ht_table (ht0 d) <> []) by (apply table_of_exp; [done|by apply size_pos_table]).
    destruct (find_link_internal_spec d k Hd Ht) as (d' & r & b & -> & Hp & Hr). exists d', r, b.
    split; [done|]. split; [done|]. destruct r; [done|]. destruct Hr as [? ->]. split; [done|]. right. split; [done|].
    by apply (pr_table hash _ _ Hp).
Qed.

Lemma rehashing_exp (d : dict) : dict_wf d -> dictIsRehashing d = negb (ht_size_exp (ht1 d) =? -1).
Proof.
  intros Hd. unfold dictIsRehashing. destruct (Z.eqb_spec (rehashidx d) (-1)) as [Hi|Hb].
  - by rewrite (dw_idle hash _ Hd Hi).
  - destruct (dw_busy hash _ Hd Hb) as (_ & _ & H1 & _). by rewrite (proj2 (Z.eqb_neq _ _)) by lia.
Qed.

(** The bucket of a key depends on the sizes of the tables only. *)
Lemma bucket_of_sizes (d d' : dict) k : dict_wf d -> dict_wf d' ->
  (ht_size_exp (ht0 d), ht_size_exp (ht1 d)) = (ht_size_exp (ht0 d'), ht_size_exp (ht1 d')) ->
  bucket_of d' k = bucket_of d k.
Proof.
  intros Hd Hd' [= H0 H1]. unfold bucket_of. rewrite !rehashing_exp, H1 by done.
  destruct (negb _); cbn [ht_of]; by rewrite ?H0, ?H1.
Qed.

Lemma insert_bucket_ok (d : dict) k v : dict_wf d -> ht_table (ht0 d) <> [] -> dict_map d !! k = None ->
  exists d', dictInsertKeyAtLink d k v (bucket_of d k).1 (bucket_of d k).2 = Some d' /\ dict_wf d' /\
    dict_map d' = <[k := v]> (dict_map d).
Proof.
  intros Hd Ht Hk. assert (Htb : ht_table (ht_of d (dictIsRehashing d)) <> []).
  { unfold dictIsRehashing. destruct (Z.eqb_spec (rehashidx d) (-1)) as [|Hb]; cbn [negb ht_of]; [done|].
    intros Hn. destruct (wf_busy_sizes hash d Hd Hb) as [_ Hz]. destruct (dw_busy hash _ Hd Hb) as (_ & _ & H1 & _).
    rewrite Hn, zlen_nil in Hz. pose proof (Z.pow_pos_nonneg 2 (ht_size_exp (ht1 d)) ltac:(lia) H1). lia. }
  destruct (dict_insert_ok d k v _ Hd eq_refl Htb) as (d' & Hi & Hd' & Hp).
  { by apply not_elem_of_list_to_map_2. }
  exists d'. split; [done|]. split; [done|]. by destruct (dict_map_cons d' k v _ Hd' Hp) as [-> _].
Qed.

(** The bucket found before may be used after any growth it triggers. *)
Lemma set_key_new_spec (d : dict) k v b : dict_wf d -> dict_map d !! k = None ->
  b = None \/ b = Some (bucket_of d k) /\ ht_table (ht0 d) <> [] ->
  exists d', dictSetKeyAtLink hash resize_allowed force_full_rehash can_resize d k v (NewItem b) = Some d' /\
    dict_wf d' /\ dict_map d' = <[k := v]> (dict_map d).
Proof.
  intros Hd Hk Hb. unfold dictSetKeyAtLink.
  destruct (expand_ok hash resize_allowed force_full_rehash can_resize d Hd) as (d1 & ok & -> & Hp & _ & Ht1).
  cbn [mbind option_bind]. pose proof (pr_wf hash _ _ Hp) as Hd1.
  pose proof (preserves_map hash d d1 Hd Hp) as Hm1.
  destruct (bool_decide_reflect ((ht_size_exp (ht0 d), ht_size_exp (ht1 d)) <> (ht_size_exp (ht0 d1), ht_size_exp (ht1 d1)) \/ b = None))
    as [_|Hsame].
  - destruct (find_link_internal_spec d1 k Hd1 Ht1) as (d2 & r & b' & -> & Hp2 & Hr). rewrite Hm1, Hk in Hr.
    destruct r as [l|]; [by destruct Hr as (? & ? & _)|]. destruct Hr as [_ ->]. cbn [mbind option_bind].
    rewrite bool_decide_true by done. cbn [cassert mbind option_bind]. rewrite bool_decide_true by done.
    cbn [cassert mbind option_bind]. pose proof (pr_wf hash _ _ Hp2) as Hd2.
    pose proof (preserves_map hash d1 d2 Hd1 Hp2) as Hm2.
    destruct (insert_bucket_ok d2 k v Hd2) as (d3 & Hi & Hd3 & Hm3).
    { by apply (pr_table hash _ _ Hp2). } { by rewrite Hm2, Hm1. }
    exists d3. destruct (bucket_of d2 k) as [t i]. split; [done|]. split; [done|]. by rewrite Hm3, Hm2, Hm1.
  - destruct Hb as [->|[-> _]]; [by destruct Hsame; right|]. cbn [mbind option_bind].
    destruct (insert_bucket_ok d1 k v Hd1 Ht1) as (d3 & Hi & Hd3 & Hm3); [by rewrite Hm1|].
    rewrite (bucket_of_sizes d d1 k Hd Hd1) in Hi.
    2:{ destruct (decide ((ht_size_exp (ht0 d), ht_size_exp (ht1 d)) = (ht_size_exp (ht0 d1), ht_size_exp (ht1 d1)))); [done|].
        by destruct Hsame; left. }
    exists d3. destruct (bucket_of d k) as [t i]. split; [done|]. split; [done|]. by rewrite Hm3, Hm1.
Qed.

(** C15: [dictFind] returns the value of a key, or nothing, according to the map
    the dict stands for, and the step of rehashing it may take on the way leaves
    that map unchanged. *)
Theorem dictFind_refines (d : dict) k : dict_wf d ->
  exists d', dictFind hash can_resize d k = Some (d', (fun v => (k, v)) <$> dict_map d !! k) /\
    dict_wf d' /\ dict_map d' = dict_map d.
Proof.
  intros Hd. destruct (find_spec d k Hd) as (d' & Hf & Hp). exists d'. split; [done|].
  split; [by apply (pr_wf hash _ _ Hp)|by apply (preserves_map hash)].
Qed.

(** C1: [dictAdd] adds a new key, and fails without changing the map when the
    key is already there, whatever the rehashing and resizing it triggers. *)
Theorem dictAdd_refines (d : dict) k v : dict_wf d ->
  pauseAutoResize d <= 0 \/ ht_table (ht0 d) <> [] ->
  exists d', dictAdd hash resize_allowed force_full_rehash can_resize d k v =
      Some (d', bool_decide (dict_map d !! k = None)) /\
    dict_wf d' /\
    dict_map d' = if bool_decide (dict_map d !! k = None) then <[k := v]> (dict_map d) else dict_map d.
Proof.
  intros Hd Hpre. destruct (add_raw_spec d k v Hd Hpre) as (d' & r & Hr & Hw & Hm).
  exists d'. unfold dictAdd. rewrite Hr. cbn [mbind option_bind].
  destruct (dict_map d !! k), r; try done.
  by destruct Hm as [_ ->].
Qed.

(** [dictReplace] sets the value of a key, and reports whether it was new. *)
Theorem dictReplace_refines (d : dict) k v : dict_wf d ->
  pauseAutoResize d <= 0 \/ ht_table (ht0 d) <> [] ->
  exists d', dictReplace hash resize_allowed force_full_rehash can_resize d k v =
      Some (d', bool_decide (dict_map d !! k = None)) /\
    dict_wf d' /\ dict_map d' = <[k := v]> (dict_map d).
Proof.
  intros Hd Hpre. destruct (add_raw_spec d k v Hd Hpre) as (d' & r & Hr & Hw & Hm).
  unfold dictReplace. rewrite Hr. cbn [mbind option_bind].
  destruct (dict_map d !! k) as [v0|] eqn:E, r as [l|]; try done; [|by exists d'].
  destruct Hm as [Hl Hm]. destruct (set_val_ok d' l k v0 v Hw Hl) as (d2 & es & -> & Hw2 & Hp & Hp2).
  cbn [mbind option_bind]. exists d2. split; [done|]. split; [done|].
  destruct (dict_map_cons d2 k v es Hw2 Hp2) as [-> _]. rewrite <- Hm.
  destruct (dict_map_cons d' k v0 es Hw Hp) as [-> _]. by rewrite insert_insert_eq.
Qed.

(** [dictDelete] removes a key and reports whether it was there; the
    shrinking it may start leaves the other keys alone. *)
Theorem dictDelete_refines (d : dict) k : dict_wf d ->
  exists d', dictDelete hash resize_allowed force_full_rehash can_resize d k =
      Some (d', bool_decide (is_Some (dict_map d !! k))) /\
    dict_wf d' /\ dict_map d' = delete k (dict_map d).
Proof. apply dict_delete_spec. Qed.

(** The first phase: the entry is found and rehashing is paused. *)
Lemma two_phase_find_spec (d : dict) k : dict_wf d ->
  exists d1 l, dictTwoPhaseUnlinkFind hash can_resize d k = Some (d1, l) /\ dict_wf d1 /\ dict_map d1 = dict_map d /\
    match l with
    | Some l => (exists v, dict_map d !! k = Some v /\ link_ok d1 l k v) /\ pauserehash d1 = pauserehash d + 1
    | None => dict_map d !! k = None /\ pauserehash d1 = pauserehash d
    end.
Proof.
  intros Hd. unfold dictTwoPhaseUnlinkFind. destruct (Z.eqb_spec (dictSize d) 0) as [Hs|Hs].
  { exists d, None. by rewrite (size_0_empty d Hd Hs), lookup_empty. }
  assert (Hst : exists d1, (if dictIsRehashing d then _dictRehashStep hash can_resize d else Some d) = Some d1 /\
    preserves d d1).
  { destruct (dictIsRehashing d); [|exists d; split; [done|by apply preserves_refl]].
    destruct (step_ok hash can_resize d Hd) as (d1 & ? & ? & _). by exists d1. }
  destruct Hst as (d1 & -> & Hp). cbn [mbind option_bind]. pose proof (pr_wf hash _ _ Hp) as Hd1.
  assert (He1 : 0 <= ht_size_exp (ht0 d1)).
  { apply size_pos_table; [done|]. rewrite <- dict_map_size by done.
    rewrite (preserves_map hash d d1 Hd Hp), dict_map_size by done. done. }
  destruct (find0_ok d1 k (idx_of hash (ht_size_exp (ht0 d1)) k) Hd1 He1) as (r0 & Hr0 & Hf0);
    [done|by apply idx_of_range|].
  unfold idx_of in Hr0. rewrite Hr0. cbn [mbind option_bind].
  destruct (find_both_ok d1 k r0 Hd1 Hf0) as (r & Hr & Hf).
  pose proof (found_map d1 k r Hd1 Hf) as Hm. rewrite (preserves_map hash d d1 Hd Hp) in Hm.
  exists (match r with Some _ => dictPauseRehashing d1 | None => d1 end), r. split.
  { destruct r0 as [l|]; cbn [find_both] in Hr; [by injection Hr as <-|].
    destruct (dictIsRehashing d1); [|by injection Hr as <-]. rewrite Hr. cbn [mbind option_bind]. by destruct r. }
  pose proof (pr_pause hash _ _ Hp) as Hpa. pose proof (preserves_map hash d d1 Hd Hp) as Hmap. destruct r as [l|].
  - split; [by split; apply Hd1|]. split; [done|]. destruct Hm as (v & Hl & Hkv).
    split; [exists v; split; [done|]; destruct l as [[] ? ?]; exact Hl|]. cbn. lia.
  - done.
Qed.

(** The second phase: the entry is unlinked and rehashing resumes. *)
Lemma two_phase_free_spec (d : dict) l k v : dict_wf d -> link_ok d l k v ->
  exists d2, dictTwoPhaseUnlinkFree hash resize_allowed force_full_rehash can_resize d (Some l) = Some d2 /\
    dict_wf d2 /\ dict_map d2 = delete k (dict_map d) /\ pauserehash d2 = pauserehash d - 1.
Proof.
  intros Hd Hl. unfold dictTwoPhaseUnlinkFree.
  destruct (unlink_ok d l k v Hd Hl) as (d2 & es & -> & Hd2 & Hp1 & Hp2 & Hpa & _). cbn [mbind option_bind].
  destruct (shrink_needed_ok hash resize_allowed force_full_rehash can_resize d2 Hd2) as (d3 & -> & Hp3).
  cbn [mbind option_bind]. eexists. split; [done|]. split; [by split; apply (pr_wf hash _ _ Hp3)|]. split.
  - change (dict_map (dictResumeRehashing d3)) with (dict_map d3). rewrite (preserves_map hash d2 d3 Hd2 Hp3).
    destruct (dict_map_cons d k v es Hd Hp1) as [-> Hk]. rewrite delete_insert_id by (by apply not_elem_of_list_to_map_1).
    unfold dict_map. apply list_to_map_proper; [|done]. by apply (dw_keys hash).
  - cbn. by rewrite (pr_pause hash _ _ Hp3), Hpa.
Qed.

(** Deleting in two phases ([dictTwoPhaseUnlinkFind], then
    [dictTwoPhaseUnlinkFree]) finds the value of the key and removes it, and
    leaves rehashing paused exactly as many times as before. *)
Theorem dictTwoPhaseUnlink_refines (d : dict) k : dict_wf d ->
  exists d1 l d2, dictTwoPhaseUnlinkFind hash can_resize d k = Some (d1, l) /\
    dict_wf d1 /\ dict_map d1 = dict_map d /\
    (match l with Some l => deref d1 l | None => None end) = (fun v => (k, v)) <$> dict_map d !! k /\
    dictTwoPhaseUnlinkFree hash resize_allowed force_full_rehash can_resize d1 l = Some d2 /\
    dict_wf d2 /\ dict_map d2 = delete k (dict_map d) /\ pauserehash d2 = pauserehash d.
Proof.
  intros Hd. destruct (two_phase_find_spec d k Hd) as (d1 & l & Hf & Hd1 & Hm1 & Hl). exists d1, l. destruct l as [l|].
  - destruct Hl as [(v & Hkv & Hl) Hpa]. destruct (two_phase_free_spec d1 l k v Hd1 Hl) as (d2 & Hfr & Hd2 & Hm2 & Hpa2).
    exists d2. split; [done|]. split; [done|]. split; [done|]. split; [by rewrite Hkv; apply link_ok_entry in Hl as [_ ->]|].
    split; [done|]. split; [done|]. split; [by rewrite Hm2, Hm1|]. lia.
  - destruct Hl as [Hkv Hpa]. exists d1. rewrite Hkv. do 4 (split; [done|]). split; [done|]. split; [done|].
    split; [by rewrite delete_id|done].
Qed.
End Map.

(** ** The theorems on a dict in the middle of a rehash *)

Definition sample_allowed (bytes used size : Z) : bool := true.

Lemma dictFind_refines_witness :
  exists d', dictFind sample_hash DICT_RESIZE_ENABLE sample_dict 7 = Some (d', Some (7, 70)) /\
    dict_wf sample_hash d' /\ dict_map d' = dict_map sample_dict.
Proof. exact (dictFind_refines sample_hash DICT_RESIZE_ENABLE sample_dict 7 sample_wf). Defined.

Lemma dictAdd_refines_witness :
  exists d', dictAdd sample_hash sample_allowed false DICT_RESIZE_ENABLE sample_dict 12 120 = Some (d', true) /\
    dict_wf sample_hash d' /\ dict_map d' = <[12 := 120]> (dict_map sample_dict).
Proof.
  exact (dictAdd_refines sample_hash sample_allowed false DICT_RESIZE_ENABLE sample_dict 12 120 sample_wf
    (or_introl (Z.le_refl 0))).
Defined.

Lemma dictReplace_refines_witness :
  exists d', dictReplace sample_hash sample_allowed false DICT_RESIZE_ENABLE sample_dict 3 33 = Some (d', false) /\
    dict_wf sample_hash d' /\ dict_map d' = <[3 := 33]> (dict_map sample_dict).
Proof.
  exact (dictReplace_refines sample_hash sample_allowed false DICT_RESIZE_ENABLE sample_dict 3 33 sample_wf
    (or_introl (Z.le_refl 0))).
Defined.

Lemma dictDelete_refines_witness :
  exists d', dictDelete sample_hash sample_allowed false DICT_RESIZE_ENABLE sample_dict 2 = Some (d', true) /\
    dict_wf sample_hash d' /\ dict_map d' = delete 2 (dict_map sample_dict).
Proof. exact (dictDelete_refines sample_hash sample_allowed false DICT_RESIZE_ENABLE sample_dict 2 sample_wf). Defined.

Lemma dictTwoPhaseUnlink_refines_witness :
  exists d1 l d2, dictTwoPhaseUnlinkFind sample_hash DICT_RESIZE_ENABLE sample_dict 1 = Some (d1, l) /\
    dict_wf sample_hash d1 /\ dict_map d1 = dict_map sample_dict /\
    (match l with Some l => deref d1 l | None => None end) = Some (1, 10) /\
    dictTwoPhaseUnlinkFree sample_hash sample_allowed false DICT_RESIZE_ENABLE d1 l = Some d2 /\
    dict_wf sample_hash d2 /\ dict_map d2 = delete 1 (dict_map sample_dict) /\ pauserehash d2 = 0.
Proof.
  exact (dictTwoPhaseUnlink_refines sample_hash sample_allowed false DICT_RESIZE_ENABLE sample_dict 1 sample_wf).
Defined.
