(* ===== verification/DictIter.v ===== *)
(** * Hash tables: whole-table operations

    Rehashing in slices of time ([dictRehashMicroseconds]) ends and keeps the
    map, [dictEmpty] frees every entry once, and an iterator returns every
    entry once. *)

From stdpp Require Import base list numbers option tactics gmap.
From S2P Require Import Prelude Dict DictInv.

Section Iter.
Context {K V : Type} `{Countable K}.
Context (hash : K -> Z) (can_resize : dictResizeEnable).
Implicit Types d : dict K V.
Implicit Types h : ht K V.

(** ** Incremental rehashing *)

Lemma forbidden_same d d' : rehashidx d <> -1 -> rehashidx d' <> -1 ->
  ht_size_exp (ht0 d') = ht_size_exp (ht0 d) -> ht_size_exp (ht1 d') = ht_size_exp (ht1 d) ->
  rehash_forbidden can_resize d' = rehash_forbidden can_resize d.
Proof.
  intros Hb Hb' H0 H1. unfold rehash_forbidden, dictIsRehashing. rewrite H0, H1.
  by rewrite !(proj2 (Z.eqb_neq _ _)).
Qed.

Lemma rehash_timed_ok expired fuel : forall i d n,
  dict_wf hash d -> rehashidx d <> -1 -> rehash_forbidden can_resize d = false ->
  2 ^ ht_size_exp (ht0 d) - rehashidx d < Z.of_nat fuel ->
  exists d' r, rehash_timed hash can_resize fuel expired i d n = Some (d', r) /\ preserves hash d d' /\
    ((forall j, expired j = false) -> rehashidx d' = -1).
Proof.
  induction fuel as [|fuel IH]; intros i d n Hd Hb Hf Hfu.
  { pose proof (dw_busy _ _ Hd Hb) as (? & _). lia. }
  cbn [rehash_timed].
  destruct (dictRehash_ok hash can_resize d 100 Hd) as (d1 & more & -> & Hp & Hs & Hm); [lia|].
  cbn [mbind option_bind]. destruct more.
  - destruct Hm as (Hb1 & Hlt & _). destruct (Hs Hb1) as (H0 & H1 & _ & _).
    destruct (expired i) eqn:Ei.
    { exists d1, (n + 100). split_and!; [done|done|]. intros Hno. by rewrite Hno in Ei. }
    destruct (IH (S i) d1 (n + 100)) as (d' & r & -> & Hp' & He).
    { by apply (pr_wf hash _ _ Hp). }
    { done. }
    { by rewrite (forbidden_same d d1). }
    { rewrite H0. lia. }
    exists d', r. split_and!; [done|by eapply preserves_trans|done].
  - exists d1, n. split_and!; [done|done|]. intros _. destruct Hm as [[Hm _]|Hm]; [congruence|done].
Qed.

(** C36: Rehashing in slices: on a well-formed dict that is being rehashed, when the
    resize policy does not forbid rehashing and it is not paused,
    [dictRehashMicroseconds] returns whenever the clock stops it, the dict stands for
    the same map, and when the clock never runs out the rehash is complete (the loop
    needs at most one call more than the table has buckets). *)
Theorem dictRehashMicroseconds_completes expired d :
  dict_wf hash d -> rehash_forbidden can_resize d = false -> pauserehash d <= 0 ->
  exists d' r, dictRehashMicroseconds hash can_resize expired d = Some (d', r) /\
    dict_wf hash d' /\ dict_map d' = dict_map d /\
    ((forall j, expired j = false) -> dictIsRehashing d' = false).
Proof.
  intros Hd Hf Hpa. unfold dictRehashMicroseconds. destruct (Z.gtb_spec (pauserehash d) 0); [lia|].
  assert (Hb : rehashidx d <> -1).
  { unfold rehash_forbidden, dictIsRehashing in Hf. destruct (Z.eqb_spec (rehashidx d) (-1)); [|done].
    cbn in Hf. by rewrite orb_true_r in Hf. }
  destruct (wf_busy_sizes hash d Hd Hb) as [Hz _]. destruct (dw_busy _ _ Hd Hb) as (Hr & _).
  destruct (rehash_timed_ok expired (S (length (ht_table (ht0 d)))) 0 d 0 Hd Hb Hf) as (d' & r & -> & Hp & He).
  { unfold zlen in Hz. lia. }
  exists d', r. split_and!; [done|by apply (pr_wf hash _ _ Hp)|by apply (preserves_map hash)|].
  intros Hno. unfold dictIsRehashing. by rewrite He.
Qed.

(** ** Emptying *)

Lemma size_zlen h : ht_wf hash h -> DICTHT_SIZE (ht_size_exp h) = zlen (ht_table h).
Proof.
  intros Hw. destruct (hw_size _ _ Hw) as [[-> ->]|[He ->]]; [done|]. apply size_pow. lia.
Qed.

Lemma clear_loop_ok (t : list (list (K * V))) e fuel : forall i freed,
  DICTHT_SIZE e = zlen t -> (i <= length t)%nat -> (length t - i <= fuel)%nat ->
  dictClear_loop fuel {| ht_table := t; ht_used := zlen (concat (drop i t)); ht_size_exp := e |} (Z.of_nat i) freed
  = Some (freed ++ concat (drop i t)).
Proof.
  induction fuel as [|fuel IH]; intros i freed Hz Hi Hf; cbn [dictClear_loop ht_size_exp ht_used ht_table];
    rewrite Hz.
  - rewrite (proj2 (Z.ltb_ge _ _)) by (unfold zlen; lia). cbn [andb].
    rewrite drop_ge by lia. by rewrite app_nil_r.
  - destruct (Z.gtb_spec (zlen (concat (drop i t))) 0) as [Hu|Hu].
    2:{ rewrite andb_false_r. destruct (concat (drop i t)); [by rewrite app_nil_r|unfold zlen in Hu; cbn in Hu; lia]. }
    destruct (lookup_lt_is_Some_2 t i) as [c Hc].
    { destruct (Nat.lt_ge_cases i (length t)); [done|]. rewrite drop_ge in Hu by done. cbn in Hu.
      unfold zlen in Hu. cbn in Hu. lia. }
    pose proof (lookup_lt_Some _ _ _ Hc). rewrite (proj2 (Z.ltb_lt _ _)) by (unfold zlen; lia). cbn [andb].
    unfold get_bucket. rewrite (proj2 (Z.leb_le _ _)), Nat2Z.id by lia. rewrite Hc. cbn [mbind option_bind].
    rewrite (drop_S t c i Hc). cbn [concat]. rewrite app_assoc.
    replace (Z.of_nat i + 1) with (Z.of_nat (S i)) by lia.
    replace (zlen (c ++ concat (drop (S i) t)) - zlen c) with (zlen (concat (drop (S i) t)))
      by (unfold zlen; rewrite length_app; lia).
    apply IH; [done|lia..].
Qed.

Lemma clear_ok h : ht_wf hash h -> _dictClear h = Some (concat (ht_table h), _dictReset).
Proof.
  intros Hw. unfold _dictClear. pose proof (hw_used _ _ Hw) as Hu. pose proof (size_zlen h Hw) as Hz.
  destruct h as [t u e]. cbn in *. subst u.
  pose proof (clear_loop_ok t e (length t) 0 [] Hz ltac:(lia) ltac:(lia)) as Hl.
  rewrite drop_0 in Hl. change (Z.of_nat 0) with 0 in Hl. cbn [ht_table]. by rewrite Hl.
Qed.

(** [dictEmpty] frees every entry of both tables exactly once and leaves the
    dict as a new one. *)
Theorem dictEmpty_frees_all d : dict_wf hash d -> dictEmpty d = Some (entries d, dictCreate).
Proof.
  intros Hd. unfold dictEmpty. rewrite !clear_ok by apply Hd. done.
Qed.

(** ** Iterators *)

Definition is_first (it : dictIterator (K := K) (V := V)) : bool := (it_index it =? -1) && negb (it_table it).

(** The bucket an iterator stands at. *)
Definition at_index d (it : dictIterator (K := K) (V := V)) : Z :=
  if is_first it && dictIsRehashing d then rehashidx d - 1 else it_index it.

(** The buckets, and then the entries, it has not returned yet. *)
Definition later d it : list (list (K * V)) :=
  drop (Z.to_nat (at_index d it + 1)) (ht_table (ht_of d (it_table it))) ++
  (if dictIsRehashing d && negb (it_table it) then ht_table (ht1 d) else []).
Definition remaining d it : list (K * V) :=
  (match it_entry it with Some _ => it_nextEntry it | None => [] end) ++ concat (later d it).

Record iter_ok d (it : dictIterator (K := K) (V := V)) : Prop := {
  io_index : -1 <= it_index it;
  io_entry : it_entry it <> None -> is_first it = false;
  io_table : it_table it = true -> dictIsRehashing d = true }.

Implicit Types it : dictIterator (K := K) (V := V).

Abbreviation moved it i t e n :=
  {| it_index := i; it_table := t; it_safe := it_safe it; it_entry := e; it_nextEntry := n |}.

(** The end of the loop body: return the head of the chain, or go round again. *)
Definition emit fuel d it (c : list (K * V)) : option (dict K V * dictIterator * option (K * V)) :=
  match c with
  | e :: next => Some (d, moved it (it_index it) (it_table it) (Some e) next, Some e)
  | [] => dictNext fuel d (moved it (it_index it) (it_table it) None [])
  end.

(** One turn of the loop takes the next bucket. *)
Lemma next_turn fuel d it : dict_wf hash d -> iter_ok d it -> it_entry it = None ->
  let d1 := if is_first it && it_safe it then dictPauseRehashing d else d in
  match later d it with
  | [] => exists i, 0 <= i /\ dictNext (S fuel) d it = Some (d1, moved it i (it_table it) None [], None) /\
      later d (moved it i (it_table it) None []) = []
  | c :: l => exists i t, 0 <= i /\ dictNext (S fuel) d it = emit fuel d1 (moved it i t None []) c /\
      (t = true -> dictIsRehashing d = true) /\ later d (moved it i t None []) = l
  end.
Proof.
  intros Hd Hok Hen d1. cbn [dictNext]. rewrite Hen. fold (is_first it).
  assert (Hrh : dictIsRehashing d1 = dictIsRehashing d) by (unfold d1; by destruct (_ && _)).
  assert (Hht : ht_of d1 = ht_of d) by (unfold d1; by destruct (_ && _)).
  assert (Hht1 : ht1 d1 = ht1 d) by (unfold d1; by destruct (_ && _)).
  assert (Hri : rehashidx d1 = rehashidx d) by (unfold d1; by destruct (_ && _)).
  fold d1. rewrite Hrh, Hri, Hht, Hht1. fold (at_index d it). set (i := at_index d it).
  assert (Hi : -1 <= i).
  { unfold i, at_index, dictIsRehashing. destruct (Z.eqb_spec (rehashidx d) (-1)) as [_|Hb]; cbn [negb].
    - rewrite andb_false_r. apply Hok.
    - destruct (dw_busy _ _ Hd Hb) as (? & _). destruct (is_first it); cbn [andb]; [lia|apply Hok]. }
  assert (Hnf : forall j t, 0 <= j -> at_index d (moved it j t None []) = j).
  { intros j t Hj. unfold at_index, is_first. cbn. by rewrite (proj2 (Z.eqb_neq j (-1))) by lia. }
  unfold later. fold i.
  assert (Hw : ht_wf hash (ht_of d (it_table it))) by (destruct (it_table it); apply Hd).
  rewrite (size_zlen _ Hw). set (t := ht_table (ht_of d (it_table it))).
  destruct (Z.geb_spec (i + 1) (zlen t)) as [Hge|Hlt].
  - rewrite drop_ge by (unfold zlen in Hge; lia). cbn [app].
    destruct (dictIsRehashing d && negb (it_table it)) eqn:Er.
    + apply andb_true_iff in Er as [Er Et].
      assert (Hb : rehashidx d <> -1).
      { unfold dictIsRehashing in Er. by destruct (Z.eqb_spec (rehashidx d) (-1)). }
      destruct (wf_busy_sizes hash d Hd Hb) as [_ Hz1]. destruct (dw_busy _ _ Hd Hb) as (_ & _ & H1 & _).
      destruct (ht_table (ht1 d)) as [|c l] eqn:E1; [rewrite zlen_nil in Hz1; lia|].
      exists 0, true. split_and!; [lia|done|done|]. rewrite Hnf by lia. cbn [it_table negb ht_of].
      rewrite andb_false_r, app_nil_r. by rewrite E1.
    + exists (i + 1). split_and!; [lia|done|]. rewrite Hnf by lia. cbn [it_table]. fold t.
      rewrite Er, drop_ge by (unfold zlen in Hge; lia). done.
  - destruct (lookup_lt_is_Some_2 t (Z.to_nat (i + 1))) as [c Hc]; [unfold zlen in Hlt; lia|].
    rewrite (drop_S t c _ Hc). cbn [app]. exists (i + 1), (it_table it). split_and!; [lia| |apply Hok|].
    + unfold get_bucket. rewrite (proj2 (Z.leb_le _ _)) by lia. by rewrite Hc.
    + rewrite Hnf by lia. cbn [it_table]. fold t. do 2 f_equal. lia.
Qed.

(** A call of [dictNext] returns the first of the remaining entries. *)
Lemma next_ok fuel : forall d it, dict_wf hash d -> iter_ok d it ->
  (length (later d it) + (match it_entry it with Some _ => 1 | None => 0 end) < fuel)%nat ->
  exists it', dictNext fuel d it =
    Some ((if is_first it && it_safe it then dictPauseRehashing d else d), it', head (remaining d it)) /\
    iter_ok d it' /\ is_first it' = false /\ it_safe it' = it_safe it /\ remaining d it' = tail (remaining d it).
Proof.
  assert (Hstop : forall it : dictIterator (K := K) (V := V), is_first it = false ->
    forall d : dict K V, (if is_first it && it_safe it then dictPauseRehashing d else d) = d) by (by intros ? ->).
  induction fuel as [|fuel IH]; intros d it Hd Hok Hf; [lia|].
  destruct (it_entry it) as [e0|] eqn:Ee.
  - pose proof (io_entry _ _ Hok ltac:(by rewrite Ee)) as Hnf. rewrite (Hstop it Hnf).
    cbn [dictNext]. rewrite Ee. unfold remaining at 1 3. rewrite Ee.
    destruct (it_nextEntry it) as [|e next] eqn:En.
    + destruct (IH d (moved it (it_index it) (it_table it) None [])) as (it' & Hn & Hrest).
      { done. }
      { split; cbn; [apply Hok|done|apply Hok]. }
      { change (later d (moved it (it_index it) (it_table it) None [])) with (later d it). cbn. lia. }
      exists it'. cbn [app]. rewrite (Hstop (moved it (it_index it) (it_table it) None [])) in Hn by done.
      split; [exact Hn|exact Hrest].
    + cbn [app head tail]. eexists. split; [done|]. split_and!; [|done|done|done].
      split; cbn; [apply Hok|done|apply Hok].
  - pose proof (next_turn fuel d it Hd Hok Ee) as Ht. unfold remaining at 1 3. rewrite Ee. cbn [app].
    set (d1 := if is_first it && it_safe it then dictPauseRehashing d else d) in *.
    assert (Hd1 : dict_wf hash d1) by (unfold d1; destruct (_ && _); [by split; apply Hd|done]).
    assert (Hl1 : forall it, later d1 it = later d it) by (unfold d1; by destruct (_ && _)).
    destruct (later d it) as [|c l] eqn:El.
    + destruct Ht as (i & Hi & -> & Hl). exists (moved it i (it_table it) None []). split; [done|].
      assert (Hnf : is_first (moved it i (it_table it) None []) = false)
        by (unfold is_first; cbn; by rewrite (proj2 (Z.eqb_neq i (-1))) by lia).
      split_and!; [|done|done|by unfold remaining; rewrite Hl]. split; cbn; [lia|done|apply Hok].
    + destruct Ht as (i & t & Hi & -> & Htr & Hl). cbn [concat].
      assert (Hnf : forall e n, is_first (moved it i t e n) = false)
        by (intros; unfold is_first; cbn; by rewrite (proj2 (Z.eqb_neq i (-1))) by lia).
      destruct c as [|e next]; cbn [emit app head tail].
      * destruct (IH d1 (moved it i t None [])) as (it' & Hn & Hio & Hfi & Hsa & Hre).
        { done. }
        { split; cbn; [lia|done|]. intros Heq. unfold d1. destruct (_ && _); by apply Htr. }
        { rewrite Hl1, Hl. cbn in *. lia. }
        rewrite Hstop in Hn by done. exists it'.
        assert (Hrd : forall it, remaining d1 it = remaining d it) by (unfold d1; by destruct (_ && _)).
        rewrite !Hrd in Hre. rewrite Hrd in Hn. unfold remaining at 2 in Hre. unfold remaining in Hn.
        cbn [it_entry app] in Hre, Hn. rewrite Hl in Hre, Hn.
        split_and!; [exact Hn| |done|done|done].
        destruct Hio as [? ? Hio]. split; [done|done|]. intros Heq. rewrite <- (Hio Heq). unfold d1.
        by destruct (_ && _).
      * cbn [it_index it_table]. eexists. split; [done|]. split_and!; [|apply Hnf|done|].
        -- split; cbn; [lia|intros _; apply Hnf|done].
        -- unfold remaining. cbn [it_entry it_nextEntry]. by rewrite <- Hl.
Qed.

(** [while ((de = dictNext(&iter)) != NULL)]: the entries seen, and the dict and
    the iterator after the last call. *)
Fixpoint iterate (n fuel : nat) d (it : dictIterator (K := K) (V := V))
    : option (list (K * V) * dict K V * dictIterator) :=
  match n with
  | O => None
  | S n =>
      '(d, it, de) ← dictNext fuel d it;
      match de with
      | None => Some ([], d, it)
      | Some e => '(es, d, it) ← iterate n fuel d it; Some (e :: es, d, it)
      end
  end.

Lemma iterate_ok n fuel : forall d it, dict_wf hash d -> iter_ok d it ->
  (length (remaining d it) < n)%nat ->
  (forall it', iter_ok d it' -> (length (later d it') + 1 < fuel)%nat) ->
  exists it', iterate n fuel d it =
    Some (remaining d it, (if is_first it && it_safe it then dictPauseRehashing d else d), it') /\
    is_first it' = false /\ it_safe it' = it_safe it.
Proof.
  induction n as [|n IH]; intros d it Hd Hok Hn Hfu; [lia|].
  destruct (next_ok fuel d it Hd Hok) as (it1 & Hnx & Hok1 & Hf1 & Hs1 & Hr1).
  { specialize (Hfu it Hok). destruct (it_entry it); lia. }
  cbn [iterate]. rewrite Hnx. cbn [mbind option_bind].
  destruct (remaining d it) as [|e r] eqn:Er; cbn [head tail] in *; [by exists it1|].
  set (d1 := if is_first it && it_safe it then dictPauseRehashing d else d).
  assert (Hd1 : dict_wf hash d1) by (unfold d1; destruct (_ && _); [by split; apply Hd|done]).
  assert (Hio : forall it, iter_ok d it <-> iter_ok d1 it)
    by (intros it0; unfold d1; destruct (_ && _); split; intros []; by split).
  assert (Hre : remaining d1 it1 = r) by (rewrite <- Hr1; unfold d1; by destruct (_ && _)).
  destruct (IH d1 it1) as (it2 & Heq & Hf2 & Hs2); [done|by apply Hio|rewrite Hre; cbn in Hn; lia| |].
  { intros it' Ho. specialize (Hfu it' (proj2 (Hio it') Ho)). unfold d1. by destruct (_ && _). }
  rewrite Heq, Hre, Hf1. cbn [mbind option_bind andb]. exists it2. split_and!; [done..|congruence].
Qed.

(** The loop of one call turns at most once per bucket. *)
Definition next_fuel d : nat := 2 + length (ht_table (ht0 d)) + length (ht_table (ht1 d)) + length (ht_table (ht1 d)).

Lemma later_length d it : (length (later d it) + 1 < next_fuel d)%nat.
Proof.
  unfold later, next_fuel. rewrite length_app, length_drop.
  destruct (it_table it), (dictIsRehashing d); cbn [ht_of andb negb length]; lia.
Qed.

Lemma remaining_all d safe : dict_wf hash d ->
  remaining d {| it_index := -1; it_table := false; it_safe := safe; it_entry := None; it_nextEntry := [] |} = entries d.
Proof.
  intros Hd. unfold remaining, later, at_index, is_first, entries. cbn [it_entry it_index it_table ht_of negb andb Z.eqb Pos.eqb app].
  rewrite concat_app, andb_true_r. unfold dictIsRehashing.
  destruct (Z.eqb_spec (rehashidx d) (-1)) as [Hi|Hb]; cbn [negb].
  - change (-1 + 1) with 0. rewrite drop_0, (wf_idle_table1 hash d Hd Hi). done.
  - f_equal. destruct (dw_busy _ _ Hd Hb) as (Hr & _ & _ & He).
    replace (Z.to_nat (rehashidx d - 1 + 1)) with (Z.to_nat (rehashidx d)) by (f_equal; lia).
    rewrite <- (take_drop (Z.to_nat (rehashidx d)) (ht_table (ht0 d))) at 2. rewrite concat_app.
    replace (concat (take (Z.to_nat (rehashidx d)) (ht_table (ht0 d)))) with (@nil (K * V)); [done|].
    symmetry. apply concat_nil_Forall, Forall_lookup. intros j c [Hj Hlt]%lookup_take_Some.
    eapply He; [done|lia].
Qed.

(** A safe iterator returns every entry exactly once, in the order of the
    tables, on a dict in any phase of rehashing, and releasing it leaves the
    dict as it was: the pause of rehashing is undone. *)
Theorem dictNext_visits_all d : dict_wf hash d ->
  exists d' it', iterate (S (length (entries d))) (next_fuel d) d dictInitSafeIterator = Some (entries d, d', it') /\
    pauserehash d' = pauserehash d + 1 /\ dictResetIterator d' it' = d.
Proof.
  intros Hd. pose proof (remaining_all d true Hd) as Hr.
  destruct (iterate_ok (S (length (entries d))) (next_fuel d) d dictInitSafeIterator) as (it' & -> & Hf & Hs).
  { done. }
  { by split. }
  { unfold dictInitSafeIterator. rewrite Hr. lia. }
  { intros it' _. apply later_length. }
  unfold dictInitSafeIterator in Hs |- *. rewrite Hr. cbn [is_first it_index it_table it_safe Z.eqb Pos.eqb negb andb] in Hs |- *.
  exists (dictPauseRehashing d), it'. split_and!; [done|done|].
  unfold dictResetIterator. fold (is_first it'). rewrite Hf, Hs. cbn [negb andb].
  unfold dictResumeRehashing, dictPauseRehashing. cbn. rewrite Z.add_simpl_r. by destruct d.
Qed.
End Iter.

(** ** The theorems on a dict in the middle of a rehash *)

Lemma dictRehashMicroseconds_completes_witness :
  exists d' r, dictRehashMicroseconds sample_hash DICT_RESIZE_ENABLE (fun _ => false) sample_dict = Some (d', r) /\
    dict_wf sample_hash d' /\ dict_map d' = dict_map sample_dict /\
    ((forall j : nat, false = false) -> dictIsRehashing d' = false).
Proof.
  exact (dictRehashMicroseconds_completes sample_hash DICT_RESIZE_ENABLE (fun _ => false) sample_dict sample_wf
    eq_refl (Z.le_refl 0)).
Defined.

Lemma dictEmpty_frees_all_witness :
  dictEmpty sample_dict = Some ([(2, 20); (7, 70); (3, 30); (1, 10)], dictCreate).
Proof. exact (dictEmpty_frees_all sample_hash sample_dict sample_wf). Defined.

Lemma dictNext_visits_all_witness :
  exists d' it', iterate 5 22 sample_dict dictInitSafeIterator = Some ([(2, 20); (7, 70); (3, 30); (1, 10)], d', it') /\
    pauserehash d' = 1 /\ dictResetIterator d' it' = sample_dict.
Proof. exact (dictNext_visits_all sample_hash sample_dict sample_wf). Defined.
