(* ===== verification/DictScan.v ===== *)
(** * Hash tables: the scan cursor (dictScan of src/dict.c)

    [dictScan] keeps no state between calls but a 64-bit cursor, and the dict may
    be modified, resized and partly rehashed between calls.  The cursor is
    incremented with its bits reversed.  This file models one call and proves
    the guarantee the code documents: an element that is in the dict for the
    whole of an iteration is returned at least once. *)

From stdpp Require Import base list numbers option tactics gmap.
From S2P Require Import Prelude Dict DictInv.

(** ** Bit reversal *)

(** [while ((s >>= 1) > 0)] *)
Fixpoint rev_loop (fuel : nat) (s mask v : Z) : Z :=
  match fuel with
  | O => v
  | S fuel =>
      let s := Z.shiftr s 1 in
      if s >? 0 then
        let mask := Z.lxor mask (u64 (Z.shiftl mask s)) in
        let v := Z.lor (Z.land (Z.shiftr v s) mask) (Z.land (u64 (Z.shiftl v s)) (u64 (Z.lnot mask))) in
        rev_loop fuel s mask v
      else v
  end.

(** [s] starts at 64, so the loop runs 6 times. *)
Definition rev (v : Z) : Z := rev_loop 7 (8 * 8) (u64 (Z.lnot 0)) v.

(** ** One call *)

(** [v |= ~m; v = rev(v); v++; v = rev(v);] *)
Definition scan_next (v m : Z) : Z := rev (u64 (rev (Z.lor v (u64 (Z.lnot m))) + 1)).

Section Scan.
Context {K V : Type}.

(** The [do ... while (v & (m0 ^ m1))] loop over the larger table [h]: the new
    cursor and the entries given to [fn]. *)
Fixpoint scan_loop (fuel : nat) (h : ht K V) (m0 m1 v : Z) (emitted : list (K * V))
    : option (Z * list (K * V)) :=
  match fuel with
  | O => None
  | S fuel =>
      c ← get_bucket (ht_table h) (Z.land v m1);
      let emitted := emitted ++ c in
      let v := scan_next v m1 in
      if Z.land v (Z.lxor m0 m1) =? 0 then Some (v, emitted)
      else scan_loop fuel h m0 m1 v emitted
  end.

(** [dictScan], for a callback that does not modify the dict. *)
Definition dictScan (d : dict K V) (v : Z) : option (Z * list (K * V)) :=
  if dictSize d =? 0 then Some (0, [])
  else if negb (dictIsRehashing d) then
    let m0 := DICTHT_SIZE_MASK (ht_size_exp (ht0 d)) in
    c ← get_bucket (ht_table (ht0 d)) (Z.land v m0);
    Some (scan_next v m0, c)
  else
    let '(t0, t1) := if DICTHT_SIZE (ht_size_exp (ht0 d)) >? DICTHT_SIZE (ht_size_exp (ht1 d))
                     then (ht1 d, ht0 d) else (ht0 d, ht1 d) in
    let m0 := DICTHT_SIZE_MASK (ht_size_exp t0) in
    let m1 := DICTHT_SIZE_MASK (ht_size_exp t1) in
    c ← get_bucket (ht_table t0) (Z.land v m0);
    scan_loop (length (ht_table t1)) t1 m0 m1 v c.

(** A sequence of calls: [ds] are the dicts they see. *)
Fixpoint scan_seq (ds : list (dict K V)) (v : Z) : option (Z * list (K * V)) :=
  match ds with
  | [] => Some (v, [])
  | d :: ds =>
      '(v, c) ← dictScan d v;
      '(v, cs) ← scan_seq ds v;
      Some (v, c ++ cs)
  end.
End Scan.

(** ** Bit reversal reverses bits *)

Lemma testbit_u64 x i : 0 <= i < 64 -> Z.testbit (u64 x) i = Z.testbit x i.
Proof. intros. unfold wrapu. by rewrite Z.mod_pow2_bits_low by lia. Qed.

(** One round swaps the halves of every group of [2s] bits. *)
Definition round (s mask v : Z) : Z :=
  Z.lor (Z.land (Z.shiftr v s) mask) (Z.land (u64 (Z.shiftl v s)) (u64 (Z.lnot mask))).

Lemma round_bit s mask v i :
  0 < s -> 0 <= v < 2 ^ 64 -> 0 <= i < 64 ->
  Z.testbit (round s mask v) i = if Z.testbit mask i then Z.testbit v (i + s) else Z.testbit v (i - s).
Proof.
  intros Hs Hv Hi. unfold round. rewrite Z.lor_spec, !Z.land_spec, Z.shiftr_spec by lia.
  rewrite !testbit_u64 by lia. rewrite Z.lnot_spec by lia.
  destruct (Z.testbit mask i); cbn [negb]; rewrite ?andb_true_r, ?andb_false_r; [apply orb_false_r|].
  cbn [orb]. apply Z.shiftl_spec. lia.
Qed.


(** The numbers of 64 bits are those with no bit above. *)
Lemma u64_of_bits x : 0 <= x -> (forall i, 64 <= i -> Z.testbit x i = false) -> 0 <= x < 2 ^ 64.
Proof.
  intros Hx Hb. replace x with (x mod 2 ^ 64); [apply Z.mod_pos_bound; lia|].
  apply Z.bits_inj'. intros i Hi. destruct (Z.lt_ge_cases i 64).
  - by rewrite Z.mod_pow2_bits_low by lia.
  - rewrite Z.mod_pow2_bits_high by lia. by rewrite Hb.
Qed.

Lemma high_bit x i : 0 <= x < 2 ^ 64 -> 64 <= i -> Z.testbit x i = false.
Proof. intros Hx Hi. rewrite <- (Z.mod_small x (2 ^ 64)) by done. apply Z.mod_pow2_bits_high. lia. Qed.

Lemma round_range s mask v : 0 <= mask < 2 ^ 64 -> 0 <= round s mask v < 2 ^ 64.
Proof.
  intros Hm. pose proof (wrapu_range 64 (Z.lnot mask) ltac:(lia)) as Hn. unfold round. apply u64_of_bits.
  - apply Z.lor_nonneg. split; apply Z.land_nonneg; right; lia.
  - intros i Hi. rewrite Z.lor_spec, !Z.land_spec, (high_bit mask), (high_bit (u64 (Z.lnot mask))) by done.
    by rewrite !andb_false_r.
Qed.

(** Where bit [i] comes from. *)
Definition source (s mask i : Z) : Z := if Z.testbit mask i then i + s else i - s.

Lemma round_source s mask v i :
  0 < s -> 0 <= v < 2 ^ 64 -> 0 <= i < 64 ->
  Z.testbit (round s mask v) i = Z.testbit v (source s mask i).
Proof. intros. rewrite round_bit by done. unfold source. by destruct (Z.testbit mask i). Qed.

Definition rounds : list (Z * Z) :=
  [(1, 0x5555555555555555); (2, 0x3333333333333333); (4, 0x0F0F0F0F0F0F0F0F);
   (8, 0x00FF00FF00FF00FF); (16, 0x0000FFFF0000FFFF); (32, 0x00000000FFFFFFFF)].

(** The rounds, the last one first. *)
Definition run (rs : list (Z * Z)) (v : Z) : Z := foldr (fun sm v => round sm.1 sm.2 v) v rs.

Lemma rev_loop_S fuel s mask v : 0 < Z.shiftr s 1 ->
  rev_loop (S fuel) s mask v =
  let s := Z.shiftr s 1 in let mask := Z.lxor mask (u64 (Z.shiftl mask s)) in
  rev_loop fuel s mask (round s mask v).
Proof. intros Hs. cbn [rev_loop]. by rewrite (proj2 (Z.gtb_lt _ _)). Qed.

Lemma rev_run v : rev v = run rounds v.
Proof.
  unfold rev, rounds, run. cbn [foldr fst snd].
  do 6 (rewrite rev_loop_S by done; cbv zeta;
        match goal with |- rev_loop _ ?s ?m (round _ _ ?w) = _ =>
          let s' := eval vm_compute in s in let m' := eval vm_compute in m in
          change s with s'; change m with m' end).
  done.
Qed.

(** Following bit [i] down the rounds, checking that it stays a bit. *)
Fixpoint track (rs : list (Z * Z)) (i : Z) : option Z :=
  if bool_decide (0 <= i < 64) then
    match rs with
    | [] => Some i
    | (s, mask) :: rs =>
        if bool_decide (0 < s) && bool_decide (0 <= mask < 2 ^ 64) then track rs (source s mask i) else None
    end
  else None.

Lemma run_range rs v : 0 <= v < 2 ^ 64 -> Forall (fun sm => 0 <= sm.2 < 2 ^ 64) rs ->
  0 <= run rs v < 2 ^ 64.
Proof. intros Hv Hr. destruct Hr as [|sm rs Hm]; [done|]. by apply round_range. Qed.

Lemma run_track rs : forall i j v, 0 <= v < 2 ^ 64 -> Forall (fun sm => 0 <= sm.2 < 2 ^ 64) rs ->
  track rs i = Some j -> Z.testbit (run rs v) i = Z.testbit v j.
Proof.
  induction rs as [|[s m] rs IH]; intros i j v Hv Hr; cbn [track];
    destruct (bool_decide_reflect (0 <= i < 64)) as [Hi|]; try done.
  - by intros [= <-].
  - apply list.Forall_cons in Hr as [_ Hr].
    destruct (bool_decide_reflect (0 < s)); [|done]. cbn [andb]. destruct (bool_decide _); [|done].
    intros Ht. change (run ((s, m) :: rs) v) with (round s m (run rs v)).
    rewrite round_source by (try done; by apply run_range). by apply IH.
Qed.

Lemma rounds_masks : Forall (fun sm : Z * Z => 0 <= sm.2 < 2 ^ 64) rounds.
Proof. by repeat constructor. Qed.

Lemma rev_range v : 0 <= v < 2 ^ 64 -> 0 <= rev v < 2 ^ 64.
Proof. intros. rewrite rev_run. apply run_range; [done|apply rounds_masks]. Qed.

(** [rev] reverses the 64 bits of a word. *)
Lemma rev_bit v i : 0 <= v < 2 ^ 64 -> 0 <= i < 64 -> Z.testbit (rev v) i = Z.testbit v (63 - i).
Proof.
  intros Hv Hi. rewrite rev_run. apply run_track; [done|apply rounds_masks|].
  assert (Hall : forallb (fun n => bool_decide (track rounds (Z.of_nat n) = Some (63 - Z.of_nat n))) (seq 0 64)
                 = true) by by vm_compute.
  rewrite forallb_forall in Hall. specialize (Hall (Z.to_nat i)).
  rewrite bool_decide_eq_true, Z2Nat.id in Hall by lia. apply Hall, in_seq. lia.
Qed.

Lemma u64_bits_inj x y : 0 <= x < 2 ^ 64 -> 0 <= y < 2 ^ 64 ->
  (forall i, 0 <= i < 64 -> Z.testbit x i = Z.testbit y i) -> x = y.
Proof.
  intros Hx Hy Hb. apply Z.bits_inj'. intros i Hi. destruct (Z.lt_ge_cases i 64); [by apply Hb|].
  by rewrite !high_bit.
Qed.

Lemma rev_involutive v : 0 <= v < 2 ^ 64 -> rev (rev v) = v.
Proof.
  intros Hv. pose proof (rev_range v Hv) as Hr. apply u64_bits_inj; [by apply rev_range|done|].
  intros i Hi. rewrite !rev_bit by (done || lia). f_equal. lia.
Qed.

Lemma rev_0 : rev 0 = 0.
Proof. reflexivity. Qed.

#[local] Opaque rev.

(** ** The cursor as a position

    Read reversed, a cursor (or a hash) is a point of [0 .. 2^64); a bucket of
    a table of size [2^e] is the [2^(64-e)] points that share their upper [e]
    bits, so the tables of all sizes divide the same line. *)
Definition pos (e v : Z) : Z := rev v / 2 ^ (64 - e).

Lemma pos_bit e v i : 0 <= e <= 64 -> 0 <= v < 2 ^ 64 -> 0 <= i < e ->
  Z.testbit (pos e v) i = Z.testbit v (e - 1 - i).
Proof.
  intros He Hv Hi. unfold pos. rewrite Z.div_pow2_bits, rev_bit by lia. f_equal. lia.
Qed.

Lemma pos_range e v : 0 <= e <= 64 -> 0 <= v < 2 ^ 64 -> 0 <= pos e v < 2 ^ e.
Proof.
  intros He Hv. pose proof (rev_range v Hv). unfold pos. split; [apply Z.div_pos; lia|].
  apply Z.div_lt_upper_bound; [lia|]. rewrite <- Z.pow_add_r by lia.
  replace (64 - e + e) with 64 by lia. lia.
Qed.

Lemma pow2_bits_inj n x y : 0 <= n -> 0 <= x < 2 ^ n -> 0 <= y < 2 ^ n ->
  (forall i, 0 <= i < n -> Z.testbit x i = Z.testbit y i) -> x = y.
Proof.
  intros Hn Hx Hy Hb. rewrite <- (Z.mod_small x (2 ^ n)), <- (Z.mod_small y (2 ^ n)) by done.
  apply Z.bits_inj'. intros i Hi. destruct (Z.lt_ge_cases i n).
  - rewrite !Z.mod_pow2_bits_low by lia. by apply Hb.
  - by rewrite !Z.mod_pow2_bits_high by lia.
Qed.

(** Two words meet in a bucket when they have the same position. *)
Lemma pos_same_bucket e x y : 0 <= e <= 64 -> 0 <= x < 2 ^ 64 -> 0 <= y < 2 ^ 64 ->
  pos e x = pos e y -> x mod 2 ^ e = y mod 2 ^ e.
Proof.
  intros He Hx Hy Hp. apply (pow2_bits_inj e); [lia|apply Z.mod_pos_bound; lia..|].
  intros i Hi. rewrite !Z.mod_pow2_bits_low by lia.
  replace i with (e - 1 - (e - 1 - i)) by lia. rewrite <- (pos_bit e x), <- (pos_bit e y) by lia. by rewrite Hp.
Qed.

Lemma pos_coarser e e' v : 0 <= e <= e' -> e' <= 64 -> 0 <= v < 2 ^ 64 ->
  pos e v = pos e' v / 2 ^ (e' - e).
Proof.
  intros He He' Hv. unfold pos. rewrite Z.div_div by lia. rewrite <- Z.pow_add_r by lia.
  do 2 f_equal. lia.
Qed.

Lemma mask_ones e : 0 <= e -> DICTHT_SIZE_MASK e = Z.ones e.
Proof.
  intros He. unfold DICTHT_SIZE_MASK. rewrite size_pow by done.
  rewrite (proj2 (Z.eqb_neq e (-1))) by lia. rewrite Z.ones_equiv. lia.
Qed.

(** Incrementing the reversed cursor with its unmasked bits set moves to the
    start of the next bucket. *)
Lemma lor_ones_succ x n : 0 <= n -> Z.lor x (Z.ones n) + 1 = (x / 2 ^ n + 1) * 2 ^ n.
Proof.
  intros Hn. pose proof (Z.add_lor_land x (Z.ones n)) as Ha. rewrite Z.land_ones in Ha by done.
  pose proof (Z.div_mod x (2 ^ n) ltac:(lia)) as Hd. rewrite Z.ones_equiv in *. lia.
Qed.

Lemma unmasked_range e v : 0 <= v < 2 ^ 64 -> 0 <= Z.lor v (u64 (Z.lnot (Z.ones e))) < 2 ^ 64.
Proof.
  intros Hv. pose proof (wrapu_range 64 (Z.lnot (Z.ones e)) ltac:(lia)) as Hn. apply u64_of_bits.
  - apply Z.lor_nonneg. lia.
  - intros i Hi. by rewrite Z.lor_spec, !high_bit.
Qed.

Lemma rev_unmasked e v : 0 <= e <= 64 -> 0 <= v < 2 ^ 64 ->
  rev (Z.lor v (u64 (Z.lnot (Z.ones e)))) = Z.lor (rev v) (Z.ones (64 - e)).
Proof.
  intros He Hv. pose proof (unmasked_range e v Hv) as Hu. pose proof (rev_range v Hv) as Hr.
  apply u64_bits_inj; [by apply rev_range| |].
  - apply u64_of_bits; [apply Z.lor_nonneg; split; [lia|rewrite Z.ones_equiv; lia]|].
    intros i Hi. rewrite Z.lor_spec, high_bit, Z.ones_spec_high by lia. done.
  - intros i Hi. rewrite Z.lor_spec, !rev_bit, Z.lor_spec, testbit_u64, Z.lnot_spec by lia. f_equal.
    destruct (Z.lt_ge_cases i (64 - e)).
    + rewrite Z.ones_spec_high, Z.ones_spec_low by lia. done.
    + rewrite Z.ones_spec_low, Z.ones_spec_high by lia. done.
Qed.

Lemma scan_next_range e v : 0 <= e <= 64 -> 0 <= v < 2 ^ 64 ->
  0 <= scan_next v (DICTHT_SIZE_MASK e) < 2 ^ 64.
Proof. intros. apply rev_range, wrapu_range. lia. Qed.

(** The next cursor is at the start of the next bucket, and 0 after the last. *)
Lemma rev_scan_next e v : 0 <= e <= 64 -> 0 <= v < 2 ^ 64 ->
  rev (scan_next v (DICTHT_SIZE_MASK e)) = u64 ((pos e v + 1) * 2 ^ (64 - e)).
Proof.
  intros He Hv. unfold scan_next. rewrite mask_ones by lia.
  rewrite rev_involutive by (apply wrapu_range; lia).
  unfold pos. by rewrite rev_unmasked, lor_ones_succ by lia.
Qed.

Lemma rev_scan_next_inside e v : 0 <= e <= 64 -> 0 <= v < 2 ^ 64 -> pos e v + 1 < 2 ^ e ->
  rev (scan_next v (DICTHT_SIZE_MASK e)) = (pos e v + 1) * 2 ^ (64 - e).
Proof.
  intros He Hv Hp. rewrite rev_scan_next by done. pose proof (pos_range e v He Hv) as Hr.
  apply Z.mod_small. split; [apply Z.mul_nonneg_nonneg; lia|].
  replace (2 ^ 64) with (2 ^ e * 2 ^ (64 - e)) by (rewrite <- Z.pow_add_r by lia; f_equal; lia).
  apply Z.mul_lt_mono_pos_r; lia.
Qed.

Lemma rev_scan_next_end e v : 0 <= e <= 64 -> 0 <= v < 2 ^ 64 -> pos e v + 1 = 2 ^ e ->
  scan_next v (DICTHT_SIZE_MASK e) = 0.
Proof.
  intros He Hv Hp. pose proof (scan_next_range e v He Hv) as Hr.
  rewrite <- (rev_involutive _ Hr), rev_scan_next, Hp, <- Z.pow_add_r by lia.
  by replace (e + (64 - e)) with 64 by lia.
Qed.

(** The loop stops at the end of a bucket of the smaller table. *)
Lemma expansion_end e0 e1 v : 0 <= e0 <= e1 -> e1 <= 64 -> 0 <= v < 2 ^ 64 ->
  Z.land v (Z.lxor (DICTHT_SIZE_MASK e0) (DICTHT_SIZE_MASK e1)) = 0 <->
  pos e1 v mod 2 ^ (e1 - e0) = 0.
Proof.
  intros He He1 Hv. rewrite !mask_ones by lia.
  assert (Hx : forall i, 0 <= i -> Z.testbit (Z.lxor (Z.ones e0) (Z.ones e1)) i =
                bool_decide (e0 <= i < e1)).
  { intros i Hi. rewrite Z.lxor_spec, !Z.testbit_ones_nonneg by lia.
    destruct (Z.ltb_spec i e0), (Z.ltb_spec i e1), (bool_decide_reflect (e0 <= i < e1)); try done; lia. }
  split; intros H0; apply Z.bits_inj'; intros i Hi; rewrite Z.bits_0.
  - destruct (Z.lt_ge_cases i (e1 - e0)); [|by apply Z.mod_pow2_bits_high; lia].
    rewrite Z.mod_pow2_bits_low, pos_bit by lia.
    pose proof (f_equal (fun z => Z.testbit z (e1 - 1 - i)) H0) as Hb. cbn beta in Hb.
    rewrite Z.land_spec, Hx, Z.bits_0, bool_decide_true, andb_true_r in Hb by lia. done.
  - rewrite Z.land_spec, Hx by done. destruct (bool_decide_reflect (e0 <= i < e1)); [|apply andb_false_r].
    rewrite andb_true_r. replace i with (e1 - 1 - (e1 - 1 - i)) by lia.
    rewrite <- pos_bit by lia. rewrite <- (Z.mod_pow2_bits_low _ (e1 - e0)) by lia.
    rewrite H0. apply Z.bits_0.
Qed.

(** Positions count the buckets, modulo the size of the table. *)
Lemma pos_scan_next e v : 0 <= e <= 64 -> 0 <= v < 2 ^ 64 ->
  pos e (scan_next v (DICTHT_SIZE_MASK e)) = (pos e v + 1) mod 2 ^ e.
Proof.
  intros He Hv. pose proof (pos_range e v He Hv) as Hp. unfold pos at 1.
  destruct (Z.eq_dec (pos e v + 1) (2 ^ e)) as [Hl|Hl].
  - rewrite (rev_scan_next_end e v) by done. rewrite Hl, Z.mod_same by lia. by apply Z.div_0_l; lia.
  - rewrite rev_scan_next_inside, Z.div_mul, Z.mod_small by lia. done.
Qed.

Lemma block_inner t n : 0 < n -> (t + 1) mod n <> 0 -> (t + 1) / n = t / n.
Proof.
  intros Hn Hm. pose proof (Z.div_mod t n ltac:(lia)) as Hd.
  pose proof (Z.mod_pos_bound t n Hn) as Hr. destruct (Z.eq_dec (t mod n + 1) n) as [He|He].
  - exfalso. apply Hm. replace (t + 1) with ((t / n + 1) * n) by lia. apply Z.mod_mul. lia.
  - symmetry. apply (Z.div_unique _ _ _ (t mod n + 1)); lia.
Qed.

Lemma block_last t n : 0 < n -> (t + 1) mod n = 0 -> (t / n + 1) * n = t + 1.
Proof.
  intros Hn Hm. pose proof (Z.div_mod t n ltac:(lia)) as Hd.
  pose proof (Z.mod_pos_bound t n Hn) as Hr. destruct (Z.eq_dec (t mod n + 1) n) as [He|He]; [lia|].
  replace (t + 1) with (t mod n + 1 + t / n * n) in Hm by lia.
  rewrite Z.mod_add, Z.mod_small in Hm by lia. lia.
Qed.

Lemma mod_pow2_mod x a b : 0 <= a <= b -> (x mod 2 ^ b) mod 2 ^ a = x mod 2 ^ a.
Proof.
  intros Hab. replace (2 ^ b) with (2 ^ a * 2 ^ (b - a)) by (rewrite <- Z.pow_add_r by lia; f_equal; lia).
  rewrite Z.rem_mul_r by lia. by rewrite Z.mul_comm, Z.mod_add, Z.mod_mod by lia.
Qed.

Section Guarantee.
Context {K V : Type} `{Countable K}.
Context (hash : K -> Z) (hash_u64 : forall k, 0 <= hash k < 2 ^ 64).
Implicit Types d : dict K V.
Implicit Types h : ht K V.

(** The bucket of cursor [v], in a table that has buckets. *)
Lemma scan_bucket h v : ht_wf hash h -> 0 <= ht_size_exp h -> 0 <= v < 2 ^ 64 ->
  exists c, get_bucket (ht_table h) (Z.land v (DICTHT_SIZE_MASK (ht_size_exp h))) = Some c /\
  forall k x, (k, x) ∈ concat (ht_table h) -> pos (ht_size_exp h) (hash k) = pos (ht_size_exp h) v ->
  (k, x) ∈ c.
Proof.
  intros Hw He Hv. destruct (hw_size _ _ Hw) as [[? _]|[Hr Hl]]; [lia|].
  rewrite mask_mod by done.
  destruct (get_bucket_Some (ht_table h) (v mod 2 ^ ht_size_exp h)) as (c & Hc & Hl').
  { rewrite Hl. apply Z.mod_pos_bound. lia. }
  exists c. split; [done|]. intros k x (j & c' & Hj & Hin)%elem_of_concat Hp.
  pose proof (hw_place _ _ Hw _ _ _ _ Hj Hin) as Hx. unfold idx_of in Hx. rewrite mask_mod in Hx by done.
  pose proof (pos_same_bucket (ht_size_exp h) (hash k) v ltac:(lia) (hash_u64 k) Hv Hp) as Hm.
  rewrite <- Hm, Hx, Nat2Z.id in Hl'. by simplify_eq.
Qed.

(** What one table contributes to a call that leaves at position [p]: every
    entry between the cursor and [p] is emitted. *)
Definition emits (e v p : Z) h (em : list (K * V)) : Prop :=
  forall k x, (k, x) ∈ concat (ht_table h) -> pos e v <= pos e (hash k) < p -> (k, x) ∈ em.

(** The loop over the expansions: it stops within the buckets of one bucket of
    the smaller table. *)
Lemma scan_loop_ok h e0 fuel : forall v em,
  ht_wf hash h -> 0 <= e0 <= ht_size_exp h -> 0 <= v < 2 ^ 64 ->
  let e1 := ht_size_exp h in
  let p := (pos e1 v / 2 ^ (e1 - e0) + 1) * 2 ^ (e1 - e0) in
  p - pos e1 v <= Z.of_nat fuel ->
  exists v' em', scan_loop fuel h (DICTHT_SIZE_MASK e0) (DICTHT_SIZE_MASK e1) v em = Some (v', em ++ em') /\
  0 <= v' < 2 ^ 64 /\ rev v' = u64 (p * 2 ^ (64 - e1)) /\ emits e1 v p h em'.
Proof.
  induction fuel as [|fuel IH]; intros v em Hw He Hv e1 p Hf;
    pose proof (Z.div_mod (pos e1 v) (2 ^ (e1 - e0)) ltac:(lia)) as Hdm;
    pose proof (Z.mod_pos_bound (pos e1 v) (2 ^ (e1 - e0)) ltac:(lia)) as Hmb; [unfold p in *; lia|].
  assert (He1 : 0 <= e1 <= 63).
  { destruct (hw_size _ _ Hw) as [[? _]|[? _]]; unfold e1; lia. }
  destruct (scan_bucket h v) as (c & Hc & Hin); [done|lia|done|].
  fold e1 in Hc, Hin. cbn [scan_loop]. rewrite Hc. cbn [mbind option_bind].
  pose proof (scan_next_range e1 v ltac:(lia) Hv) as Hnr.
  pose proof (rev_scan_next e1 v ltac:(lia) Hv) as Hrev.
  pose proof (pos_scan_next e1 v ltac:(lia) Hv) as Hpn.
  pose proof (pos_range e1 v ltac:(lia) Hv) as Hpr.
  set (v1 := scan_next v (DICTHT_SIZE_MASK e1)) in *.
  pose proof (expansion_end e0 e1 v1 ltac:(lia) ltac:(lia) Hnr) as Hend.
  rewrite Hpn, mod_pow2_mod in Hend by lia.
  destruct (Z.eqb_spec (Z.land v1 (Z.lxor (DICTHT_SIZE_MASK e0) (DICTHT_SIZE_MASK e1))) 0) as [H0|H0].
  - pose proof (block_last (pos e1 v) (2 ^ (e1 - e0)) ltac:(lia) (proj1 Hend H0)) as Hp. fold p in Hp.
    exists v1, c. split_and!; [done|lia..|by rewrite Hp|].
    intros k x Hk Hpk. apply Hin; [done|]. lia.
  - assert (Hne : (pos e1 v + 1) mod 2 ^ (e1 - e0) <> 0) by (intros Hm; by apply H0, Hend).
    assert (Hlt : pos e1 v + 1 < 2 ^ e1).
    { destruct (Z.eq_dec (pos e1 v + 1) (2 ^ e1)) as [Hl|]; [|lia]. destruct Hne. rewrite Hl.
      replace (2 ^ e1) with (2 ^ e0 * 2 ^ (e1 - e0)) by (rewrite <- Z.pow_add_r by lia; f_equal; lia).
      apply Z.mod_mul. lia. }
    rewrite Z.mod_small in Hpn by lia.
    pose proof (block_inner (pos e1 v) (2 ^ (e1 - e0)) ltac:(lia) Hne) as Hb.
    destruct (IH v1 (em ++ c)) as (v' & em' & Heq & Hr & Hrv & Hem); [done|lia|done|fold e1; rewrite Hpn, Hb; fold p; lia|].
    fold e1 in Heq, Hrv, Hem. rewrite Hpn, Hb in Hrv, Hem. fold p in Hrv, Hem.
    exists v', (c ++ em'). rewrite app_assoc. split_and!; [done|lia..|done|].
    intros k x Hk Hpk. apply elem_of_app.
    destruct (Z.eq_dec (pos e1 (hash k)) (pos e1 v)); [left; by apply Hin|right]. apply Hem; [done|]. lia.
Qed.

(** A table and the position the call leaves at cover an entry that is not
    before the cursor. *)
Lemma emits_or_after e v p h em k x : 0 <= e <= 63 -> 0 <= v < 2 ^ 64 -> 0 < p ->
  emits e v p h em -> (k, x) ∈ concat (ht_table h) -> rev v <= rev (hash k) ->
  (k, x) ∈ em \/ 0 < p * 2 ^ (64 - e) <= rev (hash k).
Proof.
  intros He Hv Hp0 Hem Hk Hle. pose proof (hash_u64 k) as Hh. pose proof (rev_range _ Hh) as Hr.
  assert (Hp : pos e v <= pos e (hash k)) by (apply Z.div_le_mono; lia).
  destruct (Z.lt_ge_cases (pos e (hash k)) p) as [Hlt|Hge]; [left; by apply Hem|right].
  split; [apply Z.mul_pos_pos; lia|].
  pose proof (Z.mul_div_le (rev (hash k)) (2 ^ (64 - e)) ltac:(lia)) as Hm. fold (pos e (hash k)) in Hm.
  rewrite Z.mul_comm in Hm. eapply Z.le_trans; [|exact Hm]. apply Z.mul_le_mono_nonneg_r; lia.
Qed.

(** One bucket of a table. *)
Lemma scan_bucket_emits h v : ht_wf hash h -> 0 <= ht_size_exp h -> 0 <= v < 2 ^ 64 ->
  exists c, get_bucket (ht_table h) (Z.land v (DICTHT_SIZE_MASK (ht_size_exp h))) = Some c /\
  emits (ht_size_exp h) v (pos (ht_size_exp h) v + 1) h c.
Proof.
  intros Hw He Hv. destruct (scan_bucket h v Hw He Hv) as (c & Hc & Hin). exists c. split; [done|].
  intros k x Hk Hp. apply Hin; [done|lia].
Qed.

(** The cursor a call returns is past every entry it did not emit. *)
Definition advances d v v' (em : list (K * V)) : Prop :=
  forall k x, (k, x) ∈ entries d -> rev v <= rev (hash k) ->
  (k, x) ∈ em \/ v' <> 0 /\ rev v' <= rev (hash k).

Lemma after_no_wrap v' k p : 0 <= v' < 2 ^ 64 -> rev v' = u64 p -> 0 < p <= rev (hash k) ->
  v' <> 0 /\ rev v' <= rev (hash k).
Proof.
  intros Hv' Hr Hp. pose proof (rev_range _ (hash_u64 k)).
  unfold wrapu in Hr. rewrite Z.mod_small in Hr by lia. split; [|lia].
  intros ->. rewrite rev_0 in Hr. lia.
Qed.

Lemma scan_one d v : dict_wf hash d -> rehashidx d = -1 -> entries d <> [] -> 0 <= v < 2 ^ 64 ->
  let m0 := DICTHT_SIZE_MASK (ht_size_exp (ht0 d)) in
  exists c, get_bucket (ht_table (ht0 d)) (Z.land v m0) = Some c /\
  0 <= scan_next v m0 < 2 ^ 64 /\ advances d v (scan_next v m0) c /\
  0 <= ht_size_exp (ht0 d) <= 63 /\
  rev (scan_next v m0) = u64 ((pos (ht_size_exp (ht0 d)) v + 1) * 2 ^ (64 - ht_size_exp (ht0 d))).
Proof.
  intros Hw Hi Hne Hv m0. pose proof (dw_ht0 _ _ Hw) as Hw0.
  assert (He1 : concat (ht_table (ht1 d)) = []).
  { destruct (hw_size _ _ (dw_ht1 _ _ Hw)) as [[_ ->]|[? _]]; [done|].
    pose proof (dw_idle _ _ Hw Hi). lia. }
  unfold entries in Hne. rewrite He1, app_nil_r in Hne.
  destruct (hw_size _ _ Hw0) as [[_ Hn]|[He _]]; [by rewrite Hn in Hne|].
  destruct (scan_bucket_emits (ht0 d) v Hw0 ltac:(lia) Hv) as (c & Hc & Hem).
  exists c. split_and!; [done|apply scan_next_range; lia|apply scan_next_range; lia| |lia|lia|apply rev_scan_next; lia].
  intros k x Hk Hle. unfold entries in Hk. rewrite He1, app_nil_r in Hk.
  pose proof (pos_range (ht_size_exp (ht0 d)) v ltac:(lia) Hv).
  destruct (emits_or_after (ht_size_exp (ht0 d)) v (pos (ht_size_exp (ht0 d)) v + 1) _ _ k x He Hv ltac:(lia) Hem Hk Hle) as [?|Ha]; [by left|right].
  eapply after_no_wrap; [apply scan_next_range; lia|apply rev_scan_next; lia|done].
Qed.

(** Both tables of a rehashing dict, the smaller one first. *)
Lemma scan_two (t0 t1 : ht K V) v :
  ht_wf hash t0 -> ht_wf hash t1 -> 0 <= ht_size_exp t0 <= ht_size_exp t1 -> 0 <= v < 2 ^ 64 ->
  let m0 := DICTHT_SIZE_MASK (ht_size_exp t0) in
  let m1 := DICTHT_SIZE_MASK (ht_size_exp t1) in
  exists v' em,
    (c ← get_bucket (ht_table t0) (Z.land v m0); scan_loop (length (ht_table t1)) t1 m0 m1 v c) = Some (v', em) /\
    0 <= v' < 2 ^ 64 /\
    rev v' = u64 ((pos (ht_size_exp t0) v + 1) * 2 ^ (64 - ht_size_exp t0)) /\
    forall k x, (k, x) ∈ concat (ht_table t0) ++ concat (ht_table t1) -> rev v <= rev (hash k) ->
    (k, x) ∈ em \/ v' <> 0 /\ rev v' <= rev (hash k).
Proof.
  intros H0 H1 He Hv m0 m1.
  destruct (hw_size _ _ H1) as [[? _]|[He1 Hl]]; [lia|].
  set (e0 := ht_size_exp t0) in *. set (e1 := ht_size_exp t1) in *.
  destruct (scan_bucket_emits t0 v H0 ltac:(lia) Hv) as (c & Hc & Hem0). fold e0 m0 in Hc, Hem0.
  pose proof (pos_range e1 v ltac:(lia) Hv) as Hp1. pose proof (pos_range e0 v ltac:(lia) Hv) as Hp0.
  pose proof (pos_coarser e0 e1 v ltac:(lia) ltac:(lia) Hv) as Hco.
  assert (Hsp : 2 ^ e1 = 2 ^ e0 * 2 ^ (e1 - e0)) by (rewrite <- Z.pow_add_r by lia; f_equal; lia).
  destruct (scan_loop_ok t1 e0 (length (ht_table t1)) v c) as (v' & em & Heq & Hr & Hrev & Hem1); try done.
  { fold e1. rewrite <- Hco. unfold zlen in Hl. rewrite Hl, Hsp.
    assert ((pos e0 v + 1) * 2 ^ (e1 - e0) <= 2 ^ e0 * 2 ^ (e1 - e0)); [|lia].
    apply Z.mul_le_mono_nonneg_r; lia. }
  fold e1 in Heq, Hrev, Hem1. rewrite <- Hco in Hrev, Hem1. fold m0 m1 in Heq.
  assert (Hpos : (pos e0 v + 1) * 2 ^ (e1 - e0) * 2 ^ (64 - e1) = (pos e0 v + 1) * 2 ^ (64 - e0)).
  { rewrite <- Z.mul_assoc, <- Z.pow_add_r by lia. do 2 f_equal. lia. }
  exists v', (c ++ em). rewrite Hc. cbn [mbind option_bind]. rewrite Heq.
  split_and!; [done|lia..|by rewrite Hrev, Hpos|].
  intros k x [Hk|Hk]%elem_of_app Hle; rewrite elem_of_app.
  - destruct (emits_or_after e0 v (pos e0 v + 1) _ _ k x ltac:(lia) Hv ltac:(lia) Hem0 Hk Hle) as [?|Ha]; [by do 2 left|right].
    rewrite <- Hpos in Ha. by eapply after_no_wrap.
  - assert (0 < (pos e0 v + 1) * 2 ^ (e1 - e0)) by (apply Z.mul_pos_pos; lia).
    destruct (emits_or_after e1 v ((pos e0 v + 1) * 2 ^ (e1 - e0)) _ _ k x ltac:(lia) Hv ltac:(lia) Hem1 Hk Hle) as [?|Ha];
      [left; by right|right]. by eapply after_no_wrap.
Qed.

(** The size exponent of the table whose buckets the calls count. *)
Definition scan_exp d : Z :=
  if dictIsRehashing d then Z.min (ht_size_exp (ht0 d)) (ht_size_exp (ht1 d)) else ht_size_exp (ht0 d).

(** One call: it returns, and its cursor is past every entry it did not emit
    and one bucket further on. *)
Lemma scan_step d v : dict_wf hash d -> 0 <= v < 2 ^ 64 ->
  exists v' em, dictScan d v = Some (v', em) /\ 0 <= v' < 2 ^ 64 /\ advances d v v' em /\
  (v' = 0 \/ 0 <= scan_exp d <= 63 /\ rev v' = u64 ((pos (scan_exp d) v + 1) * 2 ^ (64 - scan_exp d))).
Proof.
  intros Hw Hv. unfold dictScan, dictSize, scan_exp.
  rewrite (hw_used _ _ (dw_ht0 _ _ Hw)), (hw_used _ _ (dw_ht1 _ _ Hw)).
  destruct (Z.eqb_spec (zlen (concat (ht_table (ht0 d))) + zlen (concat (ht_table (ht1 d)))) 0) as [Hz|Hz].
  { exists 0, []. split_and!; [done|lia..| |by left]. intros k x Hk. exfalso. unfold entries in Hk.
    unfold zlen in Hz. destruct (concat (ht_table (ht0 d))), (concat (ht_table (ht1 d)));
      cbn in Hz; try lia. by apply elem_of_nil in Hk. }
  unfold dictIsRehashing. destruct (Z.eqb_spec (rehashidx d) (-1)) as [Hi|Hi]; cbn [negb].
  - destruct (scan_one d v Hw Hi) as (c & -> & ? & ? & ? & ?); [|done|].
    + unfold entries. intros [Hn0 Hn1]%app_eq_nil. by rewrite Hn0, Hn1 in Hz.
    + eexists _, c. split_and!; [done|lia..|done|by right].
  - destruct (dw_busy _ _ Hw Hi) as (_ & He0 & He1 & _). rewrite !size_pow by done.
    destruct (hw_size _ _ (dw_ht0 _ _ Hw)) as [[? _]|[Hr0 _]]; [lia|].
    destruct (hw_size _ _ (dw_ht1 _ _ Hw)) as [[? _]|[Hr1 _]]; [lia|].
    destruct (Z.gtb_spec (2 ^ ht_size_exp (ht0 d)) (2 ^ ht_size_exp (ht1 d))) as [Hg|Hg].
    + assert (Hle : ht_size_exp (ht1 d) <= ht_size_exp (ht0 d)) by (apply (Z.pow_le_mono_r_iff 2); lia).
      rewrite Z.min_r by done.
      destruct (scan_two (ht1 d) (ht0 d) v) as (v' & em & -> & Hr & Hrv & Ha); [apply Hw..|lia|done|].
      exists v', em. split_and!; [done|lia..| |right; by split]. intros k x Hk. apply Ha.
      by rewrite Permutation_app_comm.
    + assert (Hle : ht_size_exp (ht0 d) <= ht_size_exp (ht1 d)) by (apply (Z.pow_le_mono_r_iff 2); lia).
      rewrite Z.min_l by done.
      destruct (scan_two (ht0 d) (ht1 d) v) as (v' & em & -> & Hr & Hrv & Ha); [apply Hw..|lia|done|].
      exists v', em. split_and!; [done|lia..|exact Ha|right; by split].
Qed.

(** Calls on a dict that does not change come to the last bucket. *)
Lemma scan_seq_ends d n : forall v, dict_wf hash d -> 0 <= v < 2 ^ 64 ->
  2 ^ scan_exp d - pos (scan_exp d) v <= Z.of_nat n ->
  exists m cs, (m <= n)%nat /\ scan_seq (replicate (S m) d) v = Some (0, cs).
Proof.
  induction n as [|n IH]; intros v Hw Hv Hn;
    destruct (scan_step d v Hw Hv) as (v' & em & Heq & Hv' & _ & Hc).
  - destruct Hc as [->|[He _]].
    + exists 0%nat, (em ++ []). split; [lia|]. cbn. by rewrite Heq.
    + pose proof (pos_range (scan_exp d) v ltac:(lia) Hv). lia.
  - destruct (Z.eq_dec v' 0) as [->|Hne].
    { exists 0%nat, (em ++ []). split; [lia|]. cbn. by rewrite Heq. }
    destruct Hc as [?|[He Hr]]; [done|]. set (e := scan_exp d) in *.
    pose proof (pos_range e v ltac:(lia) Hv) as Hp.
    assert (Hsm : 0 <= (pos e v + 1) * 2 ^ (64 - e) < 2 ^ 64).
    { split; [apply Z.mul_nonneg_nonneg; lia|]. destruct (Z.eq_dec (pos e v + 1) (2 ^ e)) as [Hl|Hl].
      - destruct Hne. rewrite <- (rev_involutive v') by done.
        rewrite Hr, Hl, <- Z.pow_add_r by lia. replace (e + (64 - e)) with 64 by lia. apply rev_0.
      - replace (2 ^ 64) with (2 ^ e * 2 ^ (64 - e)) by (rewrite <- Z.pow_add_r by lia; f_equal; lia).
        apply Z.mul_lt_mono_pos_r; lia. }
    unfold wrapu in Hr. rewrite Z.mod_small in Hr by done.
    destruct (IH v') as (m & cs & Hm & Hs); [done|done| |].
    { unfold pos at 1. rewrite Hr, Z.div_mul by lia. lia. }
    exists (S m), (em ++ cs). split; [lia|]. change (replicate (S (S m)) d) with (d :: replicate (S m) d).
    cbn [scan_seq]. rewrite Heq. cbn [mbind option_bind]. by rewrite Hs.
Qed.

(** A run that ends emits every key that is in all the dicts and not before
    the cursor. *)
Lemma scan_seq_covers ds : forall v cs k,
  ds <> [] -> Forall (dict_wf hash) ds -> 0 <= v < 2 ^ 64 ->
  Forall (fun d => is_Some (dict_map d !! k)) ds ->
  scan_seq ds v = Some (0, cs) -> rev v <= rev (hash k) -> k ∈ cs.*1.
Proof.
  induction ds as [|d ds IH]; intros v cs k Hne Hw Hv Hk; [done|].
  apply list.Forall_cons in Hw as [Hd Hw], Hk as [[x Hx] Hk]. cbn [scan_seq].
  destruct (scan_step d v Hd Hv) as (v' & em & -> & Hv' & Ha & _). cbn [mbind option_bind].
  destruct (scan_seq ds v') as [[v'' cs']|] eqn:Hs; [|done]. cbn [mbind option_bind].
  intros [= -> <-] Hle. rewrite fmap_app, elem_of_app.
  destruct (Ha k x) as [Hin|[Hn Hle']]; [by apply elem_of_list_to_map_2|done| |].
  - left. apply list_elem_of_fmap. by exists (k, x).
  - right. eapply IH; [|done..]. intros ->. by injection Hs.
Qed.

(** C2: The guarantee of [dictScan]: whatever happens to the dict between the
    calls (insertions, deletions, growing, shrinking, rehashing), a key that is
    in the dict at every call is returned at least once by an iteration that
    starts with cursor 0 and ends when the returned cursor is 0. *)
Theorem dictScan_covers ds cs k :
  ds <> [] -> Forall (dict_wf hash) ds -> Forall (fun d => is_Some (dict_map d !! k)) ds ->
  scan_seq ds 0 = Some (0, cs) -> k ∈ cs.*1.
Proof.
  intros. eapply (scan_seq_covers ds 0); [done|done|lia|done..|]. rewrite rev_0. apply rev_range, hash_u64.
Qed.

(** C37: An iteration over a dict that does not change (it may be half rehashed)
    ends: within as many calls as the smaller table has buckets, one more at
    most, the cursor is 0 again, and every key was returned. *)
Theorem dictScan_terminates d : dict_wf hash d ->
  exists (n : nat) (cs : list (K * V)),
  Z.of_nat n <= 2 ^ scan_exp d + 1 /\ scan_seq (replicate n d) 0 = Some (0, cs) /\
  forall k, is_Some (dict_map d !! k) -> k ∈ cs.*1.
Proof.
  intros Hw. set (n := Z.to_nat (2 ^ scan_exp d)).
  assert (Hp : pos (scan_exp d) 0 = 0) by (unfold pos; rewrite rev_0; apply Zdiv_0_l).
  destruct (scan_seq_ends d n 0) as (m & cs & Hm & Hs); [done|lia|lia|].
  exists (S m), cs. split_and!; [|done|].
  - unfold n in Hm. pose proof (Z.pow_nonneg 2 (scan_exp d) ltac:(lia)). lia.
  - intros k Hk. eapply (scan_seq_covers (replicate (S m) d) 0); [done|by apply Forall_replicate|lia
      |by apply Forall_replicate|done|].
    rewrite rev_0. apply rev_range, hash_u64.
Qed.
End Guarantee.

(** ** The theorems on a dict in the middle of a rehash *)

Lemma sample_hash_u64 k : 0 <= sample_hash k < 2 ^ 64.
Proof. apply wrapu_range. lia. Qed.

Lemma dictScan_covers_witness : 7 ∈ ([(2, 20); (1, 10); (3, 30); (7, 70)] : list (Z * Z)).*1.
Proof.
  apply (dictScan_covers sample_hash sample_hash_u64
    [sample_dict; sample_dict; sample_dict2; sample_dict2; sample_dict2; sample_dict2]).
  - done.
  - repeat (apply list.Forall_cons; split; [apply sample_wf || apply sample_wf2|]). by apply Forall_nil.
  - repeat (apply list.Forall_cons; split; [by exists 70|]). by apply Forall_nil.
  - reflexivity.
Defined.

Lemma dictScan_terminates_witness :
  exists (n : nat) (cs : list (Z * Z)),
  Z.of_nat n <= 5 /\ scan_seq (replicate n sample_dict) 0 = Some (0, cs) /\
  forall k, is_Some (dict_map sample_dict !! k) -> k ∈ cs.*1.
Proof. exact (dictScan_terminates sample_hash sample_hash_u64 sample_dict sample_wf). Defined.
