(* ===== verification/Order.v ===== *)
(** * Sorted sets: the order of scores and elements

    Scores are C doubles and are compared by the IEEE 754 comparison, of which
    [ScoreOrder] states what the skiplist relies on: NaN apart, it is a total
    order in which values that are not identical (0 and -0) may be equal.
    Elements are byte strings compared by [sdscmp] of src/sds.c. *)

From Stdlib Require Import Floats.SpecFloat.
From stdpp Require Import base list numbers option tactics.
From S2P Require Import Prelude.

(** ** Scores *)

(** [scmp a b] is [None] when the operands are unordered. *)
Class Score (T : Type) := { scmp : T -> T -> option comparison; isnan : T -> bool; szero : T;
  sadd : T -> T -> T }.

Class ScoreOrder (T : Type) `{Score T} := {
  scmp_total a b : isnan a = false -> isnan b = false -> is_Some (scmp a b);
  scmp_refl a : isnan a = false -> scmp a a = Some Eq;
  scmp_opp a b : scmp b a = CompOpp <$> scmp a b;
  scmp_lt_trans a b c : scmp a b = Some Lt -> scmp b c = Some Lt -> scmp a c = Some Lt;
  scmp_eq_l a b c : scmp a b = Some Eq -> scmp b c = scmp a c }.

(** The relational operators of C on doubles: all are false on a NaN. *)
Definition slt `{Score T} (a b : T) : bool := bool_decide (scmp a b = Some Lt).
Definition sle `{Score T} (a b : T) : bool := bool_decide (scmp a b = Some Lt \/ scmp a b = Some Eq).
Definition sequal `{Score T} (a b : T) : bool := bool_decide (scmp a b = Some Eq).

(** Doubles as the standard library specifies them. *)
#[global] Instance double_score : Score spec_float :=
  {| scmp := SFcompare; isnan := fun x => match x with S754_nan => true | _ => false end; szero := S754_zero false;
     sadd := SFadd 53 1024 |}.

(** [SFcompare] orders finite numbers by exponent and mantissa, negated when
    negative: lexicographically on these three numbers. *)
Definition sf_key (x : spec_float) : Z * Z * Z :=
  match x with
  | S754_nan => (0, 0, 0)
  | S754_zero _ => (0, 0, 0)
  | S754_infinity true => (-2, 0, 0)
  | S754_infinity false => (2, 0, 0)
  | S754_finite true m e => (-1, - e, Z.neg m)
  | S754_finite false m e => (1, e, Z.pos m)
  end.

Definition key_cmp (a b : Z * Z * Z) : comparison :=
  match Z.compare a.1.1 b.1.1 with
  | Eq => match Z.compare a.1.2 b.1.2 with Eq => Z.compare a.2 b.2 | o => o end
  | o => o
  end.

Lemma SFcompare_key a b : isnan a = false -> isnan b = false ->
  scmp a b = Some (key_cmp (sf_key a) (sf_key b)).
Proof.
  destruct a as [[]|[]| |[] m e], b as [[]|[]| |[] m' e']; try done; intros _ _; cbn; f_equal;
    unfold key_cmp; cbn.
  - destruct (Z.compare_spec e e'), (Z.compare_spec (- e) (- e')); done || lia.
Qed.

Lemma key_cmp_opp a b : key_cmp b a = CompOpp (key_cmp a b).
Proof.
  unfold key_cmp. rewrite (Z.compare_antisym a.1.1), (Z.compare_antisym a.1.2), (Z.compare_antisym a.2).
  destruct (a.1.1 ?= b.1.1); cbn; try done. by destruct (a.1.2 ?= b.1.2).
Qed.

Lemma key_cmp_refl a : key_cmp a a = Eq.
Proof. unfold key_cmp. by rewrite !Z.compare_refl. Qed.

Lemma key_cmp_eq a b : key_cmp a b = Eq -> a = b.
Proof.
  destruct a as [[a1 a2] a3], b as [[b1 b2] b3]. unfold key_cmp. cbn.
  destruct (Z.compare_spec a1 b1), (Z.compare_spec a2 b2), (Z.compare_spec a3 b3); by intros; subst.
Qed.

Lemma key_cmp_lt_trans a b c : key_cmp a b = Lt -> key_cmp b c = Lt -> key_cmp a c = Lt.
Proof.
  destruct a as [[a1 a2] a3], b as [[b1 b2] b3], c as [[c1 c2] c3]. unfold key_cmp. cbn.
  destruct (Z.compare_spec a1 b1), (Z.compare_spec b1 c1), (Z.compare_spec a1 c1); try done; try lia;
  destruct (Z.compare_spec a2 b2), (Z.compare_spec b2 c2), (Z.compare_spec a2 c2); try done; try lia;
  destruct (Z.compare_spec a3 b3), (Z.compare_spec b3 c3), (Z.compare_spec a3 c3); try done; lia.
Qed.

Lemma scmp_double_nan (a b : spec_float) o : scmp a b = Some o -> isnan a = false /\ isnan b = false.
Proof. by destruct a, b. Qed.

#[global] Instance double_order : ScoreOrder spec_float.
Proof.
  split.
  - intros a b Ha Hb. rewrite SFcompare_key by done. by eexists.
  - intros a Ha. rewrite SFcompare_key by done. by rewrite key_cmp_refl.
  - intros a b. destruct (isnan a) eqn:Ha; [by destruct a, b as [[]|[]| |[]]|].
    destruct (isnan b) eqn:Hb; [by destruct b, a as [[]|[]| |[]]|].
    rewrite !SFcompare_key by done. cbn. f_equal. apply key_cmp_opp.
  - intros a b c H1 H2. destruct (scmp_double_nan _ _ _ H1) as [Ha Hb], (scmp_double_nan _ _ _ H2) as [_ Hc].
    rewrite SFcompare_key in * by done. f_equal. injection H1 as H1. injection H2 as H2.
    by eapply key_cmp_lt_trans.
  - intros a b c H1. destruct (scmp_double_nan _ _ _ H1) as [Ha Hb].
    rewrite SFcompare_key in H1 by done. injection H1 as H1%key_cmp_eq.
    destruct (isnan c) eqn:Hc; [by destruct c, a as [[]|[]| |[]], b as [[]|[]| |[]]|].
    rewrite !SFcompare_key by done. by rewrite H1.
Qed.

(** ** Elements *)

(** [memcmp] of equally long strings: the first bytes that differ decide. *)
Fixpoint memcmp (a b : list Z) : Z :=
  match a, b with
  | x :: a, y :: b => if x =? y then memcmp a b else if x <? y then -1 else 1
  | _, _ => 0
  end.

Definition sdscmp (s1 s2 : list Z) : Z :=
  let l1 := zlen s1 in
  let l2 := zlen s2 in
  let minlen := Z.to_nat (if l1 <? l2 then l1 else l2) in
  let cmp := memcmp (take minlen s1) (take minlen s2) in
  if cmp =? 0 then (if l1 >? l2 then 1 else if l1 <? l2 then -1 else 0) else cmp.

(** Lexicographic order. *)
Fixpoint lexcmp (a b : list Z) : Z :=
  match a, b with
  | [], [] => 0
  | [], _ => -1
  | _, [] => 1
  | x :: a, y :: b => if x =? y then lexcmp a b else if x <? y then -1 else 1
  end.

(** [sdscmp] is the lexicographic order. *)
Lemma sdscmp_lex s1 : forall s2, sdscmp s1 s2 = lexcmp s1 s2.
Proof.
  assert (Hcons : forall x y (a b : list Z), sdscmp (x :: a) (y :: b) =
    if x =? y then sdscmp a b else if x <? y then -1 else 1).
  { intros x y a b. unfold sdscmp. rewrite !zlen_cons.
    set (m := if zlen a <? zlen b then zlen a else zlen b).
    assert (Hm : 0 <= m) by (unfold m, zlen; destruct (_ <? _); lia).
    replace (Z.to_nat (if 1 + zlen a <? 1 + zlen b then 1 + zlen a else 1 + zlen b)) with (S (Z.to_nat m)).
    2:{ unfold m. destruct (Z.ltb_spec (zlen a) (zlen b)), (Z.ltb_spec (1 + zlen a) (1 + zlen b)); unfold zlen in *; lia. }
    cbn [take memcmp]. destruct (x =? y); [|by destruct (x <? y)].
    destruct (_ =? 0); [|done].
    destruct (Z.gtb_spec (1 + zlen a) (1 + zlen b)), (Z.gtb_spec (zlen a) (zlen b)); try lia; try done.
    destruct (Z.ltb_spec (1 + zlen a) (1 + zlen b)), (Z.ltb_spec (zlen a) (zlen b)); try lia; done. }
  induction s1 as [|x s1 IH]; intros [|y s2]; try done. rewrite Hcons. cbn [lexcmp]. by rewrite IH.
Qed.

Lemma lexcmp_refl a : lexcmp a a = 0.
Proof. induction a as [|x a IH]; [done|]. cbn. by rewrite Z.eqb_refl. Qed.

Lemma lexcmp_eq a : forall b, lexcmp a b = 0 -> a = b.
Proof.
  induction a as [|x a IH]; intros [|y b]; try done. cbn.
  destruct (Z.eqb_spec x y) as [->|_]; [by intros ->%IH|by destruct (x <? y)].
Qed.

Lemma lexcmp_opp a : forall b, lexcmp b a = - lexcmp a b.
Proof.
  induction a as [|x a IH]; intros [|y b]; try done. cbn. rewrite (Z.eqb_sym y x).
  destruct (Z.eqb_spec x y); [by apply IH|]. by destruct (Z.ltb_spec x y), (Z.ltb_spec y x); try lia.
Qed.

Lemma lexcmp_lt_trans a : forall b c, lexcmp a b < 0 -> lexcmp b c < 0 -> lexcmp a c < 0.
Proof.
  induction a as [|x a IH]; intros [|y b] [|z c]; cbn; try lia.
  repeat match goal with
         | |- context [Z.eqb ?u ?v] => destruct (Z.eqb_spec u v)
         | |- context [Z.ltb ?u ?v] => destruct (Z.ltb_spec u v)
         end; subst; try lia. apply IH.
Qed.

(** ** Scores first, then elements *)

Section Pair.
Context `{ScoreOrder T}.

(** The value of [zslCompareWithNode] for a node with that score and element. *)
Definition pair_cmp (s : T) (e : list Z) (s' : T) (e' : list Z) : Z :=
  if slt s s' then -1 else if slt s' s then 1 else sdscmp e e'.

Definition pair_lt (s : T) (e : list Z) (s' : T) (e' : list Z) : Prop := pair_cmp s e s' e' < 0.

Lemma pair_cases s e s' e' : isnan s = false -> isnan s' = false ->
  scmp s s' = Some Lt /\ pair_cmp s e s' e' = -1 \/
  scmp s s' = Some Gt /\ pair_cmp s e s' e' = 1 \/
  scmp s s' = Some Eq /\ pair_cmp s e s' e' = lexcmp e e'.
Proof.
  intros Hs Hs'. unfold pair_cmp, slt. rewrite (scmp_opp s s'), sdscmp_lex.
  destruct (scmp_total s s' Hs Hs') as [[] ->]; cbn; eauto.
Qed.

Lemma pair_cmp_opp s e s' e' : isnan s = false -> isnan s' = false ->
  pair_cmp s' e' s e = - pair_cmp s e s' e'.
Proof.
  intros Hs Hs'. unfold pair_cmp, slt. rewrite (scmp_opp s s'), !sdscmp_lex, (lexcmp_opp e e').
  destruct (scmp_total s s' Hs Hs') as [[] ->]; cbn; done.
Qed.

Lemma pair_cmp_refl s e : isnan s = false -> pair_cmp s e s e = 0.
Proof.
  intros Hs. unfold pair_cmp, slt. rewrite scmp_refl, sdscmp_lex, lexcmp_refl by done. done.
Qed.

Lemma pair_lt_trans s1 e1 s2 e2 s3 e3 : isnan s1 = false -> isnan s2 = false -> isnan s3 = false ->
  pair_lt s1 e1 s2 e2 -> pair_lt s2 e2 s3 e3 -> pair_lt s1 e1 s3 e3.
Proof.
  unfold pair_lt. intros N1 N2 N3.
  destruct (pair_cases s1 e1 s2 e2 N1 N2) as [[C12 ->]|[[C12 ->]|[C12 ->]]]; [|lia|];
  (destruct (pair_cases s2 e2 s3 e3 N2 N3) as [[C23 ->]|[[C23 ->]|[C23 ->]]]; [|lia|]); intros H1 H2;
  unfold pair_cmp, slt.
  - by rewrite (scmp_lt_trans s1 s2 s3).
  - assert (scmp s1 s3 = Some Lt) as ->; [|done].
    assert (C32 : scmp s3 s2 = Some Eq) by (rewrite (scmp_opp s2 s3), C23; done).
    rewrite (scmp_opp s3 s1), <- (scmp_eq_l s3 s2 s1 C32), (scmp_opp s1 s2), C12. done.
  - by rewrite <- (scmp_eq_l s1 s2 s3 C12), C23.
  - rewrite <- (scmp_eq_l s1 s2 s3 C12), C23. cbn.
    rewrite (scmp_opp s1 s3), <- (scmp_eq_l s1 s2 s3 C12), C23. cbn. rewrite sdscmp_lex.
    by eapply lexcmp_lt_trans.
Qed.

(** Equal keys compare alike. *)
Lemma pair_eq_l s1 e1 s2 e2 s3 e3 : isnan s1 = false -> isnan s2 = false ->
  pair_cmp s1 e1 s2 e2 = 0 -> pair_cmp s1 e1 s3 e3 = pair_cmp s2 e2 s3 e3.
Proof.
  intros N1 N2 Heq. destruct (pair_cases s1 e1 s2 e2 N1 N2) as [[_ He]|[[_ He]|[Hc He]]]; [lia|lia|].
  rewrite Heq in He. symmetry in He. apply lexcmp_eq in He as ->. unfold pair_cmp, slt.
  by rewrite (scmp_opp s1 s3), (scmp_opp s2 s3), (scmp_eq_l s1 s2 s3 Hc).
Qed.
End Pair.
