(* ===== verification/Skiplist.v ===== *)
(** * Sorted sets: the skiplist (src/t_zset.c)

    The memory of the nodes is one finite map per field: [m_fwd] and [m_span]
    hold [x->level[i].forward] and [x->level[i].span] under the address and the
    level, and [m_levels] the number of levels that the code packs into
    [level[0].span].  Reading or writing a field that is not allocated gives
    [None], and so does a failed assertion.  Loops take fuel: the length of the
    list bounds all of them. *)

From stdpp Require Import base list numbers option tactics gmap.
From S2P Require Import Prelude Dict Order.

Definition ZSKIPLIST_MAXLEVEL : nat := 32.
Definition ZSKIPLIST_MAX_SEARCH : Z := 10.

Section Skiplist.
Context {T : Type} `{Score T}.

(** ** Nodes *)

Record zskiplistNodes := {
  m_score : gmap positive T;
  m_ele : gmap positive (list Z);
  m_levels : gmap positive nat;
  m_back : gmap positive (option positive);
  m_fwd : gmap (positive * nat) (option positive);
  m_span : gmap (positive * nat) Z }.

Record zskiplist := {
  zsl_header : positive;
  zsl_tail : option positive;
  zsl_length : Z;
  zsl_level : nat;
  zsl_mem : zskiplistNodes }.

Abbreviation mem := zskiplistNodes.

Definition with_score (m : mem) f := {| m_score := f; m_ele := m_ele m; m_levels := m_levels m;
  m_back := m_back m; m_fwd := m_fwd m; m_span := m_span m |}.
Definition with_levels (m : mem) f := {| m_score := m_score m; m_ele := m_ele m; m_levels := f;
  m_back := m_back m; m_fwd := m_fwd m; m_span := m_span m |}.
Definition with_back (m : mem) f := {| m_score := m_score m; m_ele := m_ele m; m_levels := m_levels m;
  m_back := f; m_fwd := m_fwd m; m_span := m_span m |}.
Definition with_fwd (m : mem) f := {| m_score := m_score m; m_ele := m_ele m; m_levels := m_levels m;
  m_back := m_back m; m_fwd := f; m_span := m_span m |}.
Definition with_span (m : mem) f := {| m_score := m_score m; m_ele := m_ele m; m_levels := m_levels m;
  m_back := m_back m; m_fwd := m_fwd m; m_span := f |}.

(** A store to a field that is allocated. *)
Definition store {K A} `{Countable K} (f : gmap K A) (k : K) (a : A) : option (gmap K A) :=
  _ ← f !! k; Some (<[k := a]> f).

Definition set_score (m : mem) x s := f ← store (m_score m) x s; Some (with_score m f).
Definition set_levels (m : mem) x l := f ← store (m_levels m) x l; Some (with_levels m f).
Definition set_back (m : mem) x p := f ← store (m_back m) x p; Some (with_back m f).
Definition set_fwd (m : mem) x (i : nat) p := f ← store (m_fwd m) (x, i) p; Some (with_fwd m f).
Definition set_span (m : mem) x (i : nat) s := f ← store (m_span m) (x, i) s; Some (with_span m f).

(** At level 0 the span is not stored. *)
Definition zslGetNodeSpanAtLevel (m : mem) (x : positive) (level : nat) : option Z :=
  if (0 <? level)%nat then m_span m !! (x, level)
  else (f ← m_fwd m !! (x, 0%nat); Some (match f with Some _ => 1 | None => 0 end)).

Definition zslSetNodeSpanAtLevel (m : mem) (x : positive) (level : nat) (span : Z) : option mem :=
  if (0 <? level)%nat then set_span m x level span else Some m.

Definition zslIncrNodeSpanAtLevel (m : mem) (x : positive) (level : nat) (incr : Z) : option mem :=
  if (0 <? level)%nat then (s ← m_span m !! (x, level); set_span m x level (u64 (s + incr))) else Some m.

Definition zslDecrNodeSpanAtLevel (m : mem) (x : positive) (level : nat) (decr : Z) : option mem :=
  if (0 <? level)%nat then (s ← m_span m !! (x, level); set_span m x level (u64 (s - decr))) else Some m.

Definition zslGetNodeElement (m : mem) (node : positive) : option (list Z) := m_ele m !! node.

Definition zslCompareWithNode (score : T) (ele : list Z) (m : mem) (n : option positive) : option Z :=
  match n with
  | None => Some (-1)
  | Some n =>
      s ← m_score m !! n;
      if slt score s then Some (-1)
      else if slt s score then Some 1
      else (e ← zslGetNodeElement m n; Some (sdscmp ele e))
  end.

(** ** Creation

    Fresh memory holds arbitrary values: [junk]. *)

Context (junk : nat -> option positive * Z).

Definition zmalloc_node (m : mem) : positive := fresh (dom (m_levels m)).

(** The header has no element. *)
Definition zslCreateHeaderNode (m : mem) : mem * positive :=
  let zn := zmalloc_node m in
  ({| m_score := <[zn := szero]> (m_score m);
      m_ele := m_ele m;
      m_levels := <[zn := ZSKIPLIST_MAXLEVEL]> (m_levels m);
      m_back := <[zn := None]> (m_back m);
      m_fwd := foldr (fun j => insert (zn, j) None) (m_fwd m) (seq 0 ZSKIPLIST_MAXLEVEL);
      m_span := foldr (fun j => insert (zn, j) 0) (m_span m) (seq 0 ZSKIPLIST_MAXLEVEL) |}, zn).

Definition zslCreateNode (m : mem) (level : nat) (score : T) (ele : list Z) : mem * positive :=
  let zn := zmalloc_node m in
  ({| m_score := <[zn := score]> (m_score m);
      m_ele := <[zn := ele]> (m_ele m);
      m_levels := <[zn := level]> (m_levels m);
      m_back := <[zn := None]> (m_back m);
      m_fwd := foldr (fun j => insert (zn, j) (junk j).1) (m_fwd m) (seq 0 level);
      m_span := foldr (fun j => insert (zn, j) (junk j).2) (m_span m) (seq 0 level) |}, zn).

Definition empty_nodes : mem :=
  {| m_score := ∅; m_ele := ∅; m_levels := ∅; m_back := ∅; m_fwd := ∅; m_span := ∅ |}.

Definition zslCreate : zskiplist :=
  let '(m, zn) := zslCreateHeaderNode empty_nodes in
  {| zsl_header := zn; zsl_tail := None; zsl_length := 0; zsl_level := 1; zsl_mem := m |}.

Definition zslFreeNode (m : mem) (node : positive) : option mem :=
  levels ← m_levels m !! node;
  Some {| m_score := delete node (m_score m);
          m_ele := delete node (m_ele m);
          m_levels := delete node (m_levels m);
          m_back := delete node (m_back m);
          m_fwd := foldr (fun j => delete (node, j)) (m_fwd m) (seq 0 levels);
          m_span := foldr (fun j => delete (node, j)) (m_span m) (seq 0 levels) |}.

(** [random] gives [draws]; the loop ends with the first one that is not below
    the threshold, a quarter of [RAND_MAX]. *)
Fixpoint random_level_loop (threshold : Z) (draws : list Z) (level : nat) : nat :=
  match draws with
  | r :: draws => if r <? threshold then random_level_loop threshold draws (level + 1) else level
  | [] => level
  end.

Definition zslRandomLevel (RAND_MAX : Z) (draws : list Z) : nat :=
  let level := random_level_loop (RAND_MAX / 4) draws 1 in
  if (level <? ZSKIPLIST_MAXLEVEL)%nat then level else ZSKIPLIST_MAXLEVEL.

(** ** Searching *)

(** [while (x->level[i].forward && test) { rank += span; x = forward; }]: the
    test sees the rank and the node the step would lead to.  The loops that do
    not need the rank leave it out. *)
Fixpoint walk (fuel : nat) (m : mem) (test : Z -> positive -> option bool) (i : nat) (x : positive) (rank : Z)
    : option (positive * Z) :=
  match fuel with
  | O => None
  | S fuel =>
      f ← m_fwd m !! (x, i);
      match f with
      | None => Some (x, rank)
      | Some y =>
          span ← zslGetNodeSpanAtLevel m x i;
          b ← test (u64 (rank + span)) y;
          if (b : bool) then walk fuel m test i y (u64 (rank + span)) else Some (x, rank)
      end
  end.

(** [for (i = level-1; i >= 0; i--) { walk; update[i] = x; }]: the arrays
    [update] and [rank], from index 0. *)
Fixpoint descend (fuel : nat) (m : mem) (test : Z -> positive -> option bool) (level : nat) (x : positive) (rank : Z)
    (update : list (positive * Z)) : option (list (positive * Z)) :=
  match level with
  | O => Some update
  | S i =>
      '(x, rank) ← walk fuel m test i x rank;
      descend fuel m test i x rank ((x, rank) :: update)
  end.

Definition loop_fuel (z : zskiplist) : nat := S (Z.to_nat (zsl_length z)).

(** The node is before the position of [score] and [ele]. *)
Definition before (m : mem) (score : T) (ele : list Z) (_ : Z) (y : positive) : option bool :=
  c ← zslCompareWithNode score ele m (Some y); Some (c >? 0).

Definition find_update (z : zskiplist) (test : Z -> positive -> option bool) : option (list (positive * Z)) :=
  descend (loop_fuel z) (zsl_mem z) test (zsl_level z) (zsl_header z) 0 [].

(** ** Insertion *)

(** [for (i = zsl->level; i < level; i++)]: the spans of the new levels of the
    header. *)
Fixpoint grow_loop (m : mem) (header : positive) (length : Z) (i n : nat) : option mem :=
  match n with
  | O => Some m
  | S n => m ← zslSetNodeSpanAtLevel m header i length; grow_loop m header length (S i) n
  end.

(** [for (i = 0; i < level; i++)] *)
Fixpoint link_loop (m : mem) (node : positive) (update : list (positive * Z)) (rank0 : Z) (i n : nat) : option mem :=
  match n with
  | O => Some m
  | S n =>
      '(u, r) ← update !! i;
      f ← m_fwd m !! (u, i);
      m ← set_fwd m node i f;
      m ← set_fwd m u i (Some node);
      su ← zslGetNodeSpanAtLevel m u i;
      m ← zslSetNodeSpanAtLevel m node i (u64 (su - u64 (rank0 - r)));
      m ← zslSetNodeSpanAtLevel m u i (u64 (u64 (rank0 - r) + 1));
      link_loop m node update rank0 (S i) n
  end.

(** [for (i = level; i < zsl->level; i++)] *)
Fixpoint incr_loop (m : mem) (update : list (positive * Z)) (i n : nat) : option mem :=
  match n with
  | O => Some m
  | S n => '(u, _) ← update !! i; m ← zslIncrNodeSpanAtLevel m u i 1; incr_loop m update (S i) n
  end.

Definition zslInsertNode (z : zskiplist) (node : positive) : option zskiplist :=
  let m := zsl_mem z in
  score ← m_score m !! node;
  ele ← zslGetNodeElement m node;
  level ← m_levels m !! node;
  _ ← cassert (negb (isnan score));
  update ← find_update z (before m score ele);
  '(m, update, zlevel) ←
    (if (zsl_level z <? level)%nat then
       (m ← grow_loop m (zsl_header z) (zsl_length z) (zsl_level z) (level - zsl_level z);
        m ← set_levels m (zsl_header z) level;
        Some (m, update ++ replicate (level - zsl_level z) (zsl_header z, 0), level))
     else Some (m, update, zsl_level z));
  '(u0, rank0) ← update !! 0%nat;
  m ← link_loop m node update rank0 0 level;
  m ← incr_loop m update level (zlevel - level);
  m ← set_back m node (if bool_decide (u0 = zsl_header z) then None else Some u0);
  f0 ← m_fwd m !! (node, 0%nat);
  '(m, tail) ←
    match f0 with
    | Some y => m ← set_back m y (Some node); Some (m, zsl_tail z)
    | None => Some (m, Some node)
    end;
  Some {| zsl_header := zsl_header z; zsl_tail := tail; zsl_length := u64 (zsl_length z + 1);
          zsl_level := zlevel; zsl_mem := m |}.

(** [zslInsert] with the level that [zslRandomLevel] gave. *)
Definition zslInsert (z : zskiplist) (level : nat) (score : T) (ele : list Z) : option (zskiplist * positive) :=
  _ ← cassert (negb (isnan score));
  let '(m, node) := zslCreateNode (zsl_mem z) level score ele in
  z ← zslInsertNode {| zsl_header := zsl_header z; zsl_tail := zsl_tail z; zsl_length := zsl_length z;
                       zsl_level := zsl_level z; zsl_mem := m |} node;
  Some (z, node).

(** ** Deletion *)

(** [for (i = 0; i < zsl->level; i++)] of [zslUnlinkNode]. *)
Fixpoint unlink_loop (m : mem) (x : positive) (update : list (positive * Z)) (i n : nat) : option mem :=
  match n with
  | O => Some m
  | S n =>
      '(u, _) ← update !! i;
      f ← m_fwd m !! (u, i);
      m ← (if bool_decide (f = Some x) then
             (sx ← zslGetNodeSpanAtLevel m x i;
              m ← zslIncrNodeSpanAtLevel m u i (u64 (sx - 1));
              fx ← m_fwd m !! (x, i);
              set_fwd m u i fx)
           else zslDecrNodeSpanAtLevel m u i 1);
      unlink_loop m x update (S i) n
  end.

(** [while(zsl->level > 1 && header->level[zsl->level-1].forward == NULL)]; the
    level is [S l]. *)
Fixpoint shrink_loop (m : mem) (header : positive) (l : nat) : option (mem * nat) :=
  match l with
  | O => Some (m, 1%nat)
  | S l' =>
      f ← m_fwd m !! (header, l);
      match f with
      | None => m ← set_span m header l 0; shrink_loop m header l'
      | Some _ => Some (m, S l)
      end
  end.

Definition zslUnlinkNode (z : zskiplist) (x : positive) (update : list (positive * Z)) : option zskiplist :=
  m ← unlink_loop (zsl_mem z) x update 0 (zsl_level z);
  f0 ← m_fwd m !! (x, 0%nat);
  bx ← m_back m !! x;
  '(m, tail) ←
    match f0 with
    | Some y => m ← set_back m y bx; Some (m, zsl_tail z)
    | None => Some (m, bx)
    end;
  '(m, level) ← shrink_loop m (zsl_header z) (zsl_level z - 1);
  Some {| zsl_header := zsl_header z; zsl_tail := tail; zsl_length := u64 (zsl_length z - 1);
          zsl_level := level; zsl_mem := m |}.

Definition free_node (z : zskiplist) (node : positive) : option zskiplist :=
  m ← zslFreeNode (zsl_mem z) node;
  Some {| zsl_header := zsl_header z; zsl_tail := zsl_tail z; zsl_length := zsl_length z;
          zsl_level := zsl_level z; zsl_mem := m |}.

(** [serverAssert(x->level[0].forward == node)] *)
Definition assert_found (m : mem) (update : list (positive * Z)) (node : positive) : option unit :=
  '(x, _) ← update !! 0%nat;
  f ← m_fwd m !! (x, 0%nat);
  cassert (bool_decide (f = Some node)).

Definition zslDelete (z : zskiplist) (node : positive) : option zskiplist :=
  let m := zsl_mem z in
  score ← m_score m !! node;
  ele ← zslGetNodeElement m node;
  update ← find_update z (before m score ele);
  _ ← assert_found m update node;
  z ← zslUnlinkNode z node update;
  free_node z node.

Definition with_mem (z : zskiplist) (m : mem) : zskiplist :=
  {| zsl_header := zsl_header z; zsl_tail := zsl_tail z; zsl_length := zsl_length z;
     zsl_level := zsl_level z; zsl_mem := m |}.

Definition zslUpdateScore (z : zskiplist) (node : positive) (newscore : T) : option zskiplist :=
  let m := zsl_mem z in
  back ← m_back m !! node;
  forward ← m_fwd m !! (node, 0%nat);
  after_back ← match back with None => Some true | Some b => s ← m_score m !! b; Some (slt s newscore) end;
  before_forward ← match forward with None => Some true | Some f => s ← m_score m !! f; Some (slt newscore s) end;
  if (after_back : bool) && (before_forward : bool) then
    m ← set_score m node newscore; Some (with_mem z m)
  else
    curscore ← m_score m !! node;
    ele ← zslGetNodeElement m node;
    update ← find_update z (before m curscore ele);
    _ ← assert_found m update node;
    z ← zslUnlinkNode z node update;
    m ← set_score (zsl_mem z) node newscore;
    zslInsertNode (with_mem z m) node.

(** ** Ranges *)

(** Scores between two bounds, each inclusive or exclusive. *)
Record zrangespec := { rs_min : T; rs_max : T; rs_minex : bool; rs_maxex : bool }.

Definition zslValueGteMin (value : T) (spec : zrangespec) : bool :=
  if rs_minex spec then slt (rs_min spec) value else sle (rs_min spec) value.

Definition zslValueLteMax (value : T) (spec : zrangespec) : bool :=
  if rs_maxex spec then slt value (rs_max spec) else sle value (rs_max spec).

Definition zslIsInRange (z : zskiplist) (range : zrangespec) : option bool :=
  if slt (rs_max range) (rs_min range) ||
     (sequal (rs_min range) (rs_max range) && (rs_minex range || rs_maxex range)) then Some false
  else
    match zsl_tail z with
    | None => Some false
    | Some x =>
        s ← m_score (zsl_mem z) !! x;
        if negb (zslValueGteMin s range) then Some false
        else
          f ← m_fwd (zsl_mem z) !! (zsl_header z, 0%nat);
          match f with
          | None => Some false
          | Some x => s ← m_score (zsl_mem z) !! x; Some (zslValueLteMax s range)
          end
    end.

(** Elements between two strings; [LexMin] and [LexMax] are [shared.minstring]
    and [shared.maxstring]. *)
Inductive lexbound := LexMin | LexMax | LexStr (s : list Z).

Record zlexrangespec := { zlr_min : lexbound; zlr_max : lexbound; zlr_minex : bool; zlr_maxex : bool }.

(** [None] is [C_ERR]; the string ends at its first NUL for the tests of [c[1]]. *)
Definition zslParseLexRangeItem (c : list Z) : option (lexbound * bool) :=
  match c with
  | 43 :: r => if bool_decide (head r = None \/ head r = Some 0) then Some (LexMax, true) else None
  | 45 :: r => if bool_decide (head r = None \/ head r = Some 0) then Some (LexMin, true) else None
  | 40 :: r => Some (LexStr r, true)
  | 91 :: r => Some (LexStr r, false)
  | _ => None
  end.

(** Arguments that are not integer encoded. *)
Definition zslParseLexRange (min max : list Z) : option zlexrangespec :=
  '(lo, loex) ← zslParseLexRangeItem min;
  '(hi, hiex) ← zslParseLexRangeItem max;
  Some {| zlr_min := lo; zlr_max := hi; zlr_minex := loex; zlr_maxex := hiex |}.

Definition sdscmplex (a b : lexbound) : Z :=
  match a, b with
  | LexMin, LexMin | LexMax, LexMax => 0
  | LexMin, _ | _, LexMax => -1
  | LexMax, _ | _, LexMin => 1
  | LexStr a, LexStr b => sdscmp a b
  end.

Definition zslLexValueGteMin (value : list Z) (spec : zlexrangespec) : bool :=
  if zlr_minex spec then sdscmplex (LexStr value) (zlr_min spec) >? 0
  else sdscmplex (LexStr value) (zlr_min spec) >=? 0.

Definition zslLexValueLteMax (value : list Z) (spec : zlexrangespec) : bool :=
  if zlr_maxex spec then sdscmplex (LexStr value) (zlr_max spec) <? 0
  else sdscmplex (LexStr value) (zlr_max spec) <=? 0.

Definition zslIsInLexRange (z : zskiplist) (range : zlexrangespec) : option bool :=
  let cmp := sdscmplex (zlr_min range) (zlr_max range) in
  if (cmp >? 0) || ((cmp =? 0) && (zlr_minex range || zlr_maxex range)) then Some false
  else
    match zsl_tail z with
    | None => Some false
    | Some x =>
        e ← zslGetNodeElement (zsl_mem z) x;
        if negb (zslLexValueGteMin e range) then Some false
        else
          f ← m_fwd (zsl_mem z) !! (zsl_header z, 0%nat);
          match f with
          | None => Some false
          | Some x => e ← zslGetNodeElement (zsl_mem z) x; Some (zslLexValueLteMax e range)
          end
    end.

(** ** Ranks *)

(** [for (i = level-1; i >= 0; i--)] of [zslGetRank]; [test] is the comparison
    that goes on, [found] the one that returns. *)
Fixpoint rank_loop (fuel : nat) (m : mem) (header : positive) (test : Z -> positive -> option bool)
    (found : positive -> option bool) (level : nat) (x : positive) (rank : Z) : option Z :=
  match level with
  | O => Some 0
  | S i =>
      '(x, rank) ← walk fuel m test i x rank;
      b ← (if bool_decide (x = header) then Some false else found x);
      if (b : bool) then Some rank else rank_loop fuel m header test found i x rank
  end.

Definition zslGetRank (z : zskiplist) (score : T) (ele : list Z) : option Z :=
  let m := zsl_mem z in
  rank_loop (loop_fuel z) m (zsl_header z)
    (fun _ y => c ← zslCompareWithNode score ele m (Some y); Some (c >=? 0))
    (fun x => c ← zslCompareWithNode score ele m (Some x); Some (c =? 0))
    (zsl_level z) (zsl_header z) 0.

(** [while (x)] of [zslGetRankByNode]. *)
Fixpoint distance_loop (fuel : nat) (m : mem) (x : option positive) (distance_to_end : Z) : option Z :=
  match x with
  | None => Some distance_to_end
  | Some x =>
      match fuel with
      | O => None
      | S fuel =>
          levels ← m_levels m !! x;
          let level := (levels - 1)%nat in
          span ← zslGetNodeSpanAtLevel m x level;
          f ← m_fwd m !! (x, level);
          distance_loop fuel m f (u64 (distance_to_end + span))
      end
  end.

Definition zslGetRankByNode (z : zskiplist) (x : positive) : option Z :=
  distance_to_end ← distance_loop (loop_fuel z) (zsl_mem z) (Some x) 0;
  Some (u64 (zsl_length z - distance_to_end)).

(** [for (i = start_level; i >= 0; i--)]; the level is [start_level + 1]. *)
Fixpoint by_rank_loop (fuel : nat) (m : mem) (rank : Z) (level : nat) (x : positive) (traversed : Z)
    : option (option positive) :=
  match level with
  | O => Some None
  | S i =>
      '(x, traversed) ← walk fuel m (fun t _ => Some (t <=? rank)) i x traversed;
      if traversed =? rank then Some (Some x) else by_rank_loop fuel m rank i x traversed
  end.

Definition zslGetElementByRankFromNode (z : zskiplist) (start_node : positive) (start_level : nat) (rank : Z)
    : option (option positive) :=
  by_rank_loop (loop_fuel z) (zsl_mem z) rank (S start_level) start_node 0.

Definition zslGetElementByRank (z : zskiplist) (rank : Z) : option (option positive) :=
  zslGetElementByRankFromNode z (zsl_header z) (zsl_level z - 1) rank.

(** ** The element at a place of a range *)

(** [for (i = 0; i < n; i++) x = x->level[0].forward;] and the same with
    [backward]; following a null pointer fails. *)
Fixpoint forward_n (n : nat) (m : mem) (x : option positive) : option (option positive) :=
  match n with
  | O => Some x
  | S n => p ← x; f ← m_fwd m !! (p, 0%nat); forward_n n m f
  end.
Fixpoint backward_n (n : nat) (m : mem) (x : option positive) : option (option positive) :=
  match n with
  | O => Some x
  | S n => p ← x; b ← m_back m !! p; backward_n n m b
  end.

(** The common part of [zslNthInRange] and [zslNthInLexRange], which are the
    same code with other tests: [gte] and [lte] are the tests of the bounds on
    a node.  The result is the node and its rank. *)
Definition zslNth (z : zskiplist) (gte lte : positive -> option bool) (n : Z) : option (option (positive * Z)) :=
  let m := zsl_mem z in
  let fuel := loop_fuel z in
  let out := fun (_ : Z) y => b ← gte y; Some (negb b) in
  let within := fun (_ : Z) y => lte y in
  let top := (zsl_level z - 1)%nat in
  '(x, edge_rank) ← walk fuel m out top (zsl_header z) 0;
  let last_highest_level_node := x in
  let last_highest_level_rank := edge_rank in
  if n >=? 0 then
    update ← descend fuel m out top x edge_rank [(x, edge_rank)];
    '(x, edge_rank) ← update !! 0%nat;
    if u64 (edge_rank + n) >=? zsl_length z then Some None
    else
      x ← (if n <? ZSKIPLIST_MAX_SEARCH then forward_n (Z.to_nat (n + 1)) m (Some x)
           else zslGetElementByRankFromNode z last_highest_level_node top
                  (u64 (edge_rank + 1 + n - last_highest_level_rank)));
      match x with
      | None => Some None
      | Some x =>
          b ← lte x;
          if negb b then Some None else Some (Some (x, edge_rank + n + 1))
      end
  else
    update ← descend fuel m within (zsl_level z) x edge_rank [];
    '(x, edge_rank) ← update !! 0%nat;
    if edge_rank <? - n then Some None
    else
      x ← (if n + 1 >? - ZSKIPLIST_MAX_SEARCH then backward_n (Z.to_nat (- n - 1)) m (Some x)
           else zslGetElementByRankFromNode z last_highest_level_node top
                  (u64 (edge_rank + 1 + n - last_highest_level_rank)));
      match x with
      | None => Some None
      | Some x =>
          b ← gte x;
          if negb b then Some None else Some (Some (x, edge_rank + n + 1))
      end.

Definition zslNthInRange (z : zskiplist) (range : zrangespec) (n : Z) : option (option (positive * Z)) :=
  b ← zslIsInRange z range;
  if negb b then Some None
  else zslNth z (fun y => s ← m_score (zsl_mem z) !! y; Some (zslValueGteMin s range))
         (fun y => s ← m_score (zsl_mem z) !! y; Some (zslValueLteMax s range)) n.

Definition zslNthInLexRange (z : zskiplist) (range : zlexrangespec) (n : Z) : option (option (positive * Z)) :=
  b ← zslIsInLexRange z range;
  if negb b then Some None
  else zslNth z (fun y => e ← zslGetNodeElement (zsl_mem z) y; Some (zslLexValueGteMin e range))
         (fun y => e ← zslGetNodeElement (zsl_mem z) y; Some (zslLexValueLteMax e range)) n.

(** ** Deleting ranges, from the dict of the sorted set too

    The dict maps an element to its node. *)

Context (hash : list Z -> Z) (resize_allowed : Z -> Z -> Z -> bool) (force_full_rehash : bool)
  (can_resize : dictResizeEnable).

(** The loop that deletes nodes while [cond] holds; [traversed] is the rank the
    version by rank counts. *)
Fixpoint delete_loop (fuel : nat) (z : zskiplist) (d : dict (list Z) positive) (cond : mem -> Z -> positive -> option bool)
    (update : list (positive * Z)) (x : option positive) (traversed removed : Z)
    : option (zskiplist * dict (list Z) positive * Z) :=
  match x with
  | None => Some (z, d, removed)
  | Some x =>
      b ← cond (zsl_mem z) traversed x;
      if negb b then Some (z, d, removed)
      else
        match fuel with
        | O => None
        | S fuel =>
            next ← m_fwd (zsl_mem z) !! (x, 0%nat);
            z ← zslUnlinkNode z x update;
            ele ← zslGetNodeElement (zsl_mem z) x;
            '(d, _) ← dictDelete hash resize_allowed force_full_rehash can_resize d ele;
            z ← free_node z x;
            delete_loop fuel z d cond update next (u64 (traversed + 1)) (u64 (removed + 1))
        end
  end.

(** The search for the first node to delete, and the loop. *)
Definition delete_from (z : zskiplist) (d : dict (list Z) positive) (skip : Z -> positive -> option bool)
    (cond : mem -> Z -> positive -> option bool) : option (zskiplist * dict (list Z) positive * Z) :=
  update ← find_update z skip;
  '(x, traversed) ← update !! 0%nat;
  x ← m_fwd (zsl_mem z) !! (x, 0%nat);
  delete_loop (loop_fuel z) z d cond update x (u64 (traversed + 1)) 0.

Definition zslDeleteRangeByScore (z : zskiplist) (range : zrangespec) (d : dict (list Z) positive) :=
  delete_from z d (fun _ y => s ← m_score (zsl_mem z) !! y; Some (negb (zslValueGteMin s range)))
    (fun m _ x => s ← m_score m !! x; Some (zslValueLteMax s range)).

Definition zslDeleteRangeByLex (z : zskiplist) (range : zlexrangespec) (d : dict (list Z) positive) :=
  delete_from z d (fun _ y => e ← zslGetNodeElement (zsl_mem z) y; Some (negb (zslLexValueGteMin e range)))
    (fun m _ x => e ← zslGetNodeElement m x; Some (zslLexValueLteMax e range)).

(** [start] and [end_] are 1-based. *)
Definition zslDeleteRangeByRank (z : zskiplist) (start end_ : Z) (d : dict (list Z) positive) :=
  delete_from z d (fun t _ => Some (t <? start)) (fun _ t _ => Some (t <=? end_)).
End Skiplist.
