(* ===== verification/SkiplistRep.v ===== *)
(** * Sorted sets: what a skiplist represents

    [zsl_repr z ns]: the memory of [z] is the skiplist of the nodes [ns], in
    order.  [findh] gives the next node of a level and its distance, so every
    forward pointer and every span is determined by [ns].  The searches of
    [Skiplist] are proved here once, for any test that holds exactly on a
    prefix of the list. *)

From Stdlib Require Import Sorting.Sorted.
From stdpp Require Import base list numbers option tactics gmap.
From S2P Require Import Prelude Order Skiplist.

Section Rep.
Context {T : Type} `{ScoreOrder T}.

Abbreviation zskiplist := (zskiplist (T := T)).
Abbreviation mem := (zskiplistNodes (T := T)).

(** ** Nodes and positions *)

Record znode := { z_loc : positive; z_score : T; z_ele : list Z; z_h : nat }.

Definition node_lt (x y : znode) : Prop := pair_lt (z_score x) (z_ele x) (z_score y) (z_ele y).

(** From the nodes that follow: the distance to the next node of level [l] (or
    to the end) and its address. *)
Fixpoint findh (l : nat) (B : list znode) : Z * option positive :=
  match B with
  | [] => (0, None)
  | x :: B => if (l <? z_h x)%nat then (1, Some (z_loc x)) else (1 + (findh l B).1, (findh l B).2)
  end.

Definition low (l : nat) (x : znode) : Prop := (z_h x <= l)%nat.

Lemma findh_low l A B : Forall (low l) A -> findh l (A ++ B) = (zlen A + (findh l B).1, (findh l B).2).
Proof.
  induction 1 as [|x A Hx HA IH]; cbn [findh app]; [by destruct (findh l B)|].
  rewrite (proj2 (Nat.ltb_ge _ _)) by done. rewrite IH. cbn [fst snd]. rewrite zlen_cons. f_equal. lia.
Qed.

Lemma findh_high l (x : znode) B : (l < z_h x)%nat -> findh l (x :: B) = (1, Some (z_loc x)).
Proof. intros Hx. cbn [findh]. by rewrite (proj2 (Nat.ltb_lt _ _)). Qed.

Lemma findh_all_low l A : Forall (low l) A -> findh l A = (zlen A, None).
Proof. intros HA. rewrite <- (app_nil_r A) at 1. rewrite findh_low by done. cbn. f_equal. lia. Qed.

(** A list is low, or has a first node of level [l]. *)
Lemma split_low l A : Forall (low l) A \/ exists A1 x A2, A = A1 ++ x :: A2 /\ Forall (low l) A1 /\ (l < z_h x)%nat.
Proof.
  induction A as [|x A IH]; [by left|]. destruct (Nat.lt_ge_cases l (z_h x)) as [Hx|Hx].
  - right. exists [], x, A. by split.
  - destruct IH as [?|(A1 & y & A2 & -> & HA & Hy)]; [left; by constructor|].
    right. exists (x :: A1), y, A2. split_and!; [done|by constructor|done].
Qed.

Lemma findh_range l A : 0 <= (findh l A).1 <= zlen A.
Proof.
  destruct (split_low l A) as [HA|(A1 & x & A2 & -> & HA & Hx)].
  - rewrite findh_all_low by done. cbn. unfold zlen. lia.
  - rewrite findh_low, findh_high by done. cbn. autorewrite with zlen. unfold zlen. lia.
Qed.

Lemma findh_loc l A y : (findh l A).2 = Some y -> y ∈ map z_loc A.
Proof.
  destruct (split_low l A) as [HA|(A1 & x & A2 & -> & HA & Hx)].
  - by rewrite findh_all_low.
  - rewrite findh_low, findh_high by done. cbn. intros [= <-]. rewrite map_app. cbn. set_solver.
Qed.

(** Nodes behind the next one do not matter. *)
Lemma findh_prefix l A x B B' : Forall (low l) A -> (l < z_h x)%nat ->
  findh l (A ++ x :: B) = findh l (A ++ x :: B').
Proof. intros. by rewrite !findh_low, !findh_high. Qed.

(** The last node of level [l] of a prefix, with what is before it. *)
Fixpoint predl (l : nat) (P : list znode) : list znode :=
  match P with
  | [] => []
  | x :: P =>
      match predl l P with
      | [] => if (l <? z_h x)%nat then [x] else []
      | y :: A => x :: y :: A
      end
  end.

Definition tall (l : nat) (A : list znode) : Prop := match last A with Some x => (l < z_h x)%nat | None => True end.

Lemma predl_spec l P : exists C, P = predl l P ++ C /\ Forall (low l) C /\ tall l (predl l P).
Proof.
  induction P as [|x P (C & HP & HC & Ht)]; [by exists []|]. cbn [predl].
  destruct (predl l P) as [|y A] eqn:E.
  - destruct (Nat.ltb_spec l (z_h x)) as [Hx|Hx].
    + exists C. split_and!; [by rewrite HP at 1|done|done].
    + exists (x :: P). split_and!; [done| |done]. constructor; [done|]. by rewrite HP.
  - exists C. split_and!; [by rewrite HP at 1|done|done].
Qed.

Lemma last_app_ne {A} (l k : list A) : k <> [] -> last (l ++ k) = last k.
Proof.
  induction k as [|x k _] using rev_ind; [done|]. intros _. by rewrite app_assoc, !last_snoc.
Qed.

Lemma tall_app_low l A C : C <> [] -> tall l (A ++ C) -> Forall (low l) C -> False.
Proof.
  intros Hne Ht HC. induction C as [|x C _] using rev_ind; [done|].
  unfold tall in Ht. rewrite app_assoc, last_snoc in Ht.
  apply Forall_app in HC as [_ HC]. apply Forall_inv in HC. unfold low in HC. lia.
Qed.

Lemma predl_unique l P A C : P = A ++ C -> Forall (low l) C -> tall l A -> predl l P = A.
Proof.
  intros HP HC HA. destruct (predl_spec l P) as (C' & HP' & HC' & HA').
  rewrite HP in HP' at 1. apply app_eq_inv in HP' as [(K & -> & ->)|(K & HK & ->)].
  - destruct K as [|k K]; [by rewrite app_nil_r|]. exfalso.
    apply list.Forall_app in HC' as [HK _]. by eapply (tall_app_low l (predl l P) (k :: K)).
  - rewrite HK in HA' |- *. destruct K as [|k K]; [by rewrite app_nil_r|]. exfalso.
    apply list.Forall_app in HC as [HL _]. by eapply (tall_app_low l A (k :: K)).
Qed.

(** ** The invariant *)

(** The address of the last node of a prefix, the header for the empty one. *)
Definition cur (header : positive) (A : list znode) : positive :=
  match last A with Some x => z_loc x | None => header end.

(** Whether the node at the end of the prefix has level [l]. *)
Definition has_level (L l : nat) (A : list znode) : Prop :=
  match last A with Some x => (l < z_h x)%nat | None => (l < L)%nat end.

(** Forward pointers and spans. *)
Definition links (header : positive) (L : nat) (m : mem) (ns : list znode) : Prop :=
  forall A B l, ns = A ++ B -> has_level L l A ->
  m_fwd m !! (cur header A, l) = Some (findh l B).2 /\
  ((0 < l)%nat -> m_span m !! (cur header A, l) = Some (findh l B).1).

Record node_ok (m : mem) (x : znode) : Prop := {
  no_score : m_score m !! z_loc x = Some (z_score x);
  no_ele : m_ele m !! z_loc x = Some (z_ele x);
  no_levels : m_levels m !! z_loc x = Some (z_h x);
  no_nan : isnan (z_score x) = false;
  no_h : (1 <= z_h x <= ZSKIPLIST_MAXLEVEL)%nat }.

Record zsl_repr (z : zskiplist) (ns : list znode) : Prop := {
  zr_locs : NoDup (zsl_header z :: map z_loc ns);
  zr_nodes : Forall (node_ok (zsl_mem z)) ns;
  zr_header : is_Some (m_levels (zsl_mem z) !! zsl_header z);
  zr_level : (1 <= zsl_level z <= ZSKIPLIST_MAXLEVEL)%nat;
  zr_max : Forall (fun x => (z_h x <= zsl_level z)%nat) ns;
  zr_top : zsl_level z = 1%nat \/ Exists (fun x => z_h x = zsl_level z) ns;
  zr_length : zsl_length z = zlen ns;
  zr_bound : zlen ns < 2 ^ 63;
  zr_sorted : StronglySorted node_lt ns;
  zr_links : links (zsl_header z) (zsl_level z) (zsl_mem z) ns;
  zr_above : forall l, (zsl_level z <= l < ZSKIPLIST_MAXLEVEL)%nat ->
    m_fwd (zsl_mem z) !! (zsl_header z, l) = Some None /\ m_span (zsl_mem z) !! (zsl_header z, l) = Some 0;
  zr_back : forall A x B, ns = A ++ x :: B ->
    m_back (zsl_mem z) !! z_loc x = Some (z_loc <$> last A);
  zr_tail : zsl_tail z = z_loc <$> last ns }.

(** Prefixes of a list without duplicate addresses end at different ones. *)
Lemma cur_inj header A B A' B' : NoDup (header :: map z_loc (A ++ B)) -> A ++ B = A' ++ B' ->
  cur header A = cur header A' -> A = A'.
Proof.
  intros Hnd Heq Hc.
  assert (Hgen : forall A K B, NoDup (header :: map z_loc ((A ++ K) ++ B)) -> cur header A = cur header (A ++ K) -> K = []).
  { clear. intros A K B Hnd Hc. destruct K as [|k K _] using rev_ind; [done|]. exfalso.
    unfold cur in Hc at 2. rewrite app_assoc, last_snoc in Hc.
    rewrite map_app, !map_app in Hnd. cbn in Hnd. unfold cur in Hc.
    destruct A as [|a A _] using rev_ind; cbn in Hc.
    - apply NoDup_cons in Hnd as [Hh _]. apply Hh. rewrite Hc. cbn. set_solver.
    - rewrite last_snoc in Hc. apply NoDup_cons in Hnd as [_ Hnd]. rewrite !map_app in Hnd. cbn in Hnd.
      apply NoDup_app in Hnd as [Hnd _]. apply NoDup_app in Hnd as (_ & Hnd & _).
      apply (Hnd (z_loc a)); [set_solver|]. rewrite Hc. set_solver. }
  apply app_eq_inv in Heq as [(K & -> & ->)|(K & -> & ->)].
  - symmetry in Hc. rewrite (Hgen A' K B); [by rewrite app_nil_r|done|done].
  - rewrite (Hgen A K B'); [by rewrite app_nil_r| |done]. by rewrite <- app_assoc.
Qed.

(** ** Searching *)

Lemma u64_id x : 0 <= x < 2 ^ 64 -> u64 x = x.
Proof. intros. by apply Z.mod_small. Qed.

Lemma span_links header L m ns A B l : links header L m ns -> ns = A ++ B -> has_level L l A ->
  Forall (fun x => (1 <= z_h x)%nat) ns ->
  zslGetNodeSpanAtLevel m (cur header A) l = Some (findh l B).1.
Proof.
  intros Hl HA Hh Hhs. destruct (Hl A B l HA Hh) as [Hf Hs]. unfold zslGetNodeSpanAtLevel.
  destruct (Nat.ltb_spec 0 l); [by apply Hs|]. replace l with 0%nat in * by lia. rewrite Hf. cbn.
  destruct B as [|x B]; [done|]. rewrite HA in Hhs. apply list.Forall_app in Hhs as [_ Hx%Forall_inv].
  by rewrite findh_high.
Qed.

Section Search.
Context (header : positive) (L : nat) (m : mem) (ns : list znode).
Context (Hlinks : links header L m ns) (Hhs : Forall (fun x => (1 <= z_h x)%nat) ns).
Context (Hbound : zlen ns < 2 ^ 63).
(** A test that holds on the prefix [P] of the list. *)
Context (P Q : list znode) (HPQ : ns = P ++ Q).
Context (test : Z -> positive -> option bool).
(** Ranks are counted from position [off]. *)
Context (off : Z) (Hoff : 0 <= off).
Context (Htest : forall A x B, ns = A ++ x :: B -> off <= zlen A ->
  test (zlen A + 1 - off) (z_loc x) = Some (bool_decide (zlen A + 1 <= zlen P))).

Lemma walk_ok fuel : forall l A C, P = A ++ C -> has_level L l A -> (length C < fuel)%nat -> off <= zlen A ->
  exists A' C', walk fuel m test l (cur header A) (zlen A - off) = Some (cur header A', zlen A' - off) /\
    off <= zlen A' /\
    P = A' ++ C' /\ Forall (low l) C' /\ has_level L l A' /\ (A' = A \/ tall l A').
Proof.
  induction fuel as [|fuel IH]; intros l A C HP Hh Hf Ho; [lia|]. cbn [walk].
  assert (HA : ns = A ++ C ++ Q) by (by rewrite HPQ, HP, <- app_assoc).
  destruct (Hlinks A _ l HA Hh) as [-> _]. cbn [mbind option_bind].
  rewrite (span_links header L m ns A _ l Hlinks HA Hh Hhs). cbn [mbind option_bind].
  destruct (split_low l C) as [HC|(C1 & x & C2 & HC & HC1 & Hx)].
  - exists A, C. split_and!; [|done|done|done|done|by left]. rewrite findh_low by done. cbn [fst snd].
    destruct (split_low l Q) as [HQ|(Q1 & x & Q2 & HQ & HQ1 & Hx)]; [by rewrite findh_all_low|].
    rewrite HQ, findh_low, findh_high by done. cbn [fst snd].
    assert (Hns : ns = (A ++ C ++ Q1) ++ x :: Q2) by (rewrite HA, HQ, <- !app_assoc; done).
    pose proof (Htest _ x _ Hns) as Ht. rewrite bool_decide_false in Ht.
    specialize (Ht ltac:(autorewrite with zlen; unfold zlen in *; lia)).
    2:{ rewrite HP. autorewrite with zlen. unfold zlen. lia. }
    replace (u64 (zlen A - off + (zlen C + (zlen Q1 + 1)))) with (zlen (A ++ C ++ Q1) + 1 - off).
    2:{ rewrite u64_id; autorewrite with zlen; [lia|]. rewrite Hns in Hbound. autorewrite with zlen in Hbound.
        unfold zlen in *. lia. }
    by rewrite Ht.
  - rewrite HC, <- app_assoc, findh_low by done. cbn [app]. rewrite findh_high by done. cbn [fst snd].
    assert (Hns : ns = (A ++ C1) ++ x :: C2 ++ Q) by (rewrite HA, HC, <- !app_assoc; done).
    pose proof (Htest _ x _ Hns) as Ht. rewrite bool_decide_true in Ht.
    specialize (Ht ltac:(autorewrite with zlen; unfold zlen in *; lia)).
    2:{ rewrite HP, HC. autorewrite with zlen. unfold zlen. lia. }
    replace (u64 (zlen A - off + (zlen C1 + 1))) with (zlen (A ++ C1) + 1 - off).
    2:{ rewrite u64_id; autorewrite with zlen; [lia|]. rewrite Hns in Hbound. autorewrite with zlen in Hbound.
        unfold zlen in *. lia. }
    rewrite Ht. cbn [mbind option_bind].
    assert (Hcur : cur header ((A ++ C1) ++ [x]) = z_loc x) by (unfold cur; by rewrite last_snoc).
    destruct (IH l ((A ++ C1) ++ [x]) C2) as (A' & C' & Hw & Ho' & HP' & HC' & Hh' & Ht').
    { by rewrite HP, HC, <- !app_assoc. }
    { unfold has_level. by rewrite last_snoc. }
    { rewrite HC, length_app in Hf. cbn in Hf. lia. }
    { autorewrite with zlen. unfold zlen in *. lia. }
    rewrite Hcur, zlen_app in Hw. change (zlen [x]) with 1 in Hw. rewrite Hw.
    exists A', C'. split_and!; [done..|]. right. destruct Ht' as [->|?]; [|done].
    unfold tall. by rewrite last_snoc.
Qed.

Definition upd_at (l : nat) : positive * Z := (cur header (predl l P), zlen (predl l P)).

Lemma descend_ok fuel n : off = 0 -> forall A C acc, (n <= L)%nat -> P = A ++ C -> (length P < fuel)%nat ->
  (A = [] \/ tall (n - 1) A) ->
  exists up, descend fuel m test n (cur header A) (zlen A) acc = Some (up ++ acc) /\ length up = n /\
    forall l, (l < n)%nat -> up !! l = Some (upd_at l).
Proof.
  intros Ho. induction n as [|n IH]; intros A C acc HL HP Hf Ht; cbn [descend].
  { exists []. split_and!; [done|done|]. intros l Hl. lia. }
  replace (S n - 1)%nat with n in Ht by lia.
  assert (Hh : has_level L n A).
  { unfold has_level. destruct Ht as [->|Ht]; [cbn; lia|]. unfold tall in Ht. destruct (last A); lia. }
  destruct (walk_ok fuel n A C HP Hh) as (A' & C' & Hw & _ & HP' & HC' & Hh' & Ht').
  { rewrite HP, length_app in Hf. lia. }
  { unfold zlen. lia. }
  rewrite Ho, !Z.sub_0_r in Hw. rewrite Hw. cbn [mbind option_bind].
  assert (HA' : A' = [] \/ tall n A').
  { destruct Ht' as [->|?]; [done|by right]. }
  assert (Hpr : predl n P = A').
  { eapply predl_unique; [done|done|]. by destruct HA' as [->|?]. }
  destruct (IH A' C' ((cur header A', zlen A') :: acc)) as (up & -> & Hl & Hup); [lia|done|done| |].
  { destruct HA' as [?|HA']; [by left|right]. unfold tall in *. destruct (last A'); [lia|done]. }
  exists (up ++ [(cur header A', zlen A')]). rewrite <- app_assoc, length_app. split_and!; [done|cbn; lia|].
  intros l Hln. destruct (decide (l < n)%nat) as [Hlt|Hge].
  - rewrite lookup_app_l by lia. by apply Hup.
  - rewrite lookup_app_r by lia. replace (l - length up)%nat with 0%nat by lia. cbn.
    replace l with n by lia. unfold upd_at. by rewrite Hpr.
Qed.
End Search.

(** The search of every operation: [update] and [rank] hold the predecessors. *)
Lemma find_update_ok z ns P Q test : zsl_repr z ns -> ns = P ++ Q ->
  (forall A x B, ns = A ++ x :: B -> test (zlen A + 1) (z_loc x) = Some (bool_decide (zlen A + 1 <= zlen P))) ->
  exists up, find_update z test = Some up /\ length up = zsl_level z /\
    forall l, (l < zsl_level z)%nat -> up !! l = Some (upd_at (zsl_header z) P l).
Proof.
  intros Hz HPQ Htest. unfold find_update.
  destruct (descend_ok (zsl_header z) (zsl_level z) (zsl_mem z) ns (zr_links _ _ Hz)) with
    (P := P) (Q := Q) (test := test) (off := 0) (fuel := loop_fuel z) (n := zsl_level z) (A := @nil znode) (C := P)
    (acc := @nil (positive * Z)) as (up & Hup & Hlen & Hat); try done.
  - eapply list.Forall_impl; [apply zr_nodes, Hz|]. intros x Hx. apply (no_h _ _ Hx).
  - apply (zr_bound _ _ Hz).
  - intros A x B HA _. rewrite Z.sub_0_r. by eapply Htest.
  - unfold loop_fuel. rewrite (zr_length _ _ Hz), HPQ. unfold zlen. rewrite length_app. lia.
  - by left.
  - exists up. rewrite app_nil_r in Hup. by split_and!.
Qed.

Lemma node_of z ns x : zsl_repr z ns -> x ∈ ns -> node_ok (zsl_mem z) x.
Proof. intros Hz Hx. pose proof (zr_nodes _ _ Hz) as Hn. rewrite list.Forall_forall in Hn. by apply Hn. Qed.

Lemma compare_node z ns x s e : zsl_repr z ns -> x ∈ ns ->
  zslCompareWithNode s e (zsl_mem z) (Some (z_loc x)) = Some (pair_cmp s e (z_score x) (z_ele x)).
Proof.
  intros Hz Hx. destruct (node_of z ns x Hz Hx) as [Hs He _ _ _]. cbn. rewrite Hs. cbn.
  unfold zslGetNodeElement, pair_cmp. rewrite He. by destruct (slt s (z_score x)), (slt (z_score x) s).
Qed.

(** A test that holds on a prefix and not after it tells on which side a node is. *)
Lemma prefix_bool (ns P Q : list znode) (t : znode -> bool) : ns = P ++ Q ->
  Forall (fun x => t x = true) P -> Forall (fun x => t x = false) Q ->
  forall A x B, ns = A ++ x :: B -> t x = bool_decide (zlen A + 1 <= zlen P).
Proof.
  intros HPQ HP HQ A x B HA. rewrite HA in HPQ. apply app_eq_inv in HPQ as [(K & -> & HK)|(K & -> & HK)].
  - rewrite HK in HQ. apply list.Forall_app in HQ as [_ ->%Forall_inv]. rewrite bool_decide_false; [done|].
    rewrite zlen_app. pose proof (zlen_nonneg K). lia.
  - destruct K as [|k K]; cbn in HK.
    + destruct Q as [|q Q]; [done|]. injection HK as <- <-. apply Forall_inv in HQ as ->. rewrite app_nil_r.
      by rewrite bool_decide_false by lia.
    + injection HK as <- HK. apply list.Forall_app in HP as [_ ->%Forall_inv]. rewrite bool_decide_true; [done|].
      rewrite zlen_app, zlen_cons. pose proof (zlen_nonneg K). lia.
Qed.

(** The test of a key splits the list at the key. *)
Lemma before_test z ns P Q s e : zsl_repr z ns -> ns = P ++ Q ->
  Forall (fun x => 0 < pair_cmp s e (z_score x) (z_ele x)) P ->
  Forall (fun x => pair_cmp s e (z_score x) (z_ele x) <= 0) Q ->
  forall A x B, ns = A ++ x :: B ->
  before (zsl_mem z) s e (zlen A + 1) (z_loc x) = Some (bool_decide (zlen A + 1 <= zlen P)).
Proof.
  intros Hz HPQ HP HQ A x B HA. unfold before. rewrite (compare_node z ns) by (try done; rewrite HA; in_list).
  cbn [mbind option_bind]. f_equal.
  apply (prefix_bool ns P Q (fun x => pair_cmp s e (z_score x) (z_ele x) >? 0) HPQ) with (B := B); [..|done].
  - eapply list.Forall_impl; [exact HP|]. intros y Hy. apply Z.gtb_lt. exact Hy.
  - eapply list.Forall_impl; [exact HQ|]. intros y Hy. cbn in *. rewrite Z.gtb_ltb. by apply Z.ltb_ge.
Qed.
End Rep.
