(* ===== verification/SkiplistUpd.v ===== *)
(** * Sorted sets: insertion and deletion refine sorted lists *)

From Stdlib Require Import Sorting.Sorted.
From stdpp Require Import base list sorting numbers option tactics gmap.
From S2P Require Import Prelude Order Skiplist SkiplistRep.

Section Upd.
Context {T : Type} `{ScoreOrder T}.

Abbreviation zskiplist := (zskiplist (T := T)).
Abbreviation mem := (zskiplistNodes (T := T)).
Abbreviation znode := (znode (T := T)).
Implicit Types m : mem.

(** ** Stores *)

Lemma store_ok {K A} `{Countable K} (f : gmap K A) k a : is_Some (f !! k) -> store f k a = Some (<[k := a]> f).
Proof. intros [b Hb]. unfold store. by rewrite Hb. Qed.

(** Only links and spans change. *)
Record same_data m m' : Prop := {
  sd_score : m_score m' = m_score m;
  sd_ele : m_ele m' = m_ele m;
  sd_levels : m_levels m' = m_levels m;
  sd_back : m_back m' = m_back m }.

Lemma same_data_trans m1 m2 m3 : same_data m1 m2 -> same_data m2 m3 -> same_data m1 m3.
Proof. intros [] []. split; congruence. Qed.

Lemma set_span_ok m x l s : ((0 < l)%nat -> is_Some (m_span m !! (x, l))) ->
  exists m', zslSetNodeSpanAtLevel m x l s = Some m' /\ same_data m m' /\ m_fwd m' = m_fwd m /\
    m_span m' = if decide (0 < l)%nat then <[(x, l) := s]> (m_span m) else m_span m.
Proof.
  intros Hs. unfold zslSetNodeSpanAtLevel, set_span. destruct (Nat.ltb_spec 0 l) as [Hl|Hl].
  - rewrite store_ok by auto. eexists. split; [done|]. rewrite decide_True by done. by split_and!.
  - exists m. rewrite decide_False by lia. by split_and!.
Qed.

Lemma incr_span_ok m x l s k : ((0 < l)%nat -> m_span m !! (x, l) = Some s) ->
  exists m', zslIncrNodeSpanAtLevel m x l k = Some m' /\ same_data m m' /\ m_fwd m' = m_fwd m /\
    m_span m' = if decide (0 < l)%nat then <[(x, l) := u64 (s + k)]> (m_span m) else m_span m.
Proof.
  intros Hs. unfold zslIncrNodeSpanAtLevel, set_span. destruct (Nat.ltb_spec 0 l) as [Hl|Hl].
  - rewrite Hs by done. cbn. rewrite store_ok by (rewrite Hs by done; done). eexists. split; [done|].
    rewrite decide_True by done. by split_and!.
  - exists m. rewrite decide_False by lia. by split_and!.
Qed.

Lemma decr_span_ok m x l s k : ((0 < l)%nat -> m_span m !! (x, l) = Some s) ->
  exists m', zslDecrNodeSpanAtLevel m x l k = Some m' /\ same_data m m' /\ m_fwd m' = m_fwd m /\
    m_span m' = if decide (0 < l)%nat then <[(x, l) := u64 (s - k)]> (m_span m) else m_span m.
Proof.
  intros Hs. unfold zslDecrNodeSpanAtLevel, set_span. destruct (Nat.ltb_spec 0 l) as [Hl|Hl].
  - rewrite Hs by done. cbn. rewrite store_ok by (rewrite Hs by done; done). eexists. split; [done|].
    rewrite decide_True by done. by split_and!.
  - exists m. rewrite decide_False by lia. by split_and!.
Qed.

(** A loop over levels that changes one level per turn: [step m l m'] changes
    level [l] only, as [F] and [G] say. *)
Definition level_effect m m' (lo hi : nat) (F : positive -> nat -> option (option positive))
    (G : positive -> nat -> option Z) : Prop :=
  same_data m m' /\
  (forall x l, m_fwd m' !! (x, l) = if decide (lo <= l < hi)%nat then F x l else m_fwd m !! (x, l)) /\
  (forall x l, m_span m' !! (x, l) = if decide (lo <= l < hi /\ 0 < l)%nat then G x l else m_span m !! (x, l)).

Lemma level_effect_nil m lo F G : level_effect m m lo lo F G.
Proof. split_and!; [by split|..]; intros x l; by rewrite decide_False by lia. Qed.

Lemma level_effect_cons m m1 m2 lo hi F G : (lo < hi)%nat ->
  level_effect m m1 lo (S lo) F G -> level_effect m1 m2 (S lo) hi F G -> level_effect m m2 lo hi F G.
Proof.
  intros Hlt (D1 & F1 & G1) (D2 & F2 & G2). split_and!; [by eapply same_data_trans|..]; intros x l.
  - rewrite F2, F1. repeat case_decide; try done; lia.
  - rewrite G2, G1. repeat case_decide; try done; lia.
Qed.

(** ** The loops of insertion *)

Section Loops.
Context (node : positive) (update : list (positive * Z)) (u : nat -> positive) (r : nat -> Z).
Context (f : nat -> option positive) (sp : nat -> Z).

Definition link_fwd m (x : positive) (l : nat) : option (option positive) :=
  if decide (x = node) then Some (f l) else if decide (x = u l) then Some (Some node) else m_fwd m !! (x, l).
Definition link_span m (rank0 : Z) (x : positive) (l : nat) : option Z :=
  if decide (x = node) then Some (u64 (sp l - u64 (rank0 - r l)))
  else if decide (x = u l) then Some (u64 (u64 (rank0 - r l) + 1)) else m_span m !! (x, l).

Lemma link_loop_ok rank0 m0 n : forall m i,
  (forall x l, (i <= l < i + n)%nat -> m_fwd m !! (x, l) = m_fwd m0 !! (x, l)) ->
  (forall x l, (i <= l < i + n)%nat -> m_span m !! (x, l) = m_span m0 !! (x, l)) ->
  (forall l, (i <= l < i + n)%nat -> update !! l = Some (u l, r l) /\ u l <> node /\
     m_fwd m0 !! (u l, l) = Some (f l) /\ is_Some (m_fwd m0 !! (node, l)) /\
     ((0 < l)%nat -> m_span m0 !! (u l, l) = Some (sp l) /\ is_Some (m_span m0 !! (node, l)))) ->
  exists m', link_loop m node update rank0 i n = Some m' /\
    level_effect m m' i (i + n) (link_fwd m0) (link_span m0 rank0).
Proof.
  induction n as [|n IH]; intros m i Hf Hs Hall; cbn [link_loop].
  { exists m. rewrite Nat.add_0_r. split; [done|apply level_effect_nil]. }
  destruct (Hall i) as (-> & Hne & Hfu & Hfn & Hsi); [lia|]. cbn [mbind option_bind].
  rewrite (Hf (u i) i), Hfu by lia. cbn [mbind option_bind].
  unfold set_fwd. rewrite store_ok by (by rewrite Hf by lia). cbn [mbind option_bind].
  rewrite store_ok by (cbn; rewrite lookup_insert_ne by congruence; rewrite Hf by lia; by eexists).
  cbn [mbind option_bind with_fwd m_fwd m_span].
  set (m1 := with_fwd _ _).
  assert (Hsu : exists su, zslGetNodeSpanAtLevel m1 (u i) i = Some su /\ ((0 < i)%nat -> su = sp i)).
  { unfold zslGetNodeSpanAtLevel. destruct (Nat.ltb_spec 0 i) as [Hi|Hi].
    - exists (sp i). cbn. rewrite Hs by lia. split; [by apply Hsi|done].
    - assert (i = 0%nat) as -> by lia. unfold m1. cbn. rewrite lookup_insert_eq. eexists. split; [done|lia]. }
  destruct Hsu as (su & -> & Hsu). cbn [mbind option_bind].
  destruct (set_span_ok m1 node i (u64 (su - u64 (rank0 - r i)))) as (m2 & -> & D2 & F2 & G2).
  { intros Hi. cbn. rewrite Hs by lia. by apply Hsi. }
  cbn [mbind option_bind].
  destruct (set_span_ok m2 (u i) i (u64 (u64 (rank0 - r i) + 1))) as (m3 & -> & D3 & F3 & G3).
  { intros Hi. rewrite G2, decide_True by done. rewrite lookup_insert_ne by congruence. cbn. rewrite Hs by lia.
    eexists. by apply Hsi. }
  cbn [mbind option_bind].
  assert (He : level_effect m m3 i (S i) (link_fwd m0) (link_span m0 rank0)).
  { split_and!.
    - assert (D1 : same_data m m1) by (by split). eapply same_data_trans, same_data_trans; eassumption.
    - intros x l. rewrite F3, F2. cbn. unfold link_fwd. destruct (decide (i <= l < S i)%nat).
      + replace l with i by lia. destruct (decide (x = u i)) as [->|Hx].
        * rewrite lookup_insert_eq, decide_False by done. done.
        * rewrite lookup_insert_ne by congruence. destruct (decide (x = node)) as [->|Hx'].
          -- by rewrite lookup_insert_eq.
          -- rewrite lookup_insert_ne by congruence. apply Hf. lia.
      + rewrite !lookup_insert_ne by (intros [=]; lia). done.
    - intros x l. rewrite G3, G2. cbn. unfold link_span. destruct (decide (0 < i)%nat) as [Hi|Hi].
      + destruct (decide (i <= l < S i /\ 0 < l)%nat).
        * replace l with i by lia. destruct (decide (x = u i)) as [->|Hx].
          -- rewrite lookup_insert_eq, decide_False by done. done.
          -- rewrite lookup_insert_ne by congruence. destruct (decide (x = node)) as [->|Hx'].
             ++ rewrite lookup_insert_eq. by rewrite Hsu.
             ++ rewrite lookup_insert_ne by congruence. apply Hs. lia.
        * rewrite !lookup_insert_ne by (intros [=]; lia). done.
      + by rewrite decide_False by lia. }
  destruct (IH m3 (S i)) as (m' & -> & He').
  { intros x l Hl. destruct He as (_ & -> & _). rewrite decide_False by lia. apply Hf. lia. }
  { intros x l Hl. destruct He as (_ & _ & ->). rewrite decide_False by lia. apply Hs. lia. }
  { intros l Hl. apply Hall. lia. }
  exists m'. split; [done|]. rewrite <- Nat.add_succ_comm. by eapply level_effect_cons; [lia|..].
Qed.

Definition incr_fwd m (x : positive) (l : nat) : option (option positive) := m_fwd m !! (x, l).
Definition incr_span m (x : positive) (l : nat) : option Z :=
  if decide (x = u l) then Some (u64 (sp l + 1)) else m_span m !! (x, l).

Lemma incr_loop_ok m0 n : forall m i,
  (forall x l, (i <= l < i + n)%nat -> m_fwd m !! (x, l) = m_fwd m0 !! (x, l)) ->
  (forall x l, (i <= l < i + n)%nat -> m_span m !! (x, l) = m_span m0 !! (x, l)) ->
  (forall l, (i <= l < i + n)%nat -> update !! l = Some (u l, r l) /\
     ((0 < l)%nat -> m_span m0 !! (u l, l) = Some (sp l))) ->
  exists m', incr_loop m update i n = Some m' /\ level_effect m m' i (i + n) (incr_fwd m0) (incr_span m0).
Proof.
  induction n as [|n IH]; intros m i Hf Hs Hall; cbn [incr_loop].
  { exists m. rewrite Nat.add_0_r. split; [done|apply level_effect_nil]. }
  destruct (Hall i) as (-> & Hsi); [lia|]. cbn [mbind option_bind].
  destruct (incr_span_ok m (u i) i (sp i) 1) as (m1 & -> & D1 & F1 & G1).
  { intros Hi. rewrite Hs by lia. by apply Hsi. }
  cbn [mbind option_bind].
  assert (He : level_effect m m1 i (S i) (incr_fwd m0) (incr_span m0)).
  { split_and!; [done|..]; intros x l.
    - rewrite F1. unfold incr_fwd. destruct (decide (i <= l < S i)%nat); [|done]. apply Hf. lia.
    - rewrite G1. unfold incr_span. destruct (decide (0 < i)%nat).
      + destruct (decide (i <= l < S i /\ 0 < l)%nat).
        * replace l with i by lia. destruct (decide (x = u i)) as [->|?]; [by rewrite lookup_insert_eq|].
          rewrite lookup_insert_ne by congruence. apply Hs. lia.
        * by rewrite lookup_insert_ne by (intros [=]; lia).
      + by rewrite decide_False by lia. }
  destruct (IH m1 (S i)) as (m' & -> & He').
  { intros x l Hl. destruct He as (_ & -> & _). rewrite decide_False by lia. apply Hf. lia. }
  { intros x l Hl. destruct He as (_ & _ & ->). rewrite decide_False by lia. apply Hs. lia. }
  { intros l Hl. apply Hall. lia. }
  exists m'. split; [done|]. rewrite <- Nat.add_succ_comm. by eapply level_effect_cons; [lia|..].
Qed.
End Loops.

(** ** The links after an insertion *)

Lemma has_level_lt L l (A B : list znode) : Forall (fun x => (z_h x <= L)%nat) (A ++ B) -> has_level L l A -> (l < L)%nat.
Proof.
  intros Hm Hh. unfold has_level in Hh. destruct (last A) as [x|] eqn:E; [|done].
  apply last_Some_elem_of in E. rewrite list.Forall_forall in Hm.
  specialize (Hm x ltac:(apply elem_of_app; by left)). lia.
Qed.

Lemma has_level_tall L l (A : list znode) : has_level L l A -> tall l A.
Proof. unfold has_level, tall. by destruct (last A). Qed.

Lemma predl_has_level L l (P : list znode) : (l < L)%nat -> has_level L l (predl l P).
Proof.
  intros Hl. destruct (predl_spec l P) as (C & _ & _ & Ht). unfold tall in Ht. unfold has_level.
  by destruct (last (predl l P)).
Qed.

Lemma predl_0 (P : list znode) : Forall (fun x => (1 <= z_h x)%nat) P -> predl 0 P = P.
Proof.
  intros HP. eapply predl_unique; [by rewrite app_nil_r|by constructor|]. unfold tall.
  destruct (last P) as [x|] eqn:E; [|done]. apply last_Some_elem_of in E.
  rewrite list.Forall_forall in HP. by apply HP.
Qed.

Lemma cur_in header (A B : list znode) : cur header A ∈ header :: map z_loc (A ++ B).
Proof.
  unfold cur. destruct (last A) as [x|] eqn:E; [|by left]. right.
  apply last_Some_elem_of in E. rewrite map_app. apply elem_of_app. left. by apply list_elem_of_fmap_2.
Qed.

Lemma cur_app_ne header (A K : list znode) : K <> [] -> cur header (A ++ K) = cur header K.
Proof. intros HK. unfold cur. by rewrite last_app_ne. Qed.

Lemma has_level_app_ne L l (A K : list znode) : K <> [] -> has_level L l (A ++ K) = has_level L l K.
Proof. intros HK. unfold has_level. by rewrite last_app_ne. Qed.

(** What is stored at the predecessors of a position. *)
Lemma pred_links header L m (P Q : list znode) l : links header L m (P ++ Q) -> (l < L)%nat ->
  m_fwd m !! (cur header (predl l P), l) = Some (findh l Q).2 /\
  ((0 < l)%nat -> m_span m !! (cur header (predl l P), l) = Some (zlen P - zlen (predl l P) + (findh l Q).1)).
Proof.
  intros Hl HL. destruct (predl_spec l P) as (C & HP & HC & _).
  destruct (Hl (predl l P) (C ++ Q) l) as [-> Hs]; [by rewrite app_assoc, <- HP|by apply predl_has_level|].
  rewrite findh_low in * by done. cbn [fst snd] in *. split; [done|]. intros H0l. rewrite Hs by done. f_equal.
  pose proof (f_equal zlen HP) as Hz. rewrite zlen_app in Hz. lia.
Qed.

Lemma predl_length l (P : list znode) : 0 <= zlen (predl l P) <= zlen P.
Proof. destruct (predl_spec l P) as (C & HP & _). pose proof (f_equal zlen HP) as Hz.
  rewrite zlen_app in Hz. unfold zlen in *. lia.
Qed.

Section Insert.
Context (header : positive) (L : nat) (P Q : list znode) (N : znode).
Context (HL : Forall (fun x => (1 <= z_h x <= L)%nat) (P ++ Q)) (HN : (1 <= z_h N <= L)%nat).
Context (Hnd : NoDup (header :: map z_loc (P ++ Q))) (Hfresh : z_loc N ∉ header :: map z_loc (P ++ Q)).
Context (Hbound : zlen (P ++ Q) < 2 ^ 63).

Abbreviation u := (fun l => cur header (predl l P)).
Abbreviation r := (fun l => zlen (predl l P)).
Abbreviation f := (fun l => (findh l Q).2).
Abbreviation sp := (fun l => zlen P - zlen (predl l P) + (findh l Q).1).

Lemma u_not_new l : cur header (predl l P) <> z_loc N.
Proof.
  intros Heq. apply Hfresh. rewrite <- Heq. destruct (predl_spec l P) as (C & HP & _).
  rewrite HP at 2. rewrite <- app_assoc. apply cur_in.
Qed.

Lemma span_bounds l : 0 <= zlen P - zlen (predl l P) <= zlen P /\ 0 <= (findh l Q).1 /\
  zlen P - zlen (predl l P) + (findh l Q).1 < 2 ^ 63.
Proof.
  pose proof (predl_length l P). pose proof (findh_range l Q). rewrite zlen_app in Hbound. lia.
Qed.

(** Prefixes that are not the predecessor keep their links. *)
Lemma insert_links m m' :
  links header L m (P ++ Q) ->
  (forall x l, (l < L)%nat -> m_fwd m' !! (x, l) =
     if decide (l < z_h N)%nat then link_fwd (z_loc N) u f m x l else m_fwd m !! (x, l)) ->
  (forall x l, (0 < l < L)%nat -> m_span m' !! (x, l) =
     if decide (l < z_h N)%nat then link_span (z_loc N) u r sp m (zlen P) x l else incr_span u sp m x l) ->
  links header L m' (P ++ N :: Q).
Proof.
  intros Hl HF HG A B l Heq Hh.
  assert (Hhs : Forall (fun x => (z_h x <= L)%nat) (A ++ B)).
  { rewrite <- Heq. eapply list.Forall_impl in HL; [|intros x Hx; exact (proj2 Hx)].
    apply list.Forall_app in HL as [? ?]. apply list.Forall_app. split; [done|]. constructor; [lia|done]. }
  pose proof (has_level_lt L l A B Hhs Hh) as HlL. rewrite (HF _ l HlL).
  assert (HGl : (0 < l)%nat -> m_span m' !! (cur header A, l) =
     if decide (l < z_h N)%nat then link_span (z_loc N) u r sp m (zlen P) (cur header A) l
     else incr_span u sp m (cur header A) l) by (intros; apply HG; lia). clear HF HG.
  pose proof (span_bounds l) as Hsb. pose proof (predl_length l P) as Hpl.
  assert (Hsame : forall A0 B0, P ++ Q = A0 ++ B0 -> cur header A0 = cur header A -> has_level L l A0 ->
    A0 <> predl l P -> findh l B0 = findh l B ->
    (if decide (l < z_h N)%nat then link_fwd (z_loc N) u f m (cur header A) l else m_fwd m !! (cur header A, l))
      = Some (findh l B).2 /\
    ((0 < l)%nat -> m_span m' !! (cur header A, l) = Some (findh l B).1)).
  { intros A0 B0 Heq0 Hc Hh0 Hne Hfb. destruct (Hl A0 B0 l Heq0 Hh0) as [Hf Hs]. rewrite Hc, Hfb in Hf, Hs.
    assert (Hu : cur header A <> cur header (predl l P)).
    { intros Hcu. apply Hne. destruct (predl_spec l P) as (C & HP & _).
      eapply (cur_inj header A0 B0 (predl l P) (C ++ Q)); [by rewrite <- Heq0| |congruence].
      by rewrite <- Heq0, app_assoc, <- HP. }
    assert (Hx : cur header A <> z_loc N).
    { intros Hcu. apply Hfresh. rewrite <- Hcu, <- Hc, Heq0. apply cur_in. }
    split.
    - rewrite <- Hf. destruct (decide _); [|done]. unfold link_fwd. by rewrite !decide_False.
    - intros H0l. rewrite HGl by done. rewrite <- (Hs H0l). unfold link_span, incr_span.
      destruct (decide (l < z_h N)%nat); by rewrite !decide_False. }
  assert (Hprefix : forall K, P = A ++ K -> B = K ++ N :: Q ->
    (if decide (l < z_h N)%nat then link_fwd (z_loc N) u f m (cur header A) l else m_fwd m !! (cur header A, l))
      = Some (findh l B).2 /\
    ((0 < l)%nat -> m_span m' !! (cur header A, l) = Some (findh l B).1)).
  { intros K HP ->. destruct (split_low l K) as [HK|(K1 & y & K2 & HK & HK1 & Hy)].
    + assert (HA : predl l P = A) by (eapply predl_unique; [done|done|by eapply has_level_tall]).
      assert (HzK : zlen P = zlen A + zlen K) by (rewrite HP, zlen_app; lia).
      destruct (pred_links header L m P Q l Hl HlL) as [Hfo Hso]. rewrite HA in Hfo, Hso.
      assert (Hx : cur header A <> z_loc N) by (rewrite <- HA; apply u_not_new).
      rewrite findh_low by done. rewrite HA in Hsb, Hpl.
      destruct (decide (l < z_h N)%nat) as [HlN|HlN].
      * rewrite findh_high by done. cbn [fst snd]. split.
        -- unfold link_fwd. rewrite decide_False, decide_True by (done || by rewrite HA). done.
        -- intros H0l. rewrite HGl by done. unfold link_span. rewrite decide_False, decide_True by (done || by rewrite HA).
           rewrite HA, !u64_id; [|lia|rewrite u64_id; lia]. f_equal. lia.
      * cbn [findh]. rewrite (proj2 (Nat.ltb_ge _ _)) by lia. cbn [fst snd]. split; [done|].
        intros H0l. rewrite HGl by done. unfold incr_span. rewrite decide_True by (by rewrite HA).
        rewrite HA, u64_id by lia. f_equal. lia.
    + apply (Hsame A (K ++ Q)); [by rewrite HP, <- app_assoc|done|done| |].
      * intros HA. destruct (predl_spec l P) as (C & HP' & HC & _). rewrite <- HA in HP'. rewrite HP' in HP.
        apply app_inv_head in HP. subst C. rewrite HK in HC. apply list.Forall_app in HC as [_ HC%Forall_inv].
        unfold low in HC. lia.
      * rewrite HK, <- !app_assoc. cbn [app]. by apply findh_prefix. }
  apply app_eq_inv in Heq as [(K & HP & HB)|(K & -> & HK)]; [by apply (Hprefix K)|].
  destruct K as [|k K]; cbn in HK; [by apply (Hprefix []); rewrite ?app_nil_r|].
  injection HK as <- HQ. destruct K as [|k' K].
    + cbn [app] in HQ. subst B. clear Hsame Hprefix.
      assert (Hc : cur header (P ++ [N]) = z_loc N) by (unfold cur; by rewrite last_snoc). rewrite Hc in *.
      unfold has_level in Hh. rewrite last_snoc in Hh. rewrite decide_True by done.
      unfold link_fwd. rewrite decide_True by done. split; [done|]. intros H0l. rewrite HGl by done.
      rewrite decide_True by done. unfold link_span. rewrite decide_True by done.
      rewrite (u64_id (zlen P - zlen (predl l P))) by lia. rewrite u64_id by lia. f_equal. lia.
    + apply (Hsame (P ++ k' :: K) B).
      * by rewrite HQ, <- app_assoc.
      * rewrite !cur_app_ne by done. symmetry. by apply (cur_app_ne header [N]).
      * rewrite has_level_app_ne in Hh |- * by done. change (N :: k' :: K) with ([N] ++ k' :: K) in Hh.
        by rewrite has_level_app_ne in Hh.
      * intros HA. pose proof (predl_length l P) as Hp. rewrite <- HA, zlen_app in Hp. unfold zlen in Hp. cbn in Hp. lia.
      * done.
Qed.
End Insert.

(** ** Back pointers *)

Definition backs m (ns : list znode) : Prop :=
  forall A x B, ns = A ++ x :: B -> m_back m !! z_loc x = Some (z_loc <$> last A).

(** Splitting a list with an element in the middle. *)
Lemma split_middle {A} (P Q A0 B0 : list A) N x : P ++ N :: Q = A0 ++ x :: B0 ->
  (exists K, P = A0 ++ x :: K /\ B0 = K ++ N :: Q) \/ (A0 = P /\ x = N /\ B0 = Q) \/
  (exists K, A0 = P ++ N :: K /\ Q = K ++ x :: B0).
Proof.
  intros [(K & -> & HK)|(K & -> & HK)]%app_eq_inv.
  - destruct K as [|k K]; cbn in HK; injection HK as -> ->.
    + right; left. by rewrite app_nil_r.
    + left. by exists K.
  - destruct K as [|k K]; cbn in HK; injection HK as -> ->.
    + right; left. by rewrite app_nil_r.
    + right; right. by exists K.
Qed.

Lemma loc_ne (P Q : list znode) x y : NoDup (map z_loc (P ++ Q)) -> x ∈ P -> y ∈ Q -> z_loc x <> z_loc y.
Proof.
  intros Hnd Hx Hy Heq. rewrite map_app in Hnd. apply NoDup_app in Hnd as (_ & Hnd & _).
  apply (Hnd (z_loc x)); [by apply list_elem_of_fmap_2|]. rewrite Heq. by apply list_elem_of_fmap_2.
Qed.

Lemma backs_insert m m' (P Q : list znode) N :
  backs m (P ++ Q) -> NoDup (map z_loc (P ++ Q)) -> z_loc N ∉ map z_loc (P ++ Q) ->
  m_back m' !! z_loc N = Some (z_loc <$> last P) ->
  (forall q, head Q = Some q -> m_back m' !! z_loc q = Some (Some (z_loc N))) ->
  (forall x, x ∈ P ++ Q -> head Q <> Some x -> m_back m' !! z_loc x = m_back m !! z_loc x) ->
  backs m' (P ++ N :: Q).
Proof.
  intros Hb Hnd Hf HN Hq Hx A x B [(K & -> & ->)|[(-> & -> & ->)|(K & -> & ->)]]%split_middle.
  - rewrite Hx; [|set_solver|].
    + apply (Hb A x (K ++ Q)). by rewrite <- app_assoc.
    + destruct Q as [|q Q]; [done|]. intros [= ->]. by apply (loc_ne _ _ x x Hnd); set_solver.
  - done.
  - destruct K as [|k K]; cbn [app] in *.
    + rewrite last_app. cbn. by apply Hq.
    + rewrite Hx; [|set_solver|].
      * rewrite (Hb (P ++ k :: K) x B) by (by rewrite <- app_assoc).
        do 2 f_equal. by rewrite !last_app.
      * intros [= ->]. rewrite app_comm_cons, app_assoc in Hnd.
        by apply (loc_ne (P ++ x :: K) (x :: B) x x Hnd); set_solver.
Qed.

Lemma backs_delete m m' (P Q : list znode) X :
  backs m (P ++ X :: Q) -> NoDup (map z_loc (P ++ X :: Q)) ->
  (forall q, head Q = Some q -> m_back m' !! z_loc q = Some (z_loc <$> last P)) ->
  (forall x, x ∈ P ++ Q -> head Q <> Some x -> m_back m' !! z_loc x = m_back m !! z_loc x) ->
  backs m' (P ++ Q).
Proof.
  intros Hb Hnd Hq Hx A x B [(K & -> & HK)|(K & -> & HK)]%app_eq_inv.
  - destruct K as [|k K]; cbn in HK.
    + destruct Q as [|q Q]; [done|]. injection HK as -> ->. rewrite app_nil_r in *. by apply Hq.
    + injection HK as <- ->. rewrite Hx; [|set_solver|].
      * apply (Hb A x (K ++ X :: Q)). by rewrite <- app_assoc.
      * destruct Q as [|q Q]; [done|]. intros [= ->]. by apply (loc_ne _ _ x x Hnd); set_solver.
  - destruct K as [|k K]; cbn [app] in *.
    + rewrite app_nil_r. rewrite HK in *. by apply Hq.
    + rewrite HK in *. rewrite Hx; [|set_solver|].
      * rewrite (Hb (P ++ X :: k :: K) x B) by (by rewrite <- app_assoc). do 2 f_equal. by rewrite !last_app.
      * intros [= ->]. rewrite !app_comm_cons, app_assoc in Hnd. by apply (loc_ne (P ++ X :: x :: K) (x :: B) x x Hnd); set_solver.
Qed.

(** ** Growing the header *)

Lemma grow_loop_ok header len n : forall m i,
  (forall l, (i <= l < i + n)%nat -> (0 < l)%nat /\ is_Some (m_span m !! (header, l))) ->
  exists m', grow_loop m header len i n = Some m' /\ same_data m m' /\ m_fwd m' = m_fwd m /\
    forall x l, m_span m' !! (x, l) = if decide (x = header /\ i <= l < i + n)%nat then Some len else m_span m !! (x, l).
Proof.
  induction n as [|n IH]; intros m i Hs; cbn [grow_loop].
  { exists m. split_and!; [done|by split|done|]. intros x l. by rewrite decide_False by lia. }
  destruct (Hs i) as [Hi0 Hi]; [lia|].
  destruct (set_span_ok m header i len) as (m1 & -> & D1 & F1 & G1); [done|]. cbn [mbind option_bind].
  rewrite decide_True in G1 by done.
  destruct (IH m1 (S i)) as (m' & -> & D & F & G).
  { intros l Hl. split; [lia|]. rewrite G1, lookup_insert_ne by (intros [=]; lia). apply Hs. lia. }
  exists m'. split_and!; [done|by eapply same_data_trans|congruence|]. intros x l. rewrite G, G1.
  destruct (decide (x = header)) as [->|Hx].
  - destruct (decide (l = i)) as [->|Hl].
    + rewrite lookup_insert_eq. destruct (decide _), (decide _); try done; lia.
    + rewrite lookup_insert_ne by congruence. destruct (decide _), (decide _); try done; lia.
  - rewrite lookup_insert_ne by congruence. rewrite !decide_False by (by intros [? _]). done.
Qed.

(** The header grown to the level of a node: as if it had always had the level. *)
Lemma grow_ok z (P Q : list znode) update hN : zsl_repr z (P ++ Q) -> (1 <= hN <= ZSKIPLIST_MAXLEVEL)%nat ->
  length update = zsl_level z ->
  (forall l, (l < zsl_level z)%nat -> update !! l = Some (upd_at (zsl_header z) P l)) ->
  let L := Nat.max (zsl_level z) hN in
  exists m update',
    (if (zsl_level z <? hN)%nat then
       (m ← grow_loop (zsl_mem z) (zsl_header z) (zsl_length z) (zsl_level z) (hN - zsl_level z);
        m ← set_levels m (zsl_header z) hN;
        Some (m, update ++ replicate (hN - zsl_level z) (zsl_header z, 0), hN))
     else Some (zsl_mem z, update, zsl_level z)) = Some (m, update', L) /\
    links (zsl_header z) L m (P ++ Q) /\
    (forall l, (l < L)%nat -> update' !! l = Some (upd_at (zsl_header z) P l)) /\
    m_score m = m_score (zsl_mem z) /\ m_ele m = m_ele (zsl_mem z) /\ m_back m = m_back (zsl_mem z) /\
    m_fwd m = m_fwd (zsl_mem z) /\
    (forall x, x <> zsl_header z -> m_levels m !! x = m_levels (zsl_mem z) !! x) /\
    is_Some (m_levels m !! zsl_header z) /\
    (forall x l, x <> zsl_header z \/ (L <= l)%nat -> m_span m !! (x, l) = m_span (zsl_mem z) !! (x, l)).
Proof.
  intros Hz HhN Hlen Hup L. pose proof (zr_level _ _ Hz) as HzL.
  destruct (Nat.ltb_spec (zsl_level z) hN) as [Hlt|Hge].
  2:{ exists (zsl_mem z), update. unfold L. rewrite Nat.max_l by done. split_and!; try done; apply Hz. }
  unfold L. rewrite Nat.max_r by lia.
  destruct (grow_loop_ok (zsl_header z) (zsl_length z) (hN - zsl_level z) (zsl_mem z) (zsl_level z)) as (m1 & -> & D & F & G).
  { intros l Hl. split; [lia|]. destruct (zr_above _ _ Hz l) as [_ ->]; [lia|by eexists]. }
  cbn [mbind option_bind]. unfold set_levels. rewrite store_ok by (rewrite (sd_levels _ _ D); apply Hz).
  cbn [mbind option_bind]. eexists _, _. split; [done|]. cbn [with_levels m_score m_ele m_levels m_back m_fwd m_span].
  assert (Hlow : forall l, (zsl_level z <= l)%nat -> forall K C, P ++ Q = K ++ C -> Forall (low l) C).
  { intros l Hl K C Heq. pose proof (zr_max _ _ Hz) as Hm. rewrite Heq in Hm. apply list.Forall_app in Hm as [_ Hm].
    eapply list.Forall_impl; [exact Hm|]. unfold low. intros x Hx. cbn in Hx. lia. }
  split_and!.
  - intros A B l Heq Hh. destruct (last A) as [x|] eqn:E.
    + assert (Hh' : has_level (zsl_level z) l A) by (unfold has_level in *; by rewrite E in *).
      destruct (zr_links _ _ Hz A B l Heq Hh') as [Hf Hs]. cbn. rewrite F. split; [done|].
      intros H0l. rewrite G, decide_False; [by apply Hs|]. intros [Hc _].
      assert (A = []) as ->; [|done]. eapply (cur_inj (zsl_header z) A B [] (P ++ Q)); [|done|done].
      rewrite <- Heq. apply (zr_locs _ _ Hz).
    + apply last_None in E as ->. cbn in Heq. subst B. unfold has_level in Hh. cbn in Hh. cbn. rewrite F.
      destruct (Nat.lt_ge_cases l (zsl_level z)) as [Hl|Hl].
      * destruct (zr_links _ _ Hz [] (P ++ Q) l eq_refl Hl) as [Hf Hs]. split; [done|].
        intros H0l. rewrite G, decide_False by lia. by apply Hs.
      * rewrite (findh_all_low l) by (by apply (Hlow l Hl [])). cbn [fst snd].
        destruct (zr_above _ _ Hz l) as [Hf _]; [lia|]. split; [done|]. intros _.
        rewrite G, decide_True by (split; [done|lia]). f_equal. apply (zr_length _ _ Hz).
  - intros l Hl. destruct (Nat.lt_ge_cases l (zsl_level z)) as [Hl'|Hl'].
    + rewrite lookup_app_l by lia. by apply Hup.
    + rewrite lookup_app_r by lia. rewrite lookup_replicate_2 by lia. f_equal. unfold upd_at.
      assert (predl l P = []) as ->; [|done].
      eapply (predl_unique l P [] P); [done| |done].
      pose proof (Hlow l Hl' [] (P ++ Q) eq_refl) as Hpq. by apply list.Forall_app in Hpq as [? _].
  - apply D.
  - apply D.
  - apply D.
  - done.
  - intros x Hx. rewrite lookup_insert_ne by done. by rewrite (sd_levels _ _ D).
  - rewrite lookup_insert_eq. by eexists.
  - intros x l Hx. rewrite G, decide_False; [done|]. intros [-> ?]. destruct Hx; [done|lia].
Qed.

(** The two loops of [zslInsertNode]. *)
Lemma link_all header L m (P Q : list znode) N update :
  Forall (fun x => (1 <= z_h x <= L)%nat) (P ++ Q) -> (1 <= z_h N <= L)%nat ->
  NoDup (header :: map z_loc (P ++ Q)) -> z_loc N ∉ header :: map z_loc (P ++ Q) -> zlen (P ++ Q) < 2 ^ 63 ->
  links header L m (P ++ Q) ->
  (forall l, (l < L)%nat -> update !! l = Some (upd_at header P l)) ->
  (forall l, (l < z_h N)%nat -> is_Some (m_fwd m !! (z_loc N, l)) /\
     ((0 < l)%nat -> is_Some (m_span m !! (z_loc N, l)))) ->
  exists m1 m', link_loop m (z_loc N) update (zlen P) 0 (z_h N) = Some m1 /\
    incr_loop m1 update (z_h N) (L - z_h N) = Some m' /\ same_data m m' /\ links header L m' (P ++ N :: Q) /\
    forall x l, (L <= l)%nat -> m_fwd m' !! (x, l) = m_fwd m !! (x, l) /\ m_span m' !! (x, l) = m_span m !! (x, l).
Proof.
  intros HL HN Hnd Hfresh Hbound Hl Hup Halloc.
  destruct (link_loop_ok (z_loc N) update (fun l => cur header (predl l P)) (fun l => zlen (predl l P))
    (fun l => (findh l Q).2) (fun l => zlen P - zlen (predl l P) + (findh l Q).1) (zlen P) m (z_h N) m 0)
    as (m1 & Hm1 & D1 & F1 & G1); [done|done| |].
  { intros l Hlt. destruct (pred_links header L m P Q l Hl ltac:(lia)) as [Hf Hs].
    destruct (Halloc l ltac:(lia)) as [? ?]. split_and!; [apply Hup; lia|by eapply u_not_new|done|done|].
    intros H0l. split; [by apply Hs|by auto]. }
  destruct (incr_loop_ok update (fun l => cur header (predl l P)) (fun l => zlen (predl l P))
    (fun l => zlen P - zlen (predl l P) + (findh l Q).1) m (L - z_h N) m1 (z_h N)) as (m2 & Hm2 & D2 & F2 & G2).
  { intros x l Hlt. rewrite F1. by rewrite decide_False by lia. }
  { intros x l Hlt. rewrite G1. by rewrite decide_False by lia. }
  { intros l Hlt. split; [apply Hup; lia|]. intros H0l. apply pred_links with (L := L); [done|lia|done]. }
  exists m1, m2. split_and!; [done|done|by eapply same_data_trans| |].
  - eapply insert_links; try done.
    + intros x l HlL. rewrite F2. destruct (decide (l < z_h N)%nat) as [Hlt|Hge].
      * rewrite decide_False by lia. rewrite F1. by rewrite decide_True by lia.
      * rewrite decide_True by lia. done.
    + intros x l HlL. rewrite G2. destruct (decide (l < z_h N)%nat) as [Hlt|Hge].
      * rewrite decide_False by lia. rewrite G1. by rewrite decide_True by lia.
      * rewrite decide_True by lia. done.
  - intros x l HlL. rewrite F2, F1, G2, G1. rewrite !decide_False by lia. done.
Qed.

Lemma sorted_insert (P Q : list znode) N :
  StronglySorted node_lt (P ++ Q) -> Forall (fun x => node_lt x N) P -> Forall (node_lt N) Q ->
  StronglySorted node_lt (P ++ N :: Q).
Proof.
  rewrite !list.Forall_forall. intros (Hpq & HP & HQ)%StronglySorted_app HPN HNQ.
  apply StronglySorted_app. split_and!; [|done|].
  - intros x y Hx [->|Hy]%elem_of_cons; [by apply HPN|by apply Hpq].
  - constructor; [done|]. by apply list.Forall_forall.
Qed.

Lemma nodes_sorted_delete (P Q : list znode) X : StronglySorted node_lt (P ++ X :: Q) -> StronglySorted node_lt (P ++ Q).
Proof.
  intros (Hpq & HP & HQ)%StronglySorted_app. apply StronglySorted_app. inversion HQ; subst.
  split_and!; [|done|done]. intros x y Hx Hy. apply Hpq; [done|by right].
Qed.

Lemma findh_0 (Q : list znode) : Forall (fun x => (1 <= z_h x)%nat) Q -> (findh 0 Q).2 = z_loc <$> head Q.
Proof. intros HQ. destruct HQ as [|x Q Hx HQ]; [done|]. by rewrite findh_high. Qed.

(** The node allocated, but not yet in the list. *)
Record detached m (N : znode) : Prop := {
  dt_node : node_ok m N;
  dt_back : is_Some (m_back m !! z_loc N);
  dt_levels : forall l, (l < z_h N)%nat -> is_Some (m_fwd m !! (z_loc N, l)) /\
    ((0 < l)%nat -> is_Some (m_span m !! (z_loc N, l))) }.

Lemma loc_inj (ns : list znode) x y : NoDup (map z_loc ns) -> x ∈ ns -> y ∈ ns -> z_loc x = z_loc y -> x = y.
Proof.
  intros Hnd Hx Hy Heq. apply list_elem_of_split in Hx as (A & B & ->).
  apply elem_of_app in Hy as [Hy|[->|Hy]%elem_of_cons]; [|done|]; exfalso.
  - by apply (loc_ne A (x :: B) y x Hnd); [|left|].
  - change (x :: B) with ([x] ++ B) in Hnd. rewrite app_assoc in Hnd.
    apply (loc_ne (A ++ [x]) B x y Hnd); [|done|done]. set_solver.
Qed.

Lemma loc_elem (ns : list znode) x : x ∈ ns -> z_loc x ∈ map z_loc ns.
Proof. apply list_elem_of_fmap_2. Qed.

(** The backward pointers after an insertion, and the tail. *)
Lemma insert_back m (P Q : list znode) N tail : backs m (P ++ Q) -> is_Some (m_back m !! z_loc N) ->
  NoDup (map z_loc (P ++ Q)) -> z_loc N ∉ map z_loc (P ++ Q) -> tail = z_loc <$> last (P ++ Q) ->
  exists m1 m2 tail', set_back m (z_loc N) (z_loc <$> last P) = Some m1 /\ m_fwd m1 = m_fwd m /\
    match z_loc <$> head Q with
    | Some y => m ← set_back m1 y (Some (z_loc N)); Some (m, tail)
    | None => Some (m1, Some (z_loc N))
    end = Some (m2, tail') /\
    m_score m2 = m_score m /\ m_ele m2 = m_ele m /\ m_levels m2 = m_levels m /\ m_fwd m2 = m_fwd m /\
    m_span m2 = m_span m /\ backs m2 (P ++ N :: Q) /\ tail' = z_loc <$> last (P ++ N :: Q).
Proof.
  intros Hb HN Hnd Hfr ->. unfold set_back. rewrite store_ok by done. eexists. cbn [mbind option_bind].
  assert (Hlocs : forall x, x ∈ P ++ Q -> z_loc N <> z_loc x).
  { intros x Hx Heq. apply Hfr. rewrite Heq. by apply loc_elem. }
  destruct Q as [|q Q]; cbn [head fmap option_fmap option_map].
  - eexists _, _. split; [done|]. split; [done|]. split; [done|]. split_and!; try done; [|by rewrite last_snoc].
    apply (backs_insert m); try done; cbn; [by rewrite lookup_insert_eq|].
    intros x Hx _. by rewrite lookup_insert_ne by (by apply Hlocs).
  - assert (Hq : q ∈ P ++ q :: Q) by (apply elem_of_app; right; by left).
    rewrite store_ok by (cbn; rewrite lookup_insert_ne by (by apply Hlocs); rewrite (Hb P q Q eq_refl); by eexists).
    cbn [mbind option_bind]. eexists _, _. split; [done|]. split; [done|]. split; [done|].
    split_and!; try done; [|by rewrite !last_app].
    apply (backs_insert m); try done; cbn.
    + rewrite lookup_insert_ne by (apply not_eq_sym; by apply Hlocs). by rewrite lookup_insert_eq.
    + intros q' [= <-]. by rewrite lookup_insert_eq.
    + intros x Hx Hne. rewrite !lookup_insert_ne; [done|by apply Hlocs|].
      intros Heq. apply Hne. f_equal. by eapply loc_inj.
Qed.

(** The invariant after an insertion, from the state of the memory. *)
Lemma zsl_insert_repr z (P Q : list znode) N m tail : zsl_repr z (P ++ Q) -> node_ok (zsl_mem z) N ->
  z_loc N ∉ zsl_header z :: map z_loc (P ++ Q) ->
  Forall (fun x => node_lt x N) P -> Forall (node_lt N) Q -> zlen (P ++ Q) + 1 < 2 ^ 63 ->
  let L := Nat.max (zsl_level z) (z_h N) in
  m_score m = m_score (zsl_mem z) -> m_ele m = m_ele (zsl_mem z) ->
  (forall x, x <> zsl_header z -> m_levels m !! x = m_levels (zsl_mem z) !! x) ->
  is_Some (m_levels m !! zsl_header z) ->
  links (zsl_header z) L m (P ++ N :: Q) ->
  (forall l, (L <= l)%nat -> m_fwd m !! (zsl_header z, l) = m_fwd (zsl_mem z) !! (zsl_header z, l) /\
     m_span m !! (zsl_header z, l) = m_span (zsl_mem z) !! (zsl_header z, l)) ->
  backs m (P ++ N :: Q) -> tail = z_loc <$> last (P ++ N :: Q) ->
  zsl_repr {| zsl_header := zsl_header z; zsl_tail := tail; zsl_length := u64 (zsl_length z + 1);
              zsl_level := L; zsl_mem := m |} (P ++ N :: Q).
Proof.
  intros Hz HN Hfresh HPN HNQ Hb L Es Ee Elv Ehd Hl Hab Hbk Ht. pose proof (no_h _ _ HN) as Hh.
  assert (Hz1 : zlen (P ++ N :: Q) = zlen (P ++ Q) + 1) by (autorewrite with zlen; lia).
  assert (Hperm : P ++ N :: Q ≡ₚ N :: P ++ Q) by (by rewrite Permutation_middle).
  pose proof (zr_locs _ _ Hz) as [Hn1 Hn2]%NoDup_cons. apply not_elem_of_cons in Hfresh as [Hf1 Hf2].
  assert (Hok : forall x, z_loc x <> zsl_header z -> node_ok (zsl_mem z) x -> node_ok m x).
  { intros x Hx []. split; rewrite ?Es, ?Ee, ?Elv; done. }
  split; cbn [zsl_header zsl_tail zsl_length zsl_level zsl_mem]; try done.
  - rewrite Hperm. cbn [map]. apply NoDup_cons. split; [by apply not_elem_of_cons|]. by apply NoDup_cons.
  - rewrite Hperm. constructor; [by apply Hok|]. pose proof (zr_nodes _ _ Hz) as Hns.
    rewrite list.Forall_forall in *. intros x Hx. apply Hok; [|by apply Hns].
    intros Heq. apply Hn1. rewrite <- Heq. by apply loc_elem.
  - unfold L. pose proof (zr_level _ _ Hz). lia.
  - rewrite Hperm. constructor; [lia|]. eapply list.Forall_impl; [apply (zr_max _ _ Hz)|]. intros x Hx. cbn in Hx. lia.
  - unfold L. destruct (Nat.max_spec (zsl_level z) (z_h N)) as [[Hlt ->]|[Hle ->]].
    + right. rewrite Hperm. by left.
    + destruct (zr_top _ _ Hz) as [?|Hex]; [by left|right]. rewrite Hperm. by right.
  - rewrite (zr_length _ _ Hz), Hz1, u64_id; [done|]. unfold zlen in *. lia.
  - lia.
  - apply sorted_insert; [apply Hz|done|done].
  - intros l Hlt. destruct (Hab l) as [-> ->]; [lia|]. apply (zr_above _ _ Hz). lia.
Qed.

Lemma cur_back header (P Q : list znode) : NoDup (header :: map z_loc (P ++ Q)) ->
  (if bool_decide (cur header P = header) then None else Some (cur header P)) = z_loc <$> last P.
Proof.
  intros [Hn _]%NoDup_cons. unfold cur. destruct (last P) as [x|] eqn:E; [|by rewrite bool_decide_true].
  apply last_Some_elem_of in E. rewrite bool_decide_false; [done|]. intros Heq.
  apply Hn. rewrite <- Heq. apply loc_elem, elem_of_app. by left.
Qed.

Lemma insert_node_ok z (P Q : list znode) N :
  zsl_repr z (P ++ Q) -> detached (zsl_mem z) N -> z_loc N ∉ zsl_header z :: map z_loc (P ++ Q) ->
  Forall (fun x => node_lt x N) P -> Forall (node_lt N) Q -> zlen (P ++ Q) + 1 < 2 ^ 63 ->
  exists z', zslInsertNode z (z_loc N) = Some z' /\ zsl_repr z' (P ++ N :: Q).
Proof.
  intros Hz [HN Hback Halloc] Hfresh HPN HNQ Hb. pose proof HN as [Hsc Hel Hlv Hnan Hh].
  unfold zslInsertNode, zslGetNodeElement. rewrite Hsc, Hel, Hlv. cbn [mbind option_bind]. rewrite Hnan.
  cbn [negb cassert mbind option_bind].
  destruct (find_update_ok z (P ++ Q) P Q (before (zsl_mem z) (z_score N) (z_ele N)) Hz eq_refl) as (update & -> & Hlen & Hup).
  { apply before_test with (Q := Q); [done|done|..]; rewrite list.Forall_forall in *; intros x Hx.
    - specialize (HPN x Hx). unfold node_lt, pair_lt in HPN. rewrite pair_cmp_opp; [lia| |done].
      apply (no_nan _ _ (node_of z _ x Hz ltac:(apply elem_of_app; by left))).
    - specialize (HNQ x Hx). unfold node_lt, pair_lt in HNQ. lia. }
  cbn [mbind option_bind].
  destruct (grow_ok z P Q update (z_h N) Hz Hh Hlen Hup) as (m1 & up1 & -> & Hl1 & Hup1 & Es & Ee & Eb & Ef & Elv & Ehd & Esp).
  cbn [mbind option_bind]. set (L := Nat.max (zsl_level z) (z_h N)) in *.
  assert (HL : Forall (fun x => (1 <= z_h x <= L)%nat) (P ++ Q)).
  { apply list.Forall_forall. intros x Hx. pose proof (no_h _ _ (node_of z _ x Hz Hx)).
    pose proof (zr_max _ _ Hz) as Hm. rewrite list.Forall_forall in Hm. specialize (Hm x Hx). cbn in Hm. lia. }
  assert (H1 : Forall (fun x => (1 <= z_h x)%nat) (P ++ Q)) by (eapply list.Forall_impl; [exact HL|]; intros x [? _]; done).
  pose proof (zr_locs _ _ Hz) as Hnd. apply not_elem_of_cons in Hfresh as Hf'. destruct Hf' as [HNh Hfr].
  rewrite Hup1 by lia. unfold upd_at. rewrite predl_0 by (by apply list.Forall_app in H1 as [? _]).
  cbn [mbind option_bind].
  destruct (link_all (zsl_header z) L m1 P Q N up1) as (m2 & m3 & -> & Hm3 & D & Hl3 & Hab); try done.
  { lia. } { lia. }
  { intros l Hl. rewrite Ef, Esp by (by left). by apply Halloc. }
  cbn [mbind option_bind]. rewrite Hm3. cbn [mbind option_bind].
  assert (Hf0 : m_fwd m3 !! (z_loc N, 0%nat) = Some (z_loc <$> head Q)).
  { destruct (Hl3 (P ++ [N]) Q 0%nat) as [Hf0 _]; [by rewrite <- app_assoc|unfold has_level; rewrite last_snoc; lia|].
    unfold cur in Hf0. rewrite last_snoc in Hf0. rewrite Hf0, findh_0; [done|]. by apply list.Forall_app in H1 as [_ ?]. }
  rewrite (cur_back _ P Q Hnd).
  assert (Hbk : backs m3 (P ++ Q)).
  { intros A x B Heq. rewrite (sd_back _ _ D), Eb. by apply (zr_back _ _ Hz A x B). }
  destruct (insert_back m3 P Q N (zsl_tail z)) as (m4 & m5 & tail & -> & Hf4 & Hm5 & Es5 & Ee5 & El5 & Ef5 & Ep5 & Hb5 & Ht5).
  { done. } { by rewrite (sd_back _ _ D), Eb. } { by apply NoDup_cons in Hnd as [_ ?]. } { done. } { apply (zr_tail _ _ Hz). }
  cbn [mbind option_bind]. rewrite Hf4, Hf0. cbn [mbind option_bind]. rewrite Hm5. cbn [mbind option_bind].
  eexists. split; [done|]. apply zsl_insert_repr; try done.
  - by rewrite Es5, (sd_score _ _ D).
  - by rewrite Ee5, (sd_ele _ _ D).
  - intros x Hx. rewrite El5, (sd_levels _ _ D). by apply Elv.
  - by rewrite El5, (sd_levels _ _ D).
  - intros A B l Heq HhA. rewrite Ef5, Ep5. by apply Hl3.
  - intros l Hl. rewrite Ef5, Ep5. destruct (Hab (zsl_header z) l Hl) as [-> ->]. rewrite Ef, Esp by (by right). done.
Qed.
End Upd.
