(* ===== verification/SkiplistDel.v ===== *)
(** * Sorted sets: unlinking a node *)

From Stdlib Require Import Sorting.Sorted.
From stdpp Require Import base list sorting numbers option tactics gmap.
From S2P Require Import Prelude Order Skiplist SkiplistRep SkiplistUpd.

Section Del.
Context {T : Type} `{ScoreOrder T}.

Abbreviation zskiplist := (zskiplist (T := T)).
Abbreviation mem := (zskiplistNodes (T := T)).
Abbreviation znode := (znode (T := T)).
Implicit Types m : mem.

Section Loop.
Context (x : positive) (update : list (positive * Z)) (u : nat -> positive) (r : nat -> Z).
Context (f fx : nat -> option positive) (sp sx : nat -> Z).

Definition unlink_fwd m (y : positive) (l : nat) : option (option positive) :=
  if decide (y = u l /\ f l = Some x) then Some (fx l) else m_fwd m !! (y, l).
Definition unlink_span m (y : positive) (l : nat) : option Z :=
  if decide (y = u l) then
    Some (if decide (f l = Some x) then u64 (sp l + u64 (sx l - 1)) else u64 (sp l - 1))
  else m_span m !! (y, l).

Lemma unlink_loop_ok m0 n : forall m i,
  (forall y l, (i <= l < i + n)%nat -> m_fwd m !! (y, l) = m_fwd m0 !! (y, l)) ->
  (forall y l, (i <= l < i + n)%nat -> m_span m !! (y, l) = m_span m0 !! (y, l)) ->
  (forall l, (i <= l < i + n)%nat -> update !! l = Some (u l, r l) /\ m_fwd m0 !! (u l, l) = Some (f l) /\
     ((0 < l)%nat -> m_span m0 !! (u l, l) = Some (sp l)) /\
     (f l = Some x -> m_fwd m0 !! (x, l) = Some (fx l) /\ ((0 < l)%nat -> m_span m0 !! (x, l) = Some (sx l)))) ->
  exists m', unlink_loop m x update i n = Some m' /\ level_effect m m' i (i + n) (unlink_fwd m0) (unlink_span m0).
Proof.
  induction n as [|n IH]; intros m i Hf Hs Hall; cbn [unlink_loop].
  { exists m. rewrite Nat.add_0_r. split; [done|apply level_effect_nil]. }
  destruct (Hall i) as (-> & Hfi & Hsi & Hxi); [lia|]. cbn [mbind option_bind].
  rewrite (Hf (u i) i), Hfi by lia. cbn [mbind option_bind].
  assert (Hturn : exists m1, (if bool_decide (f i = Some x) then
             (sx ← zslGetNodeSpanAtLevel m x i;
              m ← zslIncrNodeSpanAtLevel m (u i) i (u64 (sx - 1));
              fx ← m_fwd m !! (x, i);
              set_fwd m (u i) i fx)
           else zslDecrNodeSpanAtLevel m (u i) i 1) = Some m1 /\
     level_effect m m1 i (S i) (unlink_fwd m0) (unlink_span m0)).
  { destruct (bool_decide_reflect (f i = Some x)) as [Hfx|Hfx].
    - destruct (Hxi Hfx) as [Hfwx Hspx].
      assert (Hsx : exists s, zslGetNodeSpanAtLevel m x i = Some s /\ ((0 < i)%nat -> s = sx i)).
      { unfold zslGetNodeSpanAtLevel. destruct (Nat.ltb_spec 0 i) as [Hi|Hi].
        - exists (sx i). rewrite Hs by lia. by split; [apply Hspx|].
        - assert (i = 0%nat) as -> by lia. rewrite Hf, Hfwx by lia. eexists. split; [done|lia]. }
      destruct Hsx as (s & -> & Hsx). cbn [mbind option_bind].
      destruct (incr_span_ok m (u i) i (sp i) (u64 (s - 1))) as (m1 & -> & D1 & F1 & G1).
      { intros Hi. rewrite Hs by lia. by apply Hsi. }
      cbn [mbind option_bind]. rewrite F1, (Hf x i), Hfwx by lia. cbn [mbind option_bind].
      unfold set_fwd. rewrite store_ok by (rewrite F1, Hf, Hfi by lia; by eexists). cbn [mbind option_bind].
      eexists. split; [done|]. split_and!; cbn.
      + eapply same_data_trans; [exact D1|]. by split.
      + intros y l. rewrite F1. unfold unlink_fwd. destruct (decide (i <= l < S i)%nat).
        * replace l with i by lia. destruct (decide (y = u i)) as [->|Hy].
          -- rewrite lookup_insert_eq. by rewrite decide_True.
          -- rewrite lookup_insert_ne by congruence. rewrite decide_False by (by intros [? _]). apply Hf. lia.
        * by rewrite lookup_insert_ne by (intros [=]; lia).
      + intros y l. rewrite G1. unfold unlink_span. destruct (decide (0 < i)%nat) as [Hi|Hi].
        * destruct (decide (i <= l < S i /\ 0 < l)%nat).
          -- replace l with i by lia. destruct (decide (y = u i)) as [->|Hy].
             ++ rewrite lookup_insert_eq, decide_True by done. by rewrite Hsx.
             ++ rewrite lookup_insert_ne by congruence. apply Hs. lia.
          -- by rewrite lookup_insert_ne by (intros [=]; lia).
        * by rewrite decide_False by lia.
    - destruct (decr_span_ok m (u i) i (sp i) 1) as (m1 & -> & D1 & F1 & G1).
      { intros Hi. rewrite Hs by lia. by apply Hsi. }
      exists m1. split; [done|]. split_and!; [done|..]; intros y l.
      + rewrite F1. unfold unlink_fwd. destruct (decide (i <= l < S i)%nat); [|done].
        replace l with i by lia. rewrite decide_False by (by intros [_ ?]). apply Hf. lia.
      + rewrite G1. unfold unlink_span. destruct (decide (0 < i)%nat) as [Hi|Hi].
        * destruct (decide (i <= l < S i /\ 0 < l)%nat).
          -- replace l with i by lia. destruct (decide (y = u i)) as [->|Hy].
             ++ by rewrite lookup_insert_eq, decide_False.
             ++ rewrite lookup_insert_ne by congruence. apply Hs. lia.
          -- by rewrite lookup_insert_ne by (intros [=]; lia).
        * by rewrite decide_False by lia. }
  destruct Hturn as (m1 & -> & He). cbn [mbind option_bind].
  destruct (IH m1 (S i)) as (m' & -> & He').
  { intros y l Hl. destruct He as (_ & -> & _). rewrite decide_False by lia. apply Hf. lia. }
  { intros y l Hl. destruct He as (_ & _ & ->). rewrite decide_False by lia. apply Hs. lia. }
  { intros l Hl. apply Hall. lia. }
  exists m'. split; [done|]. rewrite <- Nat.add_succ_comm. by eapply level_effect_cons; [lia|..].
Qed.
End Loop.

(** ** The links after unlinking *)

Section Unlink.
Context (header : positive) (L : nat) (P Q : list znode) (X : znode).
Context (HL : Forall (fun x => (1 <= z_h x <= L)%nat) (P ++ X :: Q)).
Context (Hnd : NoDup (header :: map z_loc (P ++ X :: Q))) (Hbound : zlen (P ++ X :: Q) < 2 ^ 63).

Abbreviation u := (fun l => cur header (predl l P)).
Abbreviation r := (fun l => zlen (predl l P)).
Abbreviation f := (fun l => (findh l (X :: Q)).2).
Abbreviation fx := (fun l => (findh l Q).2).
Abbreviation sp := (fun l => zlen P - zlen (predl l P) + (findh l (X :: Q)).1).
Abbreviation sx := (fun l => (findh l Q).1).

(** The node is the next one of its own levels only. *)
Lemma next_is_x l : (findh l (X :: Q)).2 = Some (z_loc X) <-> (l < z_h X)%nat.
Proof.
  cbn [findh]. destruct (Nat.ltb_spec l (z_h X)) as [Hl|Hl]; cbn [snd]; [done|].
  split; [|lia]. intros Hq%findh_loc. exfalso. apply NoDup_cons in Hnd as [_ Hn].
  rewrite map_app in Hn. apply NoDup_app in Hn as (_ & _ & Hn). cbn in Hn. by apply NoDup_cons in Hn as [? _].
Qed.

Lemma x_links m l : links header L m (P ++ X :: Q) -> (l < z_h X)%nat ->
  m_fwd m !! (z_loc X, l) = Some (findh l Q).2 /\ ((0 < l)%nat -> m_span m !! (z_loc X, l) = Some (findh l Q).1).
Proof.
  intros Hl Hh. assert (Hc : cur header (P ++ [X]) = z_loc X) by (unfold cur; by rewrite last_snoc).
  rewrite <- Hc. apply Hl; [by rewrite <- app_assoc|]. unfold has_level. by rewrite last_snoc.
Qed.

Lemma unlink_links m m' :
  links header L m (P ++ X :: Q) ->
  (forall y l, (l < L)%nat -> m_fwd m' !! (y, l) = unlink_fwd (z_loc X) u f fx m y l) ->
  (forall y l, (0 < l < L)%nat -> m_span m' !! (y, l) = unlink_span (z_loc X) u f sp sx m y l) ->
  links header L m' (P ++ Q).
Proof.
  intros Hl HF HG A B l Heq Hh.
  assert (HlL : (l < L)%nat).
  { eapply (has_level_lt L l A B); [|done]. rewrite <- Heq. eapply list.Forall_impl in HL; [|intros y Hy; exact (proj2 Hy)].
    apply list.Forall_app in HL as [? [_ ?]%list.Forall_cons]. by apply list.Forall_app. }
  rewrite (HF _ l HlL).
  assert (HGl : (0 < l)%nat -> m_span m' !! (cur header A, l) = unlink_span (z_loc X) u f sp sx m (cur header A) l)
    by (intros; apply HG; lia). clear HF HG.
  assert (Hsame : forall A0 B0, P ++ X :: Q = A0 ++ B0 -> cur header A0 = cur header A -> has_level L l A0 ->
    A0 <> predl l P -> findh l B0 = findh l B ->
    unlink_fwd (z_loc X) u f fx m (cur header A) l = Some (findh l B).2 /\
    ((0 < l)%nat -> m_span m' !! (cur header A, l) = Some (findh l B).1)).
  { intros A0 B0 Heq0 Hc Hh0 Hne Hfb. destruct (Hl A0 B0 l Heq0 Hh0) as [Hf Hs]. rewrite Hc, Hfb in Hf, Hs.
    assert (Hu : cur header A <> cur header (predl l P)).
    { intros Hcu. apply Hne. destruct (predl_spec l P) as (C & HP & _).
      eapply (cur_inj header A0 B0 (predl l P) (C ++ X :: Q)); [by rewrite <- Heq0| |congruence].
      by rewrite <- Heq0, app_assoc, <- HP. }
    split.
    - rewrite <- Hf. unfold unlink_fwd. by rewrite decide_False by (by intros [? _]).
    - intros H0l. rewrite HGl by done. rewrite <- (Hs H0l). unfold unlink_span. by rewrite decide_False. }
  assert (Hprefix : forall K, P = A ++ K -> B = K ++ Q ->
    unlink_fwd (z_loc X) u f fx m (cur header A) l = Some (findh l B).2 /\
    ((0 < l)%nat -> m_span m' !! (cur header A, l) = Some (findh l B).1)).
  { intros K HP ->. destruct (split_low l K) as [HK|(K1 & y & K2 & HK & HK1 & Hy)].
    - assert (HA : predl l P = A) by (eapply predl_unique; [done|done|by eapply has_level_tall]).
      assert (HzK : zlen P = zlen A + zlen K) by (rewrite HP, zlen_app; lia).
      destruct (pred_links header L m P (X :: Q) l Hl HlL) as [Hfo Hso]. rewrite HA in Hfo, Hso.
      pose proof (findh_range l Q) as Hfr. rewrite !zlen_app, zlen_cons in Hbound.
      assert (0 <= zlen A /\ 0 <= zlen K) by (unfold zlen; lia).
      rewrite findh_low by done. cbn [fst snd]. unfold unlink_fwd.
      destruct (Nat.lt_ge_cases l (z_h X)) as [Hlx|Hlx].
      + rewrite decide_True by (by rewrite HA, next_is_x). split; [done|]. intros H0l. rewrite HGl by done.
        unfold unlink_span. rewrite decide_True by (by rewrite HA). rewrite decide_True by (by apply next_is_x).
        rewrite HA. rewrite (findh_high l X) by done. cbn [fst]. f_equal.
        unfold wrapu. rewrite Z.add_mod_idemp_r by lia. rewrite Z.mod_small by lia. lia.
      + assert (Hfx : (findh l (X :: Q)).2 <> Some (z_loc X)) by (rewrite next_is_x; lia).
        assert (Hq : findh l (X :: Q) = (1 + (findh l Q).1, (findh l Q).2)).
        { cbn [findh]. by rewrite (proj2 (Nat.ltb_ge _ _)). }
        rewrite decide_False by (by intros [_ ?]). rewrite Hfo, Hq. split; [done|]. intros H0l. rewrite HGl by done.
        unfold unlink_span. rewrite decide_True by (by rewrite HA). rewrite decide_False by done.
        rewrite HA, Hq. cbn [fst]. rewrite u64_id by lia. f_equal. lia.
    - apply (Hsame A (K ++ X :: Q)); [by rewrite HP, <- app_assoc|done|done| |].
      + intros HA. destruct (predl_spec l P) as (C & HP' & HC & _). rewrite <- HA in HP'. rewrite HP' in HP.
        apply app_inv_head in HP. subst C. rewrite HK in HC. apply list.Forall_app in HC as [_ HC%Forall_inv].
        unfold low in HC. lia.
      + rewrite HK, <- !app_assoc. cbn [app]. by apply findh_prefix. }
  apply app_eq_inv in Heq as [(K & HP & HB)|(K & -> & HQ)]; [by apply (Hprefix K)|].
  destruct K as [|k K]; [by apply (Hprefix []); rewrite ?app_nil_r|].
  apply (Hsame (P ++ X :: k :: K) B).
  - rewrite HQ. by rewrite <- app_assoc.
  - rewrite !cur_app_ne by done. by apply (cur_app_ne header [X]).
  - rewrite has_level_app_ne in Hh |- * by done. change (X :: k :: K) with ([X] ++ k :: K).
    by rewrite has_level_app_ne.
  - intros HA. pose proof (predl_length l P) as Hp. rewrite <- HA, zlen_app in Hp. unfold zlen in Hp. cbn in Hp. lia.
  - done.
Qed.
End Unlink.

(** ** Shrinking the header *)

Lemma shrink_loop_ok header l : forall m,
  (forall l', (l' <= l)%nat -> is_Some (m_fwd m !! (header, l'))) ->
  (forall l', (0 < l' <= l)%nat -> is_Some (m_span m !! (header, l'))) ->
  exists m' L, shrink_loop m header l = Some (m', L) /\ (1 <= L <= S l)%nat /\ same_data m m' /\ m_fwd m' = m_fwd m /\
    (forall x l', m_span m' !! (x, l') = if decide (x = header /\ L <= l' <= l)%nat then Some 0 else m_span m !! (x, l')) /\
    (forall l', (L <= l' <= l)%nat -> m_fwd m !! (header, l') = Some None) /\
    (L = 1%nat \/ exists y, m_fwd m !! (header, L - 1)%nat = Some (Some y)).
Proof.
  induction l as [|l IH]; intros m Hf Hs; cbn [shrink_loop].
  { exists m, 1%nat. split_and!; [done|lia|lia|by split|done| |lia|by left].
    intros x l'. by rewrite decide_False by lia. }
  destruct (Hf (S l)) as [[y|] Hy]; [lia|..]; rewrite Hy; cbn [mbind option_bind].
  { exists m, (S (S l)). split_and!; [done|lia|lia|by split|done| |lia|].
    - intros x l'. by rewrite decide_False by lia.
    - right. exists y. by replace (S (S l) - 1)%nat with (S l) by lia. }
  unfold set_span. rewrite store_ok by (apply Hs; lia). cbn [mbind option_bind].
  destruct (IH (with_span m (<[(header, S l) := 0]> (m_span m)))) as (m' & L & -> & HL & D & F & G & Hn & Ht).
  { intros l' Hl. apply Hf. lia. }
  { intros l' Hl. cbn. rewrite lookup_insert_ne by (intros [=]; lia). apply Hs. lia. }
  exists m', L. split_and!; [done|lia|lia| |done| | |done].
  - eapply same_data_trans; [|exact D]. by split.
  - intros x l'. rewrite G. cbn. destruct (decide (x = header)) as [->|Hx].
    + destruct (decide (l' = S l)) as [->|Hl].
      * rewrite lookup_insert_eq, decide_False, decide_True by lia. done.
      * rewrite lookup_insert_ne by (intros [=]; lia). destruct (decide _), (decide _); try done; lia.
    + rewrite lookup_insert_ne by congruence. rewrite !decide_False by (by intros [? _]). done.
  - intros l' Hl. destruct (decide (l' = S l)) as [->|?]; [done|]. apply Hn. lia.
Qed.

(** The backward pointers and the tail. *)
Lemma unlink_back m (P Q : list znode) X tail : backs m (P ++ X :: Q) ->
  NoDup (map z_loc (P ++ X :: Q)) -> tail = z_loc <$> last (P ++ X :: Q) ->
  exists m' tail', match z_loc <$> head Q with
    | Some y => m ← set_back m y (z_loc <$> last P); Some (m, tail)
    | None => Some (m, z_loc <$> last P)
    end = Some (m', tail') /\
    m_score m' = m_score m /\ m_ele m' = m_ele m /\ m_levels m' = m_levels m /\ m_fwd m' = m_fwd m /\
    m_span m' = m_span m /\ backs m' (P ++ Q) /\ tail' = z_loc <$> last (P ++ Q) /\
    m_back m' !! z_loc X = m_back m !! z_loc X.
Proof.
  intros Hb Hnd ->. destruct Q as [|q Q]; cbn [head fmap option_fmap option_map].
  - eexists _, _. split; [done|]. split_and!; try done; [|by rewrite app_nil_r].
    apply (backs_delete m m P [] X); try done.
  - unfold set_back. rewrite store_ok by (rewrite (Hb (P ++ [X]) q Q); [by eexists|by rewrite <- app_assoc]).
    cbn [mbind option_bind]. eexists _, _. split; [done|]. split_and!; try done; cbn; [|by rewrite !last_app|].
    + apply (backs_delete m _ P (q :: Q) X); try done; cbn.
      * intros q' [= <-]. by rewrite lookup_insert_eq.
      * intros x Hx Hne. rewrite lookup_insert_ne; [done|]. intros Heq. apply Hne. f_equal.
        eapply (loc_inj (P ++ X :: q :: Q)); [done|apply elem_of_app; right; by right; left| |done].
        apply elem_of_app in Hx as [?|?]; apply elem_of_app; [by left|right; by right].
    + rewrite lookup_insert_ne; [done|]. intros Heq. rewrite map_app in Hnd. apply NoDup_app in Hnd as (_ & _ & Hnd).
      cbn in Hnd. apply NoDup_cons in Hnd as [Hnd _]. apply Hnd. rewrite <- Heq. by left.
Qed.

(** The invariant after unlinking, from the state of the memory. *)
Lemma unlink_repr z (P Q : list znode) X m L tail : zsl_repr z (P ++ X :: Q) ->
  m_score m = m_score (zsl_mem z) -> m_ele m = m_ele (zsl_mem z) -> m_levels m = m_levels (zsl_mem z) ->
  (1 <= L <= zsl_level z)%nat -> links (zsl_header z) L m (P ++ Q) ->
  (forall l, (L <= l < ZSKIPLIST_MAXLEVEL)%nat ->
     m_fwd m !! (zsl_header z, l) = Some None /\ m_span m !! (zsl_header z, l) = Some 0) ->
  ((L < zsl_level z)%nat -> (findh L (P ++ Q)).2 = None) ->
  (L = 1%nat \/ (findh (L - 1) (P ++ Q)).2 <> None) ->
  backs m (P ++ Q) -> tail = z_loc <$> last (P ++ Q) ->
  zsl_repr {| zsl_header := zsl_header z; zsl_tail := tail; zsl_length := u64 (zsl_length z - 1);
              zsl_level := L; zsl_mem := m |} (P ++ Q).
Proof.
  intros Hz Es Ee El HL Hl Hab Hlow Htop Hb Ht.
  assert (Hperm : P ++ X :: Q ≡ₚ X :: P ++ Q) by (by rewrite Permutation_middle).
  assert (Hz1 : zlen (P ++ X :: Q) = zlen (P ++ Q) + 1) by (autorewrite with zlen; lia).
  pose proof (zr_bound _ _ Hz) as Hbd. pose proof (zr_level _ _ Hz) as HzL.
  assert (Hmax : Forall (fun x => (z_h x <= L)%nat) (P ++ Q)).
  { destruct (Nat.lt_ge_cases L (zsl_level z)) as [Hlt|Hge].
    - specialize (Hlow Hlt). destruct (split_low L (P ++ Q)) as [Hall|(A1 & x & A2 & Heq & HA1 & Hx)]; [done|].
      by rewrite Heq, findh_low, findh_high in Hlow.
    - pose proof (zr_max _ _ Hz) as Hm. rewrite Hperm in Hm. apply list.Forall_cons in Hm as [_ Hm].
      eapply list.Forall_impl; [exact Hm|]. intros x Hx. cbn in Hx. lia. }
  split; cbn [zsl_header zsl_tail zsl_length zsl_level zsl_mem]; try done.
  - pose proof (zr_locs _ _ Hz) as Hnd. rewrite Hperm in Hnd. cbn [map] in Hnd.
    apply NoDup_cons in Hnd as [Hn1 [_ Hn2]%NoDup_cons]. apply NoDup_cons. split; [|done].
    by apply not_elem_of_cons in Hn1 as [_ ?].
  - pose proof (zr_nodes _ _ Hz) as Hns. rewrite Hperm in Hns. apply list.Forall_cons in Hns as [_ Hns].
    eapply list.Forall_impl; [exact Hns|]. intros x []. split; rewrite ?Es, ?Ee, ?El; done.
  - rewrite El. apply (zr_header _ _ Hz).
  - lia.
  - destruct Htop as [?|Hne]; [by left|right].
    destruct (split_low (L - 1) (P ++ Q)) as [Hall|(A1 & x & A2 & Heq & HA1 & Hx)];
      [by rewrite findh_all_low in Hne|].
    rewrite Heq in Hmax |- *. apply list.Forall_app in Hmax as [_ Hm%Forall_inv].
    apply Exists_app. right. left. cbn in Hm. lia.
  - rewrite (zr_length _ _ Hz), Hz1, u64_id; [lia|]. unfold zlen in *. lia.
  - lia.
  - eapply nodes_sorted_delete. apply (zr_sorted _ _ Hz).
Qed.

(** Unlinking keeps the node's own fields. *)
Lemma unlink_node_ok z (P Q : list znode) X update : zsl_repr z (P ++ X :: Q) ->
  (forall l, (l < zsl_level z)%nat -> update !! l = Some (upd_at (zsl_header z) P l)) ->
  exists z', zslUnlinkNode z (z_loc X) update = Some z' /\ zsl_repr z' (P ++ Q) /\
    zsl_header z' = zsl_header z /\ (zsl_level z' <= zsl_level z)%nat /\ detached (zsl_mem z') X /\
    (z_loc X ∉ (zsl_header z' :: map z_loc (P ++ Q))) /\
    m_fwd (zsl_mem z') !! (z_loc X, 0%nat) = m_fwd (zsl_mem z) !! (z_loc X, 0%nat).
Proof.
  intros Hz Hup. pose proof (zr_links _ _ Hz) as Hl. pose proof (zr_locs _ _ Hz) as Hnd.
  assert (HX : node_ok (zsl_mem z) X) by (apply (node_of z _ X Hz), elem_of_app; right; by left).
  assert (HL : Forall (fun x => (1 <= z_h x <= zsl_level z)%nat) (P ++ X :: Q)).
  { apply list.Forall_forall. intros x Hx. pose proof (no_h _ _ (node_of z _ x Hz Hx)).
    pose proof (zr_max _ _ Hz) as Hm. rewrite list.Forall_forall in Hm. specialize (Hm x Hx). cbn in Hm. lia. }
  assert (HXL : (1 <= z_h X <= zsl_level z)%nat).
  { apply list.Forall_app in HL as [_ HX'%Forall_inv]. done. }
  assert (HXn : z_loc X ∉ zsl_header z :: map z_loc (P ++ Q)).
  { rewrite <- Permutation_middle in Hnd. cbn [map] in Hnd. apply NoDup_cons in Hnd as [Hn1 [Hn2 _]%NoDup_cons].
    apply not_elem_of_cons in Hn1 as [? _]. by apply not_elem_of_cons. }
  unfold zslUnlinkNode.
  destruct (unlink_loop_ok (z_loc X) update (fun l => cur (zsl_header z) (predl l P)) (fun l => zlen (predl l P))
    (fun l => (findh l (X :: Q)).2) (fun l => (findh l Q).2)
    (fun l => zlen P - zlen (predl l P) + (findh l (X :: Q)).1) (fun l => (findh l Q).1)
    (zsl_mem z) (zsl_level z) (zsl_mem z) 0) as (m1 & -> & D1 & F1 & G1); [done|done| |].
  { intros l Hlt. destruct (pred_links (zsl_header z) (zsl_level z) (zsl_mem z) P (X :: Q) l Hl ltac:(lia)) as [Hf Hs].
    split_and!; [apply Hup; lia|done|done|]. intros Hx%(next_is_x (zsl_header z) P Q X Hnd).
    by apply (x_links (zsl_header z) (zsl_level z) P). }
  cbn [mbind option_bind].
  assert (Hl1 : links (zsl_header z) (zsl_level z) m1 (P ++ Q)).
  { apply (unlink_links (zsl_header z) (zsl_level z) P Q X HL Hnd (zr_bound _ _ Hz) (zsl_mem z)); [done|..]; intros y l Hlt.
    - rewrite F1. by rewrite decide_True by lia.
    - rewrite G1. by rewrite decide_True by lia. }
  assert (HuX : forall l, cur (zsl_header z) (predl l P) <> z_loc X).
  { intros l Heq. apply HXn. rewrite <- Heq. destruct (predl_spec l P) as (C & HP & _).
    rewrite HP at 2. rewrite <- app_assoc. apply cur_in. }
  assert (HX1 : forall l, m_fwd m1 !! (z_loc X, l) = m_fwd (zsl_mem z) !! (z_loc X, l) /\
    m_span m1 !! (z_loc X, l) = m_span (zsl_mem z) !! (z_loc X, l)).
  { intros l. rewrite F1, G1. unfold unlink_fwd, unlink_span. pose proof (HuX l).
    rewrite (decide_False (P := z_loc X = _)) by congruence. rewrite (decide_False (P := z_loc X = _ /\ _)) by (intros [? _]; congruence).
    by destruct (decide _), (decide _). }
  destruct (x_links (zsl_header z) (zsl_level z) P Q X (zsl_mem z) 0 Hl) as [Hfx0 _]; [lia|].
  assert (HQ1 : Forall (fun x => (1 <= z_h x)%nat) Q).
  { apply list.Forall_app in HL as [_ [_ HQ]%list.Forall_cons]. eapply list.Forall_impl; [exact HQ|]. by intros y [? _]. }
  rewrite (proj1 (HX1 0%nat)), Hfx0, (findh_0 _ HQ1). cbn [mbind option_bind].
  assert (Hb1 : backs m1 (P ++ X :: Q)).
  { intros A x B Heq. rewrite (sd_back _ _ D1). by apply (zr_back _ _ Hz A x B). }
  rewrite (Hb1 P X Q eq_refl). cbn [mbind option_bind].
  destruct (unlink_back m1 P Q X (zsl_tail z) Hb1) as (m2 & tail & -> & Es & Ee & El & Ef & Ep & Hb2 & Ht2 & HbX).
  { by apply NoDup_cons in Hnd as [_ ?]. } { apply (zr_tail _ _ Hz). }
  cbn [mbind option_bind].
  assert (Hhd : forall l, (l < zsl_level z)%nat -> m_fwd m2 !! (zsl_header z, l) = Some (findh l (P ++ Q)).2 /\
    ((0 < l)%nat -> m_span m2 !! (zsl_header z, l) = Some (findh l (P ++ Q)).1)).
  { intros l Hlt. rewrite Ef, Ep. by apply (Hl1 [] (P ++ Q) l). }
  destruct (shrink_loop_ok (zsl_header z) (zsl_level z - 1) m2) as (m3 & L & -> & HLr & D3 & F3 & G3 & Hn3 & Ht3).
  { intros l Hlt. destruct (Hhd l) as [-> _]; [lia|by eexists]. }
  { intros l Hlt. destruct (Hhd l) as [_ ->]; [lia|by eexists|lia]. }
  cbn [mbind option_bind]. eexists. split; [done|]. cbn [zsl_header zsl_level zsl_mem].
  assert (HX3 : forall l, m_fwd m3 !! (z_loc X, l) = m_fwd (zsl_mem z) !! (z_loc X, l) /\
    m_span m3 !! (z_loc X, l) = m_span (zsl_mem z) !! (z_loc X, l)).
  { intros l. rewrite F3, G3, Ef, Ep. rewrite decide_False; [apply HX1|]. intros [Heq _]. apply HXn. rewrite Heq. by left. }
  split_and!; [|done|lia| |done|by rewrite (proj1 (HX3 0%nat)), Hfx0, (findh_0 _ HQ1)].
  - apply (unlink_repr z P Q X); try done; [| | |lia|..].
    + by rewrite (sd_score _ _ D3), Es, (sd_score _ _ D1).
    + by rewrite (sd_ele _ _ D3), Ee, (sd_ele _ _ D1).
    + by rewrite (sd_levels _ _ D3), El, (sd_levels _ _ D1).
    + intros A B l Heq Hh. rewrite F3, Ef.
      assert (Hh' : has_level (zsl_level z) l A) by (unfold has_level in *; destruct (last A); lia).
      destruct (Hl1 A B l Heq Hh') as [Hf Hs]. split; [done|]. intros H0l. rewrite G3, Ep, decide_False; [by apply Hs|].
      intros [Hc Hle]. destruct A as [|a A]; [unfold has_level in Hh; cbn in Hh; lia|].
      assert (a :: A = []); [|done]. eapply (cur_inj (zsl_header z) (a :: A) B [] (P ++ Q)); [|done|done].
      rewrite <- Heq. rewrite <- Permutation_middle in Hnd. cbn [map] in Hnd.
      apply NoDup_cons in Hnd as [Hn1 [_ Hn2]%NoDup_cons]. apply not_elem_of_cons in Hn1 as [_ ?]. by apply NoDup_cons.
    + intros l Hlt. rewrite F3, G3. destruct (Nat.lt_ge_cases l (zsl_level z)) as [Hll|Hll].
      * rewrite decide_True by (split; [done|lia]). split; [apply Hn3; lia|done].
      * rewrite decide_False by lia. rewrite Ef, Ep, F1, G1. rewrite !decide_False by lia. apply (zr_above _ _ Hz). lia.
    + intros Hlt. destruct (Hhd L Hlt) as [Hf _]. rewrite Hn3 in Hf by lia. by injection Hf.
    + destruct Ht3 as [?|(y & Hy)]; [by left|right]. destruct (Hhd (L - 1)%nat) as [Hf _]; [lia|].
      rewrite Hy in Hf. injection Hf as <-. done.
    + intros A x B Heq. rewrite (sd_back _ _ D3). by apply (Hb2 A x B).
  - destruct HX as [Hs He Hv Hnan Hh]. split; [split|..]; try done.
    + by rewrite (sd_score _ _ D3), Es, (sd_score _ _ D1).
    + by rewrite (sd_ele _ _ D3), Ee, (sd_ele _ _ D1).
    + by rewrite (sd_levels _ _ D3), El, (sd_levels _ _ D1).
    + rewrite (sd_back _ _ D3), HbX, (Hb1 P X Q eq_refl). by eexists.
    + intros l Hlt. rewrite (proj1 (HX3 l)), (proj2 (HX3 l)).
      destruct (x_links (zsl_header z) (zsl_level z) P Q X (zsl_mem z) l Hl Hlt) as [-> Hs']. split; [by eexists|].
      intros H0l. rewrite Hs' by done. by eexists.
Qed.
End Del.
