(* ===== verification/SkiplistOps.v ===== *)
(** * Sorted sets: the operations of the skiplist

    Insertion, deletion and changing a score are the operations of sorted lists;
    ranks are positions. *)

From Stdlib Require Import Sorting.Sorted.
From stdpp Require Import base list sorting numbers option tactics gmap.
From S2P Require Import Prelude Order Skiplist SkiplistRep SkiplistUpd SkiplistDel.

Section Ops.
Context {T : Type} `{ScoreOrder T}.

Abbreviation zskiplist := (zskiplist (T := T)).
Abbreviation mem := (zskiplistNodes (T := T)).
Abbreviation znode := (znode (T := T)).
Implicit Types m : mem.

(** ** Creation and release of nodes *)

Lemma foldr_insert_lookup {A} (g : nat -> A) (zn : positive) (f : gmap (positive * nat) A) js x l :
  foldr (fun j => insert (zn, j) (g j)) f js !! (x, l) =
  if decide (x = zn /\ l ∈ js) then Some (g l) else f !! (x, l).
Proof.
  induction js as [|j js IH]; cbn [foldr]; [rewrite decide_False; [done|set_solver]|].
  destruct (decide ((x, l) = (zn, j))) as [[= -> ->]|Hne].
  - rewrite lookup_insert_eq, decide_True by set_solver. done.
  - rewrite lookup_insert_ne by congruence. rewrite IH.
    destruct (decide (x = zn /\ l ∈ js)), (decide (x = zn /\ l ∈ j :: js)); try done; set_solver.
Qed.

Lemma foldr_delete_lookup {A} (zn : positive) (f : gmap (positive * nat) A) js x l : x <> zn ->
  foldr (fun j => delete (zn, j)) f js !! (x, l) = f !! (x, l).
Proof.
  intros Hx. induction js as [|j js IH]; cbn [foldr]; [done|]. by rewrite lookup_delete_ne by congruence.
Qed.

(** Two memories that agree on every node but [y]. *)
Record agree m m' (y : positive) : Prop := {
  ag_score : forall x, x <> y -> m_score m' !! x = m_score m !! x;
  ag_ele : forall x, x <> y -> m_ele m' !! x = m_ele m !! x;
  ag_levels : forall x, x <> y -> m_levels m' !! x = m_levels m !! x;
  ag_back : forall x, x <> y -> m_back m' !! x = m_back m !! x;
  ag_fwd : forall x l, x <> y -> m_fwd m' !! (x, l) = m_fwd m !! (x, l);
  ag_span : forall x l, x <> y -> m_span m' !! (x, l) = m_span m !! (x, l) }.

(** What is not in the list does not matter. *)
Lemma repr_agree z m' (ns : list znode) y : zsl_repr z ns -> agree (zsl_mem z) m' y ->
  y ∉ zsl_header z :: map z_loc ns -> zsl_repr (with_mem z m') ns.
Proof.
  intros Hz [As Ae Al Ab Af Ap] [Hy1 Hy2]%not_elem_of_cons.
  assert (Hloc : forall x, x ∈ ns -> z_loc x <> y) by (intros x Hx Heq; apply Hy2; rewrite <- Heq; by apply loc_elem).
  assert (Hhd : zsl_header z <> y) by congruence.
  destruct Hz as [H1 H2 H3 H4 H5 H6 H7 H8 H9 H10 H11 H12 H13]. split; cbn; try done.
  - rewrite list.Forall_forall in *. intros x Hx. destruct (H2 x Hx). specialize (Hloc x Hx).
    split; rewrite ?As, ?Ae, ?Al; done.
  - by rewrite Al.
  - intros A B l Heq Hh. assert (Hc : cur (zsl_header z) A <> y).
    { intros Hc. pose proof (cur_in (zsl_header z) A B) as Hin. rewrite Hc, <- Heq in Hin.
      apply elem_of_cons in Hin as [?|?]; [by apply Hhd|done]. }
    rewrite Af, Ap by done. by apply H10.
  - intros l Hl. rewrite Af, Ap by done. by apply H11.
  - intros A x B Heq. rewrite Ab by (apply Hloc; rewrite Heq; apply elem_of_app; right; by left). by eapply H12.
Qed.

Section Create.
Context (junk : nat -> option positive * Z).

Lemma create_node_ok z (ns : list znode) level score ele : zsl_repr z ns ->
  (1 <= level <= ZSKIPLIST_MAXLEVEL)%nat -> isnan score = false ->
  let '(m, zn) := zslCreateNode junk (zsl_mem z) level score ele in
  zsl_repr (with_mem z m) ns /\ (zn ∉ (zsl_header z :: map z_loc ns)) /\
  detached m {| z_loc := zn; z_score := score; z_ele := ele; z_h := level |}.
Proof.
  intros Hz Hl Hn. unfold zslCreateNode. set (zn := zmalloc_node (zsl_mem z)).
  assert (Hfr : m_levels (zsl_mem z) !! zn = None) by (apply not_elem_of_dom, is_fresh).
  assert (Hni : zn ∉ zsl_header z :: map z_loc ns).
  { apply not_elem_of_cons. split.
    - intros Heq. destruct (zr_header _ _ Hz) as [? Hh]. congruence.
    - intros (x & Hx & Hin)%list_elem_of_fmap. pose proof (no_levels _ _ (node_of z ns x Hz Hin)). congruence. }
  split_and!; [|done|].
  - eapply repr_agree; [done| |done]. split; cbn; intros.
    1-4: by rewrite lookup_insert_ne. 1-2: rewrite foldr_insert_lookup, decide_False by (by intros [? _]); done.
  - split; [split|..]; cbn; rewrite ?lookup_insert_eq; try done. intros l Hlt.
    rewrite !foldr_insert_lookup, !decide_True by (split; [done|apply elem_of_seq; lia]). split; [by eexists|by eexists].
Qed.
End Create.

Lemma free_ok z (ns : list znode) (X : znode) : zsl_repr z ns -> is_Some (m_levels (zsl_mem z) !! z_loc X) ->
  z_loc X ∉ zsl_header z :: map z_loc ns -> exists z', free_node z (z_loc X) = Some z' /\ zsl_repr z' ns /\
  zsl_header z' = zsl_header z /\ zsl_level z' = zsl_level z /\ agree (zsl_mem z) (zsl_mem z') (z_loc X).
Proof.
  intros Hz [l Hl] Hni. unfold free_node, zslFreeNode. rewrite Hl. cbn [mbind option_bind]. eexists. split; [done|].
  assert (Ha : agree (zsl_mem z) {| m_score := delete (z_loc X) (m_score (zsl_mem z));
     m_ele := delete (z_loc X) (m_ele (zsl_mem z)); m_levels := delete (z_loc X) (m_levels (zsl_mem z));
     m_back := delete (z_loc X) (m_back (zsl_mem z));
     m_fwd := foldr (fun j => delete (z_loc X, j)) (m_fwd (zsl_mem z)) (seq 0 l);
     m_span := foldr (fun j => delete (z_loc X, j)) (m_span (zsl_mem z)) (seq 0 l) |} (z_loc X)).
  { split; cbn; intros; rewrite ?lookup_delete_ne, ?foldr_delete_lookup by done; done. }
  split_and!; [by eapply repr_agree|done|done|done].
Qed.

(** ** Sorted lists *)

(** Insertion at the place of a node. *)
Fixpoint ins (N : znode) (ns : list znode) : list znode :=
  match ns with
  | [] => [N]
  | x :: r => if pair_cmp (z_score N) (z_ele N) (z_score x) (z_ele x) >? 0 then x :: ins N r else N :: x :: r
  end.

Lemma node_lt_trans (x y w : znode) : isnan (z_score x) = false -> isnan (z_score y) = false ->
  isnan (z_score w) = false -> node_lt x y -> node_lt y w -> node_lt x w.
Proof. intros Hx Hy Hw. by apply pair_lt_trans. Qed.

Lemma elem_cmp_ne (x y : znode) : isnan (z_score x) = false -> isnan (z_score y) = false ->
  z_ele x <> z_ele y -> pair_cmp (z_score x) (z_ele x) (z_score y) (z_ele y) <> 0.
Proof.
  intros Hx Hy Hne. destruct (pair_cases (z_score x) (z_ele x) (z_score y) (z_ele y) Hx Hy) as [[_ ->]|[[_ ->]|[_ ->]]];
    [done|done|]. by intros ?%lexcmp_eq.
Qed.

Lemma ins_split N (ns : list znode) : isnan (z_score N) = false -> Forall (fun x => isnan (z_score x) = false) ns ->
  StronglySorted node_lt ns -> z_ele N ∉ map z_ele ns ->
  exists P Q, ns = P ++ Q /\ ins N ns = P ++ N :: Q /\ Forall (fun x => node_lt x N) P /\ Forall (node_lt N) Q.
Proof.
  intros HN Hns Hs Hel. induction ns as [|x ns IH]; [by exists [], []|].
  apply list.Forall_cons in Hns as [Hx Hns]. inversion Hs as [|? ? Hs' Hall]; subst.
  cbn [map] in Hel. apply not_elem_of_cons in Hel as [Hex Hel]. cbn [ins].
  pose proof (elem_cmp_ne N x HN Hx Hex) as Hc.
  destruct (Z.gtb_spec (pair_cmp (z_score N) (z_ele N) (z_score x) (z_ele x)) 0) as [Hgt|Hle].
  - destruct (IH Hns Hs' Hel) as (P & Q & -> & -> & HP & HQ). exists (x :: P), Q. split_and!; [done|done| |done].
    constructor; [|done]. unfold node_lt, pair_lt. rewrite pair_cmp_opp by done. lia.
  - exists [], (x :: ns). split_and!; [done|done|by constructor|].
    assert (Hlt : node_lt N x) by (unfold node_lt, pair_lt; lia). constructor; [done|].
    rewrite list.Forall_forall in *. intros y Hy. apply (node_lt_trans N x y); auto.
Qed.

(** A node with its place determined. *)
Lemma ins_at N (P Q : list znode) : isnan (z_score N) = false -> Forall (fun x => isnan (z_score x) = false) (P ++ Q) ->
  Forall (fun x => node_lt x N) P -> Forall (node_lt N) Q -> ins N (P ++ Q) = P ++ N :: Q.
Proof.
  intros HN Hns HP HQ. induction HP as [|x P Hx HP IH]; cbn [app ins].
  - destruct HQ as [|x Q Hx HQ]; [done|]. cbn [ins]. unfold node_lt, pair_lt in Hx.
    destruct (Z.gtb_spec (pair_cmp (z_score N) (z_ele N) (z_score x) (z_ele x)) 0); [lia|done].
  - cbn [app] in Hns. apply list.Forall_cons in Hns as [Hnx Hns]. unfold node_lt, pair_lt in Hx.
    rewrite pair_cmp_opp in Hx by done.
    destruct (Z.gtb_spec (pair_cmp (z_score N) (z_ele N) (z_score x) (z_ele x)) 0); [|lia]. by rewrite IH.
Qed.

Lemma repr_nonan z (ns : list znode) : zsl_repr z ns -> Forall (fun x => isnan (z_score x) = false) ns.
Proof. intros Hz. eapply list.Forall_impl; [apply (zr_nodes _ _ Hz)|]. by intros x []. Qed.

(** ** Insertion and deletion *)

Lemma create_repr : zsl_repr (zslCreate (T := T)) [].
Proof.
  unfold zslCreate, zslCreateHeaderNode. set (zn := zmalloc_node empty_nodes).
  split; cbn [zsl_header zsl_tail zsl_length zsl_level zsl_mem m_levels m_fwd m_span map]; try done; try by constructor.
  - apply NoDup_cons. split; [set_solver|by constructor].
  - unfold ZSKIPLIST_MAXLEVEL. lia.
  - intros A B l Heq Hh. symmetry in Heq. apply app_eq_nil in Heq as [-> ->]. unfold has_level in Hh. cbn in Hh.
    cbn [m_fwd m_span]. change (cur zn []) with zn. rewrite !(foldr_insert_lookup (fun _ => _)).
    rewrite !decide_True by (split; [done|apply elem_of_seq; unfold ZSKIPLIST_MAXLEVEL; lia]). done.
  - intros l Hl. rewrite !(foldr_insert_lookup (fun _ => _)).
    rewrite !decide_True by (split; [done|apply elem_of_seq; lia]). done.
  - intros A x B Heq. by destruct A.
Qed.

Lemma insert_ok junk z (ns : list znode) level score ele : zsl_repr z ns ->
  (1 <= level <= ZSKIPLIST_MAXLEVEL)%nat -> isnan score = false -> ele ∉ map z_ele ns -> zlen ns + 1 < 2 ^ 63 ->
  exists z' n, zslInsert junk z level score ele = Some (z', n) /\
    zsl_repr z' (ins {| z_loc := n; z_score := score; z_ele := ele; z_h := level |} ns).
Proof.
  intros Hz Hl Hn Hel Hb. pose proof (create_node_ok junk z ns level score ele Hz Hl Hn) as Hc.
  unfold zslInsert. rewrite Hn. cbn [negb cassert mbind option_bind].
  destruct (zslCreateNode junk (zsl_mem z) level score ele) as [m n]. destruct Hc as (Hz' & Hni & Hdet).
  fold (with_mem z m).
  set (N := {| z_loc := n; z_score := score; z_ele := ele; z_h := level |}) in *.
  destruct (ins_split N ns) as (P & Q & Heq & Hi & HP & HQ); [done|by eapply repr_nonan|apply (zr_sorted _ _ Hz)|done|].
  rewrite Heq in *. destruct (insert_node_ok (with_mem z m) P Q N) as (z' & Hins & Hr); try done.
  cbn [z_loc N] in Hins. rewrite Hins. cbn [mbind option_bind]. exists z', n. split; [done|].
  change (zsl_repr z' (ins N (P ++ Q))). by rewrite Hi.
Qed.

Lemma found_test z (P Q : list znode) X : zsl_repr z (P ++ X :: Q) ->
  forall A x B, P ++ X :: Q = A ++ x :: B ->
  before (zsl_mem z) (z_score X) (z_ele X) (zlen A + 1) (z_loc x) = Some (bool_decide (zlen A + 1 <= zlen P)).
Proof.
  intros Hz. apply before_test with (Q := X :: Q); [done|done|..].
  - pose proof (zr_sorted _ _ Hz) as (Hlt & _ & _)%StronglySorted_app. apply list.Forall_forall. intros x Hx.
    rewrite pair_cmp_opp.
    + specialize (Hlt x X Hx ltac:(by left)). unfold node_lt, pair_lt in Hlt. lia.
    + apply (no_nan _ _ (node_of z _ x Hz ltac:(apply elem_of_app; by left))).
    + apply (no_nan _ _ (node_of z _ X Hz ltac:(apply elem_of_app; right; by left))).
  - pose proof (zr_sorted _ _ Hz) as (_ & _ & HQ)%StronglySorted_app. inversion HQ as [|? ? _ Hall]; subst.
    constructor.
    + rewrite pair_cmp_refl; [done|]. apply (no_nan _ _ (node_of z _ X Hz ltac:(apply elem_of_app; right; by left))).
    + eapply list.Forall_impl; [exact Hall|]. intros x Hx. unfold node_lt, pair_lt in Hx. lia.
Qed.

(** The search for a node of the list finds its predecessors. *)
Lemma find_node_ok z (P Q : list znode) X : zsl_repr z (P ++ X :: Q) ->
  exists update, find_update z (before (zsl_mem z) (z_score X) (z_ele X)) = Some update /\
    (forall l, (l < zsl_level z)%nat -> update !! l = Some (upd_at (zsl_header z) P l)) /\
    assert_found (zsl_mem z) update (z_loc X) = Some ().
Proof.
  intros Hz. destruct (find_update_ok z (P ++ X :: Q) P (X :: Q) _ Hz eq_refl (found_test z P Q X Hz)) as (update & Hu & Hlen & Hup).
  exists update. split_and!; [done|done|]. pose proof (zr_level _ _ Hz).
  unfold assert_found. rewrite Hup by lia. unfold upd_at. cbn [mbind option_bind].
  assert (HP1 : Forall (fun x => (1 <= z_h x)%nat) (P ++ X :: Q)).
  { eapply list.Forall_impl; [apply (zr_nodes _ _ Hz)|]. intros x []. lia. }
  rewrite predl_0 by (by apply list.Forall_app in HP1 as [? _]).
  destruct (zr_links _ _ Hz P (X :: Q) 0%nat eq_refl) as [-> _].
  - unfold has_level. destruct (last P) as [x|] eqn:E; [|lia]. apply last_Some_elem_of in E.
    rewrite list.Forall_forall in HP1. specialize (HP1 x ltac:(apply elem_of_app; by left)). cbn in HP1. lia.
  - rewrite findh_high by (apply list.Forall_app in HP1 as [_ ?%Forall_inv]; done). cbn. by rewrite bool_decide_true.
Qed.

Lemma node_fields z (P Q : list znode) X : zsl_repr z (P ++ X :: Q) -> node_ok (zsl_mem z) X.
Proof. intros Hz. apply (node_of z _ X Hz), elem_of_app. right. by left. Qed.

Lemma delete_ok z (P Q : list znode) X : zsl_repr z (P ++ X :: Q) ->
  exists z', zslDelete z (z_loc X) = Some z' /\ zsl_repr z' (P ++ Q).
Proof.
  intros Hz. destruct (node_fields z P Q X Hz) as [Hs He _ _ _]. unfold zslDelete, zslGetNodeElement.
  rewrite Hs, He. cbn [mbind option_bind].
  destruct (find_node_ok z P Q X Hz) as (update & -> & Hup & Hf). cbn [mbind option_bind]. rewrite Hf.
  cbn [mbind option_bind].
  destruct (unlink_node_ok z P Q X update Hz Hup) as (z1 & -> & Hz1 & Hh1 & _ & Hd & Hni & _). cbn [mbind option_bind].
  destruct (free_ok z1 (P ++ Q) X Hz1) as (z2 & -> & Hz2 & _); [|done|by exists z2].
  rewrite (no_levels _ _ (dt_node _ _ Hd)). by eexists.
Qed.

(** ** Changing a score *)

Definition rescore (X : znode) (s : T) : znode :=
  {| z_loc := z_loc X; z_score := s; z_ele := z_ele X; z_h := z_h X |}.

(** Writing the score of a node that is not in the list. *)
Lemma detached_rescore m X s : detached m X -> isnan s = false ->
  exists m', set_score m (z_loc X) s = Some m' /\ detached m' (rescore X s) /\ agree m m' (z_loc X).
Proof.
  intros [[Hs He Hv Hn Hh] Hb Hl] Hns. unfold set_score. rewrite store_ok by (by rewrite Hs). cbn [mbind option_bind].
  eexists. split; [done|]. split.
  - split; [split|..]; cbn; rewrite ?lookup_insert_eq; done.
  - split; cbn; intros; try done. by rewrite lookup_insert_ne.
Qed.

(** Links depend on the addresses and the levels only. *)
Definition shape (x : znode) : positive * nat := (z_loc x, z_h x).

Lemma findh_shape l (B B' : list znode) : map shape B = map shape B' -> findh l B = findh l B'.
Proof.
  revert B'. induction B as [|x B IH]; intros [|y B']; try done. cbn [map findh]. intros [= Hl Hh HB].
  by rewrite Hl, Hh, (IH B').
Qed.

Lemma last_shape (A A' : list znode) : map shape A = map shape A' -> shape <$> last A = shape <$> last A'.
Proof. intros HA. rewrite <- !fmap_last. f_equal. exact HA. Qed.

Lemma shape_split (A B ns : list znode) : map shape ns = map shape (A ++ B) ->
  exists A0 B0, ns = A0 ++ B0 /\ map shape A0 = map shape A /\ map shape B0 = map shape B.
Proof.
  intros Heq. exists (take (length A) ns), (drop (length A) ns). split; [by rewrite take_drop|].
  assert (Hl : length A = length (map shape A)) by (by rewrite length_map).
  pose proof (f_equal (take (length A)) Heq) as Ht. pose proof (f_equal (drop (length A)) Heq) as Hd.
  rewrite map_app in Ht, Hd. rewrite Hl in Ht at 2. rewrite Hl in Hd at 2.
  rewrite take_app_length in Ht. rewrite drop_app_length in Hd. rewrite <- Ht, <- Hd.
  split; symmetry; [apply firstn_map|apply skipn_map].
Qed.

Lemma links_shape header L m m' (ns ns' : list znode) : map shape ns = map shape ns' ->
  m_fwd m' = m_fwd m -> m_span m' = m_span m -> links header L m ns -> links header L m' ns'.
Proof.
  intros Hsh Ef Ep Hl A B l -> Hh. rewrite Ef, Ep.
  destruct (shape_split A B ns Hsh) as (A0 & B0 & -> & HA & HB).
  pose proof (last_shape A0 A HA) as Hlast. rewrite <- (findh_shape l B0 B HB).
  assert (Hc : cur header A = cur header A0 /\ (has_level L l A <-> has_level L l A0)).
  { unfold cur, has_level. destruct (last A0), (last A); try done. cbn in Hlast. injection Hlast as -> ->. done. }
  destruct Hc as [-> Hc]. apply Hl; [done|by apply Hc].
Qed.

Lemma backs_shape m m' (ns ns' : list znode) : map shape ns = map shape ns' -> m_back m' = m_back m ->
  backs m ns -> backs m' ns'.
Proof.
  intros Hsh Eb Hb A x B ->. rewrite Eb. destruct (shape_split A (x :: B) ns Hsh) as (A0 & B0 & -> & HA & HB).
  destruct B0 as [|y B0]; [done|]. injection HB as Hly _ _. rewrite <- Hly, (Hb A0 y B0 eq_refl). f_equal.
  pose proof (last_shape A0 A HA) as Hlast.
  destruct (last A0), (last A); try done. cbn in Hlast. injection Hlast as Hlo _. cbn. by rewrite Hlo.
Qed.

(** Changing the score of a node in place. *)
Lemma rescore_repr z (P Q : list znode) X s m : zsl_repr z (P ++ X :: Q) -> isnan s = false ->
  set_score (zsl_mem z) (z_loc X) s = Some m ->
  Forall (fun x => node_lt x (rescore X s)) P -> Forall (node_lt (rescore X s)) Q ->
  zsl_repr (with_mem z m) (P ++ rescore X s :: Q).
Proof.
  intros Hz Hn Hm HP HQ. pose proof (node_fields z P Q X Hz) as HX.
  unfold set_score in Hm. rewrite store_ok in Hm by (rewrite (no_score _ _ HX); by eexists).
  cbn in Hm. injection Hm as <-. set (N := rescore X s) in *.
  assert (Hsh : map shape (P ++ X :: Q) = map shape (P ++ N :: Q)) by (rewrite !map_app; done).
  assert (Hlocs : map z_loc (P ++ X :: Q) = map z_loc (P ++ N :: Q)) by (rewrite !map_app; done).
  assert (Hlast : z_loc <$> last (P ++ X :: Q) = z_loc <$> last (P ++ N :: Q)).
  { pose proof (last_shape _ _ Hsh) as Hl. destruct (last (P ++ X :: Q)), (last (P ++ N :: Q)); try done.
    cbn in Hl. injection Hl as Hl _. cbn. by rewrite Hl. }
  assert (Hzl : zlen (P ++ N :: Q) = zlen (P ++ X :: Q)) by (by autorewrite with zlen).
  destruct Hz as [H1 H2 H3 H4 H5 H6 H7 H8 H9 H10 H11 H12 H13]. split; cbn; try done.
  - by rewrite <- Hlocs.
  - rewrite Hlocs in H1. clear Hlast Hsh Hlocs. rewrite <- Permutation_middle in H1, H2 |- *. cbn [map] in H1.
    apply list.Forall_cons in H2 as [_ H2]. constructor.
    + destruct HX. split; cbn; rewrite ?lookup_insert_eq; done.
    + apply NoDup_cons in H1 as [_ [H1 _]%NoDup_cons]. rewrite list.Forall_forall in *. intros x Hx.
      destruct (H2 x Hx). split; cbn; try done. rewrite lookup_insert_ne; [done|].
      intros Heq. apply H1. cbn. rewrite Heq. by apply loc_elem.
  - rewrite <- Permutation_middle in H5 |- *. apply list.Forall_cons in H5 as [? ?]. by constructor.
  - destruct H6 as [?|H6]; [by left|right]. rewrite <- Permutation_middle in H6 |- *.
    apply Exists_cons in H6 as [?|?]; [by left|by right].
  - by rewrite H7.
  - by rewrite Hzl.
  - apply sorted_insert; [by eapply nodes_sorted_delete|done|done].
  - by eapply links_shape.
  - eapply backs_shape; [exact Hsh|done|done].
  - by rewrite H13.
Qed.

Lemma slt_node_lt (x y : znode) : slt (z_score x) (z_score y) = true -> node_lt x y.
Proof. intros Hs. unfold node_lt, pair_lt, pair_cmp. by rewrite Hs. Qed.

(** The test of the fast path: the neighbours stay on their sides. *)
Lemma fast_path_order (P Q : list znode) X s : StronglySorted node_lt (P ++ X :: Q) ->
  Forall (fun x => isnan (z_score x) = false) (P ++ X :: Q) -> isnan s = false ->
  (match last P with None => true | Some b => slt (z_score b) s end) = true ->
  (match head Q with None => true | Some f => slt s (z_score f) end) = true ->
  Forall (fun x => node_lt x (rescore X s)) P /\ Forall (node_lt (rescore X s)) Q.
Proof.
  intros Hs Hn Hns HP HQ. apply nodes_sorted_delete in Hs. apply StronglySorted_app in Hs as (_ & HsP & HsQ).
  rewrite list.Forall_forall in Hn. split.
  - destruct (last P) as [b|] eqn:E; [|apply last_None in E as ->; by constructor].
    apply last_Some in E as (P' & ->).
    assert (Hb : node_lt b (rescore X s)) by (by apply slt_node_lt).
    apply list.Forall_app. split; [|by repeat constructor].
    apply StronglySorted_app in HsP as (HsP & _). apply list.Forall_forall. intros x Hx.
    apply (node_lt_trans x b); [apply Hn; set_solver|apply Hn; set_solver|done|apply HsP; set_solver|done].
  - destruct Q as [|f Q]; [by constructor|]. cbn in HQ.
    assert (Hb : node_lt (rescore X s) f) by (by apply slt_node_lt).
    constructor; [done|]. inversion HsQ as [|? ? _ Hall]; subst. rewrite list.Forall_forall in *. intros x Hx.
    apply (node_lt_trans _ f x); [done|apply Hn; set_solver|apply Hn; set_solver|done|by apply Hall].
Qed.

Lemma update_score_ok z (P Q : list znode) X s : zsl_repr z (P ++ X :: Q) -> isnan s = false ->
  z_ele X ∉ map z_ele (P ++ Q) ->
  exists z', zslUpdateScore z (z_loc X) s = Some z' /\ zsl_repr z' (ins (rescore X s) (P ++ Q)).
Proof.
  intros Hz Hns Hel. pose proof (node_fields z P Q X Hz) as HX. pose proof (repr_nonan _ _ Hz) as Hnn.
  assert (HnPQ : Forall (fun x => isnan (z_score x) = false) (P ++ Q)).
  { rewrite <- Permutation_middle in Hnn. by apply list.Forall_cons in Hnn as [_ ?]. }
  unfold zslUpdateScore. rewrite (zr_back _ _ Hz P X Q eq_refl). cbn [mbind option_bind].
  destruct (x_links (zsl_header z) (zsl_level z) P Q X (zsl_mem z) 0 (zr_links _ _ Hz)) as [-> _].
  { pose proof (no_h _ _ HX). lia. }
  cbn [mbind option_bind]. rewrite findh_0.
  2:{ pose proof (zr_nodes _ _ Hz) as Hns'. apply list.Forall_app in Hns' as [_ [_ Hq]%list.Forall_cons].
      eapply list.Forall_impl; [exact Hq|]. intros x []. lia. }
  assert (Hsc : forall x, x ∈ P ++ X :: Q -> m_score (zsl_mem z) !! z_loc x = Some (z_score x)).
  { intros x Hx. apply (no_score _ _ (node_of z _ x Hz Hx)). }
  assert (Hab : match z_loc <$> last P with
    | Some b => s0 ← m_score (zsl_mem z) !! b; Some (slt s0 s) | None => Some true end =
    Some (match last P with None => true | Some b => slt (z_score b) s end)).
  { destruct (last P) as [b|] eqn:E; [|done]. apply last_Some_elem_of in E. cbn. by rewrite Hsc by set_solver. }
  assert (Hbf : match z_loc <$> head Q with
    | Some f => s0 ← m_score (zsl_mem z) !! f; Some (slt s s0) | None => Some true end =
    Some (match head Q with None => true | Some f => slt s (z_score f) end)).
  { destruct Q as [|f Q]; [done|]. cbn. by rewrite Hsc by set_solver. }
  rewrite Hab. cbn [mbind option_bind]. rewrite Hbf. cbn [mbind option_bind].
  destruct (andb _ _) eqn:Efast.
  - apply andb_true_iff in Efast as [E1 E2].
    destruct (fast_path_order P Q X s (zr_sorted _ _ Hz) Hnn Hns E1 E2) as [HP HQ].
    assert (Hset : exists m, set_score (zsl_mem z) (z_loc X) s = Some m).
    { unfold set_score. rewrite store_ok by (rewrite (no_score _ _ HX); by eexists). by eexists. }
    destruct Hset as [m Hset]. rewrite Hset. cbn [mbind option_bind]. eexists. split; [done|].
    rewrite ins_at by done. by apply rescore_repr.
  - destruct HX as [Hs He _ _ _]. unfold zslGetNodeElement. rewrite Hs, He. cbn [mbind option_bind].
    destruct (find_node_ok z P Q X Hz) as (update & -> & Hup & Hf). cbn [mbind option_bind]. rewrite Hf.
    cbn [mbind option_bind].
    destruct (unlink_node_ok z P Q X update Hz Hup) as (z1 & -> & Hz1 & Hh1 & _ & Hd & Hni & _). cbn [mbind option_bind].
    destruct (detached_rescore (zsl_mem z1) X s Hd Hns) as (m & -> & Hd' & Hag). cbn [mbind option_bind].
    pose proof (repr_agree z1 m (P ++ Q) (z_loc X) Hz1 Hag Hni) as Hz2.
    destruct (ins_split (rescore X s) (P ++ Q)) as (P' & Q' & Heq & -> & HP' & HQ'); [done|done|apply (zr_sorted _ _ Hz1)|done|].
    rewrite Heq in *. apply (insert_node_ok (with_mem z1 m) P' Q' (rescore X s)); try done.
    pose proof (zr_bound _ _ Hz) as Hb. rewrite <- Heq. autorewrite with zlen in *. lia.
Qed.
End Ops.

(** * Sorted sets: ranks *)

Section Rank.
Context {T : Type} `{ScoreOrder T}.

Abbreviation zskiplist := (zskiplist (T := T)).
Abbreviation mem := (zskiplistNodes (T := T)).
Abbreviation znode := (znode (T := T)).

Lemma repr_h1 z (ns : list znode) : zsl_repr z ns -> Forall (fun x => (1 <= z_h x)%nat) ns.
Proof. intros Hz. eapply list.Forall_impl; [apply (zr_nodes _ _ Hz)|]. intros x []. lia. Qed.

Lemma fuel_ok z (ns P C : list znode) : zsl_repr z ns -> (exists Q, ns = P ++ C ++ Q) -> (length C < loop_fuel z)%nat.
Proof.
  intros Hz (Q & ->). unfold loop_fuel. rewrite (zr_length _ _ Hz). unfold zlen. rewrite !length_app. lia.
Qed.

Lemma tall_le l l' (A : list znode) : (l' <= l)%nat -> tall l A -> tall l' A.
Proof. unfold tall. destruct (last A); [lia|done]. Qed.

(** One level of a descent, ranks counted from [off]. *)
Lemma walk_level z (ns P Q A : list znode) test off n : zsl_repr z ns -> ns = P ++ Q ->
  (forall A x B, ns = A ++ x :: B -> off <= zlen A ->
     test (zlen A + 1 - off) (z_loc x) = Some (bool_decide (zlen A + 1 <= zlen P))) ->
  (n < zsl_level z)%nat -> (exists C, P = A ++ C) -> (A = [] \/ tall n A) -> 0 <= off <= zlen A ->
  walk (loop_fuel z) (zsl_mem z) test n (cur (zsl_header z) A) (zlen A - off) =
    Some (cur (zsl_header z) (predl n P), zlen (predl n P) - off) /\
  (exists C, P = predl n P ++ C) /\ (predl n P = [] \/ tall (n - 1) (predl n P)) /\ off <= zlen (predl n P).
Proof.
  intros Hz HPQ Htest Hn (C & HP) HA Ho.
  destruct (walk_ok (zsl_header z) (zsl_level z) (zsl_mem z) ns (zr_links _ _ Hz) (repr_h1 _ _ Hz) (zr_bound _ _ Hz)
    P Q HPQ test off ltac:(lia) Htest (loop_fuel z) n A C HP) as (A' & C' & -> & Ho' & HP' & HC' & Hh' & Ht').
  { unfold has_level. destruct HA as [->|Ht]; [cbn; lia|]. unfold tall in Ht. destruct (last A); lia. }
  { eapply (fuel_ok z ns A C Hz). exists Q. by rewrite HPQ, HP, <- app_assoc. }
  { lia. }
  assert (HA' : A' = [] \/ tall n A') by (by destruct Ht' as [->|?]; [|right]).
  assert (predl n P = A') as ->.
  { eapply predl_unique; [done|done|]. by destruct HA' as [->|?]. }
  split_and!; [done|by exists C'| |done]. destruct HA' as [?|?]; [by left|right]. by eapply tall_le; [|done]; lia.
Qed.

(** ** The rank of an element *)

Section GetRank.
Context (z : zskiplist) (ns : list znode) (Hz : zsl_repr z ns).
Context (s : T) (e : list Z) (Hs : isnan s = false).

(** Nodes up to the key, and after it. *)
Context (P Q : list znode) (HPQ : ns = P ++ Q).
Context (HP : Forall (fun x => 0 <= pair_cmp s e (z_score x) (z_ele x)) P).
Context (HQ : Forall (fun x => pair_cmp s e (z_score x) (z_ele x) < 0) Q).

Lemma upto_test A x B : ns = A ++ x :: B -> 0 <= zlen A ->
  (c ← zslCompareWithNode s e (zsl_mem z) (Some (z_loc x)); Some (c >=? 0)) = Some (bool_decide (zlen A + 1 <= zlen P)).
Proof.
  intros HA _. rewrite (compare_node z ns) by (try done; rewrite HA; in_list). cbn [mbind option_bind]. f_equal.
  apply (prefix_bool ns P Q (fun x => pair_cmp s e (z_score x) (z_ele x) >=? 0) HPQ) with (B := B); [..|done].
  - eapply list.Forall_impl; [exact HP|]. intros y Hy. rewrite Z.geb_leb. by apply Z.leb_le.
  - eapply list.Forall_impl; [exact HQ|]. intros y Hy. cbn in *. rewrite Z.geb_leb. by apply Z.leb_gt.
Qed.

Lemma rank_loop_ok n : forall A, (n <= zsl_level z)%nat -> (exists C, P = A ++ C) -> (A = [] \/ tall (n - 1) A) ->
  rank_loop (loop_fuel z) (zsl_mem z) (zsl_header z)
    (fun _ y => c ← zslCompareWithNode s e (zsl_mem z) (Some y); Some (c >=? 0))
    (fun x => c ← zslCompareWithNode s e (zsl_mem z) (Some x); Some (c =? 0)) n (cur (zsl_header z) A) (zlen A) =
  Some (match last P with
        | Some x => if pair_cmp s e (z_score x) (z_ele x) =? 0 then if (n =? 0)%nat then 0 else zlen P else 0
        | None => 0
        end).
Proof.
  induction n as [|n IH]; intros A Hn HA Ht; cbn [rank_loop].
  { destruct (last P); [|done]. by destruct (_ =? 0). }
  replace (S n - 1)%nat with n in Ht by lia.
  destruct (walk_level z ns P Q A (fun _ y => c ← zslCompareWithNode s e (zsl_mem z) (Some y); Some (c >=? 0))
    0 n Hz HPQ upto_test ltac:(lia) HA Ht) as (Hwk & (C & HC) & Ht' & _); [unfold zlen; lia|].
  rewrite !Z.sub_0_r in Hwk. rewrite Hwk. clear Hwk.
  cbn [mbind option_bind]. set (A' := predl n P) in *.
  assert (Hin : forall x, x ∈ P -> x ∈ ns) by (intros x Hx; rewrite HPQ; apply elem_of_app; by left).
  destruct (last A') as [y|] eqn:El.
  2:{ apply last_None in El. rewrite El in *. rewrite bool_decide_true by done. cbn [mbind option_bind].
      rewrite IH; [|lia|by exists C|done]. destruct (last P) eqn:EP; [|done]. destruct (_ =? 0); [|done].
      destruct n as [|n]; [|done]. exfalso. unfold A' in El. rewrite predl_0 in El.
      - by rewrite El in EP.
      - pose proof (repr_h1 _ _ Hz) as H1. rewrite HPQ in H1. by apply list.Forall_app in H1 as [? _]. }
  apply last_Some in El as (A1 & HA1).
  assert (Hy : y ∈ P) by (rewrite HC, HA1; in_list).
  assert (Hcur : cur (zsl_header z) A' = z_loc y) by (unfold cur; by rewrite HA1, last_snoc).
  assert (Hne : z_loc y <> zsl_header z).
  { intros Heq. pose proof (zr_locs _ _ Hz) as [Hn1 _]%NoDup_cons. apply Hn1. rewrite <- Heq. by apply loc_elem, Hin. }
  rewrite Hcur, bool_decide_false by done. rewrite (compare_node z ns) by auto. cbn [mbind option_bind].
  assert (Hlast : last P = Some y \/ C <> []).
  { destruct C; [left|by right]. rewrite HC, HA1, app_nil_r. apply last_snoc. }
  destruct (Z.eqb_spec (pair_cmp s e (z_score y) (z_ele y)) 0) as [Hc|Hc].
  - assert (HCn : C = []).
    { destruct C as [|c C]; [done|]. exfalso.
      assert (Hcin : c ∈ P) by (rewrite HC; in_list).
      pose proof (zr_sorted _ _ Hz) as Hso. rewrite HPQ in Hso. apply StronglySorted_app_1_l in Hso.
      rewrite HC in Hso. apply StronglySorted_app in Hso as (Hlt & _ & _).
      specialize (Hlt y c ltac:(rewrite HA1; in_list) ltac:(by left)). unfold node_lt, pair_lt in Hlt.
      rewrite <- (pair_eq_l s e) in Hlt; [|done|apply (no_nan _ _ (node_of z ns y Hz ltac:(auto)))|done].
      rewrite list.Forall_forall in HP. specialize (HP c Hcin). cbn in HP. lia. }
    subst C. rewrite app_nil_r in HC. destruct Hlast as [Hl|]; [|done]. rewrite Hl.
    rewrite (proj2 (Z.eqb_eq _ _)) by done. cbn [Nat.eqb]. by rewrite <- HC.
  - rewrite <- Hcur, IH; [|lia|by exists C|done]. destruct (last P) as [w|] eqn:EP; [|done].
    destruct (Z.eqb_spec (pair_cmp s e (z_score w) (z_ele w)) 0) as [Hw|Hw]; [|done].
    destruct n as [|n]; [|done]. exfalso. unfold A' in HA1. rewrite predl_0 in HA1.
    + rewrite HA1, last_snoc in EP. injection EP as ->. done.
    + pose proof (repr_h1 _ _ Hz) as H1. rewrite HPQ in H1. by apply list.Forall_app in H1 as [? _].
Qed.
End GetRank.

(** ** The rank of a node *)

Lemma distance_ok z (ns : list znode) fuel : zsl_repr z ns -> forall P Q X dist, ns = P ++ X :: Q ->
  (length Q < fuel)%nat -> 0 <= dist -> dist + zlen Q < 2 ^ 63 ->
  distance_loop fuel (zsl_mem z) (Some (z_loc X)) dist = Some (dist + zlen Q).
Proof.
  intros Hz. induction fuel as [|fuel IH]; intros P Q X dist Hns Hf Hd Hb; [lia|]. cbn [distance_loop].
  assert (HX : node_ok (zsl_mem z) X) by (apply (node_of z ns X Hz); rewrite Hns, elem_of_app, elem_of_cons; tauto).
  rewrite (no_levels _ _ HX). cbn [mbind option_bind]. pose proof (no_h _ _ HX) as Hh.
  assert (Hcur : cur (zsl_header z) (P ++ [X]) = z_loc X) by (unfold cur; by rewrite last_snoc).
  assert (Hhl : has_level (zsl_level z) (z_h X - 1) (P ++ [X])) by (unfold has_level; rewrite last_snoc; lia).
  assert (Hsp : ns = (P ++ [X]) ++ Q) by (by rewrite Hns, <- app_assoc).
  rewrite <- Hcur. rewrite (span_links (zsl_header z) (zsl_level z) (zsl_mem z) ns (P ++ [X]) Q
    _ (zr_links _ _ Hz) Hsp Hhl (repr_h1 _ _ Hz)). cbn [mbind option_bind].
  destruct (zr_links _ _ Hz (P ++ [X]) Q (z_h X - 1)%nat Hsp Hhl) as [-> _]. cbn [mbind option_bind].
  destruct (split_low (z_h X - 1) Q) as [HQ|(Q1 & y & Q2 & HQ & HQ1 & Hy)].
  - rewrite findh_all_low by done. cbn [fst snd]. rewrite u64_id by (unfold zlen in *; lia). by destruct fuel.
  - rewrite HQ, findh_low, findh_high by done. cbn [fst snd].
    rewrite HQ in Hb, Hf. rewrite zlen_app, zlen_cons in Hb |- *. rewrite length_app in Hf. cbn in Hf.
    rewrite u64_id by (unfold zlen in *; lia).
    rewrite (IH (P ++ X :: Q1) Q2 y); [|by rewrite Hns, HQ, <- app_assoc|lia|unfold zlen in *; lia|lia]. f_equal. lia.
Qed.

Lemma rank_by_node_ok z (P Q : list znode) X : zsl_repr z (P ++ X :: Q) ->
  zslGetRankByNode z (z_loc X) = Some (zlen P + 1).
Proof.
  intros Hz. unfold zslGetRankByNode. pose proof (zr_bound _ _ Hz) as Hb. pose proof (zr_length _ _ Hz) as Hl.
  rewrite zlen_app, zlen_cons in Hb, Hl.
  rewrite (distance_ok z _ _ Hz P Q X 0 eq_refl); [|unfold loop_fuel; unfold zlen in *; lia|lia|unfold zlen in *; lia].
  cbn [mbind option_bind]. rewrite Hl, u64_id by (unfold zlen in *; lia). f_equal. lia.
Qed.

(** ** The element of a rank *)

Lemma rank_test (ns P Q : list znode) off rank : ns = P ++ Q -> (Q <> [] -> zlen P = off + rank) -> zlen P <= off + rank ->
  forall A x B, ns = A ++ x :: B -> off <= zlen A ->
  (fun t (_ : positive) => Some (t <=? rank)) (zlen A + 1 - off) (z_loc x) = Some (bool_decide (zlen A + 1 <= zlen P)).
Proof.
  intros HPQ HQ HP A x B HA _. cbn. f_equal. destruct Q as [|q Q].
  - rewrite app_nil_r in HPQ. subst P. rewrite HA in *. autorewrite with zlen in *. pose proof (zlen_nonneg B).
    rewrite bool_decide_true by lia. apply Z.leb_le. lia.
  - rewrite HQ by done. destruct (Z.leb_spec (zlen A + 1 - off) rank), (bool_decide_reflect (zlen A + 1 <= off + rank));
      done || lia.
Qed.

(** From a node of the list: the node [rank] places after it. *)
Lemma by_rank_loop_ok z (ns P Q : list znode) off rank : zsl_repr z ns -> ns = P ++ Q ->
  zlen P <= off + rank -> (Q <> [] -> zlen P = off + rank) -> 0 <= off ->
  forall n A, (n <= zsl_level z)%nat -> (exists C, P = A ++ C) -> (A = [] \/ tall (n - 1) A) -> off <= zlen A ->
  by_rank_loop (loop_fuel z) (zsl_mem z) rank n (cur (zsl_header z) A) (zlen A - off) =
  Some (if bool_decide (n <> 0%nat /\ zlen P = off + rank) then Some (cur (zsl_header z) P) else None).
Proof.
  intros Hz HPQ Hle HQ Hoff. induction n as [|n IH]; intros A Hn HA Ht Ho; cbn [by_rank_loop].
  { by rewrite bool_decide_false by (by intros [? _]). }
  replace (S n - 1)%nat with n in Ht by lia.
  destruct (walk_level z ns P Q A _ off n Hz HPQ (rank_test ns P Q off rank HPQ HQ Hle) ltac:(lia) HA Ht)
    as (-> & (C & HC) & Ht' & Ho'); [lia|]. cbn [mbind option_bind].
  pose proof (predl_length n P) as Hpl.
  destruct (Z.eqb_spec (zlen (predl n P) - off) rank) as [Heq|Hne].
  - assert (C = []) as ->.
    { apply zlen_0_nil. pose proof (f_equal zlen HC) as Hz'. rewrite zlen_app in Hz'. pose proof (zlen_nonneg C). lia. }
    rewrite app_nil_r in HC. rewrite <- HC in *. by rewrite bool_decide_true by (split; [done|lia]).
  - rewrite IH; [|lia|by exists C|done|done]. assert (Hiff : n <> 0%nat /\ zlen P = off + rank <-> S n <> 0%nat /\ zlen P = off + rank);
      [|by rewrite (bool_decide_ext _ _ Hiff)].
    split; [intros [? ?]; by split|]. intros [_ Hp]. split; [|done]. intros ->. rewrite predl_0 in Hne; [lia|].
    pose proof (repr_h1 _ _ Hz) as H1. rewrite HPQ in H1. by apply list.Forall_app in H1 as [? _].
Qed.

Lemma by_rank_ok z (ns : list znode) rank : zsl_repr z ns -> 1 <= rank ->
  zslGetElementByRank z rank = Some (z_loc <$> ns !! Z.to_nat (rank - 1)).
Proof.
  intros Hz Hr. pose proof (zr_level _ _ Hz) as HL. unfold zslGetElementByRank, zslGetElementByRankFromNode.
  replace (S (zsl_level z - 1)) with (zsl_level z) by lia.
  set (P := take (Z.to_nat rank) ns). set (Q := drop (Z.to_nat rank) ns).
  assert (HPQ : ns = P ++ Q) by (by unfold P, Q; rewrite take_drop).
  assert (HzP : zlen P = Z.min rank (zlen ns)) by (unfold P, zlen; rewrite length_take; lia).
  pose proof (by_rank_loop_ok z ns P Q 0 rank Hz HPQ ltac:(lia)) as Hby.
  specialize (Hby ltac:(intros HQ; enough (rank <= zlen ns) by lia;
    destruct (Z.le_gt_cases rank (zlen ns)); [done|]; destruct HQ; unfold Q; apply drop_ge; unfold zlen in *; lia)).
  specialize (Hby ltac:(lia) (zsl_level z) [] ltac:(lia) ltac:(by exists P) ltac:(by left) ltac:(done)).
  cbn in Hby. change (zlen [] - 0) with 0 in Hby. rewrite Hby. f_equal.
  destruct (bool_decide_reflect (zsl_level z <> 0%nat /\ zlen P = 0 + rank)) as [[_ Hp]|Hp].
  - destruct (lookup_lt_is_Some_2 ns (Z.to_nat (rank - 1))) as [x Hx]; [unfold zlen in *; lia|]. rewrite Hx. cbn.
    unfold cur. assert (last P = Some x) as ->; [|done]. rewrite last_lookup.
    replace (Init.Nat.pred (length P)) with (Z.to_nat (rank - 1)) by (unfold zlen in Hp; lia).
    unfold P. by rewrite lookup_take_lt by lia.
  - rewrite lookup_ge_None_2; [done|]. assert (zlen P <> rank) by (intros Heq; apply Hp; split; [lia|done]).
    unfold zlen in *. lia.
Qed.

(** ** The rank of a key *)

Lemma get_rank_ok z (P Q : list znode) s e : zsl_repr z (P ++ Q) -> isnan s = false ->
  Forall (fun x => 0 <= pair_cmp s e (z_score x) (z_ele x)) P ->
  Forall (fun x => pair_cmp s e (z_score x) (z_ele x) < 0) Q ->
  zslGetRank z s e = Some (match last P with
    | Some x => if pair_cmp s e (z_score x) (z_ele x) =? 0 then zlen P else 0 | None => 0 end).
Proof.
  intros Hz Hs HP HQ. pose proof (zr_level _ _ Hz) as HL. unfold zslGetRank.
  pose proof (rank_loop_ok z (P ++ Q) Hz s e Hs P Q eq_refl HP HQ (zsl_level z) []) as Hr.
  cbn [zlen] in Hr. change (zlen []) with 0 in Hr. change (cur (zsl_header z) []) with (zsl_header z) in Hr.
  rewrite Hr; [|lia|by exists P|by left]. rewrite (proj2 (Nat.eqb_neq _ _)) by lia. done.
Qed.
End Rank.
