(* ===== verification/SkiplistRange.v ===== *)
(** * Sorted sets: ranges

    The tests of a range are monotone along the list, so a range is a segment
    of it; [zslNthInRange] finds the places of the segment from either end. *)

From Stdlib Require Import Sorting.Sorted.
From stdpp Require Import base list sorting numbers option tactics gmap.
From S2P Require Import Prelude Order Skiplist SkiplistRep SkiplistUpd SkiplistDel SkiplistOps.

Section Range.
Context {T : Type} `{ScoreOrder T}.

Abbreviation zskiplist := (zskiplist (T := T)).
Abbreviation mem := (zskiplistNodes (T := T)).
Abbreviation znode := (znode (T := T)).

(** ** Segments *)

(** [g] holds from some node on. *)
Definition upward (ns : list znode) (g : znode -> bool) : Prop :=
  forall A x y B C, ns = A ++ x :: B ++ y :: C -> g x = true -> g y = true.

Lemma upward_tail x ns g : upward (x :: ns) g -> upward ns g.
Proof. intros Hu A a b B C ->. by apply (Hu (x :: A) a b B C). Qed.

Lemma upward_split ns g : upward ns g ->
  ns = filter (fun x => g x = false) ns ++ filter (fun x => g x = true) ns.
Proof.
  induction ns as [|x ns IH]; intros Hu; [done|]. rewrite !filter_cons.
  destruct (g x) eqn:Ex.
  - rewrite decide_False, decide_True by done.
    assert (Hall : Forall (fun y => g y = true) ns).
    { apply list.Forall_forall. intros y (B & C & ->)%list_elem_of_split. by apply (Hu [] x y B C). }
    rewrite (filter_none (fun y => g y = false)), (filter_all (fun y => g y = true)); [done|done|].
    eapply list.Forall_impl; [exact Hall|]. cbn. congruence.
  - rewrite decide_True, decide_False by done. cbn [app]. f_equal. apply IH. by eapply upward_tail.
Qed.

(** The three parts of a list: before, within and after the range. *)
Definition below (g : znode -> bool) (ns : list znode) := filter (fun x => g x = false) ns.
Definition within (g l : znode -> bool) (ns : list znode) := filter (fun x => g x = true /\ l x = true) ns.
Definition above (g l : znode -> bool) (ns : list znode) := filter (fun x => g x = true /\ l x = false) ns.

Lemma upward_app_r A B g : upward (A ++ B) g -> upward B g.
Proof. induction A as [|a A IH]; [done|]. intros Hu. by apply IH, (upward_tail a). Qed.

Lemma range_split ns g l : upward ns g -> upward ns (fun x => negb (l x)) ->
  ns = below g ns ++ within g l ns ++ above g l ns.
Proof.
  intros Hg Hl. pose proof (upward_split ns g Hg) as Hs. rewrite Hs at 1. unfold below. f_equal.
  assert (Hl' : upward (filter (fun x => g x = true) ns) (fun x => negb (l x))).
  { eapply upward_app_r. by rewrite <- Hs. }
  rewrite (upward_split _ _ Hl') at 1. unfold within, above.
  rewrite !list_filter_filter. f_equal; apply list_filter_iff; intros x; destruct (l x); cbn; intuition congruence.
Qed.

Lemma sorted_upward ns g : StronglySorted node_lt ns ->
  (forall x y, x ∈ ns -> y ∈ ns -> node_lt x y -> g x = true -> g y = true) -> upward ns g.
Proof.
  intros Hs Hg A x y B C ->. apply Hg; [in_list|in_list|].
  apply StronglySorted_app_1_r in Hs. inversion Hs as [|? ? _ Hall]; subst.
  rewrite list.Forall_forall in Hall. apply Hall. in_list.
Qed.

(** ** Scores *)

Lemma sle_lt_trans (a b c : T) : scmp a b = Some Lt \/ scmp a b = Some Eq -> scmp b c = Some Lt -> scmp a c = Some Lt.
Proof. intros [Hab|Hab] Hbc; [by eapply scmp_lt_trans|]. by rewrite <- (scmp_eq_l a b c Hab). Qed.

Lemma scmp_eq_r (a b c : T) : scmp b c = Some Eq -> scmp a b = scmp a c.
Proof.
  intros Hbc. rewrite (scmp_opp b a), (scmp_opp c a). assert (Hcb : scmp c b = Some Eq) by (by rewrite (scmp_opp b c), Hbc).
  by rewrite (scmp_eq_l c b a Hcb).
Qed.

Lemma slt_le_trans (a b c : T) : scmp a b = Some Lt -> scmp b c = Some Lt \/ scmp b c = Some Eq -> scmp a c = Some Lt.
Proof. intros Hab [Hbc|Hbc]; [by eapply scmp_lt_trans|]. by rewrite <- (scmp_eq_r a b c Hbc). Qed.

Lemma sle_trans (a b c : T) : scmp a b = Some Lt \/ scmp a b = Some Eq -> scmp b c = Some Lt \/ scmp b c = Some Eq ->
  scmp a c = Some Lt \/ scmp a c = Some Eq.
Proof.
  intros Hab [Hbc|Hbc]; [left; by eapply sle_lt_trans|]. by rewrite <- !(scmp_eq_r a b c Hbc).
Qed.

Lemma node_lt_score (x y : znode) : isnan (z_score x) = false -> isnan (z_score y) = false -> node_lt x y ->
  scmp (z_score x) (z_score y) = Some Lt \/ scmp (z_score x) (z_score y) = Some Eq.
Proof.
  intros Hx Hy. unfold node_lt, pair_lt.
  destruct (pair_cases (z_score x) (z_ele x) (z_score y) (z_ele y) Hx Hy) as [[? _]|[[_ ->]|[? _]]]; [by left|lia|by right].
Qed.

Section Spec.
Context (range : zrangespec (T := T)).

Definition gte_of (x : znode) : bool := zslValueGteMin (z_score x) range.
Definition lte_of (x : znode) : bool := zslValueLteMax (z_score x) range.

Lemma gte_up ns : StronglySorted node_lt ns -> Forall (fun x => isnan (z_score x) = false) ns -> upward ns gte_of.
Proof.
  intros Hs Hn. apply sorted_upward; [done|]. rewrite list.Forall_forall in Hn. intros x y Hx Hy Hlt.
  pose proof (node_lt_score x y (Hn x Hx) (Hn y Hy) Hlt) as Hxy.
  unfold gte_of, zslValueGteMin, slt, sle. destruct (rs_minex range); rewrite !bool_decide_eq_true; intros Hm.
  - by eapply slt_le_trans.
  - by eapply sle_trans.
Qed.

Lemma lte_down ns : StronglySorted node_lt ns -> Forall (fun x => isnan (z_score x) = false) ns ->
  upward ns (fun x => negb (lte_of x)).
Proof.
  intros Hs Hn. apply sorted_upward; [done|]. rewrite list.Forall_forall in Hn. intros x y Hx Hy Hlt.
  pose proof (node_lt_score x y (Hn x Hx) (Hn y Hy) Hlt) as Hxy.
  rewrite !negb_true_iff, <- !not_true_iff_false. intros Hm Hc. apply Hm.
  unfold lte_of, zslValueLteMax, slt, sle in *. destruct (rs_maxex range); rewrite !bool_decide_eq_true in *.
  - by eapply sle_lt_trans.
  - by eapply sle_trans.
Qed.

(** What is before the range is not after it, unless the range is empty. *)
Lemma proper_range (x : znode) : isnan (z_score x) = false -> isnan (rs_min range) = false -> isnan (rs_max range) = false ->
  slt (rs_max range) (rs_min range) ||
    (sequal (rs_min range) (rs_max range) && (rs_minex range || rs_maxex range)) = false ->
  gte_of x = false -> lte_of x = true.
Proof.
  intros Hx Hmin Hmax Hr Hg. apply orb_false_iff in Hr as [Hr1 Hr2]. unfold slt, sequal in *.
  apply bool_decide_eq_false in Hr1.
  destruct (scmp_total _ _ Hmin Hmax) as [c Hc]. rewrite (scmp_opp (rs_min range) (rs_max range)) in Hr1. rewrite Hc in Hr1, Hr2.
  destruct (scmp_total _ _ Hmin Hx) as [cx Hcx].
  unfold gte_of, lte_of, zslValueGteMin, zslValueLteMax, slt, sle in *. rewrite Hcx in Hg.
  pose proof (scmp_opp (rs_min range) (z_score x)) as Hox. rewrite Hcx in Hox. cbn in Hox.
  destruct c; [| |by destruct Hr1].
  - rewrite bool_decide_true in Hr2 by done. cbn [andb] in Hr2. apply orb_false_iff in Hr2 as [Hm1 Hm2].
    rewrite Hm1 in Hg. rewrite Hm2. apply bool_decide_eq_true. apply bool_decide_eq_false in Hg.
    destruct cx; cbn in Hox; [by destruct Hg; right|by destruct Hg; left|].
    left. rewrite <- (scmp_eq_r _ _ _ Hc). done.
  - assert (Hlt : scmp (z_score x) (rs_max range) = Some Lt).
    { destruct (rs_minex range); apply bool_decide_eq_false in Hg;
        destruct cx; cbn in Hox; try (by destruct Hg; auto); eapply sle_lt_trans; eauto. }
    rewrite Hlt. by destruct (rs_maxex range); apply bool_decide_eq_true; auto.
Qed.

(** An empty range holds nothing. *)
Lemma empty_range (x : znode) : isnan (z_score x) = false -> isnan (rs_min range) = false -> isnan (rs_max range) = false ->
  slt (rs_max range) (rs_min range) ||
    (sequal (rs_min range) (rs_max range) && (rs_minex range || rs_maxex range)) = true ->
  gte_of x = true -> lte_of x = true -> False.
Proof.
  intros Hx Hmin Hmax Hr Hg Hl. unfold gte_of, lte_of, zslValueGteMin, zslValueLteMax, slt, sle, sequal in *.
  assert (Hg' : scmp (rs_min range) (z_score x) = Some Lt \/ scmp (rs_min range) (z_score x) = Some Eq /\ rs_minex range = false).
  { destruct (rs_minex range); apply bool_decide_eq_true in Hg; [by left|]. destruct Hg; auto. }
  assert (Hl' : scmp (z_score x) (rs_max range) = Some Lt \/ scmp (z_score x) (rs_max range) = Some Eq /\ rs_maxex range = false).
  { destruct (rs_maxex range); apply bool_decide_eq_true in Hl; [by left|]. destruct Hl; auto. }
  assert (Hle : scmp (rs_min range) (rs_max range) = Some Lt \/ scmp (rs_min range) (rs_max range) = Some Eq).
  { eapply sle_trans; [destruct Hg' as [?|[? _]]; eauto|destruct Hl' as [?|[? _]]; eauto]. }
  apply orb_true_iff in Hr as [Hr|Hr].
  - apply bool_decide_eq_true in Hr. rewrite (scmp_opp (rs_min range)) in Hr. destruct Hle as [Hle|Hle]; by rewrite Hle in Hr.
  - apply andb_true_iff in Hr as [Heq Hex]. apply bool_decide_eq_true in Heq.
    destruct Hg' as [Hg'|[Hg' Hmi]].
    + destruct Hl' as [Hl'|[Hl' _]]; [pose proof (scmp_lt_trans _ _ _ Hg' Hl')|pose proof (slt_le_trans _ _ _ Hg' (or_intror Hl'))]; congruence.
    + destruct Hl' as [Hl'|[_ Hma]]; [|by rewrite Hmi, Hma in Hex].
      pose proof (sle_lt_trans _ _ _ (or_intror Hg') Hl'). congruence.
Qed.
End Spec.

(** ** Walking node by node *)

Lemma head_link z (ns A B : list znode) : zsl_repr z ns -> ns = A ++ B ->
  m_fwd (zsl_mem z) !! (cur (zsl_header z) A, 0%nat) = Some (z_loc <$> head B).
Proof.
  intros Hz Hns. pose proof (repr_h1 _ _ Hz) as H1. pose proof (zr_level _ _ Hz).
  destruct (zr_links _ _ Hz A B 0%nat Hns) as [-> _].
  - unfold has_level. destruct (last A) as [x|] eqn:E; [|lia]. apply last_Some_elem_of in E.
    rewrite list.Forall_forall in H1. specialize (H1 x ltac:(rewrite Hns; in_list)). cbn in H1. lia.
  - rewrite findh_0; [done|]. rewrite Hns in H1. by apply list.Forall_app in H1 as [_ ?].
Qed.

Lemma forward_ok z (ns : list znode) k : zsl_repr z ns -> forall A B, ns = A ++ B -> (k < length B)%nat ->
  forward_n (S k) (zsl_mem z) (Some (cur (zsl_header z) A)) = Some (z_loc <$> B !! k).
Proof.
  intros Hz. induction k as [|k IH]; intros A B Hns Hk; destruct B as [|b B]; cbn [length] in Hk; try lia.
  - cbn. by rewrite (head_link z ns A _ Hz Hns).
  - specialize (IH (A ++ [b]) B). unfold cur in IH at 1. rewrite last_snoc in IH.
    transitivity (Some (z_loc <$> B !! k)); [|done]. rewrite <- IH; [|by rewrite Hns, <- app_assoc|lia].
    transitivity (f ← m_fwd (zsl_mem z) !! (cur (zsl_header z) A, 0%nat); forward_n (S k) (zsl_mem z) f); [done|].
    by rewrite (head_link z ns A _ Hz Hns).
Qed.

Lemma backward_ok z (ns : list znode) k : zsl_repr z ns -> forall A B, ns = A ++ B -> (k < length A)%nat ->
  backward_n k (zsl_mem z) (Some (cur (zsl_header z) A)) = Some (z_loc <$> A !! (length A - 1 - k)%nat).
Proof.
  intros Hz. induction k as [|k IH]; intros A B Hns Hk; destruct A as [|a A _] using rev_ind; cbn [length] in Hk; try lia;
    unfold cur; rewrite last_snoc; rewrite length_app; cbn [length backward_n].
  - rewrite lookup_app_r by lia. replace (length A + 1 - 1 - 0 - length A)%nat with 0%nat by lia. done.
  - rewrite length_app in Hk. cbn [length] in Hk. cbn [mbind option_bind].
    rewrite (zr_back _ _ Hz A a B) by (by rewrite Hns, <- app_assoc). cbn [mbind option_bind].
    specialize (IH A ([a] ++ B) ltac:(by rewrite Hns, <- app_assoc) ltac:(lia)).
    unfold cur in IH. destruct (last A) as [y|] eqn:E; [|apply last_None in E as ->; cbn in Hk; lia].
    cbn. rewrite IH. rewrite lookup_app_l by lia. do 3 f_equal. lia.
Qed.

(** ** The element at a place of a range *)

Section Nth.
Context (z : zskiplist) (ns : list znode) (Hz : zsl_repr z ns).
Context (gte lte : positive -> option bool) (g l : znode -> bool).
Context (Hgte : forall x, x ∈ ns -> gte (z_loc x) = Some (g x)) (Hlte : forall x, x ∈ ns -> lte (z_loc x) = Some (l x)).
Context (Hup : upward ns g) (Hdown : upward ns (fun x => negb (l x))).
Context (Hproper : forall x, x ∈ ns -> g x = false -> l x = true).

Abbreviation P := (below g ns).
Abbreviation R := (within g l ns).
Abbreviation Q := (above g l ns).

Lemma parts : ns = P ++ R ++ Q /\ ns = (P ++ R) ++ Q.
Proof. pose proof (range_split ns g l Hup Hdown) as Hs. split; [done|]. by rewrite <- app_assoc. Qed.

Lemma lookup_back k : ns !! (length P + k)%nat = (R ++ Q) !! k.
Proof.
  transitivity ((P ++ R ++ Q) !! (length P + k)%nat); [by rewrite <- (proj1 parts)|].
  rewrite lookup_app_r by lia. f_equal. lia.
Qed.

Lemma lookup_front k y : (P ++ R) !! k = Some y -> ns !! k = Some y.
Proof.
  intros Hy. transitivity (((P ++ R) ++ Q) !! k); [by rewrite <- (proj2 parts)|].
  rewrite lookup_app_l; [done|]. by eapply lookup_lt_Some.
Qed.

Lemma out_test A x B : ns = A ++ x :: B -> 0 <= zlen A ->
  (fun (_ : Z) y => b ← gte y; Some (negb b)) (zlen A + 1 - 0) (z_loc x) = Some (bool_decide (zlen A + 1 <= zlen P)).
Proof.
  intros HA _. cbn. rewrite Hgte by (rewrite HA; in_list). cbn. f_equal.
  apply (prefix_bool ns P (R ++ Q) (fun x => negb (g x)) (proj1 parts)) with (B := B); [..|done].
  - apply list.Forall_forall. intros y [-> _]%list_elem_of_filter. done.
  - apply list.Forall_app. split; apply list.Forall_forall; intros y [[-> _] _]%list_elem_of_filter; done.
Qed.

Lemma in_test A x B : ns = A ++ x :: B -> 0 <= zlen A ->
  (fun (_ : Z) y => lte y) (zlen A + 1 - 0) (z_loc x) = Some (bool_decide (zlen A + 1 <= zlen (P ++ R))).
Proof.
  intros HA _. cbn. rewrite Hlte by (rewrite HA; in_list). f_equal.
  apply (prefix_bool ns (P ++ R) Q l (proj2 parts)) with (B := B); [..|done].
  - apply list.Forall_app. split; apply list.Forall_forall; intros y [Hy Hin]%list_elem_of_filter; [by apply Hproper|by destruct Hy].
  - apply list.Forall_forall. intros y [[_ ?] _]%list_elem_of_filter. done.
Qed.

(** The start of both searches: the last node of the top level before the range. *)
Lemma top_walk : let top := (zsl_level z - 1)%nat in
  walk (loop_fuel z) (zsl_mem z) (fun _ y => b ← gte y; Some (negb b)) top (zsl_header z) 0 =
    Some (cur (zsl_header z) (predl top P), zlen (predl top P)) /\
  (predl top P = [] \/ tall (zsl_level z - 1) (predl top P)) /\ exists C, P = predl top P ++ C.
Proof.
  intros top. pose proof (zr_level _ _ Hz).
  destruct (walk_level z ns P (R ++ Q) [] _ 0 top Hz (proj1 parts) out_test) as (Hw & HC & _).
  { unfold top. lia. } { by exists P. } { by left. } { done. }
  change (zlen [] - 0) with 0 in Hw. change (cur (zsl_header z) []) with (zsl_header z) in Hw.
  rewrite Hw, Z.sub_0_r. split_and!; [done| |done].
  destruct (predl_spec top P) as (C & _ & _ & Ht). by right.
Qed.

Lemma cur_last (A : list znode) : A <> [] -> exists x, A !! (length A - 1)%nat = Some x /\ cur (zsl_header z) A = z_loc x.
Proof.
  intros HA. destruct A as [|x A _] using rev_ind; [done|]. exists x. rewrite length_app. cbn [length].
  rewrite lookup_app_r by lia. replace (length A + 1 - 1 - length A)%nat with 0%nat by lia.
  split; [done|]. unfold cur. by rewrite last_snoc.
Qed.

(** The jump from that node to the node of a rank. *)
Lemma jump (A0 : list znode) idx : (exists C, ns = A0 ++ C) -> (A0 = [] \/ tall (zsl_level z - 1) A0) ->
  zlen A0 <= idx + 1 -> 0 <= idx < zlen ns ->
  zslGetElementByRankFromNode z (cur (zsl_header z) A0) (zsl_level z - 1) (u64 (idx + 1 - zlen A0)) =
  Some (z_loc <$> ns !! Z.to_nat idx).
Proof.
  intros (C & HC) Ht Hle Hi. pose proof (zr_level _ _ Hz). pose proof (zr_bound _ _ Hz).
  unfold zslGetElementByRankFromNode. replace (S (zsl_level z - 1)) with (zsl_level z) by lia.
  pose proof (zlen_nonneg A0). rewrite u64_id by lia.
  set (P' := take (Z.to_nat (idx + 1)) ns). set (Q' := drop (Z.to_nat (idx + 1)) ns).
  assert (HPQ : ns = P' ++ Q') by (by unfold P', Q'; rewrite take_drop).
  assert (HzP : zlen P' = idx + 1) by (unfold P', zlen in *; rewrite length_take; lia).
  pose proof (by_rank_loop_ok z ns P' Q' (zlen A0) (idx + 1 - zlen A0) Hz HPQ ltac:(lia) ltac:(intros _; lia) ltac:(lia)
    (zsl_level z) A0 ltac:(lia)) as Hby.
  rewrite Z.sub_diag in Hby. rewrite Hby; [|..|done|lia].
  - rewrite bool_decide_true by (split; lia). do 1 f_equal.
    destruct (cur_last P') as (x & Hx & ->); [intros Heq; rewrite Heq in HzP; change (zlen []) with 0 in HzP; lia|].
    replace (length P' - 1)%nat with (Z.to_nat idx) in Hx by (unfold zlen in HzP; lia).
    unfold P' in Hx. rewrite lookup_take_lt in Hx by lia. by rewrite Hx.
  - exists (drop (length A0) P'). rewrite <- (take_drop (length A0) P') at 1. f_equal.
    unfold P'. rewrite take_take, Nat.min_l by (unfold zlen in *; lia). by rewrite HC, take_app_length.
Qed.

(** A rank before that node is not found: the difference wraps around. *)
Lemma jump_wrap (A0 : list znode) idx : (exists C, ns = A0 ++ C) -> (A0 = [] \/ tall (zsl_level z - 1) A0) ->
  0 <= idx + 1 < zlen A0 ->
  zslGetElementByRankFromNode z (cur (zsl_header z) A0) (zsl_level z - 1) (u64 (idx + 1 - zlen A0)) = Some None.
Proof.
  intros (C & HC) Ht Hlt. pose proof (zr_level _ _ Hz). pose proof (zr_bound _ _ Hz) as Hb.
  unfold zslGetElementByRankFromNode. replace (S (zsl_level z - 1)) with (zsl_level z) by lia.
  assert (HA : zlen A0 <= zlen ns) by (rewrite HC, zlen_app; pose proof (zlen_nonneg C); lia).
  set (rank := u64 _). assert (Hr : 2 ^ 63 < rank).
  { unfold rank, u64. rewrite <- (Z.mod_add _ 1) by done. rewrite Z.mod_small; lia. }
  pose proof (by_rank_loop_ok z ns ns [] (zlen A0) rank Hz ltac:(by rewrite app_nil_r) ltac:(lia) ltac:(done) ltac:(lia)
    (zsl_level z) A0 ltac:(lia) ltac:(by exists C) Ht ltac:(lia)) as Hby.
  rewrite Z.sub_diag in Hby. rewrite Hby, bool_decide_false; [done|]. intros [_ ?]. lia.
Qed.

Lemma predl_top0 (W B : list znode) : ns = W ++ B -> upd_at (zsl_header z) W 0 = (cur (zsl_header z) W, zlen W).
Proof.
  intros HW. pose proof (repr_h1 _ _ Hz) as H1. rewrite HW in H1. apply list.Forall_app in H1 as [H1 _].
  unfold upd_at. by rewrite predl_0.
Qed.

(** The result: the node at place [k] of the range and its rank. *)
Definition nth_within (k : Z) : option (positive * Z) :=
  if 0 <=? k then (fun x => (z_loc x, zlen P + k + 1)) <$> R !! Z.to_nat k else None.

Lemma within_lookup k y : (R ++ Q) !! k = Some y -> R !! k = if l y then Some y else None.
Proof.
  intros Hy. destruct (decide (k < length R)%nat) as [Hk|Hk].
  - rewrite lookup_app_l in Hy by done. rewrite Hy.
    apply list_elem_of_lookup_2, list_elem_of_filter in Hy as [[_ ->] _]. done.
  - rewrite lookup_app_r in Hy by lia.
    apply list_elem_of_lookup_2, list_elem_of_filter in Hy as [[_ ->] _]. apply lookup_ge_None_2. lia.
Qed.

Lemma nth_forward n : 0 <= n -> zlen ns + n < 2 ^ 63 -> zslNth z gte lte n = Some (nth_within n).
Proof.
  intros Hn Hb. pose proof (zr_level _ _ Hz) as HL. pose proof (zlen_nonneg P) as HP0. unfold zslNth.
  destruct top_walk as (-> & Ht & (C & HC)). cbn [mbind option_bind].
  rewrite (proj2 (Z.geb_le n 0)) by lia. set (top := (zsl_level z - 1)%nat) in *. set (A0 := predl top P) in *.
  destruct (descend_ok (zsl_header z) (zsl_level z) (zsl_mem z) ns (zr_links _ _ Hz) (repr_h1 _ _ Hz) (zr_bound _ _ Hz)
    P (R ++ Q) (proj1 parts) _ 0 ltac:(lia) out_test (loop_fuel z) top eq_refl A0 C
    [(cur (zsl_header z) A0, zlen A0)] ltac:(lia) HC) as (up & -> & Hlen & Hupd).
  { eapply (fuel_ok z ns [] P Hz). exists (R ++ Q). apply parts. }
  { destruct Ht as [?|Ht]; [by left|right]. by eapply tall_le; [|exact Ht]; lia. }
  cbn [mbind option_bind].
  assert ((up ++ [(cur (zsl_header z) A0, zlen A0)]) !! 0%nat = Some (cur (zsl_header z) P, zlen P)) as ->.
  { rewrite <- (predl_top0 P (R ++ Q) (proj1 parts)). destruct (decide (top = 0%nat)) as [E|E].
    - destruct up; [|cbn in Hlen; lia]. unfold A0. by rewrite E.
    - rewrite lookup_app_l by lia. apply Hupd. lia. }
  cbn [mbind option_bind].
  assert (Hlns : zlen ns = zlen P + zlen (R ++ Q)) by (rewrite (proj1 parts) at 1; apply zlen_app).
  rewrite (zr_length _ _ Hz), u64_id by (unfold zlen in *; lia). unfold nth_within. rewrite (proj2 (Z.leb_le 0 n)) by done.
  destruct (Z.geb_spec (zlen P + n) (zlen ns)) as [Hge|Hlt].
  { rewrite lookup_ge_None_2; [done|]. rewrite zlen_app in Hlns. unfold zlen in *. lia. }
  destruct (lookup_lt_is_Some_2 (R ++ Q) (Z.to_nat n)) as [y Hy]; [unfold zlen in *; lia|].
  match goal with |- (?a ≫= _) = _ => assert (a = Some (Some (z_loc y))) as -> end.
  { destruct (Z.ltb_spec n ZSKIPLIST_MAX_SEARCH) as [Hs|Hs].
    - replace (Z.to_nat (n + 1)) with (S (Z.to_nat n)) by lia.
      rewrite (forward_ok z ns (Z.to_nat n) Hz P (R ++ Q) (proj1 parts)); [by rewrite Hy|unfold zlen in *; lia].
    - assert (HA0 : zlen A0 <= zlen P) by (rewrite HC, zlen_app; pose proof (zlen_nonneg C); lia).
      replace (zlen P + 1 + n - zlen A0) with ((zlen P + n) + 1 - zlen A0) by lia.
      rewrite jump; [|exists (C ++ R ++ Q); rewrite (proj1 parts) at 1; by rewrite HC at 1; rewrite <- app_assoc|done|lia|lia].
      replace (Z.to_nat (zlen P + n)) with (length P + Z.to_nat n)%nat by (unfold zlen; lia).
      by rewrite lookup_back, Hy. }
  cbn [mbind option_bind]. rewrite Hlte.
  2:{ rewrite (proj1 parts). apply elem_of_app. right. by eapply list_elem_of_lookup_2. }
  cbn [mbind option_bind]. rewrite (within_lookup _ _ Hy). by destruct (l y).
Qed.

Lemma from_end_lookup k y : (P ++ R) !! k = Some y ->
  if g y then (length P <= k)%nat /\ R !! (k - length P)%nat = Some y else (k < length P)%nat.
Proof.
  intros Hy. destruct (decide (k < length P)%nat) as [Hk|Hk].
  - rewrite lookup_app_l in Hy by done.
    apply list_elem_of_lookup_2, list_elem_of_filter in Hy as [-> _]. done.
  - rewrite lookup_app_r in Hy by lia. pose proof Hy as Hy'.
    apply list_elem_of_lookup_2, list_elem_of_filter in Hy' as [[-> _] _]. split; [lia|done].
Qed.

Lemma nth_backward n : n < 0 -> zslNth z gte lte n = Some (nth_within (zlen R + n)).
Proof.
  intros Hn. pose proof (zr_level _ _ Hz) as HL. pose proof (zlen_nonneg P) as HP0. unfold zslNth.
  destruct top_walk as (-> & Ht & (C & HC)). cbn [mbind option_bind].
  assert ((n >=? 0) = false) as -> by (rewrite Z.geb_leb; apply Z.leb_gt; lia).
  set (top := (zsl_level z - 1)%nat) in *. set (A0 := predl top P) in *.
  destruct (descend_ok (zsl_header z) (zsl_level z) (zsl_mem z) ns (zr_links _ _ Hz) (repr_h1 _ _ Hz) (zr_bound _ _ Hz)
    (P ++ R) Q (proj2 parts) _ 0 ltac:(lia) in_test (loop_fuel z) (zsl_level z) eq_refl A0 (C ++ R)
    [] ltac:(lia)) as (up & -> & Hlen & Hupd); [by rewrite HC at 1; rewrite <- app_assoc|..|done|].
  { eapply (fuel_ok z ns [] (P ++ R) Hz). exists Q. apply parts. }
  cbn [mbind option_bind]. rewrite app_nil_r, Hupd by lia. rewrite (predl_top0 (P ++ R) Q (proj2 parts)).
  cbn [mbind option_bind]. rewrite zlen_app. unfold nth_within.
  destruct (Z.ltb_spec (zlen P + zlen R) (- n)) as [Hs|Hs].
  { by rewrite (proj2 (Z.leb_gt 0 (zlen R + n))) by lia. }
  set (idx := zlen P + zlen R + n).
  assert (Hlns : zlen ns = zlen P + zlen R + zlen Q) by (rewrite (proj2 parts) at 1; autorewrite with zlen; lia).
  destruct (lookup_lt_is_Some_2 (P ++ R) (Z.to_nat idx)) as [y Hy]; [rewrite length_app; unfold idx, zlen in *; lia|].
  assert (Hyn : y ∈ ns).
  { rewrite (proj2 parts). apply elem_of_app. left. by eapply list_elem_of_lookup_2. }
  pose proof (from_end_lookup _ _ Hy) as Hgy.
  assert (HA0 : zlen A0 <= zlen P) by (rewrite HC, zlen_app; pose proof (zlen_nonneg C); lia).
  assert (Hpre : exists C, ns = A0 ++ C).
  { exists (C ++ R ++ Q). rewrite (proj1 parts) at 1. by rewrite HC at 1; rewrite <- app_assoc. }
  match goal with |- (?a ≫= _) = _ =>
    assert (a = Some (Some (z_loc y)) \/ a = Some None /\ g y = false) as [->|[-> Hg]] end.
  { destruct (Z.gtb_spec (n + 1) (- ZSKIPLIST_MAX_SEARCH)) as [Hm|Hm].
    - left. rewrite (backward_ok z ns _ Hz (P ++ R) Q (proj2 parts)) by (rewrite length_app; unfold zlen in *; lia).
      replace (length (P ++ R) - 1 - Z.to_nat (- n - 1))%nat with (Z.to_nat idx); [by rewrite Hy|].
      rewrite length_app. unfold idx, zlen in *. lia.
    - replace (zlen P + zlen R + 1 + n - zlen A0) with (idx + 1 - zlen A0) by (unfold idx; lia).
      destruct (Z.le_gt_cases (zlen A0) (idx + 1)) as [Hle|Hgt].
      + left. rewrite jump; [|done..|unfold idx, zlen in *; lia]. by rewrite (lookup_front _ _ Hy).
      + right. rewrite jump_wrap; [|done..|unfold idx; lia]. split; [done|].
        destruct (g y); [|done]. unfold zlen in *. lia. }
  - cbn [mbind option_bind]. rewrite Hgte by done. cbn [mbind option_bind]. destruct (g y); cbn [negb].
    + destruct Hgy as [Hle Hr]. rewrite (proj2 (Z.leb_le 0 (zlen R + n))) by (unfold idx, zlen in *; lia).
      replace (Z.to_nat (zlen R + n)) with (Z.to_nat idx - length P)%nat by (unfold idx, zlen; lia).
      rewrite Hr. cbn. do 3 f_equal. unfold idx. lia.
    + rewrite (proj2 (Z.leb_gt 0 (zlen R + n))); [done|]. unfold idx, zlen in *. lia.
  - cbn [mbind option_bind]. rewrite Hg in Hgy.
    rewrite (proj2 (Z.leb_gt 0 (zlen R + n))); [done|]. unfold idx, zlen in *. lia.
Qed.

Definition nth_place (n : Z) : Z := if n <? 0 then zlen R + n else n.

Lemma nth_ok n : zlen ns + n < 2 ^ 63 -> zslNth z gte lte n = Some (nth_within (nth_place n)).
Proof.
  intros Hb. unfold nth_place. destruct (Z.ltb_spec n 0); [by apply nth_backward|by apply nth_forward].
Qed.
End Nth.

(** ** The early exit: a range beyond either end of the list is empty *)

Lemma within_nil (ns : list znode) g l : (forall x, x ∈ ns -> g x = true -> l x = true -> False) -> within g l ns = [].
Proof. intros Hx. apply filter_none, list.Forall_forall. intros x Hin [Hg Hl]. by apply (Hx x). Qed.

Lemma within_before (ns : list znode) g l x : upward ns g -> last ns = Some x -> g x = false -> within g l ns = [].
Proof.
  intros Hu (A & ->)%last_Some Hx. apply within_nil. intros y Hy Hg _.
  apply elem_of_app in Hy as [(B & C & ->)%list_elem_of_split| ->%list_elem_of_singleton]; [|congruence].
  rewrite (Hu B y x C [] ltac:(by rewrite <- app_assoc) Hg) in Hx. done.
Qed.

Lemma within_after (ns : list znode) g l x : upward ns (fun x => negb (l x)) -> head ns = Some x -> l x = false ->
  within g l ns = [].
Proof.
  intros Hu Hh Hx. destruct ns as [|y ns]; [done|]. injection Hh as ->. apply within_nil. intros y Hy _ Hl.
  apply elem_of_cons in Hy as [->|(B & C & ->)%list_elem_of_split]; [congruence|].
  pose proof (Hu [] x y B C eq_refl ltac:(cbn; by rewrite Hx)) as Hn. cbn in Hn; by rewrite Hl in Hn.
Qed.

Lemma nth_within_nil (ns : list znode) g l k : within g l ns = [] -> nth_within ns g l k = None.
Proof. intros Hw. unfold nth_within. rewrite Hw, lookup_nil. by destruct (0 <=? k). Qed.

(** The tests of the two ends, for any tests of a node. *)
Definition ends_test (z : zskiplist) (gte lte : positive -> option bool) : option bool :=
  match zsl_tail z with
  | None => Some false
  | Some x =>
      b ← gte x;
      if negb b then Some false
      else
        f ← m_fwd (zsl_mem z) !! (zsl_header z, 0%nat);
        match f with None => Some false | Some x => lte x end
  end.

Lemma ends_test_ok z (ns : list znode) gte lte g l : zsl_repr z ns ->
  (forall x, x ∈ ns -> gte (z_loc x) = Some (g x)) -> (forall x, x ∈ ns -> lte (z_loc x) = Some (l x)) ->
  upward ns g -> upward ns (fun x => negb (l x)) ->
  exists b, ends_test z gte lte = Some b /\ (b = false -> within g l ns = []).
Proof.
  intros Hz Hgte Hlte Hu Hd. unfold ends_test. rewrite (zr_tail _ _ Hz).
  destruct (last ns) as [x|] eqn:El; cbn [fmap option_fmap option_map].
  2:{ apply last_None in El as ->. by exists false. }
  rewrite Hgte by (by apply last_Some_elem_of). cbn [mbind option_bind]. destruct (g x) eqn:Eg; cbn [negb].
  2:{ exists false. split; [done|]. intros _. by eapply within_before. }
  rewrite (head_link z ns [] ns Hz eq_refl : m_fwd (zsl_mem z) !! (zsl_header z, 0%nat) = _). cbn [mbind option_bind].
  destruct (head ns) as [y|] eqn:Eh; cbn [fmap option_fmap option_map].
  - rewrite Hlte by (destruct ns; [done|]; injection Eh as ->; by left). exists (l y). split; [done|].
    intros Hy. by eapply within_after.
  - exists false. split; [done|]. by destruct ns.
Qed.

(** ** Ranges of scores *)

Lemma nth_in_range_ok z (ns : list znode) range n : zsl_repr z ns ->
  isnan (rs_min range) = false -> isnan (rs_max range) = false -> zlen ns + n < 2 ^ 63 ->
  zslNthInRange z range n =
  Some (nth_within ns (gte_of range) (lte_of range) (nth_place ns (gte_of range) (lte_of range) n)).
Proof.
  intros Hz Hmin Hmax Hb. pose proof (repr_nonan _ _ Hz) as Hn. pose proof (zr_sorted _ _ Hz) as Hs.
  pose proof (gte_up range ns Hs Hn) as Hu. pose proof (lte_down range ns Hs Hn) as Hd.
  set (gte := fun y => s ← m_score (zsl_mem z) !! y; Some (zslValueGteMin s range)).
  set (lte := fun y => s ← m_score (zsl_mem z) !! y; Some (zslValueLteMax s range)).
  assert (Hgte : forall x, x ∈ ns -> gte (z_loc x) = Some (gte_of range x)).
  { intros x Hx. unfold gte. by rewrite (no_score _ _ (node_of z ns x Hz Hx)). }
  assert (Hlte : forall x, x ∈ ns -> lte (z_loc x) = Some (lte_of range x)).
  { intros x Hx. unfold lte. by rewrite (no_score _ _ (node_of z ns x Hz Hx)). }
  rewrite list.Forall_forall in Hn. unfold zslNthInRange.
  assert (Hin : exists b, zslIsInRange z range = Some b /\
    if b then slt (rs_max range) (rs_min range) ||
      (sequal (rs_min range) (rs_max range) && (rs_minex range || rs_maxex range)) = false
    else within (gte_of range) (lte_of range) ns = []).
  { unfold zslIsInRange. destruct (_ || _) eqn:E.
    - exists false. split; [done|]. apply within_nil. intros x Hx. by apply (empty_range range x (Hn x Hx)).
    - destruct (ends_test_ok z ns gte lte (gte_of range) (lte_of range) Hz Hgte Hlte Hu Hd) as (b & Hb' & Hf).
      exists b. split; [|destruct b; [done|by apply Hf]]. rewrite <- Hb'. unfold ends_test, gte, lte.
      destruct (zsl_tail z) as [t|]; [|done]. by destruct (m_score (zsl_mem z) !! t). }
  destruct Hin as (b & -> & Hif). cbn [mbind option_bind]. destruct b; cbn [negb].
  - apply nth_ok; try done. intros x Hx. by apply (proper_range range x (Hn x Hx)).
  - by rewrite nth_within_nil.
Qed.

(** ** Ranges of elements

    They are for sorted sets whose elements all have the same score. *)

Lemma lex_opp a b : sdscmplex b a = - sdscmplex a b.
Proof. destruct a, b; cbn; try done. rewrite !sdscmp_lex. apply lexcmp_opp. Qed.

Lemma lex_lt_trans a b c : sdscmplex a b < 0 -> sdscmplex b c < 0 -> sdscmplex a c < 0.
Proof. destruct a, b, c; cbn; rewrite ?sdscmp_lex; try lia. apply lexcmp_lt_trans. Qed.

Lemma lex_eq a b : sdscmplex a b = 0 -> a = b.
Proof. destruct a, b; cbn; try done. rewrite sdscmp_lex. by intros ->%lexcmp_eq. Qed.

(** What follows from two comparisons with a common bound. *)
Lemma lex_le_trans a b c : sdscmplex a b <= 0 -> sdscmplex b c <= 0 ->
  sdscmplex a c <= 0 /\ (sdscmplex a c = 0 -> sdscmplex a b = 0 /\ sdscmplex b c = 0).
Proof.
  intros H1 H2. destruct (Z.eq_dec (sdscmplex a b) 0) as [E1|E1]; [pose proof (lex_eq _ _ E1) as <-; lia|].
  destruct (Z.eq_dec (sdscmplex b c) 0) as [E2|E2]; [pose proof (lex_eq _ _ E2) as <-; lia|].
  pose proof (lex_lt_trans a b c). lia.
Qed.

Definition same_scores (ns : list znode) : Prop :=
  forall x y, x ∈ ns -> y ∈ ns -> scmp (z_score x) (z_score y) = Some Eq.

Section Lex.
Context (range : zlexrangespec).

Definition lex_gte_of (x : znode) : bool := zslLexValueGteMin (z_ele x) range.
Definition lex_lte_of (x : znode) : bool := zslLexValueLteMax (z_ele x) range.

Lemma lex_gte_iff x : lex_gte_of x = true <->
  sdscmplex (zlr_min range) (LexStr (z_ele x)) <= 0 /\
  (zlr_minex range = true -> sdscmplex (zlr_min range) (LexStr (z_ele x)) <> 0).
Proof.
  unfold lex_gte_of, zslLexValueGteMin. rewrite (lex_opp (zlr_min range) (LexStr (z_ele x))).
  destruct (zlr_minex range); rewrite ?Z.gtb_lt, ?Z.geb_le; intuition lia.
Qed.

Lemma lex_lte_iff x : lex_lte_of x = true <->
  sdscmplex (LexStr (z_ele x)) (zlr_max range) <= 0 /\
  (zlr_maxex range = true -> sdscmplex (LexStr (z_ele x)) (zlr_max range) <> 0).
Proof.
  unfold lex_lte_of, zslLexValueLteMax. destruct (zlr_maxex range); rewrite ?Z.ltb_lt, ?Z.leb_le; intuition lia.
Qed.

Lemma node_lt_lex (ns : list znode) x y : same_scores ns -> x ∈ ns -> y ∈ ns -> node_lt x y ->
  sdscmplex (LexStr (z_ele x)) (LexStr (z_ele y)) < 0.
Proof.
  intros Hsc Hx Hy. unfold node_lt, pair_lt, pair_cmp, slt.
  rewrite (scmp_opp (z_score x) (z_score y)), (Hsc x y Hx Hy). done.
Qed.

Lemma lex_gte_up (ns : list znode) : StronglySorted node_lt ns -> same_scores ns -> upward ns lex_gte_of.
Proof.
  intros Hs Hsc. apply sorted_upward; [done|]. intros x y Hx Hy Hlt%(node_lt_lex ns x y Hsc Hx Hy).
  rewrite !lex_gte_iff. intros [Hm _]. pose proof (lex_le_trans _ _ _ Hm (Z.lt_le_incl _ _ Hlt)). lia.
Qed.

Lemma lex_lte_down (ns : list znode) : StronglySorted node_lt ns -> same_scores ns ->
  upward ns (fun x => negb (lex_lte_of x)).
Proof.
  intros Hs Hsc. apply sorted_upward; [done|]. intros x y Hx Hy Hlt%(node_lt_lex ns x y Hsc Hx Hy).
  rewrite !negb_true_iff, <- !not_true_iff_false, !lex_lte_iff. intros Hm [Hy1 _]. apply Hm.
  pose proof (lex_le_trans _ _ _ (Z.lt_le_incl _ _ Hlt) Hy1). lia.
Qed.

Abbreviation lex_guard := (let cmp := sdscmplex (zlr_min range) (zlr_max range) in
  (cmp >? 0) || ((cmp =? 0) && (zlr_minex range || zlr_maxex range))).

Lemma lex_empty (x : znode) : lex_guard = true -> lex_gte_of x = true -> lex_lte_of x = true -> False.
Proof.
  rewrite lex_gte_iff, lex_lte_iff. intros Hg [Hm1 Hm2] [Hl1 Hl2]. cbn in Hg.
  destruct (lex_le_trans _ _ _ Hm1 Hl1) as [Hle Heq].
  rewrite orb_true_iff, andb_true_iff, orb_true_iff, Z.gtb_lt, Z.eqb_eq in Hg. intuition lia.
Qed.

Lemma lex_proper (x : znode) : lex_guard = false -> lex_gte_of x = false -> lex_lte_of x = true.
Proof.
  rewrite lex_lte_iff. intros Hg Hm. rewrite <- not_true_iff_false, lex_gte_iff in Hm.
  apply orb_false_iff in Hg as [Hg1 Hg2]. rewrite Z.gtb_ltb, Z.ltb_ge in Hg1.
  set (mn := zlr_min range) in *. set (mx := zlr_max range) in *. set (e := LexStr (z_ele x)) in *.
  assert (He : sdscmplex e mn <= 0) by (rewrite (lex_opp mn e); destruct (zlr_minex range); intuition lia).
  destruct (lex_le_trans _ _ _ He Hg1) as [Hle Heq]. split; [done|]. intros Hex Hz. apply Heq in Hz as [Hz1 Hz2].
  rewrite Hz2, Hex, orb_true_r in Hg2. done.
Qed.

Lemma nth_in_lex_range_ok z (ns : list znode) n : zsl_repr z ns -> same_scores ns -> zlen ns + n < 2 ^ 63 ->
  zslNthInLexRange z range n = Some (nth_within ns lex_gte_of lex_lte_of (nth_place ns lex_gte_of lex_lte_of n)).
Proof.
  intros Hz Hsc Hb. pose proof (zr_sorted _ _ Hz) as Hs.
  pose proof (lex_gte_up ns Hs Hsc) as Hu. pose proof (lex_lte_down ns Hs Hsc) as Hd.
  set (gte := fun y => e ← zslGetNodeElement (zsl_mem z) y; Some (zslLexValueGteMin e range)).
  set (lte := fun y => e ← zslGetNodeElement (zsl_mem z) y; Some (zslLexValueLteMax e range)).
  assert (Hgte : forall x, x ∈ ns -> gte (z_loc x) = Some (lex_gte_of x)).
  { intros x Hx. unfold gte, zslGetNodeElement. by rewrite (no_ele _ _ (node_of z ns x Hz Hx)). }
  assert (Hlte : forall x, x ∈ ns -> lte (z_loc x) = Some (lex_lte_of x)).
  { intros x Hx. unfold lte, zslGetNodeElement. by rewrite (no_ele _ _ (node_of z ns x Hz Hx)). }
  unfold zslNthInLexRange.
  assert (Hin : exists b, zslIsInLexRange z range = Some b /\
    if b then lex_guard = false else within lex_gte_of lex_lte_of ns = []).
  { unfold zslIsInLexRange. cbn zeta. destruct (_ || _) eqn:E.
    - exists false. split; [done|]. apply within_nil. intros x Hx. by apply lex_empty.
    - destruct (ends_test_ok z ns gte lte lex_gte_of lex_lte_of Hz Hgte Hlte Hu Hd) as (b & Hb' & Hf).
      exists b. split; [|destruct b; [done|by apply Hf]]. rewrite <- Hb'. unfold ends_test, gte, lte.
      destruct (zsl_tail z) as [t|]; [|done]. by destruct (zslGetNodeElement (zsl_mem z) t). }
  destruct Hin as (b & -> & Hif). cbn [mbind option_bind]. destruct b; cbn [negb].
  - apply nth_ok; try done. intros x Hx. by apply lex_proper.
  - by rewrite nth_within_nil.
Qed.
End Lex.
End Range.
