(* ===== verification/Zset.v ===== *)
(** * Sorted sets: the skiplist with its dict (src/t_zset.c)

    The operations of a sorted set object in the skiplist encoding, and the
    branches of the commands that work on it.  The dict maps an element to its
    node; the code stores the node as the key, and compares the element in it. *)

From stdpp Require Import base list numbers option tactics gmap.
From S2P Require Import Prelude Dict Order Skiplist.

(** ** Flags *)

Definition ZADD_IN_INCR : Z := 1.
Definition ZADD_IN_NX : Z := 2.
Definition ZADD_IN_XX : Z := 4.
Definition ZADD_IN_GT : Z := 8.
Definition ZADD_IN_LT : Z := 16.
Definition ZADD_OUT_NOP : Z := 1.
Definition ZADD_OUT_NAN : Z := 2.
Definition ZADD_OUT_ADDED : Z := 4.
Definition ZADD_OUT_UPDATED : Z := 8.

Definition flag (flags bit : Z) : bool := negb (Z.land flags bit =? 0).

Section Zset.
Context {T : Type} `{Score T}.
Context (junk : nat -> option positive * Z) (RAND_MAX : Z).
Context (hash : list Z -> Z) (resize_allowed : Z -> Z -> Z -> bool) (force_full_rehash : bool)
  (can_resize : dictResizeEnable).

Abbreviation zskiplist := (zskiplist (T := T)).
Abbreviation zrangespec := (zrangespec (T := T)).
Abbreviation mem := (zskiplistNodes (T := T)).

Record zset := { zs_dict : dict (list Z) positive; zs_zsl : zskiplist }.

(** A new sorted set of that encoding. *)
Definition zset_create : zset := {| zs_dict := dictCreate; zs_zsl := zslCreate |}.

Definition zsetLength (zs : zset) : Z := zsl_length (zs_zsl zs).

(** ** One element *)

(** [C_ERR] is [None] inside. *)
Definition zsetScore (zs : zset) (member : list Z) : option (zset * option T) :=
  '(d, de) ← dictFind hash can_resize (zs_dict zs) member;
  match de with
  | None => Some ({| zs_dict := d; zs_zsl := zs_zsl zs |}, None)
  | Some (_, znode) =>
      score ← m_score (zsl_mem (zs_zsl zs)) !! znode;
      Some ({| zs_dict := d; zs_zsl := zs_zsl zs |}, Some score)
  end.

(** What [zsetAdd] gives back: its value, [*out_flags], and [*newscore] when it
    is written. *)
Record zadd_result := { za_ret : Z; za_flags : Z; za_newscore : option T }.

(** [draws] are the random numbers for [zslRandomLevel]. *)
Definition zsetAdd (zs : zset) (score : T) (ele : list Z) (in_flags : Z) (draws : list Z)
    : option (zset * zadd_result) :=
  let incr := flag in_flags ZADD_IN_INCR in
  let nx := flag in_flags ZADD_IN_NX in
  let xx := flag in_flags ZADD_IN_XX in
  let gt := flag in_flags ZADD_IN_GT in
  let lt := flag in_flags ZADD_IN_LT in
  if isnan score then Some (zs, {| za_ret := 0; za_flags := ZADD_OUT_NAN; za_newscore := None |})
  else
    let z := zs_zsl zs in
    '(d, lnk, bucket) ← dictFindLink hash can_resize (zs_dict zs) ele true;
    let zs := {| zs_dict := d; zs_zsl := z |} in
    let nop := {| za_ret := 1; za_flags := ZADD_OUT_NOP; za_newscore := None |} in
    match lnk with
    | Some l =>
        if nx then Some (zs, nop)
        else
          '(_, znode) ← deref d l;
          curscore ← m_score (zsl_mem z) !! znode;
          let score := if incr then sadd score curscore else score in
          if incr && isnan score then Some (zs, {| za_ret := 0; za_flags := ZADD_OUT_NAN; za_newscore := None |})
          else if (lt && sle curscore score) || (gt && sle score curscore) then Some (zs, nop)
          else if negb (sequal score curscore) then
            z ← zslUpdateScore z znode score;
            Some ({| zs_dict := d; zs_zsl := z |},
                  {| za_ret := 1; za_flags := ZADD_OUT_UPDATED; za_newscore := Some score |})
          else Some (zs, {| za_ret := 1; za_flags := 0; za_newscore := Some score |})
    | None =>
        if xx then Some (zs, nop)
        else
          '(z, znode) ← zslInsert junk z (zslRandomLevel RAND_MAX draws) score ele;
          d ← dictSetKeyAtLink hash resize_allowed force_full_rehash can_resize d ele znode (NewItem bucket);
          Some ({| zs_dict := d; zs_zsl := z |},
                {| za_ret := 1; za_flags := ZADD_OUT_ADDED; za_newscore := Some score |})
    end.

Definition zsetRemoveFromSkiplist (zs : zset) (ele : list Z) : option (zset * bool) :=
  '(d, de) ← dictUnlink hash resize_allowed force_full_rehash can_resize (zs_dict zs) ele;
  match de with
  | None => Some ({| zs_dict := d; zs_zsl := zs_zsl zs |}, false)
  | Some (_, znode) => z ← zslDelete (zs_zsl zs) znode; Some ({| zs_dict := d; zs_zsl := z |}, true)
  end.

Definition zsetDel (zs : zset) (ele : list Z) : option (zset * bool) := zsetRemoveFromSkiplist zs ele.

(** The rank, or -1, and [*output_score]. *)
Definition zsetRank (zs : zset) (ele : list Z) (reverse : bool) : option (zset * Z * option T) :=
  let llen := zsetLength zs in
  let z := zs_zsl zs in
  '(d, de) ← dictFind hash can_resize (zs_dict zs) ele;
  let zs := {| zs_dict := d; zs_zsl := z |} in
  match de with
  | None => Some (zs, -1, None)
  | Some (_, n) =>
      rank ← zslGetRankByNode z n;
      _ ← cassert (negb (rank =? 0));
      score ← m_score (zsl_mem z) !! n;
      Some (zs, if reverse then u64 (llen - rank) else u64 (rank - 1), Some score)
  end.

(** ** Commands that read *)

(** [while(rangelen--)]; a null node fails the assertion. *)
Fixpoint emit_n (m : mem) (reverse : bool) (n : nat) (ln : option positive) : option (list (list Z * T)) :=
  match n with
  | O => Some []
  | S n =>
      x ← ln;
      ele ← zslGetNodeElement m x;
      score ← m_score m !! x;
      ln ← (if reverse then m_back m !! x else m_fwd m !! (x, 0%nat));
      rest ← emit_n m reverse n ln;
      Some ((ele, score) :: rest)
  end.

(** The indexes of ZRANGE and ZREMRANGEBYRANK: negative ones count from the end;
    [None] when the range is empty. *)
Definition sanitize_indexes (llen start end_ : Z) : option (Z * Z) :=
  let start := if start <? 0 then llen + start else start in
  let end_ := if end_ <? 0 then llen + end_ else end_ in
  let start := if start <? 0 then 0 else start in
  if (start >? end_) || (start >=? llen) then None
  else Some (start, if end_ >=? llen then llen - 1 else end_).

Definition genericZrangebyrankCommand (zs : zset) (start end_ : Z) (reverse : bool) : option (list (list Z * T)) :=
  let z := zs_zsl zs in
  let m := zsl_mem z in
  let llen := zsetLength zs in
  match sanitize_indexes llen start end_ with
  | None => Some []
  | Some (start, end_) =>
    let rangelen := end_ - start + 1 in
    ln ← (if reverse then
            (if start >? 0 then zslGetElementByRank z (llen - start) else Some (zsl_tail z))
          else
            (if start >? 0 then zslGetElementByRank z (start + 1) else m_fwd m !! (zsl_header z, 0%nat)));
    emit_n m reverse (Z.to_nat rangelen) ln
  end.

(** [while (ln && limit--)]; [go] is the test that the node is still in the
    range. *)
Fixpoint emit_while (fuel : nat) (m : mem) (reverse : bool) (go : positive -> option bool) (ln : option positive)
    (limit : Z) : option (list (list Z * T)) :=
  match ln with
  | None => Some []
  | Some x =>
      if limit =? 0 then Some []
      else
        b ← go x;
        if negb b then Some []
        else
          match fuel with
          | O => None
          | S fuel =>
              ele ← zslGetNodeElement m x;
              score ← m_score m !! x;
              ln ← (if reverse then m_back m !! x else m_fwd m !! (x, 0%nat));
              rest ← emit_while fuel m reverse go ln (limit - 1);
              Some ((ele, score) :: rest)
          end
  end.

Definition invalid_offset (zs : zset) (offset : Z) : bool :=
  (offset <? 0) || ((offset >? 0) && (offset >=? zsetLength zs)).

Definition genericZrangebyscoreCommand (zs : zset) (range : zrangespec) (offset limit : Z) (reverse : bool)
    : option (list (list Z * T)) :=
  let z := zs_zsl zs in
  let m := zsl_mem z in
  if invalid_offset zs offset then Some []
  else
    ln ← zslNthInRange z range (if reverse then - offset - 1 else offset);
    emit_while (loop_fuel z) m reverse
      (fun x => s ← m_score m !! x; Some (if reverse then zslValueGteMin s range else zslValueLteMax s range))
      (fst <$> ln) limit.

Definition genericZrangebylexCommand (zs : zset) (range : zlexrangespec) (offset limit : Z) (reverse : bool)
    : option (list (list Z * T)) :=
  let z := zs_zsl zs in
  let m := zsl_mem z in
  if invalid_offset zs offset then Some []
  else
    ln ← zslNthInLexRange z range (if reverse then - offset - 1 else offset);
    emit_while (loop_fuel z) m reverse
      (fun x => e ← zslGetNodeElement m x;
                Some (if reverse then zslLexValueGteMin e range else zslLexValueLteMax e range))
      (fst <$> ln) limit.

(** The count from the ranks of the first and the last element. *)
Definition count_by_rank (length : Z) (nth : Z -> option (option (positive * Z))) : option Z :=
  zn ← nth 0;
  match zn with
  | None => Some 0
  | Some (_, rank) =>
      let count := u64 (length - u64 (rank - 1)) in
      zn ← nth (-1);
      match zn with
      | None => Some count
      | Some (_, rank) => Some (u64 (count - u64 (length - rank)))
      end
  end.

Definition zcountCommand (zs : zset) (range : zrangespec) : option Z :=
  count_by_rank (zsetLength zs) (zslNthInRange (zs_zsl zs) range).

Definition zlexcountCommand (zs : zset) (range : zlexrangespec) : option Z :=
  count_by_rank (zsetLength zs) (zslNthInLexRange (zs_zsl zs) range).

(** ** Commands that delete *)

Inductive zrange := ZRANGE_RANK (start end_ : Z) | ZRANGE_SCORE (range : zrangespec) | ZRANGE_LEX (range : zlexrangespec).

(** The sorted set, the number of deleted elements, and whether the key is
    removed. *)
Definition zremrangeGenericCommand (zs : zset) (rangetype : zrange) : option (zset * Z * bool) :=
  let z := zs_zsl zs in
  let perform delete_range :=
    '(z, d, deleted) ← delete_range (dictPauseAutoResize (zs_dict zs));
    let d := dictResumeAutoResize d in
    if dictSize d =? 0 then Some ({| zs_dict := d; zs_zsl := z |}, deleted, true)
    else
      '(d, _) ← dictShrinkIfNeeded hash resize_allowed force_full_rehash can_resize d;
      Some ({| zs_dict := d; zs_zsl := z |}, deleted, false) in
  match rangetype with
  | ZRANGE_RANK start end_ =>
      match sanitize_indexes (zsetLength zs) start end_ with
      | None => Some (zs, 0, false)
      | Some (start, end_) =>
          perform (zslDeleteRangeByRank hash resize_allowed force_full_rehash can_resize z (start + 1) (end_ + 1))
      end
  | ZRANGE_SCORE range => perform (zslDeleteRangeByScore hash resize_allowed force_full_rehash can_resize z range)
  | ZRANGE_LEX range => perform (zslDeleteRangeByLex hash resize_allowed force_full_rehash can_resize z range)
  end.

(** [do ... while(--rangelen)] of [genericZpopCommand]; [more] is the number of
    rounds after the first. *)
Fixpoint zpop_loop (zs : zset) (max : bool) (more : nat) : option (zset * list (list Z * T)) :=
  let z := zs_zsl zs in
  let m := zsl_mem z in
  zln ← (if max then Some (zsl_tail z) else m_fwd m !! (zsl_header z, 0%nat));
  zln ← zln;
  ele ← zslGetNodeElement m zln;
  score ← m_score m !! zln;
  '(zs, deleted) ← zsetDel zs ele;
  _ ← cassert deleted;
  match more with
  | O => Some (zs, [(ele, score)])
  | S more => '(zs, rest) ← zpop_loop zs max more; Some (zs, (ele, score) :: rest)
  end.

(** The boolean is [*deleted]. *)
Definition genericZpopCommand (zs : zset) (max : bool) (count : Z) : option (zset * list (list Z * T) * bool) :=
  if count =? 0 then Some (zs, [], false)
  else
    let count := if count =? -1 then 1 else count in
    let llen := zsetLength zs in
    let rangelen := if count >? llen then llen else count in
    '(zs, popped) ← zpop_loop zs max (Z.to_nat (rangelen - 1));
    Some (zs, popped, zsetLength zs =? 0).
End Zset.
