(* ===== verification/ZsetInv.v ===== *)
(** * Sorted sets: the skiplist and the dict agree

    [zset_ok zs ns]: the skiplist of [zs] holds the nodes [ns], in order, and its
    dict maps exactly their elements to them.  Every operation keeps it, and acts
    on the map from elements to scores as its specification says. *)

From Stdlib Require Import Sorting.Sorted.
From stdpp Require Import base list sorting numbers option tactics gmap.
From S2P Require Import Prelude Dict DictInv DictMap Order Skiplist SkiplistRep SkiplistUpd SkiplistDel SkiplistOps SkiplistRange Zset.

Section Inv.
Context {T : Type} `{ScoreOrder T}.
Context (hash : list Z -> Z) (can_resize : dictResizeEnable).

Abbreviation zset := (zset (T := T)).
Abbreviation zskiplist := (zskiplist (T := T)).
Abbreviation znode := (znode (T := T)).
Abbreviation dict := (dict (list Z) positive).

Definition loc_map (ns : list znode) : gmap (list Z) positive := list_to_map ((fun x => (z_ele x, z_loc x)) <$> ns).
Definition zset_map (ns : list znode) : gmap (list Z) T := list_to_map ((fun x => (z_ele x, z_score x)) <$> ns).

Record zset_ok (zs : zset) (ns : list znode) : Prop := {
  zo_zsl : zsl_repr (zs_zsl zs) ns;
  zo_elems : NoDup (map z_ele ns);
  zo_wf : dict_wf hash (zs_dict zs);
  zo_dict : dict_map (zs_dict zs) = loc_map ns }.

(** ** The maps of a list of nodes *)

Section Maps.
Context {A : Type} (f : znode -> A).
Abbreviation map_of ns := (list_to_map (M := gmap (list Z) A) ((fun x => (z_ele x, f x)) <$> ns)).

Lemma keys_of (ns : list znode) : ((fun x => (z_ele x, f x)) <$> ns).*1 = map z_ele ns.
Proof. induction ns as [|x ns IH]; [done|]. cbn. by rewrite IH. Qed.

Lemma map_of_perm (ns ns' : list znode) : NoDup (map z_ele ns) -> ns ≡ₚ ns' -> map_of ns = map_of ns'.
Proof. intros Hnd Hp. apply list_to_map_proper; [by rewrite keys_of|]. by rewrite Hp. Qed.

Lemma map_of_lookup (ns : list znode) x : NoDup (map z_ele ns) -> x ∈ ns -> map_of ns !! z_ele x = Some (f x).
Proof.
  intros Hnd Hx. apply elem_of_list_to_map_1; [by rewrite keys_of|]. by apply (list_elem_of_fmap_2 (fun x => (z_ele x, f x))).
Qed.

Lemma map_of_None (ns : list znode) e : e ∉ map z_ele ns -> map_of ns !! e = None.
Proof. intros He. apply not_elem_of_list_to_map_1. by rewrite keys_of. Qed.

Lemma map_of_Some (ns : list znode) e : is_Some (map_of ns !! e) -> exists x, x ∈ ns /\ z_ele x = e.
Proof.
  intros [a Ha]. apply elem_of_list_to_map_2, list_elem_of_fmap in Ha as (x & [= -> ->] & Hx). by exists x.
Qed.

Lemma map_of_delete (P Q : list znode) X : NoDup (map z_ele (P ++ X :: Q)) ->
  map_of (P ++ Q) = delete (z_ele X) (map_of (P ++ X :: Q)).
Proof.
  intros Hnd. rewrite (map_of_perm (P ++ X :: Q) (X :: P ++ Q)) by (try done; by rewrite Permutation_middle).
  cbn. rewrite delete_insert_eq, delete_id; [done|]. apply map_of_None.
  rewrite <- Permutation_middle in Hnd. by apply NoDup_cons in Hnd as [? _].
Qed.
End Maps.

Lemma ins_perm N (ns : list znode) : ins N ns ≡ₚ N :: ns.
Proof.
  induction ns as [|x ns IH]; [done|]. cbn [ins]. destruct (_ >? 0); [|done]. rewrite IH. apply Permutation_swap.
Qed.

(** The node of an element. *)
Lemma node_at (ns : list znode) e a (f : znode -> positive) :
  NoDup (map z_ele ns) -> (list_to_map ((fun x => (z_ele x, f x)) <$> ns) : gmap (list Z) positive) !! e = Some a ->
  exists P X Q, ns = P ++ X :: Q /\ z_ele X = e /\ f X = a.
Proof.
  intros Hnd He. destruct (map_of_Some f ns e ltac:(by eexists)) as (x & Hx & <-).
  pose proof (map_of_lookup f ns x Hnd Hx) as Hl. rewrite He in Hl. injection Hl as ->.
  apply list_elem_of_split in Hx as (P & Q & ->). by exists P, x, Q.
Qed.

Lemma random_level_range RAND draws : (1 <= zslRandomLevel RAND draws <= ZSKIPLIST_MAXLEVEL)%nat.
Proof.
  unfold zslRandomLevel. assert (Hl : forall n, (n <= random_level_loop (RAND / 4) draws n)%nat).
  { induction draws as [|r draws IH]; intros n; cbn [random_level_loop]; [lia|].
    destruct (_ <? _); [|lia]. specialize (IH (n + 1)%nat). lia. }
  specialize (Hl 1%nat). destruct (Nat.ltb_spec (random_level_loop (RAND / 4) draws 1) ZSKIPLIST_MAXLEVEL);
    unfold ZSKIPLIST_MAXLEVEL in *; lia.
Qed.

Lemma create_ok : zset_ok zset_create [].
Proof.
  split; cbn; [apply create_repr|by constructor| |done].
  split; cbn; try done; try (split; cbn; [by left|done|done]). by constructor.
Qed.

(** ** The operations on one element *)

Section Ops.
Context (zs : zset) (ns : list znode) (Hok : zset_ok zs ns).

Lemma score_ok e : exists zs', zsetScore hash can_resize zs e = Some (zs', zset_map ns !! e) /\ zset_ok zs' ns.
Proof.
  destruct Hok as [Hz Hnd Hw Hd]. unfold zsetScore.
  destruct (find_spec hash can_resize (zs_dict zs) e Hw) as (d & -> & Hp). cbn [mbind option_bind].
  pose proof (preserves_map hash _ _ Hw Hp) as Hm. pose proof (pr_wf hash _ _ Hp) as Hw'.
  assert (Hok' : zset_ok {| zs_dict := d; zs_zsl := zs_zsl zs |} ns) by (split; cbn; try done; by rewrite Hm).
  rewrite Hd. unfold loc_map. destruct (list_to_map _ !! e) as [n|] eqn:E; cbn [fmap option_fmap option_map].
  - apply node_at in E as (P & X & Q & -> & <- & <-); [|done].
    rewrite (no_score _ _ (node_fields _ P Q X Hz)). cbn [mbind option_bind]. eexists. split; [|done].
    do 2 f_equal. symmetry. apply map_of_lookup; [done|]. in_list.
  - eexists. split; [|done]. do 2 f_equal. symmetry. apply map_of_None. intros He.
    apply list_elem_of_fmap in He as (x & -> & Hx). by rewrite map_of_lookup in E.
Qed.

Lemma no_elem e : zset_map ns !! e = None <-> e ∉ map z_ele ns.
Proof.
  split; [|apply map_of_None]. intros He Hin. apply list_elem_of_fmap in Hin as (x & -> & Hx).
  unfold zset_map in He. by rewrite map_of_lookup in He by (try done; apply Hok).
Qed.

Lemma rank_ok (P Q : list znode) X reverse : ns = P ++ X :: Q ->
  exists zs', zsetRank hash can_resize zs (z_ele X) reverse =
    Some (zs', if reverse then zlen Q else zlen P, Some (z_score X)) /\ zset_ok zs' ns.
Proof.
  intros Hns. destruct Hok as [Hz Hnd Hw Hd]. unfold zsetRank, zsetLength.
  destruct (find_spec hash can_resize (zs_dict zs) (z_ele X) Hw) as (d & -> & Hp). cbn [mbind option_bind].
  pose proof (preserves_map hash _ _ Hw Hp) as Hm. pose proof (pr_wf hash _ _ Hp) as Hw'.
  rewrite Hd. unfold loc_map. rewrite map_of_lookup by (try done; rewrite Hns; in_list).
  cbn [fmap option_fmap option_map]. rewrite Hns in Hz. rewrite (rank_by_node_ok _ P Q X Hz). cbn [mbind option_bind].
  pose proof (zlen_nonneg P). pose proof (zlen_nonneg Q). rewrite (proj2 (Z.eqb_neq _ 0)) by lia. cbn [negb cassert mbind option_bind].
  rewrite (no_score _ _ (node_fields _ P Q X Hz)). cbn [mbind option_bind]. rewrite (zr_length _ _ Hz).
  pose proof (zr_bound _ _ Hz) as Hb. autorewrite with zlen in *. eexists. split.
  - rewrite !u64_id by lia. do 3 f_equal. destruct reverse; lia.
  - split; cbn; [by rewrite Hns|done|done|by rewrite Hm].
Qed.

Lemma rank_none e reverse : e ∉ map z_ele ns ->
  exists zs', zsetRank hash can_resize zs e reverse = Some (zs', -1, None) /\ zset_ok zs' ns.
Proof.
  intros He. destruct Hok as [Hz Hnd Hw Hd]. unfold zsetRank.
  destruct (find_spec hash can_resize (zs_dict zs) e Hw) as (d & -> & Hp). cbn [mbind option_bind].
  pose proof (preserves_map hash _ _ Hw Hp) as Hm. pose proof (pr_wf hash _ _ Hp) as Hw'.
  rewrite Hd. unfold loc_map. rewrite map_of_None by done. cbn. eexists. split; [done|]. split; cbn; try done. by rewrite Hm.
Qed.

Context (resize_allowed : Z -> Z -> Z -> bool) (force_full_rehash : bool).

Lemma del_ok e : exists zs', zsetDel hash resize_allowed force_full_rehash can_resize zs e =
    Some (zs', bool_decide (e ∈ map z_ele ns)) /\
  zset_ok zs' (filter (fun x => z_ele x <> e) ns).
Proof.
  destruct Hok as [Hz Hnd Hw Hd]. unfold zsetDel, zsetRemoveFromSkiplist, dictUnlink.
  destruct (generic_delete_spec hash resize_allowed force_full_rehash can_resize (zs_dict zs) e Hw) as (d & -> & Hw' & Hm).
  cbn [mbind option_bind]. rewrite Hd in *. unfold loc_map in *.
  destruct (list_to_map _ !! e) as [n|] eqn:E; cbn [fmap option_fmap option_map].
  - apply node_at in E as (P & X & Q & -> & <- & <-); [|done].
    destruct (delete_ok _ P Q X Hz) as (z' & -> & Hz'). cbn [mbind option_bind]. eexists. split.
    { rewrite bool_decide_true; [done|]. apply (list_elem_of_fmap_2 z_ele). in_list. }
    assert (HnX : Forall (fun x => z_ele x <> z_ele X) (P ++ Q)).
    { rewrite <- Permutation_middle in Hnd. apply NoDup_cons in Hnd as [Hn _]. apply list.Forall_forall.
      intros x Hx Heq. apply Hn. rewrite <- Heq. by apply (list_elem_of_fmap_2 z_ele). }
    assert (filter (fun x => z_ele x <> z_ele X) (P ++ X :: Q) = P ++ Q) as ->.
    { apply list.Forall_app in HnX as [HP HQ]. rewrite filter_app, filter_cons, decide_False by auto.
      by rewrite !filter_all. }
    split; cbn; [done| |done|rewrite Hm; symmetry; by apply (map_of_delete z_loc P Q X)].
    rewrite <- Permutation_middle in Hnd. by apply NoDup_cons in Hnd as [_ ?].
  - assert (He : e ∉ map z_ele ns).
    { intros He. apply list_elem_of_fmap in He as (x & -> & Hx). by rewrite map_of_lookup in E. }
    eexists. split; [by rewrite bool_decide_false|].
    rewrite filter_all. 2:{ apply list.Forall_forall. intros x Hx Heq. apply He. rewrite <- Heq. by apply (list_elem_of_fmap_2 z_ele). }
    split; cbn; [done|done|done|]. by rewrite Hm, delete_id.
Qed.

(** ** Adding *)

(** What [zsetAdd] does to the map from elements to scores. *)
Definition zadd_spec (m : gmap (list Z) T) (score : T) (ele : list Z) (in_flags : Z) : gmap (list Z) T * zadd_result :=
  let nop := {| za_ret := 1; za_flags := ZADD_OUT_NOP; za_newscore := None |} in
  let nan := {| za_ret := 0; za_flags := ZADD_OUT_NAN; za_newscore := None |} in
  if isnan score then (m, nan)
  else
    match m !! ele with
    | Some cur =>
        let new := if flag in_flags ZADD_IN_INCR then sadd score cur else score in
        if flag in_flags ZADD_IN_NX then (m, nop)
        else if isnan new then (m, nan)
        else if flag in_flags ZADD_IN_LT && sle cur new || flag in_flags ZADD_IN_GT && sle new cur then (m, nop)
        else if sequal new cur then (m, {| za_ret := 1; za_flags := 0; za_newscore := Some new |})
        else (<[ele := new]> m, {| za_ret := 1; za_flags := ZADD_OUT_UPDATED; za_newscore := Some new |})
    | None =>
        if flag in_flags ZADD_IN_XX then (m, nop)
        else (<[ele := score]> m, {| za_ret := 1; za_flags := ZADD_OUT_ADDED; za_newscore := Some score |})
    end.

Context (junk : nat -> option positive * Z) (RAND_MAX : Z).

(** A new element. *)
Lemma insert_new_ok d b score ele draws : isnan score = false -> ele ∉ map z_ele ns -> zlen ns + 1 < 2 ^ 63 ->
  dict_wf hash d -> dict_map d = loc_map ns ->
  b = None \/ b = Some (bucket_of hash d ele) /\ ht_table (ht0 d) <> [] ->
  exists z n d', let ns' := ins {| z_loc := n; z_score := score; z_ele := ele; z_h := zslRandomLevel RAND_MAX draws |} ns in
    zslInsert junk (zs_zsl zs) (zslRandomLevel RAND_MAX draws) score ele = Some (z, n) /\
    dictSetKeyAtLink hash resize_allowed force_full_rehash can_resize d ele n (NewItem b) = Some d' /\
    zset_ok {| zs_dict := d'; zs_zsl := z |} ns' /\ zset_map ns' = <[ele := score]> (zset_map ns).
Proof.
  intros Hn He Hb Hw Hd Hbk. destruct Hok as [Hz Hnd _ _].
  destruct (SkiplistOps.insert_ok junk (zs_zsl zs) ns (zslRandomLevel RAND_MAX draws) score ele Hz
    (random_level_range _ _) Hn He Hb) as (z & n & Hi & Hz').
  destruct (set_key_new_spec hash resize_allowed force_full_rehash can_resize d ele n b Hw) as (d' & Hs & Hw' & Hm).
  { rewrite Hd. by apply map_of_None. } { done. }
  set (N := {| z_loc := n; z_score := score; z_ele := ele; z_h := zslRandomLevel RAND_MAX draws |}) in *.
  assert (Hnd' : NoDup (map z_ele (ins N ns))).
  { rewrite ins_perm. cbn. by apply NoDup_cons. }
  exists z, n, d'. cbn zeta. split_and!; [done|done| |].
  - split; cbn; [done|done|done|]. rewrite Hm, Hd. symmetry. apply (map_of_perm z_loc _ (N :: ns) Hnd' (ins_perm N ns)).
  - apply (map_of_perm z_score _ (N :: ns) Hnd' (ins_perm N ns)).
Qed.

(** A new score. *)
Lemma rescore_ok d (P Q : list znode) X score : ns = P ++ X :: Q -> isnan score = false ->
  dict_wf hash d -> dict_map d = loc_map ns ->
  exists z ns', zslUpdateScore (zs_zsl zs) (z_loc X) score = Some z /\
    zset_ok {| zs_dict := d; zs_zsl := z |} ns' /\ zset_map ns' = <[z_ele X := score]> (zset_map ns).
Proof.
  intros Hns Hn Hw Hd. destruct Hok as [Hz Hnd _ _]. rewrite Hns in *.
  assert (Hp : P ++ X :: Q ≡ₚ X :: P ++ Q) by (by rewrite Permutation_middle).
  pose proof Hnd as Hnd2. rewrite Hp in Hnd2. apply NoDup_cons in Hnd2 as [HX Hnd2].
  destruct (update_score_ok (zs_zsl zs) P Q X score Hz Hn HX) as (z & Hu & Hz').
  assert (Hnd' : NoDup (map z_ele (ins (rescore X score) (P ++ Q)))).
  { rewrite ins_perm. cbn. by apply NoDup_cons. }
  exists z, (ins (rescore X score) (P ++ Q)). split_and!; [done| |].
  - split; cbn; [done|done|done|]. rewrite Hd. unfold loc_map.
    rewrite (map_of_perm z_loc _ _ Hnd' (ins_perm _ _)), (map_of_perm z_loc _ _ Hnd Hp). done.
  - unfold zset_map. rewrite (map_of_perm z_score _ _ Hnd' (ins_perm _ _)), (map_of_perm z_score _ _ Hnd Hp).
    cbn. by rewrite insert_insert_eq.
Qed.

Lemma add_ok score ele in_flags draws : zlen ns + 1 < 2 ^ 63 ->
  exists zs' ns' r, zsetAdd junk RAND_MAX hash resize_allowed force_full_rehash can_resize zs score ele in_flags draws =
    Some (zs', r) /\ zset_ok zs' ns' /\ (zset_map ns', r) = zadd_spec (zset_map ns) score ele in_flags.
Proof.
  intros Hb. unfold zsetAdd, zadd_spec. destruct (isnan score) eqn:En; [by eexists _, ns, _|].
  destruct Hok as [Hz Hnd Hw Hd].
  destruct (find_link_spec hash can_resize (zs_dict zs) ele Hw) as (d & lnk & b & -> & Hp & Hl). cbn [mbind option_bind].
  pose proof (preserves_map hash _ _ Hw Hp) as Hm. pose proof (pr_wf hash _ _ Hp) as Hw'.
  assert (Hd' : dict_map d = loc_map ns) by congruence.
  assert (Hok' : zset_ok {| zs_dict := d; zs_zsl := zs_zsl zs |} ns) by done. rewrite Hd in Hl.
  destruct lnk as [l|].
  - destruct Hl as (n & Hn & Hl). apply node_at in Hn as (P & X & Q & Hns & <- & <-); [|done].
    assert (HX : zset_map ns !! z_ele X = Some (z_score X)) by (apply map_of_lookup; [done|rewrite Hns; in_list]).
    rewrite HX. destruct (flag in_flags ZADD_IN_NX); [by eexists _, ns, _|].
    apply link_ok_entry in Hl as [_ ->]. cbn [mbind option_bind].
    assert (Hs : m_score (zsl_mem (zs_zsl zs)) !! z_loc X = Some (z_score X)).
    { rewrite Hns in Hz. apply (no_score _ _ (node_fields _ P Q X Hz)). }
    rewrite Hs. cbn [mbind option_bind]. set (new := if flag in_flags ZADD_IN_INCR then _ else _).
    assert (flag in_flags ZADD_IN_INCR && isnan new = isnan new) as ->.
    { unfold new. by destruct (flag in_flags ZADD_IN_INCR). }
    destruct (isnan new) eqn:Enew; [by eexists _, ns, _|].
    destruct (_ || _); [by eexists _, ns, _|]. destruct (sequal new (z_score X)); cbn [negb]; [by eexists _, ns, _|].
    destruct (rescore_ok d P Q X new Hns Enew Hw' Hd') as (z & ns' & -> & Hok2 & Hm2). cbn [mbind option_bind].
    eexists _, ns', _. split; [done|]. split; [done|]. by rewrite Hm2.
  - destruct Hl as [He Hbk]. assert (Hno : ele ∉ map z_ele ns).
    { intros Hin. apply list_elem_of_fmap in Hin as (x & -> & Hx). unfold loc_map in He. by rewrite map_of_lookup in He. }
    assert (zset_map ns !! ele = None) as -> by (by apply map_of_None).
    destruct (flag in_flags ZADD_IN_XX); [by eexists _, ns, _|].
    destruct (insert_new_ok d b score ele draws En Hno Hb Hw' Hd' Hbk) as (z & n & d' & -> & Hs & Hok2 & Hm2).
    cbn [mbind option_bind]. rewrite Hs. cbn [mbind option_bind].
    eexists _, _, _. split; [done|]. split; [exact Hok2|]. by rewrite Hm2.
Qed.

(** The nodes after a new element is added. *)
Lemma add_new_ok score ele draws : isnan score = false -> ele ∉ map z_ele ns -> zlen ns + 1 < 2 ^ 63 ->
  exists zs' r n, zsetAdd junk RAND_MAX hash resize_allowed force_full_rehash can_resize zs score ele 0 draws =
      Some (zs', r) /\
    snd <$> zslInsert junk (zs_zsl zs) (zslRandomLevel RAND_MAX draws) score ele = Some n /\
    zset_ok zs' (ins {| z_loc := n; z_score := score; z_ele := ele; z_h := zslRandomLevel RAND_MAX draws |} ns).
Proof.
  intros En Hno Hb. unfold zsetAdd. rewrite En. pose proof Hok as [Hz Hnd Hw Hd].
  destruct (find_link_spec hash can_resize (zs_dict zs) ele Hw) as (d & lnk & b & -> & Hp & Hl). cbn [mbind option_bind].
  rewrite Hd in Hl. unfold loc_map in Hl. rewrite map_of_None in Hl by done.
  destruct lnk as [l|]; [by destruct Hl as (? & ? & _)|]. destruct Hl as [_ Hbk].
  change (flag 0 ZADD_IN_XX) with false. cbn iota.
  destruct (insert_new_ok d b score ele draws En Hno Hb) as (z & n & d' & -> & Hs & Hok2 & _); [apply (pr_wf hash _ _ Hp)| |done|].
  { rewrite (preserves_map hash _ _ Hw Hp). done. }
  cbn [mbind option_bind]. rewrite Hs. cbn [mbind option_bind]. eexists _, _, n. split; [done|]. by split.
Qed.
End Ops.
End Inv.

(** * Sorted sets: ranges of elements

    Deleting, listing and counting the elements of a range, by rank, by score
    and by element. *)

Section Range.
Context {T : Type} `{ScoreOrder T}.
Context (hash : list Z -> Z) (resize_allowed : Z -> Z -> Z -> bool) (force_full_rehash : bool)
  (can_resize : dictResizeEnable).

Abbreviation zset := (zset (T := T)).
Abbreviation zskiplist := (zskiplist (T := T)).
Abbreviation mem := (zskiplistNodes (T := T)).
Abbreviation znode := (znode (T := T)).
Abbreviation dict := (dict (list Z) positive).
Abbreviation zset_ok := (zset_ok hash).

(** ** Deletion *)

Section Delete.
(** The condition of the loop, as a test of the place and the node. *)
Context (cond : mem -> Z -> positive -> option bool) (c : Z -> znode -> bool).
Context (Hcond : forall m t x, node_ok m x -> cond m t (z_loc x) = Some (c t x)).

Lemma delete_loop_ok (P Q : list znode) update : forall R fuel z d t removed, zsl_repr z (P ++ R ++ Q) ->
  (forall l, (l < zsl_level z)%nat -> update !! l = Some (upd_at (zsl_header z) P l)) ->
  NoDup (map z_ele (P ++ R ++ Q)) -> dict_wf hash d -> dict_map d = loc_map (P ++ R ++ Q) ->
  (length R < fuel)%nat -> 0 <= t -> t + zlen R < 2 ^ 64 -> 0 <= removed -> removed + zlen R < 2 ^ 64 ->
  (forall i x, R !! i = Some x -> c (t + Z.of_nat i) x = true) ->
  (forall x, head Q = Some x -> c (t + zlen R) x = false) ->
  exists z' d', delete_loop hash resize_allowed force_full_rehash can_resize fuel z d cond update
      (z_loc <$> head (R ++ Q)) t removed = Some (z', d', removed + zlen R) /\
    zsl_repr z' (P ++ Q) /\ dict_wf hash d' /\ dict_map d' = loc_map (P ++ Q).
Proof.
  induction R as [|X R IH]; intros fuel z d t removed Hz Hup Hnd Hw Hd Hf Ht0 Htb Hr0 Hrb Hin Hout.
  - cbn [app] in *. rewrite zlen_nil, !Z.add_0_r in *. exists z, d. split; [|done].
    destruct Q as [|q Q]; [by destruct fuel|]. cbn [head fmap option_fmap option_map].
    assert (Hq : cond (zsl_mem z) t (z_loc q) = Some false).
    { rewrite Hcond by (apply (node_of z _ q Hz); in_list). f_equal. by apply Hout. }
    destruct fuel; cbn [delete_loop]; by rewrite Hq.
  - cbn [app head fmap option_fmap option_map] in *. destruct fuel as [|fuel]; [cbn in Hf; lia|]. cbn [delete_loop].
    rewrite Hcond by (apply (node_of z _ X Hz); in_list). cbn [mbind option_bind].
    rewrite zlen_cons in *. pose proof (zlen_nonneg R).
    pose proof (Hin 0%nat X eq_refl) as HX. rewrite Z.add_0_r in HX. rewrite HX. cbn [negb].
    destruct (unlink_node_ok z P (R ++ Q) X update Hz Hup) as (z1 & Hu & Hz1 & Hh1 & Hl1 & Hdet & Hni & _).
    assert (Hnext : m_fwd (zsl_mem z) !! (z_loc X, 0%nat) = Some (z_loc <$> head (R ++ Q))).
    { pose proof (head_link z _ (P ++ [X]) (R ++ Q) Hz ltac:(by rewrite <- app_assoc)) as Hl.
      unfold cur in Hl. by rewrite last_snoc in Hl. }
    rewrite Hnext. cbn [mbind option_bind]. rewrite Hu. cbn [mbind option_bind]. unfold zslGetNodeElement.
    rewrite (no_ele _ _ (dt_node _ _ Hdet)). cbn [mbind option_bind].
    destruct (dict_delete_spec hash resize_allowed force_full_rehash can_resize d (z_ele X) Hw) as (d1 & -> & Hw1 & Hm1).
    cbn [mbind option_bind].
    destruct (free_ok z1 (P ++ R ++ Q) X Hz1) as (z2 & -> & Hz2 & Hh2 & Hl2 & _); [|done|].
    { rewrite (no_levels _ _ (dt_node _ _ Hdet)). by eexists. }
    cbn [mbind option_bind]. rewrite !u64_id by lia.
    destruct (IH fuel z2 d1 (t + 1) (removed + 1) Hz2) as (z' & d' & Hloop & Hres).
    + intros l Hl. rewrite Hh2, Hh1. apply Hup. lia.
    + rewrite <- Permutation_middle in Hnd. by apply NoDup_cons in Hnd as [_ ?].
    + done.
    + rewrite Hm1, Hd. symmetry. by apply (map_of_delete z_loc P (R ++ Q) X).
    + cbn in Hf. lia.
    + lia. + lia. + lia. + lia.
    + intros i x Hi. replace (t + 1 + Z.of_nat i) with (t + Z.of_nat (S i)) by lia. by apply Hin.
    + intros x Hx. replace (t + 1 + zlen R) with (t + (1 + zlen R)) by lia. by apply Hout.
    + exists z', d'. rewrite Hloop. split; [|done]. do 2 f_equal. lia.
Qed.

Lemma delete_from_ok z d (P R Q : list znode) skip : zsl_repr z (P ++ R ++ Q) -> NoDup (map z_ele (P ++ R ++ Q)) ->
  dict_wf hash d -> dict_map d = loc_map (P ++ R ++ Q) ->
  (forall A x B, P ++ R ++ Q = A ++ x :: B -> skip (zlen A + 1) (z_loc x) = Some (bool_decide (zlen A + 1 <= zlen P))) ->
  (forall i x, R !! i = Some x -> c (zlen P + 1 + Z.of_nat i) x = true) ->
  (forall x, head Q = Some x -> c (zlen P + 1 + zlen R) x = false) ->
  exists z' d', delete_from hash resize_allowed force_full_rehash can_resize z d skip cond = Some (z', d', zlen R) /\
    zset_ok {| zs_dict := d'; zs_zsl := z' |} (P ++ Q).
Proof.
  intros Hz Hnd Hw Hd Hskip Hin Hout. unfold delete_from.
  destruct (find_update_ok z _ P (R ++ Q) skip Hz eq_refl Hskip) as (up & -> & Hlen & Hup). cbn [mbind option_bind].
  pose proof (zr_level _ _ Hz). rewrite Hup by lia. cbn [mbind option_bind].
  rewrite (predl_top0 z _ Hz P (R ++ Q) eq_refl). cbn [mbind option_bind].
  rewrite (head_link z _ P (R ++ Q) Hz eq_refl). cbn [mbind option_bind].
  pose proof (zr_bound _ _ Hz) as Hb. autorewrite with zlen in Hb.
  pose proof (zlen_nonneg P). pose proof (zlen_nonneg Q). pose proof (zlen_nonneg R). rewrite u64_id by lia.
  destruct (delete_loop_ok P Q up R (loop_fuel z) z d (zlen P + 1) 0 Hz Hup Hnd Hw Hd) as (z' & d' & -> & Hz' & Hw' & Hd');
    try done; try lia.
  { unfold loop_fuel. rewrite (zr_length _ _ Hz). unfold zlen. rewrite !length_app. lia. }
  exists z', d'. split; [done|]. split; cbn; [done| |done|done].
  rewrite !map_app, NoDup_app in Hnd. rewrite map_app, NoDup_app. destruct Hnd as (HP & Hd1 & (HR & Hd2 & HQ)%NoDup_app).
  split_and!; [done| |done]. intros x Hx Hq. apply (Hd1 x Hx). apply elem_of_app. by right.
Qed.
End Delete.

(** What a range leaves. *)
Definition outside (g l : znode -> bool) (ns : list znode) : list znode :=
  filter (fun x => ~ (g x = true /\ l x = true)) ns.

Lemma outside_parts g l (ns : list znode) : upward ns g -> upward ns (fun x => negb (l x)) ->
  outside g l ns = below g ns ++ above g l ns.
Proof.
  intros Hg Hl. unfold outside. rewrite (range_split ns g l Hg Hl) at 1. rewrite !filter_app.
  rewrite (filter_none _ (within g l ns)), (filter_all _ (below g ns)), (filter_all _ (above g l ns)); [done|..];
    apply list.Forall_forall; intros x Hx; apply list_elem_of_filter in Hx as [Hx _]; cbn in Hx; intuition congruence.
Qed.

Lemma delete_range_ok z d (ns : list znode) skip cond g l : zsl_repr z ns -> NoDup (map z_ele ns) ->
  dict_wf hash d -> dict_map d = loc_map ns -> upward ns g -> upward ns (fun x => negb (l x)) ->
  (forall t x, x ∈ ns -> skip t (z_loc x) = Some (negb (g x))) ->
  (forall m t x, node_ok m x -> cond m t (z_loc x) = Some (l x)) ->
  exists z' d', delete_from hash resize_allowed force_full_rehash can_resize z d skip cond =
      Some (z', d', zlen (within g l ns)) /\
    zset_ok {| zs_dict := d'; zs_zsl := z' |} (outside g l ns).
Proof.
  intros Hz Hnd Hw Hd Hg Hl Hskip Hcond. rewrite outside_parts by done.
  pose proof (range_split ns g l Hg Hl) as Hns.
  set (P := below g ns) in *. set (R := within g l ns) in *. set (Q := above g l ns) in *.
  apply (delete_from_ok cond (fun _ => l) Hcond z d P R Q skip); try done; try (by rewrite <- Hns).
  - intros A x B HA. rewrite <- Hns in HA. rewrite Hskip by (rewrite HA; in_list). f_equal.
    apply (prefix_bool ns P (R ++ Q) (fun x => negb (g x)) Hns) with (B := B); [..|done].
    + apply list.Forall_forall. by intros y [-> _]%list_elem_of_filter.
    + apply list.Forall_app. split; apply list.Forall_forall; by intros y [[-> _] _]%list_elem_of_filter.
  - intros i x Hi%list_elem_of_lookup_2. by apply list_elem_of_filter in Hi as [[_ ?] _].
  - intros x Hx. assert (Hin : x ∈ Q) by (destruct Q; [done|]; injection Hx as ->; by left).
    by apply list_elem_of_filter in Hin as [[_ ?] _].
Qed.

Lemma delete_by_score_ok z d (ns : list znode) range : zsl_repr z ns -> NoDup (map z_ele ns) ->
  dict_wf hash d -> dict_map d = loc_map ns ->
  exists z' d', zslDeleteRangeByScore hash resize_allowed force_full_rehash can_resize z range d =
      Some (z', d', zlen (within (gte_of range) (lte_of range) ns)) /\
    zset_ok {| zs_dict := d'; zs_zsl := z' |} (outside (gte_of range) (lte_of range) ns).
Proof.
  intros Hz Hnd Hw Hd. apply delete_range_ok; try done.
  - apply gte_up; [apply (zr_sorted _ _ Hz)|by eapply repr_nonan].
  - apply lte_down; [apply (zr_sorted _ _ Hz)|by eapply repr_nonan].
  - intros t x Hx. by rewrite (no_score _ _ (node_of z ns x Hz Hx)).
  - intros m t x Hx. by rewrite (no_score _ _ Hx).
Qed.

Lemma delete_by_lex_ok z d (ns : list znode) range : zsl_repr z ns -> NoDup (map z_ele ns) ->
  dict_wf hash d -> dict_map d = loc_map ns -> same_scores ns ->
  exists z' d', zslDeleteRangeByLex hash resize_allowed force_full_rehash can_resize z range d =
      Some (z', d', zlen (within (lex_gte_of range) (lex_lte_of range) ns)) /\
    zset_ok {| zs_dict := d'; zs_zsl := z' |} (outside (lex_gte_of range) (lex_lte_of range) ns).
Proof.
  intros Hz Hnd Hw Hd Hsc. apply delete_range_ok; try done.
  - apply lex_gte_up; [apply (zr_sorted _ _ Hz)|done].
  - apply lex_lte_down; [apply (zr_sorted _ _ Hz)|done].
  - intros t x Hx. unfold zslGetNodeElement. by rewrite (no_ele _ _ (node_of z ns x Hz Hx)).
  - intros m t x Hx. unfold zslGetNodeElement. by rewrite (no_ele _ _ Hx).
Qed.

(** By rank, from [lo] up to and without [hi], counted from 0. *)
Lemma delete_by_rank_ok z d (ns : list znode) lo hi : zsl_repr z ns -> NoDup (map z_ele ns) ->
  dict_wf hash d -> dict_map d = loc_map ns -> 0 <= lo < hi -> hi <= zlen ns ->
  exists z' d', zslDeleteRangeByRank hash resize_allowed force_full_rehash can_resize z (lo + 1) hi d =
      Some (z', d', hi - lo) /\
    zset_ok {| zs_dict := d'; zs_zsl := z' |} (take (Z.to_nat lo) ns ++ drop (Z.to_nat hi) ns).
Proof.
  intros Hz Hnd Hw Hd Hlo Hhi. unfold zslDeleteRangeByRank.
  set (P := take (Z.to_nat lo) ns). set (Q := drop (Z.to_nat hi) ns).
  set (R := drop (Z.to_nat lo) (take (Z.to_nat hi) ns)).
  assert (Hns : ns = P ++ R ++ Q).
  { unfold P, R, Q. rewrite <- (take_drop (Z.to_nat hi) ns) at 1. rewrite app_assoc. f_equal.
    rewrite <- (take_drop (Z.to_nat lo) (take (Z.to_nat hi) ns)) at 1. f_equal. rewrite take_take. f_equal. lia. }
  assert (HzP : zlen P = lo) by (unfold P, zlen in *; rewrite length_take; lia).
  assert (HzR : zlen R = hi - lo) by (unfold R, zlen in *; rewrite length_drop, length_take; lia).
  rewrite <- HzR.
  apply (delete_from_ok (fun _ t _ => Some (t <=? hi)) (fun t _ => t <=? hi) ltac:(done)); try done; try (by rewrite <- Hns).
  - intros A x B HA. f_equal. rewrite HzP.
    destruct (Z.ltb_spec (zlen A + 1) (lo + 1)), (bool_decide_reflect (zlen A + 1 <= lo)); done || lia.
  - intros i x Hi%lookup_lt_Some. apply Z.leb_le. unfold zlen in *. lia.
  - intros x Hx. apply Z.leb_gt. lia.
Qed.

(** ** ZREMRANGEBYRANK, ZREMRANGEBYSCORE, ZREMRANGEBYLEX *)

Lemma loc_map_size (ns : list znode) : NoDup (map z_ele ns) -> size (loc_map ns) = length ns.
Proof.
  intros Hnd. unfold loc_map. rewrite map_size_list_to_map; [by rewrite length_fmap|]. by rewrite keys_of.
Qed.

(** The end of all three: the key goes when nothing is left. *)
Lemma remrange_end_ok z d (ns : list znode) (deleted : Z) : zset_ok {| zs_dict := d; zs_zsl := z |} ns ->
  exists zs', (if dictSize (dictResumeAutoResize d) =? 0
     then Some ({| zs_dict := dictResumeAutoResize d; zs_zsl := z |}, deleted, true)
     else dictShrinkIfNeeded hash resize_allowed force_full_rehash can_resize (dictResumeAutoResize d) ≫=
       fun '(d, _) => Some ({| zs_dict := d; zs_zsl := z |}, deleted, false)) =
    Some (zs', deleted, bool_decide (ns = [])) /\ zset_ok zs' ns.
Proof.
  intros [Hz Hnd Hw Hd]. cbn [zs_dict zs_zsl] in *.
  assert (Hw' : dict_wf hash (dictResumeAutoResize d)) by (by split; apply Hw).
  pose proof (dict_map_size hash _ Hw') as Hs. change (dict_map (dictResumeAutoResize d)) with (dict_map d) in Hs.
  rewrite Hd, loc_map_size in Hs by done. destruct (Z.eqb_spec (dictSize (dictResumeAutoResize d)) 0) as [E|E].
  - exists {| zs_dict := dictResumeAutoResize d; zs_zsl := z |}. split; [|split; [exact Hz|exact Hnd|exact Hw'|exact Hd]]. rewrite bool_decide_true; [done|]. destruct ns; [done|cbn in Hs; lia].
  - destruct (shrink_ok hash resize_allowed force_full_rehash can_resize _ Hw') as (d' & ok & -> & Hp). cbn [mbind option_bind].
    eexists. split; [rewrite bool_decide_false; [done|]; by intros ->|].
    split; cbn; [done|done|apply (pr_wf hash _ _ Hp)|]. rewrite (preserves_map hash _ _ Hw' Hp). exact Hd.
Qed.

(** The places that a pair of indexes stands for, negative ones counted from the
    end: from [fst] up to and without [snd]. *)
Definition rank_window (len start end_ : Z) : Z * Z :=
  (Z.max 0 (if start <? 0 then len + start else start),
   Z.min len ((if end_ <? 0 then len + end_ else end_) + 1)).

Lemma sanitize_ok len start end_ : 0 <= len ->
  let '(lo, hi) := rank_window len start end_ in
  0 <= lo /\ hi <= len /\ sanitize_indexes len start end_ = if lo <? hi then Some (lo, hi - 1) else None.
Proof.
  intros Hl. unfold rank_window, sanitize_indexes.
  set (s := if start <? 0 then _ else _). set (e := if end_ <? 0 then _ else _). cbn zeta.
  replace (if s <? 0 then 0 else s) with (Z.max 0 s) by (destruct (Z.ltb_spec s 0); lia).
  split; [lia|]. split; [lia|].
  destruct (Z.gtb_spec (Z.max 0 s) e), (Z.geb_spec (Z.max 0 s) len), (Z.geb_spec e len),
    (Z.ltb_spec (Z.max 0 s) (Z.min len (e + 1))); cbn [orb]; try lia; try done; do 2 f_equal; lia.
Qed.

(** The elements that a command deletes or leaves. *)
Definition selected (rangetype : zrange) (ns : list znode) : list znode :=
  match rangetype with
  | ZRANGE_RANK start end_ =>
      let '(lo, hi) := rank_window (zlen ns) start end_ in take (Z.to_nat (hi - lo)) (drop (Z.to_nat lo) ns)
  | ZRANGE_SCORE range => within (gte_of range) (lte_of range) ns
  | ZRANGE_LEX range => within (lex_gte_of range) (lex_lte_of range) ns
  end.

Definition remaining (rangetype : zrange) (ns : list znode) : list znode :=
  match rangetype with
  | ZRANGE_RANK start end_ =>
      let '(lo, hi) := rank_window (zlen ns) start end_ in take (Z.to_nat lo) ns ++ drop (Z.to_nat (Z.max lo hi)) ns
  | ZRANGE_SCORE range => outside (gte_of range) (lte_of range) ns
  | ZRANGE_LEX range => outside (lex_gte_of range) (lex_lte_of range) ns
  end.

(** A range of elements is for a sorted set in which all scores are equal. *)
Definition range_valid (rangetype : zrange (T := T)) (ns : list znode) : Prop :=
  match rangetype with ZRANGE_LEX _ => same_scores ns | _ => True end.

Lemma zremrange_ok zs (ns : list znode) rangetype : zset_ok zs ns -> ns <> [] -> range_valid rangetype ns ->
  exists zs', zremrangeGenericCommand hash resize_allowed force_full_rehash can_resize zs rangetype =
      Some (zs', zlen (selected rangetype ns), bool_decide (remaining rangetype ns = [])) /\
    zset_ok zs' (remaining rangetype ns).
Proof.
  intros Hok Hne Hv. pose proof Hok as [Hz Hnd Hw Hd]. unfold zremrangeGenericCommand.
  assert (Hw' : dict_wf hash (dictPauseAutoResize (zs_dict zs))) by (by split; apply Hw).
  destruct rangetype as [start end_|range|range]; cbn [selected remaining].
  - unfold zsetLength. rewrite (zr_length _ _ Hz). pose proof (sanitize_ok (zlen ns) start end_ (zlen_nonneg ns)) as Hs.
    destruct (rank_window (zlen ns) start end_) as [lo hi]. destruct Hs as (Hlo & Hhi & ->).
    destruct (Z.ltb_spec lo hi) as [Hlt|Hge].
    + replace (hi - 1 + 1) with hi by lia.
      destruct (delete_by_rank_ok (zs_zsl zs) (dictPauseAutoResize (zs_dict zs)) ns lo hi Hz Hnd Hw' Hd)
        as (z' & d' & -> & Hok'); [lia|lia|]. cbn [mbind option_bind]. rewrite Z.max_r by lia. unfold zlen at 1.
      rewrite length_take, length_drop.
      replace (Z.of_nat (Z.to_nat (hi - lo) `min` (length ns - Z.to_nat lo))) with (hi - lo) by (unfold zlen in *; lia).
      by apply remrange_end_ok.
    + rewrite Z.max_l by lia. rewrite take_drop. rewrite bool_decide_false by done.
      replace (Z.to_nat (hi - lo)) with 0%nat by lia. by exists zs.
  - cbn zeta. destruct (delete_by_score_ok (zs_zsl zs) (dictPauseAutoResize (zs_dict zs)) ns range Hz Hnd Hw' Hd)
      as (z' & d' & -> & Hok'). cbn [mbind option_bind]. by apply remrange_end_ok.
  - cbn zeta. destruct (delete_by_lex_ok (zs_zsl zs) (dictPauseAutoResize (zs_dict zs)) ns range Hz Hnd Hw' Hd Hv)
      as (z' & d' & -> & Hok'). cbn [mbind option_bind]. by apply remrange_end_ok.
Qed.
End Range.
