(* ===== verification/ZsetRead.v ===== *)
(** * Sorted sets: the commands that list, count and pop elements *)

From Stdlib Require Import Sorting.Sorted.
From stdpp Require Import base list sorting numbers option tactics gmap.
From S2P Require Import Prelude Dict DictInv DictMap Order Skiplist SkiplistRep SkiplistUpd SkiplistDel SkiplistOps SkiplistRange Zset ZsetInv.

Section Read.
Context {T : Type} `{ScoreOrder T}.
Context (hash : list Z -> Z).

Abbreviation zset := (zset (T := T)).
Abbreviation zskiplist := (zskiplist (T := T)).
Abbreviation mem := (zskiplistNodes (T := T)).
Abbreviation znode := (znode (T := T)).
Abbreviation zset_ok := (zset_ok hash).

(** What a reply shows of a node. *)
Definition kv (x : znode) : list Z * T := (z_ele x, z_score x).

(** One step of a listing. *)
Lemma emit_fields z (ns : list znode) x : zsl_repr z ns -> x ∈ ns ->
  zslGetNodeElement (zsl_mem z) (z_loc x) = Some (z_ele x) /\ m_score (zsl_mem z) !! z_loc x = Some (z_score x).
Proof. intros Hz Hx. destruct (node_of z ns x Hz Hx). by split. Qed.

Lemma next_link z (A B : list znode) x : zsl_repr z (A ++ x :: B) ->
  m_fwd (zsl_mem z) !! (z_loc x, 0%nat) = Some (z_loc <$> head B).
Proof.
  intros Hz. pose proof (head_link z _ (A ++ [x]) B Hz ltac:(by rewrite <- app_assoc)) as Hl.
  unfold cur in Hl. by rewrite last_snoc in Hl.
Qed.

(** ** By rank *)

Lemma emit_n_forward z n : forall A B : list znode, zsl_repr z (A ++ B) -> (n <= length B)%nat ->
  emit_n (zsl_mem z) false n (z_loc <$> head B) = Some (map kv (take n B)).
Proof.
  induction n as [|n IH]; intros A B Hz Hn; [done|]. destruct B as [|x B]; cbn [length] in Hn; [lia|].
  cbn [head fmap option_fmap option_map emit_n mbind option_bind].
  destruct (emit_fields z _ x Hz ltac:(in_list)) as [-> ->]. cbn [mbind option_bind].
  rewrite (next_link z A B x Hz). cbn [mbind option_bind].
  rewrite (IH (A ++ [x]) B); [done|by rewrite <- app_assoc|lia].
Qed.

Lemma emit_n_backward z n : forall A B : list znode, zsl_repr z (A ++ B) -> (n <= length A)%nat ->
  emit_n (zsl_mem z) true n (z_loc <$> last A) = Some (map kv (take n (reverse A))).
Proof.
  induction n as [|n IH]; intros A B Hz Hn; [done|]. destruct A as [|x A _] using rev_ind; [cbn in Hn; lia|].
  rewrite length_app in Hn. cbn [length] in Hn. rewrite <- app_assoc in Hz. cbn [app] in Hz.
  rewrite last_snoc, reverse_snoc. cbn [fmap option_fmap option_map emit_n mbind option_bind take map].
  destruct (emit_fields z _ x Hz ltac:(in_list)) as [-> ->]. cbn [mbind option_bind].
  rewrite (zr_back _ _ Hz A x B eq_refl). cbn [mbind option_bind]. by rewrite (IH A (x :: B) Hz) by lia.
Qed.

Lemma last_take (l : list znode) n : (0 < n <= length l)%nat -> last (take n l) = l !! (n - 1)%nat.
Proof.
  intros Hn. rewrite last_lookup, length_take, Nat.min_l by lia. rewrite lookup_take_lt by lia. f_equal. lia.
Qed.

Lemma drop_reverse (l : list znode) n : (n <= length l)%nat -> drop n (reverse l) = reverse (take (length l - n) l).
Proof.
  intros Hn. rewrite <- (take_drop (length l - n) l) at 1. rewrite reverse_app.
  rewrite drop_app_length'; [done|]. rewrite length_reverse, length_drop. lia.
Qed.

Lemma zrange_rank_ok zs (ns : list znode) start end_ (reverse' : bool) : zset_ok zs ns ->
  genericZrangebyrankCommand zs start end_ reverse' =
  Some (map kv (let '(lo, hi) := rank_window (zlen ns) start end_ in
    take (Z.to_nat (hi - lo)) (drop (Z.to_nat lo) (if reverse' then reverse ns else ns)))).
Proof.
  intros [Hz _ _ _]. unfold genericZrangebyrankCommand, zsetLength. rewrite (zr_length _ _ Hz).
  pose proof (sanitize_ok (zlen ns) start end_ (zlen_nonneg ns)) as Hs.
  destruct (rank_window (zlen ns) start end_) as [lo hi]. destruct Hs as (Hlo & Hhi & ->).
  destruct (Z.ltb_spec lo hi) as [Hlt|Hge].
  - replace (hi - 1 - lo + 1) with (hi - lo) by lia. set (n := Z.to_nat (hi - lo)).
    assert (Hn : (n <= length ns - Z.to_nat lo)%nat) by (unfold n, zlen in *; lia). destruct reverse'.
    + set (A := take (length ns - Z.to_nat lo) ns).
      match goal with |- (?a ≫= _) = _ => assert (a = Some (z_loc <$> last A)) as -> end.
      { unfold A. rewrite last_take by (unfold zlen in *; lia). destruct (Z.gtb_spec lo 0) as [Hp|Hp].
        - rewrite (by_rank_ok (zs_zsl zs) ns) by (try done; lia).
          replace (Z.to_nat (zlen ns - lo - 1)) with (length ns - Z.to_nat lo - 1)%nat by (unfold zlen in *; lia). done.
        - rewrite (zr_tail _ _ Hz), last_lookup.
          replace (length ns - Z.to_nat lo - 1)%nat with (Init.Nat.pred (length ns)) by lia. done. }
      cbn [mbind option_bind]. rewrite drop_reverse by (unfold zlen in *; lia). fold A.
      eapply emit_n_backward with (B := drop (length ns - Z.to_nat lo) ns).
      * unfold A. by rewrite take_drop.
      * unfold A. rewrite length_take. lia.
    + match goal with |- (?a ≫= _) = _ => assert (a = Some (z_loc <$> head (drop (Z.to_nat lo) ns))) as -> end.
      { destruct (Z.gtb_spec lo 0) as [Hp|Hp].
        - rewrite (by_rank_ok (zs_zsl zs) ns) by (try done; lia). replace (lo + 1 - 1) with lo by lia.
          by rewrite head_lookup, lookup_drop, Nat.add_0_r.
        - replace (Z.to_nat lo) with 0%nat by lia. exact (head_link (zs_zsl zs) ns [] ns Hz eq_refl). }
      cbn [mbind option_bind]. apply emit_n_forward with (A := take (Z.to_nat lo) ns).
      * by rewrite take_drop.
      * rewrite length_drop. lia.
  - by replace (Z.to_nat (hi - lo)) with 0%nat by lia.
Qed.

(** ** By score and by element *)

(** [LIMIT]: a negative one means no limit. *)
Definition lim {A} (limit : Z) (l : list A) : list A := if limit <? 0 then l else take (Z.to_nat limit) l.

Lemma lim_0 {A} (l : list A) : lim 0 l = [].
Proof. done. Qed.

Lemma lim_nil {A} limit : lim limit (@nil A) = [].
Proof. unfold lim. destruct (_ <? _); [done|]. by rewrite take_nil. Qed.

Lemma lim_cons {A} limit (x : A) l : limit <> 0 -> lim limit (x :: l) = x :: lim (limit - 1) l.
Proof.
  intros Hl. unfold lim. destruct (Z.ltb_spec limit 0), (Z.ltb_spec (limit - 1) 0); try lia; [done|].
  replace (Z.to_nat limit) with (S (Z.to_nat (limit - 1))) by lia. done.
Qed.

Section Emit.
Context (z : zskiplist) (ns : list znode) (Hz : zsl_repr z ns).
Context (go : positive -> option bool) (t : znode -> bool) (Hgo : forall x, x ∈ ns -> go (z_loc x) = Some (t x)).

(** The listing stops at the first node that fails the test. *)
Lemma emit_stop fuel reverse' x limit : x ∈ ns -> t x = false ->
  emit_while fuel (zsl_mem z) reverse' go (Some (z_loc x)) limit = Some [].
Proof.
  intros Hx Ht. assert (Hg : go (z_loc x) = Some false) by (by rewrite Hgo, Ht).
  destruct fuel; cbn [emit_while]; (destruct (limit =? 0); [done|]); by rewrite Hg.
Qed.

Lemma emit_forward : forall R A Q fuel limit, ns = A ++ R ++ Q -> Forall (fun x => t x = true) R ->
  (forall x, head Q = Some x -> t x = false) -> (length R < fuel)%nat ->
  emit_while fuel (zsl_mem z) false go (z_loc <$> head (R ++ Q)) limit = Some (map kv (lim limit R)).
Proof.
  induction R as [|x R IH]; intros A Q fuel limit Hns HR HQ Hf.
  - rewrite lim_nil. cbn [app]. destruct Q as [|q Q]; [by destruct fuel|].
    apply emit_stop; [rewrite Hns; in_list|by apply HQ].
  - apply list.Forall_cons in HR as [Hx HR]. destruct fuel as [|fuel]; [cbn in Hf; lia|].
    cbn [app head fmap option_fmap option_map emit_while]. destruct (Z.eqb_spec limit 0) as [->|Hl]; [by rewrite lim_0|].
    assert (Hin : x ∈ ns) by (rewrite Hns; in_list). rewrite Hgo, Hx by done. cbn [mbind option_bind negb].
    destruct (emit_fields z ns x Hz Hin) as [-> ->]. cbn [mbind option_bind].
    assert (Hlk : m_fwd (zsl_mem z) !! (z_loc x, 0%nat) = Some (z_loc <$> head (R ++ Q))).
    { apply (next_link z A (R ++ Q) x). rewrite Hns in Hz. exact Hz. }
    rewrite Hlk. cbn [mbind option_bind].
    rewrite (IH (A ++ [x]) Q fuel (limit - 1)); [by rewrite lim_cons|by rewrite Hns, <- app_assoc|done|done|cbn in Hf; lia].
Qed.

Lemma emit_backward : forall R P B fuel limit, ns = P ++ R ++ B -> Forall (fun x => t x = true) R ->
  (forall x, last P = Some x -> t x = false) -> (length R < fuel)%nat ->
  emit_while fuel (zsl_mem z) true go (z_loc <$> last (P ++ R)) limit = Some (map kv (lim limit (reverse R))).
Proof.
  induction R as [|x R IH] using rev_ind; intros P B fuel limit Hns HR HP Hf.
  - cbn. rewrite app_nil_r, lim_nil. destruct (last P) as [q|] eqn:E; [|by destruct fuel].
    apply emit_stop; [rewrite Hns; apply elem_of_app; left; by apply last_Some_elem_of|by apply HP].
  - apply list.Forall_app in HR as [HR Hx%Forall_inv]. rewrite length_app in Hf. destruct fuel as [|fuel]; [cbn in Hf; lia|].
    rewrite app_assoc, last_snoc, reverse_snoc.
    cbn [fmap option_fmap option_map emit_while]. destruct (Z.eqb_spec limit 0) as [->|Hl]; [by rewrite lim_0|].
    assert (Hin : x ∈ ns) by (rewrite Hns; in_list). rewrite Hgo, Hx by done. cbn [mbind option_bind negb].
    destruct (emit_fields z ns x Hz Hin) as [-> ->]. cbn [mbind option_bind].
    rewrite (zr_back _ _ Hz (P ++ R) x B) by (by rewrite Hns, <- !app_assoc). cbn [mbind option_bind].
    rewrite (IH P (x :: B) fuel (limit - 1)); [by rewrite lim_cons|by rewrite Hns, <- app_assoc|done|done|cbn in Hf; lia].
Qed.
End Emit.

(** A listing of a range: the part of the range after [offset], from either end. *)
Section Listing.
Context (z : zskiplist) (ns : list znode) (Hz : zsl_repr z ns) (g l : znode -> bool).
Context (Hup : upward ns g) (Hdown : upward ns (fun x => negb (l x))).
Abbreviation P := (below g ns).
Abbreviation R := (within g l ns).
Abbreviation Q := (above g l ns).

Definition listing (reverse' : bool) (offset limit : Z) : list (list Z * T) :=
  if offset <? 0 then [] else map kv (lim limit (drop (Z.to_nat offset) (if reverse' then reverse R else R))).

Lemma range_fuel n : (n <= length R)%nat -> (n < loop_fuel z)%nat.
Proof.
  intros Hn. unfold loop_fuel. rewrite (zr_length _ _ Hz). pose proof (length_filter (fun x : znode => g x = true /\ l x = true) ns).
  unfold zlen, within in *. lia.
Qed.

Lemma listing_ok go offset limit (reverse' : bool) : 0 <= offset ->
  (forall x, x ∈ ns -> go (z_loc x) = Some (if reverse' then g x else l x)) ->
  emit_while (loop_fuel z) (zsl_mem z) reverse' go
    (fst <$> nth_within ns g l (nth_place ns g l (if reverse' then - offset - 1 else offset))) limit =
  Some (listing reverse' offset limit).
Proof.
  intros Ho Hgo. unfold listing, nth_place, nth_within. rewrite (proj2 (Z.ltb_ge offset 0)) by done.
  assert (Hnil : forall fuel rv, emit_while fuel (zsl_mem z) rv go None limit = Some []) by (by intros []).
  pose proof (range_split ns g l Hup Hdown) as Hns. set (k := Z.to_nat offset). destruct reverse'.
  - rewrite (proj2 (Z.ltb_lt (- offset - 1) 0)) by lia. destruct (Z.leb_spec 0 (zlen R + (- offset - 1))) as [Hle|Hgt].
    2:{ rewrite drop_ge by (rewrite length_reverse; unfold zlen in *; lia). by rewrite lim_nil, Hnil. }
    set (n := (length R - k)%nat). replace (Z.to_nat (zlen R + (- offset - 1))) with (n - 1)%nat by (unfold n, k, zlen; lia).
    rewrite <- last_take by (unfold n, k, zlen in *; lia). rewrite drop_reverse by (unfold k, zlen in *; lia). fold n.
    rewrite <- option_fmap_compose. cbn [fst compose].
    assert (last (P ++ take n R) = last (take n R)) as <-.
    { apply last_app_ne. intros Hn. apply (f_equal length) in Hn. rewrite length_take in Hn. cbn in Hn. unfold n, k, zlen in *. lia. }
    apply (emit_backward z ns Hz go g Hgo (take n R) P (drop n R ++ Q)).
    + rewrite (app_assoc (take n R)), take_drop. exact Hns.
    + apply Forall_take, list.Forall_forall. by intros x [[? _] _]%list_elem_of_filter.
    + intros x Hx%last_Some_elem_of. by apply list_elem_of_filter in Hx as [? _].
    + apply range_fuel. rewrite length_take. lia.
  - rewrite (proj2 (Z.ltb_ge offset 0)), (proj2 (Z.leb_le 0 offset)) by done. fold k.
    assert (Hhead : R !! k = head (drop k R)) by (by rewrite head_lookup, lookup_drop, Nat.add_0_r). rewrite Hhead.
    destruct (drop k R) as [|x D] eqn:E; [by rewrite Hnil, lim_nil|].
    rewrite <- option_fmap_compose. cbn [fst compose head].
    change (Some x) with (head ((x :: D) ++ Q)). rewrite <- E.
    apply (emit_forward z ns Hz go l Hgo (drop k R) (P ++ take k R) Q).
    + rewrite <- (app_assoc P), (app_assoc (take k R)), take_drop. exact Hns.
    + apply Forall_drop, list.Forall_forall. by intros y [[_ ?] _]%list_elem_of_filter.
    + intros y Hy. assert (Hin : y ∈ Q) by (destruct Q; [done|]; injection Hy as ->; by left).
      by apply list_elem_of_filter in Hin as [[_ ?] _].
    + apply range_fuel. rewrite length_drop. lia.
Qed.

(** An offset past the end selects nothing. *)
Lemma listing_past offset limit reverse' : (offset <? 0) || ((offset >? 0) && (offset >=? zlen ns)) = true ->
  listing reverse' offset limit = [].
Proof.
  intros Hi. unfold listing. destruct (Z.ltb_spec offset 0) as [|Hge]; [done|]. cbn [orb] in Hi.
  apply andb_true_iff in Hi as [_ Hi%Z.geb_le]. pose proof (length_filter (fun x : znode => g x = true /\ l x = true) ns).
  rewrite drop_ge; [by rewrite lim_nil|]. unfold zlen, within in *. destruct reverse'; rewrite ?length_reverse; lia.
Qed.

(** The count is the difference of two ranks. *)
Lemma count_ok (nth : Z -> option (option (positive * Z))) :
  (forall n, n <= 0 -> nth n = Some (nth_within ns g l (nth_place ns g l n))) ->
  count_by_rank (zlen ns) nth = Some (zlen R).
Proof.
  intros Hnth. unfold count_by_rank. rewrite !Hnth by lia. unfold nth_place, nth_within. cbn [Z.ltb Z.compare Z.leb].
  change (Z.to_nat 0) with 0%nat. rewrite <- head_lookup.
  pose proof (zr_bound _ _ Hz) as Hb. pose proof (range_split ns g l Hup Hdown) as Hns.
  pose proof (f_equal zlen Hns) as Hl. autorewrite with zlen in Hl.
  pose proof (zlen_nonneg P). pose proof (zlen_nonneg Q). pose proof (zlen_nonneg R).
  destruct (head R) as [x|] eqn:Eh; cbn [fmap option_fmap option_map mbind option_bind].
  2:{ by destruct R. }
  assert (Hr : 1 <= zlen R) by (destruct R; [done|]; rewrite zlen_cons; unfold zlen; lia).
  rewrite (proj2 (Z.leb_le 0 (zlen R + -1))) by lia.
  destruct (lookup_lt_is_Some_2 R (Z.to_nat (zlen R + -1))) as [y ->]; [unfold zlen in *; lia|].
  cbn [fmap option_fmap option_map mbind option_bind]. rewrite (u64_id (zlen P + 0 + 1 - 1)) by lia.
  rewrite (u64_id (zlen ns - (zlen P + 0 + 1 - 1))), (u64_id (zlen ns - (zlen P + (zlen R + -1) + 1))), u64_id by lia.
  f_equal. lia.
Qed.
End Listing.

Lemma zrange_score_ok zs (ns : list znode) range offset limit (reverse' : bool) : zset_ok zs ns ->
  isnan (rs_min range) = false -> isnan (rs_max range) = false -> zlen ns + offset < 2 ^ 63 ->
  genericZrangebyscoreCommand zs range offset limit reverse' =
  Some (listing ns (gte_of range) (lte_of range) reverse' offset limit).
Proof.
  intros [Hz _ _ _] Hmin Hmax Hb. pose proof (zr_sorted _ _ Hz) as Hs. pose proof (repr_nonan _ _ Hz) as Hn.
  pose proof (gte_up range ns Hs Hn) as Hu. pose proof (lte_down range ns Hs Hn) as Hd.
  unfold genericZrangebyscoreCommand, invalid_offset, zsetLength. rewrite (zr_length _ _ Hz).
  destruct (_ || _) eqn:Ei; [by rewrite listing_past|].
  assert (Ho : 0 <= offset) by (apply orb_false_iff in Ei as [Ei _]; by apply Z.ltb_ge in Ei).
  rewrite (nth_in_range_ok _ ns) by (try done; destruct reverse'; lia). cbn [mbind option_bind].
  apply (listing_ok (zs_zsl zs) ns Hz _ _ Hu Hd); [done|]. intros x Hx.
  rewrite (no_score _ _ (node_of _ ns x Hz Hx)). by destruct reverse'.
Qed.

Lemma zrange_lex_ok zs (ns : list znode) range offset limit (reverse' : bool) : zset_ok zs ns ->
  same_scores ns -> zlen ns + offset < 2 ^ 63 ->
  genericZrangebylexCommand zs range offset limit reverse' =
  Some (listing ns (lex_gte_of range) (lex_lte_of range) reverse' offset limit).
Proof.
  intros [Hz _ _ _] Hsc Hb. pose proof (zr_sorted _ _ Hz) as Hs.
  pose proof (lex_gte_up range ns Hs Hsc) as Hu. pose proof (lex_lte_down range ns Hs Hsc) as Hd.
  unfold genericZrangebylexCommand, invalid_offset, zsetLength. rewrite (zr_length _ _ Hz).
  destruct (_ || _) eqn:Ei; [by rewrite listing_past|].
  assert (Ho : 0 <= offset) by (apply orb_false_iff in Ei as [Ei _]; by apply Z.ltb_ge in Ei).
  rewrite (nth_in_lex_range_ok _ _ ns) by (try done; destruct reverse'; lia). cbn [mbind option_bind].
  apply (listing_ok (zs_zsl zs) ns Hz _ _ Hu Hd); [done|]. intros x Hx. unfold zslGetNodeElement.
  rewrite (no_ele _ _ (node_of _ ns x Hz Hx)). by destruct reverse'.
Qed.

Lemma zcount_ok zs (ns : list znode) range : zset_ok zs ns ->
  isnan (rs_min range) = false -> isnan (rs_max range) = false ->
  zcountCommand zs range = Some (zlen (within (gte_of range) (lte_of range) ns)).
Proof.
  intros [Hz _ _ _] Hmin Hmax. pose proof (zr_sorted _ _ Hz) as Hs. pose proof (repr_nonan _ _ Hz) as Hn.
  unfold zcountCommand, zsetLength. rewrite (zr_length _ _ Hz).
  apply (count_ok (zs_zsl zs) ns Hz); [by apply gte_up|by apply lte_down|].
  intros n Hle. apply nth_in_range_ok; try done. pose proof (zr_bound _ _ Hz). lia.
Qed.

Lemma zlexcount_ok zs (ns : list znode) range : zset_ok zs ns -> same_scores ns ->
  zlexcountCommand zs range = Some (zlen (within (lex_gte_of range) (lex_lte_of range) ns)).
Proof.
  intros [Hz _ _ _] Hsc. pose proof (zr_sorted _ _ Hz) as Hs.
  unfold zlexcountCommand, zsetLength. rewrite (zr_length _ _ Hz).
  apply (count_ok (zs_zsl zs) ns Hz); [by apply lex_gte_up|by apply lex_lte_down|].
  intros n Hle. apply nth_in_lex_range_ok; try done. pose proof (zr_bound _ _ Hz). lia.
Qed.

(** ** Popping *)

Context (resize_allowed : Z -> Z -> Z -> bool) (force_full_rehash : bool) (can_resize : dictResizeEnable).

Definition pop_order (max : bool) (ns : list znode) : list znode := if max then reverse ns else ns.

Lemma filter_ne_head x (ns : list znode) : NoDup (map z_ele (x :: ns)) -> filter (fun y => z_ele y <> z_ele x) (x :: ns) = ns.
Proof.
  intros [Hn _]%NoDup_cons. rewrite filter_cons, decide_False by auto. apply filter_all, list.Forall_forall.
  intros y Hy Heq. apply Hn. rewrite <- Heq. by apply (list_elem_of_fmap_2 z_ele).
Qed.

Lemma filter_ne_last x (ns : list znode) : NoDup (map z_ele (ns ++ [x])) ->
  filter (fun y => z_ele y <> z_ele x) (ns ++ [x]) = ns.
Proof.
  intros Hnd. rewrite filter_app, filter_cons, decide_False by auto. cbn. rewrite app_nil_r. apply filter_all, list.Forall_forall.
  intros y Hy Heq. rewrite map_app in Hnd. apply NoDup_app in Hnd as (_ & Hn & _).
  apply (Hn (z_ele y)); [by apply (list_elem_of_fmap_2 z_ele)|]. rewrite Heq. cbn. by left.
Qed.

Lemma zpop_loop_ok max n : forall zs (ns : list znode), zset_ok zs ns -> (n < length ns)%nat ->
  exists zs' ns', zpop_loop hash resize_allowed force_full_rehash can_resize zs max n =
      Some (zs', map kv (take (S n) (pop_order max ns))) /\
    zset_ok zs' ns' /\ pop_order max ns' = drop (S n) (pop_order max ns).
Proof.
  assert (Hone : forall zs (ns : list znode), zset_ok zs ns -> (0 < length ns)%nat -> exists x ns' zs',
    pop_order max ns = x :: pop_order max ns' /\
    (if max then Some (zsl_tail (zs_zsl zs)) else m_fwd (zsl_mem (zs_zsl zs)) !! (zsl_header (zs_zsl zs), 0%nat)) =
      Some (Some (z_loc x)) /\
    zslGetNodeElement (zsl_mem (zs_zsl zs)) (z_loc x) = Some (z_ele x) /\
    m_score (zsl_mem (zs_zsl zs)) !! z_loc x = Some (z_score x) /\
    zsetDel hash resize_allowed force_full_rehash can_resize zs (z_ele x) = Some (zs', true) /\ zset_ok zs' ns').
  { intros zs ns Hok Hlen. pose proof Hok as [Hz Hnd _ _]. destruct max; cbn [pop_order].
    - destruct ns as [|x ns' _] using rev_ind; [cbn in Hlen; lia|]. exists x, ns'.
      destruct (emit_fields _ _ x Hz ltac:(in_list)) as [He Hs].
      destruct (del_ok hash can_resize zs _ Hok resize_allowed force_full_rehash (z_ele x)) as (zs' & Hdel & Hok').
      rewrite filter_ne_last in Hok' by done. rewrite bool_decide_true in Hdel by (apply (list_elem_of_fmap_2 z_ele); in_list).
      exists zs'. rewrite reverse_snoc, (zr_tail _ _ Hz), last_snoc. done.
    - destruct ns as [|x ns']; [cbn in Hlen; lia|]. exists x, ns'.
      destruct (emit_fields _ _ x Hz ltac:(in_list)) as [He Hs].
      destruct (del_ok hash can_resize zs _ Hok resize_allowed force_full_rehash (z_ele x)) as (zs' & Hdel & Hok').
      rewrite filter_ne_head in Hok' by done. rewrite bool_decide_true in Hdel by (apply (list_elem_of_fmap_2 z_ele); in_list).
      exists zs'. split_and!; try done. exact (head_link _ _ [] (x :: ns') Hz eq_refl). }
  induction n as [|n IH]; intros zs ns Hok Hlen; destruct (Hone zs ns Hok) as (x & ns' & zs' & Hpo & Hln & He & Hs & Hdel & Hok');
    try lia; cbn [zpop_loop]; rewrite Hln; cbn [mbind option_bind]; rewrite He; cbn [mbind option_bind]; rewrite Hs;
    cbn [mbind option_bind]; rewrite Hdel; cbn [mbind option_bind cassert]; rewrite Hpo.
  - by exists zs', ns'.
  - assert (Hlen' : length ns = S (length ns')).
    { apply (f_equal length) in Hpo. destruct max; cbn [pop_order length] in Hpo; rewrite ?length_reverse in Hpo; done. }
    destruct (IH zs' ns' Hok') as (zs2 & ns2 & -> & Hok2 & Hpo2); [lia|]. cbn [mbind option_bind].
    exists zs2, ns2. split; [done|]. by split.
Qed.

Lemma zpop_ok zs (ns : list znode) max count : zset_ok zs ns -> ns <> [] -> -1 <= count ->
  exists zs' ns', let n := Z.to_nat (if count =? -1 then 1 else count) in
    genericZpopCommand hash resize_allowed force_full_rehash can_resize zs max count =
      Some (zs', map kv (take n (pop_order max ns)), bool_decide (ns' = [])) /\
    zset_ok zs' ns' /\ pop_order max ns' = drop n (pop_order max ns).
Proof.
  intros Hok Hne Hc. unfold genericZpopCommand. destruct (Z.eqb_spec count 0) as [->|Hc0].
  { exists zs, ns. by rewrite bool_decide_false by done. }
  set (c := if count =? -1 then 1 else count). assert (Hc1 : 1 <= c) by (unfold c; destruct (Z.eqb_spec count (-1)); lia).
  pose proof Hok as [Hz _ _ _]. assert (Hzl : zsetLength zs = zlen ns) by apply (zr_length _ _ Hz). rewrite Hzl.
  assert (Hl : 1 <= zlen ns) by (destruct ns; [done|]; rewrite zlen_cons; unfold zlen; lia).
  set (r := if c >? zlen ns then zlen ns else c). assert (Hr : r = Z.min c (zlen ns)) by (unfold r; destruct (Z.gtb_spec c (zlen ns)); lia).
  destruct (zpop_loop_ok max (Z.to_nat (r - 1)) zs ns Hok) as (zs' & ns' & -> & Hok' & Hpo); [unfold zlen in *; lia|].
  replace (S (Z.to_nat (r - 1))) with (Z.to_nat r) in * by lia. cbn [mbind option_bind].
  assert (Hlpo : length (pop_order max ns) = length ns) by (destruct max; [apply length_reverse|done]).
  assert (Htd : take (Z.to_nat r) (pop_order max ns) = take (Z.to_nat c) (pop_order max ns) /\
                drop (Z.to_nat r) (pop_order max ns) = drop (Z.to_nat c) (pop_order max ns)).
  { destruct (Z.le_gt_cases c (zlen ns)); [by rewrite Hr, Z.min_l|].
    rewrite !take_ge, !drop_ge by (unfold zlen in *; lia). done. }
  destruct Htd as [-> <-]. exists zs', ns'. split_and!; [|done|done]. do 2 f_equal. unfold zsetLength.
  rewrite (zr_length _ _ (zo_zsl _ _ _ Hok')). destruct ns'; [done|]. rewrite bool_decide_false by done. by apply Z.eqb_neq.
Qed.
End Read.
