(* ===== verification/ZsetSpec.v ===== *)
(** * Sorted sets: what the operations promise

    The theorems about sorted sets in the skiplist encoding, and their instances
    on a set of three elements with double scores. *)

From Stdlib Require Import Sorting.Sorted Floats.SpecFloat.
From stdpp Require Import base list sorting numbers option tactics gmap.
From S2P Require Import Prelude Dict DictInv DictMap Order Skiplist SkiplistRep SkiplistUpd SkiplistDel SkiplistOps SkiplistRange Zset ZsetInv ZsetRead.

Section Spec.
Context {T : Type} `{ScoreOrder T}.
Context (hash : list Z -> Z).

Abbreviation zset := (zset (T := T)).
Abbreviation zskiplist := (zskiplist (T := T)).
Abbreviation znode := (znode (T := T)).
Abbreviation zset_ok := (zset_ok hash).

(** ** One operation *)

Lemma get_rank_at z (P Q : list znode) X : zsl_repr z (P ++ X :: Q) ->
  zslGetRank z (z_score X) (z_ele X) = Some (zlen P + 1).
Proof.
  intros Hz. pose proof (repr_nonan _ _ Hz) as Hn. rewrite list.Forall_forall in Hn.
  pose proof (zr_sorted _ _ Hz) as Hs. replace (P ++ X :: Q) with ((P ++ [X]) ++ Q) in * by (by rewrite <- app_assoc).
  assert (HX : isnan (z_score X) = false) by (apply Hn; in_list).
  rewrite (get_rank_ok z (P ++ [X]) Q (z_score X) (z_ele X) Hz HX).
  - rewrite last_snoc, pair_cmp_refl by done. rewrite zlen_app. done.
  - apply StronglySorted_app_1_l in Hs. apply StronglySorted_app in Hs as (HP & _ & _).
    apply list.Forall_app. split; [|repeat constructor; by rewrite pair_cmp_refl].
    apply list.Forall_forall. intros x Hx. specialize (HP x X Hx ltac:(by left)). unfold node_lt, pair_lt in HP.
    rewrite pair_cmp_opp by (try done; apply Hn; in_list). lia.
  - apply StronglySorted_app in Hs as (HQ & _ & _). apply list.Forall_forall. intros x Hx.
    apply (HQ X x); [in_list|done].
Qed.

(** [zslNthInRange] finds the n-th element of a range of scores from either
    end and its rank, or nothing when the range has fewer, whether it walks node
    by node or jumps over levels. *)
Theorem zslNthInRange_spec zs (ns : list znode) range n : zset_ok zs ns ->
  isnan (rs_min range) = false -> isnan (rs_max range) = false -> zlen ns + n < 2 ^ 63 ->
  let hits := filter (fun x => zslValueGteMin (z_score x) range = true /\ zslValueLteMax (z_score x) range = true) ns in
  let skipped := filter (fun x => zslValueGteMin (z_score x) range = false) ns in
  let k := if n <? 0 then zlen hits + n else n in
  zslNthInRange (zs_zsl zs) range n =
  Some (if 0 <=? k then (fun x => (z_loc x, zlen skipped + k + 1)) <$> hits !! Z.to_nat k else None).
Proof. intros [Hz _ _ _] Hmin Hmax Hb. by apply nth_in_range_ok. Qed.

(** ZRANGE and ZREVRANGE by rank list the elements between the two places,
    with their scores, in the order asked for. *)
Theorem zrangebyrank_lists zs (ns : list znode) start end_ (reverse' : bool) : zset_ok zs ns ->
  genericZrangebyrankCommand zs start end_ reverse' =
  Some (map kv (let '(lo, hi) := rank_window (zlen ns) start end_ in
    take (Z.to_nat (hi - lo)) (drop (Z.to_nat lo) (if reverse' then reverse ns else ns)))).
Proof. intros. by eapply zrange_rank_ok. Qed.

(** ZRANGEBYSCORE and ZRANGEBYLEX list the elements of a range from the offset
    on, at most as many as the limit, in either order. *)
Theorem zrangeby_lists zs (ns : list znode) srange lrange offset limit (reverse' : bool) : zset_ok zs ns ->
  isnan (rs_min srange) = false -> isnan (rs_max srange) = false -> zlen ns + offset < 2 ^ 63 ->
  genericZrangebyscoreCommand zs srange offset limit reverse' =
    Some (listing ns (gte_of srange) (lte_of srange) reverse' offset limit) /\
  (same_scores ns -> genericZrangebylexCommand zs lrange offset limit reverse' =
    Some (listing ns (lex_gte_of lrange) (lex_lte_of lrange) reverse' offset limit)).
Proof. intros. split; [by eapply zrange_score_ok|]. intros. by eapply zrange_lex_ok. Qed.

(** ZCOUNT and ZLEXCOUNT, which subtract the ranks of the last and the first
    element of the range, give the number of its elements. *)
Theorem zcount_counts zs (ns : list znode) srange lrange : zset_ok zs ns ->
  isnan (rs_min srange) = false -> isnan (rs_max srange) = false ->
  zcountCommand zs srange = Some (zlen (within (gte_of srange) (lte_of srange) ns)) /\
  (same_scores ns -> zlexcountCommand zs lrange = Some (zlen (within (lex_gte_of lrange) (lex_lte_of lrange) ns))).
Proof. intros. split; [by eapply zcount_ok|]. intros. by eapply zlexcount_ok. Qed.

Context (can_resize : dictResizeEnable).

(** The rank of an element is its place in the order of scores and elements,
    from either end; the rank computed from the key and the element found by
    rank agree with it. *)
Theorem zsetRank_position zs (P Q : list znode) X : zset_ok zs (P ++ X :: Q) ->
  (forall reverse, exists zs', zsetRank hash can_resize zs (z_ele X) reverse =
     Some (zs', if (reverse : bool) then zlen Q else zlen P, Some (z_score X)) /\ zset_ok zs' (P ++ X :: Q)) /\
  zslGetRank (zs_zsl zs) (z_score X) (z_ele X) = Some (zlen P + 1) /\
  zslGetElementByRank (zs_zsl zs) (zlen P + 1) = Some (Some (z_loc X)).
Proof.
  intros Hok. pose proof Hok as [Hz _ _ _]. split_and!.
  - intros reverse. by apply (rank_ok hash can_resize zs _ Hok P Q X reverse).
  - by eapply get_rank_at.
  - rewrite (by_rank_ok _ _ _ Hz) by (unfold zlen; lia). replace (Z.to_nat (zlen P + 1 - 1)) with (length P) by (unfold zlen; lia).
    by rewrite list_lookup_middle.
Qed.

Context (resize_allowed : Z -> Z -> Z -> bool) (force_full_rehash : bool).

(** [zsetDel] reports whether the element was in the set, and removes exactly
    it from the skiplist and the dict. *)
Theorem zsetDel_refines zs (ns : list znode) ele : zset_ok zs ns ->
  exists zs', zsetDel hash resize_allowed force_full_rehash can_resize zs ele =
      Some (zs', bool_decide (is_Some (zset_map ns !! ele))) /\
    zset_ok zs' (filter (fun x => z_ele x <> ele) ns).
Proof.
  intros Hok. destruct (del_ok hash can_resize zs ns Hok resize_allowed force_full_rehash ele) as (zs' & Hd & Hok').
  exists zs'. split; [|done]. rewrite Hd. do 2 f_equal. apply bool_decide_ext.
  rewrite <- not_eq_None_Some, (no_elem hash zs ns Hok). destruct (decide (ele ∈ map z_ele ns)); intuition.
Qed.

(** C16: ZREMRANGEBYRANK, ZREMRANGEBYSCORE and ZREMRANGEBYLEX on a set that is not empty
    delete exactly the elements of the range (ranks may be negative or out of bounds),
    report how many, and ask for the removal of the key when nothing is left; for
    ZREMRANGEBYLEX all elements must have the same score ([range_valid]). *)
Theorem zremrange_refines zs (ns : list znode) rangetype : zset_ok zs ns -> ns <> [] -> range_valid rangetype ns ->
  exists zs', zremrangeGenericCommand hash resize_allowed force_full_rehash can_resize zs rangetype =
      Some (zs', zlen (selected rangetype ns), bool_decide (remaining rangetype ns = [])) /\
    zset_ok zs' (remaining rangetype ns).
Proof. intros. by apply zremrange_ok. Qed.

(** ZPOPMIN and ZPOPMAX return the first or last elements in order, as many
    as asked for or as there are, and remove exactly these. *)
Theorem zpop_pops zs (ns : list znode) max count : zset_ok zs ns -> ns <> [] -> -1 <= count ->
  exists zs' ns', let n := Z.to_nat (if count =? -1 then 1 else count) in
    genericZpopCommand hash resize_allowed force_full_rehash can_resize zs max count =
      Some (zs', map kv (take n (pop_order max ns)), bool_decide (ns' = [])) /\
    zset_ok zs' ns' /\ pop_order max ns' = drop n (pop_order max ns).
Proof. intros. by apply zpop_ok. Qed.
End Spec.

Section Run.
Context {T : Type} `{ScoreOrder T}.
Context (junk : nat -> option positive * Z) (RAND_MAX : Z).
Context (hash : list Z -> Z) (resize_allowed : Z -> Z -> Z -> bool) (force_full_rehash : bool)
  (can_resize : dictResizeEnable).

Abbreviation zset := (zset (T := T)).
Abbreviation zskiplist := (zskiplist (T := T)).
Abbreviation znode := (znode (T := T)).
Abbreviation zset_ok := (zset_ok hash).

(** C4: [zsetAdd] on the skiplist encoding acts on the map from elements to scores
    as its flags say (NX, XX, GT, LT, INCR, and the NaN error), reports what it
    did, and leaves a sorted skiplist and a dict that agree. *)
Theorem zsetAdd_refines zs (ns : list znode) score ele in_flags draws : zset_ok zs ns -> zlen ns + 1 < 2 ^ 63 ->
  exists zs' ns' r,
    zsetAdd junk RAND_MAX hash resize_allowed force_full_rehash can_resize zs score ele in_flags draws = Some (zs', r) /\
    zset_ok zs' ns' /\ (zset_map ns', r) = zadd_spec (zset_map ns) score ele in_flags.
Proof. intros Hok Hb. by apply add_ok. Qed.

(** ** Commands and their sequences *)

Inductive zcommand :=
  | ZADD (score : T) (ele : list Z) (in_flags : Z) (draws : list Z)
  | ZREM (ele : list Z)
  | ZSCORE (member : list Z)
  | ZRANK (ele : list Z) (reverse : bool)
  | ZREMRANGEBYRANK (start end_ : Z)
  | ZREMRANGEBYSCORE (range : zrangespec (T := T))
  | ZPOP (max : bool) (count : Z).

(** The state after a command; commands on a key need a set that is not empty. *)
Definition zset_exec (zs : zset) (c : zcommand) : option zset :=
  match c with
  | ZADD score ele in_flags draws =>
      fst <$> zsetAdd junk RAND_MAX hash resize_allowed force_full_rehash can_resize zs score ele in_flags draws
  | ZREM ele => fst <$> zsetDel hash resize_allowed force_full_rehash can_resize zs ele
  | ZSCORE member => fst <$> zsetScore hash can_resize zs member
  | ZRANK ele reverse => fst ∘ fst <$> zsetRank hash can_resize zs ele reverse
  | ZREMRANGEBYRANK start end_ =>
      if zsetLength zs =? 0 then Some zs
      else fst ∘ fst <$> zremrangeGenericCommand hash resize_allowed force_full_rehash can_resize zs (ZRANGE_RANK start end_)
  | ZREMRANGEBYSCORE range =>
      if zsetLength zs =? 0 then Some zs
      else fst ∘ fst <$> zremrangeGenericCommand hash resize_allowed force_full_rehash can_resize zs (ZRANGE_SCORE range)
  | ZPOP max count =>
      if (zsetLength zs =? 0) || (count <? -1) then Some zs
      else fst ∘ fst <$> genericZpopCommand hash resize_allowed force_full_rehash can_resize zs max count
  end.

(** [zset_step zs zs']: some command leads from [zs] to [zs']. *)
Inductive zset_step (zs zs' : zset) : Prop :=
  | zset_step_exec c : zset_exec zs c = Some zs' -> zset_step zs zs'.

(** States reached from the empty set in a number of steps. *)
Inductive zset_reachable : nat -> zset -> Prop :=
  | reach_init : zset_reachable 0 zset_create
  | reach_step n zs zs' : zset_reachable n zs -> zset_step zs zs' -> zset_reachable (S n) zs'.

(** Every command succeeds, keeps the invariant and adds one element at most. *)
Lemma exec_ok zs (ns : list znode) c : zset_ok zs ns -> zlen ns + 1 < 2 ^ 63 ->
  exists zs' ns', zset_exec zs c = Some zs' /\ zset_ok zs' ns' /\ (length ns' <= S (length ns))%nat.
Proof.
  intros Hok Hb. assert (Hzl : zsetLength zs = zlen ns) by apply (zr_length _ _ (zo_zsl _ _ _ Hok)).
  assert (Hne : zlen ns <> 0 -> ns <> []) by (by intros Hl ->).
  destruct c as [score ele fl draws|ele|member|ele rv|start end_|range|max count]; cbn [zset_exec].
  - destruct (add_ok hash can_resize zs ns Hok resize_allowed force_full_rehash junk RAND_MAX score ele fl draws Hb)
      as (zs' & ns' & r & -> & Hok' & Hsp). exists zs', ns'. split; [done|]. split; [done|].
    rewrite <- (loc_map_size ns'), <- (loc_map_size ns) by (apply Hok || apply Hok').
    assert (Hsz : forall l : list znode, size (zset_map l) = size (loc_map l)).
    { intros l. rewrite <- !(size_dom (D := gset (list Z))). unfold zset_map, loc_map.
      by rewrite !dom_list_to_map_L, !keys_of. }
    rewrite <- !Hsz. apply (f_equal fst) in Hsp. cbn [fst] in Hsp. rewrite Hsp. unfold zadd_spec.
    assert (Hins : forall v, (size (<[ele := v]> (zset_map ns)) <= S (size (zset_map ns)))%nat).
    { intros v. rewrite map_size_insert. destruct (zset_map ns !! ele); cbn; lia. }
    repeat case_match; cbn [fst]; auto with lia.
  - destruct (del_ok hash can_resize zs ns Hok resize_allowed force_full_rehash ele) as (zs' & -> & Hok').
    eexists zs', _. split; [done|]. split; [exact Hok'|]. pose proof (length_filter (fun x : znode => z_ele x <> ele) ns). lia.
  - destruct (score_ok hash can_resize zs ns Hok member) as (zs' & -> & Hok'). exists zs', ns. split; [done|]. split; [done|lia].
  - destruct (decide (ele ∈ map z_ele ns)) as [(X & -> & HX)%list_elem_of_fmap|Hn].
    + apply list_elem_of_split in HX as (P & Q & HX).
      destruct (rank_ok hash can_resize zs ns Hok P Q X rv HX) as (zs' & -> & Hok'). exists zs', ns. split; [done|]. split; [done|lia].
    + destruct (rank_none hash can_resize zs ns Hok ele rv Hn) as (zs' & -> & Hok'). exists zs', ns. split; [done|]. split; [done|lia].
  - rewrite Hzl. destruct (Z.eqb_spec (zlen ns) 0) as [|Hl]; [exists zs, ns; split; [done|]; split; [done|lia]|].
    destruct (zremrange_ok hash resize_allowed force_full_rehash can_resize zs ns (ZRANGE_RANK start end_) Hok (Hne Hl) I)
      as (zs' & -> & Hok'). eexists zs', _. split; [done|]. split; [exact Hok'|]. cbn [remaining].
    unfold rank_window. rewrite length_app, length_take, length_drop. lia.
  - rewrite Hzl. destruct (Z.eqb_spec (zlen ns) 0) as [|Hl]; [exists zs, ns; split; [done|]; split; [done|lia]|].
    destruct (zremrange_ok hash resize_allowed force_full_rehash can_resize zs ns (ZRANGE_SCORE range) Hok (Hne Hl) I)
      as (zs' & -> & Hok'). eexists zs', _. split; [done|]. split; [exact Hok'|]. cbn [remaining]. unfold outside.
    pose proof (length_filter (fun x : znode => ~ (gte_of range x = true /\ lte_of range x = true)) ns). lia.
  - rewrite Hzl. destruct (_ || _) eqn:E; [exists zs, ns; split; [done|]; split; [done|lia]|].
    apply orb_false_iff in E as [Hl%Z.eqb_neq Hc%Z.ltb_ge].
    destruct (zpop_ok hash resize_allowed force_full_rehash can_resize zs ns max count Hok (Hne Hl) Hc)
      as (zs' & ns' & -> & Hok' & Hpo). exists zs', ns'. split; [done|]. split; [done|].
    apply (f_equal length) in Hpo. rewrite length_drop in Hpo. destruct max; cbn [pop_order] in Hpo; rewrite ?length_reverse in Hpo; lia.
Qed.

Lemma reachable_ok n zs : zset_reachable n zs -> Z.of_nat n + 1 < 2 ^ 63 ->
  exists ns : list znode, zset_ok zs ns /\ (length ns <= n)%nat.
Proof.
  induction 1 as [|n zs zs' _ IH [c Hc]]; intros Hn; [exists []; split; [apply create_ok|done]|].
  destruct IH as (ns & Hok & Hl); [lia|].
  destruct (exec_ok zs ns c Hok) as (zs2 & ns2 & He & Hok2 & Hl2); [unfold zlen; lia|].
  rewrite Hc in He. injection He as <-. exists ns2. split; [done|lia].
Qed.

(** C5: Whatever commands are run on a sorted set from its creation on, the
    skiplist stays sorted with correct spans and back pointers and agrees with
    the dict, and no command fails an assertion or follows an invalid pointer. *)
Theorem zset_reachable_invariant n zs : zset_reachable n zs -> Z.of_nat n + 1 < 2 ^ 63 ->
  (exists ns : list znode, zset_ok zs ns /\ StronglySorted node_lt ns /\ (length ns <= n)%nat) /\
  forall c, exists zs', zset_step zs zs' /\ zset_exec zs c = Some zs'.
Proof.
  intros Hr Hn. destruct (reachable_ok n zs Hr Hn) as (ns & Hok & Hl). split.
  - exists ns. split; [done|]. split; [apply (zr_sorted _ _ (zo_zsl _ _ _ Hok))|done].
  - intros c. destruct (exec_ok zs ns c Hok) as (zs' & ns' & He & _); [unfold zlen; lia|]. exists zs'. split; [by econstructor|done].
Qed.
End Run.

(** ** A sorted set of three elements *)

Definition one : spec_float := S754_finite false 4503599627370496 (-52).
Definition two : spec_float := S754_finite false 4503599627370496 (-51).

Definition bytes_hash (s : list Z) : Z := foldl (fun h b => u64 (h * 33 + b)) 5381 s.
Definition zero_junk (_ : nat) : option positive * Z := (None, 0).
Definition rand_max : Z := 2147483647.

Abbreviation sample_add zs score ele draws :=
  (zsetAdd zero_junk rand_max bytes_hash sample_allowed false DICT_RESIZE_ENABLE zs score ele 0 draws).

(** "b" with score 2 and two levels, "a" with score 1, "c" with score 2. *)
Definition sample_zset1 : zset (T := spec_float) :=
  default zset_create (fst <$> sample_add zset_create two [98] [0; rand_max]).
Definition sample_zset2 : zset (T := spec_float) := default zset_create (fst <$> sample_add sample_zset1 one [97] []).
Definition sample_zset : zset (T := spec_float) := default zset_create (fst <$> sample_add sample_zset2 two [99] []).

Definition node_a : znode (T := spec_float) := {| z_loc := 3; z_score := one; z_ele := [97]; z_h := 1 |}.
Definition node_b : znode (T := spec_float) := {| z_loc := 2; z_score := two; z_ele := [98]; z_h := 2 |}.
Definition node_c : znode (T := spec_float) := {| z_loc := 4; z_score := two; z_ele := [99]; z_h := 1 |}.

(** One step of the construction: the address is computed. *)
Lemma sample_step zs (ns : list (znode (T := spec_float))) score ele draws n : zset_ok bytes_hash zs ns ->
  isnan score = false -> forallb (fun x => negb (bool_decide (z_ele x = ele))) ns = true -> zlen ns + 1 < 2 ^ 63 ->
  snd <$> zslInsert zero_junk (zs_zsl zs) (zslRandomLevel rand_max draws) score ele = Some n ->
  zset_ok bytes_hash (default zset_create (fst <$> sample_add zs score ele draws))
    (ins {| z_loc := n; z_score := score; z_ele := ele; z_h := zslRandomLevel rand_max draws |} ns).
Proof.
  intros Hok Hn Hel Hb Hi.
  destruct (add_new_ok bytes_hash DICT_RESIZE_ENABLE zs ns Hok sample_allowed false zero_junk rand_max score ele draws Hn)
    as (zs' & r & n' & -> & Hi' & Hok'); [|done|].
  - intros (x & -> & Hx)%list_elem_of_fmap. rewrite forallb_forall in Hel. specialize (Hel x (proj1 (list_elem_of_In _ _) Hx)).
    by rewrite bool_decide_true in Hel.
  - rewrite Hi' in Hi. by injection Hi as <-.
Qed.

Lemma sample_zset_ok : zset_ok bytes_hash sample_zset [node_a; node_b; node_c].
Proof.
  pose proof (sample_step zset_create [] two [98] [0; rand_max] 2 (create_ok bytes_hash) eq_refl eq_refl eq_refl
    ltac:(vm_compute; reflexivity)) as H1. fold sample_zset1 in H1.
  pose proof (sample_step sample_zset1 _ one [97] [] 3 H1 eq_refl ltac:(vm_compute; reflexivity) ltac:(vm_compute; reflexivity)
    ltac:(vm_compute; reflexivity)) as H2. fold sample_zset2 in H2.
  exact (sample_step sample_zset2 _ two [99] [] 4 H2 eq_refl ltac:(vm_compute; reflexivity) ltac:(vm_compute; reflexivity)
    ltac:(vm_compute; reflexivity)).
Qed.

Definition range_all : zrangespec (T := spec_float) := {| rs_min := one; rs_max := two; rs_minex := false; rs_maxex := false |}.
Definition range_open : zrangespec (T := spec_float) := {| rs_min := one; rs_max := two; rs_minex := true; rs_maxex := false |}.
Definition range_lex : zlexrangespec := {| zlr_min := LexStr [98]; zlr_max := LexMax; zlr_minex := false; zlr_maxex := true |}.


(** "b" gets a lower score with LT, and moves to the front. *)
Lemma zsetAdd_refines_witness :
  exists zs' ns' r, zsetAdd zero_junk rand_max bytes_hash sample_allowed false DICT_RESIZE_ENABLE sample_zset
      (S754_zero true) [98] ZADD_IN_LT [] = Some (zs', r) /\
    zset_ok bytes_hash zs' ns' /\
    (zset_map ns', r) = (<[[98] := S754_zero true]> (zset_map [node_a; node_b; node_c]),
      {| za_ret := 1; za_flags := ZADD_OUT_UPDATED; za_newscore := Some (S754_zero true) |}).
Proof.
  exact (zsetAdd_refines zero_junk rand_max bytes_hash sample_allowed false DICT_RESIZE_ENABLE sample_zset
    [node_a; node_b; node_c] (S754_zero true) [98] ZADD_IN_LT [] sample_zset_ok eq_refl).
Defined.

Lemma zsetDel_refines_witness :
  exists zs', zsetDel bytes_hash sample_allowed false DICT_RESIZE_ENABLE sample_zset [98] = Some (zs', true) /\
    zset_ok bytes_hash zs' [node_a; node_c].
Proof.
  exact (zsetDel_refines bytes_hash DICT_RESIZE_ENABLE sample_allowed false sample_zset [node_a; node_b; node_c] [98] sample_zset_ok).
Defined.

Lemma zset_reachable_invariant_witness :
  (exists ns : list (znode (T := spec_float)), zset_ok bytes_hash sample_zset1 ns /\ StronglySorted node_lt ns /\ (length ns <= 1)%nat) /\
  forall c, exists zs', zset_step zero_junk rand_max bytes_hash sample_allowed false DICT_RESIZE_ENABLE sample_zset1 zs' /\
    zset_exec zero_junk rand_max bytes_hash sample_allowed false DICT_RESIZE_ENABLE sample_zset1 c = Some zs'.
Proof.
  apply (zset_reachable_invariant zero_junk rand_max bytes_hash sample_allowed false DICT_RESIZE_ENABLE 1 sample_zset1); [|done].
  eapply reach_step; [apply reach_init|]. apply zset_step_exec with (c := ZADD two [98] 0 [0; rand_max]).
  unfold zset_exec, sample_zset1.
  destruct (sample_add zset_create two [98] [0; rand_max]) as [[zs r]|] eqn:E; [done|].
  exfalso. assert (Hs : bool_decide (is_Some (sample_add zset_create two [98] [0; rand_max])) = true) by (vm_compute; reflexivity).
  apply bool_decide_eq_true in Hs as [? Hs]. congruence.
Defined.

Lemma zsetRank_position_witness :
  (forall reverse, exists zs', zsetRank bytes_hash DICT_RESIZE_ENABLE sample_zset [98] reverse =
     Some (zs', if (reverse : bool) then 1 else 1, Some two) /\ zset_ok bytes_hash zs' [node_a; node_b; node_c]) /\
  zslGetRank (zs_zsl sample_zset) two [98] = Some 2 /\ zslGetElementByRank (zs_zsl sample_zset) 2 = Some (Some 2%positive).
Proof.
  exact (zsetRank_position bytes_hash DICT_RESIZE_ENABLE sample_zset [node_a] [node_c] node_b sample_zset_ok).
Defined.

Lemma zslNthInRange_spec_witness :
  zslNthInRange (zs_zsl sample_zset) range_all (-1) = Some (Some (4%positive, 3)) /\
  zslNthInRange (zs_zsl sample_zset) range_open 0 = Some (Some (2%positive, 2)).
Proof.
  split; (etransitivity; [apply (zslNthInRange_spec bytes_hash sample_zset _ _ _ sample_zset_ok); done|vm_compute; reflexivity]).
Defined.

Lemma zremrange_refines_witness :
  exists zs', zremrangeGenericCommand bytes_hash sample_allowed false DICT_RESIZE_ENABLE sample_zset (ZRANGE_RANK (-2) 100) =
      Some (zs', 2, false) /\ zset_ok bytes_hash zs' [node_a].
Proof.
  exact (zremrange_refines bytes_hash DICT_RESIZE_ENABLE sample_allowed false sample_zset [node_a; node_b; node_c]
    (ZRANGE_RANK (-2) 100) sample_zset_ok ltac:(discriminate) I).
Defined.

Lemma zrangebyrank_lists_witness :
  genericZrangebyrankCommand sample_zset 1 (-1) true = Some [([98], two); ([97], one)].
Proof.
  etransitivity; [apply (zrangebyrank_lists bytes_hash sample_zset _ 1 (-1) true sample_zset_ok)|vm_compute; reflexivity].
Defined.

Lemma zrangeby_lists_witness :
  genericZrangebyscoreCommand sample_zset range_all 1 (-1) true = Some [([98], two); ([97], one)].
Proof.
  etransitivity; [exact (proj1 (zrangeby_lists bytes_hash sample_zset _ range_all range_lex 1 (-1) true sample_zset_ok
    eq_refl eq_refl eq_refl))|vm_compute; reflexivity].
Defined.

Lemma zcount_counts_witness : zcountCommand sample_zset range_open = Some 2.
Proof.
  etransitivity; [exact (proj1 (zcount_counts bytes_hash sample_zset _ range_open range_lex sample_zset_ok eq_refl eq_refl))|
    vm_compute; reflexivity].
Defined.

Lemma zpop_pops_witness :
  exists zs' ns', genericZpopCommand bytes_hash sample_allowed false DICT_RESIZE_ENABLE sample_zset true 2 =
      Some (zs', [([99], two); ([98], two)], bool_decide (ns' = [])) /\
    zset_ok bytes_hash zs' ns' /\ reverse ns' = [node_a].
Proof.
  exact (zpop_pops bytes_hash DICT_RESIZE_ENABLE sample_allowed false sample_zset [node_a; node_b; node_c] true 2
    sample_zset_ok ltac:(discriminate) ltac:(discriminate)).
Defined.
