(* ===== verification/Lzf.v ===== *)
(** * LZF compression (src/lzf_c.c, src/lzf_d.c)

    The compressor that RDB files and quicklist nodes use, in the configuration
    of src/lzfP.h: [VERY_FAST], a hash table of pointers that is not
    initialized, and a decompressor that checks its input.  Positions are
    offsets in the input and output blocks; [None] is an access outside of
    them.  The hash table holds addresses, the input starts at [base]. *)

From stdpp Require Import base list numbers option tactics gmap.
From S2P Require Import Prelude.

Definition HLOG : Z := 16.
Definition HSIZE : Z := Z.shiftl 1 HLOG.
Definition MAX_LIT : Z := Z.shiftl 1 5.
Definition MAX_OFF : Z := Z.shiftl 1 13.
Definition MAX_REF : Z := Z.shiftl 1 8 + Z.shiftl 1 3.

(** ** Compression *)

Section Compress.
Context (base : Z) (junk : Z -> Z) (inp : list Z).

Abbreviation in_end := (zlen inp).

Definition FRST (p : Z) : option Z :=
  a ← rd inp p; b ← rd inp (p + 1); Some (Z.lor (Z.shiftl a 8) b).

(** [hval] is an [unsigned int]. *)
Definition NEXT (v p : Z) : option Z :=
  c ← rd inp (p + 2); Some (u32 (Z.lor (Z.shiftl v 8) c)).

Definition IDX (h : Z) : Z := Z.land (u32 (Z.shiftr h (3 * 8 - HLOG) - h * 5)) (HSIZE - 1).

(** Slots that were not written hold arbitrary values. *)
Definition slot (htab : gmap Z Z) (i : Z) : Z := default (junk i) (htab !! i).

Record lzf_state := { ip : Z; op : Z; lit : Z; hval : Z; htab : gmap Z Z; out : list Z }.

(** The unrolled comparisons [len++; if (ref[len] != ip[len]) break;]: the
    length, and whether they stopped at a difference. *)
Fixpoint match_run (n : nat) (ref ip len : Z) : option (Z * bool) :=
  match n with
  | O => Some (len, false)
  | S n =>
      let len := len + 1 in
      a ← rd inp (ref + len); b ← rd inp (ip + len);
      if a =? b then match_run n ref ip len else Some (len, true)
  end.

(** [do len++; while (len < maxlen && ref[len] == ip[len]);] *)
Fixpoint match_while (fuel : nat) (ref ip len maxlen : Z) : option Z :=
  match fuel with
  | O => None
  | S fuel =>
      let len := len + 1 in
      if len <? maxlen then
        a ← rd inp (ref + len); b ← rd inp (ip + len);
        if a =? b then match_while fuel ref ip len maxlen else Some len
      else Some len
  end.

Definition match_len (ref ip maxlen : Z) : option Z :=
  '(len, stop) ← (if maxlen >? 16 then match_run 16 ref ip 2 else Some (2, false));
  if (stop : bool) then Some len else match_while (Z.to_nat MAX_REF) ref ip len maxlen.

(** [op [- lit - 1] = lit - 1] *)
Definition stop_run (out : list Z) (op lit : Z) : option (list Z) := wr out (op - lit - 1) (u8 (lit - 1)).

(** [lit++; *op++ = *ip++;] and the end of a full run. *)
Definition literal (s : lzf_state) : option lzf_state :=
  b ← rd inp (ip s);
  out' ← wr (out s) (op s) b;
  let lit' := lit s + 1 in
  let op' := op s + 1 in
  if lit' =? MAX_LIT then
    out' ← stop_run out' op' lit';
    Some {| ip := ip s + 1; op := op' + 1; lit := 0; hval := hval s; htab := htab s; out := out' |}
  else Some {| ip := ip s + 1; op := op'; lit := lit'; hval := hval s; htab := htab s; out := out' |}.

(** The two or three bytes of a back reference. *)
Definition put_ref (out : list Z) (op off len : Z) : option (list Z * Z) :=
  '(out, op) ←
    (if len <? 7 then
       (out ← wr out op (u8 (Z.shiftr off 8 + Z.shiftl len 5)); Some (out, op + 1))
     else
       (out ← wr out op (u8 (Z.shiftr off 8 + Z.shiftl 7 5));
        out ← wr out (op + 1) (u8 (len - 7));
        Some (out, op + 2)));
  out ← wr out op (u8 off);
  Some (out, op + 1).

(** What an iteration of the main loop does. *)
Inductive outcome := Return0 (s : lzf_state) | Break (s : lzf_state) | Continue (s : lzf_state).

(** A match of the input at [ref]. *)
Definition back_reference (s : lzf_state) (ref off : Z) : option outcome :=
  let maxlen := in_end - ip s - 2 in
  let maxlen := if maxlen >? MAX_REF then MAX_REF else maxlen in
  let nolit := if lit s =? 0 then 1 else 0 in
  if (op s + 3 + 1 >=? zlen (out s)) && (op s - nolit + 3 + 1 >=? zlen (out s)) then Some (Return0 s)
  else
    out' ← stop_run (out s) (op s) (lit s);
    len ← match_len ref (ip s) maxlen;
    let len := len - 2 in
    '(out', op') ← put_ref out' (op s - nolit) off len;
    let ip' := ip s + 1 + (len + 1) in
    if ip' >=? in_end - 2 then
      Some (Break {| ip := ip'; op := op' + 1; lit := 0; hval := hval s; htab := htab s; out := out' |})
    else
      h ← FRST (ip' - 2);
      h ← NEXT h (ip' - 2);
      let htab' := <[IDX h := base + (ip' - 2)]> (htab s) in
      h ← NEXT h (ip' - 1);
      let htab' := <[IDX h := base + (ip' - 1)]> htab' in
      Some (Continue {| ip := ip'; op := op' + 1; lit := 0; hval := h; htab := htab'; out := out' |}).

(** The body of [while (ip < in_end - 2)].  Where the tests of [ref] fail the
    bytes at it are not read. *)
Definition compress_step (s : lzf_state) : option outcome :=
  h ← NEXT (hval s) (ip s);
  let ref := slot (htab s) (IDX h) in
  let s := {| ip := ip s; op := op s; lit := lit s; hval := h;
              htab := <[IDX h := base + ip s]> (htab s); out := out s |} in
  let off := u64 (base + ip s - ref - 1) in
  found ←
    (if (off <? MAX_OFF) && (ref >? base) then
       (r2 ← rd inp (ref - base + 2); i2 ← rd inp (ip s + 2);
        if r2 =? i2 then
          (r0 ← rd inp (ref - base); i0 ← rd inp (ip s);
           r1 ← rd inp (ref - base + 1); i1 ← rd inp (ip s + 1);
           Some ((r0 =? i0) && (r1 =? i1)))
        else Some false)
     else Some false);
  if (found : bool) then back_reference s (ref - base) off
  else if op s >=? zlen (out s) then Some (Return0 s)
  else s ← literal s; Some (Continue s).

(** The main loop, with [inl] when it returns 0. *)
Fixpoint compress_loop (fuel : nat) (s : lzf_state) : option (lzf_state + lzf_state) :=
  if ip s <? in_end - 2 then
    match fuel with
    | O => None
    | S fuel =>
        o ← compress_step s;
        match o with
        | Return0 s => Some (inl s)
        | Break s => Some (inr s)
        | Continue s => compress_loop fuel s
        end
    end
  else Some (inr s).

(** [while (ip < in_end)]: the last bytes. *)
Fixpoint flush_loop (fuel : nat) (s : lzf_state) : option lzf_state :=
  if ip s <? in_end then
    match fuel with
    | O => None
    | S fuel => s ← literal s; flush_loop fuel s
    end
  else Some s.

(** The output block and the number of bytes written to it, 0 if they do not
    fit. *)
Definition lzf_compress (out_data : list Z) : option (list Z * Z) :=
  if (in_end =? 0) || (zlen out_data =? 0) then Some (out_data, 0)
  else
    h ← FRST 0;
    r ← compress_loop (length inp) {| ip := 0; op := 1; lit := 0; hval := h; htab := ∅; out := out_data |};
    match r with
    | inl s => Some (out s, 0)
    | inr s =>
        if op s + 3 >? zlen (out s) then Some (out s, 0)
        else
          s ← flush_loop 3 s;
          out' ← stop_run (out s) (op s) (lit s);
          Some (out', op s - (if lit s =? 0 then 1 else 0))
    end.
End Compress.

(** ** Decompression *)

Section Decompress.
Context (inp : list Z) (out_len : Z).

Abbreviation in_end := (zlen inp).

(** [*op++ = *ref++] [n] times; [out] are the bytes written so far. *)
Fixpoint copy_bytes (n : nat) (ref : Z) (out : list Z) : option (list Z) :=
  match n with
  | O => Some out
  | S n => b ← rd out ref; copy_bytes n (ref + 1) (out ++ [b])
  end.

(** The [switch]: up to 9 bytes and two more one by one, otherwise [memcpy] when
    the areas do not overlap. *)
Definition copy_ref (len ref : Z) (out : list Z) : option (list Z) :=
  if len <=? 9 then copy_bytes (Z.to_nat (len + 2)) ref out
  else if zlen out >=? ref + (len + 2) then
    (bs ← rd_bytes out ref (len + 2); Some (out ++ bs))
  else copy_bytes (Z.to_nat (len + 2)) ref out.

(** The output, or [EINVAL] or [E2BIG] with the value 0. *)
Inductive lzf_error := EINVAL | E2BIG.

Fixpoint decompress_loop (fuel : nat) (ip : Z) (out : list Z) : option (lzf_error + list Z) :=
  if ip <? in_end then
    match fuel with
    | O => None
    | S fuel =>
        ctrl ← rd inp ip;
        let ip := ip + 1 in
        if ctrl <? Z.shiftl 1 5 then
          let ctrl := ctrl + 1 in
          if zlen out + ctrl >? out_len then Some (inl E2BIG)
          else if ip + ctrl >? in_end then Some (inl EINVAL)
          else bs ← rd_bytes inp ip ctrl; decompress_loop fuel (ip + ctrl) (out ++ bs)
        else
          let len := Z.shiftr ctrl 5 in
          let ref := zlen out - Z.shiftl (Z.land ctrl 31) 8 - 1 in
          if ip >=? in_end then Some (inl EINVAL)
          else
            '(len, ip) ← (if len =? 7 then (b ← rd inp ip; Some (len + b, ip + 1)) else Some (len, ip));
            if (Z.shiftr ctrl 5 =? 7) && (ip >=? in_end) then Some (inl EINVAL)
            else
              b ← rd inp ip;
              let ip := ip + 1 in
              let ref := ref - b in
              if zlen out + len + 2 >? out_len then Some (inl E2BIG)
              else if ref <? 0 then Some (inl EINVAL)
              else out ← copy_ref len ref out; decompress_loop fuel ip out
    end
  else Some (inr out).

(** The bytes and the value returned, which is cast to [unsigned int]. *)
Definition lzf_decompress : option (lzf_error + list Z * Z) :=
  r ← decompress_loop (length inp) 0 [];
  Some (match r with inl e => inl e | inr out => inr (out, u32 (zlen out)) end).
End Decompress.

