(* ===== verification/LzfSpec.v ===== *)
(** * LZF: the compressed format and the round trip

    [decodes t d]: the bytes [t] are tokens of the compressed format that stand
    for [d].  The decompressor turns [t] into [d]; the compressor writes tokens
    of its input, for any contents of its hash table. *)

From stdpp Require Import base list numbers option tactics gmap.
From S2P Require Import Prelude Lzf.

(** ** The format *)

(** A back reference to [n] bytes, [off + 1] places before. *)
Definition ref_bytes (off n : Z) : list Z :=
  if n - 2 <? 7 then [off / 256 + (n - 2) * 32; off mod 256]
  else [off / 256 + 224; n - 2 - 7; off mod 256].

Inductive decodes : list Z -> list Z -> Prop :=
  | dec_nil : decodes [] []
  | dec_lit t d l : decodes t d -> 1 <= zlen l <= 32 -> decodes (t ++ [zlen l - 1] ++ l) (d ++ l)
  | dec_ref t d m off : decodes t d -> 3 <= zlen m <= 264 -> 0 <= off < 8192 -> off < zlen d ->
      (forall j, 0 <= j < zlen m -> rd (d ++ m) (zlen d - off - 1 + j) = rd m j) ->
      decodes (t ++ ref_bytes off (zlen m)) (d ++ m).

(** ** Decompression *)

Lemma copy_bytes_ok m2 : forall d m1 ref, 0 <= ref < zlen d ->
  (forall j, 0 <= j < zlen (m1 ++ m2) -> rd (d ++ m1 ++ m2) (ref + j) = rd (m1 ++ m2) j) ->
  copy_bytes (length m2) (ref + zlen m1) (d ++ m1) = Some (d ++ m1 ++ m2).
Proof.
  induction m2 as [|b m2 IH]; intros d m1 ref Hr Hm; cbn [length copy_bytes]; [by rewrite app_nil_r|].
  assert (Hb : rd (d ++ m1) (ref + zlen m1) = Some b).
  { specialize (Hm (zlen m1) ltac:(zlia)). rewrite app_assoc, rd_app_l in Hm by zlia. rewrite Hm. apply rd_app_mid. }
  rewrite Hb. cbn [mbind option_bind]. rewrite <- app_assoc.
  replace (ref + zlen m1 + 1) with (ref + zlen (m1 ++ [b])) by zlia.
  rewrite (IH d (m1 ++ [b]) ref Hr).
  - by rewrite <- app_assoc.
  - by rewrite <- app_assoc.
Qed.

Lemma copy_ref_ok d m ref : 3 <= zlen m -> 0 <= ref < zlen d ->
  (forall j, 0 <= j < zlen m -> rd (d ++ m) (ref + j) = rd m j) -> copy_ref (zlen m - 2) ref d = Some (d ++ m).
Proof.
  intros Hl Hr Hm. unfold copy_ref. replace (zlen m - 2 + 2) with (zlen m) by lia.
  assert (Hc : copy_bytes (Z.to_nat (zlen m)) ref d = Some (d ++ m)).
  { pose proof (copy_bytes_ok m d [] ref Hr Hm) as Hc. rewrite zlen_nil, Z.add_0_r, app_nil_r in Hc. cbn [app] in Hc.
    unfold zlen. by rewrite Nat2Z.id. }
  destruct (_ <=? 9); [done|]. destruct (Z.geb_spec (zlen d) (ref + zlen m)) as [Hge|Hlt]; [|done].
  rewrite (rd_bytes_intro d ref (zlen m) m); [done|lia|done|lia|].
  intros i Hi. rewrite <- Hm by done. by rewrite rd_app_l by lia.
Qed.

Lemma copy_bytes_safe n : forall ref out, 0 <= ref < zlen out ->
  exists out', copy_bytes n ref out = Some out' /\ zlen out' = zlen out + Z.of_nat n.
Proof.
  induction n as [|n IH]; intros ref out Hr; cbn [copy_bytes]; [exists out; split; [done|lia]|].
  destruct (rd_Some out ref Hr) as [b ->]. cbn [mbind option_bind].
  destruct (IH (ref + 1) (out ++ [b])) as (out' & -> & Hz); [zlia|]. exists out'. split; [done|]. zlia.
Qed.

Lemma copy_ref_safe len ref out : 0 <= len -> 0 <= ref < zlen out ->
  exists out', copy_ref len ref out = Some out' /\ zlen out' = zlen out + len + 2.
Proof.
  intros Hl Hr. destruct (copy_bytes_safe (Z.to_nat (len + 2)) ref out Hr) as (out' & Hc & Hz).
  unfold copy_ref. destruct (_ <=? 9); [exists out'; split; [done|lia]|].
  destruct (Z.geb_spec (zlen out) (ref + (len + 2))); [|exists out'; split; [done|lia]].
  destruct (rd_bytes out ref (len + 2)) as [bs|] eqn:E; [|by rewrite rd_bytes_unfold in E by lia].
  apply rd_bytes_inv in E as (_ & Hb & _). cbn. eexists. split; [done|]. zlia.
Qed.

Section Decode.
Context (out_len : Z).

(** One literal run. *)
Lemma decompress_lit fuel t l rest d : 1 <= zlen l <= 32 -> zlen d + zlen l <= out_len ->
  decompress_loop (t ++ ([zlen l - 1] ++ l) ++ rest) out_len (S fuel) (zlen t) d =
  decompress_loop (t ++ ([zlen l - 1] ++ l) ++ rest) out_len fuel (zlen t + zlen ([zlen l - 1] ++ l)) (d ++ l).
Proof.
  intros Hl Ho. cbn [decompress_loop]. rewrite (proj2 (Z.ltb_lt (zlen t) _)) by zlia.
  assert (Hc : rd (t ++ ([zlen l - 1] ++ l) ++ rest) (zlen t) = Some (zlen l - 1)) by apply rd_app_mid.
  rewrite Hc. cbn [mbind option_bind]. rewrite (proj2 (Z.ltb_lt _ (Z.shiftl 1 5))) by (change (Z.shiftl 1 5) with 32; lia).
  replace (zlen l - 1 + 1) with (zlen l) by lia.
  destruct (Z.gtb_spec (zlen d + zlen l) out_len); [lia|].
  destruct (Z.gtb_spec (zlen t + 1 + zlen l) (zlen (t ++ ([zlen l - 1] ++ l) ++ rest))); [zlia|].
  replace (t ++ ([zlen l - 1] ++ l) ++ rest) with ((t ++ [zlen l - 1]) ++ l ++ rest) by (by rewrite <- !app_assoc).
  rewrite rd_bytes_at by zlia. cbn [mbind option_bind]. f_equal. zlia.
Qed.

Lemma ctrl_fields hi len : 0 <= hi < 32 -> 0 <= len < 8 ->
  Z.shiftr (hi + len * 32) 5 = len /\ Z.land (hi + len * 32) 31 = hi.
Proof.
  intros Hh Hl. rewrite Z.shiftr_div_pow2 by lia. change (2 ^ 5) with 32. change 31 with (2 ^ 5 - 1).
  rewrite land_ones by lia. change (2 ^ 5) with 32. split.
  - rewrite Z.div_add by lia. rewrite Z.div_small; lia.
  - rewrite Z.mod_add by lia. by apply Z.mod_small.
Qed.

Lemma zlen_ref_bytes off n : zlen (ref_bytes off n) = if n - 2 <? 7 then 2 else 3.
Proof. unfold ref_bytes. by destruct (_ <? 7). Qed.

(** One back reference. *)
Lemma decompress_ref fuel t m off rest d : 3 <= zlen m <= 264 -> 0 <= off < 8192 -> off < zlen d ->
  (forall j, 0 <= j < zlen m -> rd (d ++ m) (zlen d - off - 1 + j) = rd m j) -> zlen d + zlen m <= out_len ->
  decompress_loop (t ++ ref_bytes off (zlen m) ++ rest) out_len (S fuel) (zlen t) d =
  decompress_loop (t ++ ref_bytes off (zlen m) ++ rest) out_len fuel (zlen t + zlen (ref_bytes off (zlen m))) (d ++ m).
Proof.
  intros Hm Hoff Hd Hcp Ho.
  assert (Hhi : 0 <= off / 256 < 32) by (split; [apply Z.div_pos; lia|apply Z.div_lt_upper_bound; lia]).
  pose proof (Z.mod_pos_bound off 256 ltac:(lia)) as Hlo. pose proof (Z.div_mod off 256 ltac:(lia)) as Hdm.
  pose proof (copy_ref_ok d m (zlen d - off - 1) ltac:(lia) ltac:(lia) Hcp) as Hcr.
  cbn [decompress_loop]. unfold ref_bytes. destruct (Z.ltb_spec (zlen m - 2) 7) as [Hs|Hb]; cbn [app].
  - rewrite (proj2 (Z.ltb_lt (zlen t) _)) by zlia. rewrite rd_app_mid. cbn [mbind option_bind].
    destruct (ctrl_fields (off / 256) (zlen m - 2)) as [-> ->]; [lia|lia|].
    destruct (Z.ltb_spec (off / 256 + (zlen m - 2) * 32) (Z.shiftl 1 5)) as [Hc|_]; [change (Z.shiftl 1 5) with 32 in Hc; lia|].
    set (inp := t ++ _ :: _ :: rest). assert (Hzi : zlen inp = zlen t + 2 + zlen rest) by (unfold inp; zlia).
    pose proof (zlen_nonneg rest). destruct (Z.geb_spec (zlen t + 1) (zlen inp)); [lia|].
    assert (H1 : rd inp (zlen t + 1) = Some (off mod 256)) by (unfold inp; by rewrite rd_app_off).
    rewrite (proj2 (Z.eqb_neq (zlen m - 2) 7)) by lia. cbn [mbind option_bind andb]. rewrite H1. cbn [mbind option_bind].
    rewrite Z.shiftl_mul_pow2 by lia. change (2 ^ 8) with 256.
    destruct (Z.gtb_spec (zlen d + (zlen m - 2) + 2) out_len); [lia|].
    replace (zlen d - off / 256 * 256 - 1 - off mod 256) with (zlen d - off - 1) by lia.
    rewrite (proj2 (Z.ltb_ge _ 0)) by lia. rewrite Hcr. cbn [mbind option_bind]. f_equal. rewrite !zlen_cons, zlen_nil. lia.
  - change 224 with (7 * 32). rewrite (proj2 (Z.ltb_lt (zlen t) _)) by zlia. rewrite rd_app_mid. cbn [mbind option_bind].
    destruct (ctrl_fields (off / 256) 7) as [-> ->]; [lia|lia|].
    destruct (Z.ltb_spec (off / 256 + 7 * 32) (Z.shiftl 1 5)) as [Hc|_]; [change (Z.shiftl 1 5) with 32 in Hc; lia|].
    set (inp := t ++ _ :: _ :: _ :: rest). assert (Hzi : zlen inp = zlen t + 3 + zlen rest) by (unfold inp; zlia).
    pose proof (zlen_nonneg rest). destruct (Z.geb_spec (zlen t + 1) (zlen inp)); [lia|].
    assert (H1 : rd inp (zlen t + 1) = Some (zlen m - 2 - 7)) by (unfold inp; by rewrite rd_app_off).
    assert (H2 : rd inp (zlen t + 1 + 1) = Some (off mod 256)).
    { unfold inp. replace (zlen t + 1 + 1) with (zlen t + 2) by lia. by rewrite rd_app_off. }
    change (7 =? 7) with true. cbn match. rewrite H1. cbn [mbind option_bind andb].
    destruct (Z.geb_spec (zlen t + 1 + 1) (zlen inp)); [lia|]. rewrite H2. cbn [mbind option_bind].
    rewrite Z.shiftl_mul_pow2 by lia. change (2 ^ 8) with 256. replace (7 + (zlen m - 2 - 7)) with (zlen m - 2) by lia.
    destruct (Z.gtb_spec (zlen d + (zlen m - 2) + 2) out_len); [lia|].
    replace (zlen d - off / 256 * 256 - 1 - off mod 256) with (zlen d - off - 1) by lia.
    rewrite (proj2 (Z.ltb_ge _ 0)) by lia. rewrite Hcr. cbn [mbind option_bind]. f_equal. rewrite !zlen_cons, zlen_nil. lia.
Qed.

(** Reading tokens from the start. *)
Lemma decompress_tokens t d : decodes t d -> zlen d <= out_len ->
  exists k, (k <= length t)%nat /\ forall rest fuel,
    decompress_loop (t ++ rest) out_len (k + fuel) 0 [] = decompress_loop (t ++ rest) out_len fuel (zlen t) d.
Proof.
  induction 1 as [|t d l Ht IH Hl|t d m off Ht IH Hm Hoff Hd Hcp]; intros Ho.
  - by exists 0%nat.
  - destruct IH as (k & Hk & IH); [zlia|]. exists (k + 1)%nat. split; [rewrite !length_app; cbn; lia|].
    intros rest fuel. rewrite <- !(app_assoc t), <- Nat.add_assoc, IH. cbn [Nat.add].
    rewrite decompress_lit by zlia. by rewrite (zlen_app t).
  - destruct IH as (k & Hk & IH); [zlia|]. exists (k + 1)%nat.
    split; [rewrite length_app; pose proof (zlen_ref_bytes off (zlen m)); unfold zlen in *; destruct (_ <? _); lia|].
    intros rest fuel. rewrite <- !(app_assoc t), <- Nat.add_assoc, IH. cbn [Nat.add].
    rewrite decompress_ref by (try done; zlia). by rewrite (zlen_app t).
Qed.

Lemma decompress_ok t d : decodes t d -> zlen d <= out_len ->
  lzf_decompress t out_len = Some (inr (d, u32 (zlen d))).
Proof.
  intros Ht Ho. destruct (decompress_tokens t d Ht Ho) as (k & Hk & Hd). specialize (Hd [] (length t - k)%nat).
  rewrite app_nil_r in Hd. unfold lzf_decompress. replace (k + (length t - k))%nat with (length t) in Hd by lia. rewrite Hd.
  destruct (length t - k)%nat; cbn [decompress_loop]; by rewrite (proj2 (Z.ltb_ge _ _)) by lia.
Qed.

(** Any input at all is read within its bounds, and the output is not longer
    than its block. *)
Lemma decompress_loop_safe inp fuel : Forall is_byte inp -> forall ip out, 0 <= ip ->
  zlen inp - ip <= Z.of_nat fuel -> zlen out <= out_len ->
  exists r, decompress_loop inp out_len fuel ip out = Some r /\
    match r with inr d => zlen d <= out_len | inl _ => True end.
Proof.
  intros Hb. induction fuel as [|fuel IH]; intros ip out Hip Hf Ho; cbn [decompress_loop].
  { rewrite (proj2 (Z.ltb_ge ip _)) by lia. by eexists. }
  destruct (Z.ltb_spec ip (zlen inp)) as [Hlt|]; [|by eexists].
  destruct (rd_Some inp ip) as [ctrl Hc]; [lia|]. rewrite Hc. cbn [mbind option_bind].
  assert (Hbyte : forall i b, rd inp i = Some b -> 0 <= b < 256).
  { intros i b Hi. pose proof (rd_Some_inv _ _ _ Hi). rewrite rd_lookup in Hi by lia.
    rewrite list.Forall_forall in Hb. apply Hb. by eapply list_elem_of_lookup_2. }
  pose proof (Hbyte _ _ Hc) as Hctrl. destruct (Z.ltb_spec ctrl (Z.shiftl 1 5)) as [Hl|Hl].
  - destruct (Z.gtb_spec (zlen out + (ctrl + 1)) out_len); [by eexists|].
    destruct (Z.gtb_spec (ip + 1 + (ctrl + 1)) (zlen inp)); [by eexists|].
    destruct (rd_bytes inp (ip + 1) (ctrl + 1)) as [bs|] eqn:E; [|by rewrite rd_bytes_unfold in E by lia].
    apply rd_bytes_inv in E as (_ & Hz & _). cbn [mbind option_bind]. apply IH; [lia|lia|zlia].
  - destruct (Z.geb_spec (ip + 1) (zlen inp)); [by eexists|].
    assert (Hlen : 0 <= Z.shiftr ctrl 5) by (apply Z.shiftr_nonneg; lia).
    assert (Hnext : exists len ip', (if Z.shiftr ctrl 5 =? 7 then b ← rd inp (ip + 1); Some (Z.shiftr ctrl 5 + b, ip + 1 + 1)
        else Some (Z.shiftr ctrl 5, ip + 1)) = Some (len, ip') /\ 0 <= len /\ ip + 1 <= ip' /\
        (Z.shiftr ctrl 5 <> 7 -> ip' < zlen inp)).
    { destruct (Z.eqb_spec (Z.shiftr ctrl 5) 7) as [E|E].
      - destruct (rd_Some inp (ip + 1)) as [b Hb1]; [lia|]. rewrite Hb1. pose proof (Hbyte _ _ Hb1).
        eexists _, _. split; [done|]. lia.
      - eexists _, _. split; [done|]. lia. }
    destruct Hnext as (len & ip' & -> & Hl0 & Hip' & Hlt'). cbn [mbind option_bind].
    assert (Hg : (Z.shiftr ctrl 5 =? 7) && (ip' >=? zlen inp) = false -> ip' < zlen inp).
    { destruct (Z.eqb_spec (Z.shiftr ctrl 5) 7) as [E|E]; [|by intros _; apply Hlt'].
      cbn [andb]. destruct (Z.geb_spec ip' (zlen inp)); [done|]. by intros. }
    destruct (_ && _); [by eexists|]. specialize (Hg eq_refl).
    destruct (rd_Some inp ip') as [b Hb1]; [lia|]. rewrite Hb1. cbn [mbind option_bind]. pose proof (Hbyte _ _ Hb1).
    destruct (Z.gtb_spec (zlen out + len + 2) out_len); [by eexists|].
    destruct (Z.ltb_spec (zlen out - Z.shiftl (Z.land ctrl 31) 8 - 1 - b) 0) as [|Hr]; [by eexists|].
    assert (0 <= Z.shiftl (Z.land ctrl 31) 8) by (apply Z.shiftl_nonneg, Z.land_nonneg; lia).
    destruct (copy_ref_safe len (zlen out - Z.shiftl (Z.land ctrl 31) 8 - 1 - b) out) as (out' & -> & Hz); [lia|lia|].
    cbn [mbind option_bind]. apply IH; lia.
Qed.
End Decode.

(** ** Compression *)

Section Encode.
Context (base : Z) (junk : Z -> Z) (inp : list Z) (out_len : Z).
(** Where the input lies, and what the hash table may hold. *)
Context (Hbase : 8192 <= base) (Hend : base + zlen inp <= 2 ^ 64) (Hjunk : forall i, 0 <= junk i < 2 ^ 64).

Definition agree (ref p n : Z) : Prop := forall j, 0 <= j < n -> rd inp (ref + j) = rd inp (p + j).

Lemma agree_S ref p n : agree ref p n -> rd inp (ref + n) = rd inp (p + n) -> agree ref p (n + 1).
Proof. intros Ha Hn j Hj. destruct (decide (j = n)) as [->|]; [done|]. apply Ha. lia. Qed.

Lemma agree_le ref p n m : m <= n -> agree ref p n -> agree ref p m.
Proof. intros Hm Ha j Hj. apply Ha. lia. Qed.

Lemma match_run_ok ref p n : 0 <= ref < p -> forall len, 0 <= len -> p + len + Z.of_nat n < zlen inp -> agree ref p (len + 1) ->
  exists len' stop, match_run inp n ref p len = Some (len', stop) /\
    if (stop : bool) then len < len' <= len + Z.of_nat n /\ agree ref p len'
    else len' = len + Z.of_nat n /\ agree ref p (len' + 1).
Proof.
  intros Hr. induction n as [|n IH]; intros len Hl Hp Ha; cbn [match_run].
  { exists len, false. split; [done|]. split; [lia|done]. }
  destruct (rd_Some inp (ref + (len + 1))) as [a Ea]; [lia|]. destruct (rd_Some inp (p + (len + 1))) as [b Eb]; [lia|].
  rewrite Ea, Eb. cbn [mbind option_bind]. destruct (Z.eqb_spec a b) as [->|Hne].
  - destruct (IH (len + 1)) as (len' & stop & -> & Hres); [lia|lia|apply agree_S; [done|congruence]|].
    exists len', stop. split; [done|]. destruct stop; intuition lia.
  - exists (len + 1), true. split; [done|]. split; [lia|done].
Qed.

Lemma match_while_ok ref p maxlen fuel : 0 <= ref < p -> forall len, 0 <= len -> p + maxlen <= zlen inp ->
  maxlen - len <= Z.of_nat fuel -> (0 < fuel)%nat -> agree ref p (len + 1) ->
  exists len', match_while inp fuel ref p len maxlen = Some len' /\ len + 1 <= len' <= Z.max (len + 1) maxlen /\ agree ref p len'.
Proof.
  intros Hr. induction fuel as [|fuel IH]; intros len Hl Hp Hf H0 Ha; [lia|]. cbn [match_while].
  destruct (Z.ltb_spec (len + 1) maxlen) as [Hlt|Hge].
  2:{ exists (len + 1). split; [done|]. split; [lia|done]. }
  destruct (rd_Some inp (ref + (len + 1))) as [a Ea]; [lia|]. destruct (rd_Some inp (p + (len + 1))) as [b Eb]; [lia|].
  rewrite Ea, Eb. cbn [mbind option_bind]. destruct (Z.eqb_spec a b) as [->|Hne].
  - destruct (IH (len + 1)) as (len' & -> & Hres & Ha'); [lia|lia|lia|lia|apply agree_S; [done|congruence]|].
    exists len'. split; [done|]. split; [lia|done].
  - exists (len + 1). split; [done|]. split; [lia|done].
Qed.

(** The length of a match: at least 3, within the input and the format. *)
Lemma match_len_ok ref p : 0 <= ref < p -> p + 2 < zlen inp -> agree ref p 3 ->
  let maxlen := zlen inp - p - 2 in let maxlen := if maxlen >? MAX_REF then MAX_REF else maxlen in
  exists len, match_len inp ref p maxlen = Some len /\ 3 <= len <= 264 /\ p + len <= zlen inp /\ agree ref p len.
Proof.
  intros Hr Hp Ha. cbn zeta. set (maxlen := if _ >? MAX_REF then _ else _).
  assert (Hm : 1 <= maxlen <= 264 /\ p + maxlen + 2 <= zlen inp).
  { unfold maxlen. change MAX_REF with 264. destruct (Z.gtb_spec (zlen inp - p - 2) 264); lia. }
  unfold match_len. change (Z.to_nat MAX_REF) with 264%nat. destruct (Z.gtb_spec maxlen 16) as [Hbig|Hsmall].
  - destruct (match_run_ok ref p 16 Hr 2) as (len' & stop & -> & Hres); [lia|lia|done|]. cbn [mbind option_bind].
    destruct stop.
    + destruct Hres as [Hl Ha']. exists len'. split; [done|]. split; [lia|]. split; [lia|done].
    + destruct Hres as [-> Ha'].
      destruct (match_while_ok ref p maxlen 264 Hr (2 + Z.of_nat 16)) as (len' & -> & Hl & Hla); [lia|lia|lia|lia|done|].
      exists len'. split; [done|]. split; [lia|]. split; [lia|done].
  - cbn [mbind option_bind]. destruct (match_while_ok ref p maxlen 264 Hr 2) as (len' & -> & Hl & Hla); [lia|lia|lia|lia|done|].
    exists len'. split; [done|]. split; [lia|]. split; [lia|done].
Qed.

(** The state of the compressor: [t] are the tokens written for [d], [l] the
    bytes of the open literal run, [i] the input left and [r] the output left. *)
Record cinv (s : lzf_state) (t d l i r : list Z) : Prop := {
  ci_inp : inp = d ++ l ++ i;
  ci_ip : ip s = zlen d + zlen l;
  ci_lit : lit s = zlen l;
  ci_max : zlen l < 32;
  ci_dec : decodes t d;
  ci_op : op s = zlen t + 1 + zlen l;
  ci_len : zlen (out s) = out_len;
  ci_out : l = [] /\ out s = t ++ r \/ l <> [] /\ exists c, out s = t ++ c :: l ++ r;
  ci_slots : forall k, 0 <= slot junk (htab s) k < 2 ^ 64 }.

Lemma wr_at a x c b off : off = zlen a -> wr (a ++ x :: c) off b = Some (a ++ b :: c).
Proof. intros ->. exact (wr_bytes_app a [x] c [b] eq_refl). Qed.

Lemma literal_ok s t d l b i r : cinv s t d l (b :: i) r -> op s < zlen (out s) ->
  exists s' t' d' l' r', literal inp s = Some s' /\ cinv s' t' d' l' i r' /\ ip s' = ip s + 1 /\
    op s + 1 <= op s' <= op s + 2 /\ (op s' = op s + 2 -> l <> [] /\ l' = []).
Proof.
  intros [Hin Hip Hlit Hmax Hdec Hop Hlen Hout Hsl] Hroom. unfold literal.
  assert (Hb : rd inp (ip s) = Some b).
  { rewrite Hin, Hip, app_assoc. apply rd_at. zlia. }
  rewrite Hb. cbn [mbind option_bind].
  assert (Hw : exists c r', wr (out s) (op s) b = Some (t ++ c :: (l ++ [b]) ++ r') /\ zlen (t ++ c :: (l ++ [b]) ++ r') = out_len).
  { rewrite <- Hlen. destruct Hout as [[-> Ho]|[Hne (c & Ho)]]; rewrite Ho, Hop in *.
    - destruct r as [|r0 [|r1 r]]; [zlia|zlia|]. exists r0, r. rewrite zlen_nil.
      pose proof (wr_at (t ++ [r0]) r1 r b (zlen t + 1 + 0)) as Hw. rewrite <- !app_assoc in Hw. cbn [app] in Hw.
      rewrite Hw by zlia. split; [done|]. zlia.
    - destruct r as [|r1 r]; [zlia|]. exists c, r.
      pose proof (wr_at (t ++ c :: l) r1 r b (zlen t + 1 + zlen l)) as Hw. rewrite <- !app_assoc in Hw. cbn [app] in Hw.
      rewrite Hw by zlia. split; [by rewrite <- app_assoc|]. zlia. }
  destruct Hw as (c & r' & -> & Hz). cbn [mbind option_bind]. rewrite Hlit. change MAX_LIT with 32.
  destruct (Z.eqb_spec (zlen l + 1) 32) as [Efull|Efull].
  - unfold stop_run. rewrite (wr_at t c) by lia. cbn [mbind option_bind].
    assert (Hl : u8 (zlen l + 1 - 1) = zlen (l ++ [b]) - 1) by (rewrite wrapu_id; zlia). rewrite Hl.
    eexists _, (t ++ [zlen (l ++ [b]) - 1] ++ (l ++ [b])), (d ++ (l ++ [b])), [], r'. split; [done|].
    split; [|cbn [ip op]; split; [done|]; split; [lia|]; intros _; split; [by intros ->|done]].
    split; cbn [ip op lit htab out]; [by rewrite Hin, <- !app_assoc|zlia|done|done| |zlia|rewrite <- Hz; zlia| |done].
    + constructor; [done|zlia].
    + left. split; [done|]. by rewrite <- !app_assoc.
  - eexists _, t, d, (l ++ [b]), r'. split; [done|].
    split; [|cbn [ip op]; split; [done|]; split; [lia|lia]].
    split; cbn [ip op lit htab out]; [by rewrite Hin, <- !app_assoc|zlia|zlia|zlia|done|zlia|done| |done].
    right. split; [by destruct l|by exists c].
Qed.

Definition nolit (s : lzf_state) : Z := if lit s =? 0 then 1 else 0.

(** Closing the run: its length is written, or the empty run is dropped. *)
Lemma stop_run_ok s t d l i r : cinv s t d l i r -> op s <= out_len ->
  exists t' r', stop_run (out s) (op s) (lit s) = Some (t' ++ r') /\ decodes t' (d ++ l) /\ op s - nolit s = zlen t' /\ zlen t' + zlen r' = out_len.
Proof.
  intros [Hin Hip Hlit Hmax Hdec Hop Hlen Hout Hsl] Hroom. unfold stop_run, nolit. rewrite Hlit, Hop.
  destruct Hout as [[-> Ho]|[Hne (c & Ho)]]; rewrite Ho in *.
  - destruct r as [|r0 r]; [zlia|]. rewrite (wr_at t r0) by zlia.
    eexists t, _. split; [done|]. rewrite app_nil_r. split; [done|]. change (zlen [] =? 0) with true. zlia.
  - assert (Hl : 1 <= zlen l) by (destruct l; [done|zlia]). rewrite (wr_at t c) by zlia.
    exists (t ++ [zlen l - 1] ++ l), r. rewrite wrapu_id by lia. split; [by rewrite <- app_assoc|].
    split; [constructor; [done|lia]|]. rewrite (proj2 (Z.eqb_neq _ 0)) by lia. zlia.
Qed.

Lemma put_ref_ok t r off n : 3 <= n <= 264 -> 0 <= off < 8192 -> 3 <= zlen r ->
  exists r', put_ref (t ++ r) (zlen t) off (n - 2) = Some ((t ++ ref_bytes off n) ++ r', zlen (t ++ ref_bytes off n)) /\
    zlen (t ++ ref_bytes off n) + zlen r' = zlen t + zlen r.
Proof.
  intros Hn Hoff Hr. destruct r as [|r0 [|r1 [|r2 r]]]; [zlia|zlia|zlia|].
  assert (Hhi : 0 <= off / 256 < 32) by (split; [apply Z.div_pos; lia|apply Z.div_lt_upper_bound; lia]).
  assert (Hsh : Z.shiftr off 8 = off / 256) by (rewrite Z.shiftr_div_pow2; [done|lia]).
  assert (Hw2 : forall a b, wr (t ++ a :: r1 :: r2 :: r) (zlen t + 1) b = Some (t ++ a :: b :: r2 :: r)).
  { intros a b. pose proof (wr_at (t ++ [a]) r1 (r2 :: r) b (zlen t + 1)) as Hw. rewrite <- !app_assoc in Hw. apply Hw. zlia. }
  assert (Hw3 : forall a b c, wr (t ++ a :: b :: r2 :: r) (zlen t + 2) c = Some (t ++ a :: b :: c :: r)).
  { intros a b c. pose proof (wr_at (t ++ [a; b]) r2 r c (zlen t + 2)) as Hw. rewrite <- !app_assoc in Hw. apply Hw. zlia. }
  unfold put_ref, ref_bytes. rewrite Hsh, Z.shiftl_mul_pow2 by lia. change (2 ^ 5) with 32. change (Z.shiftl 7 5) with 224.
  change (u8 off) with (off mod 256). destruct (Z.ltb_spec (n - 2) 7) as [Hs|Hb]; rewrite (wr_at t r0) by done; cbn [mbind option_bind].
  - rewrite (wrapu_id 8) by lia. rewrite Hw2. cbn [mbind option_bind]. exists (r2 :: r).
    split; [f_equal; f_equal; [by rewrite <- app_assoc|zlia]|zlia].
  - rewrite (wrapu_id 8 (off / 256 + 224)) by lia. rewrite Hw2. cbn [mbind option_bind]. rewrite Hw3. cbn [mbind option_bind].
    rewrite (wrapu_id 8) by lia. exists r. split; [f_equal; f_equal; [by rewrite <- app_assoc|zlia]|zlia].
Qed.
Lemma NEXT_Some v p : -2 <= p -> p + 2 < zlen inp -> is_Some (NEXT inp v p).
Proof. intros. unfold NEXT. destruct (rd_Some inp (p + 2)) as [b ->]; [lia|]. by eexists. Qed.

Lemma FRST_Some p : 0 <= p -> p + 1 < zlen inp -> is_Some (FRST inp p).
Proof.
  intros. unfold FRST. destruct (rd_Some inp p) as [a ->]; [lia|]. destruct (rd_Some inp (p + 1)) as [b ->]; [lia|]. by eexists.
Qed.

Lemma slots_insert ht k p : (forall k, 0 <= slot junk ht k < 2 ^ 64) -> 0 <= p < zlen inp ->
  forall k', 0 <= slot junk (<[k := base + p]> ht) k' < 2 ^ 64.
Proof.
  intros Hs Hp k'. unfold slot in *. destruct (decide (k = k')) as [->|Hne].
  - rewrite lookup_insert_eq. cbn. lia.
  - rewrite lookup_insert_ne by done. apply Hs.
Qed.

(** The tokens after a match of [n] bytes at [ref]. *)
Lemma decodes_match t d l i n off : inp = d ++ l ++ i -> decodes t (d ++ l) -> 3 <= n <= 264 -> n <= zlen i ->
  0 <= off < 8192 -> off < zlen (d ++ l) -> agree (zlen (d ++ l) - off - 1) (zlen (d ++ l)) n ->
  exists m i', i = m ++ i' /\ zlen m = n /\ decodes (t ++ ref_bytes off n) ((d ++ l) ++ m).
Proof.
  intros Hin Hd Hn Hi Hoff Hlt Ha. exists (take (Z.to_nat n) i), (drop (Z.to_nat n) i).
  assert (Hm : zlen (take (Z.to_nat n) i) = n) by (unfold zlen in *; rewrite length_take; lia).
  split; [by rewrite take_drop|]. split; [done|]. rewrite <- Hm at 1.
  assert (Hin' : inp = ((d ++ l) ++ take (Z.to_nat n) i) ++ drop (Z.to_nat n) i).
  { by rewrite Hin, <- !app_assoc, take_drop. }
  apply dec_ref; [done|lia|done|done|]. rewrite Hm. intros j Hj. specialize (Ha j Hj). rewrite Hin' in Ha.
  rewrite rd_app_l in Ha by zlia. rewrite Ha, <- app_assoc, rd_app_off by lia. apply rd_app_l; lia.
Qed.

(** What a state of the compressor has to say about the iteration it starts. *)
Definition step_ok (ip0 : Z) (o : outcome) : Prop :=
  match o with
  | Return0 s => zlen (out s) = out_len
  | Break s => exists t d i r, cinv s t d [] i r /\ zlen i <= 2
  | Continue s => ip0 < ip s /\ exists t d l i r, cinv s t d l i r
  end.

Lemma back_reference_ok s t d l i r ref : cinv s t d l i r -> 3 <= zlen i -> 0 <= ref < ip s ->
  ip s - ref - 1 < 8192 -> agree ref (ip s) 3 ->
  exists o, back_reference base inp s ref (ip s - ref - 1) = Some o /\ step_ok (ip s) o.
Proof.
  intros Hc Hi Hr Hoff Ha. pose proof Hc as [Hin Hip Hlit Hmax Hdec Hop Hlen Hout Hsl].
  assert (Hz : zlen inp = ip s + zlen i) by (rewrite Hin, Hip; zlia). unfold back_reference. fold (nolit s).
  assert (Hnl : 0 <= nolit s <= 1) by (unfold nolit; destruct (_ =? _); lia). rewrite Hlen.
  destruct ((op s + 3 + 1 >=? out_len) && (op s - nolit s + 3 + 1 >=? out_len)) eqn:Eg; [by eexists|].
  assert (Hroom : op s - nolit s + 4 < out_len).
  { apply andb_false_iff in Eg as [E|E]; [destruct (Z.geb_spec (op s + 3 + 1) out_len)|
      destruct (Z.geb_spec (op s - nolit s + 3 + 1) out_len)]; try done; lia. }
  destruct (stop_run_ok s t d l i r Hc) as (t1 & r1 & -> & Hd1 & Hop1 & Hz1); [lia|]. cbn [mbind option_bind].
  destruct (match_len_ok ref (ip s)) as (len & -> & Hlen1 & Hlen2 & Ha'); [lia|lia|done|]. cbn [mbind option_bind].
  rewrite Hop1. destruct (put_ref_ok t1 r1 (ip s - ref - 1) len) as (r2 & -> & Hz2); [lia|lia|lia|]. cbn [mbind option_bind].
  destruct (decodes_match t1 d l i len (ip s - ref - 1)) as (m & i' & Hi' & Hm & Hdm); [done|done|lia|lia|lia|zlia| |].
  { rewrite zlen_app, <- Hip. replace (ip s - (ip s - ref - 1) - 1) with ref by lia. done. }
  set (t2 := t1 ++ ref_bytes (ip s - ref - 1) len) in *.
  assert (Hnew : forall h ht, (forall k, 0 <= slot junk ht k < 2 ^ 64) ->
    cinv {| ip := ip s + 1 + (len - 2 + 1); op := zlen t2 + 1; lit := 0; hval := h; htab := ht; out := t2 ++ r2 |}
      t2 ((d ++ l) ++ m) [] i' r2).
  { intros h ht Hht. split; cbn [ip op lit htab out]; [|zlia|done|done|done|zlia|zlia|by left|done].
    by rewrite Hin, Hi', <- !app_assoc. }
  assert (Hzi : zlen i = len + zlen i') by (rewrite Hi'; zlia).
  destruct (Z.geb_spec (ip s + 1 + (len - 2 + 1)) (zlen inp - 2)) as [Hge|Hlt].
  - eexists. split; [done|]. cbn [step_ok]. eexists _, _, _, _. split; [by apply Hnew|]. lia.
  - destruct (FRST_Some (ip s + 1 + (len - 2 + 1) - 2)) as [h0 ->]; [lia|lia|]. cbn [mbind option_bind].
    destruct (NEXT_Some h0 (ip s + 1 + (len - 2 + 1) - 2)) as [h1 ->]; [lia|lia|]. cbn [mbind option_bind].
    destruct (NEXT_Some h1 (ip s + 1 + (len - 2 + 1) - 1)) as [h2 ->]; [lia|lia|]. cbn [mbind option_bind].
    eexists. split; [done|]. cbn [step_ok]. split; [cbn [ip]; lia|]. eexists _, _, _, _, _. apply Hnew.
    apply slots_insert; [|lia]. apply slots_insert; [done|lia].
Qed.

(** What the tests of [ref] establish, whatever the slot held. *)
Lemma ref_in_range p ref : 0 <= p < zlen inp -> 0 <= ref < 2 ^ 64 -> u64 (base + p - ref - 1) < 8192 -> base < ref ->
  0 < ref - base < p /\ u64 (base + p - ref - 1) = p - (ref - base) - 1.
Proof.
  intros Hp Hr Hu Hgt. destruct (decide (ref < base + p)) as [Hlt|Hge].
  - rewrite (wrapu_id 64) by lia. lia.
  - exfalso. revert Hu. unfold wrapu. rewrite <- (Z.mod_add _ 1) by lia. rewrite Z.mod_small by lia. lia.
Qed.

Lemma compress_step_ok s t d l i r : cinv s t d l i r -> ip s < zlen inp - 2 ->
  exists o, compress_step base junk inp s = Some o /\ step_ok (ip s) o.
Proof.
  intros Hc Hlt. pose proof Hc as [Hin Hip Hlit Hmax Hdec Hop Hlen Hout Hsl].
  assert (Hz : zlen inp = ip s + zlen i) by (rewrite Hin, Hip; zlia).
  assert (0 <= ip s) by (pose proof (zlen_nonneg d); pose proof (zlen_nonneg l); lia).
  unfold compress_step. destruct (NEXT_Some (hval s) (ip s)) as [h ->]; [lia|lia|]. cbn [mbind option_bind].
  set (ref := slot junk (htab s) (IDX h)). pose proof (Hsl (IDX h)) as Href. fold ref in Href.
  set (s1 := {| ip := ip s; op := op s; lit := lit s; hval := h; htab := _; out := out s |}).
  assert (Hc1 : cinv s1 t d l i r).
  { split; try done. cbn [s1 htab]. apply slots_insert; [done|lia]. }
  assert (Hlit1 : exists o, (if op s1 >=? zlen (out s1) then Some (Return0 s1) else s2 ← literal inp s1; Some (Continue s2)) = Some o /\
    step_ok (ip s) o).
  { destruct i as [|b i]; [zlia|]. destruct (Z.geb_spec (op s1) (zlen (out s1))) as [|Hop1]; [by eexists|].
    destruct (literal_ok s1 t d l b i r Hc1 Hop1) as (s' & t' & d' & l' & r' & -> & Hc' & Hip' & _).
    eexists. split; [done|]. cbn [step_ok]. split; [rewrite Hip'; cbn [s1 ip]; lia|]. by eexists _, _, _, _, _. }
  change (ip s1) with (ip s).
  destruct ((u64 (base + ip s - ref - 1) <? MAX_OFF) && (ref >? base)) eqn:Eg; [|done].
  apply andb_prop in Eg as [Eo Eb]. apply Z.ltb_lt in Eo. apply Z.gtb_lt in Eb. change MAX_OFF with 8192 in Eo.
  destruct (ref_in_range (ip s) ref) as [Hrr Hru]; [lia|done|done|done|].
  destruct (rd_Some inp (ref - base + 2)) as [r2 E2]; [lia|]. destruct (rd_Some inp (ip s + 2)) as [i2 F2]; [lia|].
  destruct (rd_Some inp (ref - base + 1)) as [q1 E1]; [lia|]. destruct (rd_Some inp (ip s + 1)) as [i1 F1]; [lia|].
  destruct (rd_Some inp (ref - base)) as [q0 E0]; [lia|]. destruct (rd_Some inp (ip s)) as [i0 F0]; [lia|].
  rewrite E2, F2. cbn [mbind option_bind]. destruct (Z.eqb_spec r2 i2) as [->|]; [|done].
  rewrite E0, F0, E1, F1. cbn [mbind option_bind]. destruct (Z.eqb_spec q0 i0) as [->|]; [|done].
  destruct (Z.eqb_spec q1 i1) as [->|]; [|done]. cbn [andb]. rewrite Hru.
  apply (back_reference_ok s1 t d l i r); [done|zlia|cbn; lia|cbn; lia|].
  cbn [s1 ip]. intros j Hj. assert (j = 0 \/ j = 1 \/ j = 2) as [->|[-> | ->]] by lia; rewrite ?Z.add_0_r; congruence.
Qed.

Lemma compress_loop_ok fuel : forall s t d l i r, cinv s t d l i r -> zlen i <= Z.of_nat fuel ->
  exists res, compress_loop base junk inp fuel s = Some res /\
    match res with
    | inl s' => zlen (out s') = out_len
    | inr s' => exists t d l i r, cinv s' t d l i r /\ zlen i <= 2
    end.
Proof.
  induction fuel as [|fuel IH]; intros s t d l i r Hc Hf; pose proof Hc as [Hin Hip _ _ _ _ _ _ _];
    assert (Hz : zlen inp = ip s + zlen i) by (rewrite Hin, Hip; zlia); cbn [compress_loop];
    (destruct (Z.ltb_spec (ip s) (zlen inp - 2)) as [Hlt|Hge]; [|eexists; split; [done|]; eexists _, _, _, _, _; split; [done|lia]]); [lia|].
  destruct (compress_step_ok s t d l i r Hc Hlt) as (o & -> & Ho). cbn [mbind option_bind]. destruct o as [s'|s'|s']; cbn [step_ok] in Ho.
  - by eexists.
  - destruct Ho as (t' & d' & i' & r' & Hc' & Hi'). eexists. split; [done|]. by eexists _, _, _, _, _.
  - destruct Ho as (Hip' & t' & d' & l' & i' & r' & Hc'). apply (IH s' t' d' l' i' r' Hc').
    pose proof Hc' as [Hin' Hip'' _ _ _ _ _ _ _].
    assert (Hz' : zlen inp = ip s' + zlen i') by (rewrite Hin', Hip''; zlia). lia.
Qed.

Lemma flush_done s t d l r fuel : cinv s t d l [] r -> flush_loop inp fuel s = Some s.
Proof.
  intros [Hin Hip _ _ _ _ _ _ _]. assert (Hz : zlen inp = ip s) by (rewrite Hin, Hip; zlia).
  destruct fuel; cbn [flush_loop]; by rewrite (proj2 (Z.ltb_ge _ _)) by lia.
Qed.

Lemma flush_step s t d l b i r fuel : cinv s t d l (b :: i) r -> op s < out_len ->
  exists s' t' d' l' r', flush_loop inp (S fuel) s = flush_loop inp fuel s' /\ cinv s' t' d' l' i r' /\
    op s' <= op s + 2 /\ (op s' = op s + 2 -> l <> [] /\ l' = []).
Proof.
  intros Hc Hop. pose proof Hc as [Hin Hip _ _ _ _ Hlen _ _]. cbn [flush_loop].
  rewrite (proj2 (Z.ltb_lt _ _)) by (rewrite Hin, Hip; zlia).
  destruct (literal_ok s t d l b i r Hc) as (s' & t' & d' & l' & r' & -> & Hc' & _ & Hop' & Hx); [lia|].
  exists s', t', d', l', r'. split; [done|]. split; [done|]. split; [lia|done].
Qed.

(** Three bytes of room are enough for the last two bytes of the input. *)
Lemma flush_loop_ok s t d l i r : cinv s t d l i r -> zlen i <= 2 -> op s + 3 <= out_len ->
  exists s' t' d' l' r', flush_loop inp 3 s = Some s' /\ cinv s' t' d' l' [] r' /\ op s' <= out_len.
Proof.
  intros Hc Hi Hop. destruct i as [|b i].
  { rewrite (flush_done _ _ _ _ _ _ Hc). exists s, t, d, l, r. split; [done|]. split; [done|]. lia. }
  destruct (flush_step s t d l b i r 2 Hc) as (s1 & t1 & d1 & l1 & r1 & -> & Hc1 & Hop1 & Hx1); [lia|].
  destruct i as [|b1 i].
  { rewrite (flush_done _ _ _ _ _ _ Hc1). eexists _, _, _, _, _. split; [done|]. split; [done|]. lia. }
  destruct (flush_step s1 t1 d1 l1 b1 i r1 1 Hc1) as (s2 & t2 & d2 & l2 & r2 & -> & Hc2 & Hop2 & Hx2); [lia|].
  destruct i as [|b2 i]; [|zlia]. rewrite (flush_done _ _ _ _ _ _ Hc2).
  eexists _, _, _, _, _. split; [done|]. split; [done|].
  destruct (decide (op s1 = op s + 2)) as [E1|]; [|lia]. destruct (decide (op s2 = op s1 + 2)) as [E2|]; [|lia].
  destruct (Hx1 E1) as [_ ->]. by destruct (Hx2 E2).
Qed.

(** The compressor reads and writes within its blocks, and what it writes are
    tokens of the input. *)
Lemma compress_ok out_data : 2 <= zlen inp -> zlen out_data = out_len ->
  exists out' n, lzf_compress base junk inp out_data = Some (out', n) /\ zlen out' = out_len /\ 0 <= n <= out_len /\
    (n = 0 \/ exists t r, out' = t ++ r /\ n = zlen t /\ decodes t inp).
Proof.
  intros Hin2 Hol. unfold lzf_compress. rewrite (proj2 (Z.eqb_neq (zlen inp) 0)) by lia. cbn [orb]. rewrite Hol.
  destruct (Z.eqb_spec out_len 0) as [E0|E0]; [eexists _, 0; split; [done|]; split; [done|]; split; [lia|by left]|].
  assert (0 < out_len) by (pose proof (zlen_nonneg out_data); lia).
  destruct (FRST_Some 0) as [h ->]; [lia|lia|]. cbn [mbind option_bind].
  set (s0 := {| ip := 0; op := 1; lit := 0; hval := h; htab := ∅; out := out_data |}).
  assert (Hc0 : cinv s0 [] [] [] inp out_data) by (split; [done..|constructor|done|done|by left|]; intros k; apply Hjunk).
  destruct (compress_loop_ok (length inp) s0 _ _ _ _ _ Hc0) as (res & -> & Hres); [unfold zlen; lia|]. cbn [mbind option_bind].
  destruct res as [s|s]; [eexists _, 0; split; [done|]; split; [done|]; split; [lia|by left]|].
  destruct Hres as (t & d & l & i & r & Hc & Hi). pose proof (ci_len _ _ _ _ _ _ Hc) as Hlen. rewrite Hlen.
  destruct (Z.gtb_spec (op s + 3) out_len) as [|Hop]; [eexists _, 0; split; [done|]; split; [done|]; split; [lia|by left]|].
  destruct (flush_loop_ok s t d l i r Hc Hi Hop) as (s' & t' & d' & l' & r' & -> & Hc' & Hop'). cbn [mbind option_bind].
  destruct (stop_run_ok s' t' d' l' [] r' Hc' Hop') as (t2 & r2 & -> & Hd2 & Hop2 & Hz2). cbn [mbind option_bind]. fold (nolit s').
  exists (t2 ++ r2), (op s' - nolit s'). split; [done|]. pose proof (ci_inp _ _ _ _ _ _ Hc') as Hin'. rewrite app_nil_r in Hin'.
  pose proof (zlen_nonneg t2). pose proof (zlen_nonneg r2). split; [zlia|]. split; [lia|]. right. exists t2, r2. by rewrite Hin'.
Qed.
End Encode.

(** ** Theorems *)

(** C34: Whatever the uninitialized hash table holds, a block that
    [lzf_compress] compressed (its result is not 0) is decompressed by
    [lzf_decompress] to the same bytes. *)
Theorem lzf_roundtrip base junk inp out_data out n :
  8192 <= base -> base + zlen inp <= 2 ^ 64 -> (forall i, 0 <= junk i < 2 ^ 64) -> 2 <= zlen inp < 2 ^ 32 ->
  lzf_compress base junk inp out_data = Some (out, n) -> n <> 0 ->
  lzf_decompress (take (Z.to_nat n) out) (zlen inp) = Some (inr (inp, zlen inp)).
Proof.
  intros Hb He Hj Hi Hc Hn. destruct (compress_ok base junk inp (zlen out_data) Hb He Hj out_data) as (out' & n' & Hc' & _ & _ & Hd); [lia|done|].
  rewrite Hc in Hc'. injection Hc' as <- <-. destruct Hd as [|(t & r & -> & -> & Hd)]; [done|].
  unfold zlen at 1. rewrite Nat2Z.id, take_app_length. rewrite (decompress_ok (zlen inp) t inp Hd) by lia.
  by rewrite wrapu_id by lia.
Qed.

(** On an input of at least two bytes, [lzf_compress] accesses its input
    and output blocks within their bounds for any contents of the hash table,
    and returns at most the length of the output block. *)
Theorem lzf_compress_safe base junk inp out_data :
  8192 <= base -> base + zlen inp <= 2 ^ 64 -> (forall i, 0 <= junk i < 2 ^ 64) -> 2 <= zlen inp ->
  exists out n, lzf_compress base junk inp out_data = Some (out, n) /\ zlen out = zlen out_data /\ 0 <= n <= zlen out_data.
Proof.
  intros Hb He Hj Hi. destruct (compress_ok base junk inp (zlen out_data) Hb He Hj out_data) as (out & n & Hc & Ho & Hn & _); [lia|done|].
  by exists out, n.
Qed.

Lemma decompress_safe inp out_len : Forall is_byte inp -> 0 <= out_len ->
  exists r, lzf_decompress inp out_len = Some r /\
    match r with inr (d, n) => zlen d <= out_len /\ n = u32 (zlen d) | inl e => e = EINVAL \/ e = E2BIG end.
Proof.
  intros Hb Ho. unfold lzf_decompress.
  destruct (decompress_loop_safe out_len inp (length inp) Hb 0 []) as (r & -> & Hr); [lia|unfold zlen; lia|done|].
  eexists. split; [done|]. destruct r as [[]|d]; [by left|by right|done].
Qed.

(** C35: On arbitrary bytes, [lzf_decompress] terminates and reads and writes
    within its blocks: it gives an error or an output that fits. *)
Theorem lzf_decompress_safe inp out_len : Forall is_byte inp -> 0 <= out_len ->
  exists r, lzf_decompress inp out_len = Some r /\
    match r with inr (d, n) => zlen d <= out_len /\ n = u32 (zlen d) | inl e => e = EINVAL \/ e = E2BIG end.
Proof. apply decompress_safe. Qed.

(** ** Witnesses *)

Definition sample_text : list Z :=
  [97; 98; 99; 97; 98; 99; 97; 98; 99; 97; 98; 99; 97; 98; 99; 97; 98; 99; 97; 98; 99; 97; 98; 99; 120; 121].
Definition sample_packed : list Z := [3; 97; 98; 99; 97; 224; 11; 2; 1; 120; 121].

Lemma sample_compressed : lzf_compress 65536 (fun _ => 65537) sample_text (replicate 20 0) = Some (sample_packed ++ replicate 9 0, 11).
Proof. vm_compute. reflexivity. Qed.

Lemma lzf_roundtrip_witness : lzf_decompress sample_packed 26 = Some (inr (sample_text, 26)).
Proof.
  exact (lzf_roundtrip 65536 (fun _ => 65537) sample_text (replicate 20 0) (sample_packed ++ replicate 9 0) 11
    ltac:(lia) ltac:(vm_compute; discriminate) ltac:(intros i; cbn; lia) ltac:(vm_compute; split; [discriminate|reflexivity])
    sample_compressed ltac:(discriminate)).
Defined.

Lemma lzf_compress_safe_witness :
  exists out n, lzf_compress 65536 (fun _ => 65537) sample_text (replicate 6 0) = Some (out, n) /\ zlen out = 6 /\ 0 <= n <= 6.
Proof.
  exact (lzf_compress_safe 65536 (fun _ => 65537) sample_text (replicate 6 0)
    ltac:(lia) ltac:(vm_compute; discriminate) ltac:(intros i; cbn; lia) ltac:(vm_compute; discriminate)).
Defined.

(** The reference reaches before the output. *)
Lemma lzf_decompress_safe_witness :
  exists r, lzf_decompress [0; 97; 32; 5] 10 = Some r /\
    match r with inr (d, n) => zlen d <= 10 /\ n = u32 (zlen d) | inl e => e = EINVAL \/ e = E2BIG end.
Proof.
  exact (lzf_decompress_safe [0; 97; 32; 5] 10 ltac:(repeat constructor; vm_compute; try discriminate; reflexivity) ltac:(lia)).
Defined.

(** A single byte of input: the first hash is of two bytes. *)
Lemma lzf_compress_one_byte base junk b out_data : out_data <> [] -> lzf_compress base junk [b] out_data = None.
Proof. by destruct out_data. Qed.
