(* ===== verification/Fwtree.v ===== *)
(** * Fenwick trees (src/fwtree.c)

    A tree of [size = 2 ^ size_bits] counters with prefix sums, the search of
    the counter where the cumulative sum reaches a target, and the search of
    the next non-zero counter.  kvstore keeps the sizes of its dicts in one.
    [fw_rep ft cs] says that the tree holds the counters [cs]. *)

From stdpp Require Import base list numbers option tactics.
From S2P Require Import Prelude.

(** ** Model *)

Record fenwickTree := { tree : list Z; size_bits : Z; fsize : Z; total : Z }.

Definition fwTreeCreate (sizeBits : Z) : fenwickTree :=
  {| tree := replicate (Z.to_nat (Z.shiftl 1 sizeBits + 1)) 0; size_bits := sizeBits; fsize := Z.shiftl 1 sizeBits; total := 0 |}.

(** [idx & -idx] *)
Definition lowbit (idx : Z) : Z := Z.land idx (- idx).

(** Both loops run once per bit of an [int] at most. *)
Fixpoint prefix_loop (fuel : nat) (t : list Z) (idx sum : Z) : option Z :=
  if idx >? 0 then
    match fuel with
    | O => None
    | S fuel => v ← rd t idx; prefix_loop fuel t (idx - lowbit idx) (u64 (sum + v))
    end
  else Some sum.

Definition fwTreePrefixSum (ft : fenwickTree) (idx : Z) : option Z :=
  if idx <? 0 then Some 0
  else
    let idx := if idx >=? fsize ft then fsize ft - 1 else idx in
    prefix_loop 32 (tree ft) (idx + 1) 0.

(** [None] also where the assertion on negative deltas fails. *)
Fixpoint update_loop (fuel : nat) (t : list Z) (size idx delta : Z) : option (list Z) :=
  if idx <=? size then
    match fuel with
    | O => None
    | S fuel =>
        v ← rd t idx;
        _ ← (if delta <? 0 then cassert (v >=? u64 (- delta)) else Some ());
        t ← wr t idx (u64 (v + delta));
        update_loop fuel t size (idx + lowbit idx) delta
    end
  else Some t.

Definition fwTreeUpdate (ft : fenwickTree) (idx delta : Z) : option fenwickTree :=
  if (idx <? 0) || (idx >=? fsize ft) then Some ft
  else
    t ← update_loop 33 (tree ft) (fsize ft) (idx + 1) delta;
    Some {| tree := t; size_bits := size_bits ft; fsize := fsize ft; total := u64 (total ft + delta) |}.

Fixpoint find_loop (fuel : nat) (t : list Z) (i result target : Z) : option Z :=
  if i =? 0 then Some result
  else
    match fuel with
    | O => None
    | S fuel =>
        v ← rd t (result + i);
        if target >? v then find_loop fuel t (Z.shiftr i 1) (result + i) (target - v)
        else find_loop fuel t (Z.shiftr i 1) result target
    end.

Definition fwTreeFindIndex (ft : fenwickTree) (target : Z) : option Z :=
  if target <=? 0 then Some 0 else find_loop 32 (tree ft) (Z.shiftl 1 (size_bits ft)) 0 target.

Definition fwTreeFindFirstNonEmpty (ft : fenwickTree) : option Z := fwTreeFindIndex ft 1.

Definition fwTreeFindNextNonEmpty (ft : fenwickTree) (idx : Z) : option Z :=
  if (idx <? 0) || (idx >=? fsize ft) then Some (-1)
  else
    sum ← fwTreePrefixSum ft idx;
    let next_sum := u64 (sum + 1) in
    if next_sum <=? total ft then fwTreeFindIndex ft next_sum else Some (-1).

Definition fwTreeClear (ft : fenwickTree) : fenwickTree :=
  {| tree := replicate (length (tree ft)) 0; size_bits := size_bits ft; fsize := fsize ft; total := 0 |}.

(** ** The lowest bit *)

Lemma lowbit_spec x : 0 < x -> exists k m, 0 <= k /\ 0 <= m /\ x = 2 ^ k * (2 * m + 1) /\ lowbit x = 2 ^ k.
Proof.
  induction x as [x IH] using (well_founded_induction (Z.lt_wf 0)). intros Hx.
  pose proof (Z.div_mod x 2 ltac:(lia)) as Hdm. pose proof (Z.mod_pos_bound x 2 ltac:(lia)).
  unfold lowbit in *. destruct (decide (x mod 2 = 0)) as [He|Ho].
  - destruct (IH (x / 2)) as (k & m & Hk & Hm & Hd & Hl); [lia|lia|].
    exists (k + 1), m. rewrite Z.pow_add_r by lia. split; [lia|]. split; [lia|]. split; [lia|].
    assert (Hs : forall y, 2 * y = Z.shiftl y 1) by (intros; rewrite Z.shiftl_mul_pow2; lia).
    replace x with (2 * (x / 2)) at 1 2 by lia. replace (- (2 * (x / 2))) with (2 * (- (x / 2))) by lia.
    rewrite !Hs, <- Z.shiftl_land, <- Hs, Hl. lia.
  - exists 0, (x / 2). split; [lia|]. split; [apply Z.div_pos; lia|]. split; [lia|].
    apply Z.bits_inj'. intros n Hn. rewrite Z.land_spec.
    replace x with (2 * (x / 2) + 1) at 1 by lia. replace (- x) with (2 * (Z.lnot (x / 2)) + 1) by (unfold Z.lnot; lia).
    destruct (decide (n = 0)) as [->|Hn0].
    + by rewrite !Z.testbit_odd_0.
    + replace n with (Z.succ (n - 1)) by lia. rewrite !Z.testbit_odd_succ, Z.lnot_spec by lia.
      rewrite andb_negb_r. change (2 ^ 0) with (2 * 0 + 1). by rewrite Z.testbit_odd_succ, Z.bits_0 by lia.
Qed.

Lemma odd_part_le a b c d : 0 <= a -> 0 <= c -> 2 ^ a * (2 * b + 1) = 2 ^ c * d -> c <= a.
Proof.
  intros Ha Hc He. destruct (decide (c <= a)) as [|Hgt]; [done|]. exfalso.
  replace c with (a + 1 + (c - a - 1)) in He by lia. rewrite !Z.pow_add_r in He by lia. change (2 ^ 1) with 2 in He.
  set (p := 2 ^ (c - a - 1)) in *. pose proof (Z.pow_pos_nonneg 2 a).
  assert (2 * b + 1 = 2 * (p * d)) by nia. lia.
Qed.

Lemma lowbit_eq k m : 0 <= k -> 0 <= m -> lowbit (2 ^ k * (2 * m + 1)) = 2 ^ k.
Proof.
  intros Hk Hm. pose proof (Z.pow_pos_nonneg 2 k). destruct (lowbit_spec (2 ^ k * (2 * m + 1))) as (k' & m' & Hk' & Hm' & He & ->); [nia|].
  f_equal. apply Z.le_antisymm; [by apply (odd_part_le _ m _ (2 * m' + 1))|by apply (odd_part_le _ m' _ (2 * m + 1))].
Qed.

Lemma lowbit_pos x : 0 < x -> 0 < lowbit x <= x.
Proof. intros Hx. destruct (lowbit_spec x Hx) as (k & m & Hk & Hm & He & ->). pose proof (Z.pow_pos_nonneg 2 k). nia. Qed.

(** Both loops at least double the lowest bit. *)
Lemma lowbit_double x y : 0 < x -> 0 < y -> y = x - lowbit x \/ y = x + lowbit x -> 2 * lowbit x <= lowbit y.
Proof.
  intros Hx Hy Hor. destruct (lowbit_spec x Hx) as (k & m & Hk & Hm & He & Hl).
  destruct (lowbit_spec y Hy) as (k' & m' & Hk' & Hm' & He' & Hl'). rewrite Hl, Hl' in *.
  assert (Hle : k + 1 <= k').
  { apply (odd_part_le k' m' (k + 1) (if decide (y = x - lowbit x) then m else m + 1)); [done|lia|].
    rewrite <- He', Z.pow_add_r, Hl by lia. change (2 ^ 1) with 2. destruct (decide _); lia. }
  rewrite <- Z.pow_succ_r by lia. apply Z.pow_le_mono_r; lia.
Qed.

(** Node [j] covers the places [j - lowbit j + 1] to [j].  The nodes after [i]
    that cover [i] are those that cover [i + lowbit i]. *)
Lemma cover_next i j : 0 < i -> i < j ->
  j - lowbit j < i <-> i + lowbit i <= j /\ j - lowbit j < i + lowbit i.
Proof.
  intros Hi Hj. destruct (lowbit_spec i Hi) as (a & m & Ha & Hm & Hei & ->).
  destruct (lowbit_spec j ltac:(lia)) as (b & n & Hb & Hn & Hej & ->). destruct (decide (b <= a)) as [Hba|Hba].
  - replace a with (b + (a - b)) in * by lia. rewrite Z.pow_add_r in * by lia.
    pose proof (Z.pow_pos_nonneg 2 b). set (B := 2 ^ b) in *. set (p := 2 ^ (a - b)) in *.
    assert (p * (2 * m + 1) < 2 * n + 1) by nia. assert (B * (p * (2 * m + 1)) <= B * (2 * n)) by nia. split; [lia|].
    intros [Hc1 Hc2]. assert (2 * (p * (m + 1)) <= 2 * n + 1) by nia. assert (2 * n < 2 * (p * (m + 1))) by nia. lia.
  - replace b with (a + 1 + (b - a - 1)) in * by lia. rewrite !Z.pow_add_r in * by lia. change (2 ^ 1) with 2 in *.
    pose proof (Z.pow_pos_nonneg 2 a). set (A := 2 ^ a) in *. set (p := 2 ^ (b - a - 1)) in *.
    assert (2 * m + 1 < 2 * (p * (2 * n + 1))) by nia. assert (A * (2 * m + 2) <= A * (2 * (p * (2 * n + 1)))) by nia.
    split.
    + intros Hc1. split; [lia|]. lia.
    + intros [_ Hc2]. assert (2 * (2 * (p * n)) < 2 * m + 2) by nia. assert (2 * (2 * (p * n)) <= 2 * m) by lia. nia.
Qed.

(** ** Sums *)

Definition zsum (l : list Z) : Z := foldr Z.add 0 l.
Definition psum (cs : list Z) (i : Z) : Z := zsum (take (Z.to_nat i) cs).

Lemma zsum_app a b : zsum (a ++ b) = zsum a + zsum b.
Proof. unfold zsum. induction a as [|x a IH]; cbn; [lia|]. rewrite IH. lia. Qed.

Lemma zsum_nonneg l : Forall (Z.le 0) l -> 0 <= zsum l.
Proof. unfold zsum. induction 1; cbn; lia. Qed.

Lemma psum_split cs i j : 0 <= i <= j -> psum cs j = psum cs i + zsum (take (Z.to_nat (j - i)) (drop (Z.to_nat i) cs)).
Proof.
  intros Hij. unfold psum. rewrite <- zsum_app. f_equal. replace (Z.to_nat j) with (Z.to_nat i + Z.to_nat (j - i))%nat by lia.
  by rewrite take_take_drop.
Qed.

Lemma psum_mono cs i j : Forall (Z.le 0) cs -> i <= j -> psum cs i <= psum cs j.
Proof.
  intros Hc Hij. destruct (decide (0 <= i)) as [Hi|Hi].
  - rewrite (psum_split cs i j) by lia. assert (0 <= zsum (take (Z.to_nat (j - i)) (drop (Z.to_nat i) cs))); [|lia].
    apply zsum_nonneg. by apply Forall_take, Forall_drop.
  - unfold psum at 1. replace (Z.to_nat i) with 0%nat by lia. cbn. apply zsum_nonneg. by apply Forall_take.
Qed.

Lemma psum_0 cs i : i <= 0 -> psum cs i = 0.
Proof. intros. unfold psum. by replace (Z.to_nat i) with 0%nat by lia. Qed.

Lemma psum_all cs i : zlen cs <= i -> psum cs i = zsum cs.
Proof. intros. unfold psum. rewrite take_ge; [done|]. unfold zlen in *. lia. Qed.

Lemma psum_S cs i c : 0 <= i -> rd cs i = Some c -> psum cs (i + 1) = psum cs i + c.
Proof.
  intros Hi Hc. rewrite rd_lookup in Hc by done. unfold psum. replace (Z.to_nat (i + 1)) with (S (Z.to_nat i)) by lia.
  erewrite take_S_r by done. rewrite zsum_app. cbn. lia.
Qed.

(** Changing one counter. *)
Lemma psum_insert cs k c delta i : 0 <= k -> rd cs k = Some c ->
  psum (<[Z.to_nat k := c + delta]> cs) i = psum cs i + (if k <? i then delta else 0).
Proof.
  intros Hk Hc. rewrite rd_lookup in Hc by done. unfold psum. destruct (Z.ltb_spec k i) as [Hlt|Hge].
  - rewrite take_insert_lt by lia. rewrite <- (take_drop_middle (take (Z.to_nat i) cs) (Z.to_nat k) c) at 2.
    2:{ by rewrite lookup_take_lt by lia. }
    rewrite insert_take_drop.
    + rewrite !zsum_app. cbn. lia.
    + apply lookup_lt_Some in Hc. rewrite length_take. lia.
  - rewrite take_insert_ge by lia. lia.
Qed.

(** ** Representation *)

Record fw_rep (ft : fenwickTree) (cs : list Z) : Prop := {
  fw_bits : 0 <= size_bits ft <= 30;
  fw_size : fsize ft = 2 ^ size_bits ft;
  fw_len : zlen cs = fsize ft;
  fw_nonneg : Forall (Z.le 0) cs;
  fw_total : total ft = zsum cs;
  fw_bound : zsum cs < UINT64_MAX;
  fw_tlen : zlen (tree ft) = fsize ft + 1;
  fw_node : forall i, 1 <= i <= fsize ft -> rd (tree ft) i = Some (psum cs i - psum cs (i - lowbit i)) }.

Lemma fw_size_bound ft cs : fw_rep ft cs -> 1 <= fsize ft <= 2 ^ 30.
Proof.
  intros []. rewrite fw_size0. pose proof (Z.pow_pos_nonneg 2 (size_bits ft)).
  pose proof (Z.pow_le_mono_r 2 (size_bits ft) 30). lia.
Qed.

Lemma psum_range cs i : Forall (Z.le 0) cs -> 0 <= psum cs i <= zsum cs.
Proof.
  intros Hc. split.
  - rewrite <- (psum_0 cs 0) by done. destruct (decide (0 <= i)); [by apply psum_mono|]. by rewrite !psum_0 by lia.
  - rewrite <- (psum_all cs (Z.max i (zlen cs))) by lia. apply psum_mono; [done|lia].
Qed.

Lemma fw_create_ok bits : 0 <= bits <= 30 -> fw_rep (fwTreeCreate bits) (replicate (Z.to_nat (2 ^ bits)) 0).
Proof.
  intros Hb. assert (Hz : forall n, zsum (replicate n 0) = 0) by (unfold zsum; induction n; cbn; lia).
  pose proof (Z.pow_pos_nonneg 2 bits). assert (Hsh : Z.shiftl 1 bits = 2 ^ bits) by (rewrite Z.shiftl_mul_pow2; lia).
  split; cbn [fwTreeCreate tree size_bits fsize total]; rewrite ?Hsh; try done.
  - unfold zlen. rewrite length_replicate. lia.
  - apply Forall_replicate. lia.
  - by rewrite Hz.
  - unfold zlen. rewrite length_replicate. lia.
  - intros i Hi. rewrite rd_lookup by lia. unfold psum. rewrite !take_replicate, !Hz. apply lookup_replicate_2. lia.
Qed.

Lemma fw_clear_ok ft cs : fw_rep ft cs -> fw_rep (fwTreeClear ft) (replicate (length cs) 0).
Proof.
  intros [Hb Hs Hl _ _ _ Ht _]. pose proof (fw_create_ok _ Hb) as [].
  assert (length cs = Z.to_nat (2 ^ size_bits ft)) as -> by (unfold zlen in *; lia).
  assert (Hsh : Z.shiftl 1 (size_bits ft) = 2 ^ size_bits ft) by (rewrite Z.shiftl_mul_pow2; lia).
  split; cbn [fwTreeCreate fwTreeClear tree size_bits fsize total] in *; rewrite ?Hsh, ?Hs in *; try done.
  - unfold zlen in *. rewrite length_replicate. lia.
  - replace (length (tree ft)) with (Z.to_nat (2 ^ size_bits ft + 1)) by (unfold zlen in *; lia). done.
Qed.

Lemma prefix_loop_ok ft cs fuel : fw_rep ft cs -> forall idx sum, 0 <= idx <= fsize ft ->
  (0 < idx -> 2 ^ (32 - Z.of_nat fuel) <= lowbit idx) -> (fuel <= 32)%nat -> 0 <= sum -> sum + psum cs idx < 2 ^ 64 ->
  prefix_loop fuel (tree ft) idx sum = Some (sum + psum cs idx).
Proof.
  intros Hr. pose proof (fw_size_bound _ _ Hr) as Hsz. pose proof Hr as [Hb Hs Hl Hn Ht Hbd Htl Hnode]; unfold UINT64_MAX in *.
  induction fuel as [|fuel IH]; intros idx sum Hi Hlow Hf Hs0 Hs1; cbn [prefix_loop];
    (destruct (Z.gtb_spec idx 0) as [Hpos|Hpos]; [|rewrite psum_0 by lia; f_equal; lia]).
  { specialize (Hlow Hpos). pose proof (lowbit_pos idx Hpos). change (2 ^ (32 - Z.of_nat 0)) with (2 ^ 32) in Hlow. lia. }
  rewrite Hnode by lia. cbn [mbind option_bind]. pose proof (lowbit_pos idx Hpos). pose proof (psum_range cs idx Hn).
  pose proof (psum_range cs (idx - lowbit idx) Hn). pose proof (psum_mono cs (idx - lowbit idx) idx Hn ltac:(lia)).
  rewrite wrapu_id by lia. rewrite IH; [f_equal; lia|lia| |lia|lia|lia].
  intros Hpos'. pose proof (lowbit_double idx (idx - lowbit idx) Hpos Hpos' ltac:(by left)). specialize (Hlow Hpos).
  replace (32 - Z.of_nat fuel) with (Z.succ (32 - Z.of_nat (S fuel))) by lia. rewrite Z.pow_succ_r by lia. lia.
Qed.

(** The sum of the counters up to [idx]; all of them from the last on. *)
Lemma prefix_sum_ok ft cs idx : fw_rep ft cs -> fwTreePrefixSum ft idx = Some (psum cs (idx + 1)).
Proof.
  intros Hr. pose proof (fw_size_bound _ _ Hr) as Hsz. pose proof Hr as [Hb Hs Hl Hn Ht Hbd Htl Hnode]; unfold UINT64_MAX in *. unfold fwTreePrefixSum.
  destruct (Z.ltb_spec idx 0); [by rewrite psum_0 by lia|].
  set (idx' := if idx >=? fsize ft then _ else idx).
  assert (Hi' : 0 <= idx' < fsize ft /\ psum cs (idx' + 1) = psum cs (idx + 1)).
  { unfold idx'. destruct (Z.geb_spec idx (fsize ft)); [|done]. split; [lia|]. by rewrite !psum_all by lia. }
  destruct Hi' as [Hi' <-]. pose proof (psum_range cs (idx' + 1) Hn). rewrite (prefix_loop_ok ft cs); try lia; [f_equal; lia|done|].
  intros. pose proof (lowbit_pos (idx' + 1)). change (2 ^ (32 - Z.of_nat 32)) with 1. lia.
Qed.

Lemma rd_wr t i b : 0 <= i < zlen t ->
  exists t', wr t i b = Some t' /\ zlen t' = zlen t /\ forall j, rd t' j = if decide (j = i) then Some b else rd t j.
Proof.
  intros Hi. destruct (wr_bytes_spec t i [b]) as (t' & Hw & Hl & Hin & Hout); [lia|zlia|].
  exists t'. split; [done|]. split; [done|]. intros j. destruct (decide (j = i)) as [->|Hne].
  - specialize (Hin 0 ltac:(zlia)). by rewrite Z.add_0_r in Hin.
  - apply Hout. rewrite zlen_cons, zlen_nil. lia.
Qed.

(** The loop adds [delta] to the nodes that cover the place. *)
Lemma update_loop_ok size delta fuel : size <= 2 ^ 30 -> forall t idx f, 0 < idx -> zlen t = size + 1 ->
  (idx <= size -> 2 ^ (33 - Z.of_nat fuel) <= lowbit idx) -> (fuel <= 33)%nat ->
  (forall j, 1 <= j <= size -> rd t j = Some (f j) /\ f j < 2 ^ 64) ->
  (forall j, idx <= j <= size -> j - lowbit j < idx -> 0 <= f j + delta < 2 ^ 64) ->
  exists t', update_loop fuel t size idx delta = Some t' /\ zlen t' = size + 1 /\
    forall j, 1 <= j <= size -> rd t' j = Some (f j + if (idx <=? j) && (j - lowbit j <? idx) then delta else 0).
Proof.
  intros Hsz. induction fuel as [|fuel IH]; intros t idx f Hi Hl Hlow Hf Hrd Hok; cbn [update_loop];
    (destruct (Z.leb_spec idx size) as [Hle|Hgt]; [|exists t; split; [done|]; split; [done|]; intros j Hj;
       rewrite (proj2 (Z.leb_gt idx j)) by lia; rewrite Z.add_0_r; by apply Hrd]).
  { pose proof (lowbit_pos idx Hi). specialize (Hlow Hle). change (2 ^ (33 - Z.of_nat 0)) with (2 ^ 33) in Hlow. lia. }
  pose proof (lowbit_pos idx Hi). destruct (Hrd idx) as [Hv Hvb]; [lia|]. rewrite Hv. cbn [mbind option_bind].
  pose proof (Hok idx ltac:(lia) ltac:(lia)) as Hv'.
  assert (Has : (if delta <? 0 then cassert (f idx >=? u64 (- delta)) else Some ()) = Some ()).
  { destruct (Z.ltb_spec delta 0); [|done]. rewrite wrapu_id by lia. unfold cassert.
    by destruct (Z.geb_spec (f idx) (- delta)); [|lia]. }
  rewrite Has. cbn [mbind option_bind]. rewrite wrapu_id by lia.
  destruct (rd_wr t idx (f idx + delta)) as (t' & -> & Hl' & Hrd'); [lia|]. cbn [mbind option_bind].
  set (f' := fun j => if decide (j = idx) then f idx + delta else f j).
  destruct (IH t' (idx + lowbit idx) f') as (t'' & -> & Hl'' & Hres); [lia|lia| |lia| | |].
  - intros Hle'. pose proof (lowbit_double idx (idx + lowbit idx) Hi ltac:(lia) ltac:(by right)). specialize (Hlow Hle).
    replace (33 - Z.of_nat fuel) with (Z.succ (33 - Z.of_nat (S fuel))) by lia. rewrite Z.pow_succ_r by lia. lia.
  - intros j Hj. rewrite Hrd'. unfold f'. destruct (decide (j = idx)); [split; [done|lia]|by apply Hrd].
  - intros j Hj1 Hj2. unfold f'. destruct (decide (j = idx)) as [->|Hne]; [lia|]. apply Hok; [lia|].
    apply cover_next; lia.
  - exists t''. split; [done|]. split; [done|]. intros j Hj. rewrite Hres by done. unfold f'. f_equal.
    destruct (decide (j = idx)) as [->|Hne].
    + rewrite (proj2 (Z.leb_gt (idx + lowbit idx) idx)) by lia. rewrite (proj2 (Z.leb_le idx idx)), (proj2 (Z.ltb_lt (idx - lowbit idx) idx)) by lia.
      cbn [andb]. lia.
    + f_equal. destruct (decide (idx < j)) as [Hlt|Hge].
      * pose proof (cover_next idx j Hi Hlt) as Hc. rewrite (proj2 (Z.leb_le idx j)) by lia. cbn [andb].
        destruct (Z.ltb_spec (j - lowbit j) idx).
        -- rewrite (proj2 (Z.leb_le (idx + lowbit idx) j)), (proj2 (Z.ltb_lt (j - lowbit j) _)); [done|lia|lia].
        -- destruct (Z.leb_spec (idx + lowbit idx) j); [|done]. destruct (Z.ltb_spec (j - lowbit j) (idx + lowbit idx)); [|done].
           cbn. lia.
      * rewrite (proj2 (Z.leb_gt (idx + lowbit idx) j)), (proj2 (Z.leb_gt idx j)) by lia. done.
Qed.

(** Adding [delta] to the counter at [idx]. *)
Definition add_count (cs : list Z) (idx delta : Z) : list Z := alter (Z.add delta) (Z.to_nat idx) cs.

Lemma add_count_insert cs idx c delta : 0 <= idx -> rd cs idx = Some c ->
  add_count cs idx delta = <[Z.to_nat idx := c + delta]> cs.
Proof.
  intros Hi Hc. rewrite rd_lookup in Hc by done. unfold add_count. rewrite (Z.add_comm c).
  apply list_eq. intros i. destruct (decide (i = Z.to_nat idx)) as [->|Hne].
  - rewrite list_lookup_alter_eq, Hc, list_lookup_insert_eq; [done|]. by apply lookup_lt_Some in Hc.
  - by rewrite list_lookup_alter_ne, list_lookup_insert_ne by done.
Qed.

Lemma fw_update_ok ft cs idx delta c : fw_rep ft cs -> rd cs idx = Some c -> 0 <= c + delta -> zsum cs + delta < UINT64_MAX ->
  exists ft', fwTreeUpdate ft idx delta = Some ft' /\ fw_rep ft' (add_count cs idx delta) /\ size_bits ft' = size_bits ft.
Proof.
  intros Hr Hc Hge Hlt. pose proof (fw_size_bound _ _ Hr) as Hsz. pose proof Hr as [Hb Hs Hl Hn Ht Hbd Htl Hnode]; unfold UINT64_MAX in *.
  pose proof (rd_Some_inv _ _ _ Hc) as Hi. rewrite (add_count_insert _ _ c) by (done || lia).
  set (cs' := <[Z.to_nat idx := c + delta]> cs). unfold fwTreeUpdate.
  destruct (Z.ltb_spec idx 0); [lia|]. destruct (Z.geb_spec idx (fsize ft)); [lia|]. cbn [orb].
  assert (Hps : forall i, psum cs' i = psum cs i + if idx <? i then delta else 0) by (intros; by apply psum_insert; [lia|]).
  assert (Hn' : Forall (Z.le 0) cs') by (apply Forall_insert; [done|lia]).
  assert (Hz' : zsum cs' = zsum cs + delta).
  { rewrite <- (psum_all cs' (fsize ft)), <- (psum_all cs (fsize ft)), Hps; [|lia|unfold cs', zlen in *; rewrite length_insert; lia].
    by rewrite (proj2 (Z.ltb_lt idx _)) by lia. }
  assert (Hnode' : forall j, 1 <= j -> psum cs' j - psum cs' (j - lowbit j) =
    psum cs j - psum cs (j - lowbit j) + (if (idx + 1 <=? j) && (j - lowbit j <? idx + 1) then delta else 0)).
  { intros j Hj. rewrite !Hps. pose proof (lowbit_pos j ltac:(lia)).
    destruct (Z.ltb_spec idx j), (Z.ltb_spec idx (j - lowbit j)), (Z.leb_spec (idx + 1) j), (Z.ltb_spec (j - lowbit j) (idx + 1)); cbn [andb]; lia. }
  assert (Hnn : forall j, 1 <= j -> 0 <= psum cs' j - psum cs' (j - lowbit j) < 2 ^ 64).
  { intros j Hj. pose proof (lowbit_pos j ltac:(lia)). pose proof (psum_mono cs' (j - lowbit j) j Hn' ltac:(lia)).
    pose proof (psum_range cs' j Hn'). pose proof (psum_range cs' (j - lowbit j) Hn'). lia. }
  destruct (update_loop_ok (fsize ft) delta 33 ltac:(lia) (tree ft) (idx + 1) (fun j => psum cs j - psum cs (j - lowbit j)))
    as (t' & -> & Hl' & Hres); [lia|done| |lia| | |].
  - intros. pose proof (lowbit_pos (idx + 1)). change (2 ^ (33 - Z.of_nat 33)) with 1. lia.
  - intros j Hj. split; [by apply Hnode|]. pose proof (psum_range cs j Hn). pose proof (psum_range cs (j - lowbit j) Hn). lia.
  - intros j Hj1 Hj2. specialize (Hnn j ltac:(lia)). rewrite Hnode' in Hnn by lia.
    rewrite (proj2 (Z.leb_le _ _)), (proj2 (Z.ltb_lt _ _)) in Hnn by lia. done.
  - cbn [mbind option_bind]. pose proof (zsum_nonneg cs' Hn'). rewrite Ht, wrapu_id by lia. eexists. split; [done|].
    split; [|done]. split; cbn [tree size_bits fsize total]; try done.
    + unfold cs', zlen in *. by rewrite length_insert.
    + unfold UINT64_MAX; lia.
    + intros j Hj. rewrite Hres, Hnode' by lia. done.
Qed.

Lemma find_loop_ok ft cs target fuel : fw_rep ft cs -> target <= zsum cs -> forall n result, (n < fuel)%nat ->
  Z.of_nat n <= size_bits ft -> (exists c, 0 <= c /\ result = 2 ^ (Z.of_nat n + 1) * c) -> result + 2 ^ Z.of_nat n <= fsize ft ->
  psum cs result < target <= psum cs (result + 2 ^ (Z.of_nat n + 1)) ->
  exists r, find_loop fuel (tree ft) (2 ^ Z.of_nat n) result (target - psum cs result) = Some r /\
    0 <= r < fsize ft /\ psum cs r < target <= psum cs (r + 1).
Proof.
  intros Hr Ht. pose proof (fw_size_bound _ _ Hr) as Hsz. pose proof Hr as [Hb Hs Hl Hn Htot Hbd Htl Hnode]; unfold UINT64_MAX in *.
  induction fuel as [|fuel IH]; intros n result Hf Hns (c & Hc & Hres) Hle Hin; [lia|]. cbn [find_loop].
  pose proof (Z.pow_pos_nonneg 2 (Z.of_nat n)). rewrite (proj2 (Z.eqb_neq _ 0)) by lia.
  set (i := 2 ^ Z.of_nat n) in *. assert (Hi2 : 2 ^ (Z.of_nat n + 1) = 2 * i) by (unfold i; rewrite Z.pow_add_r; lia).
  rewrite Hi2 in *. assert (Hr0 : 0 <= result) by nia. rewrite Hnode by lia. cbn [mbind option_bind].
  assert (Hlow : lowbit (result + i) = i).
  { replace (result + i) with (2 ^ Z.of_nat n * (2 * c + 1)) by (fold i; lia). apply lowbit_eq; lia. }
  rewrite Hlow, Z.add_simpl_r.
  assert (Hcase : forall res, res = (if psum cs (result + i) <? target then result + i else result) ->
    exists r, find_loop fuel (tree ft) (Z.shiftr i 1) res (target - psum cs res) = Some r /\
      0 <= r < fsize ft /\ psum cs r < target <= psum cs (r + 1)).
  { intros res Hdef.
    assert (Hfit : psum cs (result + i) < target -> result + 2 * i <= fsize ft).
    { intros Hlt. assert (result + i < fsize ft).
      { destruct (decide (result + i < fsize ft)); [done|]. rewrite psum_all in Hlt by lia. lia. }
      assert (Hp : fsize ft = i * 2 ^ (size_bits ft - Z.of_nat n)).
      { rewrite Hs. unfold i. rewrite <- Z.pow_add_r by lia. f_equal. lia. }
      set (p := 2 ^ (size_bits ft - Z.of_nat n)) in *. assert (2 * c + 1 < p) by nia. nia. }
    assert (Hinv : psum cs res < target <= psum cs (res + i) /\ 0 <= res < fsize ft /\ res + i <= fsize ft /\
      exists c', 0 <= c' /\ res = i * c').
    { subst res. destruct (Z.ltb_spec (psum cs (result + i)) target) as [Hlt|Hgt].
      - specialize (Hfit Hlt). split; [replace (result + i + i) with (result + 2 * i) by lia; lia|]. split; [lia|]. split; [lia|].
        exists (2 * c + 1). lia.
      - split; [lia|]. split; [lia|]. split; [lia|]. exists (2 * c). lia. }
    destruct Hinv as (Hin' & Hr1 & Hr2 & c' & Hc' & Hrc). destruct n as [|n].
    - change i with 1 in *. change (Z.shiftr 1 1) with 0. exists res. split; [|split; [done|]]; [by destruct fuel|].
      done.
    - assert (Hi : i = 2 ^ (Z.of_nat n + 1)) by (unfold i; f_equal; lia).
      assert (Hh : Z.shiftr i 1 = 2 ^ Z.of_nat n).
      { rewrite Z.shiftr_div_pow2, Hi, Z.pow_add_r by lia. by rewrite Z.div_mul. }
      rewrite Hh. apply IH; [lia|lia|exists c'; rewrite <- Hi; lia| |by rewrite <- Hi].
      pose proof (Z.pow_pos_nonneg 2 (Z.of_nat n)). rewrite Hi, Z.pow_add_r in Hr2 by lia. lia. }
  pose proof (psum_range cs result Hn).
  destruct (Z.gtb_spec (target - psum cs result) (psum cs (result + i) - psum cs result)) as [Hlt|Hge].
  - replace (target - psum cs result - (psum cs (result + i) - psum cs result)) with (target - psum cs (result + i)) by lia.
    apply Hcase. by rewrite (proj2 (Z.ltb_lt _ _)) by lia.
  - apply Hcase. by rewrite (proj2 (Z.ltb_ge _ _)) by lia.
Qed.

(** The counter where the cumulative sum reaches the target. *)
Lemma fw_find_ok ft cs target : fw_rep ft cs -> 1 <= target <= zsum cs ->
  exists r, fwTreeFindIndex ft target = Some r /\ 0 <= r < fsize ft /\ psum cs r < target <= psum cs (r + 1).
Proof.
  intros Hr Ht. pose proof (fw_size_bound _ _ Hr) as Hsz. pose proof Hr as [Hb Hs Hl Hn Htot Hbd Htl Hnode]; unfold UINT64_MAX in *.
  unfold fwTreeFindIndex. rewrite (proj2 (Z.leb_gt _ _)) by lia. rewrite Z.shiftl_mul_pow2, Z.mul_1_l by lia.
  destruct (find_loop_ok ft cs target 32 Hr ltac:(lia) (Z.to_nat (size_bits ft)) 0) as (r & Hf & Hres); rewrite ?Z2Nat.id by lia; try lia.
  - exists 0. lia.
  - rewrite psum_0 by lia. rewrite psum_all; [lia|]. rewrite Z.pow_add_r by lia. change (2 ^ 1) with 2. lia.
  - exists r. split; [|done]. rewrite Z2Nat.id, (psum_0 cs 0), Z.sub_0_r in Hf by lia. done.
Qed.

Lemma psum_flat cs a b j c : Forall (Z.le 0) cs -> psum cs a = psum cs b -> 0 <= a <= j -> j < b -> rd cs j = Some c -> c = 0.
Proof.
  intros Hn He Ha Hb Hc. pose proof (psum_S cs j c ltac:(lia) Hc). pose proof (psum_mono cs a j Hn ltac:(lia)).
  pose proof (psum_mono cs (j + 1) b Hn ltac:(lia)). pose proof (psum_mono cs j (j + 1) Hn ltac:(lia)). lia.
Qed.

(** [r] is the first place from [a] on with a counter that is not 0, or -1. *)
Definition first_nonzero (cs : list Z) (a r : Z) : Prop :=
  (r = -1 /\ (forall j, a <= j < zlen cs -> rd cs j = Some 0)) \/
  (a <= r < zlen cs /\ (exists c, rd cs r = Some c /\ 0 < c) /\ (forall j, a <= j < r -> rd cs j = Some 0)).

Lemma first_nonzero_psum cs a r : Forall (Z.le 0) cs -> 0 <= a -> 0 <= r < zlen cs ->
  psum cs r < psum cs a + 1 <= psum cs (r + 1) -> first_nonzero cs a r.
Proof.
  intros Hn Ha Hr Hp. right. assert (Har : a <= r).
  { destruct (decide (a <= r)); [done|]. pose proof (psum_mono cs (r + 1) a Hn ltac:(lia)). lia. }
  pose proof (psum_mono cs a r Hn ltac:(lia)). split; [lia|]. split.
  - destruct (rd_Some cs r) as [c Hc]; [lia|]. exists c. split; [done|]. pose proof (psum_S cs r c ltac:(lia) Hc). lia.
  - intros j Hj. destruct (rd_Some cs j) as [c Hc]; [lia|]. rewrite Hc. f_equal.
    apply (psum_flat cs a r j c Hn ltac:(lia)); [lia|lia|done].
Qed.

Lemma fw_find_first_ok ft cs : fw_rep ft cs -> 0 < zsum cs ->
  exists r, fwTreeFindFirstNonEmpty ft = Some r /\ 0 <= r /\ first_nonzero cs 0 r.
Proof.
  intros Hr Hz. destruct (fw_find_ok ft cs 1 Hr) as (r & Hf & Hb & Hp); [lia|]. exists r. split; [done|]. split; [lia|].
  apply first_nonzero_psum; [by apply (fw_nonneg _ _ Hr)|lia|by rewrite (fw_len _ _ Hr)|]. by rewrite (psum_0 cs 0).
Qed.

Lemma fw_find_next_ok ft cs idx : fw_rep ft cs -> 0 <= idx < fsize ft ->
  exists r, fwTreeFindNextNonEmpty ft idx = Some r /\ first_nonzero cs (idx + 1) r.
Proof.
  intros Hr Hi. pose proof Hr as [Hb Hs Hl Hn Htot Hbd Htl Hnode]; unfold UINT64_MAX in *. unfold fwTreeFindNextNonEmpty.
  destruct (Z.ltb_spec idx 0); [lia|]. destruct (Z.geb_spec idx (fsize ft)); [lia|]. cbn [orb].
  rewrite (prefix_sum_ok ft cs idx Hr). cbn [mbind option_bind]. pose proof (psum_range cs (idx + 1) Hn) as Hp.
  assert (Hlast : psum cs (idx + 1) = zsum cs -> first_nonzero cs (idx + 1) (-1)).
  { intros He. left. split; [done|]. intros j Hj. destruct (rd_Some cs j) as [c Hc]; [lia|]. rewrite Hc. f_equal.
    apply (psum_flat cs (idx + 1) (fsize ft) j c Hn); [|lia|lia|done]. rewrite He. by rewrite psum_all by lia. }
  rewrite Htot. rewrite wrapu_id by lia. destruct (Z.leb_spec (psum cs (idx + 1) + 1) (zsum cs)) as [Hle|Hgt].
  - destruct (fw_find_ok ft cs (psum cs (idx + 1) + 1) Hr) as (r & -> & Hb' & Hp'); [lia|]. exists r. split; [done|].
    apply first_nonzero_psum; [done|lia|lia|done].
  - exists (-1). split; [done|]. apply Hlast. lia.
Qed.

(** ** Theorems *)

(** A sequence of updates, and the counters it is meant to leave. *)
Fixpoint run_updates (ft : fenwickTree) (us : list (Z * Z)) : option fenwickTree :=
  match us with
  | [] => Some ft
  | (idx, delta) :: us => ft ← fwTreeUpdate ft idx delta; run_updates ft us
  end.

Fixpoint counters (cs : list Z) (us : list (Z * Z)) : list Z :=
  match us with
  | [] => cs
  | (idx, delta) :: us => counters (add_count cs idx delta) us
  end.

(** No counter becomes negative and the sum stays within its type. *)
Fixpoint valid_updates (cs : list Z) (us : list (Z * Z)) : bool :=
  match us with
  | [] => true
  | (idx, delta) :: us =>
      match rd cs idx with
      | Some c => (0 <=? c + delta) && (zsum cs + delta <? UINT64_MAX) && valid_updates (add_count cs idx delta) us
      | None => false
      end
  end.

Lemma run_updates_ok us : forall ft cs, fw_rep ft cs -> valid_updates cs us = true ->
  exists ft', run_updates ft us = Some ft' /\ fw_rep ft' (counters cs us).
Proof.
  induction us as [|[idx delta] us IH]; intros ft cs Hr Hv; cbn [run_updates valid_updates counters] in *; [by exists ft|].
  destruct (rd cs idx) as [c|] eqn:Hc; [|done]. apply andb_prop in Hv as [Hv Hu]. apply andb_prop in Hv as [H0 H1].
  apply Z.leb_le in H0. apply Z.ltb_lt in H1. destruct (fw_update_ok ft cs idx delta c Hr Hc H0 H1) as (ft' & -> & Hr' & _).
  cbn [mbind option_bind]. by apply IH.
Qed.

(** C33: After any updates at valid indices that leave every counter non-negative and
    the total below [2^64 - 1] ([valid_updates]), on a tree of up to [2^30] counters, no
    assertion of [fwTreeUpdate] failed, and the tree answers every prefix sum and the
    total as the plain sums of the counters do. *)
Theorem fwTree_prefix_sums bits us idx : 0 <= bits <= 30 -> valid_updates (replicate (Z.to_nat (2 ^ bits)) 0) us = true ->
  let cs := counters (replicate (Z.to_nat (2 ^ bits)) 0) us in
  exists ft, run_updates (fwTreeCreate bits) us = Some ft /\ total ft = zsum cs /\
    fwTreePrefixSum ft idx = Some (zsum (take (Z.to_nat (idx + 1)) cs)).
Proof.
  intros Hb Hv cs. destruct (run_updates_ok us _ _ (fw_create_ok bits Hb) Hv) as (ft & Hft & Hr). exists ft.
  split; [done|]. split; [by apply (fw_total _ _ Hr)|]. by apply prefix_sum_ok.
Qed.

(** In a tree of counters, [fwTreeFindIndex] finds the counter where the
    cumulative sum reaches the target, and [fwTreeFindNextNonEmpty] the next
    counter that is not 0, or -1 when there is none; neither leaves the array. *)
Theorem fwTree_searches ft cs target idx : fw_rep ft cs -> 1 <= target <= zsum cs -> 0 <= idx < fsize ft ->
  (exists r, fwTreeFindIndex ft target = Some r /\ psum cs r < target <= psum cs (r + 1)) /\
  (exists r, fwTreeFindNextNonEmpty ft idx = Some r /\ first_nonzero cs (idx + 1) r).
Proof.
  intros Hr Ht Hi. split; [|by apply fw_find_next_ok].
  destruct (fw_find_ok ft cs target Hr Ht) as (r & Hf & _ & Hp). by exists r.
Qed.

(** ** Witnesses *)

Definition sample_updates : list (Z * Z) := [(0, 5); (2, 3); (4, 7); (6, 2); (2, -1)].
Definition sample_tree : fenwickTree := default (fwTreeCreate 3) (run_updates (fwTreeCreate 3) sample_updates).

Lemma sample_tree_rep : fw_rep sample_tree [5; 0; 2; 0; 7; 0; 2; 0].
Proof.
  destruct (run_updates_ok sample_updates _ _ (fw_create_ok 3 ltac:(lia)) eq_refl) as (ft & Hft & Hr).
  unfold sample_tree. by rewrite Hft.
Qed.

Lemma fwTree_prefix_sums_witness :
  exists ft, run_updates (fwTreeCreate 3) sample_updates = Some ft /\ total ft = 16 /\ fwTreePrefixSum ft 4 = Some 14.
Proof. exact (fwTree_prefix_sums 3 sample_updates 4 ltac:(lia) eq_refl). Defined.

Lemma fwTree_searches_witness :
  (exists r, fwTreeFindIndex sample_tree 7 = Some r /\ psum [5; 0; 2; 0; 7; 0; 2; 0] r < 7 <= psum [5; 0; 2; 0; 7; 0; 2; 0] (r + 1)) /\
  (exists r, fwTreeFindNextNonEmpty sample_tree 2 = Some r /\ first_nonzero [5; 0; 2; 0; 7; 0; 2; 0] 3 r).
Proof.
  exact (fwTree_searches sample_tree _ 7 2 sample_tree_rep ltac:(vm_compute; split; discriminate)
    ltac:(vm_compute; split; [discriminate|reflexivity])).
Defined.
