(* ===== verification/Kvstore.v ===== *)
(** * Arrays of dicts (src/kvstore.c)

    The keyspace is a kvstore: one dict per hash slot, created and freed on
    demand, with the number of keys of each dict in a Fenwick tree.  The
    functions of [kvstoreType] are caller supplied: [can_free] is [canFreeDict]
    (a NULL member is the constant [true]); the others do not touch the kvstore.

    Left out are the fields that the notifications of dict.c maintain: the list
    of rehashing dicts, [bucket_count] and [overhead_hashtable_rehashing].

    [None] is an access outside of the array, the use of a NULL dict or a failed
    assert. *)

From stdpp Require Import base list numbers option tactics gmap.
From S2P Require Import Prelude Dict DictIter DictScan Fwtree.

Section Kvstore.
Context {K V : Type} `{EqDecision K}.
Context (hash : K -> Z) (resize_allowed : Z -> Z -> Z -> bool) (force_full_rehash : bool) (can_resize : dictResizeEnable)
  (can_free : Z -> bool).

Abbreviation dict := (dict K V).

(** [dicts], NULL being [None]; the flags [KVSTORE_ALLOCATE_DICTS_ON_DEMAND] and
    [KVSTORE_FREE_EMPTY_DICTS]. *)
Record kvstore := {
  dicts : list (option dict); num_dicts : Z; num_dicts_bits : Z; resize_cursor : Z;
  allocated_dicts : Z; non_empty_dicts : Z; key_count : Z; dict_sizes : option fenwickTree;
  on_demand : bool; free_empty : bool }.

Definition set_dicts (kvs : kvstore) (ds : list (option dict)) (alloc : Z) : kvstore :=
  {| dicts := ds; num_dicts := num_dicts kvs; num_dicts_bits := num_dicts_bits kvs; resize_cursor := resize_cursor kvs;
     allocated_dicts := alloc; non_empty_dicts := non_empty_dicts kvs; key_count := key_count kvs;
     dict_sizes := dict_sizes kvs; on_demand := on_demand kvs; free_empty := free_empty kvs |}.

Definition set_counts (kvs : kvstore) (keys non_empty : Z) (sizes : option fenwickTree) : kvstore :=
  {| dicts := dicts kvs; num_dicts := num_dicts kvs; num_dicts_bits := num_dicts_bits kvs; resize_cursor := resize_cursor kvs;
     allocated_dicts := allocated_dicts kvs; non_empty_dicts := non_empty; key_count := keys;
     dict_sizes := sizes; on_demand := on_demand kvs; free_empty := free_empty kvs |}.

Definition set_cursor (kvs : kvstore) (cursor : Z) : kvstore :=
  {| dicts := dicts kvs; num_dicts := num_dicts kvs; num_dicts_bits := num_dicts_bits kvs; resize_cursor := cursor;
     allocated_dicts := allocated_dicts kvs; non_empty_dicts := non_empty_dicts kvs; key_count := key_count kvs;
     dict_sizes := dict_sizes kvs; on_demand := on_demand kvs; free_empty := free_empty kvs |}.

(** ** Helpers *)

Definition kvstoreGetDict (kvs : kvstore) (didx : Z) : option (option dict) :=
  if 0 <=? didx then dicts kvs !! Z.to_nat didx else None.

(** The dict at an index changed in place. *)
Definition put_dict (kvs : kvstore) (didx : Z) (d : dict) : kvstore :=
  set_dicts kvs (<[Z.to_nat didx := Some d]> (dicts kvs)) (allocated_dicts kvs).

Definition addDictIndexToCursor (kvs : kvstore) (didx cursor : Z) : Z :=
  if num_dicts kvs =? 1 then cursor
  else if didx <? 0 then cursor
  else Z.lor (u64 (Z.shiftl cursor (num_dicts_bits kvs))) didx.

(** The dict index and the cursor left. *)
Definition getAndClearDictIndexFromCursor (kvs : kvstore) (cursor : Z) : Z * Z :=
  if num_dicts kvs =? 1 then (0, cursor)
  else (Z.land cursor (num_dicts kvs - 1), Z.shiftr cursor (num_dicts_bits kvs)).

Definition cumulativeKeyCountAdd (kvs : kvstore) (didx delta : Z) : option kvstore :=
  let keys := u64 (key_count kvs + delta) in
  od ← kvstoreGetDict kvs didx;
  d ← od;
  let dsize := dictSize d in
  let non_empty_dicts_delta := if (dsize =? 1) && (delta >? 0) then 1 else if dsize =? 0 then -1 else 0 in
  let non_empty := non_empty_dicts kvs + non_empty_dicts_delta in
  if num_dicts kvs =? 1 then Some (set_counts kvs keys non_empty (dict_sizes kvs))
  else
    match dict_sizes kvs with
    | Some ft => ft ← fwTreeUpdate ft didx delta; Some (set_counts kvs keys non_empty (Some ft))
    | None => Some (set_counts kvs keys non_empty None)
    end.

Definition createDictIfNeeded (kvs : kvstore) (didx : Z) : option (kvstore * dict) :=
  od ← kvstoreGetDict kvs didx;
  match od with
  | Some d => Some (kvs, d)
  | None => Some (set_dicts kvs (<[Z.to_nat didx := Some dictCreate]> (dicts kvs)) (allocated_dicts kvs + 1), dictCreate)
  end.

Definition kvstoreDictSize (kvs : kvstore) (didx : Z) : option Z :=
  od ← kvstoreGetDict kvs didx;
  Some (match od with Some d => dictSize d | None => 0 end).

Definition freeDictIfNeeded (kvs : kvstore) (didx : Z) : option kvstore :=
  od ← kvstoreGetDict kvs didx;
  match od with
  | None => Some kvs
  | Some d =>
      if negb (free_empty kvs) || negb (dictSize d =? 0) || (pauserehash d >? 0) then Some kvs
      else if negb (can_free didx) then Some kvs
      else Some (set_dicts kvs (<[Z.to_nat didx := None]> (dicts kvs)) (allocated_dicts kvs - 1))
  end.

(** ** Creation *)

Definition kvstoreCreate (bits : Z) (on_demand free_empty : bool) : option kvstore :=
  _ ← cassert (bits <=? 16);
  let n := Z.shiftl 1 bits in
  Some {| dicts := replicate (Z.to_nat n) (if on_demand then None else Some dictCreate);
          num_dicts := n; num_dicts_bits := bits; resize_cursor := 0;
          allocated_dicts := if on_demand then 0 else n; non_empty_dicts := 0; key_count := 0;
          dict_sizes := if n >? 1 then Some (fwTreeCreate bits) else None;
          on_demand := on_demand; free_empty := free_empty |}.

(** The loop of [kvstoreEmpty] over the dicts from [didx] on. *)
Fixpoint empty_loop (n : nat) (kvs : kvstore) (didx : Z) : option kvstore :=
  match n with
  | O => Some kvs
  | S n =>
      od ← kvstoreGetDict kvs didx;
      match od with
      | None => empty_loop n kvs (didx + 1)
      | Some d =>
          '(_, d) ← dictEmpty d;
          kvs ← freeDictIfNeeded (put_dict kvs didx d) didx;
          empty_loop n kvs (didx + 1)
      end
  end.

Definition kvstoreEmpty (kvs : kvstore) : option kvstore :=
  kvs ← empty_loop (Z.to_nat (num_dicts kvs)) kvs 0;
  Some (set_counts (set_cursor kvs 0) 0 0 (fwTreeClear <$> dict_sizes kvs)).

Definition kvstoreSize (kvs : kvstore) : Z := key_count kvs.
Definition kvstoreNumNonEmptyDicts (kvs : kvstore) : Z := non_empty_dicts kvs.
Definition kvstoreNumAllocatedDicts (kvs : kvstore) : Z := allocated_dicts kvs.

(** ** Searching dicts by their sizes *)

Definition kvstoreFindDictIndexByKeyIndex (kvs : kvstore) (target : Z) : option Z :=
  if (num_dicts kvs =? 1) || (kvstoreSize kvs =? 0) then Some 0
  else
    _ ← cassert (target <=? kvstoreSize kvs);
    ft ← dict_sizes kvs;
    fwTreeFindIndex ft target.

Definition kvstoreGetFirstNonEmptyDictIndex (kvs : kvstore) : option Z :=
  if kvstoreSize kvs =? 0 then Some (-1)
  else if num_dicts kvs =? 1 then Some 0
  else ft ← dict_sizes kvs; fwTreeFindFirstNonEmpty ft.

Definition kvstoreGetNextNonEmptyDictIndex (kvs : kvstore) (didx : Z) : option Z :=
  if num_dicts kvs =? 1 then (_ ← cassert (didx =? 0); Some (-1))
  else
    match dict_sizes kvs with
    | Some ft => fwTreeFindNextNonEmpty ft didx
    | None => Some (-1)
    end.

(** [rand] are the values of [genrand64_int64], one per attempt. *)
Fixpoint fair_loop (n : nat) (kvs : kvstore) (skip : Z -> bool) (rand : list Z) : option (option Z) :=
  match n with
  | O => Some None
  | S n =>
      r ← head rand;
      didx ← kvstoreFindDictIndexByKeyIndex kvs (r mod kvstoreSize kvs + 1);
      if negb (skip didx) then Some (Some didx) else fair_loop n kvs skip (tail rand)
  end.

Fixpoint systematic_loop (n : nat) (kvs : kvstore) (skip : Z -> bool) (start i : Z) : option (option Z) :=
  match n with
  | O => Some None
  | S n =>
      let didx := (start + i) mod num_dicts kvs in
      od ← kvstoreGetDict kvs didx;
      if bool_decide (is_Some od) && negb (skip didx) then Some (Some didx)
      else systematic_loop n kvs skip start (i + 1)
  end.

(** A NULL [skip_cb] is the constant [false]. *)
Definition kvstoreGetFairRandomDictIndex (kvs : kvstore) (skip : Z -> bool) (fair_attempts : nat) (slow_fallback : bool)
    (rand : list Z) (rstart : Z) : option Z :=
  if (num_dicts kvs =? 1) || (kvstoreSize kvs =? 0) then Some 0
  else
    r ← fair_loop fair_attempts kvs skip rand;
    match r with
    | Some didx => Some didx
    | None =>
        if slow_fallback then
          r ← systematic_loop (Z.to_nat (num_dicts kvs)) kvs skip (rstart mod num_dicts kvs) 0;
          Some (default (-1) r)
        else Some (-1)
    end.

(** ** Keys *)

Definition kvstoreDictFind (kvs : kvstore) (didx : Z) (k : K) : option (kvstore * option (K * V)) :=
  od ← kvstoreGetDict kvs didx;
  match od with
  | None => Some (kvs, None)
  | Some d => '(d, r) ← dictFind hash can_resize d k; Some (put_dict kvs didx d, r)
  end.

Definition kvstoreDictFetchValue (kvs : kvstore) (didx : Z) (k : K) : option (kvstore * option V) :=
  od ← kvstoreGetDict kvs didx;
  match od with
  | None => Some (kvs, None)
  | Some d => '(d, r) ← dictFetchValue hash can_resize d k; Some (put_dict kvs didx d, r)
  end.

(** [kvstoreDictFindLink] with a [bucket] argument. *)
Definition kvstoreDictFindLink (kvs : kvstore) (didx : Z) (k : K) : option (kvstore * option link * option (bool * Z)) :=
  od ← kvstoreGetDict kvs didx;
  match od with
  | None => Some (kvs, None, None)
  | Some d => '(d, l, b) ← dictFindLink hash can_resize d k true; Some (put_dict kvs didx d, l, b)
  end.

Definition kvstoreDictSetAtLink (kvs : kvstore) (didx : Z) (k : K) (v : V) (l : key_link) : option kvstore :=
  match l with
  | NewItem _ =>
      '(kvs, d) ← createDictIfNeeded kvs didx;
      d ← dictSetKeyAtLink hash resize_allowed force_full_rehash can_resize d k v l;
      cumulativeKeyCountAdd (put_dict kvs didx d) didx 1
  | ExistingItem _ =>
      od ← kvstoreGetDict kvs didx;
      d ← od;
      d ← dictSetKeyAtLink hash resize_allowed force_full_rehash can_resize d k v l;
      Some (put_dict kvs didx d)
  end.

(** Whether a new entry was returned; the caller then stores [v] in it. *)
Definition kvstoreDictAddRaw (kvs : kvstore) (didx : Z) (k : K) (v : V) : option (kvstore * bool) :=
  '(kvs, d) ← createDictIfNeeded kvs didx;
  '(d, existing) ← dictAddRaw hash resize_allowed force_full_rehash can_resize d k v;
  let kvs := put_dict kvs didx d in
  match existing with
  | None => kvs ← cumulativeKeyCountAdd kvs didx 1; Some (kvs, true)
  | Some _ => Some (kvs, false)
  end.

Definition kvstoreDictTwoPhaseUnlinkFind (kvs : kvstore) (didx : Z) (k : K) : option (kvstore * option link) :=
  od ← kvstoreGetDict kvs didx;
  match od with
  | None => Some (kvs, None)
  | Some d => '(d, l) ← dictTwoPhaseUnlinkFind hash can_resize d k; Some (put_dict kvs didx d, l)
  end.

Definition kvstoreDictTwoPhaseUnlinkFree (kvs : kvstore) (didx : Z) (l : option link) : option kvstore :=
  od ← kvstoreGetDict kvs didx;
  d ← od;
  d ← dictTwoPhaseUnlinkFree hash resize_allowed force_full_rehash can_resize d l;
  kvs ← cumulativeKeyCountAdd (put_dict kvs didx d) didx (-1);
  freeDictIfNeeded kvs didx.

(** The boolean is [DICT_OK]. *)
Definition kvstoreDictDelete (kvs : kvstore) (didx : Z) (k : K) : option (kvstore * bool) :=
  od ← kvstoreGetDict kvs didx;
  match od with
  | None => Some (kvs, false)
  | Some d =>
      '(d, ok) ← dictDelete hash resize_allowed force_full_rehash can_resize d k;
      let kvs := put_dict kvs didx d in
      if (ok : bool) then
        kvs ← cumulativeKeyCountAdd kvs didx (-1);
        kvs ← freeDictIfNeeded kvs didx;
        Some (kvs, true)
      else Some (kvs, false)
  end.

(** ** Moving a dict to another kvstore *)

Definition kvstoreMoveDict (kvs dst : kvstore) (didx : Z) : option (kvstore * kvstore) :=
  _ ← cassert (num_dicts kvs >? didx);
  _ ← cassert (num_dicts kvs =? num_dicts dst);
  dd ← kvstoreGetDict dst didx;
  _ ← cassert (negb (bool_decide (is_Some dd)));
  od ← kvstoreGetDict kvs didx;
  match od with
  | None => Some (kvs, dst)
  | Some d =>
      let kvs := set_dicts kvs (dicts kvs) (allocated_dicts kvs - 1) in
      kvs ← cumulativeKeyCountAdd kvs didx (- dictSize d);
      let kvs := set_dicts kvs (<[Z.to_nat didx := None]> (dicts kvs)) (allocated_dicts kvs) in
      kvs ← (if on_demand kvs || free_empty kvs then Some kvs else '(kvs, _) ← createDictIfNeeded kvs didx; Some kvs);
      let dst := set_dicts dst (<[Z.to_nat didx := Some d]> (dicts dst)) (allocated_dicts dst + 1) in
      dst ← cumulativeKeyCountAdd dst didx (dictSize d);
      Some (kvs, dst)
  end.

(** ** Resizing *)

Fixpoint try_resize_loop (n : nat) (kvs : kvstore) : option kvstore :=
  match n with
  | O => Some kvs
  | S n =>
      let didx := resize_cursor kvs in
      od ← kvstoreGetDict kvs didx;
      kvs ← match od with
            | None => Some kvs
            | Some d =>
                '(d, ok) ← dictShrinkIfNeeded hash resize_allowed force_full_rehash can_resize d;
                d ← (if (ok : bool) then Some d
                     else '(d, _) ← dictExpandIfNeeded hash resize_allowed force_full_rehash can_resize d; Some d);
                Some (put_dict kvs didx d)
            end;
      try_resize_loop n (set_cursor kvs ((didx + 1) mod num_dicts kvs))
  end.

Definition kvstoreTryResizeDicts (kvs : kvstore) (limit : Z) : option kvstore :=
  let limit := if limit >? num_dicts kvs then num_dicts kvs else limit in
  try_resize_loop (Z.to_nat limit) kvs.

(** ** Scanning *)

(** The new cursor, the kvstore and the entries given to the callback, which
    does not change the kvstore. *)
Definition kvstoreScan (kvs : kvstore) (cursor onlydidx : Z) (skip : dict -> Z -> bool)
    : option (Z * kvstore * list (K * V)) :=
  let '(didx, cursor) := getAndClearDictIndexFromCursor kvs cursor in
  if (onlydidx >=? 0) && (didx >? onlydidx) then Some (0, kvs, [])
  else
    '(didx, cursor) ←
      (if (onlydidx >=? 0) && (didx <? onlydidx) then (_ ← cassert (onlydidx <? num_dicts kvs); Some (onlydidx, 0))
       else Some (didx, cursor));
    od ← kvstoreGetDict kvs didx;
    let skipped := match od with Some d => skip d didx | None => true end in
    '(_cursor, kvs, emitted) ←
      match od with
      | Some d =>
          if skip d didx then Some (0, kvs, [])
          else
            '(c, es) ← dictScan d cursor;
            kvs ← freeDictIfNeeded kvs didx;
            Some (c, kvs, es)
      | None => Some (0, kvs, [])
      end;
    if (_cursor =? 0) || skipped then
      if onlydidx >=? 0 then Some (0, kvs, emitted)
      else
        didx ← kvstoreGetNextNonEmptyDictIndex kvs didx;
        if didx =? -1 then Some (0, kvs, emitted)
        else Some (addDictIndexToCursor kvs didx _cursor, kvs, emitted)
    else Some (addDictIndexToCursor kvs didx _cursor, kvs, emitted).

(** ** Iterators *)

(** [di] is the safe iterator over the dict at [kit_didx], [None] while [di.d]
    is NULL. *)
Record kvstoreIterator := { kit_didx : Z; kit_next_didx : Z; kit_di : option (dictIterator (K := K) (V := V)) }.

Definition kvstoreIteratorInit (kvs : kvstore) : option kvstoreIterator :=
  next ← kvstoreGetFirstNonEmptyDictIndex kvs;
  Some {| kit_didx := -1; kit_next_didx := next; kit_di := None |}.

(** [dictResetIterator] on the dict at [didx]. *)
Definition reset_di (kvs : kvstore) (didx : Z) (di : option (dictIterator (K := K) (V := V))) : option kvstore :=
  match di with
  | None => Some kvs
  | Some it => od ← kvstoreGetDict kvs didx; d ← od; Some (put_dict kvs didx (dictResetIterator d it))
  end.

Definition kvstoreIteratorReset (kvs : kvstore) (it : kvstoreIterator) : option kvstore :=
  kvs ← reset_di kvs (kit_didx it) (kit_di it);
  if negb (kit_didx it =? -1) then freeDictIfNeeded kvs (kit_didx it) else Some kvs.

(** [None] in the result is the NULL dict at the end. *)
Definition kvstoreIteratorNextDict (kvs : kvstore) (it : kvstoreIterator)
    : option (kvstore * kvstoreIterator * option dict) :=
  if kit_next_didx it =? -1 then Some (kvs, it, None)
  else
    kvs ← (if negb (kit_didx it =? -1) then
             od ← kvstoreGetDict kvs (kit_didx it);
             match od with
             | Some _ => kvs ← reset_di kvs (kit_didx it) (kit_di it); freeDictIfNeeded kvs (kit_didx it)
             | None => Some kvs
             end
           else Some kvs);
    let didx := kit_next_didx it in
    next ← kvstoreGetNextNonEmptyDictIndex kvs didx;
    od ← kvstoreGetDict kvs didx;
    Some (kvs, {| kit_didx := didx; kit_next_didx := next; kit_di := kit_di it |}, od).

(** [dictNext] on the dict at the iterator's index. *)
Definition next_in (kvs : kvstore) (it : kvstoreIterator) (di : dictIterator (K := K) (V := V))
    : option (kvstore * kvstoreIterator * option (K * V)) :=
  od ← kvstoreGetDict kvs (kit_didx it);
  d ← od;
  '(d', di, de) ← dictNext (next_fuel d) d di;
  Some (put_dict kvs (kit_didx it) d', {| kit_didx := kit_didx it; kit_next_didx := kit_next_didx it; kit_di := Some di |}, de).

Definition kvstoreIteratorNext (kvs : kvstore) (it : kvstoreIterator) : option (kvstore * kvstoreIterator * option (K * V)) :=
  '(kvs, it, de) ← match kit_di it with Some di => next_in kvs it di | None => Some (kvs, it, None) end;
  match de with
  | Some _ => Some (kvs, it, de)
  | None =>
      '(kvs, it, od) ← kvstoreIteratorNextDict kvs it;
      match od with
      | None => Some (kvs, it, None)
      | Some _ => next_in kvs it dictInitSafeIterator
      end
  end.
End Kvstore.

Arguments kvstore : clear implicits.
Arguments kvstoreIterator : clear implicits.
