(* ===== verification/KvstoreSpec.v ===== *)
(** * kvstore: the keyspace as an array of maps

    [slot_maps kvs] are the maps that the dicts of a kvstore stand for.
    [kv_ok kvs] says that every dict is well-formed and that the counters (keys,
    non-empty and allocated dicts, the Fenwick tree of sizes) are exact. *)

From stdpp Require Import base list numbers option tactics gmap.
From S2P Require Import Prelude Dict DictInv DictMap DictIter DictScan Fwtree Kvstore.

(** ** Sums over a list *)

Lemma zsum_insert {A} (f : A -> Z) l i x y : l !! i = Some x ->
  zsum (f <$> <[i := y]> l) = zsum (f <$> l) - f x + f y.
Proof.
  intros Hi. rewrite <- (take_drop_middle l i x Hi) at 2. rewrite insert_take_drop by (by apply lookup_lt_Some in Hi).
  rewrite !fmap_app, !fmap_cons, !zsum_app. cbn. lia.
Qed.

Lemma zsum_const {A} (f : A -> Z) c l : Forall (fun x => f x = c) l -> zsum (f <$> l) = c * zlen l.
Proof.
  induction 1 as [|x l Hx _ IH]; [by rewrite (zlen_nil (A:=A)), Z.mul_0_r|]. rewrite fmap_cons, zlen_cons.
  change (f x + zsum (f <$> l) = c * (1 + zlen l)). rewrite IH, Hx. lia.
Qed.

Section Spec.
Context {K V : Type} `{Countable K}.
Context (hash : K -> Z) (can_free : Z -> bool).

Abbreviation dict := (dict K V).
Abbreviation kvstore := (kvstore K V).
Abbreviation dict_wf := (dict_wf (V:=V) hash).

(** The map of a slot: empty where there is no dict. *)
Definition slot_map (od : option dict) : gmap K V := match od with Some d => dict_map d | None => ∅ end.
Definition slot_maps (kvs : kvstore) : list (gmap K V) := slot_map <$> dicts kvs.

Definition msize (m : gmap K V) : Z := Z.of_nat (size m).
Definition is_alloc (od : option dict) : Z := match od with Some _ => 1 | None => 0 end.
Definition nonempty (m : gmap K V) : Z := if msize m =? 0 then 0 else 1.

(** The kvstore with counters that account for [cs] keys per dict. *)
Record kv_shape (kvs : kvstore) (cs : list Z) : Prop := {
  ks_bits : 0 <= num_dicts_bits kvs <= 16;
  ks_num : num_dicts kvs = 2 ^ num_dicts_bits kvs;
  ks_len : zlen (dicts kvs) = num_dicts kvs;
  ks_wf : forall i d, dicts kvs !! i = Some (Some d) -> dict_wf d;
  ks_alloc : allocated_dicts kvs = zsum (is_alloc <$> dicts kvs);
  ks_cursor : 0 <= resize_cursor kvs < num_dicts kvs;
  ks_cs : zlen cs = num_dicts kvs;
  ks_nonneg : Forall (Z.le 0) cs;
  ks_count : key_count kvs = zsum cs;
  ks_bound : zsum cs < UINT64_MAX;
  ks_fw : num_dicts kvs = 1 /\ dict_sizes kvs = None \/
          num_dicts kvs <> 1 /\ exists ft, dict_sizes kvs = Some ft /\ fw_rep ft cs }.

Definition kv_core (kvs : kvstore) : Prop := kv_shape kvs (msize <$> slot_maps kvs).
Definition kv_ok (kvs : kvstore) : Prop := kv_core kvs /\ non_empty_dicts kvs = zsum (nonempty <$> slot_maps kvs).

Lemma num_pos kvs cs : kv_shape kvs cs -> 1 <= num_dicts kvs.
Proof. intros Hs. rewrite (ks_num _ _ Hs). pose proof (ks_bits _ _ Hs). pose proof (Z.pow_pos_nonneg 2 (num_dicts_bits kvs)). lia. Qed.

Lemma get_dict_Some kvs cs didx : kv_shape kvs cs -> 0 <= didx < num_dicts kvs ->
  exists od, kvstoreGetDict kvs didx = Some od /\ dicts kvs !! Z.to_nat didx = Some od.
Proof.
  intros Hs Hd. pose proof (ks_len _ _ Hs) as Hl. unfold kvstoreGetDict. rewrite (proj2 (Z.leb_le 0 didx)) by lia.
  destruct (lookup_lt_is_Some_2 (dicts kvs) (Z.to_nat didx)) as [od Hod]; [unfold zlen in Hl; lia|]. by exists od.
Qed.

Lemma empty_map : dict_map (dictCreate : dict) = ∅.
Proof. done. Qed.

Lemma create_wf : dict_wf dictCreate.
Proof.
  assert (Hht : ht_wf hash (_dictReset : ht K V)) by (split; [by left|done|intros j c k v Hj; done]).
  split; [done|done|constructor|done|]. intros Hi. done.
Qed.

(** The dict at an index is replaced, the counters are not touched. *)
Lemma set_dict_shape kvs cs i old new : kv_shape kvs cs -> dicts kvs !! i = Some old ->
  (forall d, new = Some d -> dict_wf d) ->
  kv_shape (set_dicts kvs (<[i := new]> (dicts kvs)) (allocated_dicts kvs - is_alloc old + is_alloc new)) cs.
Proof.
  intros [] Hi Hw. split; cbn [set_dicts dicts num_dicts num_dicts_bits resize_cursor allocated_dicts key_count dict_sizes]; try done.
  - unfold zlen in *. by rewrite length_insert.
  - intros j d Hj. destruct (decide (i = j)) as [->|Hne].
    + rewrite list_lookup_insert_eq in Hj by (by apply lookup_lt_Some in Hi). injection Hj as ->. by apply Hw.
    + rewrite list_lookup_insert_ne in Hj by done. by eapply ks_wf0.
  - rewrite (zsum_insert is_alloc _ _ old) by done. lia.
Qed.

Lemma put_dict_shape kvs cs didx d0 d : kv_shape kvs cs -> dicts kvs !! Z.to_nat didx = Some (Some d0) -> dict_wf d ->
  kv_shape (put_dict kvs didx d) cs.
Proof.
  intros Hs Hi Hd. pose proof (set_dict_shape kvs cs (Z.to_nat didx) (Some d0) (Some d) Hs Hi) as Hp.
  cbn [is_alloc] in Hp. unfold put_dict. replace (allocated_dicts kvs) with (allocated_dicts kvs - 1 + 1) by lia.
  apply Hp. by intros ? [= <-].
Qed.

Lemma slot_maps_put kvs didx d : slot_maps (put_dict kvs didx d) = <[Z.to_nat didx := dict_map d]> (slot_maps kvs).
Proof. unfold slot_maps, put_dict. cbn [set_dicts dicts]. by rewrite list_fmap_insert. Qed.

Lemma slot_maps_same kvs didx od d : dicts kvs !! Z.to_nat didx = Some od -> dict_map d = slot_map od ->
  slot_maps (put_dict kvs didx d) = slot_maps kvs.
Proof.
  intros Hi He. rewrite slot_maps_put, He. apply list_insert_id. unfold slot_maps. by rewrite list_lookup_fmap, Hi.
Qed.

(** ** The helpers *)

Lemma create_needed_ok kvs cs didx : kv_shape kvs cs -> 0 <= didx < num_dicts kvs ->
  exists kvs' d, createDictIfNeeded kvs didx = Some (kvs', d) /\ kv_shape kvs' cs /\ dict_wf d /\
    dicts kvs' !! Z.to_nat didx = Some (Some d) /\ slot_maps kvs' = slot_maps kvs /\
    non_empty_dicts kvs' = non_empty_dicts kvs /\ num_dicts kvs' = num_dicts kvs /\ slot_maps kvs !! Z.to_nat didx = Some (dict_map d) /\
    (dicts kvs !! Z.to_nat didx = Some (Some d) \/ dicts kvs !! Z.to_nat didx = Some None /\ d = dictCreate).
Proof.
  intros Hs Hd. destruct (get_dict_Some kvs cs didx Hs Hd) as (od & Hg & Hi). unfold createDictIfNeeded. rewrite Hg.
  cbn [mbind option_bind]. assert (Hm : slot_maps kvs !! Z.to_nat didx = Some (slot_map od)).
  { unfold slot_maps. by rewrite list_lookup_fmap, Hi. }
  destruct od as [d|].
  - exists kvs, d. split; [done|]. split; [done|]. split; [by eapply (ks_wf _ _ Hs)|]. do 5 (split; [done|]). by left.
  - eexists _, dictCreate. split; [done|]. pose proof (set_dict_shape kvs cs _ None (Some dictCreate) Hs Hi) as Hsh.
    cbn [is_alloc] in Hsh. rewrite Z.sub_0_r in Hsh. split; [apply Hsh; intros d [= <-]; exact create_wf|]. split; [exact create_wf|].
    split; [cbn; by rewrite list_lookup_insert_eq by (by apply lookup_lt_Some in Hi)|].
    split; [|split; [done|split; [done|split; [by rewrite Hm|by right]]]].
    unfold slot_maps. cbn [set_dicts dicts]. rewrite list_fmap_insert. apply list_insert_id. by rewrite list_lookup_fmap, Hi.
Qed.

Lemma free_needed_ok kvs cs didx : kv_shape kvs cs -> 0 <= didx < num_dicts kvs ->
  exists kvs', freeDictIfNeeded can_free kvs didx = Some kvs' /\ kv_shape kvs' cs /\ slot_maps kvs' = slot_maps kvs /\
    non_empty_dicts kvs' = non_empty_dicts kvs /\ num_dicts kvs' = num_dicts kvs /\
    num_dicts_bits kvs' = num_dicts_bits kvs /\ dict_sizes kvs' = dict_sizes kvs /\
    (forall j, j <> Z.to_nat didx -> dicts kvs' !! j = dicts kvs !! j) /\
    (forall d, dicts kvs !! Z.to_nat didx = Some (Some d) -> dictSize d <> 0 \/ 0 < pauserehash d -> kvs' = kvs).
Proof.
  intros Hs Hd. destruct (get_dict_Some kvs cs didx Hs Hd) as (od & Hg & Hi). unfold freeDictIfNeeded. rewrite Hg.
  cbn [mbind option_bind]. destruct od as [d|]; [|by exists kvs].
  destruct (negb (free_empty kvs) || negb (dictSize d =? 0) || (pauserehash d >? 0)) eqn:Eg; [by exists kvs|].
  destruct (negb (can_free didx)); [by exists kvs|]. apply orb_false_iff in Eg as [Eg Ep]. apply orb_false_iff in Eg as [_ Es].
  apply negb_false_iff, Z.eqb_eq in Es.
  eexists. split; [done|]. pose proof (set_dict_shape kvs cs _ (Some d) None Hs Hi) as Hsh. cbn [is_alloc] in Hsh.
  rewrite Z.add_0_r in Hsh. split; [by apply Hsh|]. split; [|do 4 (split; [done|]); split].
  - unfold slot_maps. cbn [set_dicts dicts]. rewrite list_fmap_insert. apply list_insert_id.
    rewrite list_lookup_fmap, Hi. cbn. f_equal. apply (size_0_empty hash); [by eapply (ks_wf _ _ Hs)|done].
  - intros j Hj. cbn [set_dicts dicts]. by rewrite list_lookup_insert_ne.
  - intros d' Hi' Hor. rewrite Hi in Hi'. injection Hi' as <-. destruct (Z.gtb_spec (pauserehash d) 0); [done|lia].
Qed.

(** The change of [non_empty_dicts] that the code derives from the new size. *)
Definition non_empty_delta (dsize delta : Z) : Z := if (dsize =? 1) && (delta >? 0) then 1 else if dsize =? 0 then -1 else 0.

Lemma cumulative_ok kvs cs didx d c delta : kv_shape kvs cs -> 0 <= didx -> dicts kvs !! Z.to_nat didx = Some (Some d) ->
  rd cs didx = Some c -> 0 <= c + delta -> zsum cs + delta < UINT64_MAX ->
  exists kvs', cumulativeKeyCountAdd kvs didx delta = Some kvs' /\ kv_shape kvs' (add_count cs didx delta) /\
    dicts kvs' = dicts kvs /\ num_dicts kvs' = num_dicts kvs /\ on_demand kvs' = on_demand kvs /\ free_empty kvs' = free_empty kvs /\
    allocated_dicts kvs' = allocated_dicts kvs /\
    non_empty_dicts kvs' = non_empty_dicts kvs + non_empty_delta (dictSize d) delta.
Proof.
  intros Hs Hd0 Hi Hc Hge Hlt. pose proof Hs as [Hb Hn Hl Hw Ha Hcu Hcs Hnn Hk Hbd Hfw].
  pose proof (rd_Some_inv _ _ _ Hc) as Hr. unfold cumulativeKeyCountAdd, kvstoreGetDict.
  rewrite (proj2 (Z.leb_le 0 didx)), Hi by lia. cbn [mbind option_bind]. fold (non_empty_delta (dictSize d) delta).
  assert (Hac : add_count cs didx delta = <[Z.to_nat didx := c + delta]> cs) by (by apply add_count_insert).
  assert (Hz : zsum (add_count cs didx delta) = zsum cs + delta).
  { rewrite Hac. pose proof (zsum_insert id cs (Z.to_nat didx) c (c + delta)) as Hz. rewrite !list_fmap_id in Hz.
    rewrite Hz; [unfold id; lia|]. by rewrite <- rd_lookup by lia. }
  assert (Hnn' : Forall (Z.le 0) (add_count cs didx delta)) by (rewrite Hac; apply Forall_insert; [done|lia]).
  pose proof (zsum_nonneg _ Hnn') as Hz0.
  assert (Hnew : forall sizes, (num_dicts kvs = 1 /\ sizes = None \/ num_dicts kvs <> 1 /\ exists ft, sizes = Some ft /\ fw_rep ft (add_count cs didx delta)) ->
    kv_shape (set_counts kvs (u64 (key_count kvs + delta)) (non_empty_dicts kvs + non_empty_delta (dictSize d) delta) sizes) (add_count cs didx delta)).
  { intros sizes Hsz. split; cbn [set_counts dicts num_dicts num_dicts_bits resize_cursor allocated_dicts key_count dict_sizes]; try done.
    - rewrite Hac. unfold zlen in *. by rewrite length_insert.
    - rewrite Hk, wrapu_id; [done|]. unfold UINT64_MAX in *. lia.
    - lia. }
  destruct Hfw as [[H1 Hf]|[H1 (ft & Hf & Hrep)]].
  - rewrite (proj2 (Z.eqb_eq _ 1)) by done. eexists. split; [done|]. split; [apply Hnew; by left|]. done.
  - rewrite (proj2 (Z.eqb_neq _ 1)), Hf by done.
    destruct (fw_update_ok ft cs didx delta c Hrep Hc Hge Hlt) as (ft' & -> & Hrep' & _). cbn [mbind option_bind].
    eexists. split; [done|]. split; [apply Hnew; right; split; [done|by exists ft']|]. done.
Qed.

(** Accounting for a slot whose map changed. *)
Lemma add_count_sizes (ms : list (gmap K V)) didx m m' : ms !! Z.to_nat didx = Some m ->
  add_count (msize <$> ms) didx (msize m' - msize m) = msize <$> <[Z.to_nat didx := m']> ms.
Proof.
  intros Hm. unfold add_count. rewrite list_fmap_insert. apply list_eq. intros i. destruct (decide (i = Z.to_nat didx)) as [->|Hne].
  - rewrite list_lookup_alter_eq, list_lookup_insert_eq by (rewrite length_fmap; by apply lookup_lt_Some in Hm).
    rewrite list_lookup_fmap, Hm. cbn. f_equal. lia.
  - by rewrite list_lookup_alter_ne, list_lookup_insert_ne by done.
Qed.

Lemma sizes_nonneg (ms : list (gmap K V)) : Forall (Z.le 0) (msize <$> ms).
Proof. apply list.Forall_forall. intros x Hx. apply list_elem_of_fmap in Hx as (m & -> & _). unfold msize. lia. Qed.

(** Accounting after the dict of a slot changed. *)
Lemma account_ok kvs ms didx d m delta : kv_shape kvs (msize <$> ms) -> 0 <= didx -> ms !! Z.to_nat didx = Some m ->
  dicts kvs !! Z.to_nat didx = Some (Some d) -> slot_maps kvs = <[Z.to_nat didx := dict_map d]> ms ->
  delta = msize (dict_map d) - msize m -> zsum (msize <$> ms) + delta < UINT64_MAX ->
  exists kvs', cumulativeKeyCountAdd kvs didx delta = Some kvs' /\ kv_core kvs' /\ dicts kvs' = dicts kvs /\
    num_dicts kvs' = num_dicts kvs /\ free_empty kvs' = free_empty kvs /\
    non_empty_dicts kvs' = non_empty_dicts kvs + non_empty_delta (msize (dict_map d)) delta.
Proof.
  intros Hs Hd Hm Hi Hms -> Hb.
  assert (Hc : rd (msize <$> ms) didx = Some (msize m)) by (rewrite rd_lookup by done; by rewrite list_lookup_fmap, Hm).
  destruct (cumulative_ok kvs (msize <$> ms) didx d (msize m) (msize (dict_map d) - msize m) Hs Hd Hi Hc)
    as (kvs' & Hk & Hs' & Hds & Hn & _ & Hfe & _ & Hne); [unfold msize; lia|done|].
  exists kvs'. split; [done|]. split.
  { unfold kv_core. unfold slot_maps. rewrite Hds. fold (slot_maps kvs). rewrite Hms.
    by rewrite <- (add_count_sizes ms didx m). }
  rewrite <- (dict_map_size hash d (ks_wf _ _ Hs _ _ Hi)) in Hne. done.
Qed.

Lemma nonempty_delta_add (m m' : gmap K V) : msize m' = msize m + 1 -> non_empty_delta (msize m') 1 = nonempty m' - nonempty m.
Proof.
  intros He. unfold non_empty_delta, nonempty. assert (0 <= msize m) by (unfold msize; lia). cbn [Z.gtb Z.compare].
  destruct (Z.eqb_spec (msize m') 1), (Z.eqb_spec (msize m') 0), (Z.eqb_spec (msize m) 0); cbn [andb]; lia.
Qed.

Lemma nonempty_delta_del (m m' : gmap K V) : msize m' = msize m - 1 -> non_empty_delta (msize m') (-1) = nonempty m' - nonempty m.
Proof.
  intros He. unfold non_empty_delta, nonempty. assert (0 <= msize m') by (unfold msize; lia). rewrite andb_false_r.
  destruct (Z.eqb_spec (msize m') 0), (Z.eqb_spec (msize m) 0); lia.
Qed.

(** ** Keys *)

Context (resize_allowed : Z -> Z -> Z -> bool) (force_full_rehash : bool) (can_resize : dictResizeEnable).

Lemma kv_core_put kvs didx d0 d : kv_core kvs -> dicts kvs !! Z.to_nat didx = Some (Some d0) -> dict_wf d ->
  dict_map d = dict_map d0 -> kv_core (put_dict kvs didx d) /\ slot_maps (put_dict kvs didx d) = slot_maps kvs.
Proof.
  intros Hk Hi Hd Hm. assert (Hs : slot_maps (put_dict kvs didx d) = slot_maps kvs) by (by apply (slot_maps_same kvs didx (Some d0))).
  split; [|done]. unfold kv_core. rewrite Hs. by eapply put_dict_shape.
Qed.

Lemma kv_ok_put kvs didx d0 d : kv_ok kvs -> dicts kvs !! Z.to_nat didx = Some (Some d0) -> dict_wf d ->
  dict_map d = dict_map d0 -> kv_ok (put_dict kvs didx d) /\ slot_maps (put_dict kvs didx d) = slot_maps kvs.
Proof.
  intros [Hk Hn] Hi Hd Hm. destruct (kv_core_put kvs didx d0 d Hk Hi Hd Hm) as [Hk' Hs].
  split; [|done]. split; [done|]. by rewrite Hs.
Qed.

Lemma slot_lookup kvs didx od : dicts kvs !! Z.to_nat didx = Some od -> slot_maps kvs !! Z.to_nat didx = Some (slot_map od).
Proof. intros Hi. unfold slot_maps. by rewrite list_lookup_fmap, Hi. Qed.

(** Lookup answers as the map of the slot. *)
Lemma kv_find_ok kvs didx k m : kv_ok kvs -> 0 <= didx < num_dicts kvs -> slot_maps kvs !! Z.to_nat didx = Some m ->
  exists kvs', kvstoreDictFind hash can_resize kvs didx k = Some (kvs', (fun v => (k, v)) <$> m !! k) /\
    kv_ok kvs' /\ slot_maps kvs' = slot_maps kvs /\ num_dicts kvs' = num_dicts kvs.
Proof.
  intros Hk Hd Hm. destruct (get_dict_Some kvs _ didx (proj1 Hk) Hd) as (od & Hg & Hi). unfold kvstoreDictFind. rewrite Hg.
  cbn [mbind option_bind]. pose proof (slot_lookup kvs didx od Hi) as Hs. rewrite Hm in Hs. injection Hs as ->.
  destruct od as [d|]; cbn [slot_map]; [|exists kvs; by rewrite lookup_empty].
  pose proof (ks_wf _ _ (proj1 Hk) _ _ Hi) as Hw.
  destruct (find_spec hash can_resize d k Hw) as (d' & -> & Hp). cbn [mbind option_bind]. eexists. split; [done|].
  destruct (kv_ok_put kvs didx d d' Hk Hi (pr_wf hash _ _ Hp) (preserves_map hash _ _ Hw Hp)) as [Hk' Hs']. done.
Qed.

Lemma msize_insert_new (m : gmap K V) k v : m !! k = None -> msize (<[k := v]> m) = msize m + 1.
Proof. intros Hk. unfold msize. rewrite map_size_insert_None by done. lia. Qed.

Lemma msize_insert_old (m : gmap K V) k v v0 : m !! k = Some v0 -> msize (<[k := v]> m) = msize m.
Proof. intros Hk. unfold msize. by rewrite map_size_insert, Hk. Qed.

Lemma msize_delete (m : gmap K V) k : is_Some (m !! k) -> msize (delete k m) = msize m - 1.
Proof.
  intros [v Hk]. unfold msize. rewrite map_size_delete, Hk.
  assert (0 < size m)%nat; [|cbn; lia]. destruct (decide (size m = 0%nat)) as [E|]; [|lia].
  apply map_size_empty_inv in E. by rewrite E, lookup_empty in Hk.
Qed.

Lemma nonempty_insert (ms : list (gmap K V)) i m m' : ms !! i = Some m ->
  zsum (nonempty <$> <[i := m']> ms) = zsum (nonempty <$> ms) + (nonempty m' - nonempty m).
Proof. intros Hm. rewrite (zsum_insert nonempty _ _ m) by done. lia. Qed.

(** A dict that gained one key, in a kvstore where its slot was not accounted
    for yet. *)
Lemma gain_ok kvs1 ms didx m d n : kv_shape kvs1 (msize <$> ms) -> 0 <= didx -> ms !! Z.to_nat didx = Some m ->
  slot_maps kvs1 = ms -> (exists d0, dicts kvs1 !! Z.to_nat didx = Some (Some d0)) -> non_empty_dicts kvs1 = zsum (nonempty <$> ms) ->
  dict_wf d -> msize (dict_map d) = msize m + n -> n = 1 \/ n = -1 -> zsum (msize <$> ms) + n < UINT64_MAX ->
  exists kvs', cumulativeKeyCountAdd (put_dict kvs1 didx d) didx n = Some kvs' /\ kv_ok kvs' /\
    slot_maps kvs' = <[Z.to_nat didx := dict_map d]> ms /\ num_dicts kvs' = num_dicts kvs1.
Proof.
  intros Hs Hd Hm Hms (d0 & Hi) Hne Hw Hsz Hn Hb.
  pose proof (put_dict_shape kvs1 _ didx d0 d Hs Hi Hw) as Hs1.
  assert (Hms1 : slot_maps (put_dict kvs1 didx d) = <[Z.to_nat didx := dict_map d]> ms) by (by rewrite slot_maps_put, Hms).
  destruct (account_ok (put_dict kvs1 didx d) ms didx d m n) as (kvs' & Hk & Hcore & Hds & Hnd & _ & Hne'); try done; [|lia|].
  { cbn. by rewrite list_lookup_insert_eq by (by apply lookup_lt_Some in Hi). }
  assert (Hms' : slot_maps kvs' = <[Z.to_nat didx := dict_map d]> ms) by (unfold slot_maps; rewrite Hds; exact Hms1).
  exists kvs'. split; [done|]. split; [|done]. split; [done|]. rewrite Hms', (nonempty_insert _ _ m) by done.
  rewrite Hne'. cbn [put_dict set_dicts non_empty_dicts]. rewrite Hne. f_equal.
  destruct Hn as [-> | ->]; [by apply nonempty_delta_add|apply nonempty_delta_del; lia].
Qed.

(** Setting a key as the comment of [kvstoreDictFindLink] says: find the link,
    then update the entry or insert a new one. *)
Definition kv_set (kvs : kvstore) (didx : Z) (k : K) (v : V) : option kvstore :=
  '(kvs, l, b) ← kvstoreDictFindLink hash can_resize kvs didx k;
  kvstoreDictSetAtLink hash resize_allowed force_full_rehash can_resize kvs didx k v
    (match l with Some l => ExistingItem (Some l) | None => NewItem b end).

Lemma set_existing_spec (d : dict) l k v v0 : dict_wf d -> link_ok hash d l k v0 ->
  exists d', dictSetKeyAtLink hash resize_allowed force_full_rehash can_resize d k v (ExistingItem (Some l)) = Some d' /\
    dict_wf d' /\ dict_map d' = <[k := v]> (dict_map d).
Proof.
  intros Hd Hl. destruct (set_val_ok hash d l k v0 v Hd Hl) as (d' & es & Hv & Hd' & Hp & Hp'). exists d'.
  destruct Hl as (_ & c & Hi & Hc & Hkv). unfold dictSetVal, dictSetKeyAtLink in *. cbn [mbind option_bind] in *.
  destruct (get_bucket _ _) as [c'|] eqn:Eg; [|done]. cbn [mbind option_bind] in *.
  assert (c' = c) as ->.
  { unfold get_bucket in Eg. rewrite (proj2 (Z.leb_le _ _)), Hc in Eg by done. by injection Eg as <-. }
  rewrite Hkv in *. cbn [mbind option_bind] in *. split; [done|]. split; [done|].
  destruct (dict_map_cons hash d k v0 es Hd Hp) as [-> Hk]. destruct (dict_map_cons hash d' k v es Hd' Hp') as [-> _].
  by rewrite insert_insert_eq.
Qed.

Lemma set_existing_ok kvs didx d0 l k v v0 : kv_ok kvs -> 0 <= didx < num_dicts kvs -> dicts kvs !! Z.to_nat didx = Some (Some d0) ->
  link_ok hash d0 l k v0 -> dict_map d0 !! k = Some v0 ->
  exists kvs', kvstoreDictSetAtLink hash resize_allowed force_full_rehash can_resize kvs didx k v (ExistingItem (Some l)) = Some kvs' /\
    kv_ok kvs' /\ slot_maps kvs' = <[Z.to_nat didx := <[k := v]> (dict_map d0)]> (slot_maps kvs) /\ num_dicts kvs' = num_dicts kvs.
Proof.
  intros [Hk Hn] Hd Hi Hl Hkv. unfold kvstoreDictSetAtLink, kvstoreGetDict. rewrite (proj2 (Z.leb_le 0 didx)), Hi by lia. cbn [mbind option_bind].
  destruct (set_existing_spec d0 l k v v0 (ks_wf _ _ Hk _ _ Hi) Hl) as (d' & -> & Hd' & Hm'). cbn [mbind option_bind].
  eexists. split; [done|]. assert (Hs : slot_maps (put_dict kvs didx d') = <[Z.to_nat didx := <[k := v]> (dict_map d0)]> (slot_maps kvs)).
  { by rewrite slot_maps_put, Hm'. }
  pose proof (slot_lookup kvs didx _ Hi) as Hsl. cbn [slot_map] in Hsl. pose proof (msize_insert_old _ k v v0 Hkv) as Hsz.
  split; [|done]. split.
  - unfold kv_core. rewrite Hs, list_fmap_insert, Hsz, list_insert_id; [by eapply put_dict_shape|]. by rewrite list_lookup_fmap, Hsl.
  - rewrite Hs, (nonempty_insert _ _ (dict_map d0)) by done. unfold nonempty at 2. rewrite Hsz. unfold nonempty at 2.
    cbn [put_dict set_dicts non_empty_dicts]. lia.
Qed.

(** What [kvstoreDictFindLink] leaves for the second step. *)
Lemma find_link_ok kvs didx k m : kv_ok kvs -> 0 <= didx < num_dicts kvs -> slot_maps kvs !! Z.to_nat didx = Some m ->
  exists kvs1 l b, kvstoreDictFindLink hash can_resize kvs didx k = Some (kvs1, l, b) /\ kv_ok kvs1 /\
    slot_maps kvs1 = slot_maps kvs /\ num_dicts kvs1 = num_dicts kvs /\
    match l with
    | Some l => exists d1 v0, dicts kvs1 !! Z.to_nat didx = Some (Some d1) /\ link_ok hash d1 l k v0 /\
        m = dict_map d1 /\ dict_map d1 !! k = Some v0
    | None => m !! k = None /\ forall d1, dicts kvs1 !! Z.to_nat didx = Some (Some d1) \/
          dicts kvs1 !! Z.to_nat didx = Some None /\ d1 = dictCreate ->
        b = None \/ b = Some (bucket_of hash d1 k) /\ ht_table (ht0 d1) <> []
    end.
Proof.
  intros Hk Hd Hm. destruct (get_dict_Some kvs _ didx (proj1 Hk) Hd) as (od & Hg & Hi). unfold kvstoreDictFindLink. rewrite Hg.
  cbn [mbind option_bind]. pose proof (slot_lookup kvs didx od Hi) as Hs. rewrite Hm in Hs. injection Hs as ->.
  destruct od as [d|].
  - pose proof (ks_wf _ _ (proj1 Hk) _ _ Hi) as Hw.
    destruct (find_link_spec hash can_resize d k Hw) as (d1 & r & b & -> & Hp & Hr). cbn [mbind option_bind].
    pose proof (pr_wf hash _ _ Hp) as Hw1. pose proof (preserves_map hash _ _ Hw Hp) as Hm1.
    destruct (kv_ok_put kvs didx d d1 Hk Hi Hw1 Hm1) as [Hk1 Hs1]. eexists _, r, b. split; [done|]. split; [done|]. split; [done|]. split; [done|].
    assert (Hi1 : dicts (put_dict kvs didx d1) !! Z.to_nat didx = Some (Some d1)).
    { cbn. by rewrite list_lookup_insert_eq by (by apply lookup_lt_Some in Hi). }
    cbn [slot_map]. destruct r as [l|].
    + destruct Hr as (v0 & Hv0 & Hl). exists d1, v0. rewrite Hm1. done.
    + destruct Hr as [Hn Hb1]. split; [done|]. intros d2 [Hd2|[Hd2 _]]; rewrite Hi1 in Hd2; [by injection Hd2 as <-|done].
  - eexists _, _, _. split; [done|]. split; [done|]. split; [done|]. split; [done|]. split; [apply lookup_empty|]. by left.
Qed.

(** Setting a key acts on the map of its slot alone; the counters stay exact. *)
Lemma kv_set_ok kvs didx k v m : kv_ok kvs -> 0 <= didx < num_dicts kvs -> slot_maps kvs !! Z.to_nat didx = Some m ->
  zsum (msize <$> slot_maps kvs) + 1 < UINT64_MAX ->
  exists kvs', kv_set kvs didx k v = Some kvs' /\ kv_ok kvs' /\
    slot_maps kvs' = <[Z.to_nat didx := <[k := v]> m]> (slot_maps kvs) /\ num_dicts kvs' = num_dicts kvs.
Proof.
  intros Hk Hd Hm Hb. unfold kv_set.
  destruct (find_link_ok kvs didx k m Hk Hd Hm) as (kvs1 & l & b & -> & Hk1 & Hs1 & Hn1 & Hl). cbn [mbind option_bind].
  destruct l as [l|].
  - destruct Hl as (d1 & v0 & Hi1 & Hl & Hm1 & Hv0).
    destruct (set_existing_ok kvs1 didx d1 l k v v0 Hk1) as (kvs' & Hset & Hk' & Hs' & Hn'); [lia|done|done|done|].
    exists kvs'. split; [done|]. split; [done|]. by rewrite Hs', Hs1, Hm1, Hn'.
  - destruct Hl as [Hnone Hbk]. unfold kvstoreDictSetAtLink. pose proof (proj2 Hk1) as Hne1.
    destruct (create_needed_ok kvs1 _ didx (proj1 Hk1)) as (kvs2 & d2 & -> & Hsh2 & Hw2 & Hi2 & Hs2 & Hne2 & Hn2 & Hm2 & Hor); [lia|].
    cbn [mbind option_bind]. rewrite Hs1, Hm in Hm2. injection Hm2 as ->. rewrite Hs1 in *.
    destruct (set_key_new_spec hash resize_allowed force_full_rehash can_resize d2 k v b Hw2 Hnone (Hbk d2 Hor)) as (d3 & -> & Hw3 & Hm3).
    cbn [mbind option_bind]. pose proof (msize_insert_new _ k v Hnone) as Hsz. rewrite <- Hm3 in Hsz.
    destruct (gain_ok kvs2 (slot_maps kvs) didx (dict_map d2) d3 1) as (kvs' & Hc & Hk' & Hs' & Hn');
      [done|lia|done|done|by exists d2|by rewrite Hne2|done|done|by left|done|].
    exists kvs'. split; [done|]. split; [done|]. rewrite Hs', Hm3, Hn', Hn2, Hn1. done.
Qed.

(** [kvstoreDictAddRaw] adds the key when it is not there. *)
Lemma kv_add_ok kvs didx k v m : kv_ok kvs -> 0 <= didx < num_dicts kvs -> slot_maps kvs !! Z.to_nat didx = Some m ->
  (forall d, dicts kvs !! Z.to_nat didx = Some (Some d) -> pauseAutoResize d <= 0 \/ ht_table (ht0 d) <> []) ->
  zsum (msize <$> slot_maps kvs) + 1 < UINT64_MAX ->
  exists kvs', kvstoreDictAddRaw hash resize_allowed force_full_rehash can_resize kvs didx k v =
      Some (kvs', bool_decide (m !! k = None)) /\ kv_ok kvs' /\ num_dicts kvs' = num_dicts kvs /\
    slot_maps kvs' = if bool_decide (m !! k = None) then <[Z.to_nat didx := <[k := v]> m]> (slot_maps kvs) else slot_maps kvs.
Proof.
  intros Hk Hd Hm Hpre Hb. unfold kvstoreDictAddRaw. pose proof (proj2 Hk) as Hne.
  destruct (create_needed_ok kvs _ didx (proj1 Hk) Hd) as (kvs2 & d2 & -> & Hsh2 & Hw2 & Hi2 & Hs2 & Hne2 & Hn2 & Hm2 & Hor).
  cbn [mbind option_bind]. rewrite Hm in Hm2. injection Hm2 as ->.
  destruct (add_raw_spec hash resize_allowed force_full_rehash can_resize d2 k v Hw2) as (d3 & r & -> & Hw3 & Hr).
  { destruct Hor as [Hor|[_ ->]]; [by apply Hpre|by left]. }
  cbn [mbind option_bind]. destruct (dict_map d2 !! k) as [v0|] eqn:Hkv, r as [l|]; try done.
  - destruct Hr as [_ Hm3]. rewrite bool_decide_false by done. eexists. split; [done|].
    assert (Hk2 : kv_ok kvs2) by (split; [unfold kv_core; by rewrite Hs2|by rewrite Hs2, Hne2]).
    destruct (kv_ok_put kvs2 didx d2 d3 Hk2 Hi2 Hw3 Hm3) as [Hk3 Hs3]. split; [done|]. by rewrite Hs3.
  - rewrite bool_decide_true by done. pose proof (msize_insert_new _ k v Hkv) as Hsz. rewrite <- Hr in Hsz.
    destruct (gain_ok kvs2 (slot_maps kvs) didx (dict_map d2) d3 1) as (kvs' & -> & Hk' & Hs' & Hn');
      [done|lia|done|done|by exists d2|by rewrite Hne2|done|done|by left|done|].
    cbn [mbind option_bind]. exists kvs'. split; [done|]. split; [done|]. rewrite Hs', Hr, Hn', Hn2. done.
Qed.

(** Freeing an empty dict afterwards changes nothing of the maps. *)
Lemma lose_free_ok kvs ms didx m d d0 : kv_core kvs -> slot_maps kvs = ms -> non_empty_dicts kvs = zsum (nonempty <$> ms) ->
  0 <= didx < num_dicts kvs -> ms !! Z.to_nat didx = Some m -> dicts kvs !! Z.to_nat didx = Some (Some d0) ->
  dict_wf d -> msize (dict_map d) = msize m - 1 ->
  exists kvs', (kvs1 ← cumulativeKeyCountAdd (put_dict kvs didx d) didx (-1); freeDictIfNeeded can_free kvs1 didx) = Some kvs' /\
    kv_ok kvs' /\ slot_maps kvs' = <[Z.to_nat didx := dict_map d]> ms /\ num_dicts kvs' = num_dicts kvs.
Proof.
  intros Hc <- Hne Hd Hm Hi Hw Hsz.
  destruct (gain_ok kvs (slot_maps kvs) didx m d (-1)) as (kvs1 & -> & Hk1 & Hs1 & Hn1);
    [done|lia|done|done|by exists d0|done|done|lia|by right|pose proof (ks_bound _ _ Hc); lia|].
  cbn [mbind option_bind]. destruct (free_needed_ok kvs1 _ didx (proj1 Hk1)) as (kvs2 & -> & Hsh2 & Hs2 & Hne2 & Hn2 & _); [lia|].
  exists kvs2. split; [done|]. split; [|split; [by rewrite Hs2|lia]].
  split; [unfold kv_core; by rewrite Hs2|]. rewrite Hne2, Hs2. apply Hk1.
Qed.

Lemma kv_delete_ok kvs didx k m : kv_ok kvs -> 0 <= didx < num_dicts kvs -> slot_maps kvs !! Z.to_nat didx = Some m ->
  exists kvs', kvstoreDictDelete hash resize_allowed force_full_rehash can_resize can_free kvs didx k =
      Some (kvs', bool_decide (is_Some (m !! k))) /\
    kv_ok kvs' /\ slot_maps kvs' = <[Z.to_nat didx := delete k m]> (slot_maps kvs) /\ num_dicts kvs' = num_dicts kvs.
Proof.
  intros Hk Hd Hm. destruct (get_dict_Some kvs _ didx (proj1 Hk) Hd) as (od & Hg & Hi). unfold kvstoreDictDelete. rewrite Hg.
  cbn [mbind option_bind]. pose proof (slot_lookup kvs didx od Hi) as Hs. rewrite Hm in Hs. injection Hs as ->.
  destruct od as [d|]; cbn [slot_map] in *.
  2:{ exists kvs. rewrite lookup_empty, delete_empty, bool_decide_false by (by intros [? ?]). by rewrite list_insert_id. }
  destruct (dict_delete_spec hash resize_allowed force_full_rehash can_resize d k (ks_wf _ _ (proj1 Hk) _ _ Hi)) as (d' & -> & Hw' & Hm').
  cbn [mbind option_bind]. destruct (decide (is_Some (dict_map d !! k))) as [His|Hno].
  - rewrite bool_decide_true by done.
    destruct (lose_free_ok kvs (slot_maps kvs) didx (dict_map d) d' d (proj1 Hk)) as (kvs' & Hf & Hk' & Hs' & Hn');
      [done|apply Hk|done|done|done|done|by rewrite Hm'; apply msize_delete|].
    destruct (cumulativeKeyCountAdd _ _ _) as [kvs1|] eqn:Ec; [|done]. cbn [mbind option_bind] in *. rewrite Hf. cbn [mbind option_bind].
    exists kvs'. split; [done|]. split; [done|]. by rewrite Hs', Hm'.
  - rewrite bool_decide_false by done. assert (Hd0 : delete k (dict_map d) = dict_map d).
    { apply delete_id. destruct (dict_map d !! k) eqn:E; [|done]. exfalso. apply Hno. by eexists. }
    rewrite Hd0 in *. destruct (kv_ok_put kvs didx d d' Hk Hi Hw' Hm') as [Hk' Hs']. eexists. split; [done|]. split; [done|].
    by rewrite Hs', list_insert_id.
Qed.

(** Unlinking in two phases, as [dbGenericDelete] does. *)
Definition kv_unlink (kvs : kvstore) (didx : Z) (k : K) : option kvstore :=
  '(kvs, l) ← kvstoreDictTwoPhaseUnlinkFind hash can_resize kvs didx k;
  match l with
  | Some _ => kvstoreDictTwoPhaseUnlinkFree hash resize_allowed force_full_rehash can_resize can_free kvs didx l
  | None => Some kvs
  end.

Lemma kv_unlink_ok kvs didx k m : kv_ok kvs -> 0 <= didx < num_dicts kvs -> slot_maps kvs !! Z.to_nat didx = Some m ->
  exists kvs', kv_unlink kvs didx k = Some kvs' /\
    kv_ok kvs' /\ slot_maps kvs' = <[Z.to_nat didx := delete k m]> (slot_maps kvs) /\ num_dicts kvs' = num_dicts kvs.
Proof.
  intros Hk Hd Hm. destruct (get_dict_Some kvs _ didx (proj1 Hk) Hd) as (od & Hg & Hi).
  unfold kv_unlink, kvstoreDictTwoPhaseUnlinkFind. rewrite Hg. cbn [mbind option_bind].
  pose proof (slot_lookup kvs didx od Hi) as Hs. rewrite Hm in Hs. injection Hs as ->.
  destruct od as [d|]; cbn [slot_map mbind option_bind] in *.
  2:{ exists kvs. rewrite delete_empty. by rewrite list_insert_id. }
  pose proof (ks_wf _ _ (proj1 Hk) _ _ Hi) as Hw.
  destruct (two_phase_find_spec hash can_resize d k Hw) as (d1 & l & -> & Hw1 & Hm1 & Hl). cbn [mbind option_bind].
  destruct (kv_ok_put kvs didx d d1 Hk Hi Hw1 Hm1) as [Hk1 Hs1]. destruct l as [l|].
  - destruct Hl as [(v & Hkv & Hl) _]. unfold kvstoreDictTwoPhaseUnlinkFree, kvstoreGetDict. rewrite (proj2 (Z.leb_le 0 didx)) by lia.
    assert (Hi1 : dicts (put_dict kvs didx d1) !! Z.to_nat didx = Some (Some d1)).
    { cbn. by rewrite list_lookup_insert_eq by (by apply lookup_lt_Some in Hi). }
    rewrite Hi1. cbn [mbind option_bind].
    destruct (two_phase_free_spec hash resize_allowed force_full_rehash can_resize d1 l k v Hw1 Hl) as (d2 & -> & Hw2 & Hm2 & _).
    cbn [mbind option_bind].
    destruct (lose_free_ok (put_dict kvs didx d1) (slot_maps kvs) didx (dict_map d) d2 d1 (proj1 Hk1)) as (kvs' & Hf & Hk' & Hs' & Hn');
      [done|rewrite <- Hs1; apply Hk1|done|done|done|done|rewrite Hm2, Hm1; by apply msize_delete; eexists|].
    exists kvs'. split; [done|]. split; [done|]. by rewrite Hs', Hm2, Hm1, Hn'.
  - destruct Hl as [Hkv _]. eexists. split; [done|]. split; [done|]. rewrite Hs1, delete_id by done. by rewrite list_insert_id.
Qed.
End Spec.
