(* ===== verification/KvstoreThms.v ===== *)
(** * kvstore: emptying, resizing, moving and scanning *)

From stdpp Require Import base list numbers option tactics gmap.
From S2P Require Import Prelude Dict DictInv DictMap DictIter DictScan Fwtree Kvstore KvstoreSpec.

Section Ops.
Context {K V : Type} `{Countable K}.
Context (hash : K -> Z) (can_free : Z -> bool).
Context (resize_allowed : Z -> Z -> Z -> bool) (force_full_rehash : bool) (can_resize : dictResizeEnable).

Abbreviation dict := (dict K V).
Abbreviation kvstore := (kvstore K V).
Abbreviation dict_wf := (dict_wf (V:=V) hash).
Abbreviation kv_shape := (kv_shape (V:=V) hash).
Abbreviation kv_core := (kv_core (V:=V) hash).
Abbreviation kv_ok := (kv_ok (V:=V) hash).

(** ** Emptying *)

Lemma empty_loop_ok n : forall (kvs : kvstore) cs didx, kv_shape kvs cs -> 0 <= didx -> didx + Z.of_nat n = num_dicts kvs ->
  exists kvs', empty_loop can_free n kvs didx = Some kvs' /\ kv_shape kvs' cs /\ num_dicts kvs' = num_dicts kvs /\
    num_dicts_bits kvs' = num_dicts_bits kvs /\ dict_sizes kvs' = dict_sizes kvs /\
    (forall j : nat, Z.of_nat j < didx -> slot_maps kvs' !! j = slot_maps kvs !! j) /\
    (forall j : nat, didx <= Z.of_nat j < num_dicts kvs -> slot_maps kvs' !! j = Some ∅).
Proof.
  induction n as [|n IH]; intros kvs cs didx Hs Hd Hn; cbn [empty_loop].
  { exists kvs. split; [done|]. split; [done|]. do 4 (split; [done|]). intros; lia. }
  destruct (get_dict_Some hash kvs cs didx Hs) as (od & Hg & Hi); [lia|]. rewrite Hg. cbn [mbind option_bind].
  assert (Hstep : exists kvs1, match od with
      | Some d => '(_, d0) ← dictEmpty d; freeDictIfNeeded can_free (put_dict kvs didx d0) didx
      | None => Some kvs end = Some kvs1 /\ kv_shape kvs1 cs /\ num_dicts kvs1 = num_dicts kvs /\
      num_dicts_bits kvs1 = num_dicts_bits kvs /\ dict_sizes kvs1 = dict_sizes kvs /\
      slot_maps kvs1 = <[Z.to_nat didx := ∅]> (slot_maps kvs)).
  { destruct od as [d|].
    - pose proof (ks_wf _ _ _ Hs _ _ Hi) as Hw. unfold dictEmpty. rewrite (clear_ok hash (ht0 d)), (clear_ok hash (ht1 d)) by apply Hw.
      cbn [mbind option_bind]. change {| ht0 := _dictReset; ht1 := _dictReset; rehashidx := -1; pauserehash := 0; pauseAutoResize := 0 |}
        with (dictCreate : dict).
      destruct (free_needed_ok hash can_free (put_dict kvs didx dictCreate) cs didx) as (kvs1 & Hf & Hs1 & Hm1 & Hne1 & Hn1 & Hb1 & Hf1 & _).
      { eapply (put_dict_shape hash); [done|done|]. apply create_wf. }
      { cbn. lia. }
      exists kvs1. split; [done|]. split; [done|]. split; [done|].
      split; [done|]. split; [done|]. by rewrite Hm1, slot_maps_put, empty_map.
    - exists kvs. split; [done|]. split; [done|]. do 3 (split; [done|]). symmetry. apply list_insert_id.
      by apply (slot_lookup kvs didx None). }
  destruct Hstep as (kvs1 & Hst & Hs1 & Hn1 & Hb1 & Hf1 & Hm1).
  assert (Hlen : (Z.to_nat didx < length (slot_maps kvs))%nat).
  { unfold slot_maps. rewrite length_fmap. by apply lookup_lt_Some in Hi. }
  destruct (IH kvs1 cs (didx + 1)) as (kvs' & Hl & Hs' & Hn' & Hb' & Hf' & Hlo & Hhi); [done|lia|lia|].
  exists kvs'. split.
  { destruct od as [d|]; [|by injection Hst as <-]. destruct (dictEmpty d) as [[f d0]|]; [|done]. cbn [mbind option_bind] in *.
    rewrite Hst. done. }
  split; [done|]. split; [lia|]. split; [congruence|]. split; [congruence|]. split.
  - intros j Hj. rewrite Hlo by lia. rewrite Hm1, list_lookup_insert_ne by lia. done.
  - intros j Hj. destruct (decide (Z.of_nat j = didx)) as [He|]; [|apply Hhi; lia].
    rewrite Hlo by lia. rewrite Hm1. replace j with (Z.to_nat didx) by lia. by rewrite list_lookup_insert_eq.
Qed.

Lemma kv_empty_ok (kvs : kvstore) cs : kv_shape kvs cs ->
  exists kvs', kvstoreEmpty can_free kvs = Some kvs' /\ kv_ok kvs' /\ num_dicts kvs' = num_dicts kvs /\
    slot_maps kvs' = replicate (Z.to_nat (num_dicts kvs)) ∅.
Proof.
  intros Hs. pose proof (num_pos hash kvs cs Hs) as Hpos. unfold kvstoreEmpty.
  destruct (empty_loop_ok (Z.to_nat (num_dicts kvs)) kvs cs 0 Hs) as (k1 & -> & Hs1 & Hn1 & Hb1 & Hf1 & _ & Hm1); [lia|lia|].
  cbn [mbind option_bind]. eexists. split; [done|].
  set (k2 := set_counts _ _ _ _). assert (Hmaps : slot_maps k2 = replicate (Z.to_nat (num_dicts kvs)) ∅).
  { apply list_eq. intros j. change (slot_maps k2) with (slot_maps k1). destruct (decide (Z.of_nat j < num_dicts kvs)).
    - rewrite Hm1, lookup_replicate_2 by lia. done.
    - rewrite !lookup_ge_None_2; [done|rewrite length_replicate; lia|]. unfold slot_maps. rewrite length_fmap.
      pose proof (ks_len _ _ _ Hs1) as Hl. unfold zlen in Hl. lia. }
  assert (Hz : forall f : gmap K V -> Z, f ∅ = 0 -> zsum (f <$> slot_maps k2) = 0).
  { intros f Hf. rewrite (zsum_const f 0), Z.mul_0_l; [done|]. rewrite Hmaps. by apply Forall_replicate. }
  assert (Hms : msize (∅ : gmap K V) = 0) by (unfold msize; by rewrite map_size_empty).
  split; [|done]. split.
  - pose proof Hs1 as []. unfold KvstoreSpec.kv_core. split; cbn [k2 set_counts set_cursor dicts num_dicts num_dicts_bits resize_cursor allocated_dicts key_count dict_sizes]; try done.
    + lia.
    + rewrite Hmaps, fmap_replicate. unfold zlen. rewrite length_replicate. lia.
    + apply sizes_nonneg.
    + by rewrite Hz.
    + by rewrite Hz.
    + destruct ks_fw as [[H1 ->]|[H1 (ft & -> & Hr)]]; [by left|right; split; [done|]]. exists (fwTreeClear ft). split; [done|].
      pose proof (fw_clear_ok ft cs Hr) as Hc. rewrite Hmaps, fmap_replicate, Hms.
      replace (Z.to_nat (num_dicts kvs)) with (length cs); [done|]. unfold zlen in ks_cs. lia.
  - cbn [k2 set_counts non_empty_dicts]. symmetry. apply Hz. unfold nonempty. by rewrite Hms.
Qed.

(** ** Resizing *)

Lemma try_resize_ok n : forall kvs : kvstore, kv_ok kvs ->
  exists kvs', try_resize_loop hash resize_allowed force_full_rehash can_resize n kvs = Some kvs' /\ kv_ok kvs' /\
    slot_maps kvs' = slot_maps kvs /\ num_dicts kvs' = num_dicts kvs.
Proof.
  induction n as [|n IH]; intros kvs Hk; cbn [try_resize_loop]; [by exists kvs|].
  pose proof (ks_cursor _ _ _ (proj1 Hk)) as Hc.
  destruct (get_dict_Some hash kvs _ (resize_cursor kvs) (proj1 Hk) Hc) as (od & -> & Hi). cbn [mbind option_bind].
  assert (Hstep : exists kvs1, match od with
      | Some d => '(d0, ok) ← dictShrinkIfNeeded hash resize_allowed force_full_rehash can_resize d;
          d1 ← (if (ok : bool) then Some d0
                else '(d1, _) ← dictExpandIfNeeded hash resize_allowed force_full_rehash can_resize d0; Some d1);
          Some (put_dict kvs (resize_cursor kvs) d1)
      | None => Some kvs end = Some kvs1 /\ kv_ok kvs1 /\ slot_maps kvs1 = slot_maps kvs /\ num_dicts kvs1 = num_dicts kvs).
  { destruct od as [d|]; [|by exists kvs]. pose proof (ks_wf _ _ _ (proj1 Hk) _ _ Hi) as Hw.
    destruct (shrink_ok hash resize_allowed force_full_rehash can_resize d Hw) as (d0 & ok & -> & Hp0). cbn [mbind option_bind].
    pose proof (pr_wf hash _ _ Hp0) as Hw0. assert (Hd1 : exists d1, (if (ok : bool) then Some d0
        else '(d1, _) ← dictExpandIfNeeded hash resize_allowed force_full_rehash can_resize d0; Some d1) = Some d1 /\ preserves hash d d1).
    { destruct ok; [by exists d0|].
      destruct (expand_ok hash resize_allowed force_full_rehash can_resize d0 Hw0) as (d1 & ok & -> & Hp1 & _). exists d1. split; [done|].
      by eapply preserves_trans. }
    destruct Hd1 as (d1 & -> & Hp). cbn [mbind option_bind]. eexists. split; [done|].
    destruct (kv_ok_put hash kvs (resize_cursor kvs) d d1 Hk Hi (pr_wf hash _ _ Hp) (preserves_map hash _ _ Hw Hp)) as [Hk1 Hs1]. done. }
  destruct Hstep as (kvs1 & -> & Hk1 & Hs1 & Hn1). cbn [mbind option_bind].
  destruct (IH (set_cursor kvs1 ((resize_cursor kvs + 1) mod num_dicts kvs1))) as (kvs' & -> & Hk' & Hs' & Hn').
  { destruct Hk1 as [[] Hne]. split; [|done]. split; try done. cbn. apply Z.mod_pos_bound. lia. }
  exists kvs'. split; [done|]. split; [done|]. by rewrite Hs', Hn'.
Qed.

Lemma kv_try_resize_ok (kvs : kvstore) limit : kv_ok kvs ->
  exists kvs', kvstoreTryResizeDicts hash resize_allowed force_full_rehash can_resize kvs limit = Some kvs' /\ kv_ok kvs' /\
    slot_maps kvs' = slot_maps kvs /\ num_dicts kvs' = num_dicts kvs.
Proof. apply try_resize_ok. Qed.

(** ** Searching dicts by their sizes *)

(** The slots of the abstract kvstore counted by keys. *)
Lemma find_by_key_ok (kvs : kvstore) target : kv_core kvs -> 1 <= target <= kvstoreSize kvs ->
  exists didx, kvstoreFindDictIndexByKeyIndex kvs target = Some didx /\ 0 <= didx < num_dicts kvs /\
    psum (msize <$> slot_maps kvs) didx < target <= psum (msize <$> slot_maps kvs) (didx + 1).
Proof.
  intros Hs Ht. unfold kvstoreFindDictIndexByKeyIndex. pose proof (ks_count _ _ _ Hs) as Hc. unfold kvstoreSize in *.
  rewrite (proj2 (Z.eqb_neq (key_count kvs) 0)) by lia. rewrite orb_false_r. destruct (ks_fw _ _ _ Hs) as [[H1 Hf]|[H1 (ft & Hf & Hr)]].
  - rewrite H1. exists 0. split; [done|]. split; [lia|]. rewrite psum_0, psum_all by (rewrite ?(ks_cs _ _ _ Hs); lia). lia.
  - rewrite (proj2 (Z.eqb_neq _ 1)), Hf by done. unfold cassert. rewrite (proj2 (Z.leb_le _ _)) by lia. cbn [mbind option_bind].
    destruct (fw_find_ok ft _ target Hr) as (r & -> & Hb & Hp); [lia|]. exists r. split; [done|]. split; [|done].
    rewrite <- (fw_len _ _ Hr), (ks_cs _ _ _ Hs) in Hb. done.
Qed.

Lemma next_nonempty_ok (kvs : kvstore) didx : kv_core kvs -> 0 <= didx < num_dicts kvs ->
  exists r, kvstoreGetNextNonEmptyDictIndex kvs didx = Some r /\ first_nonzero (msize <$> slot_maps kvs) (didx + 1) r.
Proof.
  intros Hs Hd. unfold kvstoreGetNextNonEmptyDictIndex. destruct (ks_fw _ _ _ Hs) as [[H1 Hf]|[H1 (ft & Hf & Hr)]].
  - rewrite H1. cbn. rewrite (proj2 (Z.eqb_eq didx 0)) by lia. exists (-1). split; [done|]. left. split; [done|].
    intros j Hj. rewrite (ks_cs _ _ _ Hs) in Hj. lia.
  - rewrite (proj2 (Z.eqb_neq _ 1)), Hf by done. apply fw_find_next_ok; [done|].
    rewrite <- (fw_len _ _ Hr), (ks_cs _ _ _ Hs). done.
Qed.

(** ** Moving *)

Lemma cumulative_alloc (kvs : kvstore) didx delta a :
  cumulativeKeyCountAdd (set_dicts kvs (dicts kvs) a) didx delta =
  (fun k => set_dicts k (dicts k) a) <$> cumulativeKeyCountAdd kvs didx delta.
Proof.
  unfold cumulativeKeyCountAdd, kvstoreGetDict. cbn [set_dicts dicts num_dicts dict_sizes key_count non_empty_dicts].
  destruct (0 <=? didx); [|done]. destruct (dicts kvs !! Z.to_nat didx) as [[d|]|]; cbn [mbind option_bind]; [|done|done].
  destruct (num_dicts kvs =? 1); [done|]. destruct (dict_sizes kvs) as [ft|]; [|done]. by destruct (fwTreeUpdate ft didx delta).
Qed.

(** Taking the dict of a slot away. *)
Lemma drop_dict_ok (kvs : kvstore) didx d : kv_core kvs -> 0 <= didx < num_dicts kvs -> dicts kvs !! Z.to_nat didx = Some (Some d) ->
  exists k1, cumulativeKeyCountAdd (set_dicts kvs (dicts kvs) (allocated_dicts kvs - 1)) didx (- dictSize d) = Some k1 /\
    let k2 := set_dicts k1 (<[Z.to_nat didx := None]> (dicts k1)) (allocated_dicts k1) in
    kv_core k2 /\ num_dicts k2 = num_dicts kvs /\ slot_maps k2 = <[Z.to_nat didx := ∅]> (slot_maps kvs).
Proof.
  intros Hs Hd Hi. pose proof (ks_wf _ _ _ Hs _ _ Hi) as Hw. pose proof (dict_map_size hash d Hw) as Hsz. fold (msize (dict_map d)) in Hsz.
  pose proof (slot_lookup kvs didx _ Hi) as Hm. cbn [slot_map] in Hm.
  assert (Hc : rd (msize <$> slot_maps kvs) didx = Some (msize (dict_map d))) by (rewrite rd_lookup by lia; by rewrite list_lookup_fmap, Hm).
  destruct (cumulative_ok hash kvs (msize <$> slot_maps kvs) didx d (msize (dict_map d)) (- dictSize d) Hs ltac:(lia) Hi Hc)
    as (k1 & Hk1 & Hs1 & Hd1 & Hn1 & _ & _ & Ha1 & _); [lia|pose proof (ks_bound _ _ _ Hs); unfold msize in Hsz; lia|].
  rewrite cumulative_alloc, Hk1. cbn [fmap option_fmap option_map]. eexists. split; [done|].
  cbn [set_dicts dicts allocated_dicts]. assert (Hi1 : dicts k1 !! Z.to_nat didx = Some (Some d)) by (by rewrite Hd1).
  pose proof (set_dict_shape hash k1 _ (Z.to_nat didx) (Some d) None Hs1 Hi1) as Hs2. cbn [is_alloc] in Hs2.
  rewrite Z.add_0_r, Ha1 in Hs2. specialize (Hs2 ltac:(done)).
  assert (Hmaps : slot_maps (set_dicts k1 (<[Z.to_nat didx := None]> (dicts k1)) (allocated_dicts kvs - 1)) =
    <[Z.to_nat didx := ∅]> (slot_maps kvs)).
  { unfold slot_maps. cbn [set_dicts dicts]. by rewrite list_fmap_insert, Hd1. }
  split; [|split; [done|exact Hmaps]].
  assert (Hcs : add_count (msize <$> slot_maps kvs) didx (- dictSize d) = msize <$> <[Z.to_nat didx := ∅]> (slot_maps kvs)).
  { rewrite <- (add_count_sizes _ didx (dict_map d)) by done. f_equal. unfold msize at 1. rewrite map_size_empty. lia. }
  rewrite Hcs in Hs2. unfold KvstoreSpec.kv_core.
  change (slot_maps (set_dicts (set_dicts k1 (dicts k1) (allocated_dicts kvs - 1)) (<[Z.to_nat didx:=None]> (dicts k1)) (allocated_dicts kvs - 1)))
    with (slot_maps (set_dicts k1 (<[Z.to_nat didx := None]> (dicts k1)) (allocated_dicts kvs - 1))).
  rewrite Hmaps. exact Hs2.
Qed.

(** Putting a dict into a slot without one. *)
Lemma take_dict_ok (dst : kvstore) didx d : kv_core dst -> 0 <= didx < num_dicts dst -> dicts dst !! Z.to_nat didx = Some None ->
  dict_wf d -> key_count dst + dictSize d < UINT64_MAX ->
  exists dst', cumulativeKeyCountAdd (set_dicts dst (<[Z.to_nat didx := Some d]> (dicts dst)) (allocated_dicts dst + 1)) didx (dictSize d) = Some dst' /\
    kv_core dst' /\ slot_maps dst' = <[Z.to_nat didx := dict_map d]> (slot_maps dst).
Proof.
  intros Ht Hd Hnone Hw Hb. pose proof (dict_map_size hash d Hw) as Hsz. fold (msize (dict_map d)) in Hsz.
  pose proof (set_dict_shape hash dst _ (Z.to_nat didx) None (Some d) Ht Hnone) as Hs2. cbn [is_alloc] in Hs2. rewrite Z.sub_0_r in Hs2.
  set (d1 := set_dicts _ _ _) in *. assert (Hmaps : slot_maps d1 = <[Z.to_nat didx := dict_map d]> (slot_maps dst)).
  { unfold slot_maps, d1. cbn [set_dicts dicts]. by rewrite list_fmap_insert. }
  pose proof (slot_lookup dst didx None Hnone) as Hdn. cbn [slot_map] in Hdn.
  destruct (account_ok hash d1 (slot_maps dst) didx d ∅ (dictSize d)) as (dst' & Hc & Hk & Hds & _); try done.
  - apply Hs2. by intros ? [= <-].
  - lia.
  - cbn. by rewrite list_lookup_insert_eq by (by apply lookup_lt_Some in Hnone).
  - unfold msize at 2. rewrite map_size_empty. lia.
  - rewrite <- (ks_count _ _ _ Ht). lia.
  - exists dst'. split; [done|]. split; [done|]. unfold slot_maps at 1. rewrite Hds. exact Hmaps.
Qed.

(** The dict moves with its keys, and every counter but [non_empty_dicts]
    follows. *)
Lemma kv_move_ok (kvs dst : kvstore) didx m : kv_core kvs -> kv_core dst -> num_dicts dst = num_dicts kvs ->
  0 <= didx < num_dicts kvs -> dicts dst !! Z.to_nat didx = Some None -> slot_maps kvs !! Z.to_nat didx = Some m ->
  key_count dst + msize m < UINT64_MAX ->
  exists kvs' dst', kvstoreMoveDict kvs dst didx = Some (kvs', dst') /\ kv_core kvs' /\ kv_core dst' /\
    slot_maps kvs' = <[Z.to_nat didx := ∅]> (slot_maps kvs) /\ slot_maps dst' = <[Z.to_nat didx := m]> (slot_maps dst).
Proof.
  intros Hs Ht Hn Hd Hnone Hm Hb. unfold kvstoreMoveDict, cassert.
  destruct (Z.gtb_spec (num_dicts kvs) didx); [|lia]. rewrite (proj2 (Z.eqb_eq (num_dicts kvs) _)) by done. cbn [mbind option_bind].
  unfold kvstoreGetDict. rewrite (proj2 (Z.leb_le 0 didx)), Hnone by lia. cbn [mbind option_bind].
  rewrite bool_decide_false by (by intros [? ?]). cbn [negb mbind option_bind].
  destruct (get_dict_Some hash kvs _ didx Hs Hd) as (od & _ & Hi). rewrite Hi. cbn [mbind option_bind].
  pose proof (slot_lookup kvs didx od Hi) as Hsl. rewrite Hm in Hsl. injection Hsl as ->.
  pose proof (slot_lookup dst didx None Hnone) as Hdn. cbn [slot_map] in Hdn. destruct od as [d|]; cbn [slot_map] in *.
  2:{ exists kvs, dst. split; [done|]. split; [done|]. split; [done|]. by rewrite !list_insert_id. }
  pose proof (ks_wf _ _ _ Hs _ _ Hi) as Hw. pose proof (dict_map_size hash d Hw) as Hsz. fold (msize (dict_map d)) in Hsz.
  destruct (drop_dict_ok kvs didx d Hs Hd Hi) as (k1 & -> & Hk2 & Hn2 & Hm2). cbn [mbind option_bind].
  set (k2 := set_dicts k1 _ _) in *.
  destruct (take_dict_ok dst didx d) as (dst' & Hdst & Hkd & Hmd); [done|lia|done|done|lia|].
  assert (Hk3 : exists k3, (if on_demand k2 || free_empty k2 then Some k2 else '(k3, _) ← createDictIfNeeded k2 didx; Some k3) = Some k3 /\
    kv_core k3 /\ slot_maps k3 = slot_maps k2).
  { destruct (on_demand k2 || free_empty k2); [by exists k2|].
    destruct (create_needed_ok hash k2 _ didx Hk2) as (k3 & dn & -> & Hs3 & _ & _ & Hm3 & _); [lia|]. exists k3. split; [done|].
    split; [|done]. unfold KvstoreSpec.kv_core. by rewrite Hm3. }
  destruct Hk3 as (k3 & -> & Hk3 & Hm3). cbn [mbind option_bind]. rewrite Hdst. cbn [mbind option_bind].
  exists k3, dst'. split; [done|]. split; [done|]. split; [done|]. by rewrite Hm3, Hm2, Hmd.
Qed.

(** ** Scanning *)

Context (hash_u64 : forall k, 0 <= hash k < 2 ^ 64).

(** The cursor of a dict fits its table. *)
Lemma scan_cursor_bound (d : dict) v v' em : dict_wf d -> 0 <= v < 2 ^ 64 -> dictScan d v = Some (v', em) ->
  ht_size_exp (ht0 d) <= 48 -> ht_size_exp (ht1 d) <= 48 -> 0 <= v' < 2 ^ 48.
Proof.
  intros Hw Hv Hs He0 He1. destruct (scan_step hash hash_u64 d v Hw Hv) as (v2 & em2 & Hs2 & Hr & _ & Hor).
  rewrite Hs in Hs2. injection Hs2 as <- <-. destruct Hor as [->|[He Hrev]]; [lia|].
  assert (Hle : scan_exp d <= 48) by (unfold scan_exp; destruct (dictIsRehashing d); lia).
  split; [lia|]. rewrite <- (rev_involutive v') by done.
  destruct (Z_lt_ge_dec v' (2 ^ 48)) as [Hlt|Hge]; [by rewrite rev_involutive|]. exfalso.
  assert (Hb : exists i, 48 <= i < 64 /\ Z.testbit v' i = true).
  { exists (Z.log2 v'). assert (48 <= Z.log2 v') by (apply Z.log2_le_pow2; lia). assert (Z.log2 v' < 64) by (apply Z.log2_lt_pow2; lia).
    split; [lia|]. apply Z.bit_log2. lia. }
  destruct Hb as (i & Hi & Hb). replace i with (63 - (63 - i)) in Hb by lia. rewrite <- rev_bit, Hrev in Hb by lia.
  rewrite testbit_u64 in Hb by lia. replace ((pos (scan_exp d) v + 1) * 2 ^ (64 - scan_exp d)) with (Z.shiftl (pos (scan_exp d) v + 1) (64 - scan_exp d)) in Hb
    by (rewrite Z.shiftl_mul_pow2; lia).
  rewrite Z.shiftl_spec_low in Hb by lia. done.
Qed.
(** The dict index in the low bits of the cursor. *)
Lemma cursor_roundtrip (kvs : kvstore) didx v : kv_core kvs -> 0 <= didx < num_dicts kvs -> 0 <= v < 2 ^ 48 ->
  let c := addDictIndexToCursor kvs didx v in
  getAndClearDictIndexFromCursor kvs c = (didx, v) /\ 0 <= c < 2 ^ 64 /\ (c = 0 -> didx = 0 /\ v = 0).
Proof.
  intros Hs Hd Hv. cbn zeta. unfold addDictIndexToCursor, getAndClearDictIndexFromCursor. pose proof (ks_bits _ _ _ Hs) as Hb.
  pose proof (ks_num _ _ _ Hs) as Hn. destruct (Z.eqb_spec (num_dicts kvs) 1) as [H1|H1].
  { split; [f_equal; lia|]. split; [lia|]. lia. }
  rewrite (proj2 (Z.ltb_ge didx 0)) by lia. set (B := num_dicts_bits kvs) in *.
  assert (Hvb : 0 <= v * 2 ^ B < 2 ^ 64).
  { split; [apply Z.mul_nonneg_nonneg; lia|]. assert (2 ^ B <= 2 ^ 16) by (apply Z.pow_le_mono_r; lia). nia. }
  assert (Hsh : u64 (Z.shiftl v B) = Z.shiftl v B) by (apply wrapu_id; rewrite Z.shiftl_mul_pow2; lia).
  rewrite Hsh, Z.lor_comm, lor_shiftl_add by lia. rewrite Hn at 1. rewrite land_ones by lia.
  rewrite Z.shiftr_div_pow2, Z.mod_add, Z.mod_small, Z.div_add, Z.div_small, Z.add_0_l by lia.
  split; [done|]. assert (2 ^ 64 = 2 ^ (64 - B) * 2 ^ B) by (rewrite <- Z.pow_add_r by lia; f_equal; lia).
  assert (2 ^ 48 <= 2 ^ (64 - B)) by (apply Z.pow_le_mono_r; lia). split; [nia|]. intros. assert (didx = 0) by lia. nia.
Qed.

Definition small_tables (kvs : kvstore) : Prop :=
  forall i d, dicts kvs !! i = Some (Some d) -> ht_size_exp (ht0 d) <= 48 /\ ht_size_exp (ht1 d) <= 48.

(** The place of a cursor is not after the key. *)
Definition before (s : nat) (k : K) (kvs : kvstore) (cursor : Z) : Prop :=
  let '(didx, v) := getAndClearDictIndexFromCursor kvs cursor in
  0 <= didx < num_dicts kvs /\ 0 <= v < 2 ^ 64 /\ (didx < Z.of_nat s \/ didx = Z.of_nat s /\ rev v <= rev (hash k)).

(** Going on with the next dict that is not empty. *)
Lemma next_before (kvs : kvstore) didx s m k : kv_core kvs -> 0 <= didx < Z.of_nat s -> slot_maps kvs !! s = Some m -> is_Some (m !! k) ->
  exists r, kvstoreGetNextNonEmptyDictIndex kvs didx = Some r /\ r <> -1 /\
    addDictIndexToCursor kvs r 0 <> 0 /\ before s k kvs (addDictIndexToCursor kvs r 0).
Proof.
  intros Hs Hd Hm Hk. assert (Hsn : Z.of_nat s < num_dicts kvs).
  { rewrite <- (ks_len _ _ _ Hs). apply lookup_lt_Some in Hm. unfold slot_maps in Hm. rewrite length_fmap in Hm. unfold zlen. lia. }
  assert (Hpos : rd (msize <$> slot_maps kvs) (Z.of_nat s) = Some (msize m) /\ 0 < msize m).
  { rewrite rd_lookup, Nat2Z.id, list_lookup_fmap, Hm by lia. split; [done|]. unfold msize.
    destruct (decide (size m = 0%nat)) as [E|]; [|lia]. apply map_size_empty_inv in E. rewrite E, lookup_empty in Hk. by destruct Hk. }
  destruct Hpos as [Hrd Hms]. destruct (next_nonempty_ok kvs didx Hs) as (r & Hr & Hf); [lia|]. exists r. split; [done|].
  destruct Hf as [[-> Hz]|[Hrange [_ Hz]]].
  { specialize (Hz (Z.of_nat s)). rewrite (ks_cs _ _ _ Hs), Hrd in Hz. specialize (Hz ltac:(lia)). injection Hz. lia. }
  rewrite (ks_cs _ _ _ Hs) in Hrange. split; [lia|].
  destruct (cursor_roundtrip kvs r 0 Hs) as (Hc & Hc64 & Hc0); [lia|lia|]. split; [intros E; apply Hc0 in E; lia|].
  unfold before. rewrite Hc. split; [lia|]. split; [lia|]. rewrite rev_0. pose proof (rev_range _ (hash_u64 k)).
  destruct (decide (r = Z.of_nat s)) as [->|]; [right; lia|left]. destruct (decide (r < Z.of_nat s)); [done|].
  specialize (Hz (Z.of_nat s) ltac:(lia)). rewrite Hrd in Hz. injection Hz. lia.
Qed.

(** One call: the key is emitted, or the new cursor is not after it. *)
Lemma kv_scan_step (kvs : kvstore) cursor s m k : kv_core kvs -> small_tables kvs -> slot_maps kvs !! s = Some m -> is_Some (m !! k) ->
  before s k kvs cursor ->
  exists c' kvs' em, kvstoreScan can_free kvs cursor (-1) (fun _ _ => false) = Some (c', kvs', em) /\
    (k ∈ em.*1 \/ c' <> 0 /\ before s k kvs c').
Proof.
  intros Hs Hsm Hm Hk Hbef. unfold kvstoreScan. unfold before in Hbef.
  destruct (getAndClearDictIndexFromCursor kvs cursor) as [didx v]. destruct Hbef as (Hd & Hv & Hor). cbn [Z.geb Z.compare andb mbind option_bind].
  destruct (get_dict_Some hash kvs _ didx Hs Hd) as (od & -> & Hi). cbn [mbind option_bind]. destruct od as [d|].
  - pose proof (ks_wf _ _ _ Hs _ _ Hi) as Hw. destruct (Hsm _ _ Hi) as [He0 He1].
    destruct (scan_step hash hash_u64 d v Hw Hv) as (v' & em & Hsc & Hv' & Ha & _). rewrite Hsc. cbn [mbind option_bind].
    pose proof (scan_cursor_bound d v v' em Hw Hv Hsc He0 He1) as Hb48.
    destruct (free_needed_ok hash can_free kvs _ didx Hs Hd) as (k1 & -> & Hs1 & Hm1 & _ & Hn1 & Hb1 & Hf1 & _). cbn [mbind option_bind].
    rewrite orb_false_r. assert (Hadd : forall r c, addDictIndexToCursor k1 r c = addDictIndexToCursor kvs r c).
    { intros. unfold addDictIndexToCursor. by rewrite Hn1, Hb1. }
    assert (Hnx : forall r, kvstoreGetNextNonEmptyDictIndex k1 r = kvstoreGetNextNonEmptyDictIndex kvs r).
    { intros. unfold kvstoreGetNextNonEmptyDictIndex. by rewrite Hn1, Hf1. }
    assert (Hem : didx = Z.of_nat s -> rev v <= rev (hash k) -> k ∈ em.*1 \/ v' <> 0 /\ rev v' <= rev (hash k)).
    { intros -> Hle. rewrite Nat2Z.id in Hi. pose proof (slot_lookup kvs (Z.of_nat s) (Some d)) as Hsl. rewrite Nat2Z.id in Hsl. rewrite (Hsl Hi) in Hm.
      injection Hm as <-. destruct Hk as [x Hx]. apply (dict_map_lookup hash) in Hx; [|done]. destruct (Ha k x Hx Hle) as [Hin|]; [left|by right].
      apply list_elem_of_fmap. by exists (k, x). }
    destruct (Z.eqb_spec v' 0) as [->|Hv0].
    + rewrite Hnx. destruct Hor as [Hlt|[He Hle]].
      * destruct (next_before kvs didx s m k Hs ltac:(lia) Hm Hk) as (r & -> & Hr1 & Hr0 & Hrb). cbn [mbind option_bind].
        rewrite (proj2 (Z.eqb_neq r _)) by done. eexists _, _, _. split; [done|]. right. by rewrite Hadd.
      * destruct (Hem He Hle) as [Hin|[? _]]; [|done].
        destruct (next_nonempty_ok kvs didx Hs Hd) as (r & -> & _). cbn [mbind option_bind]. destruct (r =? -1); by eexists _, _, _; split; [done|left].
    + eexists _, _, _. split; [done|]. rewrite Hadd. destruct (cursor_roundtrip kvs didx v' Hs Hd Hb48) as (Hc & _ & Hc0).
      destruct (decide (k ∈ em.*1)) as [|Hnin]; [by left|right]. split; [intros E; by apply Hc0 in E as [_ ?]|].
      unfold before. rewrite Hc. split; [done|]. split; [lia|]. destruct Hor as [|[He Hle]]; [by left|right].
      split; [done|]. by destruct (Hem He Hle) as [|[_ ?]].
  - cbn [mbind option_bind]. change (0 =? 0) with true. cbn [orb]. destruct Hor as [Hlt|[He Hle]].
    + destruct (next_before kvs didx s m k Hs ltac:(lia) Hm Hk) as (r & -> & Hr1 & Hr0 & Hrb). cbn [mbind option_bind].
      rewrite (proj2 (Z.eqb_neq r _)) by done. eexists _, _, _. split; [done|]. by right.
    + exfalso. pose proof (slot_lookup kvs didx None Hi) as Hsl. rewrite He, Nat2Z.id, Hm in Hsl. injection Hsl as ->.
      cbn in Hk. rewrite lookup_empty in Hk. by destruct Hk.
Qed.

(** The calls of an iteration; [ks] are the kvstores they see. *)
Fixpoint kv_scan_seq (ks : list kvstore) (cursor : Z) : option (Z * list (K * V)) :=
  match ks with
  | [] => Some (cursor, [])
  | kvs :: ks =>
      '(c, _, em) ← kvstoreScan can_free kvs cursor (-1) (fun _ _ => false);
      '(c, ems) ← kv_scan_seq ks c;
      Some (c, em ++ ems)
  end.

Lemma kv_scan_covers ks bits s k : forall cursor cs, ks <> [] ->
  Forall (fun kvs : kvstore => kv_core kvs /\ num_dicts_bits kvs = bits /\ small_tables kvs /\
    exists m, slot_maps kvs !! s = Some m /\ is_Some (m !! k)) ks ->
  (forall kvs, head ks = Some kvs -> before s k kvs cursor) ->
  kv_scan_seq ks cursor = Some (0, cs) -> k ∈ cs.*1.
Proof.
  induction ks as [|kvs ks IH]; intros cursor cs Hne Hall Hbef Hseq; [done|]. cbn [kv_scan_seq] in Hseq.
  apply list.Forall_cons in Hall as [(Hs & Hb & Hsm & m & Hm & Hk) Hall].
  destruct (kv_scan_step kvs cursor s m k Hs Hsm Hm Hk (Hbef kvs eq_refl)) as (c' & kvs' & em & Hsc & Hor). rewrite Hsc in Hseq.
  cbn [mbind option_bind] in Hseq. destruct (kv_scan_seq ks c') as [[c2 ems]|] eqn:Erest; [|done]. cbn [mbind option_bind] in Hseq.
  injection Hseq as -> <-. rewrite fmap_app, elem_of_app. destruct Hor as [Hin|[Hc0 Hb']]; [by left|right].
  destruct ks as [|kvs2 ks]; [cbn in Erest; by injection Erest|]. apply (IH c'); [done|done| |done].
  intros k2 [= <-]. apply list.Forall_cons in Hall as [(Hs2 & Hb2 & _) _]. unfold before in *.
  assert (Hsame : getAndClearDictIndexFromCursor kvs2 c' = getAndClearDictIndexFromCursor kvs c').
  { unfold getAndClearDictIndexFromCursor. by rewrite (ks_num _ _ _ Hs), (ks_num _ _ _ Hs2), Hb, Hb2. }
  rewrite Hsame. destruct (getAndClearDictIndexFromCursor kvs c') as [didx v].
  by rewrite (ks_num _ _ _ Hs2), Hb2, <- Hb, <- (ks_num _ _ _ Hs).
Qed.
End Ops.

(** * kvstore: theorems *)

(** ** The abstract keyspace: a map per slot *)

Section Refinement.
Context {K V : Type} `{Countable K}.
Context (hash : K -> Z) (can_free : Z -> bool).
Context (resize_allowed : Z -> Z -> Z -> bool) (force_full_rehash : bool) (can_resize : dictResizeEnable).

Inductive kv_op :=
  | KSet (didx : Z) (k : K) (v : V)
  | KDelete (didx : Z) (k : K)
  | KUnlink (didx : Z) (k : K)
  | KFind (didx : Z) (k : K)
  | KEmpty
  | KResize (limit : Z).

Definition op_slot (op : kv_op) : option Z :=
  match op with
  | KSet didx _ _ | KDelete didx _ | KUnlink didx _ | KFind didx _ => Some didx
  | KEmpty | KResize _ => None
  end.

(** What an operation returns: whether a key was deleted, the entry that was found. *)
Inductive kv_answer := KDone | KDeleted (ok : bool) | KFound (e : option (K * V)).

(** What an operation does to the kvstore, and to the maps. *)
Definition kv_step (kvs : kvstore K V) (op : kv_op) : option (kvstore K V * kv_answer) :=
  match op with
  | KSet didx k v => kvs ← kv_set hash resize_allowed force_full_rehash can_resize kvs didx k v; Some (kvs, KDone)
  | KDelete didx k =>
      '(kvs, ok) ← kvstoreDictDelete hash resize_allowed force_full_rehash can_resize can_free kvs didx k; Some (kvs, KDeleted ok)
  | KUnlink didx k => kvs ← kv_unlink hash can_free resize_allowed force_full_rehash can_resize kvs didx k; Some (kvs, KDone)
  | KFind didx k => '(kvs, e) ← kvstoreDictFind hash can_resize kvs didx k; Some (kvs, KFound e)
  | KEmpty => kvs ← kvstoreEmpty can_free kvs; Some (kvs, KDone)
  | KResize limit => kvs ← kvstoreTryResizeDicts hash resize_allowed force_full_rehash can_resize kvs limit; Some (kvs, KDone)
  end.

Definition abs_step (ms : list (gmap K V)) (op : kv_op) : list (gmap K V) :=
  match op with
  | KSet didx k v => alter (insert k v) (Z.to_nat didx) ms
  | KDelete didx k | KUnlink didx k => alter (delete k) (Z.to_nat didx) ms
  | KFind _ _ | KResize _ => ms
  | KEmpty => replicate (length ms) ∅
  end.

(** The answer of the maps. *)
Definition abs_answer (ms : list (gmap K V)) (op : kv_op) : kv_answer :=
  match op with
  | KDelete didx k => KDeleted (bool_decide (is_Some (default ∅ (ms !! Z.to_nat didx) !! k)))
  | KFind didx k => KFound ((fun v => (k, v)) <$> default ∅ (ms !! Z.to_nat didx) !! k)
  | KSet _ _ _ | KUnlink _ _ | KEmpty | KResize _ => KDone
  end.

(** Sequences of operations, with their answers. *)
Fixpoint kv_run (kvs : kvstore K V) (ops : list kv_op) : option (kvstore K V * list kv_answer) :=
  match ops with
  | [] => Some (kvs, [])
  | op :: ops =>
      '(kvs, a) ← kv_step kvs op;
      '(kvs, l) ← kv_run kvs ops;
      Some (kvs, a :: l)
  end.

Fixpoint abs_answers (ms : list (gmap K V)) (ops : list kv_op) : list kv_answer :=
  match ops with
  | [] => []
  | op :: ops => abs_answer ms op :: abs_answers (abs_step ms op) ops
  end.

Lemma create_kv_ok bits od fe : 0 <= bits <= 16 ->
  exists kvs, kvstoreCreate bits od fe = Some kvs /\ kv_ok hash kvs /\ num_dicts kvs = 2 ^ bits /\
    slot_maps kvs = replicate (Z.to_nat (2 ^ bits)) (∅ : gmap K V).
Proof.
  intros Hb. unfold kvstoreCreate, cassert. rewrite (proj2 (Z.leb_le bits 16)) by lia. cbn [mbind option_bind].
  rewrite Z.shiftl_mul_pow2, Z.mul_1_l by lia. pose proof (Z.pow_pos_nonneg 2 bits ltac:(lia) ltac:(lia)) as Hp.
  eexists. split; [done|]. set (kvs := {| dicts := _ |}).
  assert (Hm : slot_maps kvs = replicate (Z.to_nat (2 ^ bits)) ∅).
  { unfold slot_maps. cbn [dicts kvs]. rewrite fmap_replicate. by destruct od. }
  assert (Hz : forall f : gmap K V -> Z, f ∅ = 0 -> zsum (f <$> slot_maps kvs) = 0).
  { intros f Hf. rewrite (zsum_const f 0), Z.mul_0_l; [done|]. rewrite Hm. by apply Forall_replicate. }
  assert (Hms : msize (∅ : gmap K V) = 0) by (unfold msize; by rewrite map_size_empty).
  split; [|done]. split; [|cbn [kvs non_empty_dicts]; rewrite Hz; [done|unfold nonempty; by rewrite Hms]].
  split; cbn [kvs dicts num_dicts num_dicts_bits resize_cursor allocated_dicts key_count dict_sizes]; try done; try lia.
  - unfold zlen. rewrite length_replicate. lia.
  - intros i d Hi. apply lookup_replicate in Hi as [Hi _]. destruct od; [done|]. injection Hi as ->. apply create_wf.
  - assert (Hc : forall c n, zsum (replicate n c) = c * Z.of_nat n).
    { intros c n. rewrite <- (list_fmap_id (replicate n c)), (zsum_const id c); [unfold zlen; by rewrite length_replicate|by apply Forall_replicate]. }
    rewrite fmap_replicate, Hc. destruct od; cbn [is_alloc]; lia.
  - rewrite Hm, fmap_replicate. unfold zlen. rewrite length_replicate. lia.
  - apply sizes_nonneg.
  - by rewrite Hz.
  - rewrite Hz; done.
  - destruct (Z.gtb_spec (2 ^ bits) 1); [right; split; [lia|]|left; split; [lia|done]].
    eexists. split; [done|]. rewrite Hm, fmap_replicate, Hms. apply fw_create_ok. lia.
Qed.

Lemma alter_slot (ms : list (gmap K V)) i m f : ms !! i = Some m -> alter f i ms = <[i := f m]> ms.
Proof.
  intros Hm. apply list_eq. intros j. destruct (decide (i = j)) as [<-|Hne].
  - rewrite list_lookup_alter_eq, Hm, list_lookup_insert_eq by (by apply lookup_lt_Some in Hm). done.
  - by rewrite list_lookup_alter_ne, list_lookup_insert_ne.
Qed.

Lemma total_insert (ms : list (gmap K V)) i m m' : ms !! i = Some m ->
  zsum (msize <$> <[i := m']> ms) = zsum (msize <$> ms) - msize m + msize m'.
Proof. apply zsum_insert. Qed.

Lemma kv_step_ok kvs op : kv_ok hash kvs -> (forall didx, op_slot op = Some didx -> 0 <= didx < num_dicts kvs) ->
  zsum (msize <$> slot_maps kvs) + 1 < UINT64_MAX ->
  exists kvs', kv_step kvs op = Some (kvs', abs_answer (slot_maps kvs) op) /\ kv_ok hash kvs' /\ num_dicts kvs' = num_dicts kvs /\
    slot_maps kvs' = abs_step (slot_maps kvs) op /\ zsum (msize <$> slot_maps kvs') <= zsum (msize <$> slot_maps kvs) + 1.
Proof.
  intros Hk Hslot Hb.
  assert (Hget : forall didx, 0 <= didx < num_dicts kvs -> exists m, slot_maps kvs !! Z.to_nat didx = Some m).
  { intros didx Hd. destruct (get_dict_Some hash kvs _ didx (proj1 Hk) Hd) as (od & _ & Hi). exists (slot_map od). by apply slot_lookup. }
  assert (Hdel : forall (m : gmap K V) k, msize (delete k m) <= msize m).
  { intros m k. unfold msize. rewrite map_size_delete. destruct (m !! k); cbn; lia. }
  destruct op as [didx k v|didx k|didx k|didx k| |limit]; cbn [kv_step abs_step abs_answer op_slot] in *;
    try (specialize (Hslot didx eq_refl); destruct (Hget didx Hslot) as [m Hm]; rewrite ?Hm; cbn [default id]).
  - destruct (kv_set_ok hash resize_allowed force_full_rehash can_resize kvs didx k v m Hk Hslot Hm Hb) as (kvs' & -> & Hk' & Hm' & Hn').
    exists kvs'. split; [done|]. split; [done|]. split; [done|]. split; [by rewrite Hm', (alter_slot _ _ m)|].
    rewrite Hm', (total_insert _ _ m) by done. destruct (m !! k) as [v0|] eqn:Hkv.
    + rewrite (msize_insert_old m k v v0) by done. lia. + rewrite msize_insert_new by done. lia.
  - destruct (kv_delete_ok hash can_free resize_allowed force_full_rehash can_resize kvs didx k m Hk Hslot Hm) as (kvs' & -> & Hk' & Hm' & Hn').
    cbn [mbind option_bind]. exists kvs'. split; [done|]. split; [done|]. split; [done|]. split; [by rewrite Hm', (alter_slot _ _ m)|].
    rewrite Hm', (total_insert _ _ m) by done. specialize (Hdel m k). lia.
  - destruct (kv_unlink_ok hash can_free resize_allowed force_full_rehash can_resize kvs didx k m Hk Hslot Hm) as (kvs' & -> & Hk' & Hm' & Hn').
    exists kvs'. split; [done|]. split; [done|]. split; [done|]. split; [by rewrite Hm', (alter_slot _ _ m)|].
    rewrite Hm', (total_insert _ _ m) by done. specialize (Hdel m k). lia.
  - destruct (kv_find_ok hash can_resize kvs didx k m Hk Hslot Hm) as (kvs' & -> & Hk' & Hm' & Hn'). cbn [mbind option_bind].
    exists kvs'. rewrite Hm'. do 4 (split; [done|]). lia.
  - destruct (kv_empty_ok hash can_free kvs _ (proj1 Hk)) as (kvs' & -> & Hk' & Hn' & Hm'). exists kvs'. split; [done|]. split; [done|]. split; [done|].
    assert (Hlen : length (slot_maps kvs) = Z.to_nat (num_dicts kvs)).
    { unfold slot_maps. rewrite length_fmap. pose proof (ks_len _ _ _ (proj1 Hk)) as Hl. unfold zlen in Hl. lia. }
    split; [by rewrite Hm', Hlen|]. rewrite Hm', (zsum_const msize 0).
    + pose proof (zsum_nonneg _ (sizes_nonneg (slot_maps kvs))). lia.
    + apply Forall_replicate. unfold msize. by rewrite map_size_empty.
  - destruct (kv_try_resize_ok hash resize_allowed force_full_rehash can_resize kvs limit Hk) as (kvs' & -> & Hk' & Hm' & Hn').
    exists kvs'. rewrite Hm'. do 4 (split; [done|]). lia.
Qed.

Lemma kv_run_ok ops : forall kvs, kv_ok hash kvs ->
  Forall (fun op => forall didx, op_slot op = Some didx -> 0 <= didx < num_dicts kvs) ops ->
  zsum (msize <$> slot_maps kvs) + zlen ops + 1 < UINT64_MAX ->
  exists kvs', kv_run kvs ops = Some (kvs', abs_answers (slot_maps kvs) ops) /\ kv_ok hash kvs' /\ slot_maps kvs' = foldl abs_step (slot_maps kvs) ops.
Proof.
  induction ops as [|op ops IH]; intros kvs Hk Hv Hb; cbn [kv_run abs_answers foldl]; [by exists kvs|].
  apply list.Forall_cons in Hv as [Hop Hv]. rewrite zlen_cons in Hb. pose proof (zlen_nonneg ops).
  destruct (kv_step_ok kvs op Hk Hop) as (kvs1 & -> & Hk1 & Hn1 & Hm1 & Hz1); [lia|]. cbn [mbind option_bind]. rewrite <- Hm1.
  destruct (IH kvs1 Hk1) as (kvs' & -> & Hk' & Hm'); [by rewrite Hn1|lia|]. by exists kvs'.
Qed.
End Refinement.

Arguments kv_op : clear implicits.
Arguments kv_answer : clear implicits.

(** ** Theorems *)

Section Theorems.
Context {K V : Type} `{Countable K}.
Context (hash : K -> Z) (can_free : Z -> bool).
Context (resize_allowed : Z -> Z -> Z -> bool) (force_full_rehash : bool) (can_resize : dictResizeEnable).

(** C31: A kvstore refines an array of maps: in any sequence of fewer than [2^63]
    sets, deletions (also in two phases), lookups, emptyings and resizings of dicts,
    on slots that exist of a new kvstore of up to [2^16] slots, whatever its flags,
    every lookup and deletion answers as the maps do; at the end every slot holds
    the keys and values it should, no assertion failed, and the counters of keys,
    non-empty and allocated dicts and the Fenwick tree are exact.  Moving a dict
    between kvstores ([kvstoreMoveDict]) is not among the operations. *)
Theorem kvstore_refines_maps bits od fe (ops : list (kv_op K V)) : 0 <= bits <= 16 -> zlen ops < 2 ^ 63 ->
  Forall (fun op => forall didx, op_slot op = Some didx -> 0 <= didx < 2 ^ bits) ops ->
  exists kvs0 kvs, kvstoreCreate bits od fe = Some kvs0 /\
    kv_run hash can_free resize_allowed force_full_rehash can_resize kvs0 ops = Some (kvs, abs_answers (replicate (Z.to_nat (2 ^ bits)) ∅) ops) /\ kv_ok hash kvs /\
    slot_maps kvs = foldl abs_step (replicate (Z.to_nat (2 ^ bits)) ∅) ops.
Proof.
  intros Hb Hl Hv. destruct (create_kv_ok (V:=V) hash bits od fe Hb) as (kvs0 & Hc & Hk0 & Hn0 & Hm0).
  destruct (kv_run_ok hash can_free resize_allowed force_full_rehash can_resize ops kvs0 Hk0) as (kvs & Hr & Hk & Hm).
  - by rewrite Hn0.
  - rewrite Hm0, (zsum_const msize 0), Z.mul_0_l; [unfold UINT64_MAX; lia|]. apply Forall_replicate.
    unfold msize. by rewrite map_size_empty.
  - exists kvs0, kvs. rewrite <- Hm0. by split_and!.
Qed.

(** C32: The guarantee of [kvstoreScan], over all dicts: whatever happens to the
    kvstore between the calls, a key that is in its slot at every call is
    returned by an iteration from cursor 0 until the cursor is 0 again. *)
Theorem kvstoreScan_covers ks bits s k cs : (forall k, 0 <= hash k < 2 ^ 64) -> ks <> [] ->
  Forall (fun kvs : kvstore K V => kv_ok hash kvs /\ num_dicts_bits kvs = bits /\ small_tables kvs /\
    exists m, slot_maps kvs !! s = Some m /\ is_Some (m !! k)) ks ->
  kv_scan_seq can_free ks 0 = Some (0, cs) -> k ∈ cs.*1.
Proof.
  intros Hh Hne Hall. apply (kv_scan_covers hash can_free Hh ks bits s k 0 cs Hne).
  - eapply list.Forall_impl; [exact Hall|]. intros kvs ([Hk _] & Hrest). by split.
  - destruct ks as [|kvs ks]; [done|]. intros k2 [= <-]. apply list.Forall_cons in Hall as [([Hk _] & Hb & _) _].
    unfold before, getAndClearDictIndexFromCursor. pose proof (num_pos hash kvs _ Hk). pose proof (rev_range _ (Hh k)).
    destruct (Z.eqb_spec (num_dicts kvs) 1); rewrite ?Z.shiftr_0_l, ?Z.land_0_l, rev_0; split; try lia; split; try lia;
      destruct (decide (s = 0%nat)); lia.
Qed.

(** [kvstoreMoveDict] moves the keys of a slot to the other kvstore, and
    keeps the key counts, the allocation counts and the Fenwick trees of both
    exact; [non_empty_dicts] is not part of this. *)
Theorem kvstoreMoveDict_moves (kvs dst : kvstore K V) didx m : kv_core hash kvs -> kv_core hash dst -> num_dicts dst = num_dicts kvs ->
  0 <= didx < num_dicts kvs -> dicts dst !! Z.to_nat didx = Some None -> slot_maps kvs !! Z.to_nat didx = Some m ->
  key_count dst + msize m < UINT64_MAX ->
  exists kvs' dst', kvstoreMoveDict kvs dst didx = Some (kvs', dst') /\ kv_core hash kvs' /\ kv_core hash dst' /\
    slot_maps kvs' = <[Z.to_nat didx := ∅]> (slot_maps kvs) /\ slot_maps dst' = <[Z.to_nat didx := m]> (slot_maps dst).
Proof. apply kv_move_ok. Qed.

(** Without a filter, [kvstoreGetFairRandomDictIndex] picks the dict of the
    key whose number was drawn, so its dict is never empty and a dict with [n]
    of the [N] keys is picked for [n] of the [N] numbers. *)
Theorem kvstoreFairRandom_spec (kvs : kvstore K V) attempts slow r rand rstart : kv_ok hash kvs -> 0 < kvstoreSize kvs ->
  (0 < attempts)%nat ->
  exists didx m, kvstoreGetFairRandomDictIndex kvs (fun _ => false) attempts slow (r :: rand) rstart = Some didx /\
    slot_maps kvs !! Z.to_nat didx = Some m /\ m <> ∅ /\
    psum (msize <$> slot_maps kvs) didx <= r mod kvstoreSize kvs < psum (msize <$> slot_maps kvs) (didx + 1).
Proof.
  intros [Hk _] Hpos Hat. unfold kvstoreGetFairRandomDictIndex. pose proof (Z.mod_pos_bound r (kvstoreSize kvs) Hpos) as Hr.
  destruct (find_by_key_ok hash kvs (r mod kvstoreSize kvs + 1) Hk) as (didx & Hf & Hd & Hp); [lia|].
  assert (Hm : exists m, slot_maps kvs !! Z.to_nat didx = Some m /\ m <> ∅).
  { destruct (get_dict_Some hash kvs _ didx Hk Hd) as (od & _ & Hi). pose proof (slot_lookup kvs didx od Hi) as Hm.
    exists (slot_map od). split; [done|]. intros He. rewrite He in Hm.
    assert (Hc : rd (msize <$> slot_maps kvs) didx = Some 0).
    { rewrite rd_lookup by lia. rewrite list_lookup_fmap, Hm. cbn. unfold msize. by rewrite map_size_empty. }
    pose proof (psum_S _ _ _ (proj1 Hd) Hc). lia. }
  destruct Hm as (m & Hm & Hne). exists didx, m. split; [|split; [done|split; [done|lia]]].
  destruct (Z.eqb_spec (num_dicts kvs) 1) as [H1|H1].
  - cbn [orb]. f_equal. lia.
  - rewrite (proj2 (Z.eqb_neq (kvstoreSize kvs) 0)) by lia. cbn [orb]. destruct attempts as [|attempts]; [lia|].
    cbn [fair_loop head mbind option_bind]. rewrite Hf. done.
Qed.
End Theorems.

(** ** Counterexamples and witnesses *)

Definition sample_ops : list (kv_op Z Z) := [KSet 0 2 20; KSet 0 4 40; KSet 3 7 70; KSet 1 5 50; KFind 0 2; KDelete 1 5; KFind 1 5; KSet 0 2 21].

Definition sample_run (od fe : bool) : option (kvstore Z Z) :=
  kvs ← kvstoreCreate 2 od fe;
  fst <$> kv_run sample_hash (fun _ => true) sample_allowed false DICT_RESIZE_ENABLE kvs sample_ops.

Definition empty_kvs : kvstore Z Z :=
  {| dicts := []; num_dicts := 0; num_dicts_bits := 0; resize_cursor := 0; allocated_dicts := 0; non_empty_dicts := 0;
     key_count := 0; dict_sizes := None; on_demand := true; free_empty := true |}.

Definition sample_kvs : kvstore Z Z := default empty_kvs (sample_run true true).

Lemma sample_slots_ok : Forall (fun op : kv_op Z Z => forall didx, op_slot op = Some didx -> 0 <= didx < 2 ^ 2) sample_ops.
Proof. repeat (apply list.Forall_cons; split; [intros ? [= <-]; lia|]). apply list.Forall_nil. done. Qed.

Lemma kvstore_refines_maps_witness : exists kvs0 kvs, kvstoreCreate 2 true true = Some kvs0 /\
  kv_run sample_hash (fun _ => true) sample_allowed false DICT_RESIZE_ENABLE kvs0 sample_ops = Some (kvs, [KDone; KDone; KDone; KDone; KFound (Some (2, 20)); KDeleted true; KFound None; KDone]) /\ kv_ok sample_hash kvs /\
  slot_maps kvs = foldl abs_step (replicate (Z.to_nat (2 ^ 2)) ∅) sample_ops.
Proof.
  exact (kvstore_refines_maps sample_hash (fun _ => true) sample_allowed false DICT_RESIZE_ENABLE 2 true true sample_ops
    ltac:(lia) ltac:(vm_compute; reflexivity) sample_slots_ok).
Defined.

Lemma sample_kvs_ok : kv_ok sample_hash sample_kvs.
Proof.
  destruct (create_kv_ok (V:=Z) sample_hash 2 true true ltac:(lia)) as (kvs0 & Hc & Hk0 & Hn0 & Hm0).
  destruct (kv_run_ok sample_hash (fun _ => true) sample_allowed false DICT_RESIZE_ENABLE sample_ops kvs0 Hk0) as (kvs & Hr & Hk & _).
  - rewrite Hn0. exact sample_slots_ok.
  - rewrite Hm0. vm_compute. reflexivity.
  - unfold sample_kvs, sample_run. rewrite Hc. cbn [mbind option_bind]. by rewrite Hr.
Qed.

Definition sample_scan : list (Z * Z) := [(4, 40); (2, 21); (7, 70)].

Lemma sample_small : small_tables sample_kvs.
Proof.
  intros i d Hi. assert (Hall : Forall (fun od => match od with Some d => ht_size_exp (ht0 d) <= 48 /\ ht_size_exp (ht1 d) <= 48 | None => True end)
    (dicts sample_kvs)) by (vm_compute; repeat constructor; discriminate).
  apply list_elem_of_lookup_2 in Hi. rewrite list.Forall_forall in Hall. exact (Hall _ Hi).
Qed.

Lemma sample_has_7 : exists m, slot_maps sample_kvs !! 3%nat = Some m /\ is_Some (m !! 7).
Proof. eexists. split; [vm_compute; reflexivity|]. vm_compute. by eexists. Qed.

Lemma kvstoreScan_covers_witness : 7 ∈ sample_scan.*1.
Proof.
  exact (kvstoreScan_covers sample_hash (fun _ => true) (replicate 8 sample_kvs) 2 3 7 sample_scan sample_hash_u64 ltac:(discriminate)
    (Forall_replicate _ 8 _ (conj sample_kvs_ok (conj eq_refl (conj sample_small sample_has_7))))
    ltac:(vm_compute; reflexivity)).
Defined.

(** An empty kvstore to move dicts to, as the background trim of cluster slots
    creates it. *)
Definition sample_dst : kvstore Z Z := default empty_kvs (kvstoreCreate 2 true false).

Lemma sample_dst_ok : kv_ok sample_hash sample_dst.
Proof. destruct (create_kv_ok (V:=Z) sample_hash 2 true false ltac:(lia)) as (k & Hc & Hk & _). unfold sample_dst. by rewrite Hc. Qed.

Definition slot0 : gmap Z Z := <[2 := 21]> {[4 := 40]}.

Lemma kvstoreMoveDict_moves_witness :
  exists kvs' dst', kvstoreMoveDict sample_kvs sample_dst 0 = Some (kvs', dst') /\ kv_core sample_hash kvs' /\ kv_core sample_hash dst' /\
    slot_maps kvs' = <[0%nat := ∅]> (slot_maps sample_kvs) /\ slot_maps dst' = <[0%nat := slot0]> (slot_maps sample_dst).
Proof.
  exact (kvstoreMoveDict_moves sample_hash sample_kvs sample_dst 0 slot0 (proj1 sample_kvs_ok) (proj1 sample_dst_ok) eq_refl
    ltac:(vm_compute; split; [discriminate|reflexivity]) eq_refl ltac:(vm_compute; reflexivity) ltac:(vm_compute; reflexivity)).
Defined.

(** [kvstoreMoveDict] leaves [non_empty_dicts] wrong in both kvstores:
    after moving a dict of two keys, the source counts a dict it no longer has,
    and the destination does not count the one it got. *)
Theorem kvstoreMoveDict_miscounts : exists kvs' dst', kvstoreMoveDict sample_kvs sample_dst 0 = Some (kvs', dst') /\
  kvstoreNumNonEmptyDicts kvs' = 2 /\ zsum (nonempty <$> slot_maps kvs') = 1 /\
  kvstoreNumNonEmptyDicts dst' = 0 /\ zsum (nonempty <$> slot_maps dst') = 1.
Proof. eexists _, _. split; [vm_compute; reflexivity|]. vm_compute. done. Qed.

Lemma kvstoreFairRandom_spec_witness :
  exists didx m, kvstoreGetFairRandomDictIndex sample_kvs (fun _ => false) 1 false [5] 0 = Some didx /\
    slot_maps sample_kvs !! Z.to_nat didx = Some m /\ m <> ∅ /\
    psum (msize <$> slot_maps sample_kvs) didx <= 5 mod 3 < psum (msize <$> slot_maps sample_kvs) (didx + 1).
Proof.
  exact (kvstoreFairRandom_spec sample_hash sample_kvs 1 false 5 [] 0 sample_kvs_ok ltac:(vm_compute; reflexivity) ltac:(lia)).
Defined.

(** With a filter, the systematic search of [kvstoreGetFairRandomDictIndex]
    returns a dict without keys: it only tests that the dict is allocated. *)
Theorem kvstoreFairRandom_empty_dict : exists kvs, sample_run false false = Some kvs /\
  kvstoreGetFairRandomDictIndex kvs (fun didx => didx =? 0) 1 true [0] 0 = Some 1 /\ kvstoreDictSize kvs 1 = Some 0.
Proof. eexists. split; [vm_compute; reflexivity|]. vm_compute. done. Qed.
