(* ===== verification/SdsArgs.v ===== *)
(** * Quoted arguments (src/sds.c)

    [sdscatrepr] writes a byte string as a quoted, printable string;
    [sdssplitargs] splits a line into arguments, as the command line and the
    inline protocol do.  Strings are lists of bytes; a C string ends before its
    first NUL. *)

From stdpp Require Import base list numbers option tactics.
From S2P Require Import Prelude.

(** ** Model *)

Fixpoint c_str (s : list Z) : list Z :=
  match s with
  | [] => []
  | c :: s => if c =? 0 then [] else c :: c_str s
  end.

(** [isspace] and [isprint] in the C locale. *)
Definition isspace (c : Z) : bool := (c =? 32) || ((9 <=? c) && (c <=? 13)).
Definition isprint (c : Z) : bool := (32 <=? c) && (c <=? 126).

Definition is_hex_digit (c : Z) : bool :=
  ((48 <=? c) && (c <=? 57)) || ((97 <=? c) && (c <=? 102)) || ((65 <=? c) && (c <=? 70)).

Definition hex_digit_to_int (c : Z) : Z :=
  if (48 <=? c) && (c <=? 57) then c - 48
  else if (97 <=? c) && (c <=? 102) then c - 87
  else if (65 <=? c) && (c <=? 70) then c - 55
  else 0.

(** ["%02x"] *)
Definition hex_char (n : Z) : Z := if n <? 10 then 48 + n else 87 + n.

Definition repr_char (c : Z) : list Z :=
  if (c =? 92) || (c =? 34) then [92; c]
  else if c =? 10 then [92; 110]
  else if c =? 13 then [92; 114]
  else if c =? 9 then [92; 116]
  else if c =? 7 then [92; 97]
  else if c =? 8 then [92; 98]
  else if isprint c then [c]
  else [92; 120; hex_char (c / 16); hex_char (c mod 16)].

Definition sdscatrepr (s p : list Z) : list Z := s ++ [34] ++ concat (repr_char <$> p) ++ [34].

(** [\n], [\r], [\t], [\b], [\a], and any other character for itself. *)
Definition unescape (c : Z) : Z :=
  if c =? 110 then 10 else if c =? 114 then 13 else if c =? 116 then 9 else if c =? 98 then 8 else if c =? 97 then 7 else c.

(** A closing quote must be followed by a space or nothing at all. *)
Definition closed (p : list Z) : bool := match p with [] => true | c :: _ => isspace c end.

(** Inside double quotes: the token and the rest of the line. *)
Fixpoint in_quotes (p current : list Z) : option (list Z * list Z) :=
  match p with
  | [] => None
  | c :: p1 =>
      if c =? 92 then
        match p1 with
        | [] => in_quotes p1 (current ++ [c])
        | e :: p2 =>
            let plain := in_quotes p2 (current ++ [unescape e]) in
            match p2 with
            | h :: l :: p4 =>
                if (e =? 120) && is_hex_digit h && is_hex_digit l
                then in_quotes p4 (current ++ [hex_digit_to_int h * 16 + hex_digit_to_int l])
                else plain
            | _ => plain
            end
        end
      else if c =? 34 then (if closed p1 then Some (current, p1) else None)
      else in_quotes p1 (current ++ [c])
  end.

(** Inside single quotes. *)
Fixpoint in_single_quotes (p current : list Z) : option (list Z * list Z) :=
  match p with
  | [] => None
  | c :: p1 =>
      let plain := in_single_quotes p1 (current ++ [c]) in
      if c =? 92 then
        match p1 with
        | q :: p2 => if q =? 39 then in_single_quotes p2 (current ++ [39]) else plain
        | [] => plain
        end
      else if c =? 39 then (if closed p1 then Some (current, p1) else None)
      else plain
  end.

(** Outside of quotes. *)
Fixpoint get_token (p current : list Z) : option (list Z * list Z) :=
  match p with
  | [] => Some (current, [])
  | c :: p1 =>
      if (c =? 32) || (c =? 10) || (c =? 13) || (c =? 9) then Some (current, p1)
      else if c =? 34 then in_quotes p1 current
      else if c =? 39 then in_single_quotes p1 current
      else get_token p1 (current ++ [c])
  end.

Fixpoint skip_blanks (p : list Z) : list Z :=
  match p with
  | c :: p1 => if isspace c then skip_blanks p1 else p
  | [] => []
  end.

(** A token takes at least one byte, so the length of the line is enough. *)
Fixpoint split_loop (fuel : nat) (p : list Z) (vector : list (list Z)) : option (list (list Z)) :=
  match skip_blanks p with
  | [] => Some vector
  | p =>
      match fuel with
      | O => None
      | S fuel => '(current, p) ← get_token p []; split_loop fuel p (vector ++ [current])
      end
  end.

(** [None] is the NULL result. *)
Definition sdssplitargs (line : list Z) : option (list (list Z)) :=
  let p := c_str line in split_loop (length p) p [].

(** ** Lemmas *)

Lemma c_str_id s : Forall (fun c => c <> 0) s -> c_str s = s.
Proof. induction 1 as [|c s Hc _ IH]; cbn; [done|]. by rewrite (proj2 (Z.eqb_neq c 0)), IH. Qed.

Lemma c_str_length s : (length (c_str s) <= length s)%nat.
Proof. induction s as [|c s IH]; cbn; [lia|]. destruct (c =? 0); cbn; lia. Qed.

(** What the two functions do to each byte, checked for all of them. *)
Lemma repr_char_nonzero c : is_byte c -> Forall (fun x => x <> 0) (repr_char c).
Proof.
  intros Hc. assert (Hb : forallb (fun x => negb (x =? 0)) (repr_char c) = true).
  { revert c Hc. apply (byte_check (fun c => forallb (fun x => negb (x =? 0)) (repr_char c))). vm_compute. reflexivity. }
  rewrite forallb_forall in Hb. apply list.Forall_forall. intros x Hx. apply list_elem_of_In, Hb, negb_true_iff, Z.eqb_neq in Hx. done.
Qed.

(** The form of an escape. *)
Lemma repr_char_cases c : is_byte c ->
  (exists e, repr_char c = [92; e] /\ unescape e = c /\ e <> 120) \/
  (repr_char c = [c] /\ c <> 92 /\ c <> 34) \/
  (exists h l, repr_char c = [92; 120; h; l] /\ is_hex_digit h = true /\ is_hex_digit l = true /\
     hex_digit_to_int h * 16 + hex_digit_to_int l = c).
Proof.
  intros Hc. set (ok := fun c => match repr_char c with
    | [x] => (x =? c) && negb (c =? 92) && negb (c =? 34)
    | [b; e] => (b =? 92) && (unescape e =? c) && negb (e =? 120)
    | [b; x; h; l] => (b =? 92) && (x =? 120) && is_hex_digit h && is_hex_digit l && (hex_digit_to_int h * 16 + hex_digit_to_int l =? c)
    | _ => false end).
  assert (Hok : ok c = true) by (revert c Hc; apply (byte_check ok); vm_compute; reflexivity). unfold ok in Hok.
  destruct (repr_char c) as [|b [|e [|h [|l [|]]]]]; try done; rewrite ?andb_true_iff, ?negb_true_iff, ?Z.eqb_eq, ?Z.eqb_neq in Hok.
  - right. left. destruct Hok as [[-> ?] ?]. done.
  - left. destruct Hok as [[-> ?] ?]. by exists e.
  - right. right. destruct Hok as [[[[-> ->] ?] ?] ?]. by exists h, l.
Qed.

(** Reading a quoted string back. *)
Lemma in_quotes_repr s : Forall is_byte s -> forall current rest, closed rest = true ->
  in_quotes (concat (repr_char <$> s) ++ 34 :: rest) current = Some (current ++ s, rest).
Proof.
  induction 1 as [|c s Hc _ IH]; intros current rest Hr; [cbn; by rewrite Hr, app_nil_r|].
  rewrite fmap_cons. cbn [concat]. rewrite <- app_assoc. specialize (IH (current ++ [c]) rest Hr). rewrite <- app_assoc in IH. cbn [app] in IH.
  destruct (repr_char_cases c Hc) as [(e & -> & He & Hx)|[(-> & H1 & H2)|(h & l & -> & Hh & Hl & Hv)]]; cbn [app in_quotes].
  - change (92 =? 92) with true. cbn match. rewrite He, (proj2 (Z.eqb_neq e 120)) by done. cbn [andb].
    destruct (concat (repr_char <$> s) ++ 34 :: rest) as [|h [|l p4]] eqn:E; done.
  - rewrite (proj2 (Z.eqb_neq c 92)), (proj2 (Z.eqb_neq c 34)) by done. done.
  - change (92 =? 92) with true. change (120 =? 120) with true. cbn match. rewrite Hh, Hl, Hv. done.
Qed.

(** Several quoted strings, separated by spaces. *)
Definition repr_line (args : list (list Z)) : list Z := concat ((fun s => sdscatrepr [] s ++ [32]) <$> args).

Lemma repr_line_cons s args : repr_line (s :: args) = [34] ++ concat (repr_char <$> s) ++ 34 :: 32 :: repr_line args.
Proof. unfold repr_line, sdscatrepr. cbn. by rewrite <- !app_assoc. Qed.

Lemma split_repr args : Forall (Forall is_byte) args -> forall fuel vector b, (length args <= fuel)%nat ->
  split_loop fuel ((if (b : bool) then [32] else []) ++ repr_line args) vector = Some (vector ++ args).
Proof.
  induction 1 as [|s args Hs _ IH]; intros fuel vector b Hf.
  { unfold repr_line. cbn. rewrite app_nil_r. destruct b, fuel; by rewrite app_nil_r. }
  destruct fuel as [|fuel]; [cbn in Hf; lia|]. cbn [length] in Hf.
  assert (Hsk : skip_blanks ((if b then [32] else []) ++ repr_line (s :: args)) = repr_line (s :: args)).
  { rewrite repr_line_cons. by destruct b. }
  cbn [split_loop]. rewrite Hsk. rewrite repr_line_cons. cbn [app].
  change (get_token (34 :: concat (repr_char <$> s) ++ 34 :: 32 :: repr_line args) [])
    with (in_quotes (concat (repr_char <$> s) ++ 34 :: 32 :: repr_line args) []).
  rewrite in_quotes_repr by done. cbn [mbind option_bind app].
  specialize (IH fuel (vector ++ [s]) true ltac:(lia)). cbn [app] in IH. by rewrite IH, <- app_assoc.
Qed.

Lemma repr_line_nonzero args : Forall (Forall is_byte) args -> Forall (fun c => c <> 0) (repr_line args).
Proof.
  induction 1 as [|s args Hs _ IH]; [constructor|]. rewrite repr_line_cons. cbn [app]. constructor; [done|].
  apply list.Forall_app. split; [|by repeat constructor]. clear IH. induction Hs as [|c s Hc _ IH]; [constructor|].
  rewrite fmap_cons. cbn. apply list.Forall_app. split; [by apply repr_char_nonzero|done].
Qed.

Lemma repr_line_length args : (length args <= length (repr_line args))%nat.
Proof. induction args as [|s args IH]; [done|]. rewrite repr_line_cons. cbn. rewrite length_app. cbn. lia. Qed.

(** Every token takes at least one byte. *)
Lemma in_quotes_length n : forall p current t rest, (length p <= n)%nat -> in_quotes p current = Some (t, rest) -> (length rest < length p)%nat.
Proof.
  induction n as [|n IH]; intros p current t rest Hn; (destruct p as [|c p1]; [done|]); cbn [length] in Hn; [lia|]. cbn [in_quotes].
  destruct (c =? 92).
  - destruct p1 as [|e p2]; [done|]. cbn [length] in Hn.
    assert (Hplain : in_quotes p2 (current ++ [unescape e]) = Some (t, rest) -> (length rest < length (c :: e :: p2))%nat).
    { intros Hp. apply IH in Hp; cbn; lia. }
    destruct p2 as [|h [|l p4]]; [done..|]. destruct (_ && _ && _); [|done]. intros Hp. apply IH in Hp; cbn in *; lia.
  - destruct (c =? 34); [|intros Hp; apply IH in Hp; cbn in *; lia]. destruct (closed p1); [|done]. intros [= _ <-]. cbn. lia.
Qed.

Lemma in_single_quotes_length n : forall p current t rest, (length p <= n)%nat -> in_single_quotes p current = Some (t, rest) ->
  (length rest < length p)%nat.
Proof.
  induction n as [|n IH]; intros p current t rest Hn; (destruct p as [|c p1]; [done|]); cbn [length] in Hn; [lia|]. cbn [in_single_quotes].
  assert (Hplain : in_single_quotes p1 (current ++ [c]) = Some (t, rest) -> (length rest < length (c :: p1))%nat).
  { intros Hp. apply IH in Hp; cbn; lia. }
  destruct (c =? 92).
  - destruct p1 as [|e p2]; [done|]. destruct (e =? 39); [|done]. intros Hp. apply IH in Hp; cbn in *; lia.
  - destruct (c =? 39); [|done]. destruct (closed p1); [|done]. intros [= _ <-]. cbn. lia.
Qed.

Lemma get_token_length p : forall current t rest, p <> [] -> get_token p current = Some (t, rest) -> (length rest < length p)%nat.
Proof.
  induction p as [|c p1 IH]; intros current t rest Hne; [done|]. cbn [get_token length].
  destruct (_ || _ || _ || _); [intros [= _ <-]; lia|]. destruct (c =? 34).
  { intros Hp. apply (in_quotes_length (length p1)) in Hp; lia. }
  destruct (c =? 39).
  { intros Hp. apply (in_single_quotes_length (length p1)) in Hp; lia. }
  intros Hp. destruct p1 as [|c' p1]; [cbn in Hp; injection Hp as _ <-; cbn; lia|]. apply IH in Hp; [lia|done].
Qed.

Lemma skip_blanks_length p : (length (skip_blanks p) <= length p)%nat.
Proof. induction p as [|c p IH]; cbn; [lia|]. destruct (isspace c); cbn; lia. Qed.

(** More fuel changes nothing: the NULL result only comes from the quotes. *)
Lemma split_loop_fuel n : forall p vector, (length p <= n)%nat -> split_loop n p vector = split_loop (length p) p vector.
Proof.
  assert (Hall : forall m n p vector, (length p <= m)%nat -> (length p <= n)%nat -> split_loop m p vector = split_loop n p vector).
  { induction m as [|m IH]; intros k p vector Hm Hk.
    - destruct p; [|cbn in Hm; lia]. by destruct k.
    - pose proof (skip_blanks_length p) as Hs. destruct k as [|k]; [destruct p; [done|cbn in Hk; lia]|]. cbn [split_loop].
      destruct (skip_blanks p) as [|c p1] eqn:E; [done|]. destruct (get_token (c :: p1) []) as [[t rest]|] eqn:Et; [|done].
      cbn [mbind option_bind]. apply get_token_length in Et; [|done]. apply IH; lia. }
  intros p vector Hn. by apply Hall.
Qed.

(** ** Theorems *)

(** C20: [sdssplitargs] reads back what [sdscatrepr] writes: a line of quoted
    arguments is split into exactly these byte strings, whatever they hold
    (spaces, quotes, NULs). *)
Theorem sdssplitargs_repr args : Forall (Forall is_byte) args -> sdssplitargs (repr_line args) = Some args.
Proof.
  intros Ha. unfold sdssplitargs. rewrite (c_str_id _ (repr_line_nonzero args Ha)).
  exact (split_repr args Ha _ [] false (repr_line_length args)).
Qed.

Lemma sdssplitargs_repr_witness : sdssplitargs [34; 97; 92; 120; 48; 48; 32; 92; 34; 34; 32; 34; 34; 32] = Some [[97; 0; 32; 34]; []].
Proof.
  exact (sdssplitargs_repr [[97; 0; 32; 34]; []] ltac:(repeat constructor; vm_compute; try discriminate; reflexivity)).
Defined.
