(* ===== verification/Resp.v ===== *)
(** * Parsing requests (src/networking.c)

    The state machine that turns the bytes read from a client into commands:
    [processMultibulkBuffer] for RESP arrays of bulk strings, with a resumable
    state, [processInlineBuffer] for plain lines, and [processInputBuffer] that
    queues commands and hands them over for execution.  The query buffer is an
    sds string: a list of bytes, with a NUL after it.

    Executing a command is outside of the model: [processInputBuffer] returns
    the argument vectors in the order in which they are executed, for a client
    on the main thread that is neither blocked nor closing.  The buffer of a
    master is trimmed by replication and stays untrimmed here.

    [None] is a failed assertion or a write outside of [argv]. *)

From stdpp Require Import base list numbers option tactics.
From S2P Require Import Prelude Util SdsArgs.

Definition PROTO_INLINE_MAX_SIZE : Z := 1024 * 64.
Definition PROTO_MBULK_BIG_ARG : Z := 1024 * 32.
Definition INT_MAX : Z := 2147483647.

(** [CLIENT_READ_*] *)
Inductive read_err :=
  | TOO_BIG_INLINE_REQUEST | UNBALANCED_QUOTES | MASTER_USING_INLINE_PROTOCAL | TOO_BIG_MBULK_COUNT_STRING
  | TOO_BIG_BUCK_COUNT_STRING | EXPECTED_DOLLAR | INVALID_BUCK_LENGTH | UNAUTH_BUCK_LENGTH
  | INVALID_MULTIBUCK_LENGTH | UNAUTH_MBUCK_COUNT | REACHED_MAX_QUERYBUF.

(** [pendingCommand]; [argc] is the length of [argv], [argv_len] the capacity of
    the array. *)
Record pendingCommand := {
  argv : list (list Z); argv_len : Z; argv_len_sum : Z; input_bytes : Z;
  read_error : option read_err; incomplete : bool }.

Inductive req_type := PROTO_REQ_INLINE | PROTO_REQ_MULTIBULK.

Record client := {
  querybuf : list Z; qb_pos : Z; reqtype : option req_type; multibulklen : Z; bulklen : Z;
  all_argv_len_sum : Z; pending_cmds : list pendingCommand }.

Definition set_buf (c : client) (buf : list Z) (pos : Z) : client :=
  {| querybuf := buf; qb_pos := pos; reqtype := reqtype c; multibulklen := multibulklen c; bulklen := bulklen c;
     all_argv_len_sum := all_argv_len_sum c; pending_cmds := pending_cmds c |}.
Definition set_bulk (c : client) (mlen blen : Z) : client :=
  {| querybuf := querybuf c; qb_pos := qb_pos c; reqtype := reqtype c; multibulklen := mlen; bulklen := blen;
     all_argv_len_sum := all_argv_len_sum c; pending_cmds := pending_cmds c |}.
Definition set_reqtype (c : client) (r : option req_type) : client :=
  {| querybuf := querybuf c; qb_pos := qb_pos c; reqtype := r; multibulklen := multibulklen c; bulklen := bulklen c;
     all_argv_len_sum := all_argv_len_sum c; pending_cmds := pending_cmds c |}.
Definition set_pending (c : client) (sum : Z) (cmds : list pendingCommand) : client :=
  {| querybuf := querybuf c; qb_pos := qb_pos c; reqtype := reqtype c; multibulklen := multibulklen c; bulklen := bulklen c;
     all_argv_len_sum := sum; pending_cmds := cmds |}.

Definition set_error (p : pendingCommand) (e : read_err) : pendingCommand :=
  {| argv := argv p; argv_len := argv_len p; argv_len_sum := argv_len_sum p; input_bytes := input_bytes p;
     read_error := Some e; incomplete := incomplete p |}.
Definition set_argv (p : pendingCommand) (av : list (list Z)) (len sum bytes : Z) (inc : bool) : pendingCommand :=
  {| argv := av; argv_len := len; argv_len_sum := sum; input_bytes := bytes; read_error := read_error p; incomplete := inc |}.

(** The bytes from [qb_pos] on. *)
Definition unread (c : client) : list Z := drop (Z.to_nat (qb_pos c)) (querybuf c).

(** [memchr]: the position of a byte. *)
Fixpoint memchr (b : Z) (s : list Z) : option Z :=
  match s with
  | [] => None
  | x :: s => if x =? b then Some 0 else (fun i => i + 1) <$> memchr b s
  end.

(** [strchr] stops at a NUL, the one after the buffer at the latest. *)
Definition strchr (b : Z) (s : list Z) : option Z := memchr b (c_str s).

Section Parse.
(** The flags [CLIENT_MASTER] and [CLIENT_SLAVE], [authRequired], the settings
    [proto_max_bulk_len], [lookahead] and [client_max_querybuf_len], and the
    capacity of the recycled [argv] arrays. *)
Context (is_master is_slave auth_required : bool) (proto_max_bulk_len server_lookahead max_querybuf pool_len : Z).

Definition acquirePendingCommand : pendingCommand :=
  {| argv := []; argv_len := pool_len; argv_len_sum := 0; input_bytes := 0; read_error := None; incomplete := false |}.

(** ** RESP arrays *)

(** The result of a parser: [true] is [C_OK]. *)
Definition parsed : Type := option (client * pendingCommand * bool).

(** The part of [processMultibulkBuffer] that reads [*<count>]; [None] inside is
    a return. *)
Definition read_count (c : client) (p : pendingCommand) : option (client * pendingCommand * option bool) :=
  _ ← cassert (zlen (argv p) =? 0);
  let rest := unread c in
  match strchr 13 rest with
  | None =>
      Some (c, if zlen rest >? PROTO_INLINE_MAX_SIZE then set_error p TOO_BIG_MBULK_COUNT_STRING else p, Some false)
  | Some newline =>
      if newline >? zlen rest - 2 then Some (c, p, Some false)
      else
        star ← rd rest 0;
        _ ← cassert (star =? 42);
        let text := take (Z.to_nat (newline - 1)) (drop 1 rest) in
        match string2ll text with
        | None => Some (c, set_error p INVALID_MULTIBUCK_LENGTH, Some false)
        | Some ll =>
            if ll >? INT_MAX then Some (c, set_error p INVALID_MULTIBUCK_LENGTH, Some false)
            else if (ll >? 10) && auth_required then Some (c, set_error p UNAUTH_MBUCK_COUNT, Some false)
            else
              let c := set_buf c (querybuf c) (qb_pos c + newline + 2) in
              if ll <=? 0 then Some (c, p, Some true)
              else
                let c := set_bulk c ll (-1) in
                let '(len, sum) := if ll >? argv_len p then (Z.min ll 1024, 0) else (argv_len p, argv_len_sum p) in
                Some (c, set_argv p (argv p) len sum (input_bytes p + (newline - 1 + 3)) (incomplete p), None)
        end
  end.

(** What an iteration of [while (c->multibulklen)] does. *)
Inductive bulk_step := BulkReturn (c : client) (p : pendingCommand) | BulkBreak (c : client) (p : pendingCommand)
  | BulkNext (c : client) (p : pendingCommand).

(** Reading [$<length>], when it is not known yet: [inl] is a return or break. *)
Definition read_bulklen (c : client) (p : pendingCommand) : option (bulk_step + client * pendingCommand) :=
  if bulklen c =? -1 then
    let rest := unread c in
    match memchr 13 rest with
    | None =>
        Some (inl (if zlen rest >? PROTO_INLINE_MAX_SIZE then BulkReturn c (set_error p TOO_BIG_BUCK_COUNT_STRING)
                   else BulkBreak c p))
    | Some newline =>
        if newline >? zlen rest - 2 then Some (inl (BulkBreak c p))
        else
          dollar ← rd rest 0;
          if negb (dollar =? 36) then Some (inl (BulkReturn c (set_error p EXPECTED_DOLLAR)))
          else
            let text := take (Z.to_nat (newline - 1)) (drop 1 rest) in
            match string2ll text with
            | None => Some (inl (BulkReturn c (set_error p INVALID_BUCK_LENGTH)))
            | Some ll =>
                if (ll <? 0) || (negb is_master && (ll >? proto_max_bulk_len)) then
                  Some (inl (BulkReturn c (set_error p INVALID_BUCK_LENGTH)))
                else if (ll >? 16384) && auth_required then Some (inl (BulkReturn c (set_error p UNAUTH_BUCK_LENGTH)))
                else
                  let c := set_buf c (querybuf c) (qb_pos c + newline + 2) in
                  let c := if negb is_master && (ll >=? PROTO_MBULK_BIG_ARG) && (zlen (querybuf c) - qb_pos c <=? u64 (ll + 2))
                           then set_buf c (unread c) 0 else c in
                  Some (inr (set_bulk c (multibulklen c) ll,
                             set_argv p (argv p) (argv_len p) (argv_len_sum p) (input_bytes p + (newline - 1 + 3)) (incomplete p)))
            end
    end
  else (_ ← cassert (incomplete p); Some (inr (c, p))).

(** Reading the argument. *)
Definition read_arg (c : client) (p : pendingCommand) : option bulk_step :=
  let blen := bulklen c in
  if zlen (querybuf c) - qb_pos c <? u64 (blen + 2) then Some (BulkBreak c p)
  else
    let argc := zlen (argv p) in
    let len := if argc >=? argv_len p
               then Z.min (if argv_len p <? INT_MAX / 2 then argv_len p * 2 else INT_MAX) (argc + multibulklen c)
               else argv_len p in
    _ ← cassert (argc <? len);
    let sum := argv_len_sum p + blen in
    let all := all_argv_len_sum c + blen in
    if negb is_master && (qb_pos c =? 0) && (blen >=? PROTO_MBULK_BIG_ARG) && (zlen (querybuf c) =? u64 (blen + 2)) then
      let arg := take (Z.to_nat blen) (querybuf c) in
      let c := set_pending (set_buf c [] (qb_pos c)) all (pending_cmds c) in
      Some (BulkNext (set_bulk c (multibulklen c - 1) (-1)) (set_argv p (argv p ++ [arg]) len sum (input_bytes p) (incomplete p)))
    else
      let arg := take (Z.to_nat blen) (unread c) in
      let c := set_pending (set_buf c (querybuf c) (qb_pos c + blen + 2)) all (pending_cmds c) in
      Some (BulkNext (set_bulk c (multibulklen c - 1) (-1)) (set_argv p (argv p ++ [arg]) len sum (input_bytes p) (incomplete p))).

Definition bulk_iteration (c : client) (p : pendingCommand) : option bulk_step :=
  r ← read_bulklen c p;
  match r with
  | inl s => Some s
  | inr (c, p) => read_arg c p
  end.

(** An iteration that does not leave the loop reads one argument. *)
Fixpoint bulk_loop (fuel : nat) (c : client) (p : pendingCommand) : parsed :=
  if multibulklen c =? 0 then
    Some (c, set_argv p (argv p) (argv_len p) (argv_len_sum p) (input_bytes p + (argv_len_sum p + zlen (argv p) * 2)) false, true)
  else
    match fuel with
    | O => None
    | S fuel =>
        s ← bulk_iteration c p;
        match s with
        | BulkReturn c p => Some (c, p, false)
        | BulkBreak c p => Some (c, set_argv p (argv p) (argv_len p) (argv_len_sum p) (input_bytes p) true, true)
        | BulkNext c p => bulk_loop fuel c p
        end
    end.

Definition processMultibulkBuffer (c : client) (p : pendingCommand) : parsed :=
  '(c, p, ret) ← (if multibulklen c =? 0 then read_count c p else Some (c, p, None));
  match ret with
  | Some ok => Some (c, p, ok)
  | None => _ ← cassert (multibulklen c >? 0); bulk_loop (Z.to_nat (multibulklen c)) c p
  end.

(** ** Inline commands *)

Definition processInlineBuffer (c : client) (p : pendingCommand) : parsed :=
  let rest := unread c in
  match strchr 10 rest with
  | None => Some (c, if zlen rest >? PROTO_INLINE_MAX_SIZE then set_error p TOO_BIG_INLINE_REQUEST else p, false)
  | Some newline =>
      '(newline, linefeed_chars) ←
        (if newline =? 0 then Some (newline, 1)
         else b ← rd rest (newline - 1); Some (if b =? 13 then (newline - 1, 2) else (newline, 1)));
      let querylen := newline in
      match sdssplitargs (take (Z.to_nat querylen) rest) with
      | None => Some (c, set_error p UNBALANCED_QUOTES, false)
      | Some args =>
          if negb (querylen =? 0) && is_master then Some (c, set_error p MASTER_USING_INLINE_PROTOCAL, false)
          else
            let argc := zlen args in
            let '(len, sum0) := if (argc >? 0) && (argc >? argv_len p) then (argc, 0) else (argv_len p, argv_len_sum p) in
            _ ← cassert (argc <=? len);
            let bytes := foldr Z.add 0 (zlen <$> args) in
            let sum := sum0 + bytes in
            let c := set_buf c (querybuf c) (qb_pos c + querylen + linefeed_chars) in
            let c := set_pending c (all_argv_len_sum c + bytes) (pending_cmds c) in
            Some (c, set_argv p args len sum (sum + (argc - 1) + 2) (incomplete p), true)
      end
  end.

(** ** The queue *)

Definition ready (p : pendingCommand) : bool := negb (incomplete p).
Definition ready_len (c : client) : Z := zlen (filter (fun p => ready p = true) (pending_cmds c)).

Definition addPendingCommand (c : client) (p : pendingCommand) : client :=
  set_pending c (all_argv_len_sum c) (pending_cmds c ++ [p]).

(** The rest of the queue and its last command. *)
Fixpoint pop_tail (l : list pendingCommand) : option (list pendingCommand * pendingCommand) :=
  match l with
  | [] => None
  | p :: l =>
      match pop_tail l with
      | None => Some ([], p)
      | Some (l, q) => Some (p :: l, q)
      end
  end.

Definition popPendingCommandFromTail (c : client) : option (client * pendingCommand) :=
  '(l, p) ← pop_tail (pending_cmds c);
  Some (set_pending c (all_argv_len_sum c) l, p).

Definition resetClientQbufState (c : client) : client := set_reqtype (set_bulk c 0 (-1)) None.

(** [resetClientInternal] of the command at the head. *)
Definition resetClient (c : client) : option client :=
  p ← head (pending_cmds c);
  _ ← cassert (all_argv_len_sum c >=? argv_len_sum p);
  let all := all_argv_len_sum c - argv_len_sum p in
  let cmds := tail (pending_cmds c) in
  _ ← (if zlen cmds =? 0 then cassert (all =? 0) else Some ());
  Some (set_pending c all cmds).

Definition lookahead : Z := if auth_required then 1 else server_lookahead.

(** One round of the inner loop: the request is parsed and queued; [false] in
    the result leaves the loop. *)
Definition parse_one (c : client) : option (client * bool) :=
  b ← rd (querybuf c) (qb_pos c);
  let c := match reqtype c with
           | None => set_reqtype c (Some (if b =? 42 then PROTO_REQ_MULTIBULK else PROTO_REQ_INLINE))
           | Some _ => c
           end in
  '(c, p, ok) ←
    match reqtype c with
    | Some PROTO_REQ_MULTIBULK =>
        '(c, p) ← (if negb (zlen (pending_cmds c) =? ready_len c) then popPendingCommandFromTail c
                   else Some (c, acquirePendingCommand));
        processMultibulkBuffer c p
    | _ => processInlineBuffer c acquirePendingCommand
    end;
  if negb ok && bool_decide (read_error p = None) then Some (c, false)
  else
    let c := addPendingCommand c p in
    if bool_decide (is_Some (read_error p)) || incomplete p then Some (c, false)
    else Some (resetClientQbufState c, true).

Fixpoint parse_loop (fuel : nat) (c : client) : option client :=
  if (ready_len c <? lookahead) && (qb_pos c <? zlen (querybuf c)) then
    match fuel with
    | O => None
    | S fuel => '(c, more) ← parse_one c; if (more : bool) then parse_loop fuel c else Some c
    end
  else Some c.

(** The outer loop: the commands executed so far, and the fatal error. *)
Fixpoint input_loop (fuel : nat) (c : client) (log : list (list (list Z)))
    : option (client * list (list (list Z)) * option read_err) :=
  if (qb_pos c <? zlen (querybuf c)) || (ready_len c >? 0) then
    match fuel with
    | O => None
    | S fuel =>
        c ← (if ready_len c =? 0 then parse_loop (S (length (unread c))) c else Some c);
        if ready_len c =? 0 then Some (c, log, None)
        else
          p ← head (pending_cmds c);
          match read_error p with
          | Some e => Some (c, log, Some e)
          | None =>
              c' ← resetClient c;
              input_loop fuel c' (if zlen (argv p) =? 0 then log else log ++ [argv p])
          end
    end
  else Some (c, log, None).

Definition processInputBuffer (c : client) (log : list (list (list Z))) : option (client * list (list (list Z)) * option read_err) :=
  '(c, log, e) ← input_loop (S (length (unread c) + length (pending_cmds c))) c log;
  Some (if is_master then c else set_buf c (unread c) 0, log, e).

(** [readQueryFromClient] once [nread > 0] bytes were read from the connection, for
    a client outside of [MULTI], whose [mstate.argv_len_sums] is 0. *)
Definition readQueryFromClient (c : client) (log : list (list (list Z))) (bytes : list Z)
    : option (client * list (list (list Z)) * option read_err) :=
  let c := set_buf c (querybuf c ++ bytes) (qb_pos c) in
  if negb is_master && ((zlen (querybuf c) >? max_querybuf) || ((zlen (querybuf c) >? 1024 * 1024) && auth_required))
  then Some (c, log, Some REACHED_MAX_QUERYBUF)
  else processInputBuffer c log.
End Parse.

(** A new client. *)
Definition new_client : client :=
  {| querybuf := []; qb_pos := 0; reqtype := None; multibulklen := 0; bulklen := -1; all_argv_len_sum := 0; pending_cmds := [] |}.
