(* ===== verification/RespThms.v ===== *)
(** * Requests: the parser inverts the encoding, however the bytes arrive

    [enc_cmd args] is the RESP form of a command.  Any way of cutting the bytes
    of a pipeline of commands into reads gives these commands. *)

From stdpp Require Import base list numbers option tactics.
From S2P Require Import Prelude Util SdsArgs Resp.

(** ** The encoding *)

Definition CRLF : list Z := [13; 10].
Definition enc_arg (a : list Z) : list Z := 36 :: decimal (zlen a) ++ CRLF ++ a ++ CRLF.
Definition enc_args (l : list (list Z)) : list Z := concat (enc_arg <$> l).
Definition enc_cmd (args : list (list Z)) : list Z := 42 :: decimal (zlen args) ++ CRLF ++ enc_args args.
Definition enc_cmds (cmds : list (list (list Z))) : list Z := concat (enc_cmd <$> cmds).

Lemma enc_args_cons a l : enc_args (a :: l) = (36 :: decimal (zlen a)) ++ CRLF ++ (a ++ CRLF ++ enc_args l).
Proof. unfold enc_args. rewrite fmap_cons. cbn [concat]. unfold enc_arg. cbn [app]. by rewrite <- !app_assoc. Qed.

Lemma enc_args_app l k : enc_args (l ++ k) = enc_args l ++ enc_args k.
Proof. unfold enc_args. by rewrite fmap_app, concat_app. Qed.

Lemma zlen_crlf h : zlen (h ++ CRLF) = zlen h + 2.
Proof. by rewrite zlen_app. Qed.

(** ** Searching *)

Lemma memchr_app b s t : Forall (fun x => x <> b) s -> memchr b (s ++ b :: t) = Some (zlen s).
Proof.
  induction 1 as [|x s Hx _ IH]; cbn; [by rewrite Z.eqb_refl|]. rewrite (proj2 (Z.eqb_neq x b)), IH by done.
  cbn. f_equal. rewrite zlen_cons. lia.
Qed.

Lemma memchr_none b s : Forall (fun x => x <> b) s -> memchr b s = None.
Proof. induction 1 as [|x s Hx _ IH]; cbn; [done|]. rewrite (proj2 (Z.eqb_neq x b)) by done. by rewrite IH. Qed.

Lemma c_str_app s t : Forall (fun x => x <> 0) s -> c_str (s ++ t) = s ++ c_str t.
Proof. induction 1 as [|x s Hx _ IH]; cbn; [done|]. rewrite (proj2 (Z.eqb_neq x 0)) by done. by rewrite IH. Qed.

Lemma app_split {A} (a b c d : list A) : a ++ b = c ++ d ->
  (exists e, c = a ++ e /\ b = e ++ d) \/ (exists e, a = c ++ e /\ d = e ++ b).
Proof. intros Heq. apply app_eq_inv in Heq as [(e & -> & ->)|(e & -> & ->)]; [right|left]; by exists e. Qed.

(** A header line at the front of the stream, of which [unread] has arrived. *)
Lemma line_cases u fut h w : Forall (fun x => x <> 13) h -> u ++ fut = h ++ CRLF ++ w ->
  (memchr 13 u = None /\ zlen u <= zlen h /\ fut <> []) \/
  (memchr 13 u = Some (zlen h) /\ zlen h > zlen u - 2 /\ fut <> []) \/
  (memchr 13 u = Some (zlen h) /\ exists w1, u = h ++ CRLF ++ w1 /\ w = w1 ++ fut).
Proof.
  intros Hh Heq. apply app_split in Heq as [(e & -> & ->)|(e & -> & He)].
  { left. apply list.Forall_app in Hh as [Hu _]. split; [by apply memchr_none|]. split; [zlia|]. by destruct e. }
  destruct e as [|x [|y e]]; cbn in He.
  - left. rewrite app_nil_r. subst fut. split; [by apply memchr_none|]. split; [lia|done].
  - right. left. injection He as <- <-. rewrite memchr_app by done. split; [done|]. split; [zlia|done].
  - right. right. injection He as <- <- ->. rewrite memchr_app by done. split; [done|]. by exists e.
Qed.

Lemma decimal_chars n : 0 <= n < 2 ^ 64 -> Forall (fun x => x <> 13 /\ x <> 0) (decimal n).
Proof.
  intros Hn. eapply list.Forall_impl; [apply dec_pad_digits|]. intros x Hx. unfold ch_0, ch_9 in Hx. cbn in Hx. lia.
Qed.

Lemma decimal_short n : 0 <= n < 2 ^ 64 -> 1 <= zlen (decimal n) <= 20.
Proof. intros Hn. rewrite zlen_decimal by done. destruct (digits10_bounds n Hn) as [[Hb _] Hl]. lia. Qed.

Lemma string2ll_decimal n : 0 <= n < 2 ^ 63 -> string2ll (decimal n) = Some n.
Proof.
  intros Hn. apply string2ll_iff. split; [unfold is_s; change (64 - 1) with 63; lia|]. unfold ll_text.
  by rewrite (proj2 (Z.ltb_ge n 0)) by lia.
Qed.

(** ** The buffer *)

Definition buf_ok (c : client) : Prop := 0 <= qb_pos c <= zlen (querybuf c).

Lemma unread_len c : buf_ok c -> zlen (querybuf c) - qb_pos c = zlen (unread c).
Proof. intros Hb. unfold buf_ok, unread, zlen in *. rewrite length_drop. lia. Qed.

Lemma advance_unread c h w : buf_ok c -> unread c = h ++ w ->
  unread (set_buf c (querybuf c) (qb_pos c + zlen h)) = w /\ buf_ok (set_buf c (querybuf c) (qb_pos c + zlen h)).
Proof.
  intros Hb Hu. pose proof (unread_len c Hb) as Hl. rewrite Hu, zlen_app in Hl. pose proof (zlen_nonneg h). pose proof (zlen_nonneg w).
  unfold unread, buf_ok in *. cbn [set_buf querybuf qb_pos].
  split; [|lia]. replace (Z.to_nat (qb_pos c + zlen h)) with (Z.to_nat (qb_pos c) + length h)%nat by (unfold zlen; lia).
  rewrite <- drop_drop, Hu. by rewrite drop_app_length.
Qed.

Lemma rd_unread c b w : unread c = b :: w -> buf_ok c -> rd (querybuf c) (qb_pos c) = Some b.
Proof.
  intros Hu [Hb _]. rewrite rd_lookup by done. rewrite <- (Nat.add_0_r (Z.to_nat (qb_pos c))), <- lookup_drop.
  fold (unread c). by rewrite Hu.
Qed.

Section Spec.
Context (auth_required : bool) (proto_max_bulk_len server_lookahead max_querybuf pool_len : Z).

(** The limits of the configuration, and the commands within them. *)
Context (Hmax : 0 <= proto_max_bulk_len < 2 ^ 62) (Hlook : 1 <= server_lookahead) (Hpool : 0 <= pool_len).

Definition good_arg (a : list Z) : Prop := zlen a <= proto_max_bulk_len /\ (auth_required = true -> zlen a <= 16384).
Definition good_cmd (args : list (list Z)) : Prop :=
  1 <= zlen args <= INT_MAX /\ (auth_required = true -> zlen args <= 10) /\ Forall good_arg args.

(** The command in progress: [rest] are the arguments still to come, [w] the
    stream after them. *)
Record mid (c : client) (p : pendingCommand) (cmd rest : list (list Z)) (u w : list Z) : Prop := {
  md_buf : buf_ok c;
  md_cmd : cmd = argv p ++ rest;
  md_good : good_cmd cmd;
  md_left : multibulklen c = zlen rest;
  md_err : read_error p = None;
  md_cap : zlen (argv p) <= argv_len p /\ 1 <= argv_len p;
  md_sum : argv_len_sum p = foldr Z.add 0 (zlen <$> argv p);
  md_bulk : (bulklen c = -1 /\ u = enc_args rest ++ w) \/
            (incomplete p = true /\ exists a rest', rest = a :: rest' /\ bulklen c = zlen a /\ u = a ++ CRLF ++ enc_args rest' ++ w) }.

Definition same_client (c c' : client) : Prop :=
  reqtype c' = reqtype c /\ pending_cmds c' = pending_cmds c.

Lemma good_rest cmd av rest a rest' : good_cmd cmd -> cmd = av ++ rest -> rest = a :: rest' -> good_arg a.
Proof. intros (_ & _ & Hf) -> ->. apply list.Forall_app in Hf as [_ Hf]. by apply list.Forall_cons in Hf as [? _]. Qed.

(** Reading the length of the next argument. *)
Lemma read_bulklen_ok c p cmd rest w fut : mid c p cmd rest (unread c ++ fut) w -> rest <> [] ->
  (exists c' p', read_bulklen false auth_required proto_max_bulk_len c p = Some (inl (BulkBreak c' p')) /\ c' = c /\ p' = p /\ bulklen c = -1 /\ fut <> [] /\
     zlen (unread c) <= zlen (enc_args rest)) \/
  (exists c' p' a rest', read_bulklen false auth_required proto_max_bulk_len c p = Some (inr (c', p')) /\ rest = a :: rest' /\
     buf_ok c' /\ unread c' ++ fut = a ++ CRLF ++ enc_args rest' ++ w /\ bulklen c' = zlen a /\ multibulklen c' = multibulklen c /\
     same_client c c' /\ all_argv_len_sum c' = all_argv_len_sum c /\
     argv p' = argv p /\ argv_len p' = argv_len p /\ argv_len_sum p' = argv_len_sum p /\ read_error p' = None /\
     (length (unread c') <= length (unread c))%nat).
Proof.
  intros [Hb Hcmd Hg Hm He Hcap Hsum Hbulk] Hne. unfold read_bulklen. destruct Hbulk as [[Hbl Hu]|(Hinc & a & rest' & Hr & Hbl & Hu)].
  - rewrite Hbl. change (-1 =? -1) with true. cbn match. destruct rest as [|a rest']; [done|]. clear Hne.
    pose proof (good_rest _ _ _ _ _ Hg Hcmd eq_refl) as [Ha1 Ha2]. pose proof (zlen_nonneg a) as Ha0.
    assert (Hd : 0 <= zlen a < 2 ^ 63) by lia. pose proof (decimal_short (zlen a) ltac:(lia)) as Hds.
    assert (Hu' : unread c ++ fut = (36 :: decimal (zlen a)) ++ CRLF ++ (a ++ CRLF ++ enc_args rest' ++ w)).
    { by rewrite Hu, enc_args_cons, <- !app_assoc. }
    assert (Hh : Forall (fun x => x <> 13) (36 :: decimal (zlen a))).
    { constructor; [done|]. eapply list.Forall_impl; [apply decimal_chars; lia|]. by intros x [? _]. }
    assert (Hhl : zlen (36 :: decimal (zlen a)) = 1 + zlen (decimal (zlen a))) by zlia.
    assert (Hlong : zlen (36 :: decimal (zlen a)) + 2 <= zlen (enc_args (a :: rest'))) by (rewrite enc_args_cons, app_assoc, zlen_app, zlen_crlf; pose proof (zlen_nonneg (a ++ CRLF ++ enc_args rest')); lia).
    destruct (line_cases _ _ _ _ Hh Hu') as [(-> & Hz & Hf)|[(-> & Hz & Hf)|(-> & w1 & Hw1 & Hw)]].
    + left. destruct (Z.gtb_spec (zlen (unread c)) PROTO_INLINE_MAX_SIZE); [unfold PROTO_INLINE_MAX_SIZE in *; lia|].
      exists c, p. do 5 (split; [done|]). lia.
    + left. destruct (Z.gtb_spec (zlen (36 :: decimal (zlen a))) (zlen (unread c) - 2)); [|lia]. exists c, p. do 5 (split; [done|]). lia.
    + right. assert (Hzu : zlen (unread c) = zlen (36 :: decimal (zlen a)) + 2 + zlen w1) by (rewrite Hw1, app_assoc, zlen_app, zlen_crlf; lia).
      pose proof (zlen_nonneg w1). destruct (Z.gtb_spec (zlen (36 :: decimal (zlen a))) (zlen (unread c) - 2)); [lia|].
      assert (Hrd : rd (unread c) 0 = Some 36) by (by rewrite Hw1). rewrite Hrd. cbn [mbind option_bind]. change (36 =? 36) with true. cbn [negb].
      assert (Htext : take (Z.to_nat (zlen (36 :: decimal (zlen a)) - 1)) (drop 1 (unread c)) = decimal (zlen a)).
      { rewrite Hw1, Hhl. change (drop 1 ((36 :: decimal (zlen a)) ++ CRLF ++ w1)) with (decimal (zlen a) ++ CRLF ++ w1).
        replace (Z.to_nat (1 + zlen (decimal (zlen a)) - 1)) with (length (decimal (zlen a))) by (unfold zlen; lia).
        by rewrite take_app_length. }
      rewrite Htext, string2ll_decimal by lia. rewrite (proj2 (Z.ltb_ge (zlen a) 0)) by lia. cbn [negb andb orb].
      destruct (Z.gtb_spec (zlen a) proto_max_bulk_len); [lia|].
      assert (Hau : (zlen a >? 16384) && auth_required = false).
      { destruct auth_required; [|apply andb_false_r]. specialize (Ha2 eq_refl). destruct (Z.gtb_spec (zlen a) 16384); [lia|done]. }
      rewrite Hau. replace (qb_pos c + zlen (36 :: decimal (zlen a)) + 2) with (qb_pos c + zlen ((36 :: decimal (zlen a)) ++ CRLF)) by (rewrite zlen_crlf; lia).
      set (c1 := set_buf c (querybuf c) (qb_pos c + zlen ((36 :: decimal (zlen a)) ++ CRLF))).
      destruct (advance_unread c ((36 :: decimal (zlen a)) ++ CRLF) w1 Hb) as [Hu1 Hb1]; [by rewrite <- app_assoc|]. fold c1 in Hu1, Hb1.
      match goal with |- context [if ?b then set_buf c1 (unread c1) 0 else c1] => set (c2 := if b then set_buf c1 (unread c1) 0 else c1) end.
      assert (Hc2 : buf_ok c2 /\ unread c2 = w1 /\ multibulklen c2 = multibulklen c /\ same_client c c2 /\ all_argv_len_sum c2 = all_argv_len_sum c).
      { unfold c2, same_client. destruct ((zlen a >=? PROTO_MBULK_BIG_ARG) && _); [|split_and!; try done]. split; [unfold buf_ok; cbn; pose proof (zlen_nonneg (unread c1)); lia|].
        split; [exact Hu1|]. done. }
      destruct Hc2 as (Hb2 & Hu2 & Hm2 & Hs2 & Hall2).
      eexists _, _, a, rest'. split; [done|]. split; [done|]. split; [exact Hb2|].
      split; [change (unread c2 ++ fut = a ++ CRLF ++ enc_args rest' ++ w); by rewrite Hu2, Hw|]. do 8 (split; [done|]).
      change (length (unread c2) <= length (unread c))%nat. rewrite Hu2, Hw1, !length_app. lia.
  - right. pose proof (zlen_nonneg a). rewrite (proj2 (Z.eqb_neq (bulklen c) (-1))) by lia. rewrite Hinc. cbn [cassert mbind option_bind].
    exists c, p, a, rest'. do 4 (split; [done|]). split; [done|]. split; [done|]. split; [done|]. done.
Qed.
(** The growth of the argument array leaves room for one more. *)
Lemma argv_room argc len left : argc <= len -> 1 <= len -> 1 <= left -> argc + left <= INT_MAX ->
  argc < (if argc >=? len then Z.min (if len <? INT_MAX / 2 then len * 2 else INT_MAX) (argc + left) else len).
Proof.
  intros Ha Hl Hm Hi. destruct (Z.geb_spec argc len); [|lia]. destruct (Z.ltb_spec len (INT_MAX / 2)); lia.
Qed.

Lemma body_cases u fut a w : u ++ fut = a ++ CRLF ++ w ->
  (zlen u < zlen a + 2 /\ fut <> []) \/ (exists w1, u = a ++ CRLF ++ w1 /\ w = w1 ++ fut).
Proof.
  intros Heq. rewrite app_assoc in Heq. apply app_split in Heq as [(e & He & ->)|(e & -> & ->)].
  - assert (Hz : zlen a + 2 = zlen u + zlen e) by (rewrite <- zlen_crlf, He; by rewrite zlen_app).
    destruct e as [|x e]; [right|left]. 
    + exists []. rewrite app_nil_r in He. by rewrite <- He, app_nil_r.
    + rewrite zlen_cons in Hz. pose proof (zlen_nonneg e). split; [lia|done].
  - right. exists e. by rewrite <- app_assoc.
Qed.

Lemma read_arg_ok c p a fut w : buf_ok c -> unread c ++ fut = a ++ CRLF ++ w -> bulklen c = zlen a -> zlen a < 2 ^ 62 ->
  zlen (argv p) <= argv_len p -> 1 <= argv_len p -> 1 <= multibulklen c -> zlen (argv p) + multibulklen c <= INT_MAX ->
  (read_arg false c p = Some (BulkBreak c p) /\ fut <> [] /\ zlen (unread c) < zlen a + 2) \/
  (exists c' p', read_arg false c p = Some (BulkNext c' p') /\ buf_ok c' /\ unread c' ++ fut = w /\ bulklen c' = -1 /\
     multibulklen c' = multibulklen c - 1 /\ same_client c c' /\ all_argv_len_sum c' = all_argv_len_sum c + zlen a /\
     argv p' = argv p ++ [a] /\ zlen (argv p') <= argv_len p' /\ 1 <= argv_len p' /\
     argv_len_sum p' = argv_len_sum p + zlen a /\ read_error p' = read_error p /\ (length (unread c') <= length (unread c))%nat).
Proof.
  intros Hb Hu Hbl Ha Hcap Hc1 Hm Hi. unfold read_arg. rewrite (unread_len c Hb), Hbl. pose proof (zlen_nonneg a).
  rewrite wrapu_id by lia. destruct (body_cases _ _ _ _ Hu) as [[Hs Hf]|(w1 & Hw1 & ->)].
  - left. rewrite (proj2 (Z.ltb_lt _ _)) by lia. done.
  - right. assert (Hz : zlen (unread c) = zlen a + 2 + zlen w1) by (rewrite Hw1, app_assoc, zlen_app, zlen_crlf; lia).
    pose proof (zlen_nonneg w1). rewrite (proj2 (Z.ltb_ge _ _)) by lia.
    pose proof (argv_room (zlen (argv p)) (argv_len p) (multibulklen c) Hcap Hc1 Hm Hi) as Hroom.
    match type of Hroom with _ < ?L => set (len := L) in * end. unfold cassert. rewrite (proj2 (Z.ltb_lt _ len)) by done. cbn [mbind option_bind negb andb].
    assert (Htake : take (Z.to_nat (zlen a)) (unread c) = a).
    { rewrite Hw1. unfold zlen. rewrite Nat2Z.id. by rewrite take_app_length. }
    assert (Hlen : zlen (argv p ++ [a]) <= len /\ 1 <= len) by (rewrite zlen_app; change (zlen [a]) with 1; pose proof (zlen_nonneg (argv p)); lia).
    destruct ((qb_pos c =? 0) && (zlen a >=? PROTO_MBULK_BIG_ARG) && (zlen (querybuf c) =? zlen a + 2)) eqn:Ebig.
    + apply andb_prop in Ebig as [Ebig Eq]. apply andb_prop in Ebig as [Ep _]. apply Z.eqb_eq in Ep, Eq.
      assert (Hq : querybuf c = unread c) by (unfold unread; by rewrite Ep).
      assert (Hw0 : w1 = []) by (apply zlen_0_nil; rewrite Hq in Eq; lia). subst w1.
      eexists _, _. split; [done|]. rewrite Hq, Htake. split; [unfold buf_ok; cbn; rewrite Ep; done|].
      split; [unfold unread; cbn; by rewrite Ep|]. unfold same_client. cbn. split_and!; try done; try lia. unfold unread. cbn. rewrite length_drop. cbn. lia.
    + replace (qb_pos c + zlen a + 2) with (qb_pos c + zlen (a ++ CRLF)) by (rewrite zlen_crlf; lia).
      destruct (advance_unread c (a ++ CRLF) w1 Hb) as [Hu1 Hb1]; [by rewrite <- app_assoc|].
      eexists _, _. split; [done|]. rewrite Htake. split; [exact Hb1|]. split; [by rewrite <- Hu1|]. unfold same_client. cbn. split_and!; try done; try lia.
      change (length (unread (set_buf c (querybuf c) (qb_pos c + zlen (a ++ CRLF)))) <= length (unread c))%nat.
      rewrite Hu1, Hw1, !length_app. lia.
Qed.

(** The loop over the arguments: the command is complete, or more bytes are to
    come and the state says what is left. *)
Definition bulk_result (c : client) (p : pendingCommand) (cmd : list (list Z)) (fut w : list Z) (c' : client) (p' : pendingCommand) : Prop :=
  same_client c c' /\ all_argv_len_sum c' - argv_len_sum p' = all_argv_len_sum c - argv_len_sum p /\ read_error p' = None /\ buf_ok c' /\
  argv_len_sum p' = foldr Z.add 0 (zlen <$> argv p') /\ (length (unread c') <= length (unread c))%nat /\
  ((incomplete p' = false /\ argv p' = cmd /\ unread c' ++ fut = w) \/
   (incomplete p' = true /\ fut <> [] /\ exists rest, rest <> [] /\ mid c' p' cmd rest (unread c' ++ fut) w /\
     zlen (unread c') <= zlen (enc_args rest))).

Lemma bulk_loop_ok rest : forall c p cmd fut w, mid c p cmd rest (unread c ++ fut) w ->
  exists c' p', bulk_loop false auth_required proto_max_bulk_len (length rest) c p = Some (c', p', true) /\
    bulk_result c p cmd fut w c' p'.
Proof.
  induction rest as [|a0 rest0 IH]; intros c p cmd fut w Hmid; cbn [bulk_loop length].
  - destruct Hmid as [Hb Hcmd Hg Hm He Hcap Hsum Hbulk]. rewrite Hm. change (zlen (@nil (list Z)) =? 0) with true. cbn match.
    destruct Hbulk as [[Hbl Hu]|(_ & a & rest' & Hr & _)]; [|done]. eexists _, _. split; [done|].
    do 6 (split; [done|]). left. split; [done|]. split; [by rewrite Hcmd, app_nil_r|done].
  - pose proof Hmid as [Hb Hcmd Hg Hm He Hcap Hsum Hbulk]. rewrite Hm, (proj2 (Z.eqb_neq _ 0)) by (rewrite zlen_cons; pose proof (zlen_nonneg rest0); lia).
    unfold bulk_iteration. destruct (read_bulklen_ok c p cmd _ w fut Hmid ltac:(done)) as [(c1 & p1 & -> & -> & -> & Hbl & Hf & Hsh)|
      (c1 & p1 & a & rest' & -> & Hr & Hb1 & Hu1 & Hbl1 & Hm1 & [Hs1 Hs1'] & Hall1 & Hav1 & Hal1 & Hsum1 & He1 & Hln1)]; cbn [mbind option_bind].
    + eexists _, _. split; [done|]. do 6 (split; [done|]). right. split; [done|]. split; [done|].
      exists (a0 :: rest0). split; [done|]. split; [|exact Hsh]. split; try done. destruct Hbulk as [[_ Hu]|(_ & a & rest' & _ & Hbl' & _)]; [by left|].
      pose proof (zlen_nonneg a). lia.
    + injection Hr as <- <-. pose proof (good_rest _ _ _ _ _ Hg Hcmd eq_refl) as [Ha1 _].
      assert (Htot : zlen cmd = zlen (argv p) + (1 + zlen rest0)) by (rewrite Hcmd, zlen_app, zlen_cons; lia). pose proof Hg as ([Hg1 Hg2] & _).
      rewrite zlen_cons in Hm. pose proof (zlen_nonneg rest0).
      destruct (read_arg_ok c1 p1 a0 fut (enc_args rest0 ++ w)) as [(-> & Hf & Hsh)|(c2 & p2 & -> & Hb2 & Hu2 & Hbl2 & Hm2 & [Hs2 Hs2'] & Hall2 & Hav2 & Hc2 & Hl2 & Hsum2 & He2 & Hln2)];
        [done|done|done|lia|rewrite Hav1, Hal1; lia|lia|lia|rewrite Hav1; lia| |]; cbn [mbind option_bind].
      * eexists _, _. split; [done|]. split; [by split|]. split; [cbn; lia|]. split; [done|]. split; [done|]. split; [cbn; by rewrite Hsum1, Hav1|].
        split; [exact Hln1|]. right. split; [done|]. split; [done|]. exists (a0 :: rest0). split; [done|].
        split; [|rewrite enc_args_cons, !zlen_app; change (zlen CRLF) with 2; pose proof (zlen_nonneg (36 :: decimal (zlen a0))); pose proof (zlen_nonneg (enc_args rest0));
          match goal with |- zlen ?u <= _ => change u with (unread c1) end; lia].
        split; cbn [set_argv argv argv_len argv_len_sum read_error incomplete]; try done.
        { by rewrite Hav1. }
        { rewrite zlen_cons. lia. }
        { rewrite Hav1, Hal1. done. }
        { by rewrite Hsum1, Hav1. }
        { right. split; [done|]. by exists a0, rest0. }
      * destruct (IH c2 p2 cmd fut w) as (c' & p' & Hl & Hres).
        { split; try done.
          - rewrite Hav2, Hav1, Hcmd. by rewrite <- app_assoc.
          - lia.
          - by rewrite He2.
          - rewrite Hsum2, Hsum1, Hsum, Hav2, Hav1, fmap_app. clear. induction (zlen <$> argv p) as [|z l IHl]; cbn in *; lia.
          - by left. }
        exists c', p'. split; [done|]. destruct Hres as ((Hs3 & Hs3') & Hall3 & He3 & Hb3 & Hsum3 & Hln3 & Hrest).
        split; [split; congruence|]. split; [lia|]. do 3 (split; [done|]). split; [lia|done].
Qed.
(** ** The head of a command *)

Lemma enc_cmds_cons cmd cmds : enc_cmds (cmd :: cmds) = (42 :: decimal (zlen cmd)) ++ CRLF ++ enc_args cmd ++ enc_cmds cmds.
Proof. unfold enc_cmds. rewrite fmap_cons. cbn [concat]. unfold enc_cmd. cbn [app]. by rewrite <- !app_assoc. Qed.

(** [strchr] on such a stream sees the end of the line as [memchr] does. *)
Lemma strchr_line u fut h w : Forall (fun x => x <> 13 /\ x <> 0) h -> u ++ fut = h ++ CRLF ++ w -> strchr 13 u = memchr 13 u.
Proof.
  intros Hh Heq. assert (H0 : Forall (fun x => x <> 0) h) by (eapply list.Forall_impl; [exact Hh|]; by intros x [_ ?]).
  assert (H13 : Forall (fun x => x <> 13) h) by (eapply list.Forall_impl; [exact Hh|]; by intros x [? _]).
  unfold strchr. apply app_split in Heq as [(e & -> & _)|(e & -> & He)].
  - apply list.Forall_app in H0 as [Hu _]. by rewrite c_str_id.
  - rewrite c_str_app by done. destruct e as [|x e]; [by rewrite !app_nil_r|]. cbn in He. injection He as <- _. cbn. by rewrite !memchr_app.
Qed.

Lemma read_count_ok c cmd fut w : buf_ok c -> good_cmd cmd -> unread c ++ fut = (42 :: decimal (zlen cmd)) ++ CRLF ++ enc_args cmd ++ w ->
  (read_count auth_required c (acquirePendingCommand pool_len) = Some (c, acquirePendingCommand pool_len, Some false) /\ fut <> [] /\
     zlen (unread c) <= zlen (enc_cmd cmd)) \/
  (exists c' p', read_count auth_required c (acquirePendingCommand pool_len) = Some (c', p', None) /\ same_client c c' /\
     all_argv_len_sum c' - argv_len_sum p' = all_argv_len_sum c /\ (length (unread c') <= length (unread c))%nat /\
     mid c' p' cmd cmd (unread c' ++ fut) w).
Proof.
  intros Hb Hg Hu. pose proof Hg as ([Hn1 Hn2] & Hau & _). unfold INT_MAX in Hn2. unfold read_count. cbn [acquirePendingCommand argv].
  change (zlen (@nil (list Z)) =? 0) with true. cbn [cassert mbind option_bind].
  set (h := 42 :: decimal (zlen cmd)) in *. pose proof (decimal_short (zlen cmd) ltac:(lia)) as Hds.
  assert (Hhl : zlen h = 1 + zlen (decimal (zlen cmd))) by (unfold h; zlia).
  assert (Hh : Forall (fun x => x <> 13 /\ x <> 0) h) by (constructor; [done|]; apply decimal_chars; lia).
  rewrite (strchr_line _ _ _ _ Hh Hu).
  assert (H13 : Forall (fun x => x <> 13) h) by (eapply list.Forall_impl; [exact Hh|]; by intros x [? _]).
  assert (Hlong : zlen h + 2 <= zlen (enc_cmd cmd)).
  { change (enc_cmd cmd) with (h ++ CRLF ++ enc_args cmd). rewrite app_assoc, zlen_app, zlen_crlf. pose proof (zlen_nonneg (enc_args cmd)). lia. }
  destruct (line_cases _ _ _ _ H13 Hu) as [(-> & Hz & Hf)|[(-> & Hz & Hf)|(-> & w1 & Hw1 & Hw)]].
  - left. destruct (Z.gtb_spec (zlen (unread c)) PROTO_INLINE_MAX_SIZE); [unfold PROTO_INLINE_MAX_SIZE in *; lia|]. do 2 (split; [done|]). lia.
  - left. destruct (Z.gtb_spec (zlen h) (zlen (unread c) - 2)); [|lia]. do 2 (split; [done|]). lia.
  - right. assert (Hzu : zlen (unread c) = zlen h + 2 + zlen w1) by (rewrite Hw1, app_assoc, zlen_app, zlen_crlf; lia).
    pose proof (zlen_nonneg w1). destruct (Z.gtb_spec (zlen h) (zlen (unread c) - 2)); [lia|].
    assert (Hrd : rd (unread c) 0 = Some 42) by (by rewrite Hw1). rewrite Hrd. cbn [mbind option_bind]. change (42 =? 42) with true. cbn [cassert mbind option_bind].
    assert (Htext : take (Z.to_nat (zlen h - 1)) (drop 1 (unread c)) = decimal (zlen cmd)).
    { rewrite Hw1, Hhl. change (drop 1 (h ++ CRLF ++ w1)) with (decimal (zlen cmd) ++ CRLF ++ w1).
      replace (Z.to_nat (1 + zlen (decimal (zlen cmd)) - 1)) with (length (decimal (zlen cmd))) by (unfold zlen; lia). by rewrite take_app_length. }
    rewrite Htext, string2ll_decimal by lia. unfold INT_MAX. destruct (Z.gtb_spec (zlen cmd) 2147483647); [lia|].
    assert (Ha : (zlen cmd >? 10) && auth_required = false).
    { destruct auth_required; [|apply andb_false_r]. specialize (Hau eq_refl). destruct (Z.gtb_spec (zlen cmd) 10); [lia|done]. }
    rewrite Ha, (proj2 (Z.leb_gt (zlen cmd) 0)) by lia.
    replace (qb_pos c + zlen h + 2) with (qb_pos c + zlen (h ++ CRLF)) by (rewrite zlen_crlf; lia).
    destruct (advance_unread c (h ++ CRLF) w1 Hb) as [Hu1 Hb1]; [by rewrite <- app_assoc|].
    cbn [acquirePendingCommand argv_len argv_len_sum]. destruct (Z.gtb_spec (zlen cmd) pool_len) as [Hgt|Hle];
      (eexists _, _; split; [done|]; split; [done|]; split; [cbn; lia|]; split;
       [match goal with |- (length (unread ?x) <= _)%nat => replace (unread x) with w1 by (symmetry; exact Hu1) end; rewrite Hw1, !length_app; lia|];
       split; cbn [set_argv argv argv_len argv_len_sum read_error acquirePendingCommand]; try done;
       [try lia; change (zlen (@nil (list Z))) with 0; lia|left; split; [done|]; by rewrite Hw, <- Hu1]).
Qed.

(** ** The queue *)

Definition done_cmd (p : pendingCommand) : Prop :=
  incomplete p = false /\ read_error p = None /\ good_cmd (argv p) /\ 0 <= argv_len_sum p.

Definition sums (l : list pendingCommand) : Z := foldr Z.add 0 (argv_len_sum <$> l).

Lemma sums_app l k : sums (l ++ k) = sums l + sums k.
Proof. unfold sums. rewrite fmap_app. induction (argv_len_sum <$> l) as [|x t IH]; cbn; [lia|]. rewrite IH. lia. Qed.

Lemma sum_lens_nonneg (l : list (list Z)) : 0 <= foldr Z.add 0 (zlen <$> l).
Proof. induction l as [|a l IH]; cbn; [lia|]. pose proof (zlen_nonneg a). cbn in IH. lia. Qed.

Lemma sums_nonneg l : Forall (fun p => 0 <= argv_len_sum p) l -> 0 <= sums l.
Proof. unfold sums. induction 1; cbn; lia. Qed.

(** The state of a client: commands [qs] are ready, [cmds] are still to be read,
    the first of them perhaps in part, from the buffer and [fut]. *)
Record st (c : client) (qs tl : list pendingCommand) (cmds : list (list (list Z))) (fut : list Z) : Prop := {
  st_buf : buf_ok c;
  st_pending : pending_cmds c = qs ++ tl;
  st_done : Forall done_cmd qs;
  st_all : all_argv_len_sum c = sums (qs ++ tl);
  st_good : Forall good_cmd cmds;
  st_at : (tl = [] /\ multibulklen c = 0 /\ bulklen c = -1 /\ reqtype c <> Some PROTO_REQ_INLINE /\ unread c ++ fut = enc_cmds cmds) \/
          (exists p cmd rest cmds', tl = [p] /\ incomplete p = true /\ reqtype c = Some PROTO_REQ_MULTIBULK /\ cmds = cmd :: cmds' /\
             rest <> [] /\ mid c p cmd rest (unread c ++ fut) (enc_cmds cmds')) }.

Lemma filter_done qs : Forall done_cmd qs -> filter (fun p => ready p = true) qs = qs.
Proof. intros Hq. apply filter_all. eapply list.Forall_impl; [exact Hq|]. intros p (Hi & _). unfold ready. by rewrite Hi. Qed.

Lemma ready_len_st c qs tl cmds fut : st c qs tl cmds fut -> ready_len c = zlen qs.
Proof.
  intros [Hb Hp Hd _ _ Hat]. unfold ready_len. rewrite Hp, list.filter_app, filter_done by done.
  destruct Hat as [(-> & _)|(p & cmd & rest & cmds' & -> & Hi & _)]; [by rewrite app_nil_r|].
  unfold filter. cbn. unfold ready. rewrite Hi. cbn. by rewrite app_nil_r.
Qed.

Lemma pop_tail_app qs p : pop_tail (qs ++ [p]) = Some (qs, p).
Proof. induction qs as [|q qs IH]; cbn; [done|]. by rewrite IH. Qed.

Lemma mid_pending c p cmd rest u w a l : mid c p cmd rest u w -> mid (set_pending c a l) p cmd rest u w.
Proof. intros []. by split. Qed.

(** The stream a state stands for gets shorter with a command. *)
Lemma mid_nonempty c p cmd rest u w : mid c p cmd rest u w -> rest <> [] -> (length w < length u)%nat.
Proof.
  intros [_ _ _ _ _ _ _ Hbulk] Hne. destruct Hbulk as [[_ ->]|(_ & a & rest' & _ & _ & ->)].
  - destruct rest as [|a rest]; [done|]. unfold enc_args. rewrite fmap_cons. cbn [concat]. unfold enc_arg. cbn. rewrite !length_app. lia.
  - rewrite !length_app. cbn. lia.
Qed.

(** What the loop over the arguments leaves, queued. *)
Lemma queue_bulk c c1 p1 qs cmd cmds fut c' p' : bulk_result c1 p1 cmd fut (enc_cmds cmds) c' p' ->
  same_client c c1 -> reqtype c = Some PROTO_REQ_MULTIBULK -> pending_cmds c = qs -> Forall done_cmd qs ->
  all_argv_len_sum c1 - argv_len_sum p1 = sums qs -> Forall good_cmd (cmd :: cmds) ->
  exists c2 b, (if bool_decide (is_Some (read_error p')) || incomplete p' then Some (addPendingCommand c' p', false)
     else Some (resetClientQbufState (addPendingCommand c' p'), true)) = Some (c2, b) /\
    (length (unread c2) <= length (unread c1))%nat /\
    if (b : bool) then argv p' = cmd /\ st c2 (qs ++ [p']) [] cmds fut
    else fut <> [] /\ zlen (unread c2) <= zlen (enc_cmd cmd) /\ exists tl, st c2 qs tl (cmd :: cmds) fut.
Proof.
  intros ((Hs & Hs') & Hall & He & Hb & Hsum & Hln & Hor) (Hc & Hc') Hrt Hq Hd Hs1 Hg. rewrite He.
  rewrite bool_decide_false by (by intros [? ?]). cbn [orb]. rewrite Hc', Hq in Hs'.
  assert (Hp0 : 0 <= argv_len_sum p').
  { rewrite Hsum. apply sum_lens_nonneg. }
  destruct Hor as [(Hi & Hav & Hu)|(Hi & Hf & rest & Hne & Hmid & Hsh)]; rewrite Hi.
  - eexists _, _. split; [done|]. split; [exact Hln|]. cbn match. split; [done|]. apply list.Forall_cons in Hg as [Hg1 Hg].
    split; cbn; try done.
    + by rewrite Hs', app_nil_r.
    + apply list.Forall_app. split; [done|]. constructor; [|constructor]. split; [done|]. split; [done|]. split; [by rewrite Hav|done].
    + rewrite app_nil_r, sums_app. unfold sums at 2. cbn. lia.
    + left. done.
  - eexists _, _. split; [done|]. split; [exact Hln|]. cbn match. split; [done|].
    split; [transitivity (zlen (enc_args cmd)); [|unfold enc_cmd; rewrite zlen_cons, !zlen_app; pose proof (zlen_nonneg (decimal (zlen cmd))); pose proof (zlen_nonneg CRLF); lia];
      rewrite (md_cmd _ _ _ _ _ _ Hmid), enc_args_app, zlen_app; pose proof (zlen_nonneg (enc_args (argv p'))); change (unread (addPendingCommand c' p')) with (unread c'); lia|].
    exists [p']. split; cbn; try done.
    + by rewrite Hs'.
    + rewrite sums_app. unfold sums at 2. cbn. lia.
    + right. exists p', cmd, rest, cmds. split; [done|]. split; [done|]. split; [congruence|]. split; [done|]. split; [done|]. by apply mid_pending.
Qed.

(** At most the bytes of the next command are left in the buffer. *)
Definition short (c : client) (cmds : list (list (list Z))) : Prop :=
  exists cmd cmds', cmds = cmd :: cmds' /\ zlen (unread c) <= zlen (enc_cmd cmd).

(** One request. *)
Lemma parse_one_ok c qs tl cmds fut : st c qs tl cmds fut -> qb_pos c < zlen (querybuf c) ->
  exists c' b, parse_one false auth_required proto_max_bulk_len pool_len c = Some (c', b) /\
    (length (unread c') <= length (unread c))%nat /\
    if (b : bool) then exists cmd cmds' p, cmds = cmd :: cmds' /\ argv p = cmd /\ st c' (qs ++ [p]) [] cmds' fut
    else fut <> [] /\ short c' cmds /\ exists tl', st c' qs tl' cmds fut.
Proof.
  intros Hst Hlt. pose proof (ready_len_st _ _ _ _ _ Hst) as Hrl. pose proof Hst as [Hb Hp Hd Hall Hg Hat]. unfold parse_one.
  assert (Hne : exists b w, unread c = b :: w).
  { pose proof (unread_len c Hb). destruct (unread c) as [|b w]; [change (zlen (@nil Z)) with 0 in *; lia|by exists b, w]. }
  destruct Hne as (b & w0 & Hun). rewrite (rd_unread c b w0 Hun Hb). cbn [mbind option_bind].
  destruct Hat as [(-> & Hm & Hbl & Hrt & Hu)|(p & cmd & rest & cmds' & -> & Hi & Hrt & -> & Hne & Hmid)].
  - destruct cmds as [|cmd cmds]; [rewrite Hun in Hu; done|]. rewrite enc_cmds_cons in Hu.
    assert (b = 42) as -> by (rewrite Hun in Hu; by injection Hu).
    set (c1 := match reqtype c with None => _ | Some _ => c end).
    assert (Hc1 : reqtype c1 = Some PROTO_REQ_MULTIBULK /\ pending_cmds c1 = qs /\ all_argv_len_sum c1 = all_argv_len_sum c /\ multibulklen c1 = 0 /\
      buf_ok c1 /\ unread c1 = unread c /\ bulklen c1 = -1).
    { unfold c1. rewrite app_nil_r in Hp. destruct (reqtype c) as [[|]|] eqn:Er; [done| |]; by split_and!. }
    destruct Hc1 as (Hr1 & Hp1 & Ha1 & Hm1 & Hb1 & Hu1 & Hbl1). rewrite Hr1.
    assert (Hrl1 : ready_len c1 = zlen qs) by (unfold ready_len; by rewrite Hp1, filter_done).
    rewrite Hp1, Hrl1, Z.eqb_refl. cbn [negb mbind option_bind]. unfold processMultibulkBuffer. rewrite Hm1. change (0 =? 0) with true. cbn match.
    apply list.Forall_cons in Hg as Hg'. destruct Hg' as [Hg1 Hg2]. rewrite <- Hu1 in Hu.
    destruct (read_count_ok c1 cmd fut (enc_cmds cmds) Hb1 Hg1 Hu) as [(-> & Hf & Hsh)|(c2 & p2 & -> & Hs2 & Ha2 & Hln2 & Hmid)]; cbn [mbind option_bind].
    + cbn [negb acquirePendingCommand read_error]. rewrite bool_decide_true by done. cbn [andb]. eexists _, _. split; [done|]. split; [by rewrite Hu1|]. cbn match.
      split; [done|]. split; [by exists cmd, cmds|]. exists []. split; try done; [by rewrite app_nil_r|by rewrite Ha1, Hall|]. left. split_and!; try done; [by rewrite Hr1|].
      by rewrite enc_cmds_cons.
    + pose proof (md_left _ _ _ _ _ _ Hmid) as Hml. pose proof Hg1 as ([Hc1 _] & _).
      unfold cassert. destruct (Z.gtb_spec (multibulklen c2) 0); [|lia]. cbn [mbind option_bind].
      replace (Z.to_nat (multibulklen c2)) with (length cmd) by (unfold zlen in Hml; lia).
      destruct (bulk_loop_ok cmd c2 p2 cmd fut (enc_cmds cmds) Hmid) as (c3 & p3 & -> & Hres). cbn [mbind option_bind negb andb].
      destruct (queue_bulk c1 c2 p2 qs cmd cmds fut c3 p3 Hres Hs2 Hr1 Hp1 Hd) as (c4 & b4 & Heq & Hln4 & H4); [rewrite Ha2, Ha1, Hall, app_nil_r; done|done|].
      exists c4, b4. split; [done|]. split; [rewrite <- Hu1; lia|]. destruct b4; [|destruct H4 as (Hf4 & Hsh4 & Hst4); split; [done|]; split; [by exists cmd, cmds|done]]. destruct H4 as [Hav Hst4]. by exists cmd, cmds, p3.
  - rewrite Hrt. cbn match. rewrite Hrt. cbn match. rewrite Hp, Hrl, zlen_app. change (zlen [p]) with 1.
    rewrite (proj2 (Z.eqb_neq (zlen qs + 1) (zlen qs))) by lia. cbn [negb]. unfold popPendingCommandFromTail. rewrite Hp, pop_tail_app. cbn [mbind option_bind].
    unfold processMultibulkBuffer. cbn [set_pending multibulklen]. pose proof (md_left _ _ _ _ _ _ Hmid) as Hml.
    assert (Hpos : 1 <= zlen rest) by (destruct rest; [done|]; rewrite zlen_cons; pose proof (zlen_nonneg rest); lia).
    rewrite (proj2 (Z.eqb_neq (multibulklen c) 0)) by lia. cbn [mbind option_bind]. unfold cassert.
    cbn [set_pending multibulklen]. destruct (Z.gtb_spec (multibulklen c) 0); [|lia]. cbn [mbind option_bind].
    replace (Z.to_nat (multibulklen c)) with (length rest) by (unfold zlen in Hml; lia).
    set (c1 := set_pending c (all_argv_len_sum c) qs).
    destruct (bulk_loop_ok rest c1 p cmd fut (enc_cmds cmds') (mid_pending _ _ _ _ _ _ _ _ Hmid)) as (c3 & p3 & -> & Hres).
    cbn [mbind option_bind negb andb].
    destruct (queue_bulk c1 c1 p qs cmd cmds' fut c3 p3 Hres) as (c4 & b4 & Heq & Hln4 & H4); try done.
    { cbn. rewrite Hall, sums_app. unfold sums at 2. cbn. lia. }
    exists c4, b4. split; [done|]. split; [exact Hln4|]. destruct b4; [|destruct H4 as (Hf4 & Hsh4 & Hst4); split; [done|]; split; [by exists cmd, cmds'|done]]. destruct H4 as [Hav Hst4]. by exists cmd, cmds', p3.
Qed.

(** The bytes of the commands that are still to be read. *)
Lemma stream_shorter c qs tl cmd cmds fut c' qs' : st c qs tl (cmd :: cmds) fut -> st c' qs' [] cmds fut ->
  (length (unread c') < length (unread c))%nat.
Proof.
  intros [_ _ _ _ _ Hat] [_ _ _ _ _ Hat'].
  destruct Hat' as [(_ & _ & _ & _ & Hu')|(p & ? & ? & ? & Hnil & _)]; [|done]. apply (f_equal length) in Hu'. rewrite length_app in Hu'.
  destruct Hat as [(_ & _ & _ & _ & Hu)|(p & cmd' & rest & cmds' & _ & _ & _ & [= <- <-] & Hne & Hmid)].
  - rewrite enc_cmds_cons in Hu. apply (f_equal length) in Hu. rewrite !length_app in Hu. cbn in Hu. lia.
  - pose proof (mid_nonempty _ _ _ _ _ _ Hmid Hne) as Hlt. rewrite length_app in Hlt. lia.
Qed.

Abbreviation look := (lookahead auth_required server_lookahead).

Lemma parse_loop_ok fuel : forall c qs tl cmds fut, st c qs tl cmds fut -> (length (unread c) < fuel)%nat ->
  exists c' qs' tl' cmds', parse_loop false auth_required proto_max_bulk_len server_lookahead pool_len fuel c = Some c' /\
    st c' (qs ++ qs') tl' cmds' fut /\ cmds = (argv <$> qs') ++ cmds' /\ (length (unread c') + length qs' <= length (unread c))%nat /\
    (qs' = [] -> zlen qs < look -> qb_pos c < zlen (querybuf c) -> fut <> [] /\ short c' cmds').
Proof.
  induction fuel as [|fuel IH]; intros c qs tl cmds fut Hst Hf; [lia|]. cbn [parse_loop]. rewrite (ready_len_st _ _ _ _ _ Hst).
  destruct ((zlen qs <? look) && (qb_pos c <? zlen (querybuf c))) eqn:Eg.
  2:{ exists c, [], tl, cmds. rewrite app_nil_r. split; [done|]. split; [done|]. split; [done|]. split; [cbn; lia|]. intros _ H1 H2.
      rewrite (proj2 (Z.ltb_lt _ _) H1), (proj2 (Z.ltb_lt _ _) H2) in Eg. done. }
  apply andb_prop in Eg as [_ Eq]. apply Z.ltb_lt in Eq.
  destruct (parse_one_ok c qs tl cmds fut Hst Eq) as (c1 & b & -> & Hln & Hb). cbn [mbind option_bind]. destruct b.
  - destruct Hb as (cmd & cmds1 & p & -> & Hav & Hst1). pose proof (stream_shorter _ _ _ _ _ _ _ _ Hst Hst1) as Hlt.
    destruct (IH c1 (qs ++ [p]) [] cmds1 fut Hst1 ltac:(lia)) as (c' & qs' & tl' & cmds' & -> & Hst' & -> & Hlen & _).
    exists c', (p :: qs'), tl', cmds'. split; [done|]. rewrite <- app_assoc in Hst'. split; [done|]. split; [by rewrite fmap_cons, Hav|].
    split; [cbn; lia|done].
  - destruct Hb as (Hfut & Hsh & tl' & Hst'). exists c1, [], tl', cmds. rewrite app_nil_r. split; [done|]. split; [done|]. split; [done|]. split; [cbn; lia|done].
Qed.

(** ** Executing *)

Lemma sums_st c qs tl cmds fut : st c qs tl cmds fut -> 0 <= sums (qs ++ tl).
Proof.
  intros [_ _ Hd _ _ Hat]. apply sums_nonneg, list.Forall_app. split; [eapply list.Forall_impl; [exact Hd|]; by intros p (_ & _ & _ & ?)|].
  destruct Hat as [(-> & _)|(p & cmd & rest & cmds' & -> & _ & _ & _ & _ & Hmid)]; [done|]. constructor; [|done].
  rewrite (md_sum _ _ _ _ _ _ Hmid). apply sum_lens_nonneg.
Qed.

Lemma st_pop c p qs tl cmds fut a : st c (p :: qs) tl cmds fut -> a = sums (qs ++ tl) -> st (set_pending c a (qs ++ tl)) qs tl cmds fut.
Proof.
  intros [Hb Hp Hd Hall Hg Hat] ->. apply list.Forall_cons in Hd as [_ Hd]. split; try done. destruct Hat as [?|(p' & cmd & rest & cmds' & -> & Hi & Hr & -> & Hne & Hm)].
  - by left.
  - right. exists p', cmd, rest, cmds'. do 5 (split; [done|]). by apply mid_pending.
Qed.

Lemma resetClient_ok c p qs tl cmds fut : st c (p :: qs) tl cmds fut ->
  exists c', resetClient c = Some c' /\ st c' qs tl cmds fut /\ unread c' = unread c.
Proof.
  intros Hst. pose proof Hst as [Hb Hp Hd Hall Hg Hat]. cbn in Hp.
  assert (Hs : sums (p :: qs ++ tl) = argv_len_sum p + sums (qs ++ tl)) by done.
  assert (Hst' : st (set_pending c (sums (qs ++ tl)) (qs ++ tl)) qs tl cmds fut) by (by eapply st_pop).
  pose proof (sums_st _ _ _ _ _ Hst') as H0. exists (set_pending c (sums (qs ++ tl)) (qs ++ tl)).
  split; [|split; [exact Hst'|done]]. cbn [app] in Hall. rewrite Hs in Hall.
  unfold resetClient. rewrite Hp. cbn [head mbind option_bind tail]. unfold cassert.
  rewrite Hall. destruct (Z.geb_spec (argv_len_sum p + sums (qs ++ tl)) (argv_len_sum p)); [|lia]. cbn [mbind option_bind].
  replace (argv_len_sum p + sums (qs ++ tl) - argv_len_sum p) with (sums (qs ++ tl)) by lia.
  destruct (Z.eqb_spec (zlen (qs ++ tl)) 0) as [E|_]; [|done]. apply zlen_0_nil in E. by rewrite E.
Qed.

Abbreviation run := (input_loop false auth_required proto_max_bulk_len server_lookahead pool_len).

Lemma look_pos : 1 <= look.
Proof. unfold lookahead. destruct auth_required; lia. Qed.

(** A state from which nothing is left to read. *)
Lemma st_end c tl cmds : st c [] tl cmds [] -> qb_pos c >= zlen (querybuf c) -> cmds = [] /\ tl = [] /\ unread c = [].
Proof.
  intros [Hb _ _ _ Hg Hat] Hq. assert (Hu : unread c = []) by (apply zlen_0_nil; pose proof (unread_len c Hb); unfold buf_ok in Hb; lia).
  rewrite Hu in Hat. destruct Hat as [(-> & _ & _ & _ & He)|(p & cmd & rest & cmds' & _ & _ & _ & _ & Hne & Hmid)].
  - split; [|done]. destruct cmds; [done|]. by rewrite enc_cmds_cons in He.
  - pose proof (mid_nonempty _ _ _ _ _ _ Hmid Hne) as Hlt. cbn in Hlt. lia.
Qed.

Lemma input_loop_ok fuel : forall c qs tl cmds fut log, st c qs tl cmds fut -> (length (unread c) + length qs < fuel)%nat ->
  exists c' tl' cmds' done, run fuel c log = Some (c', log ++ done, None) /\ st c' [] tl' cmds' fut /\
    (argv <$> qs) ++ cmds = done ++ cmds' /\ (fut = [] -> cmds' = [] /\ tl' = [] /\ unread c' = []) /\ (unread c' = [] \/ short c' cmds').
Proof.
  induction fuel as [|fuel IH]; intros c qs tl cmds fut log Hst Hf; [lia|]. cbn [input_loop]. rewrite (ready_len_st _ _ _ _ _ Hst).
  assert (Hexec : forall c p qs tl cmds, st c (p :: qs) tl cmds fut -> (length (unread c) + length qs < fuel)%nat ->
    exists c' tl' cmds' done, (q ← head (pending_cmds c);
          match read_error q with
          | Some e => Some (c, log, Some e)
          | None => c' ← resetClient c; run fuel c' (if zlen (argv q) =? 0 then log else log ++ [argv q])
          end) = Some (c', log ++ done, None) /\ st c' [] tl' cmds' fut /\
    (argv <$> (p :: qs)) ++ cmds = done ++ cmds' /\ (fut = [] -> cmds' = [] /\ tl' = [] /\ unread c' = []) /\ (unread c' = [] \/ short c' cmds')).
  { clear -IH. intros c p qs tl cmds Hst Hf. pose proof Hst as [_ Hp Hd _ _ _]. rewrite Hp. cbn [app head mbind option_bind].
    apply list.Forall_cons in Hd as [(_ & -> & ([Hg _] & _) & _) _]. destruct (resetClient_ok _ _ _ _ _ _ Hst) as (c1 & -> & Hst1 & Hu1).
    cbn [mbind option_bind]. rewrite (proj2 (Z.eqb_neq (zlen (argv p)) 0)) by lia. rewrite <- Hu1 in Hf.
    destruct (IH c1 qs tl cmds fut (log ++ [argv p]) Hst1 Hf) as (c' & tl' & cmds' & dn & Hr & Hst' & Heq & Hend).
    exists c', tl', cmds', (argv p :: dn). rewrite Hr, <- app_assoc. do 2 (split; [done|]). split; [|done]. rewrite fmap_cons. cbn. by rewrite Heq. }
  destruct qs as [|q qs].
  - change (zlen (@nil pendingCommand)) with 0. cbn [orb]. destruct (Z.ltb_spec (qb_pos c) (zlen (querybuf c))) as [Hlt|Hge]; cbn [orb]; change (0 >? 0) with false; cbn match.
    2:{ exists c, tl, cmds, []. rewrite app_nil_r. do 3 (split; [done|]). split; [intros ->; apply (st_end _ _ _ Hst); lia|]. left.
        destruct Hst as [Hb _ _ _ _ _]. apply zlen_0_nil. rewrite <- (unread_len c Hb). unfold buf_ok in Hb. lia. }
    change (0 =? 0) with true. cbn match.
    destruct (parse_loop_ok (S (length (unread c))) c [] tl cmds fut Hst ltac:(lia)) as (c1 & qs1 & tl1 & cmds1 & -> & Hst1 & -> & Hlen & Hfut).
    cbn [mbind option_bind app] in Hst1 |- *. rewrite (ready_len_st _ _ _ _ _ Hst1). destruct qs1 as [|q1 qs1].
    + change (zlen (@nil pendingCommand) =? 0) with true. cbn match. exists c1, tl1, cmds1, []. rewrite app_nil_r. do 3 (split; [done|]).
      destruct (Hfut eq_refl (Z.lt_le_trans _ _ _ Z.lt_0_1 look_pos) Hlt) as [Hf' Hsh]. split; [done|by right].
    + rewrite (proj2 (Z.eqb_neq (zlen (q1 :: qs1)) 0)) by (rewrite zlen_cons; pose proof (zlen_nonneg qs1); lia).
      apply (Hexec c1 q1 qs1 tl1 cmds1 Hst1). cbn in Hlen, Hf. lia.
  - pose proof (zlen_nonneg qs). rewrite zlen_cons. destruct (Z.gtb_spec (1 + zlen qs) 0); [|lia]. rewrite orb_true_r. rewrite (proj2 (Z.eqb_neq (1 + zlen qs) 0)) by lia.
    cbn [mbind option_bind]. rewrite (ready_len_st _ _ _ _ _ Hst), zlen_cons, (proj2 (Z.eqb_neq (1 + zlen qs) 0)) by lia.
    apply (Hexec c q qs tl cmds Hst). cbn in Hf. lia.
Qed.

(** ** Reading *)

(** Trimming the buffer, and bytes that arrive. *)
Lemma st_trim c qs tl cmds fut : st c qs tl cmds fut -> st (set_buf c (unread c) 0) qs tl cmds fut.
Proof.
  intros [Hb Hp Hd Hall Hg Hat]. assert (Hu : unread (set_buf c (unread c) 0) = unread c) by done.
  assert (Hb' : buf_ok (set_buf c (unread c) 0)) by (unfold buf_ok; cbn; pose proof (zlen_nonneg (unread c)); lia).
  split; try done. rewrite Hu. destruct Hat as [?|(p & cmd & rest & cmds' & -> & Hi & Hr & -> & Hne & [])]; [by left|].
  right. exists p, cmd, rest, cmds'. do 5 (split; [done|]). by split.
Qed.

Lemma st_arrive c qs tl cmds bytes fut : st c qs tl cmds (bytes ++ fut) -> st (set_buf c (querybuf c ++ bytes) (qb_pos c)) qs tl cmds fut.
Proof.
  intros [Hb Hp Hd Hall Hg Hat]. assert (Hu : unread (set_buf c (querybuf c ++ bytes) (qb_pos c)) = unread c ++ bytes).
  { unfold unread. cbn. rewrite drop_app_le by (unfold buf_ok, zlen in Hb; lia). done. }
  assert (Hb' : buf_ok (set_buf c (querybuf c ++ bytes) (qb_pos c))) by (unfold buf_ok in *; cbn; rewrite zlen_app; pose proof (zlen_nonneg bytes); lia).
  split; try done. rewrite Hu, <- app_assoc. destruct Hat as [?|(p & cmd & rest & cmds' & -> & Hi & Hr & -> & Hne & [])]; [by left|].
  right. exists p, cmd, rest, cmds'. do 5 (split; [done|]). by split.
Qed.

Abbreviation read := (readQueryFromClient false auth_required proto_max_bulk_len server_lookahead max_querybuf pool_len).

(** One read of a client between two commands or inside of one. *)
Lemma read_ok c tl cmds log bytes fut : st c [] tl cmds (bytes ++ fut) -> qb_pos c = 0 ->
  zlen (querybuf c) + zlen bytes <= max_querybuf -> (auth_required = true -> zlen (querybuf c) + zlen bytes <= 1024 * 1024) ->
  exists c' tl' cmds' done, read c log bytes = Some (c', log ++ done, None) /\ st c' [] tl' cmds' fut /\ cmds = done ++ cmds' /\
    qb_pos c' = 0 /\ (querybuf c' = [] \/ short c' cmds') /\ (fut = [] -> cmds' = [] /\ tl' = [] /\ querybuf c' = []).
Proof.
  intros Hst Hpos Hm Ha. apply st_arrive in Hst. unfold readQueryFromClient. cbn [set_buf querybuf negb andb]. rewrite zlen_app.
  destruct (Z.gtb_spec (zlen (querybuf c) + zlen bytes) max_querybuf); [lia|]. cbn [orb].
  replace ((zlen (querybuf c) + zlen bytes >? 1024 * 1024) && auth_required) with false
    by (destruct auth_required; [specialize (Ha eq_refl); destruct (Z.gtb_spec (zlen (querybuf c) + zlen bytes) (1024 * 1024)); [lia|done]|by rewrite andb_false_r]).
  unfold processInputBuffer. set (c1 := set_buf c (querybuf c ++ bytes) (qb_pos c)) in *.
  destruct (input_loop_ok (S (length (unread c1) + length (pending_cmds c1))) c1 [] tl cmds fut log Hst) as (c2 & tl2 & cmds2 & dn & -> & Hst2 & Heq & Hend & Hsh); [cbn; lia|].
  cbn [mbind option_bind]. exists (set_buf c2 (unread c2) 0), tl2, cmds2, dn. split; [done|]. split; [by apply st_trim|]. split; [done|]. split; [done|].
  split; [exact Hsh|]. intros Hf. by destruct (Hend Hf) as (? & ? & ?).
Qed.
End Spec.

(** * Requests: what a client gets to run

    [read_all] feeds the reads of a connection to [readQueryFromClient] until
    an error closes it. *)

Section Connection.
Context (auth_required : bool) (proto_max_bulk_len server_lookahead max_querybuf pool_len : Z).

Abbreviation read := (readQueryFromClient false auth_required proto_max_bulk_len server_lookahead max_querybuf pool_len).

Fixpoint read_all (c : client) (log : list (list (list Z))) (chunks : list (list Z))
    : option (client * list (list (list Z)) * option read_err) :=
  match chunks with
  | [] => Some (c, log, None)
  | bytes :: chunks =>
      '(c, log, e) ← read c log bytes;
      match e with
      | Some e => Some (c, log, Some e)
      | None => read_all c log chunks
      end
  end.

(** What a buffer may hold. *)
Definition buffer_limit : Z := if auth_required then Z.min max_querybuf (1024 * 1024) else max_querybuf.

Context (Hmax : 0 <= proto_max_bulk_len < 2 ^ 62) (Hlook : 1 <= server_lookahead) (Hpool : 0 <= pool_len).

Lemma read_all_ok chunk_max chunks : forall c tl cmds log,
  st auth_required proto_max_bulk_len c [] tl cmds (concat chunks) -> qb_pos c = 0 ->
  Forall (fun b => zlen b <= chunk_max) chunks -> Forall (fun cmd => zlen (enc_cmd cmd) + chunk_max <= buffer_limit) cmds ->
  chunk_max <= buffer_limit -> (querybuf c = [] \/ short c cmds) -> (chunks = [] -> cmds = [] /\ tl = [] /\ querybuf c = []) ->
  exists c', read_all c log chunks = Some (c', log ++ cmds, None) /\ st auth_required proto_max_bulk_len c' [] [] [] [] /\ querybuf c' = [].
Proof.
  induction chunks as [|b chunks IH]; intros c tl cmds log Hst Hpos Hb Hc Hlim Hsh Hend.
  - destruct (Hend eq_refl) as (-> & -> & Hq). exists c. rewrite app_nil_r. done.
  - apply list.Forall_cons in Hb as [Hb1 Hb]. cbn [concat] in Hst. cbn [read_all].
    assert (Hbuf : zlen (querybuf c) + zlen b <= buffer_limit).
    { destruct Hsh as [->|(cmd & cmds' & -> & Hle)]; [change (zlen (@nil Z)) with 0; lia|]. apply list.Forall_cons in Hc as [Hc _].
      unfold unread in Hle. rewrite Hpos, drop_0 in Hle. lia. }
    unfold buffer_limit in Hbuf.
    destruct (read_ok auth_required proto_max_bulk_len server_lookahead max_querybuf pool_len Hmax Hlook Hpool c tl cmds log b (concat chunks) Hst Hpos)
      as (c1 & tl1 & cmds1 & dn & -> & Hst1 & -> & Hp1 & Hsh1 & Hend1); [destruct auth_required; lia|intros E; rewrite E in Hbuf; lia|].
    cbn [mbind option_bind]. apply list.Forall_app in Hc as [_ Hc].
    destruct (IH c1 tl1 cmds1 (log ++ dn) Hst1 Hp1 Hb Hc Hlim Hsh1) as (c' & Hr & H').
    { intros ->. by apply Hend1. }
    exists c'. by rewrite Hr, <- app_assoc.
Qed.

Lemma st_new cmds : Forall (good_cmd auth_required proto_max_bulk_len) cmds ->
  st auth_required proto_max_bulk_len new_client [] [] cmds (enc_cmds cmds).
Proof. intros Hg. split; try done. by left. Qed.

(** C17: A pipeline of commands in RESP form, cut into reads at any places,
    inside of headers, lengths, arguments and line ends alike, makes the server
    run exactly these commands in their order, reports no error, and leaves an
    empty buffer, an empty queue and no accounted bytes: for a configuration
    that allows the commands, with reads that fit into the buffer together
    with any one command. *)
Theorem resp_any_chunks cmds chunks chunk_max :
  concat chunks = enc_cmds cmds -> Forall (good_cmd auth_required proto_max_bulk_len) cmds ->
  Forall (fun b => zlen b <= chunk_max) chunks -> Forall (fun cmd => zlen (enc_cmd cmd) + chunk_max <= buffer_limit) cmds ->
  chunk_max <= buffer_limit ->
  exists c, read_all new_client [] chunks = Some (c, cmds, None) /\
    querybuf c = [] /\ pending_cmds c = [] /\ all_argv_len_sum c = 0 /\ multibulklen c = 0 /\ bulklen c = -1.
Proof.
  intros Hcat Hg Hb Hc Hlim. pose proof (st_new cmds Hg) as Hst. rewrite <- Hcat in Hst.
  destruct (read_all_ok chunk_max chunks new_client [] cmds [] Hst eq_refl Hb Hc Hlim (or_introl eq_refl)) as (c & Hr & Hst' & Hq).
  { intros ->. split; [|done]. destruct cmds; [done|]. by rewrite enc_cmds_cons in Hcat. }
  exists c. split; [done|]. split; [done|]. destruct Hst' as [_ Hp _ Hall _ Hat]. split; [done|]. split; [done|].
  destruct Hat as [(_ & Hm & Hbl & _)|(p & ? & ? & ? & Hnil & _)]; [done|done].
Qed.
End Connection.

(** [SET a "\r\n"] and [PING], in five reads that cut a count, a length, an
    argument and a line end. *)
Definition sample_cmds : list (list (list Z)) := [[[83; 69; 84]; [97]; [13; 10]]; [[80; 73; 78; 71]]].
Definition sample_chunks : list (list Z) :=
  let s := enc_cmds sample_cmds in
  [take 1 s; take 2 (drop 1 s); take 8 (drop 3 s); take 17 (drop 11 s); drop 28 s].

Lemma resp_any_chunks_witness : exists c,
  read_all true 512 16 1000 8 new_client [] sample_chunks = Some (c, sample_cmds, None) /\
  querybuf c = [] /\ pending_cmds c = [] /\ all_argv_len_sum c = 0 /\ multibulklen c = 0 /\ bulklen c = -1.
Proof.
  apply (resp_any_chunks true 512 16 1000 8 ltac:(lia) ltac:(lia) ltac:(lia) sample_cmds sample_chunks 20).
  - vm_compute. reflexivity.
  - repeat constructor; vm_compute; try done; congruence.
  - repeat constructor; vm_compute; congruence.
  - repeat constructor; vm_compute; congruence.
  - vm_compute. congruence.
Defined.
