(* ===== verification/RespSafe.v ===== *)
(** * Requests: bytes that are no requests

    Whatever a client sends, the parser fails no assertion, stays within the
    query buffer and the argument arrays, and returns. *)

From stdpp Require Import base list numbers option tactics.
From S2P Require Import Prelude Util SdsArgs Resp RespThms.

Lemma memchr_bounds b s i : memchr b s = Some i -> 0 <= i < zlen s.
Proof.
  revert i. induction s as [|x s IH]; intros i; cbn; [done|]. rewrite zlen_cons. pose proof (zlen_nonneg s).
  destruct (x =? b); [intros [= <-]; lia|]. destruct (memchr b s) as [j|]; [|done]. intros [= <-]. specialize (IH j eq_refl). lia.
Qed.

Lemma c_str_short s : zlen (c_str s) <= zlen s.
Proof. induction s as [|x s IH]; cbn; [done|]. destruct (x =? 0); rewrite ?zlen_cons; [cbn; pose proof (zlen_nonneg s); change (zlen (@nil Z)) with 0; lia|lia]. Qed.

Lemma strchr_bounds b s i : strchr b s = Some i -> 0 <= i < zlen s.
Proof. intros Hi. apply memchr_bounds in Hi. pose proof (c_str_short s). lia. Qed.

Lemma rd_ok (s : list Z) i : 0 <= i < zlen s -> exists b, rd s i = Some b.
Proof. intros Hi. rewrite rd_lookup by lia. destruct (lookup_lt_is_Some_2 s (Z.to_nat i)) as [b Hb]; [unfold zlen in Hi; lia|]. by exists b. Qed.

(** The parser moves forward by [n] bytes. *)
Lemma advance_safe c n : buf_ok c -> 0 <= n <= zlen (unread c) ->
  buf_ok (set_buf c (querybuf c) (qb_pos c + n)) /\ zlen (unread (set_buf c (querybuf c) (qb_pos c + n))) = zlen (unread c) - n.
Proof.
  intros Hb Hn. pose proof (unread_len c Hb) as Hl. assert (Hb' : buf_ok (set_buf c (querybuf c) (qb_pos c + n))) by (unfold buf_ok in *; cbn; lia).
  split; [done|]. rewrite <- (unread_len _ Hb'), <- Hl. cbn. lia.
Qed.

(** What every part of the parser keeps: the queue, the accounting of the bytes,
    and the direction in which it reads. *)
Record pres (c : client) (p : pendingCommand) (c' : client) (p' : pendingCommand) : Prop := {
  pr_buf : buf_ok c';
  pr_same : same_client c c';
  pr_all : all_argv_len_sum c' - argv_len_sum p' = all_argv_len_sum c - argv_len_sum p;
  pr_sum : argv_len_sum p <= argv_len_sum p';
  pr_unread : zlen (unread c') <= zlen (unread c) }.

Lemma pres_refl c p p' : buf_ok c -> argv_len_sum p' = argv_len_sum p -> pres c p c p'.
Proof. intros Hb Hs. split; try done; lia. Qed.

Lemma pres_trans c p c1 p1 c2 p2 : pres c p c1 p1 -> pres c1 p1 c2 p2 -> pres c p c2 p2.
Proof. intros [? [??] ???] [? [??] ???]. split; try done; try lia. split; congruence. Qed.

(** Room for the arguments to come. *)
Definition room (c : client) (p : pendingCommand) : Prop :=
  0 < multibulklen c /\ zlen (argv p) + multibulklen c <= INT_MAX /\ zlen (argv p) <= argv_len p /\ 1 <= argv_len p.

Section Safe.
Context (auth_required : bool) (proto_max_bulk_len server_lookahead max_querybuf pool_len : Z).
Context (Hmax : 0 <= proto_max_bulk_len < 2 ^ 62) (Hlook : 1 <= server_lookahead) (Hpool : 0 <= pool_len).

Definition len_ok (c : client) (p : pendingCommand) : Prop := bulklen c = -1 \/ (0 <= bulklen c < 2 ^ 62 /\ incomplete p = true).

Lemma read_bulklen_safe c p : buf_ok c -> room c p -> len_ok c p ->
  (exists p', read_bulklen false auth_required proto_max_bulk_len c p = Some (inl (BulkBreak c p)) \/
     (read_bulklen false auth_required proto_max_bulk_len c p = Some (inl (BulkReturn c p')) /\ bulklen c = -1 /\ exists e, p' = set_error p e)) \/
  (exists c' p', read_bulklen false auth_required proto_max_bulk_len c p = Some (inr (c', p')) /\ pres c p c' p' /\ room c' p' /\
     0 <= bulklen c' < 2 ^ 62 /\ multibulklen c' = multibulklen c).
Proof.
  intros Hb Hr Hl. unfold read_bulklen. destruct (Z.eqb_spec (bulklen c) (-1)) as [Hm1|Hm1].
  2:{ destruct Hl as [?|[Hl Hi]]; [done|]. right. exists c, p. rewrite Hi. split; [done|]. split; [by apply pres_refl|]. split; [done|]. split; [lia|done]. }
  destruct (memchr 13 (unread c)) as [nl|] eqn:En.
  2:{ left. destruct (zlen (unread c) >? PROTO_INLINE_MAX_SIZE); [|exists p; by left]. exists (set_error p TOO_BIG_BUCK_COUNT_STRING). right. split; [done|]. split; [done|]. by eexists. }
  apply memchr_bounds in En. destruct (Z.gtb_spec nl (zlen (unread c) - 2)) as [?|Hnl]; [left; exists p; by left|].
  destruct (rd_ok (unread c) 0) as [b ->]; [lia|]. cbn [mbind option_bind].
  destruct (b =? 36); cbn [negb]; [|left; exists (set_error p EXPECTED_DOLLAR); right; split; [done|]; split; [done|]; by eexists].
  destruct (string2ll _) as [ll|]; [|left; exists (set_error p INVALID_BUCK_LENGTH); right; split; [done|]; split; [done|]; by eexists].
  destruct ((ll <? 0) || (ll >? proto_max_bulk_len)) eqn:E1; cbn [negb andb]; rewrite ?E1;
    [left; exists (set_error p INVALID_BUCK_LENGTH); right; split; [done|]; split; [done|]; by eexists|].
  apply orb_false_elim in E1 as [E1 E2]. apply Z.ltb_ge in E1. rewrite Z.gtb_ltb, Z.ltb_ge in E2.
  destruct ((ll >? 16384) && auth_required); [left; exists (set_error p UNAUTH_BUCK_LENGTH); right; split; [done|]; split; [done|]; by eexists|].
  right. rewrite <- Z.add_assoc. destruct (advance_safe c (nl + 2) Hb ltac:(lia)) as [Hb1 Hu1]. set (c1 := set_buf c (querybuf c) (qb_pos c + (nl + 2))) in *.
  destruct ((ll >=? PROTO_MBULK_BIG_ARG) && _); (eexists _, _; split; [done|]; split; [|split; [exact Hr|split; [cbn; lia|done]]]).
  - split; try done; [unfold buf_ok; cbn; pose proof (zlen_nonneg (unread c1)); lia|].
    change (zlen (unread c1) <= zlen (unread c)). lia.
  - split; try done. change (zlen (unread c1) <= zlen (unread c)). lia.
Qed.

Lemma read_arg_safe c p : buf_ok c -> room c p -> 0 <= bulklen c < 2 ^ 62 ->
  read_arg false c p = Some (BulkBreak c p) \/
  (exists c' p', read_arg false c p = Some (BulkNext c' p') /\ pres c p c' p' /\ multibulklen c' = multibulklen c - 1 /\ bulklen c' = -1 /\
     zlen (argv p') = zlen (argv p) + 1 /\ zlen (argv p') <= argv_len p' /\ 1 <= argv_len p' /\ zlen (unread c') < zlen (unread c)).
Proof.
  intros Hb (Hm & Hi & Hc1 & Hc2) Hbl. pose proof (zlen_nonneg (argv p)). unfold read_arg. rewrite (unread_len c Hb), wrapu_id by lia.
  destruct (Z.ltb_spec (zlen (unread c)) (bulklen c + 2)) as [?|Hge]; [by left|]. right.
  pose proof (argv_room (zlen (argv p)) (argv_len p) (multibulklen c) Hc1 Hc2 ltac:(lia) Hi) as Hroom.
  match type of Hroom with _ < ?L => set (len := L) in * end. unfold cassert. rewrite (proj2 (Z.ltb_lt _ len)) by done. cbn [mbind option_bind negb andb].
  destruct ((qb_pos c =? 0) && (bulklen c >=? PROTO_MBULK_BIG_ARG) && (zlen (querybuf c) =? bulklen c + 2)) eqn:Ebig;
    (eexists _, _; split; [done|]; cbn [set_bulk set_pending set_argv multibulklen bulklen argv argv_len]; rewrite zlen_app;
     change (zlen [_]) with 1; split; [|split; [done|split; [done|split; [lia|split; [lia|split; [lia|]]]]]]).
  - apply andb_prop in Ebig as [Ebig _]. apply andb_prop in Ebig as [Ep _]. apply Z.eqb_eq in Ep.
    split; cbn; try done; try lia; [unfold buf_ok; cbn; rewrite Ep; done|]. unfold unread at 1. cbn. rewrite drop_nil. change (zlen (@nil Z)) with 0. lia.
  - unfold unread at 1. cbn. rewrite drop_nil. change (zlen (@nil Z)) with 0. lia.
  - rewrite <- Z.add_assoc. destruct (advance_safe c (bulklen c + 2) Hb ltac:(lia)) as [Hb1 Hu1].
    split; cbn; try done; try lia. unfold unread in Hu1 |- *. cbn in Hu1 |- *. lia.
  - rewrite <- Z.add_assoc. destruct (advance_safe c (bulklen c + 2) Hb ltac:(lia)) as [Hb1 Hu1].
    unfold unread in Hu1 |- *. cbn in Hu1 |- *. lia.
Qed.

(** The loop over the arguments completes the command, waits for more bytes, or
    finds an error. *)
Definition loop_result (c : client) (p : pendingCommand) (c' : client) (p' : pendingCommand) (ok : bool) : Prop :=
  pres c p c' p' /\
  ((ok = true /\ incomplete p' = false /\ multibulklen c' = 0 /\ (0 < multibulklen c -> zlen (unread c') < zlen (unread c))) \/
   (room c' p' /\ len_ok c' p' /\ (ok = true /\ incomplete p' = true \/ ok = false /\ is_Some (read_error p')))).

Lemma bulk_loop_safe fuel : forall c p, buf_ok c -> (multibulklen c = 0 \/ room c p) -> len_ok c p -> multibulklen c = Z.of_nat fuel ->
  exists c' p' ok, bulk_loop false auth_required proto_max_bulk_len fuel c p = Some (c', p', ok) /\ loop_result c p c' p' ok.
Proof.
  induction fuel as [|fuel IH]; intros c p Hb Hr Hl Hf; cbn [bulk_loop].
  { rewrite Hf. cbn. eexists _, _, _. split; [done|]. split; [by apply pres_refl|]. left. split; [done|]. split; [done|]. split; [done|]. lia. }
  rewrite (proj2 (Z.eqb_neq _ 0)) by lia. destruct Hr as [?|Hr]; [lia|]. unfold bulk_iteration.
  destruct (read_bulklen_safe c p Hb Hr Hl) as [(p1 & [->|(-> & Hm1 & e & ->)])|(c1 & p1 & -> & Hp1 & Hr1 & Hbl1 & Hm1)]; cbn [mbind option_bind].
  - eexists _, _, _. split; [done|]. split; [by apply pres_refl|]. right. split; [done|]. split; [|by left]. destruct Hl as [?|[? _]]; [by left|by right].
  - eexists _, _, _. split; [done|]. split; [by apply pres_refl|]. right. split; [done|]. split; [by left|]. right. split; [done|by eexists].
  - destruct (read_arg_safe c1 p1 (pr_buf _ _ _ _ Hp1) Hr1 Hbl1) as [->|(c2 & p2 & -> & Hp2 & Hm2 & Hbl2 & Ha2 & Hl2 & Hl2' & Hu2)].
    + eexists _, _, _. split; [done|]. split; [eapply pres_trans; [exact Hp1|by apply pres_refl; [destruct Hp1|]]|]. right. split; [done|]. split; [by right|by left].
    + destruct (IH c2 p2) as (c' & p' & ok & Hrun & Hp' & Hres); [by destruct Hp2| |by left|lia|].
      { destruct Hr1 as (? & ? & ? & ?). destruct (decide (multibulklen c2 = 0)); [by left|right]. unfold room. lia. }
      exists c', p', ok. split; [done|]. split; [by eapply pres_trans; [|eapply pres_trans]|]. destruct Hres as [(? & ? & ? & _)|Hres]; [left|by right].
      split_and!; try done. intros _. pose proof (pr_unread _ _ _ _ Hp1). pose proof (pr_unread _ _ _ _ Hp'). lia.
Qed.

Abbreviation fresh := (acquirePendingCommand pool_len).

(** The two parsers on a client between two commands. *)
Definition parser_result (c : client) (p : pendingCommand) (c' : client) (p' : pendingCommand) (ok : bool) : Prop :=
  pres c p c' p' /\
  ((ok = false /\ c' = c /\ incomplete p' = false) \/
   (ok = true /\ incomplete p' = false /\ zlen (unread c') < zlen (unread c)) \/
   (room c' p' /\ len_ok c' p' /\ (ok = true /\ incomplete p' = true \/ ok = false /\ is_Some (read_error p')))).

Lemma multibulk_safe c w : buf_ok c -> multibulklen c = 0 -> unread c = 42 :: w ->
  exists c' p' ok, processMultibulkBuffer false auth_required proto_max_bulk_len c fresh = Some (c', p', ok) /\ parser_result c fresh c' p' ok.
Proof.
  intros Hb Hm Hu. unfold processMultibulkBuffer, read_count. rewrite Hm. cbn [acquirePendingCommand argv]. change (0 =? 0) with true.
  change (zlen (@nil (list Z)) =? 0) with true. cbn [cassert mbind option_bind].
  assert (Hrefl : forall p', argv_len_sum p' = 0 -> incomplete p' = false -> parser_result c fresh c p' false)
    by (intros p' Hs Hi; split; [by apply pres_refl|by left]).
  destruct (strchr 13 (unread c)) as [nl|] eqn:En; [|eexists _, _, _; split; [done|]; by destruct (_ >? _); apply Hrefl].
  apply strchr_bounds in En. destruct (Z.gtb_spec nl (zlen (unread c) - 2)) as [?|Hnl]; [eexists _, _, _; split; [done|]; by apply Hrefl|].
  rewrite Hu. cbn [rd]. change (rd (42 :: w) 0) with (Some 42). cbn [mbind option_bind]. change (42 =? 42) with true. cbn [cassert mbind option_bind].
  destruct (string2ll _) as [ll|]; [|eexists _, _, _; split; [done|]; by apply Hrefl].
  destruct (Z.gtb_spec ll INT_MAX) as [?|Hll]; [eexists _, _, _; split; [done|]; by apply Hrefl|].
  destruct ((ll >? 10) && auth_required); [eexists _, _, _; split; [done|]; by apply Hrefl|]. rewrite <- Z.add_assoc.
  destruct (advance_safe c (nl + 2) Hb ltac:(lia)) as [Hb1 Hu1]. set (c1 := set_buf c (querybuf c) (qb_pos c + (nl + 2))) in *.
  destruct (Z.leb_spec ll 0) as [?|Hpos].
  { eexists _, _, _. split; [done|]. split; [split; try done; lia|]. right. left. split; [done|]. split; [done|]. lia. }
  cbn [acquirePendingCommand argv_len argv_len_sum].
  set (p1 := let '(len, sum) := if ll >? pool_len then (Z.min ll 1024, 0) else (pool_len, 0) in set_argv fresh [] len sum (0 + (nl - 1 + 3)) false).
  replace (let '(len, sum) := if ll >? pool_len then _ else _ in Some _) with (Some (set_bulk c1 ll (-1), p1, @None bool)) by (unfold p1; by destruct (ll >? pool_len)).
  cbn [mbind option_bind set_bulk multibulklen]. unfold cassert. destruct (Z.gtb_spec ll 0); [|lia]. cbn [mbind option_bind].
  assert (Hp1 : argv p1 = [] /\ argv_len_sum p1 = 0 /\ 1 <= argv_len p1 /\ incomplete p1 = false).
  { unfold p1. destruct (Z.gtb_spec ll pool_len); cbn; split_and!; try done; lia. }
  destruct Hp1 as (Ha1 & Hs1 & Hl1 & Hi1).
  destruct (bulk_loop_safe (Z.to_nat ll) (set_bulk c1 ll (-1)) p1 Hb1) as (c' & p' & ok & -> & Hp' & Hres); [|by left|cbn; lia|].
  { right. unfold room. rewrite Ha1. change (zlen (@nil (list Z))) with 0. cbn. lia. }
  eexists _, _, _. split; [done|]. pose proof (pr_unread _ _ _ _ Hp') as Hle. change (unread (set_bulk c1 ll (-1))) with (unread c1) in Hle.
  split; [eapply pres_trans; [|exact Hp']; split; try done; cbn; [lia|lia|change (unread (set_bulk c1 ll (-1))) with (unread c1); lia]|].
  destruct Hres as [(-> & ? & _)|Hres]; [|by right; right]. right. left. split; [done|]. split; [done|]. lia.
Qed.

Lemma inline_safe c : buf_ok c ->
  exists c' p' ok, processInlineBuffer false c fresh = Some (c', p', ok) /\ parser_result c fresh c' p' ok /\ incomplete p' = false /\
    multibulklen c' = multibulklen c.
Proof.
  intros Hb. unfold processInlineBuffer.
  assert (Hrefl : forall p', argv_len_sum p' = 0 -> incomplete p' = false -> parser_result c fresh c p' false)
    by (intros p' Hs Hi; split; [by apply pres_refl|by left]).
  destruct (strchr 10 (unread c)) as [nl|] eqn:En; [|eexists _, _, _; split; [done|]; by destruct (_ >? _); split; [apply Hrefl| |apply Hrefl|]].
  apply strchr_bounds in En.
  assert (Hnl : exists n lf, (if nl =? 0 then Some (nl, 1) else b ← rd (unread c) (nl - 1); Some (if b =? 13 then (nl - 1, 2) else (nl, 1))) = Some (n, lf) /\
    n + lf = nl + 1 /\ 0 <= n).
  { destruct (Z.eqb_spec nl 0); [exists nl, 1; split; [done|lia]|]. destruct (rd_ok (unread c) (nl - 1)) as [b ->]; [lia|]. cbn [mbind option_bind].
    destruct (b =? 13); eexists _, _; (split; [done|lia]). }
  destruct Hnl as (n & lf & -> & Hn & Hn0). cbn [mbind option_bind].
  destruct (sdssplitargs _) as [args|]; [|eexists _, _, _; split; [done|]; split; [by apply Hrefl|done]].
  rewrite andb_false_r. cbn [acquirePendingCommand argv_len argv_len_sum]. pose proof (zlen_nonneg args).
  set (g := (zlen args >? 0) && (zlen args >? pool_len)).
  replace (if g then (zlen args, 0) else (pool_len, 0)) with (if g then zlen args else pool_len, 0) by (by destruct g).
  assert (Hg : zlen args <= if g then zlen args else pool_len).
  { unfold g. destruct (Z.gtb_spec (zlen args) 0); destruct (Z.gtb_spec (zlen args) pool_len); cbn; lia. }
  unfold cassert. rewrite (proj2 (Z.leb_le _ _) Hg). cbn [mbind option_bind]. rewrite <- Z.add_assoc, Hn.
  destruct (advance_safe c (nl + 1) Hb ltac:(lia)) as [Hb1 Hu1]. pose proof (sum_lens_nonneg args). eexists _, _, _. split; [done|].
  split; [|done]. split; [split; cbn; try done; try lia; unfold unread in *; cbn in *; lia|]. right. left. split; [done|]. split; [done|].
  unfold unread in *. cbn in *. lia.
Qed.

(** ** The state of a client *)

Definition idle (c : client) : Prop :=
  multibulklen c = 0 /\ (reqtype c = Some PROTO_REQ_MULTIBULK -> exists w, unread c = 42 :: w).
Definition middle (c : client) (p : pendingCommand) : Prop :=
  incomplete p = true /\ reqtype c = Some PROTO_REQ_MULTIBULK /\ room c p /\ len_ok c p.

(** [qs] are ready; after them there is nothing, a command in progress, or one
    with an error that is about to close the connection. *)
Record inv (c : client) (qs tl : list pendingCommand) : Prop := {
  iv_buf : buf_ok c;
  iv_pending : pending_cmds c = qs ++ tl;
  iv_ready : Forall (fun p => ready p = true) qs;
  iv_sums : Forall (fun p => 0 <= argv_len_sum p) (qs ++ tl);
  iv_all : all_argv_len_sum c = sums (qs ++ tl) }.

Definition waiting (c : client) (tl : list pendingCommand) : Prop :=
  (tl = [] /\ idle c) \/ (exists p, tl = [p] /\ middle c p).
Definition failed (tl : list pendingCommand) : Prop := exists p, tl = [p] /\ incomplete p = false /\ is_Some (read_error p).

Lemma ready_len_waiting c qs tl : inv c qs tl -> waiting c tl -> ready_len c = zlen qs.
Proof.
  intros [_ Hp Hr _ _] Hw. unfold ready_len. rewrite Hp, list.filter_app, filter_all by done.
  destruct Hw as [[-> _]|(p & -> & Hi & _)]; [by rewrite app_nil_r|]. unfold filter. cbn. unfold ready. rewrite Hi. cbn. by rewrite app_nil_r.
Qed.

(** A parsed command is queued. *)
Lemma queue_safe c p c1 p1 qs : inv (set_pending c (all_argv_len_sum c - argv_len_sum p) qs) qs [] -> pending_cmds c = qs -> 0 <= argv_len_sum p ->
  pres c p c1 p1 -> inv (addPendingCommand c1 p1) qs [p1] /\
  (incomplete p1 = false -> inv (resetClientQbufState (addPendingCommand c1 p1)) (qs ++ [p1]) []).
Proof.
  intros [Hb _ Hr Hs Ha] Hq Hp0 [Hb1 [_ Hc1] Hall Hsum _]. cbn in Ha. rewrite app_nil_r in Hs, Ha.
  assert (Hs1 : Forall (fun p => 0 <= argv_len_sum p) (qs ++ [p1])) by (apply list.Forall_app; split; [done|]; constructor; [lia|done]).
  assert (Ha1 : all_argv_len_sum c1 = sums (qs ++ [p1])) by (rewrite sums_app; unfold sums at 2; cbn; lia).
  split; [split; try done; cbn; by rewrite Hc1, Hq|]. intros Hi. split; try done; cbn; rewrite ?app_nil_r; try done; [by rewrite Hc1, Hq|].
  apply list.Forall_app. split; [done|]. constructor; [unfold ready; by rewrite Hi|done].
Qed.

Definition round_result (c : client) (qs : list pendingCommand) (c' : client) (more : bool) : Prop :=
  zlen (unread c') <= zlen (unread c) /\
  if more then exists q, inv c' (qs ++ [q]) [] /\ idle c' /\ zlen (unread c') < zlen (unread c)
  else exists tl, inv c' qs tl /\ (waiting c' tl \/ failed tl).

Lemma finish_safe c p c1 p1 ok qs : inv (set_pending c (all_argv_len_sum c - argv_len_sum p) qs) qs [] -> pending_cmds c = qs -> 0 <= argv_len_sum p ->
  parser_result c p c1 p1 ok -> (incomplete p1 = true -> reqtype c = Some PROTO_REQ_MULTIBULK) ->
  (ok = false -> c1 = c -> read_error p1 = None -> idle c /\ argv_len_sum p = 0) ->
  exists c' b, (if negb ok && bool_decide (read_error p1 = None) then Some (c1, false)
    else if bool_decide (is_Some (read_error p1)) || incomplete p1 then Some (addPendingCommand c1 p1, false)
    else Some (resetClientQbufState (addPendingCommand c1 p1), true)) = Some (c', b) /\ round_result c qs c' b.
Proof.
  intros Hinv Hq Hp0 [Hpres Hres] Hmb Hid. destruct (queue_safe c p c1 p1 qs Hinv Hq Hp0 Hpres) as [Hadd Hdone].
  pose proof (pr_unread _ _ _ _ Hpres) as Hu. destruct (pr_same _ _ _ _ Hpres) as [Hrt _].
  assert (Hmid : incomplete p1 = true -> room c1 p1 -> len_ok c1 p1 -> middle (addPendingCommand c1 p1) p1)
    by (intros Hi Hr Hl; split; [done|]; split; [cbn; rewrite Hrt; by apply Hmb|done]).
  destruct (read_error p1) as [e|] eqn:Ee.
  - rewrite bool_decide_false, andb_false_r by done. rewrite bool_decide_true by done. eexists _, _. split; [done|]. split; [exact Hu|]. exists [p1]. split; [done|].
    destruct (incomplete p1) eqn:Ei; [left; right|right]; exists p1; (split; [done|]); [|by rewrite Ee].
    apply Hmid; [done|..]; by destruct Hres as [(_ & _ & ?)|[(_ & ? & _)|(? & ? & _)]].
  - rewrite bool_decide_true, andb_true_r by done. rewrite bool_decide_false by (by intros [? ?]). cbn [orb].
    destruct Hres as [(-> & -> & Hi)|[(-> & Hi & Hlt)|(Hr & Hl & [[-> Hi]|[_ [? ?]]])]]; [| | |done]; cbn [negb]; rewrite ?Hi.
    + eexists _, _. split; [done|]. split; [lia|]. destruct (Hid eq_refl eq_refl eq_refl) as [Hidle Hs0]. exists []. split; [|left; by left].
      destruct Hinv as [? ? ? ? Ha]. split; try done; [by rewrite app_nil_r|]. cbn in Ha. lia.
    + eexists _, _. split; [done|]. split; [exact Hu|]. exists p1. split; [by apply Hdone|]. split; [done|exact Hlt].
    + eexists _, _. split; [done|]. split; [exact Hu|]. exists [p1]. split; [done|]. left. right. exists p1. split; [done|]. by apply Hmid.
Qed.

Abbreviation parse1 := (parse_one false auth_required proto_max_bulk_len pool_len).

Lemma parse_one_safe c qs tl : inv c qs tl -> waiting c tl -> qb_pos c < zlen (querybuf c) ->
  exists c' b, parse1 c = Some (c', b) /\ round_result c qs c' b.
Proof.
  intros Hinv Hw Hlt. pose proof (ready_len_waiting _ _ _ Hinv Hw) as Hrl. pose proof Hinv as [Hb Hp Hr Hs Ha]. unfold parse_one.
  assert (Hne : exists b w, unread c = b :: w).
  { pose proof (unread_len c Hb). destruct (unread c) as [|b w]; [change (zlen (@nil Z)) with 0 in *; lia|by exists b, w]. }
  destruct Hne as (b & w & Hun). rewrite (rd_unread c b w Hun Hb). cbn [mbind option_bind].
  destruct Hw as [[-> [Hm Hstar]]|(p & -> & Hi & Hrt & Hroom & Hlen)].
  - set (c1 := match reqtype c with None => _ | Some _ => c end). rewrite app_nil_r in Hp.
    assert (Hc1 : inv c1 qs [] /\ unread c1 = unread c /\ multibulklen c1 = 0 /\ pending_cmds c1 = qs /\
      (reqtype c1 = Some PROTO_REQ_MULTIBULK \/ reqtype c1 = Some PROTO_REQ_INLINE) /\ (reqtype c1 = Some PROTO_REQ_MULTIBULK -> b = 42)).
    { unfold c1. destruct (reqtype c) as [[|]|] eqn:Er; split_and!; try done; try (by left); try (by right); try (by rewrite Er).
      - intros _. destruct (Hstar eq_refl) as [? Heq]. rewrite Hun in Heq. by injection Heq.
      - by destruct Hinv.
      - cbn. destruct (b =? 42); [by left|by right].
      - cbn. destruct (Z.eqb_spec b 42); [done|by intros [=]]. }
    destruct Hc1 as (Hinv1 & Hu1 & Hm1 & Hp1 & Hor & Hst). rewrite <- Hu1 in Hun. pose proof (iv_buf _ _ _ Hinv1) as Hb1.
    assert (Hinv0 : inv (set_pending c1 (all_argv_len_sum c1 - argv_len_sum fresh) qs) qs []) by (destruct Hinv1 as [? ? ? ? Ha1]; split; try done; cbn [set_pending pending_cmds all_argv_len_sum acquirePendingCommand argv_len_sum]; [by rewrite app_nil_r|]; by rewrite Z.sub_0_r).
    assert (Hrl1 : ready_len c1 = zlen qs) by (unfold ready_len; by rewrite Hp1, filter_all).
    assert (Hidle : idle c1) by (split; [done|]; intros Er; rewrite (Hst Er) in Hun; by exists w).
    unfold round_result. rewrite <- Hu1. destruct Hor as [Er|Er]; rewrite Er.
    + rewrite Hp1, Hrl1, Z.eqb_refl. cbn [negb mbind option_bind]. rewrite (Hst Er) in Hun.
      destruct (multibulk_safe c1 w Hb1 Hm1 Hun) as (c2 & p2 & ok & -> & Hres). cbn [mbind option_bind].
      by apply (finish_safe c1 fresh c2 p2 ok qs Hinv0 Hp1).
    + destruct (inline_safe c1 Hb1) as (c2 & p2 & ok & -> & Hres & Hi2 & _). cbn [mbind option_bind].
      apply (finish_safe c1 fresh c2 p2 ok qs Hinv0 Hp1); try done. by rewrite Hi2.
  - rewrite Hrt. cbn match. rewrite Hrt. cbn match. rewrite Hp, Hrl, zlen_app. change (zlen [p]) with 1.
    rewrite (proj2 (Z.eqb_neq (zlen qs + 1) (zlen qs))) by lia. cbn [negb]. unfold popPendingCommandFromTail. rewrite Hp, pop_tail_app. cbn [mbind option_bind].
    set (c1 := set_pending c (all_argv_len_sum c) qs). unfold processMultibulkBuffer. pose proof Hroom as (Hm & _). change (multibulklen c1) with (multibulklen c).
    rewrite (proj2 (Z.eqb_neq (multibulklen c) 0)) by lia. cbn [mbind option_bind]. unfold cassert. change (multibulklen c1) with (multibulklen c).
    destruct (Z.gtb_spec (multibulklen c) 0); [|lia]. cbn [mbind option_bind].
    destruct (bulk_loop_safe (Z.to_nat (multibulklen c)) c1 p Hb (or_intror Hroom) Hlen ltac:(cbn; lia)) as (c2 & p2 & ok & -> & Hpres & Hres). cbn [mbind option_bind].
    apply list.Forall_app in Hs as [Hs Hs']. apply list.Forall_cons in Hs' as [Hp0 _]. rewrite sums_app in Ha. unfold sums in Ha at 2. cbn in Ha.
    apply (finish_safe c1 p c2 p2 ok qs); try done.
    + split; try done; cbn; rewrite ?app_nil_r; try done. lia.
    + split; [done|]. destruct Hres as [(? & ? & _ & ?)|?]; right; [left|by right]. split; [done|]. split; [done|]. by auto.
    + intros -> _ Hn. destruct Hres as [(? & _)|(_ & _ & [[? _]|[_ Hs2]])]; [done|done|]. rewrite Hn in Hs2. by destruct Hs2.
Qed.

Lemma parse_loop_safe fuel : forall c qs tl, inv c qs tl -> waiting c tl -> zlen (unread c) < Z.of_nat fuel ->
  exists c' qs' tl', parse_loop false auth_required proto_max_bulk_len server_lookahead pool_len fuel c = Some c' /\
    inv c' (qs ++ qs') tl' /\ (waiting c' tl' \/ failed tl') /\ zlen (unread c') + zlen qs' <= zlen (unread c).
Proof.
  induction fuel as [|fuel IH]; intros c qs tl Hinv Hw Hf; [pose proof (zlen_nonneg (unread c)); lia|]. cbn [parse_loop].
  destruct ((_ <? _) && (qb_pos c <? zlen (querybuf c))) eqn:Eg.
  2:{ exists c, [], tl. rewrite app_nil_r. split; [done|]. split; [done|]. split; [by left|]. change (zlen (@nil pendingCommand)) with 0. lia. }
  apply andb_prop in Eg as [_ Eq]. apply Z.ltb_lt in Eq.
  destruct (parse_one_safe c qs tl Hinv Hw Eq) as (c1 & more & -> & Hle & Hres). cbn [mbind option_bind]. destruct more.
  - destruct Hres as (q & Hinv1 & Hid & Hlt). destruct (IH c1 (qs ++ [q]) [] Hinv1 (or_introl (conj eq_refl Hid)) ltac:(lia)) as (c' & qs' & tl' & -> & Hinv' & Hw' & Hl').
    exists c', (q :: qs'), tl'. rewrite <- app_assoc in Hinv'. do 3 (split; [done|]). rewrite zlen_cons. lia.
  - destruct Hres as (tl1 & Hinv1 & Hw1). exists c1, [], tl1. rewrite app_nil_r. do 3 (split; [done|]). change (zlen (@nil pendingCommand)) with 0. lia.
Qed.

Lemma ready_len_failed c qs tl : inv c qs tl -> failed tl -> ready_len c = zlen qs + 1.
Proof.
  intros [_ Hp Hr _ _] (p & -> & Hi & _). unfold ready_len. rewrite Hp, list.filter_app, filter_all by done.
  unfold filter. cbn. unfold ready. rewrite Hi. cbn. by rewrite zlen_app.
Qed.

(** Running the command at the head of the queue. *)
Lemma resetClient_safe c p qs tl : inv c (p :: qs) tl -> exists c', resetClient c = Some c' /\ inv c' qs tl /\ unread c' = unread c /\
  (waiting c tl -> waiting c' tl).
Proof.
  intros [Hb Hp Hr Hs Ha]. cbn [app] in *. apply list.Forall_cons in Hs as [Hs1 Hs]. apply list.Forall_cons in Hr as [_ Hr].
  change (sums (p :: qs ++ tl)) with (argv_len_sum p + sums (qs ++ tl)) in Ha. pose proof (sums_nonneg _ Hs).
  unfold resetClient. rewrite Hp. cbn [head mbind option_bind tail]. unfold cassert. rewrite Ha.
  destruct (Z.geb_spec (argv_len_sum p + sums (qs ++ tl)) (argv_len_sum p)); [|lia]. cbn [mbind option_bind].
  replace (argv_len_sum p + sums (qs ++ tl) - argv_len_sum p) with (sums (qs ++ tl)) by lia.
  exists (set_pending c (sums (qs ++ tl)) (qs ++ tl)). split; [|done].
  destruct (Z.eqb_spec (zlen (qs ++ tl)) 0) as [E|_]; [|done]. apply zlen_0_nil in E. by rewrite E.
Qed.

Abbreviation run := (input_loop false auth_required proto_max_bulk_len server_lookahead pool_len).

Definition run_result (r : option (client * list (list (list Z)) * option read_err)) : Prop :=
  exists c log e, r = Some (c, log, e) /\ (e = None -> exists tl, inv c [] tl /\ waiting c tl).

Lemma input_loop_safe fuel : forall c qs tl log, inv c qs tl -> waiting c tl \/ failed tl -> zlen (unread c) + zlen qs < Z.of_nat fuel ->
  run_result (run fuel c log).
Proof.
  induction fuel as [|fuel IH]; intros c qs tl log Hinv Hw Hf; [pose proof (zlen_nonneg (unread c)); pose proof (zlen_nonneg qs); lia|]. cbn [input_loop].
  assert (Hexec : forall c qs tl, inv c qs tl -> waiting c tl \/ failed tl -> zlen (unread c) + zlen qs <= Z.of_nat fuel -> (qs <> [] \/ failed tl) ->
    run_result (q ← head (pending_cmds c);
          match read_error q with
          | Some e => Some (c, log, Some e)
          | None => c' ← resetClient c; run fuel c' (if zlen (argv q) =? 0 then log else log ++ [argv q])
          end)).
  { clear -IH. intros c qs tl Hinv Hw Hf Hne. destruct qs as [|q qs].
    - destruct Hne as [?|(p & -> & Hi & [e He])]; [done|]. rewrite (iv_pending _ _ _ Hinv). cbn [app head mbind option_bind]. rewrite He. eexists _, _, _. split; [done|done].
    - rewrite (iv_pending _ _ _ Hinv). cbn [app head mbind option_bind]. destruct (read_error q) as [e|]; [eexists _, _, _; split; [done|done]|].
      destruct (resetClient_safe _ _ _ _ Hinv) as (c1 & -> & Hinv1 & Hu1 & Hw1). cbn [mbind option_bind].
      apply (IH c1 qs tl); [done|destruct Hw; [left|right]; auto|]. rewrite Hu1. rewrite zlen_cons in Hf. lia. }
  assert (Hdone : waiting c tl -> qs = [] -> run_result (Some (c, log, None))).
  { intros Hwt ->. eexists _, _, _. split; [done|]. intros _. by exists tl. }
  destruct Hw as [Hw|Hfl].
  - rewrite (ready_len_waiting _ _ _ Hinv Hw). pose proof (zlen_nonneg qs).
    destruct ((qb_pos c <? zlen (querybuf c)) || (zlen qs >? 0)) eqn:Eg.
    2:{ apply Hdone; [done|]. apply orb_false_elim in Eg as [_ Eg]. apply zlen_0_nil. rewrite Z.gtb_ltb, Z.ltb_ge in Eg. lia. }
    destruct (Z.eqb_spec (zlen qs) 0) as [E0|E0].
    + apply zlen_0_nil in E0. subst qs.
      destruct (parse_loop_safe (S (length (unread c))) c [] tl Hinv Hw ltac:(unfold zlen; lia)) as (c1 & qs1 & tl1 & -> & Hinv1 & Hw1 & Hl1). cbn [mbind option_bind app] in *.
      pose proof (zlen_nonneg qs1). destruct Hw1 as [Hw1|Hf1].
      * rewrite (ready_len_waiting _ _ _ Hinv1 Hw1). destruct (Z.eqb_spec (zlen qs1) 0) as [E1|E1].
        { apply zlen_0_nil in E1. subst qs1. eexists _, _, _. split; [done|]. intros _. by exists tl1. }
        apply (Hexec c1 qs1 tl1); [done|by left|lia|left]. by intros ->.
      * rewrite (ready_len_failed _ _ _ Hinv1 Hf1), (proj2 (Z.eqb_neq (zlen qs1 + 1) 0)) by lia. apply (Hexec c1 qs1 tl1); [done|by right|lia|by right].
    + cbn [mbind option_bind]. rewrite (ready_len_waiting _ _ _ Hinv Hw), (proj2 (Z.eqb_neq (zlen qs) 0)) by lia.
      apply (Hexec c qs tl); [done|by left|lia|left]. by intros ->.
  - rewrite (ready_len_failed _ _ _ Hinv Hfl). pose proof (zlen_nonneg qs). destruct (Z.gtb_spec (zlen qs + 1) 0); [|lia]. rewrite orb_true_r.
    rewrite (proj2 (Z.eqb_neq (zlen qs + 1) 0)) by lia. cbn [mbind option_bind]. rewrite (ready_len_failed _ _ _ Hinv Hfl), (proj2 (Z.eqb_neq (zlen qs + 1) 0)) by lia.
    apply (Hexec c qs tl); [done|by right|lia|by right].
Qed.

(** Bytes arrive, and the buffer is trimmed. *)
Lemma waiting_buf c c' tl : (exists more, unread c' = unread c ++ more) -> multibulklen c' = multibulklen c -> bulklen c' = bulklen c ->
  reqtype c' = reqtype c -> waiting c tl -> waiting c' tl.
Proof.
  intros [more Hu] Hm Hbl Hr [[-> [H1 H2]]|(p & -> & Hi & H1 & H2 & H3)].
  - left. split; [done|]. split; [lia|]. rewrite Hr, Hu. intros E. destruct (H2 E) as [w ->]. by exists (w ++ more).
  - right. exists p. unfold middle, room, len_ok in *. rewrite Hm, Hbl, Hr. done.
Qed.

Lemma read_safe c tl log bytes : inv c [] tl -> waiting c tl ->
  run_result (readQueryFromClient false auth_required proto_max_bulk_len server_lookahead max_querybuf pool_len c log bytes).
Proof.
  intros Hinv Hw. unfold readQueryFromClient, processInputBuffer. set (c1 := set_buf c (querybuf c ++ bytes) (qb_pos c)).
  pose proof Hinv as [Hb Hp Hr Hs Ha].
  assert (Hu : unread c1 = unread c ++ bytes) by (unfold c1, unread; cbn; rewrite drop_app_le by (unfold buf_ok, zlen in Hb; lia); done).
  assert (Hinv1 : inv c1 [] tl) by (split; try done; unfold buf_ok in *; cbn; rewrite zlen_app; pose proof (zlen_nonneg bytes); lia).
  assert (Hw1 : waiting c1 tl) by (apply (waiting_buf c); try done; by exists bytes).
  destruct (negb false && _); [eexists _, _, _; split; [done|done]|].
  destruct (input_loop_safe (S (length (unread c1) + length (pending_cmds c1))) c1 [] tl log Hinv1 (or_introl Hw1)) as (c2 & log2 & e & -> & He);
    [change (zlen (@nil pendingCommand)) with 0; unfold zlen; lia|].
  cbn [mbind option_bind]. eexists _, _, _. split; [done|]. intros E. destruct (He E) as (tl2 & [Hb2 ? ? ? ?] & Hw2). exists tl2.
  split; [split; try done; unfold buf_ok; cbn; pose proof (zlen_nonneg (unread c2)); lia|]. apply (waiting_buf c2); try done. exists []. by rewrite app_nil_r.
Qed.

Lemma read_all_safe chunks : forall c tl log, inv c [] tl -> waiting c tl ->
  run_result (read_all auth_required proto_max_bulk_len server_lookahead max_querybuf pool_len c log chunks).
Proof.
  induction chunks as [|b chunks IH]; intros c tl log Hinv Hw; cbn [read_all].
  - eexists _, _, _. split; [done|]. intros _. by exists tl.
  - destruct (read_safe c tl log b Hinv Hw) as (c1 & log1 & e & -> & He). cbn [mbind option_bind]. destruct e as [e|]; [by eexists _, _, _|].
    destruct (He eq_refl) as (tl1 & Hinv1 & Hw1). by eapply IH.
Qed.

(** C18: Whatever bytes a client sends, in whatever reads, the parser returns:
    every loop ends, no assertion fails, no read leaves the query buffer and no
    write leaves an [argv] array; as long as no error closes the connection,
    the commands and bytes waiting in the queue agree with the counters kept
    for them. *)
Theorem resp_never_fails chunks : exists c log e,
  read_all auth_required proto_max_bulk_len server_lookahead max_querybuf pool_len new_client [] chunks = Some (c, log, e) /\
  (e = None -> 0 <= qb_pos c <= zlen (querybuf c) /\ zlen (pending_cmds c) <= 1 /\ ready_len c = 0 /\ all_argv_len_sum c = sums (pending_cmds c)).
Proof.
  destruct (read_all_safe chunks new_client [] []) as (c & log & e & -> & He); [by split|left; by split|].
  exists c, log, e. split; [done|]. intros E. destruct (He E) as (tl & Hinv & Hw). rewrite (ready_len_waiting _ _ _ Hinv Hw).
  destruct Hinv as [Hb -> _ _ Ha]. split; [done|]. split; [|done]. by destruct Hw as [[-> _]|(p & -> & _)].
Qed.
End Safe.

Lemma resp_never_fails_witness : exists c log e,
  read_all true 512 16 1000 0 new_client [] [[42; 51; 13; 10; 36]; [50; 13]; [10; 0; 0; 0; 0; 36; 45; 49]; [13; 10; 42]] = Some (c, log, e) /\
  (e = None -> 0 <= qb_pos c <= zlen (querybuf c) /\ zlen (pending_cmds c) <= 1 /\ ready_len c = 0 /\ all_argv_len_sum c = sums (pending_cmds c)).
Proof. apply (resp_never_fails true 512 16 1000 0); lia. Defined.

(** ** An error in a request that comes in parts *)

(** The default configuration. *)
Abbreviation default_read := (readQueryFromClient false false (512 * 1024 * 1024) 16 (1024 * 1024 * 1024) 8).
Abbreviation default_read_all := (read_all false (512 * 1024 * 1024) 16 (1024 * 1024 * 1024) 8).

(** A client inside of a command that sent a line which is no length. *)
Definition stuck (c : client) (x : Z) (line w : list Z) : Prop :=
  querybuf c = (x :: line) ++ CRLF ++ w /\ qb_pos c = 0 /\ reqtype c = Some PROTO_REQ_MULTIBULK /\ 0 < multibulklen c /\ bulklen c = -1 /\
  exists p, pending_cmds c = [p] /\ incomplete p = true.

Lemma bad_line_returns x line w fuel c p : x <> 36 -> Forall (fun y => y <> 13) (x :: line) ->
  unread c = (x :: line) ++ CRLF ++ w -> bulklen c = -1 -> 0 < multibulklen c ->
  bulk_loop false false (512 * 1024 * 1024) (S fuel) c p = Some (c, set_error p EXPECTED_DOLLAR, false).
Proof.
  intros Hx Hl Hu Hbl Hm. cbn [bulk_loop]. rewrite (proj2 (Z.eqb_neq (multibulklen c) 0)) by lia. unfold bulk_iteration, read_bulklen.
  rewrite Hbl. change (-1 =? -1) with true. cbn match. change (CRLF ++ w) with (13 :: 10 :: w) in Hu. rewrite Hu.
  rewrite (memchr_app 13 (x :: line) (10 :: w) Hl). rewrite zlen_app, !zlen_cons. pose proof (zlen_nonneg w).
  destruct (Z.gtb_spec (1 + zlen line) (1 + zlen line + (1 + (1 + zlen w)) - 2)); [lia|].
  change (rd ((x :: line) ++ 13 :: 10 :: w) 0) with (Some x). cbn [mbind option_bind]. by rewrite (proj2 (Z.eqb_neq x 36)).
Qed.

Lemma stuck_read c x line w bytes log : x <> 36 -> Forall (fun y => y <> 13) (x :: line) -> stuck (set_buf c (querybuf c ++ bytes) 0) x line w -> qb_pos c = 0 ->
  zlen (querybuf c ++ bytes) <= 1024 * 1024 * 1024 ->
  exists c', default_read c log bytes = Some (c', log, None) /\ stuck c' x line w.
Proof.
  intros Hx Hl (Hq & _ & Hrt & Hm & Hbl & p & Hp & Hi) Hpos Hlim. unfold readQueryFromClient. rewrite Hpos. set (c1 := set_buf c (querybuf c ++ bytes) 0) in *.
  change (querybuf c1) with (querybuf c ++ bytes) in Hq |- *. destruct (Z.gtb_spec (zlen (querybuf c ++ bytes)) (1024 * 1024 * 1024)); [lia|]. rewrite andb_false_r. cbn [negb andb orb].
  unfold processInputBuffer. rewrite Hp. cbn [input_loop length]. change (qb_pos c1) with 0. change (querybuf c1) with (querybuf c ++ bytes).
  assert (Hlen : 0 < zlen (querybuf c ++ bytes)) by (rewrite Hq, zlen_app, zlen_cons; pose proof (zlen_nonneg line); pose proof (zlen_nonneg (CRLF ++ w)); lia).
  assert (Hrl : forall e, ready_len (set_pending c1 (all_argv_len_sum c1) [e p]) = 0 <-> incomplete (e p) = true).
  { intros e. unfold ready_len, filter. cbn. unfold ready. by destruct (incomplete (e p)). }
  assert (Hrl1 : ready_len c1 = 0) by (unfold ready_len; rewrite Hp; unfold filter; cbn; unfold ready; by rewrite Hi).
  rewrite (proj2 (Z.ltb_lt _ _) Hlen), Hrl1. cbn [orb]. change (0 =? 0) with true. cbn match. cbn [parse_loop].
  change (qb_pos c1) with 0. change (querybuf c1) with (querybuf c ++ bytes). rewrite Hrl1, (proj2 (Z.ltb_lt _ _) Hlen). cbn [lookahead andb]. change (0 <? 16) with true. cbn match.
  unfold parse_one. change (qb_pos c1) with 0. change (querybuf c1) with (querybuf c ++ bytes). rewrite Hq. change (rd ((x :: line) ++ CRLF ++ w) 0) with (Some x). cbn [mbind option_bind].
  rewrite Hrt. cbn match. rewrite Hrt, Hp, Hrl1. cbn match. change (zlen [p]) with 1. change (negb (1 =? 0)) with true. cbn match. unfold popPendingCommandFromTail. rewrite Hp. cbn [pop_tail mbind option_bind].
  unfold processMultibulkBuffer. set (c2 := set_pending c1 (all_argv_len_sum c1) []). change (multibulklen c2) with (multibulklen c1).
  rewrite (proj2 (Z.eqb_neq (multibulklen c1) 0)) by lia. cbn [mbind option_bind]. change (multibulklen c2) with (multibulklen c1). unfold cassert. destruct (Z.gtb_spec (multibulklen c1) 0); [|lia]. cbn [mbind option_bind].
  destruct (Z.to_nat (multibulklen c1)) as [|n] eqn:En; [lia|].
  assert (Hu2 : unread c2 = (x :: line) ++ CRLF ++ w) by (unfold unread; cbn; by rewrite Hq).
  rewrite (bad_line_returns x line w n c2 p) by done. cbn [mbind option_bind negb andb set_error read_error]. rewrite bool_decide_false by done. rewrite bool_decide_true by (by eexists). cbn [orb].
  pose proof (proj2 (Hrl (fun p => set_error p EXPECTED_DOLLAR)) Hi) as Hrl2.
  change (addPendingCommand c2 (set_error p EXPECTED_DOLLAR)) with (set_pending c1 (all_argv_len_sum c1) [set_error p EXPECTED_DOLLAR]). cbn [mbind option_bind]. rewrite Hrl2. change (0 =? 0) with true. cbn [mbind option_bind].
  eexists. split; [done|]. split; [exact Hu2|]. do 4 (split; [done|]). eexists. split; [done|exact Hi].
Qed.

Lemma stuck_forever chunks : forall c x line w log, x <> 36 -> Forall (fun y => y <> 13) (x :: line) -> stuck c x line w ->
  zlen (querybuf c ++ concat chunks) <= 1024 * 1024 * 1024 ->
  exists c', default_read_all c log chunks = Some (c', log, None) /\ stuck c' x line (w ++ concat chunks).
Proof.
  induction chunks as [|b chunks IH]; intros c x line w log Hx Hl Hst Hlim; cbn [read_all concat].
  { exists c. by rewrite app_nil_r. }
  cbn [concat] in Hlim. rewrite app_assoc, zlen_app in Hlim. pose proof (zlen_nonneg (concat chunks)). pose proof Hst as (Hq & Hpos & Hrest).
  destruct (stuck_read c x line (w ++ b) b log Hx Hl) as (c1 & -> & Hst1); [|done|lia|].
  { split; [cbn; by rewrite Hq, <- !app_assoc|]. split; [done|exact Hrest]. }
  cbn [mbind option_bind]. destruct (IH c1 x line (w ++ b) log Hx Hl Hst1) as (c' & -> & Hst').
  - destruct Hst1 as [Hq1 _]. rewrite Hq1. rewrite Hq in Hlim. rewrite !zlen_app in *. lia.
  - exists c'. by rewrite app_assoc.
Qed.

(** The start of [*2\r\n$4\r\nPING\r\n...]. *)
Definition ping_head : list Z := [42; 50; 13; 10; 36; 52; 13; 10; 80; 73; 78; 71; 13; 10].

(** The first read: [PING] and a second argument to come. *)
Lemma ping_head_parsed c s : unread c = ping_head ++ s -> buf_ok c -> multibulklen c = 0 -> exists c1 p1,
  processMultibulkBuffer false false (512 * 1024 * 1024) c (acquirePendingCommand 8) = bulk_loop false false (512 * 1024 * 1024) 1 c1 p1 /\
  unread c1 = s /\ buf_ok c1 /\ multibulklen c1 = 1 /\ bulklen c1 = -1 /\ same_client c c1 /\ incomplete p1 = false /\ read_error p1 = None.
Proof.
  intros Hu Hb Hm. pose proof (zlen_nonneg s). unfold processMultibulkBuffer, read_count. rewrite Hm. change (0 =? 0) with true. cbn match.
  cbn [acquirePendingCommand argv]. change (zlen (@nil (list Z)) =? 0) with true. cbn [cassert mbind option_bind]. rewrite Hu.
  change (strchr 13 (ping_head ++ s)) with (Some 2). cbn match. rewrite zlen_app. change (zlen ping_head) with 14.
  destruct (Z.gtb_spec 2 (14 + zlen s - 2)); [lia|]. change (rd (ping_head ++ s) 0) with (Some 42). cbn [mbind option_bind]. change (42 =? 42) with true. cbn [cassert mbind option_bind].
  change (string2ll (take (Z.to_nat (2 - 1)) (drop 1 (ping_head ++ s)))) with (string2ll [50]). replace (string2ll [50]) with (Some 2) by (vm_compute; reflexivity).
  change (2 >? INT_MAX) with false. change ((2 >? 10) && false) with false. change (2 <=? 0) with false. cbn match. cbn [acquirePendingCommand argv_len]. change (2 >? 8) with false. cbn [mbind option_bind].
  destruct (advance_unread c [42; 50; 13; 10] (drop 4 ping_head ++ s) Hb Hu) as [Hu1 Hb1]. change (zlen [42; 50; 13; 10]) with 4 in Hu1, Hb1. rewrite <- Z.add_assoc. change (2 + 2) with 4.
  set (c1 := set_buf c (querybuf c) (qb_pos c + 4)) in *. cbn [set_bulk multibulklen]. change (2 >? 0) with true. cbn [cassert mbind option_bind]. change (Z.to_nat 2) with 2%nat.
  set (p1 := set_argv _ _ _ _ _ _). cbn [bulk_loop]. change (2 =? 0) with false. unfold bulk_iteration, read_bulklen. cbn [set_bulk bulklen]. change (-1 =? -1) with true. cbn match.
  change (unread (set_bulk c1 2 (-1))) with (unread c1). rewrite Hu1. change (memchr 13 (drop 4 ping_head ++ s)) with (Some 2). cbn match. rewrite zlen_app. change (zlen (drop 4 ping_head)) with 10.
  destruct (Z.gtb_spec 2 (10 + zlen s - 2)); [lia|]. change (rd (drop 4 ping_head ++ s) 0) with (Some 36). cbn [mbind option_bind]. change (36 =? 36) with true. cbn [negb andb].
  change (string2ll (take (Z.to_nat (2 - 1)) (drop 1 (drop 4 ping_head ++ s)))) with (string2ll [52]). replace (string2ll [52]) with (Some 4) by (vm_compute; reflexivity).
  change (4 <? 0) with false. change (4 >? 512 * 1024 * 1024) with false. change ((4 >? 16384) && false) with false. change (4 >=? PROTO_MBULK_BIG_ARG) with false. cbn [orb andb mbind option_bind].
  destruct (advance_unread c1 [36; 52; 13; 10] (drop 8 ping_head ++ s) Hb1 Hu1) as [Hu2 Hb2]. change (zlen [36; 52; 13; 10]) with 4 in Hu2, Hb2.
  rewrite <- (Z.add_assoc _ 2 2). change (2 + 2) with 4. set (c2 := set_buf c1 (querybuf c1) (qb_pos c1 + 4)) in *.
  set (c3 := set_bulk (set_buf (set_bulk c1 2 (-1)) (querybuf (set_bulk c1 2 (-1))) (qb_pos (set_bulk c1 2 (-1)) + 4)) _ 4).
  assert (Hu3 : unread c3 = drop 8 ping_head ++ s) by exact Hu2. assert (Hb3 : buf_ok c3) by exact Hb2. unfold read_arg. rewrite (unread_len c3 Hb3). change (u64 (bulklen c3 + 2)) with 6.
  rewrite Hu3, zlen_app. change (zlen (drop 8 ping_head)) with 6. rewrite (proj2 (Z.ltb_ge _ _)) by lia. cbn [set_argv argv argv_len]. change (zlen (@nil (list Z)) >=? 8) with false. change (zlen (@nil (list Z)) <? 8) with true. cbn [cassert mbind option_bind].
  change (bulklen c3) with 4. change (4 >=? PROTO_MBULK_BIG_ARG) with false. rewrite andb_false_r. cbn [andb].
  destruct (advance_unread c3 (drop 8 ping_head) s Hb3 Hu3) as [Hu4 Hb4]. change (zlen (drop 8 ping_head)) with 6 in Hu4, Hb4. rewrite <- (Z.add_assoc _ 4 2). change (4 + 2) with 6.
  match goal with |- context [BulkNext ?c ?p] => exists c, p end. split; [reflexivity|]. split; [exact Hu4|]. split; [exact Hb4|]. by split_and!.
Qed.

(** In one read the line is an error. *)
Lemma early_error_reported x line : x <> 36 -> Forall (fun y => y <> 13) (x :: line) -> zlen line < 2 ^ 20 ->
  exists c, default_read_all new_client [] [ping_head ++ (x :: line) ++ CRLF] = Some (c, [], Some EXPECTED_DOLLAR).
Proof.
  intros Hx Hl Hlim. pose proof (zlen_nonneg line).
  set (s := ping_head ++ (x :: line) ++ CRLF). cbn [read_all]. unfold readQueryFromClient. cbn [set_buf new_client querybuf qb_pos negb andb].
  change ([] ++ s) with s. assert (Hs : zlen s = 17 + zlen line) by (unfold s; rewrite !zlen_app, zlen_cons; change (zlen ping_head) with 14; change (zlen CRLF) with 2; lia).
  destruct (Z.gtb_spec (zlen s) (1024 * 1024 * 1024)); [lia|]. rewrite andb_false_r. cbn [orb].
  set (c := set_buf _ _ _). unfold processInputBuffer. cbn [input_loop]. change (qb_pos c) with 0. change (querybuf c) with s. rewrite (proj2 (Z.ltb_lt 0 (zlen s))) by lia. cbn [orb].
  change (ready_len c) with 0. change (0 =? 0) with true. cbn match. cbn [parse_loop].
  change (qb_pos c) with 0. change (querybuf c) with s. change (ready_len c) with 0. rewrite (proj2 (Z.ltb_lt 0 (zlen s))) by lia. change ((0 <? lookahead false 16) && true) with true. cbn match.
  unfold parse_one. change (rd (querybuf c) (qb_pos c)) with (Some 42). cbn [mbind option_bind]. change (reqtype c) with (@None req_type). cbn match. change (42 =? 42) with true. cbn match.
  set (c1 := set_reqtype c (Some PROTO_REQ_MULTIBULK)). change (reqtype c1) with (Some PROTO_REQ_MULTIBULK). cbn match. change (negb (zlen (pending_cmds c1) =? ready_len c1)) with false. cbn [mbind option_bind].
  destruct (ping_head_parsed c1 ((x :: line) ++ CRLF)) as (c2 & p2 & -> & Hu2 & Hb2 & Hm2 & Hbl2 & [Hr2 Hp2] & Hi2 & He2); [done|split; [done|change (0 <= zlen s); lia]|done|].
  rewrite (bad_line_returns x line [] 0 c2 p2 Hx Hl Hu2 Hbl2 ltac:(lia)).
  cbn [mbind option_bind negb andb set_error read_error]. rewrite bool_decide_false by done. rewrite bool_decide_true by (by eexists). cbn [orb mbind option_bind].
  unfold addPendingCommand. rewrite Hp2. change (pending_cmds c1) with (@nil pendingCommand). cbn [app].
  assert (Hrl : ready_len (set_pending c2 (all_argv_len_sum c2) [set_error p2 EXPECTED_DOLLAR]) = 1) by (unfold ready_len, filter; cbn; unfold ready; cbn; by rewrite Hi2).
  rewrite Hrl. change (1 =? 0) with false. cbn match. cbn [set_pending pending_cmds head mbind option_bind set_error read_error]. cbn [mbind option_bind]. eexists. reflexivity.
Qed.

(** C19: With the default configuration, a line without carriage returns that does not
    start with a dollar sign, where the second bulk length of the command that begins
    [*2 $4 PING] is expected, closes the connection with an error when it comes in one read
    with that beginning.  When it comes in a second read, after the first argument was
    parsed, it goes unnoticed: the command keeps its incomplete mark, no error is
    reported, and everything the client sends in later reads (up to 1 MB here) piles up
    unread behind the line. *)
Theorem late_error_unreported x line chunks :
  x <> 36 -> Forall (fun y => y <> 13) (x :: line) -> zlen line + zlen (concat chunks) < 2 ^ 20 ->
  (exists c, default_read_all new_client [] [ping_head ++ (x :: line) ++ CRLF] = Some (c, [], Some EXPECTED_DOLLAR)) /\
  (exists c, default_read_all new_client [] (ping_head :: ((x :: line) ++ CRLF) :: chunks) = Some (c, [], None) /\
     querybuf c = (x :: line) ++ CRLF ++ concat chunks).
Proof.
  intros Hx Hl Hlim. pose proof (zlen_nonneg line). pose proof (zlen_nonneg (concat chunks)). split.
  - apply early_error_reported; [done|done|lia].
  - cbn [read_all]. assert (Hhd : exists c0, default_read new_client [] ping_head = Some (c0, [], None) /\ stuck (set_buf c0 ((x :: line) ++ CRLF) 0) x line [] /\
      querybuf c0 = [] /\ qb_pos c0 = 0).
    { eexists. split; [vm_compute; reflexivity|]. split; [|done]. do 5 (split; [done|]). by eexists. }
    destruct Hhd as (c0 & -> & Hst0 & Hq0 & Hp0). cbn [mbind option_bind].
    destruct (stuck_read c0 x line [] ((x :: line) ++ CRLF) [] Hx Hl) as (c1 & -> & Hst1); [by rewrite Hq0|done| |].
    { rewrite Hq0. cbn [app]. rewrite zlen_cons, zlen_crlf. lia. }
    cbn [mbind option_bind]. destruct (stuck_forever chunks c1 x line [] [] Hx Hl Hst1) as (c' & -> & Hq & _).
    { destruct Hst1 as [-> _]. rewrite !zlen_app, zlen_cons. change (zlen CRLF) with 2. change (zlen (@nil Z)) with 0. lia. }
    by exists c'.
Qed.

Lemma late_error_unreported_witness :
  (exists c, default_read_all new_client [] [ping_head ++ [88; 89] ++ CRLF] = Some (c, [], Some EXPECTED_DOLLAR)) /\
  (exists c, default_read_all new_client [] (ping_head :: ([88; 89] ++ CRLF) :: [[1; 2; 3]]) = Some (c, [], None) /\
     querybuf c = [88; 89] ++ CRLF ++ concat [[1; 2; 3]]).
Proof. apply (late_error_unreported 88 [89] [[1; 2; 3]]); [done|by repeat constructor|vm_compute; reflexivity]. Defined.
