(* ===== verification/Bitops.v ===== *)
(** * Bit operations on strings (src/bitops.c)

    A string is the list of its bytes; bit 0 is the most significant bit of the
    first byte.  Reading or writing outside of the string is [None].

    [BITFIELD], [SETBIT], [GETBIT], [BITCOUNT], [BITPOS] and [BITOP] are modelled
    from their arguments to the reply and the new value of the key; the lookup of
    the key and the notifications are not.  The vector variants (AVX, NEON) of
    counting and of [BITOP] are not modelled. *)

From stdpp Require Import base list numbers option tactics.
From S2P Require Import Prelude Util SdsArgs.

(** ** Integers at bit positions *)

Fixpoint setUnsignedBitfield_loop (n : nat) (j : Z) (p : list Z) (offset bits value : Z) : option (list Z) :=
  match n with
  | O => Some p
  | S n =>
      let bitval := if Z.land value (u64 (Z.shiftl 1 (bits - 1 - j))) =? 0 then 0 else 1 in
      let byte := Z.shiftr offset 3 in
      let bit := 7 - Z.land offset 7 in
      byteval ← rd p byte;
      let byteval := Z.land byteval (Z.lnot (Z.shiftl 1 bit)) in
      let byteval := Z.lor byteval (Z.shiftl bitval bit) in
      p ← wr p byte (Z.land byteval 255);
      setUnsignedBitfield_loop n (j + 1) p (u64 (offset + 1)) bits value
  end.

Definition setUnsignedBitfield (p : list Z) (offset bits value : Z) : option (list Z) :=
  setUnsignedBitfield_loop (Z.to_nat bits) 0 p offset bits value.

Definition setSignedBitfield (p : list Z) (offset bits value : Z) : option (list Z) :=
  setUnsignedBitfield p offset bits (u64 value).

Fixpoint getUnsignedBitfield_loop (n : nat) (p : list Z) (offset value : Z) : option Z :=
  match n with
  | O => Some value
  | S n =>
      let byte := Z.shiftr offset 3 in
      let bit := 7 - Z.land offset 7 in
      byteval ← rd p byte;
      let bitval := Z.land (Z.shiftr byteval bit) 1 in
      getUnsignedBitfield_loop n p (u64 (offset + 1)) (Z.lor (u64 (Z.shiftl value 1)) bitval)
  end.

Definition getUnsignedBitfield (p : list Z) (offset bits : Z) : option Z :=
  getUnsignedBitfield_loop (Z.to_nat bits) p offset 0.

Definition getSignedBitfield (p : list Z) (offset bits : Z) : option Z :=
  u ← getUnsignedBitfield p offset bits;
  let value := s64 u in
  Some (if (bits <? 64) && negb (Z.land (u64 value) (Z.shiftl 1 (bits - 1)) =? 0)
        then s64 (Z.lor (u64 value) (u64 (Z.shiftl UINT64_MAX bits))) else value).

Inductive owtype := BFOVERFLOW_WRAP | BFOVERFLOW_SAT | BFOVERFLOW_FAIL.
#[global] Instance owtype_eq_dec : EqDecision owtype.
Proof. solve_decision. Defined.

(** The result and [*limit], when it is set. *)
Definition checkUnsignedBitfieldOverflow (value incr bits : Z) (ow : owtype) : Z * option Z :=
  let max := if bits =? 64 then UINT64_MAX else u64 (Z.shiftl 1 bits) - 1 in
  let maxincr := s64 (max - value) in
  let minincr := s64 (- value) in
  let handle_wrap :=
    let mask := u64 (Z.shiftl UINT64_MAX bits) in
    let res := u64 (value + incr) in
    (1, Some (Z.land res (UINT64_MAX - mask))) in
  if (value >? max) || ((incr >? 0) && (incr >? maxincr)) then
    match ow with
    | BFOVERFLOW_WRAP => handle_wrap
    | BFOVERFLOW_SAT => (1, Some max)
    | BFOVERFLOW_FAIL => (1, None)
    end
  else if (incr <? 0) && (incr <? minincr) then
    match ow with
    | BFOVERFLOW_WRAP => handle_wrap
    | BFOVERFLOW_SAT => (-1, Some 0)
    | BFOVERFLOW_FAIL => (-1, None)
    end
  else (0, None).

(** [minincr] is computed with a subtraction that may overflow; it wraps. *)
Definition checkSignedBitfieldOverflow (value incr bits : Z) (ow : owtype) : Z * option Z :=
  let max := if bits =? 64 then INT64_MAX else Z.shiftl 1 (bits - 1) - 1 in
  let min := - max - 1 in
  let maxincr := s64 (u64 (max - value)) in
  let minincr := s64 (min - value) in
  let handle_wrap :=
    let msb := u64 (Z.shiftl 1 (bits - 1)) in
    let c := u64 (u64 value + u64 incr) in
    let c := if bits <? 64 then
               let mask := u64 (Z.shiftl UINT64_MAX bits) in
               if negb (Z.land c msb =? 0) then Z.lor c mask else Z.land c (UINT64_MAX - mask)
             else c in
    (1, Some (s64 c)) in
  if (value >? max) || (negb (bits =? 64) && (incr >? maxincr)) || ((value >=? 0) && (incr >? 0) && (incr >? maxincr)) then
    match ow with
    | BFOVERFLOW_WRAP => handle_wrap
    | BFOVERFLOW_SAT => (1, Some max)
    | BFOVERFLOW_FAIL => (1, None)
    end
  else if (value <? min) || (negb (bits =? 64) && (incr <? minincr)) || ((value <? 0) && (incr <? 0) && (incr <? minincr)) then
    match ow with
    | BFOVERFLOW_WRAP => handle_wrap
    | BFOVERFLOW_SAT => (-1, Some min)
    | BFOVERFLOW_FAIL => (-1, None)
    end
  else (0, None).

(** ** Arguments and values *)

(** A value: a string as bytes, a string encoded as an integer, or another type. *)
Inductive strobj := SdsEncoded (s : list Z) | IntEncoded (v : Z) | OtherType.
#[global] Instance strobj_eq_dec : EqDecision strobj.
Proof. solve_decision. Defined.

Inductive bit_err := ERR_OFFSET | ERR_TYPE | ERR_BIT | ERR_OVERFLOW_TYPE | ERR_SYNTAX | ERR_READONLY | ERR_NOT_INTEGER | ERR_WRONGTYPE.

(** The bytes [ll2string] writes for an integer into a buffer of [LONG_STR_SIZE]. *)
Definition int_text (v : Z) : option (list Z) :=
  '(buf, len) ← ll2string (replicate 21 0) 0 LONG_STR_SIZE v;
  Some (take (Z.to_nat len) buf).

(** The inner result is an error of the command, the outer one of the model. *)
Definition getObjectReadOnlyString (o : option strobj) : option (option (list Z)) :=
  match o with
  | None => Some None
  | Some (IntEncoded v) => s ← int_text v; Some (Some s)
  | Some (SdsEncoded s) => Some (Some s)
  | Some OtherType => None
  end.

Section Args.
(** [mustObeyClient], and the limit on the length of strings. *)
Context (must_obey : bool) (proto_max_bulk_len : Z).

Definition getBitOffsetFromArgument (arg : list Z) (hash : bool) (bits : Z) : bit_err + Z :=
  let usehash := bool_decide (head arg = Some 35) && hash && (bits >? 0) in
  match string2ll (if usehash then drop 1 arg else arg) with
  | None => inl ERR_OFFSET
  | Some loffset =>
      if loffset <? 0 then inl ERR_OFFSET
      else if usehash && (loffset >? LLONG_MAX / bits) then inl ERR_OFFSET
      else
        let loffset := if usehash then loffset * bits else loffset in
        if negb must_obey && (Z.shiftr loffset 3 >=? proto_max_bulk_len) then inl ERR_OFFSET else inr loffset
  end.

Definition getBitfieldTypeFromArgument (arg : list Z) : bit_err + bool * Z :=
  match c_str arg with
  | [] => inl ERR_TYPE
  | c :: p =>
      if (c =? 105) || (c =? 117) then
        let sign := c =? 105 in
        match string2ll p with
        | None => inl ERR_TYPE
        | Some llbits =>
            if (llbits <? 1) || (sign && (llbits >? 64)) || (negb sign && (llbits >? 63)) then inl ERR_TYPE
            else inr (sign, llbits)
        end
      else inl ERR_TYPE
  end.

(** [lookupStringForBitCommand] on the value of the key: the string that reaches
    [maxbit], its old size and how much it grew. *)
Definition sdsgrowzero (s : list Z) (len : Z) : list Z := s ++ replicate (Z.to_nat (len - zlen s)) 0.

Definition lookupStringForBitCommand (o : option strobj) (maxbit : Z) : option (bit_err + list Z * Z * Z) :=
  let byte := Z.shiftr maxbit 3 in
  match o with
  | None => Some (inr (replicate (Z.to_nat (byte + 1)) 0, 0, byte + 1))
  | Some OtherType => Some (inl ERR_WRONGTYPE)
  | Some (SdsEncoded s) => Some (inr (sdsgrowzero s (byte + 1), zlen s, zlen (sdsgrowzero s (byte + 1)) - zlen s))
  | Some (IntEncoded v) => s ← int_text v; Some (inr (sdsgrowzero s (byte + 1), zlen s, zlen (sdsgrowzero s (byte + 1)) - zlen s))
  end.

(** ** BITFIELD *)

Inductive bf_opcode := BITFIELDOP_GET | BITFIELDOP_SET | BITFIELDOP_INCRBY.

Record bitfieldOp := { bf_offset : Z; bf_i64 : Z; bf_code : bf_opcode; bf_ow : owtype; bf_bits : Z; bf_sign : bool }.

Definition lit_get : list Z := [103; 101; 116].
Definition lit_set : list Z := [115; 101; 116].
Definition lit_incrby : list Z := [105; 110; 99; 114; 98; 121].
Definition lit_overflow : list Z := [111; 118; 101; 114; 102; 108; 111; 119].
Definition lit_wrap : list Z := [119; 114; 97; 112].
Definition lit_sat : list Z := [115; 97; 116].
Definition lit_fail : list Z := [102; 97; 105; 108].

(** [!strcasecmp(arg, lit)] *)
Definition argeq (arg lit : list Z) : bool := strcaseeq (c_str arg) lit.

(** The loop over the arguments: the operations, whether all are reads, and the
    highest bit written. *)
Fixpoint parse_ops (args : list (list Z)) (ow : owtype) (ops : list bitfieldOp) (readonly : bool) (high : Z)
    : bit_err + list bitfieldOp * bool * Z :=
  match args with
  | [] => inr (ops, readonly, high)
  | sub :: rest =>
      let remargs := zlen rest in
      let opcode := if argeq sub lit_get && (remargs >=? 2) then Some BITFIELDOP_GET
                    else if argeq sub lit_set && (remargs >=? 3) then Some BITFIELDOP_SET
                    else if argeq sub lit_incrby && (remargs >=? 3) then Some BITFIELDOP_INCRBY else None in
      match opcode, rest with
      | Some code, ty :: off :: rest =>
          match getBitfieldTypeFromArgument ty with
          | inl e => inl e
          | inr (sign, bits) =>
              match getBitOffsetFromArgument off true bits with
              | inl e => inl e
              | inr bitoffset =>
                  let op i64 := {| bf_offset := bitoffset; bf_i64 := i64; bf_code := code; bf_ow := ow; bf_bits := bits; bf_sign := sign |} in
                  match code, rest with
                  | BITFIELDOP_GET, _ => parse_ops rest ow (ops ++ [op 0]) readonly high
                  | _, v :: rest =>
                      let high := if high <? u64 (bitoffset + bits - 1) then u64 (bitoffset + bits - 1) else high in
                      match string2ll v with
                      | None => inl ERR_NOT_INTEGER
                      | Some i64 => parse_ops rest ow (ops ++ [op i64]) false high
                      end
                  | _, [] => inl ERR_SYNTAX
                  end
              end
          end
      | None, name :: rest =>
          if argeq sub lit_overflow then
            if argeq name lit_wrap then parse_ops rest BFOVERFLOW_WRAP ops readonly high
            else if argeq name lit_sat then parse_ops rest BFOVERFLOW_SAT ops readonly high
            else if argeq name lit_fail then parse_ops rest BFOVERFLOW_FAIL ops readonly high
            else inl ERR_OVERFLOW_TYPE
          else inl ERR_SYNTAX
      | _, _ => inl ERR_SYNTAX
      end
  end.

Inductive bit_reply := RInt (v : Z) | RNull.

(** One write: the string after it, the reply, and whether it counts as a change. *)
Definition exec_write (op : bitfieldOp) (grown : bool) (s : list Z) : option (list Z * bit_reply * bool) :=
  if bf_sign op then
    oldval ← getSignedBitfield s (bf_offset op) (bf_bits op);
    let '(overflow, wrapped, plain) :=
      match bf_code op with
      | BITFIELDOP_INCRBY =>
          (checkSignedBitfieldOverflow oldval (bf_i64 op) (bf_bits op) (bf_ow op), s64 (oldval + bf_i64 op))
      | _ => (checkSignedBitfieldOverflow (bf_i64 op) 0 (bf_bits op) (bf_ow op), bf_i64 op)
      end in
    let fail := negb (overflow =? 0) && bool_decide (bf_ow op = BFOVERFLOW_FAIL) in
    if fail then Some (s, RNull, false)
    else
      newval ← (if negb (overflow =? 0) then wrapped else Some plain);
      let retval := match bf_code op with BITFIELDOP_INCRBY => newval | _ => oldval end in
      s ← setSignedBitfield s (bf_offset op) (bf_bits op) newval;
      Some (s, RInt retval, grown || negb (oldval =? newval))
  else
    oldval ← getUnsignedBitfield s (bf_offset op) (bf_bits op);
    let '(overflow, wrapped, plain) :=
      match bf_code op with
      | BITFIELDOP_INCRBY =>
          (checkUnsignedBitfieldOverflow oldval (bf_i64 op) (bf_bits op) (bf_ow op), u64 (oldval + bf_i64 op))
      | _ => (checkUnsignedBitfieldOverflow (u64 (bf_i64 op)) 0 (bf_bits op) (bf_ow op), u64 (bf_i64 op))
      end in
    let fail := negb (overflow =? 0) && bool_decide (bf_ow op = BFOVERFLOW_FAIL) in
    if fail then Some (s, RNull, false)
    else
      newval ← (if negb (overflow =? 0) then wrapped else Some plain);
      let retval := match bf_code op with BITFIELDOP_INCRBY => newval | _ => oldval end in
      s ← setUnsignedBitfield s (bf_offset op) (bf_bits op) newval;
      Some (s, RInt (s64 retval), grown || negb (oldval =? newval)).

(** The loop that copies up to 9 bytes of the string. *)
Fixpoint copy9 (n : nat) (src : option (list Z)) (i byte : Z) (buf : list Z) : option (list Z) :=
  match n with
  | O => Some buf
  | S n =>
      match src with
      | None => Some buf
      | Some s =>
          if u64 (i + byte) >=? zlen s then Some buf
          else (b ← rd s (u64 (i + byte)); buf ← wr buf i b; copy9 n src (i + 1) byte buf)
      end
  end.

Definition exec_get (op : bitfieldOp) (src : option (list Z)) : option bit_reply :=
  let byte := Z.shiftr (bf_offset op) 3 in
  buf ← copy9 9 src 0 byte (replicate 9 0);
  let offset := u64 (bf_offset op - u64 (byte * 8)) in
  if bf_sign op then v ← getSignedBitfield buf offset (bf_bits op); Some (RInt v)
  else v ← getUnsignedBitfield buf offset (bf_bits op); Some (RInt (s64 v)).

(** The operations in turn, on the string that is written. *)
Fixpoint exec_ops (ops : list bitfieldOp) (grown : bool) (s : list Z) (replies : list bit_reply) (changes : Z)
    : option (list Z * list bit_reply * Z) :=
  match ops with
  | [] => Some (s, replies, changes)
  | op :: ops =>
      match bf_code op with
      | BITFIELDOP_GET => r ← exec_get op (Some s); exec_ops ops grown s (replies ++ [r]) changes
      | _ =>
          '(s, r, ch) ← exec_write op grown s;
          exec_ops ops grown s (replies ++ [r]) (if (ch : bool) then changes + 1 else changes)
      end
  end.

Fixpoint exec_reads (ops : list bitfieldOp) (src : option (list Z)) (replies : list bit_reply) : option (list bit_reply) :=
  match ops with
  | [] => Some replies
  | op :: ops => r ← exec_get op src; exec_reads ops src (replies ++ [r])
  end.

(** The new value of the key, the replies, and the changes counted in
    [server.dirty]. *)
Definition bitfieldGeneric (ro_command : bool) (o : option strobj) (args : list (list Z))
    : option (bit_err + option strobj * list bit_reply * Z) :=
  match parse_ops args BFOVERFLOW_WRAP [] true 0 with
  | inl e => Some (inl e)
  | inr (ops, readonly, high) =>
      if readonly then
        if bool_decide (o = Some OtherType) then Some (inl ERR_WRONGTYPE)
        else
          src ← getObjectReadOnlyString o;
          replies ← exec_reads ops src [];
          Some (inr (o, replies, 0))
      else if ro_command then Some (inl ERR_READONLY)
      else
        r ← lookupStringForBitCommand o high;
        match r with
        | inl e => Some (inl e)
        | inr (s, _, grow) =>
            '(s, replies, changes) ← exec_ops ops (negb (grow =? 0)) s [] 0;
            Some (inr (Some (SdsEncoded s), replies, changes))
        end
  end.

(** ** SETBIT and GETBIT *)

Definition setbitCommand (o : option strobj) (offset_arg bit_arg : list Z) : option (bit_err + option strobj * Z * Z) :=
  match getBitOffsetFromArgument offset_arg false 0 with
  | inl e => Some (inl e)
  | inr bitoffset =>
      match string2ll bit_arg with
      | None => Some (inl ERR_BIT)
      | Some on =>
          if negb (Z.land on (Z.lnot 1) =? 0) then Some (inl ERR_BIT)
          else
            r ← lookupStringForBitCommand o bitoffset;
            match r with
            | inl e => Some (inl e)
            | inr (s, _, grow) =>
                let byte := Z.shiftr bitoffset 3 in
                byteval ← rd s byte;
                let bit := 7 - Z.land bitoffset 7 in
                let bitval := Z.land byteval (Z.shiftl 1 bit) in
                let old := if bitval =? 0 then 0 else 1 in
                if negb (grow =? 0) || negb (old =? on) then
                  let byteval := Z.land byteval (Z.lnot (Z.shiftl 1 bit)) in
                  let byteval := Z.lor byteval (Z.shiftl (Z.land on 1) bit) in
                  s ← wr s byte byteval;
                  Some (inr (Some (SdsEncoded s), old, 1))
                else Some (inr (Some (SdsEncoded s), old, 0))
            end
      end
  end.

Definition getbitCommand (o : option strobj) (offset_arg : list Z) : option (bit_err + Z) :=
  match getBitOffsetFromArgument offset_arg false 0 with
  | inl e => Some (inl e)
  | inr bitoffset =>
      if bool_decide (o = Some OtherType) then Some (inl ERR_WRONGTYPE)
      else
        src ← getObjectReadOnlyString o;
        match src with
        | None => Some (inr 0)
        | Some s =>
            let byte := Z.shiftr bitoffset 3 in
            let bit := 7 - Z.land bitoffset 7 in
            if byte <? zlen s then
              b ← rd s byte;
              Some (inr (if Z.land b (Z.shiftl 1 bit) =? 0 then 0 else 1))
            else Some (inr 0)
        end
  end.
End Args.
