(* ===== verification/BitopsSpec.v ===== *)
(** * Bit operations: strings as arrays of bits

    [bit s i] is bit [i] of a string, 0 past its end.  Fields are read and
    written as the numbers of their bits, and the overflow checks agree with
    arithmetic on unbounded integers. *)

From stdpp Require Import base list numbers option tactics.
From S2P Require Import Prelude Util SdsArgs Bitops.

#[local] Ltac Zify.zify_post_hook ::= Z.to_euclidean_division_equations.

(** ** Bits *)

Definition bit (s : list Z) (i : Z) : bool :=
  match rd s (i / 8) with Some b => Z.testbit b (7 - i mod 8) | None => false end.

Lemma bit_past s i : 8 * zlen s <= i -> bit s i = false.
Proof. intros Hi. unfold bit. rewrite rd_None by lia. done. Qed.

Lemma shiftr3 i : Z.shiftr i 3 = i / 8.
Proof. by rewrite Z.shiftr_div_pow2. Qed.

Lemma land7 i : Z.land i 7 = i mod 8.
Proof. apply (land_ones 3). lia. Qed.

Lemma div8_add b j : (8 * b + j) / 8 = b + j / 8 /\ (8 * b + j) mod 8 = j mod 8.
Proof. lia. Qed.

Lemma byte_in_range s i : 0 <= i < 8 * zlen s -> exists b, rd s (i / 8) = Some b.
Proof. intros Hi. apply rd_Some. lia. Qed.

Lemma byte_of s i b : Forall is_byte s -> rd s i = Some b -> is_byte b.
Proof.
  intros Hs Hi. pose proof (rd_Some_inv _ _ _ Hi) as Hr. rewrite rd_lookup in Hi by lia. by eapply Forall_lookup_1.
Qed.

(** Writing one bit. *)
Lemma wr_byte_bits s i b : 0 <= i < zlen s -> is_byte b -> Forall is_byte s -> exists s', wr s i b = Some s' /\ zlen s' = zlen s /\ Forall is_byte s' /\
  (forall j, rd s' j = if j =? i then Some b else rd s j).
Proof.
  intros Hi Hb Hs. destruct (wr_bytes_spec s i [b]) as (s' & Hw & Hz & Hin & Hout); [lia|change (zlen [b]) with 1; lia|].
  change (zlen [b]) with 1 in *. exists s'. split; [done|]. split; [done|].
  assert (Hrd : forall j, rd s' j = if j =? i then Some b else rd s j).
  { intros j. destruct (Z.eqb_spec j i) as [->|Hj]; [|apply Hout; lia]. replace i with (i + 0) by lia. rewrite Hin by lia. done. }
  split; [|done]. apply Forall_lookup. intros k x Hk. pose proof (lookup_lt_Some _ _ _ Hk) as Hlt. specialize (Hrd (Z.of_nat k)). rewrite rd_lookup, Nat2Z.id, Hk in Hrd by lia.
  destruct (Z.of_nat k =? i); [congruence|]. by eapply byte_of.
Qed.

(** The byte with bit [k] set to [v]. *)
Definition put_bit (b k : Z) (v : bool) : Z := Z.lor (Z.land b (Z.lnot (Z.shiftl 1 k))) (Z.shiftl (Z.b2z v) k).

Lemma put_bit_spec b k v j : 0 <= k -> 0 <= j -> Z.testbit (put_bit b k v) j = if j =? k then v else Z.testbit b j.
Proof.
  intros Hk Hj. unfold put_bit. rewrite Z.lor_spec, Z.land_spec, Z.lnot_spec, !Z.shiftl_spec by lia.
  destruct (Z.eqb_spec j k) as [->|Hne].
  - rewrite Z.sub_diag. rewrite andb_false_r. by destruct v.
  - assert (H1 : forall c : bool, Z.testbit (Z.b2z c) (j - k) = false).
    { intros c. destruct (decide (j < k)); [by rewrite Z.testbit_neg_r by lia|]. destruct c; [|apply Z.bits_0].
      change (Z.b2z true) with (2 ^ 0). apply Z.pow2_bits_false. lia. }
    pose proof (H1 true) as H2. cbn [Z.b2z] in H2. rewrite H1, H2. cbn. by rewrite andb_true_r, orb_false_r.
Qed.

Lemma bits_small x n : 0 <= n -> 0 <= x -> (forall j, n <= j -> Z.testbit x j = false) -> x < 2 ^ n.
Proof.
  intros Hn Hx Hb. destruct (decide (x < 2 ^ n)); [done|]. exfalso.
  assert (Hl : n <= Z.log2 x) by (rewrite <- (Z.log2_pow2 n) by lia; apply Z.log2_le_mono; lia).
  specialize (Hb _ Hl). rewrite Z.bit_log2 in Hb by (pose proof (Z.pow_pos_nonneg 2 n); lia). done.
Qed.

Lemma bits_below x n : 0 <= n -> 0 <= x < 2 ^ n <-> 0 <= x /\ forall j, n <= j -> Z.testbit x j = false.
Proof.
  intros Hn. split; [|intros [H0 H]; split; [done|by apply bits_small]]. intros Hx. split; [lia|]. intros j Hj. rewrite <- (Z.mod_small x (2 ^ n)) by lia. by apply Z.mod_pow2_bits_high.
Qed.

Lemma lxor_below x y n : 0 <= n -> 0 <= x < 2 ^ n -> 0 <= y < 2 ^ n -> 0 <= Z.lxor x y < 2 ^ n.
Proof.
  intros Hn [Hx Hx']%bits_below [Hy Hy']%bits_below; [|done|done]. apply bits_below; [done|]. split; [by apply Z.lxor_nonneg|]. intros j Hj. by rewrite Z.lxor_spec, Hx', Hy'.
Qed.

Lemma byte_high_bits b j : is_byte b -> 8 <= j -> Z.testbit b j = false.
Proof. intros [H0 H1] Hj. rewrite <- (Z.mod_small b (2 ^ 8)) by lia. by apply Z.mod_pow2_bits_high. Qed.

Lemma put_bit_byte b k v : is_byte b -> 0 <= k < 8 -> is_byte (put_bit b k v).
Proof.
  intros Hb Hk. assert (H0 : 0 <= put_bit b k v).
  { unfold put_bit. destruct Hb. apply Z.lor_nonneg. split; [apply Z.land_nonneg; by left|]. rewrite Z.shiftl_mul_pow2 by lia. destruct v; cbn [Z.b2z]; lia. }
  split; [done|]. change 256 with (2 ^ 8). apply bits_small; [lia|done|]. intros j Hj. rewrite put_bit_spec by lia.
  destruct (Z.eqb_spec j k); [lia|]. by apply byte_high_bits.
Qed.

Lemma set_bit s i v b : Forall is_byte s -> 0 <= i -> rd s (i / 8) = Some b ->
  exists s', wr s (i / 8) (put_bit b (7 - i mod 8) v) = Some s' /\ zlen s' = zlen s /\ Forall is_byte s' /\
    forall j, bit s' j = if j =? i then v else bit s j.
Proof.
  intros Hs Hi Hb. pose proof (rd_Some_inv _ _ _ Hb) as Hr. pose proof (byte_of _ _ _ Hs Hb) as Hbb.
  destruct (wr_byte_bits s (i / 8) (put_bit b (7 - i mod 8) v) Hr) as (s' & Hw & Hz & Hs' & Hrd); [apply put_bit_byte; [done|lia]|done|].
  exists s'. do 3 (split; [done|]). intros j. unfold bit. rewrite Hrd. destruct (Z.eqb_spec (j / 8) (i / 8)) as [E|E].
  - rewrite put_bit_spec by lia. rewrite E, Hb. destruct (Z.eqb_spec (7 - j mod 8) (7 - i mod 8)); destruct (Z.eqb_spec j i); try done; lia.
  - destruct (Z.eqb_spec j i); [by subst|done].
Qed.

(** Two strings with the same bits are the same. *)
Lemma bits_ext s t : zlen s = zlen t -> Forall is_byte s -> Forall is_byte t -> (forall i, 0 <= i < 8 * zlen s -> bit s i = bit t i) -> s = t.
Proof.
  intros Hz Hs Ht Hb. apply rd_ext; [done|]. intros k Hk. destruct (rd_Some s k Hk) as [x Hx]. destruct (rd_Some t k ltac:(lia)) as [y Hy]. rewrite Hx, Hy. f_equal.
  apply Z.bits_inj'. intros j Hj. destruct (decide (8 <= j)); [by rewrite (byte_high_bits x j (byte_of _ _ _ Hs Hx)), (byte_high_bits y j (byte_of _ _ _ Ht Hy))|].
  specialize (Hb (8 * k + (7 - j)) ltac:(lia)). unfold bit in Hb. replace ((8 * k + (7 - j)) / 8) with k in Hb by lia. rewrite Hx, Hy in Hb.
  by replace (7 - (8 * k + (7 - j)) mod 8) with j in Hb by lia.
Qed.

(** ** Fields *)

Fixpoint field (f : Z -> bool) (off : Z) (n : nat) : Z :=
  match n with
  | O => 0
  | S n => 2 * field f off n + Z.b2z (f (off + Z.of_nat n))
  end.

Definition put_field (f : Z -> bool) (off n v : Z) (i : Z) : bool :=
  if (off <=? i) && (i <? off + n) then Z.testbit v (n - 1 - (i - off)) else f i.

Lemma field_bounds f off n : 0 <= field f off n < 2 ^ Z.of_nat n.
Proof. induction n as [|n IH]; cbn [field]; [cbn; lia|]. rewrite Nat2Z.inj_succ, Z.pow_succ_r by lia. destruct (f _); cbn [Z.b2z]; lia. Qed.

Lemma field_front f n : forall off, field f off (S n) = Z.b2z (f off) * 2 ^ Z.of_nat n + field f (off + 1) n.
Proof.
  induction n as [|n IH]; intros off; [cbn; rewrite Z.add_0_r; lia|].
  change (field f off (S (S n))) with (2 * field f off (S n) + Z.b2z (f (off + Z.of_nat (S n)))). rewrite IH. cbn [field].
  rewrite (Nat2Z.inj_succ n), Z.pow_succ_r by lia. replace (off + Z.succ (Z.of_nat n)) with (off + 1 + Z.of_nat n) by lia. lia.
Qed.

Lemma field_ext f g off n : (forall i, off <= i < off + Z.of_nat n -> f i = g i) -> field f off n = field g off n.
Proof.
  induction n as [|n IH]; intros H; cbn [field]; [done|]. rewrite IH, H by (lia || (intros i Hi; apply H; lia)). done.
Qed.

Lemma field_shift f k off n : field (fun i => f (i + k)) off n = field f (off + k) n.
Proof. induction n as [|n IH]; cbn [field]; [done|]. rewrite IH. by replace (off + Z.of_nat n + k) with (off + k + Z.of_nat n) by lia. Qed.

(** Reading back what was written. *)
Lemma field_put f off n v : 0 <= v -> field (put_field f off (Z.of_nat n) v) off n = v mod 2 ^ Z.of_nat n.
Proof.
  intros Hv.
  assert (H : forall m, (m <= n)%nat -> field (put_field f off (Z.of_nat n) v) off m = (v / 2 ^ Z.of_nat (n - m)) mod 2 ^ Z.of_nat m).
  { induction m as [|m IH]; intros Hm; [cbn; by rewrite Z.mod_1_r|]. cbn [field]. rewrite IH by lia. unfold put_field.
    rewrite (proj2 (Z.leb_le _ _)), (proj2 (Z.ltb_lt _ _)) by lia. cbn [andb].
    replace (Z.of_nat n - 1 - (off + Z.of_nat m - off)) with (Z.of_nat (n - S m)) by lia.
    replace (n - m)%nat with (S (n - S m)) by lia. rewrite (Nat2Z.inj_succ (n - S m)), (Nat2Z.inj_succ m), !Z.pow_succ_r by lia.
    rewrite Z.testbit_spec' by lia. rewrite (Z.mul_comm 2 (2 ^ Z.of_nat (n - S m))), <- Z.div_div by lia.
    set (w := v / 2 ^ Z.of_nat (n - S m)). rewrite Z.rem_mul_r by lia. lia. }
  rewrite H by lia. by rewrite Nat.sub_diag, Z.div_1_r.
Qed.

(** ** Reading and writing fields *)

Lemma land_pow2_test v k : 0 <= k -> (Z.land v (2 ^ k) =? 0) = negb (Z.testbit v k).
Proof.
  intros Hk. destruct (Z.testbit v k) eqn:E; cbn [negb].
  - apply Z.eqb_neq. intros H. apply (f_equal (fun x => Z.testbit x k)) in H. rewrite Z.land_spec, E, Z.pow2_bits_true, Z.bits_0 in H by lia. done.
  - apply Z.eqb_eq, Z.bits_inj'. intros j Hj. rewrite Z.land_spec, Z.bits_0. destruct (decide (j = k)) as [->|Hne]; [by rewrite E|].
    rewrite Z.pow2_bits_false by lia. apply andb_false_r.
Qed.

Lemma land_1_test b k : 0 <= k -> Z.land (Z.shiftr b k) 1 = Z.b2z (Z.testbit b k).
Proof. intros Hk. rewrite (land_ones 1) by lia. by rewrite Z.testbit_spec', Z.shiftr_div_pow2 by lia. Qed.

Lemma lor_double_bit v c : Z.lor (2 * v) (Z.b2z c) = 2 * v + Z.b2z c.
Proof.
  rewrite Z.lor_comm. replace (2 * v) with (Z.shiftl v 1) by (by rewrite Z.shiftl_mul_pow2, Z.mul_comm by lia).
  rewrite lor_shiftl_add by (destruct c; cbn; lia). rewrite Z.shiftl_mul_pow2 by lia. lia.
Qed.

Lemma pow64_split n : 0 <= n <= 64 -> 2 ^ 64 = 2 ^ n * 2 ^ (64 - n).
Proof. intros Hn. rewrite <- Z.pow_add_r by lia. f_equal. lia. Qed.

Lemma get_loop_ok p n : forall off value, 0 <= off -> off + Z.of_nat n <= 8 * zlen p -> off + Z.of_nat n < 2 ^ 64 -> (n <= 64)%nat ->
  0 <= value < 2 ^ (64 - Z.of_nat n) ->
  getUnsignedBitfield_loop n p off value = Some (value * 2 ^ Z.of_nat n + field (bit p) off n).
Proof.
  induction n as [|n IH]; intros off value H0 Hlen Hoff Hn Hv; cbn [getUnsignedBitfield_loop]; [cbn [field Z.of_nat]; f_equal; lia|].
  rewrite shiftr3, land7. destruct (byte_in_range p off) as [b Hb]; [lia|]. rewrite Hb. cbn [mbind option_bind].
  assert (Hbit : bit p off = Z.testbit b (7 - off mod 8)) by (unfold bit; by rewrite Hb).
  rewrite land_1_test, <- Hbit by lia. rewrite wrapu_id by lia.
  rewrite Nat2Z.inj_succ in *. assert (Hp : 2 ^ (64 - Z.of_nat n) = 2 * 2 ^ (64 - Z.succ (Z.of_nat n))) by (rewrite <- Z.pow_succ_r by lia; f_equal; lia).
  assert (Hle : 2 ^ (64 - Z.of_nat n) <= 2 ^ 64) by (apply Z.pow_le_mono_r; lia).
  rewrite wrapu_id by (rewrite Z.shiftl_mul_pow2 by lia; lia). replace (Z.shiftl value 1) with (2 * value) by (rewrite Z.shiftl_mul_pow2 by lia; lia).
  rewrite lor_double_bit, IH by (destruct (bit p off); cbn [Z.b2z]; lia). rewrite field_front, Z.pow_succ_r by lia. f_equal. lia.
Qed.

Lemma set_loop_ok value bits n : 0 <= value -> Z.of_nat n <= bits <= 64 -> forall j p off, Forall is_byte p -> 0 <= off -> off + Z.of_nat n <= 8 * zlen p ->
  off + Z.of_nat n < 2 ^ 64 -> j + Z.of_nat n = bits ->
  exists p', setUnsignedBitfield_loop n j p off bits value = Some p' /\ zlen p' = zlen p /\ Forall is_byte p' /\
    forall i, bit p' i = put_field (bit p) off (Z.of_nat n) value i.
Proof.
  intros Hv. induction n as [|n IH]; intros Hb j p off Hp H0 Hlen Hoff Hj; cbn [setUnsignedBitfield_loop].
  { exists p. do 3 (split; [done|]). intros i. unfold put_field. destruct (Z.leb_spec off i); destruct (Z.ltb_spec i (off + Z.of_nat 0)); try done. lia. }
  rewrite shiftr3, land7. destruct (byte_in_range p off) as [b Hrd]; [lia|]. rewrite Hrd. cbn [mbind option_bind].
  replace (bits - 1 - j) with (Z.of_nat n) by lia. rewrite (Z.shiftl_1_l (Z.of_nat n)), (wrapu_id 64 (2 ^ Z.of_nat n)) by (split; [lia|apply Z.pow_lt_mono_r; lia]).
  rewrite land_pow2_test by lia. set (v := Z.testbit value (Z.of_nat n)).
  replace (if negb v then 0 else 1) with (Z.b2z v) by (by destruct v). fold (put_bit b (7 - off mod 8) v).
  assert (Hbyte : is_byte (put_bit b (7 - off mod 8) v)) by (apply put_bit_byte; [by eapply byte_of|lia]).
  rewrite land_255, Z.mod_small by exact Hbyte. destruct (set_bit p off v b Hp H0 Hrd) as (p1 & -> & Hz1 & Hp1 & Hb1). cbn [mbind option_bind].
  rewrite wrapu_id by lia. destruct (IH ltac:(lia) (j + 1) p1 (off + 1) Hp1 ltac:(lia) ltac:(lia) ltac:(lia) ltac:(lia)) as (p' & -> & Hz' & Hp' & Hb').
  exists p'. split; [done|]. split; [lia|]. split; [done|]. intros i. rewrite Hb'. unfold put_field. rewrite Hb1.
  destruct (Z.leb_spec (off + 1) i), (Z.ltb_spec i (off + 1 + Z.of_nat n)), (Z.leb_spec off i), (Z.ltb_spec i (off + Z.of_nat (S n))), (Z.eqb_spec i off); cbn [andb]; try done; try lia;
    first [f_equal; lia | unfold v; f_equal; lia].
Qed.

Lemma getUnsignedBitfield_ok p off bits : 0 <= off -> off + bits <= 8 * zlen p -> off + bits < 2 ^ 64 -> 0 <= bits <= 64 ->
  getUnsignedBitfield p off bits = Some (field (bit p) off (Z.to_nat bits)).
Proof.
  intros H0 Hl Ho Hb. unfold getUnsignedBitfield. rewrite get_loop_ok; [f_equal; lia|lia..|]. split; [lia|]. apply Z.pow_pos_nonneg; lia.
Qed.

Lemma setUnsignedBitfield_ok p off bits value : Forall is_byte p -> 0 <= off -> off + bits <= 8 * zlen p -> off + bits < 2 ^ 64 -> 0 <= bits <= 64 -> 0 <= value ->
  exists p', setUnsignedBitfield p off bits value = Some p' /\ zlen p' = zlen p /\ Forall is_byte p' /\
    forall i, bit p' i = put_field (bit p) off bits value i.
Proof.
  intros Hp H0 Hl Ho Hb Hv. unfold setUnsignedBitfield.
  destruct (set_loop_ok value bits (Z.to_nat bits) Hv ltac:(lia) 0 p off Hp H0) as (p' & H); [lia..|]. exists p'. by rewrite Z2Nat.id in H by lia.
Qed.

Lemma mod_64_mod z n : 0 <= n <= 64 -> (z mod 2 ^ 64) mod 2 ^ n = z mod 2 ^ n.
Proof.
  intros Hn. rewrite (pow64_split n) by lia. rewrite Z.rem_mul_r by (try apply Z.pow_nonzero; try apply Z.pow_pos_nonneg; lia).
  rewrite Z.mul_comm, Z.mod_add by (apply Z.pow_nonzero; lia). by rewrite Z.mod_mod by (apply Z.pow_nonzero; lia).
Qed.


(** ** Two's complement *)

Lemma high_mask bits : 0 <= bits <= 64 -> u64 (Z.shiftl UINT64_MAX bits) = 2 ^ 64 - 2 ^ bits.
Proof.
  intros Hb. rewrite Z.shiftl_mul_pow2 by lia. unfold wrapu. change UINT64_MAX with (2 ^ 64 - 1).
  replace ((2 ^ 64 - 1) * 2 ^ bits) with (2 ^ 64 - 2 ^ bits + (2 ^ bits - 1) * 2 ^ 64) by lia. rewrite Z.mod_add by lia.
  assert (1 <= 2 ^ bits <= 2 ^ 64) by (split; [pose proof (Z.pow_pos_nonneg 2 bits); lia|apply Z.pow_le_mono_r; lia]). apply Z.mod_small. lia.
Qed.

Lemma lor_high_mask c bits : 0 <= bits <= 64 -> 0 <= c < 2 ^ 64 -> Z.lor c (2 ^ 64 - 2 ^ bits) = c mod 2 ^ bits + (2 ^ 64 - 2 ^ bits).
Proof.
  intros Hb Hc. rewrite (pow64_split bits Hb). replace (2 ^ bits * 2 ^ (64 - bits) - 2 ^ bits) with ((2 ^ (64 - bits) - 1) * 2 ^ bits) by lia.
  rewrite <- lor_shiftl_add by (try lia; apply Z.mod_pos_bound, Z.pow_pos_nonneg; lia). rewrite <- Z.shiftl_mul_pow2 by lia.
  apply Z.bits_inj'. intros j Hj. rewrite !Z.lor_spec, !Z.shiftl_spec by lia. destruct (decide (j < bits)).
  - by rewrite Z.mod_pow2_bits_low by lia.
  - rewrite Z.mod_pow2_bits_high by lia. cbn [orb]. rewrite Z.sub_1_r, <- Z.ones_equiv. destruct (decide (j < 64)).
    + rewrite Z.ones_spec_low by lia. apply orb_true_r.
    + rewrite Z.ones_spec_high by lia. rewrite <- (Z.mod_small c (2 ^ 64)), Z.mod_pow2_bits_high by lia. done.
Qed.

Lemma wraps_low bits c : 1 <= bits -> wraps bits c = if c mod 2 ^ bits <? 2 ^ (bits - 1) then c mod 2 ^ bits else c mod 2 ^ bits - 2 ^ bits.
Proof.
  intros Hb. unfold wraps. pose proof (pow2_split bits ltac:(lia)) as Hp. set (P := 2 ^ (bits - 1)) in *. assert (0 < P) by (apply Z.pow_pos_nonneg; lia).
  pose proof (Z.mod_pos_bound c (2 ^ bits) ltac:(lia)). rewrite <- Z.add_mod_idemp_l by lia. set (m := c mod 2 ^ bits) in *.
  destruct (Z.ltb_spec m P); [rewrite Z.mod_small by lia; lia|]. rewrite <- (Z.mod_unique (m + P) (2 ^ bits) 1 (m - P)); lia.
Qed.

Lemma msb_test c bits : 1 <= bits <= 64 -> 0 <= c < 2 ^ 64 -> Z.testbit c (bits - 1) = negb (c mod 2 ^ bits <? 2 ^ (bits - 1)).
Proof.
  intros Hb Hc. rewrite <- (Z.mod_pow2_bits_low c bits) by lia. pose proof (pow2_split bits ltac:(lia)) as Hp. pose proof (Z.mod_pos_bound c (2 ^ bits) ltac:(lia)) as Hm.
  set (m := c mod 2 ^ bits) in *. destruct (Z.ltb_spec m (2 ^ (bits - 1))) as [Hlt|Hge]; cbn [negb].
  - rewrite <- (Z.mod_small m (2 ^ (bits - 1))) by lia. apply Z.mod_pow2_bits_high. lia.
  - rewrite <- (Z.sub_add (2 ^ (bits - 1)) m). apply Z.b2z_inj. rewrite Z.testbit_spec' by lia.
    rewrite <- (Z.mul_1_l (2 ^ (bits - 1))) at 2. rewrite Z.div_add, Z.div_small by lia. done.
Qed.

(** The sign of a field of [bits] is extended to 64 bits. *)
Lemma extend_sign c bits : 1 <= bits < 64 -> 0 <= c < 2 ^ 64 ->
  s64 (if negb (Z.land c (2 ^ (bits - 1)) =? 0) then Z.lor c (2 ^ 64 - 2 ^ bits) else Z.land c (2 ^ bits - 1)) = wraps bits c.
Proof.
  intros Hb Hc. rewrite land_pow2_test, negb_involutive, msb_test, (wraps_low bits) by lia.
  assert (Hp : 0 < 2 ^ bits <= 2 ^ 63) by (split; [apply Z.pow_pos_nonneg; lia|apply Z.pow_le_mono_r; lia]).
  pose proof (pow2_split bits ltac:(lia)). pose proof (Z.mod_pos_bound c (2 ^ bits) ltac:(lia)).
  destruct (Z.ltb_spec (c mod 2 ^ bits) (2 ^ (bits - 1))); cbn [negb].
  - rewrite land_ones by lia. apply wraps_id; [lia|]. unfold is_s. change (64 - 1) with 63. lia.
  - rewrite lor_high_mask by lia. rewrite wraps_low by lia. rewrite Z.mod_small by lia. change (64 - 1) with 63.
    rewrite (proj2 (Z.ltb_ge _ _)) by lia. lia.
Qed.

Lemma getSignedBitfield_ok p off bits : 0 <= off -> off + bits <= 8 * zlen p -> off + bits < 2 ^ 64 -> 1 <= bits <= 64 ->
  getSignedBitfield p off bits = Some (wraps bits (field (bit p) off (Z.to_nat bits))).
Proof.
  intros H0 Hl Ho Hb. unfold getSignedBitfield. rewrite getUnsignedBitfield_ok by lia. cbn [mbind option_bind]. f_equal.
  pose proof (field_bounds (bit p) off (Z.to_nat bits)) as Hf. rewrite Z2Nat.id in Hf by lia. set (u := field _ _ _) in *.
  assert (Hp : 2 ^ bits <= 2 ^ 64) by (apply Z.pow_le_mono_r; lia).
  assert (Hu : u64 (s64 u) = u).
  { unfold wrapu. rewrite wraps_low by lia. rewrite (Z.mod_small u) by lia. destruct (_ <? _); [apply Z.mod_small; lia|]. symmetry. apply (Z.mod_unique _ _ (-1)); lia. }
  destruct (Z.ltb_spec bits 64) as [Hlt|Hge]; cbn [andb].
  - rewrite Hu, high_mask, Z.shiftl_1_l by lia. rewrite <- (extend_sign u bits) by lia. destruct (negb _); [done|]. rewrite land_ones, (Z.mod_small u) by lia. done.
  - by replace bits with 64 by lia.
Qed.

(** ** Overflow *)

Definition max_of (sign : bool) (bits : Z) : Z := if sign then 2 ^ (bits - 1) - 1 else 2 ^ bits - 1.
Definition min_of (sign : bool) (bits : Z) : Z := if sign then - 2 ^ (bits - 1) else 0.
Definition fits (sign : bool) (bits z : Z) : bool := (min_of sign bits <=? z) && (z <=? max_of sign bits).

(** What a field holds after [z] was to be stored. *)
Definition store (sign : bool) (bits : Z) (ow : owtype) (z : Z) : option Z :=
  if fits sign bits z then Some z
  else match ow with
       | BFOVERFLOW_WRAP => Some (if sign then wraps bits z else wrapu bits z)
       | BFOVERFLOW_SAT => Some (if z >? max_of sign bits then max_of sign bits else min_of sign bits)
       | BFOVERFLOW_FAIL => None
       end.

(** The verdict of a check: 0 exactly when the value fits, and the value to store. *)
Definition verdict_ok (sign : bool) (bits : Z) (ow : owtype) (z : Z) (r : Z * option Z) : Prop :=
  (r.1 = 0 <-> fits sign bits z = true) /\ (if r.1 =? 0 then Some z else r.2) = store sign bits ow z.

Lemma verdict_over sign bits ow z r limit : fits sign bits z = false -> r <> 0 -> limit = store sign bits ow z -> verdict_ok sign bits ow z (r, limit).
Proof. intros Hf Hr ->. split; cbn; [rewrite Hf; by split|]. by rewrite (proj2 (Z.eqb_neq r 0)). Qed.

Lemma verdict_fits sign bits ow z limit : fits sign bits z = true -> verdict_ok sign bits ow z (0, limit).
Proof. intros Hf. split; cbn; [by rewrite Hf|]. unfold store. by rewrite Hf. Qed.

Lemma fits_true sign bits z : min_of sign bits <= z <= max_of sign bits -> fits sign bits z = true.
Proof. intros Hz. unfold fits. by rewrite !(proj2 (Z.leb_le _ _)) by lia. Qed.

Lemma fits_false sign bits z : z < min_of sign bits \/ max_of sign bits < z -> fits sign bits z = false.
Proof. intros Hz. unfold fits. destruct (Z.leb_spec (min_of sign bits) z), (Z.leb_spec z (max_of sign bits)); try done; lia. Qed.

Lemma checkUnsigned_ok value incr bits ow : 1 <= bits <= 63 -> 0 <= value < 2 ^ 64 -> is_s 64 incr -> (value < 2 ^ bits \/ incr = 0) ->
  verdict_ok false bits ow (value + incr) (checkUnsignedBitfieldOverflow value incr bits ow).
Proof.
  intros Hb Hv Hi Hor. unfold checkUnsignedBitfieldOverflow. rewrite (proj2 (Z.eqb_neq bits 64)) by lia. rewrite Z.shiftl_1_l.
  assert (Hp : 1 < 2 ^ bits <= 2 ^ 63) by (split; [apply Z.pow_gt_1; lia|apply Z.pow_le_mono_r; lia]). rewrite (wrapu_id 64 (2 ^ bits)) by lia.
  unfold is_s in Hi. change (64 - 1) with 63 in Hi. rewrite high_mask by lia. change UINT64_MAX with (2 ^ 64 - 1).
  replace (2 ^ 64 - 1 - (2 ^ 64 - 2 ^ bits)) with (2 ^ bits - 1) by lia.
  assert (Hwrap : Z.land (u64 (value + incr)) (2 ^ bits - 1) = wrapu bits (value + incr)).
  { rewrite land_ones by lia. apply mod_64_mod. lia. }
  rewrite Hwrap. unfold min_of, max_of in *.
  assert (Hs : value < 2 ^ bits -> s64 (2 ^ bits - 1 - value) = 2 ^ bits - 1 - value /\ s64 (- value) = - value).
  { intros H. split; apply wraps_id; try lia; unfold is_s; change (64 - 1) with 63; lia. }
  destruct (Z.gtb_spec value (2 ^ bits - 1)) as [Hbig|Hsm]; cbn [orb].
  - destruct Hor as [?| ->]; [lia|]. rewrite Z.add_0_r. assert (Hf : fits false bits value = false) by (apply fits_false; cbn; lia).
    destruct ow; apply verdict_over; try done; unfold store; rewrite Hf; [done| |done]. cbn [max_of min_of]. destruct (Z.gtb_spec value (2 ^ bits - 1)); [done|lia].
  - destruct (Hs ltac:(lia)) as [-> ->]. destruct ((incr >? 0) && (incr >? 2 ^ bits - 1 - value)) eqn:E1.
    { apply andb_prop in E1 as [_ E1]. rewrite Z.gtb_lt in E1. assert (Hf : fits false bits (value + incr) = false) by (apply fits_false; cbn; lia).
      destruct ow; apply verdict_over; try done; unfold store; rewrite Hf; [done| |done]. cbn [max_of min_of]. destruct (Z.gtb_spec (value + incr) (2 ^ bits - 1)); [done|lia]. }
    destruct ((incr <? 0) && (incr <? - value)) eqn:E2.
    { apply andb_prop in E2 as [_ E2]. apply Z.ltb_lt in E2. assert (Hf : fits false bits (value + incr) = false) by (apply fits_false; cbn; lia).
      destruct ow; apply verdict_over; try done; unfold store; rewrite Hf; [done| |done]. cbn [max_of min_of]. destruct (Z.gtb_spec (value + incr) (2 ^ bits - 1)); [lia|done]. }
    apply verdict_fits, fits_true. cbn. destruct (Z.gtb_spec incr 0), (Z.gtb_spec incr (2 ^ bits - 1 - value)), (Z.ltb_spec incr 0), (Z.ltb_spec incr (- value)); cbn in E1, E2; lia || done.
Qed.

Lemma wrap_signed value incr bits : 1 <= bits <= 64 -> is_s 64 value -> is_s 64 incr ->
  s64 (let c := u64 (u64 value + u64 incr) in
       if bits <? 64 then if negb (Z.land c (u64 (Z.shiftl 1 (bits - 1))) =? 0) then Z.lor c (u64 (Z.shiftl UINT64_MAX bits))
                          else Z.land c (UINT64_MAX - u64 (Z.shiftl UINT64_MAX bits))
       else c) = wraps bits (value + incr).
Proof.
  intros Hb Hv Hi. cbv zeta.
  assert (Hc : u64 (u64 value + u64 incr) = u64 (value + incr)) by (unfold wrapu; symmetry; apply Z.add_mod; lia). rewrite Hc.
  destruct (Z.ltb_spec bits 64) as [Hlt|Hge].
  - rewrite Z.shiftl_1_l, (wrapu_id 64 (2 ^ (bits - 1))) by (split; [apply Z.pow_nonneg; lia|apply Z.pow_lt_mono_r; lia]). rewrite high_mask by lia.
    change UINT64_MAX with (2 ^ 64 - 1). replace (2 ^ 64 - 1 - (2 ^ 64 - 2 ^ bits)) with (2 ^ bits - 1) by lia.
    rewrite extend_sign by (try lia; apply wrapu_range; lia). rewrite !wraps_low by lia. unfold wrapu.
    by rewrite mod_64_mod by lia.
  - replace bits with 64 by lia. by rewrite wraps_wrapu by lia.
Qed.

(** Where saturating works: a value to set that is not too far below the range. *)
Definition sat_ok (bits : Z) (ow : owtype) (value : Z) : Prop := ow = BFOVERFLOW_SAT -> 2 ^ (bits - 1) - 2 ^ 63 <= value.

Lemma checkSigned_ok value incr bits ow : 1 <= bits <= 64 -> is_s 64 value -> is_s 64 incr ->
  fits true bits value = true \/ (incr = 0 /\ sat_ok bits ow value) ->
  verdict_ok true bits ow (value + incr) (checkSignedBitfieldOverflow value incr bits ow).
Proof.
  intros Hb Hv Hi Hor. pose proof (wrap_signed value incr bits Hb Hv Hi) as Hw. cbv zeta in Hw.
  unfold checkSignedBitfieldOverflow. cbv zeta. rewrite Hw. clear Hw. unfold is_s in Hv, Hi. change (64 - 1) with 63 in Hv, Hi.
  assert (HP : 1 <= 2 ^ (bits - 1) <= 2 ^ 63) by (split; [pose proof (Z.pow_pos_nonneg 2 (bits - 1)); lia|apply Z.pow_le_mono_r; lia]).
  assert (HP' : bits < 64 -> 2 ^ (bits - 1) <= 2 ^ 62) by (intros ?; apply Z.pow_le_mono_r; lia).
  replace (if bits =? 64 then INT64_MAX else Z.shiftl 1 (bits - 1) - 1) with (2 ^ (bits - 1) - 1) by (destruct (Z.eqb_spec bits 64) as [->|]; [done|by rewrite Z.shiftl_1_l]).
  set (P := 2 ^ (bits - 1)) in *. rewrite (wraps_wrapu 64) by lia. replace (- (P - 1) - 1) with (- P) by lia.
  assert (Hover : forall r limit, r <> 0 -> P - 1 < value + incr \/ value + incr < - P -> limit = store true bits ow (value + incr) -> verdict_ok true bits ow (value + incr) (r, limit)).
  { intros r limit Hr Hz Hl. apply verdict_over; [|done|done]. apply fits_false. cbn. fold P. lia. }
  assert (Hst : forall lim, P - 1 < value + incr \/ value + incr < - P -> (ow = BFOVERFLOW_SAT -> lim = if value + incr >? P - 1 then P - 1 else - P) ->
    match ow with BFOVERFLOW_WRAP => Some (wraps bits (value + incr)) | BFOVERFLOW_SAT => Some lim | BFOVERFLOW_FAIL => None end = store true bits ow (value + incr)).
  { intros lim Hz Hl. unfold store. rewrite fits_false by (cbn; fold P; lia). destruct ow; try done. cbn [max_of min_of]. fold P. by rewrite Hl. }
  assert (Hone : forall r lim, r <> 0 -> P - 1 < value + incr \/ value + incr < - P -> (ow = BFOVERFLOW_SAT -> lim = if value + incr >? P - 1 then P - 1 else - P) ->
    verdict_ok true bits ow (value + incr) match ow with BFOVERFLOW_WRAP => (1, Some (wraps bits (value + incr))) | BFOVERFLOW_SAT => (r, Some lim) | BFOVERFLOW_FAIL => (r, None) end).
  { intros r lim Hr Hz Hl. pose proof (Hst lim Hz Hl) as Hs. destruct ow; apply Hover; done. }
  assert (Hid : forall x, - 2 ^ 63 <= x < 2 ^ 63 -> s64 x = x) by (intros x Hx; apply wraps_id; [lia|]; unfold is_s; change (64 - 1) with 63; lia).
  destruct (Z.eqb_spec bits 64) as [H64|Hn64]; cbn [negb andb].
  - assert (HP64 : P = 2 ^ 63) by (unfold P; by rewrite H64). rewrite !orb_false_r. destruct (Z.gtb_spec value (P - 1)); [lia|]. cbn [orb].
    destruct ((value >=? 0) && (incr >? 0) && (incr >? s64 (P - 1 - value))) eqn:E1.
    { apply andb_prop in E1 as [E1 E3]. apply andb_prop in E1 as [E1 E2]. rewrite Z.geb_leb in E1. apply Z.leb_le in E1. rewrite Z.gtb_lt in E2, E3. rewrite Hid in E3 by lia.
      apply Hone; [done|lia|]. intros _. destruct (Z.gtb_spec (value + incr) (P - 1)); [done|lia]. }
    destruct (Z.ltb_spec value (- P)); [lia|]. cbn [orb]. destruct ((value <? 0) && (incr <? 0) && (incr <? s64 (- P - value))) eqn:E2.
    { apply andb_prop in E2 as [E2 E3]. apply andb_prop in E2 as [E2 E4]. apply Z.ltb_lt in E2, E3, E4. rewrite Hid in E3 by lia.
      apply Hone; [done|lia|]. intros _. destruct (Z.gtb_spec (value + incr) (P - 1)); [lia|done]. }
    apply verdict_fits, fits_true. cbn. fold P.
    destruct (Z.geb_spec value 0), (Z.gtb_spec incr 0), (Z.gtb_spec incr (s64 (P - 1 - value))), (Z.ltb_spec value 0), (Z.ltb_spec incr 0), (Z.ltb_spec incr (s64 (- P - value)));
      cbn in E1, E2; try done; rewrite ?Hid in * by lia; lia.
  - specialize (HP' ltac:(lia)). destruct (fits true bits value) eqn:Ef.
    + unfold fits in Ef. cbn in Ef. fold P in Ef. apply andb_prop in Ef as [F1 F2]. apply Z.leb_le in F1, F2. rewrite !Hid by lia.
      destruct (Z.gtb_spec value (P - 1)); [lia|]. cbn [orb]. destruct (Z.gtb_spec incr (P - 1 - value)); cbn [orb].
      { apply Hone; [done|lia|]. intros _. destruct (Z.gtb_spec (value + incr) (P - 1)); [done|lia]. }
      rewrite andb_false_r. destruct (Z.ltb_spec value (- P)); [lia|]. cbn [orb]. destruct (Z.ltb_spec incr (- P - value)); cbn [orb].
      { apply Hone; [done|lia|]. intros _. destruct (Z.gtb_spec (value + incr) (P - 1)); [lia|done]. }
      rewrite andb_false_r. apply verdict_fits, fits_true. cbn. fold P. lia.
    + destruct Hor as [?|[-> Hsat]]; [done|]. unfold sat_ok in Hsat. fold P in Hsat.
      assert (Hnf : P - 1 < value \/ value < - P).
      { unfold fits in Ef. cbn in Ef. fold P in Ef. destruct (Z.leb_spec (- P) value), (Z.leb_spec value (P - 1)); cbn in Ef; try done; lia. }
      destruct (Z.gtb_spec value (P - 1)) as [Hbig|Hsm]; cbn [orb].
      { apply Hone; [done|lia|]. intros _. destruct (Z.gtb_spec (value + 0) (P - 1)); [done|lia]. }
      change (0 >? 0) with false. rewrite andb_false_r, orb_false_r. cbn [andb]. destruct (Z.gtb_spec 0 (s64 (P - 1 - value))) as [Hneg|Hpos].
      { apply Hone; [done|lia|]. intros E. rewrite Hid in Hneg by (specialize (Hsat E); lia). lia. }
      destruct (Z.ltb_spec value (- P)); [|lia]. cbn [orb]. apply Hone; [done|lia|]. intros _. destruct (Z.gtb_spec (value + 0) (P - 1)); [lia|done].
Qed.

(** ** Fields that do not change *)

Lemma testbit_field f off n k : 0 <= k < Z.of_nat n -> Z.testbit (field f off n) k = f (off + (Z.of_nat n - 1 - k)).
Proof.
  revert k. induction n as [|n IH]; intros k Hk; [lia|]. cbn [field]. destruct (decide (k = 0)) as [->|Hne].
  - rewrite Z.testbit_0_r. f_equal. lia.
  - replace k with (Z.succ (k - 1)) at 1 by lia. rewrite Z.testbit_succ_r by lia. rewrite IH by lia. f_equal. lia.
Qed.

Lemma put_field_mod f off n v w i : 0 <= n -> v mod 2 ^ n = w mod 2 ^ n -> put_field f off n v i = put_field f off n w i.
Proof.
  intros Hn Heq. unfold put_field. destruct (Z.leb_spec off i), (Z.ltb_spec i (off + n)); cbn [andb]; try done.
  rewrite <- (Z.mod_pow2_bits_low v n), <- (Z.mod_pow2_bits_low w n) by lia. by rewrite Heq.
Qed.

Lemma put_field_same f off n i : 0 <= n -> put_field f off n (field f off (Z.to_nat n)) i = f i.
Proof.
  intros Hn. unfold put_field. destruct (Z.leb_spec off i), (Z.ltb_spec i (off + n)); cbn [andb]; try done.
  rewrite testbit_field by lia. f_equal. lia.
Qed.

Lemma wraps_mod z n : 1 <= n -> wraps n z mod 2 ^ n = z mod 2 ^ n.
Proof.
  intros Hn. pose proof (Z.pow_nonzero 2 n). rewrite wraps_low by lia. destruct (_ <? _); [by rewrite Z.mod_mod by lia|].
  rewrite <- (Z.mul_1_l (2 ^ n)) at 2. rewrite <- Z.add_opp_r, <- Z.mul_opp_l, Z.mod_add by lia. by rewrite Z.mod_mod by lia.
Qed.
