(* ===== verification/BitopsThms.v ===== *)
(** * Bit operations: what BITFIELD does

    Executing the operations of a [BITFIELD] command is executing them on an
    unbounded array of bits, with arithmetic on unbounded integers that is
    wrapped, clamped or refused when a result does not fit. *)

From stdpp Require Import base list numbers option tactics.
From S2P Require Import Prelude Util SdsArgs Bitops BitopsSpec.

#[local] Ltac Zify.zify_post_hook ::= Z.to_euclidean_division_equations.

(** ** The specification *)

Definition value_of (op : bitfieldOp) (f : Z -> bool) : Z :=
  let u := field f (bf_offset op) (Z.to_nat (bf_bits op)) in if bf_sign op then wraps (bf_bits op) u else u.

(** The number an operation is to store: for an unsigned field the bits of the
    64-bit argument. *)
Definition wanted (op : bitfieldOp) (old : Z) : Z :=
  match bf_code op with
  | BITFIELDOP_INCRBY => old + bf_i64 op
  | _ => if bf_sign op then bf_i64 op else u64 (bf_i64 op)
  end.

Definition spec_op (op : bitfieldOp) (f : Z -> bool) : bit_reply * (Z -> bool) :=
  let old := value_of op f in
  match bf_code op with
  | BITFIELDOP_GET => (RInt old, f)
  | code =>
      match store (bf_sign op) (bf_bits op) (bf_ow op) (wanted op old) with
      | None => (RNull, f)
      | Some new => (RInt (match code with BITFIELDOP_INCRBY => new | _ => old end), put_field f (bf_offset op) (bf_bits op) (u64 new))
      end
  end.

Fixpoint spec_ops (ops : list bitfieldOp) (f : Z -> bool) : list bit_reply * (Z -> bool) :=
  match ops with
  | [] => ([], f)
  | op :: ops => let '(r, f) := spec_op op f in let '(rs, f) := spec_ops ops f in (r :: rs, f)
  end.

(** The bytes of a value. *)
Definition bytes_of (o : option strobj) : list Z :=
  match o with Some (SdsEncoded s) => s | Some (IntEncoded v) => ll_text v | _ => [] end.

Definition value_ok (o : option strobj) : Prop :=
  match o with Some (SdsEncoded s) => Forall is_byte s | Some (IntEncoded v) => is_s 64 v | Some OtherType => False | None => True end.

(** ** Operations from arguments *)

Definition op_ok (op : bitfieldOp) : Prop :=
  1 <= bf_bits op <= (if bf_sign op then 64 else 63) /\ 0 <= bf_offset op < 2 ^ 63 /\ is_s 64 (bf_i64 op).

Definition writes (op : bitfieldOp) : Prop := bf_code op <> BITFIELDOP_GET.

Lemma string2ll_range s v : string2ll s = Some v -> is_s 64 v.
Proof. intros H. by apply string2ll_iff in H as [? _]. Qed.

Lemma type_arg_ok arg sign bits : getBitfieldTypeFromArgument arg = inr (sign, bits) -> 1 <= bits <= (if sign then 64 else 63).
Proof.
  unfold getBitfieldTypeFromArgument. destruct (c_str arg) as [|c p]; [done|]. destruct (_ || _); [|done]. destruct (string2ll p) as [l|]; [|done].
  destruct (Z.ltb_spec l 1); [done|]. destruct (c =? 105); cbn [andb negb orb]; [destruct (Z.gtb_spec l 64)|destruct (Z.gtb_spec l 63)]; try done; intros [= <- <-]; lia.
Qed.

Section Bitfield.
Context (must_obey : bool) (proto_max_bulk_len : Z).

Lemma offset_arg_ok arg hash bits off : getBitOffsetFromArgument must_obey proto_max_bulk_len arg hash bits = inr off -> 0 <= off < 2 ^ 63.
Proof.
  unfold getBitOffsetFromArgument. set (h := _ && hash && (bits >? 0)).
  assert (Hh : h = true -> 0 < bits) by (unfold h; intros E; apply andb_prop in E as [_ E]; by rewrite Z.gtb_lt in E). clearbody h. destruct (string2ll _) as [l|] eqn:El; [|done].
  apply string2ll_range in El. unfold is_s in El. change (64 - 1) with 63 in El. destruct (Z.ltb_spec l 0); [done|].
  destruct (h && (l >? LLONG_MAX / bits)) eqn:Eh; [done|]. destruct (negb must_obey && _); [done|].
  intros Ho. injection Ho as <-. destruct h; [|lia]. specialize (Hh eq_refl).
  cbn [andb] in Eh. rewrite Z.gtb_ltb, Z.ltb_ge in Eh.
  assert (l * bits <= LLONG_MAX) by (transitivity (LLONG_MAX / bits * bits); [nia|rewrite Z.mul_comm; apply Z.mul_div_le; lia]). change LLONG_MAX with (2 ^ 63 - 1) in *. nia.
Qed.

Definition parsed_ok (ops : list bitfieldOp) (readonly : bool) (high : Z) : Prop :=
  Forall op_ok ops /\ 0 <= high < 2 ^ 64 /\ Forall (fun op => writes op -> readonly = false /\ bf_offset op + bf_bits op - 1 <= high) ops.

Lemma parsed_snoc ops ro high op high' ro' : parsed_ok ops ro high -> op_ok op -> high <= high' < 2 ^ 64 -> (ro = false -> ro' = false) ->
  (writes op -> ro' = false /\ bf_offset op + bf_bits op - 1 <= high') -> parsed_ok (ops ++ [op]) ro' high'.
Proof.
  intros (H1 & H2 & H3) Hop Hh Hro Hw. split; [by apply list.Forall_app; split; [|constructor]|]. split; [lia|]. apply list.Forall_app. split; [|by constructor].
  eapply list.Forall_impl; [exact H3|]. cbn. intros x Hx Hwx. destruct (Hx Hwx) as [? ?]. split; [by apply Hro|lia].
Qed.

Lemma parse_ops_ok n : forall args ow ops ro high ops' ro' high', (length args <= n)%nat -> parsed_ok ops ro high ->
  parse_ops must_obey proto_max_bulk_len args ow ops ro high = inr (ops', ro', high') -> parsed_ok ops' ro' high'.
Proof.
  induction n as [|n IH]; intros args ow ops ro high ops' ro' high' Hn Hok.
  { destruct args; [|cbn in Hn; lia]. cbn. by intros [= <- <- <-]. }
  destruct args as [|sub rest]; [cbn; by intros [= <- <- <-]|]. cbn in Hn. cbn [parse_ops].
  set (opcode := if argeq sub lit_get && _ then _ else _). destruct opcode as [code|] eqn:Ec.
  - destruct rest as [|ty [|off rest]]; [done|done|]. destruct (getBitfieldTypeFromArgument ty) as [|[sign bits]] eqn:Et; [done|].
    destruct (getBitOffsetFromArgument must_obey proto_max_bulk_len off true bits) as [|bitoffset] eqn:Eo; [done|].
    apply type_arg_ok in Et. apply offset_arg_ok in Eo. assert (Hb : bits <= 64) by (destruct sign; lia). pose proof Hok as (_ & Hh & _). cbn in Hn.
    assert (Hput : forall i64, is_s 64 i64 -> op_ok {| bf_offset := bitoffset; bf_i64 := i64; bf_code := code; bf_ow := ow; bf_bits := bits; bf_sign := sign |}) by done.
    rewrite wrapu_id by lia.
    assert (Hsnoc : forall i64, is_s 64 i64 -> parsed_ok (ops ++ [{| bf_offset := bitoffset; bf_i64 := i64; bf_code := code; bf_ow := ow; bf_bits := bits; bf_sign := sign |}]) false
      (if high <? bitoffset + bits - 1 then bitoffset + bits - 1 else high)).
    { intros i64 Hi. apply (parsed_snoc ops ro high); [done|by apply Hput|destruct (Z.ltb_spec high (bitoffset + bits - 1)); lia|done|].
      intros _. split; [done|]. cbn. destruct (Z.ltb_spec high (bitoffset + bits - 1)); lia. }
    destruct code.
    + apply IH; [lia|]. eapply parsed_snoc; try done; lia.
    + destruct rest as [|v rest]; [done|]. destruct (string2ll v) as [i64|] eqn:Ev; [|done]. apply string2ll_range in Ev. cbn in Hn.
      apply IH; [lia|by apply Hsnoc].
    + destruct rest as [|v rest]; [done|]. destruct (string2ll v) as [i64|] eqn:Ev; [|done]. apply string2ll_range in Ev. cbn in Hn.
      apply IH; [lia|by apply Hsnoc].
  - destruct rest as [|name rest]; [done|]. cbn in Hn. destruct (argeq sub lit_overflow); [|done].
    destruct (argeq name lit_wrap); [apply IH; [lia|done]|]. destruct (argeq name lit_sat); [apply IH; [lia|done]|]. destruct (argeq name lit_fail); [apply IH; [lia|done]|done].
Qed.
End Bitfield.

(** ** Executing *)

Lemma value_of_range op f : op_ok op -> if bf_sign op then is_s (bf_bits op) (value_of op f) else 0 <= value_of op f < 2 ^ bf_bits op.
Proof.
  intros ((Hb1 & Hb2) & _). unfold value_of. pose proof (field_bounds f (bf_offset op) (Z.to_nat (bf_bits op))) as Hf. rewrite Z2Nat.id in Hf by lia.
  destruct (bf_sign op); [apply wraps_range; lia|done].
Qed.

(** The argument of a saturating [SET] on a signed field is not too far below it. *)
Definition sat_fine (op : bitfieldOp) : Prop := bf_sign op = true -> bf_code op = BITFIELDOP_SET -> sat_ok (bf_bits op) (bf_ow op) (bf_i64 op).

(** The value computed by the overflow checks is the one to store. *)
Lemma store_range sign bits ow z new : 1 <= bits -> store sign bits ow z = Some new -> fits sign bits new = true.
Proof.
  intros Hb. unfold store. destruct (fits sign bits z) eqn:Ef; [by intros [= <-]|]. pose proof (pow2_split bits ltac:(lia)). pose proof (Z.pow_pos_nonneg 2 (bits - 1)).
  destruct ow; [|intros [= <-]; apply fits_true; destruct sign; cbn [min_of max_of]; destruct (_ >? _); lia|done].
  intros [= <-]. apply fits_true. destruct sign; cbn [min_of max_of]; [pose proof (wraps_range bits z ltac:(lia)) as Hw; unfold is_s in Hw; lia|].
  pose proof (wrapu_range bits z ltac:(lia)). lia.
Qed.

Lemma spec_write op f : writes op -> spec_op op f =
  match store (bf_sign op) (bf_bits op) (bf_ow op) (wanted op (value_of op f)) with
  | None => (RNull, f)
  | Some new => (RInt (match bf_code op with BITFIELDOP_INCRBY => new | _ => value_of op f end), put_field f (bf_offset op) (bf_bits op) (u64 new))
  end.
Proof. unfold writes, spec_op. by destruct (bf_code op). Qed.

Lemma value_of_unchanged op f i : op_ok op -> put_field f (bf_offset op) (bf_bits op) (u64 (value_of op f)) i = f i.
Proof.
  intros ((Hb1 & Hb2) & _). assert (Hb : bf_bits op <= 64) by (destruct (bf_sign op); lia). transitivity (put_field f (bf_offset op) (bf_bits op) (field f (bf_offset op) (Z.to_nat (bf_bits op))) i); [|apply put_field_same; lia].
  apply put_field_mod; [lia|]. unfold wrapu. rewrite mod_64_mod by lia. unfold value_of. destruct (bf_sign op); [|done]. apply wraps_mod. lia.
Qed.

(** The part of a write after the verdict of the check. *)
Lemma write_verdict op old plain (verdict : Z * option Z) : verdict_ok (bf_sign op) (bf_bits op) (bf_ow op) (wanted op old) verdict ->
  (verdict.1 = 0 -> plain = wanted op old) ->
  (negb (verdict.1 =? 0) && bool_decide (bf_ow op = BFOVERFLOW_FAIL) = true /\ store (bf_sign op) (bf_bits op) (bf_ow op) (wanted op old) = None) \/
  (negb (verdict.1 =? 0) && bool_decide (bf_ow op = BFOVERFLOW_FAIL) = false /\ exists new,
     store (bf_sign op) (bf_bits op) (bf_ow op) (wanted op old) = Some new /\ (if negb (verdict.1 =? 0) then verdict.2 else Some plain) = Some new).
Proof.
  intros [H1 H2] Hp. rewrite <- H2. destruct (Z.eqb_spec verdict.1 0) as [E|E]; cbn [negb andb].
  - right. split; [done|]. exists (wanted op old). split; [done|]. by rewrite Hp.
  - assert (Hf : fits (bf_sign op) (bf_bits op) (wanted op old) = false) by (apply not_true_iff_false; tauto).
    unfold store in H2. rewrite Hf in H2. destruct (bf_ow op); cbn; [right|right|left]; rewrite ?H2; split; try done; by eexists.
Qed.

(** Whether an operation counts as a change: a write that is not refused, when the
    command extended the string or the field gets another value. *)
Definition op_changes (grown : bool) (op : bitfieldOp) (f : Z -> bool) : bool :=
  match bf_code op with
  | BITFIELDOP_GET => false
  | _ => match store (bf_sign op) (bf_bits op) (bf_ow op) (wanted op (value_of op f)) with
         | None => false
         | Some new => grown || negb (value_of op f =? new)
         end
  end.

(** The number of changes of a sequence of operations. *)
Fixpoint spec_changes (grown : bool) (ops : list bitfieldOp) (f : Z -> bool) : Z :=
  match ops with
  | [] => 0
  | op :: ops => Z.b2z (op_changes grown op f) + spec_changes grown ops (spec_op op f).2
  end.

(** The result of a write on a string [s]. *)
Definition write_ok (op : bitfieldOp) (grown : bool) (s : list Z) (r : option (list Z * bit_reply * bool)) : Prop :=
  exists s' ch, r = Some (s', (spec_op op (bit s)).1, ch) /\ zlen s' = zlen s /\ Forall is_byte s' /\
    (forall i, bit s' i = (spec_op op (bit s)).2 i) /\ (ch = false -> s' = s) /\ ch = op_changes grown op (bit s).

Lemma write_tail op grown s verdict plain (g : Z -> Z) (put : Z -> option (list Z)) (old := value_of op (bit s)) :
  Forall is_byte s -> op_ok op -> writes op -> bf_offset op + bf_bits op <= 8 * zlen s ->
  verdict_ok (bf_sign op) (bf_bits op) (bf_ow op) (wanted op old) verdict -> (verdict.1 = 0 -> plain = wanted op old) ->
  (forall new, fits (bf_sign op) (bf_bits op) new = true -> put new = setUnsignedBitfield s (bf_offset op) (bf_bits op) (u64 new) /\ g new = new) -> g old = old ->
  write_ok op grown s (if negb (verdict.1 =? 0) && bool_decide (bf_ow op = BFOVERFLOW_FAIL) then Some (s, RNull, false)
    else newval ← (if negb (verdict.1 =? 0) then verdict.2 else Some plain);
         s ← put newval;
         Some (s, RInt (g (match bf_code op with BITFIELDOP_INCRBY => newval | _ => old end)), grown || negb (old =? newval))).
Proof.
  intros Hs Hop Hw Hlen Hvd Hplain Hput Hold. pose proof Hop as ((Hb1 & Hb2) & Ho & Hi). assert (Hb : bf_bits op <= 64) by (destruct (bf_sign op); lia).
  unfold write_ok. rewrite spec_write by done. fold old.
  assert (Hchg : op_changes grown op (bit s) = match store (bf_sign op) (bf_bits op) (bf_ow op) (wanted op old) with None => false | Some new => grown || negb (old =? new) end)
    by (unfold op_changes, writes in *; by destruct (bf_code op)). rewrite Hchg.
  destruct (write_verdict op old plain verdict Hvd Hplain) as [[Hf Hst]|(Hf & new & Hst & Hnew)]; rewrite Hst, Hf.
  - exists s, false. by split_and!.
  - rewrite Hnew. cbn [mbind option_bind]. destruct (Hput new (store_range _ _ _ _ _ Hb1 Hst)) as [-> Hg].
    destruct (setUnsignedBitfield_ok s (bf_offset op) (bf_bits op) (u64 new) Hs) as (s' & H1 & H2 & H3 & H4); [lia..|apply wrapu_range; lia|].
    rewrite H1. cbn [mbind option_bind]. exists s', (grown || negb (old =? new)). split; [by destruct (bf_code op); cbn; rewrite ?Hold, ?Hg|]. do 3 (split; [done|]). split; [|done].
    intros Hch. apply orb_false_elim in Hch as [_ Hch]. apply negb_false_iff, Z.eqb_eq in Hch.
    apply bits_ext; [done|done|done|]. intros i _. rewrite H4, <- Hch. by apply value_of_unchanged.
Qed.

Lemma exec_write_ok op grown s : Forall is_byte s -> op_ok op -> writes op -> sat_fine op -> bf_offset op + bf_bits op <= 8 * zlen s ->
  write_ok op grown s (exec_write op grown s).
Proof.
  intros Hs Hop Hw Hsat Hlen. pose proof (value_of_range op (bit s) Hop) as Hr. pose proof Hop as ((Hb1 & Hb2) & Ho & Hi).
  assert (Hp : 2 ^ (bf_bits op - 1) <= 2 ^ (64 - 1)) by (apply Z.pow_le_mono_r; destruct (bf_sign op); lia).
  unfold exec_write. destruct (bf_sign op) eqn:Es.
  - rewrite getSignedBitfield_ok by lia. replace (wraps _ _) with (value_of op (bit s)) by (unfold value_of; by rewrite Es). cbn [mbind option_bind]. set (old := value_of op (bit s)) in *.
    set (vd := match bf_code op with BITFIELDOP_INCRBY => checkSignedBitfieldOverflow old (bf_i64 op) (bf_bits op) (bf_ow op) | _ => checkSignedBitfieldOverflow (bf_i64 op) 0 (bf_bits op) (bf_ow op) end).
    set (plain := match bf_code op with BITFIELDOP_INCRBY => s64 (old + bf_i64 op) | _ => bf_i64 op end).
    replace (match bf_code op with BITFIELDOP_INCRBY => _ | _ => _ end) with (vd, plain) by (unfold vd, plain; by destruct (bf_code op)).
    assert (Hvd : verdict_ok (bf_sign op) (bf_bits op) (bf_ow op) (wanted op old) vd).
    { unfold vd, wanted. rewrite Es. destruct (bf_code op) eqn:Ec; [done| |].
      - rewrite <- (Z.add_0_r (bf_i64 op)) at 1. apply checkSigned_ok; [lia|done|unfold is_s; lia|]. right. split; [done|]. by apply Hsat.
      - apply checkSigned_ok; [lia|unfold is_s in *; lia|done|]. left. apply fits_true. unfold is_s in Hr. cbn. lia. }
    rewrite (surjective_pairing vd). apply (write_tail op grown s vd plain (fun x => x)); try done.
    + intros E. apply Hvd in E. unfold plain, wanted in *. rewrite Es in *. destruct (bf_code op); try done. apply wraps_id; [lia|].
      unfold fits in E. cbn [min_of max_of] in E. apply andb_prop in E as [E1 E2]. apply Z.leb_le in E1, E2. unfold is_s. lia.
  - rewrite getUnsignedBitfield_ok by lia. replace (field _ _ _) with (value_of op (bit s)) by (unfold value_of; by rewrite Es). cbn [mbind option_bind]. set (old := value_of op (bit s)) in *.
    set (vd := match bf_code op with BITFIELDOP_INCRBY => checkUnsignedBitfieldOverflow old (bf_i64 op) (bf_bits op) (bf_ow op) | _ => checkUnsignedBitfieldOverflow (u64 (bf_i64 op)) 0 (bf_bits op) (bf_ow op) end).
    set (plain := match bf_code op with BITFIELDOP_INCRBY => u64 (old + bf_i64 op) | _ => u64 (bf_i64 op) end).
    replace (match bf_code op with BITFIELDOP_INCRBY => _ | _ => _ end) with (vd, plain) by (unfold vd, plain; by destruct (bf_code op)).
    assert (Hp63 : 2 ^ bf_bits op <= 2 ^ 63) by (apply Z.pow_le_mono_r; lia).
    assert (Hvd : verdict_ok (bf_sign op) (bf_bits op) (bf_ow op) (wanted op old) vd).
    { unfold vd, wanted. rewrite Es. destruct (bf_code op) eqn:Ec; [done| |].
      - rewrite <- (Z.add_0_r (u64 (bf_i64 op))) at 1. apply checkUnsigned_ok; [lia|apply wrapu_range; lia|unfold is_s; lia|by right].
      - apply checkUnsigned_ok; [lia|lia|done|left; lia]. }
    assert (Hs64 : forall new, fits (bf_sign op) (bf_bits op) new = true -> u64 new = new /\ s64 new = new).
    { intros new E. rewrite Es in E. unfold fits in E. cbn [min_of max_of] in E. apply andb_prop in E as [E1 E2]. apply Z.leb_le in E1, E2.
      split; [apply wrapu_id; lia|]. apply wraps_id; [lia|]. unfold is_s. change (64 - 1) with 63. lia. }
    rewrite (surjective_pairing vd). apply (write_tail op grown s vd plain s64); try done.
    + intros E. pose proof (proj1 (proj1 Hvd) E) as E'. unfold plain, wanted in *. rewrite Es in *. destruct (bf_code op); try done. by apply (Hs64 _).
    + intros new E. destruct (Hs64 new E) as [E1 E2]. by rewrite E1.
    + apply Hs64. rewrite Es. apply fits_true. cbn. lia.
Qed.

(** Reading through the copy of nine bytes. *)
Lemma copy9_ok s byte n : 0 <= byte -> byte + 9 < 2 ^ 64 -> forall i buf, 0 <= i -> i + Z.of_nat n = 9 -> zlen buf = 9 -> Forall is_byte buf -> Forall is_byte s ->
  exists buf', copy9 n (Some s) i byte buf = Some buf' /\ zlen buf' = 9 /\
    forall k, 0 <= k < 9 -> rd buf' k = if k <? i then rd buf k else match rd s (byte + k) with Some b => Some b | None => rd buf k end.
Proof.
  intros Hb0 Hb1. induction n as [|n IH]; intros i buf Hi Hn Hz Hbuf Hs; cbn [copy9].
  { exists buf. do 2 (split; [done|]). intros k Hk. rewrite (proj2 (Z.ltb_lt k i)) by lia. done. }
  rewrite wrapu_id by lia. destruct (Z.geb_spec (i + byte) (zlen s)) as [Hge|Hlt].
  - exists buf. do 2 (split; [done|]). intros k Hk. destruct (Z.ltb_spec k i); [done|]. rewrite (rd_None s (byte + k)) by lia. done.
  - destruct (rd_Some s (i + byte)) as [b Hb]; [lia|]. rewrite Hb. cbn [mbind option_bind]. pose proof (byte_of _ _ _ Hs Hb) as Hbb.
    destruct (wr_byte_bits buf i b ltac:(lia) Hbb Hbuf) as (buf1 & -> & Hz1 & Hbuf1 & Hrd1). cbn [mbind option_bind].
    destruct (IH (i + 1) buf1 ltac:(lia) ltac:(lia) ltac:(lia) Hbuf1 Hs) as (buf' & -> & Hz' & Hrd'). exists buf'. do 2 (split; [done|]).
    intros k Hk. rewrite Hrd', Hrd1 by done. destruct (Z.ltb_spec k (i + 1)), (Z.ltb_spec k i), (Z.eqb_spec k i); try lia; try done.
    subst k. by rewrite Z.add_comm, Hb.
Qed.

Lemma exec_get_ok op src : op_ok op -> Forall is_byte (default [] src) -> bf_code op = BITFIELDOP_GET ->
  exec_get op src = Some (RInt (value_of op (bit (default [] src)))).
Proof.
  intros ((Hb1 & Hb2) & Ho & Hi) Hs Hc. unfold exec_get. rewrite shiftr3. set (byte := bf_offset op / 8).
  assert (Hcopy : exists buf, copy9 9 src 0 byte (replicate 9 0) = Some buf /\ zlen buf = 9 /\ forall j, 0 <= j < 72 -> bit buf j = bit (default [] src) (8 * byte + j)).
  { assert (Hz : Forall is_byte (replicate 9 0)) by (by apply Forall_replicate). destruct src as [s|]; cbn [default] in *.
    - destruct (copy9_ok s byte 9 ltac:(unfold byte; lia) ltac:(unfold byte; lia) 0 (replicate 9 0) ltac:(lia) ltac:(lia) eq_refl Hz Hs) as (buf & -> & Hl & Hrd).
      exists buf. do 2 (split; [done|]). intros j Hj. unfold bit. rewrite Hrd by lia. rewrite (proj2 (Z.ltb_ge (j / 8) 0)) by lia.
      destruct (div8_add byte j) as [-> ->]. 
      unfold id. destruct (rd s (byte + j / 8)); [done|].
      rewrite rd_lookup, lookup_replicate_2 by lia. apply Z.bits_0.
    - exists (replicate 9 0). do 2 (split; [done|]). intros j Hj. unfold bit. rewrite rd_lookup, lookup_replicate_2 by lia. rewrite rd_None by (change (zlen (@nil Z)) with 0; lia). apply Z.bits_0. }
  destruct Hcopy as (buf & -> & Hl & Hbit). cbn [mbind option_bind]. assert (Hbits : bf_bits op <= 64) by (destruct (bf_sign op); lia).
  rewrite (wrapu_id 64 (byte * 8)) by (unfold byte; lia). rewrite wrapu_id by (unfold byte; lia). replace (bf_offset op - byte * 8) with (bf_offset op mod 8) by (unfold byte; lia).
  assert (Hf : field (bit buf) (bf_offset op mod 8) (Z.to_nat (bf_bits op)) = field (bit (default [] src)) (bf_offset op) (Z.to_nat (bf_bits op))).
  { rewrite (field_ext _ (fun i => bit (default [] src) (i + 8 * byte))) by (intros i Hi'; rewrite Hbit by lia; f_equal; lia). rewrite field_shift. f_equal. unfold byte. lia. }
  unfold value_of. destruct (bf_sign op).
  - rewrite getSignedBitfield_ok by lia. cbn [mbind option_bind]. by rewrite Hf.
  - rewrite getUnsignedBitfield_ok by lia. cbn [mbind option_bind]. rewrite Hf. do 2 f_equal. apply wraps_id; [lia|].
    pose proof (field_bounds (bit (default [] src)) (bf_offset op) (Z.to_nat (bf_bits op))) as Hfb. rewrite Z2Nat.id in Hfb by lia.
    assert (2 ^ bf_bits op <= 2 ^ 63) by (apply Z.pow_le_mono_r; lia). unfold is_s. change (64 - 1) with 63. lia.
Qed.

(** The specification looks at bits only. *)
Lemma value_of_ext op f g : op_ok op -> (forall i, 0 <= i -> f i = g i) -> value_of op f = value_of op g.
Proof. intros (_ & Ho & _) Hfg. unfold value_of. rewrite (field_ext f g) by (intros i Hi; apply Hfg; lia). done. Qed.

Lemma spec_op_ext op f g : op_ok op -> (forall i, 0 <= i -> f i = g i) -> (spec_op op f).1 = (spec_op op g).1 /\ forall i, 0 <= i -> (spec_op op f).2 i = (spec_op op g).2 i.
Proof.
  intros Hop Hfg. unfold spec_op. rewrite (value_of_ext op f g Hop Hfg).
  assert (Hput : forall v i, 0 <= i -> put_field f (bf_offset op) (bf_bits op) v i = put_field g (bf_offset op) (bf_bits op) v i) by (intros v i Hi; unfold put_field; destruct (_ && _); auto).
  destruct (bf_code op); [by split|destruct (store _ _ _ _); (split; [done|]); cbn; auto..].
Qed.

Lemma spec_ops_ext ops : forall f g, Forall op_ok ops -> (forall i, 0 <= i -> f i = g i) -> (spec_ops ops f).1 = (spec_ops ops g).1 /\ forall i, 0 <= i -> (spec_ops ops f).2 i = (spec_ops ops g).2 i.
Proof.
  induction ops as [|op ops IH]; intros f g Hok Hfg; [by split|]. apply list.Forall_cons in Hok as [Hop Hok]. cbn [spec_ops].
  destruct (spec_op_ext op f g Hop Hfg) as [H1 H2]. destruct (spec_op op f) as [r1 f1], (spec_op op g) as [r2 g1]. cbn in H1, H2. subst r2.
  destruct (IH f1 g1 Hok H2) as [H3 H4]. destruct (spec_ops ops f1), (spec_ops ops g1). cbn in *. by subst.
Qed.

Lemma op_changes_ext grown op f g : op_ok op -> (forall i, 0 <= i -> f i = g i) -> op_changes grown op f = op_changes grown op g.
Proof. intros Hop Hfg. unfold op_changes. by rewrite (value_of_ext op f g Hop Hfg). Qed.

Lemma spec_changes_ext grown ops : forall f g, Forall op_ok ops -> (forall i, 0 <= i -> f i = g i) -> spec_changes grown ops f = spec_changes grown ops g.
Proof.
  induction ops as [|op ops IH]; intros f g Hok Hfg; [done|]. apply list.Forall_cons in Hok as [Hop Hok]. cbn [spec_changes].
  rewrite (op_changes_ext grown op f g Hop Hfg). f_equal. apply IH; [done|]. by apply spec_op_ext.
Qed.

Lemma exec_ops_ok ops grown : forall s replies changes, Forall is_byte s -> Forall op_ok ops -> Forall sat_fine ops -> 0 <= changes ->
  Forall (fun op => writes op -> bf_offset op + bf_bits op <= 8 * zlen s) ops ->
  exists s' changes', exec_ops ops grown s replies changes = Some (s', replies ++ (spec_ops ops (bit s)).1, changes') /\ zlen s' = zlen s /\ Forall is_byte s' /\
    (forall i, 0 <= i -> bit s' i = (spec_ops ops (bit s)).2 i) /\ changes' = changes + spec_changes grown ops (bit s) /\ changes <= changes' /\ (changes' = changes -> s' = s).
Proof.
  induction ops as [|op ops IH]; intros s replies changes Hs Hok Hsat Hch Hlen; cbn [exec_ops].
  { exists s, changes. rewrite app_nil_r. split; [done|]. do 3 (split; [done|]). cbn [spec_changes]. split; [lia|]. split; [lia|done]. }
  apply list.Forall_cons in Hok as [Hop Hok]. apply list.Forall_cons in Hsat as [Hsop Hsat]. apply list.Forall_cons in Hlen as [Hl Hlen].
  assert (Hwrite : writes op -> exists s' changes', ('(s, r, ch) ← exec_write op grown s; exec_ops ops grown s (replies ++ [r]) (if (ch : bool) then changes + 1 else changes)) =
      Some (s', replies ++ (spec_ops (op :: ops) (bit s)).1, changes') /\ zlen s' = zlen s /\ Forall is_byte s' /\
    (forall i, 0 <= i -> bit s' i = (spec_ops (op :: ops) (bit s)).2 i) /\ changes' = changes + spec_changes grown (op :: ops) (bit s) /\ changes <= changes' /\ (changes' = changes -> s' = s)).
  { intros Hw. destruct (exec_write_ok op grown s Hs Hop Hw Hsop (Hl Hw)) as (s1 & ch & -> & Hz1 & Hs1 & Hb1 & Hch1 & Hcc). cbn [mbind option_bind]. cbn [spec_ops spec_changes]. rewrite <- Hcc.
    rewrite <- (spec_changes_ext grown ops (bit s1) _ Hok (fun i _ => Hb1 i)).
    destruct (spec_op op (bit s)) as [r f1]. cbn [fst snd] in *. set (n := if ch then changes + 1 else changes).
    assert (Hn : changes <= n /\ n = changes + Z.b2z ch /\ (n = changes -> s1 = s)) by (unfold n; destruct ch; cbn [Z.b2z]; split_and!; [lia..|auto]).
    destruct (IH s1 (replies ++ [r]) n Hs1 Hok Hsat ltac:(lia)) as (s' & ch' & -> & Hz' & Hs' & Hb' & Hcnt & Hle & Heq); [by rewrite Hz1|].
    destruct (spec_ops_ext ops (bit s1) f1 Hok (fun i _ => Hb1 i)) as [H1 H2]. destruct (spec_ops ops (bit s1)) as [rs1 g1], (spec_ops ops f1) as [rs2 g2]. cbn [fst snd] in *. subst rs2.
    exists s', ch'. rewrite <- app_assoc. split; [done|]. split; [lia|]. split; [done|]. split; [intros i Hi; by rewrite Hb', H2|]. do 2 (split; [lia|]).
    intros E. rewrite Heq by lia. apply Hn. lia. }
  destruct (bf_code op) eqn:Ec; [|apply Hwrite; unfold writes; by rewrite Ec..].
  rewrite (exec_get_ok op (Some s) Hop Hs Ec). change (default [] (Some s)) with s. cbn [mbind option_bind]. cbn [spec_ops spec_changes]. unfold spec_op at 1 2 3, op_changes. rewrite Ec. cbn [Z.b2z snd]. rewrite Z.add_0_l.
  destruct (IH s (replies ++ [RInt (value_of op (bit s))]) changes Hs Hok Hsat Hch Hlen) as (s' & ch' & -> & Hz' & Hs' & Hb' & Hcnt & Hle & Heq).
  destruct (spec_ops ops (bit s)) as [rs f]. exists s', ch'. by rewrite <- app_assoc.
Qed.

Lemma exec_reads_ok ops src : forall replies, Forall is_byte (default [] src) -> Forall op_ok ops -> Forall (fun op => ~ writes op) ops ->
  exec_reads ops src replies = Some (replies ++ (spec_ops ops (bit (default [] src))).1) /\ (spec_ops ops (bit (default [] src))).2 = bit (default [] src).
Proof.
  induction ops as [|op ops IH]; intros replies Hs Hok Hro; cbn [exec_reads]; [by rewrite app_nil_r|].
  apply list.Forall_cons in Hok as [Hop Hok]. apply list.Forall_cons in Hro as [Hr Hro]. assert (Ec : bf_code op = BITFIELDOP_GET) by (unfold writes in Hr; destruct (bf_code op); [done|by destruct Hr..]).
  rewrite (exec_get_ok op src Hop Hs Ec). cbn [mbind option_bind spec_ops]. unfold spec_op at 1 2. rewrite Ec.
  destruct (IH (replies ++ [RInt (value_of op (bit (default [] src)))]) Hs Hok Hro) as [-> H2]. destruct (spec_ops ops (bit (default [] src))). cbn [fst snd] in *. by rewrite <- app_assoc.
Qed.

(** ** Values *)

Lemma int_text_ok v : is_s 64 v -> int_text v = Some (ll_text v).
Proof.
  intros Hv. unfold int_text. pose proof (zlen_ll_text v Hv) as Hl. unfold LONG_STR_SIZE in *.
  pose proof (ll2string_ok [] (replicate 21 0) [] v Hv) as H. cbn [app] in H. rewrite app_nil_r in H. change (zlen (@nil Z)) with 0 in H. change (zlen (replicate 21 0)) with 21 in H.
  rewrite H by lia. cbn [mbind option_bind]. f_equal. unfold zlen. rewrite Nat2Z.id, app_nil_r. apply take_app_length.
Qed.

Lemma bytes_of_bytes o : value_ok o -> Forall is_byte (bytes_of o).
Proof. destruct o as [[s|v|]|]; cbn; [done|intros _; apply ll_text_bytes|done|by constructor]. Qed.

Lemma bit_growzero s n i : bit (sdsgrowzero s n) i = bit s i.
Proof.
  unfold bit, sdsgrowzero. destruct (decide (i / 8 < zlen s)); [by rewrite rd_app_l|]. rewrite rd_app_r, (rd_None s) by lia.
  destruct (rd _ _) eqn:E; [|done]. rewrite rd_lookup in E by lia. apply lookup_replicate in E as [-> _]. apply Z.bits_0.
Qed.

Lemma zlen_growzero s n : zlen (sdsgrowzero s n) = Z.max (zlen s) n.
Proof. unfold sdsgrowzero, zlen. rewrite length_app, length_replicate. unfold zlen. lia. Qed.

Lemma growzero_bytes s n : Forall is_byte s -> Forall is_byte (sdsgrowzero s n).
Proof. intros Hs. apply list.Forall_app. split; [done|]. by apply Forall_replicate. Qed.

Lemma lookup_ok o high : value_ok o -> exists old, lookupStringForBitCommand o high = Some (inr (sdsgrowzero (bytes_of o) (high / 8 + 1), old, zlen (sdsgrowzero (bytes_of o) (high / 8 + 1)) - zlen (bytes_of o))) \/
  (o = None /\ high < 0).
Proof.
  intros Ho. unfold lookupStringForBitCommand. rewrite shiftr3. destruct o as [[s|v|]|]; cbn in Ho.
  - eexists. by left.
  - rewrite int_text_ok by done. eexists. by left.
  - done.
  - exists 0. destruct (decide (high < 0)); [by right|left]. cbn [bytes_of]. rewrite zlen_growzero. change (zlen (@nil Z)) with 0. unfold sdsgrowzero. cbn [app]. change (zlen (@nil Z)) with 0.
    rewrite Z.sub_0_r, Z.max_r by lia. by rewrite Z.sub_0_r.
Qed.

Section Bitfield_theorems.
Context (must_obey : bool) (proto_max_bulk_len : Z).

Lemma parse_from_start args ops ro high : parse_ops must_obey proto_max_bulk_len args BFOVERFLOW_WRAP [] true 0 = inr (ops, ro, high) -> parsed_ok ops ro high.
Proof. apply (parse_ops_ok must_obey proto_max_bulk_len (length args)); [done|]. split; [done|]. split; [lia|done]. Qed.

(** C26: [BITFIELD] executes its operations in order as on an unbounded array of
    bits: each reply and the bits left in the string are those of the
    specification, for fields of every width and offset, signed or not, past the
    end of the string, with wrapping, saturating and failing overflow; values
    encoded as integers are read by their decimal text.  A command of reads
    leaves the value alone; a command with writes counts as changes the writes
    that are not refused and that give their field another value, or all of those
    that are not refused when the string was extended, and when it counts none it
    has changed no byte.  The hypothesis [sat_fine]: the argument of a saturating
    [SET] of a signed field is at least [2^(bits-1) - 2^63]. *)
Theorem bitfield_refines o args ops readonly high :
  value_ok o -> parse_ops must_obey proto_max_bulk_len args BFOVERFLOW_WRAP [] true 0 = inr (ops, readonly, high) -> Forall sat_fine ops ->
  exists o' changes, bitfieldGeneric must_obey proto_max_bulk_len false o args = Some (inr (o', (spec_ops ops (bit (bytes_of o))).1, changes)) /\
    (forall i, 0 <= i -> bit (bytes_of o') i = (spec_ops ops (bit (bytes_of o))).2 i) /\ value_ok o' /\
    (if readonly then o' = o /\ changes = 0
     else zlen (bytes_of o') = Z.max (zlen (bytes_of o)) (high / 8 + 1) /\
       changes = spec_changes (zlen (bytes_of o) <? high / 8 + 1) ops (bit (bytes_of o)) /\
       (changes = 0 -> bytes_of o' = sdsgrowzero (bytes_of o) (high / 8 + 1))).
Proof.
  intros Ho Hparse Hsat. pose proof (parse_from_start _ _ _ _ Hparse) as (Hops & Hh & Hw). unfold bitfieldGeneric. rewrite Hparse. destruct readonly.
  - rewrite bool_decide_false by (by intros ->). assert (Hsrc : exists src, getObjectReadOnlyString o = Some src /\ default [] src = bytes_of o).
    { destruct o as [[s|v|]|]; cbn in *; [by eexists|rewrite int_text_ok by done; by eexists|done|by eexists]. }
    destruct Hsrc as (src & -> & Hd). cbn [mbind option_bind].
    destruct (exec_reads_ok ops src []) as [-> H2]; [rewrite Hd; by apply bytes_of_bytes|done|eapply list.Forall_impl; [exact Hw|]; cbn; intros op Hop Hwr; by destruct (Hop Hwr)|].
    cbn [mbind option_bind app]. rewrite Hd in *. exists o, 0. split; [done|]. split; [by rewrite H2|done].
  - destruct (lookup_ok o high Ho) as (old & [->|[_ ?]]); [|lia]. cbn [mbind option_bind]. set (s := sdsgrowzero _ _). set (grown := negb _).
    assert (Hz : zlen s = Z.max (zlen (bytes_of o)) (high / 8 + 1)) by apply zlen_growzero.
    destruct (exec_ops_ok ops grown s [] 0) as (s' & ch & -> & Hz' & Hs' & Hb' & Hcnt & Hle & Heq); [by apply growzero_bytes, bytes_of_bytes|done|done|lia| |].
    { eapply list.Forall_impl; [exact Hw|]. cbn. intros op Hop Hwr. destruct (Hop Hwr) as [_ Hhi]. lia. }
    cbn [mbind option_bind app]. destruct (spec_ops_ext ops (bit s) (bit (bytes_of o)) Hops (fun i _ => bit_growzero _ _ i)) as [-> H2].
    exists (Some (SdsEncoded s')), ch. split; [done|]. split; [intros i Hi; cbn [bytes_of]; by rewrite Hb', H2|]. split; [done|]. cbn [bytes_of]. split; [lia|]. split; [|by intros ->; apply Heq].
    rewrite Hcnt, (spec_changes_ext grown ops (bit s) (bit (bytes_of o)) Hops (fun i _ => bit_growzero _ _ i)), Z.add_0_l. f_equal. unfold grown.
    destruct (Z.ltb_spec (zlen (bytes_of o)) (high / 8 + 1)), (Z.eqb_spec (zlen s - zlen (bytes_of o)) 0); cbn; try done; lia.
Qed.
End Bitfield_theorems.

(** [OVERFLOW SAT SET i8 4 -200 INCRBY u4 #1 9 OVERFLOW FAIL INCRBY u2 100 4 GET i5 4]
    on a value encoded as the integer 42. *)
Definition sample_args : list (list Z) :=
  [[79; 86; 69; 82; 70; 76; 79; 87]; [83; 65; 84]; lit_set; [105; 56]; [52]; [45; 50; 48; 48];
   lit_incrby; [117; 52]; [35; 49]; [57]; lit_overflow; lit_fail; lit_incrby; [117; 50]; [49; 48; 48]; [52]; lit_get; [105; 53]; [52]].
Definition sample_ops : list bitfieldOp :=
  match parse_ops false 512 sample_args BFOVERFLOW_WRAP [] true 0 with inr (ops, _, _) => ops | inl _ => [] end.

Lemma bitfield_refines_witness : exists o' changes,
  bitfieldGeneric false 512 false (Some (IntEncoded 42)) sample_args = Some (inr (o', (spec_ops sample_ops (bit [52; 50])).1, changes)) /\
  (forall i, 0 <= i -> bit (bytes_of o') i = (spec_ops sample_ops (bit [52; 50])).2 i) /\ value_ok o' /\
  zlen (bytes_of o') = 13 /\ changes = spec_changes true sample_ops (bit [52; 50]) /\ (changes = 0 -> bytes_of o' = sdsgrowzero [52; 50] 13).
Proof.
  apply (bitfield_refines false 512 (Some (IntEncoded 42)) sample_args sample_ops false 101).
  - cbn. unfold is_s. lia.
  - vm_compute. reflexivity.
  - let l := eval vm_compute in sample_ops in change sample_ops with l. unfold sat_fine, sat_ok.
    repeat (apply list.Forall_cons; split; [cbn [bf_sign bf_code bf_ow bf_bits bf_i64]; intros; first [discriminate|lia]|]). by constructor.
Defined.

(** Where saturating fails: the check takes the branch of values that are too large. *)
Lemma checkSigned_flips value bits : 1 <= bits < 64 -> - 2 ^ 63 <= value < 2 ^ (bits - 1) - 2 ^ 63 ->
  checkSignedBitfieldOverflow value 0 bits BFOVERFLOW_SAT = (1, Some (max_of true bits)) /\
  store true bits BFOVERFLOW_SAT value = Some (min_of true bits).
Proof.
  intros Hb Hv. assert (HP : 1 <= 2 ^ (bits - 1) <= 2 ^ 62) by (split; [pose proof (Z.pow_pos_nonneg 2 (bits - 1)); lia|apply Z.pow_le_mono_r; lia]). split.
  - unfold checkSignedBitfieldOverflow. rewrite (proj2 (Z.eqb_neq bits 64)) by lia. cbn [negb andb]. rewrite Z.shiftl_1_l. set (P := 2 ^ (bits - 1)) in *.
    rewrite (wraps_wrapu 64) by lia. assert (Hm : s64 (P - 1 - value) = P - 1 - value - 2 ^ 64).
    { rewrite wraps_low by lia. rewrite Z.mod_small by lia. change (64 - 1) with 63. by rewrite (proj2 (Z.ltb_ge _ _)) by lia. }
    rewrite Hm. destruct (Z.gtb_spec 0 (P - 1 - value - 2 ^ 64)); [|lia]. rewrite orb_true_r. cbn [orb]. done.
  - unfold store. rewrite fits_false by (cbn; lia). cbn [max_of min_of]. destruct (Z.gtb_spec value (2 ^ (bits - 1) - 1)); [lia|done].
Qed.

(** A field that was put is read back. *)
Lemma value_of_put op f new : op_ok op -> fits (bf_sign op) (bf_bits op) new = true -> value_of op (put_field f (bf_offset op) (bf_bits op) (u64 new)) = new.
Proof.
  intros ((Hb1 & Hb2) & _) Hf. assert (Hb : bf_bits op <= 64) by (destruct (bf_sign op); lia). pose proof (wrapu_range 64 new ltac:(lia)) as Hu. unfold fits in Hf. apply andb_prop in Hf as [Hf1 Hf2]. apply Z.leb_le in Hf1, Hf2.
  assert (Hfield : field (put_field f (bf_offset op) (bf_bits op) (u64 new)) (bf_offset op) (Z.to_nat (bf_bits op)) = new mod 2 ^ bf_bits op).
  { rewrite <- (Z2Nat.id (bf_bits op)) at 1 by lia. rewrite field_put, Z2Nat.id by lia. unfold wrapu. by rewrite mod_64_mod by lia. }
  unfold value_of. rewrite Hfield. change (new mod 2 ^ bf_bits op) with (wrapu (bf_bits op) new). pose proof (pow2_split (bf_bits op) ltac:(lia)).
  destruct (bf_sign op); cbn [min_of max_of] in Hf1, Hf2; [rewrite wraps_wrapu by lia; apply wraps_id; [lia|unfold is_s; lia]|apply wrapu_id; lia].
Qed.

(** C30: Saturating [SET] on a signed field of less than 64 bits does not saturate
    for the lowest arguments: [BITFIELD] with such an operation, on any string, on
    an integer value or on a missing key, replies the old value and leaves in the
    field its highest value, where the lowest one is asked for. *)
Theorem bitfield_sat_set_flips must_obey proto_max_bulk_len o args op high :
  value_ok o -> parse_ops must_obey proto_max_bulk_len args BFOVERFLOW_WRAP [] true 0 = inr ([op], false, high) ->
  bf_code op = BITFIELDOP_SET -> bf_sign op = true -> bf_ow op = BFOVERFLOW_SAT -> bf_bits op < 64 -> bf_i64 op < 2 ^ (bf_bits op - 1) - 2 ^ 63 ->
  exists o' changes, bitfieldGeneric must_obey proto_max_bulk_len false o args = Some (inr (o', [RInt (value_of op (bit (bytes_of o)))], changes)) /\
    value_of op (bit (bytes_of o')) = max_of true (bf_bits op) /\
    value_of op (spec_op op (bit (bytes_of o))).2 = min_of true (bf_bits op).
Proof.
  intros Ho Hparse Hc Hs How Hlt Hv. pose proof (parse_from_start _ _ _ _ _ _ Hparse) as (Hops & Hh & Hw). apply list.Forall_cons in Hops as [Hop _]. apply list.Forall_cons in Hw as [Hw _].
  assert (Hwr : writes op) by (unfold writes; by rewrite Hc). destruct (Hw Hwr) as [_ Hhi]. pose proof Hop as ((Hb1 & _) & Hoff & Hi). unfold is_s in Hi.
  destruct (checkSigned_flips (bf_i64 op) (bf_bits op) ltac:(lia) ltac:(lia)) as [Hchk Hst].
  assert (Hfit : forall v, min_of true (bf_bits op) <= v <= max_of true (bf_bits op) -> fits (bf_sign op) (bf_bits op) v = true) by (intros v Hv'; rewrite Hs; by apply fits_true).
  assert (HP : 1 <= 2 ^ (bf_bits op - 1)) by (pose proof (Z.pow_pos_nonneg 2 (bf_bits op - 1)); lia).
  unfold bitfieldGeneric. rewrite Hparse. destruct (lookup_ok o high Ho) as (old & [->|[_ ?]]); [|lia]. cbn [mbind option_bind]. set (s := sdsgrowzero _ _). set (grown := negb _).
  assert (Hz : zlen s = Z.max (zlen (bytes_of o)) (high / 8 + 1)) by apply zlen_growzero. assert (Hby : Forall is_byte s) by (by apply growzero_bytes, bytes_of_bytes).
  cbn [exec_ops]. rewrite Hc. unfold exec_write. rewrite Hs, Hc, How, getSignedBitfield_ok by lia. cbn [mbind option_bind]. rewrite Hchk. cbn [Z.eqb negb andb mbind option_bind]. unfold setSignedBitfield.
  destruct (setUnsignedBitfield_ok s (bf_offset op) (bf_bits op) (u64 (max_of true (bf_bits op)))) as (s' & H1 & _ & _ & H4); [done|lia..|apply wrapu_range; lia|].
  rewrite H1. cbn [mbind option_bind exec_ops app]. eexists _, _. split; [|split].
  - do 5 f_equal. rewrite <- (value_of_ext op (bit s) _ Hop (fun i _ => bit_growzero _ _ i)). unfold value_of. by rewrite Hs.
  - cbn [bytes_of]. rewrite (value_of_ext op (bit s') _ Hop (fun i _ => H4 i)). apply value_of_put; [done|]. apply Hfit. cbn. lia.
  - rewrite spec_write by done. unfold wanted. rewrite Hc, Hs, How, Hst. cbn [snd]. rewrite <- Hs. rewrite value_of_put; [by rewrite Hs|done|apply Hfit; cbn; rewrite Hs; cbn; lia].
Qed.

(** [OVERFLOW SAT SET i8 4 -9223372036854775808] on a missing key. *)
Definition flip_args : list (list Z) := [lit_overflow; lit_sat; lit_set; [105; 56]; [52]; [45; 57; 50; 50; 51; 51; 55; 50; 48; 51; 54; 56; 53; 52; 55; 55; 53; 56; 48; 56]].
Definition flip_op : bitfieldOp := {| bf_offset := 4; bf_i64 := - 2 ^ 63; bf_code := BITFIELDOP_SET; bf_ow := BFOVERFLOW_SAT; bf_bits := 8; bf_sign := true |}.

Lemma bitfield_sat_set_flips_witness : exists o' changes,
  bitfieldGeneric false 512 false None flip_args = Some (inr (o', [RInt (value_of flip_op (bit (bytes_of None)))], changes)) /\
  value_of flip_op (bit (bytes_of o')) = 127 /\ value_of flip_op (spec_op flip_op (bit (bytes_of None))).2 = -128.
Proof. apply (bitfield_sat_set_flips false 512 None flip_args flip_op 11); [done|vm_compute; reflexivity|done..]. Defined.

(** A write that is refused still creates the key, or extends its string,
    but counts no change: nothing is propagated to replicas, to the append only
    file or to watching clients. *)
Theorem bitfield_refused_write_creates must_obey proto_max_bulk_len args op high :
  parse_ops must_obey proto_max_bulk_len args BFOVERFLOW_WRAP [] true 0 = inr ([op], false, high) ->
  bf_code op = BITFIELDOP_SET -> bf_ow op = BFOVERFLOW_FAIL -> fits (bf_sign op) (bf_bits op) (wanted op 0) = false ->
  bitfieldGeneric must_obey proto_max_bulk_len false None args = Some (inr (Some (SdsEncoded (replicate (Z.to_nat (high / 8 + 1)) 0)), [RNull], 0)).
Proof.
  intros Hparse Hc How Hf. pose proof (parse_from_start _ _ _ _ _ _ Hparse) as (Hops & Hh & Hw). apply list.Forall_cons in Hops as [Hop _]. apply list.Forall_cons in Hw as [Hw _].
  assert (Hwr : writes op) by (unfold writes; by rewrite Hc). destruct (Hw Hwr) as [_ Hhi]. unfold bitfieldGeneric. rewrite Hparse. cbn [lookupStringForBitCommand mbind option_bind]. rewrite shiftr3.
  set (s := replicate _ 0). set (grown := negb _). cbn [exec_ops]. rewrite Hc.
  assert (Hz : zlen s = high / 8 + 1) by (unfold s, zlen; rewrite length_replicate; lia).
  destruct (exec_write_ok op grown s) as (s1 & ch & Hex & _ & _ & _ & Hsame & Hch); [by apply Forall_replicate|done|done|intros _ _; unfold sat_ok; by rewrite How|lia|].
  assert (Hst : store (bf_sign op) (bf_bits op) (bf_ow op) (wanted op (value_of op (bit s))) = None) by (unfold store, wanted in *; rewrite Hc in *; by rewrite Hf, How).
  rewrite Hex. rewrite spec_write, Hst by done. unfold op_changes in Hch. rewrite Hc, Hst in Hch. rewrite Hch, (Hsame Hch). done.
Qed.

Lemma bitfield_refused_write_creates_witness :
  bitfieldGeneric false 512 false None [lit_overflow; lit_fail; lit_set; [117; 49]; [57; 57]; [50]] = Some (inr (Some (SdsEncoded (replicate 13 0)), [RNull], 0)).
Proof.
  apply (bitfield_refused_write_creates false 512 [lit_overflow; lit_fail; lit_set; [117; 49]; [57; 57]; [50]]
    {| bf_offset := 99; bf_i64 := 2; bf_code := BITFIELDOP_SET; bf_ow := BFOVERFLOW_FAIL; bf_bits := 1; bf_sign := false |} 99); vm_compute; reflexivity.
Defined.
