(* ===== verification/Bitcount.v ===== *)
(** * Counting and finding bits (src/bitops.c)

    [redisPopcount] and [redisBitpos] with their word-wise fast paths, the
    commands [BITCOUNT] and [BITPOS] that trim them to a range.
    The address of a string decides which bytes are aligned.  The memory of a
    word is little endian. *)

From stdpp Require Import base list numbers option tactics.
From S2P Require Import Prelude Util SdsArgs Bitops.

(** ** Counting *)

Definition B2 (n : Z) : list Z := [n; n + 1; n + 1; n + 2].
Definition B4 (n : Z) : list Z := B2 n ++ B2 (n + 1) ++ B2 (n + 1) ++ B2 (n + 2).
Definition B6 (n : Z) : list Z := B4 n ++ B4 (n + 1) ++ B4 (n + 1) ++ B4 (n + 2).
Definition bitsinbyte : list Z := B6 0 ++ B6 1 ++ B6 1 ++ B6 2.

(** The bytes before an aligned address, and those after the last word. *)
Fixpoint pop_align (align addr : Z) (s : list Z) (bits : Z) : option (list Z * Z) :=
  match s with
  | [] => Some ([], bits)
  | b :: s' =>
      if Z.land addr align =? 0 then Some (s, bits)
      else (n ← rd bitsinbyte b; pop_align align (addr + 1) s' (bits + n))
  end.

Fixpoint pop_bytes (s : list Z) (bits : Z) : option Z :=
  match s with
  | [] => Some bits
  | b :: s => n ← rd bitsinbyte b; pop_bytes s (bits + n)
  end.

(** [__builtin_popcountll] *)
Fixpoint popcount_pos (p : positive) : Z :=
  match p with xH => 1 | xO p => popcount_pos p | xI p => 1 + popcount_pos p end.
Definition builtin_popcountll (z : Z) : Z := match z with Zpos p => popcount_pos p | _ => 0 end.

(** The [i]-th 64-bit word from here. *)
Definition word64 (s : list Z) (i : nat) : Z := le_val (take 8 (drop (8 * i) s)).

Fixpoint pop32 (fuel : nat) (s : list Z) (c0 c1 c2 c3 : Z) : option (list Z * Z) :=
  if zlen s >=? 32 then
    match fuel with
    | O => None
    | S fuel =>
        pop32 fuel (drop 32 s) (u64 (c0 + builtin_popcountll (word64 s 0))) (u64 (c1 + builtin_popcountll (word64 s 1)))
          (u64 (c2 + builtin_popcountll (word64 s 2))) (u64 (c3 + builtin_popcountll (word64 s 3)))
    end
  else Some (s, u64 (u64 (u64 (c0 + c1) + c2) + c3)).

(** Counting in parallel in a 32-bit word. *)
Definition aux_pairs (aux : Z) : Z := u32 (aux - Z.land (Z.shiftr aux 1) 0x55555555).
Definition aux_nibbles (aux : Z) : Z := u32 (Z.land aux 0x33333333 + Z.land (Z.shiftr aux 2) 0x33333333).
Definition aux_bytes (aux : Z) : Z := Z.land (u32 (aux + Z.shiftr aux 4)) 0x0F0F0F0F.
Definition aux_count (s : list Z) (i : nat) : Z := aux_bytes (aux_nibbles (aux_pairs (le_val (take 4 (drop (4 * i) s))))).

Definition sum7 (s : list Z) : Z :=
  u32 (u32 (u32 (u32 (u32 (u32 (aux_count s 0 + aux_count s 1) + aux_count s 2) + aux_count s 3) + aux_count s 4) + aux_count s 5) + aux_count s 6).

Fixpoint pop28 (fuel : nat) (s : list Z) (bits : Z) : option (list Z * Z) :=
  if zlen s >=? 28 then
    match fuel with
    | O => None
    | S fuel => pop28 fuel (drop 28 s) (bits + Z.shiftr (u32 (sum7 s * 0x01010101)) 24)
    end
  else Some (s, bits).

Definition redisPopcount (use_popcnt : bool) (addr : Z) (s : list Z) : option Z :=
  '(s, bits) ← pop_align (if use_popcnt then 7 else 3) addr s 0;
  if use_popcnt then
    '(s, cnt) ← pop32 (length s) s 0 0 0 0;
    pop_bytes s (bits + cnt)
  else
    '(s, bits) ← pop28 (length s) s bits;
    pop_bytes s bits.

(** ** Finding *)

Section Bitpos.
(** [sizeof(unsigned long)] *)
Context (W : Z).

Definition ULONG_MAX : Z := 2 ^ (8 * W) - 1.

(** The bytes before an aligned address: the rest, the position and whether a
    byte with the bit was found. *)
Fixpoint skip_bytes (skipval addr : Z) (s : list Z) (pos : Z) : list Z * Z * bool :=
  match s with
  | [] => ([], pos, false)
  | b :: s' =>
      if Z.land addr (W - 1) =? 0 then (s, pos, false)
      else if negb (b =? skipval) then (s, pos, true)
      else skip_bytes skipval (addr + 1) s' (pos + 8)
  end.

Fixpoint skip_words (fuel : nat) (skipval : Z) (s : list Z) (pos : Z) : option (list Z * Z) :=
  if zlen s >=? W then
    if negb (le_val (take (Z.to_nat W) s) =? skipval) then Some (s, pos)
    else match fuel with
         | O => None
         | S fuel => skip_words fuel skipval (drop (Z.to_nat W) s) (pos + W * 8)
         end
  else Some (s, pos).

(** The first bytes as a big endian word, padded with zeros. *)
Fixpoint load_word (n : nat) (s : list Z) (word : Z) : Z :=
  match n with
  | O => word
  | S n =>
      let word := wrapu (8 * W) (Z.shiftl word 8) in
      match s with
      | [] => load_word n [] word
      | b :: s => load_word n s (Z.lor word b)
      end
  end.

Fixpoint scan_word (n : nat) (one word : Z) (bit : bool) (pos : Z) : option Z :=
  if one =? 0 then None
  else
    match n with
    | O => None
    | S n => if eqb (negb (Z.land one word =? 0)) bit then Some pos else scan_word n (Z.shiftr one 1) word bit (pos + 1)
    end.

Definition redisBitpos (addr : Z) (s : list Z) (bit : bool) : option Z :=
  let '(s, pos, found) := skip_bytes (if bit then 0 else 255) addr s 0 in
  '(s, pos) ← (if found then Some (s, pos) else skip_words (length s) (if bit then 0 else ULONG_MAX) s pos);
  let word := load_word (Z.to_nat W) s 0 in
  if bit && (word =? 0) then Some (-1)
  else scan_word (Z.to_nat (8 * W)) (2 ^ (8 * W - 1)) word bit pos.

(** ** Ranges *)

(** The variables of [BITCOUNT] and [BITPOS] once the range is converted. *)
Record bit_range := { r_start : Z; r_end : Z; r_first_mask : Z; r_last_mask : Z }.

Definition convert_range (totlen start end_ : Z) (isbit : bool) : bit_range :=
  let start := if start <? 0 then totlen + start else start in
  let end_ := if end_ <? 0 then totlen + end_ else end_ in
  let start := if start <? 0 then 0 else start in
  let end_ := if end_ <? 0 then 0 else end_ in
  let end_ := if end_ >=? totlen then totlen - 1 else end_ in
  if isbit && (start <=? end_) then
    {| r_start := Z.shiftr start 3; r_end := Z.shiftr end_ 3;
       r_first_mask := Z.land (Z.lnot (Z.shiftl 1 (8 - Z.land start 7) - 1)) 255;
       r_last_mask := Z.shiftl 1 (7 - Z.land end_ 7) - 1 |}
  else {| r_start := start; r_end := end_; r_first_mask := 0; r_last_mask := 0 |}.

Definition lit_bit : list Z := [98; 105; 116].
Definition lit_byte : list Z := [98; 121; 116; 101].

(** The unit, when it is given: [None] is a syntax error. *)
Definition parse_unit (arg : list Z) : option bool :=
  if argeq arg lit_bit then Some true else if argeq arg lit_byte then Some false else None.

(** [redisPopcountAuto] of [bytes] bytes from [start], without vector instructions. *)
Definition popcountAuto (use_popcnt : bool) (addr : Z) (s : list Z) (start bytes : Z) : option Z :=
  part ← rd_bytes s start bytes;
  redisPopcount use_popcnt (addr + start) part.

(** [BITCOUNT key args]: an error or the reply.  [addr] is the address of the
    string and [addr2] that of the two bytes on the stack. *)
Definition bitcountCommand (use_popcnt : bool) (addr addr2 : Z) (o : option strobj) (args : list (list Z)) : option (bit_err + Z) :=
  let finish (r : bit_range) (src : option (list Z)) : option (bit_err + Z) :=
    match src with
    | None => Some (inr 0)
    | Some p =>
        if r_start r >? r_end r then Some (inr 0)
        else
          count ← popcountAuto use_popcnt addr p (r_start r) (r_end r - r_start r + 1);
          if negb (r_first_mask r =? 0) || negb (r_last_mask r =? 0) then
            first ← (if negb (r_first_mask r =? 0) then b ← rd p (r_start r); Some (Z.land b (r_first_mask r)) else Some 0);
            last ← (if negb (r_last_mask r =? 0) then b ← rd p (r_end r); Some (Z.land b (r_last_mask r)) else Some 0);
            n ← redisPopcount use_popcnt addr2 [first; last];
            Some (inr (count - n))
          else Some (inr count)
    end in
  let ranged (start_arg end_arg : list Z) (unit_arg : option (list Z)) : option (bit_err + Z) :=
    match string2ll start_arg, string2ll end_arg with
    | Some start, Some end_ =>
        match (match unit_arg with None => Some false | Some u => parse_unit u end) with
        | None => Some (inl ERR_SYNTAX)
        | Some isbit =>
            if bool_decide (o = Some OtherType) then Some (inl ERR_WRONGTYPE)
            else
              src ← getObjectReadOnlyString o;
              let strlen := zlen (default [] src) in
              _ ← cassert (strlen <=? LLONG_MAX / 8);
              if (start <? 0) && (end_ <? 0) && (start >? end_) then Some (inr 0)
              else finish (convert_range (if isbit then strlen * 8 else strlen) start end_ isbit) src
        end
    | _, _ => Some (inl ERR_NOT_INTEGER)
    end in
  match args with
  | [] =>
      if bool_decide (o = Some OtherType) then Some (inl ERR_WRONGTYPE)
      else
        src ← getObjectReadOnlyString o;
        finish {| r_start := 0; r_end := zlen (default [] src) - 1; r_first_mask := 0; r_last_mask := 0 |} src
  | [a; b] => ranged a b None
  | [a; b; u] => ranged a b (Some u)
  | _ => Some (inl ERR_SYNTAX)
  end.

(** [redisBitpos] on one byte. *)
Definition bitpos1 (addr2 b : Z) (bit : bool) : option Z := redisBitpos addr2 [b] bit.

(** The search of [BITPOS] in a converted range: the position relative to
    [start], with [start] and [bytes] as they are left. *)
Definition bitpos_search (addr addr2 : Z) (p : list Z) (bit : bool) (r : bit_range) : option (Z * Z * Z) :=
  let start := r_start r in
  let bytes := r_end r - r_start r + 1 in
  let first := r_first_mask r in
  let last := r_last_mask r in
  let rest (start bytes : Z) : option (Z * Z * Z) :=
    let curbytes := bytes - (if negb (last =? 0) then 1 else 0) in
    let tail (start bytes : Z) : option (Z * Z * Z) :=
      e ← rd p (r_end r);
      let tmpchar := if bit then Z.land e (u8 (Z.lnot last)) else Z.lor e last in
      pos ← bitpos1 addr2 tmpchar bit;
      Some (pos, start, bytes) in
    if curbytes >? 0 then
      part ← rd_bytes p start curbytes;
      pos ← redisBitpos (addr + start) part bit;
      if (bytes =? curbytes) || (negb (pos =? -1) && negb (pos =? curbytes * 8)) then Some (pos, start, bytes)
      else tail (start + curbytes) (bytes - curbytes)
    else tail start bytes in
  if negb (first =? 0) then
    b ← rd p start;
    let tmpchar := if bit then Z.land b (u8 (Z.lnot first)) else Z.lor b first in
    let tmpchar := if negb (last =? 0) && (bytes =? 1)
                   then (if bit then Z.land tmpchar (u8 (Z.lnot last)) else Z.lor tmpchar last) else tmpchar in
    pos ← bitpos1 addr2 tmpchar bit;
    if (bytes =? 1) || (negb (pos =? -1) && negb (pos =? 8)) then Some (pos, start, bytes)
    else rest (start + 1) (bytes - 1)
  else rest start bytes.

Definition bitposCommand (addr addr2 : Z) (o : option strobj) (args : list (list Z)) : option (bit_err + Z) :=
  let finish (bit end_given : bool) (r : bit_range) (src : option (list Z)) : option (bit_err + Z) :=
    match src with
    | None => Some (inr (if bit then -1 else 0))
    | Some p =>
        if r_start r >? r_end r then Some (inr (-1))
        else
          '(pos, start, bytes) ← bitpos_search addr addr2 p bit r;
          if end_given && negb bit && (pos =? bytes * 8) then Some (inr (-1))
          else Some (inr (if negb (pos =? -1) then pos + start * 8 else pos))
    end in
  let ranged (bit : bool) (start_arg : list Z) (end_arg unit_arg : option (list Z)) : option (bit_err + Z) :=
    match string2ll start_arg with
    | None => Some (inl ERR_NOT_INTEGER)
    | Some start =>
        match (match unit_arg with None => Some false | Some u => parse_unit u end) with
        | None => Some (inl ERR_SYNTAX)
        | Some isbit =>
            match (match end_arg with None => Some None | Some e => match string2ll e with None => None | Some v => Some (Some v) end end) with
            | None => Some (inl ERR_NOT_INTEGER)
            | Some end_opt =>
                if bool_decide (o = Some OtherType) then Some (inl ERR_WRONGTYPE)
                else
                  src ← getObjectReadOnlyString o;
                  let strlen := zlen (default [] src) in
                  _ ← cassert (strlen <=? LLONG_MAX / 8);
                  let end_ := match end_opt with Some e => e | None => if isbit then strlen * 8 + 7 else strlen - 1 end in
                  finish bit (bool_decide (is_Some end_arg)) (convert_range (if isbit then strlen * 8 else strlen) start end_ isbit) src
            end
        end
    end in
  match args with
  | [] => Some (inl ERR_SYNTAX)
  | bit_arg :: args =>
      match string2ll bit_arg with
      | None => Some (inl ERR_NOT_INTEGER)
      | Some b =>
          if negb (b =? 0) && negb (b =? 1) then Some (inl ERR_BIT)
          else
            let bit := b =? 1 in
            match args with
            | [] =>
                if bool_decide (o = Some OtherType) then Some (inl ERR_WRONGTYPE)
                else
                  src ← getObjectReadOnlyString o;
                  finish bit false {| r_start := 0; r_end := zlen (default [] src) - 1; r_first_mask := 0; r_last_mask := 0 |} src
            | [a] => ranged bit a None None
            | [a; e] => ranged bit a (Some e) None
            | [a; e; u] => ranged bit a (Some e) (Some u)
            | _ => Some (inl ERR_SYNTAX)
            end
      end
  end.
End Bitpos.
