(* ===== verification/BitcountSpec.v ===== *)
(** * Counting and finding bits: correctness

    The word-wise routines agree with counting and searching bit by bit. *)

From stdpp Require Import base list numbers option tactics.
From S2P Require Import Prelude Util SdsArgs Bitops BitopsSpec BitopsThms Bitcount.

#[local] Ltac Zify.zify_post_hook ::= Z.to_euclidean_division_equations.

(** ** Counting bit by bit *)

Fixpoint count (f : Z -> bool) (lo : Z) (n : nat) : Z :=
  match n with
  | O => 0
  | S n => Z.b2z (f lo) + count f (lo + 1) n
  end.

Lemma count_add f n m : forall lo, count f lo (n + m) = count f lo n + count f (lo + Z.of_nat n) m.
Proof.
  induction n as [|n IH]; intros lo; cbn [count Nat.add]; [by rewrite Z.add_0_r|]. rewrite IH.
  replace (lo + 1 + Z.of_nat n) with (lo + Z.of_nat (S n)) by lia. lia.
Qed.

Lemma count_ext f g n : forall lo lo', (forall i, 0 <= i < Z.of_nat n -> f (lo + i) = g (lo' + i)) -> count f lo n = count g lo' n.
Proof.
  induction n as [|n IH]; intros lo lo' H; cbn [count]; [done|]. f_equal.
  - f_equal. specialize (H 0 ltac:(lia)). by rewrite !Z.add_0_r in H.
  - apply IH. intros i Hi. specialize (H (1 + i) ltac:(lia)). by rewrite !Z.add_assoc in H.
Qed.

Lemma count_bounds f n : forall lo, 0 <= count f lo n <= Z.of_nat n.
Proof. induction n as [|n IH]; intros lo; cbn [count]; [lia|]. specialize (IH (lo + 1)). destruct (f lo); cbn [Z.b2z]; lia. Qed.

(** The set bits of a byte, and of a string. *)
Definition popb (b : Z) : Z := count (fun i => Z.testbit b (7 - i)) 0 8.
Definition ones (s : list Z) : Z := foldr Z.add 0 (popb <$> s).

Lemma popb_bounds b : 0 <= popb b <= 8.
Proof. apply (count_bounds _ 8). Qed.

Lemma ones_app s t : ones (s ++ t) = ones s + ones t.
Proof. unfold ones. rewrite fmap_app. induction (popb <$> s) as [|x l IH]; cbn; [lia|]. rewrite IH. lia. Qed.

Lemma ones_cons b s : ones (b :: s) = popb b + ones s.
Proof. done. Qed.

Lemma ones_bounds s : 0 <= ones s <= 8 * zlen s.
Proof. induction s as [|b s IH]; [done|]. rewrite ones_cons, zlen_cons. pose proof (popb_bounds b). lia. Qed.

Lemma bit_app_l s t i : i / 8 < zlen s -> bit (s ++ t) i = bit s i.
Proof. intros Hi. unfold bit. by rewrite rd_app_l. Qed.

Lemma bit_app_r s t i : bit (s ++ t) (8 * zlen s + i) = if i <? 0 then bit s (8 * zlen s + i) else bit t i.
Proof.
  destruct (Z.ltb_spec i 0); [apply bit_app_l; lia|]. unfold bit. destruct (div8_add (zlen s) i) as [-> ->]. rewrite rd_app_r by lia. by replace (zlen s + i / 8 - zlen s) with (i / 8) by lia.
Qed.

Lemma ones_count s : ones s = count (bit s) 0 (8 * length s).
Proof.
  induction s as [|b s IH]; [done|]. rewrite ones_cons. rewrite IH. replace (8 * length (b :: s))%nat with (8 + 8 * length s)%nat by (cbn; lia).
  rewrite count_add. f_equal.
  apply count_ext. intros i Hi. pose proof (bit_app_r [b] s i) as H. change (zlen [b]) with 1 in H. rewrite (proj2 (Z.ltb_ge i 0)) in H by lia. cbn [app] in H. change (0 + i) with i. rewrite <- H. by rewrite Z.add_0_l.
Qed.

(** ** The table and the byte loops *)

Lemma bitsinbyte_ok b : is_byte b -> rd bitsinbyte b = Some (popb b).
Proof.
  intros Hb. assert (H : bool_decide (rd bitsinbyte b = Some (popb b)) = true); [|by apply bool_decide_eq_true in H].
  revert b Hb. apply byte_check. vm_compute. reflexivity.
Qed.

Lemma pop_bytes_ok s : forall bits, Forall is_byte s -> pop_bytes s bits = Some (bits + ones s).
Proof.
  induction s as [|b s IH]; intros bits Hs; cbn [pop_bytes]; [f_equal; unfold ones; cbn; lia|]. apply list.Forall_cons in Hs as [Hb Hs].
  rewrite bitsinbyte_ok by done. cbn [mbind option_bind]. rewrite IH by done. f_equal. rewrite ones_cons. lia.
Qed.

Lemma pop_align_ok align s : forall addr bits, Forall is_byte s -> exists s1 s2, s = s1 ++ s2 /\ pop_align align addr s bits = Some (s2, bits + ones s1).
Proof.
  induction s as [|b s IH]; intros addr bits Hs; cbn [pop_align]; [exists [], []; split; [done|]; f_equal; f_equal; unfold ones; cbn; lia|].
  apply list.Forall_cons in Hs as [Hb Hs]. destruct (_ =? 0); [exists [], (b :: s); split; [done|]; f_equal; f_equal; unfold ones; cbn; lia|].
  rewrite bitsinbyte_ok by done. cbn [mbind option_bind]. destruct (IH (addr + 1) (bits + popb b) Hs) as (s1 & s2 & -> & ->).
  exists (b :: s1), s2. split; [done|]. do 2 f_equal. rewrite ones_cons. lia.
Qed.

(** ** Words *)

Lemma popcountll_double z : 0 <= z -> builtin_popcountll (2 * z) = builtin_popcountll z.
Proof. destruct z; [done|done|lia]. Qed.

Lemma popcountll_double1 z : 0 <= z -> builtin_popcountll (2 * z + 1) = 1 + builtin_popcountll z.
Proof. destruct z; [done|done|lia]. Qed.

Lemma popcountll_add n : forall a z, 0 <= a < 2 ^ Z.of_nat n -> 0 <= z -> builtin_popcountll (a + 2 ^ Z.of_nat n * z) = builtin_popcountll a + builtin_popcountll z.
Proof.
  induction n as [|n IH]; intros a z Ha Hz; [replace a with 0 by (cbn in Ha; lia); change (2 ^ Z.of_nat 0) with 1; by rewrite Z.mul_1_l, Z.add_0_l|].
  rewrite Nat2Z.inj_succ, Z.pow_succ_r in * by lia. destruct (Z.eqb_spec (a mod 2) 0) as [E|E].
  - replace a with (2 * (a / 2)) by lia. replace (2 * (a / 2) + 2 * 2 ^ Z.of_nat n * z) with (2 * (a / 2 + 2 ^ Z.of_nat n * z)) by lia.
    rewrite !popcountll_double, IH by (try lia; nia). done.
  - replace a with (2 * (a / 2) + 1) by lia. replace (2 * (a / 2) + 1 + 2 * 2 ^ Z.of_nat n * z) with (2 * (a / 2 + 2 ^ Z.of_nat n * z) + 1) by lia.
    rewrite !popcountll_double1, IH by (try lia; nia). lia.
Qed.

Lemma popcountll_byte b : is_byte b -> builtin_popcountll b = popb b.
Proof.
  intros Hb. assert (H : (builtin_popcountll b =? popb b) = true); [|by apply Z.eqb_eq]. revert b Hb. apply byte_check. vm_compute. reflexivity.
Qed.

Lemma popcountll_ok s : Forall is_byte s -> builtin_popcountll (le_val s) = ones s.
Proof.
  induction 1 as [|b s Hb Hs IH]; [done|]. cbn [le_val]. rewrite ones_cons. pose proof (le_val_bound s Hs).
  change 256 with (2 ^ Z.of_nat 8). rewrite popcountll_add by (try done; lia). by rewrite popcountll_byte, IH.
Qed.

Lemma take_drop_next {A} (s : list A) n k : drop n s = take k (drop n s) ++ drop (n + k) s.
Proof. by rewrite <- drop_drop, take_drop. Qed.

Lemma pop32_ok fuel : forall s c0 c1 c2 c3, Forall is_byte s -> (length s <= fuel)%nat -> 0 <= c0 -> 0 <= c1 -> 0 <= c2 -> 0 <= c3 ->
  c0 + c1 + c2 + c3 + 8 * zlen s < 2 ^ 64 ->
  exists s1 s2, s = s1 ++ s2 /\ pop32 fuel s c0 c1 c2 c3 = Some (s2, c0 + c1 + c2 + c3 + ones s1).
Proof.
  induction fuel as [|fuel IH]; intros s c0 c1 c2 c3 Hs Hf H0 H1 H2 H3 Hb; cbn [pop32]; destruct (Z.geb_spec (zlen s) 32) as [Hge|Hlt].
  - unfold zlen in Hge. lia.
  - exists [], s. split; [done|]. pose proof (zlen_nonneg s). rewrite (wrapu_id 64 (c0 + c1)), (wrapu_id 64 (c0 + c1 + c2)), wrapu_id by lia. do 2 f_equal. unfold ones. cbn. lia.
  - assert (Hw : forall i, builtin_popcountll (word64 s i) = ones (take 8 (drop (8 * i) s))) by (intros i; apply popcountll_ok, Forall_take, Forall_drop; done).
    assert (Hob : forall i, 0 <= ones (take 8 (drop (8 * i) s)) <= 64).
    { intros i. pose proof (ones_bounds (take 8 (drop (8 * i) s))) as Hb'. unfold zlen in Hb'. rewrite length_take in Hb'. lia. }
    rewrite !Hw. pose proof (Hob 0%nat). pose proof (Hob 1%nat). pose proof (Hob 2%nat). pose proof (Hob 3%nat).
    assert (Hz : zlen (drop 32 s) = zlen s - 32) by (unfold zlen; rewrite length_drop; unfold zlen in Hge; lia).
    rewrite !wrapu_id by lia.
    match goal with |- context [pop32 fuel (drop 32 s) ?a ?b ?c ?d] => destruct (IH (drop 32 s) a b c d) as (s1 & s2 & Hd & ->) end;
      [by apply Forall_drop|rewrite length_drop; unfold zlen in Hge; lia|lia..|].
    assert (Hsplit : s = take 8 (drop (8 * 0) s) ++ take 8 (drop (8 * 1) s) ++ take 8 (drop (8 * 2) s) ++ take 8 (drop (8 * 3) s) ++ drop 32 s).
    { cbn [Nat.mul Nat.add]. rewrite <- (take_drop_next s 24 8 : drop 24 s = take 8 (drop 24 s) ++ drop 32 s),
        <- (take_drop_next s 16 8 : drop 16 s = take 8 (drop 16 s) ++ drop 24 s), <- (take_drop_next s 8 8 : drop 8 s = take 8 (drop 8 s) ++ drop 16 s), drop_0.
      symmetry. apply take_drop. }
    exists (take 8 (drop (8 * 0) s) ++ take 8 (drop (8 * 1) s) ++ take 8 (drop (8 * 2) s) ++ take 8 (drop (8 * 3) s) ++ s1), s2.
    split; [rewrite <- !app_assoc, <- Hd; exact Hsplit|]. do 2 f_equal. rewrite !ones_app. lia.
  - exists [], s. split; [done|]. pose proof (zlen_nonneg s). rewrite (wrapu_id 64 (c0 + c1)), (wrapu_id 64 (c0 + c1 + c2)), wrapu_id by lia. do 2 f_equal. unfold ones. cbn. lia.
Qed.

(** *** Counting in parallel

    The operations on a word are operations on each of its bytes. *)

Lemma le_val_masked l k m : Forall is_byte l -> 0 <= k < 8 -> 0 <= m < 2 ^ (8 - k) ->
  Z.land (Z.shiftr (le_val l) k) (le_val (replicate (length l) m)) = le_val ((fun b => Z.land (Z.shiftr b k) m) <$> l).
Proof.
  intros Hl Hk Hm. induction Hl as [|b l Hb Hl IH]; [cbn; by rewrite Z.land_0_r|]. cbn [le_val length replicate]. rewrite fmap_cons. cbn [le_val]. rewrite <- IH.
  pose proof (le_val_bound l Hl) as Hbd. set (h := le_val l) in *. set (M := le_val (replicate (length l) m)).
  assert (Hm8 : m < 2 ^ 8) by (assert (2 ^ (8 - k) <= 2 ^ 8) by (apply Z.pow_le_mono_r; lia); lia).
  assert (Hlow : 0 <= Z.land (Z.shiftr b k) m < 2 ^ 8).
  { split; [apply Z.land_nonneg; lia|]. apply bits_small; [lia|apply Z.land_nonneg; lia|]. intros j Hj. rewrite Z.land_spec. rewrite <- (Z.mod_small m (2 ^ 8)), Z.mod_pow2_bits_high by lia. apply andb_false_r. }
  rewrite <- (Z.mul_comm (Z.land (Z.shiftr h k) M)). change 256 with (2 ^ 8). rewrite <- lor_shiftl_add by lia.
  rewrite (Z.mul_comm (2 ^ 8) M), <- (lor_shiftl_add M m 8) by lia. rewrite (Z.mul_comm (2 ^ 8) h), <- (lor_shiftl_add h b 8) by (unfold is_byte in Hb; lia).
  apply Z.bits_inj'. intros j Hj. rewrite Z.land_spec, Z.shiftr_spec, !Z.lor_spec, Z.land_spec, Z.shiftr_spec, !Z.shiftl_spec, Z.land_spec by lia.
  destruct (decide (8 <= j)) as [Hge|Hlt].
  - rewrite Z.shiftr_spec by lia. rewrite <- (Z.mod_small m (2 ^ 8)), (Z.mod_pow2_bits_high m) by lia. rewrite andb_false_r. cbn [orb].
    rewrite (byte_high_bits b (j + k)) by (done || lia). cbn [orb]. by replace (j + k - 8) with (j - 8 + k) by lia.
  - rewrite !(Z.testbit_neg_r _ (j - 8)) by lia. rewrite andb_false_r, !orb_false_r.
    destruct (decide (j < 8 - k)); [by rewrite (Z.testbit_neg_r h) by lia; rewrite orb_false_r|].
    rewrite <- (Z.mod_small m (2 ^ (8 - k))), Z.mod_pow2_bits_high by lia. by rewrite !andb_false_r.
Qed.

Lemma le_val_add l k : length l = length k -> le_val (zip_with Z.add l k) = le_val l + le_val k.
Proof. revert k. induction l as [|x l IH]; intros [|y k] H; try done. cbn in *. rewrite IH by lia. lia. Qed.

Lemma le_val_map_sub (f : Z -> Z) l : le_val ((fun b => b - f b) <$> l) = le_val l - le_val (f <$> l).
Proof. induction l as [|x l IH]; [done|]. rewrite !fmap_cons. cbn [le_val]. rewrite IH. lia. Qed.

Lemma le_val_map_add (f g : Z -> Z) l : le_val ((fun b => f b + g b) <$> l) = le_val (f <$> l) + le_val (g <$> l).
Proof. induction l as [|x l IH]; [done|]. rewrite !fmap_cons. cbn [le_val]. rewrite IH. lia. Qed.

Definition pairs1 (b : Z) : Z := b - Z.land (Z.shiftr b 1) 0x55.
Definition nibbles1 (b : Z) : Z := Z.land b 0x33 + Z.land (Z.shiftr b 2) 0x33.
Definition byte1 (b : Z) : Z := Z.land (b + Z.shiftr b 4) 0x0F.

(** Both nibbles at most 4. *)
Definition nibbles_ok (b : Z) : bool := (0 <=? b) && (b mod 16 <=? 4) && (b / 16 <=? 4).

Lemma byte_steps b : is_byte b -> is_byte (pairs1 b) /\ nibbles_ok (nibbles1 (pairs1 b)) = true /\ byte1 (nibbles1 (pairs1 b)) = popb b.
Proof.
  intros Hb. assert (H : ((0 <=? pairs1 b) && (pairs1 b <? 256)) && nibbles_ok (nibbles1 (pairs1 b)) && (byte1 (nibbles1 (pairs1 b)) =? popb b) = true).
  { revert b Hb. apply byte_check. vm_compute. reflexivity. }
  apply andb_prop in H as [H H3]. apply andb_prop in H as [H H2]. apply andb_prop in H as [H1 H1']. apply Z.leb_le in H1. apply Z.ltb_lt in H1'. by apply Z.eqb_eq in H3.
Qed.

Lemma le_val_bytes_step l : Forall (fun b => nibbles_ok b = true) l ->
  Z.land (le_val l + Z.shiftr (le_val l) 4) (le_val (replicate (length l) 0x0F)) = le_val (byte1 <$> l) /\ le_val l mod 16 <= 4 /\ 0 <= le_val l.
Proof.
  induction 1 as [|b l Hb Hl (IH & Hmod & Hnn)]; [by vm_compute|]. unfold nibbles_ok in Hb. apply andb_prop in Hb as [Hb Hb3]. apply andb_prop in Hb as [Hb1 Hb2]. apply Z.leb_le in Hb1, Hb2, Hb3.
  rewrite fmap_cons. cbn [le_val length replicate]. split; [|lia]. rewrite <- IH. set (h := le_val l) in *. set (M := le_val (replicate (length l) 15)).
  unfold byte1. rewrite !Z.shiftr_div_pow2 by lia. change (2 ^ 4) with 16.
  replace (b + 256 * h + (b + 256 * h) / 16) with (b + b / 16 + 16 * (h mod 16) + 256 * (h + h / 16)) by lia.
  set (x := b + b / 16 + 16 * (h mod 16)). set (y := h + h / 16).
  assert (Hx : 0 <= x < 256) by (unfold x; lia).
  assert (Hland : Z.land (x + 256 * y) (15 + 256 * M) = Z.land x 15 + 256 * Z.land y M).
  { rewrite !(Z.mul_comm 256). change 256 with (2 ^ 8). rewrite <- (lor_shiftl_add y x 8), <- (lor_shiftl_add M 15 8) by lia.
    rewrite <- (lor_shiftl_add (Z.land y M) (Z.land x 15) 8) by (rewrite ?(land_ones 4); lia).
    apply Z.bits_inj'. intros j Hj. rewrite !Z.land_spec, !Z.lor_spec, !Z.shiftl_spec, !Z.land_spec by lia. destruct (decide (8 <= j)).
    - rewrite (byte_high_bits x j), (byte_high_bits 15 j) by (unfold is_byte; lia). done.
    - rewrite !(Z.testbit_neg_r _ (j - 8)) by lia. by rewrite !orb_false_r. }
  rewrite Hland. f_equal. rewrite !(land_ones 4) by lia. unfold x. lia.
Qed.

Lemma aux_steps l : Forall is_byte l -> length l = 4%nat -> aux_bytes (aux_nibbles (aux_pairs (le_val l))) = le_val (popb <$> l).
Proof.
  intros Hl Hn.
  assert (Hb32 : forall k, Forall is_byte k -> length k = 4%nat -> u32 (le_val k) = le_val k).
  { intros k Hk Hkn. pose proof (le_val_bound k Hk) as Hb. rewrite Hkn in Hb. by apply wrapu_id. }
  assert (H1 : aux_pairs (le_val l) = le_val (pairs1 <$> l)).
  { unfold aux_pairs. change 0x55555555 with (le_val (replicate 4 0x55)). rewrite <- Hn, le_val_masked by (done || lia). rewrite <- le_val_map_sub. apply Hb32; [|by rewrite length_fmap].
    apply Forall_fmap. eapply list.Forall_impl; [exact Hl|]. intros b Hb. apply (byte_steps b Hb). }
  rewrite H1. assert (Hl1 : Forall is_byte (pairs1 <$> l)) by (apply Forall_fmap; eapply list.Forall_impl; [exact Hl|]; intros b Hb; apply (byte_steps b Hb)).
  assert (H2 : aux_nibbles (le_val (pairs1 <$> l)) = le_val (nibbles1 <$> (pairs1 <$> l))).
  { unfold aux_nibbles. change 0x33333333 with (le_val (replicate 4 0x33)). rewrite <- Hn, <- (length_fmap pairs1 l).
    rewrite <- (Z.shiftr_0_r (le_val (pairs1 <$> l))) at 1. rewrite !le_val_masked by (done || lia). rewrite <- le_val_map_add. apply Hb32; [|by rewrite !length_fmap].
    apply Forall_fmap, Forall_fmap. eapply list.Forall_impl; [exact Hl|]. intros b Hb. destruct (byte_steps b Hb) as (_ & Hnib & _). unfold nibbles_ok in Hnib.
    apply andb_prop in Hnib as [Hnib Hx]. apply andb_prop in Hnib as [Hy _]. apply Z.leb_le in Hx, Hy. unfold compose, nibbles1, is_byte in *. lia. }
  rewrite H2. assert (Hl2 : Forall (fun b => nibbles_ok b = true) (nibbles1 <$> (pairs1 <$> l))).
  { apply Forall_fmap, Forall_fmap. eapply list.Forall_impl; [exact Hl|]. intros b Hb. by destruct (byte_steps b Hb) as (_ & Hnib & _). }
  destruct (le_val_bytes_step _ Hl2) as (H3 & _ & _). rewrite !length_fmap, Hn in H3. unfold aux_bytes. change 0x0F0F0F0F with (le_val (replicate 4 0x0F)).
  rewrite wrapu_id, H3.
  - f_equal. rewrite <- !list_fmap_compose. apply list_fmap_ext. intros i b Hb. assert (Hbb : is_byte b) by (exact (Forall_lookup_1 _ _ _ _ Hl Hb)). by apply byte_steps.
  - destruct l as [|b0 [|b1 [|b2 [|b3 [|? ?]]]]]; try done. rewrite !fmap_cons in *. clear H1 H2 H3.
    repeat match goal with H : Forall _ (_ :: _) |- _ => apply list.Forall_cons in H as [? H] end. unfold nibbles_ok in *.
    repeat match goal with H : (_ && _)%bool = true |- _ => apply andb_prop in H as [? H] end.
    repeat match goal with H : (_ && _)%bool = true |- _ => apply andb_prop in H as [H ?] end. rewrite ?Z.leb_le in *. cbn [le_val fmap list_fmap]. rewrite Z.shiftr_div_pow2 by lia. lia.
Qed.

(** The bytes of a word are added by a multiplication. *)
Lemma mult_bytes a b c d : 0 <= a <= 56 -> 0 <= b <= 56 -> 0 <= c <= 56 -> 0 <= d <= 56 ->
  Z.shiftr (u32 ((a + 256 * (b + 256 * (c + 256 * d))) * 0x01010101)) 24 = a + b + c + d.
Proof. intros Ha Hb Hc Hd. rewrite Z.shiftr_div_pow2 by lia. unfold wrapu. change (2 ^ 32) with 4294967296. change (2 ^ 24) with 16777216. lia. Qed.

Lemma aux_count_ok s i : Forall is_byte s -> (4 * i + 4 <= length s)%nat -> exists a b c d,
  aux_count s i = a + 256 * (b + 256 * (c + 256 * d)) /\ 0 <= a <= 8 /\ 0 <= b <= 8 /\ 0 <= c <= 8 /\ 0 <= d <= 8 /\ a + b + c + d = ones (take 4 (drop (4 * i) s)).
Proof.
  intros Hs Hi. unfold aux_count. set (l := take 4 (drop (4 * i) s)). assert (Hl : Forall is_byte l) by (by apply Forall_take, Forall_drop).
  assert (Hn : length l = 4%nat) by (unfold l; rewrite length_take, length_drop; lia). rewrite aux_steps by done.
  destruct l as [|b0 [|b1 [|b2 [|b3 [|? ?]]]]]; try done. exists (popb b0), (popb b1), (popb b2), (popb b3). rewrite !fmap_cons. cbn [le_val fmap list_fmap].
  pose proof (popb_bounds b0). pose proof (popb_bounds b1). pose proof (popb_bounds b2). pose proof (popb_bounds b3). rewrite !ones_cons. change (ones []) with 0.
  split; [by rewrite Z.mul_0_r, Z.add_0_r|]. lia.
Qed.

Lemma sum7_ok s : Forall is_byte s -> 28 <= zlen s -> Z.shiftr (u32 (sum7 s * 0x01010101)) 24 = ones (take 28 s).
Proof.
  intros Hs Hz. unfold zlen in Hz. unfold sum7.
  destruct (aux_count_ok s 0 Hs ltac:(lia)) as (a0 & b0 & c0 & d0 & -> & ? & ? & ? & ? & E0). destruct (aux_count_ok s 1 Hs ltac:(lia)) as (a1 & b1 & c1 & d1 & -> & ? & ? & ? & ? & E1).
  destruct (aux_count_ok s 2 Hs ltac:(lia)) as (a2 & b2 & c2 & d2 & -> & ? & ? & ? & ? & E2). destruct (aux_count_ok s 3 Hs ltac:(lia)) as (a3 & b3 & c3 & d3 & -> & ? & ? & ? & ? & E3).
  destruct (aux_count_ok s 4 Hs ltac:(lia)) as (a4 & b4 & c4 & d4 & -> & ? & ? & ? & ? & E4). destruct (aux_count_ok s 5 Hs ltac:(lia)) as (a5 & b5 & c5 & d5 & -> & ? & ? & ? & ? & E5).
  destruct (aux_count_ok s 6 Hs ltac:(lia)) as (a6 & b6 & c6 & d6 & -> & ? & ? & ? & ? & E6).
  do 6 (match goal with |- context [u32 (?x + ?y)] => lazymatch x with context [wrapu] => fail | _ => rewrite (wrapu_id 32 (x + y)) by lia end end).
  match goal with |- Z.shiftr (u32 (?x * _)) _ = _ => replace x with ((a0 + a1 + a2 + a3 + a4 + a5 + a6) + 256 * ((b0 + b1 + b2 + b3 + b4 + b5 + b6) + 256 * ((c0 + c1 + c2 + c3 + c4 + c5 + c6) + 256 * (d0 + d1 + d2 + d3 + d4 + d5 + d6)))) by lia end.
  rewrite mult_bytes by lia.
  assert (Hsplit : take 28 s = take 4 (drop (4 * 0) s) ++ take 4 (drop (4 * 1) s) ++ take 4 (drop (4 * 2) s) ++ take 4 (drop (4 * 3) s) ++ take 4 (drop (4 * 4) s) ++ take 4 (drop (4 * 5) s) ++ take 4 (drop (4 * 6) s)).
  { cbn [Nat.mul Nat.add]. rewrite drop_0. do 28 (destruct s as [|? s]; [cbn in Hz; lia|]). done. }
  rewrite Hsplit, !ones_app, <- E0, <- E1, <- E2, <- E3, <- E4, <- E5, <- E6. lia.
Qed.

Lemma pop28_ok fuel : forall s bits, Forall is_byte s -> (length s <= fuel)%nat -> exists s1 s2, s = s1 ++ s2 /\ pop28 fuel s bits = Some (s2, bits + ones s1).
Proof.
  induction fuel as [|fuel IH]; intros s bits Hs Hf; cbn [pop28]; destruct (Z.geb_spec (zlen s) 28) as [Hge|Hlt].
  - unfold zlen in Hge. lia.
  - exists [], s. split; [done|]. do 2 f_equal. unfold ones. cbn. lia.
  - rewrite sum7_ok by (done || lia). destruct (IH (drop 28 s) (bits + ones (take 28 s))) as (s1 & s2 & Hd & ->); [by apply Forall_drop|rewrite length_drop; unfold zlen in Hge; lia|].
    exists (take 28 s ++ s1), s2. split; [by rewrite <- app_assoc, <- Hd, take_drop|]. rewrite ones_app. do 2 f_equal. lia.
  - exists [], s. split; [done|]. do 2 f_equal. unfold ones. cbn. lia.
Qed.

Lemma redisPopcount_ok use_popcnt addr s : Forall is_byte s -> 8 * zlen s < 2 ^ 64 -> redisPopcount use_popcnt addr s = Some (ones s).
Proof.
  intros Hs Hz. unfold redisPopcount. destruct (pop_align_ok (if use_popcnt then 7 else 3) s addr 0 Hs) as (s1 & s2 & -> & ->). cbn [mbind option_bind].
  apply list.Forall_app in Hs as [Hs1 Hs2]. rewrite zlen_app in Hz. pose proof (zlen_nonneg s1). rewrite ones_app. destruct use_popcnt.
  - destruct (pop32_ok (length s2) s2 0 0 0 0 Hs2 ltac:(lia)) as (s3 & s4 & -> & ->); [lia..|]. cbn [mbind option_bind]. apply list.Forall_app in Hs2 as [_ Hs4].
    rewrite pop_bytes_ok, ones_app by done. f_equal. lia.
  - destruct (pop28_ok (length s2) s2 (0 + ones s1) Hs2 ltac:(lia)) as (s3 & s4 & -> & ->). cbn [mbind option_bind]. apply list.Forall_app in Hs2 as [_ Hs4].
    rewrite pop_bytes_ok, ones_app by done. f_equal. lia.
Qed.

(** * Finding bits: correctness

    [redisBitpos] returns the first bit with the value that is looked for, the
    string being followed by zeros. *)

(** The position [r] is the first [b] of the bits of [s]; -1 is no position. *)
Definition bitpos_ok (f : Z -> bool) (b : bool) (r : Z) : Prop :=
  (r = -1 /\ b = true /\ forall i, 0 <= i -> f i = false) \/
  (0 <= r /\ f r = b /\ forall i, 0 <= i < r -> f i = negb b).

Lemma bitpos_ok_unique f b r r' : bitpos_ok f b r -> bitpos_ok f b r' -> r = r'.
Proof.
  intros [(-> & -> & Hall)|(H0 & Hb & Hlt)] [(-> & E & Hall')|(H0' & Hb' & Hlt')]; try done.
  - rewrite Hall in Hb' by lia. done.
  - rewrite Hall' in Hb by lia. congruence.
  - destruct (Z.lt_trichotomy r r') as [H|[H|H]]; [|done|]; [rewrite Hlt' in Hb by lia; by destruct b|rewrite Hlt in Hb' by lia; by destruct b].
Qed.

(** The first index below [n] where a test holds. *)
Lemma least_below (f : Z -> bool) (b : bool) n : (forall i, 0 <= i < Z.of_nat n -> f i = negb b) \/
  exists k, 0 <= k < Z.of_nat n /\ f k = b /\ forall i, 0 <= i < k -> f i = negb b.
Proof.
  induction n as [|n [IH|(k & Hk & Hf & Hl)]]; [left; lia| |].
  - destruct (eqb (f (Z.of_nat n)) b) eqn:E.
    + apply eqb_prop in E. right. exists (Z.of_nat n). split; [lia|]. split; [done|]. intros i Hi. apply IH. lia.
    + left. intros i Hi. destruct (decide (i = Z.of_nat n)) as [->|]; [apply eqb_false_iff in E; by destruct (f (Z.of_nat n)), b|apply IH; lia].
  - right. exists k. split; [lia|done].
Qed.

(** Bytes with equal bits. *)
Definition full (v : bool) : Z := if v then 255 else 0.

Lemma bit_full v n i : 0 <= i < 8 * Z.of_nat n -> bit (replicate n (full v)) i = v.
Proof.
  intros Hi. unfold bit. rewrite rd_lookup, lookup_replicate_2 by lia. unfold full. destruct v; [|apply Z.bits_0].
  change 255 with (Z.ones 8). apply Z.ones_spec_low. lia.
Qed.

Lemma le_val_full v n : le_val (replicate n (full v)) = if v then 2 ^ (8 * Z.of_nat n) - 1 else 0.
Proof.
  induction n as [|n IH]; [by destruct v|]. cbn [replicate le_val]. rewrite IH, pow256_S. unfold full. destruct v; lia.
Qed.

Lemma full_bytes v n : Forall is_byte (replicate n (full v)).
Proof. apply Forall_replicate. unfold full, is_byte. destruct v; lia. Qed.

Lemma le_val_inj l k : Forall is_byte l -> Forall is_byte k -> length l = length k -> le_val l = le_val k -> l = k.
Proof. intros Hl Hk Hn Hv. rewrite <- (le_bytes_val l Hl), <- (le_bytes_val k Hk). by rewrite Hn, Hv. Qed.

Lemma forall_full v p : Forall (fun x => x = full v) p -> p = replicate (length p) (full v).
Proof. induction 1 as [|x p -> Hp IH]; [done|]. cbn. by f_equal. Qed.

(** Bits before the ones that are skipped. *)
Lemma bitpos_ok_skip p q b r : Forall (fun x => x = full (negb b)) p -> bitpos_ok (bit q) b r ->
  bitpos_ok (bit (p ++ q)) b (if r =? -1 then -1 else 8 * zlen p + r).
Proof.
  intros Hp Hr. pose proof (zlen_nonneg p). assert (Hlow : forall i, 0 <= i < 8 * zlen p -> bit (p ++ q) i = negb b).
  { intros i Hi. rewrite bit_app_l by lia. rewrite (forall_full _ _ Hp). apply bit_full. unfold zlen in Hi. lia. }
  assert (Hhigh : forall i, 0 <= i -> bit (p ++ q) (8 * zlen p + i) = bit q i) by (intros i Hi; rewrite bit_app_r; by rewrite (proj2 (Z.ltb_ge i 0)) by lia).
  destruct Hr as [(-> & -> & Hall)|(H0 & Hb & Hlt)].
  - left. split; [done|]. split; [done|]. intros i Hi. destruct (decide (i < 8 * zlen p)); [apply Hlow; lia|]. replace i with (8 * zlen p + (i - 8 * zlen p)) by lia. rewrite Hhigh by lia. apply Hall. lia.
  - right. rewrite (proj2 (Z.eqb_neq r (-1))) by lia. split; [lia|]. split; [by rewrite Hhigh|]. intros i Hi. destruct (decide (i < 8 * zlen p)); [apply Hlow; lia|].
    replace i with (8 * zlen p + (i - 8 * zlen p)) by lia. rewrite Hhigh by lia. apply Hlt. lia.
Qed.

Section Bitpos_spec.
Context (W : Z) (HW : 1 <= W).

Lemma skip_bytes_ok b s : forall addr pos, exists p q found, skip_bytes W (full (negb b)) addr s pos = (q, pos + 8 * zlen p, found) /\ s = p ++ q /\
  Forall (fun x => x = full (negb b)) p /\ (found = true -> exists x q', q = x :: q' /\ x <> full (negb b)).
Proof.
  induction s as [|x s IH]; intros addr pos; cbn [skip_bytes]; [exists [], [], false; split; [f_equal; f_equal; change (zlen (@nil Z)) with 0; lia|done]|].
  destruct (_ =? 0); [exists [], (x :: s), false; split; [f_equal; f_equal; change (zlen (@nil Z)) with 0; lia|done]|].
  destruct (Z.eqb_spec x (full (negb b))) as [->|Hne]; cbn [negb].
  - destruct (IH (addr + 1) (pos + 8)) as (p & q & found & -> & -> & Hp & Hf). exists (full (negb b) :: p), q, found. rewrite zlen_cons. split; [f_equal; f_equal; lia|]. split; [done|]. split; [by constructor|done].
  - exists [], (x :: s), true. split; [f_equal; f_equal; change (zlen (@nil Z)) with 0; lia|]. do 2 (split; [done|]). intros _. by exists x, s.
Qed.

Definition skip_word (b : bool) : Z := if b then 0 else ULONG_MAX W.

Lemma skip_word_full b : skip_word b = le_val (replicate (Z.to_nat W) (full (negb b))).
Proof. rewrite le_val_full, Z2Nat.id by lia. unfold skip_word, ULONG_MAX. by destruct b. Qed.

Lemma skip_words_ok b fuel : forall s pos, Forall is_byte s -> (length s <= fuel)%nat -> exists p q, skip_words W fuel (skip_word b) s pos = Some (q, pos + 8 * zlen p) /\ s = p ++ q /\
  Forall (fun x => x = full (negb b)) p /\ (zlen q < W \/ take (Z.to_nat W) q <> replicate (Z.to_nat W) (full (negb b))).
Proof.
  induction fuel as [|fuel IH]; intros s pos Hs Hf; cbn [skip_words].
  { destruct (Z.geb_spec (zlen s) W); [unfold zlen in *; lia|]. exists [], s. split; [do 2 f_equal; change (zlen (@nil Z)) with 0; lia|]. do 2 (split; [done|]). left. lia. }
  destruct (Z.geb_spec (zlen s) W) as [Hge|Hlt]; [|exists [], s; split; [do 2 f_equal; change (zlen (@nil Z)) with 0; lia|]; do 2 (split; [done|]); left; lia].
  destruct (Z.eqb_spec (le_val (take (Z.to_nat W) s)) (skip_word b)) as [E|E]; cbn [negb].
  - assert (Ht : take (Z.to_nat W) s = replicate (Z.to_nat W) (full (negb b))).
    { apply le_val_inj; [by apply Forall_take|apply full_bytes|rewrite length_replicate, length_take; unfold zlen in Hge; lia|by rewrite E, skip_word_full]. }
    destruct (IH (drop (Z.to_nat W) s) (pos + W * 8)) as (p & q & -> & Hd & Hp & Hor); [by apply Forall_drop|rewrite length_drop; unfold zlen in Hge; lia|].
    exists (take (Z.to_nat W) s ++ p), q. rewrite zlen_app, Ht. unfold zlen at 2. rewrite length_replicate. split; [do 2 f_equal; lia|].
    split; [by rewrite <- app_assoc, <- Hd, <- Ht, take_drop|]. split; [|done]. apply list.Forall_app. split; [by apply Forall_replicate|done].
  - exists [], s. split; [do 2 f_equal; change (zlen (@nil Z)) with 0; lia|]. do 2 (split; [done|]). right. intros Ht. apply E. by rewrite Ht, skip_word_full.
Qed.

(** The loaded word holds the bits of the string from its top. *)
Lemma load_word_ok n : forall s w, Forall is_byte s -> Z.of_nat n <= W -> 0 <= w < 2 ^ (8 * (W - Z.of_nat n)) ->
  0 <= load_word W n s w /\ forall j, 0 <= j -> Z.testbit (load_word W n s w) j = if j <? 8 * Z.of_nat n then bit s (8 * Z.of_nat n - 1 - j) else Z.testbit w (j - 8 * Z.of_nat n).
Proof.
  induction n as [|n IH]; intros s w Hs Hn Hw; cbn [load_word].
  { split; [lia|]. intros j Hj. rewrite (proj2 (Z.ltb_ge _ _)) by lia. f_equal. lia. }
  assert (Hp : 2 ^ (8 * (W - Z.of_nat n)) = 256 * 2 ^ (8 * (W - Z.of_nat (S n)))) by (change 256 with (2 ^ 8); rewrite <- Z.pow_add_r by lia; f_equal; lia).
  assert (Hle : 2 ^ (8 * (W - Z.of_nat n)) <= 2 ^ (8 * W)) by (apply Z.pow_le_mono_r; lia).
  rewrite wrapu_id by (rewrite Z.shiftl_mul_pow2 by lia; lia).
  assert (Hor : forall c, is_byte c -> Z.lor (Z.shiftl w 8) c = c + 256 * w).
  { intros c Hc. rewrite Z.lor_comm, lor_shiftl_add by (unfold is_byte in Hc; lia). lia. }
  assert (Hlow : forall c j, is_byte c -> 0 <= j -> Z.testbit (c + 256 * w) j = if j <? 8 then Z.testbit c j else Z.testbit w (j - 8)).
  { intros c j Hc Hj. rewrite <- Hor by done. rewrite Z.lor_spec, Z.shiftl_spec by lia. destruct (Z.ltb_spec j 8); [by rewrite (Z.testbit_neg_r w) by lia|].
    rewrite (byte_high_bits c j) by (done || lia). apply orb_false_r. }
  assert (Hbits : forall c q, is_byte c -> Forall is_byte q -> (forall i, 0 <= i -> bit s i = if i <? 8 then Z.testbit c (7 - i) else bit q (i - 8)) ->
    0 <= load_word W n q (c + 256 * w) /\ forall j, 0 <= j -> Z.testbit (load_word W n q (c + 256 * w)) j =
      if j <? 8 * Z.of_nat (S n) then bit s (8 * Z.of_nat (S n) - 1 - j) else Z.testbit w (j - 8 * Z.of_nat (S n))).
  { intros c q Hc Hq Hbit. destruct (IH q (c + 256 * w) Hq ltac:(lia)) as [H0 Hj]; [unfold is_byte in Hc; lia|]. split; [done|]. intros j Hjj. rewrite Hj by done.
    destruct (Z.ltb_spec j (8 * Z.of_nat n)); [rewrite (proj2 (Z.ltb_lt j _)) by lia; rewrite Hbit by lia; rewrite (proj2 (Z.ltb_ge _ 8)) by lia; f_equal; lia|].
    rewrite Hlow by (done || lia). destruct (Z.ltb_spec (j - 8 * Z.of_nat n) 8).
    - rewrite (proj2 (Z.ltb_lt j _)) by lia. rewrite Hbit by lia. rewrite (proj2 (Z.ltb_lt _ 8)) by lia. f_equal. lia.
    - rewrite (proj2 (Z.ltb_ge j _)) by lia. f_equal. lia. }
  destruct s as [|c s].
  - replace (Z.shiftl w 8) with (0 + 256 * w) by (rewrite Z.shiftl_mul_pow2 by lia; lia). apply Hbits; [done|done|]. intros i Hi. rewrite (bit_past [] i) by (change (zlen (@nil Z)) with 0; lia).
    destruct (Z.ltb_spec i 8); [by rewrite Z.bits_0|]. by rewrite bit_past by (change (zlen (@nil Z)) with 0; lia).
  - apply list.Forall_cons in Hs as [Hc Hs]. rewrite Hor by done. apply Hbits; [done|done|]. intros i Hi. change (c :: s) with ([c] ++ s).
    destruct (Z.ltb_spec i 8); [rewrite bit_app_l by (change (zlen [c]) with 1; lia); unfold bit; replace (i / 8) with 0 by lia; cbn; f_equal; lia|].
    replace i with (8 * zlen [c] + (i - 8)) at 1 by (change (zlen [c]) with 1; lia). rewrite bit_app_r. by rewrite (proj2 (Z.ltb_ge (i - 8) 0)) by lia.
Qed.

Lemma scan_word_ok word b n : forall pos k, 0 <= k < Z.of_nat n -> Z.testbit word (Z.of_nat n - 1 - k) = b ->
  (forall i, 0 <= i < k -> Z.testbit word (Z.of_nat n - 1 - i) = negb b) -> scan_word n (2 ^ (Z.of_nat n - 1)) word b pos = Some (pos + k).
Proof.
  induction n as [|n IH]; intros pos k Hk Hb Hlt; [lia|]. cbn [scan_word]. replace (Z.of_nat (S n) - 1) with (Z.of_nat n) in * by lia.
  rewrite (proj2 (Z.eqb_neq (2 ^ Z.of_nat n) 0)) by (apply Z.pow_nonzero; lia). rewrite Z.land_comm, land_pow2_test, negb_involutive by lia.
  destruct (decide (k = 0)) as [->|Hk0]; [rewrite Z.sub_0_r in Hb; rewrite Hb, eqb_reflx, Z.add_0_r; done|].
  specialize (Hlt 0 ltac:(lia)) as H0. rewrite Z.sub_0_r in H0. rewrite H0. replace (eqb (negb b) b) with false by (by destruct b).
  rewrite Z.shiftr_div_pow2 by lia. replace (2 ^ Z.of_nat n / 2 ^ 1) with (2 ^ (Z.of_nat n - 1)) by (rewrite <- Z.pow_sub_r by lia; done).
  rewrite (IH (pos + 1) (k - 1)); [f_equal; lia|lia|rewrite <- Hb; f_equal; lia|]. intros i Hi. rewrite <- (Hlt (i + 1)) by lia. f_equal. lia.
Qed.

Lemma redisBitpos_ok addr s b : Forall is_byte s -> exists r, redisBitpos W addr s b = Some r /\ bitpos_ok (bit s) b r.
Proof.
  intros Hs. unfold redisBitpos. replace (if b then 0 else 255) with (full (negb b)) by (by destruct b). fold (skip_word b).
  destruct (skip_bytes_ok b s addr 0) as (p & q & found & -> & -> & Hp & Hfound). apply list.Forall_app in Hs as [_ Hq]. rewrite Z.add_0_l.
  assert (Hnext : exists p' q', (if found then Some (q, 8 * zlen p) else skip_words W (length q) (skip_word b) q (8 * zlen p)) = Some (q', 8 * zlen p + 8 * zlen p') /\ q = p' ++ q' /\
    Forall (fun x => x = full (negb b)) p' /\ (zlen q' < W \/ take (Z.to_nat W) q' <> replicate (Z.to_nat W) (full (negb b)))).
  { destruct found; [|by apply skip_words_ok]. exists [], q. split; [do 2 f_equal; change (zlen (@nil Z)) with 0; lia|]. do 2 (split; [done|]). right.
    destruct (Hfound eq_refl) as (x & q' & -> & Hx). destruct (Z.to_nat W) eqn:E; [lia|]. cbn. intros [= ? _]. done. }
  destruct Hnext as (p' & q' & -> & -> & Hp' & Hor). cbn [mbind option_bind]. apply list.Forall_app in Hq as [_ Hq'].
  assert (Hall : Forall (fun x => x = full (negb b)) (p ++ p')) by (by apply list.Forall_app).
  assert (Hskip : forall r, bitpos_ok (bit q') b r -> bitpos_ok (bit (p ++ p' ++ q')) b (if r =? -1 then -1 else 8 * zlen p + 8 * zlen p' + r)).
  { intros r Hr. pose proof (bitpos_ok_skip (p ++ p') q' b r Hall Hr) as H. rewrite <- app_assoc in H. rewrite zlen_app in H. replace (8 * (zlen p + zlen p') + r) with (8 * zlen p + 8 * zlen p' + r) in H by lia. done. }
  destruct (load_word_ok (Z.to_nat W) q' 0 Hq' ltac:(lia)) as [Hw0 Hwb]; [rewrite Z2Nat.id, Z.sub_diag by lia; cbn; lia|]. set (word := load_word W (Z.to_nat W) q' 0) in *.
  assert (Hwbit : forall i, 0 <= i < 8 * W -> Z.testbit word (8 * W - 1 - i) = bit q' i).
  { intros i Hi. rewrite Hwb by lia. rewrite Z2Nat.id by lia. rewrite (proj2 (Z.ltb_lt _ _)) by lia. f_equal. lia. }
  destruct (least_below (bit q') b (Z.to_nat (8 * W))) as [Hnone|(k & Hk & Hkb & Hkl)]; rewrite Z2Nat.id in * by lia.
  - assert (Hshort : zlen q' < W).
    { destruct Hor as [?|Ht]; [done|]. destruct (decide (zlen q' < W)); [done|]. exfalso. apply Ht. assert (Hlen : zlen (take (Z.to_nat W) q') = W) by (apply zlen_take; lia).
      apply bits_ext; [rewrite Hlen; unfold zlen; rewrite length_replicate; lia|by apply Forall_take|apply full_bytes|]. rewrite Hlen. intros i Hi. rewrite bit_full by lia.
      rewrite <- (Hnone i) by lia. rewrite <- (take_drop (Z.to_nat W) q') at 2. rewrite bit_app_l by lia. done. }
    destruct b; [|specialize (Hnone (8 * zlen q') ltac:(pose proof (zlen_nonneg q'); lia)); rewrite bit_past in Hnone by lia; done].
    assert (Hzero : word = 0).
    { apply Z.bits_inj'. intros j Hj. rewrite Z.bits_0, Hwb by lia. destruct (Z.ltb_spec j (8 * W)); [apply Hnone; lia|apply Z.bits_0]. }
    rewrite Hzero. cbn. exists (-1). split; [done|]. apply (Hskip (-1)). left. split; [done|]. split; [done|]. intros i Hi.
    destruct (decide (i < 8 * W)); [by apply Hnone|apply bit_past; lia].
  - assert (Hnz : b && (word =? 0) = false).
    { destruct b; [|done]. cbn [andb]. apply Z.eqb_neq. intros Hz. rewrite <- Hwbit, Hz, Z.bits_0 in Hkb by lia. done. }
    rewrite Hnz. replace (8 * W - 1) with (Z.of_nat (Z.to_nat (8 * W)) - 1) by lia. rewrite (scan_word_ok word b (Z.to_nat (8 * W)) _ k).
    + exists (8 * zlen p + 8 * zlen p' + k). split; [done|]. specialize (Hskip k). rewrite (proj2 (Z.eqb_neq k (-1))) in Hskip by lia. apply Hskip. right. split; [lia|done].
    + lia.
    + rewrite Z2Nat.id by lia. by rewrite Hwbit by lia.
    + intros i Hi. rewrite Z2Nat.id by lia. rewrite Hwbit by lia. by apply Hkl.
Qed.
End Bitpos_spec.
