(* ===== verification/BitrangeThms.v ===== *)
(** * BITCOUNT and BITPOS: ranges of bits

    The commands give the number of set bits, and the first bit with a value,
    of exactly the bits of the range. *)

From stdpp Require Import base list numbers option tactics.
From S2P Require Import Prelude Util SdsArgs Bitops BitopsSpec BitopsThms Bitcount BitcountSpec.

#[local] Ltac Zify.zify_post_hook ::= Z.to_euclidean_division_equations.

(** ** Ranges *)

(** The first and last unit of a range, negative ones counted from the end. *)
Definition range_lo (len start : Z) : Z := Z.max 0 (if start <? 0 then len + start else start).
Definition range_hi (len end_ : Z) : Z := Z.min (len - 1) (Z.max 0 (if end_ <? 0 then len + end_ else end_)).

(** In bits. *)
Definition units (isbit : bool) : Z := if isbit then 1 else 8.
Definition bit_lo (s : list Z) (isbit : bool) (start : Z) : Z := units isbit * range_lo (8 / units isbit * zlen s) start.
Definition bit_hi (s : list Z) (isbit : bool) (end_ : Z) : Z := units isbit * (range_hi (8 / units isbit * zlen s) end_ + 1) - 1.

(** The bits of a byte before bit [m], and those after bit [e]. *)
Definition before_mask (m : Z) : Z := Z.land (Z.lnot (Z.shiftl 1 (8 - m) - 1)) 255.
Definition after_mask (e : Z) : Z := Z.shiftl 1 (7 - e) - 1.

Lemma convert_range_ok s start end_ isbit (a := bit_lo s isbit start) (e := bit_hi s isbit end_) :
  let r := convert_range (if isbit then zlen s * 8 else zlen s) start end_ isbit in
  0 <= a /\ e < 8 * zlen s /\
  if r_start r >? r_end r then e < a
  else a <= e /\ r_start r = a / 8 /\ r_end r = e / 8 /\ r_first_mask r = before_mask (a mod 8) /\ r_last_mask r = after_mask (e mod 8).
Proof.
  pose proof (zlen_nonneg s). set (totlen := if isbit then zlen s * 8 else zlen s). cbv zeta.
  assert (Hu : 8 / units isbit * zlen s = totlen) by (unfold totlen, units; destruct isbit; [change (8 / 1) with 8|change (8 / 8) with 1]; lia).
  assert (Ha : a = units isbit * range_lo totlen start) by (unfold a, bit_lo; by rewrite Hu).
  assert (He : e = units isbit * (range_hi totlen end_ + 1) - 1) by (unfold e, bit_hi; by rewrite Hu). clear Hu.
  clearbody a e. unfold convert_range. set (st := if start <? 0 then totlen + start else start). set (en := if end_ <? 0 then totlen + end_ else end_).
  set (st' := if st <? 0 then 0 else st). set (en' := if en <? 0 then 0 else en). set (en'' := if en' >=? totlen then totlen - 1 else en').
  assert (Hst : st' = range_lo totlen start) by (unfold st', range_lo; fold st; destruct (Z.ltb_spec st 0); lia).
  assert (Hen' : en' = Z.max 0 en) by (unfold en'; destruct (Z.ltb_spec en 0); lia).
  assert (Hen : en'' = range_hi totlen end_) by (unfold en'', range_hi; fold en; rewrite <- Hen'; destruct (Z.geb_spec en' totlen); lia).
  rewrite Hst, Hen. set (lo := range_lo totlen start) in *. set (hi := range_hi totlen end_) in *. assert (Hlo : 0 <= lo) by (unfold lo, range_lo; lia). assert (Hhi : hi <= totlen - 1) by (unfold hi, range_hi; lia).
  clearbody lo hi. clear Hst Hen. subst a e. unfold totlen, units in *. destruct isbit; cbn [andb].
  - split; [lia|]. split; [lia|]. destruct (Z.leb_spec lo hi); cbn [r_start r_end r_first_mask r_last_mask]; [|destruct (Z.gtb_spec lo hi); lia].
    rewrite !shiftr3, !land7. destruct (Z.gtb_spec (lo / 8) (hi / 8)); [lia|]. replace (1 * lo) with lo by lia. replace (1 * (hi + 1) - 1) with hi by lia. by split_and!.
  - split; [lia|]. split; [lia|]. cbn [r_start r_end r_first_mask r_last_mask]. destruct (Z.gtb_spec lo hi); [lia|]. replace ((8 * lo) mod 8) with 0 by lia. replace ((8 * (hi + 1) - 1) mod 8) with 7 by lia.
    split_and!; try done; lia.
Qed.

(** ** Parts of a string *)

Lemma bit_part s off n part i : rd_bytes s off n = Some part -> 0 <= i < 8 * n -> bit part i = bit s (8 * off + i).
Proof.
  intros Hr Hi. unfold bit. destruct (div8_add off i) as [-> ->]. apply rd_bytes_inv in Hr as (H0 & Hz & Hle & Hin). by rewrite Hin by lia.
Qed.

Lemma part_bytes s off n part : Forall is_byte s -> rd_bytes s off n = Some part -> Forall is_byte part.
Proof.
  intros Hs Hr. unfold rd_bytes in Hr. destruct (_ && _); [|done]. injection Hr as <-. by apply Forall_take, Forall_drop.
Qed.

Lemma rd_bytes_some s off n : 0 <= off -> 0 <= n -> off + n <= zlen s -> exists part, rd_bytes s off n = Some part /\ zlen part = n.
Proof. intros H0 Hn Hle. eexists. split; [by apply rd_bytes_unfold|]. rewrite zlen_take; [done|]. rewrite zlen_drop; lia. Qed.

Lemma ones_part s off n part : rd_bytes s off n = Some part -> 0 <= n -> ones part = count (bit s) (8 * off) (Z.to_nat (8 * n)).
Proof.
  intros Hr Hn. pose proof (rd_bytes_inv _ _ _ _ Hr) as (_ & Hz & _). rewrite ones_count. replace (8 * length part)%nat with (Z.to_nat (8 * n)) by (unfold zlen in Hz; lia).
  apply count_ext. intros i Hi. rewrite Z.add_0_l. apply (bit_part _ _ _ _ _ Hr). lia.
Qed.

Lemma bit_byte s k b i : rd s k = Some b -> 0 <= i < 8 -> Z.testbit b (7 - i) = bit s (8 * k + i).
Proof. intros Hb Hi. unfold bit. replace ((8 * k + i) / 8) with k by lia. rewrite Hb. f_equal. lia. Qed.

(** ** Masks, on every byte *)

Lemma byte_check8 (P : Z -> Z -> bool) : forallb (fun b => forallb (P b) (seqZ 0 8)) (seqZ 0 256) = true -> forall b m, is_byte b -> 0 <= m < 8 -> P b m = true.
Proof.
  intros H b m Hb Hm. pose proof (byte_check _ H b Hb) as H1. cbn beta in H1. rewrite forallb_forall in H1. apply H1, list_elem_of_In, elem_of_seqZ. lia.
Qed.

Lemma byte_check64 (P : Z -> Z -> Z -> bool) : forallb (fun b => forallb (fun m => forallb (P b m) (seqZ 0 8)) (seqZ 0 8)) (seqZ 0 256) = true ->
  forall b m i, is_byte b -> 0 <= m < 8 -> 0 <= i < 8 -> P b m i = true.
Proof.
  intros H b m i Hb Hm Hi. pose proof (byte_check8 (fun b m => forallb (P b m) (seqZ 0 8)) H b m Hb Hm) as H1. cbn beta in H1.
  rewrite forallb_forall in H1. apply H1, list_elem_of_In, elem_of_seqZ. lia.
Qed.

Lemma before_mask_pop b m : is_byte b -> 0 <= m < 8 -> popb (Z.land b (before_mask m)) = count (fun i => Z.testbit b (7 - i)) 0 (Z.to_nat m).
Proof. intros Hb Hm. apply Z.eqb_eq. revert b m Hb Hm. apply byte_check8. vm_compute. reflexivity. Qed.

Lemma after_mask_pop b e : is_byte b -> 0 <= e < 8 -> popb (Z.land b (after_mask e)) = count (fun i => Z.testbit b (7 - i)) (e + 1) (Z.to_nat (7 - e)).
Proof. intros Hb Hm. apply Z.eqb_eq. revert b e Hb Hm. apply byte_check8. vm_compute. reflexivity. Qed.

Lemma masked_bytes b m : is_byte b -> 0 <= m < 8 -> is_byte (Z.land b (before_mask m)) /\ is_byte (Z.land b (after_mask m)) /\
  is_byte (Z.land b (u8 (Z.lnot (before_mask m)))) /\ is_byte (Z.lor b (before_mask m)) /\ is_byte (Z.land b (u8 (Z.lnot (after_mask m)))) /\ is_byte (Z.lor b (after_mask m)).
Proof.
  intros Hb Hm. set (ib x := (0 <=? x) && (x <? 256)). assert (Hib : forall x, ib x = true -> is_byte x) by (intros x H; apply andb_prop in H as [H1 H2]; apply Z.leb_le in H1; by apply Z.ltb_lt in H2).
  assert (H : ib (Z.land b (before_mask m)) && (ib (Z.land b (after_mask m)) && (ib (Z.land b (u8 (Z.lnot (before_mask m)))) && (ib (Z.lor b (before_mask m)) &&
    (ib (Z.land b (u8 (Z.lnot (after_mask m)))) && ib (Z.lor b (after_mask m)))))) = true) by (revert b m Hb Hm; apply byte_check8; vm_compute; reflexivity).
  clearbody ib. repeat (apply andb_prop in H as [? H]). split_and!; by apply Hib.
Qed.

(** ** BITCOUNT *)

Lemma bitcount_finish use_popcnt addr addr2 s a e : Forall is_byte s -> 8 * zlen s < 2 ^ 64 -> 0 <= a <= e -> e < 8 * zlen s ->
  (count ← popcountAuto use_popcnt addr s (a / 8) (e / 8 - a / 8 + 1);
   if negb (before_mask (a mod 8) =? 0) || negb (after_mask (e mod 8) =? 0) then
     first ← (if negb (before_mask (a mod 8) =? 0) then b ← rd s (a / 8); Some (Z.land b (before_mask (a mod 8))) else Some 0);
     last ← (if negb (after_mask (e mod 8) =? 0) then b ← rd s (e / 8); Some (Z.land b (after_mask (e mod 8))) else Some 0);
     n ← redisPopcount use_popcnt addr2 [first; last];
     Some (inr (count - n))
   else Some (@inr bit_err Z count)) = Some (inr (count (bit s) a (Z.to_nat (e - a + 1)))).
Proof.
  intros Hs Hz Ha He. unfold popcountAuto. destruct (rd_bytes_some s (a / 8) (e / 8 - a / 8 + 1)) as (part & Hp & Hpz); [lia..|]. rewrite Hp. cbn [mbind option_bind].
  rewrite redisPopcount_ok by (try (by eapply part_bytes); lia). cbn [mbind option_bind]. rewrite (ones_part _ _ _ _ Hp) by lia.
  destruct (rd_Some s (a / 8)) as [x Hx]; [lia|]. destruct (rd_Some s (e / 8)) as [y Hy]; [lia|]. rewrite Hx, Hy. cbn [mbind option_bind].
  pose proof (byte_of _ _ _ Hs Hx) as Hxb. pose proof (byte_of _ _ _ Hs Hy) as Hyb.
  assert (Hfirst : popb (Z.land x (before_mask (a mod 8))) = count (bit s) (8 * (a / 8)) (Z.to_nat (a mod 8))).
  { rewrite before_mask_pop by (done || lia). apply count_ext. intros i Hi. rewrite Z.add_0_l. apply (bit_byte s (a / 8)); [done|lia]. }
  assert (Hlast : popb (Z.land y (after_mask (e mod 8))) = count (bit s) (e + 1) (Z.to_nat (7 - e mod 8))).
  { rewrite after_mask_pop by (done || lia). apply count_ext. intros i Hi. rewrite (bit_byte s (e / 8)) by (done || lia). f_equal. lia. }
  assert (Hsum : count (bit s) (8 * (a / 8)) (Z.to_nat (8 * (e / 8 - a / 8 + 1))) =
    count (bit s) (8 * (a / 8)) (Z.to_nat (a mod 8)) + count (bit s) a (Z.to_nat (e - a + 1)) + count (bit s) (e + 1) (Z.to_nat (7 - e mod 8))).
  { replace (Z.to_nat (8 * (e / 8 - a / 8 + 1))) with (Z.to_nat (a mod 8) + (Z.to_nat (e - a + 1) + Z.to_nat (7 - e mod 8)))%nat by lia. rewrite !count_add.
    replace (8 * (a / 8) + Z.of_nat (Z.to_nat (a mod 8))) with a by lia. replace (a + Z.of_nat (Z.to_nat (e - a + 1))) with (e + 1) by lia. lia. }
  rewrite Hsum, <- Hfirst, <- Hlast. destruct (masked_bytes x (a mod 8) Hxb ltac:(lia)) as (Hxm & _). destruct (masked_bytes y (e mod 8) Hyb ltac:(lia)) as (_ & Hym & _).
  replace (if negb (before_mask (a mod 8) =? 0) then Some (Z.land x (before_mask (a mod 8))) else Some 0) with (Some (Z.land x (before_mask (a mod 8))))
    by (destruct (Z.eqb_spec (before_mask (a mod 8)) 0) as [->|]; [by rewrite Z.land_0_r|done]).
  replace (if negb (after_mask (e mod 8) =? 0) then Some (Z.land y (after_mask (e mod 8))) else Some 0) with (Some (Z.land y (after_mask (e mod 8))))
    by (destruct (Z.eqb_spec (after_mask (e mod 8)) 0) as [->|]; [by rewrite Z.land_0_r|done]).
  cbn [mbind option_bind]. rewrite (redisPopcount_ok use_popcnt addr2 [Z.land x _; Z.land y _]) by (first [by constructor; [|constructor]|done]). cbn [mbind option_bind]. rewrite !ones_cons. change (ones []) with 0.
  destruct (Z.eqb_spec (before_mask (a mod 8)) 0) as [E1|E1]; destruct (Z.eqb_spec (after_mask (e mod 8)) 0) as [E2|E2]; cbn [negb orb]; do 2 f_equal; try lia.
  rewrite E1, E2, !Z.land_0_r. change (popb 0) with 0. lia.
Qed.

Lemma value_text o : value_ok o -> exists src, getObjectReadOnlyString o = Some src /\ default [] src = bytes_of o /\ (src = None <-> o = None) /\ bool_decide (o = Some OtherType) = false.
Proof.
  intros Ho. destruct o as [[s|v|]|]; cbn in Ho |- *; [|rewrite int_text_ok by done|done|]; eexists; split_and!; try done; by rewrite bool_decide_false.
Qed.

Lemma src_none o (src : option (list Z)) : value_ok o -> (src = None <-> o = None) -> src = None -> bytes_of o = [].
Proof. intros _ H Hs. rewrite (proj1 H Hs). done. Qed.

(** The unit argument, when there is one. *)
Definition unit_arg (u : list (list Z)) (isbit : bool) : Prop :=
  (u = [] /\ isbit = false) \/ (exists w, u = [w] /\ parse_unit w = Some isbit).

Lemma strlen_fine (s : list Z) : zlen s <= LLONG_MAX / 8 -> cassert (zlen s <=? LLONG_MAX / 8) = Some () /\ 8 * zlen s < 2 ^ 64.
Proof. intros H. unfold cassert. rewrite (proj2 (Z.leb_le _ _)) by done. split; [done|]. change LLONG_MAX with (2 ^ 63 - 1) in H. lia. Qed.

(** C27: [BITCOUNT] replies with the number of set bits of the string, or of
    exactly the bits of the range given in bytes or in bits, with negative ends
    counted from the end of the string, however the string is aligned in memory
    and whichever of the two counting loops is used. *)
Theorem bitcount_counts use_popcnt addr addr2 o : value_ok o -> zlen (bytes_of o) <= LLONG_MAX / 8 -> let s := bytes_of o in
  bitcountCommand use_popcnt addr addr2 o [] = Some (inr (count (bit s) 0 (8 * length s))) /\
  forall a e u start end_ isbit, string2ll a = Some start -> string2ll e = Some end_ -> unit_arg u isbit ->
    bitcountCommand use_popcnt addr addr2 o (a :: e :: u) =
    Some (inr (if (start <? 0) && (end_ <? 0) && (start >? end_) then 0
               else count (bit s) (bit_lo s isbit start) (Z.to_nat (bit_hi s isbit end_ - bit_lo s isbit start + 1)))).
Proof.
  intros Ho Hz s. destruct (value_text o Ho) as (src & Hsrc & Hs & Hnone & Hty). pose proof (bytes_of_bytes o Ho) as Hb. fold s in Hs, Hz, Hb.
  destruct (strlen_fine s Hz) as [Hass H64]. pose proof (zlen_nonneg s). split.
  - unfold bitcountCommand. rewrite Hty, Hsrc. cbn [mbind option_bind r_start r_end r_first_mask r_last_mask].
    destruct src as [p|]; [|by rewrite (src_none _ _ Ho Hnone eq_refl : s = [])]. cbn in Hs. unfold id in Hs. subst p. change (default [] (Some s)) with s. destruct (Z.gtb_spec 0 (zlen s - 1)).
    + by replace s with (@nil Z) by (symmetry; apply zlen_0_nil; lia).
    + change (negb (0 =? 0) || negb (0 =? 0)) with false. cbn match. unfold popcountAuto. destruct (rd_bytes_some s 0 (zlen s - 1 - 0 + 1)) as (part & Hp & Hpz); [lia..|]. rewrite Hp. cbn [mbind option_bind].
      rewrite redisPopcount_ok by (try (by eapply part_bytes); lia). cbn [mbind option_bind]. rewrite (ones_part _ _ _ _ Hp) by lia. do 3 f_equal. unfold zlen. lia.
  - intros a e u start end_ isbit Ha He Hu. unfold bitcountCommand.
    set (r := convert_range (if isbit then zlen s * 8 else zlen s) start end_ isbit). pose proof (convert_range_ok s start end_ isbit) as Hr. cbv zeta in Hr. fold r in Hr. destruct Hr as (H0 & H1 & Hr).
    destruct Hu as [[-> ->]|(w & -> & Hw)]; rewrite Ha, He, ?Hw, Hty, Hsrc; cbn [mbind option_bind]; rewrite Hs, Hass; cbn [mbind option_bind];
      (destruct ((start <? 0) && (end_ <? 0) && (start >? end_)); [done|]); fold r; change (if false then zlen s * 8 else zlen s) with (zlen s) in *;
      (destruct src as [p|]; [cbn in Hs; unfold id in Hs; subst p|]).
    all: try (destruct (r_start r >? r_end r) eqn:Eg; [replace (Z.to_nat _) with 0%nat by lia; done|destruct Hr as (Hae & -> & -> & -> & ->); by apply bitcount_finish]).
    all: pose proof (src_none _ _ Ho Hnone eq_refl : s = []) as Hnil; assert (zlen s = 0) by (by rewrite Hnil); by replace (Z.to_nat _) with 0%nat by lia.
Qed.

(** The bytes ["foobar"]: 26 bits are set, 4 in the first byte, 17 in bits 5 to 30. *)
Lemma bitcount_counts_witness :
  bitcountCommand false 1001 0 (Some (SdsEncoded [102; 111; 111; 98; 97; 114])) [] = Some (inr (count (bit [102; 111; 111; 98; 97; 114]) 0 48)) /\
  bitcountCommand false 1001 0 (Some (SdsEncoded [102; 111; 111; 98; 97; 114])) [[53]; [51; 48]; [66; 73; 84]] =
    Some (inr (count (bit [102; 111; 111; 98; 97; 114]) 5 26)).
Proof.
  destruct (bitcount_counts false 1001 0 (Some (SdsEncoded [102; 111; 111; 98; 97; 114]))) as [H1 H2].
  - cbn. repeat constructor; lia.
  - vm_compute. congruence.
  - split; [exact H1|]. apply (H2 [53] [51; 48] [[66; 73; 84]] 5 30 true); [by vm_compute|by vm_compute|]. right. by exists [66; 73; 84].
Defined.

(** ** BITPOS *)

(** Searching one part of a range: found at [r], or not at all. *)
Definition part_ok (f : Z -> bool) (n : Z) (b : bool) (r : Z) : Prop :=
  (0 <= r < 8 * n /\ f r = b /\ forall i, 0 <= i < r -> f i = negb b) \/
  ((forall i, 0 <= i < 8 * n -> f i = negb b) /\ r = if b then -1 else 8 * n).

Lemma part_found f n b r : 0 < n -> part_ok f n b r -> negb (r =? -1) && negb (r =? 8 * n) = true -> 0 <= r < 8 * n /\ f r = b /\ forall i, 0 <= i < r -> f i = negb b.
Proof. intros Hn [H|[_ ->]] Hf; [done|]. destruct b; [done|]. rewrite Z.eqb_refl, andb_false_r in Hf. done. Qed.

Lemma part_missing f n b r : 0 < n -> part_ok f n b r -> negb (r =? -1) && negb (r =? 8 * n) = false -> (forall i, 0 <= i < 8 * n -> f i = negb b) /\ r = if b then -1 else 8 * n.
Proof. intros Hn [(H & _)|H] Hf; [|done]. rewrite (proj2 (Z.eqb_neq r (-1))), (proj2 (Z.eqb_neq r (8 * n))) in Hf by lia. done. Qed.

Lemma bitpos_part s b r : bitpos_ok (bit s) b r -> part_ok (bit s) (zlen s) b r.
Proof.
  intros [(-> & -> & Hall)|(H0 & Hb & Hlt)]; [right; split; [intros i Hi; apply Hall; lia|done]|]. destruct (decide (r < 8 * zlen s)); [by left|].
  right. rewrite bit_past in Hb by lia. subst b. split; [intros i Hi; apply Hlt; lia|]. destruct (decide (r = 8 * zlen s)); [done|].
  pose proof (zlen_nonneg s). specialize (Hlt (8 * zlen s) ltac:(lia)). rewrite bit_past in Hlt by lia. done.
Qed.

Lemma part_ok_ext f g n b r : (forall i, 0 <= i < 8 * n -> f i = g i) -> part_ok f n b r -> part_ok g n b r.
Proof.
  intros Hfg [(H0 & Hb & Hlt)|[Hall Hr]]; [left|right; split; [|done]].
  - rewrite <- Hfg by lia. split_and!; try done; try lia. intros i Hi. rewrite <- Hfg by lia. by apply Hlt.
  - intros i Hi. rewrite <- Hfg by lia. by apply Hall.
Qed.

(** The masked first and last bytes. *)
Definition mask_first (b : bool) (m x : Z) : Z := if b then Z.land x (u8 (Z.lnot (before_mask m))) else Z.lor x (before_mask m).
Definition mask_last (b : bool) (e x : Z) : Z := if b then Z.land x (u8 (Z.lnot (after_mask e))) else Z.lor x (after_mask e).

Lemma mask_first_bits b x m i : is_byte x -> 0 <= m < 8 -> 0 <= i < 8 -> Z.testbit (mask_first b m x) (7 - i) = if m <=? i then Z.testbit x (7 - i) else negb b.
Proof.
  intros Hx Hm Hi. apply eqb_prop.
  apply (byte_check64 (fun x m i => eqb (Z.testbit (mask_first b m x) (7 - i)) (if m <=? i then Z.testbit x (7 - i) else negb b))); try done. destruct b; vm_compute; reflexivity.
Qed.

Lemma mask_last_bits b x e i : is_byte x -> 0 <= e < 8 -> 0 <= i < 8 -> Z.testbit (mask_last b e x) (7 - i) = if i <=? e then Z.testbit x (7 - i) else negb b.
Proof.
  intros Hx Hm Hi. apply eqb_prop.
  apply (byte_check64 (fun x e i => eqb (Z.testbit (mask_last b e x) (7 - i)) (if i <=? e then Z.testbit x (7 - i) else negb b))); try done. destruct b; vm_compute; reflexivity.
Qed.

Lemma mask_bytes b x m : is_byte x -> 0 <= m < 8 -> is_byte (mask_first b m x) /\ is_byte (mask_last b m x).
Proof. intros Hx Hm. destruct (masked_bytes x m Hx Hm) as (_ & _ & ? & ? & ? & ?). by destruct b. Qed.

Lemma mask_zero : before_mask 0 = 0 /\ after_mask 7 = 0 /\ (forall m, 0 <= m < 8 -> before_mask m = 0 -> m = 0) /\ (forall e, 0 <= e < 8 -> after_mask e = 0 -> e = 7).
Proof.
  assert (H : Forall (fun m => (before_mask m = 0 -> m = 0) /\ (after_mask m = 0 -> m = 7)) (seqZ 0 8)) by (repeat constructor; vm_compute; congruence).
  rewrite list.Forall_forall in H. split_and!; [done|done|intros m Hm; apply (H m), elem_of_seqZ; lia|intros m Hm; apply (H m), elem_of_seqZ; lia].
Qed.

Lemma bit_single x i : 0 <= i < 8 -> bit [x] i = Z.testbit x (7 - i).
Proof. intros Hi. unfold bit. replace (i / 8) with 0 by lia. cbn. f_equal. lia. Qed.

Section Search.
Context (W : Z) (HW : 1 <= W) (s : list Z) (Hs : Forall is_byte s) (b : bool) (addr addr2 : Z).

(** The state of the search: nothing in the range before [start], [bytes] to go
    up to the end of the range. *)
Context (a e : Z) (Hae : 0 <= a <= e) (He : e < 8 * zlen s).

Definition search_ok (r : Z * Z * Z) : Prop :=
  let '(pos, start, bytes) := r in
  start + bytes = e / 8 + 1 /\ 0 <= start /\
  ((0 <= pos /\ a <= 8 * start + pos <= e /\ bit s (8 * start + pos) = b /\ forall i, a <= i < 8 * start + pos -> bit s i = negb b) \/
   ((forall i, a <= i <= e -> bit s i = negb b) /\ pos = if b then -1 else 8 * bytes)).

Lemma bitpos1_ok x : is_byte x -> exists r, bitpos1 W addr2 x b = Some r /\ part_ok (bit [x]) 1 b r.
Proof.
  intros Hx. destruct (redisBitpos_ok W HW addr2 [x] b) as (r & Hr & Hok); [by constructor|]. exists r. split; [done|]. by apply (bitpos_part [x]).
Qed.

(** The last byte, masked. *)
Lemma search_tail start bytes : start = e / 8 -> bytes = 1 -> a <= 8 * start -> (forall i, a <= i < 8 * start -> bit s i = negb b) ->
  exists r, (x ← rd s (e / 8); pos ← bitpos1 W addr2 (mask_last b (e mod 8) x) b; Some (pos, start, bytes)) = Some r /\ search_ok r.
Proof.
  intros Hst Hby Ha Hprev. destruct (rd_Some s (e / 8)) as [x Hx]; [lia|]. rewrite Hx. cbn [mbind option_bind]. pose proof (byte_of _ _ _ Hs Hx) as Hxb.
  destruct (bitpos1_ok (mask_last b (e mod 8) x)) as (r & -> & Hr); [by apply mask_bytes; [|lia]|]. cbn [mbind option_bind]. eexists. split; [done|].
  apply (part_ok_ext _ (fun i => if i <=? e mod 8 then bit s (8 * start + i) else negb b)) in Hr.
  2:{ intros i Hi. rewrite bit_single, mask_last_bits by (done || lia). destruct (_ <=? _); [|done]. subst start. by apply (bit_byte s). }
  split; [lia|]. split; [lia|]. destruct Hr as [(H0 & Hb & Hlt)|[Hall Hr]].
  - left. destruct (Z.leb_spec r (e mod 8)); [|by destruct b]. split; [lia|]. split; [lia|]. split; [done|]. intros i Hi. destruct (decide (i < 8 * start)); [apply Hprev; lia|].
    specialize (Hlt (i - 8 * start) ltac:(lia)). rewrite (proj2 (Z.leb_le _ _)) in Hlt by lia. by replace (8 * start + (i - 8 * start)) with i in Hlt by lia.
  - right. split; [|subst bytes; lia]. intros i Hi. destruct (decide (i < 8 * start)); [apply Hprev; lia|].
    specialize (Hall (i - 8 * start) ltac:(lia)). rewrite (proj2 (Z.leb_le _ _)) in Hall by lia. by replace (8 * start + (i - 8 * start)) with i in Hall by lia.
Qed.
(** The bytes up to the last one, and the last one when it is not masked. *)
Lemma search_rest start bytes (last := after_mask (e mod 8)) (cur := bytes - (if negb (last =? 0) then 1 else 0)) :
  start + bytes = e / 8 + 1 -> 1 <= bytes -> a <= 8 * start -> (forall i, a <= i < 8 * start -> bit s i = negb b) ->
  exists r, (if cur >? 0 then
      part ← rd_bytes s start cur;
      pos ← redisBitpos W (addr + start) part b;
      if (bytes =? cur) || (negb (pos =? -1) && negb (pos =? cur * 8)) then Some (pos, start, bytes)
      else x ← rd s (e / 8); pos ← bitpos1 W addr2 (mask_last b (e mod 8) x) b; Some (pos, start + cur, bytes - cur)
    else x ← rd s (e / 8); pos ← bitpos1 W addr2 (mask_last b (e mod 8) x) b; Some (pos, start, bytes)) = Some r /\ search_ok r.
Proof.
  intros Hsum Hby Ha Hprev. destruct mask_zero as (_ & _ & _ & Hlast0). assert (Hst : 0 <= start) by lia.
  assert (Hcur : (cur = bytes /\ e mod 8 = 7) \/ cur = bytes - 1).
  { unfold cur, last. destruct (Z.eqb_spec (after_mask (e mod 8)) 0) as [E|E]; cbn [negb]; [left|by right]. split; [lia|]. apply Hlast0; [lia|done]. }
  clearbody cur. destruct (Z.gtb_spec cur 0) as [Hc|Hc]; [|apply search_tail; try done; lia].
  destruct (rd_bytes_some s start cur) as (part & Hp & Hpz); [lia..|]. rewrite Hp. cbn [mbind option_bind].
  destruct (redisBitpos_ok W HW (addr + start) part b) as (pos & -> & Hok); [by eapply part_bytes|]. cbn [mbind option_bind]. apply bitpos_part in Hok. rewrite Hpz in Hok.
  apply (part_ok_ext _ (fun i => bit s (8 * start + i))) in Hok; [|intros i Hi; by apply (bit_part _ _ _ _ _ Hp)].
  assert (Hfound : 0 <= pos < 8 * cur /\ bit s (8 * start + pos) = b /\ (forall i, 0 <= i < pos -> bit s (8 * start + i) = negb b) -> 8 * start + pos <= e -> search_ok (pos, start, bytes)).
  { intros (H0 & Hb & Hlt) Hpe. split; [lia|]. split; [lia|]. left. split; [lia|]. split; [lia|]. split; [done|]. intros i Hi. destruct (decide (i < 8 * start)); [apply Hprev; lia|].
    specialize (Hlt (i - 8 * start) ltac:(lia)). by replace (8 * start + (i - 8 * start)) with i in Hlt by lia. }
  assert (Hrange : forall i, (forall i, 0 <= i < 8 * cur -> bit s (8 * start + i) = negb b) -> a <= i < 8 * (start + cur) -> bit s i = negb b).
  { intros i Hall Hi. destruct (decide (i < 8 * start)); [apply Hprev; lia|]. specialize (Hall (i - 8 * start) ltac:(lia)). by replace (8 * start + (i - 8 * start)) with i in Hall by lia. }
  rewrite (Z.mul_comm cur 8). destruct (Z.eqb_spec bytes cur) as [Hbc|Hbc]; cbn [orb].
  - assert (H7 : e mod 8 = 7) by (destruct Hcur as [[_ ?]|?]; [done|lia]). eexists. split; [done|]. destruct Hok as [Hf|[Hall Hr]]; [apply Hfound; [done|lia]|].
    split; [lia|]. split; [lia|]. right. split; [|by rewrite Hbc]. intros i Hi. apply Hrange; [done|lia].
  - destruct (negb (pos =? -1) && negb (pos =? 8 * cur)) eqn:Ef; cbn match.
    + eexists. split; [done|]. destruct (part_found _ cur _ _ ltac:(lia) Hok Ef) as (H0 & H1 & H2). apply Hfound; [done|lia].
    + destruct (part_missing _ cur _ _ ltac:(lia) Hok Ef) as [Hall _]. apply search_tail; try lia. intros i Hi. apply Hrange; [done|lia].
Qed.

Lemma bitpos_search_ok (r := {| r_start := a / 8; r_end := e / 8; r_first_mask := before_mask (a mod 8); r_last_mask := after_mask (e mod 8) |}) :
  exists res, bitpos_search W addr addr2 s b r = Some res /\ search_ok res.
Proof.
  unfold bitpos_search. cbn [r r_start r_end r_first_mask r_last_mask]. destruct mask_zero as (_ & _ & Hfirst0 & Hlast0).
  destruct (Z.eqb_spec (before_mask (a mod 8)) 0) as [E0|E0]; cbn [negb].
  { assert (Hm : a mod 8 = 0) by (apply Hfirst0; [lia|done]). apply search_rest; try lia. }
  destruct (rd_Some s (a / 8)) as [x Hx]; [lia|]. rewrite Hx. cbn [mbind option_bind]. pose proof (byte_of _ _ _ Hs Hx) as Hxb. fold (mask_first b (a mod 8) x).
  destruct (mask_bytes b x (a mod 8) Hxb ltac:(lia)) as [Hfb _]. set (bytes := e / 8 - a / 8 + 1).
  set (t := if negb (after_mask (e mod 8) =? 0) && (bytes =? 1) then _ else _).
  assert (Ht : is_byte t /\ forall i, 0 <= i < 8 -> Z.testbit t (7 - i) = if (a mod 8 <=? i) && (negb (bytes =? 1) || (i <=? e mod 8)) then bit s (8 * (a / 8) + i) else negb b).
  { unfold t. fold (mask_last b (e mod 8) (mask_first b (a mod 8) x)). destruct (Z.eqb_spec (after_mask (e mod 8)) 0) as [E1|E1]; cbn [negb andb].
    - split; [done|]. intros i Hi. rewrite mask_first_bits by (done || lia). rewrite (bit_byte s (a / 8)) by (done || lia). assert (H7 : e mod 8 = 7) by (apply Hlast0; [lia|done]).
      rewrite (proj2 (Z.leb_le i (e mod 8))), orb_true_r, andb_true_r by lia. done.
    - destruct (Z.eqb_spec bytes 1); cbn [negb orb].
      + split; [by apply mask_bytes; [|lia]|]. intros i Hi. rewrite mask_last_bits by (done || lia). rewrite mask_first_bits by (done || lia). rewrite (bit_byte s (a / 8)) by (done || lia).
        destruct (i <=? e mod 8), (a mod 8 <=? i); done.
      + split; [done|]. intros i Hi. rewrite mask_first_bits by (done || lia). rewrite (bit_byte s (a / 8)) by (done || lia). by rewrite andb_true_r. }
  destruct Ht as [Htb Htbit]. clearbody t. destruct (bitpos1_ok t Htb) as (pos & -> & Hok). cbn [mbind option_bind].
  apply (part_ok_ext _ (fun i => if (a mod 8 <=? i) && (negb (bytes =? 1) || (i <=? e mod 8)) then bit s (8 * (a / 8) + i) else negb b)) in Hok; [|intros i Hi; rewrite bit_single by lia; apply Htbit; lia].
  assert (Hfound : 0 <= pos < 8 * 1 /\ (if (a mod 8 <=? pos) && (negb (bytes =? 1) || (pos <=? e mod 8)) then bit s (8 * (a / 8) + pos) else negb b) = b /\
    (forall i, 0 <= i < pos -> (if (a mod 8 <=? i) && (negb (bytes =? 1) || (i <=? e mod 8)) then bit s (8 * (a / 8) + i) else negb b) = negb b) -> search_ok (pos, a / 8, bytes)).
  { intros (H0 & Hb & Hlt). split; [unfold bytes; lia|]. split; [lia|]. left. destruct (Z.leb_spec (a mod 8) pos); [|by destruct b]. cbn [andb] in Hb.
    assert (Hpe : 8 * (a / 8) + pos <= e) by (destruct (Z.eqb_spec bytes 1); cbn [negb orb] in Hb; [destruct (Z.leb_spec pos (e mod 8)); [unfold bytes in *; lia|by destruct b]|unfold bytes in *; lia]).
    split; [lia|]. split; [lia|]. split; [destruct (negb (bytes =? 1) || _); [done|by destruct b]|]. intros i Hi. specialize (Hlt (i - 8 * (a / 8)) ltac:(lia)).
    rewrite (proj2 (Z.leb_le _ _)) in Hlt by lia. cbn [andb] in Hlt. replace (8 * (a / 8) + (i - 8 * (a / 8))) with i in Hlt by lia.
    destruct (Z.eqb_spec bytes 1); cbn [negb orb] in Hlt; [|done]. by rewrite (proj2 (Z.leb_le _ _)) in Hlt by (unfold bytes in *; lia). }
  assert (Hnone : (forall i, 0 <= i < 8 * 1 -> (if (a mod 8 <=? i) && (negb (bytes =? 1) || (i <=? e mod 8)) then bit s (8 * (a / 8) + i) else negb b) = negb b) ->
    forall i, a <= i <= e -> i < 8 * (a / 8 + 1) -> bit s i = negb b).
  { intros Hall i Hi Hi8. specialize (Hall (i - 8 * (a / 8)) ltac:(lia)). rewrite (proj2 (Z.leb_le _ _)) in Hall by lia. cbn [andb] in Hall. replace (8 * (a / 8) + (i - 8 * (a / 8))) with i in Hall by lia.
    destruct (Z.eqb_spec bytes 1); cbn [negb orb] in Hall; [|done]. by rewrite (proj2 (Z.leb_le _ _)) in Hall by (unfold bytes in *; lia). }
  destruct (Z.eqb_spec bytes 1) as [H1|H1]; cbn [orb].
  - eexists. split; [done|]. destruct Hok as [Hf|[Hall Hr]]; [by apply Hfound|]. split; [unfold bytes; lia|]. split; [lia|]. right. split; [|rewrite H1; done]. intros i Hi. apply Hnone; [done|lia|unfold bytes in *; lia].
  - destruct (negb (pos =? -1) && negb (pos =? 8)) eqn:Ef.
    + eexists. split; [done|]. apply Hfound. by apply (part_found _ 1 b pos) in Hok.
    + destruct (part_missing _ 1 _ _ ltac:(lia) Hok Ef) as [Hall _]. apply search_rest; try (unfold bytes; lia). intros i Hi. apply Hnone; [done|unfold bytes in *; lia|lia].
Qed.
End Search.

(** The arguments after the bit: the start, the end when it is given, the unit. *)
Inductive pos_args : list (list Z) -> Z -> option Z -> bool -> Prop :=
  | pos_args_none : pos_args [] 0 None false
  | pos_args_start x v : string2ll x = Some v -> pos_args [x] v None false
  | pos_args_range x y u v w isbit : string2ll x = Some v -> string2ll y = Some w -> unit_arg u isbit -> pos_args (x :: y :: u) v (Some w) isbit.

(** The first bit [b] between [a] and [e]; without one the reply is -1, or for a
    clear bit and no given end the position after the string. *)
Definition bitpos_reply (s : list Z) (b : bool) (a e : Z) (end_given : bool) (r : Z) : Prop :=
  if e <? a then r = -1
  else (a <= r <= e /\ bit s r = b /\ forall i, a <= i < r -> bit s i = negb b) \/
       ((forall i, a <= i <= e -> bit s i = negb b) /\ r = if b || end_given then -1 else e + 1).

(** The reply computed from the search. *)
Lemma bitpos_finish W addr addr2 s b start end_ isbit end_given (a := bit_lo s isbit start) (e := bit_hi s isbit end_)
    (r := convert_range (if isbit then zlen s * 8 else zlen s) start end_ isbit) : 1 <= W -> Forall is_byte s -> (end_given = false -> isbit = false) ->
  exists v, (if r_start r >? r_end r then Some (inr (-1))
     else '(pos, start, bytes) ← bitpos_search W addr addr2 s b r;
          if end_given && negb b && (pos =? bytes * 8) then Some (inr (-1))
          else Some (@inr bit_err Z (if negb (pos =? -1) then pos + start * 8 else pos))) = Some (inr v) /\ bitpos_reply s b a e end_given v.
Proof.
  intros HW Hs Hend. destruct (convert_range_ok s start end_ isbit) as (Ha0 & He0 & Hr). fold a e r in Ha0, He0, Hr. unfold bitpos_reply. destruct (r_start r >? r_end r).
  { exists (-1). split; [done|]. by rewrite (proj2 (Z.ltb_lt e a)). }
  destruct Hr as (Hae & H1 & H2 & H3 & H4). rewrite (proj2 (Z.ltb_ge e a)) by done.
  destruct (bitpos_search_ok W HW s Hs b addr addr2 a e ltac:(lia) He0) as ([[pos st] bytes] & Hsearch & Hsum & Hst & Hok).
  replace r with {| r_start := a / 8; r_end := e / 8; r_first_mask := before_mask (a mod 8); r_last_mask := after_mask (e mod 8) |} by (rewrite <- H1, <- H2, <- H3, <- H4; by destruct r).
  rewrite Hsearch. cbn [mbind option_bind]. destruct Hok as [(H0 & Hp & Hb & Hlt)|[Hall Hpos]].
  - rewrite (proj2 (Z.eqb_neq pos (bytes * 8))) by lia. rewrite andb_false_r. rewrite (proj2 (Z.eqb_neq pos (-1))) by lia. cbn [negb].
    exists (pos + st * 8). split; [done|]. left. replace (pos + st * 8) with (8 * st + pos) by lia. split; [lia|done].
  - destruct b; cbn [negb andb orb] in *.
    + rewrite andb_false_r. cbn [andb]. subst pos. exists (-1). split; [done|]. by right.
    + rewrite andb_true_r. destruct end_given; cbn [andb].
      * rewrite (proj2 (Z.eqb_eq pos (bytes * 8))) by lia. exists (-1). split; [done|]. by right.
      * rewrite (proj2 (Z.eqb_neq pos (-1))) by lia. cbn [negb]. eexists. split; [done|]. right. split; [done|]. specialize (Hend eq_refl).
        assert (He7 : e mod 8 = 7) by (unfold e, bit_hi, units; rewrite Hend; lia). lia.
Qed.

(** C28: [BITPOS] replies with the first bit of the given value among exactly the
    bits of the range, in bytes or in bits; with -1 when there is none or the
    range is empty; and with the position after the string for a clear bit of a
    string without clear bits when no end is given.  A missing key is an endless
    string of clear bits. *)
Theorem bitpos_finds W addr addr2 o b bit_arg args start end_opt isbit :
  1 <= W -> value_ok o -> zlen (bytes_of o) <= LLONG_MAX / 8 -> string2ll bit_arg = Some (Z.b2z b) -> pos_args args start end_opt isbit ->
  let s := bytes_of o in
  exists v, bitposCommand W addr addr2 o (bit_arg :: args) = Some (inr v) /\
    match o with
    | None => v = if b then -1 else 0
    | Some _ => bitpos_reply s b (bit_lo s isbit start) (bit_hi s isbit (default (zlen s - 1) end_opt)) (bool_decide (is_Some end_opt)) v
    end.
Proof.
  intros HW Ho Hz Hbit Hargs s. destruct (value_text o Ho) as (src & Hsrc & Hs & Hnone & Hty). pose proof (bytes_of_bytes o Ho) as Hb. fold s in Hs, Hz, Hb.
  destruct (strlen_fine s Hz) as [Hass H64]. unfold bitposCommand. rewrite Hbit. replace (negb (Z.b2z b =? 0) && negb (Z.b2z b =? 1)) with false by (by destruct b). replace (Z.b2z b =? 1) with b by (by destruct b).
  assert (Hfin : exists v, match src with
      | None => Some (inr (if b then -1 else 0))
      | Some p =>
          let r := convert_range (if isbit then zlen s * 8 else zlen s) start (default (zlen s - 1) end_opt) isbit in
          if r_start r >? r_end r then Some (inr (-1))
          else '(pos, start, bytes) ← bitpos_search W addr addr2 p b r;
               if bool_decide (is_Some end_opt) && negb b && (pos =? bytes * 8) then Some (inr (-1))
               else Some (@inr bit_err Z (if negb (pos =? -1) then pos + start * 8 else pos))
      end = Some (inr v) /\
    match o with
    | None => v = if b then -1 else 0
    | Some _ => bitpos_reply s b (bit_lo s isbit start) (bit_hi s isbit (default (zlen s - 1) end_opt)) (bool_decide (is_Some end_opt)) v
    end).
  { destruct src as [p|]; [|destruct o; [destruct Hnone as [Hnone _]; by specialize (Hnone eq_refl)|by eexists]]. cbn in Hs. unfold id in Hs. subst p.
    destruct o as [x|]; [|by destruct Hnone as [_ Hnone]; specialize (Hnone eq_refl)]. apply bitpos_finish; [done|done|]. intros Hno. inversion Hargs; subst; try done. }
  destruct Hfin as (v & Hv & Hres). exists v. split; [|exact Hres]. inversion Hargs; subst; cbn [default] in Hv; unfold id in Hv.
  - rewrite Hty, Hsrc. cbn [mbind option_bind]. rewrite Hs. rewrite <- Hv. destruct src; [|done]. pose proof (zlen_nonneg s). unfold convert_range. cbn [andb]. change (0 <? 0) with false. cbn match.
    change (0 <? 0) with false. cbn match. destruct (Z.ltb_spec (zlen s - 1) 0); [|by rewrite (proj2 (Z.ltb_ge _ _)), Z.geb_leb, (proj2 (Z.leb_gt _ _)) by lia].
    replace (zlen s) with 0 by lia. done.
  - rewrite H, Hty, Hsrc. cbn [mbind option_bind]. rewrite Hs, Hass. cbn [mbind option_bind]. rewrite <- Hv. by destruct src.
  - destruct H1 as [[-> ->]|(u0 & -> & Hu)]; rewrite H, ?Hu, H0, Hty, Hsrc; cbn [mbind option_bind]; rewrite Hs, Hass; cbn [mbind option_bind]; rewrite <- Hv; by destruct src.
Qed.

(** [BITPOS key 0 2 -1 BIT] on [ff f0 00]: bit 12. *)
Lemma bitpos_finds_witness : let s := [255; 240; 0] in
  exists v, bitposCommand 4 1001 7 (Some (SdsEncoded s)) [[48]; [50]; [45; 49]; lit_bit] = Some (inr v) /\ bitpos_reply s false 2 23 true v.
Proof.
  apply (bitpos_finds 4 1001 7 (Some (SdsEncoded [255; 240; 0])) false [48] [[50]; [45; 49]; lit_bit] 2 (Some (-1)) true).
  - lia.
  - cbn. repeat constructor; unfold is_byte; lia.
  - vm_compute. congruence.
  - by vm_compute.
  - apply pos_args_range; [by vm_compute|by vm_compute|]. right. by exists lit_bit.
Defined.

(** ** SETBIT and GETBIT *)

(** [SETBIT] changes exactly the bit at the offset, extends the string with
    zeros to reach it, replies with the old bit, and counts no change only if
    the string is the same; [GETBIT] replies with the bit, 0 past the end. *)
Theorem setbit_getbit must_obey proto_max_bulk_len o off_arg bit_arg off b :
  value_ok o -> getBitOffsetFromArgument must_obey proto_max_bulk_len off_arg false 0 = inr off -> string2ll bit_arg = Some (Z.b2z b) ->
  let s := bytes_of o in
  getbitCommand must_obey proto_max_bulk_len o off_arg = Some (inr (Z.b2z (bit s off))) /\
  exists s' dirty, setbitCommand must_obey proto_max_bulk_len o off_arg bit_arg = Some (inr (Some (SdsEncoded s'), Z.b2z (bit s off), dirty)) /\
    zlen s' = Z.max (zlen s) (off / 8 + 1) /\ (forall i, bit s' i = if i =? off then b else bit s i) /\ (dirty = 0 -> s' = s).
Proof.
  intros Ho Hoff Hbit s. pose proof (offset_arg_ok _ _ _ _ _ _ Hoff) as Hr. destruct (value_text o Ho) as (src & Hsrc & Hs & Hnone & Hty). pose proof (bytes_of_bytes o Ho) as Hb. fold s in Hs, Hb.
  assert (Htest : forall x k, 0 <= k -> (if Z.land x (Z.shiftl 1 k) =? 0 then 0 else 1) = Z.b2z (Z.testbit x k)).
  { intros x k Hk. rewrite Z.shiftl_1_l, land_pow2_test by done. by destruct (Z.testbit x k). }
  split.
  - unfold getbitCommand. rewrite Hoff, Hty, Hsrc. cbn [mbind option_bind]. rewrite shiftr3, land7. destruct src as [p|]; [|by rewrite (src_none _ _ Ho Hnone eq_refl : s = []), bit_past by (change (zlen (@nil Z)) with 0; lia)].
    cbn in Hs. unfold id in Hs. subst p. destruct (Z.ltb_spec (off / 8) (zlen s)); [|by rewrite bit_past by lia].
    destruct (rd_Some s (off / 8)) as [x Hx]; [lia|]. rewrite Hx. cbn [mbind option_bind]. rewrite Htest by lia. unfold bit. by rewrite Hx.
  - unfold setbitCommand. rewrite Hoff, Hbit. replace (negb (Z.land (Z.b2z b) (Z.lnot 1) =? 0)) with false by (by destruct b).
    destruct (lookup_ok o off Ho) as (old & [->|[_ ?]]); [|lia]. cbn [mbind option_bind]. fold s. set (t := sdsgrowzero s (off / 8 + 1)).
    assert (Ht : Forall is_byte t) by (by apply growzero_bytes). assert (Htz : zlen t = Z.max (zlen s) (off / 8 + 1)) by apply zlen_growzero. rewrite shiftr3, land7.
    destruct (rd_Some t (off / 8)) as [x Hx]; [lia|]. rewrite Hx. cbn [mbind option_bind]. rewrite Htest by lia. assert (Hxb : Z.testbit x (7 - off mod 8) = bit t off) by (unfold bit; by rewrite Hx).
    rewrite Hxb. assert (Hgz : forall i, bit t i = bit s i) by (intros i; apply bit_growzero). rewrite Hgz.
    destruct (negb (zlen t - zlen s =? 0) || negb (Z.b2z (bit s off) =? Z.b2z b)) eqn:Ech.
    + replace (Z.land (Z.b2z b) 1) with (Z.b2z b) by (by destruct b). fold (put_bit x (7 - off mod 8) b). destruct (set_bit t off b x Ht ltac:(lia) Hx) as (s' & -> & Hz' & _ & Hb'). cbn [mbind option_bind].
      exists s', 1. split; [done|]. split; [lia|]. split; [intros i; by rewrite Hb', Hgz|done].
    + apply orb_false_elim in Ech as [E1 E2]. apply negb_false_iff, Z.eqb_eq in E1, E2. apply Z.b2z_inj in E2. exists t, 0. split; [done|]. split; [lia|].
      split; [intros i; rewrite Hgz; destruct (Z.eqb_spec i off) as [->|]; done|]. intros _. apply bits_ext; [lia|done|done|]. intros i _. apply Hgz.
Qed.

Lemma setbit_getbit_witness : let s := [52; 50] in
  getbitCommand false 512 (Some (IntEncoded 42)) [50; 57] = Some (inr (Z.b2z (bit s 29))) /\
  exists s' dirty, setbitCommand false 512 (Some (IntEncoded 42)) [50; 57] [49] = Some (inr (Some (SdsEncoded s'), Z.b2z (bit s 29), dirty)) /\
    zlen s' = 4 /\ (forall i, bit s' i = if i =? 29 then true else bit s i) /\ (dirty = 0 -> s' = s).
Proof.
  apply (setbit_getbit false 512 (Some (IntEncoded 42)) [50; 57] [49] 29 true); [cbn; unfold is_s; lia|by vm_compute|by vm_compute].
Defined.
