(* ===== verification/Bitop.v ===== *)
(** * Combining strings (src/bitops.c, [BITOP])

    [bitopCommand] without vector instructions: whole words while every key has
    32 or 16 bytes more, then byte by byte, with shorter keys padded with
    zeros.  Every bit of the result is the operation on the bits of the keys. *)

From stdpp Require Import base list numbers option tactics.
From S2P Require Import Prelude Util SdsArgs Bitops BitopsSpec BitopsThms Bitcount BitcountSpec.

#[local] Ltac Zify.zify_post_hook ::= Z.to_euclidean_division_equations.

Inductive bitop := BITOP_AND | BITOP_OR | BITOP_XOR | BITOP_NOT | BITOP_DIFF | BITOP_DIFF1 | BITOP_ANDOR | BITOP_ONE.
#[global] Instance bitop_eq_dec : EqDecision bitop.
Proof. solve_decision. Defined.

Inductive bitop_err := BITOP_SYNTAX | BITOP_NOT_ONE_KEY | BITOP_TWO_KEYS | BITOP_WRONGTYPE.

Definition lit_and : list Z := [97; 110; 100].
Definition lit_or : list Z := [111; 114].
Definition lit_xor : list Z := [120; 111; 114].
Definition lit_not : list Z := [110; 111; 116].
Definition lit_diff : list Z := [100; 105; 102; 102].
Definition lit_diff1 : list Z := [100; 105; 102; 102; 49].
Definition lit_andor : list Z := [97; 110; 100; 111; 114].
Definition lit_one : list Z := [111; 110; 101].

Definition parse_bitop (name : list Z) : option bitop :=
  if argeq name lit_and then Some BITOP_AND else if argeq name lit_or then Some BITOP_OR
  else if argeq name lit_xor then Some BITOP_XOR else if argeq name lit_not then Some BITOP_NOT
  else if argeq name lit_diff then Some BITOP_DIFF else if argeq name lit_diff1 then Some BITOP_DIFF1
  else if argeq name lit_andor then Some BITOP_ANDOR else if argeq name lit_one then Some BITOP_ONE else None.

(** The source strings, [maxlen] and [minlen]; a missing key is an empty string
    and makes [minlen] 0. *)
Fixpoint load_sources (j : nat) (objs : list (option strobj)) (maxlen minlen : Z) : option (bitop_err + list (list Z) * Z * Z) :=
  match objs with
  | [] => Some (inr ([], maxlen, minlen))
  | None :: objs =>
      r ← load_sources (S j) objs maxlen 0;
      Some (match r with inl e => inl e | inr (srcs, maxlen, minlen) => inr ([] :: srcs, maxlen, minlen) end)
  | Some OtherType :: _ => Some (inl BITOP_WRONGTYPE)
  | Some o :: objs =>
      s ← (match o with SdsEncoded s => Some s | IntEncoded v => int_text v | OtherType => None end);
      let maxlen := if zlen s >? maxlen then zlen s else maxlen in
      let minlen := if bool_decide (j = 0%nat) || (zlen s <? minlen) then zlen s else minlen in
      r ← load_sources (S j) objs maxlen minlen;
      Some (match r with inl e => inl e | inr (srcs, maxlen, minlen) => inr (s :: srcs, maxlen, minlen) end)
  end.

Section Words.
(** [sizeof(unsigned long)] *)
Context (W : Z).

Definition wnot (w : Z) : Z := 2 ^ (8 * W) - 1 - w.

(** One word of the result in the word-wise loops, from the words of the keys. *)
Definition fast_word (op : bitop) (first : Z) (rest : list Z) : Z :=
  match op with
  | BITOP_AND => foldl Z.land first rest
  | BITOP_OR => foldl Z.lor first rest
  | BITOP_XOR => foldl Z.lxor first rest
  | BITOP_NOT => wnot first
  | BITOP_DIFF => Z.land first (wnot (foldl Z.lor 0 rest))
  | BITOP_DIFF1 => Z.land (wnot first) (foldl Z.lor 0 rest)
  | BITOP_ANDOR => Z.land first (foldl Z.lor 0 rest)
  | BITOP_ONE =>
      let '(res, common) := foldl (fun '(res, common) w => (Z.lxor res w, Z.lor common (Z.land res w))) (first, 0) rest in
      Z.land res (wnot common)
  end.

Definition word_at (k : nat) (s : list Z) : Z := le_val (take (Z.to_nat W) (drop (k * Z.to_nat W) s)).

(** The words of all blocks of four, as bytes. *)
Definition fast_bytes (op : bitop) (first : list Z) (rest : list (list Z)) (minlen : Z) : list Z :=
  if minlen >=? W * 4 then
    concat ((fun k => le_bytes (Z.to_nat W) (fast_word op (word_at k first) (word_at k <$> rest))) <$> seq 0 (4 * Z.to_nat (minlen / (W * 4))))
  else [].

(** The loop over the other keys for one byte; it stops once the result cannot
    change.  [acc] is [output], [disjunction] or [common_bits] with [output]. *)
Fixpoint byte_loop (op : bitop) (bytes : list Z) (output disjunction common : Z) : Z * Z :=
  match bytes with
  | [] => (output, disjunction)
  | byte :: bytes =>
      match op with
      | BITOP_AND =>
          let output := Z.land output byte in
          if output =? 0 then (output, disjunction) else byte_loop op bytes output disjunction common
      | BITOP_OR =>
          let output := Z.lor output byte in
          if output =? 255 then (output, disjunction) else byte_loop op bytes output disjunction common
      | BITOP_XOR => byte_loop op bytes (Z.lxor output byte) disjunction common
      | BITOP_DIFF | BITOP_DIFF1 | BITOP_ANDOR =>
          let disjunction := Z.lor disjunction byte in
          if disjunction =? 255 then (output, disjunction) else byte_loop op bytes output disjunction common
      | BITOP_ONE =>
          let common := Z.lor common (Z.land output byte) in
          let output := Z.lxor output byte in
          let output := Z.land output (255 - common) in
          if common =? 255 then (output, disjunction) else byte_loop op bytes output disjunction common
      | BITOP_NOT => byte_loop op bytes output disjunction common
      end
  end.

Definition byte_at (j : nat) (s : list Z) : Z := default 0 (s !! j).

Definition slow_byte (op : bitop) (first : Z) (rest : list Z) : Z :=
  let output := if bool_decide (op = BITOP_NOT) then 255 - first else first in
  let '(output, disjunction) := byte_loop op rest output 0 0 in
  match op with
  | BITOP_DIFF => Z.land output (255 - disjunction)
  | BITOP_DIFF1 => Z.land (255 - output) disjunction
  | BITOP_ANDOR => Z.land output disjunction
  | _ => output
  end.

Definition bitop_result (op : bitop) (first : list Z) (rest : list (list Z)) (maxlen minlen : Z) : list Z :=
  let fast := fast_bytes op first rest minlen in
  fast ++ ((fun j => slow_byte op (byte_at j first) (byte_at j <$> rest)) <$> seq (length fast) (Z.to_nat maxlen - length fast)).

(** An error, or the string stored at the target ([None] deletes it) and the reply. *)
Definition bitopCommand (name : list Z) (objs : list (option strobj)) : option (bitop_err + option (list Z) * Z) :=
  match parse_bitop name with
  | None => Some (inl BITOP_SYNTAX)
  | Some op =>
      if bool_decide (op = BITOP_NOT) && negb (zlen objs =? 1) then Some (inl BITOP_NOT_ONE_KEY)
      else if bool_decide (op ∈ [BITOP_DIFF; BITOP_DIFF1; BITOP_ANDOR]) && (zlen objs <? 2) then Some (inl BITOP_TWO_KEYS)
      else
        r ← load_sources 0 objs 0 0;
        match r with
        | inl e => Some (inl e)
        | inr (srcs, maxlen, minlen) =>
            match srcs with
            | [] => None
            | first :: rest =>
                if maxlen =? 0 then Some (inr (None, 0))
                else Some (inr (Some (bitop_result op first rest maxlen minlen), maxlen))
            end
        end
  end.
End Words.

(** ** The specification: one bit *)

Definition op_bit (op : bitop) (first : bool) (rest : list bool) : bool :=
  match op with
  | BITOP_AND => first && forallb id rest
  | BITOP_OR => first || existsb id rest
  | BITOP_XOR => foldl xorb first rest
  | BITOP_NOT => negb first
  | BITOP_DIFF => first && negb (existsb id rest)
  | BITOP_DIFF1 => negb first && existsb id rest
  | BITOP_ANDOR => first && existsb id rest
  | BITOP_ONE => bool_decide (length (filter (fun b => b = true) (first :: rest)) = 1%nat)
  end.
