(* ===== verification/BitopThms.v ===== *)
(** * BITOP: every bit of the result

    The word-wise and the byte-wise loops compute the operation on each bit. *)

From stdpp Require Import base sets list numbers option tactics.
From S2P Require Import Prelude Util SdsArgs Bitops BitopsSpec BitopsThms Bitcount BitcountSpec Bitop.

#[local] Ltac Zify.zify_post_hook ::= Z.to_euclidean_division_equations.

(** ** Folds of bits *)

Lemma foldl_bit (g : Z -> Z -> Z) (h : bool -> bool -> bool) p l : (forall x y, Z.testbit (g x y) p = h (Z.testbit x p) (Z.testbit y p)) ->
  forall a, Z.testbit (foldl g a l) p = foldl h (Z.testbit a p) ((fun w => Z.testbit w p) <$> l).
Proof. intros Hg. induction l as [|x l IH]; intros a; [done|]. rewrite fmap_cons. cbn [foldl]. by rewrite IH, Hg. Qed.

Lemma foldl_andb l : forall a, foldl andb a l = a && forallb id l.
Proof. induction l as [|b l IH]; intros a; cbn; [by rewrite andb_true_r|]. rewrite IH. unfold id. by rewrite andb_assoc. Qed.

Lemma foldl_orb l : forall a, foldl orb a l = a || existsb id l.
Proof. induction l as [|b l IH]; intros a; cbn; [by rewrite orb_false_r|]. rewrite IH. unfold id. by rewrite orb_assoc. Qed.

Definition trues (l : list bool) : nat := length (filter (fun b => b = true) l).

Lemma trues_cons b l : trues (b :: l) = ((if b then 1 else 0) + trues l)%nat.
Proof. unfold trues. rewrite filter_cons. by destruct b. Qed.

(** Whether exactly one bit is set, from the parity and whether a bit was seen
    twice; [n] bits were seen. *)
Lemma one_fold l : forall r c n, (c = false -> (n <= 1)%nat /\ r = bool_decide (n = 1%nat)) -> (c = true -> (2 <= n)%nat) ->
  let '(r, c) := foldl (fun '(r, c) b => (xorb r b, c || (r && b))) (r, c) l in r && negb c = bool_decide ((n + trues l)%nat = 1%nat).
Proof.
  induction l as [|b l IH]; intros r c n H0 H1; cbn [foldl].
  - change (trues []) with 0%nat. rewrite Nat.add_0_r. destruct c; [rewrite andb_false_r, bool_decide_false; [done|specialize (H1 eq_refl); lia]|]. destruct (H0 eq_refl) as [_ ->]. apply andb_true_r.
  - rewrite trues_cons. specialize (IH (xorb r b) (c || (r && b)) (n + (if b then 1 else 0))%nat). rewrite Nat.add_assoc. apply IH.
    + intros E. apply orb_false_elim in E as [Ec Er]. destruct (H0 Ec) as [Hn ->]. destruct b; [|rewrite xorb_false_r, Nat.add_0_r; done].
      rewrite andb_true_r in Er. apply bool_decide_eq_false in Er. rewrite bool_decide_false by done. assert (n = 0%nat) as -> by lia. done.
    + intros E. destruct c; [specialize (H1 eq_refl); lia|]. cbn in E. apply andb_prop in E as [E ->]. destruct (H0 eq_refl) as [Hn ->]. apply bool_decide_eq_true in E. lia.
Qed.

(** ** Words *)

Section Words.
Context (W : Z) (HW : 1 <= W).

Lemma wnot_bit w p : 0 <= w < 2 ^ (8 * W) -> 0 <= p < 8 * W -> Z.testbit (wnot W w) p = negb (Z.testbit w p).
Proof.
  intros Hw Hp. unfold wnot. rewrite Z.sub_1_r, <- Z.ones_equiv. rewrite Z.sub_nocarry_ldiff.
  - rewrite Z.ldiff_spec, Z.ones_spec_low by lia. done.
  - apply Z.bits_inj'. intros j Hj. rewrite Z.ldiff_spec, Z.bits_0. destruct (decide (j < 8 * W)); [rewrite Z.ones_spec_low by lia; apply andb_false_r|].
    rewrite <- (Z.mod_small w (2 ^ (8 * W))), Z.mod_pow2_bits_high by lia. done.
Qed.

Definition is_word (w : Z) : Prop := 0 <= w < 2 ^ (8 * W).

Lemma foldl_word (g : Z -> Z -> Z) l : (forall x y, is_word x -> is_word y -> is_word (g x y)) -> forall a, is_word a -> Forall is_word l -> is_word (foldl g a l).
Proof. intros Hg. induction l as [|x l IH]; intros a Ha Hl; cbn; [done|]. apply list.Forall_cons in Hl as [Hx Hl]. apply IH; [by apply Hg|done]. Qed.

Lemma lor_word x y : is_word x -> is_word y -> is_word (Z.lor x y).
Proof.
  intros [Hx Hx'] [Hy Hy']. assert (H0 : 0 <= Z.lor x y) by (by apply Z.lor_nonneg). split; [done|]. apply bits_small; [lia|done|]. intros j Hj.
  rewrite Z.lor_spec, <- (Z.mod_small x (2 ^ (8 * W))), <- (Z.mod_small y (2 ^ (8 * W))), !Z.mod_pow2_bits_high by lia. done.
Qed.

Lemma land_word x y : is_word x -> is_word y -> is_word (Z.land x y).
Proof.
  intros [Hx Hx'] [Hy Hy']. assert (H0 : 0 <= Z.land x y) by (apply Z.land_nonneg; by left). split; [done|]. apply bits_small; [lia|done|]. intros j Hj.
  rewrite Z.land_spec, <- (Z.mod_small x (2 ^ (8 * W))), Z.mod_pow2_bits_high by lia. done.
Qed.

Lemma fast_word_bit op first rest p : is_word first -> Forall is_word rest -> 0 <= p < 8 * W ->
  Z.testbit (fast_word W op first rest) p = op_bit op (Z.testbit first p) ((fun w => Z.testbit w p) <$> rest).
Proof.
  intros Hf Hr Hp. assert (H0 : is_word 0) by (split; [lia|apply Z.pow_pos_nonneg; lia]).
  assert (Hor : Z.testbit (foldl Z.lor 0 rest) p = existsb id ((fun w => Z.testbit w p) <$> rest)).
  { rewrite (foldl_bit Z.lor orb) by (intros; apply Z.lor_spec). by rewrite Z.bits_0, foldl_orb. }
  assert (Horw : is_word (foldl Z.lor 0 rest)) by (apply foldl_word; [apply lor_word|done|done]). destruct op; cbn [fast_word op_bit].
  - rewrite (foldl_bit Z.land andb) by (intros; apply Z.land_spec). apply foldl_andb.
  - rewrite (foldl_bit Z.lor orb) by (intros; apply Z.lor_spec). apply foldl_orb.
  - by rewrite (foldl_bit Z.lxor xorb) by (intros; apply Z.lxor_spec).
  - by apply wnot_bit.
  - by rewrite Z.land_spec, wnot_bit, Hor by done.
  - by rewrite Z.land_spec, wnot_bit, Hor by done.
  - by rewrite Z.land_spec, Hor.
  - assert (Hfold : forall l r c, Forall is_word l -> is_word c -> is_word r ->
      let '(r', c') := foldl (fun '(res, common) w => (Z.lxor res w, Z.lor common (Z.land res w))) (r, c) l in
      is_word c' /\ (Z.testbit r' p, Z.testbit c' p) = foldl (fun '(r, c) b => (xorb r b, c || (r && b))) (Z.testbit r p, Z.testbit c p) ((fun w => Z.testbit w p) <$> l)).
    { induction l as [|x l IH]; intros r c Hl Hc Hrr; [done|]. apply list.Forall_cons in Hl as [Hx Hl]. rewrite fmap_cons. cbn [foldl]. rewrite <- Z.lxor_spec, <- Z.land_spec, <- Z.lor_spec.
      apply IH; [done|by apply lor_word; [|apply land_word]|]. destruct Hrr, Hx. split; [by apply Z.lxor_nonneg; split|].
      apply bits_small; [lia|by apply Z.lxor_nonneg; split|]. intros j Hj. rewrite Z.lxor_spec, <- (Z.mod_small r (2 ^ (8 * W))), <- (Z.mod_small x (2 ^ (8 * W))), !Z.mod_pow2_bits_high by lia. done. }
    specialize (Hfold rest first 0 Hr H0 Hf). destruct (foldl _ (first, 0) rest) as [r' c']. destruct Hfold as [Hc' Hfold]. rewrite Z.land_spec, wnot_bit by done. rewrite Z.bits_0 in Hfold.
    pose proof (one_fold ((fun w => Z.testbit w p) <$> rest) (Z.testbit first p) false (if Z.testbit first p then 1 else 0)%nat) as Hone. rewrite <- Hfold in Hone. unfold trues in *.
    rewrite Hone; [|intros _; destruct (Z.testbit first p); (split; [lia|done])|done]. fold (trues ((fun w => Z.testbit w p) <$> rest)) (trues (Z.testbit first p :: ((fun w => Z.testbit w p) <$> rest))). by rewrite trues_cons.
Qed.
End Words.


(** ** Bytes: the early exits do not change the result *)

Lemma not_byte_bit c p : is_byte c -> 0 <= p < 8 -> Z.testbit (255 - c) p = negb (Z.testbit c p).
Proof. exact (wnot_bit 1 c p). Qed.

Lemma byte_255_bit p : 0 <= p < 8 -> Z.testbit 255 p = true.
Proof. intros Hp. change 255 with (Z.ones 8). apply Z.ones_spec_low. lia. Qed.

Lemma lor_is_byte x y : is_byte x -> is_byte y -> is_byte (Z.lor x y).
Proof. exact (lor_word 1 ltac:(lia) x y). Qed.

Lemma land_is_byte x y : is_byte x -> is_byte y -> is_byte (Z.land x y).
Proof. exact (land_word 1 ltac:(lia) x y). Qed.

Lemma not_byte x : is_byte x -> is_byte (255 - x).
Proof. unfold is_byte. lia. Qed.

Section ByteBits.
Context (p : Z) (Hp : 0 <= p < 8).
Local Abbreviation tb w := (Z.testbit w p).
Local Abbreviation tbs l := ((fun w => Z.testbit w p) <$> l).

Lemma and_loop l : forall output d c, tb (byte_loop BITOP_AND l output d c).1 = tb output && forallb id (tbs l).
Proof.
  induction l as [|x l IH]; intros output d c; cbn [byte_loop]; [by rewrite andb_true_r|]. rewrite fmap_cons. cbn [forallb]. unfold id at 1. rewrite andb_assoc, <- Z.land_spec.
  destruct (Z.eqb_spec (Z.land output x) 0) as [E|_]; [|apply IH]. cbn [fst]. by rewrite E, Z.bits_0.
Qed.

Lemma or_loop l : forall output d c, tb (byte_loop BITOP_OR l output d c).1 = tb output || existsb id (tbs l).
Proof.
  induction l as [|x l IH]; intros output d c; cbn [byte_loop]; [by rewrite orb_false_r|]. rewrite fmap_cons. cbn [existsb]. unfold id at 1. rewrite orb_assoc, <- Z.lor_spec.
  destruct (Z.eqb_spec (Z.lor output x) 255) as [E|_]; [|apply IH]. cbn [fst]. by rewrite E, byte_255_bit.
Qed.

Lemma xor_loop l : forall output d c, tb (byte_loop BITOP_XOR l output d c).1 = foldl xorb (tb output) (tbs l).
Proof. induction l as [|x l IH]; intros output d c; [done|]. rewrite fmap_cons. cbn [byte_loop foldl]. by rewrite IH, Z.lxor_spec. Qed.

Lemma disjunction_loop op l : op ∈ [BITOP_DIFF; BITOP_DIFF1; BITOP_ANDOR] -> forall output d c, is_byte d -> Forall is_byte l ->
  exists d', byte_loop op l output d c = (output, d') /\ is_byte d' /\ tb d' = tb d || existsb id (tbs l).
Proof.
  intros Hop. induction l as [|x l IH]; intros output d c Hd Hl; [exists d; split_and!; [done|done|by rewrite orb_false_r]|]. apply list.Forall_cons in Hl as [Hx Hl].
  assert (E : byte_loop op (x :: l) output d c = if Z.lor d x =? 255 then (output, Z.lor d x) else byte_loop op l output (Z.lor d x) c) by (destruct op; first [done|exfalso; clear -Hop; set_solver]).
  rewrite E, fmap_cons. cbn [existsb]. unfold id at 1. rewrite orb_assoc, <- Z.lor_spec. assert (Hor : is_byte (Z.lor d x)) by by apply lor_is_byte.
  destruct (Z.eqb_spec (Z.lor d x) 255) as [E'|_]; [|by apply IH]. exists (Z.lor d x). split_and!; [done|done|]. by rewrite E', byte_255_bit.
Qed.

Lemma one_loop l : forall output d c n, Forall is_byte l -> is_byte output -> is_byte c ->
  (tb c = false -> (n <= 1)%nat /\ tb output = bool_decide (n = 1%nat)) -> (tb c = true -> (2 <= n)%nat /\ tb output = false) ->
  tb (byte_loop BITOP_ONE l output d c).1 = bool_decide ((n + trues (tbs l))%nat = 1%nat).
Proof.
  induction l as [|x l IH]; intros output d c n Hl Ho Hc H0 H1.
  - cbn. change (trues []) with 0%nat. rewrite Nat.add_0_r. destruct (tb c); [|by destruct (H0 eq_refl)]. destruct (H1 eq_refl) as [Hn ->]. rewrite bool_decide_false by lia. done.
  - apply list.Forall_cons in Hl as [Hx Hl]. cbn [byte_loop]. rewrite fmap_cons, trues_cons, Nat.add_assoc. set (c' := Z.lor c (Z.land output x)). set (o' := Z.land (Z.lxor output x) (255 - c')).
    assert (Hc' : is_byte c') by (apply lor_is_byte; [done|by apply land_is_byte]).
    assert (Ho' : is_byte o').
    { destruct (not_byte _ Hc'). split; [apply Z.land_nonneg; by right|]. change 256 with (2 ^ 8). apply bits_small; [lia|apply Z.land_nonneg; by right|]. intros j Hj. unfold o'.
      rewrite Z.land_spec, (byte_high_bits (255 - c')) by (done || by apply not_byte). apply andb_false_r. }
    assert (Ec : tb c' = tb c || (tb output && tb x)) by (unfold c'; by rewrite Z.lor_spec, Z.land_spec).
    assert (Eo : tb o' = xorb (tb output) (tb x) && negb (tb c')) by (unfold o'; by rewrite Z.land_spec, Z.lxor_spec, not_byte_bit).
    set (m := (n + (if tb x then 1 else 0))%nat).
    assert (G0 : tb c' = false -> (m <= 1)%nat /\ tb o' = bool_decide (m = 1%nat)).
    { intros E. rewrite Eo, E, andb_true_r. rewrite Ec in E. apply orb_false_elim in E as [E1 E2]. destruct (H0 E1) as [Hn E3]. rewrite E3 in *. unfold m. destruct (tb x).
      - rewrite andb_true_r in E2. apply bool_decide_eq_false in E2. assert (n = 0%nat) as -> by lia. done.
      - rewrite xorb_false_r, Nat.add_0_r. done. }
    assert (G1 : tb c' = true -> (2 <= m)%nat /\ tb o' = false).
    { intros E. rewrite Eo, E, andb_false_r. split; [|done]. rewrite Ec in E. unfold m. destruct (tb c); [destruct (H1 eq_refl); lia|]. cbn in E. apply andb_prop in E as [E ->].
      destruct (H0 eq_refl) as [Hn E3]. rewrite E in E3. symmetry in E3. apply bool_decide_eq_true in E3. lia. }
    destruct (Z.eqb_spec c' 255) as [E|_]; [|by apply IH]. cbn [fst]. rewrite E, byte_255_bit in G1 by done. destruct (G1 eq_refl) as [Hm ->]. rewrite bool_decide_false by lia. done.
Qed.

Lemma slow_byte_bit op first rest : is_byte first -> Forall is_byte rest -> (op = BITOP_NOT -> rest = []) ->
  tb (slow_byte op first rest) = op_bit op (tb first) (tbs rest).
Proof.
  intros Hf Hr Hnot. assert (H0 : is_byte 0) by (unfold is_byte; lia). unfold slow_byte. destruct op; cbn [op_bit]; rewrite ?bool_decide_false by done.
  - pose proof (and_loop rest first 0 0) as E. by destruct (byte_loop _ _ _ _ _).
  - pose proof (or_loop rest first 0 0) as E. by destruct (byte_loop _ _ _ _ _).
  - pose proof (xor_loop rest first 0 0) as E. by destruct (byte_loop _ _ _ _ _).
  - rewrite Hnot by done. rewrite bool_decide_true by done. cbn [byte_loop]. by apply not_byte_bit.
  - destruct (disjunction_loop BITOP_DIFF rest ltac:(set_solver) first 0 0 H0 Hr) as (d' & -> & Hd & Ed). by rewrite Z.land_spec, not_byte_bit, Ed, Z.bits_0.
  - destruct (disjunction_loop BITOP_DIFF1 rest ltac:(set_solver) first 0 0 H0 Hr) as (d' & -> & Hd & Ed). by rewrite Z.land_spec, not_byte_bit, Ed, Z.bits_0.
  - destruct (disjunction_loop BITOP_ANDOR rest ltac:(set_solver) first 0 0 H0 Hr) as (d' & -> & Hd & Ed). by rewrite Z.land_spec, Ed, Z.bits_0.
  - pose proof (one_loop rest first 0 0 (if tb first then 1 else 0)%nat Hr Hf H0) as E. rewrite Z.bits_0 in E.
    fold (trues (tb first :: tbs rest)). rewrite trues_cons. destruct (byte_loop _ _ _ _ _). apply E; [intros _; destruct (tb first); (split; [lia|done])|done].
Qed.
End ByteBits.

(** ** Words of strings *)

Lemma byte_at_byte j s : Forall is_byte s -> is_byte (byte_at j s).
Proof. intros Hs. unfold byte_at. destruct (s !! j) eqn:E; [by eapply Forall_lookup_1|unfold is_byte; cbn; lia]. Qed.

Lemma bytes_at_bytes j l : Forall (Forall is_byte) l -> Forall is_byte (byte_at j <$> l).
Proof. intros Hl. apply Forall_fmap. eapply list.Forall_impl; [exact Hl|]. intros s. apply byte_at_byte. Qed.

Lemma bit_byte_at s i : 0 <= i -> bit s i = Z.testbit (byte_at (Z.to_nat (i / 8)) s) (7 - i mod 8).
Proof. intros Hi. unfold bit, byte_at. rewrite rd_lookup by lia. destruct (s !! _); [done|]. cbn. by rewrite Z.bits_0. Qed.

Lemma le_val_testbit l : Forall is_byte l -> forall q t, 0 <= t < 8 -> Z.testbit (le_val l) (8 * Z.of_nat q + t) = Z.testbit (byte_at q l) t.
Proof.
  intros Hl. induction Hl as [|x l Hx Hl IH]; intros q t Ht; [unfold byte_at; cbn; by rewrite !Z.bits_0|]. cbn [le_val].
  assert (Hdis : Z.land (Z.shiftl (le_val l) 8) x = 0).
  { apply Z.bits_inj'. intros j Hj. rewrite Z.land_spec, Z.bits_0, Z.shiftl_spec by lia.
    destruct (decide (j < 8)); [by rewrite (Z.testbit_neg_r _ (j - 8)) by lia|]. rewrite (byte_high_bits x) by (done || lia). apply andb_false_r. }
  replace (x + 256 * le_val l) with (Z.lor (Z.shiftl (le_val l) 8) x).
  2: { rewrite <- Z.lxor_lor, <- Z.add_nocarry_lxor, Z.shiftl_mul_pow2 by (done || lia). lia. }
  rewrite Z.lor_spec, Z.shiftl_spec by lia. destruct q as [|q].
  - rewrite (Z.testbit_neg_r (le_val l)) by lia. done.
  - rewrite (byte_high_bits x) by (done || lia). rewrite orb_false_r. replace (8 * Z.of_nat (S q) + t - 8) with (8 * Z.of_nat q + t) by lia. by rewrite IH.
Qed.

Lemma le_bytes_testbit n v q t : 0 <= t < 8 -> (q < n)%nat -> Z.testbit (byte_at q (le_bytes n v)) t = Z.testbit v (8 * Z.of_nat q + t).
Proof.
  intros Ht Hq. rewrite <- le_val_testbit by (done || apply le_bytes_is_byte). rewrite le_val_bytes. unfold wrapu. apply Z.mod_pow2_bits_low. lia.
Qed.

Lemma word_bit w k s q t : Forall is_byte s -> 0 <= t < 8 -> (q < w)%nat -> Z.testbit (le_val (take w (drop (k * w) s))) (8 * Z.of_nat q + t) = Z.testbit (byte_at (k * w + q) s) t.
Proof.
  intros Hs Ht Hq. rewrite le_val_testbit; [|by apply Forall_take, Forall_drop|done]. unfold byte_at. by rewrite lookup_take_lt, lookup_drop.
Qed.

Lemma lookup_blocks {A} (f : nat -> list A) w n : (forall k, length (f k) = w) -> forall a k q, (k < n)%nat -> (q < w)%nat ->
  concat (f <$> seq a n) !! (k * w + q)%nat = f (a + k)%nat !! q.
Proof.
  intros Hf. induction n as [|n IH]; intros a k q Hk Hq; [lia|]. cbn [seq]. rewrite fmap_cons. cbn [concat]. destruct k as [|k].
  - rewrite lookup_app_l by (rewrite Hf; lia). by rewrite Nat.add_0_r.
  - rewrite lookup_app_r by (rewrite Hf; lia). rewrite Hf. replace (S k * w + q - w)%nat with (k * w + q)%nat by lia. rewrite IH by lia. do 2 f_equal. lia.
Qed.

Lemma length_blocks {A} (f : nat -> list A) w n : (forall k, length (f k) = w) -> forall a, length (concat (f <$> seq a n)) = (n * w)%nat.
Proof. intros Hf. induction n as [|n IH]; intros a; [done|]. cbn [seq]. rewrite fmap_cons. cbn [concat]. rewrite length_app, Hf, IH. lia. Qed.

Section Result.
Context (W : Z) (HW : 1 <= W) (op : bitop) (first : list Z) (rest : list (list Z)) (maxlen minlen : Z).
Context (Hfirst : Forall is_byte first) (Hrest : Forall (Forall is_byte) rest) (Hnot : op = BITOP_NOT -> rest = []).
Context (Hmin : 0 <= minlen <= maxlen).

Lemma fast_length : (length (fast_bytes W op first rest minlen) <= Z.to_nat maxlen)%nat.
Proof.
  unfold fast_bytes. destruct (_ >=? _) eqn:E; [|cbn; lia]. rewrite (length_blocks _ (Z.to_nat W)) by (intros; apply length_le_bytes).
  pose proof (Z.mul_div_le minlen (W * 4) ltac:(lia)) as H. nia.
Qed.

Lemma fast_byte_bit j t : (j < length (fast_bytes W op first rest minlen))%nat -> 0 <= t < 8 ->
  Z.testbit (byte_at j (fast_bytes W op first rest minlen)) t = op_bit op (Z.testbit (byte_at j first) t) ((fun s => Z.testbit (byte_at j s) t) <$> rest).
Proof.
  unfold fast_bytes. destruct (_ >=? _) eqn:E; [|cbn; lia]. set (w := Z.to_nat W). set (n := (4 * _)%nat). intros Hj Ht.
  rewrite (length_blocks _ w) in Hj by (intros; apply length_le_bytes). assert (Hw : (0 < w)%nat) by lia.
  pose proof (Nat.div_mod j w ltac:(lia)) as Hdm. set (k := (j / w)%nat) in *. set (q := (j mod w)%nat) in *. assert (Hq : (q < w)%nat) by (apply Nat.mod_upper_bound; lia).
  assert (Hk : (k < n)%nat) by nia. replace j with (k * w + q)%nat by lia. clear Hdm. clearbody k q. unfold byte_at at 1. rewrite (lookup_blocks _ w) by (done || (intros; apply length_le_bytes)).
  rewrite Nat.add_0_l. fold (byte_at q (le_bytes w (fast_word W op (word_at W k first) (word_at W k <$> rest)))). rewrite le_bytes_testbit by done.
  assert (Hword : forall s, Forall is_byte s -> is_word W (word_at W k s)).
  { intros s Hs. unfold word_at, is_word. pose proof (le_val_bound (take (Z.to_nat W) (drop (k * Z.to_nat W) s)) ltac:(by apply Forall_take, Forall_drop)) as Hb.
    split; [lia|]. eapply Z.lt_le_trans; [apply Hb|]. apply Z.pow_le_mono_r; [lia|]. rewrite length_take. lia. }
  rewrite fast_word_bit; [|done|by apply Hword|apply Forall_fmap; eapply list.Forall_impl; [exact Hrest|]; intros s Hs; by apply Hword|lia].
  unfold word_at. rewrite word_bit by done. f_equal. rewrite <- list_fmap_compose. apply list_fmap_ext. intros i s Hs. unfold compose. apply word_bit; [|done|done]. by eapply Forall_lookup_1 in Hrest.
Qed.

Lemma bitop_result_ok (res := bitop_result W op first rest maxlen minlen) : length res = Z.to_nat maxlen /\
  forall i, 0 <= i < 8 * maxlen -> bit res i = op_bit op (bit first i) ((fun s => bit s i) <$> rest).
Proof.
  pose proof fast_length as Hfl. unfold res, bitop_result. split; [rewrite length_app, length_fmap, length_seq; lia|]. intros i Hi.
  rewrite !bit_byte_at by lia. set (j := Z.to_nat (i / 8)). set (t := 7 - i mod 8). assert (Ht : 0 <= t < 8) by lia. assert (Hj : (j < Z.to_nat maxlen)%nat) by lia.
  replace ((fun s => bit s i) <$> rest) with ((fun s => Z.testbit (byte_at j s) t) <$> rest) by (apply list_fmap_ext; intros ? s _; symmetry; apply bit_byte_at; lia).
  clearbody j t. destruct (decide (j < length (fast_bytes W op first rest minlen))%nat) as [Hlt|Hge].
  - rewrite <- fast_byte_bit by done. unfold byte_at. by rewrite lookup_app_l.
  - unfold byte_at at 1. rewrite lookup_app_r by lia. rewrite list_lookup_fmap, lookup_seq_lt by lia. cbn [fmap option_fmap option_map from_option id].
    replace (length _ + (j - length _))%nat with j by lia. rewrite slow_byte_bit; [by rewrite <- list_fmap_compose|done|by apply byte_at_byte|by apply bytes_at_bytes|intros E; by rewrite Hnot].
Qed.
End Result.

(** ** The command *)

Definition longest (objs : list (option strobj)) : Z := foldr Z.max 0 ((fun o => zlen (bytes_of o)) <$> objs).

Definition arity_ok (op : bitop) (n : Z) : bool :=
  match op with BITOP_NOT => n =? 1 | BITOP_DIFF | BITOP_DIFF1 | BITOP_ANDOR => 2 <=? n | _ => 1 <=? n end.

Lemma longest_cons o objs : longest (o :: objs) = Z.max (zlen (bytes_of o)) (longest objs).
Proof. done. Qed.

Lemma longest_nonneg objs : 0 <= longest objs.
Proof. induction objs as [|o objs IH]; [done|]. rewrite longest_cons. lia. Qed.

Lemma source_text (o : strobj) : value_ok (Some o) ->
  o <> OtherType /\ (match o with SdsEncoded s => Some s | IntEncoded v => int_text v | OtherType => None end) = Some (bytes_of (Some o)).
Proof. intros Ho. destruct o as [s|v|]; cbn in *; [done|by rewrite int_text_ok|done]. Qed.

Lemma load_sources_ok objs : forall j mx mn, Forall value_ok objs -> 0 <= mx -> 0 <= mn -> exists mn', 0 <= mn' /\ (j <> 0%nat -> mn' <= mn) /\
  load_sources j objs mx mn = Some (inr (bytes_of <$> objs, Z.max mx (longest objs), mn')) /\ Forall (fun o => mn' <= zlen (bytes_of o)) objs.
Proof.
  induction objs as [|o objs IH]; intros j mx mn Hv Hmx Hmn; cbn [load_sources].
  { exists mn. split_and!; [done|done| |done]. rewrite Z.max_l by done. done. }
  apply list.Forall_cons in Hv as [Ho Hv]. rewrite fmap_cons, longest_cons. destruct o as [o|].
  - destruct (source_text o Ho) as [Hne Et]. pose proof (zlen_nonneg (bytes_of (Some o))) as Hs. set (s := bytes_of (Some o)) in *.
    set (mx' := if zlen s >? mx then zlen s else mx). set (mn1 := if bool_decide (j = 0%nat) || (zlen s <? mn) then zlen s else mn).
    assert (Emx : mx' = Z.max mx (zlen s)) by (unfold mx'; destruct (zlen s >? mx) eqn:E; lia).
    assert (Hmn1 : 0 <= mn1 <= zlen s /\ (j <> 0%nat -> mn1 <= mn)).
    { unfold mn1. case_bool_decide; cbn [orb]; [lia|]. destruct (zlen s <? mn) eqn:E; lia. }
    destruct (IH (S j) mx' mn1 Hv ltac:(lia) ltac:(lia)) as (mn' & H0 & H1 & E & HF). specialize (H1 ltac:(lia)). exists mn'. split_and!; [done|lia| |constructor; [fold s; lia|done]].
    destruct o; [| |done]; rewrite Et; cbn [mbind option_bind]; fold mx' mn1; rewrite E; cbn [mbind option_bind]; do 4 f_equal; lia.
  - destruct (IH (S j) mx 0 Hv Hmx ltac:(lia)) as (mn' & H0 & H1 & E & HF). specialize (H1 ltac:(lia)). rewrite E. cbn [mbind option_bind bytes_of]. change (zlen []) with 0.
    exists mn'. split_and!; [done|lia| |constructor; [cbn; change (zlen []) with 0; lia|done]]. pose proof (longest_nonneg objs). do 4 f_equal. lia.
Qed.

Lemma load_sources_wrongtype objs : forall j mx mn, Forall (fun o => o = Some OtherType \/ value_ok o) objs -> Some OtherType ∈ objs ->
  load_sources j objs mx mn = Some (inl BITOP_WRONGTYPE).
Proof.
  induction objs as [|o objs IH]; intros j mx mn Hv Hin; [by apply not_elem_of_nil in Hin|]. cbn [load_sources]. apply list.Forall_cons in Hv as [Ho Hv].
  apply elem_of_cons in Hin as [<-|Hin]; [done|]. destruct o as [o|]; [|by rewrite IH]. destruct Ho as [[= ->]|Ho]; [done|]. destruct (source_text o Ho) as [Hne Et].
  destruct o; [| |done]; rewrite Et; cbn [mbind option_bind]; by rewrite IH.
Qed.

Lemma longest_ge objs o : o ∈ objs -> zlen (bytes_of o) <= longest objs.
Proof. induction objs as [|x objs IH]; [by intros ?%not_elem_of_nil|]. rewrite longest_cons. intros [->|H]%elem_of_cons; [lia|]. specialize (IH H). lia. Qed.

Lemma parse_errors W name op objs : parse_bitop name = Some op -> arity_ok op (zlen objs) = true -> bitopCommand W name objs =
  r ← load_sources 0 objs 0 0;
  match r with
  | inl e => Some (inl e)
  | inr ([], _, _) => None
  | inr (first :: rest, maxlen, minlen) => Some (inr (if maxlen =? 0 then (None, 0) else (Some (bitop_result W op first rest maxlen minlen), maxlen)))
  end.
Proof.
  intros Ep Ha. unfold bitopCommand. rewrite Ep.
  assert (E : bool_decide (op = BITOP_NOT) && negb (zlen objs =? 1) = false /\ bool_decide (op ∈ [BITOP_DIFF; BITOP_DIFF1; BITOP_ANDOR]) && (zlen objs <? 2) = false).
  { destruct op; cbn [arity_ok] in Ha; vm_compute (bool_decide (_ = _)); vm_compute (bool_decide (_ ∈ _)); rewrite ?Ha; cbn [andb negb]; (split; [done|]); try done; lia. }
  destruct E as [-> ->]. destruct (load_sources 0 objs 0 0) as [[e|[[[|first rest] maxlen] minlen]]|]; [done|done| |done]. cbn [mbind option_bind]. by destruct (maxlen =? 0).
Qed.

(** C29: [BITOP] with an accepted number of keys: when every key is a string or
    missing, the reply is the length of the longest, the target becomes a
    string of that length (or is deleted when it is 0), and bit [i] of it is the
    operation on bits [i] of the keys, with shorter strings padded with zeros;
    with a key of another type nothing is stored and the error is replied. *)
Theorem bitop_combines W name op objs : 1 <= W -> parse_bitop name = Some op -> arity_ok op (zlen objs) = true ->
  Forall (fun o => o = Some OtherType \/ value_ok o) objs ->
  if bool_decide (Some OtherType ∈ objs) then bitopCommand W name objs = Some (inl BITOP_WRONGTYPE)
  else exists res, bitopCommand W name objs = Some (inr (res, longest objs)) /\ (res = None <-> longest objs = 0) /\ zlen (default [] res) = longest objs /\
    forall first rest i, objs = first :: rest -> 0 <= i < 8 * longest objs ->
      bit (default [] res) i = op_bit op (bit (bytes_of first) i) ((fun o => bit (bytes_of o) i) <$> rest).
Proof.
  intros HW Ep Ha Hv. rewrite (parse_errors W name op objs Ep Ha). case_bool_decide as Hin; [by rewrite load_sources_wrongtype|].
  assert (Hv' : Forall value_ok objs) by (apply list.Forall_forall; intros o Ho; rewrite list.Forall_forall in Hv; destruct (Hv o Ho) as [->|]; [done|done]).
  destruct (load_sources_ok objs 0 0 0 Hv' ltac:(lia) ltac:(lia)) as (mn & Hmn & _ & E & HF). pose proof (longest_nonneg objs) as Hl. rewrite Z.max_r in E by done. rewrite E. cbn [mbind option_bind].
  destruct objs as [|first rest]; [exfalso; by destruct op|]. rewrite fmap_cons. set (n := longest (first :: rest)) in *. apply list.Forall_cons in Hv' as [Hvf Hvr].
  destruct (bitop_result_ok W HW op (bytes_of first) (bytes_of <$> rest) n mn) as [Hlen Hbit].
  - by apply bytes_of_bytes.
  - apply Forall_fmap. eapply list.Forall_impl; [exact Hvr|]. intros o. apply bytes_of_bytes.
  - intros ->. cbn in Ha. rewrite zlen_cons in Ha. destruct rest; [done|]. rewrite zlen_cons in Ha. pose proof (zlen_nonneg rest). lia.
  - apply list.Forall_cons in HF as [HF _]. pose proof (longest_ge (first :: rest) first ltac:(by left)). unfold n. lia.
  - destruct (Z.eqb_spec n 0) as [E0|E0].
    + exists None. rewrite E0. split_and!; [done|done|done|]. intros; lia.
    + eexists (Some _). split_and!; [done|split; [done|intros ->; done]|cbn [default from_option id]; unfold zlen; rewrite Hlen; lia|]. intros f r i [= <- <-] Hi. cbn [default from_option id]. rewrite Hbit by done. f_equal. by rewrite <- list_fmap_compose.
Qed.

Lemma bitop_combines_witness : let objs := [Some (SdsEncoded [0x17; 255]); None; Some (IntEncoded 42)] in
  exists res, bitopCommand 8 [79; 110; 101] objs = Some (inr (res, longest objs)) /\ (res = None <-> longest objs = 0) /\ zlen (default [] res) = longest objs /\
    forall first rest i, objs = first :: rest -> 0 <= i < 8 * longest objs ->
      bit (default [] res) i = op_bit BITOP_ONE (bit (bytes_of first) i) ((fun o => bit (bytes_of o) i) <$> rest).
Proof.
  apply (bitop_combines 8 [79; 110; 101] BITOP_ONE [Some (SdsEncoded [0x17; 255]); None; Some (IntEncoded 42)]); [done|vm_compute; reflexivity|done|].
  constructor; [|constructor; [|constructor; [|constructor]]]; right; cbn; [|done|unfold is_s; lia]. constructor; [|constructor; [|constructor]]; unfold is_byte; lia.
Defined.
