(* ===== verification/Crc.v ===== *)
(** * Checksums (src/crc64.c, src/crcspeed.c, src/crccombine.c)

    The bit-by-bit CRC-64 of crc64.c, from which the tables are made; the
    routine of crcspeed.c that works on 8 bytes at once, and on two or three
    parts of a long input whose checksums it then merges with powers of a matrix
    over bits (crccombine.c).  The machine is little-endian. *)

From stdpp Require Import base list numbers option tactics.
From S2P Require Import Prelude.

(** ** The bit-by-bit CRC-64 *)

Definition POLY : Z := 0xad93d23594c935a9.

(** One step of [crc_reflect]: swap neighbouring groups of [k] bits. *)
Definition swap_groups (k m data : Z) : Z :=
  Z.lor (Z.land (Z.shiftr data k) m) (u64 (Z.shiftl (Z.land data m) k)).

Definition crc_reflect (data data_len : Z) : option Z :=
  _ ← cassert (data_len <=? 64);
  let data := swap_groups 1 0x5555555555555555 data in
  let data := swap_groups 2 0x3333333333333333 data in
  let data := swap_groups 4 0x0F0F0F0F0F0F0F0F data in
  let data := swap_groups 8 0x00FF00FF00FF00FF data in
  let data := swap_groups 16 0x0000FFFF0000FFFF data in
  let data := swap_groups 32 0x00000000FFFFFFFF data in
  Some (Z.shiftr data (64 - data_len)).

Definition crc_bit (c i crc : Z) : Z :=
  let bit := Z.land crc 0x8000000000000000 in
  let bit := if Z.land c i =? 0 then bit else if bit =? 0 then 1 else 0 in
  let crc := u64 (Z.shiftl crc 1) in
  if bit =? 0 then crc else Z.lxor crc POLY.

(** The loop over the bits [0x01] to [0x80] of a byte. *)
Fixpoint crc_bits (n : nat) (c i crc : Z) : Z :=
  match n with
  | O => crc
  | S n => crc_bits n c (Z.shiftl i 1) (crc_bit c i crc)
  end.

Fixpoint crc_bytes (data : list Z) (crc : Z) : Z :=
  match data with
  | [] => crc
  | c :: data => crc_bytes data (Z.land (crc_bits 8 c 0x01 crc) 0xffffffffffffffff)
  end.

Definition _crc64 (crc : Z) (data : list Z) : option Z :=
  crc_reflect (Z.land (crc_bytes data crc) 0xffffffffffffffff) 64.

(** ** Tables *)

(** [table[8][256]], by rows. *)
Abbreviation table := (list (list Z)).

Definition entry (t : table) (k : nat) (n : Z) : option Z := row ← t !! k; rd row n.

(** The entries [table[1..7][n]], from [crc = table[0][n]]. *)
Fixpoint nested (row0 : list Z) (k : nat) (crc : Z) : option (list Z) :=
  match k with
  | O => Some []
  | S k =>
      x ← rd row0 (Z.land crc 0xff);
      let crc := Z.lxor x (Z.shiftr crc 8) in
      rest ← nested row0 k crc;
      Some (crc :: rest)
  end.

Definition crcspeed64little_init (crcfn : Z -> list Z -> option Z) : option table :=
  row0 ← mapM (fun n => crcfn 0 [n]) (seqZ 0 256);
  columns ← mapM (nested row0 7) row0;
  Some (row0 :: ((fun k => (fun col => default 0 (col !! k)) <$> columns) <$> seq 0 7)).

(** ** Merging checksums (crccombine.c) *)

Definition CRC64_REVERSED_POLY : Z := 0x95ac9329ac4bc9b5.
Definition CRC64_LEN_MASK : Z := 0x7ffffffffffffff8.

(** [gf2_matrix_times_switch]: four bits of the vector at a time. *)
Definition times_switch4 (a b c d : Z) (v sum : Z) : Z :=
  match v with
  | 15 => Z.lxor sum (Z.lxor (Z.lxor (Z.lxor a b) c) d)
  | 14 => Z.lxor sum (Z.lxor (Z.lxor b c) d)
  | 13 => Z.lxor sum (Z.lxor (Z.lxor a c) d)
  | 12 => Z.lxor sum (Z.lxor c d)
  | 11 => Z.lxor sum (Z.lxor (Z.lxor a b) d)
  | 10 => Z.lxor sum (Z.lxor b d)
  | 9 => Z.lxor sum (Z.lxor a d)
  | 8 => Z.lxor sum d
  | 7 => Z.lxor sum (Z.lxor (Z.lxor a b) c)
  | 6 => Z.lxor sum (Z.lxor b c)
  | 5 => Z.lxor sum (Z.lxor a c)
  | 4 => Z.lxor sum c
  | 3 => Z.lxor sum (Z.lxor a b)
  | 2 => Z.lxor sum b
  | 1 => Z.lxor sum a
  | _ => sum
  end.

Fixpoint times_loop (fuel : nat) (mat : list Z) (vec sum : Z) : option Z :=
  if vec =? 0 then Some sum
  else match fuel with
       | O => None
       | S fuel =>
           match mat with
           | a :: b :: c :: d :: mat => times_loop fuel mat (Z.shiftr vec 4) (times_switch4 a b c d (Z.land vec 15) sum)
           | _ => None
           end
       end.

Definition gf2_matrix_times_switch (mat : list Z) (vec : Z) : option Z := times_loop 16 mat vec 0.

Definition gf2_matrix_square (mat : list Z) : option (list Z) := mapM (gf2_matrix_times_switch mat) mat.

(** [combine_cache[64][64]]; all zeros before it is filled. *)
Abbreviation combine_cache := (list (list Z)).

Definition empty_cache : combine_cache := replicate 64 (replicate 64 0).

(** The operator for one zero bit, [combine_cache[1]] at first. *)
Definition zero_bit_matrix (poly : Z) : list Z := poly :: ((fun n => Z.shiftl 1 (Z.of_nat n)) <$> seq 0 63).

(** The rows of the [do] loop, from the matrix each one squares. *)
Fixpoint cache_rows (n : nat) (mat : list Z) : option combine_cache :=
  match n with
  | O => Some []
  | S n => sq ← gf2_matrix_square mat; rest ← cache_rows n sq; Some (sq :: rest)
  end.

Definition init_combine_cache (poly : Z) : option combine_cache :=
  even ← gf2_matrix_square (zero_bit_matrix poly);
  odd ← gf2_matrix_square even;
  cache_rows 64 odd.

Fixpoint combine_loop (fuel : nat) (cache : combine_cache) (cache_num crc1 len2 : Z) : option Z :=
  match fuel with
  | O => None
  | S fuel =>
      mat ← cache !! Z.to_nat cache_num;
      crc1 ← (if Z.land len2 1 =? 0 then Some crc1 else gf2_matrix_times_switch mat crc1);
      let len2 := Z.shiftr len2 1 in
      if len2 =? 0 then Some crc1 else combine_loop fuel cache (Z.land (cache_num + 1) 63) crc1 len2
  end.

(** The merged checksum and the cache. *)
Definition crc64_combine (cache : combine_cache) (crc1 crc2 len2 poly : Z) : option (Z * combine_cache) :=
  if len2 =? 0 then Some (crc1, cache)
  else
    row0 ← cache !! 0%nat; c00 ← row0 !! 0%nat;
    cache ← (if c00 =? 0 then init_combine_cache poly else Some cache);
    crc1 ← combine_loop 64 cache 0 crc1 len2;
    Some (Z.lxor crc1 crc2, cache).

(** ** Eight bytes at a time (crcspeed.c) *)

Section Speed.
Context (t : table).

Definition crc_table_byte (crc b : Z) : option Z :=
  x ← entry t 0 (Z.land (Z.lxor crc b) 0xff); Some (Z.lxor x (Z.shiftr crc 8)).

(** [DO_8_2] *)
Definition DO_8_2 (crc : Z) : option Z :=
  x7 ← entry t 7 (u8 crc);
  x6 ← entry t 6 (u8 (Z.shiftr crc 8));
  x5 ← entry t 5 (u8 (Z.shiftr crc 16));
  x4 ← entry t 4 (u8 (Z.shiftr crc 24));
  x3 ← entry t 3 (u8 (Z.shiftr crc 32));
  x2 ← entry t 2 (u8 (Z.shiftr crc 40));
  x1 ← entry t 1 (u8 (Z.shiftr crc 48));
  x0 ← entry t 0 (Z.shiftr crc 56);
  Some (Z.lxor (Z.lxor (Z.lxor (Z.lxor (Z.lxor (Z.lxor (Z.lxor x7 x6) x5) x4) x3) x2) x1) x0).

(** [DO_8_1] and [DO_8_2]: the next 8 bytes, and what follows them. *)
Definition do_8 (crc : Z) (next : list Z) : option (Z * list Z) :=
  w ← rd_bytes next 0 8;
  crc ← DO_8_2 (Z.lxor crc (le_val w));
  Some (crc, drop 8 next).

(** Bytes until the address is a multiple of 8. *)
Fixpoint align_loop (addr : Z) (next : list Z) (crc : Z) : option (Z * list Z) :=
  match next with
  | [] => Some (crc, next)
  | b :: rest =>
      if Z.land addr 7 =? 0 then Some (crc, next)
      else crc ← crc_table_byte crc b; align_loop (addr + 1) rest crc
  end.

Fixpoint final_loop (next : list Z) (crc : Z) : option Z :=
  match next with
  | [] => Some crc
  | b :: rest => crc ← crc_table_byte crc b; final_loop rest crc
  end.

(** [while (len >= 8)], [len] counted in words. *)
Fixpoint word_loop (words : nat) (crc1 : Z) (next1 : list Z) : option (Z * list Z) :=
  match words with
  | O => Some (crc1, next1)
  | S words => '(crc1, next1) ← do_8 crc1 next1; word_loop words crc1 next1
  end.

Fixpoint dual_loop (words : nat) (crc1 crc2 : Z) (next1 next2 : list Z) : option (Z * Z * list Z) :=
  match words with
  | O => Some (crc1, crc2, next2)
  | S words =>
      '(crc1, next1) ← do_8 crc1 next1; '(crc2, next2) ← do_8 crc2 next2;
      dual_loop words crc1 crc2 next1 next2
  end.

Fixpoint tri_loop (words : nat) (crc1 crc2 crc3 : Z) (next1 next2 next3 : list Z) : option (Z * Z * Z * list Z) :=
  match words with
  | O => Some (crc1, crc2, crc3, next3)
  | S words =>
      '(crc1, next1) ← do_8 crc1 next1; '(crc2, next2) ← do_8 crc2 next2; '(crc3, next3) ← do_8 crc3 next3;
      tri_loop words crc1 crc2 crc3 next1 next2 next3
  end.

(** [CRC64_SPLIT] *)
Definition split_len (len div : Z) : Z := Z.land (len / div) CRC64_LEN_MASK.

(** Long inputs: three or two parts at once, then merged.  The checksum so far,
    the bytes left and the cache. *)
Definition crc_parts (dual_cutoff tri_cutoff : Z) (cache : combine_cache) (crc1 : Z) (next1 : list Z) : option (Z * list Z * combine_cache) :=
  let len := zlen next1 in
  if len >? tri_cutoff then
    let seg := split_len len 3 in
    let next2 := drop (Z.to_nat seg) next1 in
    let next3 := drop (Z.to_nat seg) next2 in
    '(crc1, crc2, crc3, next3) ← tri_loop (Z.to_nat (seg / 8)) crc1 0 0 next1 next2 next3;
    '(crc1, cache) ← crc64_combine cache crc1 crc2 seg CRC64_REVERSED_POLY;
    '(crc1, cache) ← crc64_combine cache crc1 crc3 seg CRC64_REVERSED_POLY;
    Some (crc1, next3, cache)
  else if len >? dual_cutoff then
    let seg := split_len len 2 in
    let next2 := drop (Z.to_nat seg) next1 in
    '(crc1, crc2, next2) ← dual_loop (Z.to_nat (seg / 8)) crc1 0 next1 next2;
    '(crc1, cache) ← crc64_combine cache crc1 crc2 seg CRC64_REVERSED_POLY;
    Some (crc1, next2, cache)
  else Some (crc1, next1, cache).

(** The cutoffs are those of [set_crc64_cutoffs]. *)
Definition crcspeed64little (dual_cutoff tri_cutoff : Z) (cache : combine_cache) (addr crc1 : Z) (buf : list Z) : option (Z * combine_cache) :=
  if dual_cutoff <? 1 then crc ← final_loop buf crc1; Some (crc, cache)
  else
    '(crc1, next1) ← align_loop addr buf crc1;
    '(crc1, next1, cache) ← crc_parts dual_cutoff tri_cutoff cache crc1 next1;
    '(crc1, next1) ← word_loop (Z.to_nat (zlen next1 / 8)) crc1 next1;
    crc ← final_loop next1 crc1;
    Some (crc, cache).
End Speed.

(** The state of crc64.c and of the files it uses. *)
Record crc64_state := { crc64_table : table; crc64_cache : combine_cache; crc64_dual_cutoff : Z; crc64_tri_cutoff : Z }.

Definition crc64_init (dual_cutoff tri_cutoff : Z) : option crc64_state :=
  t ← crcspeed64little_init _crc64;
  Some {| crc64_table := t; crc64_cache := empty_cache; crc64_dual_cutoff := dual_cutoff; crc64_tri_cutoff := tri_cutoff |}.

Definition crc64 (st : crc64_state) (addr crc : Z) (s : list Z) : option (Z * crc64_state) :=
  '(crc, cache) ← crcspeed64little (crc64_table st) (crc64_dual_cutoff st) (crc64_tri_cutoff st) (crc64_cache st) addr crc s;
  Some (crc, {| crc64_table := crc64_table st; crc64_cache := cache; crc64_dual_cutoff := crc64_dual_cutoff st; crc64_tri_cutoff := crc64_tri_cutoff st |}).
