(* ===== verification/CrcThms.v ===== *)
(** * CRC-64: the fast routine computes the bit-by-bit checksum

    [bstep] advances the reflected register by one zero bit; it is linear over
    exclusive or, so tables for single bytes, words and the merging of parts
    all come from [steps]. *)

From Stdlib Require Import Btauto.
From stdpp Require Import base list numbers option tactics.
From S2P Require Import Prelude BitopsSpec Crc.

#[local] Ltac Zify.zify_post_hook ::= Z.to_euclidean_division_equations.

(** ** The reference: one bit at a time *)

Definition bstep (c : Z) : Z := Z.lxor (Z.shiftr c 1) (if Z.testbit c 0 then CRC64_REVERSED_POLY else 0).

Definition steps (n c : Z) : Z := Nat.iter (Z.to_nat n) bstep c.

(** The checksum of [s] from the register [c]. *)
Definition crc_of (c : Z) (s : list Z) : Z := foldl (fun c b => steps 8 (Z.lxor c b)) c s.

Ltac xor_solve := apply Z.bits_inj'; intros ? ?; rewrite ?Z.lxor_spec, ?Z.bits_0; btauto.

Definition linear (f : Z -> Z) : Prop := f 0 = 0 /\ forall a b, f (Z.lxor a b) = Z.lxor (f a) (f b).

Lemma bstep_linear : linear bstep.
Proof.
  split; [done|]. intros a b. unfold bstep. rewrite Z.shiftr_lxor, Z.lxor_spec. destruct (Z.testbit a 0), (Z.testbit b 0); cbn [xorb]; xor_solve.
Qed.

Lemma bstep_range c : 0 <= c < 2 ^ 64 -> 0 <= bstep c < 2 ^ 64.
Proof.
  intros Hc. unfold bstep. apply lxor_below; [lia| |unfold CRC64_REVERSED_POLY; destruct (Z.testbit c 0); lia]. rewrite Z.shiftr_div_pow2 by lia. lia.
Qed.

Lemma steps_0 c : steps 0 c = c.
Proof. done. Qed.

Lemma steps_add n m c : 0 <= n -> 0 <= m -> steps (n + m) c = steps n (steps m c).
Proof. intros. unfold steps. by rewrite Z2Nat.inj_add, Nat.iter_add by lia. Qed.

Lemma steps_linear n : linear (steps n).
Proof.
  unfold steps. induction (Z.to_nat n) as [|k [IH0 IH]]; [done|]. split; [by rewrite Nat.iter_succ, IH0|]. intros a b. rewrite !Nat.iter_succ. by rewrite IH, (proj2 bstep_linear).
Qed.

Lemma steps_lxor n a b : steps n (Z.lxor a b) = Z.lxor (steps n a) (steps n b).
Proof. apply steps_linear. Qed.

Lemma steps_range n c : 0 <= c < 2 ^ 64 -> 0 <= steps n c < 2 ^ 64.
Proof. intros Hc. unfold steps. induction (Z.to_nat n) as [|k IH]; [done|]. rewrite Nat.iter_succ. by apply bstep_range. Qed.

(** Bits above the ones shifted out only move. *)
Lemma steps_shiftl n x : 0 <= n -> steps n (Z.shiftl x n) = x.
Proof.
  intros Hn. unfold steps. rewrite <- (Z2Nat.id n) at 2 by done. revert x. induction (Z.to_nat n) as [|k IH]; intros x; [by rewrite Z.shiftl_0_r|].
  rewrite Nat.iter_succ_r. rewrite <- (IH x) at 2. f_equal. unfold bstep. rewrite Z.shiftl_spec_low, Z.lxor_0_r by lia. rewrite Z.shiftr_shiftl_l by lia. f_equal. lia.
Qed.

Lemma split_byte c : c = Z.lxor (Z.land c 255) (Z.shiftl (Z.shiftr c 8) 8).
Proof.
  apply Z.bits_inj'. intros j Hj. rewrite Z.lxor_spec, Z.land_spec, Z.shiftl_spec by done. change 255 with (Z.ones 8). destruct (decide (j < 8)).
  - rewrite Z.ones_spec_low, (Z.testbit_neg_r _ (j - 8)) by lia. by rewrite andb_true_r, xorb_false_r.
  - rewrite Z.ones_spec_high, Z.shiftr_spec by lia. rewrite andb_false_r. cbn. f_equal. lia.
Qed.

Lemma steps_byte k c : 0 <= k -> steps (k + 8) c = Z.lxor (steps (k + 8) (Z.land c 255)) (steps k (Z.shiftr c 8)).
Proof. intros Hk. rewrite (split_byte c) at 1. rewrite steps_lxor. f_equal. by rewrite steps_add, steps_shiftl by lia. Qed.

(** ** Tables *)

Definition spec_row (k : nat) : list Z := steps (8 * Z.of_nat k + 8) <$> seqZ 0 256.
Definition spec_table : list (list Z) := spec_row <$> seq 0 8.

Lemma init_table : crcspeed64little_init _crc64 = Some spec_table.
Proof. vm_compute. reflexivity. Qed.

Lemma entry_ok k n : (k < 8)%nat -> is_byte n -> entry spec_table k n = Some (steps (8 * Z.of_nat k + 8) n).
Proof.
  intros Hk [Hn Hn']. unfold entry, spec_table. rewrite list_lookup_fmap, lookup_seq_lt by done. cbn [fmap option_fmap option_map mbind option_bind]. rewrite rd_lookup by done.
  unfold spec_row. rewrite list_lookup_fmap, lookup_seqZ_lt by lia. cbn [fmap option_fmap option_map]. do 2 f_equal. lia.
Qed.

Lemma byte_of_land c : is_byte (Z.land c 255).
Proof. rewrite land_255. unfold is_byte. lia. Qed.

Lemma crc_table_byte_ok crc b : is_byte b -> crc_table_byte spec_table crc b = Some (steps 8 (Z.lxor crc b)).
Proof.
  intros Hb. unfold crc_table_byte. change 0xff with 255. rewrite entry_ok by (lia || apply byte_of_land). cbn [mbind option_bind]. f_equal. change (8 * Z.of_nat 0 + 8) with 8.
  pose proof (steps_byte 0 (Z.lxor crc b) ltac:(lia)) as E. rewrite steps_0 in E. change (0 + 8) with 8 in E. rewrite E. f_equal. rewrite Z.shiftr_lxor. replace (Z.shiftr b 8) with 0; [by rewrite Z.lxor_0_r|].
  rewrite Z.shiftr_div_pow2 by lia. destruct Hb. symmetry. apply Z.div_small. lia.
Qed.

Lemma steps_peel k n j c : k = n + 8 -> 0 <= n -> 0 <= j -> steps k (Z.shiftr c j) = Z.lxor (steps k (Z.land (Z.shiftr c j) 255)) (steps n (Z.shiftr c (j + 8))).
Proof. intros -> Hn Hj. by rewrite steps_byte, Z.shiftr_shiftr by done. Qed.

Lemma DO_8_2_ok crc : 0 <= crc < 2 ^ 64 -> DO_8_2 spec_table crc = Some (steps 64 crc).
Proof.
  intros Hc. unfold DO_8_2, wrapu. change (2 ^ 8) with 256. rewrite <- !land_255. rewrite !entry_ok by (lia || apply byte_of_land || (unfold is_byte; rewrite Z.shiftr_div_pow2; lia)).
  cbn [mbind option_bind]. f_equal. rewrite <- (Z.shiftr_0_r crc) at 9. rewrite <- (Z.shiftr_0_r crc) at 1.
  rewrite (steps_peel 64 56), (steps_peel 56 48), (steps_peel 48 40), (steps_peel 40 32), (steps_peel 32 24), (steps_peel 24 16), (steps_peel 16 8) by done. rewrite !Z.lxor_assoc. done.
Qed.

(** ** Bytes and words *)

Lemma crc_of_range s : forall c, Forall is_byte s -> 0 <= c < 2 ^ 64 -> 0 <= crc_of c s < 2 ^ 64.
Proof.
  induction s as [|b s IH]; intros c Hs Hc; [done|]. apply list.Forall_cons in Hs as [[Hb Hb'] Hs]. cbn. apply IH; [done|]. apply steps_range, lxor_below; lia.
Qed.

Lemma crc_of_app c s t : crc_of c (s ++ t) = crc_of (crc_of c s) t.
Proof. unfold crc_of. by rewrite foldl_app. Qed.

Lemma add_byte_lxor b w : is_byte b -> b + 256 * w = Z.lxor b (Z.shiftl w 8).
Proof.
  intros Hb. rewrite <- Z.add_nocarry_lxor; [rewrite Z.shiftl_mul_pow2 by lia; lia|].
  apply Z.bits_inj'. intros j Hj. rewrite Z.land_spec, Z.bits_0, Z.shiftl_spec by done. destruct (decide (j < 8)); [by rewrite (Z.testbit_neg_r w), andb_false_r by lia|by rewrite (byte_high_bits b) by (done || lia)].
Qed.

Lemma crc_of_word l : forall c, Forall is_byte l -> steps (8 * zlen l) (Z.lxor c (le_val l)) = crc_of c l.
Proof.
  induction l as [|b l IH]; intros c Hl; [by rewrite Z.lxor_0_r|]. apply list.Forall_cons in Hl as [Hb Hl]. rewrite zlen_cons. cbn [le_val crc_of foldl]. fold (crc_of (steps 8 (Z.lxor c b)) l).
  rewrite <- IH by done. rewrite add_byte_lxor, <- Z.lxor_assoc by done. pose proof (zlen_nonneg l). replace (8 * (1 + zlen l)) with (8 * zlen l + 8) by lia.
  rewrite steps_add by lia. f_equal. rewrite steps_lxor. by rewrite steps_shiftl by lia.
Qed.

Lemma do_8_ok crc w rest : Forall is_byte w -> length w = 8%nat -> 0 <= crc < 2 ^ 64 -> do_8 spec_table crc (w ++ rest) = Some (crc_of crc w, rest).
Proof.
  intros Hw Hl Hc. unfold do_8. rewrite rd_bytes_head by (unfold zlen; lia). cbn [mbind option_bind].
  rewrite DO_8_2_ok by (apply lxor_below; [lia|done|]; pose proof (le_val_bound w Hw); by rewrite Hl in *). cbn [mbind option_bind]. rewrite drop_app_length' by done.
  rewrite <- crc_of_word by done. by rewrite (ltac:(unfold zlen; lia) : zlen w = 8).
Qed.

Lemma next_word (n : nat) (s : list Z) : (8 * S n <= length s)%nat -> exists w r, s = w ++ r /\ length w = 8%nat /\ (8 * n <= length r)%nat /\ take (8 * S n) s = w ++ take (8 * n) r /\ drop (8 * S n) s = drop (8 * n) r.
Proof.
  intros H. exists (take 8 s), (drop 8 s). rewrite take_drop, length_take, length_drop. split_and!; [done|lia|lia| |].
  - rewrite <- (take_drop 8 s) at 1. replace (8 * S n)%nat with (length (take 8 s) + 8 * n)%nat by (rewrite length_take; lia). by rewrite take_app_add.
  - rewrite drop_drop. f_equal. lia.
Qed.

Lemma Forall_split (P : Z -> Prop) (w r : list Z) : Forall P (w ++ r) -> Forall P w /\ Forall P r.
Proof. apply list.Forall_app. Qed.

Lemma word_loop_ok n : forall crc s, Forall is_byte s -> 0 <= crc < 2 ^ 64 -> (8 * n <= length s)%nat ->
  word_loop spec_table n crc s = Some (crc_of crc (take (8 * n) s), drop (8 * n) s).
Proof.
  induction n as [|n IH]; intros crc s Hs Hc Hl; [done|]. destruct (next_word n s Hl) as (w & r & -> & Hw & Hr & Et & Ed). apply Forall_split in Hs as [H1 H2]. rewrite Et, Ed.
  cbn [word_loop]. rewrite do_8_ok by done. cbn [mbind option_bind]. rewrite IH, crc_of_app by (done || by apply crc_of_range). done.
Qed.

Lemma dual_loop_ok n : forall c1 c2 s1 s2, Forall is_byte s1 -> Forall is_byte s2 -> 0 <= c1 < 2 ^ 64 -> 0 <= c2 < 2 ^ 64 -> (8 * n <= length s1)%nat -> (8 * n <= length s2)%nat ->
  dual_loop spec_table n c1 c2 s1 s2 = Some (crc_of c1 (take (8 * n) s1), crc_of c2 (take (8 * n) s2), drop (8 * n) s2).
Proof.
  induction n as [|n IH]; intros c1 c2 s1 s2 Hs1 Hs2 Hc1 Hc2 Hl1 Hl2; [done|].
  destruct (next_word n s1 Hl1) as (w1 & r1 & -> & Hw1 & Hr1 & Et1 & Ed1), (next_word n s2 Hl2) as (w2 & r2 & -> & Hw2 & Hr2 & Et2 & Ed2).
  apply Forall_split in Hs1 as [? ?], Hs2 as [? ?]. rewrite Et1, Et2, Ed2. cbn [dual_loop]. rewrite !do_8_ok by done. cbn [mbind option_bind].
  rewrite IH, !crc_of_app by (done || by apply crc_of_range). done.
Qed.

Lemma tri_loop_ok n : forall c1 c2 c3 s1 s2 s3, Forall is_byte s1 -> Forall is_byte s2 -> Forall is_byte s3 -> 0 <= c1 < 2 ^ 64 -> 0 <= c2 < 2 ^ 64 -> 0 <= c3 < 2 ^ 64 ->
  (8 * n <= length s1)%nat -> (8 * n <= length s2)%nat -> (8 * n <= length s3)%nat ->
  tri_loop spec_table n c1 c2 c3 s1 s2 s3 = Some (crc_of c1 (take (8 * n) s1), crc_of c2 (take (8 * n) s2), crc_of c3 (take (8 * n) s3), drop (8 * n) s3).
Proof.
  induction n as [|n IH]; intros c1 c2 c3 s1 s2 s3 Hs1 Hs2 Hs3 Hc1 Hc2 Hc3 Hl1 Hl2 Hl3; [done|].
  destruct (next_word n s1 Hl1) as (w1 & r1 & -> & Hw1 & Hr1 & Et1 & Ed1), (next_word n s2 Hl2) as (w2 & r2 & -> & Hw2 & Hr2 & Et2 & Ed2), (next_word n s3 Hl3) as (w3 & r3 & -> & Hw3 & Hr3 & Et3 & Ed3).
  apply Forall_split in Hs1 as [? ?], Hs2 as [? ?], Hs3 as [? ?]. rewrite Et1, Et2, Et3, Ed3. cbn [tri_loop]. rewrite !do_8_ok by done. cbn [mbind option_bind].
  rewrite IH, !crc_of_app by (done || by apply crc_of_range). done.
Qed.

Lemma final_loop_ok s : forall crc, Forall is_byte s -> final_loop spec_table s crc = Some (crc_of crc s).
Proof. induction s as [|b s IH]; intros crc Hs; [done|]. apply list.Forall_cons in Hs as [Hb Hs]. cbn [final_loop]. rewrite crc_table_byte_ok by done. cbn [mbind option_bind]. by rewrite IH. Qed.

Lemma align_loop_ok s : forall addr crc, Forall is_byte s -> exists p q, s = p ++ q /\ align_loop spec_table addr s crc = Some (crc_of crc p, q).
Proof.
  induction s as [|b s IH]; intros addr crc Hs; [by exists [], []|]. apply list.Forall_cons in Hs as [Hb Hs]. cbn [align_loop]. destruct (_ =? 0); [by exists [], (b :: s)|].
  rewrite crc_table_byte_ok by done. cbn [mbind option_bind]. destruct (IH (addr + 1) (steps 8 (Z.lxor crc b)) Hs) as (p & q & -> & E). exists (b :: p), q. by rewrite E.
Qed.

Lemma split_len_ok len div : 0 <= len < 2 ^ 64 -> 2 <= div <= 3 -> exists k : nat, split_len len div = 8 * Z.of_nat k /\ div * (8 * Z.of_nat k) <= len.
Proof.
  intros Hl Hd. unfold split_len. set (x := len / div). assert (Hx : 0 <= x < 2 ^ 63 /\ div * x <= len) by (unfold x; nia). clearbody x.
  exists (Z.to_nat (x / 8)). assert (E : Z.land x CRC64_LEN_MASK = 8 * (x / 8)); [|rewrite E; split; [lia|nia]].
  change CRC64_LEN_MASK with (Z.shiftl (Z.ones 60) 3). apply Z.bits_inj'. intros j Hj. rewrite Z.land_spec, Z.shiftl_spec by done.
  replace (8 * (x / 8)) with (Z.shiftl (Z.shiftr x 3) 3) by (rewrite Z.shiftl_mul_pow2, Z.shiftr_div_pow2 by lia; lia). rewrite Z.shiftl_spec by done. destruct (decide (j < 3)).
  - by rewrite !(Z.testbit_neg_r _ (j - 3)), andb_false_r by lia.
  - rewrite Z.shiftr_spec by lia. replace (j - 3 + 3) with j by lia. destruct (decide (j < 63)); [by rewrite Z.ones_spec_low, andb_true_r by lia|].
    rewrite (proj2 (proj1 (bits_below x 63 ltac:(lia)) (proj1 Hx))) by lia. done.
Qed.

(** * CRC-64: merging parts, and the equivalence

    A matrix holds the images of the 64 single bits under a linear function;
    squaring it squares the function, so the cache holds the operators for
    [2^k] zero bytes. *)

(** ** Matrices *)

(** The images of bits [o] to [o + n - 1]. *)
Definition images (f : Z -> Z) (o : Z) (n : nat) : list Z := (fun k => f (2 ^ (o + Z.of_nat k))) <$> seq 0 n.

Abbreviation mat_of f := (images f 0 64).

Lemma images_S f o n : images f o (S n) = f (2 ^ o) :: images f (o + 1) n.
Proof.
  unfold images. cbn [seq]. rewrite fmap_cons. f_equal; [by rewrite Z.add_0_r|]. rewrite <- fmap_S_seq, <- list_fmap_compose. apply list_fmap_ext. intros i x _. unfold compose. do 2 f_equal. lia.
Qed.

Lemma nibble_bits v : 0 <= v < 16 -> exists b0 b1 b2 b3 : bool,
  v = Z.lxor (Z.lxor (Z.lxor (if b0 then 1 else 0) (if b1 then 2 else 0)) (if b2 then 4 else 0)) (if b3 then 8 else 0).
Proof.
  intros Hv. exists (Z.testbit v 0), (Z.testbit v 1), (Z.testbit v 2), (Z.testbit v 3).
  assert (H : forallb (fun v => v =? Z.lxor (Z.lxor (Z.lxor (if Z.testbit v 0 then 1 else 0) (if Z.testbit v 1 then 2 else 0)) (if Z.testbit v 2 then 4 else 0)) (if Z.testbit v 3 then 8 else 0)) (seqZ 0 16) = true) by reflexivity.
  rewrite forallb_forall in H. apply Z.eqb_eq, H, list_elem_of_In, elem_of_seqZ. lia.
Qed.

Lemma shiftl_pow2 k o : 0 <= o -> 0 <= k -> Z.shiftl (2 ^ k) o = 2 ^ (o + k).
Proof. intros. rewrite Z.shiftl_mul_pow2, Z.pow_add_r by lia. lia. Qed.

Lemma nibble_image f o v sum : linear f -> 0 <= o -> 0 <= v < 16 ->
  times_switch4 (f (2 ^ o)) (f (2 ^ (o + 1))) (f (2 ^ (o + 1 + 1))) (f (2 ^ (o + 1 + 1 + 1))) v sum = Z.lxor sum (f (Z.shiftl v o)).
Proof.
  intros [f0 fl] Ho Hv. replace (2 ^ (o + 1 + 1 + 1)) with (Z.shiftl 8 o) by (rewrite (shiftl_pow2 3); [f_equal; lia|lia|lia]).
  replace (2 ^ (o + 1 + 1)) with (Z.shiftl 4 o) by (rewrite (shiftl_pow2 2); [f_equal; lia|lia|lia]). replace (2 ^ (o + 1)) with (Z.shiftl 2 o) by (rewrite (shiftl_pow2 1); [f_equal; lia|lia|lia]).
  replace (2 ^ o) with (Z.shiftl 1 o) by (rewrite (shiftl_pow2 0); [f_equal; lia|lia|lia]).
  destruct (nibble_bits v Hv) as (b0 & b1 & b2 & b3 & Ev). rewrite Ev at 2. rewrite !Z.shiftl_lxor, !fl.
  destruct b0, b1, b2, b3; vm_compute in Ev; subst v; cbn [times_switch4]; rewrite ?Z.shiftl_0_l, ?f0, ?Z.lxor_0_r, ?Z.lxor_0_l; rewrite ?Z.lxor_assoc; reflexivity.
Qed.

Lemma times_loop_ok f fuel : linear f -> forall o vec sum, 0 <= o -> 0 <= vec < 2 ^ (4 * Z.of_nat fuel) ->
  times_loop fuel (images f o (4 * fuel)) vec sum = Some (Z.lxor sum (f (Z.shiftl vec o))).
Proof.
  intros Hf. induction fuel as [|fuel IH]; intros o vec sum Ho Hv.
  - assert (vec = 0) as -> by lia. cbn. by rewrite Z.shiftl_0_l, (proj1 Hf), Z.lxor_0_r.
  - cbn [times_loop]. destruct (Z.eqb_spec vec 0) as [->|Hne]; [by rewrite Z.shiftl_0_l, (proj1 Hf), Z.lxor_0_r|].
    replace (4 * S fuel)%nat with (S (S (S (S (4 * fuel))))) by lia. rewrite !images_S. change (Z.land vec 15) with (Z.land vec (2 ^ 4 - 1)). rewrite land_ones by lia.
    replace (2 ^ (4 * Z.of_nat (S fuel))) with (16 * 2 ^ (4 * Z.of_nat fuel)) in Hv by (replace (4 * Z.of_nat (S fuel)) with (4 + 4 * Z.of_nat fuel) by lia; rewrite Z.pow_add_r by lia; lia).
    rewrite IH; [|lia|rewrite Z.shiftr_div_pow2 by lia; change (2 ^ 4) with 16; lia]. rewrite nibble_image by (done || lia). f_equal. rewrite Z.lxor_assoc, <- (proj2 Hf). do 2 f_equal.
    replace (o + 1 + 1 + 1 + 1) with (4 + o) by lia. rewrite <- Z.shiftl_shiftl by lia. rewrite <- Z.shiftl_lxor. f_equal. apply Z.bits_inj'. intros j Hj. rewrite Z.lxor_spec, Z.shiftl_spec by done.
    destruct (decide (j < 4)); [rewrite Z.mod_pow2_bits_low, (Z.testbit_neg_r _ (j - 4)) by lia; apply xorb_false_r|].
    rewrite Z.mod_pow2_bits_high, Z.shiftr_spec by lia. cbn. f_equal. lia.
Qed.

Lemma times_ok f v : linear f -> 0 <= v < 2 ^ 64 -> gf2_matrix_times_switch (mat_of f) v = Some (f v).
Proof. intros Hf Hv. unfold gf2_matrix_times_switch. rewrite (times_loop_ok f 16) by done. by rewrite Z.lxor_0_l, Z.shiftl_0_r. Qed.

Lemma square_ok f : linear f -> (forall v, 0 <= v < 2 ^ 64 -> 0 <= f v < 2 ^ 64) -> gf2_matrix_square (mat_of f) = Some (mat_of (fun c => f (f c))).
Proof.
  intros Hf Hr. unfold gf2_matrix_square. apply mapM_Some. unfold images. rewrite Forall2_fmap. apply Forall_Forall2_diag, list.Forall_forall. intros k Hk%elem_of_seq. apply times_ok; [done|]. apply Hr.
  split; [lia|]. apply Z.pow_lt_mono_r; lia.
Qed.

Lemma images_ext f g o n : (forall c, f c = g c) -> images f o n = images g o n.
Proof. intros H. unfold images. apply list_fmap_ext. intros; apply H. Qed.

Lemma square_steps m : 0 <= m -> gf2_matrix_square (mat_of (steps m)) = Some (mat_of (steps (2 * m))).
Proof.
  intros Hm. rewrite square_ok; [|apply steps_linear|intros; by apply steps_range]. f_equal. apply images_ext. intros c. rewrite <- steps_add by done. f_equal. lia.
Qed.

(** ** The cache *)

Definition spec_cache : list (list Z) := (fun k => mat_of (steps (8 * 2 ^ Z.of_nat k))) <$> seq 0 64.

Lemma cache_rows_ok n : forall m, 0 <= m -> cache_rows n (mat_of (steps m)) = Some ((fun k => mat_of (steps (2 * m * 2 ^ Z.of_nat k))) <$> seq 0 n).
Proof.
  induction n as [|n IH]; intros m Hm; [done|]. cbn [cache_rows]. rewrite square_steps by done. cbn [mbind option_bind]. rewrite IH by lia. cbn [mbind option_bind seq]. rewrite fmap_cons. do 2 f_equal.
  - by rewrite Z.mul_1_r.
  - rewrite <- fmap_S_seq, <- list_fmap_compose. apply list_fmap_ext. intros i k _. unfold compose. do 2 f_equal. rewrite Nat2Z.inj_succ, Z.pow_succ_r by lia. lia.
Qed.

Lemma init_cache_ok : init_combine_cache CRC64_REVERSED_POLY = Some spec_cache.
Proof.
  unfold init_combine_cache. replace (zero_bit_matrix CRC64_REVERSED_POLY) with (mat_of (steps 1)) by (vm_compute; reflexivity).
  rewrite square_steps by lia. cbn [mbind option_bind]. rewrite square_steps by lia. cbn [mbind option_bind]. rewrite cache_rows_ok by lia. done.
Qed.

Definition cache_ok (cache : list (list Z)) : Prop := cache = empty_cache \/ cache = spec_cache.

Lemma land63 n : 0 <= n < 64 -> Z.land n 63 = n.
Proof. intros Hn. change 63 with (2 ^ 6 - 1). rewrite land_ones by lia. by rewrite Z.mod_small. Qed.

Lemma combine_loop_ok fuel : forall num crc len2, 0 <= num -> num + Z.of_nat fuel = 64 -> 0 < len2 < 2 ^ (Z.of_nat fuel) -> 0 <= crc < 2 ^ 64 ->
  combine_loop fuel spec_cache num crc len2 = Some (steps (8 * 2 ^ num * len2) crc).
Proof.
  induction fuel as [|fuel IH]; intros num crc len2 Hnum Hfuel Hlen Hc; [cbn in Hlen; lia|]. cbn [combine_loop].
  assert (Erow : spec_cache !! Z.to_nat num = Some (mat_of (steps (8 * 2 ^ num)))).
  { unfold spec_cache. rewrite list_lookup_fmap, lookup_seq_lt by lia. cbn [fmap option_fmap option_map]. by rewrite Nat.add_0_l, Z2Nat.id. }
  rewrite Erow. cbn [mbind option_bind].
  set (crc' := if Z.land len2 1 =? 0 then crc else steps (8 * 2 ^ num) crc).
  assert (E : (if Z.land len2 1 =? 0 then Some crc else gf2_matrix_times_switch (mat_of (steps (8 * 2 ^ num))) crc) = Some crc').
  { unfold crc'. destruct (Z.land len2 1 =? 0); [done|]. apply times_ok; [apply steps_linear|done]. }
  rewrite E. cbn [mbind option_bind]. assert (Hp : 0 < 2 ^ num) by lia. assert (Hb : Z.land len2 1 = len2 mod 2) by (change 1 with (2 ^ 1 - 1) at 1; by rewrite land_ones).
  assert (Hc' : crc' = steps (8 * 2 ^ num * (len2 mod 2)) crc).
  { unfold crc'. rewrite Hb. destruct (Z.eqb_spec (len2 mod 2) 0) as [->|]; [by rewrite Z.mul_0_r|]. assert (len2 mod 2 = 1) as -> by lia. by rewrite Z.mul_1_r. }
  rewrite Z.shiftr_div_pow2 by lia. change (2 ^ 1) with 2. destruct (Z.eqb_spec (len2 / 2) 0) as [E0|E0]; [rewrite Hc'; do 3 f_equal; lia|].
  replace (Z.of_nat (S fuel)) with (1 + Z.of_nat fuel) in Hlen by lia. rewrite Z.pow_add_r in Hlen by lia.
  assert (fuel <> 0%nat) by (intros ->; cbn in Hlen; lia). rewrite land63 by lia. rewrite IH; [|lia|lia|lia|rewrite Hc'; by apply steps_range]. rewrite Hc', <- steps_add by (apply Z.mul_nonneg_nonneg; lia).
  do 2 f_equal. rewrite Z.pow_add_r by lia. change (2 ^ 1) with 2. pose proof (Z.div_mod len2 2). nia.
Qed.

Lemma crc64_combine_ok cache crc1 crc2 len2 : cache_ok cache -> 0 <= crc1 < 2 ^ 64 -> 0 <= crc2 < 2 ^ 64 -> 0 < len2 < 2 ^ 64 ->
  crc64_combine cache crc1 crc2 len2 CRC64_REVERSED_POLY = Some (Z.lxor (steps (8 * len2) crc1) crc2, spec_cache).
Proof.
  intros Hk H1 H2 Hl. unfold crc64_combine. destruct (Z.eqb_spec len2 0); [lia|].
  assert (E : (row0 ← cache !! 0%nat; c00 ← row0 !! 0%nat; (if c00 =? 0 then init_combine_cache CRC64_REVERSED_POLY else Some cache)) = Some spec_cache).
  { destruct Hk as [->| ->]; [exact init_cache_ok|]. change (spec_cache !! 0%nat) with (Some (mat_of (steps 8))). cbn [mbind option_bind].
    assert (E : mat_of (steps 8) !! 0%nat = Some (steps 8 1)) by done. rewrite E. cbn [mbind option_bind]. assert ((steps 8 1 =? 0) = false) as -> by (vm_compute; reflexivity). done. }
  destruct (cache !! 0%nat) as [row0|]; [|done]. cbn [mbind option_bind] in *. destruct (row0 !! 0%nat) as [c00|]; [|done]. cbn [mbind option_bind] in *. rewrite E. cbn [mbind option_bind].
  rewrite combine_loop_ok by (done || lia). by rewrite Z.mul_1_r.
Qed.

(** Merging is concatenation. *)
Lemma crc_of_zeros s : forall c d, Forall is_byte s -> crc_of (Z.lxor c d) s = Z.lxor (steps (8 * zlen s) c) (crc_of d s).
Proof.
  induction s as [|b s IH]; intros c d Hs; [done|]. apply list.Forall_cons in Hs as [Hb Hs]. cbn [crc_of foldl]. fold (crc_of (steps 8 (Z.lxor (Z.lxor c d) b)) s) (crc_of (steps 8 (Z.lxor d b)) s).
  rewrite Z.lxor_assoc, steps_lxor, IH by done. f_equal. rewrite <- steps_add by (pose proof (zlen_nonneg s); lia). f_equal. rewrite zlen_cons. lia.
Qed.

Lemma crc_of_merge c s t : Forall is_byte t -> crc_of c (s ++ t) = Z.lxor (steps (8 * zlen t) (crc_of c s)) (crc_of 0 t).
Proof. intros Ht. rewrite crc_of_app. rewrite <- (Z.lxor_0_r (crc_of c s)) at 1. by apply crc_of_zeros. Qed.

Lemma combine_parts cache c s t : cache_ok cache -> 0 <= c < 2 ^ 64 -> Forall is_byte s -> Forall is_byte t -> zlen t < 2 ^ 64 -> exists cache', cache_ok cache' /\
  crc64_combine cache (crc_of c s) (crc_of 0 t) (zlen t) CRC64_REVERSED_POLY = Some (crc_of c (s ++ t), cache').
Proof.
  intros Hk Hc Hs Ht Hl. pose proof (zlen_nonneg t). destruct (decide (zlen t = 0)) as [E|E].
  - exists cache. split; [done|]. apply zlen_0_nil in E as ->. by rewrite app_nil_r.
  - exists spec_cache. split; [by right|]. rewrite crc64_combine_ok by (done || lia || by apply crc_of_range). by rewrite crc_of_merge.
Qed.

(** ** The fast routine *)

Lemma crc_parts_ok dual tri cache c q : cache_ok cache -> 0 <= c < 2 ^ 64 -> Forall is_byte q -> zlen q < 2 ^ 64 -> exists u r cache', q = u ++ r /\ cache_ok cache' /\
  crc_parts spec_table dual tri cache c q = Some (crc_of c u, r, cache').
Proof.
  intros Hk Hc Hq Hl. pose proof (zlen_nonneg q). unfold crc_parts. destruct (zlen q >? tri); [|destruct (zlen q >? dual); [|by exists [], q, cache]].
  - destruct (split_len_ok (zlen q) 3 ltac:(lia) ltac:(lia)) as (k & -> & Hk3). replace (8 * Z.of_nat k / 8) with (Z.of_nat k) by lia. replace (Z.to_nat (8 * Z.of_nat k)) with (8 * k)%nat by lia. rewrite Nat2Z.id.
    unfold zlen in Hk3, Hl. cbv zeta. rewrite tri_loop_ok by (rewrite ?length_drop; lia || done || by repeat apply Forall_drop). cbn [mbind option_bind].
    set (s1 := take (8 * k) q). set (s2 := take (8 * k) (drop (8 * k) q)). set (s3 := take (8 * k) (drop (8 * k) (drop (8 * k) q))).
    assert (L2 : 8 * Z.of_nat k = zlen s2) by (unfold zlen, s2; rewrite length_take, length_drop; lia). assert (L3 : zlen s2 = zlen s3) by (unfold zlen, s2, s3; rewrite !length_take, !length_drop; lia).
    destruct (combine_parts cache c s1 s2) as (k1 & Hk1 & E1); [done|done|by apply Forall_take|by apply Forall_take, Forall_drop|lia|]. rewrite L2, E1. cbn [mbind option_bind].
    destruct (combine_parts k1 c (s1 ++ s2) s3) as (k2 & Hk2 & E2); [done|done|apply list.Forall_app; split; [by apply Forall_take|by apply Forall_take, Forall_drop]|by apply Forall_take, Forall_drop, Forall_drop|lia|]. rewrite L3, E2. cbn [mbind option_bind].
    exists ((s1 ++ s2) ++ s3), (drop (8 * k) (drop (8 * k) (drop (8 * k) q))), k2. split_and!; [|done|done]. unfold s1, s2, s3. by rewrite <- !app_assoc, !take_drop.
  - destruct (split_len_ok (zlen q) 2 ltac:(lia) ltac:(lia)) as (k & -> & Hk2). replace (8 * Z.of_nat k / 8) with (Z.of_nat k) by lia. replace (Z.to_nat (8 * Z.of_nat k)) with (8 * k)%nat by lia. rewrite Nat2Z.id.
    unfold zlen in Hk2, Hl. cbv zeta. rewrite dual_loop_ok by (rewrite ?length_drop; lia || done || by repeat apply Forall_drop). cbn [mbind option_bind].
    set (s1 := take (8 * k) q). set (s2 := take (8 * k) (drop (8 * k) q)). assert (L2 : 8 * Z.of_nat k = zlen s2) by (unfold zlen, s2; rewrite length_take, length_drop; lia).
    destruct (combine_parts cache c s1 s2) as (k1 & Hk1 & E1); [done|done|by apply Forall_take|by apply Forall_take, Forall_drop|lia|]. rewrite L2, E1. cbn [mbind option_bind].
    exists (s1 ++ s2), (drop (8 * k) (drop (8 * k) q)), k1. split_and!; [|done|done]. unfold s1, s2. by rewrite <- !app_assoc, !take_drop.
Qed.

Lemma crcspeed64little_ok dual tri cache addr c s : cache_ok cache -> 0 <= c < 2 ^ 64 -> Forall is_byte s -> zlen s < 2 ^ 64 ->
  exists cache', cache_ok cache' /\ crcspeed64little spec_table dual tri cache addr c s = Some (crc_of c s, cache').
Proof.
  intros Hk Hc Hs Hl. unfold crcspeed64little. destruct (dual <? 1); [exists cache; by rewrite final_loop_ok|].
  destruct (align_loop_ok s addr c Hs) as (p & q & -> & ->). cbn [mbind option_bind]. apply list.Forall_app in Hs as [Hp Hq]. rewrite zlen_app in Hl. pose proof (zlen_nonneg p).
  assert (Hc1 : 0 <= crc_of c p < 2 ^ 64) by by apply crc_of_range. destruct (crc_parts_ok dual tri cache (crc_of c p) q) as (u & r & cache' & -> & Hk' & ->); [done..|lia|]. cbn [mbind option_bind].
  apply list.Forall_app in Hq as [Hu Hr]. rewrite word_loop_ok by (done || (by apply crc_of_range) || (unfold zlen; lia)). cbn [mbind option_bind]. rewrite final_loop_ok by (by apply Forall_drop). cbn [mbind option_bind].
  exists cache'. split; [done|]. do 2 f_equal. by rewrite <- crc_of_app, take_drop, !crc_of_app.
Qed.

(** ** The bit-by-bit routine *)

(** Where bit [i] of the result of a swap comes from, and the check that the mask fits. *)
Definition swap_from (k m i : Z) : Z := if Z.testbit m i then i + k else i - k.

Definition mask_fits (k m : Z) : bool :=
  (0 <=? k) && (0 <=? m) && (m <? 2 ^ 64) &&
  forallb (fun i => if Z.testbit m i then (i + k <? 64) && ((i <? k) || negb (Z.testbit m (i - k))) else (k <=? i) && Z.testbit m (i - k)) (seqZ 0 64).

Lemma swap_groups_bit k m d : mask_fits k m = true -> 0 <= d < 2 ^ 64 -> 0 <= swap_groups k m d < 2 ^ 64 /\
  forall i, 0 <= i < 64 -> 0 <= swap_from k m i < 64 /\ Z.testbit (swap_groups k m d) i = Z.testbit d (swap_from k m i).
Proof.
  intros Hf Hd. unfold mask_fits in Hf. rewrite !andb_true_iff, forallb_forall in Hf. destruct Hf as [[[Hk Hm] Hm'] Hf]. apply Z.leb_le in Hk, Hm. apply Z.ltb_lt in Hm'.
  pose proof (proj1 (bits_below m 64 ltac:(lia)) (conj Hm Hm')) as [_ Hhi]. split.
  - apply bits_below; [lia|]. unfold swap_groups. split; [apply Z.lor_nonneg; split; [apply Z.land_nonneg; by right|apply (wrapu_range 64); lia]|]. intros j Hj.
    rewrite Z.lor_spec, Z.land_spec, Hhi, andb_false_r by lia. unfold wrapu. by rewrite Z.mod_pow2_bits_high by lia.
  - intros i Hi. specialize (Hf i ltac:(apply list_elem_of_In, elem_of_seqZ; lia)). unfold swap_groups, swap_from. rewrite Z.lor_spec, Z.land_spec, Z.shiftr_spec by lia. unfold wrapu. rewrite Z.mod_pow2_bits_low, Z.shiftl_spec, Z.land_spec by lia.
    destruct (Z.testbit m i).
    + apply andb_true_iff in Hf as [H1 H2]. apply Z.ltb_lt in H1. split; [lia|]. rewrite andb_true_r. apply orb_true_iff in H2 as [H2%Z.ltb_lt|H2]; [rewrite (Z.testbit_neg_r d (i - k)) by lia|apply negb_true_iff in H2; rewrite H2, andb_false_r]; by rewrite orb_false_r.
    + apply andb_true_iff in Hf as [H1 H2]. apply Z.leb_le in H1. split; [lia|]. by rewrite andb_false_r, H2, andb_true_r.
Qed.

Definition refl (d : Z) : Z :=
  swap_groups 32 0x00000000FFFFFFFF (swap_groups 16 0x0000FFFF0000FFFF (swap_groups 8 0x00FF00FF00FF00FF (swap_groups 4 0x0F0F0F0F0F0F0F0F (swap_groups 2 0x3333333333333333 (swap_groups 1 0x5555555555555555 d))))).

Lemma crc_reflect_refl d : crc_reflect d 64 = Some (refl d).
Proof. unfold crc_reflect. cbn [cassert mbind option_bind]. change (64 <=? 64) with true. cbn [cassert mbind option_bind]. by rewrite Z.sub_diag, Z.shiftr_0_r. Qed.

Lemma refl_bit d : 0 <= d < 2 ^ 64 -> 0 <= refl d < 2 ^ 64 /\ forall i, 0 <= i < 64 -> Z.testbit (refl d) i = Z.testbit d (63 - i).
Proof.
  intros H0. unfold refl. edestruct (swap_groups_bit 1 0x5555555555555555 d) as [H1 B1]; [by vm_compute|done|]. set (d1 := swap_groups 1 _ d) in *. clearbody d1.
  edestruct (swap_groups_bit 2 0x3333333333333333 d1) as [H2 B2]; [by vm_compute|done|]. set (d2 := swap_groups 2 _ d1) in *. clearbody d2.
  edestruct (swap_groups_bit 4 0x0F0F0F0F0F0F0F0F d2) as [H3 B3]; [by vm_compute|done|]. set (d3 := swap_groups 4 _ d2) in *. clearbody d3.
  edestruct (swap_groups_bit 8 0x00FF00FF00FF00FF d3) as [H4 B4]; [by vm_compute|done|]. set (d4 := swap_groups 8 _ d3) in *. clearbody d4.
  edestruct (swap_groups_bit 16 0x0000FFFF0000FFFF d4) as [H5 B5]; [by vm_compute|done|]. set (d5 := swap_groups 16 _ d4) in *. clearbody d5.
  edestruct (swap_groups_bit 32 0x00000000FFFFFFFF d5) as [H6 B6]; [by vm_compute|done|]. split; [done|]. intros i Hi.
  destruct (B6 i Hi) as [R6 ->], (B5 _ R6) as [R5 ->], (B4 _ R5) as [R4 ->], (B3 _ R4) as [R3 ->], (B2 _ R3) as [R2 ->], (B1 _ R2) as [R1 ->]. f_equal. clear -Hi.
  assert (C : forallb (fun i => swap_from 1 0x5555555555555555 (swap_from 2 0x3333333333333333 (swap_from 4 0x0F0F0F0F0F0F0F0F (swap_from 8 0x00FF00FF00FF00FF (swap_from 16 0x0000FFFF0000FFFF (swap_from 32 0x00000000FFFFFFFF i))))) =? 63 - i) (seqZ 0 64) = true) by (by vm_compute).
  rewrite forallb_forall in C. apply Z.eqb_eq, C, list_elem_of_In, elem_of_seqZ. lia.
Qed.

Lemma bits_eq64 a b : 0 <= a < 2 ^ 64 -> 0 <= b < 2 ^ 64 -> (forall i, 0 <= i < 64 -> Z.testbit a i = Z.testbit b i) -> a = b.
Proof.
  intros [_ Ha]%bits_below [_ Hb]%bits_below H; [|lia|lia]. apply Z.bits_inj'. intros j Hj. destruct (decide (j < 64)); [by apply H|]. by rewrite Ha, Hb by lia.
Qed.

Lemma refl_refl d : 0 <= d < 2 ^ 64 -> refl (refl d) = d.
Proof.
  intros Hd. destruct (refl_bit d Hd) as [H1 B1]. destruct (refl_bit (refl d) H1) as [H2 B2]. apply bits_eq64; [done|done|]. intros i Hi. rewrite B2, B1 by lia. f_equal. lia.
Qed.

Lemma refl_lxor a b : 0 <= a < 2 ^ 64 -> 0 <= b < 2 ^ 64 -> refl (Z.lxor a b) = Z.lxor (refl a) (refl b).
Proof.
  intros Ha Hb. destruct (refl_bit a Ha) as [Ha1 Ba], (refl_bit b Hb) as [Hb1 Bb], (refl_bit (Z.lxor a b)) as [Hc Bc]; [apply lxor_below; done || lia|].
  apply bits_eq64; [done|apply lxor_below; done || lia|]. intros i Hi. by rewrite Bc, !Z.lxor_spec, Ba, Bb by lia.
Qed.

Lemma refl_shift a : 0 <= a < 2 ^ 64 -> refl (u64 (Z.shiftl a 1)) = Z.shiftr (refl a) 1.
Proof.
  intros Ha. destruct (refl_bit a Ha) as [Ha1 Ba], (refl_bit (u64 (Z.shiftl a 1))) as [Hc Bc]; [apply wrapu_range; lia|]. apply bits_eq64; [done|rewrite Z.shiftr_div_pow2 by lia; lia|].
  intros i Hi. rewrite Bc, Z.shiftr_spec by lia. unfold wrapu. rewrite Z.mod_pow2_bits_low, Z.shiftl_spec by lia. destruct (decide (i = 63)) as [->|Hne].
  - rewrite Z.testbit_neg_r by lia. symmetry. apply (proj2 (proj1 (bits_below (refl a) 64 ltac:(lia)) Ha1)). lia.
  - rewrite Ba by lia. f_equal. lia.
Qed.

Lemma crc_bit_ok c i crc : 0 <= crc < 2 ^ 64 -> 0 <= i -> 0 <= crc_bit c (2 ^ i) crc < 2 ^ 64 /\
  refl (crc_bit c (2 ^ i) crc) = Z.lxor (Z.shiftr (refl crc) 1) (if xorb (Z.testbit (refl crc) 0) (Z.testbit c i) then CRC64_REVERSED_POLY else 0).
Proof.
  intros Hc Hi. unfold crc_bit. change 0x8000000000000000 with (2 ^ 63). pose proof (land_pow2_test c i Hi) as Ec. pose proof (land_pow2_test crc 63 ltac:(lia)) as E63.
  assert (E0 : Z.testbit (refl crc) 0 = Z.testbit crc 63) by (by rewrite (proj2 (refl_bit crc Hc)) by lia). rewrite E0.
  set (bit := if Z.land c (2 ^ i) =? 0 then Z.land crc (2 ^ 63) else if Z.land crc (2 ^ 63) =? 0 then 1 else 0).
  assert (Eb : (bit =? 0) = negb (xorb (Z.testbit crc 63) (Z.testbit c i))).
  { unfold bit. rewrite Ec. destruct (Z.testbit c i); cbn [negb]; rewrite E63; destruct (Z.testbit crc 63); done. }
  rewrite Eb. assert (Hs : 0 <= u64 (Z.shiftl crc 1) < 2 ^ 64) by (apply wrapu_range; lia). destruct (xorb _ _); cbn [negb].
  - assert (0 <= POLY < 2 ^ 64) by (by vm_compute). split; [apply lxor_below; done || lia|]. rewrite refl_lxor, refl_shift by done. f_equal.
  - split; [done|]. by rewrite refl_shift, Z.lxor_0_r by done.
Qed.

Lemma crc_bits_ok n : forall c i crc, 0 <= crc < 2 ^ 64 -> 0 <= i -> 0 <= c < 2 ^ (i + Z.of_nat n) -> 0 <= crc_bits n c (2 ^ i) crc < 2 ^ 64 /\
  refl (crc_bits n c (2 ^ i) crc) = steps (Z.of_nat n) (Z.lxor (refl crc) (Z.shiftr c i)).
Proof.
  induction n as [|n IH]; intros c i crc Hc Hi Hb; cbn [crc_bits].
  { split; [done|]. rewrite Z.add_0_r in Hb. rewrite Z.shiftr_div_pow2, Z.div_small, Z.lxor_0_r by lia. done. }
  destruct (crc_bit_ok c i crc Hc Hi) as [Hr Er]. rewrite shiftl_pow2 by lia. replace (1 + i) with (i + 1) by lia. edestruct (IH c (i + 1)) as [Hr' Er']; [exact Hr|lia|replace (i + 1 + Z.of_nat n) with (i + Z.of_nat (S n)) by lia; done|].
  split; [done|]. rewrite Er', Er. replace (Z.of_nat (S n)) with (Z.of_nat n + 1) by lia. rewrite steps_add by lia. f_equal. change (steps 1 ?x) with (bstep x). unfold bstep.
  rewrite Z.lxor_spec, Z.shiftr_spec, Z.add_0_l by lia. rewrite Z.shiftr_lxor, Z.shiftr_shiftr by lia. rewrite !Z.lxor_assoc. f_equal. apply Z.lxor_comm.
Qed.

Lemma land_u64 x : 0 <= x < 2 ^ 64 -> Z.land x 0xffffffffffffffff = x.
Proof. intros Hx. change 0xffffffffffffffff with (2 ^ 64 - 1). rewrite land_ones by lia. by rewrite Z.mod_small. Qed.

Lemma crc_bytes_ok s : forall crc, Forall is_byte s -> 0 <= crc < 2 ^ 64 -> 0 <= crc_bytes s crc < 2 ^ 64 /\ refl (crc_bytes s crc) = crc_of (refl crc) s.
Proof.
  induction s as [|b s IH]; intros crc Hs Hc; [done|]. apply list.Forall_cons in Hs as [[Hb Hb'] Hs]. cbn [crc_bytes]. destruct (crc_bits_ok 8 b 0 crc Hc ltac:(lia)) as [Hr Er]; [cbn; lia|].
  change (2 ^ 0) with 0x01 in *. rewrite land_u64 by done. destruct (IH _ Hs Hr) as [Hr' Er']. split; [done|]. rewrite Er', Er, Z.shiftr_0_r. done.
Qed.

Lemma _crc64_ok crc s : Forall is_byte s -> 0 <= crc < 2 ^ 64 -> _crc64 crc s = Some (crc_of (refl crc) s).
Proof. intros Hs Hc. unfold _crc64. destruct (crc_bytes_ok s crc Hs Hc) as [Hr Er]. by rewrite land_u64, crc_reflect_refl, Er by done. Qed.

(** ** The module *)

(** The states of crc64.c: after [crc64_init], calls in any number. *)
Inductive crc64_reach (dual tri : Z) : crc64_state -> Prop :=
  | reach_init st : crc64_init dual tri = Some st -> crc64_reach dual tri st
  | reach_call st addr crc s v st' : crc64_reach dual tri st -> 0 <= crc < 2 ^ 64 -> Forall is_byte s -> zlen s < 2 ^ 64 ->
      crc64 st addr crc s = Some (v, st') -> crc64_reach dual tri st'.

Lemma crc64_call st addr crc s : crc64_table st = spec_table -> cache_ok (crc64_cache st) -> 0 <= crc < 2 ^ 64 -> Forall is_byte s -> zlen s < 2 ^ 64 ->
  exists st', crc64 st addr crc s = Some (crc_of crc s, st') /\ crc64_table st' = spec_table /\ cache_ok (crc64_cache st').
Proof.
  intros Ht Hk Hc Hs Hl. unfold crc64. rewrite Ht. destruct (crcspeed64little_ok (crc64_dual_cutoff st) (crc64_tri_cutoff st) (crc64_cache st) addr crc s Hk Hc Hs Hl) as (k' & Hk' & ->).
  cbn [mbind option_bind]. eexists. by split_and!.
Qed.

Lemma crc64_init_eq dual tri : crc64_init dual tri = Some {| crc64_table := spec_table; crc64_cache := empty_cache; crc64_dual_cutoff := dual; crc64_tri_cutoff := tri |}.
Proof. unfold crc64_init. rewrite init_table. done. Qed.

Lemma crc64_reach_ok dual tri st : crc64_reach dual tri st -> crc64_table st = spec_table /\ cache_ok (crc64_cache st).
Proof.
  induction 1 as [st Hi|st addr crc s v st' _ [Ht Hk] Hc Hs Hl E].
  - rewrite crc64_init_eq in Hi. injection Hi as <-. split; [done|by left].
  - destruct (crc64_call st addr crc s Ht Hk Hc Hs Hl) as (st2 & E2 & H2). rewrite E in E2. by injection E2 as _ <-.
Qed.

(** C25: In every state of the module the table-driven CRC-64, with any cutoffs for
    working on parts of the input, any alignment of the input and whether or not
    the matrices for merging were already cached, returns, stays within its
    tables, and computes the checksum of the bit-by-bit algorithm (which takes
    its register in reflected form). *)
Theorem crc64_bit_by_bit dual tri st addr crc s : crc64_reach dual tri st -> 0 <= crc < 2 ^ 64 -> Forall is_byte s -> zlen s < 2 ^ 64 ->
  exists v st', crc64 st addr crc s = Some (v, st') /\ crc64_reach dual tri st' /\ (r ← crc_reflect crc 64; _crc64 r s) = Some v.
Proof.
  intros Hst Hc Hs Hl. destruct (crc64_reach_ok _ _ _ Hst) as [Ht Hk]. destruct (crc64_call st addr crc s Ht Hk Hc Hs Hl) as (st' & E & _). exists (crc_of crc s), st'. split_and!; [done|by eapply reach_call|].
  rewrite crc_reflect_refl. cbn [mbind option_bind]. rewrite _crc64_ok by (done || by apply refl_bit). by rewrite refl_refl.
Qed.

Definition crc64_sample : crc64_state := {| crc64_table := spec_table; crc64_cache := empty_cache; crc64_dual_cutoff := 16; crc64_tri_cutoff := 48 |}.

Lemma crc64_sample_init : crc64_init 16 48 = Some crc64_sample.
Proof. apply crc64_init_eq. Qed.

Lemma crc64_bit_by_bit_witness : let s := seqZ 1 60 in
  exists v st', crc64 crc64_sample 3 0 s = Some (v, st') /\ crc64_reach 16 48 st' /\ (r ← crc_reflect 0 64; _crc64 r s) = Some v.
Proof.
  apply (crc64_bit_by_bit 16 48 crc64_sample 3 0 (seqZ 1 60)); [by apply reach_init, crc64_sample_init|lia| |by vm_compute].
  apply list.Forall_forall. intros x Hx%elem_of_seqZ. unfold is_byte. lia.
Defined.

(** The check value of the comment in crc64.c's test: the digits 1 to 9. *)
Example crc64_digits : option_map fst (crc64 crc64_sample 1 0 [49; 50; 51; 52; 53; 54; 55; 56; 57]) = Some 0xe9c6d914c4b8d9ca.
Proof. vm_compute. reflexivity. Qed.

(** ** Error detection *)

Lemma bstep_inj0 c : 0 <= c < 2 ^ 64 -> bstep c = 0 -> c = 0.
Proof.
  intros Hc E. assert (H63 : Z.testbit (bstep c) 63 = false) by by rewrite E, Z.bits_0. unfold bstep in *. rewrite Z.lxor_spec, Z.shiftr_spec in H63 by lia.
  rewrite (proj2 (proj1 (bits_below c 64 ltac:(lia)) Hc)) in H63 by lia. destruct (Z.testbit c 0) eqn:E0; [vm_compute in H63; done|]. rewrite Z.lxor_0_r, Z.shiftr_div_pow2 in E by lia.
  rewrite Z.bit0_odd in E0. apply (f_equal negb) in E0. rewrite Z.negb_odd in E0. apply Z.even_spec in E0 as [m ->]. change (2 ^ 1) with 2 in E. lia.
Qed.

Lemma steps_inj n a b : 0 <= a < 2 ^ 64 -> 0 <= b < 2 ^ 64 -> steps n a = steps n b -> a = b.
Proof.
  intros Ha Hb E. apply Z.lxor_eq. assert (E' : steps n (Z.lxor a b) = 0) by (by rewrite steps_lxor, E, Z.lxor_nilpotent). assert (Hx : 0 <= Z.lxor a b < 2 ^ 64) by (apply lxor_below; done || lia).
  revert E' Hx. generalize (Z.lxor a b). clear. unfold steps. induction (Z.to_nat n) as [|k IH]; intros x E Hx; [done|]. rewrite Nat.iter_succ_r in E. apply IH in E; [by apply bstep_inj0|by apply bstep_range].
Qed.

Lemma crc_of_inj q : forall a b, Forall is_byte q -> 0 <= a < 2 ^ 64 -> 0 <= b < 2 ^ 64 -> crc_of a q = crc_of b q -> a = b.
Proof.
  induction q as [|x q IH]; intros a b Hq Ha Hb E; [done|]. apply list.Forall_cons in Hq as [[Hx Hx'] Hq]. cbn in E. apply IH in E; [|done|apply steps_range, lxor_below; lia|apply steps_range, lxor_below; lia].
  apply steps_inj in E; [|apply lxor_below; lia|apply lxor_below; lia]. apply (f_equal (fun z => Z.lxor z x)) in E. by rewrite !Z.lxor_assoc, Z.lxor_nilpotent, !Z.lxor_0_r in E.
Qed.

Lemma le_val_inj8 x y : Forall is_byte x -> Forall is_byte y -> length x = length y -> le_val x = le_val y -> x = y.
Proof. intros Hx Hy Hl E. rewrite <- (le_bytes_val x Hx), <- (le_bytes_val y Hy), E. by rewrite Hl. Qed.

(** A change within 8 consecutive bytes changes the checksum. *)
Lemma crc_of_burst c p x y q : 0 <= c < 2 ^ 64 -> Forall is_byte (p ++ x ++ q) -> Forall is_byte y -> length x = length y -> (length x <= 8)%nat -> crc_of c (p ++ x ++ q) = crc_of c (p ++ y ++ q) -> x = y.
Proof.
  intros Hc Hs Hy Hl Hl8 E. apply list.Forall_app in Hs as [Hp Hs]. apply list.Forall_app in Hs as [Hx Hq]. rewrite !crc_of_app in E. assert (Hcp : 0 <= crc_of c p < 2 ^ 64) by by apply crc_of_range.
  apply crc_of_inj in E; [|done|by apply crc_of_range..]. set (cp := crc_of c p) in *. clearbody cp. rewrite <- !crc_of_word in E by done. unfold zlen in E. rewrite <- Hl in E.
  assert (Hb : forall z, Forall is_byte z -> length z = length x -> 0 <= le_val z < 2 ^ 64).
  { intros z Hz Ez. pose proof (le_val_bound z Hz) as Hv. split; [lia|]. eapply Z.lt_le_trans; [apply Hv|]. apply Z.pow_le_mono_r; lia. }
  apply steps_inj in E; [|apply lxor_below; [lia|done|apply Hb; done || lia]..]. apply (f_equal (Z.lxor cp)) in E. rewrite <- !Z.lxor_assoc, Z.lxor_nilpotent, !Z.lxor_0_l in E. by apply le_val_inj8.
Qed.
