(* ===== verification/Slots.v ===== *)
(** * Hash slots (src/crc16.c, [keyHashSlot] of src/cluster.h)

    The table-driven CRC-16 computes the checksum of the polynomial 0x1021 bit
    by bit, and the slot of a key is that of its hash tag when it has one. *)

From stdpp Require Import base list numbers option tactics.
From Stdlib Require Import Btauto.
From S2P Require Import Prelude Util Glob BitopsSpec.

#[local] Ltac Zify.zify_post_hook ::= Z.to_euclidean_division_equations.

Definition crc16tab : list Z :=
  [0x0000; 0x1021; 0x2042; 0x3063; 0x4084; 0x50a5; 0x60c6; 0x70e7;
   0x8108; 0x9129; 0xa14a; 0xb16b; 0xc18c; 0xd1ad; 0xe1ce; 0xf1ef;
   0x1231; 0x0210; 0x3273; 0x2252; 0x52b5; 0x4294; 0x72f7; 0x62d6;
   0x9339; 0x8318; 0xb37b; 0xa35a; 0xd3bd; 0xc39c; 0xf3ff; 0xe3de;
   0x2462; 0x3443; 0x0420; 0x1401; 0x64e6; 0x74c7; 0x44a4; 0x5485;
   0xa56a; 0xb54b; 0x8528; 0x9509; 0xe5ee; 0xf5cf; 0xc5ac; 0xd58d;
   0x3653; 0x2672; 0x1611; 0x0630; 0x76d7; 0x66f6; 0x5695; 0x46b4;
   0xb75b; 0xa77a; 0x9719; 0x8738; 0xf7df; 0xe7fe; 0xd79d; 0xc7bc;
   0x48c4; 0x58e5; 0x6886; 0x78a7; 0x0840; 0x1861; 0x2802; 0x3823;
   0xc9cc; 0xd9ed; 0xe98e; 0xf9af; 0x8948; 0x9969; 0xa90a; 0xb92b;
   0x5af5; 0x4ad4; 0x7ab7; 0x6a96; 0x1a71; 0x0a50; 0x3a33; 0x2a12;
   0xdbfd; 0xcbdc; 0xfbbf; 0xeb9e; 0x9b79; 0x8b58; 0xbb3b; 0xab1a;
   0x6ca6; 0x7c87; 0x4ce4; 0x5cc5; 0x2c22; 0x3c03; 0x0c60; 0x1c41;
   0xedae; 0xfd8f; 0xcdec; 0xddcd; 0xad2a; 0xbd0b; 0x8d68; 0x9d49;
   0x7e97; 0x6eb6; 0x5ed5; 0x4ef4; 0x3e13; 0x2e32; 0x1e51; 0x0e70;
   0xff9f; 0xefbe; 0xdfdd; 0xcffc; 0xbf1b; 0xaf3a; 0x9f59; 0x8f78;
   0x9188; 0x81a9; 0xb1ca; 0xa1eb; 0xd10c; 0xc12d; 0xf14e; 0xe16f;
   0x1080; 0x00a1; 0x30c2; 0x20e3; 0x5004; 0x4025; 0x7046; 0x6067;
   0x83b9; 0x9398; 0xa3fb; 0xb3da; 0xc33d; 0xd31c; 0xe37f; 0xf35e;
   0x02b1; 0x1290; 0x22f3; 0x32d2; 0x4235; 0x5214; 0x6277; 0x7256;
   0xb5ea; 0xa5cb; 0x95a8; 0x8589; 0xf56e; 0xe54f; 0xd52c; 0xc50d;
   0x34e2; 0x24c3; 0x14a0; 0x0481; 0x7466; 0x6447; 0x5424; 0x4405;
   0xa7db; 0xb7fa; 0x8799; 0x97b8; 0xe75f; 0xf77e; 0xc71d; 0xd73c;
   0x26d3; 0x36f2; 0x0691; 0x16b0; 0x6657; 0x7676; 0x4615; 0x5634;
   0xd94c; 0xc96d; 0xf90e; 0xe92f; 0x99c8; 0x89e9; 0xb98a; 0xa9ab;
   0x5844; 0x4865; 0x7806; 0x6827; 0x18c0; 0x08e1; 0x3882; 0x28a3;
   0xcb7d; 0xdb5c; 0xeb3f; 0xfb1e; 0x8bf9; 0x9bd8; 0xabbb; 0xbb9a;
   0x4a75; 0x5a54; 0x6a37; 0x7a16; 0x0af1; 0x1ad0; 0x2ab3; 0x3a92;
   0xfd2e; 0xed0f; 0xdd6c; 0xcd4d; 0xbdaa; 0xad8b; 0x9de8; 0x8dc9;
   0x7c26; 0x6c07; 0x5c64; 0x4c45; 0x3ca2; 0x2c83; 0x1ce0; 0x0cc1;
   0xef1f; 0xff3e; 0xcf5d; 0xdf7c; 0xaf9b; 0xbfba; 0x8fd9; 0x9ff8;
   0x6e17; 0x7e36; 0x4e55; 0x5e74; 0x2e93; 0x3eb2; 0x0ed1; 0x1ef0].

Fixpoint crc16_loop (buf : list Z) (crc : Z) : option Z :=
  match buf with
  | [] => Some crc
  | b :: buf =>
      x ← rd crc16tab (Z.land (Z.lxor (Z.shiftr crc 8) b) 0x00FF);
      crc16_loop buf (u16 (Z.lxor (Z.shiftl crc 8) x))
  end.

Definition crc16 (buf : list Z) : option Z := crc16_loop buf 0.

(** The loops that look for a brace: the index where the loop ends. *)
Fixpoint find_char (ch : Z) (key : list Z) (i : Z) : Z :=
  match key with
  | [] => i
  | c :: key => if c =? ch then i else find_char ch key (i + 1)
  end.

Definition keyHashSlot (key : list Z) : option Z :=
  let keylen := zlen key in
  let s := find_char 123 key 0 in
  if s =? keylen then h ← crc16 key; Some (Z.land h 0x3FFF)
  else
    let e := find_char 125 (drop (Z.to_nat (s + 1)) key) (s + 1) in
    if (e =? keylen) || (e =? s + 1) then h ← crc16 key; Some (Z.land h 0x3FFF)
    else
      tag ← rd_bytes key (s + 1) (e - s - 1);
      h ← crc16 tag; Some (Z.land h 0x3FFF).

(** [patternHashSlot]: the loop over the pattern, with the index of the first
    opening brace, -1 before there is one, -2 after an empty tag. *)
Fixpoint pattern_loop (pattern rest : list Z) (i s : Z) : option Z :=
  match rest with
  | [] => h ← crc16 pattern; Some (Z.land h 0x3FFF)
  | c :: rest =>
      if (c =? ch_star) || (c =? ch_quest) || (c =? ch_lbracket) then Some (-1)
      else if c =? ch_bslash then Some (-1)
      else if (s =? -1) && (c =? 123) then pattern_loop pattern rest (i + 1) i
      else if (s >=? 0) && (c =? 125) && (i =? s + 1) then pattern_loop pattern rest (i + 1) (-2)
      else if (s >=? 0) && (c =? 125) then
        tag ← rd_bytes pattern (s + 1) (i - s - 1);
        h ← crc16 tag; Some (Z.land h 0x3FFF)
      else pattern_loop pattern rest (i + 1) s
  end.

Definition patternHashSlot (pattern : list Z) : option Z := pattern_loop pattern pattern 0 (-1).

(** ** The checksum, bit by bit *)

(** One bit of the register shifted out at the top. *)
Definition bit16 (c : Z) : Z := Z.lxor (u16 (Z.shiftl c 1)) (if Z.testbit c 15 then 0x1021 else 0).

Definition byte16 (c b : Z) : Z := Nat.iter 8 bit16 (Z.lxor c (Z.shiftl b 8)).

Definition crc16_bits (s : list Z) : Z := foldl byte16 0 s.

Lemma below16 x : 0 <= x < 2 ^ 16 -> forall j, 16 <= j -> Z.testbit x j = false.
Proof. intros Hx j Hj. rewrite <- (Z.mod_small x (2 ^ 16)) by lia. by apply Z.mod_pow2_bits_high. Qed.

Lemma bit16_lxor a b : bit16 (Z.lxor a b) = Z.lxor (bit16 a) (bit16 b).
Proof.
  unfold bit16, wrapu. rewrite Z.shiftl_lxor, Z.lxor_spec. apply Z.bits_inj'. intros j Hj.
  assert (E : Z.testbit (Z.lxor (Z.shiftl a 1) (Z.shiftl b 1) mod 2 ^ 16) j = xorb (Z.testbit (Z.shiftl a 1 mod 2 ^ 16) j) (Z.testbit (Z.shiftl b 1 mod 2 ^ 16) j)).
  { destruct (decide (j < 16)); [rewrite !Z.mod_pow2_bits_low by lia; apply Z.lxor_spec|by rewrite !Z.mod_pow2_bits_high by lia]. }
  rewrite !Z.lxor_spec, E. destruct (Z.testbit a 15), (Z.testbit b 15); cbn [xorb]; rewrite ?Z.bits_0; btauto.
Qed.

Lemma iter16_lxor n a b : Nat.iter n bit16 (Z.lxor a b) = Z.lxor (Nat.iter n bit16 a) (Nat.iter n bit16 b).
Proof. induction n as [|n IH]; [done|]. by rewrite !Nat.iter_succ, IH, bit16_lxor. Qed.

(** The low byte only moves up. *)
Lemma iter16_low b : is_byte b -> Nat.iter 8 bit16 b = Z.shiftl b 8.
Proof. intros Hb. apply Z.eqb_eq. revert b Hb. apply byte_check. by vm_compute. Qed.

Lemma iter16_high b : is_byte b -> rd crc16tab b = Some (Nat.iter 8 bit16 (Z.shiftl b 8)).
Proof.
  intros Hb. assert (H : bool_decide (rd crc16tab b = Some (Nat.iter 8 bit16 (Z.shiftl b 8))) = true); [|by apply bool_decide_eq_true in H].
  revert b Hb. apply byte_check. by vm_compute.
Qed.

Lemma iter16_range n c : 0 <= c < 2 ^ 16 -> 0 <= Nat.iter n bit16 c < 2 ^ 16.
Proof.
  intros Hc. induction n as [|n IH]; [done|]. rewrite Nat.iter_succ. unfold bit16. apply lxor_below; [lia|apply wrapu_range; lia|]. destruct (Z.testbit _ 15); lia.
Qed.

Lemma high_low c : 0 <= c < 2 ^ 16 -> c = Z.lxor (Z.shiftl (c / 256) 8) (c mod 256).
Proof.
  intros Hc. apply Z.bits_inj'. intros j Hj. rewrite Z.lxor_spec, Z.shiftl_spec by done. change 256 with (2 ^ 8). destruct (decide (j < 8)).
  - rewrite Z.mod_pow2_bits_low, (Z.testbit_neg_r _ (j - 8)) by lia. done.
  - rewrite Z.mod_pow2_bits_high, <- Z.shiftr_div_pow2, Z.shiftr_spec by lia. rewrite xorb_false_r. f_equal. lia.
Qed.

Lemma crc16_step c b : 0 <= c < 2 ^ 16 -> is_byte b -> exists x, rd crc16tab (Z.land (Z.lxor (Z.shiftr c 8) b) 0x00FF) = Some x /\ u16 (Z.lxor (Z.shiftl c 8) x) = byte16 c b.
Proof.
  intros Hc Hb. set (h := Z.lxor (Z.shiftr c 8) b). assert (Hh : is_byte h).
  { unfold h. rewrite Z.shiftr_div_pow2 by lia. change (2 ^ 8) with 256. assert (Hd : is_byte (c / 256)) by (unfold is_byte; lia). by apply (lxor_below _ _ 8). }
  change 0x00FF with 255. rewrite land_255, Z.mod_small by (unfold is_byte in Hh; lia). rewrite iter16_high by done. eexists. split; [done|].
  assert (E : Z.lxor c (Z.shiftl b 8) = Z.lxor (Z.shiftl h 8) (c mod 256)).
  { rewrite (high_low c Hc) at 1. unfold h. rewrite Z.shiftl_lxor, Z.shiftr_div_pow2 by lia. change (2 ^ 8) with 256. rewrite !Z.lxor_assoc. f_equal. apply Z.lxor_comm. }
  unfold byte16. rewrite E, iter16_lxor, (iter16_low (c mod 256)) by (unfold is_byte; lia). assert (Hr : 0 <= Nat.iter 8 bit16 (Z.shiftl h 8) < 2 ^ 16) by (apply iter16_range; rewrite Z.shiftl_mul_pow2 by lia; unfold is_byte in Hh; lia). set (x := Nat.iter 8 bit16 (Z.shiftl h 8)) in *. clearbody x. rewrite Z.lxor_comm. unfold wrapu. apply Z.bits_inj'. intros j Hj. destruct (decide (j < 16)).
  - rewrite Z.mod_pow2_bits_low, !Z.lxor_spec, !Z.shiftl_spec by lia. f_equal. destruct (decide (j < 8)); [by rewrite !Z.testbit_neg_r by lia|]. change 256 with (2 ^ 8). by rewrite Z.mod_pow2_bits_low by lia.
  - rewrite Z.mod_pow2_bits_high, Z.lxor_spec, (below16 x), Z.shiftl_spec by (done || lia). change 256 with (2 ^ 8). by rewrite Z.mod_pow2_bits_high by lia.
Qed.

Lemma byte16_range c b : 0 <= c < 2 ^ 16 -> is_byte b -> 0 <= byte16 c b < 2 ^ 16.
Proof. intros Hc Hb. destruct (crc16_step c b Hc Hb) as (x & _ & <-). apply wrapu_range. lia. Qed.

Lemma crc16_loop_ok s : forall c, Forall is_byte s -> 0 <= c < 2 ^ 16 -> crc16_loop s c = Some (foldl byte16 c s) /\ 0 <= foldl byte16 c s < 2 ^ 16.
Proof.
  induction s as [|b s IH]; intros c Hs Hc; [done|]. apply list.Forall_cons in Hs as [Hb Hs]. cbn [crc16_loop foldl]. destruct (crc16_step c b Hc Hb) as (x & -> & E). cbn [mbind option_bind]. rewrite E. apply IH; [done|by apply byte16_range].
Qed.

Lemma crc16_ok s : Forall is_byte s -> crc16 s = Some (crc16_bits s) /\ 0 <= crc16_bits s < 2 ^ 16.
Proof. intros Hs. apply crc16_loop_ok; [done|lia]. Qed.

(** ** Hash tags *)

(** The part of a key that is hashed. *)
Inductive hash_tag : list Z -> list Z -> Prop :=
  | tag_braces a t b : 123 ∉ a -> 125 ∉ t -> t <> [] -> hash_tag (a ++ 123 :: t ++ 125 :: b) t
  | tag_no_open key : 123 ∉ key -> hash_tag key key
  | tag_no_close a b : 123 ∉ a -> 125 ∉ b -> hash_tag (a ++ 123 :: b) (a ++ 123 :: b)
  | tag_empty a b : 123 ∉ a -> hash_tag (a ++ 123 :: 125 :: b) (a ++ 123 :: 125 :: b).

Lemma find_char_absent ch key : forall i, ch ∉ key -> find_char ch key i = i + zlen key.
Proof.
  induction key as [|c key IH]; intros i Hn; [cbn; change (zlen []) with 0; lia|]. apply not_elem_of_cons in Hn as [Hc Hn]. cbn. destruct (Z.eqb_spec c ch); [done|]. rewrite IH by done. rewrite zlen_cons. lia.
Qed.

Lemma find_char_found ch a b : forall i, ch ∉ a -> find_char ch (a ++ ch :: b) i = i + zlen a.
Proof.
  induction a as [|c a IH]; intros i Hn; [cbn; rewrite Z.eqb_refl; change (zlen []) with 0; lia|]. apply not_elem_of_cons in Hn as [Hc Hn]. cbn. destruct (Z.eqb_spec c ch); [done|]. rewrite IH by done. rewrite zlen_cons. lia.
Qed.

Lemma drop_brace (a b : list Z) : drop (Z.to_nat (zlen a + 1)) (a ++ 123 :: b) = b.
Proof. unfold zlen. replace (Z.to_nat (Z.of_nat (length a) + 1)) with (length a + 1)%nat by lia. rewrite <- drop_drop, drop_app_length. done. Qed.

Lemma slot_mod s : Forall is_byte s -> (h ← crc16 s; Some (Z.land h 0x3FFF)) = Some (crc16_bits s mod 16384).
Proof. intros Hs. rewrite (proj1 (crc16_ok s Hs)). cbn [mbind option_bind]. change 0x3FFF with (2 ^ 14 - 1). by rewrite land_ones by lia. Qed.

Lemma slot_whole key : Forall is_byte key -> 123 ∉ key -> keyHashSlot key = Some (crc16_bits key mod 16384).
Proof. intros Hk Hn. unfold keyHashSlot. rewrite find_char_absent by done. rewrite Z.add_0_l, Z.eqb_refl. by apply slot_mod. Qed.

Lemma slot_no_close a b : Forall is_byte (a ++ 123 :: b) -> 123 ∉ a -> 125 ∉ b -> keyHashSlot (a ++ 123 :: b) = Some (crc16_bits (a ++ 123 :: b) mod 16384).
Proof.
  intros Hk Ha Hb. unfold keyHashSlot. rewrite find_char_found, Z.add_0_l, drop_brace by done. rewrite zlen_app, zlen_cons. pose proof (zlen_nonneg b). destruct (Z.eqb_spec (zlen a) (zlen a + (1 + zlen b))); [lia|].
  rewrite find_char_absent by done. rewrite (proj2 (Z.eqb_eq _ _)) by lia. cbn [orb]. by apply slot_mod.
Qed.

Lemma slot_close a t b : Forall is_byte (a ++ 123 :: t ++ 125 :: b) -> 123 ∉ a -> 125 ∉ t ->
  keyHashSlot (a ++ 123 :: t ++ 125 :: b) = Some (crc16_bits (if is_nil t then a ++ 123 :: t ++ 125 :: b else t) mod 16384).
Proof.
  intros Hk Ha Ht. unfold keyHashSlot. rewrite find_char_found, Z.add_0_l, drop_brace by done. rewrite find_char_found by done. rewrite !zlen_app, !zlen_cons, zlen_app, zlen_cons. pose proof (zlen_nonneg t). pose proof (zlen_nonneg b).
  destruct (Z.eqb_spec (zlen a) (zlen a + (1 + (zlen t + (1 + zlen b))))); [lia|]. destruct (Z.eqb_spec (zlen a + 1 + zlen t) (zlen a + (1 + (zlen t + (1 + zlen b))))); [lia|]. cbn [orb].
  destruct (Z.eqb_spec (zlen a + 1 + zlen t) (zlen a + 1)) as [E|E].
  - assert (t = []) as -> by (apply zlen_0_nil; lia). by apply slot_mod.
  - replace (is_nil t) with false by (destruct t; [change (zlen []) with 0 in E; lia|done]).
    replace (a ++ 123 :: t ++ 125 :: b) with ((a ++ [123]) ++ t ++ 125 :: b) by (by rewrite <- app_assoc). rewrite rd_bytes_at; [|rewrite zlen_app; change (zlen [123]) with 1; lia|lia]. cbn [mbind option_bind].
    apply slot_mod. apply list.Forall_app in Hk as [_ Hk]. apply list.Forall_cons in Hk as [_ Hk]. by apply list.Forall_app in Hk as [Hk _].
Qed.

(** The slot of a key is the CRC-16 of the part between the first opening brace
    and the first closing brace after it, when there are both and something
    between them, and of the whole key otherwise, reduced to one of the 16384
    slots; the table-driven checksum is the bit-by-bit one.  Every key has such
    a part. *)
Theorem keyHashSlot_tag key : Forall is_byte key -> exists tag, hash_tag key tag /\ keyHashSlot key = Some (crc16_bits tag mod 16384).
Proof.
  intros Hk. destruct (decide (123 ∈ key)) as [Hin|Hn]; [|exists key; split; [by constructor|by apply slot_whole]]. apply list_elem_of_split_l in Hin as (a & b & -> & Ha).
  destruct (decide (125 ∈ b)) as [Hin|Hn]; [|eexists; split; [by apply tag_no_close|by apply slot_no_close]]. apply list_elem_of_split_l in Hin as (t & b' & -> & Ht).
  rewrite slot_close by done. destruct t as [|x t]; (eexists; split; [|done]); [by apply tag_empty|by apply tag_braces].
Qed.

Lemma keyHashSlot_tag_witness : exists tag, hash_tag [97; 123; 98; 125; 99] tag /\ keyHashSlot [97; 123; 98; 125; 99] = Some (crc16_bits tag mod 16384).
Proof. apply (keyHashSlot_tag [97; 123; 98; 125; 99]). repeat constructor; by vm_compute. Defined.

(** The check value of the comment in crc16.c. *)
Example crc16_digits : crc16 [49; 50; 51; 52; 53; 54; 55; 56; 57] = Some 0x31C3.
Proof. reflexivity. Qed.

(** ** Patterns *)

(** A byte that stands for itself in a pattern. *)
Definition plain (c : Z) : Prop := c <> ch_star /\ c <> ch_quest /\ c <> ch_lbracket /\ c <> ch_bslash.

Lemma plain_prefix l : forall fuel p s skip nesting, Forall plain l -> (stringmatchlen_impl fuel false (l ++ p) s skip nesting).1 = true ->
  exists s', s = l ++ s' /\ (p = [] -> s' = []).
Proof.
  induction l as [|a l IH]; intros fuel p s skip nesting Hl H.
  - exists s. split; [done|]. intros ->. destruct fuel, s; cbn in H; try done; destruct (nesting >? 1000); done.
  - apply list.Forall_cons in Hl as [(H1 & H2 & H3 & H4) Hl]. destruct s as [|c s1]; [destruct fuel; cbn in H; destruct (nesting >? 1000); done|].
    destruct fuel as [|fuel]; [cbn in H; destruct (nesting >? 1000); done|]. cbn [stringmatchlen_impl app] in H. destruct (nesting >? 1000); [done|]. rewrite (proj2 (Z.eqb_neq a ch_star)) in H by done.
    unfold element in H. rewrite (proj2 (Z.eqb_neq a ch_quest)), (proj2 (Z.eqb_neq a ch_lbracket)), (proj2 (Z.eqb_neq a ch_bslash)) in H by done. unfold same_char in H. cbn [negb] in H.
    destruct (Z.eqb_spec a c) as [->|]; [|done]. cbn [negb] in H. destruct s1 as [|c1 s1]; cbn [is_nil] in H.
    + exists []. split; [|done]. destruct l as [|b l]; [done|]. apply list.Forall_cons in Hl as [(Hb & _) _]. cbn in H. by rewrite (proj2 (Z.eqb_neq b ch_star)) in H.
    + destruct (IH _ _ _ _ _ Hl H) as (s' & -> & Hs). by exists s'.
Qed.

(** What the loop knows of the bytes before the index. *)
Definition seen (l : list Z) (s : Z) : Prop :=
  Forall plain l /\ ((s = -1 /\ 123 ∉ l) \/ (exists a t, l = a ++ 123 :: t /\ s = zlen a /\ 123 ∉ a /\ 125 ∉ t) \/ (s = -2 /\ exists a b, l = a ++ 123 :: 125 :: b /\ 123 ∉ a)).

Lemma seen_snoc l c s : seen l s -> plain c -> ~ (s = -1 /\ c = 123) -> ~ (0 <= s /\ c = 125) -> seen (l ++ [c]) s.
Proof.
  intros [Hl Hs] Hc H1 H2. split; [apply list.Forall_app; by split; [|constructor]|]. destruct Hs as [[-> Hn]|[(a & t & -> & -> & Ha & Ht)|(-> & a & b & -> & Ha)]].
  - left. split; [done|]. rewrite elem_of_app, list_elem_of_singleton. intros [?|<-]; [done|]. by apply H1.
  - right. left. exists a, (t ++ [c]). rewrite <- app_assoc. split_and!; [done|done|done|]. rewrite elem_of_app, list_elem_of_singleton. intros [?|<-]; [done|]. apply H2. split; [apply zlen_nonneg|done].
  - right. right. split; [done|]. exists a, (b ++ [c]). by rewrite <- app_assoc.
Qed.

Lemma pattern_loop_ok pattern key : stringmatchlen pattern key false = true -> Forall is_byte pattern -> Forall is_byte key ->
  forall rest l s, pattern = l ++ rest -> seen l s -> exists slot, pattern_loop pattern rest (zlen l) s = Some slot /\ (slot = -1 \/ keyHashSlot key = Some slot).
Proof.
  intros Hm Hp Hk. induction rest as [|c rest IH]; intros l s E Hs; cbn [pattern_loop].
  - rewrite app_nil_r in E. subst l. eexists. split; [by apply slot_mod|]. right. destruct Hs as [Hpl Hs]. destruct (plain_prefix pattern (length pattern) [] key false 0 Hpl) as (s' & -> & Hs'); [by rewrite app_nil_r|].
    rewrite (Hs' eq_refl), app_nil_r. clear Hm Hk Hs' s'. destruct Hs as [[-> Hn]|[(a & t & -> & -> & Ha & Ht)|(-> & a & b & -> & Ha)]]; [by apply slot_whole|by apply slot_no_close|apply (slot_close a [] b); [done|done|apply not_elem_of_nil]].
  - assert (Hlen : zlen (l ++ [c]) = zlen l + 1) by (rewrite zlen_app; done). assert (Epat : pattern = (l ++ [c]) ++ rest) by (by rewrite <- app_assoc).
    destruct (Z.eqb_spec c ch_star); [exists (-1); by split; [|left]|]. destruct (Z.eqb_spec c ch_quest); [exists (-1); by split; [|left]|]. destruct (Z.eqb_spec c ch_lbracket); [exists (-1); by split; [|left]|]. cbn [orb].
    destruct (Z.eqb_spec c ch_bslash); [exists (-1); by split; [|left]|]. assert (Hc : plain c) by by split_and!. rewrite <- Hlen.
    destruct (Z.eqb_spec s (-1)) as [->|Hs1]; [destruct (Z.eqb_spec c 123) as [->|Hc1]|]; cbn [andb].
    + apply IH; [done|]. destruct Hs as [Hpl [[_ Hn]|[(a & t & _ & ? & _)|(? & _)]]]; [|pose proof (zlen_nonneg a); lia|done]. split; [apply list.Forall_app; by split; [|constructor]|]. right. left. exists l, []. by split_and!; [| | |apply not_elem_of_nil].
    + destruct (Z.geb_spec (-1) 0); [lia|]. cbn [andb]. apply IH; [done|]. apply seen_snoc; [done|done|naive_solver|lia].
    + destruct (Z.geb_spec s 0) as [Hge|Hge]; cbn [andb]; [|apply IH; [done|apply seen_snoc; [done|done|naive_solver|lia]]].
      destruct (Z.eqb_spec c 125) as [->|Hc2]; cbn [andb]; [|apply IH; [done|apply seen_snoc; [done|done|naive_solver|naive_solver]]].
      destruct Hs as [Hpl [[? _]|[(a & t & -> & -> & Ha & Ht)|(? & _)]]]; [done| |lia]. rewrite zlen_app, zlen_cons. pose proof (zlen_nonneg t). destruct (Z.eqb_spec (zlen a + (1 + zlen t)) (zlen a + 1)) as [E0|E0].
      * apply IH; [done|]. assert (t = []) as -> by (apply zlen_0_nil; lia). split; [apply list.Forall_app; by split; [|constructor]|]. right. right. split; [done|]. exists a, []. by rewrite <- app_assoc.
      * subst pattern. replace (zlen a + (1 + zlen t) - zlen a - 1) with (zlen t) by lia.
        replace ((a ++ 123 :: t) ++ 125 :: rest) with ((a ++ [123]) ++ t ++ 125 :: rest) in * by (by rewrite <- !app_assoc). rewrite rd_bytes_at; [|rewrite zlen_app; change (zlen [123]) with 1; lia|done]. cbn [mbind option_bind].
        assert (Htb : Forall is_byte t) by (rewrite !list.Forall_app in Hp; apply Hp). eexists. split; [by apply slot_mod|]. right.
        assert (Hpl' : Forall plain (a ++ 123 :: t ++ [125])) by (replace (a ++ 123 :: t ++ [125]) with ((a ++ 123 :: t) ++ [125]) by (by rewrite <- app_assoc); apply list.Forall_app; by split; [|constructor]).
        destruct (plain_prefix (a ++ 123 :: t ++ [125]) (length ((a ++ [123]) ++ t ++ 125 :: rest)) rest key false 0 Hpl') as (s' & -> & _).
        { replace ((a ++ 123 :: t ++ [125]) ++ rest) with ((a ++ [123]) ++ t ++ 125 :: rest) by (rewrite <- !app_assoc; cbn; by rewrite <- app_assoc). done. }
        replace ((a ++ 123 :: t ++ [125]) ++ s') with (a ++ 123 :: t ++ 125 :: s') in * by (rewrite <- app_assoc; cbn; by rewrite <- app_assoc). rewrite slot_close by done. destruct t; [change (zlen []) with 0 in E0; lia|done].
Qed.

(** When [patternHashSlot] names a slot for a pattern, every key that matches
    the pattern hashes to that slot, so a scan for the pattern may visit this
    slot only; otherwise it answers -1. *)
Theorem patternHashSlot_sound pattern key : Forall is_byte pattern -> Forall is_byte key -> stringmatchlen pattern key false = true ->
  exists slot, patternHashSlot pattern = Some slot /\ (slot = -1 \/ keyHashSlot key = Some slot).
Proof.
  intros Hp Hk Hm. apply (pattern_loop_ok pattern key Hm Hp Hk pattern [] (-1)); [done|]. split; [constructor|]. left. by split; [|apply not_elem_of_nil].
Qed.

Lemma patternHashSlot_sound_witness : exists slot, patternHashSlot [97; 123; 98; 125; 42] = Some slot /\ (slot = -1 \/ keyHashSlot [97; 123; 98; 125; 99; 100] = Some slot).
Proof. apply (patternHashSlot_sound [97; 123; 98; 125; 42] [97; 123; 98; 125; 99; 100]); [repeat constructor; by vm_compute|repeat constructor; by vm_compute|reflexivity]. Defined.
