(* ===== verification/Rio.v ===== *)
(** * Streams (src/rio.h, src/rio.c)

    A [rio] is a stream over some backend: a buffer, a file, a connection.  The
    backend is an interface with a read and a write operation; what the code
    above relies on is the class [rio_stream]: a write that succeeds appends its
    bytes, and a read gives the next bytes or fails when there are fewer.  The
    buffer backend of rio.c is an instance. *)

From stdpp Require Import base list numbers option tactics.
From S2P Require Import Prelude.

(** ** Streams *)

(** The backend functions; [None] is the return value 0, an error. *)
Class rio_io (S : Type) := {
  io_read : S -> Z -> option (list Z * S);
  io_write : S -> list Z -> option S }.

Record rio (S : Type) := {
  r_io : S;
  r_update_cksum : option (Z -> list Z -> Z);
  r_cksum : Z;
  r_read_error : bool;
  r_write_error : bool;
  r_processed_bytes : Z;
  r_max_processing_chunk : Z }.
Arguments r_io {S}.
Arguments r_update_cksum {S}.
Arguments r_cksum {S}.
Arguments r_read_error {S}.
Arguments r_write_error {S}.
Arguments r_processed_bytes {S}.
Arguments r_max_processing_chunk {S}.

Section Rio.
Context {S : Type} `{!rio_io S}.

Definition update_cksum (r : rio S) (buf : list Z) : rio S :=
  match r_update_cksum r with
  | None => r
  | Some f => {| r_io := r_io r; r_update_cksum := r_update_cksum r; r_cksum := f (r_cksum r) buf; r_read_error := r_read_error r; r_write_error := r_write_error r;
                 r_processed_bytes := r_processed_bytes r; r_max_processing_chunk := r_max_processing_chunk r |}
  end.

(** The backend state after [n] more bytes. *)
Definition advance (r : rio S) (io : S) (n : Z) : rio S :=
  {| r_io := io; r_update_cksum := r_update_cksum r; r_cksum := r_cksum r; r_read_error := r_read_error r; r_write_error := r_write_error r;
     r_processed_bytes := r_processed_bytes r + n; r_max_processing_chunk := r_max_processing_chunk r |}.

Definition set_read_error (r : rio S) : rio S :=
  {| r_io := r_io r; r_update_cksum := r_update_cksum r; r_cksum := r_cksum r; r_read_error := true; r_write_error := r_write_error r;
     r_processed_bytes := r_processed_bytes r; r_max_processing_chunk := r_max_processing_chunk r |}.

Definition set_write_error (r : rio S) : rio S :=
  {| r_io := r_io r; r_update_cksum := r_update_cksum r; r_cksum := r_cksum r; r_read_error := r_read_error r; r_write_error := true;
     r_processed_bytes := r_processed_bytes r; r_max_processing_chunk := r_max_processing_chunk r |}.

Definition chunk (r : rio S) (len : Z) : Z :=
  if negb (r_max_processing_chunk r =? 0) && (r_max_processing_chunk r <? len) then r_max_processing_chunk r else len.

(** The [while (len)] loops; every round handles at least one byte. *)
Fixpoint write_loop (fuel : nat) (r : rio S) (buf : list Z) : option (bool * rio S) :=
  if zlen buf =? 0 then Some (true, r)
  else match fuel with
       | O => None
       | Datatypes.S fuel =>
           let n := chunk r (zlen buf) in
           let now := take (Z.to_nat n) buf in
           let r := update_cksum r now in
           match io_write (r_io r) now with
           | None => Some (false, set_write_error r)
           | Some io => write_loop fuel (advance r io n) (drop (Z.to_nat n) buf)
           end
       end.

Definition rioWrite (r : rio S) (buf : list Z) : option (bool * rio S) :=
  if r_write_error r then Some (false, r) else write_loop (length buf) r buf.

Fixpoint read_loop (fuel : nat) (r : rio S) (len : Z) (buf : list Z) : option (option (list Z) * rio S) :=
  if len =? 0 then Some (Some buf, r)
  else match fuel with
       | O => None
       | Datatypes.S fuel =>
           let n := chunk r len in
           match io_read (r_io r) n with
           | None => Some (None, set_read_error r)
           | Some (now, io) => read_loop fuel (advance (update_cksum r now) io n) (len - n) (buf ++ now)
           end
       end.

(** The bytes read, [None] for the return value 0. *)
Definition rioRead (r : rio S) (len : Z) : option (option (list Z) * rio S) :=
  if r_read_error r then Some (None, r) else read_loop (Z.to_nat len) r len [].
End Rio.

(** ** The buffer backend *)

(** [b_pos] is never past the end of [b_ptr], so [sdslen(ptr) - pos] is the number of
    bytes after the position. *)
Record rio_buffer := { b_ptr : list Z; b_pos : nat }.

Definition rioBufferWrite (b : rio_buffer) (buf : list Z) : option rio_buffer :=
  Some {| b_ptr := b_ptr b ++ buf; b_pos := (b_pos b + length buf)%nat |}.

Definition rioBufferRead (b : rio_buffer) (len : Z) : option (list Z * rio_buffer) :=
  if zlen (drop (b_pos b) (b_ptr b)) <? len then None
  else Some (take (Z.to_nat len) (drop (b_pos b) (b_ptr b)), {| b_ptr := b_ptr b; b_pos := (b_pos b + Z.to_nat len)%nat |}).

#[global] Instance rio_buffer_io : rio_io rio_buffer := { io_read := rioBufferRead; io_write := rioBufferWrite }.

Definition rioInitWithBuffer (s : list Z) : rio rio_buffer :=
  {| r_io := {| b_ptr := s; b_pos := 0 |}; r_update_cksum := None; r_cksum := 0; r_read_error := false; r_write_error := false;
     r_processed_bytes := 0; r_max_processing_chunk := 0 |}.

(** ** What the code above a stream relies on *)

Class rio_stream (S : Type) `{!rio_io S} := {
  written : S -> list Z;
  unread : S -> list Z;
  write_appends : forall s b s', io_write s b = Some s' -> written s' = written s ++ b;
  read_next : forall s n, 0 <= n -> n <= zlen (unread s) -> exists s', io_read s n = Some (take (Z.to_nat n) (unread s), s') /\ unread s' = drop (Z.to_nat n) (unread s);
  read_short : forall s n, zlen (unread s) < n -> io_read s n = None }.

(** A backend whose writes do not fail. *)
Class rio_reliable (S : Type) `{!rio_io S} := write_succeeds : forall s b, is_Some (io_write s b).

#[global, refine] Instance rio_buffer_stream : rio_stream rio_buffer := { written b := b_ptr b; unread b := drop (b_pos b) (b_ptr b) }.
Proof.
  - intros s b s' [= <-]. done.
  - intros [p pos] n Hn Hlen. cbn in *. unfold rioBufferRead. cbn. destruct (Z.ltb_spec (zlen (drop pos p)) n); [lia|]. eexists. split; [done|]. cbn. by rewrite drop_drop.
  - intros [p pos] n Hlen. cbn in *. unfold rioBufferRead. cbn. destruct (Z.ltb_spec (zlen (drop pos p)) n); [done|lia].
Defined.

#[global] Instance rio_buffer_reliable : rio_reliable rio_buffer.
Proof. intros s b. by eexists. Qed.

(** ** Reading and writing *)

Section Laws.
Context {S : Type} `{!rio_io S} `{!rio_stream S}.

Lemma update_cksum_fields (r : rio S) b : r_io (update_cksum r b) = r_io r /\ r_read_error (update_cksum r b) = r_read_error r /\ r_write_error (update_cksum r b) = r_write_error r /\
  r_max_processing_chunk (update_cksum r b) = r_max_processing_chunk r /\ r_update_cksum (update_cksum r b) = r_update_cksum r.
Proof. unfold update_cksum. by destruct (r_update_cksum r) eqn:E; cbn; rewrite ?E. Qed.

Lemma chunk_bounds (r : rio S) len : 0 <= r_max_processing_chunk r -> 0 < len -> 0 < chunk r len <= len.
Proof. intros Hc Hl. unfold chunk. destruct (Z.eqb_spec (r_max_processing_chunk r) 0), (Z.ltb_spec (r_max_processing_chunk r) len); cbn; lia. Qed.

(** The checksum of a stream after more bytes went through it, in some pieces. *)
Definition summed (r r' : rio S) (bs : list Z) : Prop :=
  r_update_cksum r' = r_update_cksum r /\
  match r_update_cksum r with None => r_cksum r' = r_cksum r | Some f => exists pieces, concat pieces = bs /\ r_cksum r' = foldl f (r_cksum r) pieces end.

Lemma summed_nil r : summed r r [].
Proof. split; [done|]. destruct (r_update_cksum r); [|done]. by exists []. Qed.

Lemma summed_trans r1 r2 r3 a b : summed r1 r2 a -> summed r2 r3 b -> summed r1 r3 (a ++ b).
Proof.
  intros [E1 H1] [E2 H2]. rewrite E1 in *. split; [done|]. destruct (r_update_cksum r1); [|congruence]. destruct H1 as (p1 & <- & H1), H2 as (p2 & <- & H2). exists (p1 ++ p2). by rewrite concat_app, foldl_app, H2, H1.
Qed.

Lemma summed_step r io b n : summed r (advance (update_cksum r b) io n) b.
Proof. unfold summed, update_cksum. destruct (r_update_cksum r) eqn:E; cbn; rewrite ?E; [|done]. split; [done|]. exists [b]. cbn. by rewrite app_nil_r. Qed.

(** A stream that was set up as the code does. *)
Definition rio_fine (r : rio S) : Prop := 0 <= r_max_processing_chunk r.

(** The outcome of writing [bs]: all of it, or an error after a part of it. *)
Definition wrote (bs : list Z) (r : rio S) (ok : bool) (r' : rio S) : Prop :=
  rio_fine r' /\ r_write_error r' = negb ok /\ (exists p q, bs = p ++ q /\ written (r_io r') = written (r_io r) ++ p /\ (ok = true -> q = [] /\ summed r r' bs)).

Lemma write_loop_ok fuel : forall (r : rio S) buf, rio_fine r -> r_write_error r = false -> (length buf <= fuel)%nat -> exists ok r', write_loop fuel r buf = Some (ok, r') /\ wrote buf r ok r'.
Proof.
  induction fuel as [|fuel IH]; intros r buf Hr He Hl.
  - assert (buf = []) as -> by (destruct buf; [done|cbn in Hl; lia]). exists true, r. split; [done|]. split_and!; [done|done|]. exists [], []. split_and!; [done|by rewrite app_nil_r|split; [done|apply summed_nil]].
  - cbn [write_loop]. destruct (Z.eqb_spec (zlen buf) 0) as [E|E].
    { apply zlen_0_nil in E as ->. exists true, r. split; [done|]. split_and!; [done|done|]. exists [], []. split_and!; [done|by rewrite app_nil_r|split; [done|apply summed_nil]]. }
    pose proof (zlen_nonneg buf). pose proof (chunk_bounds r (zlen buf) Hr ltac:(lia)) as Hn. set (n := chunk r (zlen buf)) in *. clearbody n. set (now := take (Z.to_nat n) buf).
    destruct (update_cksum_fields r now) as (Ei & Ere & Ewe & Ec & _). destruct (io_write (r_io (update_cksum r now)) now) as [io|] eqn:Ew.
    + destruct (IH (advance (update_cksum r now) io n) (drop (Z.to_nat n) buf)) as (ok & r' & E1 & Hf & He' & p & q & Ebs & Ewr & Hq).
      { unfold rio_fine. cbn. by rewrite Ec. }
      { cbn. by rewrite Ewe. }
      { rewrite length_drop. unfold zlen in *. lia. }
      exists ok, r'. split; [done|]. split_and!; [done|done|]. exists (now ++ p), q. split_and!; [|rewrite Ewr; cbn; rewrite (write_appends _ _ _ Ew), Ei; by rewrite app_assoc|].
      2: { intros Hok. destruct (Hq Hok) as [-> Hs]. split; [done|]. rewrite <- (take_drop (Z.to_nat n) buf). eapply summed_trans; [apply summed_step|done]. }
      rewrite <- app_assoc, <- Ebs. unfold now. by rewrite take_drop.
    + exists false, (set_write_error (update_cksum r now)). split; [done|]. split_and!; [unfold rio_fine; cbn; by rewrite Ec|done|]. exists [], buf. split_and!; [done| |done]. cbn. by rewrite Ei, app_nil_r.
Qed.

Lemma rioWrite_ok (r : rio S) buf : rio_fine r -> exists ok r', rioWrite r buf = Some (ok, r') /\ wrote buf r ok r'.
Proof.
  intros Hr. unfold rioWrite. destruct (r_write_error r) eqn:E; [|by apply write_loop_ok]. exists false, r. split; [done|]. split_and!; [done|done|]. exists [], buf. split_and!; [done|by rewrite app_nil_r|done].
Qed.

Lemma rioWrite_reliable `{!rio_reliable S} (r : rio S) buf : rio_fine r -> r_write_error r = false -> exists r', rioWrite r buf = Some (true, r') /\ wrote buf r true r'.
Proof.
  intros Hr He. destruct (rioWrite_ok r buf Hr) as (ok & r' & E & Hw). destruct ok; [by exists r'|]. exfalso. unfold rioWrite in E. rewrite He in E. revert r buf Hr He E Hw.
  assert (G : forall fuel (r : rio S) buf r', write_loop fuel r buf = Some (false, r') -> False); [|intros r buf _ _ E _; by eapply G]. intros fuel. induction fuel as [|fuel IH]; intros r buf r2 E; cbn [write_loop] in E.
  - destruct (zlen buf =? 0); done.
  - destruct (zlen buf =? 0); [done|]. set (now := take _ buf) in *. destruct (write_succeeds (r_io (update_cksum r now)) now) as [io Eio]. rewrite Eio in E. by apply IH in E.
Qed.

(** The outcome of reading [len] bytes: the next ones, or an error when there are fewer. *)
Definition next_bytes (r : rio S) (len : Z) (bs : list Z) (r' : rio S) : Prop :=
  unread (r_io r) = bs ++ unread (r_io r') /\ zlen bs = len /\ r_read_error r' = false /\ rio_fine r' /\ summed r r' bs.

Lemma read_loop_ok fuel : forall (r : rio S) len buf, rio_fine r -> r_read_error r = false -> 0 <= len -> (Z.to_nat len <= fuel)%nat ->
  (exists bs r', read_loop fuel r len buf = Some (Some (buf ++ bs), r') /\ next_bytes r len bs r') \/
  (exists r', read_loop fuel r len buf = Some (None, r') /\ r_read_error r' = true /\ rio_fine r' /\ zlen (unread (r_io r)) < len).
Proof.
  induction fuel as [|fuel IH]; intros r len buf Hr He H0 Hl.
  - assert (len = 0) as -> by lia. left. exists [], r. rewrite app_nil_r. unfold next_bytes. by split_and!; [..|apply summed_nil].
  - cbn [read_loop]. destruct (Z.eqb_spec len 0) as [->|E]; [left; exists [], r; rewrite app_nil_r; unfold next_bytes; by split_and!; [..|apply summed_nil]|].
    pose proof (chunk_bounds r len Hr ltac:(lia)) as Hn. set (n := chunk r len) in *. clearbody n. destruct (decide (n <= zlen (unread (r_io r)))) as [Hle|Hgt].
    + destruct (read_next (r_io r) n ltac:(lia) Hle) as (io & -> & Eu). set (now := take (Z.to_nat n) (unread (r_io r))) in *. destruct (update_cksum_fields r now) as (Ei & Ere & Ewe & Ec & _).
      assert (Hnow : zlen now = n) by (unfold now, zlen in *; rewrite length_take; lia).
      assert (Hsplit : unread (r_io r) = now ++ unread io) by (rewrite Eu; unfold now; by rewrite take_drop).
      destruct (IH (advance (update_cksum r now) io n) (len - n) (buf ++ now)) as [(bs & r' & E1 & (Hu & Hz & He' & Hf' & Hsum))|(r' & E1 & He' & Hf' & Hz)].
      { unfold rio_fine. cbn. by rewrite Ec. }
      { cbn. by rewrite Ere. }
      { lia. }
      { lia. }
      * left. exists (now ++ bs), r'. rewrite app_assoc. split; [done|]. cbn in Hu. split_and!; [by rewrite Hsplit, Hu, app_assoc|rewrite zlen_app; lia|done|done|eapply summed_trans; [apply summed_step|done]].
      * right. exists r'. split_and!; [done|done|done|]. cbn in Hz. rewrite Hsplit, zlen_app. lia.
    + rewrite read_short by lia. right. eexists. split_and!; [done|done|done|lia].
Qed.

Lemma rioRead_ok (r : rio S) len : rio_fine r -> 0 <= len ->
  (exists bs r', rioRead r len = Some (Some bs, r') /\ r_read_error r = false /\ next_bytes r len bs r') \/
  (exists r', rioRead r len = Some (None, r') /\ r_read_error r' = true /\ rio_fine r' /\ (r_read_error r = true \/ zlen (unread (r_io r)) < len)).
Proof.
  intros Hr Hl. unfold rioRead. destruct (r_read_error r) eqn:E; [right; exists r; split_and!; [done|done|done|by left]|].
  destruct (read_loop_ok (Z.to_nat len) r len [] Hr E Hl ltac:(lia)) as [(bs & r' & -> & Hb)|(r' & -> & H1 & H2 & H3)]; [left; by exists bs, r'|right; exists r'; split_and!; [done|done|done|by right]].
Qed.
End Laws.
