(* ===== verification/Rdb.v ===== *)
(** * The RDB format: lengths, integers and strings (src/rdb.c)

    Functions that save take the stream, which may be NULL (then only the size is
    computed), and return the number of bytes written or an error; functions
    that load return what they read, or an error.  Strings are stored as
    integers, compressed, or verbatim. *)

From stdpp Require Import base list numbers option tactics.
From S2P Require Import Prelude Util Lzf Bitops Rio.

Definition RDB_VERSION : Z := 15.
Definition RDB_6BITLEN : Z := 0.
Definition RDB_14BITLEN : Z := 1.
Definition RDB_32BITLEN : Z := 0x80.
Definition RDB_64BITLEN : Z := 0x81.
Definition RDB_ENCVAL : Z := 3.
Definition RDB_LENERR : Z := UINT64_MAX.
Definition RDB_ENC_INT8 : Z := 0.
Definition RDB_ENC_INT16 : Z := 1.
Definition RDB_ENC_INT32 : Z := 2.
Definition RDB_ENC_LZF : Z := 3.

(** Big-endian bytes, as [htonl] and [htonu64] store them. *)
Definition be_bytes (n : nat) (z : Z) : list Z := reverse (le_bytes n z).
Definition be_val (l : list Z) : Z := le_val (reverse l).

(** Why a load fails: the stream ended or had an error, an allocation failed, the
    data is reported as corrupt, or it is of a kind that belongs to another part. *)
Inductive load_err := SHORT_READ | NO_MEMORY | CORRUPT_RDB | OTHER_TYPE.

(** [RDB_LOAD_NONE], [RDB_LOAD_ENC], [RDB_LOAD_PLAIN], [RDB_LOAD_SDS] *)
Inductive load_flag := LOAD_NONE | LOAD_ENC | LOAD_PLAIN | LOAD_SDS.

Declare Scope rdb_scope.
Delimit Scope rdb_scope with rdb.

Section Rdb.
Context {S : Type} `{!rio_io S}.

(** ** Saving *)

(** The result and the stream; [None] for the return value -1. *)
Definition saver := option (rio S) -> option (option Z * option (rio S)).

Definition rdbWriteRaw (p : list Z) : saver := fun rdb =>
  match rdb with
  | None => Some (Some (zlen p), None)
  | Some r => '(ok, r) ← rioWrite r p; Some (if ok : bool then Some (zlen p) else None, Some r)
  end.

(** One part after another, with the sum of the bytes written. *)
Definition then_save (f g : saver) : saver := fun rdb =>
  '(n, rdb) ← f rdb;
  match n with
  | None => Some (None, rdb)
  | Some n => '(m, rdb) ← g rdb; Some (m ← m; Some (n + m), rdb)
  end.

Definition rdbSaveType (type : Z) : saver := rdbWriteRaw [type].

Definition rdbSaveSignedInteger (val : Z) : saver := rdbWriteRaw (le_bytes 8 val).

Definition rdbSaveMillisecondTime (t : Z) : saver := rdbSaveSignedInteger t.

(** The 8 bytes of a double, given by its bits. *)
Definition rdbSaveBinaryDoubleValue (bits : Z) : saver := rdbWriteRaw (le_bytes 8 bits).

Definition rdbSaveLen (len : Z) : saver :=
  if len <? Z.shiftl 1 6 then rdbWriteRaw [Z.lor (Z.land len 0xFF) (Z.shiftl RDB_6BITLEN 6)]
  else if len <? Z.shiftl 1 14 then rdbWriteRaw [Z.lor (Z.land (Z.shiftr len 8) 0xFF) (Z.shiftl RDB_14BITLEN 6); Z.land len 0xFF]
  else if len <=? UINT32_MAX then then_save (rdbWriteRaw [RDB_32BITLEN]) (rdbWriteRaw (be_bytes 4 len))
  else then_save (rdbWriteRaw [RDB_64BITLEN]) (rdbWriteRaw (be_bytes 8 len)).

(** The bytes of the encoding, none when the value is out of its range. *)
Definition rdbEncodeInteger (value : Z) : list Z :=
  if (value >=? - Z.shiftl 1 7) && (value <=? Z.shiftl 1 7 - 1) then
    [Z.lor (Z.shiftl RDB_ENCVAL 6) RDB_ENC_INT8; Z.land value 0xFF]
  else if (value >=? - Z.shiftl 1 15) && (value <=? Z.shiftl 1 15 - 1) then
    [Z.lor (Z.shiftl RDB_ENCVAL 6) RDB_ENC_INT16; Z.land value 0xFF; Z.land (Z.shiftr value 8) 0xFF]
  else if (value >=? - Z.shiftl 1 31) && (value <=? Z.shiftl 1 31 - 1) then
    [Z.lor (Z.shiftl RDB_ENCVAL 6) RDB_ENC_INT32; Z.land value 0xFF; Z.land (Z.shiftr value 8) 0xFF; Z.land (Z.shiftr value 16) 0xFF; Z.land (Z.shiftr value 24) 0xFF]
  else [].

Definition rdbTryIntegerEncoding (s : list Z) : list Z :=
  match string2ll s with Some value => rdbEncodeInteger value | None => [] end.

Definition rdbSaveLzfBlob (data : list Z) (original_len : Z) : saver :=
  then_save (rdbWriteRaw [Z.lor (Z.shiftl RDB_ENCVAL 6) RDB_ENC_LZF])
    (then_save (rdbSaveLen (zlen data)) (then_save (rdbSaveLen original_len) (rdbWriteRaw data))).

(** [server.rdb_compression]; the address of the string, the uninitialized hash
    table of the compressor and the contents of a new block. *)
Context (rdb_compression : bool) (base : Z) (junk : Z -> Z) (heap : nat -> Z).

Definition rdbSaveLzfStringObject (s : list Z) : saver := fun rdb =>
  if zlen s <=? 4 then Some (Some 0, rdb)
  else
    let outlen := zlen s - 4 in
    '(out, comprlen) ← lzf_compress base junk s (heap <$> seq 0 (Z.to_nat outlen));
    if comprlen =? 0 then Some (Some 0, rdb)
    else rdbSaveLzfBlob (take (Z.to_nat comprlen) out) (zlen s) rdb.

Definition save_verbatim (s : list Z) : saver :=
  if zlen s >? 0 then then_save (rdbSaveLen (zlen s)) (rdbWriteRaw s) else rdbSaveLen (zlen s).

Definition rdbSaveRawString (s : list Z) : saver := fun rdb =>
  let enc := if zlen s <=? 11 then rdbTryIntegerEncoding s else [] in
  if zlen enc >? 0 then rdbWriteRaw enc rdb
  else if rdb_compression && (zlen s >? 20) then
    '(n, rdb) ← rdbSaveLzfStringObject s rdb;
    match n with
    | None => Some (None, rdb)
    | Some n => if n >? 0 then Some (Some n, rdb) else save_verbatim s rdb
    end
  else save_verbatim s rdb.

Definition rdbSaveLongLongAsStringObject (value : Z) : saver := fun rdb =>
  let enc := rdbEncodeInteger value in
  if zlen enc >? 0 then rdbWriteRaw enc rdb
  else
    '(buf, enclen) ← ll2string (heap <$> seq 0 32) 0 32 value;
    _ ← cassert (enclen <? 32);
    then_save (rdbSaveLen enclen) (rdbWriteRaw (take (Z.to_nat enclen) buf)) rdb.

Definition rdbSaveStringObject (o : strobj) : saver := fun rdb =>
  match o with
  | IntEncoded v => rdbSaveLongLongAsStringObject v rdb
  | SdsEncoded s => rdbSaveRawString s rdb
  | OtherType => None
  end.

(** ** Loading *)

Definition loader (A : Type) := rio S -> option ((load_err + A) * rio S).

Definition load_ret {A} (a : A) : loader A := fun r => Some (inr a, r).
Definition load_fail {A} (e : load_err) : loader A := fun r => Some (inl e, r).
Definition load_bind {A B} (m : loader A) (f : A -> loader B) : loader B := fun r =>
  '(x, r) ← m r;
  match x with inl e => Some (inl e, r) | inr a => f a r end.

#[local] Notation "x <- m ;; f" := (load_bind m (fun x => f)) (at level 80, m at level 70, f at level 80, right associativity).

Definition load_bytes (len : Z) : loader (list Z) := fun r =>
  '(b, r) ← rioRead r len;
  Some (match b with Some b => inr b | None => inl SHORT_READ end, r).

(** A buffer of one byte. *)
Definition load_byte : loader Z := fun r =>
  '(b, r) ← rioRead r 1;
  Some (match b with Some (b :: _) => inr b | _ => inl SHORT_READ end, r).

Definition rdbLoadType : loader Z := load_byte.

Definition rdbLoadSignedInteger : loader Z := b <- load_bytes 8 ;; load_ret (s64 (le_val b)).

Definition rdbLoadMillisecondTime : loader Z := rdbLoadSignedInteger.

Definition rdbLoadBinaryDoubleValue : loader Z := b <- load_bytes 8 ;; load_ret (le_val b).

(** [*isencoded] and [*lenptr] *)
Definition rdbLoadLenByRef : loader (bool * Z) :=
  b <- load_byte ;;
  let type := Z.shiftr (Z.land b 0xC0) 6 in
  if type =? RDB_ENCVAL then load_ret (true, Z.land b 0x3F)
  else if type =? RDB_6BITLEN then load_ret (false, Z.land b 0x3F)
  else if type =? RDB_14BITLEN then
    b1 <- load_byte ;; load_ret (false, Z.lor (Z.shiftl (Z.land b 0x3F) 8) b1)
  else if b =? RDB_32BITLEN then
    l <- load_bytes 4 ;; load_ret (false, be_val l)
  else if b =? RDB_64BITLEN then
    l <- load_bytes 8 ;; load_ret (false, be_val l)
  else load_fail CORRUPT_RDB.

(** [rdbLoadLen] with the comparison to [RDB_LENERR] its callers make. *)
Definition rdbLoadLen : loader (bool * Z) :=
  x <- rdbLoadLenByRef ;; if x.2 =? RDB_LENERR then load_fail SHORT_READ else load_ret x.

(** [ztrymalloc] and [sdstrynewlen]: whether a block of this size is available. *)
Context (can_alloc : Z -> bool).

(** The object or string of an integer, by the flags. *)
Definition integer_object (flag : load_flag) (val : Z) : loader strobj := fun r =>
  match flag with
  | LOAD_ENC => Some (inr (IntEncoded val), r)
  | _ => s ← int_text val; Some (inr (SdsEncoded s), r)
  end.

Definition rdbLoadIntegerObject (enctype : Z) (flag : load_flag) : loader strobj :=
  if enctype =? RDB_ENC_INT8 then enc <- load_bytes 1 ;; integer_object flag (wraps 8 (le_val enc))
  else if enctype =? RDB_ENC_INT16 then enc <- load_bytes 2 ;; integer_object flag (wraps 16 (le_val enc))
  else if enctype =? RDB_ENC_INT32 then enc <- load_bytes 4 ;; integer_object flag (wraps 32 (le_val enc))
  else load_fail CORRUPT_RDB.

Definition rdbLoadLzfStringObject : loader strobj :=
  c <- rdbLoadLen ;; l <- rdbLoadLen ;;
  let clen := c.2 in let len := l.2 in
  if negb (can_alloc clen) then load_fail NO_MEMORY
  else if negb (can_alloc len) then load_fail NO_MEMORY
  else
    data <- load_bytes clen ;;
    fun r =>
      res ← lzf_decompress data len;
      match res with
      | inr (val, n) => if n =? len then Some (inr (SdsEncoded val), r) else Some (inl CORRUPT_RDB, r)
      | inl _ => if 0 =? len then Some (inr (SdsEncoded []), r) else Some (inl CORRUPT_RDB, r)
      end.

Definition rdbGenericLoadStringObject (flag : load_flag) : loader strobj :=
  x <- rdbLoadLen ;;
  let '(isencoded, len) := x in
  if isencoded : bool then
    if (len =? RDB_ENC_INT8) || (len =? RDB_ENC_INT16) || (len =? RDB_ENC_INT32) then rdbLoadIntegerObject len flag
    else if len =? RDB_ENC_LZF then rdbLoadLzfStringObject
    else load_fail CORRUPT_RDB
  else if negb (can_alloc len) then load_fail NO_MEMORY
  else if len =? 0 then load_ret (SdsEncoded [])
  else buf <- load_bytes len ;; load_ret (SdsEncoded buf).

Definition rdbLoadStringObject : loader strobj := rdbGenericLoadStringObject LOAD_NONE.
Definition rdbLoadEncodedStringObject : loader strobj := rdbGenericLoadStringObject LOAD_ENC.
End Rdb.
