(* ===== verification/RdbThms.v ===== *)
(** * RDB: what is saved is loaded back

    [writes f bs]: the function appends [bs] to the stream, or reports an error
    after a part of it.  [loads f bs v]: on a stream that goes on with [bs] it
    gives [v].  Both compose. *)

From stdpp Require Import base list numbers option tactics.
From S2P Require Import Prelude Util Lzf LzfSpec Bitops BitopsSpec BitopsThms Rio Rdb.

#[local] Ltac Zify.zify_post_hook ::= Z.to_euclidean_division_equations.

Section Spec.
Context {S : Type} `{!rio_io S} `{!rio_stream S}.

Definition writes (f : saver (S := S)) (bs : list Z) : Prop :=
  f None = Some (Some (zlen bs), None) /\
  forall r, rio_fine r -> exists ok r', f (Some r) = Some (if ok : bool then Some (zlen bs) else None, Some r') /\ wrote bs r ok r' /\ (rio_reliable S -> r_write_error r = false -> ok = true).

(** After the bytes [bs] were read. *)
Definition consumed (r : rio S) (bs rest : list Z) (r' : rio S) : Prop :=
  unread (r_io r') = rest /\ r_read_error r' = false /\ rio_fine r' /\ summed r r' bs.

Definition loads {A} (f : loader (S := S) A) (bs : list Z) (v : A) : Prop :=
  forall r rest, rio_fine r -> r_read_error r = false -> unread (r_io r) = bs ++ rest -> exists r', f r = Some (inr v, r') /\ consumed r bs rest r'.

(** A load returns on any stream of bytes, with an error or a value that satisfies
    [P], after it read some bytes. *)
Definition load_safe {A} (f : loader (S := S) A) (P : A -> Prop) : Prop :=
  forall r, rio_fine r -> Forall is_byte (unread (r_io r)) -> exists x r', f r = Some (x, r') /\ rio_fine r' /\
    match x with inr v => P v /\ unread (r_io r') `suffix_of` unread (r_io r) | inl _ => True end.

(** ** Saving in parts *)

Lemma wrote_app a b r1 r2 r3 ok : wrote a r1 true r2 -> wrote b r2 ok r3 -> wrote (a ++ b) r1 ok r3.
Proof.
  intros (_ & _ & p & q & -> & E1 & H1) (F2 & W2 & p2 & q2 & -> & E2 & H2). destruct (H1 eq_refl) as [-> S1]. split_and!; [done|done|]. exists ((p ++ []) ++ p2), q2.
  rewrite app_nil_r in *. split_and!; [by rewrite app_assoc|by rewrite E2, E1, app_assoc|]. intros ->. destruct (H2 eq_refl) as [-> S2]. split; [done|]. by eapply summed_trans.
Qed.

Lemma wrote_fail a b r1 r2 : wrote a r1 false r2 -> wrote (a ++ b) r1 false r2.
Proof. intros (F & W & p & q & -> & E & _). split_and!; [done|done|]. exists p, (q ++ b). by rewrite app_assoc. Qed.

Lemma writes_raw p : writes (rdbWriteRaw p) p.
Proof.
  split; [done|]. intros r Hr. unfold rdbWriteRaw. destruct (rioWrite_ok r p Hr) as (ok & r' & E & Hw). exists ok, r'. rewrite E. split_and!; [done|done|]. intros Hrel He. destruct (rioWrite_reliable r p Hr He) as (r2 & E2 & _). rewrite E in E2. by injection E2.
Qed.

Lemma writes_then f g a b : writes f a -> writes g b -> writes (then_save f g) (a ++ b).
Proof.
  intros [F0 F1] [G0 G1]. unfold then_save. split; [rewrite F0; cbn; rewrite G0; cbn; by rewrite zlen_app|]. intros r Hr. destruct (F1 r Hr) as (ok & r1 & -> & Hw & Hrel). cbn [mbind option_bind]. destruct ok.
  - destruct (G1 r1 (proj1 Hw)) as (ok & r2 & -> & Hw2 & Hrel2). exists ok, r2. cbn [mbind option_bind]. split_and!; [destruct ok; cbn; by rewrite ?zlen_app|by eapply wrote_app|]. intros Hs _. apply Hrel2; [done|apply Hw].
  - exists false, r1. split_and!; [done|by apply wrote_fail|done].
Qed.

Lemma writes_ext f g bs : (forall rdb, f rdb = g rdb) -> writes g bs -> writes f bs.
Proof. intros E [H0 H1]. split; [by rewrite E|]. intros r Hr. rewrite E. by apply H1. Qed.

(** ** Loading in parts *)

Lemma loads_ret {A} (v : A) : loads (load_ret v) [] v.
Proof. intros r rest Hr He Hu. exists r. split; [done|]. split_and!; [done|done|done|apply summed_nil]. Qed.

Lemma loads_bind {A B} (m : loader A) (f : A -> loader B) a b x y : loads m a x -> loads (f x) b y -> loads (load_bind m f) (a ++ b) y.
Proof.
  intros Hm Hf r rest Hr He Hu. rewrite <- app_assoc in Hu. destruct (Hm r _ Hr He Hu) as (r1 & E1 & Hu1 & He1 & Hr1 & Hs1). unfold load_bind. rewrite E1. cbn [mbind option_bind].
  destruct (Hf r1 rest Hr1 He1 Hu1) as (r2 & -> & Hu2 & He2 & Hr2 & Hs2). exists r2. split; [done|]. split_and!; [done|done|done|by eapply summed_trans].
Qed.

Lemma loads_bind_nil {A B} (m : loader A) (f : A -> loader B) a x y : loads m a x -> loads (f x) [] y -> loads (load_bind m f) a y.
Proof. intros Hm Hf. rewrite <- (app_nil_r a). by eapply loads_bind. Qed.

Lemma read_all r bs rest : rio_fine r -> r_read_error r = false -> unread (r_io r) = bs ++ rest -> exists r', rioRead r (zlen bs) = Some (Some bs, r') /\ consumed r bs rest r'.
Proof.
  intros Hr He Hu. destruct (rioRead_ok r (zlen bs) Hr (zlen_nonneg bs)) as [(bs' & r' & E & _ & Hu' & Hz & He' & Hf' & Hs)|(r' & E & _ & _ & [H|H])]; [|congruence|rewrite Hu, zlen_app in H; pose proof (zlen_nonneg rest); lia].
  rewrite Hu in Hu'. unfold zlen in Hz. apply app_inj_1 in Hu' as [-> Hrest]; [|lia]. exists r'. split; [done|]. by split_and!.
Qed.

Lemma loads_bytes bs n : n = zlen bs -> loads (load_bytes n) bs bs.
Proof. intros -> r rest Hr He Hu. unfold load_bytes. destruct (read_all r bs rest Hr He Hu) as (r' & -> & Hc). by exists r'. Qed.

Lemma loads_byte b : loads load_byte [b] b.
Proof. intros r rest Hr He Hu. unfold load_byte. destruct (read_all r [b] rest Hr He Hu) as (r' & E & Hc). change (zlen [b]) with 1 in E. rewrite E. by exists r'. Qed.

(** ** Any stream *)

Lemma safe_ret {A} (v : A) (P : A -> Prop) : P v -> load_safe (load_ret v) P.
Proof. intros HP r Hr Hb. by exists (inr v), r. Qed.

Lemma safe_fail {A} e (P : A -> Prop) : load_safe (load_fail e) P.
Proof. intros r Hr Hb. by exists (inl e), r. Qed.

Lemma safe_bind {A B} (m : loader A) (f : A -> loader B) P Q : load_safe m P -> (forall a, P a -> load_safe (f a) Q) -> load_safe (load_bind m f) Q.
Proof.
  intros Hm Hf r Hr Hb. unfold load_bind. destruct (Hm r Hr Hb) as (x & r1 & -> & Hr1 & Hx). cbn [mbind option_bind]. destruct x as [e|a]; [by exists (inl e), r1|]. destruct Hx as [Ha Hs1].
  destruct (Hf a Ha r1 Hr1) as (y & r2 & E2 & Hr2 & Hy); [destruct Hs1 as [c Hc]; rewrite Hc in Hb; apply list.Forall_app in Hb; apply Hb|]. exists y, r2. split_and!; [done|done|]. destruct y; [done|]. split; [apply Hy|]. by etrans; [apply Hy|].
Qed.

Lemma safe_bytes n : 0 <= n -> load_safe (load_bytes n) (fun bs => zlen bs = n /\ Forall is_byte bs).
Proof.
  intros Hn r Hr Hb. unfold load_bytes. destruct (rioRead_ok r n Hr Hn) as [(bs & r' & -> & _ & Hu & Hz & _ & Hf & _)|(r' & -> & _ & Hf & _)]; [|by exists (inl SHORT_READ), r'].
  pose proof Hb as Hb0. rewrite Hu in Hb. apply list.Forall_app in Hb as [Hb1 Hb2]. exists (inr bs), r'. split_and!; [done..|by exists bs].
Qed.

Lemma safe_byte : load_safe load_byte is_byte.
Proof.
  intros r Hr Hb. unfold load_byte. destruct (rioRead_ok r 1 Hr ltac:(lia)) as [(bs & r' & -> & _ & Hu & Hz & _ & Hf & _)|(r' & -> & _ & Hf & _)]; [|by exists (inl SHORT_READ), r'].
  destruct bs as [|b bs]; [done|]. rewrite Hu in Hb. apply list.Forall_app in Hb as [Hb1 Hb2]. apply list.Forall_cons in Hb1 as [Hb1 _]. exists (inr b), r'. split_and!; [done..|by exists (b :: bs)].
Qed.

Lemma safe_weaken {A} (f : loader A) (P Q : A -> Prop) : load_safe f P -> (forall a, P a -> Q a) -> load_safe f Q.
Proof. intros Hf HQ r Hr Hb. destruct (Hf r Hr Hb) as (x & r' & E & Hr' & Hx). exists x, r'. split_and!; [done|done|]. destruct x; [done|]. split; [apply HQ|]; apply Hx. Qed.

(** ** Lengths *)

Definition enc_len (len : Z) : list Z :=
  if len <? 64 then [len] else if len <? 16384 then [64 + len / 256; len mod 256]
  else if len <=? UINT32_MAX then RDB_32BITLEN :: be_bytes 4 len else RDB_64BITLEN :: be_bytes 8 len.

Lemma len_type b : is_byte b -> Z.shiftr (Z.land b 0xC0) 6 = b / 64 /\ Z.land b 0x3F = b mod 64.
Proof.
  intros Hb. assert (H : (Z.shiftr (Z.land b 0xC0) 6 =? b / 64) && (Z.land b 0x3F =? b mod 64) = true) by (revert b Hb; apply byte_check; by vm_compute).
  apply andb_true_iff in H as [H1%Z.eqb_eq H2%Z.eqb_eq]. done.
Qed.

Lemma high6 h : 0 <= h < 64 -> Z.lor (Z.land h 0xFF) (Z.shiftl RDB_14BITLEN 6) = 64 + h.
Proof.
  intros Hh. assert (H : (Z.lor (Z.land h 0xFF) (Z.shiftl RDB_14BITLEN 6) =? 64 + h) || (64 <=? h) = true) by (assert (Hb : is_byte h) by (unfold is_byte; lia); clear Hh; revert h Hb; apply byte_check; by vm_compute).
  apply orb_true_iff in H as [H%Z.eqb_eq|H%Z.leb_le]; [done|lia].
Qed.

Lemma rdbSaveLen_ok len : 0 <= len -> writes (rdbSaveLen len) (enc_len len).
Proof.
  intros Hl. unfold rdbSaveLen, enc_len. change (Z.shiftl 1 6) with 64. change (Z.shiftl 1 14) with 16384. destruct (Z.ltb_spec len 64).
  - replace (Z.lor (Z.land len 0xFF) (Z.shiftl RDB_6BITLEN 6)) with len; [apply writes_raw|]. change 0xFF with 255. rewrite land_255, Z.mod_small by lia. by rewrite Z.lor_0_r.
  - destruct (Z.ltb_spec len 16384).
    + rewrite Z.shiftr_div_pow2 by lia. change (2 ^ 8) with 256. rewrite high6 by lia. change 0xFF with 255. rewrite land_255. apply writes_raw.
    + destruct (Z.leb_spec len UINT32_MAX); [apply (writes_then _ _ [RDB_32BITLEN])|apply (writes_then _ _ [RDB_64BITLEN])]; apply writes_raw.
Qed.

Lemma be_roundtrip n z : 0 <= z < 2 ^ (8 * Z.of_nat n) -> be_val (be_bytes n z) = z.
Proof. intros Hz. unfold be_val, be_bytes. rewrite reverse_involutive, le_val_bytes. by apply wrapu_id. Qed.

Lemma zlen_be_bytes n z : zlen (be_bytes n z) = Z.of_nat n.
Proof. unfold be_bytes, zlen. by rewrite length_reverse, length_le_bytes. Qed.

Lemma loadLenByRef_ok len : 0 <= len < 2 ^ 64 -> loads rdbLoadLenByRef (enc_len len) (false, len).
Proof.
  intros Hl. unfold enc_len, rdbLoadLenByRef. destruct (Z.ltb_spec len 64).
  - eapply loads_bind_nil; [apply loads_byte|]. cbv zeta. destruct (len_type len) as [-> ->]; [unfold is_byte; lia|]. rewrite Z.div_small, Z.mod_small by lia. apply loads_ret.
  - destruct (Z.ltb_spec len 16384).
    + change [64 + len / 256; len mod 256] with ([64 + len / 256] ++ [len mod 256]). eapply loads_bind; [apply loads_byte|]. cbv zeta. destruct (len_type (64 + len / 256)) as [-> ->]; [unfold is_byte; lia|].
      replace ((64 + len / 256) / 64) with 1 by lia. change (1 =? RDB_ENCVAL) with false. change (1 =? RDB_6BITLEN) with false. change (1 =? RDB_14BITLEN) with true. cbv iota.
      eapply loads_bind_nil; [apply loads_byte|]. replace (Z.lor _ _) with len; [apply loads_ret|]. rewrite Z.lor_comm, lor_shiftl_add by lia. change (2 ^ 8) with 256. lia.
    + destruct (Z.leb_spec len UINT32_MAX) as [H32|H32].
      * change (RDB_32BITLEN :: be_bytes 4 len) with ([RDB_32BITLEN] ++ be_bytes 4 len). eapply loads_bind; [apply loads_byte|].
        cbv zeta. change (Z.shiftr (Z.land RDB_32BITLEN 0xC0) 6) with 2. change (2 =? RDB_ENCVAL) with false. change (2 =? RDB_6BITLEN) with false. change (2 =? RDB_14BITLEN) with false. change (RDB_32BITLEN =? RDB_32BITLEN) with true. cbv iota.
        eapply loads_bind_nil; [apply loads_bytes; by rewrite zlen_be_bytes|]. rewrite be_roundtrip by (change UINT32_MAX with (2 ^ 32 - 1) in H32; change (8 * Z.of_nat 4) with 32; lia). apply loads_ret.
      * change (RDB_64BITLEN :: be_bytes 8 len) with ([RDB_64BITLEN] ++ be_bytes 8 len). eapply loads_bind; [apply loads_byte|].
        cbv zeta. change (Z.shiftr (Z.land RDB_64BITLEN 0xC0) 6) with 2. change (2 =? RDB_ENCVAL) with false. change (2 =? RDB_6BITLEN) with false. change (2 =? RDB_14BITLEN) with false. change (RDB_64BITLEN =? RDB_32BITLEN) with false. change (RDB_64BITLEN =? RDB_64BITLEN) with true. cbv iota.
        eapply loads_bind_nil; [apply loads_bytes; by rewrite zlen_be_bytes|]. rewrite be_roundtrip by (change (8 * Z.of_nat 8) with 64; lia). apply loads_ret.
Qed.

Lemma loadLenByRef_enc k : 0 <= k < 64 -> loads rdbLoadLenByRef [192 + k] (true, k).
Proof.
  intros Hk. eapply loads_bind_nil; [apply loads_byte|]. cbv zeta. destruct (len_type (192 + k)) as [-> ->]; [unfold is_byte; lia|]. replace ((192 + k) / 64) with 3 by lia. change (3 =? RDB_ENCVAL) with true. cbv iota.
  replace ((192 + k) mod 64) with k by lia. apply loads_ret.
Qed.

Lemma loadLen_of bs x : loads rdbLoadLenByRef bs x -> x.2 < RDB_LENERR -> loads rdbLoadLen bs x.
Proof. intros H Hx. eapply loads_bind_nil; [exact H|]. cbv beta. rewrite (proj2 (Z.eqb_neq x.2 RDB_LENERR)) by lia. apply loads_ret. Qed.

Lemma rdbLoadLen_ok len : 0 <= len < RDB_LENERR -> loads rdbLoadLen (enc_len len) (false, len).
Proof. intros Hl. change RDB_LENERR with (2 ^ 64 - 1) in Hl. apply loadLen_of; [apply loadLenByRef_ok; lia|change RDB_LENERR with (2 ^ 64 - 1); cbn [snd]; lia]. Qed.

Lemma rdbLoadLen_enc k : 0 <= k < 64 -> loads rdbLoadLen [192 + k] (true, k).
Proof. intros Hk. apply loadLen_of; [by apply loadLenByRef_enc|change RDB_LENERR with (2 ^ 64 - 1); cbn [snd]; lia]. Qed.

Lemma safe_len : load_safe rdbLoadLen (fun x => 0 <= x.2 < RDB_LENERR /\ (x.1 = true -> x.2 < 64)).
Proof.
  assert (Hsmall : 64 * 256 <= RDB_LENERR) by done. eapply (safe_bind _ _ (fun x => 0 <= x.2 <= RDB_LENERR /\ (x.1 = true -> x.2 < 64))).
  - eapply safe_bind; [apply safe_byte|]. intros b Hb. cbv zeta. destruct (len_type b Hb) as [-> ->]. unfold is_byte in Hb. destruct (_ =? RDB_ENCVAL); [apply safe_ret; cbn [fst snd]; lia|].
    destruct (_ =? RDB_6BITLEN); [apply safe_ret; cbn [fst snd]; split; [lia|done]|]. destruct (_ =? RDB_14BITLEN).
    { eapply safe_bind; [apply safe_byte|]. intros b1 Hb1. apply safe_ret. cbn [fst snd]. unfold is_byte in Hb1. rewrite Z.lor_comm, lor_shiftl_add by lia. change (2 ^ 8) with 256. split; [lia|done]. }
    assert (Hbe : forall bs n, zlen bs = Z.of_nat n -> (n <= 8)%nat -> Forall is_byte bs -> 0 <= be_val bs <= RDB_LENERR).
    { intros bs n Hz Hn Hbs. unfold be_val. assert (Hrev : Forall is_byte (reverse bs)) by (by apply Forall_reverse). pose proof (le_val_bound (reverse bs) Hrev) as Hv. rewrite length_reverse in Hv.
      pose proof (Z.pow_le_mono_r 2 (8 * Z.of_nat (length bs)) 64 ltac:(lia) ltac:(unfold zlen in Hz; lia)) as Hp. change RDB_LENERR with (2 ^ 64 - 1). lia. }
    destruct (b =? RDB_32BITLEN).
    { eapply safe_bind; [apply safe_bytes; lia|]. intros bs [Hz Hbs]. apply safe_ret. split; [by apply (Hbe bs 4%nat); [|lia|]|done]. }
    destruct (b =? RDB_64BITLEN); [|apply safe_fail]. eapply safe_bind; [apply safe_bytes; lia|]. intros bs [Hz Hbs]. apply safe_ret. split; [by apply (Hbe bs 8%nat)|done].
  - intros [enc len] [H1 H2]. cbn [fst snd] in *. destruct (Z.eqb_spec len RDB_LENERR); [apply safe_fail|]. apply safe_ret. cbn [fst snd]. split; [lia|done].
Qed.
End Spec.

(** * RDB strings: round trip and safety *)

(** ** Integers *)

(** The kind of an integer encoding and its bytes. *)
Definition enc_kind (v : Z) : option (Z * nat) :=
  if (-128 <=? v) && (v <? 128) then Some (RDB_ENC_INT8, 1%nat)
  else if (-32768 <=? v) && (v <? 32768) then Some (RDB_ENC_INT16, 2%nat)
  else if (-2147483648 <=? v) && (v <? 2147483648) then Some (RDB_ENC_INT32, 4%nat) else None.

Lemma encode_integer v : rdbEncodeInteger v = match enc_kind v with Some (k, n) => (192 + k) :: le_bytes n v | None => [] end.
Proof.
  unfold rdbEncodeInteger, enc_kind. change (- Z.shiftl 1 7) with (-128). change (- Z.shiftl 1 15) with (-32768). change (- Z.shiftl 1 31) with (-2147483648). change (Z.shiftl 1 7) with 128. change (Z.shiftl 1 15) with 32768. change (Z.shiftl 1 31) with 2147483648. change 0xFF with 255. rewrite !land_255, !Z.shiftr_div_pow2 by lia.
  rewrite !Z.geb_leb. replace (v <=? 128 - 1) with (v <? 128) by lia. replace (v <=? 32768 - 1) with (v <? 32768) by lia. replace (v <=? 2147483648 - 1) with (v <? 2147483648) by lia.
  destruct ((-128 <=? v) && (v <? 128)); [done|]. destruct ((-32768 <=? v) && (v <? 32768)); [done|]. destruct ((-2147483648 <=? v) && (v <? 2147483648)); [|done].
  cbn [le_bytes]. rewrite !Z.div_div by lia. done.
Qed.

Lemma enc_kind_spec v k n : enc_kind v = Some (k, n) -> 0 <= k <= 2 /\ (n = 1%nat /\ k = RDB_ENC_INT8 \/ n = 2%nat /\ k = RDB_ENC_INT16 \/ n = 4%nat /\ k = RDB_ENC_INT32) /\ wraps (8 * Z.of_nat n) (le_val (le_bytes n v)) = v /\ is_s 64 v.
Proof.
  unfold enc_kind. intros H. destruct ((-128 <=? v) && (v <? 128)) eqn:E1; [|destruct ((-32768 <=? v) && (v <? 32768)) eqn:E2; [|destruct ((-2147483648 <=? v) && (v <? 2147483648)) eqn:E3; [|done]]]; injection H as <- <-; rewrite ?andb_true_iff, ?Z.leb_le, ?Z.ltb_lt in *;
    (split; [by vm_compute|]); (split; [auto|]); (split; [|unfold is_s; lia]); rewrite le_val_bytes, wraps_wrapu by lia; apply wraps_id; try lia; unfold is_s; cbn; lia.
Qed.

(** ** What is stored *)

Lemma enc_len_pos len : 0 < zlen (enc_len len).
Proof. unfold enc_len. destruct (_ <? 64); [done|]. destruct (_ <? 16384); [done|]. destruct (_ <=? _); rewrite zlen_cons, zlen_be_bytes; lia. Qed.

(** Bytes that stand for something, at most [n] of them. *)
Definition stored (n : Z) (bs : list Z) : Prop := 0 < zlen bs <= n /\ Forall is_byte bs.

Lemma enc_len_stored len : 0 <= len -> stored 9 (enc_len len).
Proof.
  intros Hl. split; [split; [apply enc_len_pos|]; unfold enc_len; destruct (_ <? 64); [done|]; destruct (_ <? 16384); [done|]; destruct (_ <=? _); rewrite zlen_cons, zlen_be_bytes; lia|].
  unfold enc_len. assert (Hbe : forall n, Forall is_byte (be_bytes n len)) by (intros n; apply Forall_reverse, le_bytes_is_byte).
  destruct (Z.ltb_spec len 64); [repeat constructor; unfold is_byte; lia|]. destruct (Z.ltb_spec len 16384); [repeat constructor; unfold is_byte; lia|]. destruct (_ <=? _); constructor; done.
Qed.

Lemma stored_app n m a b : stored n a -> Forall is_byte b -> zlen b <= m -> stored (n + m) (a ++ b).
Proof. intros [H1 H2] Hb Hm. split; [rewrite zlen_app; pose proof (zlen_nonneg b); lia|by apply list.Forall_app]. Qed.

Lemma stored_le n m bs : n <= m -> stored n bs -> stored m bs.
Proof. intros Hn [H1 H2]. split; [lia|done]. Qed.

Lemma enc_kind_stored v k n : enc_kind v = Some (k, n) -> stored 5 ((192 + k) :: le_bytes n v).
Proof. intros Hk. destruct (enc_kind_spec v k n Hk) as (H1 & H2 & _). split; [rewrite zlen_cons, zlen_le_bytes; lia|]. constructor; [unfold is_byte; lia|apply le_bytes_is_byte]. Qed.

Lemma decodes_bytes t d : decodes t d -> Forall is_byte d -> Forall is_byte t.
Proof.
  induction 1 as [|t d l _ IH Hl|t d m off _ IH Hm Ho _ _]; intros Hd; [constructor|..]; apply list.Forall_app in Hd as [Hd Hl2]; apply list.Forall_app; (split; [by apply IH|]).
  - constructor; [unfold is_byte; lia|done].
  - unfold ref_bytes. destruct (Z.ltb_spec (zlen m - 2) 7); repeat constructor; unfold is_byte; lia.
Qed.

Section Strings.
Context {S : Type} `{!rio_io S} `{!rio_stream S}.
Context (rdb_compression : bool) (base : Z) (junk : Z -> Z) (heap : nat -> Z) (can_alloc : Z -> bool).
(** The address and the uninitialized words, as the compressor needs them. *)
Context (Hbase : 8192 <= base) (Hjunk : forall i, 0 <= junk i < 2 ^ 64).

Local Abbreviation save_raw := (rdbSaveRawString (S := S) rdb_compression base junk heap).
Local Abbreviation save_obj := (rdbSaveStringObject (S := S) rdb_compression base junk heap).
Local Abbreviation load_str := (rdbGenericLoadStringObject (S := S) can_alloc).

(** What the loader makes of an integer, and of a string that is none. *)
Definition int_object (flag : load_flag) (v : Z) : strobj := match flag with LOAD_ENC => IntEncoded v | _ => SdsEncoded (ll_text v) end.

Lemma load_integer flag v k n : enc_kind v = Some (k, n) -> loads (load_str flag) ((192 + k) :: le_bytes n v) (int_object flag v).
Proof.
  intros Hk. destruct (enc_kind_spec v k n Hk) as (Hk2 & Hn & Hv & Hs). change ((192 + k) :: le_bytes n v) with ([192 + k] ++ le_bytes n v). eapply loads_bind; [apply rdbLoadLen_enc; lia|]. cbv beta iota zeta.
  assert (Hio : loads (integer_object flag v) [] (int_object flag v)).
  { intros r rest Hr He Hu. unfold integer_object, int_object. destruct flag; rewrite ?int_text_ok by done; (eexists; split; [done|]); (split_and!; [done|done|done|apply summed_nil]). }
  assert (Ek : (k =? RDB_ENC_INT8) || (k =? RDB_ENC_INT16) || (k =? RDB_ENC_INT32) = true) by (by destruct Hn as [[_ ->]|[[_ ->]|[_ ->]]]). rewrite Ek.
  assert (E : rdbLoadIntegerObject k flag = load_bind (load_bytes (Z.of_nat n)) (fun enc => integer_object flag (wraps (8 * Z.of_nat n) (le_val enc)))) by (by destruct Hn as [[-> ->]|[[-> ->]|[-> ->]]]).
  rewrite E. eapply loads_bind_nil; [apply loads_bytes; by rewrite zlen_le_bytes|]. cbv beta. by rewrite Hv.
Qed.

(** ** Strings *)

Definition alloc_upto (n : Z) : Prop := forall m, 0 <= m <= n -> can_alloc m = true.

Lemma verbatim_ok s flag : alloc_upto (zlen s) -> zlen s < RDB_LENERR -> writes (save_verbatim (S := S) s) (enc_len (zlen s) ++ s) /\ loads (load_str flag) (enc_len (zlen s) ++ s) (SdsEncoded s).
Proof.
  intros Ha Hl. pose proof (zlen_nonneg s) as H0. split.
  - unfold save_verbatim. destruct (Z.gtb_spec (zlen s) 0); [apply writes_then; [by apply rdbSaveLen_ok|apply writes_raw]|].
    assert (s = []) as -> by (apply zlen_0_nil; lia). rewrite app_nil_r. by apply rdbSaveLen_ok.
  - eapply loads_bind; [apply rdbLoadLen_ok; lia|]. cbv beta iota zeta. rewrite Ha by lia. cbn [negb]. destruct (Z.eqb_spec (zlen s) 0) as [E|E]; [apply zlen_0_nil in E as ->; apply loads_ret|].
    eapply loads_bind_nil; [by apply loads_bytes|apply loads_ret].
Qed.

(** A function whose result 0 means that another way is taken. *)
Lemma writes_or_else (f g : saver (S := S)) bs : writes f bs -> 0 < zlen bs ->
  writes (fun rdb => '(n, rdb) ← f rdb; match n with None => Some (None, rdb) | Some n => if n >? 0 then Some (Some n, rdb) else g rdb end) bs.
Proof.
  intros [H0 H1] Hz. split; [rewrite H0; cbn [mbind option_bind]; by rewrite (proj2 (Z.gtb_lt _ _))|]. intros r Hr. destruct (H1 r Hr) as (ok & r' & -> & Hw). exists ok, r'. split; [|done]. cbn [mbind option_bind].
  destruct ok; [by rewrite (proj2 (Z.gtb_lt _ _))|done].
Qed.

Lemma lzf_blob_ok t s flag : decodes t s -> zlen t <= zlen s -> zlen s < 2 ^ 32 -> alloc_upto (zlen s) ->
  let bs := [195] ++ enc_len (zlen t) ++ enc_len (zlen s) ++ t in writes (rdbSaveLzfBlob (S := S) t (zlen s)) bs /\ loads (load_str flag) bs (SdsEncoded s).
Proof.
  intros Hd Ht Hs Ha bs. pose proof (zlen_nonneg t) as H0. assert (Hlim : 2 ^ 32 < RDB_LENERR) by done. split.
  - apply writes_then; [apply writes_raw|]. apply writes_then; [by apply rdbSaveLen_ok|]. apply writes_then; [apply rdbSaveLen_ok; lia|apply writes_raw].
  - eapply loads_bind; [apply (rdbLoadLen_enc 3); lia|]. cbv beta iota zeta. change ((3 =? RDB_ENC_INT8) || (3 =? RDB_ENC_INT16) || (3 =? RDB_ENC_INT32)) with false. change (3 =? RDB_ENC_LZF) with true. cbv iota. eapply loads_bind; [apply rdbLoadLen_ok; lia|].
    eapply loads_bind; [apply rdbLoadLen_ok; lia|]. cbv beta iota zeta. cbn [snd]. rewrite !Ha by lia. cbn [negb]. eapply loads_bind_nil; [by apply loads_bytes|].
    intros r rest Hr He Hu. rewrite (decompress_ok (zlen s) t s Hd) by lia. cbn [mbind option_bind]. rewrite wrapu_id, Z.eqb_refl by lia. exists r. split; [done|]. split_and!; [done|done|done|apply summed_nil].
Qed.

Lemma save_raw_ok s : Forall is_byte s -> zlen s < 2 ^ 32 -> base + zlen s <= 2 ^ 64 -> alloc_upto (zlen s) -> exists bs, writes (save_raw s) bs /\ stored (20 + zlen s) bs /\
  forall flag, exists o, loads (load_str flag) bs o /\ bytes_of (Some o) = s /\ (flag <> LOAD_ENC -> o = SdsEncoded s) /\ value_ok (Some o).
Proof.
  intros Hb Hs Hbs Ha. pose proof (zlen_nonneg s) as H0. assert (Hlim : 2 ^ 32 < RDB_LENERR) by done.
  assert (Hverb : exists bs, writes (save_verbatim s) bs /\ stored (20 + zlen s) bs /\ forall flag, exists o, loads (load_str flag) bs o /\ bytes_of (Some o) = s /\ (flag <> LOAD_ENC -> o = SdsEncoded s) /\ value_ok (Some o)).
  { exists (enc_len (zlen s) ++ s). split; [by apply (verbatim_ok s LOAD_NONE); [|lia]|]. split; [eapply stored_le, stored_app; [|by apply enc_len_stored|done|done]; lia|]. intros flag. exists (SdsEncoded s). split; [by apply verbatim_ok; [|lia]|done]. }
  set (enc := if zlen s <=? 11 then rdbTryIntegerEncoding s else []). destruct (decide (enc = [])) as [E|E].
  - destruct Hverb as (bs & Hw & Hl). destruct (rdb_compression && (zlen s >? 20)) eqn:Ec.
    2: { exists bs. split; [|done]. eapply writes_ext; [|exact Hw]. intros rdb. unfold rdbSaveRawString. fold enc. rewrite E, Ec. done. }
    apply andb_true_iff in Ec as [Ec1 Ec2]. apply Z.gtb_lt in Ec2.
    destruct (compress_ok base junk s (zlen s - 4) Hbase Hbs Hjunk (heap <$> seq 0 (Z.to_nat (zlen s - 4)))) as (out & n & Ecomp & _ & Hn & Hd); [lia|unfold zlen; rewrite length_fmap, length_seq; unfold zlen in *; lia|].
    destruct (Z.eqb_spec n 0) as [En|En].
    { exists bs. split; [|done]. eapply writes_ext; [|exact Hw]. intros rdb. unfold rdbSaveRawString. fold enc. rewrite E, Ec1, (proj2 (Z.gtb_lt (zlen s) 20)) by lia. cbn [andb zlen Z.gtb].
      unfold rdbSaveLzfStringObject. destruct (Z.leb_spec (zlen s) 4); [lia|]. rewrite Ecomp. cbn [mbind option_bind]. rewrite En. done. }
    destruct Hd as [|(t & r & -> & -> & Hd)]; [done|]. exists ([195] ++ enc_len (zlen t) ++ enc_len (zlen s) ++ t). split; [|split].
    + eapply writes_ext; [|apply (writes_or_else (rdbSaveLzfBlob t (zlen s)) (save_verbatim s)); [by apply (lzf_blob_ok t s LOAD_NONE); [|lia|..]|rewrite zlen_app; change (zlen [195]) with 1; match goal with |- context [zlen (?x ++ ?y)] => pose proof (zlen_nonneg (x ++ y)) end; lia]].
      intros rdb. unfold rdbSaveRawString. fold enc. rewrite E, Ec1, (proj2 (Z.gtb_lt (zlen s) 20)) by lia. cbn [andb zlen Z.gtb]. unfold rdbSaveLzfStringObject. destruct (Z.leb_spec (zlen s) 4); [lia|]. rewrite Ecomp. cbn [mbind option_bind].
      rewrite (proj2 (Z.eqb_neq (zlen t) 0)) by done. replace (take (Z.to_nat (zlen t)) (t ++ r)) with t by (unfold zlen; by rewrite Nat2Z.id, take_app_length). done.
    + pose proof (enc_len_stored (zlen t) (zlen_nonneg t)) as [? ?]. pose proof (enc_len_stored (zlen s) H0) as [? ?]. eapply (stored_le (1 + (18 + zlen s))); [lia|]. apply (stored_app _ _ [195]); [split; [done|repeat constructor; unfold is_byte; lia]| |rewrite !zlen_app; lia].
      rewrite !list.Forall_app. split_and!; [done|done|by eapply decodes_bytes].
    + intros flag. exists (SdsEncoded s). split; [by apply lzf_blob_ok; [|lia|..]|done].
  - unfold enc in E. destruct (Z.leb_spec (zlen s) 11) as [H11|]; [|done]. unfold rdbTryIntegerEncoding in E. destruct (string2ll s) as [v|] eqn:Ev; [|done]. pose proof (proj1 (string2ll_iff s v) Ev) as [Hv Es].
    rewrite encode_integer in E. destruct (enc_kind v) as [[k n]|] eqn:Ek; [|done]. exists ((192 + k) :: le_bytes n v). split; [|split; [eapply stored_le, enc_kind_stored; [|done]; try (pose proof (zlen_nonneg (ll_text v))); lia|]].
    + eapply writes_ext; [|apply writes_raw]. intros rdb. unfold rdbSaveRawString. rewrite (proj2 (Z.leb_le (zlen s) 11)) by done. unfold rdbTryIntegerEncoding. rewrite Ev, encode_integer, Ek. rewrite (proj2 (Z.gtb_lt _ 0)); [done|].
      rewrite zlen_cons, zlen_le_bytes. lia.
    + intros flag. exists (int_object flag v). split; [by apply load_integer|]. unfold int_object. rewrite Es in *. destruct flag; done.
Qed.

Lemma save_obj_ok o : value_ok (Some o) -> zlen (bytes_of (Some o)) < 2 ^ 32 -> base + zlen (bytes_of (Some o)) <= 2 ^ 64 -> alloc_upto (zlen (bytes_of (Some o))) -> exists bs, writes (save_obj o) bs /\ stored (20 + zlen (bytes_of (Some o))) bs /\
  forall flag, exists o', loads (load_str flag) bs o' /\ bytes_of (Some o') = bytes_of (Some o) /\ value_ok (Some o').
Proof.
  intros Ho Hs Hbs Ha. destruct o as [s|v|]; [|cbn [bytes_of value_ok] in *|done].
  - destruct (save_raw_ok s Ho Hs Hbs Ha) as (bs & Hw & Hst & Hl). exists bs. split; [exact Hw|]. split; [done|]. intros flag. destruct (Hl flag) as (o & H1 & H2 & _ & H3). by exists o.
  - unfold rdbSaveStringObject, rdbSaveLongLongAsStringObject. destruct (enc_kind v) as [[k n]|] eqn:Ek.
    + exists ((192 + k) :: le_bytes n v). split; [|split; [eapply stored_le, enc_kind_stored; [|done]; try (pose proof (zlen_nonneg (ll_text v))); lia|]].
      * eapply writes_ext; [|apply writes_raw]. intros rdb. rewrite encode_integer, Ek. rewrite (proj2 (Z.gtb_lt _ 0)); [done|]. rewrite zlen_cons, zlen_le_bytes. lia.
      * intros flag. exists (int_object flag v). split; [by apply load_integer|]. unfold int_object. pose proof (bytes_of_bytes (Some (IntEncoded v)) Ho). by destruct flag.
    + exists (enc_len (zlen (ll_text v)) ++ ll_text v). split; [|split; [eapply stored_le, stored_app; [|apply enc_len_stored, zlen_nonneg|apply (bytes_of_bytes (Some (IntEncoded v)) Ho)|done]; lia|]].
      * eapply writes_ext; [|apply writes_then; [apply rdbSaveLen_ok, zlen_nonneg|apply writes_raw]]. intros rdb. rewrite encode_integer, Ek. cbn [zlen Z.gtb].
        pose proof (zlen_ll_text v Ho) as Hz. unfold LONG_STR_SIZE in Hz. pose proof (ll2string_ok [] (heap <$> seq 0 32) [] v Ho) as E. cbn [app] in E. rewrite app_nil_r in E. change (zlen (@nil Z)) with 0 in E.
        assert (Hz32 : zlen (heap <$> seq 0 32) = 32) by (unfold zlen; by rewrite length_fmap, length_seq). rewrite Hz32 in E. change (0 >? 0) with false. cbv iota. rewrite E by lia. cbn [mbind option_bind].
        destruct (Z.ltb_spec (zlen (ll_text v)) 32); [|lia]. cbn [cassert mbind option_bind]. rewrite app_nil_r. replace (take (Z.to_nat (zlen (ll_text v))) _) with (ll_text v) by (unfold zlen; by rewrite Nat2Z.id, take_app_length). done.
      * intros flag. exists (SdsEncoded (ll_text v)). assert (zlen (ll_text v) < RDB_LENERR) by (assert (2 ^ 32 < RDB_LENERR) by done; lia). split; [by apply verbatim_ok|]. split; [done|]. apply (bytes_of_bytes (Some (IntEncoded v)) Ho).
Qed.
End Strings.

(** ** Untrusted input *)

Section Safe.
Context {S : Type} `{!rio_io S} `{!rio_stream S} (can_alloc : Z -> bool).

Definition loaded_ok (o : strobj) : Prop := match o with SdsEncoded s => zlen s < RDB_LENERR | IntEncoded v => is_s 64 v | OtherType => False end.

Definition loaded (flag : load_flag) (o : strobj) : Prop := loaded_ok o /\ (flag <> LOAD_ENC -> exists s, o = SdsEncoded s).

Lemma loaded_sds flag s : zlen s < RDB_LENERR -> loaded flag (SdsEncoded s).
Proof. intros Hs. split; [done|]. by exists s. Qed.

Lemma integer_object_safe flag w v : (w = 8 \/ w = 16 \/ w = 32) -> load_safe (integer_object (S := S) flag (wraps w v)) (loaded flag).
Proof.
  intros Hw. assert (Hv : is_s 64 (wraps w v)).
  { pose proof (wraps_range w v ltac:(lia)) as H. unfold is_s in *. destruct Hw as [->|[->| ->]]; cbn in *; lia. }
  intros r Hr Hb. unfold integer_object. pose proof (zlen_ll_text _ Hv) as Hz. unfold LONG_STR_SIZE in Hz. assert (64 < RDB_LENERR) by done.
  destruct flag; rewrite ?int_text_ok by done; (eexists (inr _), r; split; [done|]); (split; [done|]); (split; [|done]); [apply loaded_sds; lia|by split|apply loaded_sds; lia|apply loaded_sds; lia].
Qed.

Lemma load_str_safe flag : load_safe (rdbGenericLoadStringObject (S := S) can_alloc flag) (loaded flag).
Proof.
  eapply safe_bind; [apply safe_len|]. intros [enc len] [Hlen Henc]. cbn [fst snd] in *. cbv beta iota zeta. destruct enc.
  - destruct (_ || _ || _) eqn:Ek.
    { unfold rdbLoadIntegerObject. destruct (_ =? RDB_ENC_INT8); [eapply safe_bind; [apply safe_bytes; lia|]; intros; apply integer_object_safe; lia|].
      destruct (_ =? RDB_ENC_INT16); [eapply safe_bind; [apply safe_bytes; lia|]; intros; apply integer_object_safe; lia|].
      destruct (_ =? RDB_ENC_INT32); [eapply safe_bind; [apply safe_bytes; lia|]; intros; apply integer_object_safe; lia|apply safe_fail]. }
    destruct (_ =? RDB_ENC_LZF); [|apply safe_fail]. eapply safe_bind; [apply safe_len|]. intros [e1 clen] [Hc _]. eapply safe_bind; [apply safe_len|]. intros [e2 l] [Hl _]. cbn [fst snd] in *. cbv zeta.
    destruct (negb (can_alloc clen)); [apply safe_fail|]. destruct (negb (can_alloc l)); [apply safe_fail|]. eapply safe_bind; [apply safe_bytes; lia|]. intros data [_ Hd] r Hr Hb.
    destruct (decompress_safe data l Hd ltac:(lia)) as (res & -> & Hres). cbn [mbind option_bind]. destruct res as [e|[d n]].
    + destruct (Z.eqb_spec 0 l) as [<-|]; eexists _, r; (split; [done|]); (split; [done|]); [split; [by apply loaded_sds|done]|done].
    + destruct (n =? l); eexists _, r; (split; [done|]); (split; [done|]); [split; [apply loaded_sds; lia|done]|done].
  - destruct (negb (can_alloc len)); [apply safe_fail|]. destruct (len =? 0); [by apply safe_ret, loaded_sds|]. eapply safe_bind; [apply safe_bytes; lia|]. intros bs [Hz _]. apply safe_ret, loaded_sds. lia.
Qed.
End Safe.

(** A string object saved in RDB form, as an integer, compressed or verbatim, is
    loaded back with the same contents from any stream, for every way to load
    it, with no byte left over or missing; saving reports the number of bytes
    it wrote, or an error of the stream after a part of them.  The string is
    shorter than 4 GiB and allocations of its size succeed. *)
Theorem rdb_string_roundtrip {S} `{!rio_io S} `{!rio_stream S} rdb_compression base junk heap can_alloc o :
  8192 <= base -> (forall i, 0 <= junk i < 2 ^ 64) -> value_ok (Some o) -> zlen (bytes_of (Some o)) < 2 ^ 32 -> base + zlen (bytes_of (Some o)) <= 2 ^ 64 -> alloc_upto can_alloc (zlen (bytes_of (Some o))) ->
  exists bs, writes (rdbSaveStringObject (S := S) rdb_compression base junk heap o) bs /\
    forall flag, exists o', loads (rdbGenericLoadStringObject (S := S) can_alloc flag) bs o' /\ bytes_of (Some o') = bytes_of (Some o).
Proof.
  intros Hb Hj Ho Hl Hbl Ha. destruct (save_obj_ok rdb_compression base junk heap can_alloc Hb Hj o Ho Hl Hbl Ha) as (bs & Hw & _ & H). exists bs. split; [done|]. intros flag. destruct (H flag) as (o' & H1 & H2 & _). by exists o'.
Qed.

Lemma rdb_string_roundtrip_witness : let o := SdsEncoded sample_text in
  exists bs, writes (rdbSaveStringObject (S := rio_buffer) true 8192 (fun _ => 0) (fun _ => 0) o) bs /\
    forall flag, exists o', loads (rdbGenericLoadStringObject (S := rio_buffer) (fun _ => true) flag) bs o' /\ bytes_of (Some o') = bytes_of (Some o).
Proof.
  apply (rdb_string_roundtrip true 8192 (fun _ => 0) (fun _ => 0) (fun _ => true) (SdsEncoded sample_text)); [done|intros; lia| |by vm_compute|by vm_compute|intros m _; reflexivity].
  unfold value_ok, sample_text. repeat (constructor; [unfold is_byte; lia|]). constructor.
Defined.

(** Loading a string from arbitrary bytes, whatever allocations fail, returns:
    an error, or an object whose length was checked; no assertion fails and
    nothing outside of the blocks is accessed. *)
Theorem rdb_string_load_safe {S} `{!rio_io S} `{!rio_stream S} can_alloc flag (r : rio S) : rio_fine r -> Forall is_byte (unread (r_io r)) ->
  exists x r', rdbGenericLoadStringObject can_alloc flag r = Some (x, r') /\ match x with inr o => loaded_ok o | inl _ => True end.
Proof. intros Hr Hb. destruct (load_str_safe can_alloc flag r Hr Hb) as (x & r' & E & _ & H). exists x, r'. split; [done|]. destruct x; [done|apply (proj1 H)]. Qed.

Lemma rdb_string_load_safe_witness : let r := rioInitWithBuffer [195; 2; 255; 7; 0] in
  exists x r', rdbGenericLoadStringObject (fun n => n <? 1000) LOAD_SDS r = Some (x, r') /\ match x with inr o => loaded_ok o | inl _ => True end.
Proof. apply (rdb_string_load_safe (fun n => n <? 1000) LOAD_SDS (rioInitWithBuffer [195; 2; 255; 7; 0])); [done|]. cbn. repeat (constructor; [unfold is_byte; lia|]). constructor. Defined.
