(* ===== verification/RdbObj.v ===== *)
(** * RDB objects, and the payloads of DUMP and RESTORE (src/rdb.c, src/cluster.c)

    The functions that save and load the value of a key dispatch on its type.
    The class [rdb_objects] is that interface, [rdb_codec] what its clients rely
    on: a value that was saved is loaded back, and loading returns on any bytes.
    String objects are an instance, and the only one: the branches of [rdbSaveObject]
    and [rdbLoadObject] for the other types are not modelled.  The payload of DUMP is a value between its
    type and a footer with a version and a checksum. *)

From stdpp Require Import base list numbers option tactics.
From S2P Require Import Prelude Util Lzf Bitops BitopsSpec BitopsThms Crc CrcThms Rio Rdb RdbThms.

Definition RDB_TYPE_STRING : Z := 0.
Definition RDB_OPCODE_KEY_META : Z := 243.

Definition rdbIsObjectType (t : Z) : bool := (t >=? 0) && (t <=? 7) || (t >=? 9) && (t <=? 32).

(** ** The interface *)

(** Saving depends on [server.rdb_compression].  [rdbLoadObject] gives [None] for an
    empty key, which its callers skip. *)
Class rdb_objects (S V : Type) `{!rio_io S} := {
  rdbSaveObjectType : V -> saver (S := S);
  rdbSaveObject : bool -> V -> saver (S := S);
  rdbLoadObject : Z -> loader (S := S) (option V) }.

Class rdb_codec (S V : Type) `{!rio_io S} `{!rio_stream S} `{!rdb_objects S V} := {
  same_object : V -> V -> Prop;
  storable : V -> Prop;
  object_roundtrip : forall c v, storable v -> exists t bs, rdbIsObjectType t = true /\ writes (rdbSaveObjectType v) [t] /\ writes (rdbSaveObject c v) bs /\ 0 < zlen bs < 2 ^ 63 /\ Forall is_byte bs /\
    exists v', loads (rdbLoadObject t) bs (Some v') /\ same_object v v';
  object_load_safe : forall t, load_safe (rdbLoadObject t) (fun _ => True) }.

(** ** String objects *)

(** [shared] stands for [o->refcount > 1].  Raw and embedded strings are not told apart,
    and trimming does not change them. *)
Definition tryObjectEncodingEx (o : strobj) (shared : bool) : option strobj :=
  match o with
  | OtherType => None
  | IntEncoded _ => Some o
  | SdsEncoded s =>
      if shared then Some o
      else if zlen s <=? 20 then Some match string2ll s with Some value => IntEncoded value | None => o end
      else Some o
  end.

Section StringObjects.
Context {S : Type} `{!rio_io S} (base : Z) (junk : Z -> Z) (heap : nat -> Z) (can_alloc : Z -> bool).

Definition string_SaveObjectType (o : strobj) : saver (S := S) := rdbSaveType RDB_TYPE_STRING.

Definition string_SaveObject (c : bool) (o : strobj) : saver (S := S) := rdbSaveStringObject c base junk heap o.

(** The values of the other types are outside of this instance. *)
Definition string_LoadObject (rdbtype : Z) : loader (S := S) (option strobj) :=
  if rdbtype =? RDB_TYPE_STRING then
    load_bind (rdbLoadEncodedStringObject can_alloc) (fun o r => o ← tryObjectEncodingEx o false; Some (inr (Some o), r))
  else load_fail OTHER_TYPE.

#[export] Instance string_objects : rdb_objects S strobj :=
  { rdbSaveObjectType := string_SaveObjectType; rdbSaveObject := string_SaveObject; rdbLoadObject := string_LoadObject }.
End StringObjects.

(** ** DUMP and RESTORE *)

Section Dump.
Context {V : Type} `{!rdb_objects rio_buffer V}.

(** The object is saved without key metadata, which only modules attach; [addr] is the
    address of the buffer the checksum is computed on. *)
Definition createDumpPayload (st : crc64_state) (rdb_compression skip_checksum dont_compress : bool) (addr : Z) (o : V) : option (list Z * crc64_state) :=
  let c := rdb_compression && negb dont_compress in
  '(n, payload) ← rdbSaveObjectType o (Some (rioInitWithBuffer []));
  _ ← cassert (negb (bool_decide (n = Some 0)));
  '(n, payload) ← rdbSaveObject c o payload;
  _ ← cassert (negb (bool_decide (n = Some 0)));
  payload ← payload;
  let ptr := b_ptr (r_io payload) ++ [Z.land RDB_VERSION 0xff; Z.land (Z.shiftr RDB_VERSION 8) 0xff] in
  if skip_checksum : bool then Some (ptr ++ le_bytes 8 0, st)
  else
    '(crc, st) ← crc64 st addr 0 ptr;
    Some (ptr ++ le_bytes 8 crc, st).

Definition createRawDumpPayload (st : crc64_state) (rdb_compression : bool) (addr : Z) (o : V) : option (list Z * crc64_state) :=
  createDumpPayload st rdb_compression true true addr o.

(** [skip] is [server.skip_checksum_validation]; the result is [C_OK] or not, with the version. *)
Definition verifyDumpPayload (st : crc64_state) (skip : bool) (addr : Z) (p : list Z) : option (bool * Z * crc64_state) :=
  let len := zlen p in
  if len <? 10 then Some (false, 0, st)
  else
    let footer := len - 10 in
    f1 ← rd p (footer + 1);
    f0 ← rd p footer;
    let rdbver := u16 (Z.lor (Z.shiftl f1 8) f0) in
    if rdbver >? RDB_VERSION then Some (false, rdbver, st)
    else if skip then Some (true, rdbver, st)
    else
      b ← rd_bytes p (footer + 2) 8;
      let crc_payload := le_val b in
      if crc_payload =? 0 then Some (true, rdbver, st)
      else
        body ← rd_bytes p 0 (len - 8);
        '(crc, st) ← crc64 st addr 0 body;
        Some (crc =? crc_payload, rdbver, st).

(** Key metadata belongs to modules. *)
Definition rdbResolveKeyType {S} `{!rio_io S} (type : Z) : loader (S := S) Z :=
  if type =? RDB_OPCODE_KEY_META then load_fail OTHER_TYPE
  else if negb (rdbIsObjectType type) then load_fail CORRUPT_RDB
  else load_ret type.

(** The part of [restoreCommand] between the arguments and the keyspace: [inl true] for a
    payload that fails the check, [inl false] for bad data. *)
Definition restore_object (st : crc64_state) (skip : bool) (addr : Z) (p : list Z) : option ((bool + V) * crc64_state) :=
  '(ok, _, st) ← verifyDumpPayload st skip addr p;
  if negb ok then Some (inl true, st)
  else
    '(x, _) ← load_bind rdbLoadType (fun type => load_bind (rdbResolveKeyType type) rdbLoadObject) (rioInitWithBuffer p);
    Some (match x with inr (Some o) => inr o | _ => inl false end, st).
End Dump.
