(* ===== verification/DumpThms.v ===== *)
(** * DUMP and RESTORE: round trip, untrusted payloads and corruption *)

From stdpp Require Import base list numbers option tactics.
From S2P Require Import Prelude Util Lzf LzfSpec Bitops BitopsSpec BitopsThms Crc CrcThms Rio Rdb RdbThms RdbObj.

(** ** String objects keep the promise of the interface *)

Lemma try_encoding_ok o : value_ok (Some o) -> exists o', tryObjectEncodingEx o false = Some o' /\ bytes_of (Some o') = bytes_of (Some o) /\ value_ok (Some o').
Proof.
  intros Ho. destruct o as [s|v|]; [|by exists (IntEncoded v)|done]. cbn [tryObjectEncodingEx]. destruct (zlen s <=? 20); [|by exists (SdsEncoded s)].
  destruct (string2ll s) as [v|] eqn:E; [|by exists (SdsEncoded s)]. apply string2ll_iff in E as [Hv ->]. by exists (IntEncoded v).
Qed.

Section Strings.
Context {S : Type} `{!rio_io S} `{!rio_stream S} (base : Z) (junk : Z -> Z) (heap : nat -> Z) (can_alloc : Z -> bool).
Context (Hbase : 8192 <= base) (Hjunk : forall i, 0 <= junk i < 2 ^ 64).

(** Strings below 4 GiB, whose allocations succeed. *)
Definition string_storable (o : strobj) : Prop :=
  value_ok (Some o) /\ zlen (bytes_of (Some o)) < 2 ^ 32 /\ base + zlen (bytes_of (Some o)) <= 2 ^ 64 /\ alloc_upto can_alloc (zlen (bytes_of (Some o))).

Lemma string_load_safe t : load_safe (string_LoadObject (S := S) can_alloc t) (fun _ => True).
Proof.
  unfold string_LoadObject. destruct (t =? RDB_TYPE_STRING); [|apply safe_fail]. eapply safe_bind; [apply load_str_safe|]. intros o [Ho _] r Hr Hb.
  assert (Ht : exists o', tryObjectEncodingEx o false = Some o').
  { destruct o as [s|v|]; [|by eexists|done]. cbn [tryObjectEncodingEx]. destruct (zlen s <=? 20); by eexists. }
  destruct Ht as [o' ->]. cbn [mbind option_bind]. eexists _, r. split; [done|]. done.
Qed.

#[refine] Instance string_codec : @rdb_codec S strobj _ _ (string_objects base junk heap can_alloc) :=
  { same_object o o' := bytes_of (Some o) = bytes_of (Some o'); storable := string_storable }.
Proof.
  - intros c o (Ho & Hl & Hb & Ha). destruct (save_obj_ok c base junk heap can_alloc Hbase Hjunk o Ho Hl Hb Ha) as (bs & Hw & [Hz Hst] & Hload). exists RDB_TYPE_STRING, bs.
    split_and!; [done|apply writes_raw|exact Hw|lia|lia|done|]. destruct (Hload LOAD_ENC) as (o1 & Hl1 & Eb & Ho1). destruct (try_encoding_ok o1 Ho1) as (o2 & E2 & Eb2 & _). exists o2. split; [|congruence].
    cbn [rdbLoadObject string_objects]. unfold string_LoadObject. change (RDB_TYPE_STRING =? RDB_TYPE_STRING) with true. cbv iota. eapply loads_bind_nil; [exact Hl1|]. intros r rest Hr He Hu. rewrite E2. exists r. split; [done|]. split_and!; [done..|apply summed_nil].
  - apply string_load_safe.
Defined.
End Strings.

(** ** The footer *)

Section Dump.
Context {V : Type} `{!rdb_objects rio_buffer V} `{!rdb_codec rio_buffer V}.
Context (dual tri : Z).

Definition version_bytes : list Z := [Z.land RDB_VERSION 0xff; Z.land (Z.shiftr RDB_VERSION 8) 0xff].

(** What [verifyDumpPayload] decides of a body with its version and a checksum. *)
Lemma verify_ok st skip addr body v0 v1 sum : crc64_reach dual tri st -> Forall is_byte (body ++ [v0; v1] ++ sum) -> zlen sum = 8 -> zlen (body ++ [v0; v1] ++ sum) < 2 ^ 64 ->
  exists st', crc64_reach dual tri st' /\ verifyDumpPayload st skip addr (body ++ [v0; v1] ++ sum) =
    Some ((v0 + 256 * v1 <=? RDB_VERSION) && (skip || (le_val sum =? 0) || (crc_of 0 (body ++ [v0; v1]) =? le_val sum)), v0 + 256 * v1, st').
Proof.
  intros Hst Hb Hs Hl. set (p := body ++ [v0; v1] ++ sum) in *. assert (Hz : zlen p = zlen body + 10) by (unfold p; rewrite !zlen_app, Hs; done). pose proof (zlen_nonneg body) as H0.
  assert (Hb2 : Forall is_byte (body ++ [v0; v1])) by (unfold p in Hb; rewrite !list.Forall_app in Hb; apply list.Forall_app; tauto).
  assert (Hv : is_byte v0 /\ is_byte v1) by (apply list.Forall_app in Hb2 as [_ Hv]; by inversion_clear Hv as [|? ? ? Hv1]; inversion_clear Hv1). unfold is_byte in Hv.
  unfold verifyDumpPayload. destruct (Z.ltb_spec (zlen p) 10); [lia|]. rewrite Hz. replace (zlen body + 10 - 10) with (zlen body) by lia.
  assert (E0 : rd p (zlen body) = Some v0) by (unfold p; apply rd_app_mid). assert (E1 : rd p (zlen body + 1) = Some v1).
  { unfold p. change ([v0; v1] ++ sum) with ([v0] ++ v1 :: sum). rewrite app_assoc. replace (zlen body + 1) with (zlen (body ++ [v0])) by (by rewrite zlen_app). apply rd_app_mid. }
  rewrite E1, E0. cbn [mbind option_bind]. assert (Ever : u16 (Z.lor (Z.shiftl v1 8) v0) = v0 + 256 * v1).
  { rewrite Z.lor_comm, lor_shiftl_add by lia. change (2 ^ 8) with 256. rewrite wrapu_id; [lia|change (2 ^ 16) with 65536; lia]. }
  rewrite Ever. destruct (Z.gtb_spec (v0 + 256 * v1) RDB_VERSION), (Z.leb_spec (v0 + 256 * v1) RDB_VERSION); try lia; [by exists st|]. destruct skip; [by exists st|].
  assert (Es : rd_bytes p (zlen body + 2) 8 = Some sum).
  { unfold p. rewrite app_assoc. rewrite <- (app_nil_r sum) at 1. apply rd_bytes_at; [by rewrite zlen_app|done]. }
  rewrite Es. cbn [mbind option_bind orb andb]. destruct (le_val sum =? 0); [by exists st|]. assert (Ep : rd_bytes p 0 (zlen body + 10 - 8) = Some (body ++ [v0; v1])).
  { unfold p. rewrite app_assoc. apply rd_bytes_head. rewrite zlen_app. change (zlen [v0; v1]) with 2. lia. }
  rewrite Ep. cbn [mbind option_bind orb]. destruct (crc64_reach_ok _ _ _ Hst) as [Ht Hk]. assert (Hl2 : zlen (body ++ [v0; v1]) < 2 ^ 64) by (unfold p in Hl; rewrite !zlen_app in *; lia).
  destruct (crc64_call st addr 0 (body ++ [v0; v1]) Ht Hk ltac:(lia) Hb2 Hl2) as (st' & E & _). rewrite E. cbn [mbind option_bind]. exists st'. split; [|done]. by eapply reach_call; [..|exact E].
Qed.

(** ** Round trip *)

Lemma dump_create_ok st c skip_checksum dont_compress addr v : crc64_reach dual tri st -> storable v ->
  exists t bs v', rdbIsObjectType t = true /\ loads (rdbLoadObject t) bs (Some v') /\ same_object v v' /\ Forall is_byte (t :: bs) /\
    zlen bs + 11 < 2 ^ 64 /\ (exists st', crc64_reach dual tri st' /\
      createDumpPayload st c skip_checksum dont_compress addr v = Some ((t :: bs) ++ version_bytes ++ le_bytes 8 (if skip_checksum then 0 else crc_of 0 ((t :: bs) ++ version_bytes)), st')).
Proof.
  intros Hst Hv. destruct (object_roundtrip (c && negb dont_compress) v Hv) as (t & bs & Ht & Hwt & Hwo & Hz & Hb & v' & Hl & Hsame). exists t, bs, v'.
  assert (Htb : is_byte t).
  { unfold rdbIsObjectType in Ht. unfold is_byte. rewrite orb_true_iff, !andb_true_iff, !Z.geb_leb, !Z.leb_le in Ht. lia. }
  split_and!; [done|done|done|by constructor|lia|]. unfold createDumpPayload.
  destruct (proj2 Hwt (rioInitWithBuffer []) ltac:(done)) as (ok & r1 & E1 & Hw1 & Hok1). specialize (Hok1 _ eq_refl). rewrite E1. subst ok. cbn [mbind option_bind]. rewrite bool_decide_false by done. cbn [negb cassert mbind option_bind].
  destruct (proj2 Hwo r1 (proj1 Hw1)) as (ok & r2 & E2 & Hw2 & Hok2). specialize (Hok2 _ (proj1 (proj2 Hw1))). rewrite E2. subst ok. cbn [mbind option_bind]. rewrite bool_decide_false by (intros [= ?]; lia). cbn [negb cassert mbind option_bind].
  assert (Ep : b_ptr (r_io r2) = t :: bs).
  { destruct (wrote_app _ _ _ _ _ _ Hw1 Hw2) as (_ & _ & p & q & Epq & Ewr & Hq). destruct (Hq eq_refl) as [-> _]. rewrite app_nil_r in Epq. cbn in Ewr. by rewrite Ewr, <- Epq. }
  rewrite Ep. fold version_bytes. destruct skip_checksum; [exists st; split; [done|]; by rewrite <- app_assoc|]. destruct (crc64_reach_ok _ _ _ Hst) as [Htab Hk].
  assert (Hbody : Forall is_byte ((t :: bs) ++ version_bytes)) by (apply list.Forall_app; split; [by constructor|repeat constructor; by vm_compute]). assert (Hzb : zlen ((t :: bs) ++ version_bytes) = zlen bs + 3) by (rewrite zlen_app, zlen_cons; change (zlen version_bytes) with 2; lia).
  destruct (crc64_call st addr 0 ((t :: bs) ++ version_bytes) Htab Hk ltac:(lia) Hbody ltac:(lia)) as (st' & E & _). rewrite E. cbn [mbind option_bind]. exists st'. split; [by eapply reach_call; [..|exact E]; [done|lia|done|lia]|]. by rewrite <- app_assoc.
Qed.

Lemma le_val_crc c s : 0 <= c < 2 ^ 64 -> Forall is_byte s -> le_val (le_bytes 8 (crc_of c s)) = crc_of c s.
Proof. intros Hc Hs. rewrite le_val_bytes. apply wrapu_id. by apply crc_of_range. Qed.

Lemma payload_bytes (body : list Z) x : Forall is_byte body -> Forall is_byte (body ++ version_bytes ++ le_bytes 8 x).
Proof. intros Hb. rewrite !list.Forall_app. split_and!; [done|repeat constructor; by vm_compute|apply le_bytes_is_byte]. Qed.
End Dump.

(** A value whose type has a codec is restored from its payload, which passes the check
    of its version and checksum. *)
Lemma dump_restore_codec {V} `{!rdb_objects rio_buffer V} `{!rdb_codec rio_buffer V} dual tri st c skip_checksum dont_compress addr skip addr' (v : V) :
  crc64_reach dual tri st -> storable v ->
  exists p st1 st2 v', createDumpPayload st c skip_checksum dont_compress addr v = Some (p, st1) /\
    restore_object st1 skip addr' p = Some (inr v', st2) /\ same_object v v' /\ crc64_reach dual tri st2.
Proof.
  intros Hst Hv. destruct (dump_create_ok dual tri st c skip_checksum dont_compress addr v Hst Hv) as (t & bs & v' & Ht & Hl & Hsame & Hb & Hlen & st1 & Hst1 & E).
  set (sum := if skip_checksum then 0 else _) in E. assert (Hsum : le_val (le_bytes 8 sum) = sum /\ (sum = 0 \/ sum = crc_of 0 ((t :: bs) ++ version_bytes))).
  { unfold sum. destruct skip_checksum; [split; [done|by left]|]. split; [|by right]. apply le_val_crc; [lia|]. apply list.Forall_app. split; [done|repeat constructor; by vm_compute]. }
  destruct Hsum as [Hs1 Hs2]. pose proof (payload_bytes (t :: bs) sum Hb) as Hp.
  destruct (verify_ok dual tri st1 skip addr' (t :: bs) (Z.land RDB_VERSION 0xff) (Z.land (Z.shiftr RDB_VERSION 8) 0xff) (le_bytes 8 sum) Hst1 Hp (zlen_le_bytes 8 sum)) as (st2 & Hst2 & Ev).
  { rewrite !zlen_app, zlen_cons, zlen_le_bytes. change (zlen [_; _]) with 2. lia. }
  exists ((t :: bs) ++ version_bytes ++ le_bytes 8 sum), st1, st2, v'. split_and!; [done| |done|done]. unfold restore_object. fold version_bytes in Ev. rewrite Ev. cbn [mbind option_bind].
  change (Z.land RDB_VERSION 255 + 256 * Z.land (Z.shiftr RDB_VERSION 8) 255 <=? RDB_VERSION) with true. rewrite Hs1.
  replace (true && _) with true by (destruct Hs2 as [-> | <-]; rewrite ?Z.eqb_refl; by destruct skip; rewrite ?orb_true_r). cbn [negb].
  assert (Hload : loads (load_bind rdbLoadType (fun type => load_bind (rdbResolveKeyType type) rdbLoadObject)) (t :: bs) (Some v')).
  { apply (loads_bind _ _ [t] bs t); [apply loads_byte|]. apply (loads_bind _ _ [] bs t); [|done]. unfold rdbResolveKeyType.
    assert (Em : (t =? RDB_OPCODE_KEY_META) = false) by (apply Z.eqb_neq; intros ->; done). rewrite Em, Ht. apply loads_ret. }
  destruct (Hload (rioInitWithBuffer ((t :: bs) ++ version_bytes ++ le_bytes 8 sum)) (version_bytes ++ le_bytes 8 sum)) as (r' & -> & _); [done|done|done|]. done.
Qed.

Lemma string_sample : string_storable 8192 (fun _ => true) (SdsEncoded sample_text).
Proof.
  split_and!; [|by vm_compute|by vm_compute|intros m _; reflexivity]. unfold value_ok, sample_text. repeat (constructor; [unfold is_byte; lia|]). constructor.
Qed.

(** The string objects of a server with a block of memory at 8192 for the compressor. *)
Definition sample_codec : @rdb_codec rio_buffer strobj _ _ (string_objects 8192 (fun _ => 0) (fun _ => 0) (fun _ => true)) :=
  string_codec 8192 (fun _ => 0) (fun _ => 0) (fun _ => true) (Z.le_refl 8192) (fun _ => conj (Z.le_refl 0) eq_refl).

(** C23: A string value below 4 GiB, encoded as bytes or as an integer, whose
    allocations succeed, that is dumped with any flags is restored: the payload
    passes the check of its version and checksum, in any state of the checksum
    module and with validation on or off, and loading it gives a value with the
    same bytes, compressed or not.  The other types of values are not modelled. *)
Theorem dump_restore_roundtrip base junk heap can_alloc dual tri st c skip_checksum dont_compress addr skip addr' (o : strobj) :
  8192 <= base -> (forall i, 0 <= junk i < 2 ^ 64) -> crc64_reach dual tri st ->
  value_ok (Some o) -> zlen (bytes_of (Some o)) < 2 ^ 32 -> base + zlen (bytes_of (Some o)) <= 2 ^ 64 -> alloc_upto can_alloc (zlen (bytes_of (Some o))) ->
  exists p st1 st2 o', createDumpPayload (rdb_objects0 := string_objects base junk heap can_alloc) st c skip_checksum dont_compress addr o = Some (p, st1) /\
    restore_object (rdb_objects0 := string_objects base junk heap can_alloc) st1 skip addr' p = Some (inr o', st2) /\ bytes_of (Some o') = bytes_of (Some o) /\ crc64_reach dual tri st2.
Proof.
  intros Hbase Hjunk Hst H1 H2 H3 H4. destruct (@dump_restore_codec strobj _ (string_codec base junk heap can_alloc Hbase Hjunk) dual tri st c skip_checksum dont_compress addr skip addr' o Hst) as (p & st1 & st2 & o' & E1 & E2 & Hs & Hr); [by split_and!|].
  by exists p, st1, st2, o'.
Qed.

Lemma dump_restore_roundtrip_witness :
  exists p st1 st2 o', createDumpPayload (rdb_objects0 := string_objects 8192 (fun _ => 0) (fun _ => 0) (fun _ => true)) crc64_sample true false false 0 (SdsEncoded sample_text) = Some (p, st1) /\
    restore_object (rdb_objects0 := string_objects 8192 (fun _ => 0) (fun _ => 0) (fun _ => true)) st1 false 5 p = Some (inr o', st2) /\ bytes_of (Some o') = bytes_of (Some (SdsEncoded sample_text)) /\ crc64_reach 16 48 st2.
Proof.
  apply (dump_restore_roundtrip 8192 (fun _ => 0) (fun _ => 0) (fun _ => true) 16 48 crc64_sample true false false 0 false 5 (SdsEncoded sample_text)); [lia|intros; lia|by apply reach_init, crc64_sample_init|apply string_sample..].
Defined.

(** Whatever bytes a client sends as a payload, checking and loading it returns,
    with an error or a value. *)
Theorem restore_untrusted {V} `{!rdb_objects rio_buffer V} `{!rdb_codec rio_buffer V} dual tri st skip addr p :
  crc64_reach dual tri st -> Forall is_byte p -> zlen p < 2 ^ 64 -> exists x st', restore_object (V := V) st skip addr p = Some (x, st') /\ crc64_reach dual tri st' /\
    (zlen p < 10 -> x = inl true).
Proof.
  intros Hst Hp Hl. unfold restore_object. destruct (decide (zlen p < 10)) as [Hs|Hs].
  { exists (inl true), st. split_and!; [|done|done]. unfold verifyDumpPayload. by rewrite (proj2 (Z.ltb_lt (zlen p) 10)). }
  set (body := take (Z.to_nat (zlen p - 10)) p). assert (Hbody : zlen body = zlen p - 10) by (apply zlen_take; lia).
  assert (Hd : exists v0 v1 sum, drop (Z.to_nat (zlen p - 10)) p = v0 :: v1 :: sum /\ zlen sum = 8).
  { pose proof (zlen_drop p (zlen p - 10) ltac:(lia)) as Hz. destruct (drop _ p) as [|v0 [|v1 sum]]; rewrite ?zlen_cons in Hz; [change (zlen []) with 0 in Hz; lia|change (zlen []) with 0 in Hz; lia|]. exists v0, v1, sum. split; [done|lia]. }
  destruct Hd as (v0 & v1 & sum & Ed & Hsum). assert (Ep : p = body ++ [v0; v1] ++ sum) by (unfold body; rewrite <- (take_drop (Z.to_nat (zlen p - 10)) p) at 1; by rewrite Ed). clearbody body. subst p.
  destruct (verify_ok dual tri st skip addr body v0 v1 sum Hst Hp Hsum Hl) as (st' & Hst' & ->). cbn [mbind option_bind]. destruct (negb _); [by exists (inl true), st'|].
  assert (Hsafe : load_safe (load_bind rdbLoadType (fun type => load_bind (rdbResolveKeyType type) (rdbLoadObject (V := V)))) (fun _ => True)).
  { eapply safe_bind; [apply safe_byte|]. intros t _. eapply (safe_bind _ _ (fun _ => True)); [|intros; apply object_load_safe]. unfold rdbResolveKeyType. destruct (_ =? _); [apply safe_fail|]. destruct (negb _); [apply safe_fail|by apply safe_ret]. }
  destruct (Hsafe (rioInitWithBuffer (body ++ [v0; v1] ++ sum))) as (x & r' & -> & _); [done|done|]. cbn [mbind option_bind]. eexists _, st'. by split_and!.
Qed.

Lemma restore_untrusted_witness : let p := [0; 195; 2; 255; 7; 0; 1; 0; 0; 0; 0; 0; 0; 0; 0; 0] in
  exists x st', @restore_object strobj (string_objects 8192 (fun _ => 0) (fun _ => 0) (fun _ => true)) crc64_sample false 0 p = Some (x, st') /\ crc64_reach 16 48 st' /\ (zlen p < 10 -> x = inl true).
Proof.
  apply (@restore_untrusted strobj _ sample_codec 16 48 crc64_sample false 0 [0; 195; 2; 255; 7; 0; 1; 0; 0; 0; 0; 0; 0; 0; 0; 0]); [by apply reach_init, crc64_sample_init| |by vm_compute].
  repeat (constructor; [unfold is_byte; lia|]). constructor.
Defined.

(** The decision of [verifyDumpPayload] on the bytes before the checksum. *)
Lemma verify_split dual tri st addr w sum : crc64_reach dual tri st -> Forall is_byte (w ++ sum) -> zlen sum = 8 -> 2 <= zlen w -> zlen (w ++ sum) < 2 ^ 64 -> le_val sum <> 0 ->
  exists st' ver (newer : bool), verifyDumpPayload st false addr (w ++ sum) = Some (negb newer && (crc_of 0 w =? le_val sum), ver, st').
Proof.
  intros Hst Hb Hs Hw Hl Hne. set (body := take (Z.to_nat (zlen w - 2)) w). assert (Hd : exists v0 v1, drop (Z.to_nat (zlen w - 2)) w = [v0; v1]).
  { pose proof (zlen_drop w (zlen w - 2) ltac:(lia)) as Hz. destruct (drop _ w) as [|v0 [|v1 [|]]]; rewrite ?zlen_cons in Hz; try (change (zlen []) with 0 in Hz; lia); [by exists v0, v1|]. match goal with H : context [zlen ?l] |- _ => pose proof (zlen_nonneg l) end. lia. }
  destruct Hd as (v0 & v1 & Ed). assert (Ew : w = body ++ [v0; v1]) by (unfold body; rewrite <- (take_drop (Z.to_nat (zlen w - 2)) w) at 1; by rewrite Ed). clearbody body. subst w. rewrite <- app_assoc in *.
  destruct (verify_ok dual tri st false addr body v0 v1 sum Hst Hb Hs Hl) as (st' & _ & E). exists st', (v0 + 256 * v1), (negb (v0 + 256 * v1 <=? RDB_VERSION)). rewrite E, (proj2 (Z.eqb_neq (le_val sum) 0)) by done. by rewrite negb_involutive.
Qed.

(** C24: Corruption of a payload that carries a checksum is noticed: when up to 8
    consecutive bytes before the checksum are changed, or when the checksum is
    replaced by another one that is not zero, the check refuses the payload. *)
Theorem dump_corruption_detected dual tri st st' addr ver a x y b sum sum' :
  crc64_reach dual tri st -> Forall is_byte (a ++ x ++ b) -> Forall is_byte y -> Forall is_byte sum -> Forall is_byte sum' -> zlen sum = 8 -> zlen sum' = 8 -> 2 <= zlen (a ++ x ++ b) < 2 ^ 63 ->
  le_val sum <> 0 -> verifyDumpPayload st false addr ((a ++ x ++ b) ++ sum) = Some (true, ver, st') ->
  (length x = length y -> (length x <= 8)%nat -> x <> y -> exists ver' st'', verifyDumpPayload st false addr ((a ++ y ++ b) ++ sum) = Some (false, ver', st'')) /\
  (le_val sum' <> 0 -> sum' <> sum -> exists ver' st'', verifyDumpPayload st false addr ((a ++ x ++ b) ++ sum') = Some (false, ver', st'')).
Proof.
  intros Hst Hp Hy Hs Hs' Hz Hz' Hw Hne E. destruct (verify_split dual tri st addr (a ++ x ++ b) sum Hst) as (st1 & v1 & n1 & E1); [by apply list.Forall_app|done|lia|rewrite zlen_app; lia|done|].
  assert (Hcrc : crc_of 0 (a ++ x ++ b) = le_val sum).
  { rewrite E in E1. injection E1 as E1 _ _. symmetry in E1. apply andb_true_iff in E1 as [_ E1%Z.eqb_eq]. done. }
  split.
  - intros Hlen H8 Hxy. assert (Hp' : Forall is_byte (a ++ y ++ b)) by (rewrite !list.Forall_app in *; tauto). assert (Hzy : zlen (a ++ y ++ b) = zlen (a ++ x ++ b)) by (rewrite !zlen_app; unfold zlen; rewrite Hlen; lia).
    destruct (verify_split dual tri st addr (a ++ y ++ b) sum Hst) as (st2 & v2 & n2 & E2); [by apply list.Forall_app|done|lia|rewrite zlen_app; lia|done|]. exists v2, st2. rewrite E2. do 3 f_equal. apply andb_false_iff. right. apply Z.eqb_neq.
    intros Hc. apply Hxy. apply (crc_of_burst 0 a x y b); [lia|done..|congruence].
  - intros Hne' Hneq. destruct (verify_split dual tri st addr (a ++ x ++ b) sum' Hst) as (st2 & v2 & n2 & E2); [by apply list.Forall_app|done|lia|rewrite zlen_app; lia|done|]. exists v2, st2. rewrite E2. do 3 f_equal. apply andb_false_iff. right. apply Z.eqb_neq.
    intros Hc. apply Hneq. apply le_val_inj8; [done|done|unfold zlen in *; lia|congruence].
Qed.

Lemma dump_corruption_detected_witness : let sum := le_bytes 8 (crc_of 0 [0; 192; 5; 15; 0]) in
  (exists ver' st'', verifyDumpPayload crc64_sample false 0 (([0] ++ [192; 6] ++ [15; 0]) ++ sum) = Some (false, ver', st'')) /\
  (exists ver' st'', verifyDumpPayload crc64_sample false 0 (([0] ++ [192; 5] ++ [15; 0]) ++ [1; 0; 0; 0; 0; 0; 0; 0]) = Some (false, ver', st'')).
Proof.
  destruct (dump_corruption_detected 16 48 crc64_sample crc64_sample 0 15 [0] [192; 5] [192; 6] [15; 0] (le_bytes 8 (crc_of 0 [0; 192; 5; 15; 0])) [1; 0; 0; 0; 0; 0; 0; 0]) as [H1 H2];
    [by apply reach_init, crc64_sample_init|repeat constructor; unfold is_byte; lia|repeat constructor; unfold is_byte; lia|apply le_bytes_is_byte|repeat constructor; unfold is_byte; lia|done|done|by vm_compute|by vm_compute|by vm_compute|].
  split; [apply H1; [done|cbn; lia|congruence]|apply H2; [by vm_compute|intros E; vm_compute in E; discriminate E]].
Defined.
