(* ===== verification/RdbFile.v ===== *)
(** * RDB files (src/rdb.c)

    [rdbSaveRio] writes the header, the auxiliary fields, the keys of every
    database with their expiration and usage, and a checksum;
    [rdbLoadRioWithLoadingCtxInternal] reads such a file record by record.
    Modelled for a server without cluster mode, modules, function libraries and
    hash templates: a record of one of these ends the load ([RDB_FOREIGN]), where the
    server would load it.  The values are those of the interface [rdb_objects]. *)

From Stdlib Require Import Strings.Ascii Strings.String.
From stdpp Require Import base list gmap numbers option tactics.
From S2P Require Import Prelude Util SdsArgs Bitops Crc Rio Rdb RdbObj.

#[local] Open Scope Z_scope.

Definition RDB_OPCODE_HASH_TEMPLATE : Z := 242.
Definition RDB_OPCODE_SLOT_INFO : Z := 244.
Definition RDB_OPCODE_FUNCTION2 : Z := 245.
Definition RDB_OPCODE_FUNCTION_PRE_GA : Z := 246.
Definition RDB_OPCODE_MODULE_AUX : Z := 247.
Definition RDB_OPCODE_IDLE : Z := 248.
Definition RDB_OPCODE_FREQ : Z := 249.
Definition RDB_OPCODE_AUX : Z := 250.
Definition RDB_OPCODE_RESIZEDB : Z := 251.
Definition RDB_OPCODE_EXPIRETIME_MS : Z := 252.
Definition RDB_OPCODE_EXPIRETIME : Z := 253.
Definition RDB_OPCODE_SELECTDB : Z := 254.
Definition RDB_OPCODE_EOF : Z := 255.

(** The bytes of a literal. *)
Definition txt (s : string) : list Z := (fun a => Z.of_N (N_of_ascii a)) <$> list_ascii_of_string s.

(** *** [strtoll] in base 10 and [atoi] of the C library *)

Definition strtoll10 (s : list Z) : Z :=
  let p := skip_space s in
  let '(neg, p) := match p with
    | c :: p' => if c =? ch_minus then (true, p') else if c =? 43 then (false, p') else (false, p)
    | [] => (false, p) end in
  let v := dec_value (take_digits p).1 in
  if neg : bool then Z.max INT64_MIN (- v) else Z.min INT64_MAX v.

Definition atoi (s : list Z) : Z := s32 (strtoll10 s).

(** A key of a database: its value, the expiration in milliseconds or -1, and what is
    recorded of its usage (the idle time in seconds, the access frequency; -1 when unknown). *)
Record kv (V : Type) := { kv_val : V; kv_expire : Z; kv_idle : Z; kv_freq : Z }.
Arguments kv_val {V}.
Arguments kv_expire {V}.
Arguments kv_idle {V}.
Arguments kv_freq {V}.
Arguments Build_kv {V}.

(** [rdbSaveInfo] *)
Record rdbSaveInfo := { repl_stream_db : Z; repl_id_is_set : bool; repl_id : list Z; repl_offset : Z }.

Definition CONFIG_RUN_ID_SIZE : Z := 40.
Definition REDIS_VERSION : list Z := txt "8.10.1".

(** The checksum function of a stream, in a state of the checksum module. *)
Definition rioGenericUpdateChecksum (st : crc64_state) (cksum : Z) (buf : list Z) : Z := default 0 (fst <$> crc64 st 0 cksum buf).

(** [rdb->update_cksum = f] and [rdb->max_processing_chunk = n] *)
Definition set_update_cksum {S} (r : rio S) (f : Z -> list Z -> Z) : rio S :=
  {| r_io := r_io r; r_update_cksum := Some f; r_cksum := r_cksum r; r_read_error := r_read_error r; r_write_error := r_write_error r;
     r_processed_bytes := r_processed_bytes r; r_max_processing_chunk := r_max_processing_chunk r |}.
Definition set_max_chunk {S} (r : rio S) (n : Z) : rio S :=
  {| r_io := r_io r; r_update_cksum := r_update_cksum r; r_cksum := r_cksum r; r_read_error := r_read_error r; r_write_error := r_write_error r;
     r_processed_bytes := r_processed_bytes r; r_max_processing_chunk := n |}.

Section File.
Context {S V : Type} `{!rio_io S} `{!rdb_objects S V}.

(** ** Saving *)

Section Save.
(** [server.rdb_compression], what the compressor and new blocks hold, the policy flags
    that make usage be saved, and the state of the checksum module. *)
Context (rdb_compression : bool) (base : Z) (junk : Z -> Z) (heap : nat -> Z) (savelru savelfu : bool) (crc_st : crc64_state).

Local Abbreviation save_raw := (rdbSaveRawString (S := S) rdb_compression base junk heap).

(** A function that reports another number than that of the bytes, and one that does nothing. *)
Definition returns (n : Z) (f : saver (S := S)) : saver := fun rdb => '(x, rdb) ← f rdb; Some (_ ← x; Some n, rdb).
Definition save_nothing : saver (S := S) := fun rdb => Some (Some 0, rdb).
Definition save_if (b : bool) (f : saver (S := S)) : saver := if b then f else save_nothing.

Definition rdbSaveKeyValuePair (key : list Z) (o : kv V) : saver :=
  returns 1
    (then_save (save_if (negb (kv_expire o =? -1)) (then_save (rdbSaveType RDB_OPCODE_EXPIRETIME_MS) (rdbSaveMillisecondTime (kv_expire o))))
    (then_save (save_if savelru (then_save (rdbSaveType RDB_OPCODE_IDLE) (rdbSaveLen (kv_idle o))))
    (then_save (save_if savelfu (then_save (rdbSaveType RDB_OPCODE_FREQ) (rdbWriteRaw [kv_freq o])))
    (then_save (rdbSaveObjectType (kv_val o))
    (then_save (save_raw key) (rdbSaveObject rdb_compression (kv_val o))))))).

Definition rdbSaveAuxField (key val : list Z) : saver :=
  then_save (rdbSaveType RDB_OPCODE_AUX) (then_save (save_raw key) (save_raw val)).

Definition rdbSaveAuxFieldStrStr (key val : list Z) : saver := rdbSaveAuxField (c_str key) (c_str val).

Definition rdbSaveAuxFieldStrInt (key : list Z) (val : Z) : saver := fun rdb => buf ← int_text val; rdbSaveAuxField (c_str key) buf rdb.

(** [ctime] and [used_mem] are the clock and the memory in use; [rsi] has the fields of
    the replication state, with [server.replid] and [server.master_repl_offset]. *)
Definition rdbSaveInfoAuxFields (ctime used_mem : Z) (aof_preamble : bool) (rsi : option rdbSaveInfo) : saver :=
  returns 1
    (then_save (rdbSaveAuxFieldStrStr (txt "redis-ver") REDIS_VERSION)
    (then_save (rdbSaveAuxFieldStrInt (txt "redis-bits") 64)
    (then_save (rdbSaveAuxFieldStrInt (txt "ctime") ctime)
    (then_save (rdbSaveAuxFieldStrInt (txt "used-mem") used_mem)
    (then_save (match rsi with
                | None => save_nothing
                | Some rsi => then_save (rdbSaveAuxFieldStrInt (txt "repl-stream-db") (repl_stream_db rsi))
                    (then_save (rdbSaveAuxFieldStrStr (txt "repl-id") (repl_id rsi)) (rdbSaveAuxFieldStrInt (txt "repl-offset") (repl_offset rsi)))
                end)
      (rdbSaveAuxFieldStrInt (txt "aof-base") (if aof_preamble then 1 else 0))))))).

Fixpoint save_keys (keys : list (list Z * kv V)) : saver :=
  match keys with
  | [] => save_nothing
  | (key, o) :: keys => then_save (rdbSaveKeyValuePair key o) (save_keys keys)
  end.

(** A database is the sequence of its keys in the order of the iterator; the number of
    keys that expire is the size of [db->expires]. *)
Definition rdbSaveDb (dbid : Z) (keys : list (list Z * kv V)) : saver :=
  if zlen keys =? 0 then save_nothing
  else then_save (rdbSaveType RDB_OPCODE_SELECTDB) (then_save (rdbSaveLen dbid)
       (then_save (rdbSaveType RDB_OPCODE_RESIZEDB) (then_save (rdbSaveLen (zlen keys))
       (then_save (rdbSaveLen (zlen (filter (fun x => kv_expire x.2 <> -1) keys))) (save_keys keys))))).

Fixpoint save_dbs (j : Z) (dbs : list (list (list Z * kv V))) : saver :=
  match dbs with
  | [] => save_nothing
  | db :: dbs => then_save (rdbSaveDb j db) (save_dbs (j + 1) dbs)
  end.

(** [C_OK] or not, and the stream. *)
Definition rdbSaveRio (rdb_checksum exclude_data : bool) (ctime used_mem : Z) (aof_preamble : bool) (rsi : option rdbSaveInfo) (dbs : list (list (list Z * kv V))) (rdb : rio S) : option (bool * rio S) :=
  let rdb := if rdb_checksum then set_update_cksum rdb (rioGenericUpdateChecksum crc_st) else rdb in
  '(n, rdb) ← then_save (rdbWriteRaw (txt "REDIS0015"))
              (then_save (rdbSaveInfoAuxFields ctime used_mem aof_preamble rsi)
              (then_save (save_if (negb exclude_data) (save_dbs 0 dbs)) (rdbSaveType RDB_OPCODE_EOF))) (Some rdb);
  rdb ← rdb;
  match n with
  | None => Some (false, rdb)
  | Some _ => rioWrite rdb (le_bytes 8 (r_cksum rdb))
  end.
End Save.

(** ** Loading *)

Section Load.
(** Allocation, the number of databases, [iAmMaster()], the flags, the clock, and whether
    the caller passed [rsi]. *)
Context (can_alloc : Z -> bool) (dbnum : Z) (master aof_preamble allow_dup : bool) (now : Z) (has_rsi : bool).

Record load_state := {
  l_dbid : Z;
  l_dbs : gmap Z (gmap (list Z) (kv V));
  l_expire : Z; l_freq : Z; l_idle : Z;
  l_rsi : rdbSaveInfo;
  l_used_mem : Z;
  l_loaded : Z; l_expired : Z; l_empty : Z }.

Definition load_init (dbs : gmap Z (gmap (list Z) (kv V))) : load_state :=
  {| l_dbid := 0; l_dbs := dbs; l_expire := -1; l_freq := -1; l_idle := -1;
     l_rsi := {| repl_stream_db := -1; repl_id_is_set := false; repl_id := replicate 40 48; repl_offset := -1 |};
     l_used_mem := 0; l_loaded := 0; l_expired := 0; l_empty := 0 |}.

Definition with_attrs (st : load_state) (expire freq idle : Z) : load_state :=
  {| l_dbid := l_dbid st; l_dbs := l_dbs st; l_expire := expire; l_freq := freq; l_idle := idle; l_rsi := l_rsi st; l_used_mem := l_used_mem st; l_loaded := l_loaded st; l_expired := l_expired st; l_empty := l_empty st |}.
Definition with_dbid (st : load_state) (dbid : Z) : load_state :=
  {| l_dbid := dbid; l_dbs := l_dbs st; l_expire := l_expire st; l_freq := l_freq st; l_idle := l_idle st; l_rsi := l_rsi st; l_used_mem := l_used_mem st; l_loaded := l_loaded st; l_expired := l_expired st; l_empty := l_empty st |}.
Definition with_rsi (st : load_state) (rsi : rdbSaveInfo) : load_state :=
  {| l_dbid := l_dbid st; l_dbs := l_dbs st; l_expire := l_expire st; l_freq := l_freq st; l_idle := l_idle st; l_rsi := rsi; l_used_mem := l_used_mem st; l_loaded := l_loaded st; l_expired := l_expired st; l_empty := l_empty st |}.
Definition with_used_mem (st : load_state) (m : Z) : load_state :=
  {| l_dbid := l_dbid st; l_dbs := l_dbs st; l_expire := l_expire st; l_freq := l_freq st; l_idle := l_idle st; l_rsi := l_rsi st; l_used_mem := m; l_loaded := l_loaded st; l_expired := l_expired st; l_empty := l_empty st |}.
(** After a key: the databases and counters, the attributes of the key reset. *)
Definition next_key (st : load_state) (dbs : gmap Z (gmap (list Z) (kv V))) (loaded expired empty : Z) : load_state :=
  {| l_dbid := l_dbid st; l_dbs := dbs; l_expire := -1; l_freq := -1; l_idle := -1; l_rsi := l_rsi st; l_used_mem := l_used_mem st; l_loaded := l_loaded st + loaded; l_expired := l_expired st + expired; l_empty := l_empty st + empty |}.

(** What ends the process: [exit(1)], [serverPanic], or a record for another part. *)
Inductive fatal := RDB_EXIT | RDB_PANIC | RDB_FOREIGN.
Inductive load_step_result := Next (st : load_state) | Done (st : load_state) | Fatal (f : fatal).

#[local] Notation "x <- m ;; f" := (load_bind m (fun x => f)) (at level 80, m at level 70, f at level 80, right associativity).

Definition rdbLoadTime : loader (S := S) Z := b <- load_bytes 4 ;; load_ret (s32 (le_val b)).

(** The string of an object that is not encoded. *)
Definition load_sds (flag : load_flag) : loader (S := S) (list Z) := fun r =>
  '(x, r) ← rdbGenericLoadStringObject can_alloc flag r;
  match x with
  | inl e => Some (inl e, r)
  | inr (SdsEncoded s) => Some (inr s, r)
  | inr _ => None
  end.

(** Keys and values of auxiliary fields are C strings; [%] marks information for the log. *)
Definition load_aux (st : load_state) (auxkey auxval : list Z) : load_state :=
  let key := c_str auxkey in
  let val := c_str auxval in
  let rsi := l_rsi st in
  if bool_decide (head key = Some 37) then st
  else if strcaseeq key (txt "repl-stream-db") then
    if has_rsi then with_rsi st {| repl_stream_db := atoi val; repl_id_is_set := repl_id_is_set rsi; repl_id := repl_id rsi; repl_offset := repl_offset rsi |} else st
  else if strcaseeq key (txt "repl-id") then
    if has_rsi && (zlen auxval =? CONFIG_RUN_ID_SIZE) then with_rsi st {| repl_stream_db := repl_stream_db rsi; repl_id_is_set := true; repl_id := auxval; repl_offset := repl_offset rsi |} else st
  else if strcaseeq key (txt "repl-offset") then
    if has_rsi then with_rsi st {| repl_stream_db := repl_stream_db rsi; repl_id_is_set := repl_id_is_set rsi; repl_id := repl_id rsi; repl_offset := strtoll10 val |} else st
  else if strcaseeq key (txt "used-mem") then with_used_mem st (strtoll10 val)
  else st.

(** [dbAddRDBLoad], with the databases as maps. *)
Definition db_add (dbs : gmap Z (gmap (list Z) (kv V))) (dbid : Z) (key : list Z) (o : kv V) : gmap Z (gmap (list Z) (kv V)) :=
  <[dbid := <[key := o]> (default ∅ (dbs !! dbid))]> dbs.

(** A key whose value was loaded, or an empty one. *)
Definition add_key (st : load_state) (key : list Z) (val : option V) : load_step_result :=
  match val with
  | None => Next (next_key st (l_dbs st) 0 0 1)
  | Some v =>
      if master && negb aof_preamble && negb (l_expire st =? -1) && (l_expire st <? now) then Next (next_key st (l_dbs st) 0 1 0)
      else
        let o := {| kv_val := v; kv_expire := l_expire st; kv_idle := l_idle st; kv_freq := l_freq st |} in
        match default ∅ (l_dbs st !! l_dbid st) !! key with
        | Some _ => if allow_dup then Next (next_key st (db_add (l_dbs st) (l_dbid st) key o) 1 0 0) else Fatal RDB_PANIC
        | None => Next (next_key st (db_add (l_dbs st) (l_dbid st) key o) 1 0 0)
        end
  end.

(** One round of the loop.  The size hints of [RESIZEDB] change no key. *)
Definition load_step (st : load_state) : loader (S := S) load_step_result :=
  type <- rdbLoadType ;;
  if type =? RDB_OPCODE_EXPIRETIME then t <- rdbLoadTime ;; load_ret (Next (with_attrs st (t * 1000) (l_freq st) (l_idle st)))
  else if type =? RDB_OPCODE_EXPIRETIME_MS then t <- rdbLoadMillisecondTime ;; load_ret (Next (with_attrs st t (l_freq st) (l_idle st)))
  else if type =? RDB_OPCODE_FREQ then b <- load_byte ;; load_ret (Next (with_attrs st (l_expire st) b (l_idle st)))
  else if type =? RDB_OPCODE_IDLE then x <- rdbLoadLen ;; load_ret (Next (with_attrs st (l_expire st) (l_freq st) (s64 x.2)))
  else if type =? RDB_OPCODE_EOF then load_ret (Done st)
  else if type =? RDB_OPCODE_SELECTDB then
    x <- rdbLoadLen ;; load_ret (if x.2 >=? dbnum then Fatal RDB_EXIT else Next (with_dbid st x.2))
  else if type =? RDB_OPCODE_RESIZEDB then x <- rdbLoadLen ;; y <- rdbLoadLen ;; load_ret (Next st)
  else if type =? RDB_OPCODE_SLOT_INFO then x <- rdbLoadLen ;; y <- rdbLoadLen ;; z <- rdbLoadLen ;; load_ret (Next st)
  else if type =? RDB_OPCODE_AUX then
    auxkey <- load_sds LOAD_NONE ;; auxval <- load_sds LOAD_NONE ;; load_ret (Next (load_aux st auxkey auxval))
  else if type =? RDB_OPCODE_FUNCTION_PRE_GA then load_ret (Fatal RDB_EXIT)
  else if (type =? RDB_OPCODE_MODULE_AUX) || (type =? RDB_OPCODE_FUNCTION2) || (type =? RDB_OPCODE_HASH_TEMPLATE) || (type =? RDB_OPCODE_KEY_META) then load_ret (Fatal RDB_FOREIGN)
  else
    type <- rdbResolveKeyType type ;;
    key <- load_sds LOAD_SDS ;;
    val <- rdbLoadObject type ;;
    load_ret (add_key st key val).

(** The loop; every round reads at least one byte. *)
Fixpoint load_loop (fuel : nat) (st : load_state) : loader (S := S) (fatal + load_state) :=
  match fuel with
  | O => fun _ => None
  | Datatypes.S fuel =>
      x <- load_step st ;;
      match x with
      | Next st => load_loop fuel st
      | Done st => load_ret (inr st)
      | Fatal f => load_ret (inl f)
      end
  end.

(** [sum]: whether checksums are computed, [check]: whether the stored one is compared. *)
Definition rdbLoadRio (fuel : nat) (crc_st : crc64_state) (sum check : bool) (interval_bytes : Z) (dbs : gmap Z (gmap (list Z) (kv V))) : loader (S := S) (fatal + load_state) := fun rdb =>
  let rdb := set_max_chunk (set_update_cksum rdb (if sum then rioGenericUpdateChecksum crc_st else fun c _ => c)) interval_bytes in
  (buf <- load_bytes 9 ;;
   if negb (bool_decide (take 5 buf = txt "REDIS")) then load_fail CORRUPT_RDB
   else
     let rdbver := atoi (c_str (drop 5 buf)) in
     if (rdbver <? 1) || (rdbver >? RDB_VERSION) then load_fail CORRUPT_RDB
     else
       x <- load_loop fuel (load_init dbs) ;;
       match x with
       | inl f => load_ret (inl f)
       | inr st =>
           if rdbver >=? 5 then fun rdb =>
             let expected := r_cksum rdb in
             (b <- load_bytes 8 ;;
              if sum && check then
                let cksum := le_val b in
                if cksum =? 0 then load_ret (inr st)
                else if negb (cksum =? expected) then load_fail CORRUPT_RDB
                else load_ret (inr st)
              else load_ret (inr st)) rdb
           else load_ret (inr st)
       end) rdb.
End Load.
End File.
