(* ===== verification/RdbFileThms.v ===== *)
(** * RDB files: the records one by one

    [emits f bs]: saving appends [bs], or stops at an error of the stream.
    [goes st bs st']: the loading loop takes the bytes [bs] from [st] to [st']. *)

From Stdlib Require Import Strings.String.
From stdpp Require Import base list gmap numbers option tactics.
From S2P Require Import Prelude Util Lzf LzfSpec SdsArgs Bitops BitopsSpec BitopsThms Crc CrcThms Rio Rdb RdbThms RdbObj DumpThms RdbFile.

#[local] Ltac Zify.zify_post_hook ::= Z.to_euclidean_division_equations.

(** ** Saving in sequence *)

Section Emits.
Context {S : Type} `{!rio_io S} `{!rio_stream S}.

Definition emits (f : saver (S := S)) (bs : list Z) : Prop := Forall is_byte bs /\ forall r, rio_fine r -> r_write_error r = false ->
  exists ok n r', f (Some r) = Some (if ok : bool then Some n else None, Some r') /\ wrote bs r ok r' /\ (rio_reliable S -> ok = true).

Lemma writes_emits f bs : Forall is_byte bs -> writes f bs -> emits f bs.
Proof. intros Hb [_ H]. split; [done|]. intros r Hr He. destruct (H r Hr) as (ok & r' & E & Hw & Hrel). exists ok, (zlen bs), r'. split_and!; [done|done|]. intros Hs. by apply Hrel. Qed.

Lemma emits_then f g a b : emits f a -> emits g b -> emits (then_save f g) (a ++ b).
Proof.
  intros [Hf F] [Hg G]. split; [by apply list.Forall_app|]. intros r Hr He. unfold then_save. destruct (F r Hr He) as (ok & n & r1 & -> & Hw & Hrel). cbn [mbind option_bind]. destruct ok.
  - destruct (G r1 (proj1 Hw) (proj1 (proj2 Hw))) as (ok & m & r2 & -> & Hw2 & Hrel2). exists ok, (n + m), r2. cbn [mbind option_bind]. split_and!; [by destruct ok|by eapply wrote_app|done].
  - exists false, 0, r1. split_and!; [done|by apply wrote_fail|done].
Qed.

Lemma emits_returns k f bs : emits f bs -> emits (returns k f) bs.
Proof. intros [Hf F]. split; [done|]. intros r Hr He. unfold returns. destruct (F r Hr He) as (ok & n & r1 & -> & Hw & Hrel). exists ok, k, r1. cbn [mbind option_bind]. split_and!; [by destruct ok|done|done]. Qed.

Lemma emits_nothing : emits save_nothing [].
Proof. split; [constructor|]. intros r Hr He. exists true, 0, r. split_and!; [done| |done]. split_and!; [done|done|]. exists [], []. split_and!; [done|by rewrite app_nil_r|]. intros _. split; [done|apply summed_nil]. Qed.

Lemma emits_if b f bs : (b = true -> emits f bs) -> emits (save_if b f) (if b then bs else []).
Proof. intros H. destruct b; [by apply H|apply emits_nothing]. Qed.

Lemma emits_ext f g bs : (forall rdb, f rdb = g rdb) -> emits g bs -> emits f bs.
Proof. intros E [Hb H]. split; [done|]. intros r Hr He. rewrite E. by apply H. Qed.

Lemma emits_raw bs : Forall is_byte bs -> emits (rdbWriteRaw bs) bs.
Proof. intros Hb. by apply writes_emits; [|apply writes_raw]. Qed.

Lemma emits_type t : is_byte t -> emits (rdbSaveType t) [t].
Proof. intros Ht. apply emits_raw. by constructor. Qed.

Lemma emits_len len : 0 <= len -> emits (rdbSaveLen len) (enc_len len).
Proof. intros H. by apply writes_emits; [apply (enc_len_stored _ H)|apply rdbSaveLen_ok]. Qed.
End Emits.

(** ** The loop *)

Section Goes.
Context {S V : Type} `{!rio_io S} `{!rio_stream S} `{!rdb_objects S V}.
Context (can_alloc : Z -> bool) (dbnum : Z) (master aof_preamble allow_dup : bool) (now : Z) (has_rsi : bool).

Local Abbreviation step := (load_step (S := S) (V := V) can_alloc dbnum master aof_preamble allow_dup now has_rsi).
Local Abbreviation loop := (load_loop (S := S) (V := V) can_alloc dbnum master aof_preamble allow_dup now has_rsi).

Definition runs (st : load_state) (bs : list Z) (st' : load_state) : Prop :=
  forall r rest fuel, rio_fine r -> r_read_error r = false -> unread (r_io r) = bs ++ rest -> (length bs <= fuel)%nat ->
    exists r', loop fuel st r = Some (inr (inr st'), r') /\ consumed r bs rest r'.

Definition goes (st : load_state) (bs : list Z) (st' : load_state) : Prop := forall b x, runs st' b x -> runs st (bs ++ b) x.

Lemma goes_nil st : goes st [] st.
Proof. by intros b x H. Qed.

Lemma goes_trans st1 st2 st3 a b : goes st1 a st2 -> goes st2 b st3 -> goes st1 (a ++ b) st3.
Proof. intros H1 H2 c x Hx. rewrite <- app_assoc. by apply H1, H2. Qed.

Lemma goes_step st a st' : a <> [] -> loads (step st) a (Next st') -> goes st a st'.
Proof.
  intros Ha Hs b x Hb r rest fuel Hr He Hu Hf. rewrite length_app in Hf. destruct fuel as [|fuel]; [destruct a; [done|cbn in Hf; lia]|]. rewrite <- app_assoc in Hu.
  destruct (Hs r (b ++ rest) Hr He Hu) as (r1 & E1 & Hu1 & He1 & Hr1 & Hs1). cbn [load_loop]. unfold load_bind. rewrite E1. cbn [mbind option_bind].
  destruct (Hb r1 rest fuel Hr1 He1 Hu1) as (r2 & -> & Hu2 & He2 & Hr2 & Hs2); [destruct a; [done|cbn in Hf; lia]|]. exists r2. split; [done|]. split_and!; [done|done|done|by eapply summed_trans].
Qed.

Lemma runs_eof st : runs st [RDB_OPCODE_EOF] st.
Proof.
  intros r rest fuel Hr He Hu Hf. destruct fuel as [|fuel]; [cbn in Hf; lia|]. assert (Hl : loads (step st) [RDB_OPCODE_EOF] (Done st)) by (eapply loads_bind_nil; [apply loads_byte|apply loads_ret]).
  destruct (Hl r rest Hr He Hu) as (r1 & E1 & Hc). cbn [load_loop]. unfold load_bind. rewrite E1. cbn [mbind option_bind]. by exists r1.
Qed.

(** ** The records before a key *)

Lemma goes_expire st v : is_s 64 v -> goes st ([RDB_OPCODE_EXPIRETIME_MS] ++ le_bytes 8 v) (with_attrs st v (l_freq st) (l_idle st)).
Proof.
  intros Hv. apply goes_step; [done|]. eapply loads_bind; [apply loads_byte|]. eapply loads_bind_nil; [eapply loads_bind_nil; [apply loads_bytes; by rewrite zlen_le_bytes|apply loads_ret]|].
  cbv beta. rewrite le_val_bytes. change (8 * Z.of_nat 8) with 64. rewrite wraps_wrapu, wraps_id by (lia || done). apply loads_ret.
Qed.

Lemma goes_idle st v : 0 <= v < 2 ^ 63 -> goes st ([RDB_OPCODE_IDLE] ++ enc_len v) (with_attrs st (l_expire st) (l_freq st) v).
Proof.
  intros Hv. apply goes_step; [done|]. eapply loads_bind; [apply loads_byte|]. eapply loads_bind_nil; [apply rdbLoadLen_ok; change RDB_LENERR with (2 ^ 64 - 1); lia|]. cbn [snd]. rewrite wraps_id by (lia || (unfold is_s; cbn; lia)). apply loads_ret.
Qed.

Lemma goes_freq st v : goes st ([RDB_OPCODE_FREQ] ++ [v]) (with_attrs st (l_expire st) v (l_idle st)).
Proof. apply goes_step; [done|]. eapply loads_bind; [apply loads_byte|]. eapply loads_bind_nil; [apply loads_byte|]. apply loads_ret. Qed.

Lemma goes_select st v : 0 <= v < dbnum -> v < RDB_LENERR -> goes st ([RDB_OPCODE_SELECTDB] ++ enc_len v) (with_dbid st v).
Proof.
  intros Hv Hl. apply goes_step; [done|]. eapply loads_bind; [apply loads_byte|]. eapply loads_bind_nil; [apply rdbLoadLen_ok; lia|]. cbn [snd]. rewrite Z.geb_leb, (proj2 (Z.leb_gt dbnum v)) by lia. apply loads_ret.
Qed.

Lemma goes_resize st a b : 0 <= a < RDB_LENERR -> 0 <= b < RDB_LENERR -> goes st ([RDB_OPCODE_RESIZEDB] ++ enc_len a ++ enc_len b) st.
Proof.
  intros Ha Hb. apply goes_step; [done|]. eapply loads_bind; [apply loads_byte|]. eapply loads_bind; [by apply rdbLoadLen_ok|]. eapply loads_bind_nil; [by apply rdbLoadLen_ok|]. apply loads_ret.
Qed.

(** ** Strings in records *)

Lemma loads_sds flag bs s : loads (rdbGenericLoadStringObject can_alloc flag) bs (SdsEncoded s) -> loads (load_sds can_alloc flag) bs s.
Proof. intros H r rest Hr He Hu. destruct (H r rest Hr He Hu) as (r' & E & Hc). unfold load_sds. rewrite E. cbn [mbind option_bind]. by exists r'. Qed.

Lemma goes_aux st kb vb key val : loads (load_sds can_alloc LOAD_NONE) kb key -> loads (load_sds can_alloc LOAD_NONE) vb val -> goes st ([RDB_OPCODE_AUX] ++ kb ++ vb) (load_aux has_rsi st key val).
Proof. intros Hk Hv. apply goes_step; [done|]. eapply loads_bind; [apply loads_byte|]. eapply loads_bind; [done|]. eapply loads_bind_nil; [done|]. apply loads_ret. Qed.

Lemma goes_key st t kb vb key v st' : rdbIsObjectType t = true -> loads (load_sds can_alloc LOAD_SDS) kb key -> loads (rdbLoadObject t) vb v ->
  add_key master aof_preamble allow_dup now st key v = Next st' -> goes st ([t] ++ kb ++ vb) st'.
Proof.
  intros Ht Hk Hv E. apply goes_step; [done|]. eapply loads_bind; [apply loads_byte|].
  assert (Hr : 0 <= t <= 32) by (unfold rdbIsObjectType in Ht; rewrite orb_true_iff, !andb_true_iff, !Z.geb_leb, !Z.leb_le in Ht; lia). cbv beta.
  repeat match goal with |- context [t =? ?c] => rewrite (proj2 (Z.eqb_neq t c)) by (unfold RDB_OPCODE_EXPIRETIME, RDB_OPCODE_EXPIRETIME_MS, RDB_OPCODE_FREQ, RDB_OPCODE_IDLE, RDB_OPCODE_EOF, RDB_OPCODE_SELECTDB, RDB_OPCODE_RESIZEDB, RDB_OPCODE_SLOT_INFO, RDB_OPCODE_AUX, RDB_OPCODE_FUNCTION_PRE_GA, RDB_OPCODE_MODULE_AUX, RDB_OPCODE_FUNCTION2, RDB_OPCODE_HASH_TEMPLATE, RDB_OPCODE_KEY_META; lia) end.
  cbn [orb]. apply (loads_bind _ _ [] (kb ++ vb) t).
  { unfold rdbResolveKeyType. rewrite (proj2 (Z.eqb_neq t RDB_OPCODE_KEY_META)) by (unfold RDB_OPCODE_KEY_META; lia). rewrite Ht. apply loads_ret. }
  eapply loads_bind; [done|]. eapply loads_bind_nil; [done|]. rewrite E. apply loads_ret.
Qed.
End Goes.

(** * RDB files: what is saved is loaded, and any file is handled *)

#[local] Open Scope Z_scope.

(** ** Numbers as text *)

Lemma decimal_digits v : Forall digit_char (decimal v).
Proof. apply dec_pad_digits. Qed.

Lemma strtoll10_text v : is_s 64 v -> strtoll10 (ll_text v) = v.
Proof.
  intros [H1 H2]. cbn in H1, H2. assert (Hval : forall u, 0 <= u < 2 ^ 64 -> dec_value (take_digits (decimal u)).1 = u).
  { intros u Hu. rewrite <- (app_nil_r (decimal u)), take_digits_app by (apply decimal_digits || done). cbn [fst]. by apply decimal_value. }
  unfold ll_text, strtoll10. destruct (Z.ltb_spec v 0).
  - change (skip_space (ch_minus :: ?d)) with (ch_minus :: d). cbv iota beta. change (ch_minus =? ch_minus) with true. cbv iota beta. rewrite Hval by lia. unfold INT64_MIN. lia.
  - assert (Hd : exists c ds, decimal v = c :: ds /\ ch_0 <= c <= ch_9).
    { destruct (decide (v = 0)) as [->|]; [by exists 48, []|]. destruct (decimal_lead v ltac:(lia)) as (c & ds & E & Hc & _). exists c, ds. split; [done|lia]. }
    destruct Hd as (c & ds & E & Hc). rewrite E, skip_space_digit by done. unfold ch_0, ch_9, ch_minus in *. rewrite (proj2 (Z.eqb_neq c 45)), (proj2 (Z.eqb_neq c 43)) by lia. rewrite <- E, Hval by lia. unfold INT64_MAX. lia.
Qed.

Lemma c_str_text v : c_str (ll_text v) = ll_text v.
Proof.
  apply c_str_id. assert (Hd : forall u, Forall (fun c => c <> 0) (decimal u)) by (intros u; eapply list.Forall_impl; [apply decimal_digits|]; unfold ch_0, ch_9; cbn; lia).
  unfold ll_text. destruct (v <? 0); [constructor; [done|apply Hd]|apply Hd].
Qed.

(** Strings a file can hold. *)
Definition str_ok (s : list Z) : Prop := Forall is_byte s /\ zlen s < 2 ^ 32.

Section File.
Context {S V : Type} `{!rio_io S} `{!rio_stream S} `{!rdb_objects S V} `{!rdb_codec S V}.
Context (rdb_compression : bool) (base : Z) (junk : Z -> Z) (heap : nat -> Z) (savelru savelfu : bool) (crc_st : crc64_state).
Context (can_alloc : Z -> bool) (dbnum : Z) (master aof_preamble allow_dup : bool) (now : Z) (has_rsi : bool).
Context (Hbase : 8192 <= base <= 2 ^ 63) (Hjunk : forall i, 0 <= junk i < 2 ^ 64) (Halloc : forall n, 0 <= n < 2 ^ 32 -> can_alloc n = true).

Local Abbreviation save_raw := (rdbSaveRawString (S := S) rdb_compression base junk heap).
Local Abbreviation save_kv := (rdbSaveKeyValuePair (S := S) (V := V) rdb_compression base junk heap savelru savelfu).
Local Abbreviation save_kvs := (save_keys (S := S) (V := V) rdb_compression base junk heap savelru savelfu).
Local Abbreviation go := (goes (S := S) (V := V) can_alloc dbnum master aof_preamble allow_dup now has_rsi).

(** ** Strings *)

Lemma raw_ok s : str_ok s -> exists bs, emits (save_raw s) bs /\ forall flag, flag <> LOAD_ENC -> loads (load_sds (S := S) can_alloc flag) bs s.
Proof.
  intros [Hb Hl]. destruct (save_raw_ok rdb_compression base junk heap can_alloc (proj1 Hbase) Hjunk s Hb Hl) as (bs & Hw & [_ Hst] & H); [lia|intros m Hm; apply Halloc; lia|].
  exists bs. split; [by apply writes_emits|]. intros flag Hf. destruct (H flag) as (o & Hlo & _ & Ho & _). rewrite (Ho Hf) in Hlo. by apply loads_sds.
Qed.

(** ** Keys *)

Definition kv_ok (o : kv V) : Prop := storable (kv_val o) /\ is_s 64 (kv_expire o) /\ 0 <= kv_idle o < 2 ^ 63 /\ is_byte (kv_freq o).

(** What a file keeps of a key. *)
Definition same_kv (o o' : kv V) : Prop :=
  same_object (kv_val o) (kv_val o') /\ kv_expire o' = kv_expire o /\ kv_idle o' = (if savelru then kv_idle o else -1) /\ kv_freq o' = (if savelfu then kv_freq o else -1).

(** Whether a key is dropped because it expired; a replica keeps it. *)
Definition dropped (o : kv V) : bool := master && negb aof_preamble && negb (kv_expire o =? -1) && (kv_expire o <? now).

Definition clean (st : load_state (V := V)) : Prop := l_expire st = -1 /\ l_freq st = -1 /\ l_idle st = -1.

Definition db_of (st : load_state (V := V)) (j : Z) : gmap (list Z) (kv V) := default ∅ (l_dbs st !! j).

(** The attributes before the key. *)
Lemma attrs_go st o : clean st -> kv_ok o -> exists ea eb ec,
  emits (save_if (negb (kv_expire o =? -1)) (then_save (rdbSaveType (S := S) RDB_OPCODE_EXPIRETIME_MS) (rdbSaveMillisecondTime (kv_expire o)))) ea /\
  emits (save_if savelru (then_save (rdbSaveType (S := S) RDB_OPCODE_IDLE) (rdbSaveLen (kv_idle o)))) eb /\
  emits (save_if savelfu (then_save (rdbSaveType (S := S) RDB_OPCODE_FREQ) (rdbWriteRaw [kv_freq o]))) ec /\
  go st (ea ++ eb ++ ec) (with_attrs st (kv_expire o) (if savelfu then kv_freq o else -1) (if savelru then kv_idle o else -1)).
Proof.
  intros (C1 & C2 & C3) (_ & H1 & H2 & H3). eexists _, _, _. split_and!.
  - apply emits_if. intros _. apply emits_then; [by apply emits_type|apply emits_raw, le_bytes_is_byte].
  - apply emits_if. intros _. apply emits_then; [by apply emits_type|apply emits_len; lia].
  - apply emits_if. intros _. apply emits_then; [by apply emits_type|apply emits_raw; by constructor].
  - eapply goes_trans; [|eapply goes_trans].
    + instantiate (1 := with_attrs st (kv_expire o) (l_freq st) (l_idle st)). destruct (Z.eqb_spec (kv_expire o) (-1)) as [E|E]; [|by apply goes_expire].
      cbn [negb]. rewrite E, <- C1. destruct st. apply goes_nil.
    + instantiate (1 := with_attrs st (kv_expire o) (l_freq st) (if savelru then kv_idle o else -1)). destruct savelru; [by apply (goes_idle _ _ _ _ _ _ _ (with_attrs st (kv_expire o) (l_freq st) (l_idle st)))|]. rewrite C3. apply goes_nil.
    + destruct savelfu; [apply (goes_freq _ _ _ _ _ _ _ (with_attrs st (kv_expire o) (l_freq st) (if savelru then kv_idle o else -1)))|]. rewrite C2. apply goes_nil.
Qed.

Lemma add_key_fresh st key v o : l_expire st = kv_expire o -> db_of st (l_dbid st) !! key = None ->
  add_key master aof_preamble allow_dup now st key (Some v) = Next (if dropped o then next_key st (l_dbs st) 0 1 0
    else next_key st (db_add (l_dbs st) (l_dbid st) key {| kv_val := v; kv_expire := l_expire st; kv_idle := l_idle st; kv_freq := l_freq st |}) 1 0 0).
Proof. intros He Hn. unfold add_key, dropped. rewrite He. destruct (_ && _); [done|]. unfold db_of in Hn. by rewrite Hn. Qed.

(** A database stands for the keys that were not dropped. *)
Definition loaded_as (m : gmap (list Z) (kv V)) (l : list (list Z * kv V)) : Prop :=
  (forall k o, (k, o) ∈ l -> dropped o = false -> exists o', m !! k = Some o' /\ same_kv o o') /\
  (forall k o', m !! k = Some o' -> exists o, (k, o) ∈ l /\ dropped o = false /\ same_kv o o').

Lemma loaded_as_fresh m l k : loaded_as m l -> k ∉ l.*1 -> m !! k = None.
Proof. intros [_ H] Hk. destruct (m !! k) as [o'|] eqn:E; [|done]. destruct (H k o' E) as (o & Hin & _). destruct Hk. apply list_elem_of_fmap. by exists (k, o). Qed.

Lemma loaded_as_drop m l k o : loaded_as m l -> dropped o = true -> loaded_as m (l ++ [(k, o)]).
Proof.
  intros [H1 H2] Hd. split.
  - intros k' o' [Hin|Hin]%elem_of_app Hd'; [by apply H1|]. apply list_elem_of_singleton in Hin. simplify_eq. congruence.
  - intros k' o' E. destruct (H2 k' o' E) as (o2 & Hin & Hd2 & Hs). exists o2. split_and!; [apply elem_of_app; by left|done|done].
Qed.

Lemma loaded_as_add m l k o o' : loaded_as m l -> k ∉ l.*1 -> dropped o = false -> same_kv o o' -> loaded_as (<[k := o']> m) (l ++ [(k, o)]).
Proof.
  intros [H1 H2] Hk Hd Hs. split.
  - intros k2 o2 [Hin|Hin]%elem_of_app Hd2.
    + destruct (H1 k2 o2 Hin Hd2) as (o2' & E & Hs2). exists o2'. split; [|done]. rewrite lookup_insert_ne; [done|]. intros ->. apply Hk, list_elem_of_fmap. by exists (k2, o2).
    + apply list_elem_of_singleton in Hin. simplify_eq. exists o'. by rewrite lookup_insert_eq.
  - intros k2 o2 E. destruct (decide (k2 = k)) as [->|Hne].
    + rewrite lookup_insert_eq in E. simplify_eq. exists o. split_and!; [apply elem_of_app; right; by apply list_elem_of_singleton|done|done].
    + rewrite lookup_insert_ne in E by done. destruct (H2 k2 o2 E) as (o3 & Hin & Hd3 & Hs3). exists o3. split_and!; [apply elem_of_app; by left|done|done].
Qed.

(** The state after some keys of database [j]. *)
Definition after_keys (st st' : load_state (V := V)) (j : Z) (l : list (list Z * kv V)) : Prop :=
  clean st' /\ l_dbid st' = j /\ loaded_as (db_of st' j) l /\ (forall i, i <> j -> l_dbs st' !! i = l_dbs st !! i) /\ l_rsi st' = l_rsi st.

Lemma key_go st pre j key o : clean st -> l_dbid st = j -> loaded_as (db_of st j) pre -> key ∉ pre.*1 -> str_ok key -> kv_ok o ->
  exists bs st', emits (save_kv key o) bs /\ go st bs st' /\ after_keys st st' j (pre ++ [(key, o)]).
Proof.
  intros Hc Hj Hpre Hk Hs Ho. destruct (attrs_go st o Hc Ho) as (ea & eb & ec & Ea & Eb & Ec & Hgo). destruct (raw_ok key Hs) as (kb & Hkb & Hkl). destruct Ho as (Hv & _).
  destruct (object_roundtrip rdb_compression (kv_val o) Hv) as (t & vb & Ht & Hwt & Hwv & _ & Hvb & v' & Hlv & Hsame).
  assert (Htb : is_byte t) by (unfold rdbIsObjectType in Ht; unfold is_byte; rewrite orb_true_iff, !andb_true_iff, !Z.geb_leb, !Z.leb_le in Ht; lia).
  set (st1 := with_attrs st _ _ _) in Hgo. pose proof (loaded_as_fresh _ _ _ Hpre Hk) as Hfresh. pose proof (add_key_fresh st1 key v' o eq_refl) as Ea1. cbn [l_dbid st1 with_attrs] in Ea1. unfold db_of in Ea1. cbn [l_dbs st1 with_attrs] in Ea1.
  rewrite Hj in Ea1. specialize (Ea1 Hfresh). eexists (ea ++ eb ++ ec ++ [t] ++ kb ++ vb), _. split; [|split].
  - apply emits_returns. repeat (apply emits_then; [done|]). apply emits_then; [apply writes_emits; [by constructor|done]|]. apply emits_then; [done|by apply writes_emits].
  - replace (ea ++ eb ++ ec ++ [t] ++ kb ++ vb) with ((ea ++ eb ++ ec) ++ [t] ++ kb ++ vb) by by rewrite <- !app_assoc. eapply goes_trans; [exact Hgo|]. eapply goes_key; [done|by apply Hkl|done|exact Ea1].
  - destruct (dropped o) eqn:Ed.
    + split_and!; [done|done| |done|done]. by apply loaded_as_drop.
    + split_and!; [done|done| |intros i Hi; cbn [next_key l_dbs]; unfold db_add; by rewrite lookup_insert_ne|done].
      unfold db_of. cbn [next_key l_dbs]. unfold db_add. rewrite lookup_insert_eq. cbn [default]. apply loaded_as_add; [done|done|done|]. by split_and!.
Qed.

Lemma keys_go keys : forall st pre j, clean st -> l_dbid st = j -> loaded_as (db_of st j) pre -> NoDup (pre ++ keys).*1 -> Forall (fun x => str_ok x.1 /\ kv_ok x.2) keys ->
  exists bs st', emits (save_kvs keys) bs /\ go st bs st' /\ after_keys st st' j (pre ++ keys).
Proof.
  induction keys as [|[k o] keys IH]; intros st pre j Hc Hj Hpre Hnd Hok; cbn [save_keys].
  - exists [], st. split_and!; [apply emits_nothing|apply goes_nil|]. rewrite app_nil_r. by split_and!.
  - apply list.Forall_cons in Hok as [[Hk Ho] Hok]. cbn [fst snd] in *.
    assert (Hn : k ∉ pre.*1) by (rewrite fmap_app in Hnd; apply list.NoDup_app in Hnd as (_ & Hd & _); intros Hin; apply (Hd k Hin); cbn; constructor).
    destruct (key_go st pre j k o Hc Hj Hpre Hn Hk Ho) as (b1 & st1 & E1 & G1 & C1 & J1 & L1 & O1 & R1).
    destruct (IH st1 (pre ++ [(k, o)]) j C1 J1 L1) as (b2 & st2 & E2 & G2 & C2 & J2 & L2 & O2 & R2); [by rewrite <- app_assoc|done|].
    exists (b1 ++ b2), st2. split_and!; [by apply emits_then|by eapply goes_trans|]. rewrite <- app_assoc in L2. split_and!; [done|done|done|intros i Hi; by rewrite O2, O1|congruence].
Qed.

(** ** Databases *)

Definition db_ok (l : list (list Z * kv V)) : Prop := NoDup l.*1 /\ Forall (fun x => str_ok x.1 /\ kv_ok x.2) l /\ zlen l < RDB_LENERR.

Lemma loaded_as_empty : loaded_as ∅ [].
Proof. split; [intros k o H; by apply elem_of_nil in H|intros k o' H; by rewrite lookup_empty in H]. Qed.

Lemma db_go st j l : clean st -> 0 <= j < dbnum -> dbnum < RDB_LENERR -> l_dbs st !! j = None -> db_ok l ->
  exists bs st', emits (rdbSaveDb (S := S) (V := V) rdb_compression base junk heap savelru savelfu j l) bs /\ go st bs st' /\ clean st' /\ loaded_as (db_of st' j) l /\ (forall i, i <> j -> l_dbs st' !! i = l_dbs st !! i) /\ l_rsi st' = l_rsi st.
Proof.
  intros Hc Hj Hdb Hn (Hnd & Hok & Hl). unfold rdbSaveDb. destruct (Z.eqb_spec (zlen l) 0) as [E|E].
  { apply zlen_0_nil in E as ->. exists [], st. split_and!; [apply emits_nothing|apply goes_nil|done| |done|done]. unfold db_of. rewrite Hn. apply loaded_as_empty. }
  destruct (keys_go l (with_dbid st j) [] j) as (bs & st' & E1 & G1 & C1 & J1 & L1 & O1 & R1); [done|done| |done|done|].
  { unfold db_of. cbn [with_dbid l_dbs]. rewrite Hn. apply loaded_as_empty. }
  set (ne := zlen (filter _ l)). assert (Hne : 0 <= ne < RDB_LENERR).
  { unfold ne, zlen in *. pose proof (length_filter (fun x : list Z * kv V => kv_expire x.2 <> -1) l). lia. }
  pose proof (zlen_nonneg l). exists ([RDB_OPCODE_SELECTDB] ++ enc_len j ++ [RDB_OPCODE_RESIZEDB] ++ enc_len (zlen l) ++ enc_len ne ++ bs), st'. split_and!; [| |done|done|done|done].
  - apply emits_then; [by apply emits_type|]. apply emits_then; [apply emits_len; lia|]. apply emits_then; [by apply emits_type|]. apply emits_then; [apply emits_len; lia|]. apply emits_then; [apply emits_len; lia|done].
  - replace (_ ++ _) with (([RDB_OPCODE_SELECTDB] ++ enc_len j) ++ ([RDB_OPCODE_RESIZEDB] ++ enc_len (zlen l) ++ enc_len ne) ++ bs) by by rewrite <- !app_assoc.
    eapply goes_trans; [apply goes_select; lia|]. eapply goes_trans; [apply goes_resize; lia|done].
Qed.

Lemma dbs_go dbs : forall st j, clean st -> 0 <= j -> j + zlen dbs <= dbnum -> dbnum < RDB_LENERR -> (forall i, j <= i -> l_dbs st !! i = None) -> Forall db_ok dbs ->
  exists bs st', emits (save_dbs (S := S) (V := V) rdb_compression base junk heap savelru savelfu j dbs) bs /\ go st bs st' /\ clean st' /\ l_rsi st' = l_rsi st /\
    (forall i, i < j -> l_dbs st' !! i = l_dbs st !! i) /\ (forall i, j <= i -> loaded_as (db_of st' i) (default [] (dbs !! Z.to_nat (i - j)))).
Proof.
  induction dbs as [|l dbs IH]; intros st j Hc Hj Hlen Hdb Hn Hok; cbn [save_dbs].
  - exists [], st. split_and!; [apply emits_nothing|apply goes_nil|done|done|done|]. intros i Hi. unfold db_of. rewrite Hn by done. apply loaded_as_empty.
  - apply list.Forall_cons in Hok as [Hl Hok]. rewrite zlen_cons in Hlen. pose proof (zlen_nonneg dbs). destruct (db_go st j l Hc ltac:(lia) Hdb (Hn j ltac:(lia)) Hl) as (b1 & st1 & E1 & G1 & C1 & L1 & O1 & R1).
    destruct (IH st1 (j + 1) C1 ltac:(lia) ltac:(lia) Hdb) as (b2 & st2 & E2 & G2 & C2 & R2 & O2 & L2); [intros i Hi; rewrite O1 by lia; apply Hn; lia|done|].
    exists (b1 ++ b2), st2. split_and!; [by apply emits_then|by eapply goes_trans|done|congruence|intros i Hi; rewrite O2, O1 by lia; done|].
    intros i Hi. destruct (decide (i = j)) as [->|Hne].
    + rewrite Z.sub_diag. cbn. unfold db_of in *. by rewrite O2 by lia.
    + replace (Z.to_nat (i - j)) with (Datatypes.S (Z.to_nat (i - (j + 1)))) by lia. apply L2. lia.
Qed.

(** ** Auxiliary fields *)

Lemma aux_go key val : str_ok key -> str_ok val -> exists bs, emits (rdbSaveAuxField (S := S) rdb_compression base junk heap key val) bs /\ forall st, go st bs (load_aux has_rsi st key val).
Proof.
  intros Hk Hv. destruct (raw_ok key Hk) as (kb & Ek & Lk), (raw_ok val Hv) as (vb & Ev & Lv). exists ([RDB_OPCODE_AUX] ++ kb ++ vb). split; [apply emits_then; [by apply emits_type|by apply emits_then]|].
  intros st'. apply goes_aux; [by apply Lk|by apply Lv].
Qed.

Lemma str_ok_txt v : is_s 64 v -> str_ok (ll_text v).
Proof. intros Hv. split; [apply ll_text_bytes|]. pose proof (zlen_ll_text v Hv). unfold LONG_STR_SIZE in *. lia. Qed.

Lemma aux_int_go key v : str_ok (c_str key) -> is_s 64 v -> exists bs, emits (rdbSaveAuxFieldStrInt (S := S) rdb_compression base junk heap key v) bs /\ forall st, go st bs (load_aux has_rsi st (c_str key) (ll_text v)).
Proof.
  intros Hk Hv. destruct (aux_go (c_str key) (ll_text v) Hk (str_ok_txt v Hv)) as (bs & E & G). exists bs. split; [|done]. eapply emits_ext; [|exact E]. intros rdb. unfold rdbSaveAuxFieldStrInt. by rewrite int_text_ok.
Qed.

Definition rsi_ok (x : rdbSaveInfo) : Prop := is_s 32 (repl_stream_db x) /\ Forall (fun c => 0 < c < 256) (repl_id x) /\ zlen (repl_id x) = CONFIG_RUN_ID_SIZE /\ is_s 64 (repl_offset x).

(** The replication state a file gives back. *)
Definition rsi_loaded (rsi : option rdbSaveInfo) (old : rdbSaveInfo) : rdbSaveInfo :=
  match rsi with
  | Some x => if has_rsi then {| repl_stream_db := repl_stream_db x; repl_id_is_set := true; repl_id := repl_id x; repl_offset := repl_offset x |} else old
  | None => old
  end.

(** Only the replication state and the memory in use change. *)
Definition same_but_rsi (st st' : load_state (V := V)) : Prop := l_dbid st' = l_dbid st /\ l_dbs st' = l_dbs st /\ l_expire st' = l_expire st /\ l_freq st' = l_freq st /\ l_idle st' = l_idle st.

Ltac aux_eval := unfold load_aux; repeat match goal with
  | |- context [bool_decide (head (c_str (c_str (txt ?a))) = Some 37)] => change (bool_decide (head (c_str (c_str (txt a))) = Some 37)) with false
  | |- context [strcaseeq (c_str (c_str (txt ?a))) (txt ?b)] => let v := eval vm_compute in (strcaseeq (c_str (c_str (txt a))) (txt b)) in change (strcaseeq (c_str (c_str (txt a))) (txt b)) with v
  end; cbv iota.

Lemma str_ok_lit s : forallb (fun c => (0 <=? c) && (c <? 256)) s = true -> zlen s < 2 ^ 32 -> str_ok s.
Proof.
  intros H Hl. split; [|done]. apply list.Forall_forall. intros x Hx. rewrite forallb_forall in H. specialize (H x (proj1 (list_elem_of_In _ _) Hx)). unfold is_byte. apply andb_true_iff in H as [H1%Z.leb_le H2%Z.ltb_lt]. done.
Qed.

Lemma repl_go rsi st : match rsi with Some x => rsi_ok x | None => True end -> exists bs st',
  emits (match rsi with
         | None => save_nothing
         | Some rsi => then_save (rdbSaveAuxFieldStrInt (S := S) rdb_compression base junk heap (txt "repl-stream-db") (repl_stream_db rsi))
             (then_save (rdbSaveAuxFieldStrStr rdb_compression base junk heap (txt "repl-id") (repl_id rsi)) (rdbSaveAuxFieldStrInt rdb_compression base junk heap (txt "repl-offset") (repl_offset rsi)))
         end) bs /\ go st bs st' /\ same_but_rsi st st' /\ l_rsi st' = rsi_loaded rsi (l_rsi st).
Proof.
  destruct rsi as [x|]; [|intros _; exists [], st; split_and!; [apply emits_nothing|apply goes_nil|done..]]. intros (H1 & H2 & H3 & H4). assert (H1' : is_s 64 (repl_stream_db x)) by (unfold is_s in *; cbn in *; lia).
  destruct (aux_int_go (txt "repl-stream-db") (repl_stream_db x)) as (b1 & E1 & G1); [by apply str_ok_lit; vm_compute|done|].
  assert (Hid : c_str (repl_id x) = repl_id x) by (apply c_str_id; eapply list.Forall_impl; [exact H2|]; cbn; lia).
  destruct (aux_go (c_str (txt "repl-id")) (c_str (repl_id x))) as (b2 & E2 & G2); [by apply str_ok_lit; vm_compute|rewrite Hid; split; [eapply list.Forall_impl; [exact H2|]; unfold is_byte; cbn; lia|rewrite H3; unfold CONFIG_RUN_ID_SIZE; lia]|].
  destruct (aux_int_go (txt "repl-offset") (repl_offset x)) as (b3 & E3 & G3); [by apply str_ok_lit; vm_compute|done|].
  eexists (b1 ++ b2 ++ b3), _. split_and!; [by repeat apply emits_then|eapply goes_trans; [apply G1|eapply goes_trans; [apply G2|apply G3]]| |]; rewrite Hid; aux_eval; rewrite H3; change (CONFIG_RUN_ID_SIZE =? CONFIG_RUN_ID_SIZE) with true; rewrite andb_true_r.
  - by destruct has_rsi.
  - unfold rsi_loaded. destruct has_rsi; [|done]. cbn [with_rsi l_rsi repl_stream_db repl_id_is_set repl_id repl_offset]. rewrite !c_str_text, strtoll10_text by done. f_equal. unfold atoi. rewrite strtoll10_text by done. by apply wraps_id.
Qed.

(** Fields that are only logged or ignored. *)
Lemma aux_skip key : In key [txt "redis-ver"; txt "redis-bits"; txt "ctime"; txt "aof-base"] -> forall (st : load_state (V := V)) v, load_aux has_rsi st (c_str key) v = st.
Proof. intros Hk st v. cbn [In] in Hk. destruct Hk as [<-|[<-|[<-|[<-|[]]]]]; by aux_eval. Qed.

Lemma info_go ctime used_mem aof rsi st : is_s 64 ctime -> is_s 64 used_mem -> match rsi with Some x => rsi_ok x | None => True end ->
  exists bs st', emits (rdbSaveInfoAuxFields (S := S) rdb_compression base junk heap ctime used_mem aof rsi) bs /\ go st bs st' /\ same_but_rsi st st' /\ l_rsi st' = rsi_loaded rsi (l_rsi st).
Proof.
  intros Hct Hum Hrsi. destruct (aux_go (c_str (txt "redis-ver")) (c_str REDIS_VERSION)) as (b1 & E1 & G1); [by apply str_ok_lit; vm_compute..|].
  destruct (aux_int_go (txt "redis-bits") 64) as (b2 & E2 & G2); [by apply str_ok_lit; vm_compute|by vm_compute|]. destruct (aux_int_go (txt "ctime") ctime) as (b3 & E3 & G3); [by apply str_ok_lit; vm_compute|done|].
  destruct (aux_int_go (txt "used-mem") used_mem) as (b4 & E4 & G4); [by apply str_ok_lit; vm_compute|done|]. destruct (aux_int_go (txt "aof-base") (if aof then 1 else 0)) as (b6 & E6 & G6); [by apply str_ok_lit; vm_compute|destruct aof; by vm_compute|].
  set (st4 := with_used_mem st (strtoll10 (c_str (ll_text used_mem)))). destruct (repl_go rsi st4 Hrsi) as (b5 & st5 & E5 & G5 & S5 & R5). exists (b1 ++ b2 ++ b3 ++ b4 ++ b5 ++ b6), st5.
  split_and!; [apply emits_returns; by repeat apply emits_then| |done|done]. eapply goes_trans; [apply G1|]. eapply goes_trans; [apply G2|]. eapply goes_trans; [apply G3|]. eapply goes_trans; [apply G4|].
  rewrite !(aux_skip (txt "redis-ver")), !(aux_skip (txt "redis-bits")), !(aux_skip (txt "ctime")) by (cbn; tauto). aux_eval. eapply goes_trans; [exact G5|]. specialize (G6 st5). by rewrite (aux_skip (txt "aof-base")) in G6 by (cbn; tauto).
Qed.
(** ** The checksum *)

Lemma crc_pieces dual tri st pieces : crc64_reach dual tri st -> forall c, 0 <= c < 2 ^ 64 -> Forall is_byte (concat pieces) -> zlen (concat pieces) < 2 ^ 64 ->
  foldl (rioGenericUpdateChecksum st) c pieces = crc_of c (concat pieces).
Proof.
  intros Hst. destruct (crc64_reach_ok _ _ _ Hst) as [Ht Hk]. induction pieces as [|p ps IH]; intros c Hc Hb Hl; [done|]. cbn [concat foldl] in *. apply list.Forall_app in Hb as [Hp Hb]. rewrite zlen_app in Hl. pose proof (zlen_nonneg p). pose proof (zlen_nonneg (concat ps)).
  assert (E : rioGenericUpdateChecksum st c p = crc_of c p). { unfold rioGenericUpdateChecksum. destruct (crc64_call st 0 c p Ht Hk Hc Hp ltac:(lia)) as (st' & -> & _). done. }
  rewrite E, IH, crc_of_app by (done || lia || by apply crc_of_range). done.
Qed.

Lemma magic_version : atoi (c_str (drop 5 (txt "REDIS0015"))) = 15.
Proof. by vm_compute. Qed.

(** Loading the records of a file, whose loop was shown to run, checks the checksum. *)
Lemma load_file dual tri st0 sum check interval body st cs : crc64_reach dual tri st0 -> 0 <= interval -> runs (S := S) can_alloc dbnum master aof_preamble allow_dup now has_rsi (load_init ∅) body st ->
  Forall is_byte (txt "REDIS0015" ++ body) -> zlen (txt "REDIS0015" ++ body) < 2 ^ 64 -> 0 <= cs < 2 ^ 64 -> cs = 0 \/ cs = crc_of 0 (txt "REDIS0015" ++ body) ->
  forall r rest fuel, rio_fine r -> r_read_error r = false -> r_cksum r = 0 -> unread (r_io r) = (txt "REDIS0015" ++ body ++ le_bytes 8 cs) ++ rest -> (length body <= fuel)%nat ->
  exists r', rdbLoadRio (S := S) (V := V) can_alloc dbnum master aof_preamble allow_dup now has_rsi fuel st0 sum check interval ∅ r = Some (inr (inr st), r') /\ unread (r_io r') = rest.
Proof.
  intros Hst Hint Hrun Hb Hl Hcs Hc r rest fuel Hr He H0 Hu Hf. unfold rdbLoadRio. set (r1 := set_max_chunk _ _). rewrite <- !app_assoc in Hu.
  destruct (loads_bytes (txt "REDIS0015") 9 eq_refl r1 _ Hint He Hu) as (r2 & E2 & Hu2 & He2 & Hr2 & Hs2). unfold load_bind at 1. rewrite E2. cbn [mbind option_bind]. change (bool_decide (take 5 (txt "REDIS0015") = txt "REDIS")) with true. cbn [negb]. cbv zeta. rewrite magic_version.
  change ((15 <? 1) || (15 >? RDB_VERSION)) with false. cbv iota. destruct (Hrun r2 (le_bytes 8 cs ++ rest) fuel Hr2 He2 Hu2 Hf) as (r3 & E3 & Hu3 & He3 & Hr3 & Hs3). unfold load_bind at 1. rewrite E3. cbn [mbind option_bind]. change (15 >=? 5) with true. cbv iota.
  pose proof (summed_trans _ _ _ _ _ Hs2 Hs3) as [_ Hsum]. cbn [r1 set_max_chunk set_update_cksum r_update_cksum r_cksum] in Hsum. rewrite H0 in Hsum.
  destruct (loads_bytes (le_bytes 8 cs) 8 eq_refl r3 rest Hr3 He3 Hu3) as (r4 & E4 & Hu4 & _). unfold load_bind at 1. rewrite E4. cbn [mbind option_bind]. exists r4. split; [|done].
  destruct sum; [|done]. destruct check; [|done]. cbn [andb]. assert (Ecs : le_val (le_bytes 8 cs) = cs) by (rewrite le_val_bytes; by apply wrapu_id). rewrite Ecs. destruct (Z.eqb_spec cs 0) as [|Hne]; [done|].
  destruct Hsum as (pieces & Ep & Ek). rewrite Ek, (crc_pieces dual tri) by (done || lia || by rewrite Ep). rewrite Ep. destruct Hc as [|Hc]; [done|]. by rewrite <- Hc, Z.eqb_refl.
Qed.

(** Files of values whose types have a codec are read back. *)
Lemma file_roundtrip_codec dual tri crc_st' rdb_checksum ctime used_mem aof rsi dbs sum check interval :
  crc64_reach dual tri crc_st -> crc64_reach dual tri crc_st' -> is_s 64 ctime -> is_s 64 used_mem -> match rsi with Some x => rsi_ok x | None => True end ->
  Forall db_ok dbs -> zlen dbs <= dbnum < RDB_LENERR -> 0 <= interval ->
  forall r, rio_fine r -> r_write_error r = false -> r_cksum r = 0 -> r_update_cksum r = None ->
  exists ok r', rdbSaveRio (S := S) (V := V) rdb_compression base junk heap savelru savelfu crc_st rdb_checksum false ctime used_mem aof rsi dbs r = Some (ok, r') /\ (rio_reliable S -> ok = true) /\
    (ok = true -> exists bs, written (r_io r') = written (r_io r) ++ bs /\
      (zlen bs < 2 ^ 64 -> forall r2 rest fuel, rio_fine r2 -> r_read_error r2 = false -> r_cksum r2 = 0 -> unread (r_io r2) = bs ++ rest -> (length bs <= fuel)%nat ->
        exists st r3, rdbLoadRio can_alloc dbnum master aof_preamble allow_dup now has_rsi fuel crc_st' sum check interval ∅ r2 = Some (inr (inr st), r3) /\ unread (r_io r3) = rest /\
          (forall i, 0 <= i -> loaded_as (db_of st i) (default [] (dbs !! Z.to_nat i))) /\ l_rsi st = rsi_loaded rsi (l_rsi (load_init (V := V) ∅)))).
Proof.
  intros Hst Hst' Hct Hum Hrsi Hdbs Hnum Hint r Hr He H0 Hup.
  destruct (info_go ctime used_mem aof rsi (load_init ∅) Hct Hum Hrsi) as (b1 & st1 & E1 & G1 & (D1 & D2 & D3 & D4 & D5) & R1).
  destruct (dbs_go dbs st1 0) as (b2 & st2 & E2 & G2 & C2 & R2 & O2 & L2); [split_and!; [by rewrite D3|by rewrite D4|by rewrite D5]|lia|lia|lia|intros i Hi; by rewrite D2|done|].
  assert (Hrun : runs (S := S) can_alloc dbnum master aof_preamble allow_dup now has_rsi (load_init ∅) (b1 ++ b2 ++ [RDB_OPCODE_EOF]) st2) by (apply G1, G2, runs_eof).
  assert (Hemit : emits (then_save (rdbWriteRaw (S := S) (txt "REDIS0015")) (then_save (rdbSaveInfoAuxFields rdb_compression base junk heap ctime used_mem aof rsi)
      (then_save (save_if (negb false) (save_dbs rdb_compression base junk heap savelru savelfu 0 dbs)) (rdbSaveType RDB_OPCODE_EOF)))) (txt "REDIS0015" ++ b1 ++ b2 ++ [RDB_OPCODE_EOF])).
  { apply emits_then; [apply emits_raw; repeat (constructor; [by vm_compute|]); constructor|]. apply emits_then; [done|]. apply emits_then; [done|by apply emits_type]. }
  destruct Hemit as [Hbytes Hemit]. unfold rdbSaveRio. set (r1 := if rdb_checksum then _ else r). assert (Hr1 : rio_fine r1 /\ r_write_error r1 = false /\ r_cksum r1 = 0 /\ r_io r1 = r_io r) by (unfold r1; by destruct rdb_checksum). destruct Hr1 as (Hf1 & He1 & Hc1 & Hio1).
  destruct (Hemit r1 Hf1 He1) as (ok & n & r2 & -> & Hw & Hrel). cbn [mbind option_bind]. destruct ok; [|exists false, r2; split_and!; [done|intros Hs; by discriminate (Hrel Hs)|done]].
  destruct Hw as (Hf2 & He2 & p & q & Ebs & Ewr & Hq). destruct (Hq eq_refl) as [-> [_ Hsum]]. rewrite app_nil_r in Ebs. subst p.
  destruct (rioWrite_ok r2 (le_bytes 8 (r_cksum r2)) Hf2) as (ok & r3 & E3 & _ & _ & p3 & q3 & E3b & Ewr3 & Hq3). exists ok, r3. split; [exact E3|]. split.
  { intros Hs. destruct (rioWrite_reliable r2 (le_bytes 8 (r_cksum r2)) Hf2 He2) as (r4 & E4 & _). congruence. }
  intros ->. destruct (Hq3 eq_refl) as [-> _]. rewrite app_nil_r in E3b. subst p3. exists (txt "REDIS0015" ++ (b1 ++ b2 ++ [RDB_OPCODE_EOF]) ++ le_bytes 8 (r_cksum r2)). split; [by rewrite Ewr3, Ewr, Hio1, <- !app_assoc|].
  intros Hz r4 rest fuel Hr4 He4 H04 Hu4 Hfuel. assert (Hz' : zlen (txt "REDIS0015" ++ b1 ++ b2 ++ [RDB_OPCODE_EOF]) < 2 ^ 64) by (rewrite !zlen_app in *; pose proof (zlen_nonneg (le_bytes 8 (r_cksum r2))); lia).
  assert (Hck : r_cksum r2 = 0 \/ r_cksum r2 = crc_of 0 (txt "REDIS0015" ++ b1 ++ b2 ++ [RDB_OPCODE_EOF])).
  { unfold r1 in Hsum. destruct rdb_checksum; [|left; rewrite Hup in Hsum; congruence]. right. cbn [set_update_cksum r_update_cksum r_cksum] in Hsum. destruct Hsum as (pieces & Ep & Ek). by rewrite Ek, H0, (crc_pieces dual tri), Ep by (done || lia || by rewrite Ep). }
  destruct (load_file dual tri crc_st' sum check interval (b1 ++ b2 ++ [RDB_OPCODE_EOF]) st2 (r_cksum r2) Hst' Hint Hrun Hbytes Hz') with (r := r4) (rest := rest) (fuel := fuel) as (r5 & E5 & Hu5);
    [destruct Hck as [-> | ->]; [lia|by apply crc_of_range]|done|done|done|done|by rewrite <- !app_assoc in *|rewrite !length_app in *; lia|].
  exists st2, r5. split_and!; [done|done| |congruence]. intros i Hi. specialize (L2 i Hi). by rewrite Z.sub_0_r in L2.
Qed.
End File.

(** ** Files of strings *)

(** What is saved of a database of strings: keys and values below 4 GiB. *)
Definition string_kv_ok (o : kv strobj) : Prop :=
  value_ok (Some (kv_val o)) /\ zlen (bytes_of (Some (kv_val o))) < 2 ^ 32 /\ is_s 64 (kv_expire o) /\ 0 <= kv_idle o < 2 ^ 63 /\ is_byte (kv_freq o).
Definition string_db_ok (l : list (list Z * kv strobj)) : Prop := NoDup l.*1 /\ Forall (fun x => str_ok x.1 /\ string_kv_ok x.2) l /\ zlen l < RDB_LENERR.

Section StringFile.
Context {S : Type} `{!rio_io S} `{!rio_stream S}.
Context (rdb_compression : bool) (base : Z) (junk : Z -> Z) (heap : nat -> Z) (savelru savelfu : bool) (crc_st : crc64_state).
Context (can_alloc : Z -> bool) (dbnum : Z) (master aof_preamble allow_dup : bool) (now : Z) (has_rsi : bool).

(** The same bytes and expiration, and the usage when it is saved. *)
Definition same_string (o o' : kv strobj) : Prop :=
  bytes_of (Some (kv_val o)) = bytes_of (Some (kv_val o')) /\ kv_expire o' = kv_expire o /\ kv_idle o' = (if savelru then kv_idle o else -1) /\ kv_freq o' = (if savelfu then kv_freq o else -1).

(** A loaded database has exactly the keys of the saved one that were not dropped. *)
Definition string_db_loaded (m : gmap (list Z) (kv strobj)) (l : list (list Z * kv strobj)) : Prop :=
  (forall k o, (k, o) ∈ l -> dropped master aof_preamble now o = false -> exists o', m !! k = Some o' /\ same_string o o') /\
  (forall k o', m !! k = Some o' -> exists o, (k, o) ∈ l /\ dropped master aof_preamble now o = false /\ same_string o o').

Context (Hbase : 8192 <= base <= 2 ^ 63) (Hjunk : forall i, 0 <= junk i < 2 ^ 64) (Halloc : forall n, 0 <= n < 2 ^ 32 -> can_alloc n = true).

Local Abbreviation strings := (string_objects (S := S) base junk heap can_alloc).
Local Abbreviation codec := (string_codec (S := S) base junk heap can_alloc (proj1 Hbase) Hjunk).

Lemma string_db_storable l : string_db_ok l -> db_ok (rdb_codec0 := codec) l.
Proof.
  intros (H1 & H2 & H3). split_and!; [done| |done]. eapply list.Forall_impl; [exact H2|]. intros [k o] [Hk (Hv & Hl & He & Hi & Hf)]. split; [done|]. cbn [snd] in *. split; [|split; [done|split; [done|done]]].
  split; [done|]. split; [done|]. split; [lia|]. intros m Hm. apply Halloc. lia.
Qed.

(** C21: A file of string values that [rdbSaveRio] writes is read back by [rdbLoadRio]:
    every database has exactly the keys that were saved, less those the loading
    server drops as expired, with the same bytes, expirations and usage, and the
    replication state is restored; with compression and with checksums on or off
    on either side, on any stream.  A save on a stream without errors succeeds.
    Keys and values are below 4 GiB and allocations of such sizes succeed; values
    of other types are not modelled. *)
Theorem rdb_file_roundtrip dual tri crc_st' rdb_checksum ctime used_mem aof rsi dbs sum check interval :
  crc64_reach dual tri crc_st -> crc64_reach dual tri crc_st' -> is_s 64 ctime -> is_s 64 used_mem -> match rsi with Some x => rsi_ok x | None => True end ->
  Forall string_db_ok dbs -> zlen dbs <= dbnum < RDB_LENERR -> 0 <= interval ->
  forall r, rio_fine r -> r_write_error r = false -> r_cksum r = 0 -> r_update_cksum r = None ->
  exists ok r', rdbSaveRio (rdb_objects0 := strings) rdb_compression base junk heap savelru savelfu crc_st rdb_checksum false ctime used_mem aof rsi dbs r = Some (ok, r') /\ (rio_reliable S -> ok = true) /\
    (ok = true -> exists bs, written (r_io r') = written (r_io r) ++ bs /\
      (zlen bs < 2 ^ 64 -> forall r2 rest fuel, rio_fine r2 -> r_read_error r2 = false -> r_cksum r2 = 0 -> unread (r_io r2) = bs ++ rest -> (length bs <= fuel)%nat ->
        exists st r3, rdbLoadRio (rdb_objects0 := strings) can_alloc dbnum master aof_preamble allow_dup now has_rsi fuel crc_st' sum check interval ∅ r2 = Some (inr (inr st), r3) /\ unread (r_io r3) = rest /\
          (forall i, 0 <= i -> string_db_loaded (db_of st i) (default [] (dbs !! Z.to_nat i))) /\ l_rsi st = rsi_loaded has_rsi rsi (l_rsi (load_init (V := strobj) ∅)))).
Proof.
  intros Hst Hst' Hct Hum Hrsi Hdbs. refine (file_roundtrip_codec (rdb_codec0 := codec) rdb_compression base junk heap savelru savelfu crc_st can_alloc dbnum master aof_preamble allow_dup now has_rsi Hbase Hjunk Halloc dual tri crc_st' rdb_checksum ctime used_mem aof rsi dbs sum check interval Hst Hst' Hct Hum Hrsi _). eapply list.Forall_impl; [exact Hdbs|]. apply string_db_storable.
Qed.
End StringFile.

(** ** Any file *)

Section Safe.
Context {S V : Type} `{!rio_io S} `{!rio_stream S} `{!rdb_objects S V}.
Context (can_alloc : Z -> bool) (dbnum : Z) (master aof_preamble allow_dup : bool) (now : Z) (has_rsi : bool).
Context (Hdbnum : 0 < dbnum) (Hload : forall t, load_safe (rdbLoadObject (S := S) (V := V) t) (fun _ => True)).

(** Only databases that exist are accessed. *)
Definition in_range (st : load_state (V := V)) : Prop := 0 <= l_dbid st < dbnum /\ forall i, is_Some (l_dbs st !! i) -> 0 <= i < dbnum.

Definition step_ok (x : load_step_result (V := V)) : Prop := match x with Next st | Done st => in_range st | Fatal _ => True end.

Lemma safe_sds flag : flag <> LOAD_ENC -> load_safe (load_sds (S := S) can_alloc flag) (fun _ => True).
Proof.
  intros Hf r Hr Hb. unfold load_sds. destruct (load_str_safe can_alloc flag r Hr Hb) as (x & r' & -> & Hr' & Hx). cbn [mbind option_bind]. destruct x as [e|o]; [by exists (inl e), r'|].
  destruct Hx as [[_ Ho] Hs]. destruct (Ho Hf) as [s ->]. by exists (inr s), r'.
Qed.

Lemma load_aux_range st k v : in_range st -> in_range (load_aux has_rsi st k v).
Proof. intros H. unfold load_aux. repeat case_match; done. Qed.

Lemma add_key_range st k v : in_range st -> step_ok (add_key master aof_preamble allow_dup now st k v).
Proof.
  intros [H1 H2]. assert (Hadd : forall o, in_range (next_key st (db_add (l_dbs st) (l_dbid st) k o) 1 0 0)).
  { intros o. split; [done|]. intros i. cbn [next_key l_dbs]. unfold db_add. destruct (decide (i = l_dbid st)) as [->|]; [done|]. rewrite lookup_insert_ne by done. apply H2. }
  unfold add_key. repeat case_match; cbn [step_ok]; done || apply Hadd.
Qed.

(** A loader that starts with a byte leaves fewer bytes. *)
Lemma byte_then {A} (f : Z -> loader (S := S) A) Q : (forall b, load_safe (f b) Q) -> forall r, rio_fine r -> Forall is_byte (unread (r_io r)) ->
  exists x r', load_bind rdbLoadType f r = Some (x, r') /\ rio_fine r' /\
    match x with inr y => Q y /\ Forall is_byte (unread (r_io r')) /\ (length (unread (r_io r')) < length (unread (r_io r)))%nat | inl _ => True end.
Proof.
  intros Hrest r Hr Hb. unfold load_bind, rdbLoadType, load_byte. destruct (rioRead_ok r 1 Hr ltac:(lia)) as [(bs & r1 & -> & _ & Hu & Hz & _ & Hf & _)|(r1 & -> & _ & Hf & _)]; cbn [mbind option_bind]; [|by exists (inl SHORT_READ), r1].
  destruct bs as [|b bs]; [done|]. cbn [mbind option_bind]. assert (Hb1 : Forall is_byte (unread (r_io r1))) by (rewrite Hu in Hb; apply list.Forall_app in Hb; apply Hb).
  destruct (Hrest b r1 Hf Hb1) as (x & r2 & -> & Hr2 & Hx). exists x, r2. split_and!; [done|done|]. destruct x as [|y]; [done|]. destruct Hx as [Hy [c Hc]]. split_and!; [done|rewrite Hc in Hb1; apply list.Forall_app in Hb1; apply Hb1|].
  rewrite Hu, Hc. cbn [length app]. rewrite !length_app. lia.
Qed.

Lemma step_safe st : in_range st -> forall r, rio_fine r -> Forall is_byte (unread (r_io r)) ->
  exists x r', load_step can_alloc dbnum master aof_preamble allow_dup now has_rsi st r = Some (x, r') /\ rio_fine r' /\
    match x with inr y => step_ok y /\ Forall is_byte (unread (r_io r')) /\ (length (unread (r_io r')) < length (unread (r_io r)))%nat | inl _ => True end.
Proof.
  intros Hst. apply byte_then. intros type. pose proof (load_aux_range st) as Haux. pose proof (add_key_range st) as Hadd.
  destruct (type =? RDB_OPCODE_EXPIRETIME); [eapply safe_bind; [eapply safe_bind; [apply safe_bytes; lia|intros; by apply (safe_ret _ (fun _ => True))]|]; intros; by apply safe_ret|].
  destruct (type =? RDB_OPCODE_EXPIRETIME_MS); [eapply safe_bind; [eapply safe_bind; [apply safe_bytes; lia|intros; by apply (safe_ret _ (fun _ => True))]|]; intros; by apply safe_ret|].
  destruct (type =? RDB_OPCODE_FREQ); [eapply safe_bind; [apply safe_byte|]; intros; by apply safe_ret|].
  destruct (type =? RDB_OPCODE_IDLE); [eapply safe_bind; [apply safe_len|]; intros; by apply safe_ret|].
  destruct (type =? RDB_OPCODE_EOF); [by apply safe_ret|].
  destruct (type =? RDB_OPCODE_SELECTDB).
  { eapply safe_bind; [apply safe_len|]. intros [e v] [Hv _]. apply safe_ret. cbn [snd] in *. destruct (Z.geb_spec v dbnum); [done|]. split; [cbn [with_dbid l_dbid]; lia|apply Hst]. }
  destruct (type =? RDB_OPCODE_RESIZEDB); [eapply safe_bind; [apply safe_len|]; intros; eapply safe_bind; [apply safe_len|]; intros; by apply safe_ret|].
  destruct (type =? RDB_OPCODE_SLOT_INFO); [eapply safe_bind; [apply safe_len|]; intros; eapply safe_bind; [apply safe_len|]; intros; eapply safe_bind; [apply safe_len|]; intros; by apply safe_ret|].
  destruct (type =? RDB_OPCODE_AUX); [eapply safe_bind; [by apply safe_sds|]; intros; eapply safe_bind; [by apply safe_sds|]; intros; apply safe_ret; by apply Haux|].
  destruct (type =? RDB_OPCODE_FUNCTION_PRE_GA); [by apply safe_ret|]. destruct (_ || _ || _ || _); [by apply safe_ret|].
  eapply (safe_bind _ _ (fun _ => True)); [unfold rdbResolveKeyType; destruct (_ =? _); [apply safe_fail|]; destruct (negb _); [apply safe_fail|by apply safe_ret]|]. intros t _.
  eapply safe_bind; [by apply safe_sds|]. intros k _. eapply safe_bind; [apply Hload|]. intros v _. apply safe_ret. by apply Hadd.
Qed.

Lemma loop_safe fuel : forall st r, in_range st -> rio_fine r -> Forall is_byte (unread (r_io r)) -> (length (unread (r_io r)) < fuel)%nat ->
  exists x r', load_loop can_alloc dbnum master aof_preamble allow_dup now has_rsi fuel st r = Some (x, r') /\ rio_fine r' /\ match x with inr (inr st') => in_range st' | _ => True end /\ match x with inr _ => Forall is_byte (unread (r_io r')) | _ => True end.
Proof.
  induction fuel as [|fuel IH]; intros st r Hst Hr Hb Hf; [lia|]. cbn [load_loop]. unfold load_bind. destruct (step_safe st Hst r Hr Hb) as (x & r1 & -> & Hr1 & Hx). cbn [mbind option_bind].
  destruct x as [e|y]; [by exists (inl e), r1|]. destruct Hx as (Hy & Hb1 & Hlt). destruct y as [st'|st'|f]; [apply IH; [done..|lia]|by exists (inr (inr st')), r1|by exists (inr (inl f)), r1].
Qed.

Lemma file_load_safe fuel crc_st sum check interval dbs (r : rio S) : (forall i, is_Some (dbs !! i) -> 0 <= i < dbnum) -> rio_fine r -> 0 <= interval -> Forall is_byte (unread (r_io r)) -> (length (unread (r_io r)) < fuel)%nat ->
  exists x r', rdbLoadRio (S := S) (V := V) can_alloc dbnum master aof_preamble allow_dup now has_rsi fuel crc_st sum check interval dbs r = Some (x, r') /\
    match x with inr (inr st) => forall i, is_Some (l_dbs st !! i) -> 0 <= i < dbnum | _ => True end.
Proof.
  intros Hdbs Hr Hint Hb Hf. unfold rdbLoadRio. set (r1 := set_max_chunk _ _). destruct (safe_bytes 9 ltac:(lia) r1 Hint Hb) as (x & r2 & E2 & Hr2 & Hx). unfold load_bind at 1. rewrite E2. cbn [mbind option_bind].
  destruct x as [e|buf]; [by exists (inl e), r2|]. destruct Hx as [_ [c Hc]]. destruct (negb _); [by eexists _, r2|]. cbv zeta. destruct (_ || _); [by eexists _, r2|].
  assert (Hb2 : Forall is_byte (unread (r_io r2))) by (change (r_io r1) with (r_io r) in Hc; rewrite Hc in Hb; apply list.Forall_app in Hb; apply Hb).
  destruct (loop_safe fuel (load_init dbs) r2) as (x & r3 & E3 & Hr3 & Hx & Hb3); [split; [cbn; lia|done]|done|done|change (r_io r1) with (r_io r) in Hc; rewrite Hc, length_app in Hf; lia|].
  unfold load_bind at 1. rewrite E3. cbn [mbind option_bind]. destruct x as [e|[f|st]]; [by exists (inl e), r3|by eexists _, r3|]. destruct (_ >=? 5); [|eexists _, r3; split; [done|exact (proj2 Hx)]].
  destruct (safe_bytes 8 ltac:(lia) r3 Hr3 Hb3) as (x & r4 & E4 & _). unfold load_bind. rewrite E4. cbn [mbind option_bind]. destruct x as [e|b]; [by exists (inl e), r4|].
  repeat case_match; eexists _, r4; (split; [done|]); done || exact (proj2 Hx).
Qed.
End Safe.

(** C22: Whatever bytes a file holds, loading it with string values returns: an error, the
    end of the process for a file the server refuses, or databases of which none is
    outside of the configured range.  No length, string, compressed string or record
    makes the loader read outside of a block or loop.  The load ends in the model at
    the first value that is not a string and at the first record of functions,
    modules, hash templates or key metadata, whose loaders are not modelled. *)
Theorem rdb_file_load_safe {S : Type} `{!rio_io S} `{!rio_stream S} base junk heap can_alloc dbnum master aof_preamble allow_dup now has_rsi fuel crc_st sum check interval dbs (r : rio S) :
  0 < dbnum -> (forall i, is_Some (dbs !! i) -> 0 <= i < dbnum) -> rio_fine r -> 0 <= interval -> Forall is_byte (unread (r_io r)) -> (length (unread (r_io r)) < fuel)%nat ->
  exists x r', rdbLoadRio (rdb_objects0 := string_objects base junk heap can_alloc) can_alloc dbnum master aof_preamble allow_dup now has_rsi fuel crc_st sum check interval dbs r = Some (x, r') /\
    match x with inr (inr st) => forall i, is_Some (l_dbs st !! i) -> 0 <= i < dbnum | _ => True end.
Proof. intros Hdbnum. apply file_load_safe; [done|]. apply string_load_safe. Qed.

(** ** A file with one key *)

Local Abbreviation sample_objects := (string_objects (S := rio_buffer) 8192 (fun _ => 0) (fun _ => 0) (fun _ => true)).
Definition sample_db : list (list Z * kv strobj) := [(txt "a", {| kv_val := SdsEncoded sample_text; kv_expire := 5000; kv_idle := 7; kv_freq := 3 |})].
Definition sample_rsi : rdbSaveInfo := {| repl_stream_db := 0; repl_id_is_set := false; repl_id := replicate 40 97; repl_offset := 12 |}.

Local Abbreviation sample_save := (@rdbSaveRio rio_buffer strobj _ sample_objects true 8192 (fun _ => 0) (fun _ => 0) true false crc64_sample true false 1000 2000 false (Some sample_rsi) [sample_db] (rioInitWithBuffer [])).

Lemma sample_db_ok : string_db_ok sample_db.
Proof. split_and!; [by apply NoDup_singleton| |by vm_compute]. constructor; [|constructor]. split; [split; [repeat constructor; by vm_compute|by vm_compute]|]. split_and!; [apply string_sample|by vm_compute..]. Qed.

Lemma sample_save_short : match sample_save with Some (_, r') => zlen (b_ptr (r_io r')) < 1000 | None => False end.
Proof. by vm_compute. Qed.

Lemma rdb_file_roundtrip_witness : exists r' st r3, sample_save = Some (true, r') /\
  @rdbLoadRio rio_buffer strobj _ sample_objects (fun _ => true) 16 true false false 4000 true 1000 crc64_sample true true 64 ∅ (rioInitWithBuffer (b_ptr (r_io r'))) = Some (inr (inr st), r3) /\
  string_db_loaded true false true false 4000 (db_of st 0) sample_db /\ repl_offset (l_rsi st) = 12.
Proof.
  destruct (@rdb_file_roundtrip rio_buffer _ _ true 8192 (fun _ => 0) (fun _ => 0) true false crc64_sample (fun _ => true) 16 true false false 4000 true) with
    (dual := 16) (tri := 48) (crc_st' := crc64_sample) (rdb_checksum := true) (ctime := 1000) (used_mem := 2000) (aof := false) (rsi := Some sample_rsi) (dbs := [sample_db]) (sum := true) (check := true) (interval := 64) (r := rioInitWithBuffer [])
    as (ok & r' & E & Hok & Hload); [lia|intros; lia|done|by apply reach_init, crc64_sample_init|by apply reach_init, crc64_sample_init|by vm_compute|by vm_compute|split_and!; [by vm_compute| |by vm_compute|by vm_compute]|constructor; [apply sample_db_ok|constructor]|by vm_compute|lia|done|done|done|done|].
  - apply (Forall_replicate _ 40 97). lia.
  - specialize (Hok _). subst ok. destruct (Hload eq_refl) as (bs & Ebs & Hl). cbn in Ebs. pose proof sample_save_short as Hs. rewrite E in Hs. rewrite Ebs in Hs.
    destruct (Hl ltac:(lia) (rioInitWithBuffer bs) [] 1000%nat) as (st & r3 & E3 & _ & Hdb & Hrsi); [done|done|done|cbn; by rewrite app_nil_r|unfold zlen in Hs; lia|]. exists r', st, r3. split_and!; [exact E|by rewrite Ebs|apply (Hdb 0); lia|by rewrite Hrsi].
Defined.

Lemma rdb_file_load_safe_witness : let p := txt "REDIS0009" ++ [254; 3; 250; 0; 5] in
  exists x r', @rdbLoadRio rio_buffer strobj _ sample_objects (fun _ => true) 16 true false false 4000 true 100 crc64_sample true true 64 ∅ (rioInitWithBuffer p) = Some (x, r') /\
    match x with inr (inr st) => forall i, is_Some (l_dbs st !! i) -> 0 <= i < 16 | _ => True end.
Proof.
  apply (rdb_file_load_safe 8192 (fun _ => 0) (fun _ => 0) (fun _ => true) 16 true false false 4000 true); [lia|intros i [x Hx]; by rewrite lookup_empty in Hx|done|lia| |cbn; lia].
  cbn. repeat (constructor; [unfold is_byte; lia|]). constructor.
Defined.
