(* ===== verification/Cluster.v ===== *)
(** * Cluster state, slots and elections (src/cluster_legacy.c, src/cluster_legacy.h)

    A node keeps what it knows of the others: roles, failures, config epochs and
    who serves which slot, and the state of the election it holds or votes in.
    Nodes are named by their addresses; links, gossip and the config file are
    outside of the model.  Handlers return the new state and the messages sent. *)

From stdpp Require Import base list gmap numbers option tactics.
From S2P Require Import Prelude Order.

Definition CLUSTER_SLOTS : Z := 16384.

Definition CLUSTER_NODE_MASTER : Z := 1.
Definition CLUSTER_NODE_SLAVE : Z := 2.
Definition CLUSTER_NODE_PFAIL : Z := 4.
Definition CLUSTER_NODE_FAIL : Z := 8.
Definition CLUSTER_NODE_MYSELF : Z := 16.
Definition CLUSTER_NODE_HANDSHAKE : Z := 32.
Definition CLUSTER_NODE_MIGRATE_TO : Z := 256.
Definition CLUSTER_NODE_NOFAILOVER : Z := 512.

Definition CLUSTER_TODO_HANDLE_FAILOVER : Z := 1.
Definition CLUSTER_TODO_UPDATE_STATE : Z := 2.
Definition CLUSTER_TODO_SAVE_CONFIG : Z := 4.
Definition CLUSTER_TODO_FSYNC_CONFIG : Z := 8.
Definition CLUSTER_TODO_BROADCAST_PONG : Z := 32.

Definition CLUSTER_OK : Z := 0.
Definition CLUSTER_FAIL : Z := 1.
Definition CLUSTER_MAX_REJOIN_DELAY : Z := 5000.
Definition CLUSTER_MIN_REJOIN_DELAY : Z := 500.
Definition CLUSTER_WRITABLE_DELAY : Z := 2000.

(** ** Data *)

(** What a node knows of a node. *)
Record clusterNode := {
  n_name : list Z;
  n_flags : Z;
  n_configEpoch : Z;
  n_slots : list Z;
  n_numslots : Z;
  n_slaves : list Z;
  n_slaveof : option Z;
  n_voted_time : Z;
  n_repl_offset : Z;
  n_link : bool }.

(** [failover_auth_*] *)
Record election := { auth_time : Z; auth_count : Z; auth_sent : bool; auth_rank : Z; auth_epoch : Z }.

(** [state], and the static variables of [clusterUpdateState]: the first call (0 before
    it) and the last time in a minority. *)
Record health := { h_state : Z; h_first_call_time : Z; h_among_minority_time : Z }.

(** The fields of [clusterState] the modelled functions use; a slot without owner is [None]. *)
Record clusterState := {
  c_myself : Z;
  c_currentEpoch : Z;
  c_size : Z;
  c_nodes : gmap Z clusterNode;
  c_slots : list (option Z);
  c_not_claiming : list Z;
  c_election : election;
  c_mf_end : Z;
  c_mf_can_start : bool;
  c_lastVoteEpoch : Z;
  c_todo : Z;
  c_health : health }.

Definition set_nodes (st : clusterState) (nodes : gmap Z clusterNode) : clusterState :=
  {| c_myself := c_myself st; c_currentEpoch := c_currentEpoch st; c_size := c_size st; c_nodes := nodes; c_slots := c_slots st; c_not_claiming := c_not_claiming st; c_election := c_election st;
     c_mf_end := c_mf_end st; c_mf_can_start := c_mf_can_start st; c_lastVoteEpoch := c_lastVoteEpoch st; c_todo := c_todo st; c_health := c_health st |}.
Definition set_slots (st : clusterState) (slots : list (option Z)) (not_claiming : list Z) : clusterState :=
  {| c_myself := c_myself st; c_currentEpoch := c_currentEpoch st; c_size := c_size st; c_nodes := c_nodes st; c_slots := slots; c_not_claiming := not_claiming; c_election := c_election st;
     c_mf_end := c_mf_end st; c_mf_can_start := c_mf_can_start st; c_lastVoteEpoch := c_lastVoteEpoch st; c_todo := c_todo st; c_health := c_health st |}.
Definition set_epoch (st : clusterState) (e : Z) : clusterState :=
  {| c_myself := c_myself st; c_currentEpoch := e; c_size := c_size st; c_nodes := c_nodes st; c_slots := c_slots st; c_not_claiming := c_not_claiming st; c_election := c_election st;
     c_mf_end := c_mf_end st; c_mf_can_start := c_mf_can_start st; c_lastVoteEpoch := c_lastVoteEpoch st; c_todo := c_todo st; c_health := c_health st |}.
Definition set_election (st : clusterState) (el : election) : clusterState :=
  {| c_myself := c_myself st; c_currentEpoch := c_currentEpoch st; c_size := c_size st; c_nodes := c_nodes st; c_slots := c_slots st; c_not_claiming := c_not_claiming st; c_election := el;
     c_mf_end := c_mf_end st; c_mf_can_start := c_mf_can_start st; c_lastVoteEpoch := c_lastVoteEpoch st; c_todo := c_todo st; c_health := c_health st |}.
Definition set_vote (st : clusterState) (e : Z) : clusterState :=
  {| c_myself := c_myself st; c_currentEpoch := c_currentEpoch st; c_size := c_size st; c_nodes := c_nodes st; c_slots := c_slots st; c_not_claiming := c_not_claiming st; c_election := c_election st;
     c_mf_end := c_mf_end st; c_mf_can_start := c_mf_can_start st; c_lastVoteEpoch := e; c_todo := c_todo st; c_health := c_health st |}.
Definition set_manual (st : clusterState) (mf_end : Z) (can_start : bool) : clusterState :=
  {| c_myself := c_myself st; c_currentEpoch := c_currentEpoch st; c_size := c_size st; c_nodes := c_nodes st; c_slots := c_slots st; c_not_claiming := c_not_claiming st; c_election := c_election st;
     c_mf_end := mf_end; c_mf_can_start := can_start; c_lastVoteEpoch := c_lastVoteEpoch st; c_todo := c_todo st; c_health := c_health st |}.
Definition set_todo (st : clusterState) (todo : Z) : clusterState :=
  {| c_myself := c_myself st; c_currentEpoch := c_currentEpoch st; c_size := c_size st; c_nodes := c_nodes st; c_slots := c_slots st; c_not_claiming := c_not_claiming st; c_election := c_election st;
     c_mf_end := c_mf_end st; c_mf_can_start := c_mf_can_start st; c_lastVoteEpoch := c_lastVoteEpoch st; c_todo := todo; c_health := c_health st |}.

Definition set_health (st : clusterState) (size : Z) (h : health) : clusterState :=
  {| c_myself := c_myself st; c_currentEpoch := c_currentEpoch st; c_size := size; c_nodes := c_nodes st; c_slots := c_slots st; c_not_claiming := c_not_claiming st; c_election := c_election st;
     c_mf_end := c_mf_end st; c_mf_can_start := c_mf_can_start st; c_lastVoteEpoch := c_lastVoteEpoch st; c_todo := c_todo st; c_health := h |}.

Definition with_flags (n : clusterNode) (flags : Z) : clusterNode :=
  {| n_name := n_name n; n_flags := flags; n_configEpoch := n_configEpoch n; n_slots := n_slots n; n_numslots := n_numslots n; n_slaves := n_slaves n; n_slaveof := n_slaveof n; n_voted_time := n_voted_time n; n_repl_offset := n_repl_offset n; n_link := n_link n |}.
Definition with_slots (n : clusterNode) (slots : list Z) (numslots : Z) : clusterNode :=
  {| n_name := n_name n; n_flags := n_flags n; n_configEpoch := n_configEpoch n; n_slots := slots; n_numslots := numslots; n_slaves := n_slaves n; n_slaveof := n_slaveof n; n_voted_time := n_voted_time n; n_repl_offset := n_repl_offset n; n_link := n_link n |}.
Definition with_slaves (n : clusterNode) (slaves : list Z) : clusterNode :=
  {| n_name := n_name n; n_flags := n_flags n; n_configEpoch := n_configEpoch n; n_slots := n_slots n; n_numslots := n_numslots n; n_slaves := slaves; n_slaveof := n_slaveof n; n_voted_time := n_voted_time n; n_repl_offset := n_repl_offset n; n_link := n_link n |}.
Definition with_slaveof (n : clusterNode) (m : option Z) : clusterNode :=
  {| n_name := n_name n; n_flags := n_flags n; n_configEpoch := n_configEpoch n; n_slots := n_slots n; n_numslots := n_numslots n; n_slaves := n_slaves n; n_slaveof := m; n_voted_time := n_voted_time n; n_repl_offset := n_repl_offset n; n_link := n_link n |}.
Definition with_configEpoch (n : clusterNode) (e : Z) : clusterNode :=
  {| n_name := n_name n; n_flags := n_flags n; n_configEpoch := e; n_slots := n_slots n; n_numslots := n_numslots n; n_slaves := n_slaves n; n_slaveof := n_slaveof n; n_voted_time := n_voted_time n; n_repl_offset := n_repl_offset n; n_link := n_link n |}.
Definition with_voted_time (n : clusterNode) (t : Z) : clusterNode :=
  {| n_name := n_name n; n_flags := n_flags n; n_configEpoch := n_configEpoch n; n_slots := n_slots n; n_numslots := n_numslots n; n_slaves := n_slaves n; n_slaveof := n_slaveof n; n_voted_time := t; n_repl_offset := n_repl_offset n; n_link := n_link n |}.

Definition put (st : clusterState) (id : Z) (n : clusterNode) : clusterState := set_nodes st (<[id := n]> (c_nodes st)).

Definition has_flag (n : clusterNode) (f : Z) : bool := negb (Z.land (n_flags n) f =? 0).
Definition clusterNodeIsMaster (n : clusterNode) : bool := has_flag n CLUSTER_NODE_MASTER.
Definition nodeIsSlave (n : clusterNode) : bool := has_flag n CLUSTER_NODE_SLAVE.
Definition nodeFailed (n : clusterNode) : bool := has_flag n CLUSTER_NODE_FAIL.
Definition nodeCantFailover (n : clusterNode) : bool := has_flag n CLUSTER_NODE_NOFAILOVER.

Definition clusterDoBeforeSleep (st : clusterState) (flags : Z) : clusterState := set_todo st (Z.lor (c_todo st) flags).

(** ** Slots *)

Definition bitmapTestBit (bitmap : list Z) (pos : Z) : option bool :=
  b ← rd bitmap (pos / 8); Some (negb (Z.land b (Z.shiftl 1 (Z.land pos 7)) =? 0)).

Definition bitmapSetBit (bitmap : list Z) (pos : Z) : option (list Z) :=
  b ← rd bitmap (pos / 8); wr bitmap (pos / 8) (Z.lor b (Z.shiftl 1 (Z.land pos 7))).

Definition bitmapClearBit (bitmap : list Z) (pos : Z) : option (list Z) :=
  b ← rd bitmap (pos / 8); wr bitmap (pos / 8) (Z.land b (Z.lnot (Z.shiftl 1 (Z.land pos 7)))).

Definition clusterMastersHaveSlaves (st : clusterState) : bool :=
  negb (map_fold (fun _ n s => if nodeIsSlave n then s else s + zlen (n_slaves n)) 0 (c_nodes st) =? 0).

Definition clusterNodeSetSlotBit (st : clusterState) (id slot : Z) : option (bool * clusterState) :=
  n ← c_nodes st !! id;
  old ← bitmapTestBit (n_slots n) slot;
  if old : bool then Some (true, st)
  else
    bm ← bitmapSetBit (n_slots n) slot;
    let st := put st id (with_slots n bm (n_numslots n + 1)) in
    if (n_numslots n + 1 =? 1) && clusterMastersHaveSlaves st then
      n ← c_nodes st !! id; Some (false, put st id (with_flags n (Z.lor (n_flags n) CLUSTER_NODE_MIGRATE_TO)))
    else Some (false, st).

Definition clusterNodeClearSlotBit (st : clusterState) (id slot : Z) : option (bool * clusterState) :=
  n ← c_nodes st !! id;
  old ← bitmapTestBit (n_slots n) slot;
  if old : bool then
    bm ← bitmapClearBit (n_slots n) slot;
    Some (true, put st id (with_slots n bm (n_numslots n - 1)))
  else Some (false, st).

Definition clusterNodeCoversSlot (st : clusterState) (id slot : Z) : option bool :=
  n ← c_nodes st !! id; bitmapTestBit (n_slots n) slot.

(** [server.cluster->slots[slot]] *)
Definition slot_owner (st : clusterState) (slot : Z) : option (option Z) := if 0 <=? slot then c_slots st !! Z.to_nat slot else None.

(** [slots[slot] = owner], with the flag of the slot cleared. *)
Definition assign_slot (st : clusterState) (slot : Z) (owner : option Z) : option clusterState :=
  bm ← bitmapClearBit (c_not_claiming st) slot;
  Some (set_slots st (<[Z.to_nat slot := owner]> (c_slots st)) bm).

Definition clusterAddSlot (st : clusterState) (id slot : Z) : option (bool * clusterState) :=
  o ← slot_owner st slot;
  match o with
  | Some _ => Some (false, st)
  | None => '(_, st) ← clusterNodeSetSlotBit st id slot; st ← assign_slot st slot (Some id); Some (true, st)
  end.

Definition clusterDelSlot (st : clusterState) (slot : Z) : option (bool * clusterState) :=
  o ← slot_owner st slot;
  match o with
  | None => Some (false, st)
  | Some id => '(old, st) ← clusterNodeClearSlotBit st id slot; _ ← cassert old; st ← assign_slot st slot None; Some (true, st)
  end.

(** The loop over the slots [j ..]; [n] slots are left. *)
Fixpoint move_slots (n : nat) (j : Z) (st : clusterState) (from to processed : Z) : option (Z * clusterState) :=
  match n with
  | O => Some (processed, st)
  | S n =>
      c ← clusterNodeCoversSlot st from j;
      if c : bool then
        '(_, st) ← clusterDelSlot st j;
        '(_, st) ← clusterAddSlot st to j;
        move_slots n (j + 1) st from to (processed + 1)
      else move_slots n (j + 1) st from to processed
  end.

Definition clusterMoveNodeSlots (st : clusterState) (from to : Z) : option (Z * clusterState) := move_slots (Z.to_nat CLUSTER_SLOTS) 0 st from to 0.

Fixpoint del_slots (n : nat) (j : Z) (st : clusterState) (id deleted : Z) : option (Z * clusterState) :=
  match n with
  | O => Some (deleted, st)
  | S n =>
      c ← clusterNodeCoversSlot st id j;
      if c : bool then '(_, st) ← clusterDelSlot st j; del_slots n (j + 1) st id (deleted + 1)
      else del_slots n (j + 1) st id deleted
  end.

Definition clusterDelNodeSlots (st : clusterState) (id : Z) : option (Z * clusterState) := del_slots (Z.to_nat CLUSTER_SLOTS) 0 st id 0.

Definition isSlotUnclaimed (st : clusterState) (slot : Z) : option bool :=
  o ← slot_owner st slot;
  match o with None => Some true | Some _ => bitmapTestBit (c_not_claiming st) slot end.

(** ** Roles *)

Fixpoint remove_first (id : Z) (l : list Z) : list Z :=
  match l with [] => [] | x :: l => if x =? id then l else x :: remove_first id l end.

Definition clusterNodeRemoveSlave (st : clusterState) (master slave : Z) : option clusterState :=
  m ← c_nodes st !! master;
  if bool_decide (slave ∈ n_slaves m) then
    let slaves := remove_first slave (n_slaves m) in
    let m := with_slaves m slaves in
    Some (put st master (if zlen slaves =? 0 then with_flags m (Z.land (n_flags m) (Z.lnot CLUSTER_NODE_MIGRATE_TO)) else m))
  else Some st.

Definition clusterSetNodeAsMaster (st : clusterState) (id : Z) : option clusterState :=
  n ← c_nodes st !! id;
  if clusterNodeIsMaster n then Some st
  else
    st ← (match n_slaveof n with
          | Some m =>
              st ← clusterNodeRemoveSlave st m id;
              n ← c_nodes st !! id;
              Some (if id =? c_myself st then st else put st id (with_flags n (Z.lor (n_flags n) CLUSTER_NODE_MIGRATE_TO)))
          | None => Some st
          end);
    n ← c_nodes st !! id;
    let n := with_flags n (Z.lor (Z.land (n_flags n) (Z.lnot CLUSTER_NODE_SLAVE)) CLUSTER_NODE_MASTER) in
    Some (clusterDoBeforeSleep (put st id (with_slaveof n None)) (Z.lor CLUSTER_TODO_SAVE_CONFIG CLUSTER_TODO_UPDATE_STATE)).

(** ** Epochs *)

Definition clusterGetMaxEpoch (st : clusterState) : Z :=
  Z.max (map_fold (fun _ n max => Z.max (n_configEpoch n) max) 0 (c_nodes st)) (c_currentEpoch st).

Definition clusterBumpConfigEpochWithoutConsensus (st : clusterState) : option (bool * clusterState) :=
  me ← c_nodes st !! c_myself st;
  if (n_configEpoch me =? 0) || negb (n_configEpoch me =? clusterGetMaxEpoch st) then
    let e := u64 (c_currentEpoch st + 1) in
    Some (true, clusterDoBeforeSleep (put (set_epoch st e) (c_myself st) (with_configEpoch me e)) (Z.lor (Z.lor CLUSTER_TODO_SAVE_CONFIG CLUSTER_TODO_FSYNC_CONFIG) CLUSTER_TODO_BROADCAST_PONG))
  else Some (false, st).

Definition clusterHandleConfigEpochCollision (st : clusterState) (sender : Z) : option clusterState :=
  s ← c_nodes st !! sender;
  me ← c_nodes st !! c_myself st;
  if negb (n_configEpoch s =? n_configEpoch me) || negb (clusterNodeIsMaster s) || negb (clusterNodeIsMaster me) then Some st
  else if memcmp (n_name s) (n_name me) <=? 0 then Some st
  else
    let e := u64 (c_currentEpoch st + 1) in
    Some (clusterDoBeforeSleep (put (set_epoch st e) (c_myself st) (with_configEpoch me e)) CLUSTER_TODO_BROADCAST_PONG).

(** ** The state of the cluster *)

Section Config.
(** [cluster-require-full-coverage], [cluster-node-timeout], [cluster-replica-no-failover],
    [cluster-replica-validity-factor] and [repl-ping-replica-period]. *)
Context (require_full_coverage : bool) (node_timeout : Z) (no_failover : bool) (validity_factor ping_period : Z).

(** The masters that serve slots, and those of them that are reachable. *)
Definition voting_masters (st : clusterState) : Z :=
  map_fold (fun _ n s => if clusterNodeIsMaster n && negb (n_numslots n =? 0) then s + 1 else s) 0 (c_nodes st).
Definition reachable_masters (st : clusterState) : Z :=
  map_fold (fun _ n s => if clusterNodeIsMaster n && negb (n_numslots n =? 0) && (Z.land (n_flags n) (Z.lor CLUSTER_NODE_FAIL CLUSTER_NODE_PFAIL) =? 0) then s + 1 else s) 0 (c_nodes st).

(** Every slot has an owner that did not fail. *)
Definition all_covered (st : clusterState) : option bool :=
  foldr (fun o acc => acc ← acc; match o with None => Some false | Some id => n ← c_nodes st !! id; Some (negb (nodeFailed n) && acc) end) (Some true) (c_slots st).

Definition clusterUpdateState (now : Z) (st : clusterState) : option clusterState :=
  let st := set_todo st (Z.land (c_todo st) (Z.lnot CLUSTER_TODO_UPDATE_STATE)) in
  let h := c_health st in
  let first := if h_first_call_time h =? 0 then now else h_first_call_time h in
  me ← c_nodes st !! c_myself st;
  if clusterNodeIsMaster me && (h_state h =? CLUSTER_FAIL) && (now - first <? CLUSTER_WRITABLE_DELAY) then
    Some (set_health st (c_size st) {| h_state := h_state h; h_first_call_time := first; h_among_minority_time := h_among_minority_time h |})
  else
    covered ← (if require_full_coverage then all_covered st else Some true);
    let new_state := if covered : bool then CLUSTER_OK else CLUSTER_FAIL in
    let size := voting_masters st in
    let needed_quorum := size / 2 + 1 in
    let minority := reachable_masters st <? needed_quorum in
    let new_state := if minority then CLUSTER_FAIL else new_state in
    let among := if minority then now else h_among_minority_time h in
    let stay := set_health st size {| h_state := h_state h; h_first_call_time := first; h_among_minority_time := among |} in
    if new_state =? h_state h then Some stay
    else
      let rejoin_delay := Z.max CLUSTER_MIN_REJOIN_DELAY (Z.min node_timeout CLUSTER_MAX_REJOIN_DELAY) in
      if (new_state =? CLUSTER_OK) && clusterNodeIsMaster me && (now - among <? rejoin_delay) then Some stay
      else Some (set_health st size {| h_state := new_state; h_first_call_time := first; h_among_minority_time := among |}).

(** ** Elections *)

Inductive msg_type := AUTH_REQUEST | AUTH_ACK.

(** The fields of the header that are used here. *)
Record clusterMsg := { m_type : msg_type; m_from : Z; m_to : Z; m_currentEpoch : Z; m_configEpoch : Z; m_slots : list Z; m_force_ack : bool }.

(** [clusterBuildMessageHdr]: a replica sends the slots and the config epoch of its master. *)
Definition clusterBuildMessageHdr (st : clusterState) (type : msg_type) (to : Z) (force_ack : bool) : option clusterMsg :=
  me ← c_nodes st !! c_myself st;
  master ← (match n_slaveof me with Some m => if nodeIsSlave me then c_nodes st !! m else Some me | None => Some me end);
  Some {| m_type := type; m_from := c_myself st; m_to := to; m_currentEpoch := c_currentEpoch st; m_configEpoch := n_configEpoch master; m_slots := n_slots master; m_force_ack := force_ack |}.

(** To every node with a link that is neither this one nor in handshake. *)
Definition clusterRequestFailoverAuth (st : clusterState) : option (list clusterMsg) :=
  mapM (fun to => clusterBuildMessageHdr st AUTH_REQUEST to (negb (c_mf_end st =? 0)))
    (fst <$> filter (fun x => (Z.land (n_flags x.2) (Z.lor CLUSTER_NODE_MYSELF CLUSTER_NODE_HANDSHAKE) =? 0) && n_link x.2 = true) (map_to_list (c_nodes st))).

Definition clusterSendFailoverAuth (st : clusterState) (id : Z) : option (list clusterMsg) :=
  n ← c_nodes st !! id;
  if negb (n_link n) then Some []
  else m ← clusterBuildMessageHdr st AUTH_ACK id false; Some [m].

(** Whether every claimed slot is free or served under an older config epoch. *)
Fixpoint slots_allow (n : nat) (j : Z) (st : clusterState) (claimed_slots : list Z) (requestConfigEpoch : Z) : option bool :=
  match n with
  | O => Some true
  | S n =>
      b ← bitmapTestBit claimed_slots j;
      if negb b then slots_allow n (j + 1) st claimed_slots requestConfigEpoch
      else
        u ← isSlotUnclaimed st j;
        if u : bool then slots_allow n (j + 1) st claimed_slots requestConfigEpoch
        else
          o ← slot_owner st j; id ← o; owner ← c_nodes st !! id;
          if n_configEpoch owner <=? requestConfigEpoch then slots_allow n (j + 1) st claimed_slots requestConfigEpoch
          else Some false
  end.

Definition clusterSendFailoverAuthIfNeeded (now : Z) (st : clusterState) (id : Z) (request : clusterMsg) : option (clusterState * list clusterMsg) :=
  node ← c_nodes st !! id;
  me ← c_nodes st !! c_myself st;
  if nodeIsSlave me || (n_numslots me =? 0) then Some (st, [])
  else if m_currentEpoch request <? c_currentEpoch st then Some (st, [])
  else if c_lastVoteEpoch st =? c_currentEpoch st then Some (st, [])
  else if clusterNodeIsMaster node then Some (st, [])
  else
    match n_slaveof node with
    | None => Some (st, [])
    | Some mid =>
        master ← c_nodes st !! mid;
        if negb (nodeFailed master) && negb (m_force_ack request) then Some (st, [])
        else if now - n_voted_time master <? node_timeout * 2 then Some (st, [])
        else
          ok ← slots_allow (Z.to_nat CLUSTER_SLOTS) 0 st (m_slots request) (m_configEpoch request);
          if negb ok then Some (st, [])
          else
            let st := set_vote st (c_currentEpoch st) in
            let st := put st mid (with_voted_time master now) in
            let st := clusterDoBeforeSleep st (Z.lor CLUSTER_TODO_SAVE_CONFIG CLUSTER_TODO_FSYNC_CONFIG) in
            msgs ← clusterSendFailoverAuth st id;
            Some (st, msgs)
    end.

Definition with_count (el : election) (n : Z) : election := {| auth_time := auth_time el; auth_count := n; auth_sent := auth_sent el; auth_rank := auth_rank el; auth_epoch := auth_epoch el |}.

(** The epochs in the header of a message of a known node. *)
Definition process_header (st : clusterState) (m : clusterMsg) (sender : clusterNode) : clusterState :=
  if has_flag sender CLUSTER_NODE_HANDSHAKE then st
  else
    let st := if m_currentEpoch m >? c_currentEpoch st then set_epoch st (m_currentEpoch m) else st in
    if m_configEpoch m >? n_configEpoch sender then
      clusterDoBeforeSleep (put st (m_from m) (with_configEpoch sender (m_configEpoch m))) (Z.lor CLUSTER_TODO_SAVE_CONFIG CLUSTER_TODO_FSYNC_CONFIG)
    else st.

(** The parts of [clusterProcessPacket] for the epochs of the header and for the two
    messages of an election.  A message of an unknown node is ignored.  The replication
    offset of the sender and the pause of a manual failover, which the header also
    carries, are changes of the view. *)
Definition clusterProcessPacket (now : Z) (st : clusterState) (m : clusterMsg) : option (clusterState * list clusterMsg) :=
  match c_nodes st !! m_from m with
  | None => Some (st, [])
  | Some sender =>
      let st := process_header st m sender in
      match m_type m with
      | AUTH_REQUEST => clusterSendFailoverAuthIfNeeded now st (m_from m) m
      | AUTH_ACK =>
          let senderCurrentEpoch := if has_flag sender CLUSTER_NODE_HANDSHAKE then 0 else m_currentEpoch m in
          if clusterNodeIsMaster sender && (n_numslots sender >? 0) && (senderCurrentEpoch >=? auth_epoch (c_election st)) then
            Some (clusterDoBeforeSleep (set_election st (with_count (c_election st) (auth_count (c_election st) + 1))) CLUSTER_TODO_HANDLE_FAILOVER, [])
          else Some (st, [])
      end
  end.

(** [my_offset]: [replicationGetSlaveOffset()] *)
Definition clusterGetSlaveRank (my_offset : Z) (st : clusterState) : option Z :=
  me ← c_nodes st !! c_myself st;
  _ ← cassert (nodeIsSlave me);
  match n_slaveof me with
  | None => Some 0
  | Some mid =>
      master ← c_nodes st !! mid;
      foldl (fun acc id => rank ← acc; s ← c_nodes st !! id;
        Some (if negb (id =? c_myself st) && negb (nodeCantFailover s) && (n_repl_offset s >? my_offset) then rank + 1 else rank)) (Some 0) (n_slaves master)
  end.

Definition resetManualFailover (st : clusterState) : clusterState := set_manual st 0 false.

(** The node takes the slots of its master. *)
Definition clusterFailoverReplaceYourMaster (now : Z) (st : clusterState) : option clusterState :=
  me ← c_nodes st !! c_myself st;
  match n_slaveof me with
  | None => Some st
  | Some oldmaster =>
      if clusterNodeIsMaster me then Some st
      else
        st ← clusterSetNodeAsMaster st (c_myself st);
        '(_, st) ← clusterMoveNodeSlots st oldmaster (c_myself st);
        st ← clusterUpdateState now st;
        Some (resetManualFailover (clusterDoBeforeSleep st CLUSTER_TODO_BROADCAST_PONG))
  end.

(** [rnd]: [random()]; [disconnected]: the milliseconds since the link to the master was
    last used.  The result says whether the election was won.  What is logged, and the
    pong to the other replicas of the master, are left out. *)
Definition clusterHandleSlaveFailover (now rnd disconnected my_offset : Z) (st : clusterState) : option (clusterState * list clusterMsg * bool) :=
  let el := c_election st in
  let auth_age := now - auth_time el in
  let needed_quorum := c_size st / 2 + 1 in
  let manual_failover := negb (c_mf_end st =? 0) && c_mf_can_start st in
  let st := set_todo st (Z.land (c_todo st) (Z.lnot CLUSTER_TODO_HANDLE_FAILOVER)) in
  let auth_timeout := Z.max (node_timeout * 2) 2000 in
  let auth_retry_time := auth_timeout * 2 in
  me ← c_nodes st !! c_myself st;
  match n_slaveof me with
  | None => Some (st, [], false)
  | Some mid =>
      master ← c_nodes st !! mid;
      if clusterNodeIsMaster me || (negb (nodeFailed master) && negb manual_failover) || (no_failover && negb manual_failover) || (n_numslots master =? 0) then Some (st, [], false)
      else
        let data_age := if disconnected >? node_timeout then disconnected - node_timeout else disconnected in
        if negb (validity_factor =? 0) && (data_age >? ping_period * 1000 + node_timeout * validity_factor) && negb manual_failover then Some (st, [], false)
        else if auth_age >? auth_retry_time then
          rank ← clusterGetSlaveRank my_offset st;
          if c_mf_end st =? 0 then
            Some (set_election st {| auth_time := now + 500 + rnd mod 500 + rank * 1000; auth_count := 0; auth_sent := false; auth_rank := rank; auth_epoch := auth_epoch el |}, [], false)
          else
            Some (clusterDoBeforeSleep (set_election st {| auth_time := now; auth_count := 0; auth_sent := false; auth_rank := 0; auth_epoch := auth_epoch el |}) CLUSTER_TODO_HANDLE_FAILOVER, [], false)
        else
          el ← (if negb (auth_sent el) && (c_mf_end st =? 0) then
                  newrank ← clusterGetSlaveRank my_offset st;
                  Some (if newrank >? auth_rank el then
                          {| auth_time := auth_time el + (newrank - auth_rank el) * 1000; auth_count := auth_count el; auth_sent := auth_sent el; auth_rank := newrank; auth_epoch := auth_epoch el |}
                        else el)
                else Some el);
          let st := set_election st el in
          if now <? auth_time el then Some (st, [], false)
          else if auth_age >? auth_timeout then Some (st, [], false)
          else if negb (auth_sent el) then
            let st := set_epoch st (u64 (c_currentEpoch st + 1)) in
            let st := set_election st {| auth_time := auth_time el; auth_count := auth_count el; auth_sent := true; auth_rank := auth_rank el; auth_epoch := c_currentEpoch st |} in
            msgs ← clusterRequestFailoverAuth st;
            Some (clusterDoBeforeSleep st (Z.lor (Z.lor CLUSTER_TODO_SAVE_CONFIG CLUSTER_TODO_UPDATE_STATE) CLUSTER_TODO_FSYNC_CONFIG), msgs, false)
          else if auth_count el >=? needed_quorum then
            let st := if n_configEpoch me <? auth_epoch el then put st (c_myself st) (with_configEpoch me (auth_epoch el)) else st in
            st ← clusterFailoverReplaceYourMaster now st;
            Some (st, [], true)
          else Some (st, [], false)
  end.
End Config.
