(* ===== verification/ClusterElectThms.v ===== *)
(** * Elections in a cluster

    The world is the nodes and the messages between them.  Messages are lost and
    overtake each other; nodes hold elections and vote at any time, and whatever
    else they learn changes their view.  The history of the acknowledgements sent
    and of the elections won is kept beside. *)

From stdpp Require Import base list gmap sets numbers option tactics.
From S2P Require Import Prelude Order Cluster.

(** ** The world *)

(** [w_acks]: voter, epoch, candidate; [w_wins]: winner, epoch. *)
Record world := { w_nodes : gmap Z clusterState; w_net : list clusterMsg; w_acks : list (Z * Z * Z); w_wins : list (Z * Z) }.

Definition ack_of (m : clusterMsg) : option (Z * Z * Z) := match m_type m with AUTH_ACK => Some (m_from m, m_currentEpoch m, m_to m) | AUTH_REQUEST => None end.

(** A node and what it sent. *)
Definition update (w : world) (id : Z) (st : clusterState) (net msgs : list clusterMsg) (wins : list (Z * Z)) : world :=
  {| w_nodes := <[id := st]> (w_nodes w); w_net := msgs ++ net; w_acks := omap ack_of msgs ++ w_acks w; w_wins := wins ++ w_wins w |}.

Section Elect.
Context (require_full_coverage : bool) (node_timeout : Z) (no_failover : bool) (validity_factor ping_period : Z).
(** The masters that serve slots, on which the nodes that count votes agree. *)
Context (M : gset Z).
(** Whether an acknowledgement only arrives while the election it could answer is open. *)
Context (timely : bool).

Definition view_ok (st : clusterState) : Prop :=
  Z.of_nat (size M) <= c_size st /\ forall id n, c_nodes st !! id = Some n -> clusterNodeIsMaster n = true -> 0 < n_numslots n -> id ∈ M.

(** What the other handlers do: they change the view and raise the epoch, and leave the
    vote and the election alone. *)
Definition other_change (st st' : clusterState) : Prop :=
  c_myself st' = c_myself st /\ c_election st' = c_election st /\ c_lastVoteEpoch st' = c_lastVoteEpoch st /\ c_currentEpoch st <= c_currentEpoch st'.

Inductive step : world -> world -> Prop :=
  | step_election w id st now rnd disconnected offset st' msgs won :
      w_nodes w !! id = Some st -> view_ok st -> c_currentEpoch st + 1 < 2 ^ 64 ->
      clusterHandleSlaveFailover require_full_coverage node_timeout no_failover validity_factor ping_period now rnd disconnected offset st = Some (st', msgs, won) ->
      step w (update w id st' (w_net w) msgs (if won then [(id, auth_epoch (c_election st))] else []))
  | step_deliver w net1 m net2 st now st' msgs :
      w_net w = net1 ++ m :: net2 -> w_nodes w !! m_to m = Some st -> view_ok st ->
      (timely = true -> m_type m = AUTH_ACK -> auth_sent (c_election st) = true) ->
      clusterProcessPacket node_timeout now st m = Some (st', msgs) ->
      step w (update w (m_to m) st' (net1 ++ net2) msgs [])
  | step_drop w net1 m net2 :
      w_net w = net1 ++ m :: net2 -> step w {| w_nodes := w_nodes w; w_net := net1 ++ net2; w_acks := w_acks w; w_wins := w_wins w |}
  | step_other w id st st' :
      w_nodes w !! id = Some st -> other_change st st' -> step w (update w id st' (w_net w) [] []).

(** No election was held yet. *)
Definition fresh_world (w : world) : Prop :=
  w_net w = [] /\ w_acks w = [] /\ w_wins w = [] /\
  forall id st, w_nodes w !! id = Some st -> c_myself st = id /\ 0 <= c_currentEpoch st /\ c_lastVoteEpoch st <= c_currentEpoch st /\ auth_sent (c_election st) = false /\ auth_count (c_election st) = 0 /\ auth_epoch (c_election st) <= c_currentEpoch st.

Inductive reachable : world -> Prop :=
  | reach_fresh w : fresh_world w -> reachable w
  | reach_step w w' : reachable w -> step w w' -> reachable w'.
End Elect.

(** ** What the handlers do to the election *)

Section Handlers.
Context (require_full_coverage : bool) (node_timeout : Z) (no_failover : bool) (validity_factor ping_period : Z).

(** The vote and the election stay. *)
Definition keeps (st st' : clusterState) : Prop :=
  c_myself st' = c_myself st /\ c_election st' = c_election st /\ c_lastVoteEpoch st' = c_lastVoteEpoch st /\ c_currentEpoch st' = c_currentEpoch st.

#[global] Instance keeps_refl : Reflexive keeps.
Proof. by intros st. Qed.
#[global] Instance keeps_trans : Transitive keeps.
Proof. intros a b c (?&?&?&?) (?&?&?&?). repeat split; congruence. Qed.

Ltac split_binds H := repeat (let E := fresh "E" in match type of H with
  | mbind (M := option) _ _ = Some _ => let y := fresh "y" in apply bind_Some in H as (y & E & H); lazymatch type of y with (_ * _)%type => destruct y as [? y] | _ => idtac end
  | (let '(_, _) := ?x in _) = Some _ => destruct x eqn:E
  | (if ?b then _ else _) = Some _ => destruct b eqn:E
  | match ?x with Some _ => _ | None => _ end = Some _ => destruct x eqn:E
  end).

Lemma keeps_set_bit st id slot b st' : clusterNodeSetSlotBit st id slot = Some (b, st') -> keeps st st'.
Proof. intros H. unfold clusterNodeSetSlotBit in H. split_binds H; by simplify_eq. Qed.

Lemma keeps_clear_bit st id slot b st' : clusterNodeClearSlotBit st id slot = Some (b, st') -> keeps st st'.
Proof. intros H. unfold clusterNodeClearSlotBit in H. split_binds H; by simplify_eq. Qed.

Lemma keeps_assign st slot o st' : assign_slot st slot o = Some st' -> keeps st st'.
Proof. intros H. unfold assign_slot in H. split_binds H; by simplify_eq. Qed.

Lemma keeps_add st id slot b st' : clusterAddSlot st id slot = Some (b, st') -> keeps st st'.
Proof.
  intros H. unfold clusterAddSlot in H. split_binds H; simplify_eq; [done|]. etrans; [by eapply keeps_set_bit|by eapply keeps_assign].
Qed.

Lemma keeps_del st slot b st' : clusterDelSlot st slot = Some (b, st') -> keeps st st'.
Proof. intros H. unfold clusterDelSlot in H. split_binds H; simplify_eq; [|done]. etrans; [by eapply keeps_clear_bit|by eapply keeps_assign]. Qed.

Lemma keeps_move n : forall j st from to p x, move_slots n j st from to p = Some x -> keeps st x.2.
Proof.
  induction n as [|n IH]; intros j st from to p x H; cbn [move_slots] in H; [by simplify_eq|]. split_binds H; [|by eapply IH].
  etrans; [by eapply keeps_del|]. etrans; [by eapply keeps_add|]. by eapply IH.
Qed.

Lemma keeps_move_all st from to p st' : clusterMoveNodeSlots st from to = Some (p, st') -> keeps st st'.
Proof. unfold clusterMoveNodeSlots. intros H. exact (keeps_move _ _ _ _ _ _ _ H). Qed.

Lemma keeps_remove_slave st m s st' : clusterNodeRemoveSlave st m s = Some st' -> keeps st st'.
Proof. intros H. unfold clusterNodeRemoveSlave in H. split_binds H; by simplify_eq. Qed.

Lemma keeps_as_master st id st' : clusterSetNodeAsMaster st id = Some st' -> keeps st st'.
Proof.
  intros H. unfold clusterSetNodeAsMaster in H. apply bind_Some in H as (n & _ & H). destruct (clusterNodeIsMaster n); [by simplify_eq|]. apply bind_Some in H as (st1 & E1 & H). apply bind_Some in H as (n1 & _ & H). injection H as <-.
  assert (H1 : keeps st st1); [|by etrans; [exact H1|]]. destruct (n_slaveof n) as [m|]; [|by simplify_eq]. apply bind_Some in E1 as (st2 & E2 & E1). apply bind_Some in E1 as (n2 & _ & E1).
  etrans; [by eapply keeps_remove_slave|]. destruct (_ =? _); by simplify_eq.
Qed.

Lemma keeps_update_state now st st' : clusterUpdateState require_full_coverage node_timeout now st = Some st' -> keeps st st'.
Proof. intros H. unfold clusterUpdateState in H. cbv zeta in H. split_binds H; by simplify_eq. Qed.

Lemma keeps_replace now st st' : clusterFailoverReplaceYourMaster require_full_coverage node_timeout now st = Some st' -> keeps st st'.
Proof.
  intros H. unfold clusterFailoverReplaceYourMaster in H. apply bind_Some in H as (me & _ & H). destruct (n_slaveof me) as [old|]; [|by injection H as <-]. destruct (clusterNodeIsMaster me); [by injection H as <-|].
  apply bind_Some in H as (st1 & E1 & H). apply bind_Some in H as ([p st2] & E2 & H). apply bind_Some in H as (st3 & E3 & H). injection H as <-.
  etrans; [exact (keeps_as_master _ _ _ E1)|]. etrans; [exact (keeps_move_all _ _ _ _ _ E2)|]. etrans; [exact (keeps_update_state _ _ _ E3)|]. done.
Qed.
(** *** The candidate *)

Lemma build_hdr st type to force m : clusterBuildMessageHdr st type to force = Some m -> m_type m = type /\ m_from m = c_myself st /\ m_to m = to /\ m_currentEpoch m = c_currentEpoch st.
Proof. intros H. unfold clusterBuildMessageHdr in H. apply bind_Some in H as (me & _ & H). apply bind_Some in H as (ma & _ & H). by simplify_eq. Qed.

Lemma requests_spec st msgs : clusterRequestFailoverAuth st = Some msgs -> Forall (fun m => m_type m = AUTH_REQUEST /\ m_from m = c_myself st /\ m_currentEpoch m = c_currentEpoch st) msgs.
Proof.
  unfold clusterRequestFailoverAuth. intros H. apply mapM_Some in H. induction H as [|to m l ms H _ IH]; constructor; [|done]. apply build_hdr in H as (?&?&_&?). done.
Qed.

(** What a call of [clusterHandleSlaveFailover] does to the election: nothing or a new
    delay, the start of an election, or a win. *)
Inductive election_outcome (st : clusterState) : clusterState -> list clusterMsg -> bool -> Prop :=
  | outcome_wait st' : c_myself st' = c_myself st -> c_lastVoteEpoch st' = c_lastVoteEpoch st -> c_currentEpoch st' = c_currentEpoch st -> auth_epoch (c_election st') = auth_epoch (c_election st) ->
      (auth_sent (c_election st') = auth_sent (c_election st) /\ auth_count (c_election st') = auth_count (c_election st) \/ auth_sent (c_election st') = false /\ auth_count (c_election st') = 0) ->
      election_outcome st st' [] false
  | outcome_start st' msgs : c_myself st' = c_myself st -> c_lastVoteEpoch st' = c_lastVoteEpoch st -> c_currentEpoch st' = u64 (c_currentEpoch st + 1) -> auth_epoch (c_election st') = c_currentEpoch st' ->
      auth_sent (c_election st) = false -> auth_sent (c_election st') = true -> auth_count (c_election st') = auth_count (c_election st) ->
      Forall (fun m => m_type m = AUTH_REQUEST /\ m_from m = c_myself st /\ m_currentEpoch m = c_currentEpoch st') msgs -> election_outcome st st' msgs false
  | outcome_won st' : c_myself st' = c_myself st -> c_lastVoteEpoch st' = c_lastVoteEpoch st -> c_currentEpoch st' = c_currentEpoch st -> c_election st' = c_election st ->
      auth_sent (c_election st) = true -> c_size st / 2 + 1 <= auth_count (c_election st) -> election_outcome st st' [] true.

Lemma election_spec now rnd disconnected offset st st' msgs won :
  clusterHandleSlaveFailover require_full_coverage node_timeout no_failover validity_factor ping_period now rnd disconnected offset st = Some (st', msgs, won) -> election_outcome st st' msgs won.
Proof.
  intros H. unfold clusterHandleSlaveFailover in H. cbv zeta in H. apply bind_Some in H as (me & _ & H). destruct (n_slaveof me) as [mid|]; [|simplify_eq; apply outcome_wait; auto]. apply bind_Some in H as (master & _ & H).
  destruct (_ || _ || _ || _); [simplify_eq; apply outcome_wait; auto|]. destruct (_ && _ && _); [simplify_eq; apply outcome_wait; auto|]. destruct (_ >? _).
  { apply bind_Some in H as (rank & _ & H). destruct (_ =? 0); simplify_eq; apply outcome_wait; auto. }
  apply bind_Some in H as (el & Hel & H). assert (Heq : auth_count el = auth_count (c_election st) /\ auth_sent el = auth_sent (c_election st) /\ auth_epoch el = auth_epoch (c_election st) /\ (auth_sent el = true -> el = c_election st)).
  { destruct (negb (auth_sent (c_election st)) && _) eqn:E; [|by simplify_eq]. apply andb_true_iff in E as [E _]. apply negb_true_iff in E. apply bind_Some in Hel as (nr & _ & Hel). destruct (_ >? _); simplify_eq; cbn; split_and!; congruence. }
  destruct Heq as (H1 & H2 & H3 & H4). destruct (now <? _); [simplify_eq; apply outcome_wait; auto|]. destruct (_ >? _); [simplify_eq; apply outcome_wait; auto|]. destruct (negb (auth_sent el)) eqn:Es.
  { apply negb_true_iff in Es. apply bind_Some in H as (ms & Hms & H). apply requests_spec in Hms. simplify_eq. apply outcome_start; try done. by rewrite <- H2. }
  apply negb_false_iff in Es. specialize (H4 Es). subst el. destruct (Z.geb_spec (auth_count (c_election st)) (c_size st / 2 + 1)); [|simplify_eq; apply outcome_wait; auto].
  apply bind_Some in H as (st1 & Hst1 & H). simplify_eq. pose proof (keeps_replace _ _ _ Hst1) as (K1 & K2 & K3 & K4). destruct (n_configEpoch me <? _); apply outcome_won; try done.
Qed.

(** *** The voter *)

(** What a request does: nothing, or a vote in the epoch of the voter. *)
Inductive vote_outcome (st : clusterState) (m : clusterMsg) : clusterState -> list clusterMsg -> Prop :=
  | vote_refused st' : other_change st st' -> vote_outcome st m st' []
  | vote_granted st' msgs : c_myself st' = c_myself st -> c_election st' = c_election st -> c_currentEpoch st <= c_currentEpoch st' -> c_lastVoteEpoch st' = c_currentEpoch st' ->
      c_lastVoteEpoch st <> c_currentEpoch st' -> c_currentEpoch st' <= m_currentEpoch m ->
      msgs = [] \/ (exists a, msgs = [a] /\ m_type a = AUTH_ACK /\ m_from a = c_myself st /\ m_to a = m_from m /\ m_currentEpoch a = c_currentEpoch st') -> vote_outcome st m st' msgs.

Lemma vote_spec now st id m st' msgs : clusterSendFailoverAuthIfNeeded node_timeout now st id m = Some (st', msgs) -> id = m_from m -> vote_outcome st m st' msgs.
Proof.
  intros H ->. assert (Hno : vote_outcome st m st []) by (apply vote_refused; by split_and!). unfold clusterSendFailoverAuthIfNeeded in H. apply bind_Some in H as (node & _ & H). apply bind_Some in H as (me & _ & H).
  destruct (_ || _); [by simplify_eq|]. destruct (Z.ltb_spec (m_currentEpoch m) (c_currentEpoch st)) as [|He]; [by simplify_eq|]. destruct (Z.eqb_spec (c_lastVoteEpoch st) (c_currentEpoch st)) as [|Hv]; [by simplify_eq|]. destruct (clusterNodeIsMaster node); [by simplify_eq|].
  destruct (n_slaveof node) as [mid|]; [|by simplify_eq]. apply bind_Some in H as (master & _ & H). destruct (_ && _); [by simplify_eq|]. destruct (_ <? _); [by simplify_eq|]. apply bind_Some in H as (ok & _ & H). destruct (negb ok); [by simplify_eq|].
  apply bind_Some in H as (ms & Hms & H). injection H as <- <-. apply vote_granted; try done. unfold clusterSendFailoverAuth in Hms. apply bind_Some in Hms as (n & _ & Hms). destruct (negb (n_link n)); [left; congruence|right].
  apply bind_Some in Hms as (a & Ha & Hms). apply build_hdr in Ha as (?&?&?&?). exists a. injection Hms as <-. done.
Qed.

(** The state after the header of a message. *)
Lemma packet_spec now st m st' msgs : clusterProcessPacket node_timeout now st m = Some (st', msgs) ->
  match m_type m with
  | AUTH_REQUEST => vote_outcome st m st' msgs
  | AUTH_ACK => msgs = [] /\ (other_change st st' \/
      c_myself st' = c_myself st /\ c_lastVoteEpoch st' = c_lastVoteEpoch st /\ c_currentEpoch st <= c_currentEpoch st' /\ c_election st' = with_count (c_election st) (auth_count (c_election st) + 1) /\
      (auth_epoch (c_election st) <= m_currentEpoch m \/ auth_epoch (c_election st) <= 0) /\ exists sender, c_nodes st !! m_from m = Some sender /\ clusterNodeIsMaster sender = true /\ 0 < n_numslots sender)
  end.
Proof.
  intros H. unfold clusterProcessPacket in H. assert (Hr : other_change st st) by (by split_and!). destruct (c_nodes st !! m_from m) as [sender|]; [|simplify_eq; destruct (m_type m); [by apply vote_refused|by split; [|left]]]. cbv zeta in H.
  set (st1 := process_header st m sender) in H. assert (H1 : other_change st st1).
  { unfold st1, process_header. destruct (has_flag _ _); [done|]. set (st2 := if m_currentEpoch m >? c_currentEpoch st then _ else st). assert (H2 : other_change st st2) by (unfold st2; destruct (Z.gtb_spec (m_currentEpoch m) (c_currentEpoch st)); [split_and!; try done; cbn; lia|done]).
    destruct (m_configEpoch m >? _); exact H2. }
  clearbody st1. destruct H1 as (A1 & A2 & A3 & A4). destruct (m_type m).
  - destruct (vote_spec _ _ _ _ _ _ H eq_refl) as [st' (B1 & B2 & B3 & B4)|st' msgs B1 B2 B3 B4 B5 B6 B7]; [apply vote_refused; split_and!; [congruence|congruence|congruence|lia]|].
    apply vote_granted; [congruence|congruence|lia|done|congruence|done|]. by rewrite <- A1.
  - destruct (_ && _ && _) eqn:E; [|simplify_eq; split; [done|left; by split_and!]]. injection H as <- <-. split; [done|right]. rewrite !andb_true_iff in E. destruct E as [[E1 E2] E3]. apply Z.gtb_lt in E2. rewrite Z.geb_leb in E3. apply Z.leb_le in E3. rewrite A2 in E3.
    split_and!; [done|done|done|cbn; by rewrite A2|destruct (has_flag _ _); [by right|by left]|by exists sender].
Qed.
End Handlers.

(** * At most one winner per epoch

    Along every run the counted votes of a candidate are distinct acknowledgements of its
    current election, and a master acknowledges one candidate per epoch, so two
    candidates cannot both have a majority. *)

(** ** Lists of votes *)

Lemma NoDup_key {A K} (f : A -> K) (l : list A) x y : NoDup (f <$> l) -> x ∈ l -> y ∈ l -> f x = f y -> x = y.
Proof.
  induction l as [|a l IH]; [intros _ H; by apply not_elem_of_nil in H|]. cbn. intros [Ha Hl]%list.NoDup_cons Hx Hy He. apply elem_of_cons in Hx, Hy. destruct Hx as [->|Hx], Hy as [->|Hy]; [done| | |by apply IH].
  - exfalso. apply Ha. rewrite He. by apply list_elem_of_fmap_2.
  - exfalso. apply Ha. rewrite <- He. by apply list_elem_of_fmap_2.
Qed.

Definition votes (e r : Z) (C : list Z) : list (Z * Z * Z) := (fun m => (m, e, r)) <$> C.

(** The voters [C] acknowledged [r] in [e], beside the acknowledgements [net]. *)
Definition counted (M : gset Z) (net acks : list (Z * Z * Z)) (e r : Z) (C : list Z) : Prop :=
  Forall (fun m => m ∈ M) C /\ votes e r C ++ net ⊆+ acks.

Lemma counted_net M net net' acks e r C : net' ⊆+ net -> counted M net acks e r C -> counted M net' acks e r C.
Proof. intros H [H1 H2]. split; [done|]. etrans; [|exact H2]. by apply submseteq_skips_l. Qed.

Lemma counted_send M net acks new e r C : counted M net acks e r C -> counted M (new ++ net) (new ++ acks) e r C.
Proof. intros [H1 H2]. split; [done|]. rewrite (assoc_L (++)), (comm (++) (votes e r C) new), <- (assoc_L (++)). by apply submseteq_skips_l. Qed.

Lemma counted_vote M net acks e r C m : m ∈ M -> counted M ((m, e, r) :: net) acks e r C -> counted M net acks e r (m :: C).
Proof. intros Hm [H1 H2]. split; [by constructor|]. etrans; [|exact H2]. cbn. by rewrite Permutation_middle. Qed.

Lemma counted_NoDup M net acks e r C : NoDup (fst <$> acks) -> counted M net acks e r C -> NoDup C /\ forall m, m ∈ C -> m ∈ M /\ (m, e, r) ∈ acks.
Proof.
  intros Hk [H1 H2]. assert (Hs : votes e r C ⊆+ acks) by (etrans; [apply (submseteq_inserts_r net); reflexivity|done]). split.
  - apply (NoDup_fmap_1 (fun m => (m, e))). assert (Hf : (fun m => (m, e)) <$> C = fst <$> votes e r C) by (unfold votes; by rewrite <- list_fmap_compose). rewrite Hf. apply submseteq_Permutation in Hs as (k & Hp). rewrite Hp, fmap_app in Hk. by apply list.NoDup_app in Hk as [Hk _].
  - intros m Hm. split; [by eapply list.Forall_forall in H1|]. eapply elem_of_submseteq; [|exact Hs]. by apply (list_elem_of_fmap_2 (fun m => (m, e, r))).
Qed.

(** Two majorities of the same epoch have a common voter. *)
Lemma majorities M acks e r1 r2 C1 C2 : NoDup (fst <$> acks) -> counted M [] acks e r1 C1 -> counted M [] acks e r2 C2 ->
  Z.of_nat (size M) < 2 * Z.of_nat (length C1) -> Z.of_nat (size M) < 2 * Z.of_nat (length C2) -> r1 = r2.
Proof.
  intros Hk H1 H2 L1 L2. apply (counted_NoDup _ _ _ _ _ _ Hk) in H1 as [N1 I1], H2 as [N2 I2]. destruct (decide (r1 = r2)) as [|Hne]; [done|exfalso].
  assert (Hd : forall m, m ∈ C1 -> m ∉ C2).
  { intros m M1 M2. apply I1 in M1 as [_ M1]. apply I2 in M2 as [_ M2]. pose proof (NoDup_key fst acks _ _ Hk M1 M2 eq_refl). congruence. }
  assert (Hn : NoDup (C1 ++ C2)) by (by apply list.NoDup_app). assert (Hs : list_to_set (C := gset Z) (C1 ++ C2) ⊆ M).
  { intros m Hm. apply elem_of_list_to_set, elem_of_app in Hm as [Hm|Hm]; [by apply I1|by apply I2]. }
  apply subseteq_size in Hs. rewrite size_list_to_set in Hs by done. rewrite length_app in Hs. lia.
Qed.

Lemma acks_remove net1 m net2 : omap ack_of (net1 ++ net2) ⊆+ omap ack_of (net1 ++ m :: net2).
Proof. rewrite !omap_app. apply submseteq_skips_l. cbn. destruct (ack_of m); [by apply submseteq_cons|done]. Qed.

(** ** The invariant *)

Section Safety.
Context (require_full_coverage : bool) (node_timeout : Z) (no_failover : bool) (validity_factor ping_period : Z) (M : gset Z).
#[local] Abbreviation step := (step require_full_coverage node_timeout no_failover validity_factor ping_period M true).
#[local] Abbreviation reachable := (reachable require_full_coverage node_timeout no_failover validity_factor ping_period M true).

Definition node_ok (id : Z) (st : clusterState) : Prop :=
  c_myself st = id /\ 0 <= c_currentEpoch st /\ c_lastVoteEpoch st <= c_currentEpoch st /\ auth_epoch (c_election st) <= c_currentEpoch st /\
  if auth_sent (c_election st) then 1 <= auth_epoch (c_election st) else auth_count (c_election st) = 0.

(** A message answers or asks for an election that the candidate knows. *)
Definition msg_ok (nodes : gmap Z clusterState) (m : clusterMsg) : Prop :=
  forall st, nodes !! (match m_type m with AUTH_REQUEST => m_from m | AUTH_ACK => m_to m end) = Some st -> m_currentEpoch m <= auth_epoch (c_election st).

Definition tally_ok (net acks : list (Z * Z * Z)) (id : Z) (st : clusterState) : Prop :=
  exists C, counted M net acks (auth_epoch (c_election st)) id C /\ zlen C = auth_count (c_election st).

Definition win_ok (acks : list (Z * Z * Z)) (win : Z * Z) : Prop :=
  exists C, counted M [] acks win.2 win.1 C /\ Z.of_nat (size M) < 2 * zlen C.

Record election_inv (w : world) : Prop := {
  inv_node id st : w_nodes w !! id = Some st -> node_ok id st;
  inv_vote v e r st : (v, e, r) ∈ w_acks w -> w_nodes w !! v = Some st -> e <= c_lastVoteEpoch st;
  inv_keys : NoDup (fst <$> w_acks w);
  inv_msgs : Forall (msg_ok (w_nodes w)) (w_net w);
  inv_tally id st : w_nodes w !! id = Some st -> tally_ok (omap ack_of (w_net w)) (w_acks w) id st;
  inv_wins : Forall (win_ok (w_acks w)) (w_wins w) }.

Lemma win_ok_send acks new win : win_ok acks win -> win_ok (new ++ acks) win.
Proof.
  intros (C & H & L). exists C. split; [|done]. apply (counted_send M [] acks new) in H. eapply counted_net; [|exact H]. apply submseteq_nil_l.
Qed.

Lemma msg_ok_update nodes id st st' m : nodes !! id = Some st -> auth_epoch (c_election st) <= auth_epoch (c_election st') -> msg_ok nodes m -> msg_ok (<[id := st']> nodes) m.
Proof.
  intros Hst He Hm s Hs. apply lookup_insert_Some in Hs as [[Hk ->]|[_ Hs]]; [|by apply Hm]. etrans; [|exact He]. apply Hm. by rewrite <- Hk.
Qed.

(** A node changes: it learns, starts or counts, and sends at most one vote, of an epoch
    in which it had not voted. *)
Lemma inv_update w id st st' net msgs wins :
  election_inv w -> w_nodes w !! id = Some st -> node_ok id st' -> c_lastVoteEpoch st <= c_lastVoteEpoch st' -> auth_epoch (c_election st) <= auth_epoch (c_election st') ->
  (forall m, m ∈ net -> m ∈ w_net w) -> omap ack_of net ⊆+ omap ack_of (w_net w) ->
  Forall (msg_ok (<[id := st']> (w_nodes w))) msgs ->
  (omap ack_of msgs = [] \/ exists r, omap ack_of msgs = [(id, c_lastVoteEpoch st', r)] /\ c_lastVoteEpoch st < c_lastVoteEpoch st') ->
  tally_ok (omap ack_of net) (w_acks w) id st' -> Forall (win_ok (w_acks w)) wins ->
  election_inv (update w id st' net msgs wins).
Proof.
  intros [I1 I2 I3 I4 I5 I6] Hst Hok Hv He Hin Hsub Hmsgs Hack Ht Hw. constructor; cbn.
  - intros i s Hs. apply lookup_insert_Some in Hs as [[<- ->]|[_ Hs]]; [done|by apply I1].
  - intros v e r s Ha Hs. apply elem_of_app in Ha as [Ha|Ha].
    + destruct Hack as [Hack|(r' & Hack & _)]; rewrite Hack in Ha; [by apply not_elem_of_nil in Ha|]. apply list_elem_of_singleton in Ha. injection Ha as -> -> ->. rewrite lookup_insert in Hs. destruct (decide _); [by simplify_eq|done].
    + apply lookup_insert_Some in Hs as [[-> ->]|[_ Hs]]; [|by eapply I2]. etrans; [|exact Hv]. by eapply I2.
  - rewrite fmap_app. destruct Hack as [->|(r & -> & Hlt)]; [done|]. cbn. apply list.NoDup_cons. split; [|done]. intros Ha. apply list_elem_of_fmap in Ha as ([[v e] r'] & Heq & Ha). cbn in Heq. injection Heq as -> <-. specialize (I2 _ _ _ _ Ha Hst). lia.
  - apply list.Forall_app. split; [done|]. apply list.Forall_forall. intros m Hm. eapply msg_ok_update; [exact Hst|exact He|]. eapply list.Forall_forall in I4; [exact I4|]. by apply Hin.
  - intros i s Hs. rewrite omap_app. assert (Hc : tally_ok (omap ack_of net) (w_acks w) i s).
    { apply lookup_insert_Some in Hs as [[<- ->]|[_ Hs]]; [done|]. destruct (I5 _ _ Hs) as (C & H & L). exists C. split; [by eapply counted_net|done]. }
    destruct Hc as (C & H & L). exists C. split; [by apply counted_send|done].
  - apply list.Forall_app. split; (eapply list.Forall_impl; [eassumption|intros ? ?; by apply win_ok_send]).
Qed.

Lemma requests_no_acks from e msgs : Forall (fun m => m_type m = AUTH_REQUEST /\ m_from m = from /\ m_currentEpoch m = e) msgs -> omap ack_of msgs = [].
Proof. induction 1 as [|m l (H & _) _ IH]; [done|]. cbn. unfold ack_of at 1. rewrite H. exact IH. Qed.

Lemma tally_same net acks id st st' : c_election st' = c_election st -> tally_ok net acks id st -> tally_ok net acks id st'.
Proof. unfold tally_ok. by intros ->. Qed.

Lemma tally_zero net acks id st : net ⊆+ acks -> auth_count (c_election st) = 0 -> tally_ok net acks id st.
Proof. intros H E. exists []. rewrite E. split; [|done]. split; [constructor|exact H]. Qed.

Lemma inv_net_acks w id st : election_inv w -> w_nodes w !! id = Some st -> omap ack_of (w_net w) ⊆+ w_acks w.
Proof. intros I H. destruct (inv_tally _ I _ _ H) as (C & [_ Hc] & _). etrans; [|exact Hc]. by apply submseteq_inserts_l. Qed.

Lemma inv_other w id st st' : election_inv w -> w_nodes w !! id = Some st -> other_change st st' -> node_ok id st' .
Proof. intros I Hst (E1 & E2 & E3 & E4). destruct (inv_node _ I _ _ Hst) as (H1 & H2 & H3 & H4 & H5). unfold node_ok. rewrite E1, E2, E3. split_and!; try done; lia. Qed.

Lemma election_inv_step w id st st' msgs won : election_inv w -> w_nodes w !! id = Some st -> view_ok M st -> c_currentEpoch st + 1 < 2 ^ 64 ->
  election_outcome st st' msgs won -> election_inv (update w id st' (w_net w) msgs (if won then [(id, auth_epoch (c_election st))] else [])).
Proof.
  intros I Hst [Hview _] Hlt Ho. pose proof (inv_node _ I _ _ Hst) as (H1 & H2 & H3 & H4 & H5). pose proof (inv_tally _ I _ _ Hst) as Ht. pose proof (inv_net_acks _ _ _ I Hst) as Hn.
  destruct Ho as [st' E1 E2 E3 E4 E5|st' msgs E1 E2 E3 E4 E5 E6 E7 E8|st' E1 E2 E3 E4 E5 E6].
  - apply (inv_update w id st); try done; [|lia|lia|by left|].
    + unfold node_ok. rewrite E1, E2, E3, E4. destruct E5 as [[-> ->]|[-> ->]]; done.
    + destruct E5 as [[_ E5]|[_ E5]]; [|by apply tally_zero]. destruct Ht as (C & HC & L). exists C. by rewrite E4, E5.
  - rewrite E5 in H5. assert (Eu : c_currentEpoch st' = c_currentEpoch st + 1) by (rewrite E3; unfold u64; apply Z.mod_small; lia). apply (inv_update w id st); try done; try lia.
    + unfold node_ok. rewrite E1, E2, E4, E6. split_and!; try done; lia.
    + eapply list.Forall_impl; [exact E8|]. intros m (T & F & E) s. rewrite T, F, H1, lookup_insert_eq. intros [= <-]. lia.
    + left. by eapply requests_no_acks.
    + apply tally_zero; [done|congruence].
  - rewrite E5 in H5. apply (inv_update w id st); try done; [|lia|by rewrite E4|by left| |].
    + unfold node_ok. rewrite E1, E2, E3, E4, E5. by split_and!.
    + by apply (tally_same _ _ _ st).
    + apply list.Forall_singleton. destruct Ht as (C & HC & L). exists C. split; [|Z.to_euclidean_division_equations; lia]. eapply counted_net; [apply submseteq_nil_l|exact HC].
Qed.

Lemma election_inv_deliver w net1 m net2 st st' msgs now : election_inv w -> w_net w = net1 ++ m :: net2 -> w_nodes w !! m_to m = Some st -> view_ok M st ->
  (m_type m = AUTH_ACK -> auth_sent (c_election st) = true) -> clusterProcessPacket node_timeout now st m = Some (st', msgs) -> election_inv (update w (m_to m) st' (net1 ++ net2) msgs []).
Proof.
  intros I Hnet Hst [_ Hview] Htime Hp. apply packet_spec in Hp. pose proof (inv_node _ I _ _ Hst) as (H1 & H2 & H3 & H4 & H5).
  assert (Hsub : omap ack_of (net1 ++ net2) ⊆+ omap ack_of (w_net w)) by (rewrite Hnet; apply acks_remove). assert (Hin : forall x, x ∈ net1 ++ net2 -> x ∈ w_net w) by (rewrite Hnet; intros x; rewrite !elem_of_app, elem_of_cons; tauto).
  assert (Ht : forall s, c_election s = c_election st -> tally_ok (omap ack_of (net1 ++ net2)) (w_acks w) (m_to m) s).
  { intros s Es. apply (tally_same _ _ _ st); [done|]. destruct (inv_tally _ I _ _ Hst) as (C & HC & L). exists C. split; [by eapply counted_net|done]. }
  assert (Hm : msg_ok (w_nodes w) m) by (pose proof (inv_msgs _ I) as Hf; rewrite Hnet in Hf; by apply list.Forall_app in Hf as [_ [Hf _]%list.Forall_cons]).
  assert (Hother : forall s, other_change st s -> election_inv (update w (m_to m) s (net1 ++ net2) [] [])).
  { intros s Hs. pose proof (inv_other _ _ _ _ I Hst Hs). destruct Hs as (E1 & E2 & E3 & E4). apply (inv_update w (m_to m) st); try done; [lia|by rewrite E2|by left|by apply Ht]. }
  destruct (m_type m) eqn:Ty.
  - destruct Hp as [st' Hs|st' msgs E1 E2 E3 E4 E5 E6 E7]; [by apply Hother|]. apply (inv_update w (m_to m) st); try done; [|lia|by rewrite E2| | |by apply Ht].
    + unfold node_ok. rewrite E1, E2, E4. split_and!; try done; lia.
    + destruct E7 as [->|(a & -> & Ta & Fa & Oa & Ea)]; [done|]. apply list.Forall_singleton. intros s. rewrite Ta, Oa, Ea. intros Hs. etrans; [exact E6|]. unfold msg_ok in Hm. rewrite Ty in Hm.
      apply lookup_insert_Some in Hs as [[Hk <-]|[_ Hs]]; [|by apply Hm]. rewrite E2. apply Hm. by rewrite <- Hk.
    + destruct E7 as [->|(a & -> & Ta & Fa & Oa & Ea)]; [by left|right]. exists (m_from m). cbn. unfold ack_of. rewrite Ta, Fa, Oa, Ea, E4, H1. split; [done|lia].
  - destruct Hp as [-> [Hs|(E1 & E2 & E3 & E4 & E5 & sender & Hs & Hmaster & Hslots)]]; [by apply Hother|]. rewrite (Htime eq_refl) in H5. apply (inv_update w (m_to m) st); try done; [|lia|by rewrite E4|by left|].
    + unfold node_ok. rewrite E1, E2, E4. cbn. rewrite (Htime eq_refl). split_and!; try done; lia.
    + destruct (inv_tally _ I _ _ Hst) as (C & HC & L). exists (m_from m :: C). rewrite E4. cbn [auth_epoch auth_count with_count]. split; [|rewrite zlen_cons; lia]. apply counted_vote; [by eapply Hview|].
      unfold msg_ok in Hm. rewrite Ty in Hm. specialize (Hm _ Hst). assert (Ee : m_currentEpoch m = auth_epoch (c_election st)) by lia. eapply counted_net; [|exact HC]. rewrite Hnet, !omap_app. cbn. assert (Ea : ack_of m = Some (m_from m, auth_epoch (c_election st), m_to m)) by (unfold ack_of; by rewrite Ty, Ee). rewrite Ea. by rewrite Permutation_middle.
Qed.

Lemma election_inv_reachable w : reachable w -> election_inv w.
Proof.
  induction 1 as [w (N & A & W & F)|w w' _ I Hs].
  - constructor; rewrite ?N, ?A, ?W; [| |constructor..| |constructor].
    + intros id st Hst. destruct (F _ _ Hst) as (F1 & F2 & F3 & F4 & F5 & F6). unfold node_ok. rewrite F4. by split_and!.
    + intros v e r st H. by apply not_elem_of_nil in H.
    + intros id st Hst. destruct (F _ _ Hst) as (F1 & F2 & F3 & F4 & F5 & F6). by apply tally_zero.
  - destruct Hs as [w id st now rnd disc off st' msgs won Hst Hv Hlt H|w net1 m net2 st now st' msgs Hnet Hst Hv Ht H|w net1 m net2 Hnet|w id st st' Hst Hc].
    + apply election_spec in H. by eapply election_inv_step.
    + eapply election_inv_deliver; try done. by apply Ht.
    + destruct I as [I1 I2 I3 I4 I5 I6]. constructor; cbn; try done.
      * rewrite Hnet in I4. apply list.Forall_app in I4 as [I4 [_ I4']%list.Forall_cons]. by apply list.Forall_app.
      * intros id st Hst. destruct (I5 _ _ Hst) as (C & HC & L). exists C. split; [|done]. eapply counted_net; [|exact HC]. rewrite Hnet. apply acks_remove.
    + pose proof (inv_other _ _ _ _ I Hst Hc). pose proof (inv_tally _ I _ _ Hst). destruct Hc as (E1 & E2 & E3 & E4). apply (inv_update w id st); try done; [lia|by rewrite E2|by left|by apply (tally_same _ _ _ st)].
Qed.

(** C6: In every run from a state without elections, with messages lost, delayed and
    reordered and the epochs and views of nodes changing in between, two nodes that
    win an election in the same epoch are the same node, provided that: whenever a
    node holds an election or handles a message, the masters with slots it knows
    are in one fixed set [M] and its cluster size is at least that of [M]
    ([view_ok]); acknowledgements arrive only while an election is open at the
    node they reach; and epochs stay below [2^64 - 1]. *)
Theorem one_winner_per_epoch w r1 r2 e : reachable w -> (r1, e) ∈ w_wins w -> (r2, e) ∈ w_wins w -> r1 = r2.
Proof.
  intros I%election_inv_reachable H1 H2. pose proof (inv_wins _ I) as Hw. rewrite list.Forall_forall in Hw. apply Hw in H1 as (C1 & H1 & L1), H2 as (C2 & H2 & L2). by eapply majorities; [apply (inv_keys _ I)|exact H1|exact H2| |].
Qed.
End Safety.
