(* ===== verification/ClusterSlots.v ===== *)
(** * The slot tables of a cluster node

    The table of owners, the bitmap of every node and its number of slots say the same,
    whatever [clusterAddSlot], [clusterDelSlot] and the transfers between nodes do. *)

From stdpp Require Import base list gmap numbers option tactics.
From S2P Require Import Prelude Order Fwtree BitopsSpec Cluster.

(** ** Bitmaps *)

Lemma slot_bit pos : 0 <= pos -> Z.shiftl 1 (Z.land pos 7) = 2 ^ (pos mod 8).
Proof. intros H. rewrite Z.shiftl_1_l. f_equal. change 7 with (Z.ones 3). by rewrite Z.land_ones. Qed.

Lemma slot_place p q : 0 <= p -> 0 <= q -> p / 8 = q / 8 -> p mod 8 = q mod 8 -> p = q.
Proof. intros. rewrite (Z.div_mod p 8), (Z.div_mod q 8) by lia. congruence. Qed.

Lemma bitmapTestBit_rd bm pos b : 0 <= pos -> rd bm (pos / 8) = Some b -> bitmapTestBit bm pos = Some (Z.testbit b (pos mod 8)).
Proof.
  intros Hp H. unfold bitmapTestBit. rewrite H. cbn. rewrite slot_bit by done. rewrite land_pow2_test by (apply Z.mod_pos_bound; lia). by rewrite negb_involutive.
Qed.

(** A bit is written, and the others stay. *)
Lemma bitmap_write bm p f v : 0 <= p < 8 * zlen bm -> (forall b k, 0 <= k -> Z.testbit (f b) k = if decide (k = p mod 8) then v else Z.testbit b k) ->
  exists b bm', rd bm (p / 8) = Some b /\ wr bm (p / 8) (f b) = Some bm' /\ zlen bm' = zlen bm /\
    forall q, 0 <= q < 8 * zlen bm -> bitmapTestBit bm' q = if decide (q = p) then Some v else bitmapTestBit bm q.
Proof.
  intros Hp Hf. assert (Hi : 0 <= p / 8 < zlen bm) by (split; [apply Z.div_pos; lia|apply Z.div_lt_upper_bound; lia]). destruct (rd_Some bm (p / 8) Hi) as [b Hb]. destruct (rd_wr bm (p / 8) (f b) Hi) as (bm' & Hw & Hl & Hr).
  exists b, bm'. split_and!; try done. intros q Hq. assert (Hq' : 0 <= q / 8 < zlen bm) by (split; [apply Z.div_pos; lia|apply Z.div_lt_upper_bound; lia]). destruct (rd_Some bm (q / 8) Hq') as [c Hc].
  pose proof (Hr (q / 8)) as Hr'. destruct (decide (q / 8 = p / 8)) as [E|E].
  - rewrite (bitmapTestBit_rd _ q _ ltac:(lia) Hr'), (bitmapTestBit_rd _ q _ ltac:(lia) Hc), Hf by (apply Z.mod_pos_bound; lia). assert (c = b) as -> by congruence.
    destruct (decide (q = p)) as [->|Hne]; [by rewrite decide_True|]. rewrite decide_False; [done|]. intros Em. by apply Hne, slot_place; [lia|lia| |].
  - rewrite Hc in Hr'. rewrite (bitmapTestBit_rd _ q _ ltac:(lia) Hr'), (bitmapTestBit_rd _ q _ ltac:(lia) Hc). rewrite decide_False; [done|]. congruence.
Qed.

Lemma bitmapSetBit_spec bm p : 0 <= p < 8 * zlen bm ->
  exists bm', bitmapSetBit bm p = Some bm' /\ zlen bm' = zlen bm /\ forall q, 0 <= q < 8 * zlen bm -> bitmapTestBit bm' q = if decide (q = p) then Some true else bitmapTestBit bm q.
Proof.
  intros Hp. pose proof (Z.mod_pos_bound p 8 ltac:(lia)) as Hm. destruct (bitmap_write bm p (fun b => Z.lor b (2 ^ (p mod 8))) true Hp) as (b & bm' & Hb & Hw & Hl & Ht).
  { intros b k Hk. rewrite Z.lor_spec, Z.pow2_bits_eqb by lia. destruct (Z.eqb_spec (p mod 8) k); destruct (decide _); try congruence; [apply orb_true_r|apply orb_false_r]. }
  exists bm'. unfold bitmapSetBit. rewrite Hb. cbn. rewrite slot_bit by lia. done.
Qed.

Lemma bitmapClearBit_spec bm p : 0 <= p < 8 * zlen bm ->
  exists bm', bitmapClearBit bm p = Some bm' /\ zlen bm' = zlen bm /\ forall q, 0 <= q < 8 * zlen bm -> bitmapTestBit bm' q = if decide (q = p) then Some false else bitmapTestBit bm q.
Proof.
  intros Hp. pose proof (Z.mod_pos_bound p 8 ltac:(lia)) as Hm. destruct (bitmap_write bm p (fun b => Z.land b (Z.lnot (2 ^ (p mod 8)))) false Hp) as (b & bm' & Hb & Hw & Hl & Ht).
  { intros b k Hk. rewrite Z.land_spec, Z.lnot_spec, Z.pow2_bits_eqb by lia. destruct (Z.eqb_spec (p mod 8) k); destruct (decide _); try congruence; [apply andb_false_r|apply andb_true_r]. }
  exists bm'. unfold bitmapClearBit. rewrite Hb. cbn. rewrite slot_bit by lia. done.
Qed.

(** ** The table of owners *)

Definition owned (l : list (option Z)) (id : Z) : Z := zlen (filter (fun o => o = Some id) l).

Definition one (o : option Z) (id : Z) : Z := if decide (o = Some id) then 1 else 0.

Lemma owned_cons o l id : owned (o :: l) id = one o id + owned l id.
Proof. unfold owned, one. rewrite filter_cons. destruct (decide _); [by rewrite zlen_cons|lia]. Qed.

Lemma owned_insert l j o o' id : l !! j = Some o -> owned (<[j := o']> l) id = owned l id - one o id + one o' id.
Proof.
  revert j. induction l as [|a l IH]; intros [|j] H; try done.
  - cbn in H. injection H as ->. change (<[0%nat := o']> (o :: l)) with (o' :: l). rewrite !owned_cons. lia.
  - change (<[S j := o']> (a :: l)) with (a :: <[j := o']> l). rewrite !owned_cons, (IH j) by done. lia.
Qed.

Lemma owned_nonneg l id : 0 <= owned l id.
Proof. apply zlen_nonneg. Qed.

(** From place [j] on, what [from] owned is given to [o]. *)
Definition redirect (j : nat) (from : Z) (o : option Z) (l : list (option Z)) : list (option Z) :=
  imap (fun i x => if decide ((j <= i)%nat /\ x = Some from) then o else x) l.

#[local] Ltac decide_cases := repeat destruct (decide _); try done; exfalso; match goal with H : ~ (_ /\ _) |- _ => apply H; split; [lia|tauto] | H : _ /\ _ |- _ => destruct H; first [congruence|lia|tauto] end.

Lemma redirect_end j from o l : (length l <= j)%nat -> redirect j from o l = l.
Proof.
  intros H. apply list_eq. intros i. unfold redirect. rewrite list_lookup_imap. destruct (l !! i) as [x|] eqn:E; [|done]. cbn. apply lookup_lt_Some in E. rewrite decide_False; [done|lia].
Qed.

Lemma redirect_all from o l : redirect 0 from o l = (fun x => if decide (x = Some from) then o else x) <$> l.
Proof. apply list_eq. intros i. unfold redirect. rewrite list_lookup_imap, list_lookup_fmap. destruct (l !! i) as [x|]; [|done]. cbn. f_equal. decide_cases. Qed.

Lemma redirect_skip j from o l : l !! j <> Some (Some from) -> redirect j from o l = redirect (S j) from o l.
Proof.
  intros H. apply list_eq. intros i. unfold redirect. rewrite !list_lookup_imap. destruct (l !! i) as [x|] eqn:E; [|done]. cbn. f_equal. destruct (decide (j = i)) as [->|Hne].
  - decide_cases.
  - decide_cases.
Qed.

Lemma redirect_set j from o l : l !! j = Some (Some from) -> redirect j from o l = redirect (S j) from o (<[j := o]> l).
Proof.
  intros H. apply list_eq. intros i. unfold redirect. rewrite !list_lookup_imap. pose proof (lookup_lt_Some _ _ _ H) as Hl. destruct (decide (i = j)) as [->|Hne].
  - rewrite list_lookup_insert_eq by done. rewrite H. cbn. rewrite decide_True by (split; [lia|done]). rewrite decide_False by lia. done.
  - rewrite list_lookup_insert_ne by done. destruct (l !! i) as [x|]; [|done]. cbn. f_equal. decide_cases.
Qed.

Lemma owned_redirect from to l : Some from <> to -> owned ((fun x => if decide (x = Some from) then to else x) <$> l) from = 0.
Proof. intros H. induction l as [|a l IH]; [done|]. cbn [fmap list_fmap]. rewrite owned_cons, IH. unfold one. repeat destruct (decide _); try congruence; lia. Qed.

Lemma owned_merge from to l : from <> to -> owned ((fun x => if decide (x = Some from) then Some to else x) <$> l) to = owned l from + owned l to.
Proof. intros Hne. induction l as [|a l IH]; [done|]. cbn [fmap list_fmap]. rewrite !owned_cons, IH. unfold one. repeat destruct (decide _); simplify_eq; lia. Qed.

(** ** The invariant *)

Definition node_slots_ok (slots : list (option Z)) (id : Z) (n : clusterNode) : Prop :=
  zlen (n_slots n) = 2048 /\ n_numslots n = owned slots id /\
  forall j, 0 <= j < CLUSTER_SLOTS -> bitmapTestBit (n_slots n) j = Some (bool_decide (slots !! Z.to_nat j = Some (Some id))).

Record slots_inv (st : clusterState) : Prop := {
  si_len : zlen (c_slots st) = CLUSTER_SLOTS;
  si_claims : zlen (c_not_claiming st) = 2048;
  si_owner j id : c_slots st !! j = Some (Some id) -> is_Some (c_nodes st !! id);
  si_node id n : c_nodes st !! id = Some n -> node_slots_ok (c_slots st) id n }.

(** Roles stay. *)
Definition same_role (n n' : clusterNode) : Prop := n_slaveof n' = n_slaveof n /\ clusterNodeIsMaster n' = clusterNodeIsMaster n.
Definition same_nodes (st st' : clusterState) : Prop := c_myself st' = c_myself st /\ forall id, option_Forall2 same_role (c_nodes st !! id) (c_nodes st' !! id).

#[global] Instance same_role_refl : Reflexive same_role.
Proof. by intros n. Qed.
#[global] Instance same_role_trans : Transitive same_role.
Proof. intros a b c [??] [??]. split; congruence. Qed.
#[global] Instance same_nodes_refl : Reflexive same_nodes.
Proof. by intros st. Qed.
#[global] Instance same_nodes_trans : Transitive same_nodes.
Proof. intros a b c [H1 H2] [H3 H4]. split; [congruence|]. intros id. specialize (H2 id). specialize (H4 id). destruct H2; inversion H4; simplify_eq; constructor. by etrans. Qed.

Lemma same_nodes_dom st st' id : same_nodes st st' -> is_Some (c_nodes st !! id) <-> is_Some (c_nodes st' !! id).
Proof. intros [_ H]. destruct (H id); split; intros [? ?]; by eauto. Qed.

(** The owner of slot [j] becomes [o]. *)
Definition reassigned (st st' : clusterState) (j : Z) (o : option Z) : Prop :=
  slots_inv st' /\ c_slots st' = <[Z.to_nat j := o]> (c_slots st) /\ same_nodes st st'.

Lemma same_nodes_put st id n n' : c_nodes st !! id = Some n -> same_role n n' -> same_nodes st (put st id n').
Proof.
  intros H Hr. split; [done|]. intros i. cbn. destruct (decide (i = id)) as [->|Hne]; [rewrite lookup_insert_eq, H; by constructor|by rewrite lookup_insert_ne].
Qed.

Lemma same_role_flag n f : Z.land f CLUSTER_NODE_MASTER = 0 -> same_role n (with_flags n (Z.lor (n_flags n) f)).
Proof. intros H. split; [done|]. unfold clusterNodeIsMaster, has_flag. cbn. by rewrite Z.land_lor_distr_l, H, Z.lor_0_r. Qed.

Lemma put_lookup st id n : c_nodes (put st id n) !! id = Some n.
Proof. apply lookup_insert_eq. Qed.

Lemma put_put st id n n' : put (put st id n) id n' = put st id n'.
Proof. unfold put, set_nodes. cbn. by rewrite insert_insert_eq. Qed.

Lemma slot_range st j : slots_inv st -> 0 <= j < CLUSTER_SLOTS -> exists o, c_slots st !! Z.to_nat j = Some o /\ slot_owner st j = Some o.
Proof.
  intros I Hj. pose proof (si_len _ I) as Hl. destruct (lookup_lt_is_Some_2 (c_slots st) (Z.to_nat j)) as [o Ho]; [unfold zlen in Hl; lia|]. exists o. split; [done|]. unfold slot_owner. destruct (Z.leb_spec 0 j); [done|lia].
Qed.

(** What is left to show when a slot changes hands: the node concerned has its new bit,
    and the others are not concerned. *)
Lemma reassigned_intro st st1 j o o' : slots_inv st -> 0 <= j < CLUSTER_SLOTS -> c_slots st !! Z.to_nat j = Some o ->
  c_slots st1 = c_slots st -> c_not_claiming st1 = c_not_claiming st -> same_nodes st st1 ->
  (forall id n, c_nodes st1 !! id = Some n -> node_slots_ok (<[Z.to_nat j := o']> (c_slots st)) id n) -> (forall id, o' = Some id -> is_Some (c_nodes st !! id)) ->
  exists st', assign_slot st1 j o' = Some st' /\ reassigned st st' j o'.
Proof.
  intros I Hj Ho E1 E2 Hs Hn Hi. unfold assign_slot. rewrite E1, E2. destruct (bitmapClearBit_spec (c_not_claiming st) j) as (bm & Hb & Hl & _); [rewrite (si_claims _ I); unfold CLUSTER_SLOTS in Hj; lia|].
  rewrite Hb. cbn. eexists. split; [done|]. split; [|done]. constructor; cbn.
  - rewrite <- (si_len _ I). unfold zlen. by rewrite length_insert.
  - by rewrite Hl, (si_claims _ I).
  - intros i id Hid. apply (same_nodes_dom _ _ id Hs). destruct (decide (i = Z.to_nat j)) as [->|Hne].
    + rewrite list_lookup_insert_eq in Hid by (by apply lookup_lt_Some in Ho). apply Hi. congruence.
    + rewrite list_lookup_insert_ne in Hid by done. by eapply si_owner.
  - exact Hn.
Qed.

(** A node that neither loses nor gets the slot. *)
Lemma node_slots_other slots j o o' id n : slots !! Z.to_nat j = Some o -> 0 <= j -> o <> Some id -> o' <> Some id -> node_slots_ok slots id n -> node_slots_ok (<[Z.to_nat j := o']> slots) id n.
Proof.
  intros Ho Hj H1 H2 (L & N & B). split_and!; [done| |].
  - rewrite (owned_insert _ _ o) by done. unfold one. rewrite !decide_False by done. lia.
  - intros i Hi. rewrite B by done. f_equal. apply bool_decide_ext. destruct (decide (i = j)) as [->|Hne]; [|by rewrite list_lookup_insert_ne by lia]. rewrite Ho, list_lookup_insert_eq by (by apply lookup_lt_Some in Ho). split; congruence.
Qed.

Lemma node_slots_set slots j o id n bm : slots !! Z.to_nat j = Some o -> 0 <= j < CLUSTER_SLOTS -> o <> Some id -> node_slots_ok slots id n ->
  zlen bm = zlen (n_slots n) -> (forall q, 0 <= q < 8 * zlen (n_slots n) -> bitmapTestBit bm q = if decide (q = j) then Some true else bitmapTestBit (n_slots n) q) ->
  node_slots_ok (<[Z.to_nat j := Some id]> slots) id (with_slots n bm (n_numslots n + 1)).
Proof.
  intros Ho Hj H1 (L & N & B) Hl Hb. split_and!; cbn [n_slots n_numslots with_slots]; [lia| |].
  - rewrite (owned_insert _ _ o) by done. unfold one. rewrite (decide_False (P := o = Some id)), decide_True by done. lia.
  - intros i Hi. rewrite Hb by (rewrite L; unfold CLUSTER_SLOTS in Hi; lia). destruct (decide (i = j)) as [->|Hne]; [by rewrite list_lookup_insert_eq, bool_decide_true by (by apply lookup_lt_Some in Ho)|]. by rewrite list_lookup_insert_ne, B by lia.
Qed.

Lemma node_slots_clear slots j id n bm : slots !! Z.to_nat j = Some (Some id) -> 0 <= j < CLUSTER_SLOTS -> node_slots_ok slots id n ->
  zlen bm = zlen (n_slots n) -> (forall q, 0 <= q < 8 * zlen (n_slots n) -> bitmapTestBit bm q = if decide (q = j) then Some false else bitmapTestBit (n_slots n) q) ->
  node_slots_ok (<[Z.to_nat j := None]> slots) id (with_slots n bm (n_numslots n - 1)).
Proof.
  intros Ho Hj (L & N & B) Hl Hb. split_and!; cbn [n_slots n_numslots with_slots]; [lia| |].
  - rewrite (owned_insert _ _ (Some id)) by done. unfold one. rewrite (decide_False (P := None = Some id)), decide_True by done. lia.
  - intros i Hi. rewrite Hb by (rewrite L; unfold CLUSTER_SLOTS in Hi; lia). destruct (decide (i = j)) as [->|Hne]; [by rewrite list_lookup_insert_eq, bool_decide_false by (by apply lookup_lt_Some in Ho)|]. by rewrite list_lookup_insert_ne, B by lia.
Qed.

Lemma node_slots_flags slots id n f : node_slots_ok slots id n -> node_slots_ok slots id (with_flags n f).
Proof. done. Qed.

(** ** The operations *)

Lemma clusterDelSlot_spec st j id : slots_inv st -> 0 <= j < CLUSTER_SLOTS -> slot_owner st j = Some (Some id) -> exists st', clusterDelSlot st j = Some (true, st') /\ reassigned st st' j None.
Proof.
  intros I Hj Ho. destruct (slot_range _ _ I Hj) as (o & Hl & Ho'). assert (o = Some id) as -> by congruence. destruct (si_owner _ I _ _ Hl) as [n Hn]. pose proof (si_node _ I _ _ Hn) as Hok. pose proof Hok as (L & N & B).
  destruct (bitmapClearBit_spec (n_slots n) j) as (bm & Hb & Hbl & Hbt); [rewrite L; unfold CLUSTER_SLOTS in Hj; lia|].
  edestruct (reassigned_intro st (put st id (with_slots n bm (n_numslots n - 1))) j (Some id) None) as (st' & Ha & Hr); try done; [by eapply same_nodes_put| |].
  { intros i m Hm. cbn in Hm. apply lookup_insert_Some in Hm as [[<- <-]|[Hne Hm]]; [by apply node_slots_clear|]. eapply node_slots_other; [exact Hl|lia|congruence|done|by apply (si_node _ I)]. }
  exists st'. split; [|done]. unfold clusterDelSlot. rewrite Ho. cbn [mbind option_bind]. unfold clusterNodeClearSlotBit. rewrite Hn. cbn [mbind option_bind]. rewrite B, bool_decide_true by done. cbn [mbind option_bind]. rewrite Hb. cbn [mbind option_bind cassert]. by rewrite Ha.
Qed.

Lemma clusterAddSlot_spec st j id : slots_inv st -> 0 <= j < CLUSTER_SLOTS -> slot_owner st j = Some None -> is_Some (c_nodes st !! id) -> exists st', clusterAddSlot st id j = Some (true, st') /\ reassigned st st' j (Some id).
Proof.
  intros I Hj Ho [n Hn]. destruct (slot_range _ _ I Hj) as (o & Hl & Ho'). assert (o = None) as -> by congruence. pose proof (si_node _ I _ _ Hn) as Hok. pose proof Hok as (L & N & B).
  destruct (bitmapSetBit_spec (n_slots n) j) as (bm & Hb & Hbl & Hbt); [rewrite L; unfold CLUSTER_SLOTS in Hj; lia|]. set (n1 := with_slots n bm (n_numslots n + 1)).
  assert (Hmain : forall n', node_slots_ok (<[Z.to_nat j := Some id]> (c_slots st)) id n' -> same_role n n' -> exists st', assign_slot (put st id n') j (Some id) = Some st' /\ reassigned st st' j (Some id)).
  { intros n' Hn' Hr'. eapply reassigned_intro; try done; [by eapply same_nodes_put| |intros i [= <-]; by exists n].
    intros i m Hm. cbn in Hm. apply lookup_insert_Some in Hm as [[<- <-]|[Hne Hm]]; [done|]. eapply node_slots_other; [exact Hl|lia|done|congruence|by apply (si_node _ I)]. }
  assert (H1 : node_slots_ok (<[Z.to_nat j := Some id]> (c_slots st)) id n1) by (eapply node_slots_set; try done). unfold clusterAddSlot. rewrite Ho. cbn [mbind option_bind]. unfold clusterNodeSetSlotBit. rewrite Hn. cbn [mbind option_bind].
  rewrite B, bool_decide_false by congruence. cbn [mbind option_bind]. rewrite Hb. cbn [mbind option_bind]. fold n1. destruct (_ && _).
  - rewrite put_lookup. cbn [mbind option_bind]. rewrite put_put. set (n2 := with_flags n1 _). destruct (Hmain n2) as (st' & Ha & Hr); [by apply node_slots_flags|by trans n1; [|apply same_role_flag]|]. exists st'. by rewrite Ha.
  - destruct (Hmain n1 H1 ltac:(done)) as (st' & Ha & Hr). exists st'. cbn [mbind option_bind]. by rewrite Ha.
Qed.

Lemma covers_spec st id j : slots_inv st -> 0 <= j < CLUSTER_SLOTS -> is_Some (c_nodes st !! id) -> clusterNodeCoversSlot st id j = Some (bool_decide (c_slots st !! Z.to_nat j = Some (Some id))).
Proof. intros I Hj [n Hn]. unfold clusterNodeCoversSlot. rewrite Hn. cbn. by apply (si_node _ I). Qed.

Lemma owner_of st j id : 0 <= j -> c_slots st !! Z.to_nat j = Some id -> slot_owner st j = Some id.
Proof. intros Hj H. unfold slot_owner. destruct (Z.leb_spec 0 j); [done|lia]. Qed.

Lemma slot_succ j : 0 <= j -> Z.to_nat (j + 1) = S (Z.to_nat j).
Proof. lia. Qed.

(** What a loop from slot [j] on did. *)
Definition redirected (st st' : clusterState) (j : Z) (from : Z) (o : option Z) : Prop :=
  slots_inv st' /\ c_slots st' = redirect (Z.to_nat j) from o (c_slots st) /\ same_nodes st st'.

Lemma redirected_end st j from o : slots_inv st -> CLUSTER_SLOTS <= j -> redirected st st j from o.
Proof. intros I Hj. split_and!; [done| |done]. rewrite redirect_end; [done|]. pose proof (si_len _ I). unfold zlen in *. lia. Qed.

Lemma redirected_skip st st' j from o : 0 <= j -> c_slots st !! Z.to_nat j <> Some (Some from) -> redirected st st' (j + 1) from o -> redirected st st' j from o.
Proof. intros Hj H (I & E & S). split_and!; [done| |done]. rewrite redirect_skip by done. by rewrite E, slot_succ. Qed.

Lemma redirected_set st st1 st' j from o : 0 <= j -> c_slots st !! Z.to_nat j = Some (Some from) -> reassigned st st1 j o -> redirected st1 st' (j + 1) from o -> redirected st st' j from o.
Proof.
  intros Hj H (I1 & E1 & S1) (I & E & S). split_and!; [done| |by etrans]. rewrite redirect_set by done. by rewrite E, E1, slot_succ.
Qed.

Lemma move_slot st j from to : slots_inv st -> 0 <= j < CLUSTER_SLOTS -> c_slots st !! Z.to_nat j = Some (Some from) -> is_Some (c_nodes st !! to) ->
  exists st1 st2, clusterDelSlot st j = Some (true, st1) /\ clusterAddSlot st1 to j = Some (true, st2) /\ reassigned st st2 j (Some to).
Proof.
  intros I Hj Ho Ht. destruct (clusterDelSlot_spec st j from I Hj (owner_of st j _ ltac:(lia) Ho)) as (st1 & E1 & I1 & S1 & N1). pose proof (lookup_lt_Some _ _ _ Ho).
  destruct (clusterAddSlot_spec st1 j to I1 Hj) as (st2 & E2 & I2 & S2 & N2); [apply owner_of; [lia|]; by rewrite S1, list_lookup_insert_eq|by apply (same_nodes_dom _ _ _ N1)|].
  exists st1, st2. split_and!; [done|done|]. split_and!; [done| |by etrans]. by rewrite S2, S1, list_insert_insert_eq.
Qed.

(** ** The loops *)

Lemma owned_reassigned st st' j o o' id : c_slots st !! Z.to_nat j = Some o -> reassigned st st' j o' -> owned (c_slots st') id = owned (c_slots st) id - one o id + one o' id.
Proof. intros Ho (_ & -> & _). by apply owned_insert. Qed.

Lemma move_slots_spec n : forall j st from to p, slots_inv st -> 0 <= j -> j + Z.of_nat n = CLUSTER_SLOTS -> is_Some (c_nodes st !! from) -> is_Some (c_nodes st !! to) ->
  exists p' st', move_slots n j st from to p = Some (p', st') /\ redirected st st' j from (Some to) /\ (from <> to -> p' = p + owned (c_slots st) from - owned (c_slots st') from).
Proof.
  induction n as [|n IH]; intros j st from to p I Hj Hn Hf Ht; cbn [move_slots].
  - exists p, st. split_and!; [done|apply redirected_end; [done|lia]|lia].
  - rewrite covers_spec by (done || lia). cbn [mbind option_bind]. case_bool_decide as Hc.
    + destruct (move_slot st j from to I ltac:(lia) Hc Ht) as (st1 & st2 & E1 & E2 & Hr). rewrite E1. cbn [mbind option_bind]. rewrite E2. cbn [mbind option_bind]. pose proof Hr as (I2 & _ & N2).
      destruct (IH (j + 1) st2 from to (p + 1) I2) as (p' & st' & E & Hd & Hp); [lia|lia|by apply (same_nodes_dom _ _ _ N2)|by apply (same_nodes_dom _ _ _ N2)|]. exists p', st'. split_and!; [done|by eapply redirected_set|].
      intros Hne. rewrite (Hp Hne), (owned_reassigned _ _ _ _ _ from Hc Hr). unfold one. rewrite decide_True, decide_False by congruence. lia.
    + destruct (IH (j + 1) st from to p I) as (p' & st' & E & Hd & Hp); [lia|lia|done|done|]. exists p', st'. split_and!; [done|by apply redirected_skip|done].
Qed.

Lemma del_slots_spec n : forall j st id d, slots_inv st -> 0 <= j -> j + Z.of_nat n = CLUSTER_SLOTS -> is_Some (c_nodes st !! id) ->
  exists st', del_slots n j st id d = Some (d + owned (c_slots st) id - owned (c_slots st') id, st') /\ redirected st st' j id None.
Proof.
  induction n as [|n IH]; intros j st id d I Hj Hn Hf; cbn [del_slots].
  - exists st. split; [by rewrite Z.add_simpl_r|apply redirected_end; [done|lia]].
  - rewrite covers_spec by (done || lia). cbn [mbind option_bind]. case_bool_decide as Hc.
    + destruct (clusterDelSlot_spec st j id I ltac:(lia) (owner_of _ _ _ Hj Hc)) as (st1 & E1 & Hr). rewrite E1. cbn [mbind option_bind]. pose proof Hr as (I2 & _ & N2).
      destruct (IH (j + 1) st1 id (d + 1) I2) as (st' & E & Hd); [lia|lia|by apply (same_nodes_dom _ _ _ N2)|]. exists st'. split; [|by eapply redirected_set]. rewrite E, (owned_reassigned _ _ _ _ _ id Hc Hr). unfold one. rewrite decide_True, decide_False by congruence. do 2 f_equal. lia.
    + destruct (IH (j + 1) st id d I) as (st' & E & Hd); [lia|lia|done|]. exists st'. split; [done|by apply redirected_skip].
Qed.

(** All slots of [from], and no other, go to [o]. *)
Definition slots_given (st st' : clusterState) (from : Z) (o : option Z) : Prop :=
  slots_inv st' /\ c_slots st' = (fun x => if decide (x = Some from) then o else x) <$> c_slots st /\ same_nodes st st'.

Lemma move_all st from to : slots_inv st -> is_Some (c_nodes st !! from) -> is_Some (c_nodes st !! to) ->
  exists p st', clusterMoveNodeSlots st from to = Some (p, st') /\ slots_given st st' from (Some to) /\ (from <> to -> p = owned (c_slots st) from).
Proof.
  intros I Hf Ht. unfold clusterMoveNodeSlots. destruct (move_slots_spec (Z.to_nat CLUSTER_SLOTS) 0 st from to 0) as (p & st' & E & (I' & S' & N') & Hp); try done. exists p, st'. rewrite redirect_all in S'. split_and!; [exact E|by split_and!|].
  intros Hne. rewrite (Hp Hne), S', owned_redirect by congruence. lia.
Qed.

(** ** A node that knows no slots yet *)

Lemma bitmap_empty n j : 0 <= j < 8 * Z.of_nat n -> bitmapTestBit (replicate n 0) j = Some false.
Proof.
  intros Hj. rewrite (bitmapTestBit_rd _ _ 0); [by rewrite Z.bits_0|lia|]. rewrite rd_lookup by (apply Z.div_pos; lia). apply lookup_replicate. split; [done|]. apply Nat2Z.inj_lt. rewrite Z2Nat.id by (apply Z.div_pos; lia). apply Z.div_lt_upper_bound; lia.
Qed.

Lemma owned_none n id : owned (replicate n None) id = 0.
Proof. induction n as [|n IH]; [done|]. cbn [replicate]. rewrite owned_cons, IH. done. Qed.

Definition no_slots (st : clusterState) : Prop :=
  c_slots st = replicate (Z.to_nat CLUSTER_SLOTS) None /\ c_not_claiming st = replicate 2048 0 /\ map_Forall (fun _ n => n_slots n = replicate 2048 0 /\ n_numslots n = 0) (c_nodes st).

Lemma slots_inv_fresh st : no_slots st -> slots_inv st.
Proof.
  intros (E1 & E2 & E3). constructor; rewrite ?E1, ?E2.
  - unfold zlen. rewrite length_replicate. done.
  - done.
  - intros j id H. apply lookup_replicate in H as [H _]. congruence.
  - intros id n Hn. destruct (E3 _ _ Hn) as [B N]. split_and!; [by rewrite B|by rewrite N, owned_none|]. intros j Hj. rewrite B, bitmap_empty by (unfold CLUSTER_SLOTS in Hj; lia). rewrite bool_decide_false; [done|]. intros H. apply lookup_replicate in H as [H _]. congruence.
Qed.

(** ** The failover *)

(** The slot tables stay. *)
Definition same_table (n n' : clusterNode) : Prop := n_slots n' = n_slots n /\ n_numslots n' = n_numslots n.
Definition same_tables (st st' : clusterState) : Prop :=
  c_myself st' = c_myself st /\ c_slots st' = c_slots st /\ c_not_claiming st' = c_not_claiming st /\ forall id, option_Forall2 same_table (c_nodes st !! id) (c_nodes st' !! id).

Lemma same_tables_inv st st' : same_tables st st' -> slots_inv st -> slots_inv st'.
Proof.
  intros (_ & E1 & E2 & H) [I1 I2 I3 I4]. constructor; rewrite ?E1, ?E2; try done.
  - intros j id Hj. destruct (I3 _ _ Hj) as [n Hn]. specialize (H id). rewrite Hn in H. inversion H. by eexists.
  - intros id n' Hn. specialize (H id). rewrite Hn in H. inversion H as [n ? [Hs Hc] Hn'|]; simplify_eq. unfold node_slots_ok. rewrite Hs, Hc. apply I4. congruence.
Qed.

#[global] Instance same_tables_refl : Reflexive same_tables.
Proof. intros st. repeat split. intros id. by destruct (c_nodes st !! id); constructor. Qed.
#[global] Instance same_tables_trans : Transitive same_tables.
Proof.
  intros a b c (H1 & H2 & H3 & H4) (G1 & G2 & G3 & G4). split_and!; try congruence. intros id. specialize (H4 id). specialize (G4 id). destruct H4 as [? ? []|]; inversion G4 as [? ? []|]; simplify_eq; constructor. split; congruence.
Qed.

Lemma same_tables_put st id n n' : c_nodes st !! id = Some n -> same_table n n' -> same_tables st (put st id n').
Proof.
  intros H Hr. split_and!; try done. intros i. cbn. destruct (decide (i = id)) as [->|Hne]; [rewrite lookup_insert_eq, H; by constructor|]. rewrite lookup_insert_ne by done. by destruct (c_nodes st !! i); constructor.
Qed.

Lemma same_tables_dom st st' id : same_tables st st' -> is_Some (c_nodes st !! id) <-> is_Some (c_nodes st' !! id).
Proof. intros (_ & _ & _ & H). destruct (H id); split; intros [? ?]; by eauto. Qed.

Lemma remove_slave_spec st m s : is_Some (c_nodes st !! m) -> exists st', clusterNodeRemoveSlave st m s = Some st' /\ same_tables st st'.
Proof.
  intros [n Hn]. unfold clusterNodeRemoveSlave. rewrite Hn. cbn [mbind option_bind]. destruct (bool_decide _); [|by exists st]. eexists. split; [done|]. eapply same_tables_put; [done|]. by destruct (_ =? 0).
Qed.

Lemma as_master_spec st n m : c_nodes st !! c_myself st = Some n -> clusterNodeIsMaster n = false -> n_slaveof n = Some m -> is_Some (c_nodes st !! m) ->
  exists st' n', clusterSetNodeAsMaster st (c_myself st) = Some st' /\ same_tables st st' /\ c_nodes st' !! c_myself st = Some n' /\ clusterNodeIsMaster n' = true /\ n_slaveof n' = None.
Proof.
  intros Hn Hm Hs Hk. unfold clusterSetNodeAsMaster. rewrite Hn. cbn [mbind option_bind]. rewrite Hm, Hs. destruct (remove_slave_spec st m (c_myself st) Hk) as (st1 & E1 & T1). rewrite E1. cbn [mbind option_bind].
  destruct (proj1 (same_tables_dom _ _ (c_myself st) T1) (ex_intro _ n Hn)) as [n1 Hn1]. rewrite Hn1. cbn [mbind option_bind]. pose proof T1 as (My & _). rewrite My, Z.eqb_refl. cbn [mbind option_bind]. rewrite Hn1. cbn [mbind option_bind]. eexists _, _. split; [done|]. split_and!.
  - etrans; [exact T1|]. set (n2 := with_slaveof _ None). assert (T2 : same_tables st1 (put st1 (c_myself st) n2)) by (by eapply same_tables_put). exact T2.
  - apply lookup_insert_eq.
  - unfold clusterNodeIsMaster, has_flag. cbn. rewrite Z.land_lor_distr_l. change (Z.land CLUSTER_NODE_MASTER CLUSTER_NODE_MASTER) with 1. apply negb_true_iff, Z.eqb_neq. intros [_ H]%Z.lor_eq_0_iff. done.
  - done.
Qed.

Lemma all_covered_total st : slots_inv st -> is_Some (all_covered st).
Proof.
  intros I. assert (H : Forall (fun o => forall id, o = Some id -> is_Some (c_nodes st !! id)) (c_slots st)).
  { apply Forall_lookup. intros j o Ho id ->. by eapply si_owner. }
  unfold all_covered. induction H as [|o l Ho _ [b IH]]; [by eexists|]. cbn [foldr]. rewrite IH. cbn [mbind option_bind]. destruct o as [id|]; [|by eexists]. destruct (Ho id eq_refl) as [n ->]. by eexists.
Qed.

Lemma update_state_spec rfc nt now st : slots_inv st -> is_Some (c_nodes st !! c_myself st) -> exists st', clusterUpdateState rfc nt now st = Some st' /\ c_nodes st' = c_nodes st /\ same_tables st st'.
Proof.
  intros I [me Hme]. unfold clusterUpdateState. cbv zeta. set (st0 := set_todo st _). assert (I0 : slots_inv st0) by (destruct I; by constructor). assert (T0 : same_tables st st0) by (destruct (same_tables_refl st) as (_ & _ & _ & H); by split_and!).
  change (c_nodes st0 !! c_myself st0) with (c_nodes st !! c_myself st). rewrite Hme. cbn [mbind option_bind]. destruct (_ && _ && _); [by eexists|].
  assert (Hc : is_Some (if rfc then all_covered st0 else Some true)) by (destruct rfc; [by apply all_covered_total|by eexists]). destruct Hc as [c ->]. cbn [mbind option_bind]. destruct (_ =? h_state _); [by eexists|]. destruct (_ && _ && _); by eexists.
Qed.

Lemma bind_step {A B} (x : option A) (f : A -> option B) a r : x = Some a -> f a = r -> x ≫= f = r.
Proof. by intros ->. Qed.

(** The steps of a replacement. *)
Lemma replace_steps rfc nt now st me old st1 p st2 st3 : c_nodes st !! c_myself st = Some me -> n_slaveof me = Some old -> clusterNodeIsMaster me = false ->
  clusterSetNodeAsMaster st (c_myself st) = Some st1 -> clusterMoveNodeSlots st1 old (c_myself st1) = Some (p, st2) -> clusterUpdateState rfc nt now st2 = Some st3 ->
  clusterFailoverReplaceYourMaster rfc nt now st = Some (resetManualFailover (clusterDoBeforeSleep st3 CLUSTER_TODO_BROADCAST_PONG)).
Proof.
  intros Hme Hs Hm E1 E2 E3. unfold clusterFailoverReplaceYourMaster. refine (bind_step _ _ _ _ Hme _). cbv beta. rewrite Hs, Hm. refine (bind_step _ _ _ _ E1 _). refine (bind_step _ _ _ _ E2 _). exact (bind_step _ _ _ _ E3 eq_refl).
Qed.

Lemma replace_spec rfc nt now st me old : slots_inv st -> c_nodes st !! c_myself st = Some me -> clusterNodeIsMaster me = false -> n_slaveof me = Some old -> is_Some (c_nodes st !! old) -> old <> c_myself st ->
  exists st' me', clusterFailoverReplaceYourMaster rfc nt now st = Some st' /\ slots_inv st' /\ c_slots st' = (fun x => if decide (x = Some old) then Some (c_myself st) else x) <$> c_slots st /\
    c_myself st' = c_myself st /\ c_nodes st' !! c_myself st = Some me' /\ clusterNodeIsMaster me' = true /\ n_slaveof me' = None /\ n_numslots me' = owned (c_slots st) old + owned (c_slots st) (c_myself st).
Proof.
  intros I Hme Hm Hs Hold Hne. destruct (as_master_spec st me old Hme Hm Hs Hold) as (st1 & n1 & E1 & T1 & Hn1 & M1 & S1). pose proof T1 as (My & Sl & _). pose proof (same_tables_inv _ _ T1 I) as I1.
  destruct (move_all st1 old (c_myself st1) I1) as (p & st2 & E2 & (I2 & S2 & N2) & _); [by apply (same_tables_dom _ _ old T1)|rewrite My; by eexists|]. destruct N2 as [My2 N2]. pose proof (N2 (c_myself st)) as Hr. rewrite Hn1 in Hr. inversion Hr as [? me' [R1 R2] Hx Hme'|]; subst.
  destruct (update_state_spec rfc nt now st2 I2) as (st3 & E3 & N3 & T3); [rewrite My2, My; by eexists|]. pose proof T3 as (My3 & Sl3 & _). pose proof (same_tables_inv _ _ T3 I2) as I3.
  eexists _, me'. split; [exact (replace_steps _ _ _ _ _ _ _ _ _ _ Hme Hs Hm E1 E2 E3)|]. split_and!.
  - destruct I3. by constructor.
  - cbn. by rewrite Sl3, S2, Sl, My.
  - cbn. congruence.
  - cbn. by rewrite N3.
  - congruence.
  - congruence.
  - rewrite (proj1 (proj2 (si_node _ I2 _ _ (eq_sym Hme')))), S2, Sl, My. by apply owned_merge.
Qed.

(** C8: A replica that replaces its master becomes a master that serves what the old one
    and itself served; every other slot keeps its owner, no slot is lost, and the tables
    agree. *)
Theorem failover_takes_slots rfc nt now st me old : slots_inv st -> c_nodes st !! c_myself st = Some me -> clusterNodeIsMaster me = false -> n_slaveof me = Some old -> is_Some (c_nodes st !! old) -> old <> c_myself st ->
  exists st' me', clusterFailoverReplaceYourMaster rfc nt now st = Some st' /\ slots_inv st' /\ c_slots st' = (fun x => if decide (x = Some old) then Some (c_myself st) else x) <$> c_slots st /\
    c_myself st' = c_myself st /\ c_nodes st' !! c_myself st = Some me' /\ clusterNodeIsMaster me' = true /\ n_slaveof me' = None /\ n_numslots me' = owned (c_slots st) old + owned (c_slots st) (c_myself st).
Proof. apply replace_spec. Qed.

(** A failover or migration that hands the slots of a node to another one moves all
    of them and no other, counts them, and leaves bitmaps, counters and the table of
    owners in agreement. *)
Theorem move_node_slots st from to : slots_inv st -> is_Some (c_nodes st !! from) -> is_Some (c_nodes st !! to) -> from <> to ->
  exists st', clusterMoveNodeSlots st from to = Some (owned (c_slots st) from, st') /\ slots_given st st' from (Some to).
Proof. intros I Hf Ht Hne. destruct (move_all st from to I Hf Ht) as (p & st' & E & G & Hp). rewrite (Hp Hne) in E. eauto. Qed.

(** ** Witnesses *)

(** Node 2 replicates node 1 and knows no slots yet. *)
Definition sample_node (flags : Z) (slaves : list Z) (m : option Z) : clusterNode :=
  {| n_name := []; n_flags := flags; n_configEpoch := 0; n_slots := replicate 2048 0; n_numslots := 0; n_slaves := slaves; n_slaveof := m; n_voted_time := 0; n_repl_offset := 0; n_link := true |}.
Definition sample_state : clusterState :=
  {| c_myself := 2; c_currentEpoch := 0; c_size := 1; c_nodes := <[1 := sample_node 1 [2] None]> (<[2 := sample_node 18 [] (Some 1)]> ∅); c_slots := replicate (Z.to_nat CLUSTER_SLOTS) None; c_not_claiming := replicate 2048 0;
     c_election := {| auth_time := 0; auth_count := 0; auth_sent := false; auth_rank := 0; auth_epoch := 0 |}; c_mf_end := 0; c_mf_can_start := false; c_lastVoteEpoch := 0; c_todo := 0;
     c_health := {| h_state := 0; h_first_call_time := 0; h_among_minority_time := 0 |} |}.

Lemma sample_state_inv : slots_inv sample_state.
Proof. apply slots_inv_fresh. split_and!; [done|done|]. unfold sample_state. cbn [c_nodes]. repeat apply map_Forall_insert_2; [done|done|apply map_Forall_empty]. Qed.

Lemma sample_free : c_slots sample_state !! Z.to_nat 7 = Some None.
Proof. unfold sample_state. cbn [c_slots]. apply lookup_replicate_2. unfold CLUSTER_SLOTS. lia. Qed.

(** Slot 7 is given to node 1. *)
Lemma sample_slot : exists st, clusterAddSlot sample_state 1 7 = Some (true, st) /\ reassigned sample_state st 7 (Some 1) /\ owned (c_slots st) 1 = 1.
Proof.
  destruct (clusterAddSlot_spec sample_state 7 1 sample_state_inv) as (st & E & R); [done|apply owner_of; [done|exact sample_free]|by eexists|].
  exists st. split_and!; [done|done|]. rewrite (owned_reassigned _ _ _ None _ 1 sample_free R). unfold sample_state. cbn [c_slots]. by rewrite owned_none.
Qed.

Lemma move_node_slots_witness : exists st st', clusterAddSlot sample_state 1 7 = Some (true, st) /\ clusterMoveNodeSlots st 1 2 = Some (1, st') /\ slots_given st st' 1 (Some 2).
Proof.
  destruct sample_slot as (st & E & (I & S & N) & O). destruct (move_node_slots st 1 2) as (st' & E' & G); [done|by apply (same_nodes_dom _ _ 1 N); eexists|by apply (same_nodes_dom _ _ 2 N); eexists|done|]. exists st, st'. rewrite O in E'. done.
Defined.

Lemma failover_takes_slots_witness : exists st st', clusterAddSlot sample_state 1 7 = Some (true, st) /\ clusterFailoverReplaceYourMaster true 15000 0 st = Some st' /\ c_slots st' !! 7%nat = Some (Some 2).
Proof.
  destruct sample_slot as (st & E & (I & S & N) & O). destruct N as [My N]. pose proof (N 2) as H2. change (c_nodes sample_state !! 2) with (Some (sample_node 18 [] (Some 1))) in H2. inversion H2 as [n me [R1 R2] Hn Hme|].
  destruct (failover_takes_slots true 15000 0 st me 1) as (st' & me' & E' & I' & S' & _); [done|by rewrite My|by rewrite R2|by rewrite R1|by apply (same_nodes_dom _ _ 1 (conj My N)); eexists|by rewrite My|].
  exists st, st'. split_and!; [done|done|]. rewrite S', list_lookup_fmap, S. change (Z.to_nat 7) with 7%nat. rewrite list_lookup_insert_eq by (unfold sample_state; cbn [c_slots]; rewrite length_replicate; unfold CLUSTER_SLOTS; lia). cbn. by rewrite My.
Defined.
