(* ===== verification/ClusterRuns.v ===== *)
(** * Two runs of an election

    A master and its two replicas, which are told to fail over.  When acknowledgements
    arrive in time one of them wins.  An acknowledgement that arrives after the election it
    answers was given up counts in the next one, and then both win in the same epoch. *)

From stdpp Require Import base list gmap sets numbers option tactics.
From S2P Require Import Prelude Order Cluster ClusterElectThms ClusterSlots.

(** A claim on slots that no node serves under a later config epoch is allowed. *)
Lemma slots_allow_ok st claimed e n : forall j, slots_inv st -> (forall id x, c_nodes st !! id = Some x -> n_configEpoch x <= e) -> zlen claimed = 2048 -> 0 <= j -> j + Z.of_nat n = CLUSTER_SLOTS -> slots_allow n j st claimed e = Some true.
Proof.
  induction n as [|n IH]; intros j I He Hl Hj Hn; cbn [slots_allow]; [done|]. specialize (IH (j + 1) I He Hl ltac:(lia) ltac:(lia)).
  destruct (rd_Some claimed (j / 8)) as [b Hb]; [split; [apply Z.div_pos; lia|apply Z.div_lt_upper_bound; unfold CLUSTER_SLOTS in Hn; lia]|]. rewrite (bitmapTestBit_rd _ _ _ Hj Hb). cbn [mbind option_bind]. destruct (negb _); [exact IH|].
  destruct (slot_range st j I ltac:(lia)) as (o & Ho & Ho'). unfold isSlotUnclaimed. rewrite Ho'. cbn [mbind option_bind]. destruct o as [id|]; [|exact IH]. destruct (rd_Some (c_not_claiming st) (j / 8)) as [c Hc]; [rewrite (si_claims _ I); split; [apply Z.div_pos; lia|apply Z.div_lt_upper_bound; unfold CLUSTER_SLOTS in Hn; lia]|].
  rewrite (bitmapTestBit_rd _ _ _ Hj Hc). cbn [mbind option_bind]. destruct (Z.testbit c _); [exact IH|]. destruct (si_owner _ I _ _ Ho) as [owner Hw]. rewrite Hw. cbn [mbind option_bind]. destruct (Z.leb_spec (n_configEpoch owner) e) as [|Hlt]; [exact IH|]. specialize (He _ _ Hw). lia.
Qed.

Section Run.
(** The table of owners, the slots of the master and of the replicas, and the claims. *)
Context (table : list (option Z)) (bm bm0 claims : list Z).
Hypothesis table_len : zlen table = CLUSTER_SLOTS.
Hypothesis table_owner : forall j id, table !! j = Some (Some id) -> id = 1.
Hypothesis claims_len : zlen claims = 2048.

Definition run_node (flags : Z) (slots : list Z) (numslots : Z) (slaves : list Z) (m : option Z) (voted : Z) : clusterNode :=
  {| n_name := []; n_flags := flags; n_configEpoch := 0; n_slots := slots; n_numslots := numslots; n_slaves := slaves; n_slaveof := m; n_voted_time := voted; n_repl_offset := 0; n_link := true |}.

(** What node [me] knows. *)
Definition view (me voted : Z) : gmap Z clusterNode :=
  <[1 := run_node (if me =? 1 then 17 else 1) bm 1 [11; 12] None voted]> (<[11 := run_node (if me =? 11 then 18 else 2) bm0 0 [] (Some 1) 0]> (<[12 := run_node (if me =? 12 then 18 else 2) bm0 0 [] (Some 1) 0]> ∅)).

Definition run_state (me voted epoch vote todo : Z) (el : election) : clusterState :=
  {| c_myself := me; c_currentEpoch := epoch; c_size := 1; c_nodes := view me voted; c_slots := table; c_not_claiming := claims; c_election := el;
     c_mf_end := 1000000; c_mf_can_start := true; c_lastVoteEpoch := vote; c_todo := todo; c_health := {| h_state := 0; h_first_call_time := 1; h_among_minority_time := 0 |} |}.

Definition idle : election := {| auth_time := 0; auth_count := 0; auth_sent := false; auth_rank := 0; auth_epoch := 0 |}.
Definition open (time count : Z) (sent : bool) (epoch : Z) : election := {| auth_time := time; auth_count := count; auth_sent := sent; auth_rank := 0; auth_epoch := epoch |}.

Hypothesis master_ok : forall f s m t, node_slots_ok table 1 (run_node f bm 1 s m t).
Hypothesis replica_ok : forall id f s m t, id <> 1 -> node_slots_ok table id (run_node f bm0 0 s m t).

Definition M : gset Z := {[1]}.

#[local] Abbreviation failover := (clusterHandleSlaveFailover true 15000 false 10 10).
#[local] Abbreviation packet := (clusterProcessPacket 15000).

Lemma view_cases me voted id n : view me voted !! id = Some n ->
  id = 1 /\ (exists f, n = run_node f bm 1 [11; 12] None voted) \/ id <> 1 /\ exists f, n = run_node f bm0 0 [] (Some 1) 0 /\ (f = 18 \/ f = 2).
Proof.
  unfold view. intros H. apply lookup_insert_Some in H as [[<- <-]|[Hne H]]; [left; split; [done|by eexists]|right; split; [done|]].
  apply lookup_insert_Some in H as [[<- <-]|[_ H]]; [destruct (_ =? _); eauto|]. apply lookup_insert_Some in H as [[<- <-]|[_ H]]; [destruct (_ =? _); eauto|]. by rewrite lookup_empty in H.
Qed.

Lemma run_view_ok me voted epoch vote todo el : view_ok M (run_state me voted epoch vote todo el).
Proof.
  split; [unfold M; by rewrite size_singleton|]. intros id n Hn Hm Hs. apply view_cases in Hn as [[-> _]|(_ & f & -> & _)]; [by apply elem_of_singleton|by cbn in Hs].
Qed.

Lemma run_slots_inv me voted epoch vote todo el : slots_inv (run_state me voted epoch vote todo el).
Proof.
  constructor; cbn; [done|done| |].
  - intros j id Hj. apply table_owner in Hj as ->. unfold view. rewrite lookup_insert_eq. by eexists.
  - intros id n Hn. apply view_cases in Hn as [[-> [f ->]]|(Hne & f & -> & _)]; [apply master_ok|by apply replica_ok].
Qed.

(** *** The steps *)

Definition request (id epoch to : Z) : clusterMsg := {| m_type := AUTH_REQUEST; m_from := id; m_to := to; m_currentEpoch := epoch; m_configEpoch := 0; m_slots := bm; m_force_ack := true |}.
Definition ack (id epoch : Z) : clusterMsg := {| m_type := AUTH_ACK; m_from := 1; m_to := id; m_currentEpoch := epoch; m_configEpoch := 0; m_slots := bm; m_force_ack := false |}.

(** The next step of a computation whose condition or first part is known. *)
Ltac run_step := lazymatch goal with
  | |- (if ?c then _ else _) = _ => let v := eval vm_compute in c in change c with v; cbv iota
  | |- mbind (M := option) ?f ?x = _ => refine (bind_step x f _ _ ltac:(vm_compute; reflexivity) _); cbv beta
  | |- (let x := ?a in _) = _ => cbv zeta
  | |- match ?x with Some _ => _ | None => _ end = _ => let v := eval vm_compute in x in change x with v; cbv iota beta
  end.

Lemma run_allow voted epoch vote todo el : slots_allow (Z.to_nat CLUSTER_SLOTS) 0 (run_state 1 voted epoch vote todo el) bm 0 = Some true.
Proof.
  apply slots_allow_ok; [apply run_slots_inv| |by destruct (master_ok 0 [] None 0) as (H & _)|done|done]. intros id n H. apply view_cases in H as [[_ [f ->]]|(_ & f & -> & _)]; done.
Qed.

(** The vote of the master. *)
Lemma run_vote now voted vote todo id e m : id = 11 \/ id = 12 -> vote <> e -> 30000 <= now - voted -> m = request id e 1 ->
  clusterSendFailoverAuthIfNeeded 15000 now (run_state 1 voted e vote todo idle) id m = Some (run_state 1 now e e (Z.lor todo 12) idle, [ack id e]).
Proof.
  intros Hid Hv Ht ->. unfold clusterSendFailoverAuthIfNeeded. assert (Hn : c_nodes (run_state 1 voted e vote todo idle) !! id = Some (run_node 2 bm0 0 [] (Some 1) 0)) by (by destruct Hid as [-> | ->]).
  refine (bind_step _ _ _ _ Hn _). cbv beta. refine (bind_step _ _ (run_node 17 bm 1 [11; 12] None voted) _ eq_refl _). cbv beta. run_step. cbn [m_currentEpoch request c_currentEpoch run_state c_lastVoteEpoch]. rewrite Z.ltb_irrefl. apply Z.eqb_neq in Hv. rewrite Hv. run_step. cbn [n_slaveof run_node].
  refine (bind_step _ _ (run_node 17 bm 1 [11; 12] None voted) _ eq_refl _). cbv beta. run_step. cbn [n_voted_time run_node]. assert (Ht' : (now - voted <? 15000 * 2) = false) by lia. rewrite Ht'. refine (bind_step _ _ _ _ (run_allow _ _ _ _ _) _). cbv beta iota zeta. destruct Hid as [-> | ->]; reflexivity.
Qed.

Lemma run_request now st m sender : c_nodes st !! m_from m = Some sender -> has_flag sender CLUSTER_NODE_HANDSHAKE = false -> c_currentEpoch st < m_currentEpoch m -> m_configEpoch m <= n_configEpoch sender -> m_type m = AUTH_REQUEST ->
  packet now st m = clusterSendFailoverAuthIfNeeded 15000 now (set_epoch st (m_currentEpoch m)) (m_from m) m.
Proof.
  intros H1 H2 H3 H4 H5. unfold clusterProcessPacket, process_header. rewrite H1, H2, H5. assert ((m_currentEpoch m >? c_currentEpoch st) = true) as -> by lia. assert ((m_configEpoch m >? n_configEpoch sender) = false) as -> by lia. reflexivity.
Qed.

Lemma run_vote_1 : packet 100000 (run_state 1 0 0 0 0 idle) (request 11 1 1) = Some (run_state 1 100000 1 1 12 idle, [ack 11 1]).
Proof. rewrite (run_request _ _ _ (run_node 2 bm0 0 [] (Some 1) 0)) by done. apply (run_vote 100000 0 0 0 11 1); auto; lia. Qed.

Lemma run_vote_2 : packet 170000 (run_state 1 100000 1 1 12 idle) (request 12 2 1) = Some (run_state 1 170000 2 2 12 idle, [ack 12 2]).
Proof. rewrite (run_request _ _ _ (run_node 2 bm0 0 [] (Some 1) 0)) by done. apply (run_vote 170000 100000 1 12 12 2); auto; lia. Qed.

(** A candidate with a vote wins. *)
Lemma run_win now id voted epoch vote todo time e : id = 11 \/ id = 12 -> 0 <= now - time <= 30000 -> 0 < e ->
  exists st', failover now 0 0 0 (run_state id voted epoch vote todo (open time 1 true e)) = Some (st', [], true).
Proof.
  intros Hid Ht He. set (st := run_state id voted epoch vote todo (open time 1 true e)). set (st1 := set_election (set_todo st (Z.land todo (Z.lnot CLUSTER_TODO_HANDLE_FAILOVER))) (open time 1 true e)). set (me := run_node 18 bm0 0 [] (Some 1) 0). set (me' := with_configEpoch me e).
  assert (Hme : c_nodes st !! id = Some me) by (by destruct Hid as [-> | ->]). assert (T : same_tables st (put st1 id me')) by (apply (same_tables_put st id me me'); done).
  destruct (replace_spec true 15000 now (put st1 id me') me' 1) as (st' & _ & E & _); [by eapply same_tables_inv, run_slots_inv|apply lookup_insert_eq|done|done| |by destruct Hid as [-> | ->]|].
  { apply (same_tables_dom _ _ 1 T). by eexists. }
  exists st'. unfold clusterHandleSlaveFailover. cbv zeta. refine (bind_step _ _ me _ Hme _). cbv beta. cbn [n_slaveof me run_node]. refine (bind_step _ _ (run_node 1 bm 1 [11; 12] None voted) _ _ _); [by destruct Hid as [-> | ->]|]. cbv beta.
  run_step. run_step. change (auth_time (c_election st)) with time. change (Z.max (15000 * 2) 2000) with 30000. assert ((now - time >? 30000 * 2) = false) as -> by lia. refine (bind_step _ _ (open time 1 true e) _ eq_refl _). cbv beta. cbn [auth_time open].
  assert ((now <? time) = false) as -> by lia. assert ((now - time >? 30000) = false) as -> by lia. run_step. run_step. change (n_configEpoch me) with 0. change (auth_epoch (open time 1 true e)) with e. assert ((0 <? e) = true) as -> by lia. exact (bind_step _ _ _ _ E eq_refl).
Qed.

(** *** The worlds *)

#[local] Abbreviation step t := (step true 15000 false 10 10 M t).
#[local] Abbreviation reachable t := (reachable true 15000 false 10 10 M t).

Definition start_world (epoch12 : Z) : world :=
  {| w_nodes := <[1 := run_state 1 0 0 0 0 idle]> (<[11 := run_state 11 0 0 0 0 idle]> (<[12 := run_state 12 0 epoch12 0 0 idle]> ∅)); w_net := []; w_acks := []; w_wins := [] |}.

Lemma start_reachable t e : 0 <= e -> reachable t (start_world e).
Proof.
  intros He. apply reach_fresh. split_and!; try done. intros id st H. unfold start_world in H. cbn [w_nodes] in H. apply lookup_insert_Some in H as [[<- <-]|[_ H]]; [done|]. apply lookup_insert_Some in H as [[<- <-]|[_ H]]; [done|]. apply lookup_insert_Some in H as [[<- <-]|[_ H]]; [by split_and!|]. by rewrite lookup_empty in H.
Qed.

(** A step of a candidate, and the arrival of the message behind [net1]. *)
Lemma run_election t w id voted epoch vote todo el now st' msgs won : reachable t w -> w_nodes w !! id = Some (run_state id voted epoch vote todo el) -> epoch + 1 < 2 ^ 64 ->
  failover now 0 0 0 (run_state id voted epoch vote todo el) = Some (st', msgs, won) -> reachable t (update w id st' (w_net w) msgs (if won then [(id, auth_epoch el)] else [])).
Proof. intros R H Hlt E. eapply reach_step; [exact R|]. exact (step_election _ _ _ _ _ M t w id (run_state id voted epoch vote todo el) now 0 0 0 st' msgs won H (run_view_ok _ _ _ _ _ _) Hlt E). Qed.

Lemma run_deliver t w net1 m net2 voted epoch vote todo el now st' msgs : reachable t w -> w_net w = net1 ++ m :: net2 -> w_nodes w !! m_to m = Some (run_state (m_to m) voted epoch vote todo el) ->
  (t = true -> m_type m = AUTH_ACK -> auth_sent el = true) -> packet now (run_state (m_to m) voted epoch vote todo el) m = Some (st', msgs) -> reachable t (update w (m_to m) st' (net1 ++ net2) msgs []).
Proof. intros R Hn H Ht E. eapply reach_step; [exact R|]. eapply step_deliver; [exact Hn|exact H|apply run_view_ok|exact Ht|exact E]. Qed.

(** Replica 11 asks, and the master votes for it. *)
Lemma run_first_vote t e : 0 <= e -> exists w, reachable t w /\ w_net w = [ack 11 1; request 11 1 12] /\ w_acks w = [(1, 1, 11)] /\ w_wins w = [] /\
  w_nodes w !! 1 = Some (run_state 1 100000 1 1 12 idle) /\ w_nodes w !! 11 = Some (run_state 11 0 1 0 14 (open 100000 0 true 1)) /\ w_nodes w !! 12 = Some (run_state 12 0 e 0 0 idle).
Proof.
  intros He. pose proof (start_reachable t e He) as R.
  eapply (run_election _ _ 11 0 0 0 0 idle 100000 (run_state 11 0 0 0 1 (open 100000 0 false 0))) in R; [|done|done|vm_compute; reflexivity].
  eapply (run_election _ _ 11 0 0 0 1 (open 100000 0 false 0) 100000 (run_state 11 0 1 0 14 (open 100000 0 true 1)) [request 11 1 12; request 11 1 1]) in R; [|done|done|vm_compute; reflexivity].
  apply (run_deliver _ _ [request 11 1 12] (request 11 1 1) [] 0 0 0 0 idle 100000 (run_state 1 100000 1 1 12 idle) [ack 11 1]) in R; [|done|done|done|exact run_vote_1].
  eexists. split; [exact R|]. split_and!; reflexivity.
Qed.

#[local] Ltac look := cbn [w_nodes update m_to ack request]; rewrite ?lookup_insert_ne by done; first [rewrite lookup_insert_eq; reflexivity|eassumption].

(** The acknowledgement arrives in time, and replica 11 wins. *)
Lemma run_in_time : exists w, reachable true w /\ w_wins w = [(11, 1)].
Proof.
  destruct (run_first_vote true 0 ltac:(done)) as (w & R & Hnet & _ & Hw & H1 & H11 & H12).
  apply (run_deliver _ _ [] (ack 11 1) [request 11 1 12] 0 1 0 14 (open 100000 0 true 1) 100000 (run_state 11 0 1 0 15 (open 100000 1 true 1)) []) in R; [|done|look|done|vm_compute; reflexivity].
  destruct (run_win 100000 11 0 1 0 15 100000 1) as [st E]; [auto|lia|lia|]. apply (run_election _ _ 11 0 1 0 15 (open 100000 1 true 1) 100000 st [] true) in R; [|look|done|exact E]. eexists. split; [exact R|]. cbn. by rewrite Hw.
Qed.

(** The acknowledgement arrives after replica 11 gave up, and both win. *)
Lemma run_late : exists w, reachable false w /\ w_wins w = [(12, 2); (11, 2)] /\ w_acks w = [(1, 2, 12); (1, 1, 11)].
Proof.
  destruct (run_first_vote false 1 ltac:(done)) as (w & R & Hnet & Ha & Hw & H1 & H11 & H12).
  apply (run_election _ _ 11 0 1 0 14 (open 100000 0 true 1) 170000 (run_state 11 0 1 0 15 (open 170000 0 false 1)) [] false) in R; [|look|done|vm_compute; reflexivity].
  apply (run_deliver _ _ [] (ack 11 1) [request 11 1 12] 0 1 0 15 (open 170000 0 false 1) 170000 (run_state 11 0 1 0 15 (open 170000 1 false 1)) []) in R; [|done|look|done|vm_compute; reflexivity].
  apply (run_election _ _ 11 0 1 0 15 (open 170000 1 false 1) 170000 (run_state 11 0 2 0 14 (open 170000 1 true 2)) [request 11 2 12; request 11 2 1] false) in R; [|look|done|vm_compute; reflexivity].
  destruct (run_win 170000 11 0 2 0 14 170000 2) as [st E]; [auto|lia|lia|]. apply (run_election _ _ 11 0 2 0 14 (open 170000 1 true 2) 170000 st [] true) in R; [|look|done|exact E].
  apply (run_election _ _ 12 0 1 0 0 idle 170000 (run_state 12 0 1 0 1 (open 170000 0 false 0)) [] false) in R; [|look|done|vm_compute; reflexivity].
  apply (run_election _ _ 12 0 1 0 1 (open 170000 0 false 0) 170000 (run_state 12 0 2 0 14 (open 170000 0 true 2)) [request 12 2 11; request 12 2 1] false) in R; [|look|done|vm_compute; reflexivity].
  apply (run_deliver _ _ [request 12 2 11] (request 12 2 1) [request 11 2 12; request 11 2 1; request 11 1 12] 100000 1 1 12 idle 170000 (run_state 1 170000 2 2 12 idle) [ack 12 2]) in R; [|done|look|done|exact run_vote_2].
  apply (run_deliver _ _ [] (ack 12 2) [request 12 2 11; request 11 2 12; request 11 2 1; request 11 1 12] 0 2 0 14 (open 170000 0 true 2) 170000 (run_state 12 0 2 0 15 (open 170000 1 true 2)) []) in R; [|done|look|done|vm_compute; reflexivity].
  destruct (run_win 170000 12 0 2 0 15 170000 2) as [st' E']; [auto|lia|lia|]. apply (run_election _ _ 12 0 2 0 15 (open 170000 1 true 2) 170000 st' [] true) in R; [|look|done|exact E'].
  eexists. split; [exact R|]. cbn. by rewrite Hw, Ha.
Qed.
End Run.

(** ** The tables of the runs *)

Lemma run_tables : exists (table : list (option Z)) (bm bm0 claims : list Z), zlen table = CLUSTER_SLOTS /\ (forall j id, table !! j = Some (Some id) -> id = 1) /\ zlen claims = 2048 /\
  (forall f s m t, node_slots_ok table 1 (run_node f bm 1 s m t)) /\ (forall id f s m t, id <> 1 -> node_slots_ok table id (run_node f bm0 0 s m t)).
Proof.
  set (l := replicate (Z.to_nat CLUSTER_SLOTS) (None (A := Z))). set (b0 := replicate 2048 0). assert (Hl : l !! Z.to_nat 7 = Some None) by (apply lookup_replicate_2; unfold CLUSTER_SLOTS; lia).
  assert (H0 : forall id f s m t, node_slots_ok l id (run_node f b0 0 s m t)).
  { intros. split_and!; [done|unfold l; by rewrite owned_none|]. intros j Hj. cbn [n_slots run_node]. unfold b0. rewrite bitmap_empty by (unfold CLUSTER_SLOTS in Hj; lia). rewrite bool_decide_false; [done|]. intros H. apply lookup_replicate in H as [H _]. congruence. }
  destruct (bitmapSetBit_spec b0 7) as (bm & Hb & Hbl & Hbt); [done|]. exists (<[Z.to_nat 7 := Some 1]> l), bm, b0, b0. split_and!.
  - unfold zlen. rewrite length_insert. unfold l. by rewrite length_replicate.
  - intros j id H. apply list_lookup_insert_Some in H as [(_ & H & _)|[_ H]]; [congruence|]. apply lookup_replicate in H as [H _]. congruence.
  - done.
  - intros f s m t. exact (node_slots_set l 7 None 1 (run_node f b0 0 s m t) bm Hl ltac:(done) ltac:(done) (H0 1 f s m t) Hbl Hbt).
  - intros id f s m t Hne. by apply (node_slots_other l 7 None); [| | |congruence|].
Qed.

(** C7: Two replicas can win an election in the same epoch: an acknowledgement that
    arrives after its election was given up, and before the next one starts, counts in
    the next one, for which nobody voted. *)
Theorem late_vote_two_winners : exists w, reachable true 15000 false 10 10 {[1]} false w /\ (11, 2) ∈ w_wins w /\ (12, 2) ∈ w_wins w /\ forall v, (v, 2, 11) ∉ w_acks w.
Proof.
  destruct run_tables as (table & bm & bm0 & claims & H1 & H2 & H3 & H4 & H5). destruct (run_late table bm bm0 claims H1 H2 H3 H4 H5) as (w & R & W & A). exists w. rewrite W, A. split_and!; [exact R|set_solver..].
Qed.

Lemma one_winner_per_epoch_witness : exists w, reachable true 15000 false 10 10 {[1]} true w /\ (11, 1) ∈ w_wins w /\ forall r, (r, 1) ∈ w_wins w -> r = 11.
Proof.
  destruct run_tables as (table & bm & bm0 & claims & H1 & H2 & H3 & H4 & H5). destruct (run_in_time table bm bm0 claims H1 H2 H3 H4 H5) as (w & R & W). assert (Hin : (11, 1) ∈ w_wins w) by (rewrite W; set_solver). exists w. split_and!; [exact R|exact Hin|].
  intros r Hr. exact (one_winner_per_epoch true 15000 false 10 10 {[1]} w r 11 1 R Hr Hin).
Defined.
