(* ===== verification/Rax.v ===== *)
(** * Radix trees (src/rax.c, src/rax.h)

    A node is a value when it is a key (0 stands for NULL), its bytes, and its children:
    one below all bytes of a compressed node, one below each byte of another node.  In a
    tree of keys of a fixed length the slots at that depth hold values instead of nodes.
    The nodes on the stack of a walk are the parents of the node it stopped at, with the
    index of the child that was followed, which stands for the link to it.  Allocation
    does not fail here; the debug assertions are checked. *)

From stdpp Require Import base list numbers option tactics.
From S2P Require Import Prelude Order.

Inductive raxNode := RN (key : option Z) (compr : bool) (data : list Z) (slots : list raxSlot)
with raxSlot := Sub (n : raxNode) | Val (v : Z).

Definition RAX_NODE_MAX_SIZE : Z := 2 ^ 29 - 1.

Definition n_key (n : raxNode) : option Z := match n with RN key _ _ _ => key end.
Definition iscompr (n : raxNode) : bool := match n with RN _ compr _ _ => compr end.
Definition n_data (n : raxNode) : list Z := match n with RN _ _ data _ => data end.
Definition n_children (n : raxNode) : list raxSlot := match n with RN _ _ _ slots => slots end.
Definition n_size (n : raxNode) : nat := length (n_data n).
Definition iskey (n : raxNode) : bool := bool_decide (is_Some (n_key n)).

Definition raxNewNode : raxNode := RN None false [] [].

Record rax := { r_head : raxNode; r_numele : Z; r_numnodes : Z; r_keyFixedLen : nat }.

Definition raxNewEx (keyFixedLen : nat) : option rax :=
  _ ← cassert (Z.of_nat keyFixedLen <=? RAX_NODE_MAX_SIZE);
  Some {| r_head := raxNewNode; r_numele := 0; r_numnodes := 1; r_keyFixedLen := keyFixedLen |}.

Definition raxStepLenNode (n : raxNode) : nat := if iscompr n then n_size n else 1.

Definition raxSetData (n : raxNode) (data : Z) : raxNode := RN (Some data) (iscompr n) (n_data n) (n_children n).
Definition unset_key (n : raxNode) : raxNode := RN None (iscompr n) (n_data n) (n_children n).

(** The child pointer [j] of [n] is written. *)
Definition set_child (n : raxNode) (j : nat) (s : raxSlot) : raxNode := RN (n_key n) (iscompr n) (n_data n) (<[j := s]> (n_children n)).

Definition raxSlotsAreValues (keyFixedLen childDepth : nat) : bool := negb (keyFixedLen =? 0)%nat && (childDepth =? keyFixedLen)%nat.

(** A slot read as a node and as a value. *)
Definition as_node (s : raxSlot) : option raxNode := match s with Sub n => Some n | Val _ => None end.
Definition raxLeafParentReadSlot (n : raxNode) (idx : nat) : option Z := s ← n_children n !! idx; match s with Val v => Some v | Sub _ => None end.

(** ** Children *)

Definition insert_at {A} (pos : nat) (x : A) (l : list A) : list A := take pos l ++ x :: drop pos l.
Definition remove_at {A} (pos : nat) (l : list A) : list A := take pos l ++ drop (S pos) l.

(** The first place whose byte is larger. *)
Fixpoint first_larger (data : list Z) (c : Z) : nat :=
  match data with [] => 0 | x :: data => if x >? c then 0 else S (first_larger data c) end.

Definition child_pos (data : list Z) (c : Z) : nat :=
  match data !! pred (length data) with Some x => if c >? x then length data else first_larger data c | None => first_larger data c end.

Definition raxAddChild (n : raxNode) (c : Z) (child : raxNode) : option raxNode :=
  _ ← cassert (negb (iscompr n));
  let pos := child_pos (n_data n) c in
  Some (RN (n_key n) false (insert_at pos c (n_data n)) (insert_at pos (Sub child) (n_children n))).

Definition raxAddSlot (n : raxNode) (ch : Z) (value : Z) : option raxNode :=
  _ ← cassert (negb (iskey n) && negb (iscompr n));
  let pos := child_pos (n_data n) ch in
  Some (RN (n_key n) false (insert_at pos ch (n_data n)) (insert_at pos (Val value) (n_children n))).

Definition raxRemoveSlotAt (parent : raxNode) (idx : nat) : option raxNode :=
  _ ← cassert (negb (iscompr parent) && negb (iskey parent) && (idx <? n_size parent)%nat);
  Some (RN (n_key parent) false (remove_at idx (n_data parent)) (remove_at idx (n_children parent))).

Definition raxCompressNodeWithValue (n : raxNode) (s : list Z) (value : Z) : option raxNode :=
  _ ← cassert ((n_size n =? 0)%nat && negb (iskey n));
  Some (RN None true s [Val value]).

Definition raxCompressNode (n : raxNode) (s : list Z) (child : raxNode) : option raxNode :=
  _ ← cassert ((n_size n =? 0)%nat && negb (iscompr n));
  Some (RN (n_key n) true s [Sub child]).

Definition raxRemoveChild (parent : raxNode) (j : nat) : raxNode :=
  if iscompr parent then RN (n_key parent) false [] []
  else RN (n_key parent) false (remove_at j (n_data parent)) (remove_at j (n_children parent)).

(** ** The walk *)

(** The parents of a node, the closest first. *)
Definition path := list (raxNode * nat).

(** The tree in which the node at the end of the path is [n]. *)
Fixpoint plug (p : path) (n : raxNode) : raxNode :=
  match p with [] => n | (parent, j) :: p => plug p (set_child parent j (Sub n)) end.

(** Where a walk stops: at a node, within its bytes when it is compressed, or at a slot
    that holds a value. *)
Inductive stop := AtNode (splitpos : nat) | AtLeafSlot (leafSlot : nat).

Record raxNodeLink := { l_stopnode : raxNode; l_path : path; l_consumed : nat; l_stop : stop }.

(** The number of bytes in common at the start. *)
Fixpoint common (a b : list Z) : nat :=
  match a, b with x :: a, y :: b => if x =? y then S (common a b) else 0 | _, _ => 0 end.

Fixpoint index_of (c : Z) (data : list Z) : option nat :=
  match data with [] => None | x :: data => if x =? c then Some 0%nat else S <$> index_of c data end.

(** The child of a node that is not compressed: the last one is tried first. *)
Definition find_child (data : list Z) (c : Z) : option nat :=
  x ← data !! pred (length data);
  if x =? c then Some (pred (length data)) else if c >? x then None else index_of c data.

(** The loop of [raxLowWalk] at depth [i] with [s] left. *)
Fixpoint low_walk (fuel keyFixedLen : nat) (h : raxNode) (p : path) (i : nat) (s : list Z) : option raxNodeLink :=
  match fuel with
  | O => None
  | S fuel =>
      match s with
      | [] => Some {| l_stopnode := h; l_path := p; l_consumed := i; l_stop := AtNode 0 |}
      | c :: s' =>
          if (n_size h =? 0)%nat then Some {| l_stopnode := h; l_path := p; l_consumed := i; l_stop := AtNode 0 |}
          else
            let descend j i s :=
              if raxSlotsAreValues keyFixedLen i then Some {| l_stopnode := h; l_path := p; l_consumed := i; l_stop := AtLeafSlot j |}
              else
                slot ← n_children h !! j; h' ← as_node slot;
                low_walk fuel keyFixedLen h' ((h, j) :: p) i s in
            if iscompr h then
              let j := common (n_data h) s in
              if negb (j =? n_size h)%nat then Some {| l_stopnode := h; l_path := p; l_consumed := i + j; l_stop := AtNode j |}
              else descend 0%nat (i + j)%nat (drop j s)
            else
              match find_child (n_data h) c with
              | None => Some {| l_stopnode := h; l_path := p; l_consumed := i; l_stop := AtNode 0 |}
              | Some j => descend j (i + 1)%nat s'
              end
      end
  end.

(** The value of the key when it is found, and the link. *)
Definition raxLowWalk (r : rax) (s : list Z) : option (option Z * raxNodeLink) :=
  link ← low_walk (S (length s)) (r_keyFixedLen r) (r_head r) [] 0 s;
  match l_stop link with
  | AtLeafSlot j => v ← raxLeafParentReadSlot (l_stopnode link) j; Some (Some v, link)
  | AtNode splitpos =>
      let h := l_stopnode link in
      if negb (l_consumed link =? length s)%nat || (iscompr h && negb (splitpos =? 0)%nat) || negb (iskey h) then Some (None, link)
      else Some (n_key h, link)
  end.

Definition raxFind (r : rax) (s : list Z) : option (option Z) := '(v, _) ← raxLowWalk r s; Some v.

(** ** Insertion *)

(** The nodes still missing below [h]; returns the new node and how many were created. *)
Fixpoint insert_rest (fuel keyFixedLen : nat) (h : raxNode) (i : nat) (s : list Z) (data : Z) : option (raxNode * Z) :=
  match fuel with
  | O => None
  | S fuel =>
      match s with
      | [] => Some (raxSetData h data, 0)
      | c :: s' =>
          if (n_size h =? 0)%nat && (1 <? length s)%nat then
            let comprsize := Z.to_nat (Z.min (zlen s) RAX_NODE_MAX_SIZE) in
            if negb (keyFixedLen =? 0)%nat then
              newh ← raxCompressNodeWithValue h (take comprsize s) data; Some (newh, 0)
            else
              '(child, created) ← insert_rest fuel keyFixedLen raxNewNode (i + comprsize) (drop comprsize s) data;
              newh ← raxCompressNode h (take comprsize s) child; Some (newh, created + 1)
          else if raxSlotsAreValues keyFixedLen (i + 1) then
            newh ← raxAddSlot h c data; Some (newh, 0)
          else
            '(child, created) ← insert_rest fuel keyFixedLen raxNewNode (i + 1) s' data;
            newh ← raxAddChild h c child; Some (newh, created + 1)
      end
  end.

(** Returns whether the key is new, and the old value when it is not. *)
Definition raxInsertAt (r : rax) (s : list Z) (data : Z) (link : raxNodeLink) : option (bool * option Z * rax) :=
  let fl := r_keyFixedLen r in
  _ ← cassert ((fl =? 0)%nat || (length s =? fl)%nat);
  let h := l_stopnode link in
  let i := l_consumed link in
  let done h' new old created := Some (new, old, {| r_head := plug (l_path link) h'; r_numele := r_numele r + Z.b2z new; r_numnodes := r_numnodes r + created; r_keyFixedLen := fl |}) in
  match l_stop link with
  | AtLeafSlot j => old ← raxLeafParentReadSlot h j; done (set_child h j (Val data)) false (Some old) 0
  | AtNode j =>
      if (i =? length s)%nat && (negb (iscompr h) || (j =? 0)%nat) then
        done (raxSetData h data) (negb (iskey h)) (n_key h) 0
      else if iscompr h && negb (i =? length s)%nat then
        next ← n_children h !! 0%nat;
        c ← n_data h !! j;
        let postfixlen := (n_size h - j - 1)%nat in
        let postfix := if (postfixlen =? 0)%nat then next else Sub (RN None (1 <? postfixlen)%nat (drop (S j) (n_data h)) [next]) in
        let splitnode := RN (if (j =? 0)%nat then n_key h else None) false [c] [postfix] in
        '(h', created) ← insert_rest (S (length s)) fl splitnode i (drop i s) data;
        done (if (j =? 0)%nat then h' else RN (n_key h) (1 <? j)%nat (take j (n_data h)) [Sub h']) true None
          (created + Z.b2z (negb (j =? 0)%nat) + Z.b2z (negb (postfixlen =? 0)%nat))
      else if iscompr h then
        next ← n_children h !! 0%nat;
        let postfixlen := (n_size h - j)%nat in
        let postfix := RN (Some data) (1 <? postfixlen)%nat (drop j (n_data h)) [next] in
        done (RN (n_key h) (1 <? j)%nat (take j (n_data h)) [Sub postfix]) true None 1
      else
        '(h', created) ← insert_rest (S (length s)) fl h i (drop i s) data;
        done h' true None created
  end.

Definition raxInsert (r : rax) (s : list Z) (data : Z) : option (bool * option Z * rax) :=
  '(_, link) ← raxLowWalk r s; raxInsertAt r s data link.

Definition raxTryInsert (r : rax) (s : list Z) (data : Z) : option (bool * option Z * rax) :=
  '(existing, link) ← raxLowWalk r s;
  match existing with Some v => Some (false, Some v, r) | None => raxInsertAt r s data link end.

(** ** Removal *)

(** A node that is no key and has one child. *)
Definition single (n : raxNode) : bool := negb (iskey n) && (iscompr n || (n_size n =? 1)%nat).

(** The nodes above a removed one that are freed with it: returns the first parent that
    is kept, the child to unlink from it, its own parents, and the number of nodes freed. *)
Fixpoint free_up (p : path) (freed : Z) : option (raxNode * nat * path * Z) :=
  match p with
  | [] => None
  | (parent, j) :: p => if negb (single parent) || (match p with [] => true | _ => false end) then Some (parent, j, p, freed) else free_up p (freed + 1)
  end.

(** Going up to the first node of the chain to compress. *)
Fixpoint chain_start (p : path) (h : raxNode) : path * raxNode :=
  match p with
  | [] => ([], h)
  | (parent, j) :: p' => if negb (single parent) then (p, h) else chain_start p' (set_child parent j (Sub h))
  end.

Definition path_depth (p : path) : nat := foldr (fun f d => raxStepLenNode f.1 + d)%nat 0%nat p.

(** The last child of a node. *)
Definition last_child (n : raxNode) : option raxNode := s ← n_children n !! pred (length (n_children n)); as_node s.

(** Where both scans of a chain stop. *)
Definition chain_ends (fl : nat) (h : raxNode) (dh : nat) : bool := negb (single h) || raxSlotsAreValues fl (dh + raxStepLenNode h).

Fixpoint height (n : raxNode) : nat :=
  match n with RN _ _ _ slots => S ((fix go l := match l with [] => O | Sub c :: l => Nat.max (height c) (go l) | Val _ :: l => go l end) slots) end.

(** The scan that measures: size, nodes. *)
Fixpoint measure_chain (fuel fl : nat) (h : raxNode) (comprsize : Z) (nodes : Z) (dh : nat) : option (Z * Z) :=
  match fuel with
  | O => None
  | S fuel =>
      if (n_size h =? 0)%nat then Some (comprsize, nodes)
      else
        let dh := (dh + raxStepLenNode h)%nat in
        h ← last_child h;
        if chain_ends fl h dh then Some (comprsize, nodes)
        else if comprsize + Z.of_nat (n_size h) >? RAX_NODE_MAX_SIZE then Some (comprsize, nodes)
        else measure_chain fuel fl h (comprsize + Z.of_nat (n_size h)) (nodes + 1) dh
  end.

(** The scan that copies the bytes of the chain after [copied] into a node of [room]
    bytes: the bytes, the nodes freed and the node below the chain. *)
Fixpoint copy_chain (fuel fl : nat) (h : raxNode) (room : Z) (copied : list Z) (freed : Z) (dh : nat) : option (list Z * Z * raxNode) :=
  match fuel with
  | O => None
  | S fuel =>
      if (n_size h =? 0)%nat then Some (copied, freed, h)
      else
        _ ← cassert (zlen copied + Z.of_nat (n_size h) <=? room);
        let copied := copied ++ n_data h in
        let dh := (dh + raxStepLenNode h)%nat in
        h ← last_child h;
        if chain_ends fl h dh then Some (copied, freed + 1, h)
        else copy_chain fuel fl h room copied (freed + 1) dh
  end.

(** The part of [raxRemove] that compresses; returns the new head and the change of the
    number of nodes. *)
Definition recompress (fl : nat) (p : path) (h : raxNode) : option (raxNode * Z) :=
  let '(p, start) := chain_start p h in
  let dstart := path_depth p in
  '(comprsize, nodes) ← measure_chain (S (height start)) fl start (Z.of_nat (n_size start)) 1 dstart;
  if nodes >? 1 then
    '(data, freed, below) ← copy_chain (S (height start)) fl start comprsize [] 0 dstart;
    Some (plug p (RN None true data [Sub below]), 1 - freed)
  else Some (plug p start, 0).

(** The part of [raxRemove] after the key of [h] is unset; returns the new head and the
    change of the number of nodes. *)
Definition cleanup (fl : nat) (p : path) (h : raxNode) : option (raxNode * Z) :=
  if (n_size h =? 0)%nat then
    match free_up p 1 with
    | None => Some (h, 0)
    | Some (parent, j, p, freed) =>
        let new := raxRemoveChild parent j in
        if (n_size new =? 1)%nat && negb (iskey new) then '(head, created) ← recompress fl p new; Some (head, created - freed) else Some (plug p new, - freed)
    end
  else if (n_size h =? 1)%nat then recompress fl p h
  else Some (plug p h, 0).

(** Returns the old value when the key was found. *)
Definition raxRemove (r : rax) (s : list Z) : option (option Z * rax) :=
  let fl := r_keyFixedLen r in
  '(found, link) ← raxLowWalk r s;
  match found with
  | None => Some (None, r)
  | Some old =>
      let p := l_path link in
      let h := l_stopnode link in
      '(head, created) ← match l_stop link with
        | AtLeafSlot j =>
            if negb (iscompr h) && (1 <? n_size h)%nat then newh ← raxRemoveSlotAt h j; Some (plug p newh, 0)
            else cleanup fl p (unset_key (RN (n_key h) false [] []))
        | AtNode _ => cleanup fl p (unset_key h)
        end;
      Some (Some old, {| r_head := head; r_numele := r_numele r - 1; r_numnodes := r_numnodes r + created; r_keyFixedLen := fl |})
  end.
