(* ===== verification/RaxSpec.v ===== *)
(** * What a radix tree holds

    The keys of a tree with their values, what makes a tree well formed, and how both
    change when the node at the end of a path is replaced. *)

From stdpp Require Import base list gmap numbers option tactics sorting.
From S2P Require Import Prelude Order Rax.

(** ** Trees *)

(** The strings on the edges of a node. *)
Definition edge_labels (compr : bool) (data : list Z) : list (list Z) := if compr then [data] else (fun c => [c]) <$> data.
Definition labels (n : raxNode) : list (list Z) := edge_labels (iscompr n) (n_data n).

Definition under (l : list Z) (c : list (list Z * Z)) : list (list Z * Z) := (fun x => (l ++ x.1, x.2)) <$> c.

Definition key_part (key : option Z) : list (list Z * Z) := match key with Some v => [([], v)] | None => [] end.

(** The keys of a tree and their values, in order. *)
Fixpoint contents (n : raxNode) : list (list Z * Z) :=
  match n with
  | RN key compr data slots =>
      key_part key ++
      (fix go (labels : list (list Z)) (slots : list raxSlot) {struct slots} := match slots, labels with
        | s :: slots, l :: labels => under l (match s with Sub n => contents n | Val v => [([], v)] end) ++ go labels slots
        | _, _ => []
        end) (edge_labels compr data) slots
  end.

Definition slot_contents (s : raxSlot) : list (list Z * Z) := match s with Sub n => contents n | Val v => [([], v)] end.

Fixpoint edges_contents (labels : list (list Z)) (slots : list raxSlot) {struct slots} : list (list Z * Z) :=
  match slots, labels with s :: slots, l :: labels => under l (slot_contents s) ++ edges_contents labels slots | _, _ => [] end.

Lemma contents_eq n : contents n = key_part (n_key n) ++ edges_contents (labels n) (n_children n).
Proof.
  destruct n as [key compr data slots]. cbn [contents n_key n_children]. f_equal.
Qed.

(** Induction over a tree and the nodes in its slots. *)
Definition slot_all (P : raxNode -> Prop) (s : raxSlot) : Prop := match s with Sub n => P n | Val _ => True end.

Lemma raxNode_rect' (P : raxNode -> Prop) : (forall key compr data slots, Forall (slot_all P) slots -> P (RN key compr data slots)) -> forall n, P n.
Proof.
  intros H. fix IH 1. intros [key compr data slots]. apply H. induction slots as [|s slots IHs]; constructor; [|exact IHs]. destruct s as [n|v]; [exact (IH n)|exact I].
Qed.

(** ** Sums over a tree *)

(** Every node counts [a], by its key, and every value in a slot [b]. *)
Fixpoint total (a : option Z -> Z) (b : Z) (n : raxNode) : Z :=
  match n with
  | RN key _ _ slots => a key + (fix go slots := match slots with [] => 0 | Sub n :: slots => total a b n + go slots | Val _ :: slots => b + go slots end) slots
  end.

Definition slot_total (a : option Z -> Z) (b : Z) (s : raxSlot) : Z := match s with Sub n => total a b n | Val _ => b end.
Definition slots_total (a : option Z -> Z) (b : Z) (slots : list raxSlot) : Z := foldr (fun s t => slot_total a b s + t) 0 slots.

Lemma total_eq a b n : total a b n = a (n_key n) + slots_total a b (n_children n).
Proof. destruct n as [key compr data slots]. cbn [total n_key n_children]. f_equal. induction slots as [|s slots IH]; [done|]. destruct s; cbn; by rewrite IH. Qed.

Definition nodes : raxNode -> Z := total (fun _ => 1) 0.
Definition elements : raxNode -> Z := total (fun key => match key with Some _ => 1 | None => 0 end) 1.

Lemma slots_total_cons a b s slots : slots_total a b (s :: slots) = slot_total a b s + slots_total a b slots.
Proof. done. Qed.

Lemma slots_total_app a b s1 s2 : slots_total a b (s1 ++ s2) = slots_total a b s1 + slots_total a b s2.
Proof. induction s1 as [|s s1 IH]; [done|]. cbn [app]. rewrite !slots_total_cons, IH. lia. Qed.

Lemma slots_total_insert a b slots j s s' : slots !! j = Some s -> slots_total a b (<[j := s']> slots) = slots_total a b slots - slot_total a b s + slot_total a b s'.
Proof.
  intros H. rewrite <- (take_drop_middle slots j s H) at 2. rewrite insert_take_drop by (by apply lookup_lt_Some in H). rewrite !slots_total_app, !slots_total_cons. lia.
Qed.

Lemma slots_total_insert_at a b pos s slots : slots_total a b (insert_at pos s slots) = slot_total a b s + slots_total a b slots.
Proof. unfold insert_at. rewrite slots_total_app, slots_total_cons. rewrite <- (take_drop pos slots) at 3. rewrite slots_total_app. lia. Qed.

Lemma slots_total_remove_at a b pos s slots : slots !! pos = Some s -> slots_total a b (remove_at pos slots) = slots_total a b slots - slot_total a b s.
Proof. intros H. unfold remove_at. rewrite <- (take_drop_middle slots pos s H) at 3. rewrite !slots_total_app, slots_total_cons. lia. Qed.

Lemma total_set_child a b n j s s' : n_children n !! j = Some s -> total a b (set_child n j s') = total a b n - slot_total a b s + slot_total a b s'.
Proof. intros H. rewrite !total_eq. cbn [set_child n_key n_children]. rewrite (slots_total_insert _ _ _ _ s) by done. lia. Qed.

(** ** Well-formed trees *)

Definition shape (compr : bool) (data : list Z) (slots : list raxSlot) : Prop :=
  if compr then (2 <= length data)%nat /\ zlen data <= RAX_NODE_MAX_SIZE /\ length slots = 1%nat
  else length slots = length data /\ StronglySorted Z.lt data.

(** A node below the root is a key or has children. *)
Definition used (n : raxNode) : Prop := n_key n <> None \/ n_data n <> [].

(** At depth [d] of a tree with keys of length [fl], or of any length when [fl] is 0. *)
Fixpoint wf (fl d : nat) (n : raxNode) : Prop :=
  match n with
  | RN key compr data slots =>
      Forall is_byte data /\ (fl <> 0%nat -> key = None /\ (d < fl)%nat) /\ shape compr data slots /\
      (fix go slots := match slots with
        | [] => True
        | s :: slots => (match s with
                         | Val v => fl <> 0%nat /\ (d + raxStepLenNode n = fl)%nat
                         | Sub c => (fl <> 0%nat -> (d + raxStepLenNode n < fl)%nat) /\ used c /\ wf fl (d + raxStepLenNode n) c
                         end) /\ go slots
        end) slots
  end.

Definition wf_slot (fl d : nat) (s : raxSlot) : Prop :=
  match s with Val v => fl <> 0%nat /\ d = fl | Sub c => (fl <> 0%nat -> (d < fl)%nat) /\ used c /\ wf fl d c end.

Definition wf_node (fl d : nat) (n : raxNode) : Prop :=
  Forall is_byte (n_data n) /\ (fl <> 0%nat -> n_key n = None /\ (d < fl)%nat) /\ shape (iscompr n) (n_data n) (n_children n) /\ Forall (wf_slot fl (d + raxStepLenNode n)) (n_children n).

Lemma wf_eq fl d n : wf fl d n <-> wf_node fl d n.
Proof.
  destruct n as [key compr data slots]. unfold wf_node. cbn [wf n_key n_data n_children iscompr]. set (d' := (d + raxStepLenNode _)%nat). clearbody d'.
  enough (Hgo : (fix go slots := match slots with [] => True | s :: slots => (match s with Val v => fl <> 0%nat /\ d' = fl | Sub c => (fl <> 0%nat -> (d' < fl)%nat) /\ used c /\ wf fl d' c end) /\ go slots end) slots <-> Forall (wf_slot fl d') slots) by tauto.
  induction slots as [|s slots IH]; [split; [constructor|done]|]. rewrite list.Forall_cons. by rewrite <- IH; destruct s.
Qed.

(** ** Edges *)

Definition label_at (n : raxNode) (j : nat) : list Z := default [] (labels n !! j).

Lemma labels_length fl d n : wf fl d n -> length (labels n) = length (n_children n).
Proof. rewrite wf_eq. intros (_ & _ & H & _). unfold labels, shape in *. destruct (iscompr n); cbn; [lia|]. rewrite length_fmap. lia. Qed.

Lemma label_step fl d n j l : wf fl d n -> labels n !! j = Some l -> length l = raxStepLenNode n /\ l <> [].
Proof.
  rewrite wf_eq. intros (_ & _ & H & _). unfold labels, raxStepLenNode, shape, edge_labels, n_size in *. destruct (iscompr n).
  - destruct j; [|done]. intros [= <-]. split; [done|]. intros E. rewrite E in H. cbn in H. lia.
  - intros Hl. apply list_lookup_fmap_Some in Hl as (c & -> & _). done.
Qed.

Lemma label_at_eq n j l : labels n !! j = Some l -> label_at n j = l.
Proof. unfold label_at. by intros ->. Qed.

Lemma child_label fl d n j s : wf fl d n -> n_children n !! j = Some s -> labels n !! j = Some (label_at n j).
Proof.
  intros Hw Hs. apply lookup_lt_Some in Hs. rewrite <- (labels_length _ _ _ Hw) in Hs. apply lookup_lt_is_Some_2 in Hs as [l Hl]. by rewrite (label_at_eq _ _ _ Hl).
Qed.

Lemma sorted_lt_lookup (l : list Z) i j x y : StronglySorted Z.lt l -> (i < j)%nat -> l !! i = Some x -> l !! j = Some y -> x < y.
Proof.
  intros Hs Hij Hx Hy. apply (StronglySorted_app_1_elem_of Z.lt (take j l) (drop j l)).
  - by rewrite take_drop.
  - apply elem_of_take. eauto.
  - apply list_elem_of_lookup. exists 0%nat. rewrite lookup_drop. by rewrite Nat.add_0_r.
Qed.

(** Different edges start with different bytes. *)
Lemma labels_apart fl d n i j l l' k k' : wf fl d n -> labels n !! i = Some l -> labels n !! j = Some l' -> l ++ k = l' ++ k' -> i = j.
Proof.
  rewrite wf_eq. intros (_ & _ & H & _) Hi Hj E. unfold labels, edge_labels, shape in *. destruct (iscompr n); [destruct i, j; done|]. apply list_lookup_fmap_Some in Hi as (c & -> & Hi), Hj as (c' & -> & Hj). cbn in E. injection E as -> _.
  destruct H as [_ H]. destruct (lt_eq_lt_dec i j) as [[Hlt|Heq]|Hgt]; [|done|]; [pose proof (sorted_lt_lookup _ _ _ _ _ H Hlt Hi Hj)|pose proof (sorted_lt_lookup _ _ _ _ _ H Hgt Hj Hi)]; lia.
Qed.

Lemma elem_of_under l c k v : (k, v) ∈ under l c <-> exists k', k = l ++ k' /\ (k', v) ∈ c.
Proof.
  unfold under. rewrite list_elem_of_fmap. split.
  - intros ([k' v'] & E & H). injection E as -> ->. eauto.
  - intros (k' & -> & H). by exists (k', v).
Qed.

Lemma elem_of_edges ls slots k v : (k, v) ∈ edges_contents ls slots <-> exists i l s k', ls !! i = Some l /\ slots !! i = Some s /\ k = l ++ k' /\ (k', v) ∈ slot_contents s.
Proof.
  revert ls. induction slots as [|s slots IH]; intros [|l ls]; cbn [edges_contents]; rewrite ?elem_of_nil.
  - split; [done|]. by intros (i & ? & ? & ? & ? & ? & _).
  - split; [done|]. by intros (i & ? & ? & ? & ? & ? & _).
  - split; [done|]. by intros (i & ? & ? & ? & ? & ? & _).
  - rewrite elem_of_app, elem_of_under, IH. split.
    + intros [(k' & -> & H)|(i & l' & s' & k' & H1 & H2 & -> & H)]; [by exists 0%nat, l, s, k'|by exists (S i), l', s', k'].
    + intros ([|i] & l' & s' & k' & H1 & H2 & -> & H); cbn in H1, H2; simplify_eq; [left; eauto|right; by exists i, l', s', k'].
Qed.

Lemma elem_of_contents n k v : (k, v) ∈ contents n <-> k = [] /\ n_key n = Some v \/ exists i l s k', labels n !! i = Some l /\ n_children n !! i = Some s /\ k = l ++ k' /\ (k', v) ∈ slot_contents s.
Proof.
  rewrite contents_eq, elem_of_app, elem_of_edges. apply or_iff_compat_r. destruct (n_key n) as [x|]; cbn [key_part].
  - rewrite list_elem_of_singleton. split; [intros E; by simplify_eq|intros [-> E]; by simplify_eq].
  - rewrite elem_of_nil. split; [done|by intros [_ ?]].
Qed.

(** ** Paths *)

Fixpoint path_key (p : path) : list Z := match p with [] => [] | (parent, j) :: p => path_key p ++ label_at parent j end.

Fixpoint wf_path (fl : nat) (p : path) : Prop :=
  match p with
  | [] => True
  | (parent, j) :: p' => wf fl (length (path_key p')) parent /\ (j < length (n_children parent))%nat /\ (fl <> 0%nat -> (length (path_key p) < fl)%nat) /\ wf_path fl p'
  end.

Lemma step_set_child n j s : raxStepLenNode (set_child n j s) = raxStepLenNode n.
Proof. done. Qed.

Lemma has_child_used fl d n j : wf fl d n -> (j < length (n_children n))%nat -> used n.
Proof.
  rewrite wf_eq. intros (_ & _ & H & _) Hj. right. intros E. unfold shape in H. rewrite E in H. destruct (iscompr n); cbn in H; lia.
Qed.

Lemma wf_set_child fl d n j c : wf fl d n -> (j < length (n_children n))%nat -> wf_slot fl (d + raxStepLenNode n) c -> wf fl d (set_child n j c).
Proof.
  rewrite !wf_eq. intros (H1 & H2 & H3 & H4) Hj Hc. split_and!; [done|done| |].
  - unfold shape in *. cbn [set_child iscompr n_data n_children]. by rewrite length_insert.
  - rewrite step_set_child. cbn [set_child n_children]. by apply Forall_insert.
Qed.

Lemma path_key_step fl parent j p : wf_path fl ((parent, j) :: p) -> length (path_key ((parent, j) :: p)) = (length (path_key p) + raxStepLenNode parent)%nat.
Proof.
  intros (Hw & Hj & _). cbn [path_key]. rewrite length_app. f_equal. apply lookup_lt_is_Some_2 in Hj as [s Hs]. exact (proj1 (label_step _ _ _ _ _ Hw (child_label _ _ _ _ _ Hw Hs))).
Qed.

Lemma wf_plug fl p n : wf_path fl p -> wf fl (length (path_key p)) n -> (p <> [] -> used n) -> wf fl 0 (plug p n).
Proof.
  revert n. induction p as [|[parent j] p IH]; intros n Hp Hn Hu; [done|]. cbn [plug]. pose proof (path_key_step _ _ _ _ Hp) as Hl. destruct Hp as (Hw & Hj & Hd & Hp). rewrite Hl in *.
  assert (Hw' : wf fl (length (path_key p)) (set_child parent j (Sub n))) by (apply wf_set_child; [done|done|split_and!; [done|by apply Hu|done]]).
  apply IH; [done|done|]. intros _. eapply (has_child_used _ _ _ j); [exact Hw'|]. cbn. by rewrite length_insert.
Qed.

(** The keys that do not pass through the end of the path. *)
Definition beside (parent : raxNode) (j : nat) (k : list Z) (v : Z) : Prop :=
  k = [] /\ n_key parent = Some v \/ exists i l s k', i <> j /\ labels parent !! i = Some l /\ n_children parent !! i = Some s /\ k = l ++ k' /\ (k', v) ∈ slot_contents s.

Fixpoint outside (p : path) (k : list Z) (v : Z) : Prop :=
  match p with [] => False | (parent, j) :: p => outside p k v \/ exists k', k = path_key p ++ k' /\ beside parent j k' v end.

Lemma elem_of_set_child fl d parent j c k v : wf fl d parent -> (j < length (n_children parent))%nat ->
  (k, v) ∈ contents (set_child parent j c) <-> beside parent j k v \/ exists k', k = label_at parent j ++ k' /\ (k', v) ∈ slot_contents c.
Proof.
  intros Hw Hj. pose proof (lookup_lt_is_Some_2 _ _ Hj) as [s0 Hs0]. pose proof (child_label _ _ _ _ _ Hw Hs0) as Hl. rewrite elem_of_contents. cbn [set_child n_key n_children]. change (labels (set_child parent j c)) with (labels parent). unfold beside. split.
  - intros [H|(i & l & s & k' & H1 & H2 & -> & H)]; [tauto|]. destruct (decide (i = j)) as [->|Hne].
    + rewrite list_lookup_insert_eq in H2 by done. simplify_eq. right. eauto.
    + rewrite list_lookup_insert_ne in H2 by done. left. right. by exists i, l, s, k'.
  - intros [[H|(i & l & s & k' & Hne & H1 & H2 & -> & H)]|(k' & -> & H)]; [tauto| |].
    + right. exists i, l, s, k'. rewrite list_lookup_insert_ne by done. done.
    + right. exists j, (label_at parent j), c, k'. rewrite list_lookup_insert_eq by done. done.
Qed.

Lemma elem_of_plug fl p n k v : wf_path fl p -> (k, v) ∈ contents (plug p n) <-> outside p k v \/ exists k', k = path_key p ++ k' /\ (k', v) ∈ contents n.
Proof.
  revert n. induction p as [|[parent j] p IH]; intros n Hp; cbn [plug outside path_key].
  - split; [intros H; right; by exists k|intros [[]|(k' & -> & H)]; done].
  - destruct Hp as (Hw & Hj & _ & Hp). rewrite (IH _ Hp). setoid_rewrite (elem_of_set_child _ _ _ _ (Sub n) _ _ Hw Hj). cbn [slot_contents]. split.
    + intros [H|(k' & -> & [H|(k'' & -> & H)])]; [tauto|left; right; eauto|right; exists k''; by rewrite <- (assoc_L (++))].
    + intros [[H|(k' & -> & H)]|(k' & -> & H)]; [tauto|right; eauto|right; exists (label_at parent j ++ k'); rewrite <- (assoc_L (++)); eauto].
Qed.

Lemma outside_apart fl p k v : wf_path fl p -> ~ outside p (path_key p ++ k) v.
Proof.
  revert k. induction p as [|[parent j] p IH]; intros k Hp; [intros []|]. cbn [outside path_key]. destruct Hp as (Hw & Hj & _ & Hp). rewrite <- (assoc_L (++)). intros [H|(k' & E & H)]; [by eapply IH|]. apply app_inv_head in E. subst k'.
  apply lookup_lt_is_Some_2 in Hj as [s Hs]. pose proof (child_label _ _ _ _ _ Hw Hs) as Hl. pose proof (label_step _ _ _ _ _ Hw Hl) as [_ Hne].
  destruct H as [[E _]|(i & l & s' & k' & Hij & H1 & _ & E & _)]; [by apply app_eq_nil in E as [E _]|]. apply Hij. by eapply labels_apart.
Qed.

Lemma total_plug a b fl p n n' : wf_path fl p -> total a b (plug p n) = total a b (plug p n') + total a b n - total a b n'.
Proof.
  revert n n'. induction p as [|[parent j] p IH]; intros n n' Hp; cbn [plug]; [lia|]. destruct Hp as (_ & Hj & _ & Hp). apply lookup_lt_is_Some_2 in Hj as [s Hs].
  rewrite (IH _ (set_child parent j (Sub n')) Hp), !(total_set_child _ _ _ _ s) by done. cbn [slot_total]. lia.
Qed.

(** ** Order *)

Definition key_lt (x y : list Z * Z) : Prop := lexcmp x.1 y.1 < 0.

Lemma lexcmp_app l a b : lexcmp (l ++ a) (l ++ b) = lexcmp a b.
Proof. induction l as [|x l IH]; [done|]. cbn. by rewrite Z.eqb_refl. Qed.

Lemma lexcmp_nil_l l : l <> [] -> lexcmp [] l < 0.
Proof. by destruct l. Qed.

Lemma under_sorted l c : StronglySorted key_lt c -> StronglySorted key_lt (under l c).
Proof.
  intros H. apply (StronglySorted_fmap _ key_lt key_lt); [|done]. intros x y Hxy. unfold key_lt. cbn. by rewrite lexcmp_app.
Qed.

Lemma edges_sorted data slots : StronglySorted Z.lt data -> Forall (fun s => StronglySorted key_lt (slot_contents s)) slots -> StronglySorted key_lt (edges_contents ((fun c => [c]) <$> data) slots).
Proof.
  intros Hd Hs. revert data Hd. induction Hs as [|s slots Hs _ IH]; intros [|c data] Hd; try constructor. cbn [edges_contents fmap list_fmap]. apply StronglySorted_cons in Hd as [Hc Hd]. apply StronglySorted_app_2; [|by apply under_sorted|by apply IH].
  intros [k1 v1] [k2 v2] H1 H2. apply elem_of_under in H1 as (k' & -> & _). apply elem_of_edges in H2 as (i & l & s' & k'' & Hl & _ & -> & _). apply list_lookup_fmap_Some in Hl as (c' & -> & Hl). eapply Forall_lookup_1 in Hc; [|exact Hl].
  unfold key_lt. cbn. destruct (Z.eqb_spec c c'); [lia|]. destruct (Z.ltb_spec c c'); lia.
Qed.

Lemma wf_slot_all (P : raxNode -> Prop) fl d slots : Forall (slot_all (fun n => forall d, wf fl d n -> P n)) slots -> Forall (wf_slot fl d) slots -> Forall (slot_all P) slots.
Proof. intros H1 H2. induction H2 as [|s slots Hs _ IH]; constructor; apply list.Forall_cons in H1 as [H1 H1']; [|by apply IH]. destruct s as [n|]; [|done]. destruct Hs as (_ & _ & Hw). by eapply H1. Qed.

Lemma contents_sorted fl d n : wf fl d n -> StronglySorted key_lt (contents n).
Proof.
  revert d. induction n as [key compr data slots IH] using raxNode_rect'. intros d Hw. rewrite contents_eq. cbn [n_key n_children]. pose proof Hw as Hw'. apply wf_eq in Hw' as (_ & _ & Hsh & Hs). cbn [n_children] in Hs. apply (wf_slot_all (fun n => StronglySorted key_lt (contents n)) _ _ _ IH) in Hs.
  assert (Hs' : Forall (fun s => StronglySorted key_lt (slot_contents s)) slots) by (eapply list.Forall_impl; [exact Hs|]; intros [n|v] H; [exact H|repeat constructor]).
  apply StronglySorted_app_2.
  - intros [k1 v1] [k2 v2] H1 H2. destruct key; cbn [key_part] in H1; [|by apply not_elem_of_nil in H1]. apply list_elem_of_singleton in H1. simplify_eq. apply elem_of_edges in H2 as (i & l & s' & k'' & Hl & _ & -> & _). apply (label_step _ _ _ _ _ Hw) in Hl as [_ Hl]. unfold key_lt. destruct l; [done|by apply lexcmp_nil_l].
  - destruct key; cbn; repeat constructor.
  - unfold labels. cbn [iscompr n_data]. unfold shape in Hsh. cbn [iscompr n_data n_children] in Hsh. destruct compr; cbn [edge_labels]; [|apply edges_sorted; [apply Hsh|done]]. destruct Hsh as (_ & _ & Hl). destruct slots as [|s [|]]; [done| |done]. cbn [edges_contents]. rewrite app_nil_r. apply under_sorted. by apply list.Forall_cons in Hs' as [Hs' _].
Qed.

Lemma contents_elements fl d n : wf fl d n -> Z.of_nat (length (contents n)) = elements n.
Proof.
  revert d. induction n as [key compr data slots IH] using raxNode_rect'. intros d Hw. rewrite contents_eq. unfold elements. rewrite total_eq. cbn [n_key n_children]. pose proof (labels_length _ _ _ Hw) as Hl. cbn [n_children] in Hl. apply wf_eq in Hw as (_ & _ & _ & Hs). apply (wf_slot_all (fun n => Z.of_nat (length (contents n)) = elements n) _ _ _ IH) in Hs. cbn [n_children] in Hs.
  rewrite length_app, Nat2Z.inj_add. f_equal; [by destruct key|]. revert Hl Hs. generalize (labels (RN key compr data slots)). clear IH. induction slots as [|s slots IH]; intros [|l ls] Hl Hs; try done. apply list.Forall_cons in Hs as [Hs Hss]. cbn [edges_contents]. rewrite length_app, Nat2Z.inj_add, slots_total_cons, (IH ls) by (done || (cbn in Hl; lia)).
  f_equal. unfold under. rewrite length_fmap. destruct s as [n|v]; [exact Hs|done].
Qed.

(** ** Maps *)

Definition rax_map (r : rax) : gmap (list Z) Z := list_to_map (contents (r_head r)).

Lemma sorted_keys_NoDup (c : list (list Z * Z)) : StronglySorted key_lt c -> NoDup (c.*1).
Proof.
  induction c as [|[k v] c IH]; intros H; cbn; [constructor|]. apply StronglySorted_cons in H as [H1 H2]. apply list.NoDup_cons. split; [|by apply IH]. intros Hin. apply list_elem_of_fmap in Hin as ([k' v'] & Hk & Hin). cbn in Hk. subst k'. eapply list.Forall_forall in H1; [|exact Hin]. unfold key_lt in H1. cbn in H1. rewrite lexcmp_refl in H1. lia.
Qed.

Lemma rax_map_lookup fl d r k v : wf fl d (r_head r) -> rax_map r !! k = Some v <-> (k, v) ∈ contents (r_head r).
Proof. intros Hw. symmetry. apply elem_of_list_to_map, sorted_keys_NoDup. by eapply contents_sorted. Qed.

(** What holds between the operations. *)
Record rax_ok (r : rax) : Prop := {
  ok_wf : wf (r_keyFixedLen r) 0 (r_head r);
  ok_numele : r_numele r = elements (r_head r);
  ok_numnodes : r_numnodes r = nodes (r_head r);
  ok_fixed : Z.of_nat (r_keyFixedLen r) <= RAX_NODE_MAX_SIZE }.

Lemma ok_size r : rax_ok r -> r_numele r = Z.of_nat (size (rax_map r)).
Proof. intros [H1 H2 _ _]. rewrite H2, <- (contents_elements _ _ _ H1). f_equal. unfold rax_map. rewrite <- map_size_list_to_map; [done|]. by eapply sorted_keys_NoDup, contents_sorted. Qed.
