(* ===== verification/RaxInsert.v ===== *)
(** * Lookup and insertion in radix trees *)

From stdpp Require Import base list gmap numbers option tactics sorting.
From S2P Require Import Prelude Order Rax RaxSpec.

(** ** The children of a node *)

Lemma index_of_spec c data : match index_of c data with Some j => data !! j = Some c | None => c ∉ data end.
Proof.
  induction data as [|x data IH]; cbn [index_of]; [by apply not_elem_of_nil|]. destruct (Z.eqb_spec x c) as [->|Hne]; [done|]. destruct (index_of c data); cbn; [done|]. rewrite not_elem_of_cons. split; [congruence|done].
Qed.

Lemma sorted_last (data : list Z) x y : StronglySorted Z.lt data -> data !! pred (length data) = Some x -> y ∈ data -> y <= x.
Proof.
  intros Hs Hx Hy. apply list_elem_of_lookup in Hy as [i Hi]. destruct (decide (i = pred (length data))) as [->|Hne]; [simplify_eq; lia|]. pose proof (lookup_lt_Some _ _ _ Hi). pose proof (sorted_lt_lookup _ i (pred (length data)) _ _ Hs ltac:(lia) Hi Hx). lia.
Qed.

Lemma find_child_spec data c : StronglySorted Z.lt data -> match find_child data c with Some j => data !! j = Some c | None => c ∉ data end.
Proof.
  intros Hs. unfold find_child. destruct (data !! pred (length data)) as [x|] eqn:Hx; cbn [mbind option_bind].
  - destruct (Z.eqb_spec x c) as [->|Hne]; [done|]. destruct (Z.gtb_spec c x); [|apply index_of_spec]. intros Hc. pose proof (sorted_last _ _ _ Hs Hx Hc). lia.
  - apply lookup_ge_None in Hx. destruct data; [by apply not_elem_of_nil|cbn in Hx; lia].
Qed.

Lemma first_larger_spec data c : StronglySorted Z.lt data -> c ∉ data -> StronglySorted Z.lt (insert_at (first_larger data c) c data).
Proof.
  unfold insert_at. induction data as [|x data IH]; intros Hs Hc; cbn [first_larger take drop app]; [repeat constructor|]. apply not_elem_of_cons in Hc as [Hne Hc]. apply StronglySorted_cons in Hs as [Hx Hs]. destruct (Z.gtb_spec x c).
  - cbn [take drop app]. constructor; [by constructor|]. constructor; [done|]. eapply list.Forall_impl; [exact Hx|]. cbn. lia.
  - cbn [take drop app]. constructor; [by apply IH|]. apply list.Forall_app. rewrite list.Forall_cons. assert (Hall : Forall (Z.lt x) (take (first_larger data c) data ++ drop (first_larger data c) data)) by (by rewrite take_drop). apply list.Forall_app in Hall as [H1 H2]. split_and!; [done|lia|done].
Qed.

Lemma first_larger_le data c : (first_larger data c <= length data)%nat.
Proof. induction data as [|x data IH]; cbn; [done|]. destruct (_ >? _); lia. Qed.

Lemma first_larger_end data c x : StronglySorted Z.lt data -> data !! pred (length data) = Some x -> x < c -> first_larger data c = length data.
Proof.
  intros Hs Hx Hc. assert (Hall : Forall (fun y => y < c) data) by (apply list.Forall_forall; intros y Hy; pose proof (sorted_last _ _ _ Hs Hx Hy); lia). clear - Hall. induction Hall as [|y data Hy _ IH]; [done|]. cbn. destruct (Z.gtb_spec y c); [lia|]. by rewrite IH.
Qed.

Lemma child_pos_eq data c : StronglySorted Z.lt data -> child_pos data c = first_larger data c.
Proof. intros Hs. unfold child_pos. destruct (data !! pred (length data)) as [x|] eqn:Hx; [|done]. destruct (Z.gtb_spec c x); [|done]. symmetry. by eapply first_larger_end. Qed.

Lemma insert_at_length {A} pos (x : A) l : (pos <= length l)%nat -> length (insert_at pos x l) = S (length l).
Proof. intros H. unfold insert_at. rewrite length_app. cbn. rewrite length_take, length_drop. lia. Qed.

Lemma fmap_insert_at {A B} (f : A -> B) pos x l : f <$> insert_at pos x l = insert_at pos (f x) (f <$> l).
Proof. unfold insert_at. rewrite fmap_app, fmap_cons, fmap_take, fmap_drop. done. Qed.

Lemma Forall_insert_at {A} (P : A -> Prop) pos x l : Forall P l -> P x -> Forall P (insert_at pos x l).
Proof. intros H Hx. unfold insert_at. apply list.Forall_app. split; [by apply Forall_take|]. constructor; [done|by apply Forall_drop]. Qed.

Lemma edges_contents_app ls1 ls2 s1 s2 : length ls1 = length s1 -> edges_contents (ls1 ++ ls2) (s1 ++ s2) = edges_contents ls1 s1 ++ edges_contents ls2 s2.
Proof. revert ls1. induction s1 as [|s s1 IH]; intros [|l ls1] H; try done. cbn [edges_contents app]. rewrite IH by (cbn in H; lia). by rewrite (assoc_L (++)). Qed.

Lemma elem_of_edges_insert_at pos l s ls slots x : length ls = length slots -> x ∈ edges_contents (insert_at pos l ls) (insert_at pos s slots) <-> x ∈ under l (slot_contents s) \/ x ∈ edges_contents ls slots.
Proof.
  intros H. unfold insert_at. rewrite edges_contents_app by (rewrite !length_take; lia). cbn [edges_contents]. rewrite !elem_of_app. rewrite <- (take_drop pos ls) at 3. rewrite <- (take_drop pos slots) at 3. rewrite edges_contents_app by (rewrite !length_take; lia). rewrite elem_of_app. tauto.
Qed.

(** A node without the edge gets it. *)
Lemma add_edge fl d n c s pos : wf fl d n -> iscompr n = false -> c ∉ n_data n -> is_byte c -> pos = child_pos (n_data n) c -> wf_slot fl (d + 1) s ->
  let n' := RN (n_key n) false (insert_at pos c (n_data n)) (insert_at pos s (n_children n)) in
  wf fl d n' /\ used n' /\ forall k v, (k, v) ∈ contents n' <-> (k, v) ∈ contents n \/ (k, v) ∈ under [c] (slot_contents s).
Proof.
  intros Hw Hc Hin Hb -> Hs n'. pose proof (labels_length _ _ _ Hw) as Hll. pose proof Hw as Hw'. apply wf_eq in Hw' as (H1 & H2 & H3 & H4). unfold shape in H3. rewrite Hc in H3. destruct H3 as [Hl Hso]. unfold n'. rewrite (child_pos_eq _ _ Hso) in *. pose proof (first_larger_le (n_data n) c) as Hle.
  assert (Hstep : raxStepLenNode n = 1%nat) by (unfold raxStepLenNode; by rewrite Hc). split_and!.
  - apply wf_eq. split_and!; cbn [n_key n_data n_children iscompr shape]; [by apply Forall_insert_at|done| |].
    + rewrite !insert_at_length by lia. split; [lia|by apply first_larger_spec].
    + cbn [raxStepLenNode iscompr]. rewrite Hstep in H4. by apply Forall_insert_at.
  - right. cbn. unfold insert_at. intros E. by apply app_eq_nil in E as [_ E].
  - intros k v. rewrite !contents_eq. cbn [n_key n_children]. rewrite !elem_of_app. unfold labels. cbn [iscompr n_data edge_labels]. rewrite fmap_insert_at. rewrite elem_of_edges_insert_at; [rewrite Hc; cbn [edge_labels]; tauto|]. rewrite length_fmap. lia.
Qed.

(** ** The walk *)

Lemma common_le a b : (common a b <= length a)%nat /\ (common a b <= length b)%nat.
Proof. revert b. induction a as [|x a IH]; intros [|y b]; cbn; try lia. destruct (x =? y); [|lia]. specialize (IH b). lia. Qed.

Lemma common_take a b : take (common a b) a = take (common a b) b.
Proof. revert b. induction a as [|x a IH]; intros [|y b]; try done. cbn. destruct (Z.eqb_spec x y) as [->|]; [|done]. cbn. by rewrite IH. Qed.

Lemma common_differ a b x y : a !! common a b = Some x -> b !! common a b = Some y -> x <> y.
Proof. revert b. induction a as [|x' a IH]; intros [|y' b]; try done. cbn. destruct (Z.eqb_spec x' y') as [->|]; cbn; [apply IH|congruence]. Qed.

Lemma common_all a b : common a b = length a -> b = a ++ drop (length a) b.
Proof. intros H. pose proof (common_take a b) as E. rewrite H, take_ge in E by done. rewrite E at 1. by rewrite take_drop. Qed.

(** Where a walk for [s] may stop. *)
Definition link_ok (fl : nat) (head : raxNode) (s : list Z) (link : raxNodeLink) : Prop :=
  let p := l_path link in let h := l_stopnode link in
  plug p h = head /\ wf_path fl p /\ wf fl (length (path_key p)) h /\ (p <> [] -> used h) /\ exists rest, s = path_key p ++ rest /\
  match l_stop link with
  | AtNode j => l_consumed link = (length (path_key p) + j)%nat /\
      (rest = [] /\ j = 0%nat \/ rest <> [] /\ iscompr h = true /\ j = common (n_data h) rest /\ (j < n_size h)%nat \/ (exists c r, rest = c :: r /\ iscompr h = false /\ (c ∉ n_data h) /\ j = 0%nat))
  | AtLeafSlot j => exists v l r, labels h !! j = Some l /\ n_children h !! j = Some (Val v) /\ rest = l ++ r /\ length (path_key p ++ l) = fl /\ l_consumed link = fl
  end.

Lemma values_at fl d : raxSlotsAreValues fl d = true <-> fl <> 0%nat /\ d = fl.
Proof. unfold raxSlotsAreValues. rewrite andb_true_iff, negb_true_iff, Nat.eqb_neq, Nat.eqb_eq. done. Qed.

Lemma plug_child p h j s : n_children h !! j = Some (Sub s) -> plug ((h, j) :: p) s = plug p h.
Proof. intros H. cbn [plug]. f_equal. destruct h as [key compr data slots]. unfold set_child. cbn in *. f_equal. by apply list_insert_id. Qed.

(** One step down the edge [l]. *)
Lemma walk_down fl p h j l : wf_path fl p -> wf fl (length (path_key p)) h -> labels h !! j = Some l ->
  (raxSlotsAreValues fl (length (path_key p) + length l) = true /\ exists v, n_children h !! j = Some (Val v)) \/
  raxSlotsAreValues fl (length (path_key p) + length l) = false /\ exists c, n_children h !! j = Some (Sub c) /\ wf_path fl ((h, j) :: p) /\ wf fl (length (path_key ((h, j) :: p))) c /\ used c /\ path_key ((h, j) :: p) = path_key p ++ l.
Proof.
  intros Hp Hw Hl. pose proof (label_step _ _ _ _ _ Hw Hl) as [Hst _]. assert (Hj : (j < length (n_children h))%nat) by (rewrite <- (labels_length _ _ _ Hw); by apply lookup_lt_Some in Hl).
  destruct (lookup_lt_is_Some_2 _ _ Hj) as [s Hs]. pose proof Hw as Hw'. apply wf_eq in Hw' as (_ & _ & _ & H4). pose proof (Forall_lookup_1 _ _ _ _ H4 Hs) as Hslot. cbn beta in Hslot. rewrite <- Hst in Hslot.
  assert (Hk : path_key ((h, j) :: p) = path_key p ++ l) by (cbn; by rewrite (label_at_eq _ _ _ Hl)). destruct (raxSlotsAreValues _ _) eqn:Hv.
  - left. split; [done|]. apply values_at in Hv as [Hf He]. destruct s as [c|v]; [|by exists v]. destruct Hslot as (Hlt & _). specialize (Hlt Hf). lia.
  - right. split; [done|]. destruct s as [c|v]; [|exfalso; destruct Hslot as [Hf He]; rewrite (proj2 (values_at _ _) (conj Hf He)) in Hv; done]. exists c. destruct Hslot as (Hlt & Hu & Hwc). rewrite Hk, length_app.
    split_and!; try done. cbn [wf_path]. rewrite Hk, length_app. done.
Qed.

Lemma low_walk_spec fuel fl : forall h p s, wf_path fl p -> wf fl (length (path_key p)) h -> (p <> [] -> used h) -> (length s < fuel)%nat ->
  exists link, low_walk fuel fl h p (length (path_key p)) s = Some link /\ link_ok fl (plug p h) (path_key p ++ s) link.
Proof.
  induction fuel as [|fuel IH]; intros h p s Hp Hw Hu Hf; [lia|]. destruct s as [|c s]; cbn [low_walk].
  { eexists. split; [done|]. split_and!; try done. exists []. cbn. split; [done|]. split; [lia|]. by left. }
  assert (Hdown : forall j l s', labels h !! j = Some l -> c :: s = l ++ s' -> exists link,
    (if raxSlotsAreValues fl (length (path_key p) + length l) then Some {| l_stopnode := h; l_path := p; l_consumed := length (path_key p) + length l; l_stop := AtLeafSlot j |}
     else slot ← n_children h !! j; h' ← as_node slot; low_walk fuel fl h' ((h, j) :: p) (length (path_key p) + length l) s') = Some link /\ link_ok fl (plug p h) (path_key p ++ c :: s) link).
  { intros j l s' Hl E. pose proof (label_step _ _ _ _ _ Hw Hl) as [_ Hne]. destruct (walk_down _ _ _ _ _ Hp Hw Hl) as [[Hv [v Hs]]|[Hv (ch & Hs & Hp' & Hwc & Huc & Hk)]]; rewrite Hv.
    - eexists. split; [done|]. apply values_at in Hv as [Hf0 He]. split_and!; try done. exists (c :: s). split; [done|]. cbn. exists v, l, s'. rewrite length_app. split_and!; try done.
    - rewrite Hs. cbn [mbind option_bind as_node]. destruct (IH ch ((h, j) :: p) s' Hp' Hwc) as (link & E1 & E2); [done|rewrite E in Hf; rewrite length_app in Hf; destruct l; [done|cbn in Hf; lia]|].
      exists link. rewrite (plug_child _ _ _ _ Hs), Hk, <- (assoc_L (++)), <- E in E2. rewrite Hk, length_app in E1. done. }
  destruct (n_size h =? 0)%nat eqn:Hsz.
  { apply Nat.eqb_eq in Hsz. eexists. split; [done|]. split_and!; try done. exists (c :: s). split; [done|]. cbn. split; [lia|]. right. right. exists c, s. unfold n_size in Hsz. apply length_zero_iff_nil in Hsz. split_and!; try done; [|rewrite Hsz; apply not_elem_of_nil].
    apply wf_eq in Hw as (_ & _ & H3 & _). unfold shape in H3. rewrite Hsz in H3. destruct (iscompr h); [cbn in H3; lia|done]. }
  apply Nat.eqb_neq in Hsz. destruct (iscompr h) eqn:Hc.
  - destruct (common (n_data h) (c :: s) =? n_size h)%nat eqn:Hj; cbn [negb].
    + apply Nat.eqb_eq in Hj. unfold n_size in Hj. destruct (Hdown 0%nat (n_data h) (drop (length (n_data h)) (c :: s))) as (link & E1 & E2); [unfold labels; by rewrite Hc|by apply common_all|]. exists link. rewrite Hj. done.
    + apply Nat.eqb_neq in Hj. eexists. split; [done|]. split_and!; try done. exists (c :: s). split; [done|]. cbn [l_stop l_consumed l_stopnode]. split; [done|]. right. left. split_and!; try done. pose proof (common_le (n_data h) (c :: s)). unfold n_size in *. lia.
  - apply wf_eq in Hw as Hw'. destruct Hw' as (_ & _ & H3 & _). unfold shape in H3. rewrite Hc in H3. destruct H3 as [_ Hso]. pose proof (find_child_spec _ c Hso) as Hfc. destruct (find_child (n_data h) c) as [j|].
    + destruct (Hdown j [c] s) as (link & E1 & E2); [unfold labels; rewrite Hc; cbn [edge_labels]; by rewrite list_lookup_fmap, Hfc|done|]. exists link. done.
    + eexists. split; [done|]. split_and!; try done. exists (c :: s). split; [done|]. cbn. split; [lia|]. right. right. by exists c, s.
Qed.

(** ** What a walk finds *)

Lemma elem_of_plug_here fl p n k v : wf_path fl p -> (path_key p ++ k, v) ∈ contents (plug p n) <-> (k, v) ∈ contents n.
Proof.
  intros Hp. rewrite (elem_of_plug fl) by done. split; [intros [H|(k' & E & H)]|intros H; right; eauto].
  - by apply (outside_apart fl) in H.
  - apply app_inv_head in E. by subst.
Qed.

Lemma elem_of_contents_nil fl d n v : wf fl d n -> ([], v) ∈ contents n <-> n_key n = Some v.
Proof.
  intros Hw. rewrite elem_of_contents. split; [intros [[_ H]|(i & l & s & k' & Hl & _ & E & _)]; [done|]|intros H; by left].
  symmetry in E. apply app_eq_nil in E as [E _]. by apply (label_step _ _ _ _ _ Hw) in Hl as [_ Hl].
Qed.

Lemma elem_of_contents_edge fl d n j l s k v : wf fl d n -> labels n !! j = Some l -> n_children n !! j = Some s -> (l ++ k, v) ∈ contents n <-> (k, v) ∈ slot_contents s.
Proof.
  intros Hw Hl Hs. rewrite elem_of_contents. split.
  - intros [[E0 _]|(i & l' & s' & k' & Hl' & Hs' & E & H)]; [apply app_eq_nil in E0 as [E0 _]; by apply (label_step _ _ _ _ _ Hw) in Hl as [_ Hl]|].
    pose proof (labels_apart _ _ _ _ _ _ _ _ _ Hw Hl Hl' E) as <-. by simplify_eq.
  - intros H. right. by exists j, l, s, k.
Qed.

(** No key below a node continues with an edge that is not there. *)
Lemma no_such_edge n k v : k <> [] -> (forall j l r, labels n !! j = Some l -> k <> l ++ r) -> (k, v) ∉ contents n.
Proof. intros Hk Hl. rewrite elem_of_contents. intros [[-> _]|(i & l & s & k' & H & _ & -> & _)]; [done|]. by eapply Hl. Qed.

Lemma compr_mismatch n rest v : iscompr n = true -> (common (n_data n) rest < n_size n)%nat -> rest <> [] -> (rest, v) ∉ contents n.
Proof.
  intros Hc Hlt Hr. apply no_such_edge; [done|]. intros j l r Hl ->. unfold labels in Hl. rewrite Hc in Hl. destruct j; [|done]. injection Hl as <-.
  assert (He : common (n_data n) (n_data n ++ r) = length (n_data n)) by (generalize (n_data n); intros d; induction d as [|x d IH]; [done|]; cbn; by rewrite Z.eqb_refl, IH). unfold n_size in Hlt. lia.
Qed.

Lemma edge_missing n c r v : iscompr n = false -> c ∉ n_data n -> (c :: r, v) ∉ contents n.
Proof.
  intros Hc Hn. apply no_such_edge; [done|]. intros j l r' Hl E. unfold labels in Hl. rewrite Hc in Hl. apply list_lookup_fmap_Some in Hl as (c' & -> & Hl). cbn in E. injection E as -> _. apply Hn. by apply list_elem_of_lookup_2 in Hl.
Qed.

Lemma raxLowWalk_spec r s : rax_ok r -> (r_keyFixedLen r = 0%nat \/ length s = r_keyFixedLen r) -> exists link, raxLowWalk r s = Some (rax_map r !! s, link) /\ link_ok (r_keyFixedLen r) (r_head r) s link.
Proof.
  intros Hok Hlen. pose proof (ok_wf _ Hok) as Hw0. destruct (low_walk_spec (S (length s)) (r_keyFixedLen r) (r_head r) [] s) as (link & E & Hl); [done|done|done|lia|]. cbn [path_key app plug length] in E, Hl. exists link. split; [|done]. unfold raxLowWalk. rewrite E. cbn [mbind option_bind].
  destruct Hl as (Hp & Hwp & Hw & _ & rest & Hs & Hstop). assert (Hmap : forall v, rax_map r !! s = Some v <-> (rest, v) ∈ contents (l_stopnode link)) by (intros v; rewrite (rax_map_lookup _ _ _ _ _ Hw0), <- Hp, Hs; by eapply elem_of_plug_here).
  assert (Hnone : (forall v, (rest, v) ∉ contents (l_stopnode link)) -> rax_map r !! s = None) by (intros H; apply eq_None_not_Some; intros [v Hv]; by apply Hmap, H in Hv).
  destruct (l_stop link) as [j|j].
  - destruct Hstop as [Hc [(-> & ->)|[(Hr & Hcm & -> & Hj)|(c & r' & -> & Hcm & Hn & ->)]]].
    + rewrite app_nil_r in Hs. rewrite Hc, Hs, Nat.add_0_r, Nat.eqb_refl. cbn [negb orb]. rewrite andb_false_r. cbn [orb]. unfold iskey. assert (Hm : rax_map r !! s = n_key (l_stopnode link)).
      { apply option_eq. intros v. rewrite Hmap. by eapply elem_of_contents_nil. }
      rewrite <- Hs, Hm. case_bool_decide as Hk; [done|]. cbn. by rewrite (proj2 (eq_None_not_Some _) Hk).
    + rewrite Hnone by (intros v; by apply compr_mismatch). destruct (negb (_ =? length s)%nat) eqn:E1; [done|]. apply negb_false_iff, Nat.eqb_eq in E1. rewrite Hc, Hs, length_app in E1. destruct rest as [|c0 rest]; [done|]. cbn [length] in E1. rewrite Hcm. assert (E2 : (common (n_data (l_stopnode link)) (c0 :: rest) =? 0)%nat = false) by (apply Nat.eqb_neq; lia). by rewrite E2.
    + rewrite Hnone by (intros v; by apply edge_missing). assert (E1 : (l_consumed link =? length s)%nat = false) by (apply Nat.eqb_neq; rewrite Hc, Hs, length_app; cbn; lia). by rewrite E1.
  - destruct Hstop as (v & l & r' & Hl & Hv & -> & Hfl & Hc). unfold raxLeafParentReadSlot. rewrite Hv. cbn [mbind option_bind]. do 2 f_equal. symmetry. apply Hmap. rewrite (elem_of_contents_edge _ _ _ _ _ _ _ _ Hw Hl Hv). cbn [slot_contents]. apply list_elem_of_singleton.
    assert (r' = []) as ->; [|done]. rewrite Hs, !length_app in Hlen. rewrite length_app in Hfl. destruct r'; [done|]. pose proof (label_step _ _ _ _ _ Hw Hl) as [_ Hne]. destruct l; [done|]. cbn in *. lia.
Qed.

(** ** Chains *)

(** A node with one child below the bytes [data]. *)
Definition chain_node (key : option Z) (data : list Z) (s : raxSlot) : raxNode := RN key (1 <? length data)%nat data [s].

Lemma chain_label key data s : data <> [] -> labels (chain_node key data s) = [data].
Proof. intros H. unfold labels. cbn [chain_node iscompr n_data]. destruct (Nat.ltb_spec 1 (length data)); [done|]. destruct data as [|c [|]]; [done|done|cbn in *; lia]. Qed.

Lemma chain_step key data s : data <> [] -> raxStepLenNode (chain_node key data s) = length data.
Proof. intros H. unfold raxStepLenNode. cbn [chain_node iscompr]. unfold n_size. cbn [n_data chain_node]. destruct (Nat.ltb_spec 1 (length data)); [done|]. destruct data as [|c [|]]; [done|done|cbn in *; lia]. Qed.

Lemma chain_wf fl d key data s : data <> [] -> zlen data <= RAX_NODE_MAX_SIZE -> Forall is_byte data -> (fl <> 0%nat -> key = None /\ (d < fl)%nat) -> wf_slot fl (d + length data) s -> wf fl d (chain_node key data s).
Proof.
  intros Hd Hm Hb Hk Hs. apply wf_eq. split_and!; [done|done| |].
  - cbn [chain_node iscompr n_data n_children]. unfold shape. destruct (Nat.ltb_spec 1 (length data)); [done|]. destruct data as [|c [|]]; [done| |cbn in *; lia]. split; [done|repeat constructor].
  - rewrite chain_step by done. by repeat constructor.
Qed.

Lemma chain_contents key data s : data <> [] -> contents (chain_node key data s) = key_part key ++ under data (slot_contents s).
Proof. intros H. rewrite contents_eq, chain_label by done. cbn [chain_node n_key n_children edges_contents]. by rewrite app_nil_r. Qed.

Lemma chain_total a b key data s : total a b (chain_node key data s) = a key + slot_total a b s.
Proof. rewrite total_eq. cbn [chain_node n_key n_children]. rewrite slots_total_cons. cbn. lia. Qed.

Lemma compr_is_chain fl d n : wf fl d n -> iscompr n = true -> exists s, n = chain_node (n_key n) (n_data n) s /\ n_data n <> [] /\ zlen (n_data n) <= RAX_NODE_MAX_SIZE /\ Forall is_byte (n_data n) /\ wf_slot fl (d + length (n_data n)) s /\ n_children n = [s].
Proof.
  rewrite wf_eq. intros (H1 & H2 & H3 & H4) Hc. unfold shape in H3. rewrite Hc in H3. destruct H3 as (L & Mx & Hl). destruct n as [key compr data slots]. cbn in *. subst compr. destruct slots as [|s [|]]; [done| |done]. exists s. unfold chain_node. assert ((1 <? length data)%nat = true) as -> by (apply Nat.ltb_lt; lia).
  split_and!; try done; [destruct data; [cbn in L; lia|done]|]. apply list.Forall_cons in H4 as [H4 _]. exact H4.
Qed.

Lemma under_app l l' c : under (l ++ l') c = under l (under l' c).
Proof. unfold under. rewrite <- list_fmap_compose. apply list_fmap_ext. intros i x _. cbn. by rewrite (assoc_L (++)). Qed.

Lemma under_nil c : under [] c = c.
Proof. unfold under. rewrite <- (list_fmap_id c) at 2. apply list_fmap_ext. by intros i [k v]. Qed.

(** ** The missing nodes *)

Lemma new_node_wf fl d : (fl <> 0%nat -> (d < fl)%nat) -> wf fl d raxNewNode.
Proof. intros H. apply wf_eq. split_and!; cbn; try done; [auto|split; [done|constructor]]. Qed.

(** [h'] is [h] with one more key. *)
Definition with_key (fl d : nat) (h h' : raxNode) (s : list Z) (data created : Z) : Prop :=
  wf fl d h' /\ used h' /\ (forall k v, (k, v) ∈ contents h' <-> (k, v) ∈ contents h \/ k = s /\ v = data) /\ elements h' = elements h + 1 /\ nodes h' = nodes h + created.

Lemma elem_of_single_under l k v (s : list Z) (data : Z) : (k, v) ∈ under l [(s, data)] <-> k = l ++ s /\ v = data.
Proof. rewrite elem_of_under. setoid_rewrite list_elem_of_singleton. split; [intros (k' & -> & E); by simplify_eq|intros [-> ->]; eauto]. Qed.

Lemma empty_node fl d n : wf fl d n -> iscompr n = false -> n_size n = 0%nat -> n_children n = [] /\ contents n = key_part (n_key n).
Proof.
  rewrite wf_eq. intros (_ & _ & H3 & _) Hc Hs. unfold shape in H3. rewrite Hc in H3. unfold n_size in Hs. destruct H3 as [H3 _]. rewrite Hs in H3. apply length_zero_iff_nil in H3. split; [done|]. rewrite contents_eq, H3. apply app_nil_r.
Qed.

Lemma insert_rest_spec fl : Z.of_nat fl <= RAX_NODE_MAX_SIZE -> forall fuel h i s data, wf fl i h -> iscompr h = false -> (length s < fuel)%nat -> (fl <> 0%nat -> (i + length s)%nat = fl) -> Forall is_byte s ->
  (match s with [] => h = raxNewNode | c :: _ => c ∉ n_data h end) -> exists h' created, insert_rest fuel fl h i s data = Some (h', created) /\ with_key fl i h h' s data created.
Proof.
  intros Hmax. induction fuel as [|fuel IH]; intros h i s data Hw Hc Hf Hfl Hb Hh; [lia|]. destruct s as [|c s]; cbn [insert_rest].
  { subst h. assert (fl = 0%nat) as -> by (destruct fl; [done|]; apply wf_eq in Hw as (_ & H2 & _); specialize (H2 ltac:(done)); specialize (Hfl ltac:(done)); cbn in Hfl; lia).
    exists (raxSetData raxNewNode data), 0. split; [done|]. split_and!; try done; [split_and!; try done; repeat constructor|by left|]. intros k v. cbn. rewrite list_elem_of_singleton, elem_of_nil. split; [intros E; simplify_eq; by right|intros [[]|[-> ->]]; done]. }
  apply list.Forall_cons in Hb as Hb'. destruct Hb' as [Hbc Hbs]. assert (Hdepth : fl <> 0%nat -> (i < fl)%nat /\ n_key h = None) by (intros H; apply wf_eq in Hw as (_ & H2 & _); by destruct (H2 H)).
  destruct ((n_size h =? 0)%nat && (1 <? length (c :: s))%nat) eqn:Hcase.
  - apply andb_true_iff in Hcase as [Hsz Hlen]. apply Nat.ltb_lt in Hlen. pose proof Hsz as Hsz'. apply Nat.eqb_eq in Hsz'. destruct (empty_node _ _ _ Hw Hc Hsz') as (Hch & Hcont). set (cs := Z.to_nat (Z.min (zlen (c :: s)) RAX_NODE_MAX_SIZE)).
    assert (Hcs : (2 <= cs <= length (c :: s))%nat /\ Z.of_nat cs <= RAX_NODE_MAX_SIZE) by (unfold cs, zlen, RAX_NODE_MAX_SIZE in *; lia). assert (Hlt : length (take cs (c :: s)) = cs) by (rewrite length_take; lia).
    assert (Hcn : forall key x, RN key true (take cs (c :: s)) [x] = chain_node key (take cs (c :: s)) x) by (intros; unfold chain_node; rewrite Hlt; by assert ((1 <? cs)%nat = true) as -> by (apply Nat.ltb_lt; lia)).
    assert (Hne : take cs (c :: s) <> []) by (destruct cs; [lia|done]). assert (Hbt : Forall is_byte (take cs (c :: s))) by (by apply Forall_take). assert (Hzt : zlen (take cs (c :: s)) <= RAX_NODE_MAX_SIZE) by (unfold zlen; rewrite Hlt; lia).
    destruct (fl =? 0)%nat eqn:Hfl0; cbn [negb].
    + apply Nat.eqb_eq in Hfl0. destruct (IH raxNewNode (i + cs)%nat (drop cs (c :: s)) data) as (child & created & E & Hwk); [by apply new_node_wf|done|rewrite length_drop; cbn in *; lia|by intros|by apply Forall_drop|destruct (drop cs (c :: s)); [done|by apply not_elem_of_nil]|].
      rewrite E. cbn [mbind option_bind]. unfold raxCompressNode. rewrite Hsz, Hc. cbn [negb andb cassert mbind option_bind]. rewrite Hcn. eexists _, _. split; [done|]. destruct Hwk as (Wc & Uc & Cc & Ec & Nc).
      split_and!; [apply chain_wf; try done; rewrite Hlt; by split_and!|by right| |unfold elements in *; rewrite chain_total, (total_eq _ _ h), Hch; cbn [slot_total]; rewrite Ec; cbn; lia|unfold nodes in *; rewrite chain_total, (total_eq _ _ h), Hch; cbn [slot_total]; rewrite Nc; cbn; lia].
      intros k v. rewrite chain_contents, Hcont, elem_of_app by done. apply or_iff_compat_l. cbn [slot_contents]. rewrite elem_of_under. setoid_rewrite Cc. cbn [contents raxNewNode key_part edge_labels]. setoid_rewrite elem_of_nil. split; [intros (k' & -> & [[]|[-> ->]]); by rewrite take_drop|intros [-> ->]; exists (drop cs (c :: s)); rewrite take_drop; tauto].
    + apply Nat.eqb_neq in Hfl0. destruct (Hdepth Hfl0) as [Hdl Hk]. specialize (Hfl Hfl0). unfold raxCompressNodeWithValue. unfold iskey. rewrite Hsz, Hk, bool_decide_false by (by intros []). cbn [negb andb cassert mbind option_bind].
      assert (Hcs' : take cs (c :: s) = c :: s) by (apply take_ge; unfold cs, zlen; lia). rewrite Hcn. eexists _, _. split; [done|]. rewrite Hcs' in *.
      split_and!; [by apply chain_wf|by right| |unfold elements; rewrite chain_total, (total_eq _ _ h), Hch, Hk; cbn; lia|unfold nodes; rewrite chain_total, (total_eq _ _ h), Hch; cbn; lia].
      intros k v. rewrite chain_contents, Hcont, Hk, elem_of_app by done. apply or_iff_compat_l. cbn [slot_contents]. rewrite elem_of_single_under, app_nil_r. done.
  - destruct (raxSlotsAreValues fl (i + 1)) eqn:Hv.
    + apply values_at in Hv as [Hf0 Hi]. destruct (Hdepth Hf0) as [Hdl Hk]. specialize (Hfl Hf0). assert (s = []) as -> by (destruct s; [done|cbn in Hfl; lia]). unfold raxAddSlot, iskey. rewrite Hk, Hc, bool_decide_false by (by intros []). cbn [negb andb cassert mbind option_bind].
      destruct (add_edge fl i h c (Val data) _ Hw Hc Hh Hbc eq_refl) as (W & U & C); [done|]. rewrite Hk in *. eexists _, _. split; [done|]. split_and!; [done|done| |unfold elements; rewrite !total_eq; cbn [n_key n_children]; rewrite slots_total_insert_at, Hk; cbn; lia|unfold nodes; rewrite !total_eq; cbn [n_key n_children]; rewrite slots_total_insert_at; cbn; lia].
      intros k v. rewrite C. apply or_iff_compat_l. cbn [slot_contents]. by rewrite elem_of_single_under.
    + assert (Hdi : fl <> 0%nat -> (i + 1 < fl)%nat).
      { intros Hf0. specialize (Hfl Hf0). cbn in Hfl. destruct (decide (i + 1 = fl)%nat) as [He|]; [|lia]. by rewrite (proj2 (values_at _ _) (conj Hf0 He)) in Hv. }
      destruct (IH raxNewNode (i + 1)%nat s data) as (child & created & E & Wc & Uc & Cc & Ec & Nc); [by apply new_node_wf|done|cbn in Hf; lia|intros Hf0; specialize (Hfl Hf0); cbn in Hfl; lia|done|destruct s; [done|by apply not_elem_of_nil]|].
      rewrite E. cbn [mbind option_bind]. unfold raxAddChild. rewrite Hc. cbn [negb cassert mbind option_bind]. destruct (add_edge fl i h c (Sub child) _ Hw Hc Hh Hbc eq_refl) as (W & U & C); [by split_and!|].
      eexists _, _. split; [done|]. split_and!; [done|done| |unfold elements in *; rewrite !total_eq; cbn [n_key n_children]; rewrite slots_total_insert_at; cbn [slot_total]; rewrite Ec; cbn; lia|unfold nodes in *; rewrite !total_eq; cbn [n_key n_children]; rewrite slots_total_insert_at; cbn [slot_total]; rewrite Nc; cbn; lia].
      intros k v. rewrite C. apply or_iff_compat_l. cbn [slot_contents]. rewrite elem_of_under. setoid_rewrite Cc. cbn [contents raxNewNode key_part edge_labels]. setoid_rewrite elem_of_nil. split; [intros (k' & -> & [[]|[-> ->]]); done|intros [-> ->]; exists s; tauto].
Qed.

(** ** Insertion *)

(** [h'] holds what [h] holds, with [data] at [s]. *)
Definition updated (h h' : raxNode) (s : list Z) (data : Z) : Prop :=
  forall k v, (k, v) ∈ contents h' <-> k = s /\ v = data \/ k <> s /\ (k, v) ∈ contents h.

Lemma with_key_updated fl d h h' s data created : with_key fl d h h' s data created -> (forall v, (s, v) ∉ contents h) -> updated h h' s data.
Proof.
  intros (_ & _ & C & _) Hn k v. rewrite C. split; [intros [H|H]; [right|tauto]; split; [|done]; intros ->; by eapply Hn|tauto].
Qed.

Definition rebuilt (r : rax) (p : path) (h' : raxNode) (new : bool) (created : Z) : rax :=
  {| r_head := plug p h'; r_numele := r_numele r + Z.b2z new; r_numnodes := r_numnodes r + created; r_keyFixedLen := r_keyFixedLen r |}.

Lemma insert_plug r p h h' rest data new created : rax_ok r -> plug p h = r_head r -> wf_path (r_keyFixedLen r) p -> wf (r_keyFixedLen r) (length (path_key p)) h' -> (p <> [] -> used h') ->
  updated h h' rest data -> elements h' = elements h + Z.b2z new -> nodes h' = nodes h + created ->
  rax_ok (rebuilt r p h' new created) /\ rax_map (rebuilt r p h' new created) = <[path_key p ++ rest := data]> (rax_map r).
Proof.
  intros Hok Hp Hwp Hw Hu Hup He Hn. assert (Hw' : wf (r_keyFixedLen r) 0 (plug p h')) by (by apply wf_plug). split.
  - destruct Hok as [O1 O2 O3 O4]. constructor; cbn; [done| | |done].
    + rewrite O2, <- Hp. unfold elements in *. rewrite (total_plug _ _ _ p h' h Hwp). lia.
    + rewrite O3, <- Hp. unfold nodes in *. rewrite (total_plug _ _ _ p h' h Hwp). lia.
  - apply map_eq. intros k. apply option_eq. intros v. rewrite (rax_map_lookup _ _ (rebuilt r p h' new created) k v Hw'), lookup_insert_Some, (rax_map_lookup _ _ r k v (ok_wf _ Hok)). cbn [r_head rebuilt]. rewrite <- Hp, !(elem_of_plug _ _ _ _ _ Hwp). split.
    + intros [H|(k' & -> & H)]; [right; split; [|by left]; intros <-; by apply (outside_apart _ _ _ _ Hwp) in H|]. apply Hup in H as [[-> ->]|[Hne H]]; [by left|]. right. split; [intros E; by apply app_inv_head in E|]. right. eauto.
    + intros [[<- <-]|[Hne [H|(k' & -> & H)]]]; [right; exists rest; split; [done|]; apply Hup; by left|by left|]. right. exists k'. split; [done|]. apply Hup. right. split; [congruence|done].
Qed.

(** A node becomes a key. *)
Lemma set_data_spec fl d h data : wf fl d h -> fl = 0%nat -> wf fl d (raxSetData h data) /\ used (raxSetData h data) /\ updated h (raxSetData h data) [] data /\ elements (raxSetData h data) = elements h + Z.b2z (negb (iskey h)) /\ nodes (raxSetData h data) = nodes h + 0.
Proof.
  intros Hw ->. pose proof Hw as Hw'. apply wf_eq in Hw' as (H1 & H2 & H3 & H4). assert (W : wf 0 d (raxSetData h data)) by (apply wf_eq; split_and!; done). split_and!; [done|by left| | |].
  - intros k v. destruct k as [|c k].
    + rewrite (elem_of_contents_nil _ _ _ _ W). cbn. split; [intros [= <-]; by left|intros [[_ ->]|[[] _]]; done].
    + rewrite !elem_of_contents. cbn [raxSetData n_key n_children]. change (labels (raxSetData h data)) with (labels h). split; [intros [[E _]|H]; [done|]; right; split; [done|by right]|intros [[E _]|[_ [[E _]|H]]]; [done|done|by right]].
  - unfold elements. rewrite !total_eq. cbn [raxSetData n_key n_children]. unfold iskey. destruct (n_key h); cbn; lia.
  - unfold nodes. rewrite !total_eq. cbn [raxSetData n_key n_children]. lia.
Qed.

Lemma set_slot_spec fl d h j l v data : wf fl d h -> labels h !! j = Some l -> n_children h !! j = Some (Val v) -> let h' := set_child h j (Val data) in
  wf fl d h' /\ used h' /\ updated h h' l data /\ elements h' = elements h + Z.b2z false /\ nodes h' = nodes h + 0.
Proof.
  intros Hw Hl Hv h'. pose proof (lookup_lt_Some _ _ _ Hv) as Hj. pose proof Hw as Hw'. apply wf_eq in Hw' as (_ & _ & _ & H4). pose proof (Forall_lookup_1 _ _ _ _ H4 Hv) as Hslot. assert (W : wf fl d h') by (by apply wf_set_child). split_and!; [done|eapply (has_child_used _ _ _ j); [exact W|cbn; by rewrite length_insert]| | |].
  - intros k x. unfold h'. rewrite (elem_of_set_child _ _ _ _ _ _ _ Hw Hj), (label_at_eq _ _ _ Hl). cbn [slot_contents]. setoid_rewrite list_elem_of_singleton. split.
    + intros [H|(k' & -> & E)]; [right|left; simplify_eq; by rewrite app_nil_r]. split.
      * intros ->. destruct H as [[-> _]|(i & l' & s & k' & Hij & Hl' & _ & E & _)]; [by apply (label_step _ _ _ _ _ Hw) in Hl as [_ Hl]|]. apply Hij. symmetry. apply (labels_apart _ _ _ _ _ _ _ [] k' Hw Hl Hl'). by rewrite app_nil_r.
      * apply elem_of_contents. destruct H as [H|(i & l' & s & k' & Hij & H)]; [by left|right; by exists i, l', s, k'].
    + intros [[-> ->]|[Hne H]]; [right; exists []; by rewrite app_nil_r|left]. apply elem_of_contents in H as [H|(i & l' & s & k' & Hl' & Hs' & -> & H)]; [by left|right]. exists i, l', s, k'. split_and!; try done. intros ->. simplify_eq. cbn in H. apply list_elem_of_singleton in H. simplify_eq. by rewrite app_nil_r in Hne.
  - unfold elements, h'. rewrite (total_set_child _ _ _ _ (Val v)) by done. cbn. lia.
  - unfold nodes, h'. rewrite (total_set_child _ _ _ _ (Val v)) by done. cbn. lia.
Qed.

Lemma wf_slot_depth fl d s : wf_slot fl d s -> fl <> 0%nat -> (d <= fl)%nat.
Proof. intros H Hf. destruct s as [n|v]; [destruct H as (H & _); specialize (H Hf)|destruct H as [_ H]]; lia. Qed.

Definition postfix_slot (post : list Z) (next : raxSlot) : raxSlot := if (length post =? 0)%nat then next else Sub (chain_node None post next).

Lemma postfix_spec fl d post next : Forall is_byte post -> zlen post <= RAX_NODE_MAX_SIZE -> wf_slot fl (d + length post) next ->
  wf_slot fl d (postfix_slot post next) /\ slot_contents (postfix_slot post next) = under post (slot_contents next) /\
  forall a b, slot_total a b (postfix_slot post next) = slot_total a b next + Z.b2z (negb (length post =? 0)%nat) * a None.
Proof.
  intros Hb Hm Hn. unfold postfix_slot. destruct (Nat.eqb_spec (length post) 0) as [E|E].
  - apply length_zero_iff_nil in E as ->. rewrite Nat.add_0_r in Hn. rewrite under_nil. split_and!; try done. intros. cbn. lia.
  - assert (post <> []) by (by intros ->). pose proof (wf_slot_depth _ _ _ Hn) as Hd. split_and!.
    + split_and!; [intros Hf; specialize (Hd Hf); lia|by right|]. apply chain_wf; try done. intros Hf. specialize (Hd Hf). split; [done|lia].
    + cbn [slot_contents]. by rewrite chain_contents.
    + intros. cbn [slot_total]. rewrite chain_total. cbn. lia.
Qed.

Lemma bytes_split data j (c : Z) : data !! j = Some c -> data = take j data ++ c :: drop (S j) data.
Proof. intros H. by rewrite (take_drop_middle _ _ _ H). Qed.

(** A compressed node is split where the key differs. *)
Lemma split_insert fl d h rest data fuel : wf fl d h -> Z.of_nat fl <= RAX_NODE_MAX_SIZE -> iscompr h = true -> Forall is_byte rest -> (fl <> 0%nat -> (d + length rest)%nat = fl) -> (length rest < fuel)%nat ->
  let j := common (n_data h) rest in (j < n_size h)%nat -> (j < length rest)%nat -> exists next c h1 created,
    n_children h !! 0%nat = Some next /\ n_data h !! j = Some c /\
    insert_rest fuel fl (RN (if (j =? 0)%nat then n_key h else None) false [c] [postfix_slot (drop (S j) (n_data h)) next]) (d + j) (drop j rest) data = Some (h1, created) /\
    let h' := if (j =? 0)%nat then h1 else chain_node (n_key h) (take j (n_data h)) (Sub h1) in
    wf fl d h' /\ used h' /\ updated h h' rest data /\ elements h' = elements h + 1 /\
    nodes h' = nodes h + (created + Z.b2z (negb (j =? 0)%nat) + Z.b2z (negb (length (drop (S j) (n_data h)) =? 0)%nat)).
Proof.
  intros Hw Hmax Hc Hb Hfl Hfuel j Hj Hjr. destruct (compr_is_chain _ _ _ Hw Hc) as (next & Heq & Hne & Hzl & Hbd & Hnext & Hch). destruct (lookup_lt_is_Some_2 _ _ Hj) as [c Hcj]. destruct (lookup_lt_is_Some_2 _ _ Hjr) as [c' Hcr]. pose proof (common_differ _ _ _ _ Hcj Hcr) as Hdiff. pose proof (common_take (n_data h) rest) as Htk. fold j in Hcj, Hcr, Htk.
  set (post := drop (S j) (n_data h)). set (pre := take j (n_data h)). pose proof (bytes_split _ _ _ Hcj) as Ed. pose proof (bytes_split _ _ _ Hcr) as Er. fold post pre in Ed. rewrite <- Htk in Er. fold pre in Er. set (r' := drop (S j) rest) in *.
  assert (Lpre : length pre = j) by (unfold pre; rewrite length_take; unfold n_size in Hj; lia). assert (Ld : (length (n_data h) = j + S (length post))%nat) by (rewrite Ed at 1; rewrite length_app, Lpre; done).
  destruct (postfix_spec fl (d + j + 1) post next) as (Ws & Cs & Ts); [by apply Forall_drop|unfold zlen, post in *; rewrite length_drop; lia|by replace (d + j + 1 + length post)%nat with (d + length (n_data h))%nat by lia|].
  assert (Hdj : fl <> 0%nat -> (d + j < fl)%nat) by (intros Hf; pose proof (wf_slot_depth _ _ _ Ws Hf); lia). assert (Hkey : fl <> 0%nat -> n_key h = None) by (intros Hf; apply wf_eq in Hw as (_ & H2 & _); by destruct (H2 Hf)).
  set (key := if (j =? 0)%nat then n_key h else None). assert (Wsplit : wf fl (d + j) (chain_node key [c] (postfix_slot post next))).
  { apply chain_wf; [done|done|constructor; [by eapply Forall_lookup_1 in Hbd|constructor]| |done]. intros Hf. split; [unfold key; destruct (j =? 0)%nat; [by apply Hkey|done]|by apply Hdj]. }
  assert (Edrop : drop j rest = c' :: r') by (rewrite Er at 1; rewrite drop_app_length'; done).
  destruct (insert_rest_spec fl Hmax fuel (chain_node key [c] (postfix_slot post next)) (d + j)%nat (drop j rest) data) as (h1 & created & Hins & W1 & U1 & C1 & E1 & N1); [done|done|rewrite length_drop; lia|intros Hf; specialize (Hfl Hf); rewrite length_drop; lia|by apply Forall_drop|rewrite Edrop; cbn; rewrite list_elem_of_singleton; congruence|].
  exists next, c, h1, created. split_and!; [by rewrite Hch|done|exact Hins|]. intros h'.
  assert (Hno : forall v, (rest, v) ∉ contents h) by (intros v; apply compr_mismatch; [done|done|by intros ->]).
  assert (Hh : contents h = key_part (n_key h) ++ under (n_data h) (slot_contents next)) by (rewrite Heq at 1; by apply chain_contents). assert (Hsp : contents (chain_node key [c] (postfix_slot post next)) = key_part key ++ under (c :: post) (slot_contents next)) by (rewrite chain_contents by done; by rewrite Cs, <- under_app).
  assert (Tn : forall a b, total a b h = a (n_key h) + slot_total a b next) by (intros; rewrite Heq at 1; apply chain_total). unfold elements, nodes in *. rewrite !Tn. rewrite chain_total, Ts in E1, N1. unfold h', key in *. destruct (j =? 0)%nat eqn:Hj0; cbn [negb Z.b2z].
  - apply Nat.eqb_eq in Hj0. assert (Hpre : pre = []) by (apply length_zero_iff_nil; lia). rewrite Hpre in Ed, Er. cbn [app] in Ed, Er. rewrite Hj0, Nat.add_0_r in W1. split_and!; [done|done| |rewrite E1; cbn; lia|rewrite N1; cbn; lia].
    intros k v. rewrite C1, Hsp, Edrop, <- Ed, <- Hh, <- Er. split; [intros [H|H]; [right|by left]; split; [|done]; intros ->; by eapply Hno|tauto].
  - apply Nat.eqb_neq in Hj0. assert (Hpne : pre <> []) by (intros E; rewrite E in Lpre; cbn in Lpre; lia). split_and!; [|by right| |rewrite chain_total; cbn [slot_total]; rewrite E1; cbn; lia|rewrite chain_total; cbn [slot_total]; rewrite N1; cbn; lia].
    + apply chain_wf; [done|unfold zlen in *; lia|by apply Forall_take| |rewrite Lpre; by split_and!]. intros Hf. split; [by apply Hkey|]. specialize (Hdj Hf). lia.
    + intros k v. rewrite chain_contents, Hh, !elem_of_app by done. cbn [slot_contents]. rewrite !elem_of_under. setoid_rewrite C1. rewrite Hsp. cbn [key_part app]. setoid_rewrite elem_of_under. rewrite Edrop. split.
      * intros [H|(k1 & -> & [(k2 & -> & H)|[-> ->]])]; [right| |by left; rewrite Er at 1].
        -- split; [|by left]. intros ->. apply (Hno v). rewrite Hh, elem_of_app. by left.
        -- right. split; [|right; exists k2; split; [|done]; rewrite Ed at 1; by rewrite <- (assoc_L (++))]. intros E. rewrite Er in E. apply app_inv_head in E. cbn in E. congruence.
      * intros [[-> ->]|[Hne' [H|(k' & -> & H)]]]; [right; exists (c' :: r'); split; [done|by right]|by left|]. right. exists ((c :: post) ++ k'). split; [rewrite Ed at 1; by rewrite <- (assoc_L (++))|]. left. eauto.
Qed.

(** A compressed node is cut where the key ends. *)
Lemma cut_insert fl d h rest data : wf fl d h -> iscompr h = true -> rest <> [] -> (fl <> 0%nat -> (d + length rest)%nat = fl) ->
  let j := common (n_data h) rest in (j < n_size h)%nat -> j = length rest -> exists next, n_children h !! 0%nat = Some next /\
    let h' := chain_node (n_key h) (take j (n_data h)) (Sub (chain_node (Some data) (drop j (n_data h)) next)) in
    wf fl d h' /\ used h' /\ updated h h' rest data /\ elements h' = elements h + 1 /\ nodes h' = nodes h + 1.
Proof.
  intros Hw Hc Hr Hfl j Hj Hjr. destruct (compr_is_chain _ _ _ Hw Hc) as (next & Heq & Hne & Hzl & Hbd & Hnext & Hch). exists next. split; [by rewrite Hch|]. intros h'. pose proof (common_take (n_data h) rest) as Htk. fold j in Htk. rewrite (take_ge rest) in Htk by lia.
  assert (fl = 0%nat) as ->. { destruct fl; [done|]. specialize (Hfl ltac:(done)). pose proof (wf_slot_depth _ _ _ Hnext ltac:(done)). unfold n_size in Hj. lia. }
  assert (Hpost : drop j (n_data h) <> []) by (intros E; apply (f_equal length) in E; rewrite length_drop in E; unfold n_size in Hj; cbn in E; lia). pose proof (take_drop j (n_data h)) as Ed. rewrite Htk in Ed. unfold h'. rewrite Htk.
  assert (Hno : forall v, (rest, v) ∉ contents h) by (intros v; by apply compr_mismatch).
  assert (Hh : contents h = key_part (n_key h) ++ under (n_data h) (slot_contents next)) by (rewrite Heq at 1; by apply chain_contents). assert (Tn : forall a b, total a b h = a (n_key h) + slot_total a b next) by (intros; rewrite Heq at 1; apply chain_total).
  split_and!; [|by right| |unfold elements; rewrite Tn, !chain_total; cbn [slot_total]; rewrite chain_total; lia|unfold nodes; rewrite Tn, !chain_total; cbn [slot_total]; rewrite chain_total; lia].
  - apply chain_wf; [done|unfold zlen, n_size in *; lia|rewrite <- Htk; by apply Forall_take|done|]. split_and!; [done|by left|]. apply chain_wf; [done|unfold zlen in *; rewrite length_drop; lia|by apply Forall_drop|done|]. rewrite length_drop. unfold n_size in Hj. by replace (d + length rest + (length (n_data h) - j))%nat with (d + length (n_data h))%nat by lia.
  - intros k v. rewrite chain_contents, Hh, !elem_of_app by done. cbn [slot_contents]. rewrite chain_contents by done. rewrite !elem_of_under. cbn [key_part]. setoid_rewrite elem_of_app. setoid_rewrite elem_of_under. setoid_rewrite list_elem_of_singleton. split.
    + intros [H|(k1 & -> & [E|(k2 & -> & H)])]; [right|left; simplify_eq; by rewrite app_nil_r|right].
      * split; [|by left]. intros ->. apply (Hno v). rewrite Hh, elem_of_app. by left.
      * split; [|right; exists k2; split; [|done]; by rewrite (assoc_L (++)), Ed]. intros E. rewrite <- (app_nil_r rest) in E at 2. apply app_inv_head in E. by apply app_eq_nil in E as [E _].
    + intros [[-> ->]|[Hne' [H|(k' & -> & H)]]]; [right; exists []; rewrite app_nil_r; split; [done|by left]|by left|]. right. exists (drop j (n_data h) ++ k'). rewrite (assoc_L (++)), Ed. split; [done|right]. eauto.
Qed.

Lemma trimmed_chain j h key s : (j < n_size h)%nat -> chain_node key (take j (n_data h)) s = RN key (1 <? j)%nat (take j (n_data h)) [s].
Proof. intros Hj. unfold chain_node, n_size in *. by rewrite length_take_le by lia. Qed.

Lemma postfix_chain j h key s : (j < n_size h)%nat -> chain_node key (drop j (n_data h)) s = RN key (1 <? n_size h - j)%nat (drop j (n_data h)) [s].
Proof. intros Hj. unfold chain_node, n_size in *. by rewrite length_drop. Qed.

Lemma split_postfix j h next : (j < n_size h)%nat -> postfix_slot (drop (S j) (n_data h)) next = if (n_size h - j - 1 =? 0)%nat then next else Sub (RN None (1 <? n_size h - j - 1)%nat (drop (S j) (n_data h)) [next]).
Proof. intros Hj. unfold postfix_slot, chain_node, n_size in *. rewrite length_drop. by replace (length (n_data h) - S j)%nat with (length (n_data h) - j - 1)%nat by lia. Qed.

(** What every insertion does to a tree. *)
Definition inserted (r r' : rax) (s : list Z) (data : Z) (new : bool) (old : option Z) : Prop :=
  rax_ok r' /\ r_keyFixedLen r' = r_keyFixedLen r /\ old = rax_map r !! s /\ new = bool_decide (old = None) /\ rax_map r' = <[s := data]> (rax_map r).

Lemma insertAt_spec r s data link : rax_ok r -> Forall is_byte s -> (r_keyFixedLen r = 0%nat \/ length s = r_keyFixedLen r) -> link_ok (r_keyFixedLen r) (r_head r) s link ->
  exists new old r', raxInsertAt r s data link = Some (new, old, r') /\ inserted r r' s data new old.
Proof.
  intros Hok Hb Hlen (Hp & Hwp & Hw & Hu & rest & Hs & Hstop). set (fl := r_keyFixedLen r) in *. set (p := l_path link) in *. set (h := l_stopnode link) in *. pose proof (ok_fixed _ Hok) as Hmax. pose proof (ok_wf _ Hok) as Hw0.
  assert (Hbr : Forall is_byte rest) by (rewrite Hs in Hb; by apply list.Forall_app in Hb as [_ Hb]). assert (Hflr : fl <> 0%nat -> (length (path_key p) + length rest)%nat = fl) by (intros Hf; destruct Hlen as [|Hlen]; [done|]; rewrite <- Hlen, Hs, length_app; done).
  assert (Hmap : forall v, rax_map r !! s = Some v <-> (rest, v) ∈ contents h) by (intros v; rewrite (rax_map_lookup _ _ _ _ _ Hw0), <- Hp, Hs; by eapply elem_of_plug_here). assert (Hnone : (forall v, (rest, v) ∉ contents h) -> rax_map r !! s = None) by (intros H; apply eq_None_not_Some; intros [v Hv]; by apply Hmap, H in Hv).
  assert (Hdone : forall h' new old created, old = rax_map r !! s -> new = bool_decide (old = None) -> wf fl (length (path_key p)) h' -> used h' -> updated h h' rest data -> elements h' = elements h + Z.b2z new -> nodes h' = nodes h + created -> inserted r (rebuilt r p h' new created) s data new old).
  { intros h' new old created Eo En W U C E N. destruct (insert_plug r p h h' rest data new created Hok Hp Hwp W) as [O Mp]; try done. rewrite <- Hs in Mp. by split_and!. }
  unfold raxInsertAt. fold fl p h. assert (((fl =? 0)%nat || (length s =? fl)%nat) = true) as -> by (destruct Hlen as [->| ->]; [done|rewrite Nat.eqb_refl; apply orb_true_r]). cbn [cassert mbind option_bind]. cbv zeta.
  destruct (l_stop link) as [j|j].
  2:{ destruct Hstop as (v & l & r0 & Hl & Hv & -> & Hf & Hcs). unfold raxLeafParentReadSlot. rewrite Hv. cbn [mbind option_bind]. destruct (set_slot_spec _ _ _ _ _ _ data Hw Hl Hv) as (W & U & C & E & N). assert (r0 = []) as ->. { destruct r0; [done|]. rewrite !length_app in *. destruct (decide (fl = 0%nat)) as [Hz|Hz]; [|specialize (Hflr Hz); cbn in Hflr; lia]. apply (label_step _ _ _ _ _ Hw) in Hl as [_ Hne]. destruct l; [done|cbn in Hf; lia]. }
    rewrite app_nil_r in *. eexists _, _, (rebuilt r p _ false 0). split; [done|]. apply Hdone; try done. symmetry. apply Hmap. rewrite <- (app_nil_r l). rewrite (elem_of_contents_edge _ _ _ _ _ _ _ _ Hw Hl Hv). by apply list_elem_of_singleton. }
  destruct Hstop as [Hcs [(-> & ->)|[(Hr & Hcm & -> & Hj)|(c & r0 & -> & Hcm & Hn & ->)]]].
  - rewrite app_nil_r in Hs. rewrite Hcs, Hs, Nat.add_0_r, Nat.eqb_refl. cbn [Nat.eqb]. rewrite orb_true_r. cbn [andb]. assert (Hf0 : fl = 0%nat). { destruct (decide (fl = 0%nat)) as [|Hz]; [done|]. specialize (Hflr Hz). apply wf_eq in Hw as (_ & H2 & _). destruct (H2 Hz). cbn in Hflr. lia. }
    destruct (set_data_spec _ _ _ data Hw Hf0) as (W & U & C & E & N). eexists _, _, (rebuilt r p _ _ 0). split; [done|]. rewrite <- Hs. assert (Hk : n_key h = rax_map r !! s) by (apply option_eq; intros v; rewrite Hmap; symmetry; by eapply elem_of_contents_nil).
    apply Hdone; try done. unfold iskey. rewrite <- bool_decide_not. apply bool_decide_ext. symmetry. apply eq_None_not_Some.
  - rewrite Hnone in Hdone by (intros v; by apply compr_mismatch). pose proof (common_le (n_data h) rest) as [_ Hle]. rewrite Hcm. cbn [negb orb]. destruct (Nat.eqb_spec (l_consumed link) (length s)) as [He|He]; cbn [andb negb].
    + rewrite Hcs, Hs, length_app in He. assert (Hj0 : (common (n_data h) rest =? 0)%nat = false) by (apply Nat.eqb_neq; destruct rest; [done|cbn [length] in He; lia]). rewrite Hj0. destruct (cut_insert _ _ _ _ data Hw Hcm Hr Hflr Hj ltac:(lia)) as (next & Hnx & W & U & C & E & N). rewrite Hnx. cbn [mbind option_bind].
      rewrite <- (trimmed_chain _ _ _ _ Hj), <- (postfix_chain _ _ _ _ Hj). eexists _, _, (rebuilt r p _ true 1). split; [done|]. by apply Hdone.
    + assert (Hjr : (common (n_data h) rest < length rest)%nat) by (rewrite Hcs, Hs, length_app in He; lia). destruct (split_insert _ _ _ rest data (S (length s)) Hw Hmax Hcm Hbr Hflr) as (next & c & h1 & created & Hnx & Hc & Hins & W & U & C & E & N); [rewrite Hs, length_app; lia|done|done|].
      rewrite Hnx. cbn [mbind option_bind]. rewrite Hc. cbn [mbind option_bind]. rewrite <- (split_postfix _ _ _ Hj). rewrite Hs in Hins. rewrite Hcs, Hs, drop_app_add, Hins. cbn [mbind option_bind]. rewrite <- (trimmed_chain _ _ _ _ Hj).
      replace (n_size h - common (n_data h) rest - 1)%nat with (length (drop (S (common (n_data h) rest)) (n_data h))) by (rewrite length_drop; unfold n_size; lia). rewrite <- Hs. eexists _, _, (rebuilt r p _ true _). split; [done|]. by apply Hdone.
  - rewrite Hnone in Hdone by (intros v; by apply edge_missing). rewrite Hcm. assert ((l_consumed link =? length s)%nat = false) as -> by (apply Nat.eqb_neq; rewrite Hcs, Hs, length_app; cbn; lia). cbn [andb].
    destruct (insert_rest_spec fl Hmax (S (length s)) h (length (path_key p)) (c :: r0) data Hw Hcm) as (h' & created & Hins & Hwk); [rewrite Hs, length_app; lia|done|done|done|]. rewrite Nat.add_0_r in Hcs. rewrite Hcs, Hs, drop_app_length, <- Hs, Hins. cbn [mbind option_bind].
    pose proof (with_key_updated _ _ _ _ _ _ _ Hwk ltac:(intros v; by apply edge_missing)) as C. destruct Hwk as (W & U & _ & E & N). eexists _, _, (rebuilt r p _ true _). split; [done|]. by apply Hdone.
Qed.

Lemma rax_find_spec r s : rax_ok r -> (r_keyFixedLen r = 0%nat \/ length s = r_keyFixedLen r) -> raxFind r s = Some (rax_map r !! s).
Proof. intros Hok Hl. destruct (raxLowWalk_spec r s Hok Hl) as (link & E & _). unfold raxFind. by rewrite E. Qed.
