(* ===== verification/RaxRemove.v ===== *)
(** * Removal from radix trees *)

From stdpp Require Import base list gmap numbers option tactics sorting.
From S2P Require Import Prelude Order Rax RaxSpec RaxInsert.

(** ** Chains of nodes *)

(** A node below the root holds keys. *)
Lemma used_contents fl d n : wf fl d n -> used n -> exists k v, (k, v) ∈ contents n.
Proof.
  revert d. induction n as [key compr data slots IH] using raxNode_rect'. intros d Hw Hu. destruct key as [v|]; [exists [], v; rewrite contents_eq; by left|]. destruct Hu as [Hu|Hu]; [done|]. pose proof Hw as Hw'. apply wf_eq in Hw' as (_ & _ & H3 & H4). unfold shape in H3. cbn [iscompr n_data n_children] in *.
  assert (Hsl : exists s slots', slots = s :: slots') by (destruct slots as [|s slots']; [|by eauto]; destruct compr; [by destruct H3 as (_ & _ & H3)|destruct H3 as [H3 _]; destruct data; [done|cbn in H3; lia]]). destruct Hsl as (s & slots' & ->). assert (Hs0 : n_children (RN None compr data (s :: slots')) !! 0%nat = Some s) by done.
  pose proof (child_label _ _ _ _ _ Hw Hs0) as Hl. apply list.Forall_cons in IH as [IH _]. apply list.Forall_cons in H4 as [H4 _]. assert (Hc : exists k v, (k, v) ∈ slot_contents s).
  { destruct s as [c|v]; [destruct H4 as (_ & Hu' & Hw'); by eapply IH|exists [], v; by left]. }
  destruct Hc as (k & v & Hk). eexists _, v. eapply elem_of_contents_edge; [exact Hw|exact Hl|exact Hs0|exact Hk].
Qed.

(** A node with one child, which is no key, is its edge and the child. *)
Lemma single_spec fl d n : wf fl d n -> single n = true -> n_key n = None /\ n_data n <> [] /\ exists s, n = chain_node None (n_data n) s /\ n_children n = [s] /\ wf_slot fl (d + length (n_data n)) s /\ raxStepLenNode n = length (n_data n).
Proof.
  intros Hw Hs. unfold single in Hs. apply andb_true_iff in Hs as [Hk Hc]. unfold iskey in Hk. rewrite negb_true_iff in Hk. apply bool_decide_eq_false in Hk. apply eq_None_not_Some in Hk. destruct (iscompr n) eqn:Ec.
  - destruct (compr_is_chain _ _ _ Hw Ec) as (s & E & Hne & _ & _ & Hsl & Hch). rewrite Hk in E. split_and!; [done|done|]. exists s. split_and!; try done. unfold raxStepLenNode. by rewrite Ec.
  - cbn in Hc. apply Nat.eqb_eq in Hc. pose proof Hw as Hw'. apply wf_eq in Hw' as (_ & _ & H3 & H4). unfold shape in H3. rewrite Ec in H3. destruct H3 as [H3 _]. unfold n_size in Hc. assert (Hstep : raxStepLenNode n = 1%nat) by (unfold raxStepLenNode; by rewrite Ec). rewrite Hstep in H4.
    destruct n as [key compr data slots]. cbn [n_key n_data n_children iscompr] in *. subst key compr. destruct data as [|c [|]]; [done| |done]. destruct slots as [|s [|]]; [done| |done]. split_and!; [done|done|]. exists s. split_and!; [done|done| |done]. by apply list.Forall_cons in H4 as [H4 _].
Qed.

Lemma height_child n c : Sub c ∈ n_children n -> (height c < height n)%nat.
Proof.
  destruct n as [key compr data slots]. cbn [n_children height]. intros H. apply Nat.lt_succ_r. induction slots as [|s slots IH]; [by apply not_elem_of_nil in H|]. apply elem_of_cons in H as [<-|H]; [lia|]. specialize (IH H). destruct s; lia.
Qed.

Lemma chain_ends_false fl h dh : chain_ends fl h dh = false <-> single h = true /\ raxSlotsAreValues fl (dh + raxStepLenNode h) = false.
Proof. unfold chain_ends. rewrite orb_false_iff, negb_false_iff. done. Qed.

(** The chain from [h] on, to which both scans agree. *)
Record chain (fl d : nat) (h : raxNode) (data : list Z) (n : Z) (below : raxNode) : Prop := {
  ch_len : n <= zlen data;
  ch_first : Z.of_nat (n_size h) <= zlen data;
  ch_bytes : Forall is_byte data;
  ch_contents : contents h = under data (contents below);
  ch_wf : wf fl (d + length data) below;
  ch_used : used below;
  ch_depth : fl <> 0%nat -> (d + length data < fl)%nat;
  ch_nodes : nodes h = n + nodes below;
  ch_elements : elements h = elements below }.

Lemma scan_chain fl : forall fuel h d, wf fl d h -> single h = true -> (fl <> 0%nat -> (d + raxStepLenNode h < fl)%nat) -> (height h < fuel)%nat ->
  exists data n below, chain fl d h data n below /\ 1 <= n /\
    (forall room copied freed, zlen copied + zlen data <= room -> copy_chain fuel fl h room copied freed d = Some (copied ++ data, freed + n, below)) /\
    (forall before m, before + zlen data <= RAX_NODE_MAX_SIZE -> measure_chain fuel fl h (before + Z.of_nat (n_size h)) m d = Some (before + zlen data, m + n - 1)).
Proof.
  induction fuel as [|fuel IH]; intros h d Hw Hs Hd Hh; [lia|]. destruct (single_spec _ _ _ Hw Hs) as (Hk & Hne & s & Heq & Hch & Hsl & Hst). assert (Hsz : (n_size h =? 0)%nat = false) by (apply Nat.eqb_neq; unfold n_size; by destruct (n_data h)).
  assert (Hc : exists c, s = Sub c) by (destruct s as [c|v]; [by exists c|]; destruct Hsl as [Hf He]; specialize (Hd Hf); lia). destruct Hc as [c ->]. destruct Hsl as (Hdc & Huc & Hwc). assert (Hlast : last_child h = Some c) by (unfold last_child; by rewrite Hch).
  assert (Hhc : (height c < height h)%nat) by (apply height_child; rewrite Hch; by left). assert (Hcont : contents h = under (n_data h) (contents c)) by (rewrite Heq at 1; rewrite chain_contents by done; done). assert (Htot : forall a b, total a b h = a None + total a b c) by (intros; rewrite Heq at 1; apply chain_total).
  assert (Hbytes : Forall is_byte (n_data h)) by (by apply wf_eq in Hw as (? & _)). pose proof (zlen_nonneg (n_data h)).
  destruct (chain_ends fl c (d + raxStepLenNode h)) eqn:Hend.
  - exists (n_data h), 1, c. split_and!; [|lia| |].
    + constructor; try done; [destruct (n_data h); [done|unfold zlen; cbn; lia]|unfold nodes; rewrite Htot; lia|unfold elements; rewrite Htot; lia].
    + intros room copied freed Hroom. cbn [copy_chain]. rewrite Hsz. assert ((zlen copied + Z.of_nat (n_size h) <=? room) = true) as -> by (apply Z.leb_le; exact Hroom). cbn [cassert mbind option_bind]. rewrite Hlast. cbn [mbind option_bind]. by rewrite Hend.
    + intros before m Hm. cbn [measure_chain]. rewrite Hsz, Hlast. cbn [mbind option_bind]. rewrite Hend. unfold n_size, zlen. do 2 f_equal. lia.
  - pose proof Hend as Hend'. apply chain_ends_false in Hend' as [Hsc Hv]. rewrite Hst in Hv. destruct (IH c (d + length (n_data h))%nat Hwc Hsc) as (data & n & below & C & Hn & Hcopy & Hmeasure); [|lia|].
    { intros Hf. specialize (Hdc Hf). destruct (single_spec _ _ _ Hwc Hsc) as (_ & _ & s' & _ & _ & Hs' & Hst'). pose proof (wf_slot_depth _ _ _ Hs' Hf). destruct (decide (d + length (n_data h) + raxStepLenNode c = fl)%nat) as [He|]; [|lia]. by rewrite (proj2 (values_at _ _) (conj Hf He)) in Hv. }
    pose proof (zlen_nonneg data). exists (n_data h ++ data), (n + 1), below. destruct C. split_and!; [constructor|lia| |].
    + rewrite zlen_app. destruct (n_data h); [done|rewrite zlen_cons; pose proof (zlen_nonneg l); lia].
    + rewrite zlen_app. unfold n_size, zlen in *. lia.
    + by apply list.Forall_app.
    + by rewrite Hcont, ch_contents0, under_app.
    + rewrite length_app. by rewrite Nat.add_assoc.
    + done.
    + rewrite length_app. intros Hf. specialize (ch_depth0 Hf). lia.
    + unfold nodes in *. rewrite Htot. lia.
    + unfold elements in *. rewrite Htot. lia.
    + intros room copied freed Hroom. rewrite zlen_app in Hroom. cbn [copy_chain]. rewrite Hsz. assert ((zlen copied + Z.of_nat (n_size h) <=? room) = true) as -> by (apply Z.leb_le; unfold n_size, zlen in *; lia). cbn [cassert mbind option_bind]. rewrite Hlast. cbn [mbind option_bind]. rewrite Hend, Hst, Hcopy by (rewrite zlen_app; lia). rewrite <- (assoc_L (++)). do 3 f_equal. lia.
    + intros before m Hm. rewrite zlen_app in Hm. cbn [measure_chain]. rewrite Hsz, Hlast. cbn [mbind option_bind]. rewrite Hend, Hst. assert ((before + Z.of_nat (n_size h) + Z.of_nat (n_size c) >? RAX_NODE_MAX_SIZE) = false) as -> by (unfold n_size, zlen in *; lia).
      rewrite Hmeasure by (unfold n_size, zlen in *; lia). rewrite zlen_app. unfold n_size, zlen. do 2 f_equal; lia.
Qed.

Lemma chain_start_spec fl : forall p h p' start, chain_start p h = (p', start) -> wf_path fl p -> wf fl (length (path_key p)) h -> single h = true -> (fl <> 0%nat -> (length (path_key p) + raxStepLenNode h < fl)%nat) ->
  plug p' start = plug p h /\ wf_path fl p' /\ wf fl (length (path_key p')) start /\ single start = true /\ (fl <> 0%nat -> (length (path_key p') + raxStepLenNode start < fl)%nat).
Proof.
  induction p as [|[parent j] p IH]; intros h p' start E Hp Hw Hs Hd; cbn [chain_start] in E; [by simplify_eq|]. destruct (single parent) eqn:Hsp; cbn [negb] in E; [|by simplify_eq]. pose proof (path_key_step _ _ _ _ Hp) as Hk. pose proof Hp as (Hwp & Hj & Hdp & Hp').
  destruct (single_spec _ _ _ Hw Hs) as (_ & Hne & _). apply IH in E as (E1 & E2); [|done| |done|]; [done| |].
  - apply wf_set_child; [done|done|]. rewrite Hk in *. split_and!; [done|by right|done].
  - rewrite step_set_child. rewrite Hk in Hdp. done.
Qed.

Lemma path_depth_eq fl p : wf_path fl p -> path_depth p = length (path_key p).
Proof. induction p as [|[parent j] p IH]; intros Hp; [done|]. rewrite (path_key_step _ _ _ _ Hp). destruct Hp as (_ & _ & _ & Hp). cbn [path_depth foldr]. unfold path_depth in IH. rewrite IH by done. cbn. lia. Qed.

(** The same keys, in another form. *)
Definition same_keys (n n' : raxNode) : Prop := forall x, x ∈ contents n' <-> x ∈ contents n.

Definition short_keys (n : raxNode) : Prop := forall k v, (k, v) ∈ contents n -> zlen k <= RAX_NODE_MAX_SIZE.

Lemma recompress_spec fl p h : wf_path fl p -> wf fl (length (path_key p)) h -> single h = true -> (fl <> 0%nat -> (length (path_key p) + raxStepLenNode h < fl)%nat) -> short_keys (plug p h) ->
  exists head created, recompress fl p h = Some (head, created) /\ wf fl 0 head /\ same_keys (plug p h) head /\ elements head = elements (plug p h) /\ nodes head = nodes (plug p h) + created.
Proof.
  intros Hp Hw Hs Hd Hshort. unfold recompress. destruct (chain_start p h) as [p' start] eqn:E. destruct (chain_start_spec _ _ _ _ _ E Hp Hw Hs Hd) as (Epl & Hp' & Hw' & Hs' & Hd'). rewrite <- Epl in *. rewrite (path_depth_eq _ _ Hp').
  destruct (scan_chain fl (S (height start)) start (length (path_key p')) Hw' Hs' Hd' ltac:(lia)) as (data & n & below & C & Hn & Hcopy & Hmeasure). destruct C. assert (Hlen : zlen data <= RAX_NODE_MAX_SIZE).
  { destruct (used_contents _ _ _ ch_wf0 ch_used0) as (k & v & Hk). specialize (Hshort (path_key p' ++ data ++ k) v). rewrite !zlen_app in Hshort. pose proof (zlen_nonneg (path_key p')). pose proof (zlen_nonneg k). enough (zlen (path_key p') + (zlen data + zlen k) <= RAX_NODE_MAX_SIZE) by lia. apply Hshort. apply (elem_of_plug_here fl); [done|]. rewrite ch_contents0. apply elem_of_under. eauto. }
  specialize (Hmeasure 0 1 ltac:(lia)). rewrite !Z.add_0_l in Hmeasure. rewrite Hmeasure. cbn [mbind option_bind]. destruct (Z.gtb_spec (1 + n - 1) 1) as [Hn1|Hn1].
  - rewrite (Hcopy (zlen data) [] 0) by (rewrite zlen_nil; lia). cbn [mbind option_bind app]. rewrite Z.add_0_l. eexists _, _. split; [done|]. assert (Hdata : data <> []) by (intros ->; rewrite zlen_nil in ch_len0; lia).
    assert (Hcn : RN None true data [Sub below] = chain_node None data (Sub below)) by (unfold chain_node; by assert ((1 <? length data)%nat = true) as -> by (apply Nat.ltb_lt; unfold zlen in ch_len0; lia)). rewrite Hcn. assert (Hwn : wf fl (length (path_key p')) (chain_node None data (Sub below))) by (apply chain_wf; try done; intros Hf; specialize (ch_depth0 Hf); split; [done|lia]).
    split_and!.
    + apply wf_plug; [done|done|]. intros _. by right.
    + intros [k v]. rewrite !(elem_of_plug fl) by done. rewrite chain_contents by done. cbn [key_part app slot_contents]. by rewrite <- ch_contents0.
    + unfold elements in *. rewrite (total_plug _ _ fl p' _ start Hp'), chain_total. cbn [slot_total]. lia.
    + unfold nodes in *. rewrite (total_plug _ _ fl p' _ start Hp'), chain_total. cbn [slot_total]. lia.
  - eexists _, _. split; [done|]. split_and!; [|done|done|lia]. apply wf_plug; [done|done|]. intros _. destruct (single_spec _ _ _ Hw' Hs') as (_ & Hne & _). by right.
Qed.

(** ** Unlinking a child *)

Lemma lookup_remove_at {A} j (l : list A) i : (j < length l)%nat -> remove_at j l !! i = if decide (i < j)%nat then l !! i else l !! S i.
Proof.
  intros Hj. unfold remove_at. destruct (decide (i < j)%nat) as [Hi|Hi].
  - rewrite lookup_app_l by (rewrite length_take; lia). by apply lookup_take_lt.
  - rewrite lookup_app_r by (rewrite length_take; lia). rewrite lookup_drop, length_take. f_equal. lia.
Qed.

Lemma length_remove_at {A} j (l : list A) : (j < length l)%nat -> length (remove_at j l) = pred (length l).
Proof. intros Hj. unfold remove_at. rewrite length_app, length_take, length_drop. lia. Qed.

Lemma fmap_remove_at {A B} (f : A -> B) j l : f <$> remove_at j l = remove_at j (f <$> l).
Proof. unfold remove_at. by rewrite fmap_app, fmap_take, fmap_drop. Qed.

Lemma sorted_remove_at j (l : list Z) : StronglySorted Z.lt l -> StronglySorted Z.lt (remove_at j l).
Proof. unfold remove_at. revert j. induction l as [|x l IH]; intros [|j] H; try done; [by apply StronglySorted_cons in H as [_ H]|]. apply StronglySorted_cons in H as [Hx H]. cbn. constructor; [by apply IH|]. apply list.Forall_app. split; [by apply Forall_take|by apply Forall_drop]. Qed.

(** A node without the child [j]. *)
Lemma drop_edge fl d n j : wf fl d n -> iscompr n = false -> (j < length (n_children n))%nat -> let n' := RN (n_key n) false (remove_at j (n_data n)) (remove_at j (n_children n)) in
  wf fl d n' /\ forall k v, (k, v) ∈ contents n' <-> beside n j k v.
Proof.
  intros Hw Hc Hj n'. pose proof (labels_length _ _ _ Hw) as Hll. pose proof Hw as Hw'. apply wf_eq in Hw' as (H1 & H2 & H3 & H4). unfold shape in H3. rewrite Hc in H3. destruct H3 as [Hl Hso]. assert (Hstep : raxStepLenNode n = 1%nat) by (unfold raxStepLenNode; by rewrite Hc). rewrite Hstep in H4. split.
  - apply wf_eq. split_and!; cbn [n_key n_data n_children iscompr shape n']; [unfold remove_at; apply list.Forall_app; split; [by apply Forall_take|by apply Forall_drop]|done| |].
    + rewrite !length_remove_at by lia. split; [lia|by apply sorted_remove_at].
    + unfold remove_at. apply list.Forall_app. split; [by apply Forall_take|by apply Forall_drop].
  - intros k v. rewrite elem_of_contents. unfold beside. change (n_key n') with (n_key n). apply or_iff_compat_l. assert (Elab : labels n' = remove_at j (labels n)) by (unfold labels; rewrite Hc; cbn; by rewrite <- fmap_remove_at). rewrite Elab. change (n_children n') with (remove_at j (n_children n)). change (n_key n') with (n_key n). split.
    + intros (i & l & s & k' & Hi & Hs & -> & H). rewrite lookup_remove_at in Hi by lia. rewrite lookup_remove_at in Hs by lia. destruct (decide (i < j)%nat); [exists i, l, s, k'|exists (S i), l, s, k']; split_and!; (done || lia).
    + intros (i & l & s & k' & Hne & Hi & Hs & -> & H). destruct (decide (i < j)%nat) as [Hlt|Hge].
      * exists i, l, s, k'. rewrite !lookup_remove_at by lia. rewrite !decide_True by done. done.
      * exists (pred i), l, s, k'. rewrite !lookup_remove_at by lia. rewrite !decide_False by lia. replace (S (pred i)) with i by lia. done.
Qed.

Lemma remove_child_spec fl d parent j : wf fl d parent -> (j < length (n_children parent))%nat -> let new := raxRemoveChild parent j in
  wf fl d new /\ n_key new = n_key parent /\ (forall k v, (k, v) ∈ contents new <-> beside parent j k v) /\ (forall a b sub, total a b new = total a b (set_child parent j (Sub sub)) - total a b sub) /\ (single parent = false -> used new).
Proof.
  intros Hw Hj new. apply lookup_lt_is_Some_2 in Hj as [s Hs]. pose proof (lookup_lt_Some _ _ _ Hs) as Hj. unfold new, raxRemoveChild. destruct (iscompr parent) eqn:Hc.
  - destruct (compr_is_chain _ _ _ Hw Hc) as (s' & Heq & Hne & _ & _ & _ & Hch). rewrite Hch in Hj, Hs. destruct j; [|cbn in Hj; lia]. cbn in Hs. injection Hs as ->. pose proof Hw as Hw'. apply wf_eq in Hw' as (_ & H2 & _ & _). split_and!.
    + apply wf_eq. split_and!; cbn; try done. split; [done|constructor].
    + done.
    + intros k v. rewrite contents_eq. cbn [n_key n_children edges_contents]. rewrite app_nil_r. unfold beside. rewrite Hch. destruct (n_key parent) as [x|]; cbn [key_part].
      * rewrite list_elem_of_singleton. split; [intros E; simplify_eq; by left|intros [[-> E]|(i & l & s0 & k' & Hi & _ & H & _)]; [by simplify_eq|]]. destruct i; [done|by cbn in H].
      * rewrite elem_of_nil. split; [done|intros [[_ E]|(i & l & s0 & k' & Hi & _ & H & _)]; [done|]]. destruct i; [done|by cbn in H].
    + intros a b sub. rewrite (total_set_child _ _ _ _ s) by (by rewrite Hch). rewrite (total_eq _ _ parent), Hch, slots_total_cons, (total_eq _ _ (RN _ _ _ _)). cbn [n_key n_children slot_total slots_total foldr]. lia.
    + intros Hsp. unfold single in Hsp. rewrite Hc in Hsp. cbn in Hsp. rewrite andb_true_r in Hsp. apply negb_false_iff in Hsp. unfold iskey in Hsp. apply bool_decide_eq_true in Hsp. left. cbn. intros E. rewrite E in Hsp. by destruct Hsp.
  - destruct (drop_edge _ _ _ _ Hw Hc Hj) as [W C]. pose proof Hw as Hw'. apply wf_eq in Hw' as (_ & _ & H3 & _). unfold shape in H3. rewrite Hc in H3. destruct H3 as [Hl _]. split_and!; try done.
    + intros a b sub. rewrite (total_set_child _ _ _ _ s) by done. rewrite (total_eq _ _ parent), (total_eq _ _ (RN _ _ _ _)). cbn [n_key n_children]. rewrite (slots_total_remove_at _ _ _ s) by done. cbn [slot_total]. lia.
    + intros Hsp. unfold single in Hsp. rewrite Hc in Hsp. cbn [orb] in Hsp. apply andb_false_iff in Hsp as [Hsp|Hsp].
      * apply negb_false_iff in Hsp. unfold iskey in Hsp. apply bool_decide_eq_true in Hsp. left. cbn. intros E. rewrite E in Hsp. by destruct Hsp.
      * right. cbn. apply Nat.eqb_neq in Hsp. unfold n_size in Hsp. intros E. apply (f_equal length) in E. rewrite length_remove_at in E by lia. cbn in E. lia.
Qed.

(** ** Freeing upwards *)

(** A subtree with the only key [s]. *)
Definition only (n : raxNode) (s : list Z) (v : Z) : Prop := contents n = [(s, v)].

Lemma free_up_spec fl : forall p h freed rest old, p <> [] -> wf_path fl p -> only h rest old -> nodes h = freed ->
  exists parent j q freed' sub rest', free_up p freed = Some (parent, j, q, freed') /\ wf_path fl ((parent, j) :: q) /\ only sub rest' old /\ nodes sub = freed' /\ elements sub = elements h /\
    plug q (set_child parent j (Sub sub)) = plug p h /\ path_key ((parent, j) :: q) ++ rest' = path_key p ++ rest /\ (q <> [] -> single parent = false).
Proof.
  induction p as [|[parent j] p IH]; intros h freed rest old Hne Hp Ho Hn; [done|]. cbn [free_up]. destruct (negb (single parent) || match p with [] => true | _ => false end) eqn:Hstop.
  - exists parent, j, p, freed, h, rest. split_and!; try done. intros Hq. apply orb_true_iff in Hstop as [Hs|Hs]; [by apply negb_true_iff in Hs|by destruct p].
  - apply orb_false_iff in Hstop as [Hs Hpn]. apply negb_false_iff in Hs. assert (Hp0 : p <> []) by (by destruct p). pose proof Hp as (Hw & Hj & _ & Hp'). destruct (single_spec _ _ _ Hw Hs) as (Hk & Hd & s & Heq & Hch & _). rewrite Hch in Hj. destruct j; [|cbn in Hj; lia].
    assert (Hset : set_child parent 0 (Sub h) = chain_node None (n_data parent) (Sub h)) by (rewrite Heq at 1; done).
    destruct (IH (set_child parent 0 (Sub h)) (freed + 1) (n_data parent ++ rest) old Hp0 Hp') as (pa & j & q & freed' & sub & rest' & E1 & E2 & E3 & E4 & E5 & E6 & E7 & E8).
    + unfold only. rewrite Hset, chain_contents by done. cbn [key_part app slot_contents]. rewrite Ho. done.
    + unfold nodes in *. rewrite Hset, chain_total. cbn [slot_total]. lia.
    + exists pa, j, q, freed', sub, rest'. split_and!; try done.
      * rewrite E5. unfold elements. rewrite Hset, chain_total. cbn [slot_total]. lia.
      * rewrite E7. cbn [path_key]. rewrite <- (assoc_L (++)). f_equal. f_equal. assert (Hl : labels parent = [n_data parent]) by (rewrite Heq at 1; by apply chain_label). unfold label_at. by rewrite Hl.
Qed.

(** ** Removal *)

(** [head] holds what [n] holds, less the key [s]. *)
Definition without_key (n head : raxNode) (s : list Z) : Prop := forall k v, (k, v) ∈ contents head <-> k <> s /\ (k, v) ∈ contents n.

Definition shrunk (r : rax) (head : raxNode) (created : Z) : rax := {| r_head := head; r_numele := r_numele r - 1; r_numnodes := r_numnodes r + created; r_keyFixedLen := r_keyFixedLen r |}.

(** What a removal does to a tree. *)
Definition removed (r r' : rax) (s : list Z) : Prop := rax_ok r' /\ r_keyFixedLen r' = r_keyFixedLen r /\ rax_map r' = delete s (rax_map r).

Lemma shrunk_spec r head s created : rax_ok r -> wf (r_keyFixedLen r) 0 head -> without_key (r_head r) head s -> elements head = elements (r_head r) - 1 -> nodes head = nodes (r_head r) + created -> removed r (shrunk r head created) s.
Proof.
  intros [O1 O2 O3 O4] W C E N. split_and!; [constructor; cbn; (done || lia)|done|]. apply map_eq. intros k. apply option_eq. intros v. rewrite (rax_map_lookup _ _ (shrunk r head created) k v W), lookup_delete_Some, (rax_map_lookup _ _ r k v O1). specialize (C k v). cbn [shrunk r_head]. intuition congruence.
Qed.

Lemma plug_without fl p h h' rest : wf_path fl p -> without_key h h' rest -> without_key (plug p h) (plug p h') (path_key p ++ rest).
Proof.
  intros Hp C k v. rewrite !(elem_of_plug fl) by done. unfold without_key in C. setoid_rewrite C. split.
  - intros [H|(k' & -> & Hne & H)]; [split; [intros ->; by apply (outside_apart _ _ _ _ Hp) in H|by left]|]. split; [intros E; by apply app_inv_head in E|right; eauto].
  - intros [Hne [H|(k' & -> & H)]]; [by left|]. right. exists k'. split_and!; [done|congruence|done].
Qed.

Lemma unset_key_spec fl d h old : wf fl d h -> n_key h = Some old -> wf fl d (unset_key h) /\ without_key h (unset_key h) [] /\ elements (unset_key h) = elements h - 1 /\ nodes (unset_key h) = nodes h.
Proof.
  intros Hw Hk. pose proof Hw as Hw'. apply wf_eq in Hw' as (H1 & H2 & H3 & H4). assert (W : wf fl d (unset_key h)) by (apply wf_eq; split_and!; try done; intros Hf; specialize (H2 Hf); by destruct H2). split_and!; [done| | |].
  - intros k v. destruct k as [|c k]; [rewrite (elem_of_contents_nil _ _ _ _ W); split; [done|by intros [[] _]]|]. rewrite !elem_of_contents. cbn [unset_key n_key n_children]. change (labels (unset_key h)) with (labels h). split; [intros [[? _]|H]; [done|split; [done|by right]]|intros [_ [[? _]|H]]; [done|by right]].
  - unfold elements. rewrite !total_eq. cbn [unset_key n_key n_children]. rewrite Hk. lia.
  - unfold nodes. rewrite !total_eq. done.
Qed.

Lemma plug_total_diff a b fl p h h' : wf_path fl p -> total a b (plug p h') - total a b (plug p h) = total a b h' - total a b h.
Proof. intros Hp. rewrite (total_plug _ _ _ p h' h Hp). lia. Qed.

Lemma beside_apart fl d parent j k v : wf fl d parent -> (j < length (n_children parent))%nat -> ~ beside parent j (label_at parent j ++ k) v.
Proof.
  intros Hw Hj. apply lookup_lt_is_Some_2 in Hj as [s Hs]. pose proof (child_label _ _ _ _ _ Hw Hs) as Hl. pose proof (label_step _ _ _ _ _ Hw Hl) as [_ Hne].
  intros [[E _]|(i & l & s' & k' & Hij & Hl' & _ & E & _)]; [by apply app_eq_nil in E as [E _]|]. apply Hij. symmetry. by eapply labels_apart.
Qed.

(** The key was alone below [h]: nodes are freed up to a parent that is kept, and the
    chain around it is compressed. *)
Lemma cleanup_leaf r p h rest old : rax_ok r -> short_keys (r_head r) -> plug p h = r_head r -> wf_path (r_keyFixedLen r) p -> only h rest old -> nodes h = 1 -> elements h = 1 -> p <> [] ->
  exists parent j q freed head created, free_up p 1 = Some (parent, j, q, freed) /\
    (let new := raxRemoveChild parent j in (if (n_size new =? 1)%nat && negb (iskey new) then '(head, created) ← recompress (r_keyFixedLen r) q new; Some (head, created - freed) else Some (plug q new, - freed)) = Some (head, created)) /\
    removed r (shrunk r head created) (path_key p ++ rest).
Proof.
  intros Hok Hshort Hp Hwp Ho Hn He Hne. set (fl := r_keyFixedLen r) in *. destruct (free_up_spec fl p h 1 rest old Hne Hwp Ho Hn) as (parent & j & q & freed & sub & rest' & E1 & E2 & E3 & E4 & E5 & E6 & E7 & E8). pose proof E2 as (Hw & Hj & Hd & Hq). pose proof (path_key_step _ _ _ _ E2) as Hstep.
  destruct (remove_child_spec _ _ _ _ Hw Hj) as (W & K & C & T & U). set (new := raxRemoveChild parent j) in *. assert (Hun : q <> [] -> used new) by auto. rewrite Hp in E6. rewrite <- E7. cbn [path_key]. rewrite <- (assoc_L (++)).
  assert (Hwo : without_key (set_child parent j (Sub sub)) new (label_at parent j ++ rest')).
  { intros k v. rewrite C, (elem_of_set_child _ _ _ _ _ _ _ Hw Hj). cbn [slot_contents]. rewrite E3. setoid_rewrite list_elem_of_singleton. split; [intros H; split; [intros ->; exact (beside_apart _ _ _ _ _ _ Hw Hj H)|by left]|intros [Hk [H|(k' & -> & Ek)]]; [done|]]. simplify_eq. }
  pose proof (plug_without fl q _ _ _ Hq Hwo) as Hwo'. rewrite E6 in Hwo'. assert (Hel : elements (plug q new) = elements (r_head r) - 1) by (rewrite <- E6; unfold elements in *; pose proof (plug_total_diff (fun key => match key with Some _ => 1 | None => 0 end) 1 fl q (set_child parent j (Sub sub)) new Hq) as D; rewrite (T _ _ sub) in D; lia).
  assert (Hno : nodes (plug q new) = nodes (r_head r) - freed) by (rewrite <- E6; unfold nodes in *; pose proof (plug_total_diff (fun _ => 1) 0 fl q (set_child parent j (Sub sub)) new Hq) as D; rewrite (T _ _ sub) in D; lia). assert (Hwn : wf fl 0 (plug q new)) by (by apply wf_plug).
  exists parent, j, q, freed. cbv zeta. fold new. destruct ((n_size new =? 1)%nat && negb (iskey new)) eqn:Hcase.
  - apply andb_true_iff in Hcase as [Hs Hk]. destruct (recompress_spec fl q new Hq W) as (head & created & Er & Wr & Cr & Elr & Nr).
    + unfold single. by rewrite Hk, Hs, orb_true_r.
    + intros Hf. specialize (Hd Hf). rewrite Hstep in Hd. pose proof W as W'. apply wf_eq in W' as (_ & _ & H3 & _). unfold shape in H3. unfold raxStepLenNode. apply Nat.eqb_eq in Hs. unfold n_size in Hs. destruct (iscompr new); [lia|]. assert (1 <= raxStepLenNode parent)%nat; [|lia].
      apply lookup_lt_is_Some_2 in Hj as [s Hs']. pose proof (label_step _ _ _ _ _ Hw (child_label _ _ _ _ _ Hw Hs')) as [<- Hl]. destruct (label_at parent j); [done|cbn; lia].
    + intros k v Hin. apply Hwo' in Hin as [_ Hin]. by eapply Hshort.
    + exists head, (created - freed). rewrite Er. split; [done|]. split; [done|]. apply shrunk_spec; try done; [|lia|lia]. intros k v. rewrite (Cr (k, v)). apply Hwo'.
  - exists (plug q new), (- freed). split; [done|]. split; [done|]. by apply shrunk_spec.
Qed.

(** A node whose only key is removed is left with nothing. *)
Lemma cleanup_empty r p h rest old : rax_ok r -> short_keys (r_head r) -> plug p h = r_head r -> wf_path (r_keyFixedLen r) p -> only h rest old -> nodes h = 1 -> elements h = 1 ->
  exists head created, cleanup (r_keyFixedLen r) p (RN None false [] []) = Some (head, created) /\ removed r (shrunk r head created) (path_key p ++ rest).
Proof.
  intros Hok Hs Hp Hw Ho Hn He. destruct p as [|f p].
  - exists raxNewNode, 0. split; [done|]. cbn [plug] in Hp. subst h. apply shrunk_spec; [done| | |rewrite He; done|rewrite Hn; done].
    + apply wf_eq. split_and!; cbn; try done; [|by split; [|constructor]]. intros Hf. split; [done|lia].
    + intros k v. rewrite Ho, list_elem_of_singleton. cbn. rewrite elem_of_nil. split; [done|]. intros [Hk E]. by simplify_eq.
  - destruct (cleanup_leaf r (f :: p) h rest old Hok Hs Hp Hw Ho Hn He ltac:(done)) as (parent & j & q & freed & head & created & E1 & E2 & E3). exists head, created. split; [|done]. unfold cleanup. cbn [n_size n_data length Nat.eqb]. by rewrite E1.
Qed.

(** A node that is a key stays as one that is none, or joins the chain around it. *)
Lemma cleanup_key r p h old : rax_ok r -> short_keys (r_head r) -> plug p h = r_head r -> wf_path (r_keyFixedLen r) p -> wf (r_keyFixedLen r) (length (path_key p)) h -> n_key h = Some old ->
  exists head created, cleanup (r_keyFixedLen r) p (unset_key h) = Some (head, created) /\ removed r (shrunk r head created) (path_key p).
Proof.
  intros Hok Hs Hp Hwp Hw Hk. set (fl := r_keyFixedLen r) in *. destruct (unset_key_spec _ _ _ _ Hw Hk) as (W & C & E & N). pose proof (plug_without fl p _ _ _ Hwp C) as C'. rewrite app_nil_r, Hp in C'.
  pose proof (plug_total_diff (fun key => match key with Some _ => 1 | None => 0 end) 1 fl p h (unset_key h) Hwp) as DE. pose proof (plug_total_diff (fun _ => 1) 0 fl p h (unset_key h) Hwp) as DN. rewrite Hp in DE, DN. fold (elements (plug p (unset_key h))) (elements (r_head r)) (elements (unset_key h)) (elements h) in DE. fold (nodes (plug p (unset_key h))) (nodes (r_head r)) (nodes (unset_key h)) (nodes h) in DN.
  pose proof Hw as Hw'. apply wf_eq in Hw' as (_ & H2 & H3 & _). assert (Hf : fl = 0%nat) by (destruct (decide (fl = 0%nat)) as [|Hf]; [done|]; destruct (H2 Hf); congruence). assert (Hus : n_size (unset_key h) <> 0%nat -> used (unset_key h)) by (intros Hz; right; intros E0; apply Hz; unfold n_size; by rewrite E0).
  destruct (Nat.eqb_spec (n_size (unset_key h)) 0) as [Hz|Hz].
  - assert (Hemp : h = RN (Some old) false [] []).
    { unfold shape in H3. destruct h as [key compr data slots]. unfold n_size in Hz. cbn in *. apply length_zero_iff_nil in Hz as ->. destruct compr; [cbn in H3; lia|]. destruct H3 as [H3 _]. destruct slots; [by subst|done]. }
    rewrite Hemp in Hp |- *. destruct (cleanup_empty r p _ [] old Hok Hs Hp Hwp) as (head & created & E1 & E2); try done. rewrite app_nil_r in E2. eauto.
  - destruct (Nat.eqb_spec (n_size (unset_key h)) 1) as [Ho|Ho].
    + destruct (recompress_spec fl p (unset_key h) Hwp W) as (head & created & Er & Wr & Cr & El & Nr); [unfold single; cbn [iskey n_key unset_key]; by rewrite Ho, orb_true_r|done|intros k v Hin; apply C' in Hin as [_ Hin]; by eapply Hs|]. exists head, created. split; [unfold cleanup; by rewrite (proj2 (Nat.eqb_neq _ _) Hz), Ho|]. apply shrunk_spec; try done; [|lia|lia]. intros k v. rewrite (Cr (k, v)). apply C'.
    + exists (plug p (unset_key h)), 0. split; [unfold cleanup; by rewrite (proj2 (Nat.eqb_neq _ _) Hz), (proj2 (Nat.eqb_neq _ _) Ho)|]. apply shrunk_spec; try done; [apply wf_plug; by auto|lia|lia].
Qed.

(** A value in a slot goes, with its node when it was the only one. *)
Lemma remove_slot r p h j l v : rax_ok r -> short_keys (r_head r) -> plug p h = r_head r -> wf_path (r_keyFixedLen r) p -> wf (r_keyFixedLen r) (length (path_key p)) h -> labels h !! j = Some l -> n_children h !! j = Some (Val v) ->
  exists head created, (if negb (iscompr h) && (1 <? n_size h)%nat then newh ← raxRemoveSlotAt h j; Some (plug p newh, 0) else cleanup (r_keyFixedLen r) p (unset_key (RN (n_key h) false [] []))) = Some (head, created) /\ removed r (shrunk r head created) (path_key p ++ l).
Proof.
  intros Hok Hs Hp Hwp Hw Hl Hv. set (fl := r_keyFixedLen r) in *. pose proof Hw as Hw'. apply wf_eq in Hw' as (_ & H2 & H3 & H4). pose proof (Forall_lookup_1 _ _ _ _ H4 Hv) as [Hf Hd]. destruct (H2 Hf) as [Hk _]. pose proof (lookup_lt_Some _ _ _ Hv) as Hj. unfold shape in H3.
  destruct (negb (iscompr h) && (1 <? n_size h)%nat) eqn:Hcase.
  - apply andb_true_iff in Hcase as [Hc Hsz]. apply negb_true_iff in Hc. apply Nat.ltb_lt in Hsz. rewrite Hc in H3. destruct H3 as [Hlen _]. unfold n_size in Hsz. destruct (drop_edge _ _ _ _ Hw Hc Hj) as [W C]. unfold raxRemoveSlotAt, iskey. rewrite Hc, Hk. unfold n_size. assert ((j <? length (n_data h))%nat = true) as -> by (apply Nat.ltb_lt; lia). cbn [negb andb bool_decide cassert mbind option_bind]. rewrite bool_decide_eq_false_2 by (by intros []). cbn [negb andb cassert mbind option_bind]. rewrite Hk in W, C. set (n' := RN None false _ _) in *.
    assert (Hwo : without_key h n' l).
    { intros k x. rewrite C. rewrite <- (label_at_eq _ _ _ Hl). assert (Hid : h = set_child h j (Val v)) by (destruct h as [key compr data slots]; unfold set_child; cbn in *; f_equal; symmetry; by apply list_insert_id). rewrite Hid at 3. rewrite (elem_of_set_child _ _ _ _ _ _ _ Hw Hj). cbn [slot_contents]. setoid_rewrite list_elem_of_singleton. split.
      - intros H. split; [|by left]. intros ->. rewrite <- (app_nil_r (label_at h j)) in H. exact (beside_apart _ _ _ _ _ _ Hw Hj H).
      - intros [Hne [H|(k' & -> & E)]]; [done|]. simplify_eq. by rewrite app_nil_r in Hne. }
    assert (Ht : forall a b, total a b n' = total a b h - b) by (intros a b; rewrite !total_eq, Hk; cbn [n' n_key n_children]; rewrite (slots_total_remove_at _ _ _ (Val v)) by done; cbn [slot_total]; lia).
    exists (plug p n'), 0. split; [done|]. apply shrunk_spec; [done|apply wf_plug; [done|done|]| | |].
    + intros _. right. cbn. intros E. apply (f_equal length) in E. rewrite length_remove_at in E by lia. cbn in E. lia.
    + rewrite <- Hp. by eapply plug_without.
    + pose proof (plug_total_diff (fun key => match key with Some _ => 1 | None => 0 end) 1 fl p h n' Hwp) as D. rewrite Ht, Hp in D. unfold elements. lia.
    + pose proof (plug_total_diff (fun _ => 1) 0 fl p h n' Hwp) as D. rewrite Ht, Hp in D. unfold nodes. lia.
  - assert (Hone : n_children h = [Val v] /\ labels h = [l]).
    { pose proof (labels_length _ _ _ Hw) as Hll. assert (length (n_children h) = 1)%nat as H1. { destruct (iscompr h); [by destruct H3 as (_ & _ & H3)|]. cbn [negb andb] in Hcase. apply Nat.ltb_ge in Hcase. unfold n_size in Hcase. lia. }
      rewrite H1 in Hll. destruct (n_children h) as [|s [|]]; [done| |done]. destruct (labels h) as [|l' [|]]; [done| |done]. destruct j; [|cbn in Hj; lia]. cbn in Hl, Hv. by simplify_eq. }
    destruct Hone as [Hch Hla]. assert (Hun : unset_key (RN (n_key h) false [] []) = RN None false [] []) by done. rewrite Hun. apply (cleanup_empty r p h l v Hok Hs Hp Hwp).
    + unfold only. rewrite contents_eq, Hk, Hch, Hla. cbn. by rewrite app_nil_r.
    + unfold nodes. rewrite total_eq, Hch. done.
    + unfold elements. rewrite total_eq, Hch, Hk. done.
Qed.

(** A removal reports the value of the key and takes it away; a key that is not there
    changes nothing. *)
Lemma remove_spec r s : rax_ok r -> short_keys (r_head r) -> (r_keyFixedLen r = 0%nat \/ length s = r_keyFixedLen r) ->
  exists r', raxRemove r s = Some (rax_map r !! s, r') /\ match rax_map r !! s with Some _ => removed r r' s | None => r' = r end.
Proof.
  intros Hok Hshort Hlen. destruct (raxLowWalk_spec r s Hok Hlen) as (link & E & (Hp & Hwp & Hw & Hu & rest & Hs & Hstop)). unfold raxRemove. rewrite E. cbn [mbind option_bind]. destruct (rax_map r !! s) as [old|] eqn:Hold; [|by exists r].
  assert (Hin : (rest, old) ∈ contents (l_stopnode link)) by (apply (elem_of_plug_here _ _ _ _ _ Hwp); rewrite Hp, <- Hs; by apply (rax_map_lookup _ _ r s old (ok_wf _ Hok))).
  enough (exists head created, match l_stop link with AtLeafSlot j => if negb (iscompr (l_stopnode link)) && (1 <? n_size (l_stopnode link))%nat then newh ← raxRemoveSlotAt (l_stopnode link) j; Some (plug (l_path link) newh, 0) else cleanup (r_keyFixedLen r) (l_path link) (unset_key (RN (n_key (l_stopnode link)) false [] [])) | AtNode _ => cleanup (r_keyFixedLen r) (l_path link) (unset_key (l_stopnode link)) end = Some (head, created) /\ removed r (shrunk r head created) s) as (head & created & E' & H) by (rewrite E'; by exists (shrunk r head created)).
  destruct (l_stop link) as [j|j].
  - destruct Hstop as [_ [(-> & _)|[(Hr & Hc & -> & Hj)|(c & r0 & -> & Hc & Hn & _)]]]; [|exfalso; by eapply compr_mismatch|exfalso; by eapply edge_missing]. rewrite app_nil_r in Hs. rewrite Hs. apply (cleanup_key _ _ _ old); try done. by apply (elem_of_contents_nil _ _ _ _ Hw).
  - destruct Hstop as (v & l & r0 & Hl & Hv & -> & Hf & _). rewrite (elem_of_contents_edge _ _ _ _ _ _ _ _ Hw Hl Hv) in Hin. apply list_elem_of_singleton in Hin. injection Hin as -> ->. rewrite app_nil_r in Hs. rewrite Hs. by apply (remove_slot _ _ _ j l v).
Qed.
