(* ===== verification/RaxRuns.v ===== *)
(** * Histories of a radix tree

    Every sequence of operations on a new tree answers as the same operations on a finite
    map do. *)

From stdpp Require Import base list gmap numbers option tactics sorting.
From S2P Require Import Prelude Order Rax RaxSpec RaxInsert RaxRemove.

Inductive rax_op := OpInsert (s : list Z) (data : Z) | OpTryInsert (s : list Z) (data : Z) | OpFind (s : list Z) | OpRemove (s : list Z).

(** Whether the call returned 1, and the value it gave back. *)
Definition answer : Type := bool * option Z.

Definition found (v : option Z) : answer := (bool_decide (is_Some v), v).

Definition rax_step (r : rax) (op : rax_op) : option (answer * rax) :=
  match op with
  | OpInsert s data => '(new, old, r') ← raxInsert r s data; Some ((new, old), r')
  | OpTryInsert s data => '(new, old, r') ← raxTryInsert r s data; Some ((new, old), r')
  | OpFind s => v ← raxFind r s; Some (found v, r)
  | OpRemove s => '(old, r') ← raxRemove r s; Some (found old, r')
  end.

Fixpoint rax_run (r : rax) (ops : list rax_op) : option (list answer * rax) :=
  match ops with
  | [] => Some ([], r)
  | op :: ops => '(a, r) ← rax_step r op; '(answers, r) ← rax_run r ops; Some (a :: answers, r)
  end.

(** The same on a map. *)
Definition map_step (m : gmap (list Z) Z) (op : rax_op) : answer * gmap (list Z) Z :=
  match op with
  | OpInsert s data => ((bool_decide (m !! s = None), m !! s), <[s := data]> m)
  | OpTryInsert s data => ((bool_decide (m !! s = None), m !! s), match m !! s with Some _ => m | None => <[s := data]> m end)
  | OpFind s => (found (m !! s), m)
  | OpRemove s => (found (m !! s), delete s m)
  end.

Fixpoint map_run (m : gmap (list Z) Z) (ops : list rax_op) : list answer * gmap (list Z) Z :=
  match ops with
  | [] => ([], m)
  | op :: ops => let '(a, m) := map_step m op in let '(answers, m) := map_run m ops in (a :: answers, m)
  end.

Definition op_key (op : rax_op) : list Z := match op with OpInsert s _ | OpTryInsert s _ | OpFind s | OpRemove s => s end.

(** Keys are byte strings of the length of the tree, or of any length one node can hold. *)
Definition op_ok (keyFixedLen : nat) (op : rax_op) : Prop :=
  Forall is_byte (op_key op) /\ (keyFixedLen = 0%nat /\ zlen (op_key op) <= RAX_NODE_MAX_SIZE \/ length (op_key op) = keyFixedLen).

(** What relates a tree to the map. *)
Definition stands_for (r : rax) (m : gmap (list Z) Z) : Prop := rax_ok r /\ rax_map r = m /\ forall k, is_Some (m !! k) -> zlen k <= RAX_NODE_MAX_SIZE.

Lemma stands_short r m : stands_for r m -> short_keys (r_head r).
Proof. intros (O & <- & H) k v Hin. apply H. exists v. by apply (rax_map_lookup _ _ _ _ _ (ok_wf _ O)). Qed.

Lemma op_ok_len fl op : op_ok fl op -> Z.of_nat fl <= RAX_NODE_MAX_SIZE -> (fl = 0%nat \/ length (op_key op) = fl) /\ zlen (op_key op) <= RAX_NODE_MAX_SIZE.
Proof. intros [_ [[-> H]|H]] Hm; split; auto. unfold zlen. lia. Qed.

Lemma inserted_stands r r' m s data new old : stands_for r m -> inserted r r' s data new old -> zlen s <= RAX_NODE_MAX_SIZE -> (new, old) = (bool_decide (m !! s = None), m !! s) /\ stands_for r' (<[s := data]> m) /\ r_keyFixedLen r' = r_keyFixedLen r.
Proof.
  intros (O & <- & H) (O' & F & -> & -> & M) Hs. unfold stands_for. split_and!; try done. intros k. destruct (decide (k = s)) as [->|]; [done|]. rewrite lookup_insert_ne by done. apply H.
Qed.

(** One operation keeps them related. *)
Lemma rax_step_refines r m op : stands_for r m -> op_ok (r_keyFixedLen r) op -> exists r', rax_step r op = Some ((map_step m op).1, r') /\ stands_for r' (map_step m op).2 /\ r_keyFixedLen r' = r_keyFixedLen r.
Proof.
  intros S Hop. pose proof S as (O & M & H). destruct (op_ok_len _ _ Hop (ok_fixed _ O)) as [Hlen Hz]. destruct Hop as [Hb _]. destruct op as [s data|s data|s|s]; cbn [op_key rax_step map_step fst snd] in *.
  - destruct (raxLowWalk_spec r s O Hlen) as (link & E & L). unfold raxInsert. rewrite E. cbn [mbind option_bind]. destruct (insertAt_spec r s data link O Hb Hlen L) as (new & old & r' & -> & Hi). cbn [mbind option_bind]. destruct (inserted_stands _ _ _ _ _ _ _ S Hi Hz) as (-> & S' & F). eauto.
  - destruct (raxLowWalk_spec r s O Hlen) as (link & E & L). unfold raxTryInsert. rewrite E, M. cbn [mbind option_bind]. destruct (m !! s) as [v|] eqn:Hv; [by exists r|]. destruct (insertAt_spec r s data link O Hb Hlen L) as (new & old & r' & -> & Hi). cbn [mbind option_bind]. destruct (inserted_stands _ _ _ _ _ _ _ S Hi Hz) as (-> & S' & F). rewrite Hv. eauto.
  - rewrite (rax_find_spec r s O Hlen), M. by exists r.
  - destruct (remove_spec r s O (stands_short _ _ S) Hlen) as (r' & -> & Hr). rewrite M in *. cbn [mbind option_bind]. exists r'. split; [done|]. destruct (m !! s) as [v|] eqn:Hv.
    + destruct Hr as (O' & F & M'). split; [|done]. split_and!; [done|by rewrite M', M|]. intros k [x Hx]. apply lookup_delete_Some in Hx as [_ Hx]. by apply H.
    + subst r'. rewrite delete_id by done. done.
Qed.

Lemma rax_run_refines r m ops : stands_for r m -> Forall (op_ok (r_keyFixedLen r)) ops -> exists r', rax_run r ops = Some ((map_run m ops).1, r') /\ stands_for r' (map_run m ops).2.
Proof.
  intros S H. remember (r_keyFixedLen r) as fl eqn:Hfl. revert r m S Hfl. induction H as [|op ops Hop _ IH]; intros r m S Hfl; [by exists r|]. subst fl. destruct (rax_step_refines r m op S Hop) as (r1 & E & S1 & F). cbn [rax_run map_run]. rewrite E. cbn [mbind option_bind]. destruct (map_step m op) as [a m1]. cbn [fst snd] in *. destruct (IH r1 m1 S1 (eq_sym F)) as (r2 & -> & S2). destruct (map_run m1 ops) as [answers m2]. by exists r2.
Qed.

Lemma raxNewEx_stands fl r : raxNewEx fl = Some r -> stands_for r ∅ /\ r_keyFixedLen r = fl.
Proof.
  unfold raxNewEx. destruct (Z.leb_spec (Z.of_nat fl) RAX_NODE_MAX_SIZE) as [Hle|]; [|done]. intros [= <-]. split; [|done]. split_and!; [|done|by intros k []]. constructor; try done. apply wf_eq. split_and!; cbn; try done; [|by split; [|constructor]]. intros Hf. split; [done|lia].
Qed.

(** C12: In every history of insertions, insertions of missing keys, lookups and removals
    on a new tree, every call returns what it would on a finite map; at the end the tree
    is well formed, holds exactly the keys of that map, and counts them and its nodes
    right.  The keys are byte strings of at most [2^29 - 1] bytes ([RAX_NODE_MAX_SIZE]), and
    in a tree for keys of a fixed length all of that length ([op_ok]). *)
Theorem rax_history fl r ops : raxNewEx fl = Some r -> Forall (op_ok fl) ops ->
  exists r', rax_run r ops = Some ((map_run ∅ ops).1, r') /\ rax_ok r' /\ rax_map r' = (map_run ∅ ops).2 /\ r_numele r' = Z.of_nat (size (map_run ∅ ops).2).
Proof.
  intros E H. destruct (raxNewEx_stands _ _ E) as [S F]. rewrite <- F in H. destruct (rax_run_refines _ _ _ S H) as (r' & E' & (O & M & _)). exists r'. split_and!; try done. rewrite <- M. by apply ok_size.
Qed.

(** ** Runs *)

Definition foo : list Z := [102; 111; 111].
Definition foobar : list Z := foo ++ [98; 97; 114].
Definition footer : list Z := foo ++ [116; 101; 114].

(** A tree with three keys of which two go again. *)
Lemma rax_history_witness : exists r', rax_run {| r_head := raxNewNode; r_numele := 0; r_numnodes := 1; r_keyFixedLen := 0 |} [OpInsert foobar 1; OpInsert footer 2; OpTryInsert foobar 3; OpInsert foo 4; OpRemove footer; OpFind footer; OpFind foobar; OpRemove foo] =
  Some ([(true, None); (true, None); (false, Some 1); (true, None); (true, Some 2); (false, None); (true, Some 1); (true, Some 4)], r') /\ rax_map r' = {[foobar := 1]} /\ r_numele r' = 1.
Proof.
  destruct (rax_history 0 {| r_head := raxNewNode; r_numele := 0; r_numnodes := 1; r_keyFixedLen := 0 |} [OpInsert foobar 1; OpInsert footer 2; OpTryInsert foobar 3; OpInsert foo 4; OpRemove footer; OpFind footer; OpFind foobar; OpRemove foo]) as (r' & E & _ & M & N).
  - reflexivity.
  - repeat (apply list.Forall_cons_2; [split; [cbn; repeat (apply list.Forall_cons_2; [unfold is_byte; lia|]); apply list.Forall_nil_2|left; split; [reflexivity|vm_compute; discriminate]]|]). apply list.Forall_nil_2.
  - exists r'. rewrite E, M, N. split_and!; [do 2 f_equal; vm_compute; reflexivity|vm_compute; reflexivity|vm_compute; reflexivity].
Defined.

(** A new tree for keys of any length. *)
Definition raxNew : rax := {| r_head := raxNewNode; r_numele := 0; r_numnodes := 1; r_keyFixedLen := 0 |}.

(** The tree of "foo" and "foobar" is not compressed into one node when "foo" goes: the
    node that was the key "foo" has more than one byte. *)
Theorem remove_leaves_chain : (fun x => r_head x.2) <$> rax_run raxNew [OpInsert foo 1; OpInsert foobar 2; OpRemove foo] = Some (RN None true foo [Sub (RN None true [98; 97; 114] [Sub (RN (Some 2) false [] [])])]).
Proof. vm_compute. reflexivity. Qed.

(** A lookup in a tree for keys of two bytes finds a key of three. *)
Theorem find_ignores_rest : fst <$> (r ← raxNewEx 2; rax_run r [OpInsert [1; 2] 7; OpFind [1; 2; 3]]) = Some [(true, None); (true, Some 7)].
Proof. vm_compute. reflexivity. Qed.

(** *** A key longer than one node *)

Lemma insert_rest_compress fuel i big tl v : Z.min (zlen (big ++ tl)) RAX_NODE_MAX_SIZE = zlen big -> (1 < length (big ++ tl))%nat ->
  insert_rest (S fuel) 0 raxNewNode i (big ++ tl) v = '(child, created) ← insert_rest fuel 0 raxNewNode (i + length big) tl v; Some (RN None true big [Sub child], created + 1).
Proof.
  intros Hm Hl. destruct (big ++ tl) as [|c s] eqn:E; [cbn in Hl; lia|]. assert (Ht : take (length big) (c :: s) = big) by (rewrite <- E; apply take_app_length). assert (Hd : drop (length big) (c :: s) = tl) by (rewrite <- E; apply drop_app_length). cbn [insert_rest]. apply Nat.ltb_lt in Hl. rewrite Hl, Hm.
  change (n_size raxNewNode =? 0)%nat with true. cbn [andb negb Nat.eqb]. replace (Z.to_nat (zlen big)) with (length big) by (unfold zlen; lia). rewrite Ht, Hd. by destruct (insert_rest _ _ _ _ _ _) as [[]|].
Qed.

Section LongKey.
Context (c : Z) (rest : list Z) (Hlen : zlen (c :: rest) = RAX_NODE_MAX_SIZE) (Hc : c < 122).

Definition long_key : list Z := (c :: rest) ++ [98; 99].
Definition long_tail (v : Z) : raxNode := RN None true [98; 99] [Sub (RN (Some v) false [] [])].

Lemma insert_long_key v : raxInsert raxNew long_key v = Some (true, None, {| r_head := RN None true (c :: rest) [Sub (long_tail v)]; r_numele := 1; r_numnodes := 3; r_keyFixedLen := 0 |}).
Proof using Hlen.
  assert (Hz : zlen long_key = RAX_NODE_MAX_SIZE + 2) by (unfold long_key; rewrite zlen_app, Hlen; done). unfold raxInsert, raxLowWalk. assert (Ew : low_walk (S (length long_key)) 0 raxNewNode [] 0 long_key = Some {| l_stopnode := raxNewNode; l_path := []; l_consumed := 0; l_stop := AtNode 0 |}) by done. cbn [raxNew r_keyFixedLen r_head]. rewrite Ew. cbn [mbind option_bind l_stop l_consumed l_stopnode].
  assert (El : (0 =? length long_key)%nat = false) by done. rewrite El. cbn [negb orb mbind option_bind]. unfold raxInsertAt. cbn [l_stopnode l_consumed l_stop l_path r_keyFixedLen]. rewrite El. cbn [Nat.eqb orb cassert mbind option_bind andb iscompr raxNewNode]. rewrite drop_0. unfold long_key at 2.
  change (RN None false [] []) with raxNewNode. rewrite insert_rest_compress by (fold long_key; (unfold zlen in *; lia) || (rewrite Hz, Hlen; apply Z.min_r; lia)).
  assert (Et : forall fuel i, insert_rest (S (S fuel)) 0 raxNewNode i [98; 99] v = Some (long_tail v, 1)) by done. assert (exists fuel, length long_key = S (S fuel)) as [fuel ->] by (exists (length long_key - 2)%nat; unfold long_key; rewrite length_app; cbn; lia). rewrite Et. reflexivity.
Qed.

Lemma insert_before_long_key v w : raxInsert {| r_head := RN None true (c :: rest) [Sub (long_tail v)]; r_numele := 1; r_numnodes := 3; r_keyFixedLen := 0 |} [122] w =
  Some (true, None, {| r_head := RN None false [c; 122] [Sub (RN None true rest [Sub (long_tail v)]); Sub (RN (Some w) false [] [])]; r_numele := 2; r_numnodes := 5; r_keyFixedLen := 0 |}).
Proof using Hlen Hc.
  assert (Hr : (2 <= length rest)%nat) by (unfold RAX_NODE_MAX_SIZE in Hlen; rewrite zlen_cons in Hlen; unfold zlen in Hlen; lia). assert (E1 : (c =? 122) = false) by lia. assert (E2 : (122 >? c) = true) by lia. unfold raxInsert, raxLowWalk. cbn [low_walk r_keyFixedLen r_head n_size n_data length Nat.eqb iscompr common]. rewrite E1. cbn [negb mbind option_bind l_stop l_consumed l_stopnode length Nat.add Nat.eqb orb].
  unfold raxInsertAt. cbn [l_stopnode l_consumed l_stop l_path r_keyFixedLen n_children list_lookup lookup n_data mbind option_bind Nat.eqb orb andb negb cassert iscompr length n_size n_key drop plug]. replace (S (length rest) - 0 - 1)%nat with (length rest) by lia. assert ((length rest =? 0)%nat = false) as -> by (apply Nat.eqb_neq; lia). assert ((1 <? length rest)%nat = true) as -> by (apply Nat.ltb_lt; lia).
  cbn [insert_rest n_size n_data length Nat.eqb andb raxSlotsAreValues negb mbind option_bind raxSetData raxNewNode iscompr n_children raxAddChild cassert n_key child_pos lookup list_lookup pred]. rewrite E2. reflexivity.
Qed.

(** The chain left by the removal is longer than a node can be: its bytes are written
    past the end of the new node. *)
Lemma remove_overflows v w : raxRemove {| r_head := RN None false [c; 122] [Sub (RN None true rest [Sub (long_tail v)]); Sub (RN (Some w) false [] [])]; r_numele := 2; r_numnodes := 5; r_keyFixedLen := 0 |} [122] = None.
Proof using Hlen.
  assert (Hz : 1 + Z.of_nat (length rest) = RAX_NODE_MAX_SIZE) by (rewrite zlen_cons in Hlen; unfold zlen in Hlen; lia). enough (Hr : recompress 0 [] (RN None false [c] [Sub (RN None true rest [Sub (long_tail v)])]) = None).
  { unfold raxRemove. match goal with |- context [raxLowWalk ?r ?s] => assert (Ew : raxLowWalk r s = Some (Some w, {| l_stopnode := RN (Some w) false [] []; l_path := [(r_head r, 1%nat)]; l_consumed := 1; l_stop := AtNode 0 |})) by reflexivity end. rewrite Ew. cbn [mbind option_bind l_stop l_path l_stopnode r_head r_keyFixedLen]. unfold cleanup. change (n_size (unset_key _) =? 0)%nat with true.
    cbn [free_up]. rewrite orb_true_r. change (raxRemoveChild _ _) with (RN None false [c] [Sub (RN None true rest [Sub (long_tail v)])]). change ((_ =? 1)%nat && _) with true. cbn match. by rewrite Hr. }
  unfold recompress. cbn [chain_start path_depth foldr]. set (h := RN None true rest [Sub (long_tail v)]). set (start := RN None false [c] [Sub h]).
  assert (Hm : measure_chain (S (height start)) 0 start (Z.of_nat (n_size start)) 1 0 = Some (RAX_NODE_MAX_SIZE, 2)).
  { change (height start) with 4%nat. cbn [measure_chain]. change (n_size start) with 1%nat. change (last_child start) with (Some h). cbn [Nat.eqb mbind option_bind]. change (chain_ends 0 h _) with false. change (last_child h) with (Some (long_tail v)). change (chain_ends 0 (long_tail v) _) with false. change (n_size (long_tail v)) with 2%nat. change (n_size h) with (length rest). cbn [mbind option_bind].
    change (Z.of_nat 1) with 1. rewrite Hz. change (RAX_NODE_MAX_SIZE >? RAX_NODE_MAX_SIZE) with false. change (RAX_NODE_MAX_SIZE + Z.of_nat 2 >? RAX_NODE_MAX_SIZE) with true. cbn match. by assert ((length rest =? 0)%nat = false) as -> by (apply Nat.eqb_neq; unfold RAX_NODE_MAX_SIZE in Hz; lia). }
  rewrite Hm. cbn [mbind option_bind]. change (2 >? 1) with true. cbn match. change (height start) with 4%nat. cbn [copy_chain]. change (n_size start) with 1%nat. change (last_child start) with (Some h). cbn [Nat.eqb]. change (zlen [] + Z.of_nat 1 <=? RAX_NODE_MAX_SIZE) with true. cbn [cassert mbind option_bind]. change (chain_ends 0 h _) with false. cbn match. change (n_size h) with (length rest). change (last_child h) with (Some (long_tail v)).
  assert ((length rest =? 0)%nat = false) as -> by (apply Nat.eqb_neq; unfold RAX_NODE_MAX_SIZE in Hz; lia). cbn [Nat.eqb app]. change (n_data start) with [c]. change (n_data h) with rest. cbn [app].
  assert ((zlen [c] + Z.of_nat (length rest) <=? RAX_NODE_MAX_SIZE) = true) as -> by (apply Z.leb_le; change (zlen [c]) with 1; lia). cbn [cassert mbind option_bind]. change (chain_ends 0 (long_tail v) _) with false. change (n_size (long_tail v)) with 2%nat. cbn [Nat.eqb]. assert ((zlen (c :: rest) + Z.of_nat 2 <=? RAX_NODE_MAX_SIZE) = false) as -> by (apply Z.leb_gt; rewrite zlen_cons; unfold zlen; lia). reflexivity.
Qed.
End LongKey.

(** After a key two bytes longer than a node can hold and a key of one byte are inserted,
    removing the second one writes past the end of a new node. *)
Theorem long_key_overflow c rest : zlen (c :: rest) = RAX_NODE_MAX_SIZE -> c < 122 -> exists r1 r2, raxInsert raxNew (long_key c rest) 1 = Some (true, None, r1) /\ raxInsert r1 [122] 2 = Some (true, None, r2) /\ raxRemove r2 [122] = None.
Proof. intros Hl Hc. eexists _, _. split_and!; [by apply insert_long_key|by apply insert_before_long_key|by apply remove_overflows]. Qed.
