(* ===== verification/RaxIter.v ===== *)
(** * Iterators over radix trees

    The stack of an iterator holds the parents of its node, the closest first; it is empty
    exactly when the node is the head.  The buffer of the key is the list of its bytes.
    There is no node callback. *)

From stdpp Require Import base list numbers option tactics.
From S2P Require Import Prelude Order Rax.

Record raxIterator := { it_eof : bool; it_just_seeked : bool; it_rt : rax; it_key : list Z; it_data : Z; it_node : option raxNode; it_stack : list raxNode; it_leaf : option nat }.

Definition raxStart (rt : rax) : raxIterator :=
  {| it_eof := true; it_just_seeked := false; it_rt := rt; it_key := []; it_data := 0; it_node := None; it_stack := []; it_leaf := None |}.

(** What a step finds: a key with its value and place, or that the iteration is over. *)
Inductive outcome := Hit (key : list Z) (data : Z) (node : raxNode) (stack : list raxNode) (leaf : option nat) | Over.

(** ** Forward *)

(** Following the child [i] with the bytes [edge]: its value when it is no node, the node
    when it is a key, or further down. *)
Definition next_enter (deeper : raxNode -> list Z -> list raxNode -> option outcome) (fl : nat) (node : raxNode) (key : list Z) (stack : list raxNode) (i : nat) (edge : list Z) : option outcome :=
  if raxSlotsAreValues fl (length key + length edge) then
    v ← raxLeafParentReadSlot node i; Some (Hit (key ++ edge) v node stack (Some i))
  else
    slot ← n_children node !! i; c ← as_node slot;
    match n_key c with
    | Some v => Some (Hit (key ++ edge) v c (node :: stack) None)
    | None => deeper c (key ++ edge) (node :: stack)
    end.

(** The next child of a node whose byte is larger, or further up. *)
Definition next_scan (deeper up : raxNode -> list Z -> list raxNode -> option outcome) (fl : nat) (least : nat) (prevchild : Z) (node : raxNode) (key : list Z) (stack : list raxNode) : option outcome :=
  if negb (iscompr node) && (least <? n_size node)%nat then
    let i := first_larger (n_data node) prevchild in
    if (i <? n_size node)%nat then ch ← n_data node !! i; next_enter deeper fl node key stack i [ch]
    else up node key stack
  else up node key stack.

(** The loops of [raxIteratorNextStep]: in the outer one [deeper] holds. *)
Fixpoint next_loop (fuel fl : nat) (deeper noup : bool) (node : raxNode) (key : list Z) (stack : list raxNode) : option outcome :=
  match fuel with
  | O => None
  | S fuel =>
      let children := if iscompr node then 1%nat else n_size node in
      if deeper && negb noup && negb (children =? 0)%nat then
        next_enter (next_loop fuel fl true false) fl node key stack 0 (take (raxStepLenNode node) (n_data node))
      else if negb noup && (length stack =? 0)%nat then Some Over
      else
        prevchild ← key !! pred (length key);
        '(node, stack) ← (if noup then Some (node, stack) else match stack with parent :: stack => Some (parent, stack) | [] => None end);
        let todel := raxStepLenNode node in
        _ ← cassert (todel <=? length key)%nat;
        next_scan (next_loop fuel fl true false) (next_loop fuel fl false false) fl (if noup then 0 else 1) prevchild node (take (length key - todel) key) stack
  end.

(** The iterator at the place found; at the end it is where it was. *)
Definition arrive (it : raxIterator) (o : outcome) : raxIterator :=
  match o with
  | Over => {| it_eof := true; it_just_seeked := it_just_seeked it; it_rt := it_rt it; it_key := it_key it; it_data := it_data it; it_node := it_node it; it_stack := it_stack it; it_leaf := it_leaf it |}
  | Hit key data node stack leaf => {| it_eof := it_eof it; it_just_seeked := it_just_seeked it; it_rt := it_rt it; it_key := key; it_data := data; it_node := Some node; it_stack := stack; it_leaf := leaf |}
  end.

Definition set_just_seeked (it : raxIterator) (b : bool) : raxIterator :=
  {| it_eof := it_eof it; it_just_seeked := b; it_rt := it_rt it; it_key := it_key it; it_data := it_data it; it_node := it_node it; it_stack := it_stack it; it_leaf := it_leaf it |}.

(** Enough for the way up and the way down. *)
Definition steps (it : raxIterator) : nat := S (S (length (it_stack it) + height (r_head (it_rt it)))).

Definition raxIteratorNextStep (it : raxIterator) (noup : bool) : option raxIterator :=
  if it_eof it then Some it
  else if it_just_seeked it then Some (set_just_seeked it false)
  else
    let fl := r_keyFixedLen (it_rt it) in
    node ← it_node it;
    o ← match it_leaf it with
      | Some j =>
          if negb (iscompr node) && (S j <? n_size node)%nat then
            ch ← n_data node !! S j; v ← raxLeafParentReadSlot node (S j);
            Some (Hit (take (length (it_key it) - 1) (it_key it) ++ [ch]) v node (it_stack it) (Some (S j)))
          else next_loop (steps it) fl true true node (it_key it) (it_stack it)
      | None => next_loop (steps it) fl true noup node (it_key it) (it_stack it)
      end;
    Some (arrive it o).

(** ** Backward *)

Fixpoint seek_greatest (fuel fl : nat) (node : raxNode) (key : list Z) (stack : list raxNode) : option outcome :=
  match fuel with
  | O => None
  | S fuel =>
      if (n_size node =? 0)%nat then v ← n_key node; Some (Hit key v node stack None)
      else
        let edge_len := raxStepLenNode node in
        let slot_idx := if iscompr node then 0%nat else pred (n_size node) in
        let edge := take edge_len (drop slot_idx (n_data node)) in
        if raxSlotsAreValues fl (length key + edge_len) then
          v ← raxLeafParentReadSlot node slot_idx; Some (Hit (key ++ edge) v node stack (Some slot_idx))
        else c ← last_child node; seek_greatest fuel fl c (key ++ edge) (node :: stack)
  end.

Definition raxSeekGreatest (it : raxIterator) : option raxIterator :=
  node ← it_node it;
  o ← seek_greatest (S (height node)) (r_keyFixedLen (it_rt it)) node (it_key it) (it_stack it);
  Some (arrive it o).

(** The last child whose byte is smaller. *)
Fixpoint last_smaller (data : list Z) (c : Z) : option nat :=
  match data with
  | [] => None
  | x :: data => match last_smaller data c with Some i => Some (S i) | None => if x <? c then Some 0%nat else None end
  end.

(** The greatest key below the child whose byte comes before [prevchild], the node itself,
    or further up. *)
Definition prev_scan (up : raxNode -> list Z -> list raxNode -> option outcome) (fl : nat) (least : nat) (prevchild : Z) (node : raxNode) (key : list Z) (stack : list raxNode) : option outcome :=
  match (if negb (iscompr node) && (least <? n_size node)%nat then last_smaller (n_data node) prevchild else None) with
  | Some i =>
      ch ← n_data node !! i;
      if raxSlotsAreValues fl (length key + 1) then v ← raxLeafParentReadSlot node i; Some (Hit (key ++ [ch]) v node stack (Some i))
      else slot ← n_children node !! i; c ← as_node slot; seek_greatest (S (height c)) fl c (key ++ [ch]) (node :: stack)
  | None => match n_key node with Some v => Some (Hit key v node stack None) | None => up node key stack end
  end.

Fixpoint prev_loop (fuel fl : nat) (noup : bool) (node : raxNode) (key : list Z) (stack : list raxNode) : option outcome :=
  match fuel with
  | O => None
  | S fuel =>
      if negb noup && (length stack =? 0)%nat then Some Over
      else
        prevchild ← key !! pred (length key);
        '(node, stack) ← (if noup then Some (node, stack) else match stack with parent :: stack => Some (parent, stack) | [] => None end);
        let todel := raxStepLenNode node in
        _ ← cassert (todel <=? length key)%nat;
        prev_scan (prev_loop fuel fl false) fl (if noup then 0 else 1) prevchild node (take (length key - todel) key) stack
  end.

Definition raxIteratorPrevStep (it : raxIterator) (noup : bool) : option raxIterator :=
  if it_eof it then Some it
  else if it_just_seeked it then Some (set_just_seeked it false)
  else
    node ← it_node it;
    let noup := match it_leaf it with Some _ => true | None => noup end in
    o ← prev_loop (steps it) (r_keyFixedLen (it_rt it)) noup node (it_key it) (it_stack it);
    Some (arrive it o).

(** ** Seeking *)

(** The iterator at a place given by the key, the node, its parents and the slot. *)
Definition place (it : raxIterator) (key : list Z) (data : Z) (link : raxNodeLink) (leaf : option nat) : raxIterator :=
  {| it_eof := false; it_just_seeked := false; it_rt := it_rt it; it_key := key; it_data := data; it_node := Some (l_stopnode link); it_stack := (l_path link).*1; it_leaf := leaf |}.

(** [next] and [prev] steps, as the operator says. *)
Definition step_from (lt gt noup : bool) (it : raxIterator) : option raxIterator :=
  it ← (if gt then raxIteratorNextStep it noup else Some it);
  if lt then raxIteratorPrevStep it noup else Some it.

(** The part of [raxSeek] for an element; the flag that the next step stays is set at the end. *)
Definition seek_element (it : raxIterator) (eq lt gt : bool) (ele : list Z) : option raxIterator :=
  '(_, link) ← raxLowWalk (it_rt it) ele;
  let node := l_stopnode link in
  let i := l_consumed link in
  match l_stop link with
  | AtLeafSlot j =>
      v ← raxLeafParentReadSlot node j;
      let it := place it ele v link (Some j) in
      if eq then Some it else step_from lt gt false it
  | AtNode splitpos =>
      if eq && (i =? length ele)%nat && (negb (iscompr node) || (splitpos =? 0)%nat) && iskey node then
        v ← n_key node; Some (place it ele v link None)
      else if lt || gt then
        let key := take (i - splitpos) ele in
        let data := it_data it in
        if negb (i =? length ele)%nat && negb (iscompr node) then
          ch ← ele !! i; step_from lt gt true (place it (key ++ [ch]) data link None)
        else if negb (i =? length ele)%nat then
          nodechar ← n_data node !! splitpos; keychar ← ele !! i;
          it1 ← (if gt then
                   if nodechar >? keychar then raxIteratorNextStep (place it key data link None) false
                   else raxIteratorNextStep (place it (key ++ n_data node) data link None) true
                 else Some (place it key data link None));
          if lt then
            if nodechar <? keychar then raxSeekGreatest (place it key data link None)
            else raxIteratorPrevStep (place it (key ++ n_data node) data link None) true
          else Some it1
        else
          match n_key node with
          | Some v =>
              if iscompr node && negb (splitpos =? 0)%nat && lt then Some (place it key v link None)
              else step_from lt gt false (place it key data link None)
          | None => step_from lt gt false (place it key data link None)
          end
      else Some (arrive (place it [] (it_data it) link None) Over)
  end.

(** The operators: [>], [>=], [<], [<=], [=], [^] and [$]. *)
Record seek_op := { op_eq : bool; op_lt : bool; op_gt : bool; op_first : bool; op_last : bool }.

Definition parse_op (op : list Z) : option seek_op :=
  let second_eq := bool_decide (op !! 1%nat = Some 61) in
  match op with
  | 62 :: _ => Some {| op_eq := second_eq; op_lt := false; op_gt := true; op_first := false; op_last := false |}
  | 60 :: _ => Some {| op_eq := second_eq; op_lt := true; op_gt := false; op_first := false; op_last := false |}
  | 61 :: _ => Some {| op_eq := true; op_lt := false; op_gt := false; op_first := false; op_last := false |}
  | 94 :: _ => Some {| op_eq := false; op_lt := false; op_gt := false; op_first := true; op_last := false |}
  | 36 :: _ => Some {| op_eq := false; op_lt := false; op_gt := false; op_first := false; op_last := true |}
  | _ => None
  end.

(** Returns 0 for an operator that is none. *)
Definition raxSeek (it : raxIterator) (op : list Z) (ele : list Z) : option (bool * raxIterator) :=
  let it := {| it_eof := false; it_just_seeked := true; it_rt := it_rt it; it_key := []; it_data := it_data it; it_node := None; it_stack := []; it_leaf := None |} in
  match parse_op op with
  | None => Some (false, it)
  | Some o =>
      if r_numele (it_rt it) =? 0 then Some (true, arrive it Over)
      else if op_first o then it ← seek_element it true false true []; Some (true, set_just_seeked it true)
      else if op_last o then
        it ← raxSeekGreatest {| it_eof := false; it_just_seeked := true; it_rt := it_rt it; it_key := []; it_data := it_data it; it_node := Some (r_head (it_rt it)); it_stack := []; it_leaf := None |};
        Some (true, it)
      else it ← seek_element it (op_eq o) (op_lt o) (op_gt o) ele; Some (true, set_just_seeked it true)
  end.

Definition raxNext (it : raxIterator) : option (bool * raxIterator) := it ← raxIteratorNextStep it false; Some (negb (it_eof it), it).
Definition raxPrev (it : raxIterator) : option (bool * raxIterator) := it ← raxIteratorPrevStep it false; Some (negb (it_eof it), it).
Definition raxEOF (it : raxIterator) : bool := it_eof it.

Definition raxCompare (it : raxIterator) (op : list Z) (key : list Z) : bool :=
  let second_eq := bool_decide (op !! 1%nat = Some 61) in
  let first c := bool_decide (op !! 0%nat = Some c) in
  let eq := first 61 || second_eq in
  let gt := first 62 in
  let lt := first 60 in
  if negb gt && negb lt && negb second_eq then false
  else
    let minlen := Nat.min (length key) (length (it_key it)) in
    let cmp := lexcmp (take minlen (it_key it)) (take minlen key) in
    if negb lt && negb gt then (cmp =? 0) && (length key =? length (it_key it))%nat
    else if cmp =? 0 then
      if eq && (length key =? length (it_key it))%nat then true
      else if lt then (length (it_key it) <? length key)%nat
      else (length key <? length (it_key it))%nat
    else if cmp >? 0 then gt
    else lt.

(** The loops of the callers: everything from where the iterator is. *)
Fixpoint next_all (fuel : nat) (it : raxIterator) : option (list (list Z * Z)) :=
  match fuel with
  | O => None
  | S fuel => '(more, it) ← raxNext it; if more : bool then rest ← next_all fuel it; Some ((it_key it, it_data it) :: rest) else Some []
  end.

Fixpoint prev_all (fuel : nat) (it : raxIterator) : option (list (list Z * Z)) :=
  match fuel with
  | O => None
  | S fuel => '(more, it) ← raxPrev it; if more : bool then rest ← prev_all fuel it; Some ((it_key it, it_data it) :: rest) else Some []
  end.
