(* ===== verification/RaxIterThms.v ===== *)
(** * Steps of iterators over radix trees

    Where an iterator stands cuts the keys of the tree in those before and those after;
    a step moves it by one. *)

From stdpp Require Import base list gmap numbers option tactics sorting.
From S2P Require Import Prelude Order Rax RaxSpec RaxInsert RaxRemove RaxIter.

(** ** Places *)

(** [p] leads from [head] to [n]. *)
Fixpoint linked (p : path) (n head : raxNode) : Prop :=
  match p with [] => n = head | (parent, j) :: p => n_children parent !! j = Some (Sub n) /\ linked p parent head end.

Lemma linked_wf fl p n head : wf fl 0 head -> linked p n head -> wf_path fl p /\ wf fl (length (path_key p)) n /\ (p <> [] -> used n).
Proof.
  intros Hh. revert n. induction p as [|[parent j] p IH]; intros n Hl; cbn [linked] in Hl; [by subst|]. destruct Hl as [Hc Hl]. destruct (IH _ Hl) as (Hp & Hw & _). pose proof (child_label _ _ _ _ _ Hw Hc) as Hlab. pose proof (label_step _ _ _ _ _ Hw Hlab) as [Hst _].
  pose proof Hw as Hw'. apply wf_eq in Hw' as (_ & _ & _ & Hs). pose proof (Forall_lookup_1 _ _ _ _ Hs Hc) as (Hd & Hu & Hn). assert (Hk : length (path_key ((parent, j) :: p)) = (length (path_key p) + raxStepLenNode parent)%nat) by (cbn [path_key]; rewrite length_app; lia).
  rewrite Hk. split_and!; [|done|done]. cbn [wf_path]. rewrite Hk. split_and!; try done. by eapply lookup_lt_Some.
Qed.

Lemma low_walk_linked fuel fl head : forall h p i s link, low_walk fuel fl h p i s = Some link -> linked p h head -> linked (l_path link) (l_stopnode link) head.
Proof.
  induction fuel as [|fuel IH]; intros h p i s link E Hl; [done|]. cbn [low_walk] in E. destruct s as [|c s]; [by simplify_eq|]. destruct (n_size h =? 0)%nat; [by simplify_eq|].
  assert (Hd : forall j i s', (if raxSlotsAreValues fl i then Some {| l_stopnode := h; l_path := p; l_consumed := i; l_stop := AtLeafSlot j |} else slot ← n_children h !! j; h' ← as_node slot; low_walk fuel fl h' ((h, j) :: p) i s') = Some link -> linked (l_path link) (l_stopnode link) head).
  { intros j i' s' E'. destruct (raxSlotsAreValues fl i'); [by simplify_eq|]. apply bind_Some in E' as (slot & Hs & E'). apply bind_Some in E' as (h' & Hn & E'). destruct slot as [n|]; [|done]. injection Hn as ->. eapply IH; [exact E'|]. done. }
  destruct (iscompr h); [destruct (negb _); [by simplify_eq|by eapply Hd]|]. destruct (find_child _ _); [by eapply Hd|by simplify_eq].
Qed.

(** The keys of a node from its child [j] on, and before it. *)
Definition from_child (n : raxNode) (j : nat) : list (list Z * Z) := edges_contents (drop j (labels n)) (drop j (n_children n)).
Definition to_child (n : raxNode) (j : nat) : list (list Z * Z) := key_part (n_key n) ++ edges_contents (take j (labels n)) (take j (n_children n)).

Fixpoint rest_up (p : path) : list (list Z * Z) :=
  match p with [] => [] | (parent, j) :: p => under (path_key p) (from_child parent (S j)) ++ rest_up p end.
Fixpoint before_up (p : path) : list (list Z * Z) :=
  match p with [] => [] | (parent, j) :: p => before_up p ++ under (path_key p) (to_child parent j) end.

Lemma under_cat l a b : under l (a ++ b) = under l a ++ under l b.
Proof. apply fmap_app. Qed.

Lemma to_from n j fl d : wf fl d n -> contents n = to_child n j ++ from_child n j.
Proof.
  intros Hw. rewrite contents_eq. unfold to_child, from_child. rewrite <- (assoc_L (++)). f_equal. rewrite <- edges_contents_app by (rewrite !length_take, (labels_length _ _ _ Hw); done). by rewrite !take_drop.
Qed.

Lemma to_child_step n j l s fl d : wf fl d n -> labels n !! j = Some l -> n_children n !! j = Some s -> to_child n (S j) = to_child n j ++ under l (slot_contents s).
Proof.
  intros Hw Hl Hs. unfold to_child. rewrite <- (assoc_L (++)). f_equal. rewrite (take_S_r _ _ _ Hl), (take_S_r _ _ _ Hs), edges_contents_app by (rewrite !length_take, (labels_length _ _ _ Hw); done). f_equal. cbn. by rewrite app_nil_r.
Qed.

Lemma from_child_step n j l s : labels n !! j = Some l -> n_children n !! j = Some s -> from_child n j = under l (slot_contents s) ++ from_child n (S j).
Proof. intros Hl Hs. unfold from_child. by rewrite (drop_S _ _ _ Hl), (drop_S _ _ _ Hs). Qed.

Lemma from_child_end n j : (length (n_children n) <= j)%nat -> from_child n j = [].
Proof. intros H. unfold from_child. rewrite (drop_ge (n_children n)) by done. done. Qed.

(** The keys before a node, its own and those after make up the tree. *)
Lemma contents_split fl p n head : wf fl 0 head -> linked p n head -> contents head = before_up p ++ under (path_key p) (contents n) ++ rest_up p.
Proof.
  intros Hh. revert n. induction p as [|[parent j] p IH]; intros n Hl; cbn [linked before_up rest_up path_key] in *.
  - subst. rewrite app_nil_r. by rewrite under_nil.
  - destruct Hl as [Hc Hl]. destruct (linked_wf _ _ _ _ Hh Hl) as (_ & Hw & _). pose proof (child_label _ _ _ _ _ Hw Hc) as Hlab. rewrite (IH _ Hl), (to_from parent j _ _ Hw), (from_child_step _ _ _ _ Hlab Hc). cbn [slot_contents]. rewrite !under_cat, <- under_app, <- !(assoc_L (++)). done.
Qed.

(** ** Outcomes *)

(** The found key, with the keys before it and after it. *)
Definition hit_at (head : raxNode) (o : outcome) (before : list (list Z * Z)) (x : list Z * Z) (after : list (list Z * Z)) : Prop :=
  match o with
  | Over => False
  | Hit key v node stack leaf => x = (key, v) /\ exists p, linked p node head /\ stack = p.*1 /\
      match leaf with
      | None => key = path_key p /\ n_key node = Some v /\ before = before_up p /\ after = under (path_key p) (from_child node 0) ++ rest_up p
      | Some j => exists l, labels node !! j = Some l /\ n_children node !! j = Some (Val v) /\ key = path_key p ++ l /\ before = before_up p ++ under (path_key p) (to_child node j) /\ after = under (path_key p) (from_child node (S j)) ++ rest_up p
      end
  end.

Definition first_of (head : raxNode) (o : option outcome) (before after : list (list Z * Z)) : Prop :=
  match after with [] => o = Some Over | x :: after => exists hit, o = Some hit /\ hit_at head hit before x after end.

Definition last_of (head : raxNode) (o : option outcome) (before after : list (list Z * Z)) : Prop :=
  before = [] /\ o = Some Over \/ exists before' x hit, before = before' ++ [x] /\ o = Some hit /\ hit_at head hit before' x after.

(** ** Steps forward *)

Section Steps.
Context (fl : nat) (head : raxNode) (Hh : wf fl 0 head).

Lemma used_children d n : wf fl d n -> used n -> n_key n = None -> n_children n <> [].
Proof using.
  intros Hw [Hu|Hu] Hk; [done|]. apply wf_eq in Hw as (_ & _ & H & _). unfold shape in H. intros E. rewrite E in H. destruct (iscompr n); [by destruct H as (_ & _ & H)|]. destruct H as [H _]. cbn in H. destruct (n_data n); [done|cbn in H; lia].
Qed.

Lemma contents_no_key n : n_key n = None -> contents n = from_child n 0.
Proof using. intros Hk. by rewrite contents_eq, Hk. Qed.

Lemma to_child_0 n : to_child n 0 = key_part (n_key n).
Proof using. unfold to_child. by rewrite app_nil_r. Qed.

Lemma from_child_0 n : key_part (n_key n) ++ from_child n 0 = contents n.
Proof using. by rewrite contents_eq. Qed.

Lemma enter_spec deeper p node i l s : linked p node head -> labels node !! i = Some l -> n_children node !! i = Some s ->
  (forall c, s = Sub c -> n_key c = None -> first_of head (deeper c (path_key p ++ l) (node :: p.*1)) (before_up ((node, i) :: p)) (under (path_key p ++ l) (contents c) ++ rest_up ((node, i) :: p))) ->
  first_of head (next_enter deeper fl node (path_key p) (p.*1) i l) (before_up p ++ under (path_key p) (to_child node i)) (under (path_key p) (from_child node i) ++ rest_up p).
Proof using Hh.
  intros Hl Hlab Hs Hdeep. destruct (linked_wf _ _ _ _ Hh Hl) as (Hp & Hw & _). rewrite (from_child_step _ _ _ _ Hlab Hs), under_cat, <- (assoc_L (++)). unfold next_enter. destruct (walk_down _ _ _ _ _ Hp Hw Hlab) as [[Hv [v Hc]]|[Hv (c & Hc & Hp' & Hwc & Huc & Hk)]]; rewrite Hv; rewrite Hs in Hc; injection Hc as ->.
  - unfold raxLeafParentReadSlot. rewrite Hs. cbn [mbind option_bind slot_contents]. eexists. split; [done|]. cbn [hit_at fst snd]. rewrite app_nil_r. split; [done|]. exists p. split_and!; try done. by exists l.
  - rewrite Hs. cbn [mbind option_bind as_node slot_contents]. specialize (Hdeep c eq_refl). destruct (n_key c) as [v|] eqn:Hkc.
    + rewrite <- from_child_0, Hkc. cbn [key_part app]. eexists. split; [done|]. cbn [hit_at fst snd]. rewrite app_nil_r. split; [done|]. exists ((node, i) :: p). split_and!; try done. cbn [rest_up]. rewrite Hk, under_app. done.
    + specialize (Hdeep eq_refl). rewrite under_app in Hdeep. exact Hdeep.
Qed.

Lemma first_label d n : wf fl d n -> n_children n <> [] -> exists s, labels n !! 0%nat = Some (take (raxStepLenNode n) (n_data n)) /\ n_children n !! 0%nat = Some s.
Proof using.
  intros Hw Hc. destruct (n_children n) as [|s ss] eqn:E; [done|]. exists s. split; [|done]. apply wf_eq in Hw as (_ & _ & H & _). unfold shape, labels, raxStepLenNode, n_size in *. rewrite E in H. destruct (iscompr n); cbn [edge_labels]; [by rewrite take_ge by done|]. destruct H as [H _]. by destruct (n_data n).
Qed.

Lemma numchildren d n : wf fl d n -> n_children n <> [] -> ((if iscompr n then 1 else n_size n) =? 0)%nat = false.
Proof using.
  intros Hw Hc. apply wf_eq in Hw as (_ & _ & H & _). unfold shape, n_size in *. destruct (iscompr n); [done|]. destruct H as [H _]. apply Nat.eqb_neq. destruct (n_children n); [done|]. cbn in H. lia.
Qed.

Lemma deep_spec fuel : forall p node, linked p node head -> n_children node <> [] -> (height node < fuel)%nat ->
  first_of head (next_loop fuel fl true false node (path_key p) (p.*1)) (before_up p ++ under (path_key p) (key_part (n_key node))) (under (path_key p) (from_child node 0) ++ rest_up p).
Proof using Hh.
  induction fuel as [|fuel IH]; intros p node Hl Hc Hf; [lia|]. destruct (linked_wf _ _ _ _ Hh Hl) as (Hp & Hw & _). cbn [next_loop andb negb]. rewrite (numchildren _ _ Hw Hc). cbn [andb negb]. destruct (first_label _ _ Hw Hc) as (s & Hlab & Hs). rewrite <- to_child_0. eapply enter_spec; [done|exact Hlab|exact Hs|]. intros c -> Hk.
  assert (Hlc : linked ((node, 0%nat) :: p) c head) by done. destruct (linked_wf _ _ _ _ Hh Hlc) as (_ & Hwc & Huc). assert (Hpk : path_key ((node, 0%nat) :: p) = path_key p ++ take (raxStepLenNode node) (n_data node)) by (cbn; by rewrite (label_at_eq _ _ _ Hlab)).
  specialize (IH ((node, 0%nat) :: p) c Hlc (used_children _ _ Hwc (Huc ltac:(done)) Hk)). rewrite Hpk, Hk, app_nil_r, <- (contents_no_key _ Hk) in IH. apply IH. apply Nat.lt_le_trans with (height node); [|lia]. apply height_child. by eapply list_elem_of_lookup_2.
Qed.

Lemma deep_child fuel p node i l c : linked p node head -> labels node !! i = Some l -> n_children node !! i = Some (Sub c) -> n_key c = None -> (height node <= fuel)%nat ->
  first_of head (next_loop fuel fl true false c (path_key p ++ l) (node :: p.*1)) (before_up ((node, i) :: p)) (under (path_key p ++ l) (contents c) ++ rest_up ((node, i) :: p)).
Proof using Hh.
  intros Hl Hlab Hs Hk Hf. assert (Hlc : linked ((node, i) :: p) c head) by done. destruct (linked_wf _ _ _ _ Hh Hlc) as (_ & Hwc & Huc). assert (Hpk : path_key ((node, i) :: p) = path_key p ++ l) by (cbn; by rewrite (label_at_eq _ _ _ Hlab)).
  pose proof (deep_spec fuel ((node, i) :: p) c Hlc (used_children _ _ Hwc (Huc ltac:(done)) Hk)) as D. rewrite Hpk, Hk, app_nil_r, <- (contents_no_key _ Hk) in D. apply D. apply Nat.lt_le_trans with (height node); [|lia]. apply height_child. by eapply list_elem_of_lookup_2.
Qed.

Lemma linked_height p n : linked p n head -> (height n + length p <= height head)%nat.
Proof using. revert n. induction p as [|[parent j] p IH]; intros n Hl; cbn [linked length] in *; [subst; lia|]. destruct Hl as [Hc Hl]. specialize (IH _ Hl). pose proof (height_child parent n ltac:(by eapply list_elem_of_lookup_2)). lia. Qed.

(** The place among the children after [prevchild]. *)
Definition next_place (n : raxNode) (prevchild : Z) : nat := if iscompr n then 1 else first_larger (n_data n) prevchild.

Lemma next_place_le d n c : wf fl d n -> (next_place n c <= length (n_children n))%nat.
Proof using. intros Hw. apply wf_eq in Hw as (_ & _ & H & _). unfold next_place, shape in *. destruct (iscompr n); [lia|]. pose proof (first_larger_le (n_data n) c). lia. Qed.

Lemma plain_label d n i c : wf fl d n -> iscompr n = false -> n_data n !! i = Some c -> labels n !! i = Some [c].
Proof using. intros _ Hc Hi. unfold labels. rewrite Hc. cbn [edge_labels]. by rewrite list_lookup_fmap, Hi. Qed.

Lemma scan_spec fuel least prevchild p node : linked p node head -> (height node <= fuel)%nat -> (n_size node <= least -> iscompr node = false -> first_larger (n_data node) prevchild = n_size node)%nat ->
  first_of head (next_loop fuel fl false false node (path_key p) (p.*1)) (before_up p ++ under (path_key p) (contents node)) (rest_up p) ->
  first_of head (next_scan (next_loop fuel fl true false) (next_loop fuel fl false false) fl least prevchild node (path_key p) (p.*1))
    (before_up p ++ under (path_key p) (to_child node (next_place node prevchild))) (under (path_key p) (from_child node (next_place node prevchild)) ++ rest_up p).
Proof using Hh.
  intros Hl Hf Hleast Hup. destruct (linked_wf _ _ _ _ Hh Hl) as (Hp & Hw & _). pose proof (wf_eq fl (length (path_key p)) node) as [Hw' _]. specialize (Hw' Hw). destruct Hw' as (_ & _ & Hsh & _). unfold shape in Hsh.
  assert (Hend : next_place node prevchild = length (n_children node) -> first_of head (next_loop fuel fl false false node (path_key p) (p.*1)) (before_up p ++ under (path_key p) (to_child node (next_place node prevchild))) (under (path_key p) (from_child node (next_place node prevchild)) ++ rest_up p)).
  { intros E. pose proof (to_from node (next_place node prevchild) _ _ Hw) as T. rewrite from_child_end, app_nil_r in * by lia. by rewrite <- T. }
  unfold next_scan. unfold next_place in *. destruct (iscompr node) eqn:Hc; cbn [negb andb]; [apply Hend; by destruct Hsh as (_ & _ & ->)|]. destruct Hsh as [Hlen Hso]. destruct (Nat.ltb_spec least (n_size node)) as [Hlt|Hge]; [|apply Hend; rewrite Hleast by done; done].
  destruct (Nat.ltb_spec (first_larger (n_data node) prevchild) (n_size node)) as [Hi|Hi]; [|apply Hend; pose proof (first_larger_le (n_data node) prevchild); unfold n_size in *; lia]. unfold n_size in Hi. destruct (lookup_lt_is_Some_2 _ _ Hi) as [ch Hch]. rewrite Hch. cbn [mbind option_bind].
  rewrite <- Hlen in Hi. destruct (lookup_lt_is_Some_2 _ _ Hi) as [s Hs]. pose proof (plain_label _ _ _ _ Hw Hc Hch) as Hlab. eapply enter_spec; [done|exact Hlab|exact Hs|]. intros c -> Hk. by apply deep_child.
Qed.

Lemma last_byte (k l : list Z) : l <> [] -> exists b, l !! pred (length l) = Some b /\ (k ++ l) !! pred (length (k ++ l)) = Some b.
Proof using.
  intros Hl. assert (Hlen : (pred (length l) < length l)%nat) by (destruct l; [done|cbn; lia]). destruct (lookup_lt_is_Some_2 _ _ Hlen) as [b Hb]. exists b. split; [done|]. rewrite lookup_app_r by (rewrite length_app; lia). rewrite <- Hb. f_equal. rewrite length_app. lia.
Qed.

Lemma first_larger_at (data : list Z) j c : StronglySorted Z.lt data -> data !! j = Some c -> first_larger data c = S j.
Proof using.
  revert j. induction data as [|x data IH]; intros j Hs Hj; [done|]. apply StronglySorted_cons in Hs as [Hx Hs]. cbn [first_larger]. destruct j as [|j]; cbn in Hj.
  - simplify_eq. destruct (Z.gtb_spec c c); [lia|]. f_equal. destruct data as [|y data]; [done|]. cbn. apply list.Forall_cons in Hx as [Hx _]. destruct (Z.gtb_spec y c); [done|lia].
  - eapply Forall_lookup_1 in Hx; [|exact Hj]. destruct (Z.gtb_spec x c); [lia|]. by rewrite (IH _ Hs Hj).
Qed.

(** The place after the child the path goes through is the one after it. *)
Lemma next_place_child d parent j l b : wf fl d parent -> labels parent !! j = Some l -> l !! pred (length l) = Some b -> next_place parent b = S j /\ (n_size parent <= 1 -> iscompr parent = false -> first_larger (n_data parent) b = n_size parent)%nat.
Proof using.
  intros Hw Hlab Hb. apply wf_eq in Hw as (_ & _ & H & _). unfold next_place, shape, labels in *. destruct (iscompr parent); cbn [edge_labels] in Hlab.
  - split; [|done]. by destruct j.
  - destruct H as [Hlen Hso]. apply list_lookup_fmap_Some in Hlab as (c & -> & Hc'). cbn in Hb. simplify_eq. rewrite (first_larger_at _ _ _ Hso Hc'). apply lookup_lt_Some in Hc'. split; [done|]. intros Hs _. unfold n_size in *. lia.
Qed.

Lemma up_spec fuel : forall p n, linked p n head -> (length p + height head < fuel)%nat -> first_of head (next_loop fuel fl false false n (path_key p) (p.*1)) (before_up p ++ under (path_key p) (contents n)) (rest_up p).
Proof using Hh.
  induction fuel as [|fuel IH]; intros p n Hl Hf; [lia|]. cbn [next_loop andb negb]. destruct p as [|[parent j] p]; [done|]. cbn [fmap list_fmap length Nat.eqb fst]. pose proof Hl as [Hc Hl']. destruct (linked_wf _ _ _ _ Hh Hl') as (_ & Hw & _). pose proof (child_label _ _ _ _ _ Hw Hc) as Hlab. destruct (label_step _ _ _ _ _ Hw Hlab) as [Hst Hne].
  cbn [path_key]. destruct (last_byte (path_key p) _ Hne) as (b & Hb & Hb'). rewrite Hb'. cbn [mbind option_bind]. rewrite length_app, Hst. assert ((raxStepLenNode parent <=? length (path_key p) + raxStepLenNode parent)%nat = true) as -> by (apply Nat.leb_le; lia). cbn [cassert mbind option_bind]. rewrite Nat.add_sub, take_app_length.
  destruct (next_place_child _ _ _ _ _ Hw Hlab Hb) as [Hnp Hleast]. pose proof (linked_height _ _ Hl') as Hht. pose proof (scan_spec fuel 1 b p parent Hl' ltac:(cbn in Hf; lia) Hleast (IH _ _ Hl' ltac:(cbn in Hf; lia))) as S. rewrite Hnp, (to_child_step _ _ _ _ _ _ Hw Hlab Hc) in S. cbn [before_up rest_up slot_contents] in *. rewrite under_cat, <- under_app, (assoc_L (++)) in S. exact S.
Qed.

(** From within a node: after the child with the byte [b], or any byte. *)
Lemma noup_spec fuel deeper p node e b : linked p node head -> (length p + height head < fuel)%nat -> length e = raxStepLenNode node -> (path_key p ++ e) !! pred (length (path_key p ++ e)) = Some b ->
  first_of head (next_loop (S fuel) fl deeper true node (path_key p ++ e) (p.*1)) (before_up p ++ under (path_key p) (to_child node (next_place node b))) (under (path_key p) (from_child node (next_place node b)) ++ rest_up p).
Proof using Hh.
  intros Hl Hf He Hb. cbn [next_loop]. rewrite andb_false_r. cbn [andb negb]. rewrite Hb. cbn [mbind option_bind]. rewrite length_app, He. assert ((raxStepLenNode node <=? length (path_key p) + raxStepLenNode node)%nat = true) as -> by (apply Nat.leb_le; lia). cbn [cassert mbind option_bind]. rewrite Nat.add_sub, take_app_length.
  pose proof (linked_height _ _ Hl) as Hht. apply scan_spec; [done|lia| |by apply up_spec]. intros Hs _. unfold n_size in *. by destruct (n_data node); [|cbn in Hs; lia].
Qed.

(** ** Steps backward *)

Lemma last_edge d n : wf fl d n -> n_size n <> 0%nat -> let m := if iscompr n then 0%nat else pred (n_size n) in
  exists s, labels n !! m = Some (take (raxStepLenNode n) (drop m (n_data n))) /\ n_children n !! m = Some s /\ m = pred (length (n_children n)) /\ length (n_children n) = S m.
Proof using.
  intros Hw Hn m. apply wf_eq in Hw as (_ & _ & H & _). unfold m, shape, labels, raxStepLenNode, n_size in *. clear m. destruct (iscompr n); cbn [edge_labels].
  - destruct H as (_ & _ & H). destruct (n_children n) as [|s [|]]; [done| |done]. exists s. rewrite drop_0, take_ge by done. done.
  - destruct H as [Hlen _]. assert (Hm : (pred (length (n_data n)) < length (n_data n))%nat) by lia. destruct (lookup_lt_is_Some_2 _ _ Hm) as [c Hc]. rewrite list_lookup_fmap, Hc. rewrite (drop_S _ _ _ Hc). rewrite <- Hlen in Hm. destruct (lookup_lt_is_Some_2 _ _ Hm) as [s Hs]. exists s. rewrite Hlen in *. split_and!; [done|done|done|lia].
Qed.

Lemma greatest_spec fuel : forall p node, linked p node head -> used node -> (height node < fuel)%nat ->
  last_of head (seek_greatest fuel fl node (path_key p) (p.*1)) (before_up p ++ under (path_key p) (contents node)) (rest_up p).
Proof using Hh.
  induction fuel as [|fuel IH]; intros p node Hl Hu Hf; [lia|]. destruct (linked_wf _ _ _ _ Hh Hl) as (Hp & Hw & _). cbn [seek_greatest]. destruct (Nat.eqb_spec (n_size node) 0) as [Hz|Hz].
  - assert (Hd : n_data node = []) by (by apply length_zero_iff_nil). destruct Hu as [Hu|Hu]; [|done]. destruct (n_key node) as [v|] eqn:Hk; [|done]. cbn [mbind option_bind]. assert (Hc : n_children node = []). { apply wf_eq in Hw as (_ & _ & H & _). unfold shape in H. rewrite Hd in H. destruct (iscompr node); [cbn in H; lia|]. destruct H as [H _]. by destruct (n_children node). }
    rewrite <- from_child_0, Hk, from_child_end by (rewrite Hc; done). right. exists (before_up p), (path_key p, v). eexists. split_and!; [cbn; by rewrite app_nil_r|done|]. split; [done|]. exists p. split_and!; try done. by rewrite from_child_end by (rewrite Hc; done).
  - destruct (last_edge _ _ Hw Hz) as (s & Hlab & Hs & Hm & Hlen). set (m := if iscompr node then 0%nat else pred (n_size node)) in *. set (l := take (raxStepLenNode node) (drop m (n_data node))) in *. destruct (label_step _ _ _ _ _ Hw Hlab) as [Hst _]. rewrite (to_from node (S m) _ _ Hw), (to_child_step _ _ _ _ _ _ Hw Hlab Hs).
    assert (Hend : from_child node (S m) = []) by (apply from_child_end; lia). rewrite Hend, app_nil_r, under_cat, (assoc_L (++)). rewrite <- Hst. destruct (walk_down _ _ _ _ _ Hp Hw Hlab) as [[Hv [v Hc]]|[Hv (c & Hc & Hp' & Hwc & Huc & Hk)]]; rewrite Hv; rewrite Hs in Hc; injection Hc as ->.
    + unfold raxLeafParentReadSlot. rewrite Hs. cbn [mbind option_bind slot_contents]. right. eexists _, _, _. split_and!; [done|done|]. cbn. rewrite app_nil_r. split; [done|]. exists p. split_and!; try done. exists l. rewrite Hend. split_and!; try done.
    + unfold last_child. rewrite <- Hm, Hs. cbn [mbind option_bind as_node slot_contents]. specialize (IH ((node, m) :: p) c ltac:(done) Huc). rewrite Hk in IH. cbn [before_up rest_up] in IH. rewrite Hend, under_app in IH. apply IH. apply Nat.lt_le_trans with (height node); [|lia]. apply height_child. by eapply list_elem_of_lookup_2.
Qed.

(** At a node: its children come next, then the way up. *)
Lemma down_spec fuel p node : linked p node head -> (length p + height head < fuel)%nat ->
  first_of head (next_loop fuel fl true false node (path_key p) (p.*1)) (before_up p ++ under (path_key p) (key_part (n_key node))) (under (path_key p) (from_child node 0) ++ rest_up p).
Proof using Hh.
  intros Hl Hf. pose proof (linked_height _ _ Hl). destruct (decide (n_children node = [])) as [Hc|Hc]; [|apply deep_spec; (done || lia)]. destruct (linked_wf _ _ _ _ Hh Hl) as (_ & Hw & _). assert (Hn : ((if iscompr node then 1 else n_size node) =? 0)%nat = true).
  { apply wf_eq in Hw as (_ & _ & H0 & _). unfold shape, n_size in *. rewrite Hc in H0. destruct (iscompr node); [by destruct H0 as (_ & _ & H0)|]. destruct H0 as [H0 _]. by rewrite <- H0. }
  pose proof (up_spec fuel p node Hl Hf) as U. rewrite <- from_child_0, (from_child_end node 0), app_nil_r in U by (rewrite Hc; done). rewrite from_child_end by (rewrite Hc; done). destruct fuel as [|fuel]; [lia|]. cbn [next_loop] in *. rewrite Hn. exact U.
Qed.

(** The place among the children before [prevchild]. *)
Definition prev_place (n : raxNode) (prevchild : Z) : nat := if iscompr n then 0 else match last_smaller (n_data n) prevchild with Some i => S i | None => 0 end.

Lemma last_smaller_lt data c i : last_smaller data c = Some i -> (i < length data)%nat.
Proof using. revert i. induction data as [|x data IH]; intros i E; cbn in *; [done|]. destruct (last_smaller data c) as [i'|]; [simplify_eq; specialize (IH _ eq_refl); lia|]. destruct (x <? c); simplify_eq. lia. Qed.

Lemma prev_scan_spec up least prevchild p node : linked p node head -> (n_size node <= least -> iscompr node = false -> last_smaller (n_data node) prevchild = None)%nat ->
  (n_key node = None -> last_of head (up node (path_key p) (p.*1)) (before_up p) (under (path_key p) (contents node) ++ rest_up p)) ->
  last_of head (prev_scan up fl least prevchild node (path_key p) (p.*1)) (before_up p ++ under (path_key p) (to_child node (prev_place node prevchild))) (under (path_key p) (from_child node (prev_place node prevchild)) ++ rest_up p).
Proof using Hh.
  intros Hl Hleast Hup. destruct (linked_wf _ _ _ _ Hh Hl) as (Hp & Hw & _). pose proof (wf_eq fl (length (path_key p)) node) as [Hw' _]. specialize (Hw' Hw). destruct Hw' as (_ & _ & Hsh & _). unfold shape in Hsh.
  assert (Hself : prev_place node prevchild = 0%nat -> last_of head (match n_key node with Some v => Some (Hit (path_key p) v node (p.*1) None) | None => up node (path_key p) (p.*1) end) (before_up p ++ under (path_key p) (to_child node (prev_place node prevchild))) (under (path_key p) (from_child node (prev_place node prevchild)) ++ rest_up p)).
  { intros ->. rewrite to_child_0. destruct (n_key node) as [v|] eqn:Hk.
    - right. exists (before_up p), (path_key p, v). eexists. split_and!; [cbn; by rewrite app_nil_r|done|]. split; [done|]. by exists p.
    - rewrite app_nil_r. rewrite <- contents_no_key by done. by apply Hup. }
  unfold prev_scan. unfold prev_place in *. destruct (iscompr node) eqn:Hc; cbn [negb andb]; [by apply Hself|]. destruct Hsh as [Hlen Hso].
  destruct (Nat.ltb_spec least (n_size node)) as [Hlt|Hge]; [|rewrite (Hleast Hge eq_refl) in *; by apply Hself]. destruct (last_smaller (n_data node) prevchild) as [i|] eqn:Hi; [|by apply Hself].
  apply last_smaller_lt in Hi. destruct (lookup_lt_is_Some_2 _ _ Hi) as [ch Hch]. rewrite Hch. cbn [mbind option_bind]. rewrite <- Hlen in Hi. destruct (lookup_lt_is_Some_2 _ _ Hi) as [s Hs]. pose proof (plain_label _ _ _ _ Hw Hc Hch) as Hlab.
  rewrite (to_child_step _ _ _ _ _ _ Hw Hlab Hs), under_cat, (assoc_L (++)). change 1%nat with (length [ch]). destruct (walk_down _ _ _ _ _ Hp Hw Hlab) as [[Hv [v Hcc]]|[Hv (c & Hcc & Hp' & Hwc & Huc & Hk)]]; rewrite Hv; rewrite Hs in Hcc; injection Hcc as ->.
  - unfold raxLeafParentReadSlot. rewrite Hs. cbn [mbind option_bind slot_contents]. right. eexists _, _, _. split_and!; [done|done|]. cbn. split; [done|]. exists p. split_and!; try done. by exists [ch].
  - rewrite Hs. cbn [mbind option_bind as_node slot_contents]. pose proof (greatest_spec (S (height c)) ((node, i) :: p) c ltac:(done) Huc ltac:(lia)) as G. rewrite Hk in G. cbn [before_up rest_up] in G. by rewrite under_app in G.
Qed.

Lemma last_smaller_at (data : list Z) j c : StronglySorted Z.lt data -> data !! j = Some c -> match last_smaller data c with Some i => S i | None => 0%nat end = j.
Proof using.
  revert j. induction data as [|x data IH]; intros j Hs Hj; [done|]. apply StronglySorted_cons in Hs as [Hx Hs]. cbn [last_smaller]. destruct j as [|j]; cbn in Hj.
  - simplify_eq. assert (last_smaller data c = None) as ->; [|by rewrite Z.ltb_irrefl]. clear IH Hs. induction Hx as [|y data Hy _ IH]; [done|]. cbn. rewrite IH. destruct (Z.ltb_spec y c); [lia|done].
  - eapply Forall_lookup_1 in Hx; [|exact Hj]. specialize (IH _ Hs Hj). destruct (last_smaller data c); [lia|]. subst j. destruct (Z.ltb_spec x c); [done|lia].
Qed.

Lemma prev_place_child d parent j l b : wf fl d parent -> labels parent !! j = Some l -> l !! pred (length l) = Some b -> prev_place parent b = j /\ (n_size parent <= 1 -> iscompr parent = false -> last_smaller (n_data parent) b = None)%nat.
Proof using.
  intros Hw Hlab Hb. apply wf_eq in Hw as (_ & _ & H & _). unfold prev_place, shape, labels in *. destruct (iscompr parent); cbn [edge_labels] in Hlab.
  - split; [|done]. by destruct j.
  - destruct H as [Hlen Hso]. apply list_lookup_fmap_Some in Hlab as (c & -> & Hc'). cbn in Hb. simplify_eq. pose proof (last_smaller_at _ _ _ Hso Hc') as Hls. apply lookup_lt_Some in Hc'. split; [done|]. intros Hs _. unfold n_size in *. destruct (last_smaller (n_data parent) b); [lia|done].
Qed.

Lemma prev_up_spec fuel : forall p n, linked p n head -> (length p < fuel)%nat -> last_of head (prev_loop fuel fl false n (path_key p) (p.*1)) (before_up p) (under (path_key p) (contents n) ++ rest_up p).
Proof using Hh.
  induction fuel as [|fuel IH]; intros p n Hl Hf; [lia|]. cbn [prev_loop andb negb]. destruct p as [|[parent j] p]; [by left|]. cbn [fmap list_fmap length Nat.eqb fst]. pose proof Hl as [Hc Hl']. destruct (linked_wf _ _ _ _ Hh Hl') as (_ & Hw & _). pose proof (child_label _ _ _ _ _ Hw Hc) as Hlab. destruct (label_step _ _ _ _ _ Hw Hlab) as [Hst Hne].
  cbn [path_key]. destruct (last_byte (path_key p) _ Hne) as (b & Hb & Hb'). rewrite Hb'. cbn [mbind option_bind]. rewrite length_app, Hst. assert ((raxStepLenNode parent <=? length (path_key p) + raxStepLenNode parent)%nat = true) as -> by (apply Nat.leb_le; lia). cbn [cassert mbind option_bind]. rewrite Nat.add_sub, take_app_length.
  destruct (prev_place_child _ _ _ _ _ Hw Hlab Hb) as [Hnp Hleast]. pose proof (prev_scan_spec (prev_loop fuel fl false) 1 b p parent Hl' Hleast (fun _ => IH _ _ Hl' ltac:(cbn in Hf; lia))) as S. rewrite Hnp, (from_child_step _ _ _ _ Hlab Hc), under_cat, <- (assoc_L (++)) in S. cbn [before_up rest_up slot_contents] in *. rewrite under_app. exact S.
Qed.

Lemma prev_noup_spec fuel p node e b : linked p node head -> (length p < fuel)%nat -> length e = raxStepLenNode node -> (path_key p ++ e) !! pred (length (path_key p ++ e)) = Some b ->
  last_of head (prev_loop (S fuel) fl true node (path_key p ++ e) (p.*1)) (before_up p ++ under (path_key p) (to_child node (prev_place node b))) (under (path_key p) (from_child node (prev_place node b)) ++ rest_up p).
Proof using Hh.
  intros Hl Hf He Hb. cbn [prev_loop andb negb]. rewrite Hb. cbn [mbind option_bind]. rewrite length_app, He. assert ((raxStepLenNode node <=? length (path_key p) + raxStepLenNode node)%nat = true) as -> by (apply Nat.leb_le; lia). cbn [cassert mbind option_bind]. rewrite Nat.add_sub, take_app_length.
  apply prev_scan_spec; [done| |intros _; by apply prev_up_spec]. intros Hs _. unfold n_size in *. by destruct (n_data node); [|cbn in Hs; lia].
Qed.
End Steps.

(** * Iteration over radix trees *)

(** ** Steps *)

Section Outcomes.
Context (fl : nat) (head : raxNode) (Hh : wf fl 0 head).

Lemma hit_split hit before x after : hit_at head hit before x after -> contents head = before ++ x :: after.
Proof using Hh.
  destruct hit as [key v node stack leaf|]; [|done]. intros (-> & p & Hl & _ & H). rewrite (contents_split _ _ _ _ Hh Hl). destruct (linked_wf _ _ _ _ Hh Hl) as (_ & Hw & _). destruct leaf as [j|].
  - destruct H as (l & Hlab & Hs & -> & -> & ->). rewrite (to_from node (S j) _ _ Hw), (to_child_step _ _ _ _ _ _ Hw Hlab Hs), !under_cat. cbn. by rewrite app_nil_r, <- !(assoc_L (++)).
  - destruct H as (-> & Hk & -> & ->). rewrite <- from_child_0, Hk, under_cat. cbn. by rewrite app_nil_r.
Qed.

Lemma next_outcome key v node stack leaf before x after fuel : hit_at head (Hit key v node stack leaf) before x after -> (S (length stack + height head) < fuel)%nat ->
  first_of head (match leaf with
    | Some j => if negb (iscompr node) && (S j <? n_size node)%nat then ch ← n_data node !! S j; v ← raxLeafParentReadSlot node (S j); Some (Hit (take (length key - 1) key ++ [ch]) v node stack (Some (S j))) else next_loop fuel fl true true node key stack
    | None => next_loop fuel fl true false node key stack
    end) (before ++ [x]) after.
Proof using Hh.
  intros (-> & p & Hl & -> & H) Hf. rewrite length_fmap in Hf. destruct (linked_wf _ _ _ _ Hh Hl) as (Hp & Hw & _). destruct leaf as [j|].
  - destruct H as (l & Hlab & Hs & -> & -> & ->). destruct (label_step _ _ _ _ _ Hw Hlab) as [Hst Hne]. assert (Hb0 : (before_up p ++ under (path_key p) (to_child node j)) ++ [(path_key p ++ l, v)] = before_up p ++ under (path_key p) (to_child node (S j))) by (rewrite (to_child_step _ _ _ _ _ _ Hw Hlab Hs), under_cat; cbn; by rewrite app_nil_r, <- !(assoc_L (++))). rewrite Hb0.
    pose proof Hw as Hw'. apply wf_eq in Hw' as (_ & _ & Hsh & Hsl). unfold shape in Hsh. destruct (negb (iscompr node) && (S j <? n_size node)%nat) eqn:Hcase.
    + apply andb_true_iff in Hcase as [Hc Hlt]. apply negb_true_iff in Hc. apply Nat.ltb_lt in Hlt. rewrite Hc in Hsh. destruct Hsh as [Hlen _]. unfold n_size in Hlt. destruct (lookup_lt_is_Some_2 _ _ Hlt) as [ch Hch]. rewrite Hch. cbn [mbind option_bind]. rewrite <- Hlen in Hlt. destruct (lookup_lt_is_Some_2 _ _ Hlt) as [s Hs']. pose proof (plain_label fl _ _ _ _ Hw Hc Hch) as Hlab'.
      assert (Hv' : exists v', s = Val v') by (destruct s as [c|v']; [|by exists v']; pose proof (Forall_lookup_1 _ _ _ _ Hsl Hs) as [Hz He]; pose proof (Forall_lookup_1 _ _ _ _ Hsl Hs') as [Hz' _]; specialize (Hz' Hz); lia). destruct Hv' as [v' ->]. unfold raxLeafParentReadSlot. rewrite Hs'. cbn [mbind option_bind].
      rewrite (from_child_step _ _ _ _ Hlab' Hs'), under_cat, <- (assoc_L (++)). assert (Hl1 : length l = 1%nat) by (rewrite Hst; unfold raxStepLenNode; by rewrite Hc). assert (take (length (path_key p ++ l) - 1) (path_key p ++ l) = path_key p) as -> by (rewrite length_app, Hl1, Nat.add_sub; apply take_app_length). eexists. split; [done|]. split; [done|]. exists p. split_and!; try done. by exists [ch].
    + destruct fuel as [|fuel]; [lia|]. destruct (last_byte (path_key p) _ Hne) as (b & Hb & Hb'). destruct (next_place_child _ _ _ _ _ _ Hw Hlab Hb) as [Hnp _]. rewrite <- Hnp. apply noup_spec; [done|done|lia|done|done].
  - destruct H as (-> & Hk & -> & ->). pose proof (down_spec _ _ Hh fuel p node Hl ltac:(lia)) as D. rewrite Hk in D. cbn in D. by rewrite app_nil_r in D.
Qed.

Lemma prev_outcome key v node stack leaf before x after fuel : hit_at head (Hit key v node stack leaf) before x after -> (S (length stack) < fuel)%nat ->
  last_of head (prev_loop fuel fl (match leaf with Some _ => true | None => false end) node key stack) before (x :: after).
Proof using Hh.
  intros (-> & p & Hl & -> & H) Hf. rewrite length_fmap in Hf. destruct (linked_wf _ _ _ _ Hh Hl) as (Hp & Hw & _). destruct leaf as [j|].
  - destruct H as (l & Hlab & Hs & -> & -> & ->). destruct (label_step _ _ _ _ _ Hw Hlab) as [Hst Hne]. destruct fuel as [|fuel]; [lia|]. destruct (last_byte (path_key p) _ Hne) as (b & Hb & Hb'). destruct (prev_place_child _ _ _ _ _ _ Hw Hlab Hb) as [Hnp _]. pose proof (prev_noup_spec _ _ Hh fuel p node l b Hl ltac:(lia) Hst Hb') as P. rewrite Hnp, (from_child_step _ _ _ _ Hlab Hs), under_cat, <- (assoc_L (++)) in P. cbn in P. rewrite app_nil_r in P. exact P.
  - destruct H as (-> & Hk & -> & ->). pose proof (prev_up_spec _ _ Hh fuel p node Hl ltac:(lia)) as P. rewrite <- from_child_0, Hk in P. cbn in P. by rewrite app_nil_r in P.
Qed.
End Outcomes.

(** ** Order *)

Definition lows (s : list Z) (l : list (list Z * Z)) : Prop := Forall (fun x => lexcmp x.1 s < 0) l.
Definition highs (s : list Z) (l : list (list Z * Z)) : Prop := Forall (fun x => 0 < lexcmp x.1 s) l.

Lemma lows_app s a b : lows s (a ++ b) <-> lows s a /\ lows s b.
Proof. apply list.Forall_app. Qed.

Lemma highs_app s a b : highs s (a ++ b) <-> highs s a /\ highs s b.
Proof. apply list.Forall_app. Qed.

Lemma lows_under k s l : lows s l -> lows (k ++ s) (under k l).
Proof. intros H. unfold lows, under. apply list.Forall_fmap. eapply list.Forall_impl; [exact H|]. cbn. intros x Hx. by rewrite lexcmp_app. Qed.

Lemma highs_under k s l : highs s l -> highs (k ++ s) (under k l).
Proof. intros H. unfold highs, under. apply list.Forall_fmap. eapply list.Forall_impl; [exact H|]. cbn. intros x Hx. by rewrite lexcmp_app. Qed.

Lemma lexcmp_prefix l k : k <> [] -> lexcmp l (l ++ k) < 0 /\ 0 < lexcmp (l ++ k) l.
Proof. intros Hk. rewrite <- (app_nil_r l) at 1 4. rewrite !lexcmp_app. by destruct k. Qed.

Lemma lexcmp_first c c' a b : c < c' -> lexcmp (c :: a) (c' :: b) < 0 /\ 0 < lexcmp (c' :: b) (c :: a).
Proof. intros H. cbn. assert ((c =? c') = false) as -> by lia. assert ((c' =? c) = false) as -> by lia. assert ((c <? c') = true) as -> by lia. assert ((c' <? c) = false) as -> by lia. lia. Qed.

Lemma key_part_lows s key : s <> [] -> lows s (key_part key).
Proof. intros Hs. destruct key; repeat constructor. cbn. by destruct s. Qed.

(** What lies before and after a child, whose edge a string goes along. *)
Lemma to_child_lows fl d n j l s : wf fl d n -> labels n !! j = Some l -> lows (l ++ s) (to_child n j).
Proof.
  intros Hw Hl. destruct (label_step _ _ _ _ _ Hw Hl) as [_ Hne]. apply lows_app. split; [apply key_part_lows; by destruct l|]. apply list.Forall_forall. intros [k v] Hin. apply elem_of_edges in Hin as (i & l' & s' & k' & Hl' & _ & -> & _). apply lookup_take_Some in Hl' as [Hl' Hij]. cbn [fst].
  apply wf_eq in Hw as (_ & _ & H & _). unfold labels, shape in *. destruct (iscompr n); [destruct j; [lia|done]|]. apply list_lookup_fmap_Some in Hl as (c & -> & Hc), Hl' as (c' & -> & Hc'). apply lexcmp_first. destruct H as [_ H]. by eapply (sorted_lt_lookup _ i j).
Qed.

Lemma from_child_highs fl d n j l s : wf fl d n -> labels n !! j = Some l -> highs (l ++ s) (from_child n (S j)).
Proof.
  intros Hw Hl. apply list.Forall_forall. intros [k v] Hin. apply elem_of_edges in Hin as (i & l' & s' & k' & Hl' & _ & -> & _). rewrite lookup_drop in Hl'. cbn [fst].
  apply wf_eq in Hw as (_ & _ & H & _). unfold labels, shape in *. destruct (iscompr n); [by cbn in Hl'|]. apply list_lookup_fmap_Some in Hl as (c & -> & Hc), Hl' as (c' & -> & Hc'). apply lexcmp_first. destruct H as [_ H]. eapply (sorted_lt_lookup _ j (S j + i)); try done. lia.
Qed.

Lemma path_cut fl head p n s : wf fl 0 head -> linked p n head -> lows (path_key p ++ s) (before_up p) /\ highs (path_key p ++ s) (rest_up p).
Proof.
  intros Hh. revert n s. induction p as [|[parent j] p IH]; intros n s Hl; [split; constructor|]. destruct Hl as [Hc Hl]. destruct (linked_wf _ _ _ _ Hh Hl) as (_ & Hw & _). pose proof (child_label _ _ _ _ _ Hw Hc) as Hlab. cbn [path_key before_up rest_up]. rewrite <- (assoc_L (++)). destruct (IH _ (label_at parent j ++ s) Hl) as [H1 H2].
  rewrite lows_app, highs_app. split_and!; [done| | |done]; [apply lows_under; by eapply to_child_lows|apply highs_under; by eapply from_child_highs].
Qed.

(** Where a string that leaves a node cuts its keys. *)
Lemma from_child_highs_nil fl d n : wf fl d n -> highs [] (from_child n 0).
Proof. intros Hw. apply list.Forall_forall. intros [k v] Hin. apply elem_of_edges in Hin as (i & l' & s' & k' & Hl' & _ & -> & _). rewrite lookup_drop in Hl'. apply (label_step _ _ _ _ _ Hw) in Hl' as [_ Hne]. cbn. by destruct l'. Qed.

Lemma first_larger_cut data c : StronglySorted Z.lt data -> c ∉ data -> Forall (fun x => x < c) (take (first_larger data c) data) /\ Forall (fun x => c < x) (drop (first_larger data c) data).
Proof.
  induction data as [|x data IH]; intros Hs Hc; cbn [first_larger]; [split; constructor|]. apply not_elem_of_cons in Hc as [Hne Hc]. apply StronglySorted_cons in Hs as [Hx Hs]. destruct (Z.gtb_spec x c).
  - split; [constructor|]. cbn. constructor; [lia|]. eapply list.Forall_impl; [exact Hx|]. cbn. lia.
  - cbn [take drop]. destruct (IH Hs Hc) as [H1 H2]. split; [constructor; [lia|done]|done].
Qed.

Lemma last_smaller_larger data c : StronglySorted Z.lt data -> c ∉ data -> match last_smaller data c with Some i => S i | None => 0%nat end = first_larger data c.
Proof.
  induction data as [|x data IH]; intros Hs Hc; [done|]. apply not_elem_of_cons in Hc as [Hne Hc]. apply StronglySorted_cons in Hs as [Hx Hs]. cbn [last_smaller first_larger]. specialize (IH Hs Hc). destruct (last_smaller data c) as [i|] eqn:E.
  - destruct (Z.gtb_spec x c) as [Hgt|Hgt]; [|by rewrite <- IH]. assert (H0 : first_larger data c = 0%nat); [|lia]. destruct data as [|y data]; [done|]. cbn. apply list.Forall_cons in Hx as [Hx _]. destruct (Z.gtb_spec y c); [done|lia].
  - destruct (Z.gtb_spec x c) as [Hgt|Hgt]; destruct (Z.ltb_spec x c); try lia.
Qed.

Lemma cut_plain fl d n c r : wf fl d n -> iscompr n = false -> c ∉ n_data n -> lows (c :: r) (to_child n (next_place n c)) /\ highs (c :: r) (from_child n (next_place n c)) /\ prev_place n c = next_place n c.
Proof.
  intros Hw Hc Hn. apply wf_eq in Hw as (_ & _ & H & _). unfold shape in H. unfold next_place, prev_place. rewrite Hc in *. destruct H as [_ Hso]. destruct (first_larger_cut _ _ Hso Hn) as [H1 H2]. split_and!; [| |by apply last_smaller_larger].
  - apply lows_app. split; [by apply key_part_lows|]. apply list.Forall_forall. intros [k v] Hin. apply elem_of_edges in Hin as (i & l' & s' & k' & Hl' & _ & -> & _). unfold labels in Hl'. rewrite Hc in Hl'. cbn [edge_labels] in Hl'. rewrite <- fmap_take in Hl'. apply list_lookup_fmap_Some in Hl' as (c' & -> & Hc'). eapply Forall_lookup_1 in H1; [|exact Hc']. by apply lexcmp_first.
  - apply list.Forall_forall. intros [k v] Hin. apply elem_of_edges in Hin as (i & l' & s' & k' & Hl' & _ & -> & _). unfold labels in Hl'. rewrite Hc in Hl'. cbn [edge_labels] in Hl'. rewrite <- fmap_drop in Hl'. apply list_lookup_fmap_Some in Hl' as (c' & -> & Hc'). eapply Forall_lookup_1 in H2; [|exact Hc']. by apply lexcmp_first.
Qed.

(** In a compressed node: the string ends within its bytes, or differs from them. *)
Lemma compr_contents n k v : iscompr n = true -> (k, v) ∈ from_child n 0 -> exists k', k = n_data n ++ k'.
Proof. intros Hc Hin. apply elem_of_edges in Hin as (i & l & s & k' & Hl & _ & -> & _). rewrite lookup_drop in Hl. unfold labels in Hl. rewrite Hc in Hl. destruct i; [|done]. injection Hl as <-. eauto. Qed.

Lemma cut_within n rest : iscompr n = true -> common (n_data n) rest = length rest -> (length rest < n_size n)%nat -> highs rest (from_child n 0).
Proof.
  intros Hc Hj Hlt. apply list.Forall_forall. intros [k v] Hin. apply compr_contents in Hin as [k' ->]; [|done]. pose proof (common_take (n_data n) rest) as Ht. rewrite Hj, (take_ge rest) in Ht by done. cbn [fst]. rewrite <- (take_drop (length rest) (n_data n)), Ht, <- (assoc_L (++)). apply lexcmp_prefix. intros E. apply (f_equal length) in E. rewrite length_app, length_drop in E. unfold n_size in Hlt. cbn in E. lia.
Qed.

Lemma cut_differ n rest x y : iscompr n = true -> n_data n !! common (n_data n) rest = Some x -> rest !! common (n_data n) rest = Some y -> (y < x -> highs rest (from_child n 0)) /\ (x < y -> lows rest (from_child n 0)).
Proof.
  intros Hc Hx Hy. pose proof (bytes_split _ _ _ Hx) as Ed. pose proof (bytes_split _ _ _ Hy) as Er. rewrite <- common_take in Er. set (j := common (n_data n) rest) in *. split; intros Hlt; apply list.Forall_forall; intros [k v] Hin; apply compr_contents in Hin as [k' ->]; try done; cbn [fst]; rewrite Ed, Er, <- (assoc_L (++)), lexcmp_app; cbn [app]; by apply lexcmp_first.
Qed.

(** ** Iterators *)

(** The iterator stands at [x]; its data may be stale. *)
Definition stands (it : raxIterator) (before : list (list Z * Z)) (x : list Z * Z) (after : list (list Z * Z)) : Prop :=
  it_eof it = false /\ exists node, it_node it = Some node /\ hit_at (r_head (it_rt it)) (Hit (it_key it) x.2 node (it_stack it) (it_leaf it)) before x after.

Definition positioned (it : raxIterator) (before : list (list Z * Z)) (x : list Z * Z) (after : list (list Z * Z)) : Prop := stands it before x after /\ it_data it = x.2.

(** The iterator is at the first of [after], or at the last of [before]. *)
Definition settled (it : raxIterator) (before after : list (list Z * Z)) : Prop := match after with [] => it_eof it = true | x :: after => positioned it before x after end.
Definition settled_back (it : raxIterator) (before after : list (list Z * Z)) : Prop := before = [] /\ it_eof it = true \/ exists before' x, before = before' ++ [x] /\ positioned it before' x after.

Definition same_tree (it it' : raxIterator) : Prop := it_rt it' = it_rt it /\ it_just_seeked it' = it_just_seeked it.

Lemma arrive_hit it key v node stack leaf before x after : it_eof it = false -> hit_at (r_head (it_rt it)) (Hit key v node stack leaf) before x after -> positioned (arrive it (Hit key v node stack leaf)) before x after.
Proof. intros He H. pose proof H as [-> _]. split; [|done]. split; [done|]. by exists node. Qed.

Lemma arrive_first it o before after : it_eof it = false -> first_of (r_head (it_rt it)) o before after -> exists it', (o ← o; Some (arrive it o)) = Some it' /\ settled it' before after /\ same_tree it it'.
Proof.
  intros He H. destruct after as [|x after]; cbn [first_of] in H; [subst o; by eexists|]. destruct H as (hit & -> & Hh). eexists. split; [done|]. destruct hit; [|done]. split; [by apply arrive_hit|done].
Qed.

Lemma arrive_last it o before after : it_eof it = false -> last_of (r_head (it_rt it)) o before after -> exists it', (o ← o; Some (arrive it o)) = Some it' /\ settled_back it' before after /\ same_tree it it'.
Proof.
  intros He [[-> ->]|(before' & x & hit & -> & -> & Hh)]; eexists; (split; [done|]).
  - split; [by left|done].
  - destruct hit; [|done]. split; [|done]. right. exists before', x. split; [done|]. by apply arrive_hit.
Qed.

Lemma next_spec it before x after : wf (r_keyFixedLen (it_rt it)) 0 (r_head (it_rt it)) -> stands it before x after -> it_just_seeked it = false -> exists it', raxIteratorNextStep it false = Some it' /\ settled it' (before ++ [x]) after /\ same_tree it it'.
Proof.
  intros Hw (He & node & Hn & Hh) Hj. unfold raxIteratorNextStep. rewrite He, Hj, Hn. cbn [mbind option_bind]. apply arrive_first; [done|]. apply (next_outcome _ _ Hw _ _ _ _ _ _ _ _ _ Hh). unfold steps. lia.
Qed.

Lemma prev_spec it before x after : wf (r_keyFixedLen (it_rt it)) 0 (r_head (it_rt it)) -> stands it before x after -> it_just_seeked it = false -> exists it', raxIteratorPrevStep it false = Some it' /\ settled_back it' before (x :: after) /\ same_tree it it'.
Proof.
  intros Hw (He & node & Hn & Hh) Hj. unfold raxIteratorPrevStep. rewrite He, Hj, Hn. cbn [mbind option_bind]. apply arrive_last; [done|]. apply (prev_outcome _ _ Hw _ _ _ _ _ _ _ _ _ Hh). unfold steps. lia.
Qed.

(** ** Listing *)

Lemma next_all_spec : forall after it before x, wf (r_keyFixedLen (it_rt it)) 0 (r_head (it_rt it)) -> stands it before x after -> it_just_seeked it = false -> forall fuel, (length after < fuel)%nat -> next_all fuel it = Some after.
Proof.
  induction after as [|y after IH]; intros it before x Hw Hs Hj fuel Hf; (destruct fuel as [|fuel]; [cbn in Hf; lia|]); cbn [next_all]; unfold raxNext; destruct (next_spec _ _ _ _ Hw Hs Hj) as (it' & -> & S & T & J); cbn [mbind option_bind settled] in *.
  - by rewrite S.
  - pose proof S as [(He & node & _ & Hh) Hd]. rewrite He. cbn [negb]. rewrite (IH it' _ y) by (rewrite ?T, ?J; (done || apply S || (cbn in Hf; lia))). destruct Hh as [Hy _]. cbn [mbind option_bind]. rewrite Hd. by rewrite <- Hy.
Qed.

Lemma next_all_seeked it before after fuel : wf (r_keyFixedLen (it_rt it)) 0 (r_head (it_rt it)) -> settled it before after -> it_just_seeked it = true -> (length after < fuel)%nat -> next_all fuel it = Some after.
Proof.
  intros Hw Hs Hj Hf. destruct fuel as [|fuel]; [lia|]. cbn [next_all]. unfold raxNext, raxIteratorNextStep. destruct after as [|x after]; cbn [settled] in Hs; [by rewrite Hs; cbn; rewrite Hs|]. destruct Hs as [Hs Hd]. pose proof Hs as (He & node & Hn & Hh). rewrite He, Hj. cbn [mbind option_bind]. change (it_eof (set_just_seeked it false)) with (it_eof it). rewrite He. cbn [negb].
  assert (Hn' : next_all fuel (set_just_seeked it false) = Some after) by (apply (next_all_spec after (set_just_seeked it false) before x); (done || (cbn in Hf; lia))). rewrite Hn'. cbn [mbind option_bind set_just_seeked it_key it_data]. destruct Hh as [Hx _]. by rewrite Hd, <- Hx.
Qed.

Lemma prev_all_spec : forall n before it x after, length before = n -> wf (r_keyFixedLen (it_rt it)) 0 (r_head (it_rt it)) -> stands it before x after -> it_just_seeked it = false -> forall fuel, (length before < fuel)%nat -> prev_all fuel it = Some (reverse before).
Proof.
  induction n as [|n IH]; intros before it x after Hn Hw Hs Hj fuel Hf; (destruct fuel as [|fuel]; [cbn in Hf; lia|]); cbn [prev_all]; unfold raxPrev; destruct (prev_spec _ _ _ _ Hw Hs Hj) as (it' & -> & S & T & J); cbn [mbind option_bind] in *.
  - destruct before; [|done]. destruct S as [[_ S]|(before' & y & E & _)]; [by rewrite S|by destruct before'].
  - destruct S as [[-> _]|(before' & y & -> & S)]; [done|]. rewrite length_app in *. cbn in Hn, Hf. pose proof S as [(He & node & _ & Hh) Hd]. rewrite He. cbn [negb]. rewrite (IH before' it' y (x :: after)) by (rewrite ?T, ?J; (done || apply S || lia)). destruct Hh as [Hy _]. cbn [mbind option_bind]. rewrite Hd, reverse_app. cbn. by rewrite <- Hy.
Qed.

Lemma prev_all_seeked it before after fuel : wf (r_keyFixedLen (it_rt it)) 0 (r_head (it_rt it)) -> settled_back it before after -> it_just_seeked it = true -> (length before < fuel)%nat -> prev_all fuel it = Some (reverse before).
Proof.
  intros Hw Hs Hj Hf. destruct fuel as [|fuel]; [lia|]. cbn [prev_all]. unfold raxPrev, raxIteratorPrevStep. destruct Hs as [[-> Hs]|(before' & x & -> & Hs)]; [by rewrite Hs; cbn; rewrite Hs|]. destruct Hs as [Hs Hd]. pose proof Hs as (He & node & Hn & Hh). rewrite He, Hj. cbn [mbind option_bind]. change (it_eof (set_just_seeked it false)) with (it_eof it). rewrite He. cbn [negb].
  rewrite length_app in Hf. cbn in Hf. assert (Hn' : prev_all fuel (set_just_seeked it false) = Some (reverse before')) by (apply (prev_all_spec (length before') before' (set_just_seeked it false) x after); (done || lia)). rewrite Hn'. cbn [mbind option_bind set_just_seeked it_key it_data]. destruct Hh as [Hx _]. rewrite reverse_app. cbn. by rewrite Hd, <- Hx.
Qed.
