(* ===== verification/RaxSeek.v ===== *)
(** * Seeking in radix trees *)

From stdpp Require Import base list gmap numbers option tactics sorting.
From S2P Require Import Prelude Order Rax RaxSpec RaxInsert RaxRemove RaxIter RaxIterThms.

Definition above (eq : bool) (s : list Z) (x : list Z * Z) : Prop := if eq then 0 <= lexcmp x.1 s else 0 < lexcmp x.1 s.
Definition below (eq : bool) (s : list Z) (x : list Z * Z) : Prop := if eq then lexcmp x.1 s <= 0 else lexcmp x.1 s < 0.

Lemma lows_not_above eq s l : lows s l -> Forall (fun x => ~ above eq s x) l.
Proof. intros H. eapply list.Forall_impl; [exact H|]. unfold above. intros x Hx. destruct eq; lia. Qed.
Lemma highs_above eq s l : highs s l -> Forall (above eq s) l.
Proof. intros H. eapply list.Forall_impl; [exact H|]. unfold above. intros x Hx. destruct eq; lia. Qed.
Lemma highs_not_below eq s l : highs s l -> Forall (fun x => ~ below eq s x) l.
Proof. intros H. eapply list.Forall_impl; [exact H|]. unfold below. intros x Hx. destruct eq; lia. Qed.
Lemma lows_below eq s l : lows s l -> Forall (below eq s) l.
Proof. intros H. eapply list.Forall_impl; [exact H|]. unfold below. intros x Hx. destruct eq; lia. Qed.

(** A key cuts the others in smaller and larger ones. *)
Lemma sorted_cut before x after : StronglySorted key_lt (before ++ x :: after) -> lows x.1 before /\ highs x.1 after.
Proof.
  intros H. split.
  - apply list.Forall_forall. intros y Hy. exact (StronglySorted_app_1_elem_of key_lt before (x :: after) y x H Hy ltac:(by left)).
  - apply StronglySorted_app_1_r in H. apply StronglySorted_cons in H as [H _]. eapply list.Forall_impl; [exact H|]. unfold key_lt. intros y Hy. rewrite lexcmp_opp. lia.
Qed.

Section Seek.
Context (it : raxIterator) (ele : list Z).
Let r := it_rt it.
Let fl := r_keyFixedLen r.
Let head := r_head r.
Context (Hok : rax_ok r) (Hlen : fl = 0%nat \/ (length ele <= fl)%nat).

Lemma head_wf : wf fl 0 head.
Proof. exact (ok_wf _ Hok). Qed.

Lemma walk_place : exists f link, raxLowWalk r ele = Some (f, link) /\ link_ok fl head ele link /\ linked (l_path link) (l_stopnode link) head.
Proof.
  pose proof head_wf as Hw0. destruct (low_walk_spec (S (length ele)) fl head [] ele) as (link & E & Hl); [done|done|done|lia|]. cbn [path_key app plug length] in E, Hl. pose proof (low_walk_linked _ _ head _ _ _ _ _ E eq_refl) as Hlk. unfold raxLowWalk. fold fl head. rewrite E. cbn [mbind option_bind]. pose proof Hl as (_ & _ & _ & _ & rest & _ & Hst). destruct (l_stop link) as [j|j].
  - destruct (_ || _); by eexists _, link.
  - destruct Hst as (v & l & r0 & _ & Hv & _). unfold raxLeafParentReadSlot. rewrite Hv. cbn [mbind option_bind]. by eexists _, link.
Qed.

(** What a seek towards the larger keys, and towards the smaller ones, must do. *)
Definition seeks_up (eq : bool) (o : option raxIterator) : Prop := exists it' before after, o = Some it' /\ settled it' before after /\ it_rt it' = r /\ contents head = before ++ after /\ Forall (fun x => ~ above eq ele x) before /\ Forall (above eq ele) after.
Definition seeks_down (eq : bool) (o : option raxIterator) : Prop := exists it' before after, o = Some it' /\ settled_back it' before after /\ it_rt it' = r /\ contents head = before ++ after /\ Forall (below eq ele) before /\ Forall (fun x => ~ below eq ele x) after.

(** The element is there. *)
Lemma found_up eq it1 before v after : it_rt it1 = r -> it_just_seeked it1 = false -> stands it1 before (ele, v) after -> (eq = true -> it_data it1 = v) -> seeks_up eq (if eq then Some it1 else raxIteratorNextStep it1 false).
Proof.
  intros Hr Hj Hs Hd. pose proof head_wf as Hw0. pose proof Hs as (He & node & Hn & Hh). rewrite Hr in Hh. fold head in Hh. pose proof (hit_split _ _ Hw0 _ _ _ _ Hh) as Hc. pose proof (contents_sorted _ _ _ Hw0) as Hso. rewrite Hc in Hso. apply sorted_cut in Hso as [Hlo Hhi]. destruct eq.
  - exists it1, before, ((ele, v) :: after). split_and!; [done|split; [done|by apply Hd]|done|done|by apply lows_not_above|]. constructor; [|by apply highs_above]. cbn. rewrite lexcmp_refl. lia.
  - destruct (next_spec it1 before (ele, v) after) as (it' & E & S & T & _); [by rewrite Hr|done|done|]. exists it', (before ++ [(ele, v)]), after. rewrite T, Hr. split_and!; [done|done|done|by rewrite <- (assoc_L (++))| |by apply highs_above]. apply list.Forall_app. split; [by apply lows_not_above|]. constructor; [|constructor]. cbn. rewrite lexcmp_refl. lia.
Qed.

Lemma found_down eq it1 before v after : it_rt it1 = r -> it_just_seeked it1 = false -> stands it1 before (ele, v) after -> (eq = true -> it_data it1 = v) -> seeks_down eq (if eq then Some it1 else raxIteratorPrevStep it1 false).
Proof.
  intros Hr Hj Hs Hd. pose proof head_wf as Hw0. pose proof Hs as (He & node & Hn & Hh). rewrite Hr in Hh. fold head in Hh. pose proof (hit_split _ _ Hw0 _ _ _ _ Hh) as Hc. pose proof (contents_sorted _ _ _ Hw0) as Hso. rewrite Hc in Hso. apply sorted_cut in Hso as [Hlo Hhi]. destruct eq.
  - exists it1, (before ++ [(ele, v)]), after. split_and!; [done|right; exists before, (ele, v); split; [done|split; [done|by apply Hd]]|done|by rewrite <- (assoc_L (++))| |by apply highs_not_below]. apply list.Forall_app. split; [by apply lows_below|]. constructor; [|constructor]. cbn. rewrite lexcmp_refl. lia.
  - destruct (prev_spec it1 before (ele, v) after) as (it' & E & S & T & _); [by rewrite Hr|done|done|]. exists it', before, ((ele, v) :: after). rewrite T, Hr. split_and!; [done|done|done|done|by apply lows_below|]. constructor; [|by apply highs_not_below]. cbn. rewrite lexcmp_refl. lia.
Qed.

(** A step from where the walk stopped. *)
Lemma step_up eq noup key data link before after : first_of head (next_loop (steps (place it key data link None)) fl true noup (l_stopnode link) key (l_path link).*1) before after ->
  contents head = before ++ after -> Forall (fun x => ~ above eq ele x) before -> Forall (above eq ele) after -> seeks_up eq (raxIteratorNextStep (place it key data link None) noup).
Proof.
  intros F Hc Hb Ha. destruct (arrive_first (place it key data link None) _ before after eq_refl F) as (it' & E & S & T & _). exists it', before, after. split_and!; try done.
Qed.

Lemma step_down eq noup key data link before after : last_of head (prev_loop (steps (place it key data link None)) fl noup (l_stopnode link) key (l_path link).*1) before after ->
  contents head = before ++ after -> Forall (below eq ele) before -> Forall (fun x => ~ below eq ele x) after -> seeks_down eq (raxIteratorPrevStep (place it key data link None) noup).
Proof.
  intros F Hc Hb Ha. destruct (arrive_last (place it key data link None) _ before after eq_refl F) as (it' & E & S & T & _). exists it', before, after. split_and!; try done.
Qed.

Lemma bind_Some_id {A} (o : option A) : (x ← o; Some x) = o.
Proof. by destruct o. Qed.
Lemma step_from_up noup it1 : step_from false true noup it1 = raxIteratorNextStep it1 noup.
Proof. apply bind_Some_id. Qed.
Lemma step_from_down noup it1 : step_from true false noup it1 = raxIteratorPrevStep it1 noup.
Proof. done. Qed.

(** The keys on both sides of a place where the walk may continue. *)
Lemma split_at p node i : linked p node head -> contents head = (before_up p ++ under (path_key p) (to_child node i)) ++ (under (path_key p) (from_child node i) ++ rest_up p).
Proof.
  intros Hl. pose proof head_wf as Hw0. destruct (linked_wf _ _ _ _ Hw0 Hl) as (_ & Hw & _). rewrite (contents_split _ _ _ _ Hw0 Hl), (to_from node i _ _ Hw), under_cat. by rewrite <- !(assoc_L (++)).
Qed.

Lemma cut_at p node rest i : linked p node head -> ele = path_key p ++ rest -> lows rest (to_child node i) -> highs rest (from_child node i) ->
  lows ele (before_up p ++ under (path_key p) (to_child node i)) /\ highs ele (under (path_key p) (from_child node i) ++ rest_up p).
Proof.
  intros Hl Hs Hlo Hhi. pose proof head_wf as Hw0. destruct (path_cut _ _ _ _ rest Hw0 Hl) as [H1 H2]. rewrite Hs. rewrite lows_app, highs_app. split_and!; [done|by apply lows_under|by apply highs_under|done].
Qed.

(** The iterator placed at the node that is the element. *)
Lemma place_node link data v : linked (l_path link) (l_stopnode link) head -> ele = path_key (l_path link) -> n_key (l_stopnode link) = Some v ->
  stands (place it ele data link None) (before_up (l_path link)) (ele, v) (under (path_key (l_path link)) (from_child (l_stopnode link) 0) ++ rest_up (l_path link)).
Proof. intros Hl Hs Hk. split; [done|]. exists (l_stopnode link). split; [done|]. split; [done|]. by exists (l_path link). Qed.

Lemma place_leaf link j l v : linked (l_path link) (l_stopnode link) head -> labels (l_stopnode link) !! j = Some l -> n_children (l_stopnode link) !! j = Some (Val v) -> ele = path_key (l_path link) ++ l ->
  stands (place it ele v link (Some j)) (before_up (l_path link) ++ under (path_key (l_path link)) (to_child (l_stopnode link) j)) (ele, v) (under (path_key (l_path link)) (from_child (l_stopnode link) (S j)) ++ rest_up (l_path link)).
Proof. intros Hl Hlab Hv Hs. split; [done|]. exists (l_stopnode link). split; [done|]. split; [done|]. exists (l_path link). split_and!; try done. by exists l. Qed.

Lemma steps_enough link key data : linked (l_path link) (l_stopnode link) head -> exists fuel, steps (place it key data link None) = S fuel /\ (length (l_path link) + height head < fuel)%nat.
Proof. intros _. eexists. split; [reflexivity|]. cbn [place it_stack it_rt]. rewrite length_fmap. fold r head. lia. Qed.

(** Where the walk stopped at a node, as far as the order is concerned. *)
Lemma stop_cases link rest j : linked (l_path link) (l_stopnode link) head -> ele = path_key (l_path link) ++ rest -> l_consumed link = (length (path_key (l_path link)) + j)%nat ->
  rest = [] /\ j = 0%nat \/ rest <> [] /\ iscompr (l_stopnode link) = true /\ j = common (n_data (l_stopnode link)) rest /\ (j < n_size (l_stopnode link))%nat \/ (exists c r, rest = c :: r /\ iscompr (l_stopnode link) = false /\ (c ∉ n_data (l_stopnode link)) /\ j = 0%nat) ->
  take (l_consumed link - j) ele = path_key (l_path link) /\ ((l_consumed link =? length ele)%nat = (length rest =? j)%nat) /\ ele !! l_consumed link = rest !! j.
Proof.
  intros _ Hs Hc Hst. rewrite Hc, Nat.add_sub, Hs, take_app_length, length_app. split_and!; [done| |].
  - apply Bool.eq_iff_eq_true. rewrite !Nat.eqb_eq. lia.
  - rewrite lookup_app_r by lia. f_equal. lia.
Qed.

Lemma compr_whole d n : wf fl d n -> iscompr n = true -> to_child n 1 = key_part (n_key n) ++ from_child n 0 /\ from_child n 1 = [] /\ length (n_data n) = raxStepLenNode n /\ n_data n <> [].
Proof.
  intros Hw Hc. apply wf_eq in Hw as (_ & _ & H & _). unfold shape in H. rewrite Hc in H. destruct H as (Hd & _ & Hn). split_and!; [|by apply from_child_end; lia|unfold raxStepLenNode; by rewrite Hc|intros E; rewrite E in Hd; cbn in Hd; lia].
  unfold to_child, from_child. rewrite !drop_0, (take_ge (n_children n)) by lia. rewrite take_ge; [done|]. unfold labels. by rewrite Hc.
Qed.

Lemma leaf_rest p n j l r0 : wf fl (length (path_key p)) n -> ele = path_key p ++ l ++ r0 -> labels n !! j = Some l -> length (path_key p ++ l) = fl -> r0 = [].
Proof.
  intros Hw Hs Hlab Hfl. rewrite (assoc_L (++)) in Hs. destruct r0; [done|]. pose proof (f_equal length Hs) as HL. rewrite length_app, Hfl in HL. cbn in HL. destruct (label_step _ _ _ _ _ Hw Hlab) as [_ Hne]. destruct Hlen as [Hz|Hz]; [|lia]. rewrite length_app in Hfl. destruct l; [done|cbn in Hfl; lia].
Qed.

Lemma seek_up_spec eq : seeks_up eq (seek_element it eq false true ele).
Proof.
  destruct walk_place as (f & link & E & (_ & _ & _ & _ & rest & Hs & Hst) & Hl). pose proof head_wf as Hw0. destruct (linked_wf _ _ _ _ Hw0 Hl) as (Hwp & Hw & _). unfold seek_element. fold r. rewrite E. cbn [mbind option_bind]. destruct (l_stop link) as [j|j].
  2:{ destruct Hst as (v & l & r0 & Hlab & Hv & -> & Hfl & _). rewrite (leaf_rest _ _ _ _ _ Hw Hs Hlab Hfl), app_nil_r in Hs. unfold raxLeafParentReadSlot. rewrite Hv. cbn [mbind option_bind]. rewrite step_from_up. eapply found_up; [done|done|by eapply place_leaf|done]. }
  destruct Hst as [Hcs Hst]. destruct (stop_cases link rest j Hl Hs Hcs Hst) as (-> & -> & ->). destruct (steps_enough link (path_key (l_path link)) (it_data it) Hl) as (fuel & Hst0 & Hfu).
  assert (Hdown : lows rest (key_part (n_key (l_stopnode link))) -> highs rest (from_child (l_stopnode link) 0) -> seeks_up eq (raxIteratorNextStep (place it (path_key (l_path link)) (it_data it) link None) false)).
  { intros H1 H2. destruct (cut_at _ _ rest 0 Hl Hs) as [C1 C2]; [by rewrite to_child_0|done|]. pose proof (down_spec _ _ Hw0 (S fuel) _ _ Hl ltac:(lia)) as D. rewrite <- Hst0 in D. rewrite <- to_child_0 in D. eapply step_up; [exact D|by apply split_at|by apply lows_not_above|by apply highs_above]. }
  destruct Hst as [(-> & ->)|[(Hr & Hc & Hj & Hlt)|(c & r0 & -> & Hc & Hn & ->)]].
  - cbn [length Nat.eqb negb andb]. rewrite orb_true_r. rewrite app_nil_r in Hs. cbn [andb]. rewrite andb_true_r. unfold iskey. destruct (n_key (l_stopnode link)) as [v|] eqn:Hk.
    + assert (bool_decide (is_Some (Some v)) = true) as -> by (by apply bool_decide_eq_true; eexists). rewrite andb_true_r. destruct eq; cbn [mbind option_bind orb]; [eapply (found_up true); [done|done|by apply place_node|done]|]. rewrite !andb_false_r, <- Hs, step_from_up.
      eapply (found_up false); [done|done|by apply place_node|done].
    + rewrite bool_decide_eq_false_2 by (by intros []). rewrite andb_false_r. cbn [orb]. rewrite step_from_up. apply Hdown; [constructor|by eapply from_child_highs_nil].
  - rewrite Hc. cbn [negb orb]. destruct (Nat.eqb_spec (length rest) j) as [He|He].
    + assert (Hj0 : (j =? 0)%nat = false) by (apply Nat.eqb_neq; destruct rest; [done|cbn in He; lia]). rewrite Hj0, !andb_false_r. cbn [andb negb]. rewrite step_from_up. assert (seeks_up eq (raxIteratorNextStep (place it (path_key (l_path link)) (it_data it) link None) false)) by (apply Hdown; [by apply key_part_lows|apply cut_within; (done || lia)]). by destruct (n_key (l_stopnode link)).
    + pose proof (common_le (n_data (l_stopnode link)) rest) as [_ Hle]. rewrite !andb_false_r. cbn [andb negb]. destruct (lookup_lt_is_Some_2 rest j ltac:(lia)) as [y Hy]. destruct (lookup_lt_is_Some_2 (n_data (l_stopnode link)) j Hlt) as [x Hx]. rewrite Hx, Hy. cbn [mbind option_bind]. rewrite Hj in Hx, Hy. pose proof (common_differ _ _ _ _ Hx Hy) as Hxy. destruct (cut_differ _ _ _ _ Hc Hx Hy) as [Hgt Hlo].
      destruct (Z.gtb_spec x y) as [Hg|Hg]; cbn [mbind option_bind].
      * enough (H : seeks_up eq (raxIteratorNextStep (place it (path_key (l_path link)) (it_data it) link None) false)) by (by rewrite bind_Some_id). apply Hdown; [by apply key_part_lows|apply Hgt; lia].
      * enough (H : seeks_up eq (raxIteratorNextStep (place it (path_key (l_path link) ++ n_data (l_stopnode link)) (it_data it) link None) true)) by (by rewrite bind_Some_id). destruct (compr_whole _ _ Hw Hc) as (Hto & Hfrom & Hst' & Hne). destruct (last_byte (path_key (l_path link)) _ Hne) as (b & Hb & Hb').
        destruct (cut_at _ _ rest 1 Hl Hs) as [C1 C2]; [rewrite Hto; apply lows_app; split; [by apply key_part_lows|apply Hlo; lia]|rewrite Hfrom; constructor|].
        pose proof (noup_spec _ _ Hw0 _ true _ _ _ b Hl Hfu Hst' Hb') as D. unfold next_place in D. rewrite Hc, <- Hst0 in D. eapply step_up; [exact D|by apply split_at|by apply lows_not_above|by apply highs_above].
  - rewrite Hc. cbn [length Nat.eqb negb orb]. rewrite !andb_false_r. cbn [andb lookup list_lookup mbind option_bind]. rewrite step_from_up. destruct (last_byte (path_key (l_path link)) [c] ltac:(done)) as (b & Hb & Hb'). cbn in Hb. injection Hb as <-. destruct (cut_plain _ _ _ _ r0 Hw Hc Hn) as (H1 & H2 & _). destruct (cut_at _ _ (c :: r0) _ Hl Hs H1 H2) as [C1 C2].
    pose proof (noup_spec _ _ Hw0 _ true _ _ [c] c Hl Hfu ltac:(unfold raxStepLenNode; by rewrite Hc) Hb') as D. rewrite <- Hst0 in D. eapply step_up; [exact D|by apply split_at|by apply lows_not_above|by apply highs_above].
Qed.

Lemma seek_down_spec eq : seeks_down eq (seek_element it eq true false ele).
Proof.
  destruct walk_place as (f & link & E & (_ & _ & _ & _ & rest & Hs & Hst) & Hl). pose proof head_wf as Hw0. destruct (linked_wf _ _ _ _ Hw0 Hl) as (Hwp & Hw & _). unfold seek_element. fold r. rewrite E. cbn [mbind option_bind]. destruct (l_stop link) as [j|j].
  2:{ destruct Hst as (v & l & r0 & Hlab & Hv & -> & Hfl & _). rewrite (leaf_rest _ _ _ _ _ Hw Hs Hlab Hfl), app_nil_r in Hs. unfold raxLeafParentReadSlot. rewrite Hv. cbn [mbind option_bind]. rewrite step_from_down. eapply found_down; [done|done|by eapply place_leaf|done]. }
  destruct Hst as [Hcs Hst]. destruct (stop_cases link rest j Hl Hs Hcs Hst) as (-> & -> & ->). destruct (steps_enough link (path_key (l_path link)) (it_data it) Hl) as (fuel & Hst0 & Hfu).
  assert (Hup : (forall x, x ∈ contents (l_stopnode link) -> ~ below eq rest x) -> seeks_down eq (raxIteratorPrevStep (place it (path_key (l_path link)) (it_data it) link None) false)).
  { intros H1. pose proof (prev_up_spec _ _ Hw0 (S fuel) _ _ Hl ltac:(lia)) as D. rewrite <- Hst0 in D. destruct (path_cut _ _ _ _ rest Hw0 Hl) as [C1 C2]. rewrite <- Hs in C1, C2. eapply step_down; [exact D|by apply contents_split with fl|by apply lows_below|]. apply list.Forall_app. split; [|by apply highs_not_below]. unfold under. apply list.Forall_fmap, list.Forall_forall. intros x Hx. specialize (H1 x Hx). unfold below in *. rewrite Hs. cbn. by rewrite lexcmp_app. }
  assert (Hself : lows rest (key_part (n_key (l_stopnode link))) -> highs rest (from_child (l_stopnode link) 0) -> forall e, length e = raxStepLenNode (l_stopnode link) -> e <> [] -> iscompr (l_stopnode link) = true -> seeks_down eq (raxIteratorPrevStep (place it (path_key (l_path link) ++ e) (it_data it) link None) true)).
  { intros H1 H2 e He Hne Hc. destruct (last_byte (path_key (l_path link)) _ Hne) as (b & Hb & Hb'). destruct (cut_at _ _ rest 0 Hl Hs) as [C1 C2]; [by rewrite to_child_0|done|]. pose proof (prev_noup_spec _ _ Hw0 fuel _ _ _ b Hl ltac:(lia) He Hb') as D. unfold prev_place in D. rewrite Hc, <- Hst0 in D. eapply step_down; [exact D|by apply split_at|by apply lows_below|by apply highs_not_below]. }
  destruct Hst as [(-> & ->)|[(Hr & Hc & Hj & Hlt)|(c & r0 & -> & Hc & Hn & ->)]].
  - cbn [length Nat.eqb negb andb]. rewrite orb_true_r. rewrite app_nil_r in Hs. cbn [andb]. rewrite andb_true_r. unfold iskey. destruct (n_key (l_stopnode link)) as [v|] eqn:Hk.
    + assert (bool_decide (is_Some (Some v)) = true) as -> by (by apply bool_decide_eq_true; eexists). rewrite andb_true_r. destruct eq; cbn [mbind option_bind orb]; [eapply (found_down true); [done|done|by apply place_node|done]|]. rewrite !andb_false_r, <- Hs, step_from_down.
      eapply (found_down false); [done|done|by apply place_node|done].
    + rewrite bool_decide_eq_false_2 by (by intros []). rewrite andb_false_r. cbn [orb]. rewrite step_from_down. apply Hup. intros x Hx. rewrite (contents_no_key _ Hk) in Hx. pose proof (from_child_highs_nil _ _ _ Hw) as H. eapply list.Forall_forall in H; [|exact Hx]. unfold below. destruct eq; lia.
  - rewrite Hc. cbn [negb orb]. destruct (Nat.eqb_spec (length rest) j) as [He|He].
    + assert (Hj0 : (j =? 0)%nat = false) by (apply Nat.eqb_neq; destruct rest; [done|cbn in He; lia]). rewrite Hj0, !andb_false_r. cbn [andb negb]. assert (Hhi : highs rest (from_child (l_stopnode link) 0)) by (apply cut_within; (done || lia)). destruct (n_key (l_stopnode link)) as [v|] eqn:Hk.
      * destruct (cut_at _ _ rest 0 Hl Hs) as [C1 C2]; [rewrite to_child_0, Hk; by apply key_part_lows|done|]. eexists _, _, _. split_and!; [done| |done|by apply (split_at _ _ 0 Hl)|by apply lows_below|by apply highs_not_below]. right. rewrite to_child_0, Hk. exists (before_up (l_path link)), (path_key (l_path link), v). split; [cbn; by rewrite app_nil_r|]. split; [|done]. split; [done|]. exists (l_stopnode link). split; [done|]. split; [done|]. by exists (l_path link).
      * rewrite step_from_down. apply Hup. intros x Hx. rewrite (contents_no_key _ Hk) in Hx. eapply list.Forall_forall in Hhi; [|exact Hx]. unfold below. destruct eq; lia.
    + pose proof (common_le (n_data (l_stopnode link)) rest) as [_ Hle]. rewrite !andb_false_r. cbn [andb negb]. destruct (lookup_lt_is_Some_2 rest j ltac:(lia)) as [y Hy]. destruct (lookup_lt_is_Some_2 (n_data (l_stopnode link)) j Hlt) as [x Hx]. rewrite Hx, Hy. cbn [mbind option_bind]. rewrite Hj in Hx, Hy. pose proof (common_differ _ _ _ _ Hx Hy) as Hxy. destruct (cut_differ _ _ _ _ Hc Hx Hy) as [Hgt Hlo].
      destruct (compr_whole _ _ Hw Hc) as (Hto & Hfrom & Hst' & Hne). destruct (Z.ltb_spec x y) as [Hg|Hg]; [|apply Hself; try done; [by apply key_part_lows|apply Hgt; lia]].
      destruct (cut_at _ _ rest 1 Hl Hs) as [C1 C2]; [rewrite Hto; apply lows_app; split; [by apply key_part_lows|by apply Hlo]|rewrite Hfrom; constructor|]. rewrite Hto, Hfrom, from_child_0 in *. pose proof (greatest_spec _ _ Hw0 (S (height (l_stopnode link))) _ _ Hl ltac:(by right) ltac:(lia)) as D.
      destruct (arrive_last (place it (path_key (l_path link)) (it_data it) link None) _ _ _ eq_refl D) as (it' & E' & S' & T' & _). exists it', (before_up (l_path link) ++ under (path_key (l_path link)) (contents (l_stopnode link))), (rest_up (l_path link)). split_and!; [exact E'|done|done|by rewrite <- (assoc_L (++)); apply contents_split with fl|by apply lows_below|by apply highs_not_below].
  - rewrite Hc. cbn [length Nat.eqb negb orb]. rewrite !andb_false_r. cbn [andb lookup list_lookup mbind option_bind]. rewrite step_from_down. destruct (last_byte (path_key (l_path link)) [c] ltac:(done)) as (b & Hb & Hb'). cbn in Hb. injection Hb as <-. destruct (cut_plain _ _ _ _ r0 Hw Hc Hn) as (H1 & H2 & Hpn). rewrite <- Hpn in *. destruct (cut_at _ _ (c :: r0) _ Hl Hs H1 H2) as [C1 C2].
    pose proof (prev_noup_spec _ _ Hw0 fuel _ _ [c] c Hl ltac:(lia) ltac:(unfold raxStepLenNode; by rewrite Hc) Hb') as D. rewrite <- Hst0 in D. eapply step_down; [exact D|by apply split_at|by apply lows_below|by apply highs_not_below].
Qed.

(** An exact seek finds the element or ends. *)
Lemma seek_eq_spec : exists it', seek_element it true false false ele = Some it' /\ it_rt it' = r /\ ((exists v before after, positioned it' before (ele, v) after) \/ it_eof it' = true /\ forall v, (ele, v) ∉ contents head).
Proof.
  destruct walk_place as (f & link & E & (Hp & _ & _ & _ & rest & Hs & Hst) & Hl). pose proof head_wf as Hw0. destruct (linked_wf _ _ _ _ Hw0 Hl) as (Hwp & Hw & _). unfold seek_element. fold r. rewrite E. cbn [mbind option_bind].
  assert (Hnone : (forall v, (rest, v) ∉ contents (l_stopnode link)) -> forall v, (ele, v) ∉ contents head) by (intros H v Hin; rewrite <- Hp, Hs in Hin; by apply (elem_of_plug_here _ _ _ _ _ Hwp), H in Hin). destruct (l_stop link) as [j|j].
  2:{ destruct Hst as (v & l & r0 & Hlab & Hv & -> & Hfl & _). rewrite (leaf_rest _ _ _ _ _ Hw Hs Hlab Hfl), app_nil_r in Hs. unfold raxLeafParentReadSlot. rewrite Hv. cbn [mbind option_bind]. eexists. split; [done|]. split; [done|]. left. eexists v, _, _. split; [by eapply place_leaf|done]. }
  destruct Hst as [Hcs Hst]. destruct (stop_cases link rest j Hl Hs Hcs Hst) as (_ & -> & _). destruct Hst as [(-> & ->)|[(Hr & Hc & Hj & Hlt)|(c & r0 & -> & Hc & Hn & ->)]].
  - cbn [length Nat.eqb andb]. rewrite orb_true_r. rewrite app_nil_r in Hs. cbn [andb orb]. unfold iskey. destruct (n_key (l_stopnode link)) as [v|] eqn:Hk.
    + assert (bool_decide (is_Some (Some v)) = true) as -> by (by apply bool_decide_eq_true; eexists). cbn [mbind option_bind]. eexists. split; [done|]. split; [done|]. left. eexists v, _, _. split; [by apply place_node|done].
    + rewrite bool_decide_eq_false_2 by (by intros []). eexists. split; [done|]. split; [done|]. right. split; [done|]. apply Hnone. intros v Hin. apply (elem_of_contents_nil _ _ _ _ Hw) in Hin. congruence.
  - rewrite Hc. cbn [negb orb andb]. assert (((length rest =? j)%nat && (j =? 0)%nat) = false) as -> by (apply andb_false_iff; rewrite !Nat.eqb_neq; destruct rest; [done|cbn; lia]). cbn [andb]. eexists. split; [done|]. split; [done|]. right. split; [done|]. apply Hnone. intros v. apply compr_mismatch; [done|lia|done].
  - cbn [length Nat.eqb andb orb]. eexists. split; [done|]. split; [done|]. right. split; [done|]. apply Hnone. intros v. by apply edge_missing.
Qed.
End Seek.

(** ** Iteration *)

#[export] Instance above_dec eq s x : Decision (above eq s x).
Proof. unfold above. destruct eq; apply _. Defined.
#[export] Instance below_dec eq s x : Decision (below eq s x).
Proof. unfold below. destruct eq; apply _. Defined.

Lemma filter_cut {A} (P : A -> Prop) `{forall x, Decision (P x)} a b : Forall (fun x => ~ P x) a -> Forall P b -> filter P (a ++ b) = b.
Proof.
  intros Ha Hb. rewrite filter_app. assert (filter P a = []) as -> by (induction Ha; [done|]; by rewrite filter_cons_False). cbn. induction Hb as [|x b Hx _ IH]; [done|]. by rewrite filter_cons_True, IH.
Qed.

Lemma filter_cut' {A} (P : A -> Prop) `{forall x, Decision (P x)} a b : Forall P a -> Forall (fun x => ~ P x) b -> filter P (a ++ b) = a.
Proof.
  intros Ha Hb. rewrite filter_app. assert (filter P b = []) as -> by (induction Hb; [done|]; by rewrite filter_cons_False). rewrite app_nil_r. induction Ha as [|x a Hx _ IH]; [done|]. by rewrite filter_cons_True, IH.
Qed.

(** What the callers of an iterator read off after a seek with the operator [o]. *)
Definition lists (o : seek_op) (ele : list Z) (l : list (list Z * Z)) (it : raxIterator) : Prop :=
  forall fuel, (length l < fuel)%nat ->
    if op_first o then next_all fuel it = Some l
    else if op_last o then prev_all fuel it = Some (reverse l)
    else if op_gt o then next_all fuel it = Some (filter (above (op_eq o) ele) l)
    else if op_lt o then prev_all fuel it = Some (reverse (filter (below (op_eq o) ele) l))
    else next_all fuel it = Some (match (list_to_map l : gmap (list Z) Z) !! ele with Some _ => filter (above true ele) l | None => [] end).

Lemma parse_op_cases op o : parse_op op = Some o -> exists eq, o = Build_seek_op eq false true false false \/ o = Build_seek_op eq true false false false \/ o = Build_seek_op true false false false false \/ o = Build_seek_op false false false true false \/ o = Build_seek_op false false false false true.
Proof.
  unfold parse_op. intros E. exists (bool_decide (op !! 1%nat = Some 61)). revert E. generalize (bool_decide (op !! 1%nat = Some 61)). intros eq E. repeat (case_match; simplify_eq); auto 6.
Qed.

Lemma empty_lists o ele it : it_eof it = true -> lists o ele [] it.
Proof.
  intros He fuel Hf. destruct fuel as [|fuel]; [cbn in Hf; lia|]. assert (Hn : next_all (S fuel) it = Some []) by (cbn [next_all]; unfold raxNext, raxIteratorNextStep; rewrite He; cbn [mbind option_bind]; by rewrite He). assert (Hp : prev_all (S fuel) it = Some []) by (cbn [prev_all]; unfold raxPrev, raxIteratorPrevStep; rewrite He; cbn [mbind option_bind]; by rewrite He).
  rewrite Hn, Hp. by repeat case_match.
Qed.

(** The seeks that start over all keys. *)
Lemma above_nil (l : list (list Z * Z)) : filter (above true []) l = l.
Proof. induction l as [|x l IH]; [done|]. rewrite filter_cons_True, IH; [done|]. unfold above. destruct (x.1) as [|c k]; cbn; lia. Qed.

(** C13: Seeking and then stepping lists the keys of the tree in their order: with [^] all
    of them upwards, with [$] all of them downwards, with [>] and [>=] those that are
    larger (or equal) upwards, with [<] and [<=] those that are smaller (or equal)
    downwards, and with [=] the element and what follows it, or nothing when it is not
    there; in trees with keys of any length and of a fixed length. *)
Theorem rax_iteration it op o ele : rax_ok (it_rt it) -> r_keyFixedLen (it_rt it) = 0%nat \/ (length ele <= r_keyFixedLen (it_rt it))%nat -> parse_op op = Some o ->
  exists l it', StronglySorted key_lt l /\ list_to_map l = rax_map (it_rt it) /\ raxSeek it op ele = Some (true, it') /\ lists o ele l it'.
Proof.
  intros Hok Hlen Ho. set (r := it_rt it) in *. pose proof (ok_wf _ Hok) as Hw. exists (contents (r_head r)). unfold raxSeek. rewrite Ho. cbn [it_rt]. fold r. set (it0 := Build_raxIterator _ _ _ _ _ _ _ _). pose proof (contents_sorted _ _ _ Hw) as Hso. pose proof (contents_elements _ _ _ Hw) as Hcount. rewrite <- (ok_numele _ Hok) in Hcount.
  enough (exists it', (if r_numele r =? 0 then Some (true, arrive it0 Over) else if op_first o then it ← seek_element it0 true false true []; Some (true, set_just_seeked it true) else if op_last o then it ← raxSeekGreatest {| it_eof := false; it_just_seeked := true; it_rt := r; it_key := []; it_data := it_data it0; it_node := Some (r_head r); it_stack := []; it_leaf := None |}; Some (true, it) else it ← seek_element it0 (op_eq o) (op_lt o) (op_gt o) ele; Some (true, set_just_seeked it true)) = Some (true, it') /\ lists o ele (contents (r_head r)) it') as (it' & E & H) by (by exists it').
  destruct (Z.eqb_spec (r_numele r) 0) as [Hz|Hz].
  { eexists. split; [done|]. assert (contents (r_head r) = []) as -> by (apply length_zero_iff_nil; lia). by apply empty_lists. }
  assert (Hup : forall eq s, r_keyFixedLen r = 0%nat \/ (length s <= r_keyFixedLen r)%nat -> exists it', seek_element it0 eq false true s = Some it' /\ forall fuel, (length (contents (r_head r)) < fuel)%nat -> next_all fuel (set_just_seeked it' true) = Some (filter (above eq s) (contents (r_head r)))).
  { intros eq s Hs. destruct (seek_up_spec it0 s Hok Hs eq) as (it' & before & after & E & S & T & C & F1 & F2). exists it'. split; [done|]. intros fuel Hf. change (r_head (it_rt it0)) with (r_head r) in C. rewrite C, (filter_cut _ _ _ F1 F2). apply (next_all_seeked _ before); [|exact S|done|rewrite C, length_app in Hf; lia]. cbn [set_just_seeked it_rt]. by rewrite T. }
  destruct (parse_op_cases _ _ Ho) as (eq & [-> |[-> |[-> |[-> | ->]]]]); cbn [op_first op_last op_eq op_lt op_gt].
  - destruct (Hup eq ele Hlen) as (it' & -> & H). eexists. split; [done|]. exact H.
  - destruct (seek_down_spec it0 ele Hok Hlen eq) as (it' & before & after & -> & S & T & C & F1 & F2). eexists. split; [done|]. intros fuel Hf. cbn [op_first op_last op_eq op_lt op_gt]. change (r_head (it_rt it0)) with (r_head r) in C. rewrite C, (filter_cut' _ _ _ F1 F2). apply (prev_all_seeked _ before after); [|exact S|done|rewrite C, length_app in Hf; lia]. cbn [set_just_seeked it_rt]. by rewrite T.
  - destruct (seek_eq_spec it0 ele Hok Hlen) as (it' & -> & T & H). eexists. split; [done|]. intros fuel Hf. cbn [op_first op_last op_eq op_lt op_gt]. change (r_head (it_rt it0)) with (r_head r) in H. fold (rax_map r). destruct H as [(v & before & after & P)|[He Hno]].
    + pose proof P as [(_ & node & _ & Hh) _]. rewrite T in Hh. pose proof (hit_split _ _ Hw _ _ _ _ Hh) as C. assert (rax_map r !! ele = Some v) as -> by (apply (rax_map_lookup _ _ _ _ _ Hw); rewrite C; apply elem_of_app; right; by left). rewrite C in Hso. apply sorted_cut in Hso as [Hlo Hhi]. rewrite C. rewrite (filter_cut (above true ele)); [|by apply lows_not_above|constructor; [cbn; rewrite lexcmp_refl; lia|by apply highs_above]].
      apply (next_all_seeked _ before); [|exact P|done|rewrite C, length_app in Hf; cbn in *; lia]. cbn [set_just_seeked it_rt]. by rewrite T.
    + assert (rax_map r !! ele = None) as -> by (apply eq_None_not_Some; intros [v Hv]; apply (rax_map_lookup _ _ _ _ _ Hw) in Hv; by apply (Hno v)). apply (next_all_seeked _ [] []); [|exact He|done|cbn; lia]. cbn [set_just_seeked it_rt]. by rewrite T.
  - destruct (Hup true [] ltac:(right; cbn; lia)) as (it' & -> & H). eexists. split; [done|]. intros fuel Hf. cbn [op_first]. rewrite H by done. by rewrite above_nil.
  - set (it1 := Build_raxIterator _ _ _ _ _ _ _ _). assert (Hu : used (r_head r)). { destruct (contents (r_head r)) as [|x c] eqn:C; [cbn in Hcount; lia|]. destruct (n_key (r_head r)) eqn:Hk; [left; congruence|]. right. intros Hd. pose proof Hw as Hw'. apply wf_eq in Hw' as (_ & _ & Hsh & _). unfold shape in Hsh. rewrite contents_eq, Hk in C. unfold labels in C. rewrite Hd in C, Hsh. destruct (iscompr (r_head r)); [cbn in Hsh; lia|]. cbn in C. by destruct (n_children (r_head r)). }
    pose proof (greatest_spec _ _ Hw (S (height (r_head r))) [] _ eq_refl Hu ltac:(lia)) as D. cbn [path_key before_up rest_up app] in D. rewrite under_nil in D. destruct (arrive_last it1 _ _ _ eq_refl D) as (it' & E' & S' & T' & J'). exists it'. assert (raxSeekGreatest it1 = Some it') as -> by exact E'. split; [done|].
    intros fuel Hf. cbn [op_first op_last]. apply (prev_all_seeked _ _ []); [by rewrite T'|done|done|done].
Qed.

(** Keys of two bytes, listed downwards from an element that is not there. *)
Lemma rax_iteration_witness : exists it', raxSeek (raxStart {| r_head := RN None false [1; 3] [Sub (RN None false [4; 5] [Val 10; Val 20]); Sub (RN None false [1] [Val 30])]; r_numele := 3; r_numnodes := 3; r_keyFixedLen := 2 |}) [60; 61] [2; 9] = Some (true, it') /\ prev_all 4 it' = Some [([1; 5], 20); ([1; 4], 10)].
Proof.
  set (r := {| r_head := _; r_numele := _; r_numnodes := _; r_keyFixedLen := _ |}).
  destruct (rax_iteration (raxStart r) [60; 61] (Build_seek_op true true false false false) [2; 9]) as (l & it' & Hs & Hm & E & H).
  - constructor; [|reflexivity|reflexivity|vm_compute; discriminate]. cbn -[used]. repeat match goal with |- used _ => right; discriminate | |- True => exact I | |- _ /\ _ => split | |- Forall _ _ => constructor | |- StronglySorted _ _ => constructor | |- is_byte _ => unfold is_byte; lia | |- _ -> _ => intros _ | |- _ => first [discriminate | reflexivity | lia] end.
  - right. cbn. lia.
  - reflexivity.
  - exists it'. split; [exact E|]. vm_compute in E. injection E as <-. vm_compute. reflexivity.
Defined.

(** ** Comparing the key of an iterator *)

Lemma lexcmp_take a : forall b, let m := Nat.min (length b) (length a) in let c := lexcmp (take m a) (take m b) in
  (c = 0 -> (lexcmp a b = 0 <-> length a = length b) /\ (lexcmp a b < 0 <-> (length a < length b)%nat)) /\ (c <> 0 -> lexcmp a b = c).
Proof.
  induction a as [|x a IH]; intros [|y b]; cbn -[lexcmp]; try (split; [intros _; cbn; lia|done]). cbn [lexcmp]. destruct (Z.eqb_spec x y); [|split; [destruct (x <? y); lia|done]]. specialize (IH b). cbn zeta in IH. destruct IH as [I1 I2]. split; [|exact I2]. intros H. destruct (I1 H) as [J1 J2]. lia.
Qed.

(** Evaluates the tests of the characters of an operator. *)
Ltac op_flags := cbn [lookup list_lookup]; repeat match goal with |- context [bool_decide (?a = Some ?b)] => let v := eval vm_compute in (bool_decide (a = Some b)) in change (bool_decide (a = Some b)) with v end; cbn [negb andb orb].

(** The comparison of the current key is that of byte strings. *)
Theorem raxCompare_spec it eq key :
  raxCompare it (62 :: if eq : bool then [61] else []) key = bool_decide (above eq key (it_key it, 0)) /\
  raxCompare it (60 :: if eq then [61] else []) key = bool_decide (below eq key (it_key it, 0)) /\
  raxCompare it [61; 61] key = bool_decide (it_key it = key).
Proof.
  pose proof (lexcmp_take (it_key it) key) as [H1 H2]. unfold raxCompare, above, below. cbn [fst]. set (m := Nat.min (length key) (length (it_key it))) in *. set (c := lexcmp (take m (it_key it)) (take m key)) in *. clearbody c m. pose proof (lexcmp_eq (it_key it) key) as Heq. pose proof (lexcmp_refl key) as Hrf.
  split_and!; [destruct eq|destruct eq|]; op_flags; (destruct (Z.eqb_spec c 0) as [Hc|Hc]; [destruct (H1 Hc) as [J1 J2]|specialize (H2 Hc)]); symmetry; cbn [andb];
    repeat match goal with |- context [(?a =? ?b)%nat] => destruct (Nat.eqb_spec a b) | |- context [(?a <? ?b)%nat] => destruct (Nat.ltb_spec a b) | |- context [?a >? ?b] => destruct (Z.gtb_spec a b) end;
    try (apply bool_decide_eq_true; first [lia | apply Heq; lia]); apply bool_decide_eq_false; first [lia | intros E; rewrite E in *; lia].
Qed.
