(* ===== verification/RaxFree.v ===== *)
(** * Freeing radix trees

    The walk over all nodes with its two stacks, and what the callback is called with. *)

From stdpp Require Import base list gmap numbers option tactics sorting.
From S2P Require Import Prelude Order Rax RaxSpec RaxInsert.

(** The values the callback has been called with: NULL is left out. *)
Definition raxFreeInvokeValueCb (data : Z) (called : list Z) : list Z := if data =? 0 then called else called ++ [data].

(** The children of one node. *)
Fixpoint free_slots (fl child_depth : nat) (slots : list raxSlot) (stack : list (raxNode * nat)) (called : list Z) : option (list (raxNode * nat) * list Z) :=
  match slots with
  | [] => Some (stack, called)
  | s :: slots =>
      if raxSlotsAreValues fl child_depth then
        v ← match s with Val v => Some v | Sub _ => None end; free_slots fl child_depth slots stack (raxFreeInvokeValueCb v called)
      else n ← as_node s; free_slots fl child_depth slots ((n, child_depth) :: stack) called
  end.

Fixpoint free_nodes (fuel fl : nat) (stack : list (raxNode * nat)) (called : list Z) (numnodes : Z) : option (list Z * Z) :=
  match stack with
  | [] => Some (called, numnodes)
  | (curr, depth) :: stack =>
      match fuel with
      | O => None
      | S fuel =>
          '(stack, called) ← free_slots fl (depth + raxStepLenNode curr) (n_children curr) stack called;
          free_nodes fuel fl stack (match n_key curr with Some v => raxFreeInvokeValueCb v called | None => called end) (numnodes - 1)
      end
  end.

(** Returns the values given to the callback; the count of nodes must come out as 0. *)
Definition raxFreeWithCallback (r : rax) : option (list Z) :=
  '(called, numnodes) ← free_nodes (Z.to_nat (r_numnodes r)) (r_keyFixedLen r) [(r_head r, 0%nat)] [] (r_numnodes r);
  _ ← cassert (numnodes =? 0);
  Some called.

(** ** Every value once *)

(** The values that are not NULL. *)
Definition live (c : list (list Z * Z)) : list Z := filter (fun v => v <> 0) (c.*2).

Lemma live_app a b : live (a ++ b) = live a ++ live b.
Proof. unfold live. by rewrite fmap_app, filter_app. Qed.

Lemma live_under l c : live (under l c) = live c.
Proof. unfold live, under. by rewrite <- list_fmap_compose. Qed.

Lemma live_edges fl d n : wf fl d n -> live (edges_contents (labels n) (n_children n)) = concat ((fun s => live (slot_contents s)) <$> n_children n).
Proof.
  intros Hw. pose proof (labels_length _ _ _ Hw) as Hl. revert Hl. generalize (labels n). induction (n_children n) as [|s slots IH]; intros [|l ls] Hl; try done. cbn [edges_contents fmap list_fmap concat]. rewrite live_app, live_under. f_equal. apply IH. cbn in Hl. lia.
Qed.

Lemma callback_spec v called : raxFreeInvokeValueCb v called = called ++ live [([], v)].
Proof. unfold raxFreeInvokeValueCb, live. cbn. destruct (Z.eqb_spec v 0) as [->|Hv]; cbn; [by rewrite app_nil_r|]. by rewrite decide_True by done. Qed.

(** What the nodes on the stack hold, and how many nodes are below them. *)
Definition pending (stack : list (raxNode * nat)) : list Z := concat ((fun x => live (contents x.1)) <$> stack).
Definition pending_nodes (stack : list (raxNode * nat)) : Z := foldr (fun x t => nodes x.1 + t) 0 stack.

Lemma free_slots_spec fl d : forall slots stack called, Forall (wf_slot fl d) slots -> Forall (fun x => wf fl x.2 x.1) stack ->
  exists stack' called', free_slots fl d slots stack called = Some (stack', called') /\ Forall (fun x => wf fl x.2 x.1) stack' /\
    called' ++ pending stack' ≡ₚ called ++ pending stack ++ concat ((fun s => live (slot_contents s)) <$> slots) /\ pending_nodes stack' = pending_nodes stack + slots_total (fun _ => 1) 0 slots.
Proof.
  induction slots as [|s slots IH]; intros stack called Hs Hst; cbn [free_slots].
  - exists stack, called. cbn. rewrite app_nil_r. split_and!; (done || lia).
  - apply list.Forall_cons in Hs as [Hs Hss]. rewrite slots_total_cons. cbn [fmap list_fmap concat]. destruct s as [n|v]; cbn [wf_slot] in Hs.
    + destruct Hs as (Hd & Hu & Hw). assert (raxSlotsAreValues fl d = false) as -> by (apply not_true_iff_false; rewrite values_at; intros [Hf ->]; specialize (Hd Hf); lia). cbn [as_node mbind option_bind]. destruct (IH ((n, d) :: stack) called Hss) as (stack' & called' & E & F & P & N); [by constructor|]. exists stack', called'. split_and!; try done.
      * rewrite P. unfold pending. cbn. solve_Permutation.
      * rewrite N. change (pending_nodes ((n, d) :: stack)) with (nodes n + pending_nodes stack). cbn [slot_total]. unfold nodes. lia.
    + rewrite (proj2 (values_at _ _) Hs). cbn [mbind option_bind]. destruct (IH stack (raxFreeInvokeValueCb v called) Hss Hst) as (stack' & called' & E & F & P & N). exists stack', called'. split_and!; try done.
      rewrite P, callback_spec. cbn [slot_contents]. solve_Permutation.
Qed.

Lemma nodes_pos n : 1 <= nodes n.
Proof.
  induction n as [key compr data slots IH] using raxNode_rect'. unfold nodes. rewrite total_eq. cbn [n_key n_children]. enough (0 <= slots_total (fun _ => 1) 0 slots) by lia. induction IH as [|s slots Hs _ IHs]; [done|]. rewrite slots_total_cons. destruct s as [n|v]; cbn [slot_all slot_total] in *; [unfold nodes in Hs|]; lia.
Qed.

Lemma free_nodes_spec fl : forall fuel stack called numnodes, Forall (fun x => wf fl x.2 x.1) stack -> pending_nodes stack <= Z.of_nat fuel ->
  exists called', free_nodes fuel fl stack called numnodes = Some (called', numnodes - pending_nodes stack) /\ called' ≡ₚ called ++ pending stack.
Proof.
  induction fuel as [|fuel IH]; intros [|[curr depth] stack] called numnodes Hst Hf; cbn [free_nodes].
  - exists called. split; [cbn; do 2 f_equal; lia|]. by rewrite app_nil_r.
  - exfalso. cbn [pending_nodes foldr fst] in Hf. pose proof (nodes_pos curr). assert (0 <= foldr (fun x t => nodes x.1 + t) 0 stack); [|lia]. clear. induction stack as [|x stack IH]; cbn; [done|]. pose proof (nodes_pos x.1). lia.
  - exists called. split; [cbn; do 2 f_equal; lia|]. by rewrite app_nil_r.
  - apply list.Forall_cons in Hst as [Hw Hst]. cbn [fst snd] in Hw. pose proof Hw as Hw'. apply wf_eq in Hw' as (_ & _ & _ & Hs). destruct (free_slots_spec fl _ _ stack called Hs Hst) as (stack' & called' & -> & F & P & N). cbn [mbind option_bind]. change (pending_nodes ((curr, depth) :: stack)) with (nodes curr + pending_nodes stack) in Hf. assert (Hn : nodes curr = 1 + slots_total (fun _ => 1) 0 (n_children curr)) by (unfold nodes; by rewrite total_eq).
    destruct (IH stack' (match n_key curr with Some v => raxFreeInvokeValueCb v called' | None => called' end) (numnodes - 1) F ltac:(lia)) as (called'' & -> & P'). exists called''. split; [change (pending_nodes ((curr, depth) :: stack)) with (nodes curr + pending_nodes stack); do 2 f_equal; lia|].
    rewrite P'. unfold pending at 2. cbn [fmap list_fmap concat fst]. fold (pending stack). rewrite contents_eq, live_app, (live_edges _ _ _ Hw). assert (Hk : match n_key curr with Some v => raxFreeInvokeValueCb v called' | None => called' end = called' ++ live (key_part (n_key curr))) by (destruct (n_key curr); [apply callback_spec|by rewrite app_nil_r]). rewrite Hk. transitivity (live (key_part (n_key curr)) ++ called' ++ pending stack'); [solve_Permutation|]. rewrite P. solve_Permutation.
Qed.

(** Freeing a tree frees every node, so that the count of nodes comes out as 0, and
    calls the callback once for every key whose value is not NULL. *)
Theorem raxFree_complete r : rax_ok r -> exists called, raxFreeWithCallback r = Some called /\ called ≡ₚ live (contents (r_head r)).
Proof.
  intros [Hw _ Hn _]. unfold raxFreeWithCallback. destruct (free_nodes_spec (r_keyFixedLen r) (Z.to_nat (r_numnodes r)) [(r_head r, 0%nat)] [] (r_numnodes r)) as (called & -> & P); [by repeat constructor|cbn [pending_nodes foldr fst]; lia|]. cbn [mbind option_bind pending_nodes foldr fst]. assert ((r_numnodes r - (nodes (r_head r) + 0) =? 0) = true) as -> by lia. exists called. split; [done|]. rewrite P. unfold pending. cbn. by rewrite app_nil_r.
Qed.
