(* ===== verification/Quicklist.v ===== *)
(** * Quicklists (src/quicklist.c, src/quicklist.h)

    A list of nodes, each with a listpack, compressed or not, or with one plain value.
    Nodes have numbers in place of addresses, and their order stands for the links
    between them, the head and the tail.  Memory accounting and bookmarks are left out.
    [packed_threshold] is a parameter; the theorems take it up to 65537. *)

From stdpp Require Import base list numbers option tactics.
From S2P Require Import Prelude Util ListpackEnc Listpack Lzf.

Record quicklistNode := { qn_entry : list Z; qn_sz : Z; qn_count : Z; qn_lzf : bool; qn_plain : bool; qn_recompress : bool; qn_dont_compress : bool }.

Record quicklist := { ql_nodes : list (nat * quicklistNode); ql_fresh : nat; ql_count : Z; ql_len : Z; ql_fill : Z; ql_compress : Z }.

Definition SIZE_SAFETY_LIMIT : Z := 8192.
Definition SIZE_ESTIMATE_OVERHEAD : Z := 8.
Definition MIN_COMPRESS_BYTES : Z := 48.
Definition MIN_COMPRESS_IMPROVE : Z := 8.
Definition COMPRESS_MAX : Z := 2 ^ 16 - 1.
Definition FILL_MAX : Z := 2 ^ 15 - 1.

(** ** Nodes and links *)

Fixpoint node_get (id : nat) (l : list (nat * quicklistNode)) : option quicklistNode :=
  match l with [] => None | (i, n) :: l => if (i =? id)%nat then Some n else node_get id l end.
Fixpoint node_set (id : nat) (n : quicklistNode) (l : list (nat * quicklistNode)) : list (nat * quicklistNode) :=
  match l with [] => [] | (i, m) :: l => if (i =? id)%nat then (i, n) :: l else (i, m) :: node_set id n l end.
Fixpoint node_next (id : nat) (l : list (nat * quicklistNode)) : option nat :=
  match l with [] => None | (i, _) :: l => if (i =? id)%nat then head (l.*1) else node_next id l end.
Definition node_prev (id : nat) (l : list (nat * quicklistNode)) : option nat := node_next id (reverse l).
Fixpoint node_insert (id : nat) (x : nat * quicklistNode) (after : bool) (l : list (nat * quicklistNode)) : list (nat * quicklistNode) :=
  match l with [] => [] | (i, m) :: l => if (i =? id)%nat then (if after then (i, m) :: x :: l else x :: (i, m) :: l) else (i, m) :: node_insert id x after l end.
Fixpoint node_del (id : nat) (l : list (nat * quicklistNode)) : list (nat * quicklistNode) :=
  match l with [] => [] | (i, m) :: l => if (i =? id)%nat then l else (i, m) :: node_del id l end.

Definition ql_head (ql : quicklist) : option nat := head ((ql_nodes ql).*1).
Definition ql_tail (ql : quicklist) : option nat := head ((reverse (ql_nodes ql)).*1).

Definition with_nodes (ql : quicklist) (l : list (nat * quicklistNode)) : quicklist :=
  {| ql_nodes := l; ql_fresh := ql_fresh ql; ql_count := ql_count ql; ql_len := ql_len ql; ql_fill := ql_fill ql; ql_compress := ql_compress ql |}.
Definition with_count (ql : quicklist) (c : Z) : quicklist :=
  {| ql_nodes := ql_nodes ql; ql_fresh := ql_fresh ql; ql_count := c; ql_len := ql_len ql; ql_fill := ql_fill ql; ql_compress := ql_compress ql |}.
Definition with_len (ql : quicklist) (n : Z) : quicklist :=
  {| ql_nodes := ql_nodes ql; ql_fresh := ql_fresh ql; ql_count := ql_count ql; ql_len := n; ql_fill := ql_fill ql; ql_compress := ql_compress ql |}.

Definition get_node (ql : quicklist) (id : nat) : option quicklistNode := node_get id (ql_nodes ql).
Definition set_node (ql : quicklist) (id : nat) (n : quicklistNode) : quicklist := with_nodes ql (node_set id n (ql_nodes ql)).
Definition q_next (ql : quicklist) (id : nat) : option nat := node_next id (ql_nodes ql).
Definition q_prev (ql : quicklist) (id : nat) : option nat := node_prev id (ql_nodes ql).

Definition set_recompress (n : quicklistNode) (b : bool) : quicklistNode :=
  {| qn_entry := qn_entry n; qn_sz := qn_sz n; qn_count := qn_count n; qn_lzf := qn_lzf n; qn_plain := qn_plain n; qn_recompress := b; qn_dont_compress := qn_dont_compress n |}.
Definition set_dont_compress (n : quicklistNode) (b : bool) : quicklistNode :=
  {| qn_entry := qn_entry n; qn_sz := qn_sz n; qn_count := qn_count n; qn_lzf := qn_lzf n; qn_plain := qn_plain n; qn_recompress := qn_recompress n; qn_dont_compress := b |}.
Definition set_entry (n : quicklistNode) (entry : list Z) (sz : Z) (lzf : bool) : quicklistNode :=
  {| qn_entry := entry; qn_sz := sz; qn_count := qn_count n; qn_lzf := lzf; qn_plain := qn_plain n; qn_recompress := qn_recompress n; qn_dont_compress := qn_dont_compress n |}.
(** The counter of a node has 16 bits. *)
Definition set_count (n : quicklistNode) (c : Z) : quicklistNode :=
  {| qn_entry := qn_entry n; qn_sz := qn_sz n; qn_count := Z.land c 65535; qn_lzf := qn_lzf n; qn_plain := qn_plain n; qn_recompress := qn_recompress n; qn_dont_compress := qn_dont_compress n |}.

Definition quicklistCreate : quicklist := {| ql_nodes := []; ql_fresh := 0; ql_count := 0; ql_len := 0; ql_fill := -2; ql_compress := 0 |}.

Definition quicklistSetCompressDepth (ql : quicklist) (compress : Z) : quicklist :=
  {| ql_nodes := ql_nodes ql; ql_fresh := ql_fresh ql; ql_count := ql_count ql; ql_len := ql_len ql; ql_fill := ql_fill ql;
     ql_compress := if compress >? COMPRESS_MAX then COMPRESS_MAX else if compress <? 0 then 0 else compress |}.
Definition quicklistSetFill (ql : quicklist) (fill : Z) : quicklist :=
  {| ql_nodes := ql_nodes ql; ql_fresh := ql_fresh ql; ql_count := ql_count ql; ql_len := ql_len ql;
     ql_fill := if fill >? FILL_MAX then FILL_MAX else if fill <? -5 then -5 else fill; ql_compress := ql_compress ql |}.
Definition quicklistSetOptions (ql : quicklist) (fill compress : Z) : quicklist := quicklistSetCompressDepth (quicklistSetFill ql fill) compress.
Definition quicklistNew (fill compress : Z) : quicklist := quicklistSetOptions quicklistCreate fill compress.

Definition quicklistCreateNode : quicklistNode := {| qn_entry := []; qn_sz := 0; qn_count := 0; qn_lzf := false; qn_plain := false; qn_recompress := false; qn_dont_compress := false |}.

(** A new node gets its number when it is inserted. *)
Definition fresh_node (ql : quicklist) : nat * quicklist :=
  (ql_fresh ql, {| ql_nodes := ql_nodes ql; ql_fresh := S (ql_fresh ql); ql_count := ql_count ql; ql_len := ql_len ql; ql_fill := ql_fill ql; ql_compress := ql_compress ql |}).

(** ** Limits *)

Definition sizeMeetsSafetyLimit (sz : Z) : bool := sz <=? SIZE_SAFETY_LIMIT.

Definition optimization_level : list Z := [4096; 8192; 16384; 32768; 65536].

Definition quicklistNodeNegFillLimit (fill : Z) : option Z :=
  _ ← cassert (fill <? 0);
  let offset := - fill - 1 in
  optimization_level !! Z.to_nat (if offset >=? 5 then 4 else offset).

(** The limit is one of the size or of the number of elements. *)
Definition quicklistNodeLimit (fill : Z) : option (option Z * option Z) :=
  if fill >=? 0 then Some (None, Some (if fill =? 0 then 1 else fill))
  else sz ← quicklistNodeNegFillLimit fill; Some (Some sz, None).

Definition quicklistNodeExceedsLimit (fill new_sz new_count : Z) : option bool :=
  '(sz_limit, count_limit) ← quicklistNodeLimit fill;
  match sz_limit, count_limit with
  | Some sz_limit, _ => Some (new_sz >? sz_limit)
  | None, Some count_limit => Some (negb (sizeMeetsSafetyLimit new_sz) || (new_count >? count_limit))
  | None, None => None
  end.

Section Alloc.
Context (junk : nat -> Z) (usable : Z -> Z) (lzf_base : Z) (lzf_junk : Z -> Z) (packed_threshold : Z).

Definition isLargeElement (sz fill : Z) : option bool :=
  if negb (packed_threshold =? 0) then Some (sz >=? packed_threshold)
  else if fill >=? 0 then Some (negb (sizeMeetsSafetyLimit sz))
  else limit ← quicklistNodeNegFillLimit fill; Some (sz >? limit).

Definition _quicklistNodeAllowInsert (node : option quicklistNode) (fill sz : Z) : option bool :=
  match node with
  | None => Some false
  | Some node =>
      large ← isLargeElement sz fill;
      if qn_plain node || large then Some false
      else exceeds ← quicklistNodeExceedsLimit fill (qn_sz node + sz + SIZE_ESTIMATE_OVERHEAD) (qn_count node + 1); Some (negb exceeds)
  end.

(** [merge_sz] is an [unsigned int]. *)
Definition _quicklistNodeAllowMerge (a b : option quicklistNode) (fill : Z) : option bool :=
  match a, b with
  | Some a, Some b =>
      if qn_plain a || qn_plain b then Some false
      else exceeds ← quicklistNodeExceedsLimit fill (u32 (qn_sz a + qn_sz b - 7)) (qn_count a + qn_count b); Some (negb exceeds)
  | _, _ => Some false
  end.

(** ** Compression *)

Definition __quicklistCompressNode (ql : quicklist) (id : nat) : option quicklist :=
  node ← get_node ql id;
  if qn_dont_compress node then Some ql
  else
    _ ← cassert (bool_decide (is_Some (q_prev ql id)) && bool_decide (is_Some (q_next ql id)));
    let node := set_recompress node false in
    let ql := set_node ql id node in
    if qn_sz node <? MIN_COMPRESS_BYTES then Some ql
    else
      inp ← rd_bytes (qn_entry node) 0 (qn_sz node);
      '(out, n) ← lzf_compress lzf_base lzf_junk inp (realloc junk [] (qn_sz node));
      if (n =? 0) || (n + MIN_COMPRESS_IMPROVE >=? qn_sz node) then Some ql
      else Some (set_node ql id (set_entry node (take (Z.to_nat n) out) (qn_sz node) true)).

Definition quicklistCompressNode (ql : quicklist) (id : option nat) : option quicklist :=
  match id with
  | None => Some ql
  | Some id => node ← get_node ql id; if negb (qn_lzf node) then __quicklistCompressNode ql id else Some ql
  end.

(** A node that cannot be decoded stays as it is. *)
Definition __quicklistDecompressNode (ql : quicklist) (id : nat) : option quicklist :=
  node ← get_node ql id;
  let node := set_recompress node false in
  r ← lzf_decompress (qn_entry node) (qn_sz node);
  match r with
  | inr (out, n) => if n =? 0 then Some (set_node ql id node) else Some (set_node ql id (set_entry node out (qn_sz node) false))
  | inl _ => Some (set_node ql id node)
  end.

Definition quicklistDecompressNode (ql : quicklist) (id : option nat) : option quicklist :=
  match id with
  | None => Some ql
  | Some id => node ← get_node ql id; if qn_lzf node then __quicklistDecompressNode ql id else Some ql
  end.

Definition quicklistDecompressNodeForUse (ql : quicklist) (id : nat) : option quicklist :=
  node ← get_node ql id;
  if qn_lzf node then
    ql ← __quicklistDecompressNode ql id; node ← get_node ql id; Some (set_node ql id (set_recompress node true))
  else Some ql.

(** The walk from both ends: [inl] when it returns early, [inr] with the nodes beyond the
    depth and whether [node] was passed. *)
Fixpoint compress_walk (depth : nat) (ql : quicklist) (node : option nat) (forward reverse : nat) (in_depth : bool) : option (quicklist * option (nat * nat * bool)) :=
  match depth with
  | O => Some (ql, Some (forward, reverse, in_depth))
  | S depth =>
      ql ← quicklistDecompressNode ql (Some forward);
      ql ← quicklistDecompressNode ql (Some reverse);
      let in_depth := in_depth || bool_decide (Some forward = node \/ Some reverse = node) in
      if (forward =? reverse)%nat || bool_decide (q_next ql forward = Some reverse) then Some (ql, None)
      else
        forward ← q_next ql forward; reverse ← q_prev ql reverse;
        compress_walk depth ql node forward reverse in_depth
  end.

Definition __quicklistCompress (ql : quicklist) (node : option nat) : option quicklist :=
  if ql_len ql =? 0 then Some ql
  else
    head ← ql_head ql; tail ← ql_tail ql;
    h ← get_node ql head; t ← get_node ql tail;
    _ ← cassert (negb (qn_recompress h) && negb (qn_recompress t));
    if (ql_compress ql =? 0) || (ql_len ql <? ql_compress ql * 2) then Some ql
    else
      '(ql, r) ← compress_walk (Z.to_nat (ql_compress ql)) ql node head tail false;
      match r with
      | None => Some ql
      | Some (forward, reverse, in_depth) =>
          ql ← (if negb in_depth then quicklistCompressNode ql node else Some ql);
          ql ← quicklistCompressNode ql (Some forward);
          quicklistCompressNode ql (Some reverse)
      end.

Definition quicklistCompress (ql : quicklist) (id : nat) : option quicklist :=
  node ← get_node ql id;
  if qn_recompress node then quicklistCompressNode ql (Some id) else __quicklistCompress ql (Some id).

Definition quicklistRecompressOnly (ql : quicklist) (id : nat) : option quicklist :=
  node ← get_node ql id;
  if qn_recompress node then quicklistCompressNode ql (Some id) else Some ql.

(** ** Insertion and deletion of nodes *)

Definition __quicklistInsertNode (ql : quicklist) (old : option nat) (id : nat) (new : quicklistNode) (after : bool) : option quicklist :=
  nodes ← match old with
    | Some old => _ ← get_node ql old; Some (node_insert old (id, new) after (ql_nodes ql))
    | None => _ ← cassert (ql_len ql =? 0); Some [(id, new)]
    end;
  let ql := with_len (with_nodes ql nodes) (ql_len ql + 1) in
  ql ← match old with Some old => quicklistCompress ql old | None => Some ql end;
  quicklistCompress ql id.

(** The node is freed. *)
Definition __quicklistDelNode (ql : quicklist) (id : nat) : option quicklist :=
  node ← get_node ql id;
  let ql := with_count (with_len (with_nodes ql (node_del id (ql_nodes ql))) (ql_len ql - 1)) (ql_count ql - qn_count node) in
  __quicklistCompress ql None.

(** The listpack after a change, which must not be NULL, with its size. *)
Definition update_lp (node : quicklistNode) (lp : option (option (list Z * option Z))) : option quicklistNode :=
  r ← lp; '(lp, _) ← r; sz ← lpBytes lp; Some (set_entry node lp sz (qn_lzf node)).

Definition new_packed (value : list Z) : option quicklistNode :=
  lp ← lpNew junk usable 0; update_lp quicklistCreateNode (lpPrepend junk usable lp value).

Definition __quicklistCreateNode (plain : bool) (value : list Z) : option quicklistNode :=
  if plain then Some {| qn_entry := value; qn_sz := zlen value; qn_count := 1; qn_lzf := false; qn_plain := true; qn_recompress := false; qn_dont_compress := false |}
  else node ← new_packed value; Some (set_count node 1).

Definition __quicklistInsertPlainNode (ql : quicklist) (old : option nat) (value : list Z) (after : bool) : option quicklist :=
  node ← __quicklistCreateNode true value;
  let '(id, ql) := fresh_node ql in
  ql ← __quicklistInsertNode ql old id node after;
  Some (with_count ql (ql_count ql + 1)).

(** ** Ends *)

Definition node_of (ql : quicklist) (id : option nat) : option quicklistNode := id ← id; get_node ql id.

Definition quicklistPushHead (ql : quicklist) (value : list Z) : option quicklist :=
  let orig_head := ql_head ql in
  large ← isLargeElement (zlen value) (ql_fill ql);
  if large : bool then __quicklistInsertPlainNode ql orig_head value false
  else
    allow ← _quicklistNodeAllowInsert (node_of ql orig_head) (ql_fill ql) (zlen value);
    ql ← (if allow : bool then
            id ← orig_head; node ← get_node ql id;
            node ← update_lp node (lpPrepend junk usable (qn_entry node) value); Some (set_node ql id node)
          else
            node ← new_packed value;
            let '(id, ql) := fresh_node ql in
            __quicklistInsertNode ql orig_head id node false);
    id ← ql_head ql; node ← get_node ql id;
    Some (with_count (set_node ql id (set_count node (qn_count node + 1))) (ql_count ql + 1)).

Definition quicklistPushTail (ql : quicklist) (value : list Z) : option quicklist :=
  let orig_tail := ql_tail ql in
  large ← isLargeElement (zlen value) (ql_fill ql);
  if large : bool then __quicklistInsertPlainNode ql orig_tail value true
  else
    allow ← _quicklistNodeAllowInsert (node_of ql orig_tail) (ql_fill ql) (zlen value);
    ql ← (if allow : bool then
            id ← orig_tail; node ← get_node ql id;
            node ← update_lp node (lpAppend junk usable (qn_entry node) value); Some (set_node ql id node)
          else
            lp ← lpNew junk usable 0;
            node ← update_lp quicklistCreateNode (lpAppend junk usable lp value);
            let '(id, ql) := fresh_node ql in
            __quicklistInsertNode ql orig_tail id node true);
    id ← ql_tail ql; node ← get_node ql id;
    Some (with_count (set_node ql id (set_count node (qn_count node + 1))) (ql_count ql + 1)).

Definition is_raw (ql : quicklist) (id : option nat) : bool := match node_of ql id with Some n => negb (qn_lzf n) | None => true end.

Definition quicklistPush (ql : quicklist) (value : list Z) (where_head : bool) : option quicklist :=
  _ ← cassert (is_raw ql (ql_head ql) && is_raw ql (ql_tail ql));
  if where_head then quicklistPushHead ql value else quicklistPushTail ql value.

Definition quicklistAppendListpack (ql : quicklist) (zl : list Z) : option quicklist :=
  '(count, zl) ← lpLength zl;
  sz ← lpBytes zl;
  let node := set_count (set_entry quicklistCreateNode zl sz false) count in
  let '(id, ql) := fresh_node ql in
  ql ← __quicklistInsertNode ql (ql_tail ql) id node true;
  Some (with_count ql (ql_count ql + qn_count node)).

Definition quicklistAppendPlainNode (ql : quicklist) (data : list Z) : option quicklist :=
  node ← __quicklistCreateNode true data;
  let '(id, ql) := fresh_node ql in
  ql ← __quicklistInsertNode ql (ql_tail ql) id node true;
  Some (with_count ql (ql_count ql + qn_count node)).

(** Whether the node is gone, and the entry after the deleted one. *)
Definition quicklistDelIndex (ql : quicklist) (id : nat) (p : option Z) : option (quicklist * bool * option Z) :=
  node ← get_node ql id;
  if qn_plain node then ql ← __quicklistDelNode ql id; Some (ql, true, p)
  else
    p ← p;
    r ← lpDelete junk usable (qn_entry node) p; '(lp, p) ← r;
    sz ← lpBytes lp;
    let node := set_count (set_entry node lp sz (qn_lzf node)) (qn_count node - 1) in
    let ql := set_node ql id node in
    ql ← (if qn_count node =? 0 then __quicklistDelNode ql id else Some ql);
    Some (with_count ql (ql_count ql - 1), qn_count node =? 0, p).

(** A string or an integer, as [lpGetValue] gives it. *)
Definition read_value (lp : list Z) (p : Z) : option listpackEntry :=
  v ← lpGetValue lp p;
  match v with LStr off len => s ← rd_bytes lp off len; Some (SVal s) | LInt v => Some (LVal v) end.

Definition quicklistPopCustom (ql : quicklist) (where_head : bool) : option (option listpackEntry * quicklist) :=
  if ql_count ql =? 0 then Some (None, ql)
  else
    match (if where_head then ql_head ql else ql_tail ql) with
    | None => Some (None, ql)
    | Some id =>
        node ← get_node ql id;
        _ ← cassert (negb (qn_lzf node));
        if qn_plain node then
          data ← rd_bytes (qn_entry node) 0 (qn_sz node);
          '(ql, _, _) ← quicklistDelIndex ql id None; Some (Some (SVal data), ql)
        else
          r ← lpSeek (qn_entry node) (if where_head then 0 else -1); p ← r;
          v ← read_value (qn_entry node) p;
          '(ql, _, _) ← quicklistDelIndex ql id (Some p); Some (Some v, ql)
    end.

(** [quicklistPop] passes its own copy function. *)
Definition quicklistPop (ql : quicklist) (where_head : bool) : option (option listpackEntry * quicklist) :=
  if ql_count ql =? 0 then Some (None, ql) else quicklistPopCustom ql where_head.

(** The tail node moves to the front. *)
Definition quicklistRotatePlain (ql : quicklist) : option quicklist :=
  match reverse (ql_nodes ql) with
  | t :: rest => _ ← cassert (bool_decide (rest <> [])); Some (with_nodes ql (t :: reverse rest))
  | [] => None
  end.

Definition quicklistRotate (ql : quicklist) : option quicklist :=
  if ql_count ql <=? 1 then Some ql
  else
    id ← ql_tail ql; node ← get_node ql id;
    if qn_plain node then quicklistRotatePlain ql
    else
      r ← lpSeek (qn_entry node) (-1); p ← r;
      v ← read_value (qn_entry node) p;
      value ← match v with SVal s => Some s | LVal v => '(buf, sz) ← ll2string (replicate 32 0) 0 32 v; rd_bytes buf 0 sz end;
      ql ← quicklistPushHead ql value;
      id ← ql_tail ql; node ← get_node ql id;
      p ← (if ql_len ql =? 1 then r ← lpSeek (qn_entry node) (-1); r else Some p);
      '(ql, _, _) ← quicklistDelIndex ql id (Some p); Some ql.

(** ** Merging and splitting *)

(** The node that stays. *)
Definition _quicklistListpackMerge (ql : quicklist) (a b : nat) : option (quicklist * nat) :=
  ql ← quicklistDecompressNode ql (Some a);
  ql ← quicklistDecompressNode ql (Some b);
  na ← get_node ql a; nb ← get_node ql b;
  '(lp, first) ← lpMerge junk usable (qn_entry na) (qn_entry nb);
  let '(keep, nkeep, nokeep) := if first : bool then (a, na, b) else (b, nb, a) in
  '(count, lp) ← lpLength lp;
  sz ← lpBytes lp;
  let ql := set_node ql keep (set_recompress (set_count (set_entry nkeep lp sz (qn_lzf nkeep)) count) false) in
  n ← get_node ql nokeep;
  let ql := set_node ql nokeep (set_count n 0) in
  ql ← __quicklistDelNode ql nokeep;
  ql ← quicklistCompress ql keep;
  Some (ql, keep).

Definition _quicklistMergeNodes (ql : quicklist) (center : nat) : option (quicklist * nat) :=
  let fill := ql_fill ql in
  let prev := q_prev ql center in
  let prev_prev := prev ← prev; q_prev ql prev in
  let next := q_next ql center in
  let next_next := next ← next; q_next ql next in
  allow ← _quicklistNodeAllowMerge (node_of ql prev) (node_of ql prev_prev) fill;
  ql ← (if allow : bool then pp ← prev_prev; p ← prev; '(ql, _) ← _quicklistListpackMerge ql pp p; Some ql else Some ql);
  allow ← _quicklistNodeAllowMerge (node_of ql next) (node_of ql next_next) fill;
  ql ← (if allow : bool then n ← next; nn ← next_next; '(ql, _) ← _quicklistListpackMerge ql n nn; Some ql else Some ql);
  allow ← _quicklistNodeAllowMerge (node_of ql (Some center)) (node_of ql (q_prev ql center)) fill;
  '(ql, target) ← (if allow : bool then p ← q_prev ql center; _quicklistListpackMerge ql p center else Some (ql, center));
  allow ← _quicklistNodeAllowMerge (node_of ql (Some target)) (node_of ql (q_next ql target)) fill;
  if allow : bool then n ← q_next ql target; _quicklistListpackMerge ql target n else Some (ql, target).

(** The new node; -1 deletes to the end. *)
Definition _quicklistSplitNode (ql : quicklist) (id : nat) (offset : Z) (after : bool) : option (quicklist * quicklistNode) :=
  node ← get_node ql id;
  copy ← rd_bytes (qn_entry node) 0 (qn_sz node);
  let offset := if offset <? 0 then qn_count node + offset else offset in
  lp ← lpDeleteRange junk usable (qn_entry node) (if after then offset + 1 else 0) (u64 (if after then -1 else offset));
  '(count, lp) ← lpLength lp; sz ← lpBytes lp;
  let ql := set_node ql id (set_count (set_entry node lp sz (qn_lzf node)) count) in
  lp ← lpDeleteRange junk usable copy (if after then 0 else offset) (u64 (if after then offset + 1 else -1));
  '(count, lp) ← lpLength lp; sz ← lpBytes lp;
  Some (ql, set_count (set_entry quicklistCreateNode lp sz false) count).
End Alloc.
