(* ===== verification/QuicklistOps.v ===== *)
(** * Iterators and updates of quicklists

    A position in a listpack is the offset of the entry in it; in a plain node it is 0. *)

From stdpp Require Import base list numbers option tactics.
From S2P Require Import Prelude Util ListpackEnc Listpack Lzf Quicklist.

Record quicklistIter := { qi_current : option nat; qi_zi : option Z; qi_offset : Z; qi_forward : bool }.
Record quicklistEntry := { qe_node : option nat; qe_zi : option Z; qe_offset : Z; qe_value : option listpackEntry }.

Definition resetIterator (iter : quicklistIter) : quicklistIter := {| qi_current := None; qi_zi := None; qi_offset := qi_offset iter; qi_forward := qi_forward iter |}.

Definition quicklistInitIterator (ql : quicklist) (forward : bool) : quicklistIter :=
  {| qi_current := if forward then ql_head ql else ql_tail ql; qi_zi := None; qi_offset := if forward then 0 else -1; qi_forward := forward |}.

Definition quicklistSetDirection (iter : quicklistIter) (forward : bool) : quicklistIter :=
  {| qi_current := qi_current iter; qi_zi := qi_zi iter; qi_offset := qi_offset iter; qi_forward := forward |}.

(** The node with the element [seek_index], and the elements before it. *)
Fixpoint seek_node (l : list (nat * quicklistNode)) (seek_index accum : Z) : option (nat * quicklistNode * Z) :=
  match l with
  | [] => None
  | (id, n) :: l => if accum + qn_count n >? seek_index then Some (id, n, accum) else seek_node l seek_index (accum + qn_count n)
  end.

(** [None] inside is an index out of range. *)
Definition quicklistInitIteratorAtIdx (ql : quicklist) (forward_dir : bool) (idx : Z) : quicklistIter * bool :=
  let iter := quicklistInitIterator ql forward_dir in
  let out := ({| qi_current := None; qi_zi := qi_zi iter; qi_offset := qi_offset iter; qi_forward := qi_forward iter |}, false) in
  if idx =? INT64_MIN then out
  else
    let forward := negb (idx <? 0) in
    let index := if forward then idx else - idx - 1 in
    if index >=? ql_count ql then out
    else
      let other := index >? (ql_count ql - 1) / 2 in
      let seek_forward := if other then negb forward else forward in
      let seek_index := if other then ql_count ql - 1 - index else index in
      match seek_node (if seek_forward then ql_nodes ql else reverse (ql_nodes ql)) seek_index 0 with
      | None => out
      | Some (id, n, accum) =>
          let accum := if Bool.eqb seek_forward forward then accum else ql_count ql - qn_count n - accum in
          ({| qi_current := Some id; qi_zi := qi_zi iter; qi_offset := if forward then index - accum else - index - 1 + accum; qi_forward := qi_forward iter |}, true)
      end.

Section Alloc.
Context (junk : nat -> Z) (usable : Z -> Z) (lzf_base : Z) (lzf_junk : Z -> Z) (packed_threshold : Z).

Definition quicklistResetIterator (ql : quicklist) (iter : quicklistIter) : option quicklist :=
  match qi_current iter with Some id => quicklistCompress junk lzf_base lzf_junk ql id | None => Some ql end.

(** The entry when there is one more. *)
Fixpoint quicklistNext (fuel : nat) (ql : quicklist) (iter : quicklistIter) : option (quicklist * quicklistIter * option quicklistEntry) :=
  match fuel with
  | O => None
  | S fuel =>
      match qi_current iter with
      | None => Some (ql, iter, None)
      | Some id =>
          node ← get_node ql id;
          let plain := qn_plain node in
          '(ql, zi, offset) ← match qi_zi iter with
            | None =>
                ql ← quicklistDecompressNodeForUse ql id;
                node ← get_node ql id;
                zi ← (if plain then Some (Some 0) else lpSeek (qn_entry node) (qi_offset iter));
                Some (ql, zi, qi_offset iter)
            | Some zi =>
                if plain then Some (ql, None, qi_offset iter)
                else if qi_forward iter then zi ← lpNext (qn_entry node) zi; Some (ql, zi, qi_offset iter + 1)
                else zi ← lpPrev (qn_entry node) zi; Some (ql, zi, qi_offset iter - 1)
            end;
          match zi with
          | Some p =>
              node ← get_node ql id;
              v ← (if plain then s ← rd_bytes (qn_entry node) 0 (qn_sz node); Some (SVal s) else read_value (qn_entry node) p);
              Some (ql, {| qi_current := Some id; qi_zi := Some p; qi_offset := offset; qi_forward := qi_forward iter |}, Some {| qe_node := Some id; qe_zi := Some p; qe_offset := offset; qe_value := Some v |})
          | None =>
              ql ← quicklistCompress junk lzf_base lzf_junk ql id;
              quicklistNext fuel ql {| qi_current := if qi_forward iter then q_next ql id else q_prev ql id; qi_zi := None; qi_offset := if qi_forward iter then 0 else -1; qi_forward := qi_forward iter |}
          end
      end
  end.

(** Every node is visited once. *)
Definition quicklist_next (ql : quicklist) (iter : quicklistIter) := quicklistNext (S (S (length (ql_nodes ql)))) ql iter.

Definition quicklistInitIteratorEntryAtIdx (ql : quicklist) (idx : Z) : option (quicklist * quicklistIter * option quicklistEntry) :=
  let '(iter, ok) := quicklistInitIteratorAtIdx ql false idx in
  if negb ok then Some (ql, iter, None)
  else
    '(ql, iter, entry) ← quicklist_next ql iter;
    _ ← cassert (bool_decide (is_Some entry));
    Some (ql, iter, entry).

(** The element at an index, as LINDEX reads it. *)
Definition quicklist_index (ql : quicklist) (idx : Z) : option (quicklist * option listpackEntry) :=
  '(ql, iter, entry) ← quicklistInitIteratorEntryAtIdx ql idx;
  match entry with
  | None => Some (ql, None)
  | Some e => v ← qe_value e; ql ← quicklistResetIterator ql iter; Some (ql, Some v)
  end.

(** ** Insertion *)

Definition update_node (ql : quicklist) (id : nat) (f : quicklistNode -> option quicklistNode) : option quicklist :=
  node ← get_node ql id; node ← f node; Some (set_node ql id node).

(** One more element in a node. *)
Definition grow_node (f : list Z -> option (option (list Z * option Z))) (node : quicklistNode) : option quicklistNode :=
  node ← update_lp node (f (qn_entry node)); Some (set_count node (qn_count node + 1)).

Definition insert_node (ql : quicklist) (old : option nat) (node : quicklistNode) (after : bool) : option (quicklist * nat) :=
  let '(id, ql) := fresh_node ql in
  ql ← __quicklistInsertNode junk lzf_base lzf_junk ql old id node after; Some (ql, id).

Definition _quicklistInsert (ql : quicklist) (entry : quicklistEntry) (value : list Z) (after : bool) : option quicklist :=
  let fill := ql_fill ql in
  let sz := zlen value in
  large ← isLargeElement packed_threshold sz fill;
  match qe_node entry with
  | None =>
      if large : bool then __quicklistInsertPlainNode junk usable lzf_base lzf_junk ql (ql_tail ql) value after
      else
        node ← new_packed junk usable value;
        '(ql, id) ← insert_node ql None node after;
        ql ← update_node ql id (fun n => Some (set_count n (qn_count n + 1)));
        Some (with_count ql (ql_count ql + 1))
  | Some id =>
      node ← get_node ql id;
      allow ← _quicklistNodeAllowInsert packed_threshold (Some node) fill sz;
      let full := negb allow in
      let at_tail := after && ((qe_offset entry =? qn_count node - 1) || (qe_offset entry =? -1)) in
      let at_head := negb after && ((qe_offset entry =? 0) || (qe_offset entry =? - qn_count node)) in
      avail_next ← _quicklistNodeAllowInsert packed_threshold (if at_tail then node_of ql (q_next ql id) else None) fill sz;
      avail_prev ← _quicklistNodeAllowInsert packed_threshold (if at_head then node_of ql (q_prev ql id) else None) fill sz;
      if large : bool then
        if qn_plain node || at_tail || at_head then __quicklistInsertPlainNode junk usable lzf_base lzf_junk ql (Some id) value after
        else
          ql ← quicklistDecompressNodeForUse ql id;
          '(ql, split) ← _quicklistSplitNode junk usable ql id (qe_offset entry) after;
          node ← __quicklistCreateNode junk usable true value;
          '(ql, new) ← insert_node ql (Some id) node after;
          '(ql, _) ← insert_node ql (Some new) split after;
          Some (with_count ql (ql_count ql + 1))
      else
        ql ← (if negb full then
                ql ← quicklistDecompressNodeForUse ql id;
                p ← qe_zi entry;
                ql ← update_node ql id (grow_node (fun lp => lpInsertString junk usable lp value p (if after then LP_AFTER else LP_BEFORE)));
                quicklistRecompressOnly junk lzf_base lzf_junk ql id
              else if at_tail && avail_next then
                next ← q_next ql id;
                ql ← quicklistDecompressNodeForUse ql next;
                ql ← update_node ql next (grow_node (fun lp => lpPrepend junk usable lp value));
                ql ← quicklistRecompressOnly junk lzf_base lzf_junk ql next;
                quicklistRecompressOnly junk lzf_base lzf_junk ql id
              else if at_head && avail_prev then
                prev ← q_prev ql id;
                ql ← quicklistDecompressNodeForUse ql prev;
                ql ← update_node ql prev (grow_node (fun lp => lpAppend junk usable lp value));
                ql ← quicklistRecompressOnly junk lzf_base lzf_junk ql prev;
                quicklistRecompressOnly junk lzf_base lzf_junk ql id
              else if at_tail || at_head then
                node ← new_packed junk usable value;
                '(ql, _) ← insert_node ql (Some id) (set_count node 1) after; Some ql
              else
                ql ← quicklistDecompressNodeForUse ql id;
                '(ql, split) ← _quicklistSplitNode junk usable ql id (qe_offset entry) after;
                split ← grow_node (fun lp => if after then lpPrepend junk usable lp value else lpAppend junk usable lp value) split;
                '(ql, _) ← insert_node ql (Some id) split after;
                '(ql, _) ← _quicklistMergeNodes junk usable lzf_base lzf_junk ql id;
                Some ql);
        Some (with_count ql (ql_count ql + 1))
  end.

(** Insertion at an index, as LINSERT does it: the entry, then before or after it. *)
Definition quicklist_insert_at (ql : quicklist) (idx : Z) (value : list Z) (after : bool) : option (quicklist * bool) :=
  '(ql, iter, entry) ← quicklistInitIteratorEntryAtIdx ql idx;
  match entry with
  | None => Some (ql, false)
  | Some e => ql ← _quicklistInsert ql e value after; Some (ql, true)
  end.

(** ** Deletion and replacement *)

Definition quicklistDelEntry (ql : quicklist) (iter : quicklistIter) (entry : quicklistEntry) : option (quicklist * quicklistIter) :=
  id ← qe_node entry;
  let prev := q_prev ql id in
  let next := q_next ql id in
  '(ql, deleted_node, _) ← quicklistDelIndex junk usable lzf_base lzf_junk ql id (qe_zi entry);
  Some (ql, if deleted_node : bool then
              {| qi_current := if qi_forward iter then next else prev; qi_zi := None; qi_offset := if qi_forward iter then 0 else -1; qi_forward := qi_forward iter |}
            else {| qi_current := qi_current iter; qi_zi := None; qi_offset := qi_offset iter; qi_forward := qi_forward iter |}).

Definition quicklistReplaceEntry (ql : quicklist) (entry : quicklistEntry) (data : list Z) : option quicklist :=
  id ← qe_node entry;
  node ← get_node ql id;
  large ← isLargeElement packed_threshold (zlen data) (ql_fill ql);
  newentry ← (if negb (qn_plain node) && negb large then p ← qe_zi entry; lpReplace junk usable (qn_entry node) p data else Some None);
  match newentry with
  | Some (lp, _) =>
      sz ← lpBytes lp;
      quicklistCompress junk lzf_base lzf_junk (set_node ql id (set_entry node lp sz (qn_lzf node))) id
  | None =>
      if qn_plain node then
        if large : bool then quicklistCompress junk lzf_base lzf_junk (set_node ql id (set_entry node data (zlen data) (qn_lzf node))) id
        else ql ← _quicklistInsert ql entry data true; __quicklistDelNode junk lzf_base lzf_junk ql id
      else
        let ql := set_node ql id (set_dont_compress node true) in
        '(ql, split) ← (if negb (qe_offset entry =? qn_count node - 1) && negb (qe_offset entry =? -1) then
                          '(ql, split) ← _quicklistSplitNode junk usable ql id (qe_offset entry) true; Some (ql, Some split)
                        else Some (ql, None));
        new_node ← __quicklistCreateNode junk usable large data;
        '(ql, new) ← insert_node ql (Some id) new_node true;
        ql ← match split with Some split => '(ql, _) ← insert_node ql (Some new) split true; Some ql | None => Some ql end;
        let ql := with_count ql (ql_count ql + 1) in
        node ← get_node ql id;
        if qn_count node =? 1 then __quicklistDelNode junk lzf_base lzf_junk ql id
        else
          r ← lpSeek (qn_entry node) (-1);
          '(ql, _, _) ← quicklistDelIndex junk usable lzf_base lzf_junk ql id r;
          ql ← update_node ql id (fun n => Some (set_dont_compress n false));
          '(ql, new) ← _quicklistMergeNodes junk usable lzf_base lzf_junk ql new;
          ql ← quicklistCompress junk lzf_base lzf_junk ql new;
          prev ← q_prev ql new;
          ql ← quicklistCompress junk lzf_base lzf_junk ql prev;
          match q_next ql new with Some next => quicklistCompress junk lzf_base lzf_junk ql next | None => Some ql end
  end.

(** The iterator was reset, so nothing is left to recompress. *)
Definition quicklistReplaceAtIndex (ql : quicklist) (index : Z) (data : list Z) : option (quicklist * bool) :=
  '(ql, iter, entry) ← quicklistInitIteratorEntryAtIdx ql index;
  match entry with
  | None => Some (ql, false)
  | Some e => ql ← quicklistReplaceEntry ql e data; ql ← quicklistResetIterator ql (resetIterator iter); Some (ql, true)
  end.

(** How much of a node goes, and whether all of it. *)
Definition del_part (offset extent count : Z) : bool * Z :=
  if (offset =? 0) && (extent >=? count) then (true, count)
  else if (offset >=? 0) && (extent + offset >=? count) then (false, count - offset)
  else if offset <? 0 then (false, if - offset >? extent then extent else - offset)
  else (false, extent).

Fixpoint del_range_loop (fuel : nat) (ql : quicklist) (node : option nat) (offset extent : Z) : option quicklist :=
  match fuel with
  | O => None
  | S fuel =>
      if extent =? 0 then Some ql
      else
        id ← node; n ← get_node ql id;
        let next := q_next ql id in
        let '(entire, del) := del_part offset extent (qn_count n) in
        ql ← (if entire || qn_plain n then __quicklistDelNode junk lzf_base lzf_junk ql id
              else
                ql ← quicklistDecompressNodeForUse ql id;
                n ← get_node ql id;
                lp ← lpDeleteRange junk usable (qn_entry n) offset del;
                sz ← lpBytes lp;
                let n := set_count (set_entry n lp sz (qn_lzf n)) (qn_count n - del) in
                let ql := with_count (set_node ql id n) (ql_count ql - del) in
                if qn_count n =? 0 then __quicklistDelNode junk lzf_base lzf_junk ql id
                else quicklistRecompressOnly junk lzf_base lzf_junk ql id);
        del_range_loop fuel ql next 0 (extent - del)
  end.

Definition quicklistDelRange (ql : quicklist) (start count : Z) : option (quicklist * bool) :=
  if (count <=? 0) || (start =? INT64_MIN) then Some (ql, false)
  else if (start >=? 0) && (start >=? ql_count ql) then Some (ql, false)
  else
    let extent := if (start >=? 0) && (count >? ql_count ql - start) then ql_count ql - start else if (start <? 0) && (count >? - start) then - start else count in
    let '(iter, ok) := quicklistInitIteratorAtIdx ql false start in
    if negb ok then Some (ql, false)
    else
      ql ← quicklistResetIterator ql iter;
      ql ← del_range_loop (S (length (ql_nodes ql))) ql (qi_current iter) (qi_offset iter) extent;
      Some (ql, true).

(** ** Copies *)

Fixpoint dup_nodes (l : list (nat * quicklistNode)) (copy : quicklist) : option quicklist :=
  match l with
  | [] => Some copy
  | (_, n) :: l =>
      entry ← (if qn_lzf n then Some (qn_entry n) else rd_bytes (qn_entry n) 0 (qn_sz n));
      let node := {| qn_entry := entry; qn_sz := qn_sz n; qn_count := qn_count n; qn_lzf := qn_lzf n; qn_plain := qn_plain n; qn_recompress := false; qn_dont_compress := false |} in
      let copy := with_count copy (ql_count copy + qn_count n) in
      '(copy, _) ← insert_node copy (ql_tail copy) node true;
      dup_nodes l copy
  end.

Definition quicklistDup (orig : quicklist) : option quicklist := dup_nodes (ql_nodes orig) (quicklistNew (ql_fill orig) (ql_compress orig)).
End Alloc.
