(* ===== verification/QuicklistSpec.v ===== *)
(** * What a quicklist represents

    The contents of a node, the states of nodes that hold them, compressed or not, and the
    operations on listpacks and on compressed blocks in terms of contents. *)

From stdpp Require Import base list numbers option tactics.
From S2P Require Import Prelude Util ListpackEnc Listpack ListpackNav ListpackUpd ListpackBulk Lzf LzfSpec Quicklist.

(** ** Contents *)

Inductive content := Plain (v : list Z) | Packed (es : list (list Z)).

Definition vals (c : content) : list (list Z) := match c with Plain v => [v] | Packed es => omap entry_text es end.
Definition is_plain (c : content) : bool := match c with Plain _ => true | Packed _ => false end.
Definition csize (c : content) : Z := match c with Plain v => zlen v | Packed es => total_bytes es end.

(** The largest number of elements of a node, and the largest element of a listpack in one. *)
Definition MAX_ELEMENTS : Z := 32764.
Definition MAX_ENTRY : Z := 65544.

Definition cont_ok (c : content) : Prop :=
  match c with
  | Plain v => Forall is_byte v /\ zlen v < 2 ^ 32
  | Packed es => Forall valid_entry es /\ zlen es <= MAX_ELEMENTS /\ Forall (fun e => zlen (ent e) <= MAX_ENTRY) es
  end.

Definition raw (b : list Z) (c : content) : Prop := match c with Plain v => b = v | Packed es => exists num, lp_repr b es num end.

Record node_rep (n : quicklistNode) (c : content) : Prop := {
  nr_plain : qn_plain n = is_plain c;
  nr_sz : qn_sz n = csize c;
  nr_ok : cont_ok c;
  nr_raw : if qn_lzf n then exists b, lzf_decompress (qn_entry n) (qn_sz n) = Some (inr (b, qn_sz n)) /\ raw b c /\ MIN_COMPRESS_BYTES <= qn_sz n
           else raw (qn_entry n) c;
  nr_flag : qn_lzf n = true -> qn_recompress n = false }.

Lemma text_Some e : valid_entry e -> exists v, entry_text e = Some v.
Proof.
  intros He. destruct (valid_entry_get e He) as (v & Hv & Hok). unfold entry_text. rewrite Hv. cbn [mbind option_bind].
  destruct v as [off len|v]; [|by eexists]. destruct Hok as (t & -> & _). by eexists.
Qed.

Lemma vals_cons e es : valid_entry e -> exists v, entry_text e = Some v /\ vals (Packed (e :: es)) = v :: vals (Packed es).
Proof. intros He. destruct (text_Some e He) as [v Hv]. exists v. split; [done|]. cbn [vals omap list_omap]. by rewrite Hv. Qed.

Lemma vals_lookup es i : Forall valid_entry es -> vals (Packed es) !! i = es !! i ≫= entry_text.
Proof.
  intros Hv. revert i. induction Hv as [|e es He _ IH]; intros i; [done|].
  destruct (vals_cons e es He) as (v & Hv & ->). destruct i as [|i]; cbn [lookup list_lookup mbind option_bind]; [by rewrite Hv|apply IH].
Qed.

Lemma length_vals es : Forall valid_entry es -> length (vals (Packed es)) = length es.
Proof.
  intros Hv. induction Hv as [|e es He _ IH]; [done|]. destruct (vals_cons e es He) as (v & _ & ->). cbn [length]. by rewrite IH.
Qed.

Lemma zlen_vals es : Forall valid_entry es -> zlen (vals (Packed es)) = zlen es.
Proof. intros. unfold zlen. by rewrite length_vals. Qed.

Lemma vals_app a b : vals (Packed (a ++ b)) = vals (Packed a) ++ vals (Packed b).
Proof. apply omap_app. Qed.

Lemma vals_take es i : Forall valid_entry es -> vals (Packed (take i es)) = take i (vals (Packed es)).
Proof.
  intros Hv. revert i. induction Hv as [|e es He _ IH]; intros [|i]; [done..|]. cbn [take].
  destruct (vals_cons e es He) as (v & Hv & ->). destruct (vals_cons e (take i es) He) as (v' & Hv' & ->). rewrite IH. cbn. congruence.
Qed.

Lemma vals_drop es i : Forall valid_entry es -> vals (Packed (drop i es)) = drop i (vals (Packed es)).
Proof.
  intros Hv. revert i. induction Hv as [|e es He _ IH]; intros [|i]; [done..|]. cbn [drop].
  destruct (vals_cons e es He) as (v & Hv & ->). apply IH.
Qed.

Lemma vals_delete es i : Forall valid_entry es -> vals (Packed (delete i es)) = delete i (vals (Packed es)).
Proof. intros Hv. by rewrite !delete_take_drop, vals_app, vals_take, vals_drop. Qed.

Lemma vals_one s : Forall is_byte s -> zlen s <= 65536 -> vals (Packed [lp_encode s]) = [s].
Proof. intros Hs Hl. destruct (lp_encode_spec s Hs ltac:(lia)) as [_ He]. cbn [vals omap list_omap]. by rewrite He. Qed.

(** ** Sizes *)

Lemma body_max es : Forall (fun e => zlen (ent e) <= MAX_ENTRY) es -> zlen (body es) <= MAX_ENTRY * zlen es.
Proof. induction 1 as [|e es He _ IH]; [done|]. cbn [body]. unfold MAX_ENTRY in *. zlia. Qed.

Lemma ent_min e : valid_entry e -> 2 <= zlen (ent e).
Proof. intros (_ & _ & Hl & _). rewrite zlen_ent. pose proof (lpEncodeBacklenBytes_pos (zlen e)). lia. Qed.

Lemma body_min es : Forall valid_entry es -> 2 * zlen es <= zlen (body es).
Proof. induction 1 as [|e es He _ IH]; [done|]. cbn [body]. pose proof (ent_min e He). zlia. Qed.

Lemma size_max c : cont_ok c -> csize c < 2 ^ 32 /\ (is_plain c = false -> 7 <= csize c < 2 ^ 31).
Proof.
  destruct c as [v|es]; cbn [cont_ok csize is_plain].
  - intros [_ H]. by split.
  - intros (_ & Hn & He). pose proof (body_max es He). pose proof (zlen_nonneg (body es)). unfold total_bytes, MAX_ENTRY, MAX_ELEMENTS, LP_HDR_SIZE in *. split; [lia|intros _; lia].
Qed.

Lemma size_nonneg c : 0 <= csize c.
Proof. destruct c; cbn [csize]; [apply zlen_nonneg|]. unfold total_bytes, LP_HDR_SIZE. pose proof (zlen_nonneg (body es)). lia. Qed.

Lemma ent_encode s : Forall is_byte s -> zlen s <= 65536 -> zlen (ent (lp_encode s)) <= MAX_ENTRY.
Proof.
  intros Hs Hl. rewrite zlen_ent, lp_encode_zlen. unfold lpEncodeGetType, MAX_ENTRY.
  assert (Hb : forall n, 0 <= n <= 65541 -> n + lpEncodeBacklenBytes n <= 65544).
  { intros n Hn. unfold lpEncodeBacklenBytes. repeat match goal with |- context [?a <=? ?b] => destruct (Z.leb_spec a b) | |- context [?a <? ?b] => destruct (Z.ltb_spec a b) end; lia. }
  pose proof (zlen_nonneg s). apply Hb.
  destruct (lpStringToInt64 s) as [v|] eqn:E; cbn [snd].
  - unfold lpEncodeIntegerGetType. repeat case_match; unfold zlen; cbn [length]; rewrite ?length_map; cbn; lia.
  - repeat case_match; cbn [snd]; lia.
Qed.

Lemma total_app a b : total_bytes (a ++ b) = total_bytes a + total_bytes b - 7.
Proof. unfold total_bytes, LP_HDR_SIZE. rewrite body_app, zlen_app. lia. Qed.

Lemma packed_ok_app a b : cont_ok (Packed a) -> cont_ok (Packed b) -> zlen a + zlen b <= MAX_ELEMENTS -> cont_ok (Packed (a ++ b)).
Proof. intros (Hv1 & _ & He1) (Hv2 & _ & He2) Hn. split; [by apply list.Forall_app|]. split; [by rewrite zlen_app|by apply list.Forall_app]. Qed.

Lemma packed_ok_one s : Forall is_byte s -> zlen s <= 65536 -> cont_ok (Packed [lp_encode s]).
Proof.
  intros Hs Hl. destruct (lp_encode_spec s Hs ltac:(lia)) as [Hv _]. split; [by constructor|]. split; [by vm_compute|].
  constructor; [by apply ent_encode|constructor].
Qed.

Lemma packed_ok_take es i : cont_ok (Packed es) -> cont_ok (Packed (take i es)).
Proof. intros (Hv & Hn & He). split; [by apply Forall_take|]. split; [|by apply Forall_take]. unfold zlen in *. rewrite length_take. lia. Qed.

Lemma packed_ok_drop es i : cont_ok (Packed es) -> cont_ok (Packed (drop i es)).
Proof. intros (Hv & Hn & He). split; [by apply Forall_drop|]. split; [|by apply Forall_drop]. unfold zlen in *. rewrite length_drop. lia. Qed.

Lemma packed_total es : cont_ok (Packed es) -> total_bytes es < 2 ^ 31.
Proof. intros H. destruct (size_max _ H) as [_ Hs]. by apply Hs. Qed.

(** ** Listpacks *)

Section Ops.
Context (junk : nat -> Z) (usable : Z -> Z) (Husable : forall n, 0 <= n -> n <= usable n).

Lemma raw_bytes b es : raw b (Packed es) -> lpBytes b = Some (total_bytes es).
Proof. intros [num H]. by apply (repr_total b es num). Qed.

Lemma raw_length b es : raw b (Packed es) -> exists b', lpLength b = Some (zlen es, b') /\ raw b' (Packed es).
Proof. intros [num H]. destruct (nav_length b es num H) as (b' & num' & Hl & Hr & _). exists b'. split; [done|by exists num']. Qed.

Lemma raw_new : exists b, lpNew junk usable 0 = Some b /\ raw b (Packed []).
Proof. destruct (new_spec junk usable Husable 0) as (b & Hb & Hr). exists b. split; [done|by exists 0]. Qed.

Lemma raw_put b es s i w : raw b (Packed es) -> Forall is_byte s -> zlen s <= 65536 -> put_ok es i w -> cont_ok (Packed (put_list es (lp_encode s) i w)) ->
  exists b' p, lpInsertString junk usable b s (pos es i) w = Some (Some (b', p)) /\ raw b' (Packed (put_list es (lp_encode s) i w)).
Proof.
  intros [num Hr] Hs Hl Hok Hc. pose proof (packed_total _ Hc).
  destruct (put_spec junk usable Husable b es num (SVal s) i w Hr) as [_ Hp]; [by split; [|lia]|done|].
  cbn [arg_enc lpPut] in Hp. destruct (Hp ltac:(lia)) as (b' & num' & Hq & Hr'). eexists b', _. split; [exact Hq|by exists num'].
Qed.

Lemma raw_prepend b es s : raw b (Packed es) -> Forall is_byte s -> zlen s <= 65536 -> cont_ok (Packed (lp_encode s :: es)) ->
  exists b' p, lpPrepend junk usable b s = Some (Some (b', p)) /\ raw b' (Packed (lp_encode s :: es)).
Proof.
  intros Hr Hs Hl Hc. pose proof Hr as [num Hr']. pose proof (prepend_put junk usable b es num (SVal s) Hr') as Hp. cbv iota beta in Hp. cbn [lpPut] in Hp. rewrite Hp.
  apply (raw_put b es s 0 LP_BEFORE); [done..|cbn; lia|done].
Qed.

Lemma raw_append b es s : raw b (Packed es) -> Forall is_byte s -> zlen s <= 65536 -> cont_ok (Packed (es ++ [lp_encode s])) ->
  exists b' p, lpAppend junk usable b s = Some (Some (b', p)) /\ raw b' (Packed (es ++ [lp_encode s])).
Proof.
  intros Hr Hs Hl Hc. pose proof Hr as [num Hr']. pose proof (append_put junk usable b es num (SVal s) Hr') as Hp. cbv iota beta in Hp. cbn [lpPut] in Hp. rewrite Hp.
  pose proof (raw_put b es s (length es) LP_BEFORE Hr Hs Hl) as Hq. cbn [put_list] in Hq. rewrite firstn_all, drop_ge in Hq by lia. apply Hq; [cbn; lia|done].
Qed.

Lemma raw_delete b es i : raw b (Packed es) -> (i < length es)%nat ->
  exists b' p, lpDelete junk usable b (pos es i) = Some (Some (b', p)) /\ raw b' (Packed (delete i es)).
Proof. intros [num Hr] Hi. destruct (delete_spec junk usable Husable b es num i Hr Hi) as (b' & num' & Hd & Hr'). eexists b', _. split; [exact Hd|by exists num']. Qed.

Lemma raw_delete_range b es index n : raw b (Packed es) -> INT64_MIN < index -> 0 <= n ->
  exists b', lpDeleteRange junk usable b index n = Some b' /\
    raw b' (Packed (match seek_index es index with Some i => take i es ++ drop (i + Z.to_nat n) es | None => es end)).
Proof. intros [num Hr] Hi Hn. destruct (lpDeleteRange_refines junk usable Husable b es num index n Hr Hi Hn) as (b' & num' & Hd & Hr'). exists b'. split; [done|by exists num']. Qed.

Lemma raw_merge b1 es1 b2 es2 : raw b1 (Packed es1) -> raw b2 (Packed es2) -> cont_ok (Packed (es1 ++ es2)) ->
  exists b, lpMerge junk usable b1 b2 = Some (b, bool_decide (total_bytes es2 <= total_bytes es1)) /\ raw b (Packed (es1 ++ es2)).
Proof.
  intros [n1 H1] [n2 H2] Hc. pose proof (packed_total _ Hc).
  destruct (lpMerge_refines junk usable Husable b1 es1 n1 b2 es2 n2 H1 H2) as (b & num & Hm & Hr); [unfold UINT32_MAX; lia|]. exists b. split; [done|by exists num].
Qed.

Lemma raw_seek b es index : raw b (Packed es) -> INT64_MIN < index -> lpSeek b index = Some (pos es <$> seek_index es index).
Proof. intros [num Hr] Hi. by apply (nav_seek b es num). Qed.

Lemma raw_next b es i : raw b (Packed es) -> (i < length es)%nat -> lpNext b (pos es i) = Some (ptr es (S i)).
Proof. intros [num Hr] Hi. by apply (nav_next b es num). Qed.

Lemma raw_read b es i v : raw b (Packed es) -> vals (Packed es) !! i = Some v -> exists le, read_value b (pos es i) = Some le /\ arg_text le = v.
Proof.
  intros [num Hr] Hi. pose proof Hr as (Hv & _). rewrite vals_lookup in Hi by done. apply bind_Some in Hi as (e & He & Ht).
  destruct (repr_at b es num Hr i e He) as (a & c & -> & Ha). pose proof (repr_valid _ _ _ Hr _ _ He) as Hve.
  destruct (valid_entry_get e Hve) as (w & Hw & Hok). unfold entry_text in Ht. rewrite Hw in Ht. cbn [mbind option_bind] in Ht.
  unfold read_value, lpGetValue, lpGet, ent in *. rewrite <- Ha, <- app_assoc, (lpGetWithBuf_embed _ _ _ _ Hw). cbn [mbind option_bind].
  destruct w as [off len|w]; cbn [lpval_shift mbind option_bind]; [|eexists; split; [done|by injection Ht]].
  assert (Hlen : 0 <= len < 2 ^ 32).
  { destruct (rd_bytes_inv _ _ _ _ Ht) as (? & ? & ? & _). pose proof (zlen_nonneg v). assert (zlen e < 2 ^ 32) by apply Hve. lia. }
  rewrite wrapu_id by done. rewrite (rd_bytes_embed a e _ off len v Ht). cbn [mbind option_bind]. eexists. by split.
Qed.

(** An integer that was read has 64 bits. *)
Definition int_ok (le : listpackEntry) : Prop := match le with SVal _ => True | LVal n => is_s 64 n end.

Lemma read_int_ok b p le : read_value b p = Some le -> int_ok le.
Proof.
  unfold read_value, lpGetValue, lpGet. intros (v & Hv & He)%bind_Some. apply bind_Some in Hv as (w & Hw & Hv). destruct w as [off len|n]; injection Hv as <-.
  - apply bind_Some in He as (s & _ & [= <-]). done.
  - injection He as <-. cbn [int_ok]. unfold lpGetWithBuf in Hw. apply bind_Some in Hw as (b0 & _ & Hw).
    repeat match type of Hw with (if ?x then _ else _) = _ => destruct x end;
      repeat match type of Hw with (_ ≫= _) = _ => apply bind_Some in Hw as (? & _ & Hw) end; try done; injection Hw as <-; apply lp_signed_range.
Qed.

(** ** Compressed blocks *)

Lemma raw_copy b c : raw b c -> exists b', rd_bytes b 0 (csize c) = Some b' /\ raw b' c /\ zlen b' = csize c.
Proof.
  destruct c as [v|es]; cbn [raw csize].
  - intros ->. exists v. split; [|done]. pose proof (rd_bytes_head v [] (zlen v) eq_refl) as H. by rewrite app_nil_r in H.
  - intros (num & Hv & Ht & Hn & s & ->). set (m := hdr (total_bytes es) num ++ body es ++ [LP_EOF]).
    assert (Hm : zlen m = total_bytes es) by (unfold m, total_bytes, LP_HDR_SIZE; zlia).
    exists m. replace (hdr (total_bytes es) num ++ body es ++ LP_EOF :: s) with (m ++ s) by (unfold m; by rewrite <- !app_assoc).
    split; [by apply rd_bytes_head|]. split; [|done]. exists num. split; [done|]. split; [done|]. split; [done|]. by exists [].
Qed.

Context (lzf_base : Z) (lzf_junk : Z -> Z) (Hbase : 8192 <= lzf_base /\ lzf_base + 2 ^ 32 <= 2 ^ 64) (Hlzf : forall i, 0 <= lzf_junk i < 2 ^ 64).

Lemma compress_block b c : raw b c -> cont_ok c -> MIN_COMPRESS_BYTES <= csize c ->
  exists inp out n, rd_bytes b 0 (csize c) = Some inp /\ lzf_compress lzf_base lzf_junk inp (realloc junk [] (csize c)) = Some (out, n) /\
    (n <> 0 -> exists b', lzf_decompress (take (Z.to_nat n) out) (csize c) = Some (inr (b', csize c)) /\ raw b' c).
Proof.
  intros Hr Hc Hm. unfold MIN_COMPRESS_BYTES in Hm. destruct (raw_copy b c Hr) as (b' & Hb & Hr' & Hz). destruct (size_max c Hc) as [Hs _].
  destruct (compress_ok lzf_base lzf_junk b' (csize c) (proj1 Hbase) ltac:(lia) Hlzf (realloc junk [] (csize c))) as (out & n & Hco & _ & _ & Hd);
    [lia|apply zlen_realloc; lia|].
  exists b', out, n. split; [done|]. split; [done|]. intros Hn. destruct Hd as [|(t & r & -> & -> & Hd)]; [done|]. exists b'. split; [|done].
  unfold zlen at 1. rewrite Nat2Z.id, take_app_length, (decompress_ok (csize c) t b' Hd) by lia. by rewrite wrapu_id, Hz by lia.
Qed.
End Ops.
