(* ===== verification/QuicklistComp.v ===== *)
(** * Quicklists: nodes in order and the compression of the nodes between the ends *)

From stdpp Require Import base list numbers option tactics.
From S2P Require Import Prelude Util ListpackEnc Listpack ListpackNav ListpackUpd Lzf Quicklist QuicklistOps QuicklistSpec.

(** ** Nodes by position *)

Section Nodes.
Context (l : list (nat * quicklistNode)) (Hnd : NoDup (l.*1)).

Lemma ids_inj i j x y : l !! i = Some x -> l !! j = Some y -> x.1 = y.1 -> i = j.
Proof.
  intros Hi Hj Hxy. eapply NoDup_lookup; [exact Hnd|rewrite list_lookup_fmap, Hi; done|]. rewrite list_lookup_fmap, Hj. cbn. by rewrite Hxy.
Qed.
End Nodes.

Lemma fst_not_in (l : list (nat * quicklistNode)) i id n : NoDup (l.*1) -> l !! i = Some (id, n) -> (id ∉ (take i l).*1) /\ (id ∉ (drop (S i) l).*1).
Proof.
  intros Hnd Hi. rewrite <- (take_drop_middle _ _ _ Hi) in Hnd. rewrite fmap_app in Hnd. apply list.NoDup_app in Hnd as (_ & Hd & Hn).
  cbn [fmap list_fmap fst] in Hd, Hn. apply list.NoDup_cons in Hn as [Hn _]. split; [|done]. intros Hin. apply (Hd _ Hin). by left.
Qed.

Lemma node_get_at a id n b : id ∉ a.*1 -> node_get id (a ++ (id, n) :: b) = Some n.
Proof.
  induction a as [|[j m] a IH]; cbn; [by rewrite Nat.eqb_refl|]. intros Hid. apply not_elem_of_cons in Hid as [Hj Hid].
  rewrite (proj2 (Nat.eqb_neq j id)) by done. by apply IH.
Qed.

Lemma node_set_at a id n m b : id ∉ a.*1 -> node_set id m (a ++ (id, n) :: b) = a ++ (id, m) :: b.
Proof.
  induction a as [|[j k] a IH]; cbn; [by rewrite Nat.eqb_refl|]. intros Hid. apply not_elem_of_cons in Hid as [Hj Hid].
  rewrite (proj2 (Nat.eqb_neq j id)) by done. by rewrite IH.
Qed.

Lemma node_next_at a id n b : id ∉ a.*1 -> node_next id (a ++ (id, n) :: b) = head (b.*1).
Proof.
  induction a as [|[j k] a IH]; cbn; [by rewrite Nat.eqb_refl|]. intros Hid. apply not_elem_of_cons in Hid as [Hj Hid].
  rewrite (proj2 (Nat.eqb_neq j id)) by done. by apply IH.
Qed.

Lemma node_prev_at a id n b : id ∉ b.*1 -> node_prev id (a ++ (id, n) :: b) = head ((reverse a).*1).
Proof.
  intros Hid. unfold node_prev. rewrite reverse_app, reverse_cons, <- app_assoc. cbn [app]. apply node_next_at.
  rewrite fmap_reverse, elem_of_reverse. done.
Qed.

Lemma node_insert_at a id n x b after : id ∉ a.*1 ->
  node_insert id x after (a ++ (id, n) :: b) = a ++ (if after : bool then (id, n) :: x :: b else x :: (id, n) :: b).
Proof.
  induction a as [|[j k] a IH]; cbn; [rewrite Nat.eqb_refl; by destruct after|]. intros Hid. apply not_elem_of_cons in Hid as [Hj Hid].
  rewrite (proj2 (Nat.eqb_neq j id)) by done. by rewrite IH.
Qed.

Lemma node_del_at a id n b : id ∉ a.*1 -> node_del id (a ++ (id, n) :: b) = a ++ b.
Proof.
  induction a as [|[j k] a IH]; cbn; [by rewrite Nat.eqb_refl|]. intros Hid. apply not_elem_of_cons in Hid as [Hj Hid].
  rewrite (proj2 (Nat.eqb_neq j id)) by done. by rewrite IH.
Qed.

Lemma head_fst_drop (l : list (nat * quicklistNode)) i : head ((drop i l).*1) = fst <$> l !! i.
Proof. rewrite <- (Nat.add_0_r i) at 2. rewrite <- lookup_drop. by destruct (drop i l). Qed.

Section Lookup.
Context (l : list (nat * quicklistNode)) (Hnd : NoDup (l.*1)) (i : nat) (id : nat) (n : quicklistNode) (Hi : l !! i = Some (id, n)).

Lemma node_get_lookup : node_get id l = Some n.
Proof. destruct (fst_not_in l i id n Hnd Hi). rewrite <- (take_drop_middle _ _ _ Hi). by apply node_get_at. Qed.

Lemma node_set_lookup m : node_set id m l = <[i := (id, m)]> l.
Proof.
  destruct (fst_not_in l i id n Hnd Hi). rewrite <- (take_drop_middle _ _ _ Hi) at 1. rewrite node_set_at by done.
  symmetry. apply insert_take_drop. by eapply lookup_lt_Some.
Qed.

Lemma node_next_lookup : node_next id l = fst <$> l !! S i.
Proof. destruct (fst_not_in l i id n Hnd Hi). rewrite <- (take_drop_middle _ _ _ Hi) at 1. rewrite node_next_at by done. apply head_fst_drop. Qed.

Lemma node_prev_lookup : node_prev id l = match i with O => None | S j => fst <$> l !! j end.
Proof.
  destruct (fst_not_in l i id n Hnd Hi). rewrite <- (take_drop_middle _ _ _ Hi) at 1. rewrite node_prev_at by done.
  destruct i as [|j]; [done|]. destruct (l !! j) as [x|] eqn:Hj.
  - by rewrite (take_S_r _ _ _ Hj), reverse_snoc.
  - apply lookup_ge_None in Hj. apply lookup_lt_Some in Hi. lia.
Qed.
End Lookup.

Lemma head_lookup (l : list (nat * quicklistNode)) : head (l.*1) = fst <$> l !! 0%nat.
Proof. by destruct l. Qed.

Lemma tail_lookup (l : list (nat * quicklistNode)) : head ((reverse l).*1) = fst <$> l !! (length l - 1)%nat.
Proof.
  destruct l as [|x l _] using rev_ind; [done|]. rewrite reverse_snoc, length_app. cbn [length]. replace (length l + 1 - 1)%nat with (length l) by lia.
  by rewrite lookup_app_r, Nat.sub_diag by lia.
Qed.

(** ** States with the same contents *)

(** Compression and decompression keep what a node holds and set no [recompress] flag. *)
Record nsim (x y : nat * quicklistNode) : Prop := {
  ns_id : y.1 = x.1;
  ns_sz : qn_sz y.2 = qn_sz x.2;
  ns_count : qn_count y.2 = qn_count x.2;
  ns_plain : qn_plain y.2 = qn_plain x.2;
  ns_dont : qn_dont_compress y.2 = qn_dont_compress x.2;
  ns_flag : qn_recompress y.2 = true -> qn_recompress x.2 = true;
  ns_keep : qn_dont_compress x.2 = true -> qn_lzf x.2 = false -> y = x;
  ns_rep : forall c, node_rep x.2 c -> node_rep y.2 c }.

#[global] Instance nsim_preorder : PreOrder nsim.
Proof.
  split; [by intros x; split|]. intros x y z [] []. split; [congruence..|auto| |auto]. intros Hd Hz. specialize (ns_keep0 Hd Hz). subst y. auto.
Qed.

Definition lsim : list (nat * quicklistNode) -> list (nat * quicklistNode) -> Prop := Forall2 nsim.

#[global] Instance lsim_preorder : PreOrder lsim.
Proof. unfold lsim. apply _. Qed.

Definition represented (x : nat * quicklistNode) : Prop := exists c, node_rep x.2 c.

Lemma lsim_ids l l' : lsim l l' -> l'.*1 = l.*1.
Proof. induction 1 as [|x y l l' Hx _ IH]; [done|]. cbn [fmap list_fmap]. by rewrite (ns_id _ _ Hx), <- IH. Qed.

Lemma lsim_zlen l l' : lsim l l' -> zlen l' = zlen l.
Proof. intros H. unfold zlen. by rewrite (list.Forall2_length _ _ _ H). Qed.

Lemma lsim_length l l' : lsim l l' -> length l' = length l.
Proof. intros H. by rewrite (list.Forall2_length _ _ _ H). Qed.

Lemma lsim_rep l l' : lsim l l' -> Forall represented l -> Forall represented l'.
Proof. induction 1 as [|x y l l' Hx _ IH]; [done|]. intros [[c Hc] Hl]%list.Forall_cons. constructor; [exists c; by apply Hx|auto]. Qed.

Lemma lsim_lookup l l' i y : lsim l l' -> l' !! i = Some y -> exists x, l !! i = Some x /\ nsim x y.
Proof. intros H Hi. by destruct (Forall2_lookup_r _ _ _ _ _ H Hi) as (x & Hx & ?); exists x. Qed.

Lemma lsim_lookup_l l l' i x : lsim l l' -> l !! i = Some x -> exists y, l' !! i = Some y /\ nsim x y.
Proof. intros H Hi. by destruct (Forall2_lookup_l _ _ _ _ _ H Hi) as (y & Hy & ?); exists y. Qed.

Lemma lsim_insert l i x y : l !! i = Some x -> nsim x y -> lsim l (<[i := y]> l).
Proof.
  intros Hi Hxy. unfold lsim. rewrite <- (list_insert_id l i x Hi) at 1. apply Forall2_insert; [|done]. apply (reflexivity (R := lsim)).
Qed.

Lemma with_nodes_same ql : with_nodes ql (ql_nodes ql) = ql.
Proof. by destruct ql. Qed.

Lemma with_nodes_twice ql l l' : with_nodes (with_nodes ql l) l' = with_nodes ql l'.
Proof. done. Qed.

Lemma nodes_with ql l : ql_nodes (with_nodes ql l) = l.
Proof. done. Qed.

(** ** The depth *)

(** A position at least [c] nodes away from both ends, and [m] more from the last. *)
Definition deep (c len m i : Z) : Prop := 0 < c /\ c <= i < len - c - m.

Definition deep_on (f : quicklistNode -> bool) (c m : Z) (l : list (nat * quicklistNode)) : Prop :=
  forall i x, l !! i = Some x -> f x.2 = true -> deep c (zlen l) m (Z.of_nat i).
Definition flags_deep : Z -> Z -> list (nat * quicklistNode) -> Prop := deep_on qn_recompress.
Definition lzf_deep (c : Z) : list (nat * quicklistNode) -> Prop := deep_on qn_lzf c 0.
Definition unflagged (l : list (nat * quicklistNode)) : Prop := Forall (fun x => qn_recompress x.2 = false) l.

Lemma unflagged_deep c m l : unflagged l -> flags_deep c m l.
Proof. intros H i x Hi Hx. unfold unflagged in H. rewrite list.Forall_lookup in H. specialize (H i x Hi). cbn in H. congruence. Qed.

Lemma unflagged_sim l l' : lsim l l' -> unflagged l -> unflagged l'.
Proof.
  induction 1 as [|x y l l' Hx _ IH]; [done|]. intros [Hf Hl]%list.Forall_cons. constructor; [|by apply IH].
  destruct (qn_recompress y.2) eqn:E; [|done]. apply Hx in E. congruence.
Qed.

Lemma flags_deep_sim c m l l' : lsim l l' -> flags_deep c m l -> flags_deep c m l'.
Proof.
  intros Hs Hf i y Hi Hy. destruct (lsim_lookup _ _ _ _ Hs Hi) as (x & Hx & Hxy). rewrite (lsim_zlen _ _ Hs). apply (Hf i x Hx). by apply Hxy.
Qed.

Lemma flags_deep_less c m m' l : m' <= m -> flags_deep c m l -> flags_deep c m' l.
Proof. intros Hm Hf i x Hi Hx. destruct (Hf i x Hi Hx). split; lia. Qed.

Lemma lzf_deep_insert c l i y : lzf_deep c l -> (qn_lzf y.2 = true -> deep c (zlen l) 0 (Z.of_nat i)) -> lzf_deep c (<[i := y]> l).
Proof.
  intros Hd Hy j x Hj Hx. replace (zlen (<[i:=y]> l)) with (zlen l) by (unfold zlen; by rewrite length_insert).
  destruct (decide (i = j)) as [<-|Hij]; [|rewrite list_lookup_insert_ne in Hj by done; by eapply Hd].
  assert (i < length l)%nat by (apply lookup_lt_Some in Hj; by rewrite length_insert in Hj).
  rewrite list_lookup_insert_eq in Hj by done. injection Hj as <-. by apply Hy.
Qed.

(** ** One node *)

Section Compress.
Context (junk : nat -> Z) (lzf_base : Z) (lzf_junk : Z -> Z) (Hbase : 8192 <= lzf_base /\ lzf_base + 2 ^ 32 <= 2 ^ 64) (Hlzf : forall i, 0 <= lzf_junk i < 2 ^ 64).

Lemma rep_recompress n c b : (b = true -> qn_lzf n = false) -> node_rep n c -> node_rep (set_recompress n b) c.
Proof. intros Hb [H1 H2 H3 H4 H5]. split; [done..|]. cbn. intros E. destruct b; [|done]. by rewrite Hb in E. Qed.

Lemma nsim_unflag id n : qn_dont_compress n = false -> nsim (id, n) (id, set_recompress n false).
Proof. intros Hd. split; [done..|by cbn; rewrite Hd|]. intros c. by apply rep_recompress. Qed.

Lemma set_node_at ql i id n m : NoDup ((ql_nodes ql).*1) -> ql_nodes ql !! i = Some (id, n) -> set_node ql id m = with_nodes ql (<[i := (id, m)]> (ql_nodes ql)).
Proof. intros Hnd Hi. unfold set_node. by rewrite (node_set_lookup _ Hnd i id n Hi). Qed.

Lemma get_node_at ql i id n : NoDup ((ql_nodes ql).*1) -> ql_nodes ql !! i = Some (id, n) -> get_node ql id = Some n.
Proof. intros Hnd Hi. by apply (node_get_lookup _ Hnd i). Qed.

Lemma ids_insert (l : list (nat * quicklistNode)) i id n m : l !! i = Some (id, n) -> (<[i := (id, m)]> l).*1 = l.*1.
Proof. intros Hi. rewrite list_fmap_insert. apply list_insert_id. by rewrite list_lookup_fmap, Hi. Qed.

(** What [lzf_compress] wrote stands for the same contents. *)
Lemma compressed_rep n c inp out k : qn_lzf n = false -> MIN_COMPRESS_BYTES <= qn_sz n -> rd_bytes (qn_entry n) 0 (qn_sz n) = Some inp ->
  lzf_compress lzf_base lzf_junk inp (realloc junk [] (qn_sz n)) = Some (out, k) -> k <> 0 -> node_rep n c ->
  node_rep (set_entry (set_recompress n false) (take (Z.to_nat k) out) (qn_sz n) true) c.
Proof.
  intros Hl Hmin Hin Hco Hk [H1 H2 H3 H4 H5]. rewrite Hl in H4. rewrite H2 in *. split; [done|done|done| |done]. cbn [qn_lzf set_entry qn_entry qn_sz].
  destruct (compress_block junk lzf_base lzf_junk Hbase Hlzf (qn_entry n) c H4 H3 Hmin) as (inp' & out' & k' & Hin' & Hco' & Hde).
  rewrite Hin in Hin'. injection Hin' as <-. rewrite Hco in Hco'. injection Hco' as <- <-. destruct (Hde Hk) as (b & Hd & Hr). by exists b.
Qed.

Section At.
Context (ql : quicklist) (Hnd : NoDup ((ql_nodes ql).*1)) (i id : nat) (n : quicklistNode) (Hi : ql_nodes ql !! i = Some (id, n)) (c : content) (Hc : node_rep n c).

Lemma set_node_twice m m' : set_node (set_node ql id m) id m' = with_nodes ql (<[i := (id, m')]> (ql_nodes ql)).
Proof.
  rewrite (set_node_at ql i id n m Hnd Hi). rewrite (set_node_at _ i id m).
  - cbn. by rewrite list_insert_insert_eq.
  - cbn. by rewrite (ids_insert _ _ _ _ _ Hi).
  - cbn. rewrite list_lookup_insert_eq; [done|]. by eapply lookup_lt_Some.
Qed.

Lemma get_set_node m : get_node (set_node ql id m) id = Some m.
Proof.
  rewrite (set_node_at ql i id n m Hnd Hi). apply (get_node_at _ i); cbn; [by rewrite (ids_insert _ _ _ _ _ Hi)|].
  rewrite list_lookup_insert_eq; [done|]. by eapply lookup_lt_Some.
Qed.

Lemma __compress_node_at : (0 < i)%nat -> (S i < length (ql_nodes ql))%nat -> qn_lzf n = false ->
  exists n', __quicklistCompressNode junk lzf_base lzf_junk ql id = Some (with_nodes ql (<[i := (id, n')]> (ql_nodes ql))) /\
    nsim (id, n) (id, n') /\ (qn_dont_compress n = false -> qn_recompress n' = false).
Proof.
  intros H0 H1 Hl. unfold __quicklistCompressNode. rewrite (get_node_at _ _ _ _ Hnd Hi). cbn [mbind option_bind].
  destruct (qn_dont_compress n) eqn:Hdc; [exists n; rewrite list_insert_id, with_nodes_same by done; split; [done|split; [done|by intros]]|].
  assert (is_Some (q_prev ql id) /\ is_Some (q_next ql id)) as [Hp Hn].
  { unfold q_prev, q_next. rewrite (node_prev_lookup _ Hnd i id n Hi), (node_next_lookup _ Hnd i id n Hi). split.
    - destruct i as [|j]; [lia|]. apply fmap_is_Some, lookup_lt_is_Some. lia.
    - by apply fmap_is_Some, lookup_lt_is_Some. }
  rewrite !bool_decide_true by done. cbn [andb cassert mbind option_bind].
  assert (Hun : exists n', Some (set_node ql id (set_recompress n false)) = Some (with_nodes ql (<[i:=(id, n')]> (ql_nodes ql))) /\ nsim (id, n) (id, n') /\ (false = false -> qn_recompress n' = false)).
  { exists (set_recompress n false). rewrite (set_node_at ql i id n _ Hnd Hi). split; [done|]. split; [by apply nsim_unflag|done]. }
  change (qn_sz (set_recompress n false)) with (qn_sz n). change (qn_entry (set_recompress n false)) with (qn_entry n).
  destruct (Z.ltb_spec (qn_sz n) MIN_COMPRESS_BYTES) as [|Hmin]; [done|]. pose proof Hc as [Hpl Hsz Hok Hraw _]. rewrite Hl in Hraw.
  destruct (compress_block junk lzf_base lzf_junk Hbase Hlzf (qn_entry n) c Hraw Hok ltac:(congruence)) as (inp & out & k & Hin & Hco & _).
  rewrite <- Hsz in *. rewrite Hin. cbn [mbind option_bind]. rewrite Hco. cbn [mbind option_bind].
  destruct (Z.eqb_spec k 0) as [|Hk]; [done|]. destruct (k + _ >=? _); [done|]. cbn [orb]. rewrite set_node_twice.
  eexists. split; [done|]. split; [|done]. split; [done..|by cbn; rewrite Hdc|]. intros c' Hc'. by apply (compressed_rep _ _ inp).
Qed.

Lemma compress_node_at : (qn_lzf n = false -> (0 < i)%nat /\ (S i < length (ql_nodes ql))%nat) ->
  exists n', quicklistCompressNode junk lzf_base lzf_junk ql (Some id) = Some (with_nodes ql (<[i := (id, n')]> (ql_nodes ql))) /\
    nsim (id, n) (id, n') /\ (qn_dont_compress n = false -> qn_recompress n' = false).
Proof.
  intros Hin. unfold quicklistCompressNode. rewrite (get_node_at _ _ _ _ Hnd Hi). cbn [mbind option_bind].
  destruct (qn_lzf n) eqn:Hl; cbn [negb]; [|by destruct (Hin eq_refl); apply __compress_node_at].
  exists n. rewrite list_insert_id, with_nodes_same by done. split; [done|]. split; [done|]. intros _. by apply Hc.
Qed.

Lemma decompressed : qn_lzf n = true -> exists b, lzf_decompress (qn_entry n) (qn_sz n) = Some (inr (b, qn_sz n)) /\ (qn_sz n =? 0) = false /\
  forall c', node_rep n c' -> node_rep (set_entry (set_recompress n false) b (qn_sz n) false) c'.
Proof.
  intros Hl. pose proof (nr_raw _ _ Hc) as Hr. rewrite Hl in Hr. destruct Hr as (b & Hd & _ & Hmin). exists b. split; [done|]. split; [apply Z.eqb_neq; unfold MIN_COMPRESS_BYTES in Hmin; lia|].
  intros c' [H1 H2 H3 H4 _]. rewrite Hl in H4. destruct H4 as (b' & Hd' & Hr' & _). rewrite Hd in Hd'. injection Hd' as <-. by split.
Qed.

Lemma decompress_node_at : exists n', quicklistDecompressNode ql (Some id) = Some (with_nodes ql (<[i := (id, n')]> (ql_nodes ql))) /\
  nsim (id, n) (id, n') /\ qn_lzf n' = false.
Proof.
  unfold quicklistDecompressNode. rewrite (get_node_at _ _ _ _ Hnd Hi). cbn [mbind option_bind].
  destruct (qn_lzf n) eqn:Hl; [|exists n; rewrite list_insert_id, with_nodes_same by done; done].
  destruct (decompressed Hl) as (b & Hd & H0 & Hrep). unfold __quicklistDecompressNode. rewrite (get_node_at _ _ _ _ Hnd Hi). cbn [mbind option_bind].
  cbn [qn_entry qn_sz set_recompress]. rewrite Hd. cbn [mbind option_bind]. rewrite H0, (set_node_at _ _ _ _ _ Hnd Hi).
  eexists. split; [done|]. split; [|done]. split; [done..|by cbn; rewrite Hl|done].
Qed.

(** The node is raw afterwards, and flagged when it was not. *)
Lemma decompress_use_at : exists n', quicklistDecompressNodeForUse ql id = Some (with_nodes ql (<[i := (id, n')]> (ql_nodes ql))) /\
  qn_lzf n' = false /\ (if qn_lzf n then qn_recompress n' = true /\ nsim (id, n) (id, set_recompress n' false) else n' = n).
Proof.
  unfold quicklistDecompressNodeForUse. rewrite (get_node_at _ _ _ _ Hnd Hi). cbn [mbind option_bind].
  destruct (qn_lzf n) eqn:Hl; [|exists n; rewrite list_insert_id, with_nodes_same by done; done].
  destruct (decompressed Hl) as (b & Hd & H0 & Hrep). unfold __quicklistDecompressNode. rewrite (get_node_at _ _ _ _ Hnd Hi). cbn [mbind option_bind].
  cbn [qn_entry qn_sz set_recompress]. rewrite Hd. cbn [mbind option_bind]. rewrite H0.
  cbn [mbind option_bind]. rewrite get_set_node.
  cbn [mbind option_bind]. rewrite set_node_twice. eexists. split; [done|]. split; [done|]. split; [done|]. split; [done..|by cbn; rewrite Hl|done].
Qed.
End At.

(** ** The depth is kept *)

Lemma deep_inside c len m i : deep c len m (Z.of_nat i) -> 0 <= m -> (0 < i)%nat /\ Z.of_nat (S i) < len.
Proof. intros [Hc Hi] Hm. lia. Qed.

Lemma compress_deep ql i id n : NoDup ((ql_nodes ql).*1) -> Forall represented (ql_nodes ql) -> ql_nodes ql !! i = Some (id, n) ->
  lzf_deep (ql_compress ql) (ql_nodes ql) -> deep (ql_compress ql) (zlen (ql_nodes ql)) 0 (Z.of_nat i) ->
  exists l', quicklistCompressNode junk lzf_base lzf_junk ql (Some id) = Some (with_nodes ql l') /\ lsim (ql_nodes ql) l' /\ lzf_deep (ql_compress ql) l' /\
    exists n', l' = <[i := (id, n')]> (ql_nodes ql) /\ (qn_dont_compress n = false -> qn_recompress n' = false).
Proof.
  intros Hnd Hrep Hi Hd Hdi. destruct (proj1 (list.Forall_lookup _ _) Hrep i _ Hi) as [c Hc]. destruct (deep_inside _ _ _ _ Hdi ltac:(lia)).
  destruct (compress_node_at ql Hnd i id n Hi c Hc) as (n' & Hq & Hs & Hf); [intros _; unfold zlen in *; lia|].
  exists (<[i := (id, n')]> (ql_nodes ql)). split; [done|]. split; [by eapply lsim_insert|]. split; [by apply lzf_deep_insert|]. by exists n'.
Qed.

Definition lzf_from (p : nat) (l : list (nat * quicklistNode)) : Prop :=
  forall i x, l !! i = Some x -> qn_lzf x.2 = true -> (p <= i)%nat /\ (i + p < length l)%nat.

(** Decompressing a node keeps the contents; no other node changes. *)
Lemma decompress_moves ql i id n : NoDup ((ql_nodes ql).*1) -> Forall represented (ql_nodes ql) -> ql_nodes ql !! i = Some (id, n) ->
  exists l', quicklistDecompressNode ql (Some id) = Some (with_nodes ql l') /\ lsim (ql_nodes ql) l' /\
    (forall j x, l' !! j = Some x -> qn_lzf x.2 = true -> j <> i /\ ql_nodes ql !! j = Some x) /\ forall j, j <> i -> l' !! j = ql_nodes ql !! j.
Proof.
  intros Hnd Hrep Hi. destruct (proj1 (list.Forall_lookup _ _) Hrep i _ Hi) as [c Hc].
  destruct (decompress_node_at ql Hnd i id n Hi c Hc) as (n' & Hq & Hs & Hz). exists (<[i := (id, n')]> (ql_nodes ql)).
  split; [done|]. split; [by eapply lsim_insert|]. split; [|intros; by apply list_lookup_insert_ne]. intros j x Hj Hx. destruct (decide (i = j)) as [<-|Hij].
  - rewrite list_lookup_insert_eq in Hj by (by eapply lookup_lt_Some). injection Hj as <-. cbn in Hx. congruence.
  - rewrite list_lookup_insert_ne in Hj by done. done.
Qed.

Lemma ids_lookup (l : list (nat * quicklistNode)) i id : l.*1 !! i = Some id -> exists n, l !! i = Some (id, n).
Proof. rewrite list_lookup_fmap. intros H. apply fmap_Some in H as ([j n] & Hi & ->). by exists n. Qed.

Lemma ids_eq (l : list (nat * quicklistNode)) i j a b : NoDup (l.*1) -> l.*1 !! i = Some a -> l.*1 !! j = Some b -> a = b <-> i = j.
Proof. intros Hnd Hi Hj. split; [intros ->; by eapply NoDup_lookup|intros ->; congruence]. Qed.

Section Walk.
Context (ql : quicklist) (node : option nat).

(** The two nodes of a step are decompressed. *)
Lemma walk_pair l p f r : NoDup (l.*1) -> Forall represented l -> lzf_from p l -> l.*1 !! p = Some f -> l.*1 !! (length l - 1 - p)%nat = Some r ->
  exists l', (q ← quicklistDecompressNode (with_nodes ql l) (Some f); quicklistDecompressNode q (Some r)) = Some (with_nodes ql l') /\ lsim l l' /\ lzf_from (S p) l'.
Proof.
  intros Hnd Hrep Hp Hf Hr. destruct (ids_lookup _ _ _ Hf) as [nf Hnf].
  destruct (decompress_moves (with_nodes ql l) p f nf Hnd Hrep Hnf) as (l1 & -> & Hs1 & Hz1 & _). rewrite with_nodes_twice, nodes_with in *. cbn [mbind option_bind].
  pose proof (lsim_ids _ _ Hs1) as Hids. rewrite <- Hids in Hr. destruct (ids_lookup _ _ _ Hr) as [nr Hnr].
  destruct (decompress_moves (with_nodes ql l1) (length l - 1 - p) r nr) as (l2 & -> & Hs2 & Hz2 & _); rewrite ?with_nodes_twice, ?nodes_with in *; [by rewrite Hids|by eapply lsim_rep|done|].
  exists l2. split; [done|]. split; [by etransitivity|]. intros i x Hi Hx. destruct (Hz2 i x Hi Hx) as [Hi2 Hi1]. destruct (Hz1 i x Hi1 Hx) as [Hi0 Hi'].
  destruct (Hp i x Hi' Hx). pose proof (lsim_length _ _ Hs1). pose proof (lsim_length _ _ Hs2). lia.
Qed.

Lemma compress_walk_ok d : forall l p f r b, NoDup (l.*1) -> Forall represented l -> lzf_from p l ->
  l.*1 !! p = Some f -> l.*1 !! (length l - 1 - p)%nat = Some r -> (2 * (p + d) <= length l)%nat -> (d = 0%nat -> (2 * p < length l)%nat) ->
  exists l' res, compress_walk d (with_nodes ql l) node f r b = Some (with_nodes ql l', res) /\ lsim l l' /\ lzf_from (p + d) l' /\
    match res with
    | None => True
    | Some (f', r', b') => (2 * (p + d) < length l)%nat /\ l.*1 !! (p + d)%nat = Some f' /\ l.*1 !! (length l - 1 - (p + d))%nat = Some r' /\
        (b' = false -> b = false /\ forall j id, l.*1 !! j = Some id -> node = Some id -> (p <= j)%nat -> (j + p < length l)%nat -> (p + d <= j)%nat /\ (j + (p + d) < length l)%nat)
    end.
Proof.
  induction d as [|d IH]; intros l p f r b Hnd Hrep Hp Hf Hr Hlen H0; cbn [compress_walk].
  { exists l, (Some (f, r, b)). rewrite Nat.add_0_r. split; [done|]. split; [done|]. split; [done|]. split; [auto|]. split; [done|]. split; [done|]. intros ->. split; [done|]. lia. }
  destruct (walk_pair l p f r Hnd Hrep Hp Hf Hr) as (l' & Hq & Hs & Hz). destruct (quicklistDecompressNode (with_nodes ql l) (Some f)) as [q|]; [|done].
  cbn [mbind option_bind] in *. rewrite Hq. cbn [mbind option_bind]. clear Hq q. pose proof (lsim_ids _ _ Hs) as Hids. pose proof (lsim_length _ _ Hs) as Hll.
  assert (Hlen1 : length (l.*1) = length l) by apply length_fmap. rewrite <- Hids in Hnd, Hf, Hr |- *.
  destruct (ids_lookup _ _ _ Hf) as [nf Hnf]. destruct (ids_lookup _ _ _ Hr) as [nr Hnr]. unfold q_next, q_prev. rewrite !nodes_with.
  rewrite (node_next_lookup l' Hnd p f nf Hnf), (node_prev_lookup l' Hnd _ r nr Hnr).
  assert (f <> r) as Hne by (rewrite (ids_eq l' _ _ _ _ Hnd Hf Hr); lia). rewrite (proj2 (Nat.eqb_neq f r)) by done. cbn [orb].
  destruct (lookup_lt_is_Some_2 l' (S p)) as [[f1 nf1] Hf1]; [lia|]. rewrite Hf1. cbn [fmap option_fmap option_map fst].
  assert (Hf1' : l'.*1 !! S p = Some f1) by (by rewrite list_lookup_fmap, Hf1).
  destruct (bool_decide_reflect (Some f1 = Some r)) as [[= ->]|Hn].
  { exists l', None. split; [done|]. split; [done|]. split; [|done]. pose proof (proj1 (ids_eq l' _ _ _ _ Hnd Hf1' Hr) eq_refl) as E.
    intros i x Hi Hx. destruct (Hz i x Hi Hx). lia. }
  assert (Hn' : S p <> (length l - 1 - p)%nat) by (intros E; apply Hn; f_equal; by apply (ids_eq l' _ _ _ _ Hnd Hf1' Hr)).
  destruct (length l - 1 - p)%nat as [|k] eqn:Ek; [lia|]. destruct (lookup_lt_is_Some_2 l' k) as [[r1 nr1] Hr1]; [lia|]. rewrite Hr1. cbn [fmap option_fmap option_map fst mbind option_bind].
  destruct (IH l' (S p) f1 r1 (b || bool_decide (Some f = node \/ Some r = node))) as (l2 & res & -> & Hs2 & Hz2 & Hres);
    [done|by eapply lsim_rep|done|done|rewrite list_lookup_fmap, Hll; replace (length l - 1 - S p)%nat with k by lia; by rewrite Hr1|lia|lia|].
  exists l2, res. split; [done|]. split; [by etransitivity|]. replace (p + S d)%nat with (S p + d)%nat by lia. split; [done|].
  destruct res as [[[f' r'] b']|]; [|done]. rewrite Hll in Hres. destruct Hres as (HA & HB & HC & HD). split; [done|]. split; [done|]. split; [done|].
  intros Hb'. destruct (HD Hb') as [[-> Hdep]%orb_false_iff HD']. apply bool_decide_eq_false in Hdep. split; [done|].
  intros j id Hj Hid Hpj Hjl. subst node.
  assert (Hjp : j <> p) by (intros ->; apply Hdep; left; congruence). assert (Hjr : j <> S k) by (intros ->; apply Hdep; right; congruence).
  apply (HD' j id); [done|done|lia|lia].
Qed.
End Walk.

(** ** Well-formed quicklists *)

Record wf (ql : quicklist) : Prop := {
  wf_ids : NoDup ((ql_nodes ql).*1);
  wf_fresh : Forall (fun x => (x.1 < ql_fresh ql)%nat) (ql_nodes ql);
  wf_len : ql_len ql = zlen (ql_nodes ql);
  wf_compress : 0 <= ql_compress ql <= 65535;
  wf_fill : -5 <= ql_fill ql <= 32767;
  wf_rep : Forall represented (ql_nodes ql) }.

Lemma wf_sim ql l' : lsim (ql_nodes ql) l' -> wf ql -> wf (with_nodes ql l').
Proof.
  intros Hs [H1 H2 H3 H4 H5 H6]. split; [|  | |done|done|by eapply lsim_rep]; cbn [with_nodes ql_nodes ql_fresh ql_len].
  - by rewrite (lsim_ids _ _ Hs).
  - apply list.Forall_lookup. intros i x Hi. destruct (lsim_lookup _ _ _ _ Hs Hi) as (y & Hy & Hxy). rewrite (ns_id _ _ Hxy). by apply (proj1 (list.Forall_lookup _ _) H2 i y).
  - by rewrite (lsim_zlen _ _ Hs).
Qed.

(** What compression does to a quicklist. *)
Definition recompressed (ql : quicklist) (r : option quicklist) : Prop :=
  exists l', r = Some (with_nodes ql l') /\ lsim (ql_nodes ql) l' /\ lzf_deep (ql_compress ql) l'.

Lemma recompressed_bind ql l f : lsim (ql_nodes ql) l -> recompressed (with_nodes ql l) f -> recompressed ql f.
Proof. intros Hs (l' & -> & Hs' & Hd). rewrite with_nodes_twice, nodes_with in *. exists l'. split; [done|]. split; [by etransitivity|done]. Qed.

(** Compressing any node beyond the depth. *)
Lemma compress_deep_moves ql id i : wf ql -> lzf_deep (ql_compress ql) (ql_nodes ql) -> (ql_nodes ql).*1 !! i = Some id ->
  deep (ql_compress ql) (zlen (ql_nodes ql)) 0 (Z.of_nat i) -> recompressed ql (quicklistCompressNode junk lzf_base lzf_junk ql (Some id)).
Proof.
  intros Hwf Hd Hi Hdi. destruct (ids_lookup _ _ _ Hi) as [n Hn].
  destruct (compress_deep ql i id n (wf_ids _ Hwf) (wf_rep _ Hwf) Hn Hd Hdi) as (l' & -> & Hs & Hd' & _). by exists l'.
Qed.

Lemma ends_unflagged ql i id n m : wf ql -> flags_deep (ql_compress ql) m (ql_nodes ql) -> 0 <= m -> ql_nodes ql !! i = Some (id, n) ->
  (i = 0)%nat \/ (i = length (ql_nodes ql) - 1)%nat -> qn_recompress n = false.
Proof.
  intros Hwf Hf Hm Hi He. destruct (qn_recompress n) eqn:E; [|done]. destruct (Hf i _ Hi E) as [Hc Hb]. unfold zlen in Hb. lia.
Qed.

Lemma __compress_ok ql node : wf ql -> flags_deep (ql_compress ql) 0 (ql_nodes ql) ->
  (ql_compress ql = 0 \/ ql_len ql < 2 * ql_compress ql -> lzf_deep (ql_compress ql) (ql_nodes ql)) ->
  (forall id, node = Some id -> id ∈ (ql_nodes ql).*1) -> recompressed ql (__quicklistCompress junk lzf_base lzf_junk ql node).
Proof.
  intros Hwf Hf Hd Hin. pose proof (wf_len _ Hwf) as Hlen. unfold __quicklistCompress.
  destruct (Z.eqb_spec (ql_len ql) 0) as [E0|E0].
  { exists (ql_nodes ql). rewrite with_nodes_same. split; [done|]. split; [done|]. rewrite Hlen in E0. rewrite (zlen_0_nil _ E0). by intros i x Hi. }
  assert (Hpos : (0 < length (ql_nodes ql))%nat) by (unfold zlen in Hlen; lia).
  destruct (lookup_lt_is_Some_2 (ql_nodes ql) 0) as [[h nh] Hh]; [lia|]. destruct (lookup_lt_is_Some_2 (ql_nodes ql) (length (ql_nodes ql) - 1)) as [[t nt] Ht]; [lia|].
  unfold ql_head, ql_tail. rewrite (head_lookup (ql_nodes ql)), (tail_lookup (ql_nodes ql)), Hh, Ht. cbn [fmap option_fmap option_map fst mbind option_bind].
  rewrite (get_node_at ql 0 h nh (wf_ids _ Hwf) Hh), (get_node_at ql _ t nt (wf_ids _ Hwf) Ht). cbn [mbind option_bind].
  rewrite (ends_unflagged ql 0 h nh 0 Hwf Hf ltac:(lia) Hh) by auto. rewrite (ends_unflagged ql _ t nt 0 Hwf Hf ltac:(lia) Ht) by auto. cbn [negb andb cassert mbind option_bind].
  pose proof (wf_compress _ Hwf) as Hcr. destruct (Z.eqb_spec (ql_compress ql) 0) as [Ec|Ec]; cbn [orb].
  { exists (ql_nodes ql). rewrite with_nodes_same. split; [done|]. split; [done|auto]. }
  destruct (Z.ltb_spec (ql_len ql) (ql_compress ql * 2)) as [El|El].
  { exists (ql_nodes ql). rewrite with_nodes_same. split; [done|]. split; [done|]. apply Hd. lia. }
  assert (Hc : Z.of_nat (Z.to_nat (ql_compress ql)) = ql_compress ql) by lia. set (c := Z.to_nat (ql_compress ql)) in *.
  destruct (compress_walk_ok ql node c (ql_nodes ql) 0 h t false (wf_ids _ Hwf) (wf_rep _ Hwf)) as (l' & res & Hw & Hs & Hz & Hres);
    [intros i x Hi _; apply lookup_lt_Some in Hi; lia|by rewrite list_lookup_fmap, Hh|by rewrite Nat.sub_0_r, list_lookup_fmap, Ht|unfold zlen in *; lia|lia|].
  rewrite with_nodes_same in Hw. rewrite Hw. cbn [mbind option_bind]. clear Hw. rewrite Nat.add_0_l in *.
  pose proof (lsim_length _ _ Hs) as Hll. assert (Hd' : lzf_deep (ql_compress ql) l').
  { intros i x Hi Hx. destruct (Hz i x Hi Hx). unfold deep, zlen. lia. }
  destruct res as [[[f r] b]|]; [|by exists l']. destruct Hres as (H2 & Hf' & Hr' & Hb). rewrite <- (lsim_ids _ _ Hs) in Hf', Hr', Hb.
  assert (Hdeep : forall j, (c <= j)%nat -> (j + c < length (ql_nodes ql))%nat -> deep (ql_compress ql) (zlen l') 0 (Z.of_nat j)) by (intros j ??; unfold deep, zlen; lia).
  assert (Hstep : forall l1 id j, lsim (ql_nodes ql) l1 -> lzf_deep (ql_compress ql) l1 -> (ql_nodes ql).*1 !! j = Some id -> (c <= j)%nat -> (j + c < length (ql_nodes ql))%nat ->
    recompressed (with_nodes ql l1) (quicklistCompressNode junk lzf_base lzf_junk (with_nodes ql l1) (Some id))).
  { intros l1 id j Hs1 Hd1 Hj ??. apply (compress_deep_moves _ id j); [by apply wf_sim|done| |].
    - rewrite nodes_with. by rewrite (lsim_ids _ _ Hs1).
    - rewrite nodes_with. replace (zlen l1) with (zlen l'); [by apply Hdeep|]. by rewrite (lsim_zlen _ _ Hs), (lsim_zlen _ _ Hs1). }
  rewrite (lsim_ids _ _ Hs) in Hf', Hr', Hb.
  assert (H1 : recompressed (with_nodes ql l') (if negb b then quicklistCompressNode junk lzf_base lzf_junk (with_nodes ql l') node else Some (with_nodes ql l'))).
  { destruct b; cbn [negb]; [by exists l'|]. destruct node as [id|]; [|by exists l']. destruct (proj1 (list_elem_of_lookup _ _) (Hin id eq_refl)) as [j Hj].
    destruct (Hb eq_refl) as [_ Hb']. pose proof (lookup_lt_Some _ _ _ Hj) as Hjl. rewrite length_fmap in Hjl. destruct (Hb' j id Hj eq_refl) as [??]; [lia|lia|]. by apply (Hstep l' id j). }
  destruct H1 as (l1 & -> & Hs1 & Hd1). cbn [mbind option_bind]. rewrite with_nodes_twice, nodes_with in *. assert (Hs1' : lsim (ql_nodes ql) l1) by (by etransitivity).
  destruct (Hstep l1 f c Hs1' Hd1 Hf' ltac:(lia) ltac:(lia)) as (l2 & -> & Hs2 & Hd2). cbn [mbind option_bind]. rewrite with_nodes_twice, nodes_with in *.
  assert (Hs2' : lsim (ql_nodes ql) l2) by (by etransitivity).
  destruct (Hstep l2 r _ Hs2' Hd2 Hr' ltac:(lia) ltac:(lia)) as (l3 & -> & Hs3 & Hd3). rewrite with_nodes_twice, nodes_with in *.
  exists l3. split; [done|]. split; [by etransitivity|done].
Qed.
End Compress.

(** * Quicklists: insertion and deletion of nodes, and the two ends *)

(** ** The list of elements *)

Definition holds : list (nat * quicklistNode) -> list content -> Prop := Forall2 (fun x c => node_rep x.2 c /\ qn_count x.2 = zlen (vals c)).

Definition flat (cs : list content) : list (list Z) := concat (vals <$> cs).

(** A state that represents [cs]; a node that was decompressed for use is flagged. *)
Record core (ql : quicklist) (cs : list content) : Prop := {
  co_wf : wf ql;
  co_holds : holds (ql_nodes ql) cs;
  co_count : ql_count ql = zlen (flat cs);
  co_lzf : lzf_deep (ql_compress ql) (ql_nodes ql);
  co_flags : flags_deep (ql_compress ql) 0 (ql_nodes ql);
  co_dont : Forall (fun x => qn_dont_compress x.2 = false) (ql_nodes ql);
  co_nonempty : Forall (fun c => vals c <> []) cs }.

(** Between operations no node is flagged. *)
Definition inv (ql : quicklist) (cs : list content) : Prop := core ql cs /\ unflagged (ql_nodes ql).

Lemma flat_app a b : flat (a ++ b) = flat a ++ flat b.
Proof. unfold flat. by rewrite fmap_app, concat_app. Qed.

Lemma flat_cons c cs : flat (c :: cs) = vals c ++ flat cs.
Proof. done. Qed.

Lemma holds_sim l l' cs : lsim l l' -> holds l cs -> holds l' cs.
Proof.
  intros Hs. revert cs. induction Hs as [|x y l l' Hx _ IH]; intros cs Hh; [done|]. inversion Hh as [|? c ? cs' [Hr Hn] Hh']; subst.
  constructor; [|by apply IH]. split; [by apply Hx|]. by rewrite (ns_count _ _ Hx).
Qed.

Lemma holds_rep l cs : holds l cs -> Forall represented l.
Proof. induction 1 as [|x c l cs [Hr _] _ IH]; constructor; [by exists c|done]. Qed.

Lemma dont_sim l l' : lsim l l' -> Forall (fun x => qn_dont_compress x.2 = false) l -> Forall (fun x => qn_dont_compress x.2 = false) l'.
Proof. induction 1 as [|x y l l' Hx _ IH]; [done|]. intros [Hd Hl]%list.Forall_cons. constructor; [by rewrite (ns_dont _ _ Hx)|auto]. Qed.

Lemma unflagged_app a b : unflagged (a ++ b) <-> unflagged a /\ unflagged b.
Proof. apply list.Forall_app. Qed.

Lemma unflagged_cons x b : unflagged (x :: b) <-> qn_recompress x.2 = false /\ unflagged b.
Proof. unfold unflagged. by rewrite list.Forall_cons. Qed.

Lemma lsim_app_inv a x b l' : lsim (a ++ x :: b) l' -> exists a' y b', l' = a' ++ y :: b' /\ lsim a a' /\ nsim x y /\ lsim b b'.
Proof.
  intros H. apply Forall2_app_inv_l in H as (a' & r & Ha & Hr & ->). inversion Hr as [|? y ? b' Hx Hb]; subst. by exists a', y, b'.
Qed.

Lemma wf_count ql k : wf ql -> wf (with_count ql k).
Proof. by intros [????]. Qed.

Lemma wf_update ql a id n n' b : wf ql -> ql_nodes ql = a ++ (id, n) :: b -> represented (id, n') -> wf (with_nodes ql (a ++ (id, n') :: b)).
Proof.
  intros [H1 H2 H3 H4 H5 H6] Hl Hn. rewrite Hl in *. apply list.Forall_app in H2 as [Ha [Hid Hb]%list.Forall_cons]. apply list.Forall_app in H6 as [Ra [_ Rb]%list.Forall_cons].
  split; cbn [with_nodes ql_nodes ql_fresh ql_len ql_compress ql_fill]; [| | |done|done|].
  - by rewrite fmap_app in *.
  - apply list.Forall_app. split; [done|]. by constructor.
  - rewrite H3, !zlen_app, !zlen_cons. lia.
  - apply list.Forall_app. split; [done|]. by constructor.
Qed.

Lemma deep_update f c m a id n n' b : deep_on f c m (a ++ (id, n) :: b) -> (f n' = true -> f n = true) -> deep_on f c m (a ++ (id, n') :: b).
Proof.
  intros Hd Hf i x Hi Hx. assert (zlen (a ++ (id, n') :: b) = zlen (a ++ (id, n) :: b)) as -> by (rewrite !zlen_app, !zlen_cons; lia).
  apply lookup_app_Some in Hi as [Hi|[Hge Hi]]; [by apply (Hd i x); [apply lookup_app_l_Some|]|]. destruct (i - length a)%nat as [|j] eqn:E.
  - injection Hi as <-. apply (Hd i (id, n)); [|by apply Hf]. rewrite lookup_app_r by lia. by rewrite E.
  - apply (Hd i x); [|done]. rewrite lookup_app_r by lia. by rewrite E.
Qed.

Lemma holds_split a x b ca c cb : holds (a ++ x :: b) (ca ++ c :: cb) -> length a = length ca -> holds a ca /\ (node_rep x.2 c /\ qn_count x.2 = zlen (vals c)) /\ holds b cb.
Proof. intros H Hl. apply Forall2_app_inv in H as [Ha Hb]; [|done]. inversion Hb; subst. done. Qed.

Lemma holds_join a x b ca c cb : holds a ca -> node_rep x.2 c -> qn_count x.2 = zlen (vals c) -> holds b cb -> holds (a ++ x :: b) (ca ++ c :: cb).
Proof. intros Ha Hx Hn Hb. apply Forall2_app; [done|]. by constructor. Qed.

Lemma node_at_split ql a id n b : wf ql -> ql_nodes ql = a ++ (id, n) :: b -> ql_nodes ql !! length a = Some (id, n) /\ get_node ql id = Some n /\ forall n', set_node ql id n' = with_nodes ql (a ++ (id, n') :: b).
Proof.
  intros Hwf Hl. assert (Hi : ql_nodes ql !! length a = Some (id, n)) by (by rewrite Hl, lookup_app_r, Nat.sub_diag by lia).
  split; [done|]. split; [by apply (get_node_at ql (length a) id n (wf_ids _ Hwf))|]. intros n'.
  unfold set_node. rewrite Hl, node_set_at; [done|]. destruct (fst_not_in _ _ _ _ (wf_ids _ Hwf) Hi) as [Hna _]. by rewrite Hl, take_app_length in Hna.
Qed.

Section Upd.
Context (junk : nat -> Z) (usable : Z -> Z) (Husable : forall n, 0 <= n -> n <= usable n).
Context (lzf_base : Z) (lzf_junk : Z -> Z) (Hbase : 8192 <= lzf_base /\ lzf_base + 2 ^ 32 <= 2 ^ 64) (Hlzf : forall i, 0 <= lzf_junk i < 2 ^ 64).

(** ** Compression of a node *)

Lemma ql_compress_ok ql i id n : wf ql -> ql_nodes ql !! i = Some (id, n) -> flags_deep (ql_compress ql) 0 (ql_nodes ql) -> lzf_deep (ql_compress ql) (ql_nodes ql) ->
  exists l' n', quicklistCompress junk lzf_base lzf_junk ql id = Some (with_nodes ql l') /\ lsim (ql_nodes ql) l' /\ lzf_deep (ql_compress ql) l' /\
    l' !! i = Some (id, n') /\ (qn_dont_compress n = false -> qn_recompress n' = false).
Proof.
  intros Hwf Hi Hf Hd. unfold quicklistCompress. rewrite (get_node_at ql i id n (wf_ids _ Hwf) Hi). cbn [mbind option_bind].
  destruct (qn_recompress n) eqn:E.
  - destruct (compress_deep junk lzf_base lzf_junk Hbase Hlzf ql i id n (wf_ids _ Hwf) (wf_rep _ Hwf) Hi Hd) as (l' & -> & Hs & Hd' & n' & -> & Hn'); [by apply (Hf i (id, n))|].
    eexists _, n'. split; [done|]. split; [done|]. split; [done|]. split; [|done]. rewrite list_lookup_insert_eq; [done|]. by eapply lookup_lt_Some.
  - destruct (__compress_ok junk lzf_base lzf_junk Hbase Hlzf ql (Some id) Hwf Hf) as (l' & -> & Hs & Hd'); [done| |].
    { intros id' [= <-]. apply list_elem_of_lookup. exists i. by rewrite list_lookup_fmap, Hi. }
    destruct (lsim_lookup_l _ _ _ _ Hs Hi) as ([id' n'] & Hi' & Hn). pose proof (ns_id _ _ Hn) as Eid. cbn in Eid. subst id'.
    exists l', n'. split; [done|]. split; [done|]. split; [done|]. split; [done|]. intros _. destruct (qn_recompress n') eqn:E'; [|done].
    pose proof (ns_flag _ _ Hn E') as E2. cbn in E2. congruence.
Qed.

Lemma recompress_only_ok ql i id n : wf ql -> ql_nodes ql !! i = Some (id, n) -> flags_deep (ql_compress ql) 0 (ql_nodes ql) -> lzf_deep (ql_compress ql) (ql_nodes ql) ->
  exists l' n', quicklistRecompressOnly junk lzf_base lzf_junk ql id = Some (with_nodes ql l') /\ lsim (ql_nodes ql) l' /\ lzf_deep (ql_compress ql) l' /\
    l' = <[i := (id, n')]> (ql_nodes ql) /\ (qn_dont_compress n = false -> qn_recompress n' = false).
Proof.
  intros Hwf Hi Hf Hd. unfold quicklistRecompressOnly. rewrite (get_node_at ql i id n (wf_ids _ Hwf) Hi). cbn [mbind option_bind].
  destruct (qn_recompress n) eqn:E.
  - destruct (compress_deep junk lzf_base lzf_junk Hbase Hlzf ql i id n (wf_ids _ Hwf) (wf_rep _ Hwf) Hi Hd) as (l' & -> & Hs & Hd' & n' & -> & Hn'); [by apply (Hf i (id, n))|].
    by eexists _, n'.
  - exists (ql_nodes ql), n. rewrite with_nodes_same, list_insert_id by done. done.
Qed.

(** ** Insertion of a node *)

Definition grown (ql : quicklist) (l : list (nat * quicklistNode)) : quicklist :=
  {| ql_nodes := l; ql_fresh := S (ql_fresh ql); ql_count := ql_count ql; ql_len := ql_len ql + 1; ql_fill := ql_fill ql; ql_compress := ql_compress ql |}.

Lemma deep_add f c m a x b : deep_on f c m (a ++ b) -> f x.2 = false -> deep_on f c m (a ++ x :: b).
Proof.
  intros Hf Hx i y Hi Hy. assert (zlen (a ++ x :: b) = zlen (a ++ b) + 1) as -> by (rewrite !zlen_app, zlen_cons; lia).
  destruct (decide (i < length a)%nat) as [Hlt|Hge].
  - rewrite lookup_app_l in Hi by done. destruct (Hf i y) as [??]; [by rewrite lookup_app_l|done|]. split; lia.
  - rewrite lookup_app_r in Hi by lia. destruct (i - length a)%nat as [|j] eqn:E; [cbn in Hi; congruence|]. cbn in Hi.
    destruct (Hf (i - 1)%nat y) as [??]; [|done|split; lia]. rewrite lookup_app_r by lia. by replace (i - 1 - length a)%nat with j by lia.
Qed.

Lemma wf_add ql a b n : wf ql -> ql_nodes ql = a ++ b -> represented (ql_fresh ql, n) -> wf (grown ql (a ++ (ql_fresh ql, n) :: b)).
Proof.
  intros [H1 H2 H3 H4 H5 H6] Hl Hn. rewrite Hl in *. apply list.Forall_app in H2 as [Ha Hb]. apply list.Forall_app in H6 as [Ra Rb].
  assert (Hlt : forall l, Forall (fun x : nat * quicklistNode => (x.1 < ql_fresh ql)%nat) l -> ql_fresh ql ∉ l.*1).
  { intros l Hf Hin. apply list_elem_of_fmap in Hin as (x & Hx & Hin). rewrite list.Forall_forall in Hf. specialize (Hf x Hin). cbn in Hf. lia. }
  assert (Hle : forall l, Forall (fun x : nat * quicklistNode => (x.1 < ql_fresh ql)%nat) l -> Forall (fun x => (x.1 < S (ql_fresh ql))%nat) l).
  { intros l Hf. eapply list.Forall_impl; [exact Hf|]. cbn. lia. }
  split; cbn [grown ql_nodes ql_fresh ql_len ql_compress ql_fill]; [| | |done|done|].
  - rewrite fmap_app in *. cbn [fmap list_fmap fst]. rewrite <- Permutation_middle. apply list.NoDup_cons. split; [|done]. rewrite <- fmap_app. apply Hlt. by apply list.Forall_app.
  - apply list.Forall_app. split; [by apply Hle|]. constructor; [cbn; lia|by apply Hle].
  - rewrite H3, !zlen_app, zlen_cons. lia.
  - apply list.Forall_app. split; [done|]. by constructor.
Qed.

Definition put_node (after : bool) (x y : nat * quicklistNode) : list (nat * quicklistNode) := if after then [x; y] else [y; x].

Lemma put_node_split a x y b (after : bool) : exists a1 b1, a ++ x :: b = a1 ++ b1 /\ a ++ put_node after x y ++ b = a1 ++ y :: b1.
Proof. destruct after; [exists (a ++ [x]), b|exists a, (x :: b)]; cbn [put_node app]; by rewrite <- ?app_assoc. Qed.

Lemma put_node_lookup a x y b (after : bool) : (a ++ put_node after x y ++ b) !! (length a + if after then 0 else 1)%nat = Some x /\
  (a ++ put_node after x y ++ b) !! (length a + if after then 1 else 0)%nat = Some y.
Proof. destruct after; split; (rewrite lookup_app_r by lia); by rewrite Nat.add_comm, Nat.add_sub. Qed.

Lemma unflagged_all_but L l i : lsim L l -> (forall j x, L !! j = Some x -> j <> i -> qn_recompress x.2 = false) ->
  (forall x, l !! i = Some x -> qn_recompress x.2 = false) -> unflagged l.
Proof.
  intros Hs HL Hi. apply list.Forall_lookup. intros j x Hj. destruct (decide (j = i)) as [->|Hij]; [by apply Hi|].
  destruct (lsim_lookup _ _ _ _ Hs Hj) as (y & Hy & Hxy). destruct (qn_recompress x.2) eqn:E; [|done]. apply Hxy in E. rewrite (HL j y) in E by done. done.
Qed.

Lemma unflagged_put a x y b (after : bool) j z : unflagged a -> unflagged b -> qn_recompress y.2 = false -> (a ++ put_node after x y ++ b) !! j = Some z ->
  j <> (length a + if after then 0 else 1)%nat -> qn_recompress z.2 = false.
Proof.
  intros Ha Hb Hy Hj Hne. unfold unflagged in *. rewrite list.Forall_lookup in Ha, Hb.
  apply lookup_app_Some in Hj as [Hj|[Hge Hj]]; [by apply (Ha j)|].
  apply lookup_app_Some in Hj as [Hj|[Hge' Hj]]; [|by eapply Hb].
  destruct (j - length a)%nat as [|[|k]] eqn:E; destruct after; cbn in Hj; [lia|congruence|congruence|lia|done|done].
Qed.

Lemma ql_insert_node_ok ql a old n0 b new cn after : wf ql -> ql_nodes ql = a ++ (old, n0) :: b -> lzf_deep (ql_compress ql) (ql_nodes ql) ->
  flags_deep (ql_compress ql) 0 (ql_nodes ql) -> node_rep new cn -> qn_lzf new = false -> qn_recompress new = false ->
  exists l', insert_node junk lzf_base lzf_junk ql (Some old) new after = Some (grown ql l', ql_fresh ql) /\
    lsim (a ++ put_node after (old, n0) (ql_fresh ql, new) ++ b) l' /\ lzf_deep (ql_compress ql) l' /\ wf (grown ql l') /\
    (qn_dont_compress n0 = false -> unflagged a -> unflagged b -> unflagged l').
Proof.
  intros Hwf Hl Hd Hf Hr Hz Hfl. set (x := (old, n0)) in *. set (y := (ql_fresh ql, new)). set (L := a ++ put_node after x y ++ b).
  destruct (put_node_split a x y b after) as (a1 & b1 & E1 & E2). fold L in E2.
  assert (HwL : wf (grown ql L)) by (rewrite E2; apply wf_add; [done|by rewrite Hl|by exists cn]).
  assert (HdL : lzf_deep (ql_compress ql) L) by (rewrite E2; apply deep_add; [by rewrite <- E1, <- Hl|done]).
  assert (HfL : flags_deep (ql_compress ql) 0 L) by (rewrite E2; apply deep_add; [by rewrite <- E1, <- Hl|done]).
  unfold insert_node, fresh_node, __quicklistInsertNode.
  set (qf := {| ql_nodes := ql_nodes ql; ql_fresh := S (ql_fresh ql); ql_count := ql_count ql; ql_len := ql_len ql; ql_fill := ql_fill ql; ql_compress := ql_compress ql |}).
  pose proof (wf_ids _ Hwf) as Hnd. assert (Hi : ql_nodes ql !! length a = Some x) by (by rewrite Hl, lookup_app_r, Nat.sub_diag by lia).
  unfold get_node. change (ql_nodes qf) with (ql_nodes ql). rewrite (node_get_lookup _ Hnd _ old n0 Hi). cbn [mbind option_bind].
  destruct (fst_not_in _ _ _ _ Hnd Hi) as [Hna _]. rewrite Hl, take_app_length in Hna. rewrite Hl, (node_insert_at a old n0 _ b after Hna).
  replace (a ++ (if after then _ else _)) with L by (unfold L; by destruct after).
  change (with_len (with_nodes qf L) (ql_len qf + 1)) with (grown ql L).
  destruct (put_node_lookup a x y b after) as [Hx Hy]. fold L in Hx, Hy.
  destruct (ql_compress_ok (grown ql L) _ old n0 HwL Hx HfL HdL) as (l1 & n1 & -> & Hs1 & Hd1 & Hi1 & Hf1). cbn [mbind option_bind]. change (ql_nodes (grown ql L)) with L in Hs1.
  destruct (lsim_lookup_l _ _ _ _ Hs1 Hy) as ([id1 ny] & Hy1 & Hyy). pose proof (ns_id _ _ Hyy) as Eid. cbn in Eid. subst id1.
  change (with_nodes (grown ql L) l1) with (grown ql l1).
  destruct (ql_compress_ok (grown ql l1) (length a + if after then 1 else 0)%nat (ql_fresh ql) ny) as (l2 & n2 & -> & Hs2 & Hd2 & _).
  { change (grown ql l1) with (with_nodes (grown ql L) l1). by apply wf_sim. }
  { done. }
  { by eapply flags_deep_sim. }
  { done. }
  cbn [mbind option_bind]. change (with_nodes (grown ql l1) l2) with (grown ql l2). change (ql_nodes (grown ql l1)) with l1 in Hs2. assert (Hs : lsim L l2) by (by etransitivity).
  exists l2. split; [done|]. split; [done|]. split; [done|]. split; [change (grown ql l2) with (with_nodes (grown ql L) l2); by apply wf_sim|].
  intros Hdc Ha Hb. apply (unflagged_sim l1); [done|]. apply (unflagged_all_but L l1 (length a + if after then 0 else 1)%nat Hs1).
  - intros j z Hj Hne. by apply (unflagged_put a x y b after j z).
  - intros z Hz'. rewrite Hi1 in Hz'. injection Hz' as <-. by apply Hf1.
Qed.

(** The first node. *)
Lemma insert_first_ok ql new cn after : wf ql -> ql_nodes ql = [] -> node_rep new cn -> qn_lzf new = false -> qn_recompress new = false ->
  exists l', insert_node junk lzf_base lzf_junk ql None new after = Some (grown ql l', ql_fresh ql) /\
    lsim [(ql_fresh ql, new)] l' /\ lzf_deep (ql_compress ql) l' /\ wf (grown ql l') /\ unflagged l'.
Proof.
  intros Hwf Hl Hr Hz Hfl. unfold insert_node, fresh_node, __quicklistInsertNode. cbn [ql_len]. rewrite (wf_len _ Hwf), Hl. change (zlen [] =? 0) with true. cbn [cassert mbind option_bind].
  set (L := [(ql_fresh ql, new)]). match goal with |- context [quicklistCompress _ _ _ ?q _] => assert (q = grown ql L) as -> by (unfold grown; by rewrite (wf_len _ Hwf), Hl) end.
  assert (HwL : wf (grown ql L)) by (apply (wf_add ql [] [] new Hwf); [by rewrite Hl|by exists cn]).
  assert (Hd : forall f, f new = false -> deep_on f (ql_compress ql) 0 L).
  { intros f Hf i x Hi Hx. destruct i; [|done]. injection Hi as <-. cbn in Hx. congruence. }
  destruct (ql_compress_ok (grown ql L) 0%nat (ql_fresh ql) new HwL eq_refl (Hd _ Hfl) (Hd _ Hz)) as (l1 & n1 & -> & Hs1 & Hd1 & _).
  cbn [mbind option_bind]. change (with_nodes (grown ql L) l1) with (grown ql l1). change (ql_nodes (grown ql L)) with L in Hs1.
  exists l1. split; [done|]. split; [done|]. split; [done|]. split; [change (grown ql l1) with (with_nodes (grown ql L) l1); by apply wf_sim|].
  apply (unflagged_sim L); [done|]. by constructor.
Qed.

(** ** Deletion of a node *)

Definition shrunk (ql : quicklist) (l : list (nat * quicklistNode)) (n : Z) : quicklist :=
  {| ql_nodes := l; ql_fresh := ql_fresh ql; ql_count := ql_count ql - n; ql_len := ql_len ql - 1; ql_fill := ql_fill ql; ql_compress := ql_compress ql |}.

Lemma wf_remove ql a x b n : wf ql -> ql_nodes ql = a ++ x :: b -> wf (shrunk ql (a ++ b) n).
Proof.
  intros [H1 H2 H3 H4 H5 H6] Hl. rewrite Hl in *. apply list.Forall_app in H2 as [Ha [_ Hb]%list.Forall_cons]. apply list.Forall_app in H6 as [Ra [_ Rb]%list.Forall_cons].
  split; cbn [shrunk ql_nodes ql_fresh ql_len ql_compress ql_fill]; [| | |done|done|].
  - rewrite fmap_app in *. cbn [fmap list_fmap] in H1. rewrite <- Permutation_middle in H1. by apply list.NoDup_cons in H1 as [_ H1].
  - by apply list.Forall_app.
  - rewrite H3, !zlen_app, zlen_cons. lia.
  - by apply list.Forall_app.
Qed.

(** No node is compressed when the list is too short. *)
Lemma lzf_short c a x b : lzf_deep c (a ++ x :: b) -> 0 <= c -> c = 0 \/ zlen (a ++ b) < 2 * c -> lzf_deep c (a ++ b).
Proof.
  intros Hd Hc0 Hc i y Hi Hy. exfalso. assert (Hz : zlen (a ++ x :: b) = zlen (a ++ b) + 1) by (rewrite !zlen_app, zlen_cons; lia).
  assert (exists j, (a ++ x :: b) !! j = Some y) as [j Hj].
  { apply list_elem_of_lookup. apply list_elem_of_lookup_2 in Hi. apply elem_of_app in Hi as [?|?]; apply elem_of_app; [by left|right; by right]. }
  destruct (Hd j y Hj Hy). lia.
Qed.

Lemma del_node_ok ql a id n b : wf ql -> ql_nodes ql = a ++ (id, n) :: b -> lzf_deep (ql_compress ql) (ql_nodes ql) -> flags_deep (ql_compress ql) 0 (a ++ b) ->
  exists l', __quicklistDelNode junk lzf_base lzf_junk ql id = Some (shrunk ql l' (qn_count n)) /\ lsim (a ++ b) l' /\ lzf_deep (ql_compress ql) l' /\ wf (shrunk ql l' (qn_count n)).
Proof.
  intros Hwf Hl Hd Hf. unfold __quicklistDelNode. pose proof (wf_ids _ Hwf) as Hnd. assert (Hi : ql_nodes ql !! length a = Some (id, n)) by (by rewrite Hl, lookup_app_r, Nat.sub_diag by lia).
  rewrite (get_node_at _ _ _ _ Hnd Hi). cbn [mbind option_bind]. destruct (fst_not_in _ _ _ _ Hnd Hi) as [Hna _]. rewrite Hl, take_app_length in Hna.
  rewrite Hl, (node_del_at a id n b Hna). set (L := a ++ b). set (q := with_count _ _). change q with (shrunk ql L (qn_count n)). clear q.
  pose proof (wf_remove ql a (id, n) b (qn_count n) Hwf Hl) as HwL. fold L in HwL.
  destruct (__compress_ok junk lzf_base lzf_junk Hbase Hlzf (shrunk ql L (qn_count n)) None HwL Hf) as (l' & -> & Hs & Hd').
  { rewrite (wf_len _ HwL). cbn [shrunk ql_nodes ql_compress]. pose proof (wf_compress _ Hwf) as Hc. rewrite Hl in Hd. apply (lzf_short _ _ _ _ Hd). lia. }
  { done. }
  exists l'. split; [done|]. split; [done|]. split; [done|]. change (shrunk ql l' (qn_count n)) with (with_nodes (shrunk ql L (qn_count n)) l'). by apply wf_sim.
Qed.

(** ** Updates of the whole state *)

Lemma core_sim ql cs l' : core ql cs -> lsim (ql_nodes ql) l' -> lzf_deep (ql_compress ql) l' -> core (with_nodes ql l') cs.
Proof.
  intros [H1 H2 H3 H4 H5 H6 H7] Hs Hd. split; [by apply wf_sim|by eapply holds_sim|done|done|by eapply flags_deep_sim|by eapply dont_sim|done].
Qed.

Lemma core_update ql ca c cb a id n b n' c' k : core ql (ca ++ c :: cb) -> ql_nodes ql = a ++ (id, n) :: b -> length a = length ca ->
  node_rep n' c' -> qn_count n' = zlen (vals c') -> (qn_lzf n' = true -> qn_lzf n = true) -> (qn_recompress n' = true -> qn_recompress n = true) ->
  qn_dont_compress n' = false -> vals c' <> [] -> k = ql_count ql + zlen (vals c') - zlen (vals c) ->
  core (with_count (with_nodes ql (a ++ (id, n') :: b)) k) (ca ++ c' :: cb).
Proof.
  intros [H1 H2 H3 H4 H5 H6 H7] Hl Hlen Hr Hn Hz Hf Hd Hne ->. rewrite Hl in *. destruct (holds_split _ _ _ _ _ _ H2 Hlen) as (Ha & _ & Hb).
  apply list.Forall_app in H6 as [Da [_ Db]%list.Forall_cons]. apply list.Forall_app in H7 as [Na [_ Nb]%list.Forall_cons].
  split; cbn [with_count with_nodes ql_nodes ql_count ql_compress].
  - apply wf_count. apply (wf_update ql a id n); [done|done|by exists c'].
  - by apply holds_join.
  - rewrite H3, !flat_app, !flat_cons, !zlen_app. lia.
  - by apply (deep_update _ _ _ _ _ n).
  - by apply (deep_update _ _ _ _ _ n).
  - apply list.Forall_app. split; [done|]. by constructor.
  - apply list.Forall_app. split; [done|]. by constructor.
Qed.

(** A node between the nodes of [ca] and of [cb]. *)
Lemma core_insert ql ca cb a b new c l' : core ql (ca ++ cb) -> ql_nodes ql = a ++ b -> length a = length ca -> wf (grown ql l') ->
  lsim (a ++ (ql_fresh ql, new) :: b) l' -> lzf_deep (ql_compress ql) l' -> node_rep new c -> qn_count new = zlen (vals c) -> qn_recompress new = false ->
  qn_dont_compress new = false -> vals c <> [] -> core (with_count (grown ql l') (ql_count ql + zlen (vals c))) (ca ++ c :: cb).
Proof.
  intros [H1 H2 H3 H4 H5 H6 H7] Hl Hlen Hwf Hs Hz Hr Hn Hf Hd Hne. rewrite Hl in *. apply Forall2_app_inv in H2 as [Ha Hb]; [|done].
  apply list.Forall_app in H6 as [Da Db]. apply list.Forall_app in H7 as [Na Nb].
  split; cbn [with_count grown ql_nodes ql_count ql_compress].
  - by apply wf_count.
  - apply (holds_sim _ _ _ Hs). by apply holds_join.
  - rewrite H3, !flat_app, flat_cons, !zlen_app. lia.
  - done.
  - apply (flags_deep_sim _ _ _ _ Hs). by apply deep_add.
  - apply (dont_sim _ _ Hs). apply list.Forall_app. split; [done|]. by constructor.
  - apply list.Forall_app. split; [done|]. by constructor.
Qed.

Lemma core_delete ql ca c cb a id n b l' : core ql (ca ++ c :: cb) -> ql_nodes ql = a ++ (id, n) :: b -> length a = length ca -> wf (shrunk ql l' (qn_count n)) ->
  lsim (a ++ b) l' -> lzf_deep (ql_compress ql) l' -> flags_deep (ql_compress ql) 0 (a ++ b) -> core (shrunk ql l' (qn_count n)) (ca ++ cb).
Proof.
  intros [H1 H2 H3 H4 H5 H6 H7] Hl Hlen Hwf Hs Hz Hf. rewrite Hl in *. destruct (holds_split _ _ _ _ _ _ H2 Hlen) as (Ha & [_ Hn] & Hb). cbn in Hn.
  apply list.Forall_app in H6 as [Da [_ Db]%list.Forall_cons]. apply list.Forall_app in H7 as [Na [_ Nb]%list.Forall_cons].
  split; cbn [shrunk ql_nodes ql_count ql_compress].
  - done.
  - apply (holds_sim _ _ _ Hs). by apply Forall2_app.
  - rewrite H3, Hn, !flat_app, flat_cons, !zlen_app. lia.
  - done.
  - by apply (flags_deep_sim _ _ _ _ Hs).
  - apply (dont_sim _ _ Hs). by apply list.Forall_app.
  - by apply list.Forall_app.
Qed.
End Upd.
