(* ===== verification/QuicklistEnds.v ===== *)
(** * Quicklists: limits, pushing and popping *)

From stdpp Require Import base list numbers option tactics.
From S2P Require Import Prelude Util ListpackEnc Listpack ListpackNav ListpackUpd Lzf Quicklist QuicklistOps QuicklistSpec QuicklistComp.

(** ** Limits *)

Lemma neg_fill_limit fill : -5 <= fill < 0 -> exists limit, quicklistNodeNegFillLimit fill = Some limit /\ 4096 <= limit <= 65536.
Proof.
  intros Hf. unfold quicklistNodeNegFillLimit. rewrite (proj2 (Z.ltb_lt fill 0)) by lia. cbn [cassert mbind option_bind].
  assert (fill = -5 \/ fill = -4 \/ fill = -3 \/ fill = -2 \/ fill = -1) as [-> | [-> | [-> | [-> | ->]]]] by lia; eexists; (split; [reflexivity|lia]).
Qed.

Lemma exceeds_spec fill sz count : -5 <= fill -> exists b, quicklistNodeExceedsLimit fill sz count = Some b /\ (b = false -> sz <= 65536).
Proof.
  intros Hf. unfold quicklistNodeExceedsLimit, quicklistNodeLimit. rewrite Z.geb_leb. destruct (Z.leb_spec 0 fill) as [H0|H0]; cbn [mbind option_bind].
  - eexists. split; [done|]. intros [Hs _]%orb_false_iff. apply negb_false_iff in Hs. unfold sizeMeetsSafetyLimit, SIZE_SAFETY_LIMIT in Hs. apply Z.leb_le in Hs. lia.
  - destruct (neg_fill_limit fill ltac:(lia)) as (limit & -> & Hl). cbn [mbind option_bind]. eexists. split; [done|]. rewrite Z.gtb_ltb. intros Hs%Z.ltb_ge. lia.
Qed.

Section Ends.
Context (junk : nat -> Z) (usable : Z -> Z) (Husable : forall n, 0 <= n -> n <= usable n).
Context (lzf_base : Z) (lzf_junk : Z -> Z) (Hbase : 8192 <= lzf_base /\ lzf_base + 2 ^ 32 <= 2 ^ 64) (Hlzf : forall i, 0 <= lzf_junk i < 2 ^ 64).
Context (packed_threshold : Z) (Hthr : 0 <= packed_threshold <= 65537).

Lemma large_spec sz fill : -5 <= fill -> exists b, isLargeElement packed_threshold sz fill = Some b /\ (b = false -> sz <= 65536).
Proof.
  intros Hf. unfold isLargeElement. destruct (Z.eqb_spec packed_threshold 0) as [E|E]; cbn [negb].
  - rewrite Z.geb_leb. destruct (Z.leb_spec 0 fill) as [H0|H0].
    + eexists. split; [done|]. intros Hs%negb_false_iff. unfold sizeMeetsSafetyLimit, SIZE_SAFETY_LIMIT in Hs. apply Z.leb_le in Hs. lia.
    + destruct (neg_fill_limit fill ltac:(lia)) as (limit & -> & Hl). cbn [mbind option_bind]. eexists. split; [done|]. rewrite Z.gtb_ltb. intros Hs%Z.ltb_ge. lia.
  - eexists. split; [done|]. rewrite Z.geb_leb. intros Hs%Z.leb_gt. lia.
Qed.

Lemma allow_insert_spec node fill sz : -5 <= fill -> exists b, _quicklistNodeAllowInsert packed_threshold node fill sz = Some b /\
  (b = true -> exists n, node = Some n /\ qn_plain n = false /\ qn_sz n + sz + 8 <= 65536).
Proof.
  intros Hf. unfold _quicklistNodeAllowInsert. destruct node as [n|]; [|by eexists]. destruct (large_spec sz fill Hf) as (b & -> & _). cbn [mbind option_bind].
  destruct (qn_plain n) eqn:Hp; [by eexists|]. destruct b; [by eexists|]. cbn [orb]. destruct (exceeds_spec fill (qn_sz n + sz + SIZE_ESTIMATE_OVERHEAD) (qn_count n + 1) Hf) as (b & -> & Hb).
  cbn [mbind option_bind]. eexists. split; [done|]. intros Hn%negb_true_iff. exists n. split; [done|]. split; [done|]. specialize (Hb Hn). unfold SIZE_ESTIMATE_OVERHEAD in Hb. lia.
Qed.

Lemma allow_merge_spec na nb fill : -5 <= fill -> exists b, _quicklistNodeAllowMerge na nb fill = Some b /\
  (b = true -> exists a b, na = Some a /\ nb = Some b /\ qn_plain a = false /\ qn_plain b = false /\ u32 (qn_sz a + qn_sz b - 7) <= 65536).
Proof.
  intros Hf. unfold _quicklistNodeAllowMerge. destruct na as [a|]; [|by eexists]. destruct nb as [b|]; [|by eexists].
  destruct (qn_plain a) eqn:Ha; [by eexists|]. destruct (qn_plain b) eqn:Hb; [by eexists|]. cbn [orb].
  destruct (exceeds_spec fill (u32 (qn_sz a + qn_sz b - 7)) (qn_count a + qn_count b) Hf) as (r & -> & Hr). cbn [mbind option_bind].
  eexists. split; [done|]. intros Hn%negb_true_iff. exists a, b. by specialize (Hr Hn).
Qed.

(** A listpack within the limit has room for one more element in a node. *)
Lemma room_one n es s : node_rep n (Packed es) -> Forall is_byte s -> zlen s <= 65536 -> qn_sz n + zlen s + 8 <= 65536 -> forall es1 es2, es = es1 ++ es2 -> cont_ok (Packed (es1 ++ lp_encode s :: es2)).
Proof.
  intros [_ Hsz Hok _ _] Hs Hl Hr es1 es2 ->. cbn [csize] in Hsz. pose proof Hok as (Hv & _ & He). pose proof (body_min _ Hv). pose proof (zlen_nonneg s).
  apply list.Forall_app in Hv as [Hv1 Hv2]. apply list.Forall_app in He as [He1 He2]. destruct (packed_ok_one s Hs Hl) as (Hv3 & _ & He3).
  assert (Hz : zlen (es1 ++ es2) <= 32760) by (unfold total_bytes, LP_HDR_SIZE in Hsz; lia).
  split; [|split]; [|unfold MAX_ELEMENTS; rewrite zlen_app, zlen_cons in *; lia|].
  - apply list.Forall_app. split; [done|]. apply list.Forall_cons. split; [by apply list.Forall_cons in Hv3 as [? _]|done].
  - apply list.Forall_app. split; [done|]. apply list.Forall_cons. split; [by apply list.Forall_cons in He3 as [? _]|done].
Qed.

(** Two listpacks within the limit have room in one node. *)
Lemma room_merge na nb ea eb : node_rep na (Packed ea) -> node_rep nb (Packed eb) -> u32 (qn_sz na + qn_sz nb - 7) <= 65536 -> cont_ok (Packed (ea ++ eb)).
Proof.
  intros [_ Ha Hoa _ _] [_ Hb Hob _ _] Hu. cbn [csize] in *. pose proof (packed_total _ Hoa). pose proof (packed_total _ Hob).
  pose proof Hoa as (Hva & _). pose proof Hob as (Hvb & _). pose proof (body_min _ Hva). pose proof (body_min _ Hvb). pose proof (zlen_nonneg (body ea)). pose proof (zlen_nonneg (body eb)).
  rewrite wrapu_id in Hu by (unfold total_bytes, LP_HDR_SIZE in *; lia). apply packed_ok_app; [done|done|]. unfold total_bytes, LP_HDR_SIZE, MAX_ELEMENTS in *. lia.
Qed.

(** ** One node *)

Lemma rep_entry n es b es' : node_rep n (Packed es) -> qn_lzf n = false -> raw b (Packed es') -> cont_ok (Packed es') ->
  node_rep (set_entry n b (total_bytes es') (qn_lzf n)) (Packed es').
Proof. intros [H1 H2 H3 H4 H5] Hl Hr Hc. rewrite Hl. by split. Qed.

Lemma rep_count n c k : node_rep n c -> node_rep (set_count n k) c.
Proof. by intros [????]. Qed.

Lemma update_lp_ok n b p es : raw b (Packed es) -> update_lp n (Some (Some (b, p))) = Some (set_entry n b (total_bytes es) (qn_lzf n)).
Proof. intros Hr. unfold update_lp. cbn [mbind option_bind]. by rewrite (raw_bytes _ _ Hr). Qed.

Lemma new_packed_ok s : Forall is_byte s -> zlen s <= 65536 -> exists n, new_packed junk usable s = Some n /\ node_rep n (Packed [lp_encode s]) /\
  qn_count n = 0 /\ qn_lzf n = false /\ qn_recompress n = false /\ qn_dont_compress n = false.
Proof.
  intros Hs Hl. unfold new_packed. destruct (raw_new junk usable Husable) as (b & -> & Hb). cbn [mbind option_bind]. pose proof (packed_ok_one s Hs Hl) as Hok.
  destruct (raw_prepend junk usable Husable b [] s Hb Hs Hl Hok) as (b' & p & -> & Hb'). rewrite (update_lp_ok _ _ _ _ Hb'). eexists. split; [done|]. split; [by split|done].
Qed.

Lemma set_count_val n k : 0 <= k < 2 ^ 16 -> qn_count (set_count n k) = k.
Proof. intros Hk. cbn. rewrite (land_ones 16) by lia. by apply Z.mod_small. Qed.

(** ** Insertion next to a node *)

(** The place between [a] and [b] is just after or just before [old]. *)
Inductive adjacent : option nat -> bool -> list (nat * quicklistNode) -> list (nat * quicklistNode) -> Prop :=
  | adj_first after : adjacent None after [] []
  | adj_after a id n b : adjacent (Some id) true (a ++ [(id, n)]) b
  | adj_before a id n b : adjacent (Some id) false a ((id, n) :: b).

(** At most the node [o] is flagged. *)
Definition only_flag (o : option nat) (l : list (nat * quicklistNode)) : Prop := Forall (fun x => qn_recompress x.2 = true -> o = Some x.1) l.

Lemma only_none l : only_flag None l <-> unflagged l.
Proof. split; intros H; (eapply list.Forall_impl; [exact H|]); intros x Hx; cbn in *; [destruct (qn_recompress x.2); [by specialize (Hx eq_refl)|done]|congruence]. Qed.

Lemma only_rest id n a b o : NoDup ((a ++ (id, n) :: b).*1) -> only_flag o (a ++ (id, n) :: b) -> o = Some id -> unflagged a /\ unflagged b.
Proof.
  intros Hnd Ho ->. destruct (fst_not_in (a ++ (id, n) :: b) (length a) id n Hnd) as [Ha Hb]; [by rewrite lookup_app_r, Nat.sub_diag by lia|].
  rewrite take_app_length in Ha. replace (drop (S (length a)) (a ++ (id, n) :: b)) with b in Hb by (by rewrite cons_middle, app_assoc, drop_app_length' by (rewrite length_app; cbn; lia)).
  apply list.Forall_app in Ho as [Hoa [_ Hob]%list.Forall_cons].
  assert (H : forall l : list (nat * quicklistNode), id ∉ l.*1 -> only_flag (Some id) l -> unflagged l).
  { intros l Hl Hf. apply list.Forall_forall. intros x Hx. unfold only_flag in Hf. rewrite list.Forall_forall in Hf. destruct (qn_recompress x.2) eqn:E; [|done].
    destruct Hl. specialize (Hf x Hx E). injection Hf as ->. by apply list_elem_of_fmap_2. }
  split; by apply H.
Qed.

Lemma insert_adjacent ql old a b new cn after : wf ql -> lzf_deep (ql_compress ql) (ql_nodes ql) -> flags_deep (ql_compress ql) 0 (ql_nodes ql) ->
  Forall (fun x => old = Some x.1 -> qn_dont_compress x.2 = false) (ql_nodes ql) ->
  ql_nodes ql = a ++ b -> adjacent old after a b -> node_rep new cn -> qn_lzf new = false -> qn_recompress new = false ->
  exists l', insert_node junk lzf_base lzf_junk ql old new after = Some (grown ql l', ql_fresh ql) /\
    lsim (a ++ (ql_fresh ql, new) :: b) l' /\ lzf_deep (ql_compress ql) l' /\ wf (grown ql l') /\ (only_flag old (a ++ b) -> unflagged l').
Proof.
  intros Hwf Hd0 Hf0 Hdont Hl Hadj Hr Hz Hf. destruct Hadj as [after|a id n b|a id n b].
  - destruct (insert_first_ok junk lzf_base lzf_junk Hbase Hlzf ql new cn after Hwf Hl Hr Hz Hf) as (l' & -> & Hs & Hd & Hw & Hu). by exists l'.
  - rewrite <- app_assoc in *. cbn [app] in *.
    destruct (ql_insert_node_ok junk lzf_base lzf_junk Hbase Hlzf ql a id n b new cn true Hwf Hl Hd0 Hf0 Hr Hz Hf) as (l' & -> & Hs & Hd & Hw & Hu).
    exists l'. split; [done|]. split; [done|]. split; [done|]. split; [done|]. intros Ho. rewrite <- app_assoc in Ho. rewrite Hl in Hdont. apply list.Forall_app in Hdont as [_ [Hn _]%list.Forall_cons].
    pose proof (wf_ids _ Hwf) as Hnd. rewrite Hl in Hnd. destruct (only_rest id n a b _ Hnd Ho eq_refl). auto.
  - destruct (ql_insert_node_ok junk lzf_base lzf_junk Hbase Hlzf ql a id n b new cn false Hwf Hl Hd0 Hf0 Hr Hz Hf) as (l' & -> & Hs & Hd & Hw & Hu).
    exists l'. split; [done|]. split; [done|]. split; [done|]. split; [done|]. intros Ho. rewrite Hl in Hdont. apply list.Forall_app in Hdont as [_ [Hn _]%list.Forall_cons].
    pose proof (wf_ids _ Hwf) as Hnd. rewrite Hl in Hnd. destruct (only_rest id n a b _ Hnd Ho eq_refl). auto.
Qed.

Lemma with_count_same ql : with_count ql (ql_count ql) = ql.
Proof. by destruct ql. Qed.

Lemma wf_uncount ql k : wf (with_count ql k) -> wf ql.
Proof. intros H. apply (wf_count _ (ql_count ql)) in H. by destruct ql. Qed.

(** A node with its count; [k] is the number of elements, which the counter of the list may
    not show yet. *)
Lemma ql_insert_core ql k ca cb old a b new c after : core (with_count ql k) (ca ++ cb) -> ql_nodes ql = a ++ b -> length a = length ca -> adjacent old after a b ->
  node_rep new c -> qn_count new = zlen (vals c) -> vals c <> [] -> qn_lzf new = false -> qn_recompress new = false -> qn_dont_compress new = false ->
  exists l', insert_node junk lzf_base lzf_junk ql old new after = Some (grown ql l', ql_fresh ql) /\ lsim (a ++ (ql_fresh ql, new) :: b) l' /\
    core (with_count (grown ql l') (k + zlen (vals c))) (ca ++ c :: cb) /\ (only_flag old (ql_nodes ql) -> unflagged l').
Proof.
  intros Hco Hl Hlen Hadj Hr Hn Hne Hz Hf Hd. pose proof Hco as [H1 _ _ H4 H5 H6 _]. cbn [with_count ql_nodes ql_compress] in *.
  destruct (insert_adjacent ql old a b new c after) as (l' & -> & Hs & Hd' & Hw & Hu); [by eapply wf_uncount|done|done|by eapply list.Forall_impl; [exact H6|]|done..|].
  exists l'. split; [done|]. split; [done|]. split; [|by rewrite Hl]. apply (core_insert (with_count ql k) ca cb a b new); [done|done|done| |done..]. by destruct Hw.
Qed.

Lemma nsim_count id x y k : nsim (id, x) (id, y) -> nsim (id, set_count x k) (id, set_count y k).
Proof. intros [H1 H2 H3 H4 H5 H6 H8 H7]. split; [done|done|done|done|done|done| |]. { cbn. intros Hd Hz. by injection (H8 Hd Hz) as ->. } intros c [R1 R2 R3 R4 R5]. apply rep_count. apply H7. by split. Qed.

(** A node whose element is counted afterwards. *)
Lemma insert_counted ql ca cb old a b new c after : core ql (ca ++ cb) -> ql_nodes ql = a ++ b -> length a = length ca -> adjacent old after a b ->
  node_rep new c -> qn_count new = 0 -> zlen (vals c) = 1 -> qn_lzf new = false -> qn_recompress new = false -> qn_dont_compress new = false ->
  exists a' n' b', insert_node junk lzf_base lzf_junk ql old new after = Some (grown ql (a' ++ (ql_fresh ql, n') :: b'), ql_fresh ql) /\ length a' = length a /\ length b' = length b /\
    qn_count n' = 0 /\ wf (grown ql (a' ++ (ql_fresh ql, n') :: b')) /\
    core (with_count (grown ql (a' ++ (ql_fresh ql, set_count n' 1) :: b')) (ql_count ql + 1)) (ca ++ c :: cb) /\
    (only_flag old (ql_nodes ql) -> unflagged (a' ++ (ql_fresh ql, set_count n' 1) :: b')).
Proof.
  intros Hco Hl Hlen Hadj Hr Hn H1 Hz Hf Hd. pose proof Hco as [Hc1 _ _ Hc4 Hc5 Hc6 _].
  destruct (insert_adjacent ql old a b new c after Hc1 Hc4 Hc5) as (l' & -> & Hs & Hd' & Hw & Hu); [by eapply list.Forall_impl; [exact Hc6|]|done..|].
  destruct (lsim_app_inv _ _ _ _ Hs) as (a' & [id' n'] & b' & -> & Ha & Hx & Hb). pose proof (ns_id _ _ Hx) as Eid. cbn in Eid. subst id'.
  exists a', n', b'. split; [done|]. split; [by apply lsim_length|]. split; [by apply lsim_length|]. split; [pose proof (ns_count _ _ Hx) as Ec; cbn in Ec; congruence|]. split; [done|].
  assert (Hs' : lsim (a ++ (ql_fresh ql, set_count new 1) :: b) (a' ++ (ql_fresh ql, set_count n' 1) :: b')).
  { apply Forall2_app; [done|]. constructor; [by apply nsim_count|done]. }
  split.
  - replace (ql_count ql + 1) with (ql_count ql + zlen (vals c)) by lia. apply (core_insert ql ca cb a b (set_count new 1)); [done..| |done| |by apply rep_count|by rewrite H1|done|done|by intros E; rewrite E in H1].
    + change (grown ql (a' ++ (ql_fresh ql, set_count n' 1) :: b')) with (with_nodes (grown ql (a' ++ (ql_fresh ql, n') :: b')) (a' ++ (ql_fresh ql, set_count n' 1) :: b')).
      apply (wf_update _ a' _ n'); [done|done|]. exists c. by apply rep_count, Hx.
    + by apply (deep_update _ _ _ _ _ n').
  - intros Ho. rewrite Hl in Ho. specialize (Hu Ho). apply unflagged_app in Hu as [Hua Hub]. apply unflagged_cons in Hub as [Hun Hub]. apply unflagged_app. split; [done|]. by apply unflagged_cons.
Qed.

(** One more element in the listpack of a node. *)
Lemma grow_core ql ca es cb a id n b es' b' : core ql (ca ++ Packed es :: cb) -> ql_nodes ql = a ++ (id, n) :: b -> length a = length ca -> qn_lzf n = false ->
  raw b' (Packed es') -> cont_ok (Packed es') -> zlen es' = zlen es + 1 ->
  core (with_count (with_nodes ql (a ++ (id, set_count (set_entry n b' (total_bytes es') (qn_lzf n)) (qn_count n + 1)) :: b)) (ql_count ql + 1)) (ca ++ Packed es' :: cb).
Proof.
  intros Hco Hl Hlen Hz Hr Hok Hn. pose proof (co_holds _ _ Hco) as Hh. rewrite Hl in Hh. destruct (holds_split _ _ _ _ _ _ Hh Hlen) as (_ & [Hrep Hc] & _). cbn [snd] in *.
  pose proof (co_dont _ _ Hco) as Hd. rewrite Hl in Hd. apply list.Forall_app in Hd as [_ [Hd _]%list.Forall_cons].
  assert (Hv : Forall valid_entry es) by apply (nr_ok _ _ Hrep). assert (Hv' : Forall valid_entry es') by apply Hok. assert (Hm : zlen es' <= MAX_ELEMENTS) by apply Hok. unfold MAX_ELEMENTS in Hm.
  rewrite (zlen_vals es Hv) in Hc. pose proof (zlen_nonneg es).
  apply (core_update ql ca (Packed es) cb a id n b); [done|done|done|by apply rep_count; eapply rep_entry| |done|done|done| |].
  - rewrite set_count_val by lia. rewrite (zlen_vals es' Hv'). lia.
  - intros E. apply (f_equal zlen) in E. rewrite (zlen_vals es' Hv'), zlen_nil in E. lia.
  - rewrite !zlen_vals by done. lia.
Qed.

(** ** The ends are not compressed *)

Lemma end_raw ql a id n b : wf ql -> lzf_deep (ql_compress ql) (ql_nodes ql) -> ql_nodes ql = a ++ (id, n) :: b -> a = [] \/ b = [] -> qn_lzf n = false.
Proof.
  intros Hwf Hd Hl He. destruct (qn_lzf n) eqn:E; [|done]. destruct (Hd (length a) (id, n)) as [Hc Hb]; [by rewrite Hl, lookup_app_r, Nat.sub_diag by lia|done|].
  rewrite Hl, zlen_app, zlen_cons in Hb. unfold zlen in Hb. destruct He as [-> | ->]; cbn in Hb; lia.
Qed.

Lemma end_unflagged ql a id n b m : flags_deep (ql_compress ql) m (ql_nodes ql) -> 0 <= m -> ql_nodes ql = a ++ (id, n) :: b -> a = [] \/ b = [] -> qn_recompress n = false.
Proof.
  intros Hd Hm Hl He. destruct (qn_recompress n) eqn:E; [|done]. destruct (Hd (length a) (id, n)) as [Hc Hb]; [by rewrite Hl, lookup_app_r, Nat.sub_diag by lia|done|].
  rewrite Hl, zlen_app, zlen_cons in Hb. unfold zlen in Hb. destruct He as [-> | ->]; cbn in Hb; lia.
Qed.

Lemma head_of ql id n b : ql_nodes ql = (id, n) :: b -> ql_head ql = Some id.
Proof. intros Hl. unfold ql_head. by rewrite Hl. Qed.

Lemma tail_of ql a id n : ql_nodes ql = a ++ [(id, n)] -> ql_tail ql = Some id.
Proof. intros Hl. unfold ql_tail. by rewrite Hl, reverse_snoc. Qed.

Lemma insert_inline ql old n after q i : insert_node junk lzf_base lzf_junk ql old n after = Some (q, i) ->
  (let '(id, ql) := fresh_node ql in __quicklistInsertNode junk lzf_base lzf_junk ql old id n after) = Some q.
Proof. unfold insert_node, fresh_node. destruct (__quicklistInsertNode _ _ _ _ _ _ _ _); [|done]. cbn. by intros [= ->]. Qed.

Definition elem_ok (s : list Z) : Prop := Forall is_byte s /\ zlen s < 2 ^ 32.

Lemma plain_ok s : elem_ok s -> node_rep {| qn_entry := s; qn_sz := zlen s; qn_count := 1; qn_lzf := false; qn_plain := true; qn_recompress := false; qn_dont_compress := false |} (Plain s).
Proof. intros Hs. by split. Qed.

Lemma insert_plain_ok ql ca cb old a b s after : core ql (ca ++ cb) -> ql_nodes ql = a ++ b -> length a = length ca -> adjacent old after a b -> elem_ok s ->
  exists ql', __quicklistInsertPlainNode junk usable lzf_base lzf_junk ql old s after = Some ql' /\ core ql' (ca ++ Plain s :: cb) /\ (only_flag old (ql_nodes ql) -> unflagged (ql_nodes ql')).
Proof.
  intros Hco Hl Hlen Hadj Hs. unfold __quicklistInsertPlainNode. cbn [__quicklistCreateNode mbind option_bind].
  rewrite <- (with_count_same ql) in Hco.
  destruct (ql_insert_core ql _ ca cb old a b _ (Plain s) after Hco Hl Hlen Hadj (plain_ok s Hs)) as (l' & Hi & _ & Hco' & Hu); [done..|].
  apply insert_inline in Hi. unfold fresh_node in *. rewrite Hi. cbn [mbind option_bind]. eexists. split; [done|]. split; [exact Hco'|]. exact Hu.
Qed.

(** ** Pushing *)

Lemma inv_only ql cs o : inv ql cs -> only_flag o (ql_nodes ql).
Proof. intros [_ Hu]. eapply list.Forall_impl; [exact Hu|]. cbn. congruence. Qed.

Lemma packed_of n c : node_rep n c -> qn_plain n = false -> exists es, c = Packed es.
Proof. intros [Hp _ _ _ _] E. rewrite E in Hp. destruct c as [v|es]; [done|by exists es]. Qed.

(** The shape of the list at one of its ends. *)
Lemma holds_cons x b cs : holds (x :: b) cs -> exists c cb, cs = c :: cb.
Proof. inversion 1; subst. by eexists _, _. Qed.

Lemma holds_snoc a x cs : holds (a ++ [x]) cs -> exists ca c, cs = ca ++ [c] /\ length a = length ca.
Proof.
  intros H. apply Forall2_app_inv_l in H as (ca & r & Ha & Hr & ->). inversion Hr as [|? c ? ? _ Hn]; subst. inversion Hn; subst.
  exists ca, c. split; [done|]. by apply list.Forall2_length in Ha.
Qed.

(** The element is counted in the node at the end. *)
Lemma count_end ql a id n b e : wf ql -> ql_nodes ql = a ++ (id, n) :: b -> e = Some id ->
  (id ← e; node ← get_node ql id; Some (with_count (set_node ql id (set_count node (qn_count node + 1))) (ql_count ql + 1))) =
  Some (with_count (with_nodes ql (a ++ (id, set_count n (qn_count n + 1)) :: b)) (ql_count ql + 1)).
Proof. intros Hwf Hl ->. destruct (node_at_split ql a id n b Hwf Hl) as (_ & Hg & Hset). cbn [mbind option_bind]. rewrite Hg. cbn [mbind option_bind]. by rewrite Hset. Qed.

(** An element goes into the listpack at the end. *)
Lemma push_grow ql ca es cb a id n b es' b' p : inv ql (ca ++ Packed es :: cb) -> ql_nodes ql = a ++ (id, n) :: b -> length a = length ca -> qn_lzf n = false ->
  raw b' (Packed es') -> cont_ok (Packed es') -> zlen es' = zlen es + 1 ->
  exists n1, (node ← update_lp n (Some (Some (b', p))); Some (set_node ql id node)) = Some (with_nodes ql (a ++ (id, n1) :: b)) /\ wf (with_nodes ql (a ++ (id, n1) :: b)) /\
    inv (with_count (with_nodes ql (a ++ (id, set_count n1 (qn_count n1 + 1)) :: b)) (ql_count ql + 1)) (ca ++ Packed es' :: cb).
Proof.
  intros [Hco Hu] Hl Hlen Hz Hr Hok Hn. pose proof (co_wf _ _ Hco) as Hwf. destruct (node_at_split ql a id n b Hwf Hl) as (_ & _ & Hset).
  rewrite (update_lp_ok _ _ _ _ Hr). cbn [mbind option_bind]. rewrite Hset. eexists. split; [done|]. pose proof (co_holds _ _ Hco) as Hh. rewrite Hl in Hh, Hu.
  destruct (holds_split _ _ _ _ _ _ Hh Hlen) as (_ & [Hrep _] & _). cbn [snd] in Hrep. split; [apply (wf_update ql a id n _ b Hwf Hl); exists (Packed es'); by eapply rep_entry|].
  split; [by apply (grow_core ql ca es cb a id n b es' b')|]. apply unflagged_app in Hu as [Hua Hub]. apply unflagged_cons in Hub as [Hun Hub].
  apply unflagged_app. split; [done|]. by apply unflagged_cons.
Qed.

(** In a node of its own, or in the listpack of the first node. *)
Inductive pushed (s : list Z) : list content -> list content -> Prop :=
  | pushed_node c cs : vals c = [s] -> pushed s cs (c :: cs)
  | pushed_in es cb : pushed s (Packed es :: cb) (Packed (lp_encode s :: es) :: cb).

Lemma push_head_ok ql cs s : inv ql cs -> elem_ok s ->
  exists ql' cs', quicklistPushHead junk usable lzf_base lzf_junk packed_threshold ql s = Some ql' /\ inv ql' cs' /\ flat cs' = s :: flat cs /\ pushed s cs cs'.
Proof.
  intros Hinv Hs. pose proof Hinv as [Hco Hu]. pose proof (co_wf _ _ Hco) as Hwf. pose proof (wf_fill _ Hwf) as [Hfill _]. unfold quicklistPushHead.
  assert (Hadj : adjacent (ql_head ql) false [] (ql_nodes ql)) by (unfold ql_head; destruct (ql_nodes ql) as [|[h nh] b]; [constructor|apply (adj_before [])]).
  destruct (large_spec (zlen s) (ql_fill ql) Hfill) as (large & -> & Hlarge). cbn [mbind option_bind]. destruct large.
  { destruct (insert_plain_ok ql [] cs (ql_head ql) [] (ql_nodes ql) s false Hco eq_refl eq_refl Hadj Hs) as (ql' & -> & Hco' & Hu').
    exists ql', (Plain s :: cs). split; [done|]. split; [|by split; [|constructor]]. split; [done|]. by apply Hu', (inv_only ql cs). }
  specialize (Hlarge eq_refl). destruct Hs as [Hs Hs2].
  destruct (allow_insert_spec (node_of ql (ql_head ql)) (ql_fill ql) (zlen s) Hfill) as (allow & -> & Hallow). cbn [mbind option_bind]. destruct allow.
  - destruct (Hallow eq_refl) as (n & Hn & Hpl & Hroom). unfold node_of in Hn. destruct (ql_head ql) as [h|] eqn:Eh; [|done]. cbn [mbind option_bind] in *.
    destruct (ql_nodes ql) as [|[h' nh] b] eqn:El; [by unfold ql_head in Eh; rewrite El in Eh|]. rewrite (head_of ql h' nh b El) in Eh. injection Eh as ->.
    destruct (node_at_split ql [] h nh b Hwf El) as (_ & Hg & _). rewrite Hg in Hn |- *. injection Hn as ->. cbn [mbind option_bind].
    pose proof (co_holds _ _ Hco) as Hh. rewrite El in Hh. destruct (holds_cons _ _ _ Hh) as (c & cb & ->). destruct (holds_split [] _ b [] c cb Hh eq_refl) as (_ & [Hrep _] & _). cbn [snd] in *.
    destruct (packed_of _ _ Hrep Hpl) as [es ->]. assert (Hz : qn_lzf n = false) by (apply (end_raw ql [] h n b Hwf (co_lzf _ _ Hco) El); by left).
    pose proof (nr_raw _ _ Hrep) as Hr. rewrite Hz in Hr. pose proof (room_one n es s Hrep Hs Hlarge Hroom [] es eq_refl) as Hok. cbn [app] in Hok.
    destruct (raw_prepend junk usable Husable (qn_entry n) es s Hr Hs Hlarge Hok) as (b' & p & -> & Hr').
    destruct (push_grow ql [] es cb [] h n b (lp_encode s :: es) b' p Hinv El eq_refl Hz Hr' Hok ltac:(rewrite zlen_cons; lia)) as (n1 & -> & Hw1 & Hinv').
    cbn [mbind option_bind]. rewrite (count_end _ [] h n1 b _ Hw1 eq_refl) by done.
    eexists _, (Packed (lp_encode s :: es) :: cb). split; [done|]. split; [exact Hinv'|]. split; [|constructor].
    rewrite !flat_cons. change (lp_encode s :: es) with ([lp_encode s] ++ es). by rewrite vals_app, vals_one by done.
  - destruct (new_packed_ok s Hs Hlarge) as (n & -> & Hrep & Hc0 & Hz & Hf & Hd). cbn [mbind option_bind].
    destruct (insert_counted ql [] cs (ql_head ql) [] (ql_nodes ql) n _ false Hco eq_refl eq_refl Hadj Hrep Hc0) as (a' & n' & b' & Hi & Ha & _ & Hc' & Hw & Hco' & Hu'); [by rewrite vals_one|done..|].
    apply insert_inline in Hi. rewrite Hi. cbn [mbind option_bind]. destruct a' as [|]; [|done]. rewrite (count_end _ [] (ql_fresh ql) n' b' _ Hw eq_refl), Hc' by done.
    eexists _, (Packed [lp_encode s] :: cs). split; [done|]. split; [split; [exact Hco'|by apply Hu', (inv_only ql cs)]|]. pose proof (vals_one s Hs Hlarge) as H1. split; [by rewrite flat_cons, H1|by constructor].
Qed.

Lemma push_tail_ok ql cs s : inv ql cs -> elem_ok s ->
  exists ql' cs', quicklistPushTail junk usable lzf_base lzf_junk packed_threshold ql s = Some ql' /\ inv ql' cs' /\ flat cs' = flat cs ++ [s].
Proof.
  intros Hinv Hs. pose proof Hinv as [Hco Hu]. pose proof (co_wf _ _ Hco) as Hwf. pose proof (wf_fill _ Hwf) as [Hfill _]. unfold quicklistPushTail.
  assert (Hl0 : ql_nodes ql = ql_nodes ql ++ []) by (by rewrite app_nil_r). assert (Hc0 : core ql (cs ++ [])) by (by rewrite app_nil_r).
  assert (Hlen : length (ql_nodes ql) = length cs) by (eapply list.Forall2_length, (co_holds _ _ Hco)).
  assert (Hadj : adjacent (ql_tail ql) true (ql_nodes ql) []) by (unfold ql_tail; destruct (ql_nodes ql) as [|[h nh] b _] using rev_ind; [constructor|rewrite reverse_snoc; apply adj_after]).
  destruct (large_spec (zlen s) (ql_fill ql) Hfill) as (large & -> & Hlarge). cbn [mbind option_bind]. destruct large.
  { destruct (insert_plain_ok ql cs [] (ql_tail ql) (ql_nodes ql) [] s true Hc0 Hl0 Hlen Hadj Hs) as (ql' & -> & Hco' & Hu').
    exists ql', (cs ++ [Plain s]). split; [done|]. split; [|by rewrite flat_app]. split; [done|]. by apply Hu', (inv_only ql cs). }
  specialize (Hlarge eq_refl). destruct Hs as [Hs Hs2].
  destruct (allow_insert_spec (node_of ql (ql_tail ql)) (ql_fill ql) (zlen s) Hfill) as (allow & -> & Hallow). cbn [mbind option_bind]. destruct allow.
  - destruct (Hallow eq_refl) as (n & Hn & Hpl & Hroom). unfold node_of in Hn. destruct (ql_tail ql) as [h|] eqn:Eh; [|done]. cbn [mbind option_bind] in *. clear Hadj Hl0.
    destruct (ql_nodes ql) as [|[h' nh] a _] eqn:El using rev_ind; [by unfold ql_tail in Eh; rewrite El in Eh|]. rewrite (tail_of ql a h' nh El) in Eh. injection Eh as ->.
    destruct (node_at_split ql a h nh [] Hwf El) as (_ & Hg & _). rewrite Hg in Hn |- *. injection Hn as ->. cbn [mbind option_bind].
    pose proof (co_holds _ _ Hco) as Hh. rewrite El in Hh. destruct (holds_snoc _ _ _ Hh) as (ca & c & -> & Hla). destruct (holds_split a _ [] ca c [] Hh Hla) as (_ & [Hrep _] & _). cbn [snd] in *.
    destruct (packed_of _ _ Hrep Hpl) as [es ->]. assert (Hz : qn_lzf n = false) by (apply (end_raw ql a h n [] Hwf (co_lzf _ _ Hco) El); by right).
    pose proof (nr_raw _ _ Hrep) as Hr. rewrite Hz in Hr. pose proof (room_one n es s Hrep Hs Hlarge Hroom es [] ltac:(by rewrite app_nil_r)) as Hok.
    destruct (raw_append junk usable Husable (qn_entry n) es s Hr Hs Hlarge Hok) as (b' & p & -> & Hr').
    destruct (push_grow ql ca es [] a h n [] (es ++ [lp_encode s]) b' p Hinv El Hla Hz Hr' Hok ltac:(rewrite zlen_app; reflexivity)) as (n1 & -> & Hw1 & Hinv').
    cbn [mbind option_bind]. rewrite (count_end _ a h n1 [] _ Hw1 eq_refl) by (by eapply tail_of).
    eexists _, (ca ++ [Packed (es ++ [lp_encode s])]). split; [done|]. split; [exact Hinv'|].
    rewrite !flat_app, <- app_assoc, !flat_cons, vals_app, vals_one by done. by rewrite <- !app_assoc.
  - destruct (raw_new junk usable Husable) as (b0 & -> & Hb0). cbn [mbind option_bind]. pose proof (packed_ok_one s Hs Hlarge) as Hok.
    destruct (raw_append junk usable Husable b0 [] s Hb0 Hs Hlarge Hok) as (b1 & p & -> & Hb1). cbn [app] in Hb1. rewrite (update_lp_ok _ _ _ _ Hb1). cbn [mbind option_bind].
    set (n := set_entry quicklistCreateNode b1 _ _). assert (Hrep : node_rep n (Packed [lp_encode s])) by (by split).
    destruct (insert_counted ql cs [] (ql_tail ql) (ql_nodes ql) [] n _ true Hc0 Hl0 Hlen Hadj Hrep eq_refl) as (a' & n' & b' & Hi & _ & Hb & Hc' & Hw & Hco' & Hu'); [by rewrite vals_one|done..|].
    apply insert_inline in Hi. rewrite Hi. cbn [mbind option_bind]. destruct b' as [|]; [|done]. rewrite (count_end _ a' (ql_fresh ql) n' [] _ Hw eq_refl), Hc' by (by eapply tail_of).
    eexists _, (cs ++ [Packed [lp_encode s]]). split; [done|]. split; [split; [exact Hco'|by apply Hu', (inv_only ql cs)]|]. rewrite flat_app, flat_cons, vals_one by done. done.
Qed.

(** ** Deleting one element *)

Definition entry_at (c : content) (i : nat) (p : option Z) : Prop := match c with Plain _ => i = 0%nat | Packed es => (i < length es)%nat /\ p = Some (pos es i) end.

Lemma packed_ok_delete es i : cont_ok (Packed es) -> cont_ok (Packed (delete i es)).
Proof.
  intros H. rewrite delete_take_drop. apply packed_ok_app; [by apply packed_ok_take|by apply packed_ok_drop|]. destruct H as (_ & Hn & _).
  unfold zlen, MAX_ELEMENTS in *. rewrite length_take, length_drop. lia.
Qed.

(** The node goes when it was its last element. *)
Definition deleted (ql ql' : quicklist) (ca : list content) (c : content) (cb : list content) (a : list (nat * quicklistNode)) (id : nat) (n : quicklistNode) (b : list (nat * quicklistNode)) (i : nat) (gone : bool) : Prop :=
  if gone then length (vals c) = 1%nat /\ core ql' (ca ++ cb) /\ lsim (a ++ b) (ql_nodes ql')
  else exists es n', c = Packed es /\ core ql' (ca ++ Packed (delete i es) :: cb) /\ ql_nodes ql' = a ++ (id, n') :: b /\ qn_recompress n' = qn_recompress n /\ qn_lzf n' = false.

Lemma del_index_ok ql ca c cb a id n b i p : core ql (ca ++ c :: cb) -> ql_nodes ql = a ++ (id, n) :: b -> length a = length ca -> qn_lzf n = false ->
  flags_deep (ql_compress ql) 0 (a ++ b) -> entry_at c i p ->
  exists ql' gone p', quicklistDelIndex junk usable lzf_base lzf_junk ql id p = Some (ql', gone, p') /\ deleted ql ql' ca c cb a id n b i gone /\ ql_compress ql' = ql_compress ql.
Proof.
  intros Hco Hl Hlen Hz Hf He. pose proof (co_wf _ _ Hco) as Hwf. unfold quicklistDelIndex. destruct (node_at_split ql a id n b Hwf Hl) as (_ & -> & Hset). cbn [mbind option_bind].
  pose proof (co_holds _ _ Hco) as Hh. rewrite Hl in Hh. destruct (holds_split _ _ _ _ _ _ Hh Hlen) as (_ & [Hrep Hcnt] & _). cbn [snd] in *. rewrite (nr_plain _ _ Hrep).
  destruct c as [v|es]; cbn [is_plain entry_at] in *.
  { destruct (del_node_ok junk lzf_base lzf_junk Hbase Hlzf ql a id n b Hwf Hl (co_lzf _ _ Hco) Hf) as (l' & -> & Hs & Hd & Hw). cbn [mbind option_bind].
    eexists _, true, _. split; [done|]. split; [|done]. split; [done|]. split; [|done]. by apply (core_delete ql ca (Plain v) cb a id n b). }
  destruct He as [Hi ->]. cbn [mbind option_bind]. pose proof (nr_raw _ _ Hrep) as Hr. rewrite Hz in Hr. pose proof (nr_ok _ _ Hrep) as Hok. pose proof (packed_ok_delete es i Hok) as Hok'.
  destruct (raw_delete junk usable Husable _ _ i Hr Hi) as (b' & p' & -> & Hr'). cbn [mbind option_bind]. rewrite (raw_bytes _ _ Hr'). cbn [mbind option_bind].
  assert (Hv : Forall valid_entry es) by apply Hok. assert (Hv' : Forall valid_entry (delete i es)) by apply Hok'. assert (Hm : zlen es <= MAX_ELEMENTS) by apply Hok. unfold MAX_ELEMENTS in Hm.
  rewrite (zlen_vals es Hv) in Hcnt. pose proof (length_delete es i ltac:(by apply lookup_lt_is_Some)) as Hdl.
  set (n1 := set_count (set_entry n b' (total_bytes (delete i es)) (qn_lzf n)) (qn_count n - 1)).
  assert (Hc1 : qn_count n1 = zlen (delete i es)) by (unfold n1; rewrite set_count_val; unfold zlen in *; lia).
  assert (Hrep1 : node_rep n1 (Packed (delete i es))) by (apply rep_count; by eapply rep_entry). rewrite Hc1, Hset.
  destruct (Z.eqb_spec (zlen (delete i es)) 0) as [E0|E0].
  - assert (Hw1 : wf (with_nodes ql (a ++ (id, n1) :: b))) by (apply (wf_update ql a id n); [done|done|by eexists]).
    destruct (del_node_ok junk lzf_base lzf_junk Hbase Hlzf (with_nodes ql (a ++ (id, n1) :: b)) a id n1 b Hw1 eq_refl) as (l' & -> & Hs & Hd & Hw).
    { rewrite nodes_with. pose proof (co_lzf _ _ Hco) as Hd. rewrite Hl in Hd. by apply (deep_update _ _ _ _ _ n). }
    { done. }
    cbn [mbind option_bind]. eexists _, true, _. split; [done|]. split; [|done]. rewrite Hc1, E0 in *. assert (Hn1 : qn_count n = 1) by (unfold zlen in *; lia).
    split; [rewrite length_vals by done; unfold zlen in *; lia|]. split; [|done].
    replace (with_count _ _) with (shrunk ql l' (qn_count n)); [|unfold with_count, shrunk; cbn; f_equal; lia].
    apply (core_delete ql ca (Packed es) cb a id n b l'); [done|done|done| |done|done|done]. by destruct Hw.
  - cbn [mbind option_bind]. eexists _, false, _. split; [done|]. split; [|done]. exists es, n1. split; [done|]. split; [|done].
    apply (core_update ql ca (Packed es) cb a id n b); [done|done|done|done|by rewrite zlen_vals|done|done| | |].
    + pose proof (co_dont _ _ Hco) as Hd. rewrite Hl in Hd. by apply list.Forall_app in Hd as [_ [Hd _]%list.Forall_cons].
    + intros E. apply (f_equal zlen) in E. by rewrite zlen_vals in E.
    + rewrite !zlen_vals by done. cbn [with_nodes ql_count]. unfold zlen in *. lia.
Qed.

Lemma deleted_flat ql ql' ca c cb a id n b i gone : core ql (ca ++ c :: cb) -> ql_nodes ql = a ++ (id, n) :: b -> length a = length ca ->
  (exists p, entry_at c i p) -> deleted ql ql' ca c cb a id n b i gone ->
  exists cs', core ql' cs' /\ flat cs' = flat ca ++ delete i (vals c) ++ flat cb /\ (unflagged a -> unflagged b -> gone = true \/ qn_recompress n = false -> unflagged (ql_nodes ql')).
Proof.
  intros Hco Hl Hlen He Hd. pose proof (co_holds _ _ Hco) as Hh. rewrite Hl in Hh. destruct (holds_split _ _ _ _ _ _ Hh Hlen) as (_ & [Hrep Hcnt] & _).
  assert (Hi : (i < length (vals c))%nat).
  { destruct He as [p Hp]. destruct c as [v|es]; cbn in Hp; [subst; cbn; lia|]. rewrite length_vals by apply (nr_ok _ _ Hrep). lia. }
  destruct gone.
  - destruct Hd as (H1 & Hc & Hs). exists (ca ++ cb). split; [done|]. split.
    + rewrite flat_app. f_equal. destruct (vals c) as [|v [|]]; [done| |done]. by destruct i; [|cbn in Hi; lia].
    + intros Ha Hb _. apply (unflagged_sim _ _ Hs). by apply unflagged_app.
  - destruct Hd as (es & n' & -> & Hc & Hn & Hf & _). exists (ca ++ Packed (delete i es) :: cb). split; [done|]. split.
    + rewrite flat_app, flat_cons, vals_delete by apply (nr_ok _ _ Hrep). done.
    + intros Ha Hb [?|Hr]; [done|]. rewrite Hn. apply unflagged_app. split; [done|]. apply unflagged_cons. split; [|done]. cbn. congruence.
Qed.

(** ** Popping *)

Definition end_index (front : bool) (vs : list (list Z)) : nat := if front then 0 else (length vs - 1)%nat.

(** The element at one end of a node. *)
Lemma read_end n c front : node_rep n c -> qn_lzf n = false -> vals c <> [] -> exists v, vals c !! end_index front (vals c) = Some v /\
  match c with
  | Plain s => v = s /\ rd_bytes (qn_entry n) 0 (qn_sz n) = Some s
  | Packed es => exists le, lpSeek (qn_entry n) (if front then 0 else -1) = Some (Some (pos es (end_index front (vals c)))) /\ read_value (qn_entry n) (pos es (end_index front (vals c))) = Some le /\ arg_text le = v
  end.
Proof.
  intros Hrep Hz Hne. pose proof (nr_raw _ _ Hrep) as Hr. rewrite Hz in Hr. pose proof (nr_ok _ _ Hrep) as Hok.
  assert (Hpos : (0 < length (vals c))%nat) by (destruct (vals c); [done|cbn; lia]).
  assert (Hlt : (end_index front (vals c) < length (vals c))%nat) by (unfold end_index; destruct front; lia).
  apply lookup_lt_is_Some in Hlt as [v Hv]. exists v. split; [done|]. destruct c as [s|es].
  - cbn [raw] in Hr. subst s. split; [by destruct front; injection Hv|]. pose proof (rd_bytes_head (qn_entry n) [] (qn_sz n) (nr_sz _ _ Hrep)) as H. by rewrite app_nil_r in H.
  - destruct (raw_read _ _ _ _ Hr Hv) as (le & Hle & Ht). exists le. split; [|done]. rewrite (raw_seek _ _ _ Hr) by (destruct front; by vm_compute). do 2 f_equal.
    rewrite (length_vals es) in Hpos by apply Hok. unfold seek_index, end_index. rewrite length_vals by apply Hok. destruct front; cbn [Z.ltb Z.compare].
    + rewrite (proj2 (Z.ltb_lt 0 (zlen es))) by (unfold zlen; lia). done.
    + rewrite (proj2 (Z.leb_le 0 _)), (proj2 (Z.ltb_lt _ _)) by (unfold zlen; lia). cbn [andb fmap option_fmap option_map]. do 2 f_equal. unfold zlen. lia.
Qed.

Lemma flat_nil ql cs : core ql cs -> flat cs = [] -> cs = [].
Proof. intros Hco Hf. pose proof (co_nonempty _ _ Hco) as Hn. destruct cs as [|c cs]; [done|]. apply list.Forall_cons in Hn as [Hn _]. rewrite flat_cons in Hf. by apply app_eq_nil in Hf as [? _]. Qed.

Definition pop_spec (front : bool) (vs : list (list Z)) (v : list Z) (vs' : list (list Z)) : Prop := if front then vs = v :: vs' else vs = vs' ++ [v].

Lemma pop_delete (front : bool) (va vb vs : list (list Z)) v : vs !! end_index front vs = Some v -> (if front then va = [] else vb = []) ->
  pop_spec front (va ++ vs ++ vb) v (va ++ delete (end_index front vs) vs ++ vb).
Proof.
  intros Hv He. destruct front; cbn [pop_spec end_index] in *; subst.
  - destruct vs as [|w vs]; [done|]. by injection Hv as ->.
  - destruct vs as [|w vs _] using rev_ind; [done|]. rewrite length_app in *. cbn [length] in *. replace (length vs + 1 - 1)%nat with (length vs) in * by lia.
    rewrite lookup_app_r, Nat.sub_diag in Hv by lia. injection Hv as ->. rewrite delete_take_drop, take_app_length, drop_ge, !app_nil_r by (rewrite length_app; cbn; lia). by rewrite app_assoc.
Qed.

(** The node at one end. *)
Lemma end_split ql cs front : core ql cs -> cs <> [] -> exists a id n b ca c cb, ql_nodes ql = a ++ (id, n) :: b /\ cs = ca ++ c :: cb /\ length a = length ca /\
  (if front : bool then ql_head ql else ql_tail ql) = Some id /\ (if front then a = [] /\ ca = [] else b = [] /\ cb = []).
Proof.
  intros Hco Hne. pose proof (co_holds _ _ Hco) as Hh. destruct front.
  - destruct (ql_nodes ql) as [|[id n] b] eqn:El; [by inversion Hh; subst|]. destruct (holds_cons _ _ _ Hh) as (c & cb & ->).
    exists [], id, n, b, [], c, cb. split; [done|]. split; [done|]. split; [done|]. split; [by apply (head_of ql id n b)|done].
  - destruct (ql_nodes ql) as [|[id n] a _] eqn:El using rev_ind; [by inversion Hh; subst|]. destruct (holds_snoc _ _ _ Hh) as (ca & c & -> & Hla).
    exists a, id, n, [], ca, c, []. split; [done|]. split; [done|]. split; [done|]. split; [by apply (tail_of ql a id n)|done].
Qed.

Lemma pop_ok ql cs front : inv ql cs ->
  match flat cs with
  | [] => quicklistPop junk usable lzf_base lzf_junk ql front = Some (None, ql)
  | _ => exists le ql' cs', quicklistPop junk usable lzf_base lzf_junk ql front = Some (Some le, ql') /\ inv ql' cs' /\ pop_spec front (flat cs) (arg_text le) (flat cs')
  end.
Proof.
  intros [Hco Hu]. unfold quicklistPop, quicklistPopCustom. rewrite (co_count _ _ Hco). destruct (flat cs) as [|v0 vs0] eqn:Efl; [done|]. rewrite zlen_cons, (proj2 (Z.eqb_neq _ 0)) by (pose proof (zlen_nonneg vs0); lia).
  rewrite <- Efl. assert (Hne : cs <> []) by (intros ->; done). destruct (end_split ql cs front Hco Hne) as (a & id & n & b & ca & c & cb & El & -> & Hlen & -> & Hend).
  pose proof (co_wf _ _ Hco) as Hwf. destruct (node_at_split ql a id n b Hwf El) as (_ & -> & _). cbn [mbind option_bind].
  assert (Hz : qn_lzf n = false) by (apply (end_raw ql a id n b Hwf (co_lzf _ _ Hco) El); destruct front; [left|right]; apply Hend). rewrite Hz. cbn [negb cassert mbind option_bind].
  pose proof (co_holds _ _ Hco) as Hh. rewrite El in Hh, Hu. destruct (holds_split _ _ _ _ _ _ Hh Hlen) as (_ & [Hrep Hcnt] & _). cbn [snd] in *.
  apply unflagged_app in Hu as [Hua Hub]. apply unflagged_cons in Hub as [Hun Hub]. assert (Hf : flags_deep (ql_compress ql) 0 (a ++ b)) by (apply unflagged_deep; by apply unflagged_app).
  pose proof (co_nonempty _ _ Hco) as Hnz. apply list.Forall_app in Hnz as [_ [Hnz _]%list.Forall_cons].
  destruct (read_end n c front Hrep Hz Hnz) as (v & Hv & Hread). rewrite (nr_plain _ _ Hrep).
  assert (Hfin : forall ql' gone p, entry_at c (end_index front (vals c)) p -> deleted ql ql' ca c cb a id n b (end_index front (vals c)) gone ->
    exists cs', inv ql' cs' /\ pop_spec front (flat (ca ++ c :: cb)) v (flat cs')).
  { intros ql' gone p He Hd. destruct (deleted_flat ql ql' ca c cb a id n b _ gone Hco El Hlen ltac:(by eexists) Hd) as (cs' & Hco' & Hfl & Hu').
    exists cs'. split; [split; [done|by apply Hu'; [..|right]]|]. rewrite Hfl, flat_app, flat_cons. apply pop_delete; [done|]. by destruct front, Hend as [-> ->]. }
  destruct c as [s|es]; cbn [is_plain].
  - destruct Hread as [-> ->]. cbn [mbind option_bind]. destruct (del_index_ok ql ca (Plain s) cb a id n b 0 None Hco El Hlen Hz Hf eq_refl) as (ql' & gone & p' & -> & Hd & _).
    cbn [mbind option_bind]. assert (E0 : end_index front (vals (Plain s)) = 0%nat) by (by destruct front). rewrite E0 in Hfin. destruct (Hfin ql' gone None eq_refl Hd) as (cs' & Hinv' & Hp). by exists (SVal s), ql', cs'.
  - destruct Hread as (le & -> & Hle & Ht). cbn [mbind option_bind]. rewrite Hle. cbn [mbind option_bind].
    assert (He : entry_at (Packed es) (end_index front (vals (Packed es))) (Some (pos es (end_index front (vals (Packed es)))))) by (split; [|done]; apply lookup_lt_Some in Hv; by rewrite length_vals in Hv by apply (nr_ok _ _ Hrep)).
    destruct (del_index_ok ql ca (Packed es) cb a id n b _ _ Hco El Hlen Hz Hf He) as (ql' & gone & p' & -> & Hd & _). cbn [mbind option_bind].
    destruct (Hfin ql' gone _ He Hd) as (cs' & Hinv' & Hp). subst v. by exists le, ql', cs'.
Qed.
End Ends.
