(* ===== verification/QuicklistMerge.v ===== *)
(** * Quicklists: finding an element by its index *)

From stdpp Require Import base list numbers option tactics.
From S2P Require Import Prelude Util ListpackEnc Listpack ListpackNav ListpackUpd Lzf Quicklist QuicklistOps QuicklistSpec QuicklistComp QuicklistEnds.

(** ** The node with an element *)

Lemma seek_node_ok l : forall cs acc idx, holds l cs -> acc <= idx < acc + zlen (flat cs) ->
  exists a id n b ca c cb, l = a ++ (id, n) :: b /\ cs = ca ++ c :: cb /\ length a = length ca /\
    seek_node l idx acc = Some (id, n, acc + zlen (flat ca)) /\ acc + zlen (flat ca) <= idx < acc + zlen (flat ca) + zlen (vals c).
Proof.
  induction l as [|[id n] l IH]; intros cs acc idx Hh Hi.
  { inversion Hh; subst. change (flat []) with (@nil (list Z)) in Hi. rewrite zlen_nil in Hi. lia. }
  inversion Hh as [|? c ? cs' [Hr Hc] Hh']; subst. cbn [snd] in *. rewrite flat_cons, zlen_app in Hi. cbn [seek_node]. rewrite Hc, Z.gtb_ltb.
  destruct (Z.ltb_spec idx (acc + zlen (vals c))) as [Hlt|Hge].
  - exists [], id, n, l, [], c, cs'. change (flat []) with (@nil (list Z)). rewrite zlen_nil, Z.add_0_r. split; [done|]. split; [done|]. split; [done|]. split; [done|]. lia.
  - destruct (IH cs' (acc + zlen (vals c)) idx Hh' ltac:(lia)) as (a & id' & n' & b & ca & c' & cb & -> & -> & Hlen & -> & Hb).
    exists ((id, n) :: a), id', n', b, (c :: ca), c', cb. rewrite flat_cons, zlen_app. split; [done|]. split; [done|]. split; [cbn; lia|]. split; [do 2 f_equal; lia|]. lia.
Qed.

Lemma seek_node_none l : forall cs acc idx, holds l cs -> acc + zlen (flat cs) <= idx -> seek_node l idx acc = None.
Proof.
  induction l as [|[id n] l IH]; intros cs acc idx Hh Hi; [done|]. inversion Hh as [|? c ? cs' [Hr Hc] Hh']; subst. cbn [snd] in *.
  rewrite flat_cons, zlen_app in Hi. pose proof (zlen_nonneg (flat cs')). cbn [seek_node]. rewrite Hc, Z.gtb_ltb, (proj2 (Z.ltb_ge _ _)) by lia. apply (IH cs'); [done|lia].
Qed.

Lemma zlen_flat_reverse cs : zlen (flat (reverse cs)) = zlen (flat cs).
Proof.
  induction cs as [|c cs IH]; [done|]. rewrite reverse_cons, flat_app, !flat_cons, !zlen_app, IH. change (flat []) with (@nil (list Z)). rewrite zlen_nil. lia.
Qed.

Lemma holds_reverse l cs : holds l cs -> holds (reverse l) (reverse cs).
Proof. apply Forall2_reverse. Qed.

(** The same from the other end. *)
Lemma seek_back_ok l cs idx : holds l cs -> 0 <= idx < zlen (flat cs) ->
  exists a id n b ca c cb, l = a ++ (id, n) :: b /\ cs = ca ++ c :: cb /\ length a = length ca /\
    seek_node (reverse l) idx 0 = Some (id, n, zlen (flat cb)) /\ zlen (flat cb) <= idx < zlen (flat cb) + zlen (vals c).
Proof.
  intros Hh Hi. destruct (seek_node_ok (reverse l) (reverse cs) 0 idx (holds_reverse _ _ Hh)) as (a & id & n & b & ca & c & cb & Hl & Hc & Hlen & Hs & Hb); [by rewrite zlen_flat_reverse|].
  exists (reverse b), id, n, (reverse a), (reverse cb), c, (reverse ca).
  apply (f_equal reverse) in Hl. rewrite reverse_involutive, reverse_app, reverse_cons, <- app_assoc in Hl.
  apply (f_equal reverse) in Hc. rewrite reverse_involutive, reverse_app, reverse_cons, <- app_assoc in Hc. subst l cs.
  split; [done|]. split; [done|]. rewrite zlen_flat_reverse. split; [|done].
  apply list.Forall2_length in Hh. rewrite !length_app in Hh. cbn [length app] in Hh. rewrite !length_reverse in *. lia.
Qed.

(** ** Indices *)

Definition norm_index (idx len : Z) : Z := if idx <? 0 then len + idx else idx.

(** The element [j] of a node, counted from its start or, when negative, from its end. *)
Definition offset_of (o : Z) (c : content) (j : nat) : Prop := o = Z.of_nat j \/ o = Z.of_nat j - zlen (vals c).

Lemma init_at_ok ql cs fd idx : core ql cs -> INT64_MIN < idx -> 0 <= norm_index idx (zlen (flat cs)) < zlen (flat cs) ->
  exists a id n b ca c cb j o, ql_nodes ql = a ++ (id, n) :: b /\ cs = ca ++ c :: cb /\ length a = length ca /\ (j < length (vals c))%nat /\
    norm_index idx (zlen (flat cs)) = zlen (flat ca) + Z.of_nat j /\ offset_of o c j /\ (0 <= idx -> o = Z.of_nat j) /\ (idx < 0 -> o = Z.of_nat j - zlen (vals c)) /\
    quicklistInitIteratorAtIdx ql fd idx = ({| qi_current := Some id; qi_zi := None; qi_offset := o; qi_forward := fd |}, true).
Proof.
  intros Hco Hmin Hi. unfold quicklistInitIteratorAtIdx. rewrite (proj2 (Z.eqb_neq idx INT64_MIN)) by lia. rewrite (co_count _ _ Hco).
  set (len := zlen (flat cs)) in *. unfold norm_index in *.
  set (forward := negb (idx <? 0)). set (index := if forward then idx else - idx - 1). pose proof (co_holds _ _ Hco) as Hh.
  assert (Hidx : 0 <= index < len /\ (if forward then norm_index idx len = index else norm_index idx len = len - 1 - index)).
  { unfold index, forward, norm_index. destruct (Z.ltb_spec idx 0); cbn [negb] in *; lia. }
  destruct Hidx as [Hindex Hn]. unfold norm_index in Hn. rewrite Z.geb_leb, (proj2 (Z.leb_gt len index)) by lia. clearbody index. rewrite Z.gtb_ltb.
  set (other := (len - 1) / 2 <? index). set (sf := if other then negb forward else forward). set (si := if other then len - 1 - index else index).
  assert (Hsi : 0 <= si < len) by (unfold si; destruct other; lia).
  assert (Hfw : 0 <= idx -> forward = true) by (intros; unfold forward; by rewrite (proj2 (Z.ltb_ge idx 0))). assert (Hbw : idx < 0 -> forward = false) by (intros; unfold forward; by rewrite (proj2 (Z.ltb_lt idx 0))).
  destruct sf eqn:Esf.
  - destruct (seek_node_ok (ql_nodes ql) cs 0 si Hh Hsi) as (a & id & n & b & ca & c & cb & Hl & Hc & Hlen & -> & Hb). rewrite Z.add_0_l in *.
    rewrite Hl in Hh. rewrite Hc in Hh. destruct (holds_split _ _ _ _ _ _ Hh Hlen) as (_ & [_ Hcnt] & _). cbn [snd] in Hcnt. rewrite Hcnt.
    assert (Hlc : len = zlen (flat ca) + zlen (vals c) + zlen (flat cb)) by (unfold len; rewrite Hc, flat_app, flat_cons, !zlen_app; lia).
    exists a, id, n, b, ca, c, cb, (Z.to_nat (si - zlen (flat ca))), (if forward then index - (if Bool.eqb true forward then zlen (flat ca) else len - zlen (vals c) - zlen (flat ca)) else - index - 1 + (if Bool.eqb true forward then zlen (flat ca) else len - zlen (vals c) - zlen (flat ca))).
    split; [done|]. split; [done|]. split; [done|]. unfold sf, si, offset_of in *. destruct forward, other; cbn [negb Bool.eqb] in *; try done;
      (split; [unfold zlen in *; lia|]); (split; [lia|]); (split; [lia|]); (split; [lia||(intros H0; by specialize (Hfw H0))|]); (split; [lia||(intros H0; by specialize (Hbw H0))|]); done.
  - destruct (seek_back_ok (ql_nodes ql) cs si Hh Hsi) as (a & id & n & b & ca & c & cb & Hl & Hc & Hlen & -> & Hb).
    rewrite Hl in Hh. rewrite Hc in Hh. destruct (holds_split _ _ _ _ _ _ Hh Hlen) as (_ & [_ Hcnt] & _). cbn [snd] in Hcnt. rewrite Hcnt.
    assert (Hlc : len = zlen (flat ca) + zlen (vals c) + zlen (flat cb)) by (unfold len; rewrite Hc, flat_app, flat_cons, !zlen_app; lia).
    exists a, id, n, b, ca, c, cb, (Z.to_nat (len - 1 - si - zlen (flat ca))), (if forward then index - (if Bool.eqb false forward then zlen (flat cb) else len - zlen (vals c) - zlen (flat cb)) else - index - 1 + (if Bool.eqb false forward then zlen (flat cb) else len - zlen (vals c) - zlen (flat cb))).
    split; [done|]. split; [done|]. split; [done|]. unfold sf, si, offset_of in *. destruct forward, other; cbn [negb Bool.eqb] in *; try done;
      (split; [unfold zlen in *; lia|]); (split; [lia|]); (split; [lia|]); (split; [lia||(intros H0; by specialize (Hfw H0))|]); (split; [lia||(intros H0; by specialize (Hbw H0))|]); done.
Qed.

Lemma init_at_out ql cs fd idx : core ql cs -> INT64_MIN < idx -> ~ (0 <= norm_index idx (zlen (flat cs)) < zlen (flat cs)) -> (quicklistInitIteratorAtIdx ql fd idx).2 = false.
Proof.
  intros Hco Hmin Hi. unfold quicklistInitIteratorAtIdx. rewrite (proj2 (Z.eqb_neq idx INT64_MIN)) by lia. rewrite (co_count _ _ Hco). unfold norm_index in Hi.
  rewrite Z.geb_leb. destruct (Z.ltb_spec idx 0); cbn [negb]; by rewrite (proj2 (Z.leb_le _ _)) by lia.
Qed.

Section Idx.
Context (junk : nat -> Z) (usable : Z -> Z) (Husable : forall n, 0 <= n -> n <= usable n).
Context (lzf_base : Z) (lzf_junk : Z -> Z) (Hbase : 8192 <= lzf_base /\ lzf_base + 2 ^ 32 <= 2 ^ 64) (Hlzf : forall i, 0 <= lzf_junk i < 2 ^ 64).

(** A node made ready for use: raw, and flagged when it was compressed. *)
Lemma use_ok ql ca c cb a id n b : core ql (ca ++ c :: cb) -> ql_nodes ql = a ++ (id, n) :: b -> length a = length ca ->
  exists n', quicklistDecompressNodeForUse ql id = Some (with_nodes ql (a ++ (id, n') :: b)) /\ qn_lzf n' = false /\ node_rep n' c /\ qn_count n' = qn_count n /\
    core (with_nodes ql (a ++ (id, n') :: b)) (ca ++ c :: cb) /\ (qn_lzf n = false -> n' = n).
Proof.
  intros Hco Hl Hlen. pose proof (co_wf _ _ Hco) as Hwf. pose proof (co_holds _ _ Hco) as Hh. rewrite Hl in Hh. destruct (holds_split _ _ _ _ _ _ Hh Hlen) as (Ha & [Hrep Hcnt] & Hb). cbn [snd] in *.
  destruct (node_at_split ql a id n b Hwf Hl) as (Hi & _ & _).
  destruct (decompress_use_at ql (wf_ids _ Hwf) (length a) id n Hi c Hrep) as (n' & -> & Hz & Hn').
  replace (<[length a:=(id, n')]> (ql_nodes ql)) with (a ++ (id, n') :: b) by (by rewrite Hl, insert_app_r_alt, Nat.sub_diag by lia).
  assert (Hfacts : node_rep n' c /\ qn_count n' = qn_count n /\ qn_dont_compress n' = qn_dont_compress n).
  { destruct (qn_lzf n); [|by subst n']. destruct Hn' as [Hf Hs]. pose proof (ns_count _ _ Hs) as Ec. pose proof (ns_dont _ _ Hs) as Ed. cbn in Ec, Ed. split; [|done].
    pose proof (ns_rep _ _ Hs c Hrep) as [R1 R2 R3 R4 R5]. cbn [snd] in *. split; [done|done|done|done|]. intros E. congruence. }
  destruct Hfacts as (Hrep' & Hc' & Hd'). exists n'. split; [done|]. split; [done|]. split; [done|]. split; [done|]. split; [|intros E; by rewrite E in Hn'].
  pose proof Hco as [H1 H2 H3 H4 H5 H6 H7]. rewrite Hl in H4, H5, H6. split; cbn [with_nodes ql_nodes ql_count ql_compress]; [|by apply holds_join; [| |cbn; congruence|]|done| | | |done].
  - apply (wf_update ql a id n); [done|done|by eexists].
  - apply (deep_update _ _ _ _ _ n); [done|]. congruence.
  - destruct (qn_lzf n) eqn:El; [|subst n'; by apply (deep_update _ _ _ _ _ n)]. intros i x Hx Hfx.
    destruct (decide (i = length a)) as [->|Hne].
    + assert (zlen (a ++ (id, n') :: b) = zlen (a ++ (id, n) :: b)) as -> by (rewrite !zlen_app, !zlen_cons; lia). apply (H4 (length a) (id, n)); [by rewrite lookup_app_r, Nat.sub_diag by lia|done].
    + assert (zlen (a ++ (id, n') :: b) = zlen (a ++ (id, n) :: b)) as -> by (rewrite !zlen_app, !zlen_cons; lia). apply (H5 i x); [|done].
      apply lookup_app_Some in Hx as [Hx|[Hge Hx]]; [by apply lookup_app_l_Some|]. rewrite lookup_app_r by lia. destruct (i - length a)%nat eqn:E; [lia|done].
  - apply list.Forall_app in H6 as [Ha6 [Hn6 Hb6]%list.Forall_cons]. apply list.Forall_app. split; [done|]. constructor; [cbn in *; congruence|done].
Qed.

Definition zpos (c : content) (j : nat) : Z := match c with Plain _ => 0 | Packed es => pos es j end.

(** A state in which the element [j] of a node was found. *)
Record found (ql : quicklist) (ca : list content) (c : content) (cb : list content) (a : list (nat * quicklistNode)) (id : nat) (n : quicklistNode) (b : list (nat * quicklistNode)) (j : nat) (e : quicklistEntry) : Prop := {
  fo_core : core ql (ca ++ c :: cb);
  fo_nodes : ql_nodes ql = a ++ (id, n) :: b;
  fo_len : length a = length ca;
  fo_raw : qn_lzf n = false;
  fo_flag : only_flag (Some id) (ql_nodes ql);
  fo_node : qe_node e = Some id;
  fo_zi : qe_zi e = Some (zpos c j);
  fo_offset : offset_of (qe_offset e) c j;
  fo_value : exists le, qe_value e = Some le /\ vals c !! j = Some (arg_text le) }.

Lemma seek_offset es o j : Forall valid_entry es -> (j < length es)%nat -> offset_of o (Packed es) j -> seek_index es o = Some j.
Proof.
  intros Hv Hj Ho. unfold seek_index, offset_of in *. rewrite zlen_vals in Ho by done.
  destruct Ho as [-> | ->].
  - rewrite (proj2 (Z.ltb_ge _ 0)), (proj2 (Z.leb_le 0 _)), (proj2 (Z.ltb_lt _ _)) by (unfold zlen; lia). cbn [andb]. f_equal. lia.
  - rewrite (proj2 (Z.ltb_lt _ 0)), (proj2 (Z.leb_le 0 _)), (proj2 (Z.ltb_lt _ _)) by (unfold zlen; lia). cbn [andb]. f_equal. unfold zlen. lia.
Qed.

(** An iterator that has to seek in a node. *)
Lemma next_seek f ql iter ca c cb a id n b j : core ql (ca ++ c :: cb) -> ql_nodes ql = a ++ (id, n) :: b -> length a = length ca -> only_flag (Some id) (ql_nodes ql) ->
  qi_current iter = Some id -> qi_zi iter = None -> offset_of (qi_offset iter) c j -> (j < length (vals c))%nat ->
  exists ql' n' e, quicklistNext junk lzf_base lzf_junk (S f) ql iter = Some (ql', {| qi_current := Some id; qi_zi := Some (zpos c j); qi_offset := qi_offset iter; qi_forward := qi_forward iter |}, Some e) /\
    found ql' ca c cb a id n' b j e /\ forall le, qe_value e = Some le -> int_ok le.
Proof.
  intros Hco Hl Hlen Hfl Hcur Hzi Ho Hj. pose proof (co_holds _ _ Hco) as Hh. rewrite Hl in Hh. destruct (holds_split _ _ _ _ _ _ Hh Hlen) as (_ & [Hrep Hcnt] & _). cbn [snd] in *.
  cbn [quicklistNext]. rewrite Hcur, Hzi. pose proof (co_wf _ _ Hco) as Hwf. destruct (node_at_split ql a id n b Hwf Hl) as (_ & -> & _). cbn [mbind option_bind].
  destruct (use_ok ql ca c cb a id n b Hco Hl Hlen) as (n' & -> & Hz & Hrep' & Hc' & Hco' & Hsame). cbn [mbind option_bind].
  set (ql' := with_nodes ql (a ++ (id, n') :: b)) in *. destruct (node_at_split ql' a id n' b (co_wf _ _ Hco') eq_refl) as (_ & Hg & _). rewrite Hg. cbn [mbind option_bind].
  assert (Hfl' : only_flag (Some id) (ql_nodes ql')).
  { rewrite Hl in Hfl. unfold ql'. cbn [with_nodes ql_nodes]. unfold only_flag in *. apply list.Forall_app in Hfl as [Hfa Hfb]. apply list.Forall_cons in Hfb as [_ Hfb]. apply list.Forall_app. by split; [|constructor]. }
  pose proof (nr_raw _ _ Hrep') as Hr. rewrite Hz in Hr. rewrite (nr_plain _ _ Hrep). destruct c as [s|es]; cbn [is_plain mbind option_bind].
  - cbn [raw] in Hr. subst s. rewrite Hg. cbn [mbind option_bind]. pose proof (rd_bytes_head (qn_entry n') [] (qn_sz n') (nr_sz _ _ Hrep')) as Hrd. rewrite app_nil_r in Hrd. rewrite Hrd. cbn [mbind option_bind].
    eexists ql', n', _. split; [done|]. split; [|by intros le [= <-]]. split; [done|done|done|done|done|done|done|done|]. eexists. split; [done|]. cbn in Hj. by destruct j; [|lia].
  - assert (Hv : Forall valid_entry es) by apply (nr_ok _ _ Hrep). rewrite (length_vals es Hv) in Hj. assert (HINT : INT64_MIN = - 2 ^ 63) by done.
    assert (Homin : INT64_MIN < qi_offset iter).
    { unfold offset_of in Ho. rewrite zlen_vals in Ho by done. assert (zlen es <= MAX_ELEMENTS) by apply (nr_ok _ _ Hrep). unfold MAX_ELEMENTS in *. lia. }
    rewrite (raw_seek _ _ (qi_offset iter) Hr Homin), (seek_offset es (qi_offset iter) j Hv Hj Ho). cbn [mbind option_bind fmap option_fmap option_map]. rewrite Hg. cbn [mbind option_bind].
    destruct (lookup_lt_is_Some_2 (vals (Packed es)) j) as [v Hvj]; [by rewrite length_vals|]. destruct (raw_read _ _ _ _ Hr Hvj) as (le & Hle & Ht). rewrite Hle. cbn [mbind option_bind].
    eexists ql', n', _. split; [done|]. split; [|intros le' [= <-]; by eapply read_int_ok]. split; [done|done|done|done|done|done|done|done|]. eexists. split; [done|]. by rewrite Ht.
Qed.

Lemma entry_found ql cs idx : inv ql cs -> INT64_MIN < idx -> 0 <= norm_index idx (zlen (flat cs)) < zlen (flat cs) ->
  exists ql' iter e a id n b ca c cb j, quicklistInitIteratorEntryAtIdx junk lzf_base lzf_junk ql idx = Some (ql', iter, Some e) /\ cs = ca ++ c :: cb /\
    found ql' ca c cb a id n b j e /\ norm_index idx (zlen (flat cs)) = zlen (flat ca) + Z.of_nat j /\ qi_current iter = Some id.
Proof.
  intros Hinv Hmin Hidx. unfold quicklistInitIteratorEntryAtIdx. pose proof Hinv as [Hco _].
  destruct (init_at_ok ql cs false idx Hco Hmin Hidx) as (a & id & n & b & ca & c & cb & j & o & Hl & -> & Hlen & Hj & Hnorm & Ho & _ & _ & ->). cbn [negb]. unfold quicklist_next.
  destruct (next_seek (S (length (ql_nodes ql))) ql {| qi_current := Some id; qi_zi := None; qi_offset := o; qi_forward := false |} ca c cb a id n b j Hco Hl Hlen (inv_only ql _ (Some id) Hinv) eq_refl eq_refl Ho Hj) as (ql' & n' & e & -> & Hf & _). cbn [mbind option_bind]. rewrite bool_decide_true by done. cbn [cassert mbind option_bind].
  by eexists ql', _, e, a, id, n', b, ca, c, cb, j.
Qed.

Lemma unflagged_after L l i id : lsim L l -> NoDup (L.*1) -> only_flag (Some id) L -> L.*1 !! i = Some id -> (forall x, l !! i = Some x -> qn_recompress x.2 = false) -> unflagged l.
Proof.
  intros Hs Hnd Ho Hi Hl. apply (unflagged_all_but L l i Hs); [|done]. intros j x Hj Hne. destruct (qn_recompress x.2) eqn:E; [|done]. destruct Hne.
  unfold only_flag in Ho. rewrite list.Forall_lookup in Ho. specialize (Ho j x Hj E). injection Ho as ->. eapply NoDup_lookup; [exact Hnd| |exact Hi]. by rewrite list_lookup_fmap, Hj.
Qed.

(** The node is compressed again. *)
Lemma release_ok ql cs a id n b : core ql cs -> ql_nodes ql = a ++ (id, n) :: b -> only_flag (Some id) (ql_nodes ql) ->
  exists l', quicklistCompress junk lzf_base lzf_junk ql id = Some (with_nodes ql l') /\ inv (with_nodes ql l') cs /\ lsim (ql_nodes ql) l'.
Proof.
  intros Hco Hl Ho. pose proof (co_wf _ _ Hco) as Hwf. destruct (node_at_split ql a id n b Hwf Hl) as (Hi & _ & _).
  destruct (ql_compress_ok junk lzf_base lzf_junk Hbase Hlzf ql (length a) id n Hwf Hi (co_flags _ _ Hco) (co_lzf _ _ Hco)) as (l' & n' & -> & Hs & Hd & Hi' & Hn').
  exists l'. split; [done|]. split; [|done]. split; [by apply core_sim|]. cbn [with_nodes ql_nodes]. pose proof (co_dont _ _ Hco) as Hdc. unfold unflagged.
  apply (unflagged_after (ql_nodes ql) l' (length a) id Hs (wf_ids _ Hwf) Ho); [by rewrite list_lookup_fmap, Hi|]. intros x Hx. rewrite Hi' in Hx. injection Hx as <-. apply Hn'.
  by apply (proj1 (list.Forall_lookup _ _) Hdc _ _ Hi).
Qed.

Lemma recompress_ok ql k cs a id n b : core (with_count ql k) cs -> ql_nodes ql = a ++ (id, n) :: b ->
  exists n', quicklistRecompressOnly junk lzf_base lzf_junk ql id = Some (with_nodes ql (a ++ (id, n') :: b)) /\ core (with_count (with_nodes ql (a ++ (id, n') :: b)) k) cs /\ nsim (id, n) (id, n') /\ qn_recompress n' = false.
Proof.
  intros Hco Hl. pose proof (wf_uncount _ _ (co_wf _ _ Hco)) as Hwf. destruct (node_at_split ql a id n b Hwf Hl) as (Hi & _ & _).
  destruct (recompress_only_ok junk lzf_base lzf_junk Hbase Hlzf ql (length a) id n Hwf Hi (co_flags _ _ Hco) (co_lzf _ _ Hco)) as (l' & n' & -> & Hs & Hd & -> & Hn').
  assert (El : <[length a:=(id, n')]> (ql_nodes ql) = a ++ (id, n') :: b) by (by rewrite Hl, insert_app_r_alt, Nat.sub_diag by lia). rewrite El in *.
  exists n'. split; [done|]. split; [by apply (core_sim (with_count ql k))|]. split.
  - destruct (lsim_lookup_l _ _ _ _ Hs Hi) as (y & Hy & Hxy). rewrite lookup_app_r, Nat.sub_diag in Hy by lia. by injection Hy as <-.
  - apply Hn'. pose proof (co_dont _ _ Hco) as Hdc. by apply (proj1 (list.Forall_lookup _ _) Hdc _ _ Hi).
Qed.

(** ** LINDEX *)

Lemma index_ok ql cs idx : inv ql cs -> INT64_MIN < idx ->
  exists ql' r, quicklist_index junk lzf_base lzf_junk ql idx = Some (ql', r) /\ inv ql' cs /\
    arg_text <$> r = (if norm_index idx (zlen (flat cs)) <? 0 then None else flat cs !! Z.to_nat (norm_index idx (zlen (flat cs)))).
Proof.
  intros Hinv Hmin. destruct (decide (0 <= norm_index idx (zlen (flat cs)) < zlen (flat cs))) as [Hidx|Hout].
  - unfold quicklist_index. destruct (entry_found ql cs idx Hinv Hmin Hidx) as (ql' & iter & e & a & id & n & b & ca & c & cb & j & -> & -> & Hf & Hn & Hc). cbn [mbind option_bind].
    destruct (fo_value _ _ _ _ _ _ _ _ _ _ Hf) as (le & -> & Hv). cbn [mbind option_bind]. unfold quicklistResetIterator. rewrite Hc.
    destruct (release_ok ql' _ a id n b (fo_core _ _ _ _ _ _ _ _ _ _ Hf) (fo_nodes _ _ _ _ _ _ _ _ _ _ Hf) (fo_flag _ _ _ _ _ _ _ _ _ _ Hf)) as (l' & -> & Hinv' & _). cbn [mbind option_bind].
    eexists _, _. split; [done|]. split; [done|]. rewrite Hn, (proj2 (Z.ltb_ge _ 0)) by (pose proof (zlen_nonneg (flat ca)); lia).
    cbn [fmap option_fmap option_map]. rewrite <- Hv, flat_app, flat_cons. rewrite lookup_app_r by (unfold zlen; lia). replace (Z.to_nat _ - length (flat ca))%nat with j by (unfold zlen; lia).
    rewrite lookup_app_l by (by eapply lookup_lt_Some). done.
  - unfold quicklist_index, quicklistInitIteratorEntryAtIdx. pose proof (init_at_out ql cs false idx (proj1 Hinv) Hmin Hout) as Hi. destruct (quicklistInitIteratorAtIdx ql false idx) as [iter ok]. cbn [snd] in Hi. subst ok. cbn [negb mbind option_bind].
    eexists _, None. split; [done|]. split; [done|]. cbn [fmap option_fmap option_map]. destruct (Z.ltb_spec (norm_index idx (zlen (flat cs))) 0); [done|]. symmetry. apply lookup_ge_None_2. unfold zlen in *. lia.
Qed.
End Idx.

(** * Quicklists: splitting a node and merging nodes *)

Section Merge.
Context (junk : nat -> Z) (usable : Z -> Z) (Husable : forall n, 0 <= n -> n <= usable n).
Context (lzf_base : Z) (lzf_junk : Z -> Z) (Hbase : 8192 <= lzf_base /\ lzf_base + 2 ^ 32 <= 2 ^ 64) (Hlzf : forall i, 0 <= lzf_junk i < 2 ^ 64).

(** ** Splitting *)

(** A range that starts or ends at an end of the listpack. *)
Lemma delete_to_end b es i N : raw b (Packed es) -> 0 <= i -> zlen es <= N -> exists b', lpDeleteRange junk usable b i N = Some b' /\ raw b' (Packed (take (Z.to_nat i) es)).
Proof.
  intros Hr Hi HN. pose proof (zlen_nonneg es). destruct (raw_delete_range junk usable Husable b es i N Hr ltac:(change INT64_MIN with (- 2 ^ 63); lia) ltac:(lia)) as (b' & -> & Hr').
  exists b'. split; [done|]. unfold seek_index in Hr'. rewrite (proj2 (Z.ltb_ge i 0)), (proj2 (Z.leb_le 0 i)) in Hr' by lia. cbn [andb] in Hr'.
  destruct (Z.ltb_spec i (zlen es)).
  - rewrite drop_ge, app_nil_r in Hr' by (unfold zlen in *; lia). done.
  - rewrite take_ge by (unfold zlen in *; lia). done.
Qed.

Lemma delete_from_start b es N : raw b (Packed es) -> 0 <= N -> exists b', lpDeleteRange junk usable b 0 N = Some b' /\ raw b' (Packed (drop (Z.to_nat N) es)).
Proof.
  intros Hr HN. destruct (raw_delete_range junk usable Husable b es 0 N Hr ltac:(done) HN) as (b' & -> & Hr'). exists b'. split; [done|]. unfold seek_index in Hr'. cbn [Z.ltb Z.compare Z.leb andb] in Hr'.
  destruct es as [|e es]; [by rewrite drop_nil|]. rewrite (proj2 (Z.ltb_lt 0 _)) in Hr' by (rewrite zlen_cons; pose proof (zlen_nonneg es); lia). done.
Qed.

Definition split_keep (after : bool) (j : nat) (es : list (list Z)) : list (list Z) := if after then take (S j) es else drop j es.
Definition split_rest (after : bool) (j : nat) (es : list (list Z)) : list (list Z) := if after then drop (S j) es else take j es.

Lemma split_ok_keep after j es : cont_ok (Packed es) -> cont_ok (Packed (split_keep after j es)).
Proof. intros H. destruct after; cbn [split_keep]; [by apply packed_ok_take|by apply packed_ok_drop]. Qed.

Lemma split_ok_rest after j es : cont_ok (Packed es) -> cont_ok (Packed (split_rest after j es)).
Proof. intros H. destruct after; cbn [split_rest]; [by apply packed_ok_drop|by apply packed_ok_take]. Qed.

(** The node that [_quicklistSplitNode] makes. *)
Definition fresh_packed (n : quicklistNode) (es : list (list Z)) : Prop :=
  node_rep n (Packed es) /\ qn_count n = zlen (vals (Packed es)) /\ qn_lzf n = false /\ qn_recompress n = false /\ qn_dont_compress n = false.

Lemma split_ok ql a id n b es j o after : wf ql -> ql_nodes ql = a ++ (id, n) :: b -> node_rep n (Packed es) -> qn_count n = zlen (vals (Packed es)) -> qn_lzf n = false ->
  (j < length es)%nat -> offset_of o (Packed es) j ->
  exists n1 sp, _quicklistSplitNode junk usable ql id o after = Some (with_nodes ql (a ++ (id, n1) :: b), sp) /\
    node_rep n1 (Packed (split_keep after j es)) /\ qn_count n1 = zlen (vals (Packed (split_keep after j es))) /\ qn_lzf n1 = false /\ qn_recompress n1 = qn_recompress n /\
    qn_dont_compress n1 = qn_dont_compress n /\ fresh_packed sp (split_rest after j es).
Proof.
  intros Hwf Hl Hrep Hcnt Hz Hj Ho. unfold _quicklistSplitNode. destruct (node_at_split ql a id n b Hwf Hl) as (_ & -> & Hset). cbn [mbind option_bind].
  pose proof (nr_raw _ _ Hrep) as Hr. rewrite Hz in Hr. pose proof (nr_ok _ _ Hrep) as Hok. assert (Hv : Forall valid_entry es) by apply Hok. assert (Hm : zlen es <= MAX_ELEMENTS) by apply Hok. unfold MAX_ELEMENTS in Hm.
  rewrite (nr_sz _ _ Hrep). destruct (raw_copy (qn_entry n) (Packed es) Hr) as (copy & -> & Hrc & _). cbn [mbind option_bind].
  assert (Eo : (if o <? 0 then qn_count n + o else o) = Z.of_nat j).
  { rewrite Hcnt, zlen_vals by done. unfold offset_of in Ho. rewrite zlen_vals in Ho by done. destruct Ho as [-> | ->]; [by rewrite (proj2 (Z.ltb_ge _ 0)) by lia|]. rewrite (proj2 (Z.ltb_lt _ 0)) by (unfold zlen; lia). lia. }
  rewrite Eo. assert (Hbig : zlen es <= u64 (-1)) by (change (u64 (-1)) with 18446744073709551615; lia).
  assert (H1 : exists b1, lpDeleteRange junk usable (qn_entry n) (if after then Z.of_nat j + 1 else 0) (u64 (if after then -1 else Z.of_nat j)) = Some b1 /\ raw b1 (Packed (split_keep after j es))).
  { destruct after; cbn [split_keep].
    - destruct (delete_to_end _ _ (Z.of_nat j + 1) (u64 (-1)) Hr ltac:(lia) Hbig) as (b1 & -> & Hb1). exists b1. split; [done|]. by replace (Z.to_nat (Z.of_nat j + 1)) with (S j) in Hb1 by lia.
    - rewrite wrapu_id by (unfold zlen in *; lia). destruct (delete_from_start _ _ (Z.of_nat j) Hr ltac:(lia)) as (b1 & -> & Hb1). exists b1. split; [done|]. by rewrite Nat2Z.id in Hb1. }
  assert (H2 : exists b2, lpDeleteRange junk usable copy (if after then 0 else Z.of_nat j) (u64 (if after then Z.of_nat j + 1 else -1)) = Some b2 /\ raw b2 (Packed (split_rest after j es))).
  { destruct after; cbn [split_rest].
    - rewrite wrapu_id by (unfold zlen in *; lia). destruct (delete_from_start _ _ (Z.of_nat j + 1) Hrc ltac:(lia)) as (b1 & -> & Hb1). exists b1. split; [done|]. by replace (Z.to_nat (Z.of_nat j + 1)) with (S j) in Hb1 by lia.
    - destruct (delete_to_end _ _ (Z.of_nat j) (u64 (-1)) Hrc ltac:(lia) Hbig) as (b1 & -> & Hb1). exists b1. split; [done|]. by rewrite Nat2Z.id in Hb1. }
  destruct H1 as (b1 & -> & Hb1). destruct H2 as (b2 & -> & Hb2). cbn [mbind option_bind]. destruct (raw_length _ _ Hb1) as (b1' & -> & Hb1'). cbn [mbind option_bind]. rewrite (raw_bytes _ _ Hb1'). cbn [mbind option_bind].
  destruct (raw_length _ _ Hb2) as (b2' & -> & Hb2'). cbn [mbind option_bind]. rewrite (raw_bytes _ _ Hb2'). cbn [mbind option_bind]. rewrite Hset.
  pose proof (split_ok_keep after j es Hok) as Hk. pose proof (split_ok_rest after j es Hok) as Hrs.
  assert (Hcv : forall es' m, cont_ok (Packed es') -> qn_count (set_count m (zlen es')) = zlen (vals (Packed es'))).
  { intros es' m Hc. rewrite zlen_vals by apply Hc. assert (Hm' : zlen es' <= MAX_ELEMENTS) by apply Hc. unfold MAX_ELEMENTS in Hm'. apply set_count_val. pose proof (zlen_nonneg es'). lia. }
  eexists _, _. split; [done|]. split; [apply rep_count; by eapply rep_entry|]. split; [by apply Hcv|]. split; [done|]. split; [done|]. split; [done|].
  split; [apply rep_count; by split|]. split; [by apply Hcv|done].
Qed.

(** ** Merging two nodes *)

Lemma decompress_split ql a id n b c : NoDup ((ql_nodes ql).*1) -> ql_nodes ql = a ++ (id, n) :: b -> node_rep n c ->
  exists n', quicklistDecompressNode ql (Some id) = Some (with_nodes ql (a ++ (id, n') :: b)) /\ nsim (id, n) (id, n') /\ qn_lzf n' = false.
Proof.
  intros Hnd Hl Hrep. assert (Hi : ql_nodes ql !! length a = Some (id, n)) by (by rewrite Hl, lookup_app_r, Nat.sub_diag by lia).
  destruct (decompress_node_at ql Hnd (length a) id n Hi c Hrep) as (n' & -> & Hs & Hz). exists n'. split; [|done]. by rewrite Hl, insert_app_r_alt, Nat.sub_diag by lia.
Qed.

(** The two nodes after decompression, with [c] the one that stays and [d] the one that goes. *)
Lemma merge_del q a b x nx y ny nk nd first : wf q -> ql_nodes q = a ++ (x, nx) :: (y, ny) :: b -> lzf_deep (ql_compress q) (ql_nodes q) -> flags_deep (ql_compress q) 0 (a ++ ((if first : bool then x else y), nk) :: b) ->
  represented (x, nk) -> represented (x, nd) -> qn_lzf nk = false -> qn_lzf nd = false -> qn_recompress nk = false -> qn_count nd = 0 ->
  let keep := if first then x else y in let nokeep := if first then y else x in
  exists l', (ql' ← __quicklistDelNode junk lzf_base lzf_junk (set_node (set_node q keep nk) nokeep nd) nokeep; quicklistCompress junk lzf_base lzf_junk ql' keep) = Some (shrunk q l' 0) /\
    lsim (a ++ (keep, nk) :: b) l' /\ lzf_deep (ql_compress q) l' /\ wf (shrunk q l' 0).
Proof.
  intros Hwf Hl Hd Hf Rk Rd Hzk Hzd Hfk Hcd keep nokeep.
  assert (Hq : exists a1 b1, set_node (set_node q keep nk) nokeep nd = with_nodes q (a1 ++ (nokeep, nd) :: b1) /\ a1 ++ b1 = a ++ (keep, nk) :: b /\ wf (with_nodes q (a1 ++ (nokeep, nd) :: b1)) /\ lzf_deep (ql_compress q) (a1 ++ (nokeep, nd) :: b1)).
  { destruct first; unfold keep, nokeep in *.
    - destruct (node_at_split q a x nx ((y, ny) :: b) Hwf Hl) as (_ & _ & Hs1). rewrite Hs1. assert (Hw1 : wf (with_nodes q (a ++ (x, nk) :: (y, ny) :: b))) by (by apply (wf_update q a x nx)).
      assert (El : ql_nodes (with_nodes q (a ++ (x, nk) :: (y, ny) :: b)) = (a ++ [(x, nk)]) ++ (y, ny) :: b) by (rewrite nodes_with, <- app_assoc; done).
      destruct (node_at_split _ (a ++ [(x, nk)]) y ny b Hw1 El) as (_ & _ & Hs2). rewrite Hs2, with_nodes_twice. exists (a ++ [(x, nk)]), b. split; [done|]. split; [by rewrite <- app_assoc|]. split.
      + rewrite <- (with_nodes_twice q (a ++ (x, nk) :: (y, ny) :: b)). by apply (wf_update _ _ y ny).
      + apply (deep_update _ _ _ _ _ ny); [|congruence]. rewrite <- app_assoc. cbn [app]. apply (deep_update _ _ _ _ _ nx); [by rewrite <- Hl|congruence].
    - assert (El : ql_nodes q = (a ++ [(x, nx)]) ++ (y, ny) :: b) by (rewrite Hl, <- app_assoc; done).
      destruct (node_at_split q (a ++ [(x, nx)]) y ny b Hwf El) as (_ & _ & Hs1). rewrite Hs1. assert (Hw1 : wf (with_nodes q ((a ++ [(x, nx)]) ++ (y, nk) :: b))) by (by apply (wf_update q _ y ny)).
      assert (El1 : ql_nodes (with_nodes q ((a ++ [(x, nx)]) ++ (y, nk) :: b)) = a ++ (x, nx) :: (y, nk) :: b) by (rewrite nodes_with, <- app_assoc; done).
      destruct (node_at_split _ a x nx ((y, nk) :: b) Hw1 El1) as (_ & _ & Hs2). rewrite Hs2, with_nodes_twice. exists a, ((y, nk) :: b). split; [done|]. split; [done|]. split.
      + rewrite <- (with_nodes_twice q ((a ++ [(x, nx)]) ++ (y, nk) :: b)). by apply (wf_update _ _ x nx).
      + apply (deep_update _ _ _ _ _ nx); [|congruence]. replace (a ++ (x, nx) :: (y, nk) :: b) with ((a ++ [(x, nx)]) ++ (y, nk) :: b) by (by rewrite <- app_assoc). apply (deep_update _ _ _ _ _ ny); [by rewrite <- El|congruence]. }
  destruct Hq as (a1 & b1 & -> & E1 & Hw1 & Hd1). change (if first then x else y) with keep in Hf. rewrite <- E1 in Hf.
  destruct (del_node_ok junk lzf_base lzf_junk Hbase Hlzf (with_nodes q (a1 ++ (nokeep, nd) :: b1)) a1 nokeep nd b1 Hw1 eq_refl Hd1 Hf) as (l1 & -> & Hs1 & Hd1' & Hw1'). cbn [mbind option_bind].
  rewrite Hcd in *. change (shrunk (with_nodes q (a1 ++ (nokeep, nd) :: b1)) l1 0) with (shrunk q l1 0) in *. rewrite E1 in *.
  assert (Hi : (a ++ (keep, nk) :: b) !! length a = Some (keep, nk)) by (by rewrite lookup_app_r, Nat.sub_diag by lia).
  destruct (lsim_lookup_l _ _ _ _ Hs1 Hi) as ([k' n'] & Hi' & Hx). pose proof (ns_id _ _ Hx) as Ek. cbn in Ek. subst k'.
  destruct (ql_compress_ok junk lzf_base lzf_junk Hbase Hlzf (shrunk q l1 0) (length a) keep n' Hw1' Hi') as (l2 & n2 & -> & Hs2 & Hd2 & _); [by eapply flags_deep_sim|done|].
  exists l2. split; [done|]. split; [by etransitivity|]. split; [done|]. change (shrunk q l2 0) with (with_nodes (shrunk q l1 0) l2). by apply wf_sim.
Qed.

Lemma get_other ql id m id' : id <> id' -> get_node (set_node ql id m) id' = get_node ql id'.
Proof.
  intros Hne. unfold get_node, set_node. cbn [with_nodes ql_nodes]. induction (ql_nodes ql) as [|[i k] l IH]; [done|]. cbn [node_set node_get].
  destruct (Nat.eqb_spec i id) as [->|Hi]; cbn [node_get]; [by rewrite (proj2 (Nat.eqb_neq id id'))|]. by rewrite IH.
Qed.

(** Two neighbours become one node with the elements of both. *)
Lemma merge_ok ql k ca ea eb cb a x nx y ny b : core (with_count ql k) (ca ++ Packed ea :: Packed eb :: cb) -> ql_nodes ql = a ++ (x, nx) :: (y, ny) :: b -> length a = length ca ->
  cont_ok (Packed (ea ++ eb)) -> (forall z, qn_recompress z.2 = false -> flags_deep (ql_compress ql) 0 (a ++ z :: b)) ->
  exists keep nk l', _quicklistListpackMerge junk usable lzf_base lzf_junk ql x y = Some (shrunk ql l' 0, keep) /\ (keep = x \/ keep = y) /\
    lsim (a ++ (keep, nk) :: b) l' /\ qn_recompress nk = false /\ core (with_count (shrunk ql l' 0) k) (ca ++ Packed (ea ++ eb) :: cb).
Proof.
  intros Hco Hl Hlen Hok Hfl. pose proof Hco as [H1 H2 H3 H4 H5 H6 H7]. cbn [with_count ql_nodes ql_compress ql_count] in *. apply wf_uncount in H1. pose proof (wf_ids _ H1) as Hnd.
  rewrite Hl in H2. destruct (holds_split a (x, nx) ((y, ny) :: b) ca _ _ H2 Hlen) as (Ha & [Rx Cx] & Hb). apply list.Forall2_cons in Hb as [[Ry Cy] Hb']. cbn [snd] in *. clear H2.
  assert (Hxy : x <> y). { intros ->. rewrite Hl, fmap_app in Hnd. apply list.NoDup_app in Hnd as (_ & _ & Hnd). cbn in Hnd. apply list.NoDup_cons in Hnd as [Hnd _]. apply Hnd. by left. }
  unfold _quicklistListpackMerge. destruct (decompress_split ql a x nx ((y, ny) :: b) _ Hnd Hl Rx) as (nx1 & -> & Sx & Zx). cbn [mbind option_bind].
  set (q1 := with_nodes ql (a ++ (x, nx1) :: (y, ny) :: b)). assert (El1 : ql_nodes q1 = (a ++ [(x, nx1)]) ++ (y, ny) :: b) by (unfold q1; rewrite nodes_with, <- app_assoc; done).
  assert (S1 : lsim (ql_nodes ql) (ql_nodes q1)) by (rewrite Hl; apply Forall2_app; [apply (reflexivity (R := lsim))|constructor; [done|apply (reflexivity (R := lsim))]]).
  assert (Hnd1 : NoDup ((ql_nodes q1).*1)) by (by rewrite (lsim_ids _ _ S1)).
  destruct (decompress_split q1 (a ++ [(x, nx1)]) y ny b _ Hnd1 El1 Ry) as (ny1 & -> & Sy & Zy). cbn [mbind option_bind].
  set (q2 := with_nodes q1 ((a ++ [(x, nx1)]) ++ (y, ny1) :: b)). assert (El2 : ql_nodes q2 = a ++ (x, nx1) :: (y, ny1) :: b) by (unfold q2; rewrite nodes_with, <- app_assoc; done).
  assert (S2 : lsim (ql_nodes ql) (ql_nodes q2)) by (rewrite Hl, El2; apply Forall2_app; [apply (reflexivity (R := lsim))|constructor; [done|constructor; [done|apply (reflexivity (R := lsim))]]]).
  assert (Hw2 : wf q2) by (apply (wf_sim ql _ S2); done).
  assert (Hd2 : lzf_deep (ql_compress ql) (ql_nodes q2)).
  { rewrite El2. apply (deep_update _ _ _ _ _ nx); [|congruence]. rewrite Hl in H4. replace (a ++ (x, nx) :: (y, ny1) :: b) with ((a ++ [(x, nx)]) ++ (y, ny1) :: b) by (by rewrite <- app_assoc).
    apply (deep_update _ _ _ _ _ ny); [by rewrite <- app_assoc|congruence]. }
  apply (ns_rep _ _ Sx) in Rx. apply (ns_rep _ _ Sy) in Ry. cbn [snd] in *.
  destruct (node_at_split q2 a x nx1 ((y, ny1) :: b) Hw2 El2) as (_ & Hgx & _). destruct (node_at_split q2 (a ++ [(x, nx1)]) y ny1 b Hw2 eq_refl) as (_ & Hgy & _). rewrite Hgx, Hgy. cbn [mbind option_bind].
  pose proof (nr_raw _ _ Rx) as Wx. rewrite Zx in Wx. pose proof (nr_raw _ _ Ry) as Wy. rewrite Zy in Wy.
  destruct (raw_merge junk usable Husable _ _ _ _ Wx Wy Hok) as (lp & -> & Wl). cbn [mbind option_bind]. destruct (raw_length _ _ Wl) as (lp' & Hlen' & Wl'). pose proof (raw_bytes _ _ Wl') as Hbytes.
  set (first := bool_decide (total_bytes eb <= total_bytes ea)). assert (Hv : Forall valid_entry (ea ++ eb)) by apply Hok. assert (Hm : zlen (ea ++ eb) <= MAX_ELEMENTS) by apply Hok. unfold MAX_ELEMENTS in Hm.
  set (nk := set_recompress (set_count (set_entry (if first then nx1 else ny1) lp' (total_bytes (ea ++ eb)) false) (zlen (ea ++ eb))) false).
  set (nd := set_count (if first then ny1 else nx1) 0).
  assert (Rk : node_rep nk (Packed (ea ++ eb))).
  { unfold nk. apply rep_recompress; [done|]. apply rep_count. destruct first; split; try done; [apply (nr_plain _ _ Rx)|apply (nr_plain _ _ Ry)]. }
  assert (Rd : represented (x, nd)) by (unfold nd; destruct first; eexists; apply rep_count; [exact Ry|exact Rx]).
  assert (Ck : qn_count nk = zlen (vals (Packed (ea ++ eb)))) by (rewrite zlen_vals by done; apply set_count_val; pose proof (zlen_nonneg (ea ++ eb)); lia).
  destruct (merge_del q2 a b x nx1 y ny1 nk nd first) as (l' & Hdel & Hs & Hd & Hw); [done|done|done|by apply (Hfl ((if first then x else y), nk))|by eexists|done|done|unfold nd; by destruct first|done|done|].
  exists (if first then x else y), nk, l'. split.
  - assert (Hstep : (let '(keep, nkeep, nokeep) := if first then (x, nx1, y) else (y, ny1, x) in '(count, lp) ← lpLength lp; sz ← lpBytes lp;
      let ql := set_node q2 keep (set_recompress (set_count (set_entry nkeep lp sz (qn_lzf nkeep)) count) false) in
      n ← get_node ql nokeep; let ql := set_node ql nokeep (set_count n 0) in ql ← __quicklistDelNode junk lzf_base lzf_junk ql nokeep; ql ← quicklistCompress junk lzf_base lzf_junk ql keep; Some (ql, keep)) = Some (shrunk ql l' 0, if first then x else y)).
    { rewrite Hlen'. cbn [mbind option_bind]. rewrite Hbytes. cbn [mbind option_bind]. unfold nk, nd in Hdel.
      destruct first; rewrite get_other by done; [rewrite Hgy, Zx|rewrite Hgx, Zy]; cbn [mbind option_bind]; destruct (__quicklistDelNode _ _ _ _ _); [|done|cbn [mbind option_bind] in *..|done]; cbn [mbind option_bind] in *; by rewrite Hdel. }
    exact Hstep.
  - split; [destruct first; [by left|by right]|]. split; [done|]. split; [done|].
    split; cbn [with_count shrunk ql_nodes ql_count ql_compress].
    + by destruct Hw.
    + apply (holds_sim _ _ _ Hs). by apply holds_join.
    + rewrite H3, !flat_app, !flat_cons, vals_app, !zlen_app. lia.
    + done.
    + apply (flags_deep_sim _ _ _ _ Hs). by apply (Hfl (_, nk)).
    + apply (dont_sim _ _ Hs). rewrite Hl in H6. apply list.Forall_app in H6 as [Da [Dx [Dy Db]%list.Forall_cons]%list.Forall_cons]. cbn [snd] in *. apply list.Forall_app. split; [done|]. constructor; [|done]. cbn. pose proof (ns_dont _ _ Sx). pose proof (ns_dont _ _ Sy). cbn in *. destruct first; congruence.
    + apply list.Forall_app in H7 as [Na [Nx [Ny Nb]%list.Forall_cons]%list.Forall_cons]. apply list.Forall_app. split; [done|]. constructor; [|done]. rewrite vals_app. intros E. by apply app_eq_nil in E as [? _].
Qed.

(** ** The neighbourhood of a node *)

Lemma ids_split (l : list (nat * quicklistNode)) : forall ia id ib, l.*1 = ia ++ id :: ib -> exists a n b, l = a ++ (id, n) :: b /\ a.*1 = ia /\ b.*1 = ib.
Proof.
  intros ia id ib H. apply fmap_app_inv in H as (a & r & -> & Hr & ->). destruct r as [|[i n] b]; [done|]. cbn in Hr. injection Hr as -> ->. by exists a, n, b.
Qed.

Lemma next_ids ql ia id ib : NoDup ((ql_nodes ql).*1) -> (ql_nodes ql).*1 = ia ++ id :: ib -> q_next ql id = head ib.
Proof.
  intros Hnd H. destruct (ids_split _ _ _ _ H) as (a & n & b & Hl & <- & <-). unfold q_next. rewrite Hl. apply node_next_at.
  rewrite Hl, fmap_app in Hnd. apply list.NoDup_app in Hnd as (_ & Hd & _). intros Hin. apply (Hd _ Hin). by left.
Qed.

Lemma prev_ids ql ia id ib : NoDup ((ql_nodes ql).*1) -> (ql_nodes ql).*1 = ia ++ id :: ib -> q_prev ql id = head (reverse ia).
Proof.
  intros Hnd H. destruct (ids_split _ _ _ _ H) as (a & n & b & Hl & <- & <-). unfold q_prev. rewrite Hl, node_prev_at, <- fmap_reverse; [done|].
  rewrite Hl, fmap_app in Hnd. apply list.NoDup_app in Hnd as (_ & _ & Hnd). by apply list.NoDup_cons in Hnd as [? _].
Qed.

Definition allowed (nx ny : quicklistNode) : Prop := qn_plain nx = false /\ qn_plain ny = false /\ u32 (qn_sz nx + qn_sz ny - 7) <= 65536.

Lemma allowed_contents ql k cs a x nx y ny b : core (with_count ql k) cs -> ql_nodes ql = a ++ (x, nx) :: (y, ny) :: b -> allowed nx ny ->
  exists ca ea eb cb, cs = ca ++ Packed ea :: Packed eb :: cb /\ length a = length ca /\ cont_ok (Packed (ea ++ eb)).
Proof.
  intros Hco Hl (Hx & Hy & Hu). pose proof (co_holds _ _ Hco) as Hh. cbn [with_count ql_nodes] in Hh. rewrite Hl in Hh. apply Forall2_app_inv_l in Hh as (ca & r & Ha & Hr & ->).
  inversion Hr as [|? cx ? r' [Rx _] Hr']; subst. inversion Hr' as [|? cy ? cb [Ry _] Hb]; subst. cbn [snd] in *.
  destruct (packed_of _ _ Rx Hx) as [ea ->]. destruct (packed_of _ _ Ry Hy) as [eb ->]. exists ca, ea, eb, cb. split; [done|]. split; [by apply list.Forall2_length in Ha|]. by apply (room_merge nx ny).
Qed.

(** The elements do not change while nodes are merged. *)
Definition mstate (ql : quicklist) (k : Z) (vs : list (list Z)) (ids : list nat) : Prop :=
  (exists cs, core (with_count ql k) cs /\ flat cs = vs) /\ unflagged (ql_nodes ql) /\ (ql_nodes ql).*1 = ids.

Lemma mstate_wf ql k vs ids : mstate ql k vs ids -> wf ql.
Proof. intros ((cs & Hco & _) & _). by eapply wf_uncount, (co_wf _ _ Hco). Qed.

Lemma node_of_split ql k vs ia x ib : mstate ql k vs (ia ++ x :: ib) -> exists a nx b, ql_nodes ql = a ++ (x, nx) :: b /\ a.*1 = ia /\ b.*1 = ib /\ node_of ql (Some x) = Some nx.
Proof.
  intros Hm. pose proof Hm as (_ & _ & Hi). destruct (ids_split _ _ _ _ Hi) as (a & nx & b & Hl & Ha & Hb). exists a, nx, b. split; [done|]. split; [done|]. split; [done|].
  by destruct (node_at_split ql a x nx b (mstate_wf _ _ _ _ Hm) Hl) as (_ & Hg & _).
Qed.

Lemma merge_state ql k vs ia x y ib nx ny : mstate ql k vs (ia ++ x :: y :: ib) -> node_of ql (Some x) = Some nx -> node_of ql (Some y) = Some ny -> allowed nx ny ->
  exists ql' keep, _quicklistListpackMerge junk usable lzf_base lzf_junk ql x y = Some (ql', keep) /\ mstate ql' k vs (ia ++ keep :: ib) /\ ql_count ql' = ql_count ql /\ ql_fill ql' = ql_fill ql /\ (keep = x \/ keep = y).
Proof.
  intros Hm Hx Hy Hal. pose proof (mstate_wf _ _ _ _ Hm) as Hwf. destruct (node_of_split _ _ _ _ _ _ Hm) as (a & nx' & r & Hl & Ha & Hr & Hgx). rewrite Hx in Hgx. injection Hgx as <-.
  destruct r as [|[y' ny'] b]; [done|]. cbn in Hr. injection Hr as -> Hb.
  assert (Hgy : node_of ql (Some y) = Some ny'). { assert (El : ql_nodes ql = (a ++ [(x, nx)]) ++ (y, ny') :: b) by (by rewrite Hl, <- app_assoc). by destruct (node_at_split ql _ y ny' b Hwf El) as (_ & ? & _). }
  rewrite Hy in Hgy. injection Hgy as <-. destruct Hm as ((cs & Hco & Hf) & Hu & Hi). destruct (allowed_contents ql k cs a x nx y ny b Hco Hl Hal) as (ca & ea & eb & cb & -> & Hlen & Hok).
  rewrite Hl in Hu. apply unflagged_app in Hu as [Hua Hu]. apply unflagged_cons in Hu as [_ Hu]. apply unflagged_cons in Hu as [_ Hub].
  assert (Huz : forall z, qn_recompress z.2 = false -> unflagged (a ++ z :: b)) by (intros z Hz; apply unflagged_app; split; [done|]; by apply unflagged_cons).
  destruct (merge_ok ql k ca ea eb cb a x nx y ny b Hco Hl Hlen Hok) as (keep & nk & l' & Hmg & Hk & Hs & Hfk & Hco'); [intros z Hz; by apply unflagged_deep, Huz|].
  exists (shrunk ql l' 0), keep. split; [done|]. split; [|split; [cbn; lia|done]]. split; [|split].
  - exists (ca ++ Packed (ea ++ eb) :: cb). split; [done|]. rewrite <- Hf, !flat_app, !flat_cons, vals_app. by rewrite <- app_assoc.
  - apply (unflagged_sim _ _ Hs). by apply (Huz (keep, nk)).
  - cbn [shrunk ql_nodes]. rewrite (lsim_ids _ _ Hs), fmap_app. cbn. by rewrite Ha, Hb.
Qed.

Lemma allowed_sym nx ny : allowed nx ny -> allowed ny nx.
Proof. intros (Hx & Hy & Hu). split; [done|]. split; [done|]. by replace (qn_sz ny + qn_sz nx - 7) with (qn_sz nx + qn_sz ny - 7) by lia. Qed.

Lemma node_of_Some ql o n : node_of ql o = Some n -> exists id, o = Some id.
Proof. destruct o as [id|]; [by exists id|done]. Qed.

Lemma head_reverse_Some (ia : list nat) p : head (reverse ia) = Some p -> exists ia0, ia = ia0 ++ [p].
Proof. destruct ia as [|x ia _] using rev_ind; [done|]. rewrite reverse_snoc. intros [= ->]. by exists ia. Qed.

Section Steps.
Context (k : Z) (vs : list (list Z)).

(** What a step leaves: the elements, the counter and the limit. *)
Definition step_to (ql ql' : quicklist) (ids : list nat) : Prop := mstate ql' k vs ids /\ ql_count ql' = ql_count ql /\ ql_fill ql' = ql_fill ql.

Lemma step_before ql center ia ib fill : mstate ql k vs (ia ++ center :: ib) -> -5 <= fill ->
  let prev := q_prev ql center in let prev_prev := prev ← prev; q_prev ql prev in
  exists ql' ia', (allow ← _quicklistNodeAllowMerge (node_of ql prev) (node_of ql prev_prev) fill;
      if allow : bool then pp ← prev_prev; p ← prev; '(ql, _) ← _quicklistListpackMerge junk usable lzf_base lzf_junk ql pp p; Some ql else Some ql) = Some ql' /\ step_to ql ql' (ia' ++ center :: ib).
Proof.
  intros Hm Hfill prev prev_prev. destruct (allow_merge_spec (node_of ql prev) (node_of ql prev_prev) fill Hfill) as (allow & -> & Hal). cbn [mbind option_bind].
  destruct allow; [|by exists ql, ia]. destruct (Hal eq_refl) as (np & npp & Hp & Hpp & Hpl). pose proof (wf_ids _ (mstate_wf _ _ _ _ Hm)) as Hnd. pose proof Hm as (_ & _ & Hi).
  destruct (node_of_Some _ _ _ Hp) as [p Ep]. destruct (node_of_Some _ _ _ Hpp) as [pp Epp]. 
  assert (Epp' : q_prev ql p = Some pp) by (unfold prev_prev in Epp; by rewrite Ep in Epp).
  rewrite Ep in Hp. rewrite Epp in Hpp. rewrite Epp, Ep. cbn [mbind option_bind]. clear Epp. rename Epp' into Epp. unfold prev in Ep. rewrite (prev_ids ql ia center ib Hnd Hi) in Ep. destruct (head_reverse_Some _ _ Ep) as [ia1 ->]. rewrite <- app_assoc in Hi. cbn [app] in Hi.
  rewrite (prev_ids ql ia1 p _ Hnd Hi) in Epp. destruct (head_reverse_Some _ _ Epp) as [ia0 ->]. rewrite <- !app_assoc in Hm. cbn [app] in Hm.
  destruct (merge_state ql k vs ia0 pp p (center :: ib) npp np Hm Hpp Hp) as (ql' & keep & -> & Hm' & Hc & Hf & _); [by apply allowed_sym; split_and!; apply Hpl|]. cbn [mbind option_bind].
  exists ql', (ia0 ++ [keep]). split; [done|]. split; [by rewrite <- app_assoc|done].
Qed.

Lemma step_after ql center ia ib fill : mstate ql k vs (ia ++ center :: ib) -> -5 <= fill ->
  let next := head ib in let next_next := head (tail ib) in
  exists ql' ib', (allow ← _quicklistNodeAllowMerge (node_of ql next) (node_of ql next_next) fill;
      if allow : bool then n ← next; nn ← next_next; '(ql, _) ← _quicklistListpackMerge junk usable lzf_base lzf_junk ql n nn; Some ql else Some ql) = Some ql' /\ step_to ql ql' (ia ++ center :: ib').
Proof.
  intros Hm Hfill next next_next. destruct (allow_merge_spec (node_of ql next) (node_of ql next_next) fill Hfill) as (allow & -> & Hal). cbn [mbind option_bind].
  destruct allow; [|by exists ql, ib]. destruct (Hal eq_refl) as (nn & nnn & Hn & Hnn & Hpl). destruct (node_of_Some _ _ _ Hn) as [n En]. destruct (node_of_Some _ _ _ Hnn) as [n2 Enn]. unfold next, next_next in *. rewrite Enn, En in *. cbn [mbind option_bind].
  destruct ib as [|n' ib]; [done|]. cbn in En. injection En as ->. destruct ib as [|n2' ib]; [done|]. cbn in Enn. injection Enn as ->. cbn [app] in Hm. rewrite cons_middle, app_assoc in Hm.
  destruct (merge_state ql k vs (ia ++ [center]) n n2 ib nn nnn Hm Hn Hnn Hpl) as (ql' & keep & -> & Hm' & Hc & Hf & _). cbn [mbind option_bind].
  exists ql', (keep :: ib). split; [done|]. split; [by rewrite <- app_assoc in Hm'|done].
Qed.

Lemma step_prev ql center ia ib fill : mstate ql k vs (ia ++ center :: ib) -> -5 <= fill ->
  exists ql' target ia', (allow ← _quicklistNodeAllowMerge (node_of ql (Some center)) (node_of ql (q_prev ql center)) fill;
      if allow : bool then p ← q_prev ql center; _quicklistListpackMerge junk usable lzf_base lzf_junk ql p center else Some (ql, center)) = Some (ql', target) /\ step_to ql ql' (ia' ++ target :: ib).
Proof.
  intros Hm Hfill. destruct (allow_merge_spec (node_of ql (Some center)) (node_of ql (q_prev ql center)) fill Hfill) as (allow & -> & Hal). cbn [mbind option_bind].
  destruct allow; [|by exists ql, center, ia]. destruct (Hal eq_refl) as (nc & np & Hc & Hp & Hpl). pose proof (wf_ids _ (mstate_wf _ _ _ _ Hm)) as Hnd. pose proof Hm as (_ & _ & Hi).
  destruct (node_of_Some _ _ _ Hp) as [p Ep]. rewrite Ep in *. cbn [mbind option_bind]. rewrite (prev_ids ql ia center ib Hnd Hi) in Ep. destruct (head_reverse_Some _ _ Ep) as [ia0 ->]. rewrite <- app_assoc in Hm. cbn [app] in Hm.
  destruct (merge_state ql k vs ia0 p center ib np nc Hm Hp Hc) as (ql' & keep & -> & Hm' & Hcn & Hf & _); [by apply allowed_sym; split_and!; apply Hpl|]. by exists ql', keep, ia0.
Qed.

Lemma step_next ql target ia ib fill : mstate ql k vs (ia ++ target :: ib) -> -5 <= fill ->
  exists ql' t ib', (allow ← _quicklistNodeAllowMerge (node_of ql (Some target)) (node_of ql (q_next ql target)) fill;
      if allow : bool then n ← q_next ql target; _quicklistListpackMerge junk usable lzf_base lzf_junk ql target n else Some (ql, target)) = Some (ql', t) /\ step_to ql ql' (ia ++ t :: ib').
Proof.
  intros Hm Hfill. destruct (allow_merge_spec (node_of ql (Some target)) (node_of ql (q_next ql target)) fill Hfill) as (allow & -> & Hal). cbn [mbind option_bind].
  destruct allow; [|by exists ql, target, ib]. destruct (Hal eq_refl) as (nt & nn & Ht & Hn & Hpl). pose proof (wf_ids _ (mstate_wf _ _ _ _ Hm)) as Hnd. pose proof Hm as (_ & _ & Hi).
  destruct (node_of_Some _ _ _ Hn) as [n En]. rewrite En in *. cbn [mbind option_bind]. rewrite (next_ids ql ia target ib Hnd Hi) in En. destruct ib as [|n' ib]; [done|]. cbn in En. injection En as ->.
  destruct (merge_state ql k vs ia target n ib nt nn Hm Ht Hn Hpl) as (ql' & keep & -> & Hm' & Hcn & Hf & _). by exists ql', keep, ib.
Qed.

Lemma merge_nodes_ok ql center ia ib : mstate ql k vs (ia ++ center :: ib) ->
  exists ql' t ids, _quicklistMergeNodes junk usable lzf_base lzf_junk ql center = Some (ql', t) /\ step_to ql ql' ids.
Proof.
  intros Hm. pose proof (mstate_wf _ _ _ _ Hm) as Hwf. pose proof (wf_ids _ Hwf) as Hnd. pose proof Hm as (_ & _ & Hi). pose proof (wf_fill _ Hwf) as [Hfill _]. unfold _quicklistMergeNodes.
  destruct (step_before ql center ia ib (ql_fill ql) Hm Hfill) as (q1 & ia1 & H1 & Hm1 & Hc1 & Hf1).
  assert (Hn : q_next ql center = head ib) by (by apply (next_ids ql ia)).
  assert (Hnn : (next ← q_next ql center; q_next ql next) = head (tail ib)).
  { rewrite Hn. destruct ib as [|n ib]; [done|]. cbn. apply (next_ids ql (ia ++ [center]) n ib Hnd). by rewrite Hi, <- app_assoc. }
  rewrite Hnn, Hn. clear Hnn Hn.
  destruct (_quicklistNodeAllowMerge (node_of ql (q_prev ql center)) _ _) as [al1|]; [|done]. cbn [mbind option_bind] in H1 |- *. rewrite H1. cbn [mbind option_bind]. clear H1.
  destruct (step_after q1 center ia1 ib (ql_fill ql) Hm1 Hfill) as (q2 & ib2 & H2 & Hm2 & Hc2 & Hf2).
  destruct (_quicklistNodeAllowMerge (node_of q1 (head ib)) _ _) as [al2|]; [|done]. cbn [mbind option_bind] in H2 |- *. rewrite H2. cbn [mbind option_bind]. clear H2.
  destruct (step_prev q2 center ia1 ib2 (ql_fill ql) Hm2 Hfill) as (q3 & target & ia3 & H3 & Hm3 & Hc3 & Hf3).
  destruct (_quicklistNodeAllowMerge (node_of q2 (Some center)) _ _) as [al3|]; [|done]. cbn [mbind option_bind] in H3 |- *. rewrite H3. cbn [mbind option_bind]. clear H3.
  destruct (step_next q3 target ia3 ib2 (ql_fill ql) Hm3 Hfill) as (q4 & t & ib4 & H4 & Hm4 & Hc4 & Hf4).
  destruct (_quicklistNodeAllowMerge (node_of q3 (Some target)) _ _) as [al4|]; [|done]. cbn [mbind option_bind] in H4 |- *. rewrite H4.
  eexists q4, t, _. split; [done|]. split; [done|]. split; congruence.
Qed.
End Steps.
End Merge.
