(* ===== verification/QuicklistIns.v ===== *)
(** * Quicklists: insertion next to an element *)

From stdpp Require Import base list numbers option tactics.
From S2P Require Import Prelude Util ListpackEnc Listpack ListpackNav ListpackUpd Lzf Quicklist QuicklistOps QuicklistSpec QuicklistComp QuicklistEnds QuicklistMerge.

(** The place before or after the element [j]. *)
Definition place (after : bool) (j : nat) : nat := if after then S j else j.
Definition vput (after : bool) (j : nat) (vs : list (list Z)) (s : list Z) : list (list Z) := take (place after j) vs ++ s :: drop (place after j) vs.

Definition at_end (after : bool) (j len : nat) : bool := if after then (S j =? len)%nat else (j =? 0)%nat.

Lemma at_tail_eq o c j (after : bool) : (j < length (vals c))%nat -> offset_of o c j ->
  after && ((o =? zlen (vals c) - 1) || (o =? -1)) = after && at_end after j (length (vals c)).
Proof.
  intros Hj Ho. destruct after; [|done]. cbn [andb at_end]. unfold offset_of, zlen in *.
  destruct (Nat.eqb_spec (S j) (length (vals c))); destruct (Z.eqb_spec o (Z.of_nat (length (vals c)) - 1)); destruct (Z.eqb_spec o (-1)); cbn [orb]; lia.
Qed.

Lemma at_head_eq o c j (after : bool) : (j < length (vals c))%nat -> offset_of o c j ->
  negb after && ((o =? 0) || (o =? - zlen (vals c))) = negb after && at_end after j (length (vals c)).
Proof.
  intros Hj Ho. destruct after; [done|]. cbn [andb negb at_end]. unfold offset_of, zlen in *.
  destruct (Nat.eqb_spec j 0); destruct (Z.eqb_spec o 0); destruct (Z.eqb_spec o (- Z.of_nat (length (vals c)))); cbn [orb]; lia.
Qed.

Lemma vput_end after j vs s : (j < length vs)%nat -> at_end after j (length vs) = true -> vput after j vs s = if after then vs ++ [s] else s :: vs.
Proof.
  intros Hj He. unfold vput, place, at_end in *. destruct after; apply Nat.eqb_eq in He.
  - by rewrite He, firstn_all, drop_all.
  - subst j. done.
Qed.

Section Ins.
Context (junk : nat -> Z) (usable : Z -> Z) (Husable : forall n, 0 <= n -> n <= usable n).
Context (lzf_base : Z) (lzf_junk : Z -> Z) (Hbase : 8192 <= lzf_base /\ lzf_base + 2 ^ 32 <= 2 ^ 64) (Hlzf : forall i, 0 <= lzf_junk i < 2 ^ 64).
Context (packed_threshold : Z) (Hthr : 0 <= packed_threshold <= 65537).

(** The two sides of a place next to the node [id]. *)
Definition lside {A} (after : bool) (a : list A) (x : A) : list A := if after then a ++ [x] else a.
Definition rside {A} (after : bool) (x : A) (b : list A) : list A := if after then b else x :: b.

Lemma sides {A} after (a : list A) x b : lside after a x ++ rside after x b = a ++ x :: b.
Proof. destruct after; cbn [lside rside]; [by rewrite <- app_assoc|done]. Qed.

Lemma sides_adjacent after a id n b : adjacent (Some id) after (lside after a (id, n)) (rside after (id, n) b).
Proof. destruct after; constructor. Qed.

Lemma length_lside {A B} after (a : list A) x (b : list B) y : length a = length b -> length (lside after a x) = length (lside after b y).
Proof. intros H. destruct after; cbn [lside]; [rewrite !length_app; cbn; lia|done]. Qed.

Lemma flat_sides after ca c cb c' : flat (lside after ca c ++ c' :: rside after c cb) = flat ca ++ (if after then vals c ++ vals c' else vals c' ++ vals c) ++ flat cb.
Proof. destruct after; cbn [lside rside]; rewrite ?flat_app, ?flat_cons; change (flat []) with (@nil (list Z)); rewrite ?app_nil_r, <- ?app_assoc; done. Qed.

(** A node for the element next to the node [id]. *)
Lemma insert_beside ql k ca c cb a id n b after new c' : core (with_count ql k) (ca ++ c :: cb) -> ql_nodes ql = a ++ (id, n) :: b -> length a = length ca -> only_flag (Some id) (ql_nodes ql) ->
  node_rep new c' -> qn_count new = zlen (vals c') -> vals c' <> [] -> qn_lzf new = false -> qn_recompress new = false -> qn_dont_compress new = false ->
  exists l', insert_node junk lzf_base lzf_junk ql (Some id) new after = Some (grown ql l', ql_fresh ql) /\ lsim (lside after a (id, n) ++ (ql_fresh ql, new) :: rside after (id, n) b) l' /\
    core (with_count (grown ql l') (k + zlen (vals c'))) (lside after ca c ++ c' :: rside after c cb) /\ unflagged l'.
Proof.
  intros Hco Hl Hlen Hfl Hr Hn Hne Hz Hf Hd. rewrite <- (sides after) in Hco. rewrite <- (sides after) in Hl.
  destruct (ql_insert_core junk lzf_base lzf_junk Hbase Hlzf ql k _ _ (Some id) _ _ new c' after Hco Hl) as (l' & Hi & Hs & Hco' & Hu); [by apply length_lside|apply sides_adjacent|done..|].
  exists l'. split; [done|]. split; [done|]. split; [done|]. by apply Hu.
Qed.

Lemma found_lt ql ca c cb a id n b j e : found ql ca c cb a id n b j e -> (j < length (vals c))%nat.
Proof. intros Hf. destruct (fo_value _ _ _ _ _ _ _ _ _ _ Hf) as (le & _ & Hv). by eapply lookup_lt_Some. Qed.

Lemma found_rep ql ca c cb a id n b j e : found ql ca c cb a id n b j e -> node_rep n c /\ qn_count n = zlen (vals c) /\ get_node ql id = Some n /\ qn_dont_compress n = false.
Proof.
  intros Hf. pose proof (fo_core _ _ _ _ _ _ _ _ _ _ Hf) as Hco. pose proof (co_holds _ _ Hco) as Hh. rewrite (fo_nodes _ _ _ _ _ _ _ _ _ _ Hf) in Hh.
  destruct (holds_split _ _ _ _ _ _ Hh (fo_len _ _ _ _ _ _ _ _ _ _ Hf)) as (_ & [Hr Hc] & _). split; [done|]. split; [done|]. split.
  - by destruct (node_at_split ql a id n b (co_wf _ _ Hco) (fo_nodes _ _ _ _ _ _ _ _ _ _ Hf)) as (_ & ? & _).
  - pose proof (co_dont _ _ Hco) as Hd. rewrite (fo_nodes _ _ _ _ _ _ _ _ _ _ Hf) in Hd. by apply list.Forall_app in Hd as [_ [Hd _]%list.Forall_cons].
Qed.

Lemma use_raw ql id n : get_node ql id = Some n -> qn_lzf n = false -> quicklistDecompressNodeForUse ql id = Some ql.
Proof. intros Hg Hz. unfold quicklistDecompressNodeForUse. rewrite Hg. cbn [mbind option_bind]. by rewrite Hz. Qed.

(** ** Large values *)

Definition result (r : option quicklist) (vs : list (list Z)) : Prop := exists ql' cs', r = Some ql' /\ inv ql' cs' /\ flat cs' = vs.

Lemma insert_large_beside ql ca c cb a id n b j e s after : found ql ca c cb a id n b j e -> elem_ok s -> is_plain c || at_end after j (length (vals c)) = true ->
  result (__quicklistInsertPlainNode junk usable lzf_base lzf_junk ql (Some id) s after) (flat ca ++ vput after j (vals c) s ++ flat cb).
Proof.
  intros Hf Hs He. pose proof (found_lt _ _ _ _ _ _ _ _ _ _ Hf) as Hj. pose proof (fo_core _ _ _ _ _ _ _ _ _ _ Hf) as Hco. rewrite <- (sides after) in Hco. pose proof (fo_nodes _ _ _ _ _ _ _ _ _ _ Hf) as Hl. rewrite <- (sides after) in Hl.
  destruct (insert_plain_ok junk usable lzf_base lzf_junk Hbase Hlzf ql _ _ (Some id) _ _ s after Hco Hl) as (ql' & Hi & Hco' & Hu); [apply length_lside, (fo_len _ _ _ _ _ _ _ _ _ _ Hf)|apply sides_adjacent|done|].
  exists ql', (lside after ca c ++ Plain s :: rside after c cb). split; [done|]. split; [split; [done|apply Hu, (fo_flag _ _ _ _ _ _ _ _ _ _ Hf)]|]. rewrite flat_sides. f_equal. f_equal. cbn [vals].
  assert (E : at_end after j (length (vals c)) = true).
  { apply orb_true_iff in He as [He|He]; [|done]. destruct c as [v|]; [|done]. cbn in Hj |- *. destruct j; [|lia]. by destruct after. }
  rewrite vput_end by done. by destruct after.
Qed.

(** The node is split around the place. *)
Lemma split_found ql ca es cb a id n b j e after : found ql ca (Packed es) cb a id n b j e -> at_end after j (length (vals (Packed es))) = false ->
  exists n1 sp, _quicklistSplitNode junk usable ql id (qe_offset e) after = Some (with_nodes ql (a ++ (id, n1) :: b), sp) /\ fresh_packed sp (split_rest after j es) /\
    core (with_count (with_nodes ql (a ++ (id, n1) :: b)) (ql_count ql - zlen (vals (Packed (split_rest after j es))))) (ca ++ Packed (split_keep after j es) :: cb) /\
    only_flag (Some id) (a ++ (id, n1) :: b) /\ vals (Packed (split_rest after j es)) <> [] /\
    (forall m, (if after then vals (Packed (split_keep after j es)) ++ m ++ vals (Packed (split_rest after j es)) else vals (Packed (split_rest after j es)) ++ m ++ vals (Packed (split_keep after j es))) =
       take (place after j) (vals (Packed es)) ++ m ++ drop (place after j) (vals (Packed es))).
Proof.
  intros Hf He. pose proof (found_lt _ _ _ _ _ _ _ _ _ _ Hf) as Hj. destruct (found_rep _ _ _ _ _ _ _ _ _ _ Hf) as (Hrep & Hcnt & Hg & Hd). pose proof Hf as [Hco Hl Hlen Hz Hfl _ _ Ho _].
  assert (Hv : Forall valid_entry es) by apply (nr_ok _ _ Hrep). rewrite length_vals in He, Hj by done.
  destruct (split_ok junk usable Husable ql a id n b es j (qe_offset e) after (co_wf _ _ Hco) Hl Hrep Hcnt Hz Hj Ho) as (n1 & sp & -> & R1 & C1 & Z1 & F1 & D1 & Hsp).
  exists n1, sp. split; [done|]. split; [done|].
  assert (Hvk : vals (Packed (split_keep after j es)) = split_keep after j (vals (Packed es))) by (unfold split_keep; destruct after; [by apply vals_take|by apply vals_drop]).
  assert (Hvr : vals (Packed (split_rest after j es)) = split_rest after j (vals (Packed es))) by (unfold split_rest; destruct after; [by apply vals_drop|by apply vals_take]).
  pose proof (length_vals es Hv) as Hlv. split; [|split; [|split]].
  - apply (core_update ql ca (Packed es) cb a id n b); [done|done|done|done|done|congruence|congruence|congruence| |].
    + rewrite Hvk. intros E. apply (f_equal length) in E. unfold split_keep in E. destruct after; rewrite ?length_take, ?length_drop in E; cbn [length] in E; lia.
    + rewrite Hvk, Hvr. unfold zlen, split_keep, split_rest. destruct after; rewrite ?length_take, ?length_drop; lia.
  - rewrite Hl in Hfl. apply list.Forall_app in Hfl as [Ha [_ Hb]%list.Forall_cons]. apply list.Forall_app. split; [done|]. by constructor.
  - rewrite Hvr. intros E. apply (f_equal length) in E. unfold split_rest, at_end in *. destruct after; apply Nat.eqb_neq in He; rewrite ?length_take, ?length_drop in E; cbn [length] in E; lia.
  - intros m. rewrite Hvk, Hvr. unfold split_keep, split_rest, place. by destruct after.
Qed.

Lemma insert_large_split ql ca es cb a id n b j e s after : found ql ca (Packed es) cb a id n b j e -> elem_ok s -> at_end after j (length (vals (Packed es))) = false ->
  result ('(ql, split) ← _quicklistSplitNode junk usable ql id (qe_offset e) after;
          node ← __quicklistCreateNode junk usable true s;
          '(ql, new) ← insert_node junk lzf_base lzf_junk ql (Some id) node after;
          '(ql, _) ← insert_node junk lzf_base lzf_junk ql (Some new) split after;
          Some (with_count ql (ql_count ql + 1))) (flat ca ++ vput after j (vals (Packed es)) s ++ flat cb).
Proof.
  intros Hf Hs He. destruct (split_found ql ca es cb a id n b j e after Hf He) as (n1 & sp & -> & (Rs & Cs & Zs & Fs & Ds) & Hco1 & Hfl1 & Hne & Hvals). cbn [mbind option_bind __quicklistCreateNode].
  set (q1 := with_nodes ql (a ++ (id, n1) :: b)) in *. set (keep := split_keep after j es) in *. set (rest := split_rest after j es) in *. pose proof (fo_len _ _ _ _ _ _ _ _ _ _ Hf) as Hlen.
  destruct (insert_beside q1 _ ca (Packed keep) cb a id n1 b after _ (Plain s) Hco1 eq_refl Hlen Hfl1 (plain_ok s Hs)) as (l2 & -> & Hs2 & Hco2 & Hu2); [done..|]. cbn [mbind option_bind].
  set (q2 := grown q1 l2) in *. destruct (lsim_app_inv _ _ _ _ Hs2) as (a2 & [new pl] & b2 & El2 & Ha2 & Hx2 & Hb2). pose proof (ns_id _ _ Hx2) as Enew. cbn in Enew. subst new.
  assert (Hl2 : length a2 = length (lside after ca (Packed keep))) by (rewrite (lsim_length _ _ Ha2); by apply length_lside).
  destruct (insert_beside q2 _ _ (Plain s) _ a2 (ql_fresh q1) pl b2 after sp (Packed rest) Hco2 El2 Hl2) as (l3 & -> & _ & Hco3 & Hu3); [|done..|].
  { apply (inv_only (with_count q2 (ql_count ql - zlen (vals (Packed rest)) + zlen (vals (Plain s)))) (lside after ca (Packed keep) ++ Plain s :: rside after (Packed keep) cb)). by split. }
  cbn [mbind option_bind]. eexists _, _. split; [done|]. split; [split; [|exact Hu3]|].
  - replace (ql_count (grown q2 l3) + 1) with (ql_count ql - zlen (vals (Packed rest)) + zlen (vals (Plain s)) + zlen (vals (Packed rest))); [exact Hco3|]. cbn [vals]. change (ql_count (grown q2 l3)) with (ql_count ql). change (zlen [s]) with 1. lia.
  - rewrite flat_sides. unfold vput. change (s :: drop (place after j) (vals (Packed es))) with ([s] ++ drop (place after j) (vals (Packed es))). rewrite <- Hvals.
    destruct after; cbn [lside rside]; rewrite ?flat_app, ?flat_cons; change (flat []) with (@nil (list Z)); rewrite ?app_nil_r, <- ?app_assoc; done.
Qed.

(** ** Small values *)

(** An element more in the listpack of a node, which is then compressed if it was. *)
Lemma grow_recompress ql ca es cb a id n b f b' p es' : core ql (ca ++ Packed es :: cb) -> ql_nodes ql = a ++ (id, n) :: b -> length a = length ca -> qn_lzf n = false ->
  f (qn_entry n) = Some (Some (b', p)) -> raw b' (Packed es') -> cont_ok (Packed es') -> zlen es' = zlen es + 1 ->
  exists n', (ql ← update_node ql id (grow_node f); quicklistRecompressOnly junk lzf_base lzf_junk ql id) = Some (with_nodes ql (a ++ (id, n') :: b)) /\ qn_recompress n' = false /\
    core (with_count (with_nodes ql (a ++ (id, n') :: b)) (ql_count ql + 1)) (ca ++ Packed es' :: cb).
Proof.
  intros Hco Hl Hlen Hz Hfe Hr Hok Hn. destruct (node_at_split ql a id n b (co_wf _ _ Hco) Hl) as (_ & Hg & Hset). unfold update_node, grow_node. rewrite Hg. cbn [mbind option_bind]. rewrite Hfe, (update_lp_ok _ _ _ _ Hr). cbn [mbind option_bind]. rewrite Hset.
  pose proof (grow_core ql ca es cb a id n b es' b' Hco Hl Hlen Hz Hr Hok Hn) as Hco1. change (qn_count (set_entry n b' (total_bytes es') (qn_lzf n))) with (qn_count n).
  destruct (recompress_ok junk lzf_base lzf_junk Hbase Hlzf _ _ _ a id _ b Hco1 eq_refl) as (n' & -> & Hco2 & _ & Hf'). exists n'. split; [done|]. by split.
Qed.

Lemma only_clear id n n' a b : NoDup ((a ++ (id, n) :: b).*1) -> only_flag (Some id) (a ++ (id, n) :: b) -> qn_recompress n' = false -> unflagged (a ++ (id, n') :: b).
Proof. intros Hnd Ho Hf. destruct (only_rest id n a b _ Hnd Ho eq_refl). apply unflagged_app. split; [done|]. by apply unflagged_cons. Qed.

Lemma insert_grow ql ca es cb a id n b j e s after : found ql ca (Packed es) cb a id n b j e -> Forall is_byte s -> zlen s <= 65536 -> qn_sz n + zlen s + 8 <= 65536 ->
  result (ql ← (ql ← quicklistDecompressNodeForUse ql id; p ← qe_zi e;
          ql ← update_node ql id (grow_node (fun lp => lpInsertString junk usable lp s p (if after : bool then LP_AFTER else LP_BEFORE)));
          quicklistRecompressOnly junk lzf_base lzf_junk ql id); Some (with_count ql (ql_count ql + 1))) (flat ca ++ vput after j (vals (Packed es)) s ++ flat cb).
Proof.
  intros Hf Hs Hl Hroom. pose proof (found_lt _ _ _ _ _ _ _ _ _ _ Hf) as Hj. destruct (found_rep _ _ _ _ _ _ _ _ _ _ Hf) as (Hrep & Hcnt & Hg & Hd). pose proof Hf as [Hco Hnl Hlen Hz Hfl _ Hzi _ _].
  rewrite (use_raw ql id n Hg Hz), Hzi. cbn [mbind option_bind zpos]. assert (Hv : Forall valid_entry es) by apply (nr_ok _ _ Hrep). rewrite length_vals in Hj by done.
  pose proof (nr_raw _ _ Hrep) as Hr. rewrite Hz in Hr. set (w := if after then LP_AFTER else LP_BEFORE).
  assert (Ep : put_list es (lp_encode s) j w = take (place after j) es ++ lp_encode s :: drop (place after j) es) by (unfold w, place; by destruct after).
  assert (Hok : cont_ok (Packed (put_list es (lp_encode s) j w))) by (rewrite Ep; apply (room_one n es s Hrep Hs Hl Hroom); by rewrite take_drop).
  destruct (raw_put junk usable Husable (qn_entry n) es s j w Hr Hs Hl) as (b' & p & Hput & Hr'); [unfold w; destruct after; cbn; lia|done|].
  destruct (grow_recompress ql ca es cb a id n b (fun lp => lpInsertString junk usable lp s (pos es j) w) b' p _ Hco Hnl Hlen Hz Hput Hr' Hok) as (n' & Hq & Hf' & Hco').
  { rewrite Ep. unfold zlen. rewrite length_app, length_cons, length_take, length_drop. unfold place. destruct after; lia. }
  rewrite Hq. cbn [mbind option_bind]. eexists _, _. split; [done|]. split; [split; [exact Hco'|]|].
  - cbn [with_count with_nodes ql_nodes]. pose proof (wf_ids _ (co_wf _ _ Hco)) as Hnd. rewrite Hnl in Hnd, Hfl. by apply (only_clear id n).
  - rewrite flat_app, flat_cons, Ep. unfold vput. change (lp_encode s :: drop (place after j) es) with ([lp_encode s] ++ drop (place after j) es). by rewrite !vals_app, vals_take, vals_drop, vals_one.
Qed.

(** A node for the element, with the place of [id] and its contents afterwards. *)
Lemma insert_new_at ql ca c cb a id n b j e s after : found ql ca c cb a id n b j e -> Forall is_byte s -> zlen s <= 65536 ->
  exists ql' m, (ql ← (node ← new_packed junk usable s; '(ql, _) ← insert_node junk lzf_base lzf_junk ql (Some id) (set_count node 1) after; Some ql); Some (with_count ql (ql_count ql + 1))) = Some ql' /\
    inv ql' (lside after ca c ++ Packed [lp_encode s] :: rside after c cb) /\ lsim (lside after a (id, n) ++ (ql_fresh ql, m) :: rside after (id, n) b) (ql_nodes ql').
Proof.
  intros Hf Hs Hl. pose proof Hf as [Hco Hnl Hlen Hz Hfl _ _ _ _].
  destruct (new_packed_ok junk usable Husable s Hs Hl) as (m & -> & Rm & _ & Zm & Fm & Dm). cbn [mbind option_bind]. pose proof (vals_one s Hs Hl) as H1. rewrite <- (with_count_same ql) in Hco.
  destruct (insert_beside ql _ ca c cb a id n b after (set_count m 1) (Packed [lp_encode s]) Hco Hnl Hlen Hfl) as (l' & -> & Hs' & Hco' & Hu); [by apply rep_count|by rewrite H1|by rewrite H1|done..|].
  cbn [mbind option_bind]. rewrite H1 in Hco'. eexists _, (set_count m 1). split; [done|]. split; [|exact Hs']. by split.
Qed.

Lemma insert_new ql ca c cb a id n b j e s after : found ql ca c cb a id n b j e -> Forall is_byte s -> zlen s <= 65536 -> at_end after j (length (vals c)) = true ->
  result (ql ← (node ← new_packed junk usable s; '(ql, _) ← insert_node junk lzf_base lzf_junk ql (Some id) (set_count node 1) after; Some ql); Some (with_count ql (ql_count ql + 1)))
    (flat ca ++ vput after j (vals c) s ++ flat cb).
Proof.
  intros Hf Hs Hl He. destruct (insert_new_at ql ca c cb a id n b j e s after Hf Hs Hl) as (ql' & m & Hq & Hinv & _). eexists _, _. split; [exact Hq|]. split; [exact Hinv|].
  pose proof (found_lt _ _ _ _ _ _ _ _ _ _ Hf) as Hj. rewrite flat_sides, vals_one, vput_end by done. done.
Qed.

(** The element goes into a neighbour. *)
Lemma grow_used ql ca es cb a id n b s (front : bool) : core ql (ca ++ Packed es :: cb) -> ql_nodes ql = a ++ (id, n) :: b -> length a = length ca -> Forall is_byte s -> zlen s <= 65536 -> qn_sz n + zlen s + 8 <= 65536 ->
  let es' := if front then lp_encode s :: es else es ++ [lp_encode s] in
  exists n', (ql ← quicklistDecompressNodeForUse ql id; ql ← update_node ql id (grow_node (fun lp => if front then lpPrepend junk usable lp s else lpAppend junk usable lp s)); quicklistRecompressOnly junk lzf_base lzf_junk ql id) =
      Some (with_nodes ql (a ++ (id, n') :: b)) /\ qn_recompress n' = false /\ core (with_count (with_nodes ql (a ++ (id, n') :: b)) (ql_count ql + 1)) (ca ++ Packed es' :: cb).
Proof.
  intros Hco Hl Hlen Hs Hsl Hroom es'. pose proof (co_holds _ _ Hco) as Hh. rewrite Hl in Hh. destruct (holds_split _ _ _ _ _ _ Hh Hlen) as (_ & [Hrep _] & _). cbn [snd] in Hrep.
  destruct (use_ok ql ca (Packed es) cb a id n b Hco Hl Hlen) as (n1 & -> & Hz & Hrep1 & _ & Hco1 & _). cbn [mbind option_bind]. pose proof (nr_raw _ _ Hrep1) as Hr. rewrite Hz in Hr.
  assert (Hok : cont_ok (Packed es')) by (unfold es'; destruct front; [apply (room_one n es s Hrep Hs Hsl Hroom [] es eq_refl)|apply (room_one n es s Hrep Hs Hsl Hroom es []); by rewrite app_nil_r]).
  assert (Hput : exists b' p, (if front then lpPrepend junk usable (qn_entry n1) s else lpAppend junk usable (qn_entry n1) s) = Some (Some (b', p)) /\ raw b' (Packed es')).
  { unfold es' in *. destruct front; [by apply raw_prepend|by apply raw_append]. }
  destruct Hput as (b' & p & Hput & Hr').
  destruct (grow_recompress _ ca es cb a id n1 b (fun lp => if front then lpPrepend junk usable lp s else lpAppend junk usable lp s) b' p es' Hco1 eq_refl Hlen Hz Hput Hr' Hok) as (n' & -> & Hf & Hco').
  { unfold es'. destruct front; rewrite ?zlen_app, ?zlen_cons, ?zlen_nil; lia. }
  exists n'. split; [done|]. by split.
Qed.

Lemma insert_next_at ql ca c cb a id n b j e s m : found ql ca c cb a id n b j e -> Forall is_byte s -> zlen s <= 65536 ->
  node_of ql (q_next ql id) = Some m -> qn_plain m = false -> qn_sz m + zlen s + 8 <= 65536 ->
  exists ql' n' b' es2 cb2, (ql ← (next ← q_next ql id; ql ← quicklistDecompressNodeForUse ql next; ql ← update_node ql next (grow_node (fun lp => lpPrepend junk usable lp s));
          ql ← quicklistRecompressOnly junk lzf_base lzf_junk ql next; quicklistRecompressOnly junk lzf_base lzf_junk ql id); Some (with_count ql (ql_count ql + 1))) = Some ql' /\
    inv ql' (ca ++ c :: Packed (lp_encode s :: es2) :: cb2) /\ ql_nodes ql' = a ++ (id, n') :: b' /\ cb = Packed es2 :: cb2.
Proof.
  intros Hf Hs Hsl Hm Hpl Hroom. pose proof Hf as [Hco Hnl Hlen Hz Hfl _ _ _ _]. pose proof (wf_ids _ (co_wf _ _ Hco)) as Hnd.
  assert (Hn : q_next ql id = head (b.*1)) by (apply (next_ids ql (a.*1)); [done|by rewrite Hnl, fmap_app]). rewrite Hn in Hm |- *. destruct b as [|[next m'] b]; [done|]. cbn [fmap list_fmap head fst mbind option_bind] in Hm |- *.
  assert (Hnl' : ql_nodes ql = (a ++ [(id, n)]) ++ (next, m') :: b) by (by rewrite Hnl, <- app_assoc). destruct (node_at_split ql _ next m' b (co_wf _ _ Hco) Hnl') as (_ & Hg & _). cbn in Hm. rewrite Hg in Hm. injection Hm as ->.
  pose proof (co_holds _ _ Hco) as Hh. rewrite Hnl in Hh. destruct (holds_split _ _ _ _ _ _ Hh Hlen) as (_ & _ & Hb). destruct (holds_cons _ _ _ Hb) as (c2 & cb2 & ->). apply list.Forall2_cons in Hb as [[Rm _] _]. cbn [snd] in Rm. destruct (packed_of _ _ Rm Hpl) as [es2 ->].
  assert (Hco' : core ql ((ca ++ [c]) ++ Packed es2 :: cb2)) by (by rewrite <- app_assoc).
  destruct (grow_used ql (ca ++ [c]) es2 cb2 (a ++ [(id, n)]) next m b s true Hco' Hnl' ltac:(rewrite !length_app; cbn; lia) Hs Hsl Hroom) as (m2 & Hq & Fm & Hco2). cbn zeta iota in Hq, Hco2.
  destruct (quicklistDecompressNodeForUse ql next) as [q0|]; [|done]. cbn [mbind option_bind] in *. destruct (update_node q0 next _) as [q1|]; [|done]. cbn [mbind option_bind] in *. rewrite Hq. cbn [mbind option_bind]. clear Hq q0 q1.
  assert (El2 : (a ++ [(id, n)]) ++ (next, m2) :: b = a ++ (id, n) :: (next, m2) :: b) by (by rewrite <- app_assoc). rewrite El2 in *.
  destruct (recompress_ok junk lzf_base lzf_junk Hbase Hlzf _ _ _ a id n ((next, m2) :: b) Hco2 eq_refl) as (n3 & -> & Hco3 & _ & F3). cbn [mbind option_bind].
  rewrite <- app_assoc in Hco3. cbn [app] in Hco3. eexists _, n3, ((next, m2) :: b), es2, cb2. split; [done|]. split; [split; [exact Hco3|]|done].
  cbn [with_count with_nodes ql_nodes]. rewrite Hnl in Hnd, Hfl. destruct (only_rest id n a _ _ Hnd Hfl eq_refl) as [Ua Ub]. apply unflagged_cons in Ub as [_ Ub]. apply unflagged_app. split; [done|]. apply unflagged_cons. split; [done|]. by apply unflagged_cons.
Qed.

Lemma insert_next ql ca c cb a id n b j e s m : found ql ca c cb a id n b j e -> Forall is_byte s -> zlen s <= 65536 -> at_end true j (length (vals c)) = true ->
  node_of ql (q_next ql id) = Some m -> qn_plain m = false -> qn_sz m + zlen s + 8 <= 65536 ->
  result (ql ← (next ← q_next ql id; ql ← quicklistDecompressNodeForUse ql next; ql ← update_node ql next (grow_node (fun lp => lpPrepend junk usable lp s));
          ql ← quicklistRecompressOnly junk lzf_base lzf_junk ql next; quicklistRecompressOnly junk lzf_base lzf_junk ql id); Some (with_count ql (ql_count ql + 1))) (flat ca ++ vput true j (vals c) s ++ flat cb).
Proof.
  intros Hf Hs Hsl He Hm Hpl Hroom. destruct (insert_next_at ql ca c cb a id n b j e s m Hf Hs Hsl Hm Hpl Hroom) as (ql' & n' & b' & es2 & cb2 & Hq & Hinv & _ & ->).
  pose proof (found_lt _ _ _ _ _ _ _ _ _ _ Hf) as Hj. eexists _, _. split; [exact Hq|]. split; [exact Hinv|].
  rewrite vput_end by done. rewrite !flat_app, !flat_cons. change (lp_encode s :: es2) with ([lp_encode s] ++ es2). rewrite vals_app, vals_one by done. by rewrite <- !app_assoc.
Qed.

Lemma insert_prev ql ca c cb a id n b j e s m : found ql ca c cb a id n b j e -> Forall is_byte s -> zlen s <= 65536 -> at_end false j (length (vals c)) = true ->
  node_of ql (q_prev ql id) = Some m -> qn_plain m = false -> qn_sz m + zlen s + 8 <= 65536 ->
  result (ql ← (prev ← q_prev ql id; ql ← quicklistDecompressNodeForUse ql prev; ql ← update_node ql prev (grow_node (fun lp => lpAppend junk usable lp s));
          ql ← quicklistRecompressOnly junk lzf_base lzf_junk ql prev; quicklistRecompressOnly junk lzf_base lzf_junk ql id); Some (with_count ql (ql_count ql + 1))) (flat ca ++ vput false j (vals c) s ++ flat cb).
Proof.
  intros Hf Hs Hsl He Hm Hpl Hroom. pose proof (found_lt _ _ _ _ _ _ _ _ _ _ Hf) as Hj. pose proof Hf as [Hco Hnl Hlen Hz Hfl _ _ _ _]. pose proof (wf_ids _ (co_wf _ _ Hco)) as Hnd.
  assert (Hn : q_prev ql id = head (reverse (a.*1))) by (apply (prev_ids ql _ id (b.*1)); [done|by rewrite Hnl, fmap_app]). rewrite Hn in Hm |- *. destruct a as [|[prev m'] a _] using rev_ind; [done|]. rewrite fmap_app in Hm |- *. cbn [fmap list_fmap fst] in Hm |- *. rewrite reverse_snoc in Hm |- *. cbn [head mbind option_bind] in Hm |- *.
  assert (Hnl' : ql_nodes ql = a ++ (prev, m') :: (id, n) :: b) by (by rewrite Hnl, <- app_assoc). destruct (node_at_split ql a prev m' _ (co_wf _ _ Hco) Hnl') as (_ & Hg & _). cbn in Hm. rewrite Hg in Hm. injection Hm as ->.
  pose proof (co_holds _ _ Hco) as Hh. rewrite Hnl in Hh. destruct (holds_split _ _ _ _ _ _ Hh Hlen) as (Ha & _ & _). destruct (holds_snoc _ _ _ Ha) as (ca2 & c2 & -> & Hla). destruct (holds_split a _ [] ca2 c2 [] Ha Hla) as (_ & [Rm _] & _). cbn [snd] in Rm. destruct (packed_of _ _ Rm Hpl) as [es2 ->].
  assert (Hco' : core ql (ca2 ++ Packed es2 :: c :: cb)) by (by rewrite <- app_assoc in Hco).
  destruct (grow_used ql ca2 es2 (c :: cb) a prev m ((id, n) :: b) s false Hco' Hnl' Hla Hs Hsl Hroom) as (m2 & Hq & Fm & Hco2). cbn zeta iota in Hq, Hco2.
  destruct (quicklistDecompressNodeForUse ql prev) as [q0|]; [|done]. cbn [mbind option_bind] in *. destruct (update_node q0 prev _) as [q1|]; [|done]. cbn [mbind option_bind] in *. rewrite Hq. cbn [mbind option_bind]. clear Hq q0 q1.
  assert (El2 : a ++ (prev, m2) :: (id, n) :: b = (a ++ [(prev, m2)]) ++ (id, n) :: b) by (by rewrite <- app_assoc). rewrite El2 in *.
  destruct (recompress_ok junk lzf_base lzf_junk Hbase Hlzf _ _ _ (a ++ [(prev, m2)]) id n b Hco2 eq_refl) as (n3 & -> & Hco3 & _ & F3). cbn [mbind option_bind].
  eexists _, _. split; [done|]. split; [split; [exact Hco3|]|].
  - cbn [with_count with_nodes ql_nodes]. rewrite Hnl in Hnd, Hfl. destruct (only_rest id n _ _ _ Hnd Hfl eq_refl) as [Ua Ub]. apply unflagged_app in Ua as [Ua _]. apply unflagged_app. split; [|by apply unflagged_cons]. apply unflagged_app. split; [done|]. by constructor.
  - rewrite vput_end by done. rewrite !flat_app, !flat_cons, vals_app, vals_one by done. change (flat []) with (@nil (list Z)). by rewrite app_nil_r, <- !app_assoc.
Qed.

(** The part of a node that was split off takes the element at its open end. *)
Lemma grow_split sp rest s (after : bool) : fresh_packed sp rest -> Forall is_byte s -> zlen s <= 65536 -> zlen rest < MAX_ELEMENTS ->
  exists sp', grow_node (fun lp => if after then lpPrepend junk usable lp s else lpAppend junk usable lp s) sp = Some sp' /\ fresh_packed sp' (if after then lp_encode s :: rest else rest ++ [lp_encode s]).
Proof.
  intros (Rs & Cs & Zs & Fs & Ds) Hs Hsl Hlt. set (es' := if after then lp_encode s :: rest else rest ++ [lp_encode s]). pose proof (nr_ok _ _ Rs) as Hok. pose proof (packed_ok_one s Hs Hsl) as Ho1.
  assert (Hok' : cont_ok (Packed es')). { unfold es'. destruct after; [apply (packed_ok_app [lp_encode s] rest)|apply packed_ok_app]; try done; rewrite ?zlen_cons, zlen_nil; lia. }
  pose proof (nr_raw _ _ Rs) as Hr. rewrite Zs in Hr. assert (Hv : Forall valid_entry rest) by apply Hok. assert (Hv' : Forall valid_entry es') by apply Hok'.
  assert (Hput : exists b' p, (if after then lpPrepend junk usable (qn_entry sp) s else lpAppend junk usable (qn_entry sp) s) = Some (Some (b', p)) /\ raw b' (Packed es')).
  { unfold es' in *. destruct after; [by apply raw_prepend|by apply raw_append]. }
  destruct Hput as (b' & p & Hput & Hr'). unfold grow_node. rewrite Hput, (update_lp_ok _ _ _ _ Hr'). cbn [mbind option_bind].
  assert (Hz : zlen es' = zlen rest + 1) by (unfold es'; destruct after; rewrite ?zlen_app, ?zlen_cons, ?zlen_nil; lia). unfold MAX_ELEMENTS in Hlt. pose proof (zlen_nonneg rest).
  eexists. split; [done|]. split; [apply rep_count; by eapply rep_entry|]. split; [|done]. cbn [set_entry]. rewrite zlen_vals in Cs |- * by done. rewrite set_count_val by (cbn; lia). cbn. lia.
Qed.

Lemma insert_split ql ca es cb a id n b j e s after : found ql ca (Packed es) cb a id n b j e -> Forall is_byte s -> zlen s <= 65536 -> at_end after j (length (vals (Packed es))) = false ->
  result (ql ← (ql ← quicklistDecompressNodeForUse ql id; '(ql, split) ← _quicklistSplitNode junk usable ql id (qe_offset e) after;
                split ← grow_node (fun lp => if after then lpPrepend junk usable lp s else lpAppend junk usable lp s) split;
                '(ql, _) ← insert_node junk lzf_base lzf_junk ql (Some id) split after;
                '(ql, _) ← _quicklistMergeNodes junk usable lzf_base lzf_junk ql id; Some ql);
          Some (with_count ql (ql_count ql + 1))) (flat ca ++ vput after j (vals (Packed es)) s ++ flat cb).
Proof.
  intros Hf Hs Hsl He. destruct (found_rep _ _ _ _ _ _ _ _ _ _ Hf) as (Hrep & _ & Hg & _). pose proof (found_lt _ _ _ _ _ _ _ _ _ _ Hf) as Hj. rewrite (use_raw ql id n Hg (fo_raw _ _ _ _ _ _ _ _ _ _ Hf)). cbn [mbind option_bind].
  assert (Hv : Forall valid_entry es) by apply (nr_ok _ _ Hrep). assert (Hm : zlen es <= MAX_ELEMENTS) by apply (nr_ok _ _ Hrep).
  destruct (split_found ql ca es cb a id n b j e after Hf He) as (n1 & sp & -> & Hsp & Hco1 & Hfl1 & Hne & Hvals). cbn [mbind option_bind].
  set (q1 := with_nodes ql (a ++ (id, n1) :: b)) in *. set (keep := split_keep after j es) in *. set (rest := split_rest after j es) in *. pose proof (fo_len _ _ _ _ _ _ _ _ _ _ Hf) as Hlen.
  assert (Hrl : zlen rest < MAX_ELEMENTS). { rewrite length_vals in Hj by done. unfold rest, split_rest, zlen in *. destruct after; rewrite ?length_take, ?length_drop; lia. }
  destruct (grow_split sp rest s after Hsp Hs Hsl Hrl) as (sp' & -> & (R' & C' & Z' & F' & D')). cbn [mbind option_bind].
  assert (Hv1 : vals (Packed (if after then lp_encode s :: rest else rest ++ [lp_encode s])) = if after then s :: vals (Packed rest) else vals (Packed rest) ++ [s]).
  { destruct after; [change (lp_encode s :: rest) with ([lp_encode s] ++ rest)|]; rewrite vals_app, vals_one by done; done. }
  destruct (insert_beside q1 _ ca (Packed keep) cb a id n1 b after sp' _ Hco1 eq_refl Hlen Hfl1 R' C') as (l2 & -> & Hs2 & Hco2 & Hu2); [rewrite Hv1; destruct after; [done|]; intros E; by apply app_eq_nil in E as [_ ?]|done..|]. cbn [mbind option_bind].
  set (q2 := grown q1 l2) in *.
  assert (Hids : exists ia ib, l2.*1 = ia ++ id :: ib).
  { rewrite (lsim_ids _ _ Hs2). destruct after; cbn [lside rside]; rewrite !fmap_app; cbn; [exists (a.*1), (ql_fresh q1 :: b.*1)|exists (a.*1 ++ [ql_fresh q1]), (b.*1)]; by rewrite <- app_assoc. }
  destruct Hids as (ia & ib & Hids). set (cs2 := lside after ca (Packed keep) ++ Packed (if after then lp_encode s :: rest else rest ++ [lp_encode s]) :: rside after (Packed keep) cb) in *.
  assert (Hfl2 : flat cs2 = flat ca ++ vput after j (vals (Packed es)) s ++ flat cb).
  { unfold cs2. rewrite flat_sides, Hv1. f_equal. f_equal. unfold vput. change (s :: drop (place after j) (vals (Packed es))) with ([s] ++ drop (place after j) (vals (Packed es))). rewrite <- Hvals. destruct after; [done|by rewrite <- app_assoc]. }
  assert (Hk : ql_count ql - zlen (vals (Packed rest)) + zlen (vals (Packed (if after then lp_encode s :: rest else rest ++ [lp_encode s]))) = ql_count ql + 1).
  { rewrite Hv1. destruct after; rewrite ?zlen_app, ?zlen_cons, ?zlen_nil; lia. }
  rewrite Hk in Hco2.
  destruct (merge_nodes_ok junk usable Husable lzf_base lzf_junk Hbase Hlzf (ql_count ql + 1) (flat ca ++ vput after j (vals (Packed es)) s ++ flat cb) q2 id ia ib) as (q3 & t & ids & -> & ((cs3 & Hco3 & Hfl3) & Hu3 & _) & Hc3 & _).
  { split; [by exists cs2|]. split; [exact Hu2|exact Hids]. }
  cbn [mbind option_bind]. rewrite Hc3. exists (with_count q3 (ql_count ql + 1)), cs3. split; [done|]. split; [by split|done].
Qed.

(** ** Insertion *)

Lemma quicklistInsert_ok ql ca c cb a id n b j e s after : found ql ca c cb a id n b j e -> elem_ok s ->
  result (_quicklistInsert junk usable lzf_base lzf_junk packed_threshold ql e s after) (flat ca ++ vput after j (vals c) s ++ flat cb).
Proof.
  intros Hf Hs. pose proof (found_lt _ _ _ _ _ _ _ _ _ _ Hf) as Hj. destruct (found_rep _ _ _ _ _ _ _ _ _ _ Hf) as (Hrep & Hcnt & Hg & _). pose proof (wf_fill _ (co_wf _ _ (fo_core _ _ _ _ _ _ _ _ _ _ Hf))) as [Hfill _].
  unfold _quicklistInsert. rewrite (fo_node _ _ _ _ _ _ _ _ _ _ Hf). destruct (large_spec packed_threshold Hthr (zlen s) (ql_fill ql) Hfill) as (large & -> & Hlarge). cbn [mbind option_bind]. rewrite Hg. cbn [mbind option_bind].
  destruct (allow_insert_spec packed_threshold Hthr (Some n) (ql_fill ql) (zlen s) Hfill) as (allow & -> & Hallow). cbn [mbind option_bind]. rewrite Hcnt.
  rewrite (at_tail_eq _ c j after Hj (fo_offset _ _ _ _ _ _ _ _ _ _ Hf)), (at_head_eq _ c j after Hj (fo_offset _ _ _ _ _ _ _ _ _ _ Hf)). set (at_e := at_end after j (length (vals c))) in *.
  destruct (allow_insert_spec packed_threshold Hthr (if after && at_e then node_of ql (q_next ql id) else None) (ql_fill ql) (zlen s) Hfill) as (an & -> & Han). cbn [mbind option_bind].
  destruct (allow_insert_spec packed_threshold Hthr (if negb after && at_e then node_of ql (q_prev ql id) else None) (ql_fill ql) (zlen s) Hfill) as (ap & -> & Hap). cbn [mbind option_bind].
  assert (Hend : after && at_e || negb after && at_e = at_e) by (by destruct after, at_e). rewrite (nr_plain _ _ Hrep).
  destruct large.
  { rewrite <- orb_assoc, Hend. destruct (is_plain c || at_e) eqn:E; [by apply (insert_large_beside ql ca c cb a id n b j e)|]. apply orb_false_iff in E as [Ep Ee]. destruct c as [v|es]; [done|].
    rewrite (use_raw ql id n Hg (fo_raw _ _ _ _ _ _ _ _ _ _ Hf)). cbn [mbind option_bind]. by apply (insert_large_split ql ca es cb a id n b). }
  specialize (Hlarge eq_refl). destruct Hs as [Hs Hs2]. destruct allow; cbn [negb].
  { destruct (Hallow eq_refl) as (n' & [= <-] & Hpl & Hroom). destruct (packed_of _ _ Hrep Hpl) as [es ->]. by apply (insert_grow ql ca es cb a id n b). }
  destruct after, at_e eqn:Ee; cbn [andb orb negb] in *.
  - destruct an; [|by apply (insert_new ql ca c cb a id n b j e)]. destruct (Han eq_refl) as (m & Hm & Hpl & Hroom). by apply (insert_next ql ca c cb a id n b j e s m).
  - destruct c as [v|es]; [cbn in Hj; assert (j = 0%nat) as -> by lia; done|]. by apply (insert_split ql ca es cb a id n b j e s true).
  - destruct ap; [|by apply (insert_new ql ca c cb a id n b j e)]. destruct (Hap eq_refl) as (m & Hm & Hpl & Hroom). by apply (insert_prev ql ca c cb a id n b j e s m).
  - destruct c as [v|es]; [cbn in Hj; assert (j = 0%nat) as -> by lia; done|]. by apply (insert_split ql ca es cb a id n b j e s false).
Qed.

(** Before or after the element at an index. *)
Lemma insert_at_ok ql cs idx s after : inv ql cs -> elem_ok s -> INT64_MIN < idx ->
  let i := norm_index idx (zlen (flat cs)) in
  exists ql' r cs', quicklist_insert_at junk usable lzf_base lzf_junk packed_threshold ql idx s after = Some (ql', r) /\ inv ql' cs' /\
    if bool_decide (0 <= i < zlen (flat cs)) then r = true /\ flat cs' = vput after (Z.to_nat i) (flat cs) s else r = false /\ flat cs' = flat cs.
Proof.
  intros Hinv Hs Hmin i. unfold quicklist_insert_at. destruct (bool_decide_reflect (0 <= i < zlen (flat cs))) as [Hi|Hout].
  - destruct (entry_found junk lzf_base lzf_junk ql cs idx Hinv Hmin Hi) as (ql1 & iter & e & a & id & n & b & ca & c & cb & j & -> & -> & Hf & Hn & _). cbn [mbind option_bind]. fold i in Hn.
    destruct (quicklistInsert_ok ql1 ca c cb a id n b j e s after Hf Hs) as (ql' & cs' & -> & Hinv' & Hfl). cbn [mbind option_bind]. exists ql', true, cs'. split; [done|]. split; [done|]. split; [done|]. rewrite Hfl.
    pose proof (found_lt _ _ _ _ _ _ _ _ _ _ Hf) as Hj. rewrite flat_app, flat_cons. unfold vput. replace (place after (Z.to_nat i)) with (length (flat ca) + place after j)%nat by (unfold place, zlen in *; destruct after; lia).
    rewrite take_app_add, drop_app_add. assert (Hp : (place after j <= length (vals c))%nat) by (unfold place; destruct after; lia). rewrite take_app_le, drop_app_le by done. by rewrite <- !app_assoc.
  - unfold quicklistInitIteratorEntryAtIdx. pose proof (init_at_out ql cs false idx (proj1 Hinv) Hmin Hout) as Ho. destruct (quicklistInitIteratorAtIdx ql false idx) as [iter ok]. cbn [snd] in Ho. subst ok. cbn [negb mbind option_bind].
    by exists ql, false, cs.
Qed.
End Ins.
