(* ===== verification/QuicklistIter.v ===== *)
(** * Quicklists: iterators

    An iterator stands between two elements.  A step returns the next one in its direction,
    compresses the node it leaves and decompresses the node it enters. *)

From stdpp Require Import base list numbers option tactics.
From S2P Require Import Prelude Util ListpackEnc Listpack ListpackNav ListpackUpd Lzf Quicklist QuicklistOps QuicklistSpec QuicklistComp QuicklistEnds QuicklistMerge QuicklistIns.

(** The offset at which an iterator seeks in a node, before its element [j] or, backwards,
    after it.  An offset of an iterator that may delete counts from the end it came from. *)
Definition exact (clean fwd : bool) (c : content) (i : nat) (o : Z) : Prop :=
  offset_of o c i /\ (clean = true -> o = if fwd then Z.of_nat i else Z.of_nat i - zlen (vals c)).

Definition off_ok (clean fwd : bool) (c : content) (j : nat) (o : Z) : Prop :=
  if fwd then ((j < length (vals c))%nat /\ exact clean fwd c j o) \/ (j = length (vals c) /\ o = zlen (vals c) /\ is_plain c = false)
  else (exists i, j = S i /\ (i < length (vals c))%nat /\ exact clean fwd c i o) \/ (j = 0%nat /\ o = -1 - zlen (vals c) /\ is_plain c = false).

(** The next element lies at [p], or before [p] when going backwards. *)
Inductive at_pos (clean : bool) (ql : quicklist) (iter : quicklistIter) (l : list (list Z)) (p : nat) : Prop :=
  | at_done cs : qi_current iter = None -> inv ql cs -> flat cs = l -> p = (if qi_forward iter then length l else 0%nat) -> at_pos clean ql iter l p
  | at_seek ca c cb a id n b j : core ql (ca ++ c :: cb) -> ql_nodes ql = a ++ (id, n) :: b -> length a = length ca -> only_flag (Some id) (ql_nodes ql) -> flat (ca ++ c :: cb) = l ->
      qi_current iter = Some id -> qi_zi iter = None -> off_ok clean (qi_forward iter) c j (qi_offset iter) -> p = (length (flat ca) + j)%nat -> at_pos clean ql iter l p
  | at_elem ca c cb a id n b i e : found ql ca c cb a id n b i e -> flat (ca ++ c :: cb) = l -> qi_current iter = Some id -> qi_zi iter = Some (zpos c i) ->
      exact clean (qi_forward iter) c i (qi_offset iter) -> p = (length (flat ca) + if qi_forward iter then S i else i)%nat -> at_pos clean ql iter l p.

(** The entry of the element [k], just returned. *)
Definition on_elem (clean : bool) (ql : quicklist) (iter : quicklistIter) (e : quicklistEntry) (l : list (list Z)) (k : nat) : Prop :=
  exists ca c cb a id n b i, found ql ca c cb a id n b i e /\ flat (ca ++ c :: cb) = l /\ qi_current iter = Some id /\ qi_zi iter = Some (zpos c i) /\
    exact clean (qi_forward iter) c i (qi_offset iter) /\ k = (length (flat ca) + i)%nat /\ (forall le, qe_value e = Some le -> int_ok le).

Lemma on_elem_pos clean ql iter e l k : on_elem clean ql iter e l k -> at_pos clean ql iter l (if qi_forward iter then S k else k).
Proof. intros (ca & c & cb & a & id & n & b & i & Hf & Hl & Hc & Hz & Hx & -> & _). apply (at_elem clean ql iter l _ ca c cb a id n b i e); try done. destruct (qi_forward iter); lia. Qed.

Lemma found_lookup ql ca c cb a id n b i e : found ql ca c cb a id n b i e -> exists le, qe_value e = Some le /\ flat (ca ++ c :: cb) !! (length (flat ca) + i)%nat = Some (arg_text le).
Proof.
  intros Hf. destruct (fo_value _ _ _ _ _ _ _ _ _ _ Hf) as (le & He & Hv). exists le. split; [done|]. rewrite flat_app, flat_cons, lookup_app_r by lia. replace (length (flat ca) + i - length (flat ca))%nat with i by lia.
  rewrite lookup_app_l by (by eapply lookup_lt_Some). done.
Qed.

Section Iter.
Context (junk : nat -> Z) (usable : Z -> Z) (Husable : forall n, 0 <= n -> n <= usable n).
Context (lzf_base : Z) (lzf_junk : Z -> Z) (Hbase : 8192 <= lzf_base /\ lzf_base + 2 ^ 32 <= 2 ^ 64) (Hlzf : forall i, 0 <= lzf_junk i < 2 ^ 64).

Abbreviation next := (quicklistNext junk lzf_base lzf_junk).

(** The iterator that enters the neighbour of a node. *)
Definition leave (ql : quicklist) (id : nat) (fwd : bool) : quicklistIter :=
  {| qi_current := if fwd then q_next ql id else q_prev ql id; qi_zi := None; qi_offset := if fwd then 0 else -1; qi_forward := fwd |}.

(** An iterator that enters the node after, or before, a place between two nodes. *)
Lemma at_between clean ql (fwd : bool) ca cb a b : inv ql (ca ++ cb) -> ql_nodes ql = a ++ b -> length a = length ca ->
  at_pos clean ql {| qi_current := if fwd then head (b.*1) else head ((reverse a).*1); qi_zi := None; qi_offset := if fwd then 0 else -1; qi_forward := fwd |} (flat (ca ++ cb)) (length (flat ca)).
Proof.
  intros Hinv Hl Hlen. pose proof Hinv as [Hco Hu]. pose proof (co_holds _ _ Hco) as Hh. rewrite Hl in Hh. pose proof (list.Forall2_length _ _ _ Hh) as Hll. rewrite !length_app in Hll.
  pose proof (co_nonempty _ _ Hco) as Hne. destruct fwd.
  - destruct b as [|[id' n'] b]; cbn [fmap list_fmap head].
    + destruct cb; [|cbn in Hll; lia]. apply (at_done _ _ _ _ _ (ca ++ [])); [done|done|done|]. cbn [qi_forward]. by rewrite app_nil_r.
    + destruct cb as [|c' cb]; [cbn in Hll; lia|]. apply list.Forall_app in Hne as [_ Hne]. apply list.Forall_cons in Hne as [Hne _].
      apply (at_seek _ _ _ _ _ ca c' cb a id' n' b 0); cbn [qi_current qi_zi qi_offset qi_forward]; try done.
      * by apply (inv_only ql (ca ++ c' :: cb)).
      * left. split; [destruct (vals c'); [done|cbn; lia]|]. split; [by left|done].
  - destruct a as [|[id' n'] a _] using rev_ind.
    + destruct ca; [|done]. by apply (at_done _ _ _ _ _ ([] ++ cb)).
    + rewrite length_app in Hlen. cbn [length] in Hlen. destruct ca as [|c' ca _] using rev_ind; [cbn in Hlen; lia|]. rewrite length_app in Hlen. cbn [length] in Hlen.
      rewrite <- app_assoc in *. cbn [app] in *. apply list.Forall_app in Hne as [_ Hne]. apply list.Forall_cons in Hne as [Hne _]. rewrite reverse_snoc. cbn [fmap list_fmap head fst].
      apply (at_seek _ _ _ _ _ ca c' cb a id' n' b (length (vals c'))); cbn [qi_current qi_zi qi_offset qi_forward]; try done.
      * lia.
      * by apply (inv_only ql (ca ++ c' :: cb)).
      * left. destruct (length (vals c')) as [|i] eqn:Ei; [by destruct (vals c')|]. exists i. split; [done|]. split; [lia|]. unfold exact, offset_of, zlen. rewrite Ei. split; [right; lia|lia].
      * rewrite flat_app, flat_cons, length_app, app_nil_r. lia.
Qed.

Lemma neighbours ql a id n b : wf ql -> ql_nodes ql = a ++ (id, n) :: b -> q_next ql id = head (b.*1) /\ q_prev ql id = head ((reverse a).*1).
Proof.
  intros Hwf Hl. destruct (node_at_split ql a id n b Hwf Hl) as (Hi & _ & _). destruct (fst_not_in _ _ _ _ (wf_ids _ Hwf) Hi) as [Hna Hnb]. rewrite Hl in Hna, Hnb. rewrite take_app_length in Hna.
  replace (drop (S (length a)) (a ++ (id, n) :: b)) with b in Hnb by (by rewrite cons_middle, app_assoc, drop_app_length' by (rewrite length_app; cbn; lia)).
  unfold q_next, q_prev. rewrite Hl. split; [by apply node_next_at|by apply node_prev_at].
Qed.

Lemma at_leave clean ql fwd ca c cb a id n b : inv ql (ca ++ c :: cb) -> ql_nodes ql = a ++ (id, n) :: b -> length a = length ca ->
  at_pos clean ql (leave ql id fwd) (flat (ca ++ c :: cb)) (length (flat ca) + if fwd then length (vals c) else 0%nat).
Proof.
  intros Hinv Hl Hlen. destruct (neighbours ql a id n b (co_wf _ _ (proj1 Hinv)) Hl) as [Hn Hp]. unfold leave. destruct fwd; [rewrite Hn|rewrite Hp, Nat.add_0_r].
  - rewrite cons_middle, app_assoc in Hinv. rewrite cons_middle, app_assoc in Hl. pose proof (at_between clean ql true (ca ++ [c]) cb (a ++ [(id, n)]) b Hinv Hl ltac:(rewrite !length_app; cbn; lia)) as H.
    rewrite <- app_assoc in H. cbn [app] in H. by rewrite (flat_app ca [c]), flat_cons, app_nil_r, length_app in H.
  - apply (at_between clean ql false ca (c :: cb) a ((id, n) :: b) Hinv Hl Hlen).
Qed.

(** The index of the element a step returns. *)
Definition ahead (fwd : bool) (p : nat) (l : list (list Z)) : option nat := if fwd then if decide (p < length l)%nat then Some p else None else match p with O => None | S k => Some k end.

Definition stepped (clean : bool) (l : list (list Z)) (p : nat) (fwd : bool) (r : option (quicklist * quicklistIter * option quicklistEntry)) : Prop :=
  exists ql iter e, r = Some (ql, iter, e) /\ qi_forward iter = fwd /\
    match ahead fwd p l with None => e = None /\ at_pos clean ql iter l p | Some k => exists e', e = Some e' /\ on_elem clean ql iter e' l k end.

Lemma ahead_in fwd ca c cb i : (i < length (vals c))%nat -> ahead fwd (length (flat ca) + if fwd then i else S i) (flat (ca ++ c :: cb)) = Some (length (flat ca) + i)%nat.
Proof. intros Hi. unfold ahead. destruct fwd; [|by rewrite Nat.add_succ_r]. rewrite decide_True; [done|]. rewrite flat_app, flat_cons, !length_app. lia. Qed.

Lemma exact_in clean fwd c j o i : off_ok clean fwd c j o -> j = (if fwd then i else S i) -> (i < length (vals c))%nat -> exact clean fwd c i o.
Proof. unfold off_ok. destruct fwd; intros [H|H] -> Hi; [by destruct H|lia| |lia]. by destruct H as (k & [= ->] & _ & H). Qed.

Lemma seek_stepped f clean ql iter ca c cb a id n b i : core ql (ca ++ c :: cb) -> ql_nodes ql = a ++ (id, n) :: b -> length a = length ca -> only_flag (Some id) (ql_nodes ql) ->
  qi_current iter = Some id -> qi_zi iter = None -> exact clean (qi_forward iter) c i (qi_offset iter) -> (i < length (vals c))%nat ->
  stepped clean (flat (ca ++ c :: cb)) (length (flat ca) + if qi_forward iter then i else S i) (qi_forward iter) (next (S f) ql iter).
Proof.
  intros Hco Hl Hlen Hfl Hcur Hzi Hx Hi. destruct (next_seek junk lzf_base lzf_junk f ql iter ca c cb a id n b i Hco Hl Hlen Hfl Hcur Hzi (proj1 Hx) Hi) as (ql' & n' & e & -> & Hf & Hint).
  eexists ql', _, (Some e). split; [done|]. split; [done|]. rewrite ahead_in by done. exists e. split; [done|]. by exists ca, c, cb, a, id, n', b, i.
Qed.

(** Entering a node, or the end. *)
Lemma enter_stepped f clean ql iter l p : at_pos clean ql iter l p -> qi_zi iter = None -> qi_offset iter = (if qi_forward iter then 0 else -1) -> stepped clean l p (qi_forward iter) (next (S f) ql iter).
Proof.
  intros Hat Hz Ho. destruct Hat as [cs Hcur Hinv Hl Hp|ca c cb a id n b j Hco Hl Hlen Hfl <- Hcur Hzi Hoff ->|ca c cb a id n b i e Hf _ _ Hzi]; [| |congruence].
  - cbn [quicklistNext]. rewrite Hcur. exists ql, iter, None. split; [done|]. split; [done|]. assert (ahead (qi_forward iter) p l = None) as -> by (unfold ahead; subst p; destruct (qi_forward iter); [by rewrite decide_False by lia|done]).
    split; [done|]. by apply (at_done _ _ _ _ _ cs).
  - pose proof (co_nonempty _ _ Hco) as Hne. apply list.Forall_app in Hne as [_ Hne]. apply list.Forall_cons in Hne as [Hne _].
    assert (Hpos : 0 < zlen (vals c)) by (destruct (vals c) as [|v vs]; [done|]; rewrite zlen_cons; pose proof (zlen_nonneg vs); lia).
    assert (exists i, j = (if qi_forward iter then i else S i) /\ (i < length (vals c))%nat) as (i & -> & Hi).
    { rewrite Ho in Hoff. unfold off_ok in Hoff. destruct (qi_forward iter); destruct Hoff as [H|(_ & H & _)]; [by exists j; destruct H|lia| |lia]. destruct H as (i & -> & Hi & _). by exists i. }
    apply (seek_stepped f clean ql iter ca c cb a id n b i Hco Hl Hlen Hfl Hcur Hzi); [|done]. by eapply exact_in.
Qed.

(** Leaving a node whose elements were all seen. *)
Lemma leave_stepped f clean ql (fwd : bool) ca c cb a id n b : core ql (ca ++ c :: cb) -> ql_nodes ql = a ++ (id, n) :: b -> length a = length ca -> only_flag (Some id) (ql_nodes ql) ->
  stepped clean (flat (ca ++ c :: cb)) (length (flat ca) + if fwd then length (vals c) else 0%nat) fwd
    (ql ← quicklistCompress junk lzf_base lzf_junk ql id; next (S f) ql (leave ql id fwd)).
Proof.
  intros Hco Hl Hlen Hfl. destruct (release_ok junk lzf_base lzf_junk Hbase Hlzf ql _ a id n b Hco Hl Hfl) as (l' & -> & Hinv & Hs). cbn [mbind option_bind].
  rewrite Hl in Hs. apply lsim_app_inv in Hs as (a' & [id' n'] & b' & -> & Ha & Hx & Hb). pose proof (ns_id _ _ Hx) as Hid. cbn in Hid. subst id'.
  assert (Hlen' : length a' = length ca) by (by rewrite (lsim_length _ _ Ha)). pose proof (at_leave clean _ fwd ca c cb a' id n' b' Hinv eq_refl Hlen') as Hat.
  apply (enter_stepped f clean _ _ _ _ Hat); [done|]. by destruct fwd.
Qed.

Lemma seek_exhausted es o fwd : Forall valid_entry es -> o = (if fwd : bool then zlen es else -1 - zlen es) -> seek_index es o = None.
Proof.
  intros _ ->. unfold seek_index. pose proof (zlen_nonneg es). destruct fwd.
  - rewrite (proj2 (Z.ltb_ge (zlen es) 0)), (proj2 (Z.ltb_ge (zlen es) (zlen es))) by lia. by rewrite andb_false_r.
  - rewrite (proj2 (Z.ltb_lt _ 0)), (proj2 (Z.leb_gt 0 _)) by lia. done.
Qed.

Lemma iter_next_ok clean ql iter l p : at_pos clean ql iter l p -> stepped clean l p (qi_forward iter) (quicklist_next junk lzf_base lzf_junk ql iter).
Proof.
  intros Hat. unfold quicklist_next. destruct Hat as [cs Hcur Hinv Hl Hp|ca c cb a id n b j Hco Hl Hlen Hfl <- Hcur Hzi Hoff ->|ca c cb a id n b i e Hf <- Hcur Hzi Hx ->].
  - cbn [quicklistNext]. rewrite Hcur. exists ql, iter, None. split; [done|]. split; [done|]. assert (ahead (qi_forward iter) p l = None) as -> by (unfold ahead; subst p; destruct (qi_forward iter); [by rewrite decide_False by lia|done]).
    split; [done|]. by apply (at_done _ _ _ _ _ cs).
  - assert (Hcase : (exists i, j = (if qi_forward iter then i else S i) /\ (i < length (vals c))%nat) \/
      (j = (if qi_forward iter then length (vals c) else 0%nat) /\ qi_offset iter = (if qi_forward iter then zlen (vals c) else -1 - zlen (vals c)) /\ is_plain c = false)).
    { unfold off_ok in Hoff. destruct (qi_forward iter); destruct Hoff as [H|H]; [left; by exists j; destruct H|by right| |by right]. destruct H as (i & -> & Hi & _). left. by exists i. }
    destruct Hcase as [(i & -> & Hi)|(-> & Ho & Hpl)]; [apply (seek_stepped _ clean ql iter ca c cb a id n b i Hco Hl Hlen Hfl Hcur Hzi); [by eapply exact_in|done]|].
    destruct c as [v|es]; [done|]. pose proof (co_holds _ _ Hco) as Hh. rewrite Hl in Hh. destruct (holds_split _ _ _ _ _ _ Hh Hlen) as (_ & [Hrep Hcnt] & _). cbn [snd] in *.
    assert (Hv : Forall valid_entry es) by apply (nr_ok _ _ Hrep). assert (Hm : zlen es <= MAX_ELEMENTS) by apply (nr_ok _ _ Hrep). unfold MAX_ELEMENTS in Hm. rewrite zlen_vals in Ho by done.
    set (f := length (ql_nodes ql)). cbn [quicklistNext]. fold (next f). rewrite Hcur, Hzi. destruct (node_at_split ql a id n b (co_wf _ _ Hco) Hl) as (_ & -> & _). cbn [mbind option_bind].
    destruct (use_ok ql ca _ cb a id n b Hco Hl Hlen) as (n' & -> & Hz & Hrep' & Hc' & Hco' & Hsame). cbn [mbind option_bind].
    destruct (node_at_split _ a id n' b (co_wf _ _ Hco') eq_refl) as (_ & Hg & _). rewrite Hg. cbn [mbind option_bind]. rewrite (nr_plain _ _ Hrep). cbn [is_plain].
    pose proof (nr_raw _ _ Hrep') as Hr. rewrite Hz in Hr. assert (HINT : INT64_MIN = - 2 ^ 63) by done. pose proof (zlen_nonneg es).
    rewrite (raw_seek _ _ (qi_offset iter) Hr) by (destruct (qi_forward iter); lia). rewrite (seek_exhausted es _ (qi_forward iter) Hv Ho). cbn [fmap option_fmap option_map mbind option_bind].
    apply (leave_stepped f clean _ (qi_forward iter) ca _ cb a id n' b Hco' eq_refl Hlen). rewrite Hl in Hfl. cbn [with_nodes ql_nodes]. unfold only_flag in *. apply list.Forall_app in Hfl as [Hfa Hfb]. apply list.Forall_cons in Hfb as [_ Hfb]. apply list.Forall_app. by split; [|constructor].
  - pose proof (found_lt _ _ _ _ _ _ _ _ _ _ Hf) as Hi. destruct (found_rep _ _ _ _ _ _ _ _ _ _ Hf) as (Hrep & Hcnt & Hg & _). pose proof (fo_core _ _ _ _ _ _ _ _ _ _ Hf) as Hco. pose proof (fo_nodes _ _ _ _ _ _ _ _ _ _ Hf) as Hl.
    pose proof (fo_len _ _ _ _ _ _ _ _ _ _ Hf) as Hlen. pose proof (fo_flag _ _ _ _ _ _ _ _ _ _ Hf) as Hfl. pose proof (fo_raw _ _ _ _ _ _ _ _ _ _ Hf) as Hz.
    set (f := length (ql_nodes ql)). cbn [quicklistNext]. fold (next f). rewrite Hcur, Hzi, Hg. cbn [mbind option_bind]. rewrite (nr_plain _ _ Hrep). destruct c as [v|es]; cbn [is_plain zpos mbind option_bind].
    + assert (i = 0%nat) as -> by (cbn in Hi; lia). apply (leave_stepped f clean ql (qi_forward iter) ca (Plain v) cb a id n b Hco Hl Hlen Hfl).
    + pose proof (nr_raw _ _ Hrep) as Hr. rewrite Hz in Hr. assert (Hv : Forall valid_entry es) by apply (nr_ok _ _ Hrep). rewrite length_vals in Hi by done.
      assert (Hgo : forall i' o', (i' < length es)%nat -> i' = (if qi_forward iter then S i else (i - 1)%nat) -> (if qi_forward iter then i' = S i else i = S i') -> exact clean (qi_forward iter) (Packed es) i' o' ->
        stepped clean (flat (ca ++ Packed es :: cb)) (length (flat ca) + if qi_forward iter then S i else i) (qi_forward iter)
          (node ← get_node ql id; v ← read_value (qn_entry node) (pos es i');
           Some (ql, {| qi_current := Some id; qi_zi := Some (pos es i'); qi_offset := o'; qi_forward := qi_forward iter |}, Some {| qe_node := Some id; qe_zi := Some (pos es i'); qe_offset := o'; qe_value := Some v |}))).
      { intros i' o' Hi' _ Hrel Hx'. rewrite Hg. cbn [mbind option_bind]. destruct (lookup_lt_is_Some_2 (vals (Packed es)) i') as [v Hvj]; [by rewrite length_vals|]. destruct (raw_read _ _ _ _ Hr Hvj) as (le & Hle & Ht). rewrite Hle. cbn [mbind option_bind].
        eexists ql, _, _. split; [done|]. split; [done|]. replace (length (flat ca) + (if qi_forward iter then S i else i))%nat with (length (flat ca) + (if qi_forward iter then i' else S i'))%nat by (destruct (qi_forward iter); lia).
        rewrite ahead_in by (by rewrite length_vals). eexists. split; [done|]. exists ca, (Packed es), cb, a, id, n, b, i'. split; [|do 5 (split; [done|]); intros le' [= <-]; by eapply read_int_ok]. split; [done|done|done|done|done|done|done|apply Hx'|]. eexists. split; [done|]. by rewrite Ht. }
      destruct Hx as [Ho Hex]. unfold exact, offset_of in *. rewrite zlen_vals in * by done. destruct (qi_forward iter) eqn:Efw.
      * rewrite (raw_next _ _ _ Hr Hi). unfold ptr. case_decide as Hlt; cbn [mbind option_bind].
        -- apply (Hgo (S i) (qi_offset iter + 1)); [lia|done|done|]. split; [lia|]. intros Hcl. specialize (Hex Hcl). lia.
        -- replace (S i) with (length (vals (Packed es))) by (rewrite length_vals by done; lia). apply (leave_stepped f clean ql true ca (Packed es) cb a id n b Hco Hl Hlen Hfl).
      * destruct Hr as [num Hr']. rewrite (nav_prev _ _ _ Hr') by lia. cbn [mbind option_bind]. destruct i as [|k].
        -- apply (leave_stepped f clean ql false ca (Packed es) cb a id n b Hco Hl Hlen Hfl).
        -- apply (Hgo k (qi_offset iter - 1)); [lia|lia|done|]. split; [lia|]. intros Hcl. specialize (Hex Hcl). lia.
Qed.

(** ** Start, end and deletion *)

Lemma init_none ql fd idx : (quicklistInitIteratorAtIdx ql fd idx).2 = false -> qi_current (quicklistInitIteratorAtIdx ql fd idx).1 = None /\ qi_forward (quicklistInitIteratorAtIdx ql fd idx).1 = fd.
Proof. unfold quicklistInitIteratorAtIdx. destruct (idx =? INT64_MIN); [done|]. cbv zeta. destruct (_ >=? ql_count ql); [done|]. by destruct (seek_node _ _ _) as [[[id n] acc]|]. Qed.

Lemma init_pos (clean : bool) ql cs fd idx : inv ql cs -> INT64_MIN < idx -> (clean = true -> if fd : bool then 0 <= idx else idx < 0) ->
  let iter := (quicklistInitIteratorAtIdx ql fd idx).1 in let k := norm_index idx (zlen (flat cs)) in
  qi_forward iter = fd /\ at_pos clean ql iter (flat cs) (if decide (0 <= k < zlen (flat cs)) then (Z.to_nat k + if fd then 0 else 1)%nat else if fd then length (flat cs) else 0%nat).
Proof.
  intros Hinv Hmin Hcl iter k. case_decide as Hk.
  - destruct (init_at_ok ql cs fd idx (proj1 Hinv) Hmin Hk) as (a & id & n & b & ca & c & cb & j & o & Hl & -> & Hlen & Hj & Hnorm & Ho & Ho1 & Ho2 & Hi). fold k in Hnorm.
    assert (Hit : iter = {| qi_current := Some id; qi_zi := None; qi_offset := o; qi_forward := fd |}) by (unfold iter; by rewrite Hi). rewrite Hit. split; [done|].
    apply (at_seek _ _ _ _ _ ca c cb a id n b (j + if fd then 0 else 1)%nat); try done; [apply Hinv|by apply (inv_only ql (ca ++ c :: cb))| |rewrite Hnorm; unfold zlen; destruct fd; lia].
    cbn [qi_forward qi_offset]. unfold off_ok, exact. destruct fd.
    + left. rewrite Nat.add_0_r. split; [done|]. split; [done|]. intros E. by apply Ho1, Hcl.
    + left. exists j. split; [lia|]. split; [done|]. split; [done|]. intros E. by apply Ho2, Hcl.
  - destruct (init_none ql fd idx (init_at_out ql cs fd idx (proj1 Hinv) Hmin Hk)) as [Hc Hf]. split; [done|]. apply (at_done _ _ _ _ _ cs); [done|done|done|]. unfold iter. rewrite Hf. by destruct fd.
Qed.

Lemma reset_pos clean ql iter l p : at_pos clean ql iter l p -> exists ql' cs, quicklistResetIterator junk lzf_base lzf_junk ql iter = Some ql' /\ inv ql' cs /\ flat cs = l.
Proof.
  unfold quicklistResetIterator. intros [cs -> Hinv Hl _|ca c cb a id n b j Hco Hl Hlen Hfl <- -> _ _ _|ca c cb a id n b i e Hf <- -> _ _ _]; [by exists ql, cs| |].
  - destruct (release_ok junk lzf_base lzf_junk Hbase Hlzf ql _ a id n b Hco Hl Hfl) as (l' & -> & Hinv & _). by eexists _, _.
  - destruct (release_ok junk lzf_base lzf_junk Hbase Hlzf ql _ a id n b (fo_core _ _ _ _ _ _ _ _ _ _ Hf) (fo_nodes _ _ _ _ _ _ _ _ _ _ Hf) (fo_flag _ _ _ _ _ _ _ _ _ _ Hf)) as (l' & -> & Hinv & _). by eexists _, _.
Qed.

Lemma delete_mid {A} (a b c : list A) i : (i < length b)%nat -> delete (length a + i)%nat (a ++ b ++ c) = a ++ delete i b ++ c.
Proof.
  intros Hi. rewrite !delete_take_drop, take_app_add, <- Nat.add_succ_r, drop_app_add, take_app_le, drop_app_le by lia. by rewrite <- !app_assoc.
Qed.

Lemma delete_pos ql iter e l k : on_elem true ql iter e l k ->
  exists ql' iter', quicklistDelEntry junk usable lzf_base lzf_junk ql iter e = Some (ql', iter') /\ qi_forward iter' = qi_forward iter /\ at_pos true ql' iter' (delete k l) k.
Proof.
  intros (ca & c & cb & a & id & n & b & i & Hf & <- & Hcur & Hzi & [Ho Hex] & -> & _). specialize (Hex eq_refl). pose proof (found_lt _ _ _ _ _ _ _ _ _ _ Hf) as Hi. destruct (found_rep _ _ _ _ _ _ _ _ _ _ Hf) as (Hrep & Hcnt & Hg & _).
  pose proof (fo_core _ _ _ _ _ _ _ _ _ _ Hf) as Hco. pose proof (fo_nodes _ _ _ _ _ _ _ _ _ _ Hf) as Hl. pose proof (fo_len _ _ _ _ _ _ _ _ _ _ Hf) as Hlen. pose proof (fo_flag _ _ _ _ _ _ _ _ _ _ Hf) as Hfl. pose proof (co_wf _ _ Hco) as Hwf.
  destruct (only_rest id n a b (Some id)) as [Hua Hub]; [rewrite <- Hl; apply Hwf|by rewrite <- Hl|done|]. destruct (neighbours ql a id n b Hwf Hl) as [Hn Hp].
  unfold quicklistDelEntry. rewrite (fo_node _ _ _ _ _ _ _ _ _ _ Hf), (fo_zi _ _ _ _ _ _ _ _ _ _ Hf). cbn [mbind option_bind]. rewrite Hn, Hp.
  assert (Hent : QuicklistEnds.entry_at c i (Some (zpos c i))). { destruct c as [v|es]; cbn; [cbn in Hi; lia|]. rewrite length_vals in Hi by apply (nr_ok _ _ Hrep). done. }
  destruct (del_index_ok junk usable Husable lzf_base lzf_junk Hbase Hlzf ql ca c cb a id n b i (Some (zpos c i)) Hco Hl Hlen (fo_raw _ _ _ _ _ _ _ _ _ _ Hf)) as (ql' & gone & p' & -> & Hd & _); [by apply unflagged_deep, unflagged_app|done|].
  cbn [mbind option_bind]. eexists ql', _. split; [done|]. rewrite flat_app, flat_cons, (delete_mid (flat ca)) by done. destruct gone.
  - destruct Hd as (H1 & Hco' & Hs). split; [done|]. assert (delete i (vals c) = []) as -> by (destruct (vals c) as [|x [|]]; [done| |done]; by destruct i; [|cbn in Hi; lia]). cbn [app].
    apply Forall2_app_inv_l in Hs as (a' & b' & Ha & Hb & Hl'). assert (i = 0%nat) as -> by lia. rewrite Nat.add_0_r, <- flat_app.
    assert (Hinv : inv ql' (ca ++ cb)) by (split; [done|]; rewrite Hl'; apply unflagged_app; split; [by apply (unflagged_sim a)|by apply (unflagged_sim b)]).
    pose proof (at_between true ql' (qi_forward iter) ca cb a' b' Hinv Hl' ltac:(by rewrite (lsim_length _ _ Ha))) as Hat.
    assert (Hrv : (reverse a').*1 = (reverse a).*1) by (by rewrite !fmap_reverse, (lsim_ids _ _ Ha)). rewrite (lsim_ids _ _ Hb), Hrv in Hat. done.
  - destruct Hd as (es & n' & -> & Hco' & Hl' & Hrc & Hz'). split; [done|]. assert (Hv : Forall valid_entry es) by apply (nr_ok _ _ Hrep). rewrite length_vals in Hi by done.
    assert (Hdl : length (delete i es) = (length es - 1)%nat) by (rewrite length_delete by (by apply lookup_lt_is_Some); lia). assert (Hv' : Forall valid_entry (delete i es)) by (by apply Forall_delete).
    apply (at_seek _ _ _ _ _ ca (Packed (delete i es)) cb a id n' b i); cbn [qi_current qi_zi qi_offset qi_forward]; try done.
    + rewrite Hl'. unfold only_flag. apply list.Forall_app. split; [|constructor; [done|]]; (eapply list.Forall_impl; [eassumption|]; cbn; congruence).
    + by rewrite flat_app, flat_cons, vals_delete.
    + rewrite zlen_vals in Hex by done. unfold off_ok, exact, offset_of. rewrite !length_vals, !zlen_vals by done. unfold zlen in *. rewrite Hdl. destruct (qi_forward iter).
      * destruct (decide (i < length es - 1)%nat); [left; split; [done|]; split; [by left|done]|right]. split; [lia|]. split; [lia|done].
      * destruct i as [|i']; [right; split; [done|]; split; [lia|done]|left]. exists i'. split; [done|]. split; [lia|]. split; [right; lia|lia].
Qed.
End Iter.
