(* ===== verification/QuicklistRep.v ===== *)
(** * Quicklists: deletion of a range *)

From stdpp Require Import base list numbers option tactics.
From S2P Require Import Prelude Util ListpackEnc Listpack ListpackNav ListpackUpd Lzf Quicklist QuicklistOps QuicklistSpec QuicklistComp QuicklistEnds QuicklistMerge QuicklistIns.

(** What goes from a node is what is left of it, or less at the end of the range. *)
Lemma del_part_eq o c j extent : (j < length (vals c))%nat -> offset_of o c j -> 0 < extent ->
  (del_part o extent (zlen (vals c))).2 = Z.min extent (zlen (vals c) - Z.of_nat j) /\ ((del_part o extent (zlen (vals c))).1 = true -> j = 0%nat /\ zlen (vals c) <= extent).
Proof.
  intros Hj Ho He. unfold del_part, offset_of, zlen in *. rewrite Z.geb_leb, Z.geb_leb, Z.geb_leb, Z.gtb_ltb.
  destruct (Z.eqb_spec o 0); destruct (Z.leb_spec (Z.of_nat (length (vals c))) extent); destruct (Z.leb_spec 0 o); destruct (Z.leb_spec (Z.of_nat (length (vals c))) (extent + o));
    destruct (Z.ltb_spec o 0); destruct (Z.ltb_spec extent (- o)); cbn [andb fst snd]; (split; [lia|intros E; try done; lia]).
Qed.

Section Del.
Context (junk : nat -> Z) (usable : Z -> Z) (Husable : forall n, 0 <= n -> n <= usable n).
Context (lzf_base : Z) (lzf_junk : Z -> Z) (Hbase : 8192 <= lzf_base /\ lzf_base + 2 ^ 32 <= 2 ^ 64) (Hlzf : forall i, 0 <= lzf_junk i < 2 ^ 64).

(** The whole node. *)
Lemma del_whole ql ca c cb a id n b : inv ql (ca ++ c :: cb) -> ql_nodes ql = a ++ (id, n) :: b -> length a = length ca ->
  exists l', __quicklistDelNode junk lzf_base lzf_junk ql id = Some (shrunk ql l' (qn_count n)) /\ inv (shrunk ql l' (qn_count n)) (ca ++ cb) /\ lsim (a ++ b) l'.
Proof.
  intros [Hco Hu] Hl Hlen. rewrite Hl in Hu. apply unflagged_app in Hu as [Ua Ub]. apply unflagged_cons in Ub as [_ Ub]. assert (Hu : unflagged (a ++ b)) by (by apply unflagged_app).
  destruct (del_node_ok junk lzf_base lzf_junk Hbase Hlzf ql a id n b (co_wf _ _ Hco) Hl (co_lzf _ _ Hco)) as (l' & -> & Hs & Hd & Hw); [by apply unflagged_deep|].
  exists l'. split; [done|]. split; [|done]. split; [|by apply (unflagged_sim _ _ Hs)]. apply (core_delete ql ca c cb a id n b); [done|done|done|done|done|done|]. by apply unflagged_deep.
Qed.

Definition del_body (ql : quicklist) (id : nat) (offset : Z) (entire : bool) (del : Z) : option quicklist :=
  n ← get_node ql id;
  if entire || qn_plain n then __quicklistDelNode junk lzf_base lzf_junk ql id
  else
    ql ← quicklistDecompressNodeForUse ql id;
    n ← get_node ql id;
    lp ← lpDeleteRange junk usable (qn_entry n) offset del;
    sz ← lpBytes lp;
    let n := set_count (set_entry n lp sz (qn_lzf n)) (qn_count n - del) in
    let ql := with_count (set_node ql id n) (ql_count ql - del) in
    if qn_count n =? 0 then __quicklistDelNode junk lzf_base lzf_junk ql id else quicklistRecompressOnly junk lzf_base lzf_junk ql id.

(** What is left after one node: [b1] are the nodes after it. *)
Definition part_left (r : option quicklist) (cb : list content) (b : list (nat * quicklistNode)) (vs : list (list Z)) : Prop :=
  exists ql1 ca1 a1 b1, r = Some ql1 /\ inv ql1 (ca1 ++ cb) /\ ql_nodes ql1 = a1 ++ b1 /\ length a1 = length ca1 /\ lsim b b1 /\ flat ca1 = vs.

Lemma whole_left ql ca c cb a id n b : inv ql (ca ++ c :: cb) -> ql_nodes ql = a ++ (id, n) :: b -> length a = length ca -> part_left (__quicklistDelNode junk lzf_base lzf_junk ql id) cb b (flat ca).
Proof.
  intros Hinv Hl Hlen. destruct (del_whole ql ca c cb a id n b Hinv Hl Hlen) as (l' & -> & Hinv' & Hs). apply Forall2_app_inv_l in Hs as (a1 & b1 & Ha & Hb & ->).
  exists (shrunk ql (a1 ++ b1) (qn_count n)), ca, a1, b1. split; [done|]. split; [done|]. split; [done|]. split; [|done]. by rewrite (lsim_length _ _ Ha).
Qed.

Lemma range_ok es j d : cont_ok (Packed es) -> cont_ok (Packed (take j es ++ drop (j + d) es)).
Proof.
  intros H. apply packed_ok_app; [by apply packed_ok_take|by apply packed_ok_drop|]. destruct H as (_ & Hn & _). unfold zlen in *. rewrite length_take, length_drop. lia.
Qed.

Lemma del_body_ok ql ca c cb a id n b j o entire del : inv ql (ca ++ c :: cb) -> ql_nodes ql = a ++ (id, n) :: b -> length a = length ca -> (j < length (vals c))%nat -> offset_of o c j ->
  0 < del <= zlen (vals c) - Z.of_nat j -> (entire = true -> j = 0%nat /\ del = zlen (vals c)) ->
  part_left (del_body ql id o entire del) cb b (flat ca ++ take j (vals c) ++ drop (j + Z.to_nat del) (vals c)).
Proof.
  intros Hinv Hl Hlen Hj Ho Hdel Hent. pose proof Hinv as [Hco Hu]. pose proof (co_wf _ _ Hco) as Hwf. destruct (node_at_split ql a id n b Hwf Hl) as (_ & Hg & _). unfold del_body. rewrite Hg. cbn [mbind option_bind].
  pose proof (co_holds _ _ Hco) as Hh. rewrite Hl in Hh. destruct (holds_split _ _ _ _ _ _ Hh Hlen) as (_ & [Hrep Hcnt] & _). cbn [snd] in *. rewrite (nr_plain _ _ Hrep).
  destruct (entire || is_plain c) eqn:E.
  { assert (j = 0%nat /\ del = zlen (vals c)) as [-> ->].
    { apply orb_true_iff in E as [E|E]; [by apply Hent|]. destruct c as [v|]; [|done]. cbn in Hj, Hdel |- *. change (zlen [v]) with 1 in *. lia. }
    rewrite take_0, drop_ge, app_nil_r by (unfold zlen; lia). by apply (whole_left ql ca c cb a id n b). }
  apply orb_false_iff in E as [_ Ep]. destruct c as [v|es]; [done|]. assert (Hv : Forall valid_entry es) by apply (nr_ok _ _ Hrep). assert (Hm : zlen es <= MAX_ELEMENTS) by apply (nr_ok _ _ Hrep). unfold MAX_ELEMENTS in Hm.
  destruct (use_ok ql ca (Packed es) cb a id n b Hco Hl Hlen) as (n1 & -> & Hz & Hrep1 & Hc1 & Hco1 & _). cbn [mbind option_bind]. set (q1 := with_nodes ql (a ++ (id, n1) :: b)) in *.
  destruct (node_at_split q1 a id n1 b (co_wf _ _ Hco1) eq_refl) as (_ & Hg1 & Hset1). rewrite Hg1. cbn [mbind option_bind]. pose proof (nr_raw _ _ Hrep1) as Hr. rewrite Hz in Hr.
  pose proof Hj as Hj'. rewrite length_vals in Hj' by done. rewrite (zlen_vals es Hv) in *. unfold offset_of in Ho.
  assert (Hseek : seek_index es o = Some j) by (by apply seek_offset). assert (HINT : INT64_MIN < o) by (change INT64_MIN with (- 2 ^ 63); rewrite (zlen_vals es Hv) in Ho; lia).
  destruct (raw_delete_range junk usable Husable _ _ o del Hr HINT ltac:(lia)) as (lp & -> & Hlp). rewrite Hseek in Hlp. cbn [mbind option_bind]. rewrite (raw_bytes _ _ Hlp). cbn [mbind option_bind].
  set (es' := take j es ++ drop (j + Z.to_nat del) es) in *. pose proof (range_ok es j (Z.to_nat del) (nr_ok _ _ Hrep)) as Hok'. fold es' in Hok'. assert (Hv' : Forall valid_entry es') by apply Hok'.
  assert (Hz' : zlen es' = zlen es - del) by (unfold es', zlen in *; rewrite length_app, length_take, length_drop; lia). rewrite Hset1.
  set (n2 := set_count (set_entry n1 lp (total_bytes es') (qn_lzf n1)) (qn_count n1 - del)).
  assert (Hc2 : qn_count n2 = zlen es') by (unfold n2; rewrite set_count_val by (pose proof (zlen_nonneg es'); lia); lia). rewrite Hc2.
  assert (Rep2 : node_rep n2 (Packed es')) by (apply rep_count; by eapply rep_entry).
  assert (Hve : vals (Packed es') = take j (vals (Packed es)) ++ drop (j + Z.to_nat del) (vals (Packed es))) by (unfold es'; by rewrite vals_app, vals_take, vals_drop).
  rewrite Hl in Hu. apply unflagged_app in Hu as [Ua Ub]. apply unflagged_cons in Ub as [_ Ub].
  destruct (Z.eqb_spec (zlen es') 0) as [E0|E0].
  - set (q2 := with_count _ _). assert (Hw2 : wf q2) by (apply wf_count; apply (wf_update q1 a id n1); [apply (co_wf _ _ Hco1)|done|by eexists]).
    assert (Hu2 : unflagged (a ++ b)) by (by apply unflagged_app).
    assert (Hd2 : lzf_deep (ql_compress q2) (ql_nodes q2)) by (apply (deep_update _ _ _ _ _ n1); [exact (co_lzf _ _ Hco1)|done]).
    destruct (del_node_ok junk lzf_base lzf_junk Hbase Hlzf q2 a id n2 b Hw2 eq_refl Hd2) as (l' & -> & Hs & Hd & Hw); [by apply unflagged_deep|].
    pose proof Hs as Hs'. apply Forall2_app_inv_l in Hs' as (a1 & b1 & Ha & Hb & ->).
    eexists _, ca, a1, b1. split; [done|]. split; [|split; [done|split; [by rewrite (lsim_length _ _ Ha)|split; [done|]]]].
    + split; [|by apply (unflagged_sim _ _ Hs)]. assert (Hn : del = qn_count n) by lia.
      replace (shrunk q2 (a1 ++ b1) (qn_count n2)) with (shrunk ql (a1 ++ b1) (qn_count n)) by (rewrite Hc2, E0; unfold shrunk, q2; cbn; f_equal; lia).
      apply (core_delete ql ca (Packed es) cb a id n b); [done|done|done| |done|done|by apply unflagged_deep]. by destruct Hw.
    + rewrite <- Hve, (zlen_0_nil es' E0). cbn. by rewrite app_nil_r.
  - assert (Hco2 : core (with_count (with_nodes q1 (a ++ (id, n2) :: b)) (ql_count ql - del)) (ca ++ Packed es' :: cb)).
    { apply (core_update q1 ca (Packed es) cb a id n1 b); [done|done|done|done|by rewrite zlen_vals|done|done| | |].
      - pose proof (co_dont _ _ Hco1) as Hd. by apply list.Forall_app in Hd as [_ [Hd _]%list.Forall_cons].
      - intros E. apply (f_equal zlen) in E. by rewrite zlen_vals in E.
      - rewrite !zlen_vals by done. cbn [ql_count q1 with_nodes]. lia. }
    set (q2 := with_count (with_nodes q1 (a ++ (id, n2) :: b)) (ql_count ql - del)) in *. rewrite <- (with_count_same q2) in Hco2. change (with_count (with_nodes q1 (a ++ (id, n2) :: b)) (ql_count q1 - del)) with q2.
    destruct (recompress_ok junk lzf_base lzf_junk Hbase Hlzf q2 _ _ a id n2 b Hco2 eq_refl) as (n3 & -> & Hco3 & _ & F3).
    exists (with_nodes q2 (a ++ (id, n3) :: b)), (ca ++ [Packed es']), (a ++ [(id, n3)]), b. split; [done|]. split; [|split; [by rewrite nodes_with, <- app_assoc|split; [rewrite !length_app; cbn; lia|split; [apply (reflexivity (R := lsim))|]]]].
    + rewrite <- app_assoc. split; [exact Hco3|]. apply unflagged_app. split; [done|]. by apply unflagged_cons.
    + rewrite flat_app, flat_cons, Hve. change (flat []) with (@nil (list Z)). by rewrite app_nil_r.
Qed.

Lemma del_loop_step fuel ql id n o extent : get_node ql id = Some n -> extent <> 0 ->
  del_range_loop junk usable lzf_base lzf_junk (S fuel) ql (Some id) o extent =
  (ql' ← del_body ql id o (del_part o extent (qn_count n)).1 (del_part o extent (qn_count n)).2; del_range_loop junk usable lzf_base lzf_junk fuel ql' (q_next ql id) 0 (extent - (del_part o extent (qn_count n)).2)).
Proof.
  intros Hg He. cbn [del_range_loop]. rewrite (proj2 (Z.eqb_neq extent 0)) by done. unfold del_body. cbn [mbind option_bind]. rewrite Hg. cbn [mbind option_bind]. by destruct (del_part o extent (qn_count n)) as [entire del].
Qed.

Lemma del_loop_ok fuel : forall ql ca c cb a id n b j o extent, inv ql (ca ++ c :: cb) -> ql_nodes ql = a ++ (id, n) :: b -> length a = length ca -> (j < length (vals c))%nat -> offset_of o c j ->
  0 <= extent <= zlen (vals c) - Z.of_nat j + zlen (flat cb) -> (length b + 1 < fuel)%nat ->
  result (del_range_loop junk usable lzf_base lzf_junk fuel ql (Some id) o extent) (flat ca ++ take j (vals c) ++ drop (j + Z.to_nat extent) (vals c ++ flat cb)).
Proof.
  induction fuel as [|fuel IH]; intros ql ca c cb a id n b j o extent Hinv Hl Hlen Hj Ho Hext Hfuel; [lia|]. pose proof Hinv as [Hco Hu]. pose proof (co_wf _ _ Hco) as Hwf.
  destruct (Z.eq_dec extent 0) as [->|Hne].
  { cbn [del_range_loop]. exists ql, (ca ++ c :: cb). split; [done|]. split; [done|]. rewrite Nat.add_0_r, flat_app, flat_cons, drop_app_le by lia. by rewrite (app_assoc (take j _)), take_drop. }
  destruct (node_at_split ql a id n b Hwf Hl) as (_ & Hg & _). rewrite (del_loop_step fuel ql id n o extent Hg Hne).
  pose proof (co_holds _ _ Hco) as Hh. rewrite Hl in Hh. destruct (holds_split _ _ _ _ _ _ Hh Hlen) as (_ & [Hrep Hcnt] & Hb). cbn [snd] in *. rewrite Hcnt.
  destruct (del_part_eq o c j extent Hj Ho ltac:(lia)) as [Hdel Hent]. destruct (del_part o extent (zlen (vals c))) as [entire del]. cbn [fst snd] in *.
  destruct (del_body_ok ql ca c cb a id n b j o entire del Hinv Hl Hlen Hj Ho) as (ql1 & ca1 & a1 & b1 & -> & Hinv1 & Hl1 & Hlen1 & Hs & Hfl); [unfold zlen in *; lia|intros E; destruct (Hent E); unfold zlen in *; lia|].
  cbn [mbind option_bind]. assert (Hnext : q_next ql id = head (b.*1)) by (apply (next_ids ql (a.*1)); [apply (wf_ids _ Hwf)|by rewrite Hl, fmap_app]). rewrite Hnext.
  destruct (Z.eq_dec (extent - del) 0) as [E0|E0].
  - destruct fuel as [|fuel]; [lia|]. rewrite E0. cbn [del_range_loop]. change (0 =? 0) with true. cbv iota. exists ql1, (ca1 ++ cb). split; [done|]. split; [done|].
    rewrite flat_app, Hfl, drop_app_le by (unfold zlen in *; lia). assert (del = extent) as -> by lia. by rewrite <- !app_assoc.
  - assert (Hd : del = zlen (vals c) - Z.of_nat j) by lia. destruct b as [|[id2 n2] b].
    { apply Forall2_nil_inv_l in Hb as ->. assert (zlen (flat []) = 0) by done. lia. }
    destruct (holds_cons _ _ _ Hb) as (c2 & cb2 & ->). destruct (lsim_app_inv [] _ _ _ Hs) as (a0 & [id2' n2'] & b2 & -> & Ha0 & Hx & Hb2). apply Forall2_nil_inv_l in Ha0 as ->. cbn [app] in *. pose proof (ns_id _ _ Hx) as Eid. cbn in Eid. subst id2'.
    cbn [fmap list_fmap head fst]. pose proof (co_nonempty _ _ Hco) as Hnz. apply list.Forall_app in Hnz as [_ [_ [Hnz _]%list.Forall_cons]%list.Forall_cons]. rewrite flat_cons, zlen_app in Hext.
    destruct (IH ql1 ca1 c2 cb2 a1 id2 n2' b2 0%nat 0 (extent - del) Hinv1 Hl1 Hlen1) as (ql' & cs' & -> & Hinv' & Hfl'); [destruct (vals c2); [done|cbn; lia]|by left|lia|rewrite (lsim_length _ _ Hb2); cbn in Hfuel; lia|].
    exists ql', cs'. split; [done|]. split; [done|]. rewrite Hfl', Hfl, take_0, !app_nil_l, flat_cons. rewrite (drop_ge (vals c)) by (unfold zlen in *; lia). rewrite app_nil_r.
    rewrite (drop_app_ge (vals c)) by (unfold zlen in *; lia). rewrite <- app_assoc. do 3 f_equal. unfold zlen in *. lia.
Qed.

Lemma release_split ql l' a id n b : ql_nodes ql = a ++ (id, n) :: b -> lsim (ql_nodes ql) l' -> exists a' n' b', l' = a' ++ (id, n') :: b' /\ length a' = length a /\ length b' = length b.
Proof.
  intros Hl Hs. rewrite Hl in Hs. destruct (lsim_app_inv _ _ _ _ Hs) as (a' & [id' n'] & b' & -> & Ha & Hx & Hb). pose proof (ns_id _ _ Hx) as Eid. cbn in Eid. subst id'.
  exists a', n', b'. split; [done|]. by rewrite (lsim_length _ _ Ha), (lsim_length _ _ Hb).
Qed.

(** ** Ranges *)

Lemma del_range_ok ql cs start count : inv ql cs -> INT64_MIN < start ->
  let i := norm_index start (zlen (flat cs)) in
  exists ql' r cs', quicklistDelRange junk usable lzf_base lzf_junk ql start count = Some (ql', r) /\ inv ql' cs' /\
    if bool_decide (0 < count /\ 0 <= i < zlen (flat cs)) then r = true /\ flat cs' = take (Z.to_nat i) (flat cs) ++ drop (Z.to_nat (i + count)) (flat cs) else r = false /\ flat cs' = flat cs.
Proof.
  intros Hinv Hmin i. pose proof Hinv as [Hco Hu]. unfold quicklistDelRange. rewrite (co_count _ _ Hco). rewrite (proj2 (Z.eqb_neq start INT64_MIN)) by lia. rewrite orb_false_r.
  destruct (Z.leb_spec count 0) as [Hc|Hc]; [rewrite bool_decide_false by lia; by exists ql, false, cs|]. rewrite Z.geb_leb, Z.geb_leb, !Z.gtb_ltb. set (len := zlen (flat cs)) in *.
  destruct (decide (0 <= i < len)) as [Hi|Hout].
  2:{ rewrite bool_decide_false by (by intros [_ ?]). destruct ((0 <=? start) && (len <=? start)); [by exists ql, false, cs|]. pose proof (init_at_out ql cs false start Hco Hmin Hout) as Ho.
      destruct (quicklistInitIteratorAtIdx ql false start) as [iter ok]. cbn [snd] in Ho. subst ok. cbn [negb]. by exists ql, false, cs. }
  rewrite bool_decide_true by done. assert (Hr : (0 <=? start) && (len <=? start) = false).
  { unfold i, norm_index in Hi. destruct (Z.leb_spec 0 start), (Z.leb_spec len start), (Z.ltb_spec start 0); cbn [andb]; try done; lia. }
  rewrite Hr. set (extent := if (0 <=? start) && (len - start <? count) then _ else _).
  assert (Hext : extent = Z.min count (len - i)).
  { unfold extent, i, norm_index in *. destruct (Z.leb_spec 0 start), (Z.ltb_spec start 0), (Z.ltb_spec (len - start) count), (Z.ltb_spec (- start) count); cbn [andb]; lia. }
  clearbody extent. destruct (init_at_ok ql cs false start Hco Hmin Hi) as (a & id & n & b & ca & c & cb & j & o & Hl & -> & Hlen & Hj & Hnorm & Ho & _ & _ & ->). cbn [negb]. fold len i in Hnorm.
  unfold quicklistResetIterator. cbn [qi_current qi_offset].
  destruct (release_ok junk lzf_base lzf_junk Hbase Hlzf ql _ a id n b Hco Hl) as (l' & -> & Hinv' & Hq); [by apply (inv_only ql (ca ++ c :: cb))|]. cbn [mbind option_bind].
  destruct (release_split ql l' a id n b Hl Hq) as (a' & n' & b' & -> & Ha' & Hb').
  destruct (del_loop_ok (S (length (ql_nodes (with_nodes ql (a' ++ (id, n') :: b'))))) (with_nodes ql (a' ++ (id, n') :: b')) ca c cb a' id n' b' j o extent Hinv' eq_refl) as (ql' & cs' & -> & Hinv2 & Hfl); [lia|done|done| | |].
  { unfold len in *. rewrite flat_app, flat_cons, !zlen_app in *. lia. }
  { rewrite nodes_with, length_app. cbn [length]. lia. }
  cbn [mbind option_bind]. exists ql', true, cs'. split; [done|]. split; [done|]. split; [done|]. rewrite Hfl, Hnorm, flat_app, flat_cons.
  replace (Z.to_nat (zlen (flat ca) + Z.of_nat j)) with (length (flat ca) + j)%nat by (unfold zlen; lia). rewrite take_app_add, take_app_le, <- app_assoc by lia. f_equal. f_equal.
  unfold len in *. rewrite flat_app, flat_cons, !zlen_app in *.
  destruct (Z.min_spec count (zlen (flat ca) + (zlen (vals c) + zlen (flat cb)) - i)) as [[Hlt E]|[Hge E]]; rewrite E in Hext; subst extent.
  - replace (Z.to_nat (zlen (flat ca) + Z.of_nat j + count)) with (length (flat ca) + (j + Z.to_nat count))%nat by (unfold zlen in *; lia). by rewrite drop_app_add.
  - rewrite !drop_ge; [done|..]; rewrite ?length_app; unfold zlen in *; lia.
Qed.
End Del.

(** * Quicklists: replacement of an element *)

Section Rep.
Context (junk : nat -> Z) (usable : Z -> Z) (Husable : forall n, 0 <= n -> n <= usable n).
Context (lzf_base : Z) (lzf_junk : Z -> Z) (Hbase : 8192 <= lzf_base /\ lzf_base + 2 ^ 32 <= 2 ^ 64) (Hlzf : forall i, 0 <= lzf_junk i < 2 ^ 64).
Context (packed_threshold : Z) (Hthr : 0 <= packed_threshold <= 65537).

(** ** In place *)

Lemma vals_insert es j s : Forall valid_entry es -> (j < length es)%nat -> Forall is_byte s -> zlen s <= 65536 -> vals (Packed (<[j := lp_encode s]> es)) = <[j := s]> (vals (Packed es)).
Proof.
  intros Hv Hj Hs Hl. rewrite !insert_take_drop by (rewrite ?length_vals; done). change (lp_encode s :: drop (S j) es) with ([lp_encode s] ++ drop (S j) es). by rewrite !vals_app, vals_take, vals_drop, vals_one.
Qed.

Lemma packed_ok_insert es j s : cont_ok (Packed es) -> Forall is_byte s -> zlen s <= 65536 -> cont_ok (Packed (<[j := lp_encode s]> es)).
Proof.
  intros (Hv & Hn & He) Hs Hl. destruct (packed_ok_one s Hs Hl) as (Hv1 & _ & He1). apply list.Forall_cons in Hv1 as [Hv1 _]. apply list.Forall_cons in He1 as [He1 _].
  split; [by apply Forall_insert|]. split; [unfold zlen in *; by rewrite length_insert|by apply Forall_insert].
Qed.

(** The contents of the node change; then the node is compressed if it was. *)
Lemma replace_release ql ca c cb a id n b j e b' c' : found ql ca c cb a id n b j e -> raw b' c' -> cont_ok c' -> is_plain c' = is_plain c -> length (vals c') = length (vals c) ->
  result (quicklistCompress junk lzf_base lzf_junk (set_node ql id (set_entry n b' (csize c') (qn_lzf n))) id) (flat ca ++ vals c' ++ flat cb).
Proof.
  intros Hf Hr Hok Hp Hn. pose proof (found_lt _ _ _ _ _ _ _ _ _ _ Hf) as Hj. destruct (found_rep _ _ _ _ _ _ _ _ _ _ Hf) as (Hrep & Hcnt & Hg & Hd). pose proof Hf as [Hco Hl Hlen Hz Hfl _ _ _ _].
  destruct (node_at_split ql a id n b (co_wf _ _ Hco) Hl) as (_ & _ & ->). set (n' := set_entry n b' (csize c') (qn_lzf n)).
  assert (Hco' : core (with_count (with_nodes ql (a ++ (id, n') :: b)) (ql_count ql)) (ca ++ c' :: cb)).
  { apply (core_update ql ca c cb a id n b); [done|done|done| | |done|done|done| |].
    - split; [by rewrite Hp; apply (nr_plain _ _ Hrep)|done|done|cbn; by rewrite Hz|cbn; congruence].
    - cbn. rewrite Hcnt. unfold zlen. by rewrite Hn.
    - intros E. rewrite E in Hn. cbn in Hn. lia.
    - unfold zlen. lia. }
  change (with_count (with_nodes ql (a ++ (id, n') :: b)) (ql_count ql)) with (with_nodes ql (a ++ (id, n') :: b)) in Hco'.
  destruct (release_ok junk lzf_base lzf_junk Hbase Hlzf _ _ a id n' b Hco' eq_refl) as (l' & -> & Hinv & _).
  { rewrite nodes_with. rewrite Hl in Hfl. unfold only_flag in *. apply list.Forall_app in Hfl as [Ha [Hx Hb]%list.Forall_cons]. apply list.Forall_app. split; [done|]. by constructor. }
  eexists _, _. split; [done|]. split; [exact Hinv|]. by rewrite flat_app, flat_cons.
Qed.

(** ** A plain value replaced by a small one *)

Lemma insert_after_plain ql ca v cb a id n b j e s : found ql ca (Plain v) cb a id n b j e -> isLargeElement packed_threshold (zlen s) (ql_fill ql) = Some false -> Forall is_byte s -> zlen s <= 65536 ->
  exists ql' cb' a' n' b', _quicklistInsert junk usable lzf_base lzf_junk packed_threshold ql e s true = Some ql' /\ inv ql' (ca ++ Plain v :: cb') /\
    ql_nodes ql' = a' ++ (id, n') :: b' /\ length a' = length ca /\ flat cb' = s :: flat cb.
Proof.
  intros Hf Hlarge Hs Hsl. pose proof (found_lt _ _ _ _ _ _ _ _ _ _ Hf) as Hj. destruct (found_rep _ _ _ _ _ _ _ _ _ _ Hf) as (Hrep & Hcnt & Hg & _). pose proof (wf_fill _ (co_wf _ _ (fo_core _ _ _ _ _ _ _ _ _ _ Hf))) as [Hfill _].
  unfold _quicklistInsert. rewrite (fo_node _ _ _ _ _ _ _ _ _ _ Hf), Hlarge. cbn [mbind option_bind]. rewrite Hg. cbn [mbind option_bind]. 
  assert (Hfull : _quicklistNodeAllowInsert packed_threshold (Some n) (ql_fill ql) (zlen s) = Some false) by (unfold _quicklistNodeAllowInsert; rewrite Hlarge; cbn [mbind option_bind]; by rewrite (nr_plain _ _ Hrep)).
  rewrite Hfull. cbn [mbind option_bind negb].
  rewrite Hcnt, (at_tail_eq _ (Plain v) j true Hj (fo_offset _ _ _ _ _ _ _ _ _ _ Hf)). cbn in Hj. assert (j = 0%nat) as -> by lia. cbn [andb at_end vals length Nat.eqb negb orb].
  destruct (allow_insert_spec packed_threshold Hthr (node_of ql (q_next ql id)) (ql_fill ql) (zlen s) Hfill) as (an & -> & Han). cbn [mbind option_bind].
  change (_quicklistNodeAllowInsert packed_threshold None (ql_fill ql) (zlen s)) with (Some false). cbn [mbind option_bind].
  pose proof (fo_len _ _ _ _ _ _ _ _ _ _ Hf) as Hlen. destruct an.
  - destruct (Han eq_refl) as (m & Hm & Hpl & Hroom). destruct (insert_next_at junk usable Husable lzf_base lzf_junk Hbase Hlzf ql ca (Plain v) cb a id n b 0 e s m Hf Hs Hsl Hm Hpl Hroom) as (ql' & n' & b' & es2 & cb2 & -> & Hinv & Hn & ->).
    exists ql', (Packed (lp_encode s :: es2) :: cb2), a, n', b'. split; [done|]. split; [done|]. split; [done|]. split; [done|].
    rewrite !flat_cons. change (lp_encode s :: es2) with ([lp_encode s] ++ es2). by rewrite vals_app, vals_one.
  - destruct (insert_new_at junk usable Husable lzf_base lzf_junk Hbase Hlzf ql ca (Plain v) cb a id n b 0 e s true Hf Hs Hsl) as (ql' & m & -> & Hinv & Hsim). cbn [lside rside] in *. rewrite <- app_assoc in Hinv, Hsim. cbn [app] in Hinv, Hsim.
    destruct (lsim_app_inv _ _ _ _ Hsim) as (a' & [id' n'] & b' & El & Ha & Hx & _). pose proof (ns_id _ _ Hx) as Eid. cbn in Eid. subst id'.
    exists ql', (Packed [lp_encode s] :: cb), a', n', b'. split; [done|]. split; [done|]. split; [done|]. split; [by rewrite (lsim_length _ _ Ha)|]. rewrite flat_cons. by rewrite vals_one.
Qed.

Lemma replace_plain ql ca v cb a id n b j e s : found ql ca (Plain v) cb a id n b j e -> isLargeElement packed_threshold (zlen s) (ql_fill ql) = Some false -> Forall is_byte s -> zlen s <= 65536 ->
  result (ql ← _quicklistInsert junk usable lzf_base lzf_junk packed_threshold ql e s true; __quicklistDelNode junk lzf_base lzf_junk ql id) (flat ca ++ [s] ++ flat cb).
Proof.
  intros Hf Hlarge Hs Hsl. destruct (insert_after_plain ql ca v cb a id n b j e s Hf Hlarge Hs Hsl) as (ql1 & cb1 & a1 & n1 & b1 & -> & Hinv & Hl & Hlen & Hfl). cbn [mbind option_bind].
  destruct (del_whole junk lzf_base lzf_junk Hbase Hlzf ql1 ca (Plain v) cb1 a1 id n1 b1 Hinv Hl Hlen) as (l' & -> & Hinv' & _). eexists _, _. split; [done|]. split; [exact Hinv'|]. by rewrite flat_app, Hfl.
Qed.

(** ** An element of a listpack replaced by a large value *)

Lemma only_sim o l l' : lsim l l' -> only_flag o l -> only_flag o l'.
Proof.
  intros Hs Ho. apply list.Forall_lookup. intros i y Hi Hy. destruct (lsim_lookup _ _ _ _ Hs Hi) as (x & Hx & Hxy). rewrite (ns_id _ _ Hxy). unfold only_flag in Ho. rewrite list.Forall_lookup in Ho. apply (Ho i x Hx). by apply Hxy.
Qed.

Lemma margin_insert c a x y b : flags_deep c 0 (a ++ x :: b) -> unflagged b -> qn_recompress y.2 = false -> flags_deep c 1 (a ++ x :: y :: b).
Proof.
  intros Hf Hb Hy i z Hi Hz. assert (Hlen : zlen (a ++ x :: y :: b) = zlen (a ++ x :: b) + 1) by (rewrite !zlen_app, !zlen_cons; lia).
  assert (Hlt : (i <= length a)%nat).
  { destruct (decide (i <= length a)%nat) as [|Hgt]; [done|]. exfalso. rewrite lookup_app_r in Hi by lia. destruct (i - length a)%nat as [|[|k]] eqn:E; [lia|cbn in Hi; congruence|]. cbn in Hi.
    unfold unflagged in Hb. rewrite list.Forall_lookup in Hb. specialize (Hb k z Hi). cbn in Hb. congruence. }
  destruct (Hf i z) as [Hc Hd]; [|done|rewrite Hlen; split; lia]. destruct (decide (i < length a)%nat); [by rewrite lookup_app_l in Hi |- *|]. assert (i = length a) as -> by lia. by rewrite lookup_app_r, Nat.sub_diag in Hi |- * by lia.
Qed.

(** The node [id], which must not be compressed, then the node of the value. *)
Record parts (ql : quicklist) (ca : list content) (c1 : content) (s : list Z) (cr : list content) (a : list (nat * quicklistNode)) (id : nat) (n1 : quicklistNode) (new : nat) (pl : quicklistNode) (b : list (nat * quicklistNode)) : Prop := {
  pa_wf : wf ql;
  pa_nodes : ql_nodes ql = a ++ (id, n1) :: (new, pl) :: b;
  pa_a : holds a ca;
  pa_n1 : node_rep n1 c1 /\ qn_count n1 = zlen (vals c1) /\ qn_lzf n1 = false /\ qn_dont_compress n1 = true;
  pa_pl : node_rep pl (Plain s) /\ qn_count pl = 1 /\ qn_dont_compress pl = false;
  pa_b : holds b cr;
  pa_lzf : lzf_deep (ql_compress ql) (ql_nodes ql);
  pa_flags : flags_deep (ql_compress ql) 1 (ql_nodes ql);
  pa_only : only_flag (Some id) (ql_nodes ql);
  pa_dont : Forall (fun x => qn_dont_compress x.2 = false) (a ++ b);
  pa_nonempty : Forall (fun c => vals c <> []) (ca ++ cr) }.

Lemma parts_new q a id n1 b ca c1 s cr : wf q -> ql_nodes q = a ++ (id, n1) :: b -> holds a ca -> holds b cr -> node_rep n1 c1 -> qn_count n1 = zlen (vals c1) -> qn_lzf n1 = false -> qn_dont_compress n1 = true ->
  lzf_deep (ql_compress q) (ql_nodes q) -> flags_deep (ql_compress q) 0 (ql_nodes q) -> only_flag (Some id) (ql_nodes q) -> Forall (fun x => qn_dont_compress x.2 = false) (a ++ b) -> Forall (fun c => vals c <> []) (ca ++ cr) -> elem_ok s ->
  exists new l pl a' b', (node ← __quicklistCreateNode junk usable true s; insert_node junk lzf_base lzf_junk q (Some id) node true) = Some (grown q l, new) /\ parts (grown q l) ca c1 s cr a' id n1 new pl b' /\ length a' = length a.
Proof.
  intros Hwf Hl Ha Hb Hr Hc Hz Hd Hlz Hfl Ho Hdont Hne Hs. cbn [__quicklistCreateNode mbind option_bind]. set (pn := {| qn_entry := s; qn_sz := zlen s; qn_count := 1; qn_lzf := false; qn_plain := true; qn_recompress := false; qn_dont_compress := false |}).
  destruct (ql_insert_node_ok junk lzf_base lzf_junk Hbase Hlzf q a id n1 b pn (Plain s) true Hwf Hl Hlz Hfl (plain_ok s Hs) eq_refl eq_refl) as (l & -> & Hsim & Hlz' & Hw & _). cbn [put_node app] in Hsim.
  pose proof (wf_ids _ Hwf) as Hnd. rewrite Hl in Hnd, Ho, Hfl. destruct (only_rest id n1 a b _ Hnd Ho eq_refl) as [Ua Ub].
  assert (HflL : flags_deep (ql_compress q) 1 (a ++ (id, n1) :: (ql_fresh q, pn) :: b)) by (by apply margin_insert).
  assert (HoL : only_flag (Some id) (a ++ (id, n1) :: (ql_fresh q, pn) :: b)).
  { unfold only_flag in *. apply list.Forall_app in Ho as [Hoa [Hox Hob]%list.Forall_cons]. apply list.Forall_app. split; [done|]. constructor; [done|]. by constructor. }
  destruct (lsim_app_inv _ _ _ _ Hsim) as (a' & y & r & -> & Sa & Sx & Sr). rewrite (ns_keep _ _ Sx Hd Hz) in *. clear y Sx. inversion Sr as [|? [new pl] ? b' Sp Sb]; subst. pose proof (ns_id _ _ Sp) as Eid. cbn in Eid. subst new.
  exists (ql_fresh q), (a' ++ (id, n1) :: (ql_fresh q, pl) :: b'), pl, a', b'. split; [done|]. split; [|by rewrite (lsim_length _ _ Sa)].
  apply list.Forall_app in Hdont as [Da Db]. split; cbn [grown ql_nodes ql_compress].
  - done.
  - done.
  - by apply (holds_sim _ _ _ Sa).
  - done.
  - pose proof (ns_rep _ _ Sp _ (plain_ok s Hs)) as R. pose proof (ns_count _ _ Sp) as C. pose proof (ns_dont _ _ Sp) as D. by cbn in R, C, D.
  - by apply (holds_sim _ _ _ Sb).
  - done.
  - by apply (flags_deep_sim _ _ _ _ Hsim).
  - by apply (only_sim _ _ _ Hsim).
  - apply list.Forall_app. split; [by apply (dont_sim _ _ Sa)|by apply (dont_sim _ _ Sb)].
  - done.
Qed.

(** The rest of the listpack goes after the value. *)
Lemma parts_rest q ca c1 s cr a id n1 new pl b sp rest : parts q ca c1 s cr a id n1 new pl b -> fresh_packed sp rest -> vals (Packed rest) <> [] ->
  exists l pl' a' b' i, insert_node junk lzf_base lzf_junk q (Some new) sp true = Some (grown q l, i) /\ parts (grown q l) ca c1 s (Packed rest :: cr) a' id n1 new pl' b' /\ length a' = length a.
Proof.
  intros [Hwf Hl Ha (R1 & C1 & Z1 & D1) (Rp & Cp & Dp) Hb Hlz Hfl Ho Hd Hne] (Rs & Cs & Zs & Fs & Ds) Hnr. assert (El : ql_nodes q = (a ++ [(id, n1)]) ++ (new, pl) :: b) by (by rewrite Hl, <- app_assoc).
  destruct (ql_insert_node_ok junk lzf_base lzf_junk Hbase Hlzf q (a ++ [(id, n1)]) new pl b sp (Packed rest) true Hwf El Hlz) as (l & -> & Hsim & Hlz' & Hw & _); [by eapply (flags_deep_less _ 1)|done..|].
  cbn [put_node app] in Hsim. rewrite <- app_assoc in Hsim. cbn [app] in Hsim. set (x := (ql_fresh q, sp)) in *. rewrite Hl in Hfl, Ho.
  assert (HflL : flags_deep (ql_compress q) 1 (a ++ (id, n1) :: (new, pl) :: x :: b)).
  { replace (a ++ (id, n1) :: (new, pl) :: x :: b) with ((a ++ [(id, n1); (new, pl)]) ++ x :: b) by (by rewrite <- app_assoc). apply deep_add; [by rewrite <- app_assoc|done]. }
  assert (HoL : only_flag (Some id) (a ++ (id, n1) :: (new, pl) :: x :: b)).
  { unfold only_flag in *. apply list.Forall_app in Ho as [Hoa [Hox [Hop Hob]%list.Forall_cons]%list.Forall_cons]. apply list.Forall_app. split; [done|]. constructor; [done|]. constructor; [done|]. constructor; [|done]. cbn. congruence. }
  destruct (lsim_app_inv _ _ _ _ Hsim) as (a' & y & r & -> & Sa & Sx & Sr). rewrite (ns_keep _ _ Sx D1 Z1) in *. clear y Sx. inversion Sr as [|? [new' pl'] ? r' Sp Sr']; subst. inversion Sr' as [|? y ? b' Sy Sb]; subst. pose proof (ns_id _ _ Sp) as Eid. cbn in Eid. subst new'.
  exists (a' ++ (id, n1) :: (new, pl') :: y :: b'), pl', a', (y :: b'), (ql_fresh q). split; [done|]. split; [|by rewrite (lsim_length _ _ Sa)].
  apply list.Forall_app in Hd as [Da Db]. split; cbn [grown ql_nodes ql_compress].
  - done.
  - done.
  - by apply (holds_sim _ _ _ Sa).
  - done.
  - pose proof (ns_rep _ _ Sp _ Rp) as R. pose proof (ns_count _ _ Sp) as C. pose proof (ns_dont _ _ Sp) as D. cbn in R, C, D. split; [done|]. split; congruence.
  - apply (holds_sim _ _ _ Sr'). by constructor.
  - done.
  - by apply (flags_deep_sim _ _ _ _ Hsim).
  - by apply (only_sim _ _ _ Hsim).
  - apply list.Forall_app. split; [by apply (dont_sim _ _ Sa)|]. apply (dont_sim _ _ Sr'). by constructor.
  - apply list.Forall_app in Hne as [Na Nr]. apply list.Forall_app. split; [done|]. by constructor.
Qed.

Lemma rep_dont n c d : node_rep n c -> node_rep (set_dont_compress n d) c.
Proof. by intros [????]. Qed.

Lemma last_offset o c j : (j < length (vals c))%nat -> offset_of o c j -> negb (o =? zlen (vals c) - 1) && negb (o =? -1) = negb (S j =? length (vals c))%nat.
Proof. intros Hj Ho. pose proof (at_tail_eq o c j true Hj Ho) as H. cbn [andb at_end] in H. by rewrite <- H, negb_orb. Qed.

(** The value in a node of its own, between the two parts of the listpack. *)
Lemma replace_parts ql ca es cb a id n b j e s : found ql ca (Packed es) cb a id n b j e -> elem_ok s ->
  exists q new cr a' n1 pl b',
    ('(ql, split) ← (if negb (qe_offset e =? qn_count n - 1) && negb (qe_offset e =? -1) then
                       '(ql, split) ← _quicklistSplitNode junk usable (set_node ql id (set_dont_compress n true)) id (qe_offset e) true; Some (ql, Some split)
                     else Some (set_node ql id (set_dont_compress n true), None));
     new_node ← __quicklistCreateNode junk usable true s;
     '(ql, new) ← insert_node junk lzf_base lzf_junk ql (Some id) new_node true;
     ql ← match split with Some split => '(ql, _) ← insert_node junk lzf_base lzf_junk ql (Some new) split true; Some ql | None => Some ql end; Some (ql, new)) = Some (q, new) /\
    parts q ca (Packed (take (S j) es)) s cr a' id n1 new pl b' /\ flat cr = drop (S j) (vals (Packed es)) ++ flat cb /\ ql_count q = ql_count ql.
Proof.
  intros Hf Hs. pose proof (found_lt _ _ _ _ _ _ _ _ _ _ Hf) as Hj. destruct (found_rep _ _ _ _ _ _ _ _ _ _ Hf) as (Hrep & Hcnt & Hg & _). pose proof Hf as [Hco Hl Hlen Hz Hfl _ _ Ho _]. pose proof (co_wf _ _ Hco) as Hwf.
  assert (Hv : Forall valid_entry es) by apply (nr_ok _ _ Hrep). rewrite Hcnt, (last_offset _ (Packed es) j Hj Ho), length_vals by done. rewrite length_vals in Hj by done. destruct (node_at_split ql a id n b Hwf Hl) as (_ & _ & Hset). rewrite Hset.
  set (n0 := set_dont_compress n true). set (q0 := with_nodes ql (a ++ (id, n0) :: b)). assert (R0 : node_rep n0 (Packed es)) by (by apply rep_dont).
  pose proof Hco as [_ H2 _ H4 H5 H6 H7]. rewrite Hl in H2, H4, H5, H6. destruct (holds_split _ _ _ _ _ _ H2 Hlen) as (Ha & _ & Hb). apply list.Forall_app in H6 as [Da [_ Db]%list.Forall_cons]. apply list.Forall_app in H7 as [Na [_ Nb]%list.Forall_cons].
  assert (Hne : Forall (fun c => vals c <> []) (ca ++ cb)) by (by apply list.Forall_app). assert (Hdont : Forall (fun x => qn_dont_compress x.2 = false) (a ++ b)) by (by apply list.Forall_app).
  rewrite Hl in Hfl. assert (Hany : forall m, qn_recompress m = qn_recompress n -> qn_lzf m = false -> represented (id, m) ->
    wf (with_nodes ql (a ++ (id, m) :: b)) /\ lzf_deep (ql_compress ql) (a ++ (id, m) :: b) /\ flags_deep (ql_compress ql) 0 (a ++ (id, m) :: b) /\ only_flag (Some id) (a ++ (id, m) :: b)).
  { intros m Fm Zm Rm. split; [by apply (wf_update ql a id n)|]. split; [apply (deep_update _ _ _ _ _ n); [done|congruence]|]. split; [apply (deep_update _ _ _ _ _ n); [done|congruence]|].
    unfold only_flag in *. apply list.Forall_app in Hfl as [Hoa [Hox Hob]%list.Forall_cons]. apply list.Forall_app. split; [done|]. by constructor. }
  destruct (Nat.eqb_spec (S j) (length es)) as [Elast|Elast]; cbn [negb].
  - destruct (Hany n0 eq_refl Hz ltac:(by eexists)) as (W0 & Z0 & F0 & O0). cbn [mbind option_bind].
    destruct (parts_new q0 a id n0 b ca (Packed es) s cb W0 eq_refl Ha Hb R0 Hcnt Hz eq_refl Z0 F0 O0 Hdont Hne Hs) as (new & l & pl & a' & b' & Hq & Hp & _).
    cbn [__quicklistCreateNode mbind option_bind] in *. rewrite Hq. cbn [mbind option_bind]. exists (grown q0 l), new, cb, a', n0, pl, b'. split; [done|].
    rewrite take_ge by lia. rewrite drop_ge by (rewrite length_vals by done; lia). done.
  - destruct (Hany n0 eq_refl Hz ltac:(by eexists)) as (W0 & _). destruct (split_ok junk usable Husable q0 a id n0 b es j (qe_offset e) true W0 eq_refl R0 Hcnt Hz Hj Ho) as (n1 & sp & -> & R1 & C1 & Z1 & F1 & D1 & Hsp). cbn [mbind option_bind split_keep split_rest] in *.
    destruct (Hany n1 F1 Z1 ltac:(by eexists)) as (W1 & Z1' & F1' & O1). unfold q0. rewrite with_nodes_twice.
    destruct (parts_new (with_nodes ql (a ++ (id, n1) :: b)) a id n1 b ca (Packed (take (S j) es)) s cb W1 eq_refl Ha Hb R1 C1 Z1 D1 Z1' F1' O1 Hdont Hne Hs) as (new & l & pl & a' & b' & Hq & Hp & _).
    cbn [__quicklistCreateNode mbind option_bind] in *. rewrite Hq. cbn [mbind option_bind].
    destruct (parts_rest _ _ _ _ _ _ _ _ _ _ _ sp (drop (S j) es) Hp Hsp) as (l2 & pl2 & a2 & b2 & i & -> & Hp2 & _).
    { intros E. apply (f_equal length) in E. rewrite length_vals in E by (by apply Forall_drop). rewrite length_drop in E. cbn in E. lia. }
    cbn [mbind option_bind]. eexists _, new, (Packed (drop (S j) es) :: cb), a2, n1, pl2, b2. split; [done|]. split; [exact Hp2|]. split; [|done]. rewrite flat_cons. by rewrite vals_drop.
Qed.

(** The node had only the element that was replaced. *)
Lemma parts_del q k ca c1 s cr a id n1 new pl b : parts q ca c1 s cr a id n1 new pl b -> length (vals c1) = 1%nat -> k = zlen (flat ca) + 1 + 1 + zlen (flat cr) ->
  result (__quicklistDelNode junk lzf_base lzf_junk (with_count q k) id) (flat ca ++ [s] ++ flat cr).
Proof.
  intros [Hwf Hl Ha (R1 & C1 & Z1 & D1) (Rp & Cp & Dp) Hb Hlz Hfl Ho Hd Hne] Hn Hk. pose proof (wf_ids _ Hwf) as Hnd. rewrite Hl in Hnd, Ho. destruct (only_rest id n1 a _ _ Hnd Ho eq_refl) as [Ua Ub].
  assert (Hu : unflagged (a ++ (new, pl) :: b)) by (by apply unflagged_app).
  destruct (del_node_ok junk lzf_base lzf_junk Hbase Hlzf (with_count q k) a id n1 ((new, pl) :: b) (wf_count _ _ Hwf) Hl Hlz) as (l' & -> & Hs & Hd' & Hw); [by apply unflagged_deep|].
  apply list.Forall_app in Hd as [Da Db]. apply list.Forall_app in Hne as [Na Nr]. eexists _, (ca ++ Plain s :: cr). split; [done|]. split; [split; [|by apply (unflagged_sim _ _ Hs)]|by rewrite flat_app, flat_cons].
  split; cbn [shrunk with_count ql_nodes ql_count ql_compress].
  - done.
  - apply (holds_sim _ _ _ Hs). by apply holds_join.
  - rewrite flat_app, flat_cons, !zlen_app, C1. unfold zlen at 1. rewrite Hn. change (zlen (vals (Plain s))) with 1. lia.
  - done.
  - apply (flags_deep_sim _ _ _ _ Hs). by apply unflagged_deep.
  - apply (dont_sim _ _ Hs). apply list.Forall_app. split; [done|]. by constructor.
  - apply list.Forall_app. split; [done|]. by constructor.
Qed.

(** A node to the left of the value; only it can be flagged. *)
Record around (ql : quicklist) (ca : list content) (cp : content) (s : list Z) (cr : list content) (a : list (nat * quicklistNode)) (p : nat) (np : quicklistNode) (new : nat) (pl : quicklistNode) (b : list (nat * quicklistNode)) : Prop := {
  ar_core : core ql (ca ++ cp :: Plain s :: cr);
  ar_nodes : ql_nodes ql = a ++ (p, np) :: (new, pl) :: b;
  ar_len : length a = length ca;
  ar_only : only_flag (Some p) (ql_nodes ql) }.

(** The last element of the node on the left is the one that was replaced. *)
Lemma parts_shrink q k ca es s cr a id n1 new pl b : parts q ca (Packed es) s cr a id n1 new pl b -> (1 < length es)%nat -> k = zlen (flat ca) + zlen es + 1 + zlen (flat cr) ->
  exists q2 n2, (r ← lpSeek (qn_entry n1) (-1); '(ql, _, _) ← quicklistDelIndex junk usable lzf_base lzf_junk (with_count q k) id r; update_node ql id (fun n => Some (set_dont_compress n false))) = Some q2 /\
    around q2 ca (Packed (delete (length es - 1)%nat es)) s cr a id n2 new pl b /\ flags_deep (ql_compress q2) 1 (ql_nodes q2).
Proof.
  intros [Hwf Hl Ha (R1 & C1 & Z1 & D1) (Rp & Cp & Dp) Hb Hlz Hfl Ho Hd Hne] Hn Hk. pose proof (nr_raw _ _ R1) as Hr. rewrite Z1 in Hr. pose proof (nr_ok _ _ R1) as Hok. assert (Hv : Forall valid_entry es) by apply Hok.
  assert (Hm : zlen es <= MAX_ELEMENTS) by apply Hok. unfold MAX_ELEMENTS in Hm. rewrite zlen_vals in C1 by done. set (j := (length es - 1)%nat) in *.
  rewrite (raw_seek _ _ (-1) Hr ltac:(done)), (seek_offset es (-1) j Hv); [|unfold j; lia|right; rewrite zlen_vals by done; unfold j, zlen; lia]. cbn [mbind option_bind fmap option_fmap option_map].
  unfold quicklistDelIndex. destruct (node_at_split (with_count q k) a id n1 _ (wf_count _ _ Hwf) Hl) as (_ & -> & Hset). cbn [mbind option_bind]. rewrite (nr_plain _ _ R1). cbn [is_plain mbind option_bind].
  destruct (raw_delete junk usable Husable _ _ j Hr ltac:(unfold j; lia)) as (b' & p' & -> & Hr'). cbn [mbind option_bind]. rewrite (raw_bytes _ _ Hr'). cbn [mbind option_bind].
  pose proof (packed_ok_delete es j Hok) as Hok'. assert (Hv' : Forall valid_entry (delete j es)) by apply Hok'. pose proof (length_delete es j ltac:(apply lookup_lt_is_Some; unfold j; lia)) as Hdl.
  set (n2 := set_count (set_entry n1 b' (total_bytes (delete j es)) (qn_lzf n1)) (qn_count n1 - 1)).
  assert (C2 : qn_count n2 = zlen (delete j es)) by (unfold n2; rewrite set_count_val; unfold zlen in *; lia). assert (R2 : node_rep n2 (Packed (delete j es))) by (apply rep_count; by eapply rep_entry).
  rewrite C2, (proj2 (Z.eqb_neq _ 0)) by (unfold zlen; lia). cbn [mbind option_bind]. rewrite Hset. set (q1 := with_count (with_nodes (with_count q k) (a ++ (id, n2) :: (new, pl) :: b)) _).
  assert (W1 : wf q1) by (apply wf_count; apply (wf_update (with_count q k) a id n1); [by apply wf_count|done|by eexists]).
  unfold update_node. destruct (node_at_split q1 a id n2 _ W1 eq_refl) as (_ & -> & Hset2). cbn [mbind option_bind]. rewrite Hset2. set (n3 := set_dont_compress n2 false). rewrite Hl in Hlz, Hfl, Ho. apply list.Forall_app in Hd as [Da Db]. apply list.Forall_app in Hne as [Na Nr].
  assert (Hz' : zlen (delete j es) = zlen es - 1) by (unfold zlen; lia). eexists _, n3. split; [done|].
  assert (F3 : flags_deep (ql_compress q) 1 (a ++ (id, n3) :: (new, pl) :: b)) by (by apply (deep_update _ _ _ _ _ n1)).
  split; [|exact F3]. split; [|done| |].
  - split; cbn [with_nodes ql_nodes ql_count ql_compress q1 with_count].
    + apply (wf_update q1 a id n2); [done|done|]. exists (Packed (delete j es)). by apply rep_dont.
    + apply holds_join; [done|by apply rep_dont|by rewrite zlen_vals|]. by constructor.
    + rewrite flat_app, !flat_cons, !zlen_app, zlen_vals by done. change (zlen (vals (Plain s))) with 1. lia.
    + apply (deep_update _ _ _ _ _ n1); [done|]. done.
    + by apply (flags_deep_less _ 1).
    + apply list.Forall_app. split; [done|]. constructor; [done|]. by constructor.
    + apply list.Forall_app. split; [done|]. constructor; [intros E; apply (f_equal zlen) in E; rewrite zlen_vals, zlen_nil in E by done; unfold zlen in *; lia|]. by constructor.
  - by apply list.Forall2_length in Ha.
  - cbn [with_nodes ql_nodes]. unfold only_flag in *. apply list.Forall_app in Ho as [Hoa [Hox Hob]%list.Forall_cons]. apply list.Forall_app. split; [done|]. by constructor.
Qed.

(** ** Merging around a value in a node of its own *)

Lemma allow_plain n o fill : qn_plain n = true -> _quicklistNodeAllowMerge (Some n) o fill = Some false.
Proof. intros Hp. unfold _quicklistNodeAllowMerge. destruct o as [m|]; [|done]. by rewrite Hp. Qed.

Lemma around_plain ql ca cp s cr a p np new pl b : around ql ca cp s cr a p np new pl b -> qn_plain pl = true /\ get_node ql new = Some pl /\ get_node ql p = Some np /\ (unflagged a /\ unflagged ((new, pl) :: b)).
Proof.
  intros [Hco Hl Hlen Ho]. pose proof (co_wf _ _ Hco) as Hwf. pose proof (co_holds _ _ Hco) as Hh. rewrite Hl in Hh. destruct (holds_split _ _ _ _ _ _ Hh Hlen) as (_ & _ & Hb). apply list.Forall2_cons in Hb as [[Rp _] _]. cbn [snd] in Rp.
  assert (El : ql_nodes ql = (a ++ [(p, np)]) ++ (new, pl) :: b) by (by rewrite Hl, <- app_assoc). destruct (node_at_split ql _ new pl b Hwf El) as (_ & Hg & _). destruct (node_at_split ql a p np _ Hwf Hl) as (_ & Hgp & _).
  split; [by rewrite (nr_plain _ _ Rp)|]. split; [done|]. split; [done|]. pose proof (wf_ids _ Hwf) as Hnd. rewrite Hl in Hnd, Ho. by apply (only_rest p np a _ _ Hnd Ho).
Qed.

Lemma shrunk_core ql l cs : core (with_count (shrunk ql l 0) (ql_count ql)) cs -> core (shrunk ql l 0) cs.
Proof. replace (shrunk ql l 0) with (with_count (shrunk ql l 0) (ql_count ql)) at 2; [done|]. unfold with_count, shrunk. cbn. f_equal. lia. Qed.

(** With the node before the one on the left. *)
Lemma around_before ql ca cp s cr a p np new pl b fill : around ql ca cp s cr a p np new pl b -> -5 <= fill -> flags_deep (ql_compress ql) 1 (ql_nodes ql) ->
  exists ql' ca' cp' a' p' np' pl' b', (allow ← _quicklistNodeAllowMerge (node_of ql (Some p)) (node_of ql (q_prev ql p)) fill;
      if allow : bool then pp ← q_prev ql p; '(ql, _) ← _quicklistListpackMerge junk usable lzf_base lzf_junk ql pp p; Some ql else Some ql) = Some ql' /\
    around ql' ca' cp' s cr a' p' np' new pl' b' /\ flags_deep (ql_compress ql') 1 (ql_nodes ql') /\ b'.*1 = b.*1 /\ flat (ca' ++ [cp']) = flat (ca ++ [cp]) /\ ql_fill ql' = ql_fill ql.
Proof.
  intros Har Hfill Hfl. destruct (around_plain _ _ _ _ _ _ _ _ _ _ _ Har) as (_ & _ & Hgp & [Ua Ub]). pose proof Har as [Hco Hl Hlen Ho]. pose proof (co_wf _ _ Hco) as Hwf. pose proof (wf_ids _ Hwf) as Hnd.
  destruct (allow_merge_spec (node_of ql (Some p)) (node_of ql (q_prev ql p)) fill Hfill) as (allow & -> & Hal). cbn [mbind option_bind]. destruct allow; [|by exists ql, ca, cp, a, p, np, pl, b].
  destruct (Hal eq_refl) as (np1 & npp & Hp & Hpp & H1 & H2 & H3). cbn in Hp. rewrite Hgp in Hp. injection Hp as <-. destruct (node_of_Some _ _ _ Hpp) as [pp Epp]. rewrite Epp in Hpp |- *. cbn [mbind option_bind] in *.
  assert (Hids : (ql_nodes ql).*1 = a.*1 ++ p :: new :: b.*1) by (by rewrite Hl, fmap_app). rewrite (prev_ids ql _ _ _ Hnd Hids) in Epp. destruct a as [|[pp' npp'] a0 _] using rev_ind; [done|]. rewrite fmap_app in Epp. cbn [fmap list_fmap fst] in Epp. rewrite reverse_snoc in Epp. injection Epp as ->. rewrite <- app_assoc in Hl. cbn [app] in Hl.
  destruct (node_at_split ql a0 pp npp' _ Hwf Hl) as (_ & Hgpp & _). cbn in Hpp. rewrite Hgpp in Hpp. injection Hpp as ->. rewrite <- (with_count_same ql) in Hco.
  destruct (allowed_contents ql _ _ a0 pp npp p np _ Hco Hl) as (ca0 & ea & eb & cb0 & Ecs & Hlen0 & Hok); [by apply allowed_sym|].
  assert (Hca : ca = ca0 ++ [Packed ea] /\ cp = Packed eb /\ cb0 = Plain s :: cr).
  { assert (E2 : ca ++ cp :: Plain s :: cr = (ca0 ++ [Packed ea]) ++ Packed eb :: cb0) by (by rewrite Ecs, <- app_assoc). apply app_inj_1 in E2 as [-> E2]; [by injection E2 as -> <-|]. rewrite length_app in Hlen |- *. cbn in *. lia. }
  destruct Hca as (-> & -> & ->). apply unflagged_app in Ua as [Ua0 _]. rewrite Ecs in Hco.
  assert (Huz : forall z, qn_recompress z.2 = false -> unflagged (a0 ++ z :: (new, pl) :: b)) by (intros z Hz; apply unflagged_app; split; [done|]; by apply unflagged_cons).
  destruct (merge_ok junk usable Husable lzf_base lzf_junk Hbase Hlzf ql _ ca0 ea eb (Plain s :: cr) a0 pp npp p np ((new, pl) :: b) Hco Hl Hlen0 Hok) as (keep & nk & l' & -> & _ & Hs & Fk & Hco'); [intros z Hz; by apply unflagged_deep, Huz|].
  cbn [mbind option_bind]. destruct (lsim_app_inv _ _ _ _ Hs) as (a1 & [k1 n1] & r & El & Sa & Sx & Sr). inversion Sr as [|? [new1 pl1] ? b1 Sp Sb]; subst. pose proof (ns_id _ _ Sp) as E1. pose proof (ns_id _ _ Sx) as E2. cbn in E1, E2. subst new1 k1.
  assert (Hu : unflagged (a1 ++ (keep, n1) :: (new, pl1) :: b1)) by (apply (unflagged_sim _ _ Hs); by apply (Huz (keep, nk))).
  exists (shrunk ql (a1 ++ (keep, n1) :: (new, pl1) :: b1) 0), ca0, (Packed (ea ++ eb)), a1, keep, n1, pl1, b1. split; [done|]. split; [|split; [by apply unflagged_deep|]].
  - split; [by apply shrunk_core|done|by rewrite (lsim_length _ _ Sa)|]. cbn [shrunk ql_nodes]. eapply list.Forall_impl; [exact Hu|]. cbn. congruence.
  - split; [by rewrite (lsim_ids _ _ Sb)|]. split; [|done]. rewrite <- app_assoc, !flat_app, !flat_cons, vals_app. change (flat []) with (@nil (list Z)). by rewrite !app_nil_r.
Qed.

Lemma flags_shift c A x y b z : flags_deep c 1 (A ++ x :: y :: b) -> unflagged b -> qn_recompress z.2 = false -> flags_deep c 0 (A ++ z :: b).
Proof.
  intros Hf Hb Hz i w Hi Hw. assert (Hlen : zlen (A ++ x :: y :: b) = zlen (A ++ z :: b) + 1) by (rewrite !zlen_app, !zlen_cons; lia).
  assert (Hlt : (i < length A)%nat).
  { destruct (decide (i < length A)%nat) as [|Hge]; [done|]. exfalso. rewrite lookup_app_r in Hi by lia. destruct (i - length A)%nat as [|k]; [cbn in Hi; congruence|]. cbn in Hi.
    unfold unflagged in Hb. rewrite list.Forall_lookup in Hb. specialize (Hb k w Hi). cbn in Hb. congruence. }
  destruct (Hf i w) as [Hc Hd]; [by rewrite lookup_app_l in Hi |- *|done|]. split; lia.
Qed.

(** The two nodes after the value. *)
Lemma around_after ql ca cp s cr a p np new pl b fill : around ql ca cp s cr a p np new pl b -> -5 <= fill -> flags_deep (ql_compress ql) 1 (ql_nodes ql) ->
  exists ql' cr' a' np' pl' b', (allow ← _quicklistNodeAllowMerge (node_of ql (head (b.*1))) (node_of ql (head (tail (b.*1)))) fill;
      if allow : bool then n ← head (b.*1); nn ← head (tail (b.*1)); '(ql, _) ← _quicklistListpackMerge junk usable lzf_base lzf_junk ql n nn; Some ql else Some ql) = Some ql' /\
    around ql' ca cp s cr' a' p np' new pl' b' /\ flat cr' = flat cr.
Proof.
  intros Har Hfill Hfl. destruct (around_plain _ _ _ _ _ _ _ _ _ _ _ Har) as (_ & _ & _ & [Ua Ub]). pose proof Har as [Hco Hl Hlen Ho]. pose proof (co_wf _ _ Hco) as Hwf. pose proof (wf_ids _ Hwf) as Hnd.
  destruct (allow_merge_spec (node_of ql (head (b.*1))) (node_of ql (head (tail (b.*1)))) fill Hfill) as (allow & -> & Hal). cbn [mbind option_bind]. destruct allow; [|by exists ql, cr, a, np, pl, b].
  destruct (Hal eq_refl) as (nx & ny & Hx & Hy & H1 & H2 & H3). destruct (node_of_Some _ _ _ Hx) as [x Ex]. destruct (node_of_Some _ _ _ Hy) as [y Ey]. rewrite Ex in Hx |- *. rewrite Ey in Hy |- *. cbn [mbind option_bind] in *.
  destruct b as [|[x' nx'] b]; [done|]. cbn in Ex. injection Ex as ->. destruct b as [|[y' ny'] b]; [done|]. cbn in Ey. injection Ey as ->.
  set (A := a ++ [(p, np); (new, pl)]). assert (El : ql_nodes ql = A ++ (x, nx') :: (y, ny') :: b) by (by unfold A; rewrite Hl, <- app_assoc).
  destruct (node_at_split ql A x nx' _ Hwf El) as (_ & Hgx & _). assert (El2 : ql_nodes ql = (A ++ [(x, nx')]) ++ (y, ny') :: b) by (by rewrite El, <- app_assoc). destruct (node_at_split ql _ y ny' b Hwf El2) as (_ & Hgy & _).
  cbn in Hx, Hy. rewrite Hgx in Hx. rewrite Hgy in Hy. injection Hx as ->. injection Hy as ->. rewrite <- (with_count_same ql) in Hco.
  destruct (allowed_contents ql _ _ A x nx y ny b Hco El) as (ca0 & ea & eb & cb0 & Ecs & Hlen0 & Hok); [done|].
  assert (Hca : ca0 = ca ++ [cp; Plain s] /\ cr = Packed ea :: Packed eb :: cb0).
  { assert (E2 : ca ++ cp :: Plain s :: cr = (ca ++ [cp; Plain s]) ++ cr) by (by rewrite <- app_assoc). rewrite E2 in Ecs. apply app_inj_1 in Ecs as [<- ->]; [done|]. rewrite <- Hlen0. unfold A. rewrite !length_app. cbn. lia. }
  destruct Hca as [-> ->]. apply unflagged_cons in Ub as [_ Ub]. apply unflagged_cons in Ub as [_ Ub]. apply unflagged_cons in Ub as [_ Ub]. rewrite El in Hfl.
  destruct (merge_ok junk usable Husable lzf_base lzf_junk Hbase Hlzf ql (ql_count ql) (ca ++ [cp; Plain s]) ea eb cb0 A x nx y ny b) as (keep & nk & l' & -> & _ & Hs & Fk & Hco');
    [by rewrite <- app_assoc|done|done|done|intros z Hz; by apply (flags_shift _ A (x, nx) (y, ny))|].
  cbn [mbind option_bind]. rewrite <- app_assoc in Hco'. cbn [app] in Hco'. pose proof Hs as Hs'. unfold A in Hs'. rewrite <- app_assoc in Hs'. cbn [app] in Hs'.
  destruct (lsim_app_inv _ _ _ _ Hs') as (a1 & [p1 n1] & r & Ea & Sa & Sx & Sr). inversion Sr as [|? [new1 pl1] ? b1 Sp Sb]; subst. pose proof (ns_id _ _ Sp) as E1. pose proof (ns_id _ _ Sx) as E2. cbn in E1, E2. subst new1 p1.
  exists (shrunk ql (a1 ++ (p, n1) :: (new, pl1) :: b1) 0), (Packed (ea ++ eb) :: cb0), a1, n1, pl1, b1. split; [done|]. split; [|by rewrite !flat_cons, vals_app, <- app_assoc].
  split; [by apply shrunk_core|done|by rewrite (lsim_length _ _ Sa)|]. cbn [shrunk ql_nodes]. apply (only_sim _ _ _ Hs). rewrite El in Ho. unfold only_flag in *. apply list.Forall_app in Ho as [HoA [_ [_ Hob]%list.Forall_cons]%list.Forall_cons].
  apply list.Forall_app. split; [done|]. constructor; [cbn; congruence|done].
Qed.

Lemma around_merge ql ca cp s cr a p np new pl b : around ql ca cp s cr a p np new pl b -> flags_deep (ql_compress ql) 1 (ql_nodes ql) ->
  exists ql' ca' cp' cr' a' p' np' pl' b', _quicklistMergeNodes junk usable lzf_base lzf_junk ql new = Some (ql', new) /\ around ql' ca' cp' s cr' a' p' np' new pl' b' /\
    flat (ca' ++ cp' :: Plain s :: cr') = flat (ca ++ cp :: Plain s :: cr).
Proof.
  intros Har Hfl. pose proof Har as [Hco Hl Hlen Ho]. pose proof (co_wf _ _ Hco) as Hwf. pose proof (wf_ids _ Hwf) as Hnd. pose proof (wf_fill _ Hwf) as [Hfill _]. unfold _quicklistMergeNodes.
  assert (Hids : (ql_nodes ql).*1 = (a.*1 ++ [p]) ++ new :: b.*1) by (rewrite Hl, fmap_app, <- app_assoc; done).
  assert (Hprev : q_prev ql new = Some p) by (rewrite (prev_ids ql _ _ _ Hnd Hids); by rewrite reverse_snoc).
  assert (Hnext : q_next ql new = head (b.*1)) by (by apply (next_ids ql (a.*1 ++ [p]))).
  assert (Hnn : (next ← q_next ql new; q_next ql next) = head (tail (b.*1))).
  { rewrite Hnext. destruct (b.*1) as [|x ib]; [done|]. cbn. apply (next_ids ql ((a.*1 ++ [p]) ++ [new]) x ib Hnd). by rewrite Hids, <- !app_assoc. }
  rewrite Hnn, Hnext, Hprev. cbn [mbind option_bind]. clear Hnn Hnext Hprev Hids.
  destruct (around_before ql ca cp s cr a p np new pl b (ql_fill ql) Har Hfill Hfl) as (q1 & ca1 & cp1 & a1 & p1 & np1 & pl1 & b1 & H1 & Har1 & Hfl1 & Hb1 & Hf1 & Hfi1).
  destruct (_quicklistNodeAllowMerge (node_of ql (Some p)) _ _) as [al1|]; [|done]. cbn [mbind option_bind] in H1 |- *. rewrite H1. cbn [mbind option_bind]. clear H1. rewrite <- Hb1.
  destruct (around_after q1 ca1 cp1 s cr a1 p1 np1 new pl1 b1 (ql_fill ql) Har1 Hfill Hfl1) as (q2 & cr2 & a2 & np2 & pl2 & b2 & H2 & Har2 & Hf2).
  destruct (_quicklistNodeAllowMerge (node_of q1 (head (b1.*1))) _ _) as [al2|]; [|done]. cbn [mbind option_bind] in H2 |- *. rewrite H2. cbn [mbind option_bind]. clear H2.
  destruct (around_plain _ _ _ _ _ _ _ _ _ _ _ Har2) as (Hpl & Hg & _). cbn [node_of mbind option_bind]. rewrite Hg. rewrite !allow_plain by done. cbn [mbind option_bind]. rewrite Hg, allow_plain by done. cbn [mbind option_bind].
  exists q2, ca1, cp1, cr2, a2, p1, np2, pl2, b2. split; [done|]. split; [done|]. rewrite !flat_app, !flat_cons in Hf1 |- *. change (flat []) with (@nil (list Z)) in Hf1. rewrite !app_nil_r in Hf1.
  rewrite (flat_cons cp), flat_cons, Hf2, (app_assoc (flat ca1)), Hf1. by rewrite <- app_assoc.
Qed.

(** The three nodes are compressed in turn. *)
Lemma around_release ql ca cp s cr a p np new pl b : around ql ca cp s cr a p np new pl b ->
  result (ql ← quicklistCompress junk lzf_base lzf_junk ql new; prev ← q_prev ql new; ql ← quicklistCompress junk lzf_base lzf_junk ql prev;
          match q_next ql new with Some next => quicklistCompress junk lzf_base lzf_junk ql next | None => Some ql end) (flat (ca ++ cp :: Plain s :: cr)).
Proof.
  intros [Hco Hl Hlen Ho]. pose proof (co_wf _ _ Hco) as Hwf. set (cs := ca ++ cp :: Plain s :: cr) in *. assert (Hids : (ql_nodes ql).*1 = (a.*1 ++ [p]) ++ new :: b.*1) by (rewrite Hl, fmap_app, <- app_assoc; done).
  assert (El : ql_nodes ql = (a ++ [(p, np)]) ++ (new, pl) :: b) by (by rewrite Hl, <- app_assoc). destruct (node_at_split ql _ new pl b Hwf El) as (Hi & _ & _).
  destruct (ql_compress_ok junk lzf_base lzf_junk Hbase Hlzf ql _ new pl Hwf Hi (co_flags _ _ Hco) (co_lzf _ _ Hco)) as (l1 & n1 & -> & Hs1 & Hd1 & _). cbn [mbind option_bind].
  pose proof (core_sim ql cs l1 Hco Hs1 Hd1) as Hco1. set (q1 := with_nodes ql l1) in *. assert (Hids1 : (ql_nodes q1).*1 = (a.*1 ++ [p]) ++ new :: b.*1) by (unfold q1; rewrite nodes_with, (lsim_ids _ _ Hs1); done).
  rewrite (prev_ids q1 _ _ _ (wf_ids _ (co_wf _ _ Hco1)) Hids1), reverse_snoc. cbn [head mbind option_bind]. pose proof Hids1 as Hp. rewrite <- app_assoc in Hp. cbn [app] in Hp. destruct (ids_split _ _ _ _ Hp) as (a1 & np1 & b1 & Hl1 & _ & _).
  destruct (release_ok junk lzf_base lzf_junk Hbase Hlzf q1 cs a1 p np1 b1 Hco1 Hl1) as (l2 & -> & Hinv2 & Hs2); [by apply (only_sim _ _ _ Hs1)|]. cbn [mbind option_bind]. set (q2 := with_nodes q1 l2) in *.
  assert (Hids2 : (ql_nodes q2).*1 = (a.*1 ++ [p]) ++ new :: b.*1) by (unfold q2; rewrite nodes_with, (lsim_ids _ _ Hs2); done).
  rewrite (next_ids q2 _ _ _ (wf_ids _ (co_wf _ _ (proj1 Hinv2))) Hids2). destruct (b.*1) as [|x ib]; cbn [head]; [by exists q2, cs|]. rewrite cons_middle, app_assoc in Hids2. destruct (ids_split _ _ _ _ Hids2) as (a2 & nx & b2 & Hl2 & _ & _).
  destruct (release_ok junk lzf_base lzf_junk Hbase Hlzf q2 cs a2 x nx b2 (proj1 Hinv2) Hl2) as (l3 & -> & Hinv3 & _); [by apply (inv_only q2 cs)|]. eexists _, cs. by split.
Qed.

Lemma delete_last_take {A} (l : list A) : delete (length l - 1)%nat l = take (length l - 1) l.
Proof. destruct l as [|x l _] using rev_ind; [done|]. rewrite length_app. cbn [length]. replace (length l + 1 - 1)%nat with (length l) by lia. rewrite delete_take_drop, drop_ge, app_nil_r by (rewrite length_app; cbn; lia). done. Qed.

(** ** Replacement *)

Lemma replace_ok ql ca c cb a id n b j e s : found ql ca c cb a id n b j e -> elem_ok s ->
  result (quicklistReplaceEntry junk usable lzf_base lzf_junk packed_threshold ql e s) (flat ca ++ <[j := s]> (vals c) ++ flat cb).
Proof.
  intros Hf Hs. pose proof (found_lt _ _ _ _ _ _ _ _ _ _ Hf) as Hj. destruct (found_rep _ _ _ _ _ _ _ _ _ _ Hf) as (Hrep & Hcnt & Hg & _). pose proof (wf_fill _ (co_wf _ _ (fo_core _ _ _ _ _ _ _ _ _ _ Hf))) as [Hfill _]. pose proof (co_count _ _ (fo_core _ _ _ _ _ _ _ _ _ _ Hf)) as Hcount.
  unfold quicklistReplaceEntry. rewrite (fo_node _ _ _ _ _ _ _ _ _ _ Hf). cbn [mbind option_bind]. rewrite Hg. cbn [mbind option_bind]. destruct (large_spec packed_threshold Hthr (zlen s) (ql_fill ql) Hfill) as (large & El & Hlarge). rewrite El. cbn [mbind option_bind].
  rewrite (nr_plain _ _ Hrep), (fo_zi _ _ _ _ _ _ _ _ _ _ Hf). destruct c as [v|es]; cbn [is_plain negb andb mbind option_bind zpos].
  - cbn in Hj. assert (j = 0%nat) as -> by lia. cbn [vals]. change (<[0%nat:=s]> [v]) with [s]. destruct large; [|specialize (Hlarge eq_refl); destruct Hs; by apply (replace_plain ql ca v cb a id n b 0 e s)].
    by apply (replace_release ql ca (Plain v) cb a id n b 0 e s (Plain s)).
  - assert (Hv : Forall valid_entry es) by apply (nr_ok _ _ Hrep). rewrite length_vals in Hj by done. destruct large; cbn [negb mbind option_bind].
    + destruct (replace_parts ql ca es cb a id n b j e s Hf Hs) as (q & new & cr & a' & n1 & pl & b' & Hq & Hp & Hcr & Hc).
      match type of Hq with (x ← ?m; @?k x) = _ => destruct m as [[q0 sp]|]; [|done] end. cbn [mbind option_bind] in Hq |- *. destruct (__quicklistCreateNode _ _ _ _) as [nn|]; [|done]. cbn [mbind option_bind] in Hq |- *.
      destruct (insert_node _ _ _ q0 _ _ _) as [[q1 new1]|]; [|done]. cbn [mbind option_bind] in Hq |- *. destruct (match sp with Some _ => _ | None => _ end) as [q2|]; [|done]. cbn [mbind option_bind] in Hq |- *. injection Hq as -> ->.
      assert (Hval : <[j:=s]> (vals (Packed es)) = take j (vals (Packed es)) ++ [s] ++ drop (S j) (vals (Packed es))) by (by rewrite insert_take_drop by (by rewrite length_vals)).
      pose proof (pa_n1 _ _ _ _ _ _ _ _ _ _ _ Hp) as (R1 & C1 & _). destruct (node_at_split (with_count q (ql_count q + 1)) a' id n1 _ (wf_count _ _ (pa_wf _ _ _ _ _ _ _ _ _ _ _ Hp)) (pa_nodes _ _ _ _ _ _ _ _ _ _ _ Hp)) as (_ & -> & _). cbn [mbind option_bind].
      assert (Hv1 : Forall valid_entry (take (S j) es)) by (by apply Forall_take). rewrite C1, zlen_vals by done. assert (Hl1 : length (take (S j) es) = S j) by (rewrite length_take; lia).
      assert (Hk : ql_count q + 1 = zlen (flat ca) + zlen (take (S j) es) + 1 + zlen (flat cr)).
      { rewrite Hc, Hcount, Hcr, flat_app, flat_cons, !zlen_app. unfold zlen. rewrite Hl1, length_drop, length_vals by done. lia. }
      destruct (Z.eqb_spec (zlen (take (S j) es)) 1) as [E1|E1].
      * assert (j = 0%nat) as -> by (unfold zlen in E1; lia). destruct (parts_del q (ql_count q + 1) ca _ s cr a' id n1 new pl b' Hp) as (ql' & cs' & Hd & Hinv & Hfl); [by rewrite length_vals|lia|].
        exists ql', cs'. split; [done|]. split; [done|]. rewrite Hfl, Hcr, Hval. cbn [take app]. done.
      * assert (Hlt : (1 < length (take (S j) es))%nat) by (unfold zlen in E1; lia). destruct (parts_shrink q (ql_count q + 1) ca _ s cr a' id n1 new pl b' Hp Hlt Hk) as (q2 & n2 & Hq2 & Har & Hfl2).
        destruct (lpSeek (qn_entry n1) (-1)) as [r|]; [|done]. cbn [mbind option_bind] in Hq2 |- *. destruct (quicklistDelIndex _ _ _ _ _ _ r) as [[[q3 ?] ?]|]; [|done]. cbn [mbind option_bind] in Hq2 |- *. rewrite Hq2. cbn [mbind option_bind]. clear Hq2.
        destruct (around_merge q2 ca _ s cr a' id n2 new pl b' Har Hfl2) as (q4 & ca4 & cp4 & cr4 & a4 & p4 & np4 & pl4 & b4 & -> & Har4 & Hf4). cbn [mbind option_bind].
        destruct (around_release q4 ca4 cp4 s cr4 a4 p4 np4 new pl4 b4 Har4) as (ql' & cs' & Hq & Hinv & Hfl). exists ql', cs'. split; [exact Hq|]. split; [done|].
        rewrite Hfl, Hf4, flat_app, !flat_cons, Hcr, Hval, delete_last_take, Hl1. replace (S j - 1)%nat with j by lia. rewrite take_take, Nat.min_l by lia. rewrite vals_take by done. cbn [vals]. by rewrite <- !app_assoc.
    + specialize (Hlarge eq_refl). destruct Hs as [Hs _]. pose proof (nr_raw _ _ Hrep) as Hr. rewrite (fo_raw _ _ _ _ _ _ _ _ _ _ Hf) in Hr. pose proof (packed_ok_insert es j s (nr_ok _ _ Hrep) Hs Hlarge) as Hok.
      destruct (raw_put junk usable Husable (qn_entry n) es s j LP_REPLACE Hr Hs Hlarge Hj Hok) as (b' & p & Hput & Hr'). cbn [put_list] in Hr'. unfold lpReplace. unfold lpInsertString in Hput. rewrite Hput. cbn [mbind option_bind].
      rewrite (raw_bytes _ _ Hr'). cbn [mbind option_bind].
      rewrite <- vals_insert by done. apply (replace_release ql ca (Packed es) cb a id n b j e b' (Packed (<[j:=lp_encode s]> es))); [done|done|done|done|]. rewrite !length_vals by (done || apply Hok). by rewrite length_insert.
Qed.
End Rep.
