(* ===== verification/QuicklistThms.v ===== *)
(** * Quicklists: lists of byte strings

    Every operation of a quicklist answers as the operation on a list of byte strings does,
    for every allocator, every fill factor and every compression depth. *)

From stdpp Require Import base list numbers option tactics.
From S2P Require Import Prelude Util ListpackEnc Listpack ListpackNav ListpackUpd Lzf Quicklist QuicklistOps QuicklistSpec QuicklistComp QuicklistEnds QuicklistMerge QuicklistIns QuicklistRep.

Lemma new_ok fill compress : inv (quicklistNew fill compress) [].
Proof.
  split; [|constructor]. split; [|constructor|done|by intros i x Hi|by intros i x Hi|constructor|constructor]. split; [constructor|constructor|done| | |constructor]; unfold quicklistNew, quicklistSetOptions, quicklistSetCompressDepth, quicklistSetFill, COMPRESS_MAX, FILL_MAX; cbn [ql_compress ql_fill]; rewrite !Z.gtb_ltb.
  - destruct (Z.ltb_spec (2 ^ 16 - 1) compress); [lia|]. destruct (Z.ltb_spec compress 0); lia.
  - destruct (Z.ltb_spec (2 ^ 15 - 1) fill); [lia|]. destruct (Z.ltb_spec fill (-5)); lia.
Qed.

Definition rotated (vs : list (list Z)) : list (list Z) := match reverse vs with [] => [] | v :: r => v :: reverse r end.

Lemma rotated_snoc vs v : rotated (vs ++ [v]) = v :: vs.
Proof. unfold rotated. by rewrite reverse_snoc, reverse_involutive. Qed.

Section Thms.
Context (junk : nat -> Z) (usable : Z -> Z) (Husable : forall n, 0 <= n -> n <= usable n).
Context (lzf_base : Z) (lzf_junk : Z -> Z) (Hbase : 8192 <= lzf_base /\ lzf_base + 2 ^ 32 <= 2 ^ 64) (Hlzf : forall i, 0 <= lzf_junk i < 2 ^ 64).
Context (packed_threshold : Z) (Hthr : 0 <= packed_threshold <= 65537).

Lemma ends_raw ql cs front : inv ql cs -> is_raw ql (if front : bool then ql_head ql else ql_tail ql) = true.
Proof.
  intros [Hco _]. unfold is_raw. destruct cs as [|c cs].
  - pose proof (co_holds _ _ Hco) as Hh. apply Forall2_nil_inv_r in Hh. unfold ql_head, ql_tail. rewrite Hh. by destruct front.
  - destruct (end_split ql (c :: cs) front Hco ltac:(done)) as (a & id & n & b & ca & c' & cb & El & _ & _ & -> & Hend). destruct (node_at_split ql a id n b (co_wf _ _ Hco) El) as (_ & Hg & _). cbn [node_of mbind option_bind]. rewrite Hg.
    rewrite (end_raw ql a id n b (co_wf _ _ Hco) (co_lzf _ _ Hco) El); [done|]. destruct front; [left|right]; apply Hend.
Qed.

Lemma push_ok ql cs s front : inv ql cs -> elem_ok s ->
  exists ql' cs', quicklistPush junk usable lzf_base lzf_junk packed_threshold ql s front = Some ql' /\ inv ql' cs' /\ flat cs' = if front then s :: flat cs else flat cs ++ [s].
Proof.
  intros Hinv Hs. unfold quicklistPush. rewrite (ends_raw ql cs true Hinv), (ends_raw ql cs false Hinv). cbn [andb cassert mbind option_bind]. destruct front.
  - destruct (push_head_ok junk usable Husable lzf_base lzf_junk Hbase Hlzf packed_threshold Hthr ql cs s Hinv Hs) as (ql' & cs' & H1 & H2 & H3 & _). by exists ql', cs'.
  - by apply push_tail_ok.
Qed.

Lemma replace_at_ok ql cs idx s : inv ql cs -> elem_ok s -> INT64_MIN < idx ->
  let i := norm_index idx (zlen (flat cs)) in
  exists ql' r cs', quicklistReplaceAtIndex junk usable lzf_base lzf_junk packed_threshold ql idx s = Some (ql', r) /\ inv ql' cs' /\
    if bool_decide (0 <= i < zlen (flat cs)) then r = true /\ flat cs' = <[Z.to_nat i := s]> (flat cs) else r = false /\ flat cs' = flat cs.
Proof.
  intros Hinv Hs Hmin i. unfold quicklistReplaceAtIndex. destruct (bool_decide_reflect (0 <= i < zlen (flat cs))) as [Hi|Hout].
  - destruct (entry_found junk lzf_base lzf_junk ql cs idx Hinv Hmin Hi) as (ql1 & iter & e & a & id & n & b & ca & c & cb & j & -> & -> & Hf & Hn & _). cbn [mbind option_bind]. fold i in Hn.
    destruct (replace_ok junk usable Husable lzf_base lzf_junk Hbase Hlzf packed_threshold Hthr ql1 ca c cb a id n b j e s Hf Hs) as (ql' & cs' & -> & Hinv' & Hfl). cbn [mbind option_bind quicklistResetIterator resetIterator qi_current].
    exists ql', true, cs'. split; [done|]. split; [done|]. split; [done|]. rewrite Hfl, flat_app, flat_cons. pose proof (found_lt _ _ _ _ _ _ _ _ _ _ Hf) as Hj.
    rewrite insert_app_r_alt by (unfold zlen in *; lia). replace (Z.to_nat i - length (flat ca))%nat with j by (unfold zlen in *; lia). by rewrite insert_app_l.
  - unfold quicklistInitIteratorEntryAtIdx. pose proof (init_at_out ql cs false idx (proj1 Hinv) Hmin Hout) as Ho. destruct (quicklistInitIteratorAtIdx ql false idx) as [iter ok]. cbn [snd] in Ho. subst ok. cbn [negb mbind option_bind].
    by exists ql, false, cs.
Qed.

(** ** Rotation *)

(** The text of an element, as the rotation copies it. *)
Lemma entry_copy b es j v : raw b (Packed es) -> vals (Packed es) !! j = Some v ->
  exists le, read_value b (pos es j) = Some le /\ Forall is_byte v /\ zlen v < 2 ^ 32 /\
    match le with SVal s => Some s | LVal v => '(buf, sz) ← ll2string (replicate 32 0) 0 32 v; rd_bytes buf 0 sz end = Some v.
Proof.
  intros [num Hr] Hi. pose proof Hr as (Hv & _). destruct (raw_read b es j v ltac:(by exists num) Hi) as (le & Hle & Ht). rewrite vals_lookup in Hi by done. apply bind_Some in Hi as (e & He & Het).
  exists le. split; [done|]. pose proof (repr_valid _ _ _ Hr _ _ He) as Hve. destruct (valid_entry_get e Hve) as (w & Hw & Hok). unfold entry_text in Het. rewrite Hw in Het. cbn [mbind option_bind] in Het.
  assert (Hbytes : Forall is_byte v /\ zlen v < 2 ^ 32).
  { destruct w as [off len|w]; cbn [ListpackEnc.value_ok] in Hok.
    - destruct Hok as (t & Ht' & Hb). rewrite Ht' in Het. injection Het as <-. split; [done|]. destruct (rd_bytes_inv _ _ _ _ Ht') as (? & ? & ? & _). assert (zlen e < 2 ^ 32) by apply Hve. lia.
    - injection Het as <-. split; [apply ll_text_bytes|]. pose proof (zlen_ll_text w Hok). unfold LONG_STR_SIZE in *. lia. }
  split; [apply Hbytes|]. split; [apply Hbytes|]. destruct le as [s|z]; cbn [arg_text] in Ht; [by rewrite Ht|].
  assert (Hz : is_s 64 z).
  { destruct (repr_at b es num Hr j e He) as (a & c & -> & Ha). unfold read_value, lpGetValue, lpGet, ent in *. rewrite <- Ha, <- app_assoc, (lpGetWithBuf_embed _ _ _ _ Hw) in Hle. cbn [mbind option_bind] in Hle.
    destruct w as [off len|w]; cbn [lpval_shift mbind option_bind] in Hle; [by apply bind_Some in Hle as (? & _ & [=])|]. injection Hle as ->. done. }
  pose proof (zlen_ll_text z Hz) as Hl. unfold LONG_STR_SIZE in Hl. pose proof (ll2string_ok [] (replicate 32 0) [] z Hz) as H. cbn [app] in H. rewrite app_nil_r in H. change (zlen (@nil Z)) with 0 in H. change (zlen (replicate 32 0)) with 32 in H.
  rewrite H by lia. cbn [mbind option_bind]. rewrite app_nil_r, rd_bytes_head by done. by rewrite Ht.
Qed.

(** The last node after a push at the head. *)
Lemma pushed_tail s ca es cs1 : pushed s (ca ++ [Packed es]) cs1 -> exists ca1 c1, cs1 = ca1 ++ [c1] /\ (c1 = Packed es /\ ca1 <> [] \/ c1 = Packed (lp_encode s :: es) /\ ca1 = []).
Proof.
  intros Hp. inversion Hp as [c0 cs0 Hc E1 E2|es' cb E1 E2]; subst.
  - exists (c0 :: ca), (Packed es). split; [done|by left].
  - destruct ca as [|c ca]; cbn in E1; [injection E1 as -> ->|injection E1 as <- ->].
    + exists [], (Packed (lp_encode s :: es)). split; [done|by right].
    + exists (Packed (lp_encode s :: es') :: ca), (Packed es). split; [done|by left].
Qed.

Lemma last_seek b es : raw b (Packed es) -> Forall valid_entry es -> es <> [] -> lpSeek b (-1) = Some (Some (pos es (length es - 1))).
Proof.
  intros Hr Hv Hne. assert ((0 < length es)%nat) by (destruct es; [done|cbn; lia]).
  rewrite (raw_seek _ _ (-1) Hr ltac:(done)), (seek_offset es (-1) (length es - 1)%nat Hv); [done|lia|right; rewrite zlen_vals by done; unfold zlen; lia].
Qed.

Lemma node_facts ql cs a id n b ca c cb : core ql cs -> ql_nodes ql = a ++ (id, n) :: b -> cs = ca ++ c :: cb -> length a = length ca -> node_rep n c /\ qn_count n = zlen (vals c) /\ get_node ql id = Some n.
Proof.
  intros Hco Hl -> Hlen. pose proof (co_holds _ _ Hco) as Hh. rewrite Hl in Hh. destruct (holds_split _ _ _ _ _ _ Hh Hlen) as (_ & [Hr Hc] & _). split; [done|]. split; [done|].
  by destruct (node_at_split ql a id n b (co_wf _ _ Hco) Hl) as (_ & ? & _).
Qed.

Lemma rotate_packed ql ca es : inv ql (ca ++ [Packed es]) -> 1 < zlen (flat (ca ++ [Packed es])) ->
  result (quicklistRotate junk usable lzf_base lzf_junk packed_threshold ql) (rotated (flat (ca ++ [Packed es]))).
Proof.
  intros Hinv Hcnt. pose proof Hinv as [Hco Hu]. unfold quicklistRotate. rewrite (co_count _ _ Hco), (proj2 (Z.leb_gt _ 1)) by lia.
  destruct (end_split ql _ false Hco ltac:(by destruct ca)) as (a & id & n & b & ca' & c & cb & El & Ecs & Hlen & -> & [-> ->]). apply app_inj_tail in Ecs as [<- <-]. cbn [mbind option_bind].
  destruct (node_facts ql _ a id n [] ca (Packed es) [] Hco El eq_refl Hlen) as (Hrep & _ & ->). cbn [mbind option_bind]. rewrite (nr_plain _ _ Hrep). cbn [is_plain].
  assert (Hz : qn_lzf n = false) by (apply (end_raw ql a id n [] (co_wf _ _ Hco) (co_lzf _ _ Hco) El); by right). pose proof (nr_raw _ _ Hrep) as Hr. rewrite Hz in Hr. assert (Hv : Forall valid_entry es) by apply (nr_ok _ _ Hrep).
  pose proof (co_nonempty _ _ Hco) as Hnz. apply list.Forall_app in Hnz as [_ [Hnz _]%list.Forall_cons]. assert (Hne : es <> []) by (by intros ->). assert (Hpos : (0 < length es)%nat) by (destruct es; [done|cbn; lia]).
  rewrite (last_seek _ _ Hr Hv Hne). cbn [mbind option_bind]. destruct (lookup_lt_is_Some_2 (vals (Packed es)) (length es - 1)) as [v Hvl]; [rewrite length_vals by done; lia|].
  destruct (entry_copy _ _ _ _ Hr Hvl) as (le & -> & Hb & Hl32 & Hcopy). cbn [mbind option_bind]. rewrite Hcopy. cbn [mbind option_bind].
  destruct (push_head_ok junk usable Husable lzf_base lzf_junk Hbase Hlzf packed_threshold Hthr ql _ v Hinv (conj Hb Hl32)) as (ql1 & cs1 & -> & Hinv1 & Hfl1 & Hpush). cbn [mbind option_bind].
  destruct (pushed_tail _ _ _ _ Hpush) as (ca1 & c1 & -> & Hc1). pose proof Hinv1 as [Hco1 Hu1].
  destruct (end_split ql1 _ false Hco1 ltac:(by destruct ca1)) as (a1 & id1 & n1 & b1 & ca2 & c2 & cb2 & El1 & Ecs1 & Hlen1 & -> & [-> ->]). apply app_inj_tail in Ecs1 as [<- <-]. cbn [mbind option_bind].
  destruct (node_facts ql1 _ a1 id1 n1 [] ca1 c1 [] Hco1 El1 eq_refl Hlen1) as (Hrep1 & _ & ->). cbn [mbind option_bind]. assert (Hz1 : qn_lzf n1 = false) by (apply (end_raw ql1 a1 id1 n1 [] (co_wf _ _ Hco1) (co_lzf _ _ Hco1) El1); by right).
  assert (Hlast : exists p, (if ql_len ql1 =? 1 then r ← lpSeek (qn_entry n1) (-1); r else Some (pos es (length es - 1))) = Some p /\ entry_at c1 (end_index false (vals c1)) (Some p) /\ vals c1 !! end_index false (vals c1) = Some v).
  { assert (Hql : ql_len ql1 = Z.of_nat (length ca1) + 1) by (rewrite (wf_len _ (co_wf _ _ Hco1)), El1, zlen_app; unfold zlen; cbn; lia). rewrite Hql. destruct Hc1 as [[-> Hca]|[-> ->]].
    - assert ((0 < length ca1)%nat) by (destruct ca1; [done|cbn; lia]). rewrite (proj2 (Z.eqb_neq _ 1)) by lia. unfold end_index. rewrite length_vals by done. eexists. split; [done|]. split; [|done]. split; [lia|done].
    - assert (Hv1 : Forall valid_entry (lp_encode v :: es)) by apply (nr_ok _ _ Hrep1). pose proof (nr_raw _ _ Hrep1) as Hr1. rewrite Hz1 in Hr1. cbn [length]. change (Z.of_nat 0 + 1 =? 1) with true. cbv iota. rewrite (last_seek _ _ Hr1 Hv1) by done. cbn [mbind option_bind].
      unfold end_index. rewrite length_vals by done. eexists. split; [done|]. split; [split; [cbn; lia|done]|]. cbn [length]. replace (S (length es) - 1)%nat with (S (length es - 1)) by lia.
      rewrite vals_lookup by done. cbn [lookup list_lookup]. by rewrite <- vals_lookup. }
  destruct Hlast as (p & -> & Hat & Hvv). cbn [mbind option_bind]. pose proof Hu1 as Hu1'. rewrite El1 in Hu1'. apply unflagged_app in Hu1' as [Ua1 Ub1]. apply unflagged_cons in Ub1 as [Un1 _].
  destruct (del_index_ok junk usable Husable lzf_base lzf_junk Hbase Hlzf ql1 ca1 c1 [] a1 id1 n1 [] (end_index false (vals c1)) (Some p) Hco1 El1 Hlen1 Hz1) as (ql2 & gone & p' & -> & Hdel & _); [apply unflagged_deep; by rewrite app_nil_r|done|]. cbn [mbind option_bind].
  destruct (deleted_flat ql1 ql2 ca1 c1 [] a1 id1 n1 [] _ gone Hco1 El1 Hlen1 ltac:(by eexists) Hdel) as (cs2 & Hco2 & Hfl2 & Hu2). exists ql2, cs2. split; [done|]. split; [split; [done|by apply Hu2; [done|constructor|right]]|].
  pose proof (pop_delete false (flat ca1) [] (vals c1) v Hvv eq_refl) as Hpop. cbn [pop_spec] in Hpop. change (flat []) with (@nil (list Z)) in Hfl2. rewrite <- Hfl2 in Hpop.
  rewrite flat_app, flat_cons in Hfl1. change (flat []) with (@nil (list Z)) in Hfl1. rewrite Hpop in Hfl1.
  assert (Hold : exists vs, flat (ca ++ [Packed es]) = vs ++ [v]).
  { exists (flat ca ++ delete (length es - 1)%nat (vals (Packed es))). rewrite flat_app, flat_cons. change (flat []) with (@nil (list Z)). rewrite app_nil_r. rewrite <- app_assoc. f_equal.
    pose proof (pop_delete false [] [] (vals (Packed es)) v) as Hp. unfold end_index in Hp. rewrite length_vals in Hp by done. specialize (Hp Hvl eq_refl). cbn [pop_spec app] in Hp. by rewrite !app_nil_r in Hp. }
  destruct Hold as [vs Hold]. rewrite Hold in Hfl1 |- *. rewrite rotated_snoc. change (v :: vs ++ [v]) with ((v :: vs) ++ [v]) in Hfl1. by apply app_inj_tail in Hfl1 as [-> _].
Qed.

(** Without compression a node can go to the front as it is. *)
Lemma rotate_plain ql ca v : inv ql (ca ++ [Plain v]) -> ql_compress ql = 0 -> 1 < zlen (flat (ca ++ [Plain v])) ->
  result (quicklistRotate junk usable lzf_base lzf_junk packed_threshold ql) (rotated (flat (ca ++ [Plain v]))).
Proof.
  intros Hinv H0 Hcnt. pose proof Hinv as [Hco Hu]. unfold quicklistRotate. rewrite (co_count _ _ Hco), (proj2 (Z.leb_gt _ 1)) by lia.
  destruct (end_split ql _ false Hco ltac:(by destruct ca)) as (a & id & n & b & ca' & c & cb & El & Ecs & Hlen & -> & [-> ->]). apply app_inj_tail in Ecs as [<- <-]. cbn [mbind option_bind].
  destruct (node_facts ql _ a id n [] ca (Plain v) [] Hco El eq_refl Hlen) as (Hrep & Hn & ->). cbn [mbind option_bind]. rewrite (nr_plain _ _ Hrep). cbn [is_plain]. unfold quicklistRotatePlain. rewrite El, reverse_snoc.
  assert (Hne : reverse a <> []). { intros E. apply (f_equal length) in E. rewrite length_reverse in E. destruct a; [|done]. destruct ca; [|done]. cbn in Hcnt. unfold zlen in Hcnt. cbn in Hcnt. lia. }
  rewrite bool_decide_true by done. cbn [cassert mbind option_bind]. rewrite reverse_involutive. exists (with_nodes ql ((id, n) :: a)), (Plain v :: ca). split; [done|].
  assert (Hfl : flat (ca ++ [Plain v]) = flat ca ++ [v]) by (by rewrite flat_app). split; [|by rewrite Hfl, rotated_snoc].
  pose proof Hco as [[W1 W2 W3 W4 W5 W6] H2 H3 H4 H5 H6 H7]. rewrite El in *. assert (Hperm : (id, n) :: a ≡ₚ a ++ [(id, n)]) by (by rewrite Permutation_app_comm).
  assert (Hlz : lzf_deep (ql_compress ql) ((id, n) :: a)).
  { intros i x Hi Hx. apply list_elem_of_lookup_2 in Hi. rewrite Hperm in Hi. apply list_elem_of_lookup in Hi as [k Hk]. destruct (H4 k x Hk Hx). lia. }
  assert (Hu' : unflagged ((id, n) :: a)) by (unfold unflagged in *; by rewrite Hperm).
  split; [|exact Hu']. split; cbn [with_nodes ql_nodes ql_count ql_compress]; [|by constructor; [|apply Forall2_app_inv in H2 as [? _]]| |done|by apply unflagged_deep|by rewrite Hperm|].
  - split; cbn [with_nodes ql_nodes ql_fresh ql_len ql_compress ql_fill]; [by rewrite Hperm|by rewrite Hperm| |done|done|by rewrite Hperm]. rewrite W3, zlen_app, !zlen_cons, zlen_nil. lia.
  - rewrite H3, flat_app, !flat_cons, !zlen_app. change (flat []) with (@nil (list Z)). rewrite zlen_nil. lia.
  - apply list.Forall_app in H7 as [Na Nv]. constructor; [done|done].
Qed.

Lemma rotate_ok ql cs : inv ql cs -> ql_compress ql = 0 -> result (quicklistRotate junk usable lzf_base lzf_junk packed_threshold ql) (rotated (flat cs)).
Proof.
  intros Hinv H0. destruct (decide (1 < zlen (flat cs))) as [Hc|Hc].
  - destruct cs as [|c ca _] using rev_ind; [done|]. destruct c as [v|es]; [by apply rotate_plain|by apply rotate_packed].
  - unfold quicklistRotate. rewrite (co_count _ _ (proj1 Hinv)), (proj2 (Z.leb_le _ 1)) by lia. exists ql, cs. split; [done|]. split; [done|]. destruct (flat cs) as [|v [|w vs]]; [done|done|]. rewrite !zlen_cons in Hc. pose proof (zlen_nonneg vs). lia.
Qed.

(** ** Histories *)

Inductive qop := QPush (s : list Z) (front : bool) | QPop (front : bool) | QIndex (idx : Z) | QInsert (idx : Z) (s : list Z) (after : bool) | QReplace (idx : Z) (s : list Z) | QDelRange (start count : Z).
Inductive qres := RDone | RVal (v : option (list Z)) | RFlag (b : bool).

Definition qstep (ql : quicklist) (op : qop) : option (quicklist * qres) :=
  match op with
  | QPush s front => ql ← quicklistPush junk usable lzf_base lzf_junk packed_threshold ql s front; Some (ql, RDone)
  | QPop front => '(v, ql) ← quicklistPop junk usable lzf_base lzf_junk ql front; Some (ql, RVal (arg_text <$> v))
  | QIndex idx => '(ql, v) ← quicklist_index junk lzf_base lzf_junk ql idx; Some (ql, RVal (arg_text <$> v))
  | QInsert idx s after => '(ql, b) ← quicklist_insert_at junk usable lzf_base lzf_junk packed_threshold ql idx s after; Some (ql, RFlag b)
  | QReplace idx s => '(ql, b) ← quicklistReplaceAtIndex junk usable lzf_base lzf_junk packed_threshold ql idx s; Some (ql, RFlag b)
  | QDelRange start count => '(ql, b) ← quicklistDelRange junk usable lzf_base lzf_junk ql start count; Some (ql, RFlag b)
  end.

Definition in_list (i : Z) (vs : list (list Z)) : bool := bool_decide (0 <= i < zlen vs).

(** The same operations on a list. *)
Definition lstep (vs : list (list Z)) (op : qop) : list (list Z) * qres :=
  match op with
  | QPush s front => (if front then s :: vs else vs ++ [s], RDone)
  | QPop true => match vs with [] => ([], RVal None) | v :: vs => (vs, RVal (Some v)) end
  | QPop false => match reverse vs with [] => ([], RVal None) | v :: r => (reverse r, RVal (Some v)) end
  | QIndex idx => let i := norm_index idx (zlen vs) in (vs, RVal (if i <? 0 then None else vs !! Z.to_nat i))
  | QInsert idx s after => let i := norm_index idx (zlen vs) in if in_list i vs then (vput after (Z.to_nat i) vs s, RFlag true) else (vs, RFlag false)
  | QReplace idx s => let i := norm_index idx (zlen vs) in if in_list i vs then (<[Z.to_nat i := s]> vs, RFlag true) else (vs, RFlag false)
  | QDelRange start count => let i := norm_index start (zlen vs) in if (0 <? count) && in_list i vs then (take (Z.to_nat i) vs ++ drop (Z.to_nat (i + count)) vs, RFlag true) else (vs, RFlag false)
  end.

(** Elements are byte strings shorter than 4 GB. *)
Definition op_ok (op : qop) : Prop :=
  match op with
  | QPush s _ => elem_ok s
  | QPop _ => True
  | QIndex idx => INT64_MIN < idx
  | QInsert idx s _ => elem_ok s /\ INT64_MIN < idx
  | QReplace idx s => elem_ok s /\ INT64_MIN < idx
  | QDelRange start _ => INT64_MIN < start
  end.

Fixpoint qrun (ql : quicklist) (ops : list qop) : option (quicklist * list qres) :=
  match ops with
  | [] => Some (ql, [])
  | op :: ops => '(ql, r) ← qstep ql op; '(ql, rs) ← qrun ql ops; Some (ql, r :: rs)
  end.

Fixpoint lrun (vs : list (list Z)) (ops : list qop) : list (list Z) * list qres :=
  match ops with
  | [] => (vs, [])
  | op :: ops => let '(vs, r) := lstep vs op in let '(vs, rs) := lrun vs ops in (vs, r :: rs)
  end.

(** No assertion fails, no access is out of bounds, and the answer is that of the list. *)
Lemma qstep_ok ql cs op : inv ql cs -> op_ok op -> exists ql' cs', qstep ql op = Some (ql', (lstep (flat cs) op).2) /\ inv ql' cs' /\ flat cs' = (lstep (flat cs) op).1.
Proof.
  intros Hinv Hop. destruct op as [s front|front|idx|idx s after|idx s|start count]; cbn [op_ok qstep lstep] in *.
  - destruct (push_ok ql cs s front Hinv Hop) as (ql' & cs' & -> & Hinv' & Hf). cbn [mbind option_bind]. by exists ql', cs'.
  - pose proof (pop_ok junk usable Husable lzf_base lzf_junk Hbase Hlzf ql cs front Hinv) as Hp. destruct (flat cs) as [|v vs] eqn:E.
    + rewrite Hp. cbn [mbind option_bind]. exists ql, cs. by destruct front.
    + destruct Hp as (le & ql' & cs' & -> & Hinv' & Hp). cbn [mbind option_bind fmap option_fmap option_map]. exists ql', cs'. destruct front; cbn [pop_spec] in Hp.
      * by injection Hp as -> ->.
      * rewrite Hp, reverse_snoc, reverse_involutive. done.
  - destruct (index_ok junk lzf_base lzf_junk Hbase Hlzf ql cs idx Hinv Hop) as (ql' & r & -> & Hinv' & Hr). cbn [mbind option_bind]. exists ql', cs. by rewrite Hr.
  - destruct Hop as [Hs Hi]. destruct (insert_at_ok junk usable Husable lzf_base lzf_junk Hbase Hlzf packed_threshold Hthr ql cs idx s after Hinv Hs Hi) as (ql' & r & cs' & -> & Hinv' & Hr). cbn [mbind option_bind]. exists ql', cs'.
    unfold in_list. destruct (bool_decide _); destruct Hr as [-> ->]; done.
  - destruct Hop as [Hs Hi]. destruct (replace_at_ok ql cs idx s Hinv Hs Hi) as (ql' & r & cs' & -> & Hinv' & Hr). cbn [mbind option_bind]. exists ql', cs'.
    unfold in_list. destruct (bool_decide _); destruct Hr as [-> ->]; done.
  - destruct (del_range_ok junk usable Husable lzf_base lzf_junk Hbase Hlzf ql cs start count Hinv Hop) as (ql' & r & cs' & -> & Hinv' & Hr). cbn [mbind option_bind]. exists ql', cs'.
    rewrite bool_decide_and in Hr. unfold in_list. replace (bool_decide (0 < count)) with (0 <? count) in Hr by (destruct (Z.ltb_spec 0 count); symmetry; [by apply bool_decide_true|apply bool_decide_false; lia]).
    destruct (_ && _); destruct Hr as [-> ->]; done.
Qed.

Lemma qrun_ok ops : forall ql cs, inv ql cs -> Forall op_ok ops -> exists ql' cs', qrun ql ops = Some (ql', (lrun (flat cs) ops).2) /\ inv ql' cs' /\ flat cs' = (lrun (flat cs) ops).1.
Proof.
  induction ops as [|op ops IH]; intros ql cs Hinv Hops; cbn [qrun lrun]; [by exists ql, cs|]. apply list.Forall_cons in Hops as [Hop Hops].
  destruct (qstep_ok ql cs op Hinv Hop) as (ql1 & cs1 & -> & Hinv1 & Hf1). cbn [mbind option_bind]. destruct (lstep (flat cs) op) as [vs r]. cbn [fst snd] in *. subst vs.
  destruct (IH ql1 cs1 Hinv1 Hops) as (ql2 & cs2 & -> & Hinv2 & Hf2). cbn [mbind option_bind]. destruct (lrun (flat cs1) ops) as [vs2 rs]. cbn [fst snd] in *. by exists ql2, cs2.
Qed.

(** C10: A history of pushes, pops, reads, insertions before and after an element, replacements
    and deletions of ranges on a new quicklist answers as the same history on a list of byte
    strings, for every fill factor, every compression depth, every allocator and every packed
    threshold from 0 (the default) to 65537; no assertion fails, and at the end the counter
    of the quicklist is the length of the list.  Elements are shorter than 4 GB and indices
    above [-2^63] ([op_ok]). *)
Theorem quicklist_history fill compress ops : Forall op_ok ops ->
  exists ql, qrun (quicklistNew fill compress) ops = Some (ql, (lrun [] ops).2) /\ ql_count ql = zlen (lrun [] ops).1.
Proof.
  intros Hops. destruct (qrun_ok ops (quicklistNew fill compress) [] (new_ok fill compress) Hops) as (ql & cs & Hq & Hinv & Hf). exists ql. split; [exact Hq|]. rewrite (co_count _ _ (proj1 Hinv)), Hf. done.
Qed.

(** C11: A push, a pop, a read at an index, an insertion, a replacement and a deletion of a range
    on a well-formed quicklist return and give a well-formed quicklist: numbered nodes without
    duplicates, their number and that of the elements as counted, listpacks and plain values
    of the recorded sizes, nodes within the compression depth of either end raw, and no node
    waiting to be compressed.  Elements are shorter than 4 GB, indices above [-2^63], and the
    packed threshold is at most 65537.  Appending a listpack as a node and rotating a plain
    node are not among these operations. *)
Theorem quicklist_preserved ql cs op : inv ql cs -> op_ok op -> exists ql' r cs', qstep ql op = Some (ql', r) /\ inv ql' cs'.
Proof. intros Hinv Hop. destruct (qstep_ok ql cs op Hinv Hop) as (ql' & cs' & Hq & Hinv' & _). by eexists ql', _, cs'. Qed.
End Thms.

(** ** Witnesses *)

Definition sample_ops : list qop :=
  [QPush [97] true; QPush [49; 50] false; QInsert 0 [98; 99] true; QReplace (-1) [100]; QIndex 1; QPop false; QDelRange (-1) 5; QPop true; QPop true].

Lemma sample_ops_ok : Forall op_ok sample_ops.
Proof.
  assert (He : forall s, Forall is_byte s -> (zlen s <? 2 ^ 32) = true -> elem_ok s) by (intros s Hs Hl; split; [done|by apply Z.ltb_lt]).
  repeat first [apply list.Forall_nil|apply list.Forall_cons; split]; cbn [op_ok]; try (split; [|done]); try done; apply He; try done; repeat constructor; done.
Qed.

Lemma no_junk : forall i : Z, 0 <= 0 < 2 ^ 64.
Proof. intros _. lia. Qed.

Lemma quicklist_history_witness : exists ql, qrun (fun _ => 0) (fun n => n) 65536 (fun _ => 0) 0 (quicklistNew (-2) 1) sample_ops =
    Some (ql, [RDone; RDone; RFlag true; RFlag true; RVal (Some [98; 99]); RVal (Some [100]); RFlag true; RVal (Some [97]); RVal None]) /\ ql_count ql = 0.
Proof.
  apply (quicklist_history (fun _ => 0) (fun n => n) id_usable 65536 (fun _ => 0) ltac:(lia) no_junk 0 ltac:(lia) (-2) 1 sample_ops sample_ops_ok).
Defined.

Lemma quicklist_preserved_witness : exists ql' r cs', qstep (fun _ => 0) (fun n => n) 65536 (fun _ => 0) 0 (quicklistNew (-2) 1) (QPush [97] true) = Some (ql', r) /\ inv ql' cs'.
Proof.
  apply (quicklist_preserved (fun _ => 0) (fun n => n) id_usable 65536 (fun _ => 0) ltac:(lia) no_junk 0 ltac:(lia) (quicklistNew (-2) 1) [] (QPush [97] true) (new_ok (-2) 1)).
  split; [repeat constructor; done|by vm_compute].
Defined.

(** ** A listpack with many elements *)

(** The counter of a node has 16 bits: a listpack with 65537 elements, as a payload can hold
    one, is counted as one element. *)
Theorem append_listpack_truncates junk lzf_base lzf_junk fill compress zl es num : lp_repr zl es num -> zlen es = 65537 ->
  exists ql, quicklistAppendListpack junk lzf_base lzf_junk (quicklistNew fill compress) zl = Some ql /\ ql_count ql = 1.
Proof.
  intros Hr Hn. unfold quicklistAppendListpack. destruct (raw_length zl es ltac:(by exists num)) as (zl' & -> & Hr'). cbn [mbind option_bind]. rewrite (raw_bytes _ _ Hr'). cbn [mbind option_bind]. rewrite Hn.
  set (n := set_count _ 65537). unfold fresh_node, __quicklistInsertNode. set (q := quicklistNew fill compress). cbn [ql_tail ql_nodes q quicklistNew quicklistSetOptions quicklistSetCompressDepth quicklistSetFill quicklistCreate reverse rev_append fmap list_fmap head ql_len Z.eqb cassert mbind option_bind ql_fresh].
  unfold quicklistCompress, get_node. cbn [with_len with_nodes ql_nodes node_get Nat.eqb mbind option_bind qn_recompress n set_count set_entry quicklistCreateNode].
  unfold __quicklistCompress, ql_head, ql_tail, get_node. cbn [with_len with_nodes ql_nodes ql_len node_get Nat.eqb mbind option_bind fmap list_fmap head fst reverse rev_append qn_recompress n set_count set_entry quicklistCreateNode negb andb cassert Z.eqb Z.add].
  assert (Hc : 0 <= ql_compress q) by (pose proof (new_ok fill compress) as [Hcore _]; apply Hcore).
  unfold with_len, with_nodes. cbn [ql_compress ql_count]. change (0 + 1) with 1. cbn [Z.eqb].
  assert ((ql_compress q =? 0) || (1 <? ql_compress q * 2) = true) as -> by (destruct (Z.eqb_spec (ql_compress q) 0); [done|]; apply Z.ltb_lt; lia).
  eexists. split; [reflexivity|]. reflexivity.
Qed.

(** ** Rotation and compression *)

Definition large (c : Z) : list Z := replicate 4097 c.

(** Rotating a list whose last node has a large value does not look at the compression depth:
    the node before it, which may be compressed, becomes the last one, and the next push or pop
    fails its assertion. *)
Theorem rotate_compressed_tail :
  let push := quicklistPush (fun _ => 0) (fun n => n) 65536 (fun _ => 0) 0 in
  (ql ← push (quicklistNew (-1) 1) (large 97) false; ql ← push ql (large 98) false; ql ← push ql (large 99) false;
   ql ← quicklistRotate (fun _ => 0) (fun n => n) 65536 (fun _ => 0) 0 ql;
   Some (is_raw ql (ql_tail ql), push ql [100] false, quicklistPop (fun _ => 0) (fun n => n) 65536 (fun _ => 0) ql false)) = Some (false, None, None).
Proof. vm_compute. reflexivity. Qed.
