(* ===== verification/TList.v ===== *)
(** * Lists and their commands (src/t_list.c)

    A list is a listpack while it is small and a quicklist afterwards.  The functions
    [listType...] hide the encoding; the commands are written on top of them, here on the class
    [list_ops].  The keyspace is the map from keys to objects; keys do not expire during a
    command, and the counters of memory and sizes are not kept.  [long] has 64 bits and [int]
    has 32. *)

From stdpp Require Import base list gmap numbers option tactics.
From S2P Require Import Prelude Util SdsArgs ListpackEnc Listpack Bitops Quicklist QuicklistOps.

(** ** The two encodings *)

Inductive lwhere := LIST_HEAD | LIST_TAIL.
#[global] Instance lwhere_eq_dec : EqDecision lwhere.
Proof. solve_decision. Defined.

Inductive listobj := ListLp (lp : list Z) | ListQl (ql : quicklist).

(** The position in a listpack, or the iterator of a quicklist. *)
Inductive iter_pos := IterLp (lpi : option Z) | IterQl (iter : quicklistIter).
Record listTypeIterator := { li_direction : lwhere; li_pos : iter_pos }.
Inductive listTypeEntry := EntLp (lpe : Z) | EntQl (entry : quicklistEntry).

(** A string object is a [listpackEntry]: a string, or an integer. *)
Definition sds_len (v : listpackEntry) : Z := match v with SVal s => zlen s | LVal _ => 0 end.

Definition SIZE_MAX : Z := 2 ^ 64 - 1.
Definition UINT_MAX : Z := 2 ^ 32 - 1.

(** Conversion of the strings parsed once per command. *)
Definition cache : Type := option (option Z).

Definition cached_ll (s : list Z) (c : cache) : option Z * cache :=
  match c with None => (string2ll s, Some (string2ll s)) | Some v => (v, c) end.

(** [quicklistCompare], and [lpCompare] with a cache. *)
Definition compare_value (v : listpackEntry) (s : list Z) (c : cache) : bool * cache :=
  match v with
  | SVal t => (bool_decide (t = s), c)
  | LVal n => let '(r, c) := cached_ll s c in (bool_decide (r = Some n), c)
  end.

Section ListType.
Context (junk : nat -> Z) (usable : Z -> Z) (lzf_base : Z) (lzf_junk : Z -> Z) (packed_threshold : Z).
Context (list_max_listpack_size list_compress_depth : Z).

Definition listTypeTryConvertListpack (lp : list Z) (argv : list listpackEntry) : option listobj :=
  let add_bytes := foldr (fun v n => sds_len v + n) 0 argv in
  bytes ← lpBytes lp;
  '(len, lp) ← lpLength lp;
  exceeds ← quicklistNodeExceedsLimit list_max_listpack_size (bytes + add_bytes) (u32 (len + zlen argv));
  if exceeds : bool then
    let ql := quicklistNew list_max_listpack_size list_compress_depth in
    '(len, lp) ← lpLength lp;
    if len =? 0 then Some (ListQl ql)
    else ql ← quicklistAppendListpack junk lzf_base lzf_junk ql lp; Some (ListQl ql)
  else Some (ListLp lp).

Definition listTypeTryConvertQuicklist (ql : quicklist) (shrinking : bool) : option listobj :=
  if negb (ql_len ql =? 1) then Some (ListQl ql)
  else
    id ← ql_head ql; head ← get_node ql id;
    if qn_plain head then Some (ListQl ql)
    else
      '(sz_limit, count_limit) ← quicklistNodeLimit list_max_listpack_size;
      let half x := if shrinking then x / 2 else x in
      if (qn_sz head >? half (default SIZE_MAX sz_limit)) || (ql_count ql >? half (default UINT_MAX count_limit)) then Some (ListQl ql)
      else Some (ListLp (qn_entry head)).

Inductive list_conv_type := LIST_CONV_AUTO | LIST_CONV_GROWING | LIST_CONV_SHRINKING.

Definition listTypeTryConversionRaw (o : listobj) (lct : list_conv_type) (argv : list listpackEntry) : option listobj :=
  match o with
  | ListQl ql =>
      match lct with
      | LIST_CONV_GROWING => Some o
      | LIST_CONV_SHRINKING => listTypeTryConvertQuicklist ql true
      | LIST_CONV_AUTO => listTypeTryConvertQuicklist ql false
      end
  | ListLp lp => match lct with LIST_CONV_SHRINKING => Some o | _ => listTypeTryConvertListpack lp argv end
  end.

Definition listTypeTryConversion (o : listobj) (lct : list_conv_type) : option listobj := listTypeTryConversionRaw o lct [].
Definition listTypeTryConversionAppend (o : listobj) (argv : list listpackEntry) : option listobj := listTypeTryConversionRaw o LIST_CONV_GROWING argv.

Definition createListListpackObject : option listobj := lp ← lpNew junk usable 0; Some (ListLp lp).

(** The text of a string object. *)
Definition value_text (v : listpackEntry) : option (list Z) := match v with SVal s => Some s | LVal n => int_text n end.

(** The new listpack, which must not be NULL. *)
Definition with_lp (r : option (option (list Z * option Z))) : option listobj := r ← r; '(lp, _) ← r; Some (ListLp lp).

Definition listTypePush (subject : listobj) (value : listpackEntry) (where_ : lwhere) : option listobj :=
  match subject with
  | ListQl ql => s ← value_text value; ql ← quicklistPush junk usable lzf_base lzf_junk packed_threshold ql s (bool_decide (where_ = LIST_HEAD)); Some (ListQl ql)
  | ListLp lp =>
      with_lp match value, where_ with
              | LVal n, LIST_HEAD => lpPrependInteger junk usable lp n
              | LVal n, LIST_TAIL => lpAppendInteger junk usable lp n
              | SVal s, LIST_HEAD => lpPrepend junk usable lp s
              | SVal s, LIST_TAIL => lpAppend junk usable lp s
              end
  end.

Definition listTypePop (subject : listobj) (where_ : lwhere) : option (option listpackEntry * listobj) :=
  match subject with
  | ListQl ql => '(v, ql) ← quicklistPopCustom junk usable lzf_base lzf_junk ql (bool_decide (where_ = LIST_HEAD)); Some (v, ListQl ql)
  | ListLp lp =>
      p ← match where_ with LIST_HEAD => lpFirst lp | LIST_TAIL => lpLast lp end;
      match p with
      | None => Some (None, subject)
      | Some p =>
          s ← lpGet_intbuf lp p (replicate 21 0);
          o ← with_lp (lpDelete junk usable lp p);
          Some (Some (SVal s), o)
      end
  end.

(** [lpLength] may store the number of elements it counted. *)
Definition listTypeLength (subject : listobj) : option (Z * listobj) :=
  match subject with
  | ListQl ql => Some (ql_count ql, subject)
  | ListLp lp => '(n, lp) ← lpLength lp; Some (n, ListLp lp)
  end.

Definition listTypeInitIterator (subject : listobj) (index : Z) (direction : lwhere) : option listTypeIterator :=
  pos ← match subject with
    | ListQl ql => Some (IterQl (quicklistInitIteratorAtIdx ql (bool_decide (direction = LIST_TAIL)) index).1)
    | ListLp lp => lpi ← lpSeek lp index; Some (IterLp lpi)
    end;
  Some {| li_direction := direction; li_pos := pos |}.

Definition listTypeResetIterator (subject : listobj) (li : listTypeIterator) : option listobj :=
  match subject, li_pos li with
  | ListQl ql, IterQl iter => ql ← quicklistResetIterator junk lzf_base lzf_junk ql iter; Some (ListQl ql)
  | ListLp lp, IterLp _ => Some subject
  | _, _ => None
  end.

Definition lp_step (lp : list Z) (p : Z) (direction : lwhere) : option (option Z) :=
  match direction with LIST_TAIL => lpNext lp p | LIST_HEAD => lpPrev lp p end.

Definition listTypeNext (subject : listobj) (li : listTypeIterator) : option (listobj * listTypeIterator * option listTypeEntry) :=
  match subject, li_pos li with
  | ListQl ql, IterQl iter =>
      '(ql, iter, e) ← quicklist_next junk lzf_base lzf_junk ql iter;
      Some (ListQl ql, {| li_direction := li_direction li; li_pos := IterQl iter |}, option_map EntQl e)
  | ListLp lp, IterLp None => Some (subject, li, None)
  | ListLp lp, IterLp (Some p) =>
      q ← lp_step lp p (li_direction li);
      Some (subject, {| li_direction := li_direction li; li_pos := IterLp q |}, Some (EntLp p))
  | _, _ => None
  end.

Definition listTypeGetValue (subject : listobj) (entry : listTypeEntry) : option listpackEntry :=
  match subject, entry with
  | ListQl ql, EntQl e => qe_value e
  | ListLp lp, EntLp p => read_value lp p
  | _, _ => None
  end.

Definition listTypeInsert (subject : listobj) (li : listTypeIterator) (entry : listTypeEntry) (value : list Z) (where_ : lwhere) : option (listobj * listTypeIterator) :=
  match subject, li_pos li, entry with
  | ListQl ql, IterQl iter, EntQl e =>
      ql ← _quicklistInsert junk usable lzf_base lzf_junk packed_threshold ql e value (bool_decide (where_ = LIST_TAIL));
      Some (ListQl ql, {| li_direction := li_direction li; li_pos := IterQl (resetIterator iter) |})
  | ListLp lp, IterLp _, EntLp p =>
      o ← with_lp (lpInsertString junk usable lp value p (match where_ with LIST_TAIL => LP_AFTER | LIST_HEAD => LP_BEFORE end));
      Some (o, li)
  | _, _, _ => None
  end.

Definition listTypeReplaceAtIndex (o : listobj) (index : Z) (value : list Z) : option (listobj * bool) :=
  match o with
  | ListQl ql => '(ql, r) ← quicklistReplaceAtIndex junk usable lzf_base lzf_junk packed_threshold ql index value; Some (ListQl ql, r)
  | ListLp lp =>
      p ← lpSeek lp index;
      match p with
      | Some p => o ← with_lp (lpReplace junk usable lp p value); Some (o, true)
      | None => Some (o, false)
      end
  end.

Definition listTypeEqual (subject : listobj) (entry : listTypeEntry) (s : list Z) (c : cache) : option (bool * cache) :=
  v ← listTypeGetValue subject entry; Some (compare_value v s c).

(** The position after a deletion, from the element that follows. *)
Definition step_deleted (lp : list Z) (p : option Z) (direction : lwhere) : option (option Z) :=
  match direction, p with
  | LIST_TAIL, _ => Some p
  | LIST_HEAD, Some p => lpPrev lp p
  | LIST_HEAD, None => lpLast lp
  end.

Definition listTypeDelete (subject : listobj) (li : listTypeIterator) (entry : listTypeEntry) : option (listobj * listTypeIterator) :=
  match subject, li_pos li, entry with
  | ListQl ql, IterQl iter, EntQl e =>
      '(ql, iter) ← quicklistDelEntry junk usable lzf_base lzf_junk ql iter e;
      Some (ListQl ql, {| li_direction := li_direction li; li_pos := IterQl iter |})
  | ListLp lp, IterLp _, EntLp p =>
      r ← lpDelete junk usable lp p;
      '(lp, p) ← r;
      lpi ← step_deleted lp p (li_direction li);
      Some (ListLp lp, {| li_direction := li_direction li; li_pos := IterLp lpi |})
  | _, _, _ => None
  end.

Definition listTypeDelRange (subject : listobj) (start count : Z) : option listobj :=
  match subject with
  | ListQl ql => '(ql, _) ← quicklistDelRange junk usable lzf_base lzf_junk ql start count; Some (ListQl ql)
  | ListLp lp => if count >? 0 then lp ← lpDeleteRange junk usable lp start count; Some (ListLp lp) else Some subject
  end.

(** What [ltrimCommand] removes at the two ends. *)
Definition list_trim (o : listobj) (ltrim rtrim : Z) : option listobj :=
  match o with
  | ListQl ql =>
      '(ql, _) ← quicklistDelRange junk usable lzf_base lzf_junk ql 0 ltrim;
      '(ql, _) ← quicklistDelRange junk usable lzf_base lzf_junk ql (- rtrim) rtrim;
      Some (ListQl ql)
  | ListLp lp =>
      lp ← lpDeleteRange junk usable lp 0 ltrim;
      lp ← lpDeleteRange junk usable lp (- rtrim) rtrim;
      Some (ListLp lp)
  end.

(** The elements of a range as they are sent. *)
Fixpoint ql_range (n : nat) (ql : quicklist) (iter : quicklistIter) : option (quicklist * quicklistIter * list (list Z)) :=
  match n with
  | O => Some (ql, iter, [])
  | S n =>
      '(ql, iter, e) ← quicklist_next junk lzf_base lzf_junk ql iter;
      e ← e; v ← qe_value e; s ← value_text v;
      '(ql, iter, l) ← ql_range n ql iter;
      Some (ql, iter, s :: l)
  end.

Definition addListQuicklistRangeReply (ql : quicklist) (from rangelen : Z) (reverse : bool) : option (quicklist * list (list Z)) :=
  let iter := (quicklistInitIteratorAtIdx ql (negb reverse) from).1 in
  '(ql, iter, l) ← ql_range (Z.to_nat rangelen) ql iter;
  ql ← quicklistResetIterator junk lzf_base lzf_junk ql iter;
  Some (ql, l).

Fixpoint lp_range (n : nat) (lp : list Z) (lpbytes : Z) (p : option Z) (reverse : bool) : option (list (list Z)) :=
  match n with
  | O => Some []
  | S n =>
      p ← p;
      s ← lpGet_intbuf lp p (replicate 21 0);
      p ← (if reverse then lpPrev lp p else lpNextWithBytes lp p lpbytes);
      l ← lp_range n lp lpbytes p reverse;
      Some (s :: l)
  end.

Definition addListListpackRangeReply (lp : list Z) (from rangelen : Z) (reverse : bool) : option (list (list Z)) :=
  p ← lpSeek lp from;
  lpbytes ← lpBytes lp;
  lp_range (Z.to_nat rangelen) lp lpbytes p reverse.

Definition list_range (o : listobj) (from rangelen : Z) (reverse : bool) : option (listobj * list (list Z)) :=
  match o with
  | ListQl ql => '(ql, l) ← addListQuicklistRangeReply ql from rangelen reverse; Some (ListQl ql, l)
  | ListLp lp => l ← addListListpackRangeReply lp from rangelen reverse; Some (o, l)
  end.
End ListType.

(** ** What the commands use of a list *)

Class list_ops (L I E : Type) := {
  lt_create : option L;
  lt_convert_append : L -> list listpackEntry -> option L;
  lt_convert_shrink : L -> option L;
  lt_push : L -> listpackEntry -> lwhere -> option L;
  lt_pop : L -> lwhere -> option (option listpackEntry * L);
  lt_length : L -> option (Z * L);
  lt_init : L -> Z -> lwhere -> option I;
  lt_next : L -> I -> option (L * I * option E);
  lt_reset : L -> I -> option L;
  lt_get : L -> E -> option listpackEntry;
  lt_equal : L -> E -> list Z -> cache -> option (bool * cache);
  lt_insert : L -> I -> E -> list Z -> lwhere -> option (L * I);
  lt_delete : L -> I -> E -> option (L * I);
  lt_replace : L -> Z -> list Z -> option (L * bool);
  lt_del_range : L -> Z -> Z -> option L;
  lt_trim : L -> Z -> Z -> option L;
  lt_range : L -> Z -> Z -> bool -> option (L * list (list Z)) }.

(** The lists of the server. *)
Definition listType_ops (junk : nat -> Z) (usable : Z -> Z) (lzf_base : Z) (lzf_junk : Z -> Z) (packed_threshold max_size depth : Z) : list_ops listobj listTypeIterator listTypeEntry := {|
  lt_create := createListListpackObject junk usable;
  lt_convert_append := listTypeTryConversionAppend junk lzf_base lzf_junk max_size depth;
  lt_convert_shrink o := listTypeTryConversion junk lzf_base lzf_junk max_size depth o LIST_CONV_SHRINKING;
  lt_push := listTypePush junk usable lzf_base lzf_junk packed_threshold;
  lt_pop := listTypePop junk usable lzf_base lzf_junk;
  lt_length := listTypeLength;
  lt_init := listTypeInitIterator;
  lt_next := listTypeNext junk lzf_base lzf_junk;
  lt_reset := listTypeResetIterator junk lzf_base lzf_junk;
  lt_get := listTypeGetValue;
  lt_equal := listTypeEqual;
  lt_insert := listTypeInsert junk usable lzf_base lzf_junk packed_threshold;
  lt_delete := listTypeDelete junk usable lzf_base lzf_junk;
  lt_replace := listTypeReplaceAtIndex junk usable lzf_base lzf_junk packed_threshold;
  lt_del_range := listTypeDelRange junk usable lzf_base lzf_junk;
  lt_trim := list_trim junk usable lzf_base lzf_junk;
  lt_range := list_range junk lzf_base lzf_junk |}.

(** ** The server around a command *)

Inductive list_err := LERR_WRONGTYPE | LERR_SYNTAX | LERR_NOT_INTEGER | LERR_OUT_OF_RANGE | LERR_NO_KEY | LERR_INDEX | LERR_ARITY | LERR_NOT_POSITIVE | LERR_RANK | LERR_COUNT | LERR_MAXLEN | LERR_NUMKEYS | LERR_MPOP_COUNT.
Inductive list_event := EV_LPUSH | EV_RPUSH | EV_LINSERT | EV_LSET | EV_LPOP | EV_RPOP | EV_LTRIM | EV_LREM | EV_DEL.

(** What other parts of the server are told: a key was added to the keyspace, it changed,
    clients may wait for it, and the notification of an event. *)
Inductive effect := KeyAdded (key : list Z) | KeyModified (key : list Z) | KeyReady (key : list Z) | Notify (ev : list_event) (key : list Z).
(** Arrays are of strings, of integers, or a key with what was popped of it. *)
Inductive list_reply := LInteger (n : Z) | LBulk (s : list Z) | LNull | LNullArray | LOk | LBulks (l : list (list Z)) | LInts (l : list Z) | LPopped (key : list Z) (l : list (list Z)) | LErr (e : list_err).

Inductive dbobj (L : Type) := OList (l : L) | OOther.
Arguments OList {L}.
Arguments OOther {L}.

Record server (L : Type) := { sv_db : gmap (list Z) (dbobj L); sv_dirty : Z; sv_effects : list effect }.
Arguments sv_db {L}.
Arguments sv_dirty {L}.
Arguments sv_effects {L}.

Section Server.
Context {L : Type}.

Definition set_list (s : server L) (key : list Z) (o : L) : server L :=
  {| sv_db := <[key := OList o]> (sv_db s); sv_dirty := sv_dirty s; sv_effects := sv_effects s |}.
Definition dbDelete (s : server L) (key : list Z) : server L :=
  {| sv_db := delete key (sv_db s); sv_dirty := sv_dirty s; sv_effects := sv_effects s |}.
Definition emit (s : server L) (e : effect) : server L :=
  {| sv_db := sv_db s; sv_dirty := sv_dirty s; sv_effects := sv_effects s ++ [e] |}.
Definition add_dirty (s : server L) (n : Z) : server L :=
  {| sv_db := sv_db s; sv_dirty := sv_dirty s + n; sv_effects := sv_effects s |}.
Definition dbAdd (s : server L) (key : list Z) (o : L) : server L := emit (set_list s key o) (KeyAdded key).
End Server.

Definition push_event (w : lwhere) : list_event := match w with LIST_HEAD => EV_LPUSH | LIST_TAIL => EV_RPUSH end.
Definition pop_event (w : lwhere) : list_event := match w with LIST_HEAD => EV_LPOP | LIST_TAIL => EV_RPOP end.

Definition getRangeLongLong (arg : list Z) (min max : Z) (not_int out_of_range : list_err) : list_err + Z :=
  match string2ll arg with
  | None => inl not_int
  | Some v => if (v <? min) || (v >? max) then inl out_of_range else inr v
  end.
Definition getPositiveLongLong (arg : list Z) (err : list_err) : list_err + Z := getRangeLongLong arg 0 INT64_MAX err err.

Definition lit_after : list Z := [97; 102; 116; 101; 114].
Definition lit_before : list Z := [98; 101; 102; 111; 114; 101].
Definition lit_left : list Z := [108; 101; 102; 116].
Definition lit_right : list Z := [114; 105; 103; 104; 116].
Definition lit_rank : list Z := [114; 97; 110; 107].
Definition lit_count : list Z := [99; 111; 117; 110; 116].
Definition lit_maxlen : list Z := [109; 97; 120; 108; 101; 110].
Definition lit_exactly : list Z := [101; 120; 97; 99; 116; 108; 121].
Definition lit_obo : list Z := [111; 98; 111].
Definition lit_bulk : list Z := [98; 117; 108; 107].

Definition getListPosition (arg : list Z) : option lwhere :=
  if argeq arg lit_right then Some LIST_TAIL else if argeq arg lit_left then Some LIST_HEAD else None.

Section Commands.
Context {L I E : Type} `{!list_ops L I E}.

(** The result of a command; [None] is a failed assertion. *)
Abbreviation result := (option (server L * list_reply)).

(** *** Pushing *)

Fixpoint push_loop (o : L) (args : list listpackEntry) (w : lwhere) : option L :=
  match args with [] => Some o | v :: args => o ← lt_push o v w; push_loop o args w end.

Definition push_to (s : server L) (key : list Z) (o : L) (args : list listpackEntry) (w : lwhere) (existed : bool) : result :=
  o ← lt_convert_append o args;
  o ← push_loop o args w;
  '(llen, o) ← lt_length o;
  let s := emit (add_dirty (set_list s key o) (zlen args)) (KeyModified key) in
  let s := if existed then emit s (KeyReady key) else s in
  Some (emit s (Notify (push_event w) key), LInteger llen).

Definition pushGenericCommand (s : server L) (key : list Z) (args : list (list Z)) (w : lwhere) (xx : bool) : result :=
  match sv_db s !! key with
  | Some OOther => Some (s, LErr LERR_WRONGTYPE)
  | Some (OList o) => push_to s key o (SVal <$> args) w true
  | None => if xx then Some (s, LInteger 0) else o ← lt_create; push_to (dbAdd s key o) key o (SVal <$> args) w false
  end.

(** *** Insertion next to an element *)

Fixpoint linsert_loop (fuel : nat) (o : L) (it : I) (pivot value : list Z) (w : lwhere) (c : cache) : option (L * I * bool) :=
  match fuel with
  | O => None
  | S fuel =>
      '(o, it, e) ← lt_next o it;
      match e with
      | None => Some (o, it, false)
      | Some e =>
          '(eq, c) ← lt_equal o e pivot c;
          if eq : bool then '(o, it) ← lt_insert o it e value w; Some (o, it, true)
          else linsert_loop fuel o it pivot value w c
      end
  end.

(** A walk over the list takes one step more than there are elements. *)
Definition steps_of (o : L) : option nat := '(n, _) ← lt_length o; Some (S (Z.to_nat n)).

Definition linsertCommand (s : server L) (key where_arg pivot value : list Z) : result :=
  match (if argeq where_arg lit_after then Some LIST_TAIL else if argeq where_arg lit_before then Some LIST_HEAD else None) with
  | None => Some (s, LErr LERR_SYNTAX)
  | Some w =>
      match sv_db s !! key with
      | None => Some (s, LInteger 0)
      | Some OOther => Some (s, LErr LERR_WRONGTYPE)
      | Some (OList o) =>
          o ← lt_convert_append o [SVal value];
          it ← lt_init o 0 LIST_TAIL;
          fuel ← steps_of o;
          '(o, it, inserted) ← linsert_loop fuel o it pivot value w None;
          o ← lt_reset o it;
          if inserted : bool then
            let s := emit (emit (emit s (KeyModified key)) (KeyReady key)) (Notify EV_LINSERT key) in
            '(ll, o) ← lt_length o;
            Some (add_dirty (set_list s key o) 1, LInteger ll)
          else Some (set_list s key o, LInteger (-1))
      end
  end.

(** *** Reading *)

Definition llenCommand (s : server L) (key : list Z) : result :=
  match sv_db s !! key with
  | None => Some (s, LInteger 0)
  | Some OOther => Some (s, LErr LERR_WRONGTYPE)
  | Some (OList o) => '(n, o) ← lt_length o; Some (set_list s key o, LInteger n)
  end.

Definition lindexCommand (s : server L) (key index : list Z) : result :=
  match sv_db s !! key with
  | None => Some (s, LNull)
  | Some OOther => Some (s, LErr LERR_WRONGTYPE)
  | Some (OList o) =>
      match string2ll index with
      | None => Some (s, LErr LERR_NOT_INTEGER)
      | Some index =>
          it ← lt_init o index LIST_TAIL;
          '(o, it, e) ← lt_next o it;
          r ← match e with Some e => v ← lt_get o e; t ← value_text v; Some (LBulk t) | None => Some LNull end;
          o ← lt_reset o it;
          Some (set_list s key o, r)
      end
  end.

Definition addListRangeReply (o : L) (start end_ : Z) (reverse : bool) : option (L * list (list Z)) :=
  '(llen, o) ← lt_length o;
  let start := if start <? 0 then llen + start else start in
  let end_ := if end_ <? 0 then llen + end_ else end_ in
  let start := if start <? 0 then 0 else start in
  if (start >? end_) || (start >=? llen) then Some (o, [])
  else
    let end_ := if end_ >=? llen then llen - 1 else end_ in
    lt_range o (if reverse then end_ else start) (end_ - start + 1) reverse.

Definition lrangeCommand (s : server L) (key start end_ : list Z) : result :=
  match string2ll start, string2ll end_ with
  | Some start, Some end_ =>
      match sv_db s !! key with
      | None => Some (s, LBulks [])
      | Some OOther => Some (s, LErr LERR_WRONGTYPE)
      | Some (OList o) => '(o, l) ← addListRangeReply o start end_ false; Some (set_list s key o, LBulks l)
      end
  | _, _ => Some (s, LErr LERR_NOT_INTEGER)
  end.

(** *** Replacement *)

Definition lsetCommand (s : server L) (key index value : list Z) : result :=
  match sv_db s !! key with
  | None => Some (s, LErr LERR_NO_KEY)
  | Some OOther => Some (s, LErr LERR_WRONGTYPE)
  | Some (OList o) =>
      match string2ll index with
      | None => Some (s, LErr LERR_NOT_INTEGER)
      | Some index =>
          o ← lt_convert_append o [SVal value];
          '(o, replaced) ← lt_replace o index value;
          if replaced : bool then
            o ← lt_convert_shrink o;
            Some (add_dirty (emit (emit (set_list s key o) (KeyModified key)) (Notify EV_LSET key)) 1, LOk)
          else Some (set_list s key o, LErr LERR_INDEX)
      end
  end.

(** *** Popping *)

Definition listElementsRemoved (s : server L) (key : list Z) (w : lwhere) (o : L) (count : Z) : option (server L) :=
  '(llen, o) ← lt_length o;
  let s := emit s (Notify (pop_event w) key) in
  s ← (if llen =? 0 then Some (emit (dbDelete s key) (Notify EV_DEL key))
       else o ← lt_convert_shrink o; Some (set_list s key o));
  Some (add_dirty (emit s (KeyModified key)) count).

Definition pop_range (o : L) (w : lwhere) (count : Z) : option (L * list (list Z) * Z) :=
  '(llen, o) ← lt_length o;
  let rangelen := if count >? llen then llen else count in
  let rangestart := match w with LIST_HEAD => 0 | LIST_TAIL => - rangelen end in
  let rangeend := match w with LIST_HEAD => rangelen - 1 | LIST_TAIL => -1 end in
  '(o, l) ← addListRangeReply o rangestart rangeend (bool_decide (w = LIST_TAIL));
  o ← lt_del_range o rangestart rangelen;
  Some (o, l, rangelen).

Definition popGenericCommand (s : server L) (key : list Z) (args : list (list Z)) (w : lwhere) : result :=
  match args with
  | _ :: _ :: _ => Some (s, LErr LERR_ARITY)
  | _ =>
      match (match head args with None => inr None | Some a => match getPositiveLongLong a LERR_NOT_POSITIVE with inl e => inl e | inr n => inr (Some n) end end) with
      | inl e => Some (s, LErr e)
      | inr count =>
          match sv_db s !! key with
          | None => Some (s, match count with Some _ => LNullArray | None => LNull end)
          | Some OOther => Some (s, LErr LERR_WRONGTYPE)
          | Some (OList o) =>
              match count with
              | None =>
                  '(v, o) ← lt_pop o w;
                  v ← v; t ← value_text v;
                  s ← listElementsRemoved s key w o 1;
                  Some (s, LBulk t)
              | Some count =>
                  if count =? 0 then Some (s, LBulks [])
                  else
                    '(o, l, rangelen) ← pop_range o w count;
                    s ← listElementsRemoved s key w o rangelen;
                    Some (s, LBulks l)
              end
          end
      end
  end.

(** The first of several keys that is not empty. *)
Fixpoint mpopGenericCommand (s : server L) (keys : list (list Z)) (w : lwhere) (count : Z) : result :=
  match keys with
  | [] => Some (s, LNullArray)
  | key :: keys =>
      match sv_db s !! key with
      | None => mpopGenericCommand s keys w count
      | Some OOther => Some (s, LErr LERR_WRONGTYPE)
      | Some (OList o) =>
          '(llen, o) ← lt_length o;
          if llen =? 0 then mpopGenericCommand s keys w count
          else
            '(o, l, rangelen) ← pop_range o w count;
            s ← listElementsRemoved s key w o rangelen;
            Some (s, LPopped key l)
      end
  end.

(** The options of LMPOP: COUNT, at most once. *)
Fixpoint lmpop_options (args : list (list Z)) (count : option Z) : list_err + Z :=
  match args with
  | [] => inr (default 1 count)
  | opt :: arg :: args =>
      if bool_decide (count = None) && argeq opt lit_count then
        match getRangeLongLong arg 1 INT64_MAX LERR_MPOP_COUNT LERR_MPOP_COUNT with
        | inl e => inl e
        | inr n => lmpop_options args (Some n)
        end
      else inl LERR_SYNTAX
  | _ => inl LERR_SYNTAX
  end.

(** The arguments after the number of keys: the keys, the end of the list, the options. *)
Definition lmpop_args (numkeys : Z) (args : list (list Z)) : list_err + (list (list Z) * lwhere * Z) :=
  match drop (Z.to_nat numkeys) args with
  | [] => inl LERR_SYNTAX
  | w :: opts =>
      match getListPosition w with
      | None => inl LERR_SYNTAX
      | Some w => match lmpop_options opts None with inl e => inl e | inr count => inr (take (Z.to_nat numkeys) args, w, count) end
      end
  end.

Definition INT_MAX : Z := 2 ^ 31 - 1.

(** The command that does not block; the index of the argument after the keys is an [int],
    and its overflow has no result. *)
Definition lmpopGenericCommand (s : server L) (numkeys : list Z) (args : list (list Z)) : result :=
  match getRangeLongLong numkeys 1 INT_MAX LERR_NUMKEYS LERR_NUMKEYS with
  | inl e => Some (s, LErr e)
  | inr n =>
      let where_idx := 1 + n + 1 in
      _ ← cassert (where_idx <=? INT_MAX);
      match lmpop_args n args with
      | inl e => Some (s, LErr e)
      | inr (keys, w, count) => mpopGenericCommand s keys w count
      end
  end.

(** *** Trimming *)

Definition ltrimCommand (s : server L) (key start end_ : list Z) : result :=
  match string2ll start, string2ll end_ with
  | Some start, Some end_ =>
      match sv_db s !! key with
      | None => Some (s, LOk)
      | Some OOther => Some (s, LErr LERR_WRONGTYPE)
      | Some (OList o) =>
          '(llen, o) ← lt_length o;
          let start := if start <? 0 then llen + start else start in
          let end_ := if end_ <? 0 then llen + end_ else end_ in
          let start := if start <? 0 then 0 else start in
          let '(ltrim, rtrim) := if (start >? end_) || (start >=? llen) then (llen, 0)
                                 else (start, llen - (if end_ >=? llen then llen - 1 else end_) - 1) in
          o ← lt_trim o ltrim rtrim;
          let s := emit s (Notify EV_LTRIM key) in
          '(llenNew, o) ← lt_length o;
          s ← (if llenNew =? 0 then Some (emit (dbDelete s key) (Notify EV_DEL key))
               else o ← lt_convert_shrink o; Some (set_list s key o));
          Some (add_dirty (emit s (KeyModified key)) (ltrim + rtrim), LOk)
      end
  | _, _ => Some (s, LErr LERR_NOT_INTEGER)
  end.

(** *** Positions *)

Record lpos_opts := { lp_rank : Z; lp_count : Z; lp_maxlen : Z }.

Fixpoint lpos_options (args : list (list Z)) (p : lpos_opts) : list_err + lpos_opts :=
  match args with
  | [] => inr p
  | opt :: arg :: args =>
      if argeq opt lit_rank then
        match getRangeLongLong arg (- INT64_MAX) INT64_MAX LERR_NOT_INTEGER LERR_OUT_OF_RANGE with
        | inl e => inl e
        | inr r => if r =? 0 then inl LERR_RANK else lpos_options args {| lp_rank := r; lp_count := lp_count p; lp_maxlen := lp_maxlen p |}
        end
      else if argeq opt lit_count then
        match getPositiveLongLong arg LERR_COUNT with
        | inl e => inl e
        | inr n => lpos_options args {| lp_rank := lp_rank p; lp_count := n; lp_maxlen := lp_maxlen p |}
        end
      else if argeq opt lit_maxlen then
        match getPositiveLongLong arg LERR_MAXLEN with
        | inl e => inl e
        | inr n => lpos_options args {| lp_rank := lp_rank p; lp_count := lp_count p; lp_maxlen := n |}
        end
      else inl LERR_SYNTAX
  | _ => inl LERR_SYNTAX
  end.

(** The indexes of the matches, the last one first, and [matchindex]. *)
Fixpoint lpos_loop (fuel : nat) (o : L) (it : I) (ele : list Z) (dir : lwhere) (llen rank count maxlen index matches : Z) (found : list Z) (c : cache)
  : option (L * I * list Z * Z) :=
  match fuel with
  | O => None
  | S fuel =>
      '(o, it, e) ← lt_next o it;
      match e with
      | None => Some (o, it, found, -1)
      | Some e =>
          if (maxlen =? 0) || (index <? maxlen) then
            '(eq, c) ← lt_equal o e ele c;
            if eq : bool then
              let matches := matches + 1 in
              let matchindex := match dir with LIST_TAIL => index | LIST_HEAD => llen - index - 1 end in
              if matches >=? rank then
                if count =? -1 then Some (o, it, found, matchindex)
                else if negb (count =? 0) && (matches - rank + 1 >=? count) then Some (o, it, matchindex :: found, matchindex)
                else lpos_loop fuel o it ele dir llen rank count maxlen (index + 1) matches (matchindex :: found) c
              else lpos_loop fuel o it ele dir llen rank count maxlen (index + 1) matches found c
            else lpos_loop fuel o it ele dir llen rank count maxlen (index + 1) matches found c
          else Some (o, it, found, -1)
      end
  end.

Definition lposCommand (s : server L) (key ele : list Z) (args : list (list Z)) : result :=
  match lpos_options args {| lp_rank := 1; lp_count := -1; lp_maxlen := 0 |} with
  | inl e => Some (s, LErr e)
  | inr p =>
      let dir := if lp_rank p <? 0 then LIST_HEAD else LIST_TAIL in
      let rank := if lp_rank p <? 0 then - lp_rank p else lp_rank p in
      match sv_db s !! key with
      | None => Some (s, if negb (lp_count p =? -1) then LInts [] else LNull)
      | Some OOther => Some (s, LErr LERR_WRONGTYPE)
      | Some (OList o) =>
          it ← lt_init o (match dir with LIST_HEAD => -1 | LIST_TAIL => 0 end) dir;
          '(llen, o) ← lt_length o;
          fuel ← steps_of o;
          '(o, it, found, matchindex) ← lpos_loop fuel o it ele dir llen rank (lp_count p) (lp_maxlen p) 0 0 [] None;
          o ← lt_reset o it;
          Some (set_list s key o, if negb (lp_count p =? -1) then LInts (reverse found) else if negb (matchindex =? -1) then LInteger matchindex else LNull)
      end
  end.

(** *** Removal by value *)

Fixpoint lrem_loop (fuel : nat) (o : L) (it : I) (ele : list Z) (toremove removed : Z) (c : cache) : option (L * I * Z) :=
  match fuel with
  | O => None
  | S fuel =>
      '(o, it, e) ← lt_next o it;
      match e with
      | None => Some (o, it, removed)
      | Some e =>
          '(eq, c) ← lt_equal o e ele c;
          if eq : bool then
            '(o, it) ← lt_delete o it e;
            let removed := removed + 1 in
            if negb (toremove =? 0) && (removed =? toremove) then Some (o, it, removed)
            else lrem_loop fuel o it ele toremove removed c
          else lrem_loop fuel o it ele toremove removed c
      end
  end.

Definition lremCommand (s : server L) (key count ele : list Z) : result :=
  match getRangeLongLong count (- INT64_MAX) INT64_MAX LERR_NOT_INTEGER LERR_OUT_OF_RANGE with
  | inl e => Some (s, LErr e)
  | inr toremove =>
      match sv_db s !! key with
      | None => Some (s, LInteger 0)
      | Some OOther => Some (s, LErr LERR_WRONGTYPE)
      | Some (OList o) =>
          fuel ← steps_of o;
          it ← (if toremove <? 0 then lt_init o (-1) LIST_HEAD else lt_init o 0 LIST_TAIL);
          '(o, it, removed) ← lrem_loop fuel o it ele (Z.abs toremove) 0 None;
          o ← lt_reset o it;
          let s := add_dirty s removed in
          if removed =? 0 then Some (set_list s key o, LInteger 0)
          else
            '(ll, o) ← lt_length o;
            let s := emit s (Notify EV_LREM key) in
            s ← (if ll =? 0 then Some (emit (dbDelete s key) (Notify EV_DEL key))
                 else o ← lt_convert_shrink o; Some (set_list s key o));
            Some (emit s (KeyModified key), LInteger removed)
      end
  end.

(** *** Moving an element *)

Definition lmoveHandlePush (s : server L) (dstkey : list Z) (value : listpackEntry) (w : lwhere) : result :=
  '(s, dstobj, existed) ← match sv_db s !! dstkey with
    | Some (OList o) => Some (s, o, true)
    | Some OOther => None
    | None => o ← lt_create; Some (dbAdd s dstkey o, o, false)
    end;
  dstobj ← lt_convert_append dstobj [value];
  dstobj ← lt_push dstobj value w;
  let s := emit (set_list s dstkey dstobj) (KeyModified dstkey) in
  let s := if existed : bool then emit s (KeyReady dstkey) else s in
  t ← value_text value;
  Some (emit s (Notify (push_event w) dstkey), LBulk t).

(** Source and destination may be the same list: after each change the list is the one of
    its key. *)
Definition lmoveGenericCommand (s : server L) (src dst : list Z) (wherefrom whereto : lwhere) : result :=
  match sv_db s !! src with
  | None => Some (s, LNull)
  | Some OOther => Some (s, LErr LERR_WRONGTYPE)
  | Some (OList o) =>
      '(n, o) ← lt_length o;
      if n =? 0 then Some (set_list s src o, LNull)
      else
        match sv_db s !! dst with
        | Some OOther => Some (s, LErr LERR_WRONGTYPE)
        | _ =>
            '(v, o) ← lt_pop o wherefrom;
            v ← v;
            '(s, r) ← lmoveHandlePush (set_list s src o) dst v whereto;
            match sv_db s !! src with
            | Some (OList o) => s ← listElementsRemoved s src wherefrom o 1; Some (s, r)
            | _ => None
            end
        end
  end.

Definition lmoveCommand (s : server L) (src dst from to : list Z) : result :=
  match getListPosition from, getListPosition to with
  | Some wherefrom, Some whereto => lmoveGenericCommand s src dst wherefrom whereto
  | _, _ => Some (s, LErr LERR_SYNTAX)
  end.

Definition rpoplpushCommand (s : server L) (src dst : list Z) : result := lmoveGenericCommand s src dst LIST_TAIL LIST_HEAD.

(** *** Moving several elements *)

Inductive lmovem_mode := LMOVEM_DEFAULT | LMOVEM_UPTO | LMOVEM_EXACTLY.
Inductive lmovem_order := LMOVEM_ORDER_OBO | LMOVEM_ORDER_BULK.

Definition lmovemParseOptions (args : list (list Z)) : list_err + (lmovem_mode * Z * lmovem_order) :=
  match args with
  | [] => inr (LMOVEM_DEFAULT, 1, LMOVEM_ORDER_BULK)
  | [selector; arg; ordstr] =>
      match (if argeq selector lit_count then Some LMOVEM_UPTO else if argeq selector lit_exactly then Some LMOVEM_EXACTLY else None) with
      | None => inl LERR_SYNTAX
      | Some mode =>
          match getRangeLongLong arg 1 INT64_MAX LERR_MPOP_COUNT LERR_MPOP_COUNT with
          | inl e => inl e
          | inr count =>
              if argeq ordstr lit_obo then inr (mode, count, LMOVEM_ORDER_OBO)
              else if argeq ordstr lit_bulk then inr (mode, count, LMOVEM_ORDER_BULK)
              else inl LERR_SYNTAX
          end
      end
  | _ => inl LERR_SYNTAX
  end.

Fixpoint pop_loop (n : nat) (o : L) (w : lwhere) : option (list listpackEntry * L) :=
  match n with
  | O => Some ([], o)
  | S n => '(v, o) ← lt_pop o w; v ← v; '(vals, o) ← pop_loop n o w; Some (v :: vals, o)
  end.

(** Whether the popped elements are reversed for the destination. *)
Definition lmovem_reversed (ordering : lmovem_order) (wherefrom whereto : lwhere) : bool :=
  match ordering with LMOVEM_ORDER_OBO => bool_decide (whereto = LIST_HEAD) | LMOVEM_ORDER_BULK => bool_decide (wherefrom = LIST_TAIL) end.

(** The block of elements goes to one end of a list, and reads there from left to right. *)
Definition push_block (o : L) (vals : list listpackEntry) (whereto : lwhere) : option L :=
  o ← lt_convert_append o vals;
  push_loop o (match whereto with LIST_HEAD => reverse vals | LIST_TAIL => vals end) whereto.

Definition lmovemMoveAndReply (s : server L) (srckey : list Z) (srcobj : L) (dstkey : list Z) (dstobj : option L) (wherefrom whereto : lwhere) (count : Z) (ordering : lmovem_order) : result :=
  '(vals, srcobj) ← pop_loop (Z.to_nat count) srcobj wherefrom;
  let vals := if lmovem_reversed ordering wherefrom whereto then reverse vals else vals in
  texts ← mapM value_text vals;
  if decide (srckey = dstkey) then
    srcobj ← push_block srcobj vals whereto;
    let s := emit (emit (set_list s srckey srcobj) (Notify (pop_event wherefrom) srckey)) (Notify (push_event whereto) srckey) in
    Some (add_dirty (emit s (KeyModified srckey)) count, LBulks texts)
  else
    let s := set_list s srckey srcobj in
    '(s, dstobj, existed) ← match dstobj with
      | Some o => Some (s, o, true)
      | None => o ← lt_create; Some (dbAdd s dstkey o, o, false)
      end;
    '(_, dstobj) ← lt_length dstobj;
    dstobj ← push_block dstobj vals whereto;
    let s := emit (set_list s dstkey dstobj) (KeyModified dstkey) in
    let s := if existed : bool then emit s (KeyReady dstkey) else s in
    let s := emit s (Notify (push_event whereto) dstkey) in
    s ← listElementsRemoved s srckey wherefrom srcobj count;
    Some (s, LBulks texts).

Definition lmovemGenericCommand (s : server L) (src dst : list Z) (wherefrom whereto : lwhere) (mode : lmovem_mode) (count : Z) (ordering : lmovem_order) : result :=
  match sv_db s !! src with
  | Some OOther => Some (s, LErr LERR_WRONGTYPE)
  | None => Some (s, LNullArray)
  | Some (OList o) =>
      '(srclen, o) ← lt_length o;
      let tomove := match mode with LMOVEM_EXACTLY => if srclen <? count then 0 else count | _ => if count <? srclen then count else srclen end in
      if tomove =? 0 then Some (set_list s src o, LNullArray)
      else
        match sv_db s !! dst with
        | Some OOther => Some (set_list s src o, LErr LERR_WRONGTYPE)
        | Some (OList d) => lmovemMoveAndReply s src o dst (Some d) wherefrom whereto tomove ordering
        | None => lmovemMoveAndReply s src o dst None wherefrom whereto tomove ordering
        end
  end.

Definition lmovemCommand (s : server L) (src dst from to : list Z) (opts : list (list Z)) : result :=
  match getListPosition from, getListPosition to with
  | Some wherefrom, Some whereto =>
      match lmovemParseOptions opts with
      | inl e => Some (s, LErr e)
      | inr (mode, count, ordering) => lmovemGenericCommand s src dst wherefrom whereto mode count ordering
      end
  | _, _ => Some (s, LErr LERR_SYNTAX)
  end.
End Commands.
