(* ===== verification/TListSpec.v ===== *)
(** * List commands: what they do to lists of strings

    The commands on plain lists, and the laws of the operations on list objects from which the
    commands of t_list.c do the same. *)

From stdpp Require Import base list gmap numbers option tactics.
From S2P Require Import Prelude Util SdsArgs ListpackEnc Listpack ListpackNav ListpackUpd Bitops BitopsThms Quicklist QuicklistEnds TList.

(** ** The commands on plain lists *)

Abbreviation lists := (server (list (list Z))).

Definition pushed_on (w : lwhere) (args l : list (list Z)) : list (list Z) := match w with LIST_HEAD => reverse args ++ l | LIST_TAIL => l ++ args end.

(** Before or after the element [i]. *)
Definition inserted_at (w : lwhere) (i : nat) (v : list Z) (l : list (list Z)) : list (list Z) :=
  match w with LIST_HEAD => take i l ++ v :: drop i l | LIST_TAIL => take (S i) l ++ v :: drop (S i) l end.

(** The bounds of a range of indices, when it is not empty. *)
Definition bounds (len start end_ : Z) : option (nat * nat) :=
  let start := Z.max 0 (if start <? 0 then len + start else start) in
  let end_ := Z.min (len - 1) (if end_ <? 0 then len + end_ else end_) in
  if start <=? end_ then Some (Z.to_nat start, Z.to_nat (end_ + 1)) else None.
Definition slice (l : list (list Z)) (start end_ : Z) : list (list Z) :=
  match bounds (zlen l) start end_ with Some (a, b) => take (b - a) (drop a l) | None => [] end.

(** Without the first [n] elements that equal [x]. *)
Fixpoint remove_first (n : nat) (x : list Z) (l : list (list Z)) : list (list Z) :=
  match n, l with
  | S m, y :: l => if decide (y = x) then remove_first m x l else y :: remove_first n x l
  | _, _ => l
  end.
Definition removed_by (count : Z) (x : list Z) (l : list (list Z)) : list (list Z) :=
  let n := if count =? 0 then length l else Z.to_nat (Z.abs count) in
  if count <? 0 then reverse (remove_first n x (reverse l)) else remove_first n x l.

(** The elements in the order of a walk, with their indices. *)
Definition indexed (l : list (list Z)) : list (Z * list Z) := imap (fun i x => (Z.of_nat i, x)) l.
Definition walked (d : lwhere) (l : list (list Z)) : list (Z * list Z) := match d with LIST_TAIL => indexed l | LIST_HEAD => reverse (indexed l) end.

(** The matches from the [rank]-th on, [count] of them or all. *)
Definition positions (ele : list Z) (l : list (list Z)) (d : lwhere) (rank count maxlen : Z) : list Z :=
  let seen := if maxlen =? 0 then walked d l else take (Z.to_nat maxlen) (walked d l) in
  let found := drop (Z.to_nat (rank - 1)) (filter (fun y => y.2 = ele) seen).*1 in
  if count =? 0 then found else take (Z.to_nat (Z.abs count)) found.

Section Spec.

(** A list that became empty is removed with its key. *)
Definition put_back (s : lists) (key : list Z) (l : list (list Z)) : lists :=
  match l with [] => emit (dbDelete s key) (Notify EV_DEL key) | _ => set_list s key l end.

Definition on_list (s : lists) (key : list Z) (none : list_reply) (f : list (list Z) -> lists * list_reply) : lists * list_reply :=
  match sv_db s !! key with
  | None => (s, none)
  | Some OOther => (s, LErr LERR_WRONGTYPE)
  | Some (OList l) => f l
  end.

Definition lpush_spec (s : lists) (key : list Z) (args : list (list Z)) (w : lwhere) (xx : bool) : lists * list_reply :=
  let push (s : lists) l (existed : bool) :=
    let l := pushed_on w args l in
    let s := emit (add_dirty (set_list s key l) (zlen args)) (KeyModified key) in
    (emit (if existed then emit s (KeyReady key) else s) (Notify (push_event w) key), LInteger (zlen l)) in
  match sv_db s !! key with
  | None => if xx then (s, LInteger 0) else push (dbAdd s key []) [] false
  | Some OOther => (s, LErr LERR_WRONGTYPE)
  | Some (OList l) => push s l true
  end.

Definition linsert_spec (s : lists) (key where_arg pivot value : list Z) : lists * list_reply :=
  let insert w := on_list s key (LInteger 0) (fun l =>
    match list_find (fun x => x = pivot) l with
    | None => (s, LInteger (-1))
    | Some (i, _) => (add_dirty (set_list (emit (emit (emit s (KeyModified key)) (KeyReady key)) (Notify EV_LINSERT key)) key (inserted_at w i value l)) 1, LInteger (zlen l + 1))
    end) in
  if argeq where_arg lit_after then insert LIST_TAIL else if argeq where_arg lit_before then insert LIST_HEAD else (s, LErr LERR_SYNTAX).

Definition llen_spec (s : lists) (key : list Z) : lists * list_reply := on_list s key (LInteger 0) (fun l => (s, LInteger (zlen l))).

Definition lindex_spec (s : lists) (key index : list Z) : lists * list_reply :=
  on_list s key LNull (fun l => match string2ll index with
    | None => (s, LErr LERR_NOT_INTEGER)
    | Some index => (s, match seek_index l index ≫= fun i => l !! i with Some x => LBulk x | None => LNull end)
    end).

Definition lrange_spec (s : lists) (key start end_ : list Z) : lists * list_reply :=
  match string2ll start, string2ll end_ with
  | Some start, Some end_ => on_list s key (LBulks []) (fun l => (s, LBulks (slice l start end_)))
  | _, _ => (s, LErr LERR_NOT_INTEGER)
  end.

Definition lset_spec (s : lists) (key index value : list Z) : lists * list_reply :=
  on_list s key (LErr LERR_NO_KEY) (fun l => match string2ll index with
    | None => (s, LErr LERR_NOT_INTEGER)
    | Some index =>
        match seek_index l index with
        | None => (s, LErr LERR_INDEX)
        | Some i => (add_dirty (emit (emit (set_list s key (<[i := value]> l)) (KeyModified key)) (Notify EV_LSET key)) 1, LOk)
        end
    end).

(** What is popped, in the order of popping, and what stays. *)
Definition popped (w : lwhere) (n : nat) (l : list (list Z)) : list (list Z) * list (list Z) :=
  match w with LIST_HEAD => (take n l, drop n l) | LIST_TAIL => (take n (reverse l), take (length l - n) l) end.

Definition pop_done (s : lists) (key : list Z) (w : lwhere) (rest : list (list Z)) (n : Z) : lists :=
  add_dirty (emit (put_back (emit s (Notify (pop_event w) key)) key rest) (KeyModified key)) n.

Definition pop_count_spec (s : lists) (key : list Z) (w : lwhere) (count : Z) (l : list (list Z)) (r : list (list Z) -> list_reply) : lists * list_reply :=
  let n := Z.min count (zlen l) in
  let '(out, rest) := popped w (Z.to_nat n) l in
  (pop_done s key w rest n, r out).

Definition lpop_spec (s : lists) (key : list Z) (args : list (list Z)) (w : lwhere) : lists * list_reply :=
  match args with
  | [] => on_list s key LNull (fun l => pop_count_spec s key w 1 l (fun out => LBulk (default [] (head out))))
  | [a] => match getPositiveLongLong a LERR_NOT_POSITIVE with
           | inl e => (s, LErr e)
           | inr count => on_list s key LNullArray (fun l => if count =? 0 then (s, LBulks []) else pop_count_spec s key w count l LBulks)
           end
  | _ => (s, LErr LERR_ARITY)
  end.

Fixpoint mpop_spec (s : lists) (keys : list (list Z)) (w : lwhere) (count : Z) : lists * list_reply :=
  match keys with
  | [] => (s, LNullArray)
  | key :: keys =>
      match sv_db s !! key with
      | None => mpop_spec s keys w count
      | Some OOther => (s, LErr LERR_WRONGTYPE)
      | Some (OList l) => pop_count_spec s key w count l (LPopped key)
      end
  end.

Definition lmpop_spec (s : lists) (numkeys : list Z) (args : list (list Z)) : lists * list_reply :=
  match getRangeLongLong numkeys 1 INT_MAX LERR_NUMKEYS LERR_NUMKEYS with
  | inl e => (s, LErr e)
  | inr n => match lmpop_args n args with inl e => (s, LErr e) | inr (keys, w, count) => mpop_spec s keys w count end
  end.

Definition ltrim_spec (s : lists) (key start end_ : list Z) : lists * list_reply :=
  match string2ll start, string2ll end_ with
  | Some start, Some end_ => on_list s key LOk (fun l =>
      let l' := slice l start end_ in
      (add_dirty (emit (put_back (emit s (Notify EV_LTRIM key)) key l') (KeyModified key)) (zlen l - zlen l'), LOk))
  | _, _ => (s, LErr LERR_NOT_INTEGER)
  end.

Definition lpos_spec (s : lists) (key ele : list Z) (args : list (list Z)) : lists * list_reply :=
  match lpos_options args {| lp_rank := 1; lp_count := -1; lp_maxlen := 0 |} with
  | inl e => (s, LErr e)
  | inr p =>
      on_list s key (if negb (lp_count p =? -1) then LInts [] else LNull) (fun l =>
        let found := positions ele l (if lp_rank p <? 0 then LIST_HEAD else LIST_TAIL) (Z.abs (lp_rank p)) (lp_count p) (lp_maxlen p) in
        (s, if negb (lp_count p =? -1) then LInts found else match found with i :: _ => LInteger i | [] => LNull end))
  end.

Definition lrem_spec (s : lists) (key count ele : list Z) : lists * list_reply :=
  match getRangeLongLong count (- INT64_MAX) INT64_MAX LERR_NOT_INTEGER LERR_OUT_OF_RANGE with
  | inl e => (s, LErr e)
  | inr toremove => on_list s key (LInteger 0) (fun l =>
      let l' := removed_by toremove ele l in
      let n := zlen l - zlen l' in
      if n =? 0 then (s, LInteger 0) else (emit (put_back (emit (add_dirty s n) (Notify EV_LREM key)) key l') (KeyModified key), LInteger n))
  end.

Definition lmove_spec (s : lists) (src dst : list Z) (wherefrom whereto : lwhere) : lists * list_reply :=
  on_list s src LNull (fun l =>
    match popped wherefrom 1 l, sv_db s !! dst with
    | _, Some OOther => (s, LErr LERR_WRONGTYPE)
    | (x :: _, rest), _ =>
        let s := set_list s src rest in
        let '(s, existed) := match sv_db s !! dst with Some _ => (s, true) | None => (dbAdd s dst [], false) end in
        let l := match sv_db s !! dst with Some (OList l) => l | _ => [] end in
        let s := emit (set_list s dst (pushed_on whereto [x] l)) (KeyModified dst) in
        let s := emit (if existed : bool then emit s (KeyReady dst) else s) (Notify (push_event whereto) dst) in
        let rest := match sv_db s !! src with Some (OList l) => l | _ => [] end in
        (pop_done s src wherefrom rest 1, LBulk x)
    | ([], _), _ => (s, LNull)
    end).

(** A block of elements, read from left to right, at one end of a list. *)
Definition placed (w : lwhere) (block l : list (list Z)) : list (list Z) := match w with LIST_HEAD => block ++ l | LIST_TAIL => l ++ block end.

Definition lmovem_spec (s : lists) (src dst : list Z) (wherefrom whereto : lwhere) (mode : lmovem_mode) (count : Z) (ordering : lmovem_order) : lists * list_reply :=
  on_list s src LNullArray (fun l =>
    let n := match mode with LMOVEM_EXACTLY => if zlen l <? count then 0 else count | _ => Z.min count (zlen l) end in
    let '(out, rest) := popped wherefrom (Z.to_nat n) l in
    let block := if lmovem_reversed ordering wherefrom whereto then reverse out else out in
    if n =? 0 then (s, LNullArray)
    else
      match sv_db s !! dst with
      | Some OOther => (s, LErr LERR_WRONGTYPE)
      | d =>
          (if decide (src = dst) then
             add_dirty (emit (emit (emit (set_list s src (placed whereto block rest)) (Notify (pop_event wherefrom) src)) (Notify (push_event whereto) src)) (KeyModified src)) n
           else
             let s := set_list s src rest in
             let '(s, dl) := match d with Some (OList dl) => (s, dl) | _ => (dbAdd s dst [], []) end in
             let s := emit (set_list s dst (placed whereto block dl)) (KeyModified dst) in
             let s := match d with Some _ => emit s (KeyReady dst) | None => s end in
             pop_done (emit s (Notify (push_event whereto) dst)) src wherefrom rest n, LBulks block)
      end).
End Spec.

(** ** Commands *)

Inductive list_cmd :=
  | CPush (key : list Z) (args : list (list Z)) (w : lwhere) (xx : bool)
  | CInsert (key where_arg pivot value : list Z)
  | CLen (key : list Z)
  | CIndex (key index : list Z)
  | CRange (key start end_ : list Z)
  | CSet (key index value : list Z)
  | CPop (key : list Z) (args : list (list Z)) (w : lwhere)
  | CMpop (numkeys : list Z) (args : list (list Z))
  | CTrim (key start end_ : list Z)
  | CPos (key ele : list Z) (args : list (list Z))
  | CRem (key count ele : list Z)
  | CMove (src dst from to : list Z)
  | CRpoplpush (src dst : list Z)
  | CMovem (src dst from to : list Z) (opts : list (list Z)).

Definition exec_list {L I E : Type} `{!list_ops L I E} (s : server L) (c : list_cmd) : option (server L * list_reply) :=
  match c with
  | CPush key args w xx => pushGenericCommand s key args w xx
  | CInsert key where_arg pivot value => linsertCommand s key where_arg pivot value
  | CLen key => llenCommand s key
  | CIndex key index => lindexCommand s key index
  | CRange key start end_ => lrangeCommand s key start end_
  | CSet key index value => lsetCommand s key index value
  | CPop key args w => popGenericCommand s key args w
  | CMpop numkeys args => lmpopGenericCommand s numkeys args
  | CTrim key start end_ => ltrimCommand s key start end_
  | CPos key ele args => lposCommand s key ele args
  | CRem key count ele => lremCommand s key count ele
  | CMove src dst from to => lmoveCommand s src dst from to
  | CRpoplpush src dst => rpoplpushCommand s src dst
  | CMovem src dst from to opts => lmovemCommand s src dst from to opts
  end.

Definition list_spec (s : lists) (c : list_cmd) : lists * list_reply :=
  match c with
  | CPush key args w xx => lpush_spec s key args w xx
  | CInsert key where_arg pivot value => linsert_spec s key where_arg pivot value
  | CLen key => llen_spec s key
  | CIndex key index => lindex_spec s key index
  | CRange key start end_ => lrange_spec s key start end_
  | CSet key index value => lset_spec s key index value
  | CPop key args w => lpop_spec s key args w
  | CMpop numkeys args => lmpop_spec s numkeys args
  | CTrim key start end_ => ltrim_spec s key start end_
  | CPos key ele args => lpos_spec s key ele args
  | CRem key count ele => lrem_spec s key count ele
  | CMove src dst from to =>
      match getListPosition from, getListPosition to with
      | Some wherefrom, Some whereto => lmove_spec s src dst wherefrom whereto
      | _, _ => (s, LErr LERR_SYNTAX)
      end
  | CRpoplpush src dst => lmove_spec s src dst LIST_TAIL LIST_HEAD
  | CMovem src dst from to opts =>
      match getListPosition from, getListPosition to with
      | Some wherefrom, Some whereto =>
          match lmovemParseOptions opts with inl e => (s, LErr e) | inr (mode, count, ordering) => lmovem_spec s src dst wherefrom whereto mode count ordering end
      | _, _ => (s, LErr LERR_SYNTAX)
      end
  end.

(** ** The laws *)

(** A string object that can be pushed. *)
Definition val_ok (v : listpackEntry) : Prop := match v with SVal s => elem_ok s | LVal n => is_s 64 n end.

Definition MAX_ARGS : Z := 16384.

(** The element the next step of a walk gives. *)
Definition next_pos (p : nat) (d : lwhere) (l : list (list Z)) : option nat :=
  match d with
  | LIST_TAIL => if decide (p < length l)%nat then Some p else None
  | LIST_HEAD => match p with O => None | S i => Some i end
  end.
Definition after_pos (i : nat) (d : lwhere) : nat := match d with LIST_TAIL => S i | LIST_HEAD => i end.

(** A walk from the end it starts at, and its position after [k] steps. *)
Definition first_index (d : lwhere) : Z := match d with LIST_TAIL => 0 | LIST_HEAD => -1 end.
Definition walk_pos (d : lwhere) (l : list (list Z)) (k : nat) : nat := match d with LIST_TAIL => k | LIST_HEAD => length l - k end.

Definition cache_ok (s : list Z) (c : cache) : Prop := c = None \/ c = Some (string2ll s).

(** [room o l vs]: the object holds [l], and the strings [vs] may still be put into it.
    [iter_at]: a walk in direction [d] has come to position [p].  [entry_on]: it has just
    returned the element [i]. *)
Class list_laws (L I E : Type) `{!list_ops L I E} := {
  room : L -> list (list Z) -> list (list Z) -> Prop;
  iter_at : L -> I -> list (list Z) -> list (list Z) -> nat -> lwhere -> Prop;
  entry_on : L -> I -> E -> list (list Z) -> list (list Z) -> nat -> lwhere -> Prop;
  law_create : exists o, lt_create = Some o /\ room o [] [];
  law_convert o l vs : room o l [] -> Forall val_ok vs -> zlen vs <= MAX_ARGS -> exists o', lt_convert_append o vs = Some o' /\ room o' l (arg_text <$> vs);
  law_weaken o l vs : room o l vs -> room o l [];
  law_order o l vs vs' : vs ≡ₚ vs' -> room o l vs -> room o l vs';
  law_shrink o l : room o l [] -> exists o', lt_convert_shrink o = Some o' /\ room o' l [];
  law_push o l v vs w : room o l (arg_text v :: vs) -> val_ok v -> exists o', lt_push o v w = Some o' /\ room o' (pushed_on w [arg_text v] l) vs;
  law_pop o l w x rest : room o l [] -> popped w 1 l = ([x], rest) -> exists v o', lt_pop o w = Some (Some v, o') /\ arg_text v = x /\ val_ok v /\ room o' rest [];
  law_length o l vs : room o l vs -> exists o', lt_length o = Some (zlen l, o') /\ room o' l vs;
  law_length_iter o it l vs p d : iter_at o it l vs p d -> exists o', lt_length o = Some (zlen l, o') /\ iter_at o' it l vs p d;
  law_init o l vs d : room o l vs -> exists it, lt_init o (first_index d) d = Some it /\ iter_at o it l vs (walk_pos d l 0) d;
  law_index o l idx : room o l [] -> INT64_MIN < idx -> exists it o1 it1 e o', lt_init o idx LIST_TAIL = Some it /\ lt_next o it = Some (o1, it1, e) /\
    match seek_index l idx with
    | None => e = None
    | Some i => exists e' v, e = Some e' /\ lt_get o1 e' = Some v /\ l !! i = Some (arg_text v) /\ value_text v = Some (arg_text v)
    end /\ lt_reset o1 it1 = Some o' /\ room o' l [];
  law_next o it l vs p d : iter_at o it l vs p d -> exists o' it' e, lt_next o it = Some (o', it', e) /\
    match next_pos p d l with
    | None => e = None /\ iter_at o' it' l vs p d
    | Some i => exists e', e = Some e' /\ entry_on o' it' e' l vs i d
    end;
  law_entry o it e l vs i d : entry_on o it e l vs i d -> iter_at o it l vs (after_pos i d) d;
  law_equal o it e l vs i d s c : entry_on o it e l vs i d -> cache_ok s c -> exists c', lt_equal o e s c = Some (bool_decide (l !! i = Some s), c') /\ cache_ok s c';
  law_insert o it e l v vs i d w : entry_on o it e l (v :: vs) i d -> elem_ok v ->
    exists o1 it' o', lt_insert o it e v w = Some (o1, it') /\ lt_reset o1 it' = Some o' /\ room o' (inserted_at w i v l) vs;
  law_delete o it e l vs i d : entry_on o it e l vs i d -> exists o' it', lt_delete o it e = Some (o', it') /\ iter_at o' it' (delete i l) vs i d;
  law_reset o it l vs p d : iter_at o it l vs p d -> exists o', lt_reset o it = Some o' /\ room o' l vs;
  law_replace o l v vs idx : room o l (v :: vs) -> elem_ok v -> INT64_MIN < idx -> exists o', lt_replace o idx v = Some (o', bool_decide (is_Some (seek_index l idx))) /\
    room o' (match seek_index l idx with Some i => <[i := v]> l | None => l end) vs;
  law_del_range o l w n : room o l [] -> zlen l <= INT64_MAX -> (0 < n <= length l)%nat ->
    exists o', lt_del_range o (match w with LIST_HEAD => 0 | LIST_TAIL => - Z.of_nat n end) (Z.of_nat n) = Some o' /\ room o' (popped w n l).2 [];
  law_trim o l a b : room o l [] -> zlen l <= INT64_MAX -> (a + b <= length l)%nat ->
    exists o', lt_trim o (Z.of_nat a) (Z.of_nat b) = Some o' /\ room o' (take (length l - a - b) (drop a l)) [];
  law_range o l vs a n rev : room o l vs -> (a + n <= length l)%nat -> (0 < n)%nat ->
    exists o', lt_range o (if rev : bool then Z.of_nat (a + n) - 1 else Z.of_nat a) (Z.of_nat n) rev =
      Some (o', if rev then reverse (take n (drop a l)) else take n (drop a l)) /\ room o' l vs }.

(** ** Simulation *)

Section Sim.
Context {L I E : Type} `{!list_ops L I E} `{!list_laws L I E}.

Inductive obj_sim : dbobj L -> dbobj (list (list Z)) -> Prop :=
  | sim_other : obj_sim OOther OOther
  | sim_list o l : room o l [] -> obj_sim (OList o) (OList l).

Record sim (s : server L) (a : lists) : Prop := {
  si_db : forall key, option_Forall2 obj_sim (sv_db s !! key) (sv_db a !! key);
  si_dirty : sv_dirty s = sv_dirty a;
  si_effects : sv_effects s = sv_effects a }.

Lemma sim_set s a key o l : sim s a -> room o l [] -> sim (set_list s key o) (set_list a key l).
Proof.
  intros [H1 H2 H3] Hr. split; [|done..]. intros k. cbn [set_list sv_db]. destruct (decide (key = k)) as [<-|Hk].
  - rewrite !lookup_insert_eq. by do 2 constructor.
  - by rewrite !lookup_insert_ne.
Qed.

Lemma sim_same s a key o l : sim s a -> sv_db a !! key = Some (OList l) -> room o l [] -> sim (set_list s key o) a.
Proof.
  intros Hs Ha Hr. assert (Hset : set_list a key l = a) by (destruct a; unfold set_list; cbn in *; by rewrite insert_id).
  rewrite <- Hset. by apply sim_set.
Qed.

Lemma sim_del s a key : sim s a -> sim (dbDelete s key) (dbDelete a key).
Proof.
  intros [H1 H2 H3]. split; [|done..]. intros k. cbn [dbDelete sv_db]. destruct (decide (key = k)) as [<-|Hk].
  - rewrite !lookup_delete_eq. constructor.
  - by rewrite !lookup_delete_ne.
Qed.

Lemma sim_emit s a e : sim s a -> sim (emit s e) (emit a e).
Proof. intros [H1 H2 H3]. split; [done|done|]. cbn. by rewrite H3. Qed.

Lemma sim_dirty s a n : sim s a -> sim (add_dirty s n) (add_dirty a n).
Proof. intros [H1 H2 H3]. split; [done| |done]. cbn. by rewrite H2. Qed.

Lemma sim_add s a key o l : sim s a -> room o l [] -> sim (dbAdd s key o) (dbAdd a key l).
Proof. intros. by apply sim_emit, sim_set. Qed.

(** The three cases of a lookup. *)
Lemma sim_lookup s a key : sim s a ->
  (sv_db s !! key = None /\ sv_db a !! key = None) \/ (sv_db s !! key = Some OOther /\ sv_db a !! key = Some OOther) \/
  exists o l, sv_db s !! key = Some (OList o) /\ sv_db a !! key = Some (OList l) /\ room o l [].
Proof.
  intros [H _ _]. specialize (H key). inversion H as [x y Hxy Hx Hy|Hx Hy]; [|by left]. destruct Hxy as [|o l Hr]; right; [by left|right]. by exists o, l.
Qed.

Lemma sim_put_back s a key o l : sim s a -> room o l [] ->
  exists s', (if zlen l =? 0 then Some (emit (dbDelete s key) (Notify EV_DEL key)) else o ← lt_convert_shrink o; Some (set_list s key o)) = Some s' /\ sim s' (put_back a key l).
Proof.
  intros Hs Hr. destruct l as [|x l]; [eexists; split; [done|]; by apply sim_emit, sim_del|]. rewrite zlen_cons, (proj2 (Z.eqb_neq _ _)) by (pose proof (zlen_nonneg l); lia).
  destruct (law_shrink o (x :: l) Hr) as (o' & -> & Hr'). cbn [mbind option_bind]. eexists. split; [done|]. by apply sim_set.
Qed.

Lemma steps_of_ok o l vs : room o l vs -> steps_of o = Some (S (length l)).
Proof. intros Hr. unfold steps_of. destruct (law_length o l vs Hr) as (o' & -> & _). cbn [mbind option_bind]. unfold zlen. by rewrite Nat2Z.id. Qed.

(** *** Pushing *)

Lemma push_vals_ok w vals : forall o l vs, room o l ((arg_text <$> vals) ++ vs) -> Forall val_ok vals ->
  exists o', push_loop o vals w = Some o' /\ room o' (pushed_on w (arg_text <$> vals) l) vs.
Proof.
  induction vals as [|v vals IH]; intros o l vs Hr Hok; [exists o; split; [done|]; destruct w; cbn [pushed_on]; by rewrite ?app_nil_r|].
  apply list.Forall_cons in Hok as [Hv Hok]. cbn [fmap list_fmap push_loop]. destruct (law_push o l v _ w Hr Hv) as (o1 & -> & Hr1). cbn [mbind option_bind].
  destruct (IH o1 _ vs Hr1 Hok) as (o' & -> & Hr'). exists o'. split; [done|]. destruct w; cbn [pushed_on] in *.
  - change (reverse [arg_text v]) with [arg_text v] in Hr'. by rewrite reverse_cons, <- app_assoc.
  - by rewrite <- app_assoc in Hr'.
Qed.

Lemma push_loop_ok w args o l vs : room o l (args ++ vs) -> Forall elem_ok args ->
  exists o', push_loop o (SVal <$> args) w = Some o' /\ room o' (pushed_on w args l) vs.
Proof.
  assert (Ht : arg_text <$> (SVal <$> args) = args) by (rewrite <- list_fmap_compose; apply list_fmap_id). pose proof (push_vals_ok w (SVal <$> args) o l vs) as H. rewrite Ht in H. intros Hr Hok. apply H; [done|]. by apply Forall_fmap.
Qed.

Lemma push_to_ok s a key o l args w existed : sim s a -> room o l [] -> Forall elem_ok args -> zlen args <= MAX_ARGS ->
  exists s', push_to s key o (SVal <$> args) w existed = Some (s', LInteger (zlen (pushed_on w args l))) /\
    sim s' (emit (let s := emit (add_dirty (set_list a key (pushed_on w args l)) (zlen args)) (KeyModified key) in if existed then emit s (KeyReady key) else s) (Notify (push_event w) key)).
Proof.
  intros Hs Hr Hok Hn. unfold push_to. assert (Hz : zlen (SVal <$> args) = zlen args) by (unfold zlen; by rewrite length_fmap).
  destruct (law_convert o l (SVal <$> args) Hr) as (o1 & -> & Hr1); [by apply Forall_fmap|lia|]. cbn [mbind option_bind].
  assert (Ht : arg_text <$> (SVal <$> args) = args ++ []) by (rewrite <- list_fmap_compose, app_nil_r; apply list_fmap_id). rewrite Ht in Hr1.
  destruct (push_loop_ok w args o1 l [] Hr1 Hok) as (o2 & -> & Hr2). cbn [mbind option_bind].
  destruct (law_length o2 _ [] Hr2) as (o3 & -> & Hr3). cbn [mbind option_bind]. rewrite Hz. eexists. split; [done|].
  apply sim_emit. destruct existed; repeat apply sim_emit; apply sim_dirty; by apply sim_set.
Qed.

(** A command does what [r] says, and keeps the simulation. *)
Definition command_ok (res : option (server L * list_reply)) (r : lists * list_reply) : Prop := exists s', res = Some (s', r.2) /\ sim s' r.1.

Lemma command_same s a r : sim s a -> command_ok (Some (s, r)) (a, r).
Proof. intros Hs. by exists s. Qed.

Lemma on_list_ok s a key none f F : sim s a -> (forall o l, sv_db s !! key = Some (OList o) -> sv_db a !! key = Some (OList l) -> room o l [] -> command_ok (F o) (f l)) ->
  command_ok (match sv_db s !! key with None => Some (s, none) | Some OOther => Some (s, LErr LERR_WRONGTYPE) | Some (OList o) => F o end) (on_list a key none f).
Proof.
  intros Hs Hf. unfold on_list. destruct (sim_lookup s a key Hs) as [(-> & ->)|[(-> & ->)|(o & l & E1 & E2 & Hr)]]; [by apply command_same..|]. rewrite E1, E2. by apply Hf.
Qed.

Lemma push_command_ok s a key args w xx : sim s a -> Forall elem_ok args -> zlen args <= MAX_ARGS ->
  command_ok (pushGenericCommand s key args w xx) (lpush_spec a key args w xx).
Proof.
  intros Hs Hok Hn. unfold pushGenericCommand, lpush_spec. destruct (sim_lookup s a key Hs) as [(-> & ->)|[(-> & ->)|(o & l & -> & -> & Hr)]]; [|by apply command_same|].
  - destruct xx; [by apply command_same|]. destruct law_create as (o & -> & Hr). cbn [mbind option_bind]. apply (push_to_ok (dbAdd s key o) (dbAdd a key []) key o [] args w false); [by apply sim_add|done..].
  - by apply (push_to_ok s a key o l args w true).
Qed.

(** *** Insertion *)

Lemma find_here (P : list Z -> Prop) `{!forall x, Decision (P x)} l p x : l !! p = Some x -> P x -> (forall j y, (j < p)%nat -> l !! j = Some y -> ~ P y) -> list_find P l = Some (p, x).
Proof. intros Hx Hp Hb. apply list_find_Some. split; [done|]. split; [done|]. intros j y Hj Hlt. by apply (Hb j y). Qed.

Lemma linsert_loop_ok pivot value w fuel : forall o it l p c, iter_at o it l [value] p LIST_TAIL -> elem_ok value -> cache_ok pivot c ->
  (forall j y, (j < p)%nat -> l !! j = Some y -> y <> pivot) -> (length l - p < fuel)%nat ->
  exists o1 it1 o2, linsert_loop fuel o it pivot value w c = Some (o1, it1, bool_decide (is_Some (list_find (fun x => x = pivot) l))) /\ lt_reset o1 it1 = Some o2 /\
    room o2 (match list_find (fun x => x = pivot) l with Some (i, _) => inserted_at w i value l | None => l end) [].
Proof.
  induction fuel as [|fuel IH]; intros o it l p c Hit Hv Hc Hb Hf; cbn [linsert_loop]; destruct (law_next o it l [value] p LIST_TAIL Hit) as (o1 & it1 & e & Hn & He); cbn [next_pos] in He.
  - lia.
  - rewrite Hn. cbn [mbind option_bind]. case_decide as Hp.
    + destruct He as (e' & -> & He). destruct (law_equal _ _ _ _ _ _ _ pivot c He Hc) as (c' & -> & Hc'). cbn [mbind option_bind]. destruct (bool_decide_reflect (l !! p = Some pivot)) as [Hx|Hx].
      * destruct (law_insert _ _ _ _ _ _ _ _ w He Hv) as (o2 & it2 & o3 & -> & Hrs & Hr). cbn [mbind option_bind]. exists o2, it2, o3.
        rewrite (find_here _ l p pivot Hx eq_refl Hb). by rewrite bool_decide_true.
      * apply law_entry in He. cbn [after_pos] in He. apply (IH o1 it1 l (S p) c' He Hv Hc'); [|lia]. intros j y Hj Hy. destruct (decide (j = p)) as [->|]; [intros ->; by apply Hx|]. apply (Hb j y); [lia|done].
    + destruct He as (-> & Hit'). destruct (law_reset _ _ _ _ _ _ Hit') as (o2 & Hrs & Hr). exists o1, it1, o2.
      assert (list_find (fun x => x = pivot) l = None) as ->.
      { apply list_find_None, list.Forall_lookup. intros j y Hj. apply (Hb j y); [apply lookup_lt_Some in Hj; lia|done]. }
      rewrite bool_decide_false by (by intros [? [=]]). split; [done|]. split; [done|]. by apply (law_weaken _ _ [value]).
Qed.

Lemma inserted_len w i v l : zlen (inserted_at w i v l) = zlen l + 1.
Proof.
  destruct w; cbn [inserted_at]; rewrite zlen_app, zlen_cons; [rewrite <- (take_drop i l) at 3|rewrite <- (take_drop (S i) l) at 3]; rewrite zlen_app; lia.
Qed.

Lemma linsert_ok s a key where_arg pivot value : sim s a -> elem_ok value -> command_ok (linsertCommand s key where_arg pivot value) (linsert_spec a key where_arg pivot value).
Proof.
  intros Hs Hv. unfold linsertCommand, linsert_spec.
  assert (Hgo : forall w, command_ok (match sv_db s !! key with None => Some (s, LInteger 0) | Some OOther => Some (s, LErr LERR_WRONGTYPE) | Some (OList o) =>
          o ← lt_convert_append o [SVal value];
          it ← lt_init o 0 LIST_TAIL;
          fuel ← steps_of o;
          '(o, it, inserted) ← linsert_loop fuel o it pivot value w None;
          o ← lt_reset o it;
          if inserted : bool then
            let s := emit (emit (emit s (KeyModified key)) (KeyReady key)) (Notify EV_LINSERT key) in
            '(ll, o) ← lt_length o;
            Some (add_dirty (set_list s key o) 1, LInteger ll)
          else Some (set_list s key o, LInteger (-1)) end)
    (on_list a key (LInteger 0) (fun l =>
    match list_find (fun x => x = pivot) l with
    | None => (a, LInteger (-1))
    | Some (i, _) => (add_dirty (set_list (emit (emit (emit a (KeyModified key)) (KeyReady key)) (Notify EV_LINSERT key)) key (inserted_at w i value l)) 1, LInteger (zlen l + 1))
    end))).
  { intros w. apply on_list_ok; [done|]. intros o l E1 E2 Hr. destruct (law_convert o l [SVal value] Hr) as (o1 & -> & Hr1); [by apply list.Forall_singleton|done|]. cbn [mbind option_bind fmap list_fmap arg_text] in *.
    destruct (law_init o1 l [value] LIST_TAIL Hr1) as (it & Ei & Hit). cbn [first_index walk_pos] in *. rewrite Ei. cbn [mbind option_bind]. rewrite (steps_of_ok _ _ _ Hr1). cbn [mbind option_bind].
    destruct (linsert_loop_ok pivot value w (S (length l)) o1 it l 0 None Hit Hv) as (o2 & it2 & o3 & -> & Hrs & Hr3); [by left| |lia|].
    { lia. }
    cbn [mbind option_bind]. rewrite Hrs. cbn [mbind option_bind]. destruct (list_find (fun x => x = pivot) l) as [[i y]|]; cbn [fst].
    - rewrite bool_decide_true by done. destruct (law_length _ _ _ Hr3) as (o4 & -> & Hr4). cbn [mbind option_bind]. rewrite inserted_len. eexists. split; [done|]. cbn [fst]. apply sim_dirty, sim_set; [|done]. by repeat apply sim_emit.
    - rewrite bool_decide_false by (by intros [? [=]]). eexists. split; [done|]. by apply (sim_same s a key o3 l). }
  destruct (argeq where_arg lit_after); [apply Hgo|]. destruct (argeq where_arg lit_before); [apply Hgo|]. by apply command_same.
Qed.

(** *** Reading *)

Lemma llen_ok s a key : sim s a -> command_ok (llenCommand s key) (llen_spec a key).
Proof.
  intros Hs. unfold llenCommand, llen_spec. apply on_list_ok; [done|]. intros o l _ Ha Hr. destruct (law_length _ _ _ Hr) as (o' & -> & Hr'). cbn [mbind option_bind]. eexists. split; [done|]. by apply (sim_same s a key o' l).
Qed.

Lemma index_min index idx : string2ll index = Some idx -> string2ll index <> Some INT64_MIN -> INT64_MIN < idx.
Proof. intros Ei Hi. apply string2ll_iff in Ei as Hc. destruct Hc as [Hc _]. assert (idx <> INT64_MIN) by congruence. unfold is_s, INT64_MIN in *. lia. Qed.

Lemma lindex_ok s a key index : sim s a -> string2ll index <> Some INT64_MIN -> command_ok (lindexCommand s key index) (lindex_spec a key index).
Proof.
  intros Hs Hi. unfold lindexCommand, lindex_spec. apply on_list_ok; [done|]. intros o l _ Ha Hr. destruct (string2ll index) as [idx|] eqn:Ei; [|by apply command_same].
  rewrite <- Ei in Hi. destruct (law_index o l idx Hr (index_min _ _ Ei Hi)) as (it & o1 & it1 & e & o2 & -> & Hn & He & Hrs & Hr2). cbn [mbind option_bind]. rewrite Hn. cbn [mbind option_bind].
  destruct (seek_index l idx) as [i|]; cbn [mbind option_bind]; [destruct He as (e' & v & -> & -> & Hv & Ht); cbn [mbind option_bind]; rewrite Ht, Hv|subst e]; cbn [mbind option_bind]; rewrite Hrs; cbn [mbind option_bind];
    (eexists; split; [done|]; by apply (sim_same s a key o2 l)).
Qed.

Lemma list_range_ok o l vs start end_ rev : room o l vs ->
  exists o', addListRangeReply o start end_ rev = Some (o', if rev : bool then reverse (slice l start end_) else slice l start end_) /\ room o' l vs.
Proof.
  intros Hr. unfold addListRangeReply, slice, bounds. destruct (law_length _ _ _ Hr) as (o1 & -> & Hr1). cbn [mbind option_bind]. pose proof (zlen_nonneg l) as Hl.
  set (a := if start <? 0 then zlen l + start else start). set (b := if end_ <? 0 then zlen l + end_ else end_). rewrite Z.gtb_ltb, !Z.geb_leb.
  assert (Ha : (if a <? 0 then 0 else a) = Z.max 0 a) by (destruct (Z.ltb_spec a 0); lia). rewrite Ha.
  assert (Hb : (if zlen l <=? b then zlen l - 1 else b) = Z.min (zlen l - 1) b) by (destruct (Z.leb_spec (zlen l) b); lia). rewrite Hb.
  destruct (Z.leb_spec (Z.max 0 a) (Z.min (zlen l - 1) b)) as [Hab|Hab].
  - rewrite (proj2 (Z.ltb_ge b _)), (proj2 (Z.leb_gt (zlen l) _)) by lia. cbn [orb]. set (i := Z.to_nat (Z.max 0 a)). set (j := Z.to_nat (Z.min (zlen l - 1) b + 1)).
    assert (Hi : Z.max 0 a = Z.of_nat i) by (unfold i; lia). assert (Hj : Z.min (zlen l - 1) b = Z.of_nat j - 1) by (unfold j; lia). rewrite Hi, Hj. unfold zlen in *.
    destruct (law_range o1 l vs i (j - i) rev Hr1 ltac:(lia) ltac:(lia)) as (o' & Hq & Hr'). exists o'. split; [|done]. rewrite <- Hq. f_equal; destruct rev; lia.
  - exists o1. split; [|done]. replace ((b <? Z.max 0 a) || (zlen l <=? Z.max 0 a)) with true; [by destruct rev|].
    symmetry. apply orb_true_iff. destruct (Z.ltb_spec b (Z.max 0 a)); [by left|right]. apply Z.leb_le. lia.
Qed.

Lemma lrange_ok s a key start end_ : sim s a -> command_ok (lrangeCommand s key start end_) (lrange_spec a key start end_).
Proof.
  intros Hs. unfold lrangeCommand, lrange_spec. destruct (string2ll start) as [st|]; [|by apply command_same]. destruct (string2ll end_) as [en|]; [|by apply command_same].
  apply on_list_ok; [done|]. intros o l _ Ha Hr. destruct (list_range_ok o l [] st en false Hr) as (o' & -> & Hr'). cbn [mbind option_bind]. eexists. split; [done|]. by apply (sim_same s a key o' l).
Qed.

(** *** Replacement *)

Lemma lset_ok s a key index value : sim s a -> elem_ok value -> string2ll index <> Some INT64_MIN -> command_ok (lsetCommand s key index value) (lset_spec a key index value).
Proof.
  intros Hs Hv Hi. unfold lsetCommand, lset_spec. apply on_list_ok; [done|]. intros o l _ Ha Hr. destruct (string2ll index) as [idx|] eqn:Ei; [|by apply command_same].
  rewrite <- Ei in Hi. destruct (law_convert o l [SVal value] Hr) as (o1 & -> & Hr1); [by apply list.Forall_singleton|done|]. cbn [mbind option_bind fmap list_fmap arg_text] in *.
  destruct (law_replace _ _ _ _ idx Hr1 Hv (index_min _ _ Ei Hi)) as (o2 & -> & Hr2). cbn [mbind option_bind]. destruct (seek_index l idx) as [i|].
  - rewrite bool_decide_true by done. destruct (law_shrink _ _ Hr2) as (o3 & -> & Hr3). cbn [mbind option_bind]. eexists. split; [done|]. cbn [fst]. apply sim_dirty. repeat apply sim_emit. by apply sim_set.
  - rewrite bool_decide_false by (by intros [? [=]]). eexists. split; [done|]. by apply (sim_same s a key o2 l).
Qed.

(** *** Popping *)

Lemma removed_ok s a key w o l n : sim s a -> room o l [] -> exists s', listElementsRemoved s key w o n = Some s' /\ sim s' (pop_done a key w l n).
Proof.
  intros Hs Hr. unfold listElementsRemoved. destruct (law_length _ _ _ Hr) as (o1 & -> & Hr1). cbn [mbind option_bind].
  destruct (sim_put_back (emit s (Notify (pop_event w) key)) (emit a (Notify (pop_event w) key)) key o1 l (sim_emit _ _ _ Hs) Hr1) as (s' & -> & Hs'). cbn [mbind option_bind].
  eexists. split; [done|]. unfold pop_done. by apply sim_dirty, sim_emit.
Qed.

Lemma popped_slice l n w : (0 < n <= length l)%nat ->
  (popped w n l).1 = if bool_decide (w = LIST_TAIL) then reverse (slice l (- Z.of_nat n) (-1)) else slice l 0 (Z.of_nat n - 1).
Proof.
  intros Hn. unfold slice, bounds. destruct w; cbn [popped fst].
  - rewrite bool_decide_false by done. cbn [Z.ltb Z.compare]. rewrite (proj2 (Z.ltb_ge (Z.of_nat n - 1) 0)) by lia. unfold zlen. rewrite (proj2 (Z.leb_le _ _)) by lia.
    replace (Z.to_nat (Z.max 0 0)) with 0%nat by lia. rewrite drop_0. f_equal. lia.
  - rewrite bool_decide_true by done. rewrite (proj2 (Z.ltb_lt (- Z.of_nat n) 0)), (proj2 (Z.ltb_lt (-1) 0)) by lia. unfold zlen. rewrite (proj2 (Z.leb_le _ _)) by lia.
    replace (Z.to_nat (Z.max 0 _)) with (length l - n)%nat by lia. replace (Z.to_nat (Z.min _ _ + 1)) with (length l) by lia.
    rewrite take_reverse. f_equal. symmetry. apply take_ge. rewrite length_drop. lia.
Qed.

Lemma pop_range_ok o l w count : room o l [] -> zlen l <= INT64_MAX -> 0 < count -> l <> [] ->
  let n := Z.to_nat (Z.min count (zlen l)) in exists o', pop_range o w count = Some (o', (popped w n l).1, Z.min count (zlen l)) /\ room o' (popped w n l).2 [].
Proof.
  intros Hr Hmx Hc Hl n. unfold pop_range. destruct (law_length _ _ _ Hr) as (o1 & -> & Hr1). cbn [mbind option_bind]. assert (Hz : 0 < zlen l) by (destruct l; [done|]; rewrite zlen_cons; pose proof (zlen_nonneg l0); lia).
  assert (Hm : (if count >? zlen l then zlen l else count) = Z.of_nat n) by (rewrite Z.gtb_ltb; destruct (Z.ltb_spec (zlen l) count); lia). rewrite Hm.
  assert (Hn : (0 < n <= length l)%nat) by (unfold n, zlen in *; lia). rewrite (popped_slice l n w Hn). replace (Z.min count (zlen l)) with (Z.of_nat n) by lia.
  set (st := match w with LIST_HEAD => 0 | LIST_TAIL => - Z.of_nat n end). set (en := match w with LIST_HEAD => Z.of_nat n - 1 | LIST_TAIL => -1 end).
  destruct (list_range_ok o1 l [] st en (bool_decide (w = LIST_TAIL)) Hr1) as (o2 & -> & Hr2). cbn [mbind option_bind].
  destruct (law_del_range o2 l w n Hr2 Hmx Hn) as (o3 & Hd & Hr3). unfold st. rewrite Hd. cbn [mbind option_bind]. exists o3. split; [|done]. do 3 f_equal. by destruct w.
Qed.

Lemma pop_count_ok s a key w o l count r : sim s a -> room o l [] -> zlen l <= INT64_MAX -> 0 < count -> l <> [] ->
  command_ok ('(o, out, n) ← pop_range o w count; s ← listElementsRemoved s key w o n; Some (s, r out)) (pop_count_spec a key w count l r).
Proof.
  intros Hs Hr Hmx Hc Hl. destruct (pop_range_ok o l w count Hr Hmx Hc Hl) as (o' & -> & Hr'). cbn [mbind option_bind]. destruct (removed_ok s a key w o' _ (Z.min count (zlen l)) Hs Hr') as (s' & -> & Hs'). cbn [mbind option_bind].
  unfold pop_count_spec. destruct (popped w _ l) as [out rest]. by exists s'.
Qed.

(** No key has an empty list, or one of more than [M] elements. *)
Definition full (M : Z) (a : lists) : Prop := forall key l, sv_db a !! key = Some (OList l) -> l <> [] /\ zlen l <= M.

Lemma popped_one w l : l <> [] -> exists x rest, popped w 1 l = ([x], rest).
Proof.
  intros Hl. destruct w; cbn [popped].
  - destruct l as [|x l]; [done|]. by exists x, (drop 1 (x :: l)).
  - destruct l as [|x l _] using rev_ind; [done|]. rewrite reverse_snoc. by eexists x, _.
Qed.

Lemma value_text_ok v : val_ok v -> value_text v = Some (arg_text v).
Proof. destruct v as [s|n]; [done|]. intros Hn. cbn [value_text arg_text]. by apply int_text_ok. Qed.

Lemma pop_command_ok s a key args w : sim s a -> full INT64_MAX a -> command_ok (popGenericCommand s key args w) (lpop_spec a key args w).
Proof.
  intros Hs Hfull. unfold popGenericCommand, lpop_spec. destruct args as [|c [|c' args]]; [| |by apply command_same].
  - cbn [head]. apply on_list_ok; [done|]. intros o l _ Ha Hr. destruct (Hfull key l ltac:(done)) as [Hl Hmx].
    destruct (popped_one w l Hl) as (x & rest & Hp). destruct (law_pop o l w x rest Hr Hp) as (v & o' & -> & Ht & Hv & Hr'). cbn [mbind option_bind]. rewrite (value_text_ok v Hv). cbn [mbind option_bind].
    destruct (removed_ok s a key w o' rest 1 Hs Hr') as (s' & -> & Hs'). cbn [mbind option_bind]. unfold pop_count_spec.
    assert (Z.min 1 (zlen l) = 1) as -> by (destruct l; [done|]; rewrite zlen_cons; pose proof (zlen_nonneg l0); lia). change (Z.to_nat 1) with 1%nat. rewrite Hp. cbn [head default]. rewrite Ht. by exists s'.
  - cbn [head]. destruct (getPositiveLongLong c LERR_NOT_POSITIVE) as [e|count] eqn:Ec; [by apply command_same|]. apply on_list_ok; [done|]. intros o l _ Ha Hr. destruct (Z.eqb_spec count 0); [by apply command_same|].
    destruct (Hfull key l ltac:(done)) as [Hl Hmx]. assert (Hc : 0 < count).
    { unfold getPositiveLongLong, getRangeLongLong in Ec. destruct (string2ll c) as [v|]; [|done]. destruct (Z.ltb_spec v 0); [done|]. cbn [orb] in Ec. destruct (v >? INT64_MAX); [done|]. injection Ec as <-. lia. }
    by apply pop_count_ok.
Qed.

Lemma mpop_command_ok s a keys w count : sim s a -> full INT64_MAX a -> 0 < count -> command_ok (mpopGenericCommand s keys w count) (mpop_spec a keys w count).
Proof.
  intros Hs Hfull Hc. induction keys as [|key keys IH]; [by apply command_same|]. cbn [mpopGenericCommand mpop_spec].
  destruct (sim_lookup s a key Hs) as [(-> & ->)|[(-> & ->)|(o & l & E1 & E2 & Hr)]]; [done|by apply command_same|]. rewrite E1, E2. destruct (Hfull key l ltac:(done)) as [Hl Hmx].
  destruct (law_length _ _ _ Hr) as (o1 & -> & Hr1). cbn [mbind option_bind]. rewrite (proj2 (Z.eqb_neq (zlen l) 0)) by (destruct l; [done|]; rewrite zlen_cons; pose proof (zlen_nonneg l0); lia). by apply pop_count_ok.
Qed.

Lemma mpop_count_pos opts : forall c n, (forall m, c = Some m -> 0 < m) -> lmpop_options opts c = inr n -> 0 < n.
Proof.
  induction opts as [opts IH] using (induction_ltof1 _ length). unfold ltof in IH. intros c n Hc. destruct opts as [|opt [|arg opts]]; cbn [lmpop_options]; [|done|].
  - intros [= <-]. destruct c; [by apply Hc|done].
  - destruct (_ && _); [|done]. unfold getRangeLongLong. destruct (string2ll arg) as [v|]; [|done]. destruct ((v <? 1) || (v >? INT64_MAX)) eqn:E1; [done|]. apply orb_false_iff in E1 as [E1%Z.ltb_ge _]. intros H. eapply (IH opts); [cbn; lia| |exact H]. intros m [= <-]. lia.
Qed.

Lemma lmpop_ok s a numkeys args : sim s a -> full INT64_MAX a -> (forall n, string2ll numkeys = Some n -> n <= INT_MAX - 2) -> command_ok (lmpopGenericCommand s numkeys args) (lmpop_spec a numkeys args).
Proof.
  intros Hs Hfull Hn. unfold lmpopGenericCommand, lmpop_spec, getRangeLongLong. destruct (string2ll numkeys) as [n|]; [|by apply command_same]. specialize (Hn n eq_refl). destruct ((n <? 1) || _); [by apply command_same|].
  rewrite (proj2 (Z.leb_le _ _)) by lia. cbn [cassert mbind option_bind]. destruct (lmpop_args n args) as [e|[[keys w] count]] eqn:Ea; [by apply command_same|]. apply mpop_command_ok; [done|done|].
  unfold lmpop_args in Ea. destruct (drop _ _) as [|x opts]; [done|]. destruct (getListPosition x); [|done]. destruct (lmpop_options opts None) as [|m] eqn:Eo; [done|]. injection Ea as _ _ <-. by apply (mpop_count_pos opts None m).
Qed.

(** *** Trimming *)

Lemma ltrim_ok s a key start end_ : sim s a -> full INT64_MAX a -> command_ok (ltrimCommand s key start end_) (ltrim_spec a key start end_).
Proof.
  intros Hs Hfull. unfold ltrimCommand, ltrim_spec. destruct (string2ll start) as [st|]; [|by apply command_same]. destruct (string2ll end_) as [en|]; [|by apply command_same].
  apply on_list_ok; [done|]. intros o l _ Ha Hr. destruct (law_length _ _ _ Hr) as (o1 & -> & Hr1). cbn [mbind option_bind]. pose proof (zlen_nonneg l) as Hl.
  set (x := if st <? 0 then zlen l + st else st). set (y := if en <? 0 then zlen l + en else en). rewrite Z.gtb_ltb, !Z.geb_leb.
  assert (Hx : (if x <? 0 then 0 else x) = Z.max 0 x) by (destruct (Z.ltb_spec x 0); lia). rewrite Hx.
  assert (Hy : (if zlen l <=? y then zlen l - 1 else y) = Z.min (zlen l - 1) y) by (destruct (Z.leb_spec (zlen l) y); lia). rewrite Hy.
  assert (Htr : exists i j, (i + j <= length l)%nat /\ (if (y <? Z.max 0 x) || (zlen l <=? Z.max 0 x) then (zlen l, 0) else (Z.max 0 x, zlen l - Z.min (zlen l - 1) y - 1)) = (Z.of_nat i, Z.of_nat j) /\
    take (length l - i - j) (drop i l) = slice l st en).
  { unfold slice, bounds. fold x y. destruct (Z.leb_spec (Z.max 0 x) (Z.min (zlen l - 1) y)) as [Hxy|Hxy].
    - rewrite (proj2 (Z.ltb_ge y _)), (proj2 (Z.leb_gt (zlen l) _)) by lia. cbn [orb]. exists (Z.to_nat (Z.max 0 x)), (Z.to_nat (zlen l - Z.min (zlen l - 1) y - 1)). unfold zlen in *. split; [lia|]. split; [f_equal; lia|]. f_equal. lia.
    - exists (length l), 0%nat. split; [lia|]. split; [|by rewrite drop_all, take_nil]. replace ((y <? Z.max 0 x) || (zlen l <=? Z.max 0 x)) with true; [done|].
      symmetry. apply orb_true_iff. destruct (Z.ltb_spec y (Z.max 0 x)); [by left|right]. apply Z.leb_le. lia. }
  destruct Htr as (i & j & Hij & -> & Hsl). destruct (law_trim o1 l i j Hr1 (proj2 (Hfull key l Ha)) Hij) as (o2 & -> & Hr2). cbn [mbind option_bind]. rewrite Hsl in Hr2. destruct (law_length _ _ _ Hr2) as (o3 & -> & Hr3). cbn [mbind option_bind].
  destruct (sim_put_back _ _ key o3 _ (sim_emit _ _ (Notify EV_LTRIM key) Hs) Hr3) as (s' & -> & Hs'). cbn [mbind option_bind]. eexists. split; [done|]. cbn [fst].
  assert (zlen l - zlen (slice l st en) = Z.of_nat i + Z.of_nat j) as -> by (rewrite <- Hsl; unfold zlen; rewrite length_take, length_drop; lia). by apply sim_dirty, sim_emit.
Qed.

(** *** Walks *)

(** The elements ahead of a walk, and the list when they are replaced. *)
Definition rest_of (d : lwhere) (p : nat) (l : list (list Z)) : list (list Z) := match d with LIST_TAIL => drop p l | LIST_HEAD => reverse (take p l) end.
Definition rebuild (d : lwhere) (p : nat) (l r : list (list Z)) : list (list Z) := match d with LIST_TAIL => take p l ++ r | LIST_HEAD => reverse r ++ drop p l end.

Lemma rebuild_rest d p l : rebuild d p l (rest_of d p l) = l.
Proof. destruct d; cbn [rebuild rest_of]; [rewrite reverse_involutive|]; apply take_drop. Qed.

Lemma next_none p d l : next_pos p d l = None -> rest_of d p l = [].
Proof. destruct d; cbn [next_pos rest_of]; [by destruct p|]. case_decide; [done|]. intros _. apply drop_ge. lia. Qed.

Lemma next_some p d l i : (p <= length l)%nat -> next_pos p d l = Some i ->
  exists x, l !! i = Some x /\ rest_of d p l = x :: rest_of d (after_pos i d) l /\ (after_pos i d <= length l)%nat /\ (i < length l)%nat /\
    (forall r, rebuild d (after_pos i d) l r = rebuild d p l (x :: r)) /\ (forall r, rebuild d i (delete i l) r = rebuild d p l r) /\ rest_of d i (delete i l) = rest_of d (after_pos i d) l.
Proof.
  intros Hp Hn. assert (Hi : (i < length l)%nat /\ p = match d with LIST_TAIL => i | LIST_HEAD => S i end).
  { destruct d; cbn [next_pos] in Hn; [destruct p; [done|]; injection Hn as ->; lia|]. case_decide; [|done]. injection Hn as ->. lia. }
  destruct Hi as [Hi ->]. destruct (lookup_lt_is_Some_2 l i Hi) as [x Hx]. exists x. split; [done|]. rewrite delete_take_drop.
  assert (Hlt : length (take i l) = i) by (rewrite length_take; lia). assert (Hl : length (take i l ++ drop (S i) l) = (length l - 1)%nat) by (rewrite length_app, length_take, length_drop; lia).
  destruct d; cbn [rest_of rebuild after_pos].
  - split; [by rewrite (take_S_r _ _ _ Hx), reverse_snoc|]. split; [lia|]. split; [lia|]. split; [intros r; rewrite reverse_cons, <- app_assoc; cbn [app]; by rewrite <- (drop_S _ _ _ Hx)|].
    rewrite !take_app_le, !drop_app_ge, Hlt, Nat.sub_diag, drop_0, take_take, Nat.min_id by lia. done.
  - split; [by apply drop_S|]. split; [lia|]. split; [lia|]. split; [intros r; by rewrite (take_S_r _ _ _ Hx), <- app_assoc|].
    rewrite !take_app_le, !drop_app_ge, Hlt, Nat.sub_diag, drop_0, take_take, Nat.min_id by lia. done.
Qed.

(** *** Removal by value *)

Lemma remove_first_le n x l : (length (remove_first n x l) <= length l)%nat.
Proof. revert n. induction l as [|y l IH]; intros [|n]; cbn [remove_first]; [done..|]. case_decide; cbn [length]; [specialize (IH n)|specialize (IH (S n))]; lia. Qed.

(** How many more may go. *)
Definition limit_ok (toremove removed : Z) (n : nat) (rest : list (list Z)) : Prop :=
  (toremove = 0 /\ (length rest <= n)%nat) \/ (toremove <> 0 /\ removed < toremove /\ n = Z.to_nat (toremove - removed)).

Lemma lrem_loop_ok ele d toremove fuel : forall o it l p removed n c, iter_at o it l [] p d -> cache_ok ele c -> (p <= length l)%nat -> limit_ok toremove removed n (rest_of d p l) -> (length (rest_of d p l) < fuel)%nat ->
  let l' := rebuild d p l (remove_first n ele (rest_of d p l)) in
  exists o' it' p', lrem_loop fuel o it ele toremove removed c = Some (o', it', removed + (zlen l - zlen l')) /\ iter_at o' it' l' [] p' d.
Proof.
  induction fuel as [|fuel IH]; intros o it l p removed n c Hit Hc Hp Hn Hf; [lia|]. cbn [lrem_loop]. destruct (law_next _ _ _ _ _ _ Hit) as (o1 & it1 & e & -> & He). cbn [mbind option_bind].
  destruct (next_pos p d l) as [i|] eqn:Ep.
  - destruct (next_some p d l i Hp Ep) as (x & Hx & Hrest & Hpa & Hi & Hkeep & Hdel & Hrd). destruct He as (e' & -> & He). rewrite Hrest in *. cbn [length] in Hf.
    destruct (law_equal _ _ _ _ _ _ _ ele c He Hc) as (c' & -> & Hc'). cbn [mbind option_bind]. destruct (bool_decide_reflect (l !! i = Some ele)) as [Hx'|Hx'].
    + assert (x = ele) as -> by congruence. destruct (law_delete _ _ _ _ _ _ _ He) as (o2 & it2 & -> & Hit2). cbn [mbind option_bind].
      assert (exists m, n = S m) as [m ->]. { destruct Hn as [[_ Hn]|(H0 & H1 & ->)]; [cbn [length] in Hn; destruct n; [lia|by eexists]|]. exists (Z.to_nat (toremove - removed) - 1)%nat. lia. }
      assert (Hz : zlen (delete i l) = zlen l - 1) by (unfold zlen; rewrite length_delete by (by rewrite Hx); lia).
      cbn [remove_first]. rewrite decide_True by done.
      destruct (negb (toremove =? 0) && (removed + 1 =? toremove)) eqn:Estop.
      * apply andb_true_iff in Estop as [E0 E1]. apply negb_true_iff, Z.eqb_neq in E0. apply Z.eqb_eq in E1. destruct Hn as [[H0 _]|(_ & _ & Hm)]; [done|]. assert (m = 0%nat) as -> by lia.
        exists o2, it2, i. assert (Hl : rebuild d p l (remove_first 0 ele (rest_of d (after_pos i d) l)) = delete i l).
        { rewrite <- Hdel, <- Hrd. destruct (rest_of d i (delete i l)) eqn:Er; cbn [remove_first]; rewrite <- Er; apply rebuild_rest. }
        rewrite Hl. split; [|done]. do 3 f_equal. lia.
      * destruct (IH o2 it2 (delete i l) i (removed + 1) m c' Hit2 Hc') as (o' & it' & p' & -> & Hit'); [rewrite length_delete by (by rewrite Hx); lia| |rewrite Hrd; lia|].
        { rewrite Hrd. destruct Hn as [[H0 Hn]|(H0 & H1 & Hm)]; [left; cbn [length] in Hn; split; [done|lia]|]. right. split; [done|]. apply andb_false_iff in Estop as [Es|Es]; [apply negb_false_iff, Z.eqb_eq in Es; lia|]. apply Z.eqb_neq in Es. lia. }
        rewrite Hdel, Hrd in *. exists o', it', p'. split; [|done]. rewrite Hz. do 2 f_equal. lia.
    + assert (Hne : x <> ele) by congruence. apply law_entry in He. destruct (IH o1 it1 l (after_pos i d) removed n c' He Hc' Hpa) as (o' & it' & p' & -> & Hit'); [|lia|].
      { destruct Hn as [[H0 Hn]|Hn]; [left|by right]. cbn [length] in Hn. split; [done|lia]. }
      exists o', it', p'. rewrite Hkeep in *. assert (Hr : remove_first n ele (x :: rest_of d (after_pos i d) l) = x :: remove_first n ele (rest_of d (after_pos i d) l)).
      { destruct n; cbn [remove_first]; [by destruct (rest_of d (after_pos i d) l)|]. by rewrite decide_False. }
      by rewrite Hr.
  - destruct He as (-> & He). rewrite (next_none _ _ _ Ep). exists o1, it1, p. assert (remove_first n ele [] = []) as -> by (by destruct n).
    assert (rebuild d p l [] = l) as -> by (rewrite <- (next_none _ _ _ Ep); apply rebuild_rest). split; [|done]. do 2 f_equal. lia.
Qed.

Lemma lrem_ok s a key count ele : sim s a -> command_ok (lremCommand s key count ele) (lrem_spec a key count ele).
Proof.
  intros Hs. unfold lremCommand, lrem_spec. destruct (getRangeLongLong _ _ _ _ _) as [e|t]; [by apply command_same|]. apply on_list_ok; [done|]. intros o l _ Ha Hr.
  rewrite (steps_of_ok _ _ _ Hr). cbn [mbind option_bind]. set (d := if t <? 0 then LIST_HEAD else LIST_TAIL). set (p := match d with LIST_TAIL => 0%nat | LIST_HEAD => length l end).
  assert (Hinit : exists it, (if t <? 0 then lt_init o (-1) LIST_HEAD else lt_init o 0 LIST_TAIL) = Some it /\ iter_at o it l [] p d).
  { destruct (law_init o l [] d Hr) as (it & E1 & E2). exists it. unfold p, d in *. destruct (t <? 0); cbn [walk_pos first_index] in *; [by rewrite Nat.sub_0_r in E2|done]. }
  destruct Hinit as (it & -> & Hit). cbn [mbind option_bind]. set (n := if t =? 0 then length l else Z.to_nat (Z.abs t)).
  assert (Hrest : rest_of d p l = match d with LIST_TAIL => l | LIST_HEAD => reverse l end) by (unfold p; destruct d; cbn [rest_of]; [by rewrite firstn_all|by rewrite drop_0]).
  assert (Hlen : length (rest_of d p l) = length l) by (rewrite Hrest; destruct d; [by rewrite length_reverse|done]).
  destruct (lrem_loop_ok ele d (Z.abs t) (S (length l)) o it l p 0 n None Hit) as (o1 & it1 & p1 & -> & Hit1); [by left|unfold p; destruct d; lia| |lia|].
  { unfold n, limit_ok. destruct (Z.eqb_spec t 0); [left; lia|right]. split; [lia|]. split; [lia|]. f_equal. lia. }
  assert (Hl' : rebuild d p l (remove_first n ele (rest_of d p l)) = removed_by t ele l).
  { rewrite Hrest. unfold removed_by, p, d, n. destruct (t <? 0); cbn [rebuild]; [by rewrite drop_all, app_nil_r|by rewrite take_0]. }
  rewrite Hl' in *. cbn [mbind option_bind]. destruct (law_reset _ _ _ _ _ _ Hit1) as (o2 & -> & Hr2). cbn [mbind option_bind]. rewrite Z.add_0_l. destruct (Z.eqb_spec (zlen l - zlen (removed_by t ele l)) 0) as [E0|E0].
  - assert (Hsame : removed_by t ele l = l).
    { assert (Hrf : forall m k, length (remove_first m ele k) = length k -> remove_first m ele k = k).
      { intros m k. revert m. induction k as [|y k IH]; intros [|m]; cbn [remove_first]; [done..|]. case_decide; cbn [length]; intros Hk; [pose proof (remove_first_le m ele k); lia|]. f_equal. apply IH. lia. }
      unfold removed_by, zlen in *. destruct (t <? 0); [|apply Hrf; lia]. rewrite Hrf, reverse_involutive; [done|]. rewrite length_reverse in *. lia. }
    rewrite Hsame in *. eexists. split; [done|]. cbn [fst]. rewrite E0. replace (add_dirty s 0) with s by (destruct s; unfold add_dirty; cbn; f_equal; lia). by apply (sim_same s a key o2 l).
  - destruct (law_length _ _ _ Hr2) as (o3 & -> & Hr3). cbn [mbind option_bind].
    destruct (sim_put_back _ _ key o3 _ (sim_emit _ _ (Notify EV_LREM key) (sim_dirty _ _ (zlen l - zlen (removed_by t ele l)) Hs)) Hr3) as (s' & -> & Hs'). cbn [mbind option_bind]. eexists. split; [done|]. by apply sim_emit.
Qed.

(** *** Positions *)

Lemma walked_length d l : length (walked d l) = length l.
Proof. destruct d; cbn [walked]; rewrite ?length_reverse; apply length_imap. Qed.

Lemma indexed_lookup l i x : l !! i = Some x -> indexed l !! i = Some (Z.of_nat i, x).
Proof. intros Hx. unfold indexed. by rewrite list_lookup_imap, Hx. Qed.

Lemma walk_next d l k : (k <= length l)%nat ->
  match next_pos (walk_pos d l k) d l with
  | None => k = length l
  | Some i => (k < length l)%nat /\ after_pos i d = walk_pos d l (S k) /\ exists x, l !! i = Some x /\ walked d l !! k = Some (Z.of_nat i, x) /\ (match d with LIST_TAIL => Z.of_nat k | LIST_HEAD => zlen l - Z.of_nat k - 1 end) = Z.of_nat i
  end.
Proof.
  intros Hk. destruct d; cbn [next_pos walk_pos].
  - destruct (length l - k)%nat as [|i] eqn:Ei; [lia|]. split; [lia|]. cbn [after_pos]. split; [lia|]. destruct (lookup_lt_is_Some_2 l i) as [x Hx]; [lia|]. exists x. split; [done|]. split; [|unfold zlen; lia].
    cbn [walked]. rewrite reverse_lookup; unfold indexed; rewrite length_imap; [|lia]. replace (length l - S k)%nat with i by lia. by apply indexed_lookup.
  - case_decide as Hlt; [|lia]. split; [done|]. split; [done|]. destruct (lookup_lt_is_Some_2 l k) as [x Hx]; [lia|]. exists x. split; [done|]. split; [by apply indexed_lookup|done].
Qed.

Definition seen_from (d : lwhere) (l : list (list Z)) (maxlen : Z) (k : nat) : list (Z * list Z) :=
  let w := drop k (walked d l) in if maxlen =? 0 then w else take (Z.to_nat (maxlen - Z.of_nat k)) w.

Lemma lpos_loop_ok ele d rank count maxlen l : 1 <= rank -> -1 <= count -> 0 <= maxlen ->
  forall fuel o it k matches found c, iter_at o it l [] (walk_pos d l k) d -> cache_ok ele c -> (k <= length l)%nat -> (length l - k < fuel)%nat -> 0 <= matches ->
  (0 < count -> matches - rank + 1 < count) ->
  let todo := drop (Z.to_nat (rank - 1 - matches)) (filter (fun y => y.2 = ele) (seen_from d l maxlen k)).*1 in
  exists o' it' p' found' mi, lpos_loop fuel o it ele d (zlen l) rank count maxlen (Z.of_nat k) matches found c = Some (o', it', found', mi) /\ iter_at o' it' l [] p' d /\
    if count =? -1 then mi = default (-1) (head todo) else found' = reverse (if count =? 0 then todo else take (Z.to_nat (count - Z.max 0 (matches - rank + 1))) todo) ++ found.
Proof.
  intros Hrank Hcount Hmax. induction fuel as [|fuel IH]; intros o it k matches found c Hit Hc Hk Hf Hm Hlim; [lia|]. cbn [lpos_loop].
  destruct (law_next _ _ _ _ _ _ Hit) as (o1 & it1 & e & -> & He). cbn [mbind option_bind]. pose proof (walk_next d l k Hk) as Hw.
  assert (Hstop : seen_from d l maxlen k = [] -> exists o' it' p' found' mi, Some (o1, it1, found, -1) = Some (o', it', found', mi) /\ (iter_at o1 it1 l [] p' d -> iter_at o' it' l [] p' d) /\
    if count =? -1 then mi = default (-1) (head (drop (Z.to_nat (rank - 1 - matches)) (filter (fun y => y.2 = ele) (seen_from d l maxlen k)).*1))
    else found' = reverse (if count =? 0 then drop (Z.to_nat (rank - 1 - matches)) (filter (fun y => y.2 = ele) (seen_from d l maxlen k)).*1 else take (Z.to_nat (count - Z.max 0 (matches - rank + 1))) (drop (Z.to_nat (rank - 1 - matches)) (filter (fun y => y.2 = ele) (seen_from d l maxlen k)).*1)) ++ found).
  { intros ->. exists o1, it1, 0%nat, found, (-1). split; [done|]. split; [done|]. change ((filter (fun y : Z * list Z => y.2 = ele) []).*1) with (@nil Z). rewrite drop_nil, take_nil. destruct (count =? -1); [done|]. by destruct (count =? 0). }
  destruct (next_pos (walk_pos d l k) d l) as [i|].
  - destruct Hw as (Hlt & Haft & x & Hx & Hwk & Hidx). destruct He as (e' & -> & He). pose proof (law_entry _ _ _ _ _ _ _ He) as Hit1. rewrite Haft in Hit1.
    destruct ((maxlen =? 0) || (Z.of_nat k <? maxlen)) eqn:Ein.
    + assert (Hseen : seen_from d l maxlen k = (Z.of_nat i, x) :: seen_from d l maxlen (S k)).
      { unfold seen_from. rewrite (drop_S _ _ _ Hwk). destruct (Z.eqb_spec maxlen 0); [done|]. cbn [orb] in Ein. apply Z.ltb_lt in Ein. replace (Z.to_nat (maxlen - Z.of_nat k)) with (S (Z.to_nat (maxlen - Z.of_nat (S k)))) by lia. done. }
      rewrite Hseen. destruct (law_equal _ _ _ _ _ _ _ ele c He Hc) as (c' & -> & Hc'). cbn [mbind option_bind]. rewrite Hx. rewrite Hidx. replace (Z.of_nat k + 1) with (Z.of_nat (S k)) by lia.
      destruct (bool_decide_reflect (Some x = Some ele)) as [Hxe|Hxe].
      * injection Hxe as ->. rewrite filter_cons_True by done. cbn [fmap list_fmap fst]. set (ms := (filter (fun y : Z * list Z => y.2 = ele) (seen_from d l maxlen (S k))).*1) in *.
        rewrite Z.geb_leb. destruct (Z.leb_spec rank (matches + 1)) as [Hr|Hr].
        -- replace (Z.to_nat (rank - 1 - matches)) with 0%nat by lia. rewrite drop_0. destruct (Z.eqb_spec count (-1)) as [E1|E1].
           { exists o1, it1, (walk_pos d l (S k)), found, (Z.of_nat i). split; [done|]. split; [done|]. done. }
           rewrite Z.geb_leb. destruct (negb (count =? 0) && (count <=? matches + 1 - rank + 1)) eqn:Estop.
           ++ apply andb_true_iff in Estop as [E0 E2]. apply negb_true_iff in E0. rewrite E0. apply Z.eqb_neq in E0. apply Z.leb_le in E2. exists o1, it1, (walk_pos d l (S k)), (Z.of_nat i :: found), (Z.of_nat i). split; [done|]. split; [done|].
              replace (Z.to_nat (count - Z.max 0 (matches - rank + 1))) with 1%nat by lia. done.
           ++ destruct (IH o1 it1 (S k) (matches + 1) (Z.of_nat i :: found) c' Hit1 Hc' ltac:(lia) ltac:(lia) ltac:(lia)) as (o' & it' & p' & found' & mi & -> & Hit' & Hres).
              { intros Hpos. apply andb_false_iff in Estop as [Es|Es]; [apply negb_false_iff, Z.eqb_eq in Es; lia|]. apply Z.leb_gt in Es. lia. }
              exists o', it', p', found', mi. split; [done|]. split; [done|]. rewrite Hres. fold ms. replace (Z.to_nat (rank - 1 - (matches + 1))) with 0%nat by lia. rewrite drop_0.
              destruct (Z.eqb_spec count 0); [by rewrite reverse_cons, <- app_assoc|]. cbn [negb andb] in Estop. apply Z.leb_gt in Estop.
              replace (Z.to_nat (count - Z.max 0 (matches - rank + 1))) with (S (Z.to_nat (count - Z.max 0 (matches + 1 - rank + 1)))) by lia. cbn [take]. by rewrite reverse_cons, <- app_assoc.
        -- destruct (IH o1 it1 (S k) (matches + 1) found c' Hit1 Hc' ltac:(lia) ltac:(lia) ltac:(lia) ltac:(lia)) as (o' & it' & p' & found' & mi & -> & Hit' & Hres).
           exists o', it', p', found', mi. split; [done|]. split; [done|]. fold ms in Hres. replace (Z.to_nat (rank - 1 - matches)) with (S (Z.to_nat (rank - 1 - (matches + 1)))) by lia. cbn [drop].
           replace (Z.max 0 (matches - rank + 1)) with (Z.max 0 (matches + 1 - rank + 1)) by lia. done.
      * rewrite filter_cons_False by (cbn; congruence). apply (IH o1 it1 (S k) matches found c' Hit1 Hc'); [lia..|done].
    + assert (Hnil : seen_from d l maxlen k = []). { unfold seen_from. apply orb_false_iff in Ein as [E0 E1]. rewrite E0. apply Z.ltb_ge in E1. replace (Z.to_nat (maxlen - Z.of_nat k)) with 0%nat by lia. done. }
      destruct (Hstop Hnil) as (o' & it' & p' & found' & mi & Hq & _ & Hres). injection Hq as <- <- <- <-. exists o1, it1, (walk_pos d l (S k)), found, (-1). done.
  - destruct He as (-> & He). assert (Hnil : seen_from d l maxlen k = []). { unfold seen_from. rewrite drop_ge by (rewrite walked_length; lia). rewrite take_nil. by destruct (maxlen =? 0). }
    destruct (Hstop Hnil) as (o' & it' & p' & found' & mi & Hq & _ & Hres). injection Hq as <- <- <- <-. by exists o1, it1, (walk_pos d l k), found, (-1).
Qed.

Definition opts_ok (p : lpos_opts) : Prop := lp_rank p <> 0 /\ -1 <= lp_count p /\ 0 <= lp_maxlen p.

Lemma positive_ok arg err n : getPositiveLongLong arg err = inr n -> 0 <= n.
Proof.
  unfold getPositiveLongLong, getRangeLongLong. destruct (string2ll arg) as [v|]; [|done]. destruct (Z.ltb_spec v 0); [done|]. cbn [orb]. destruct (v >? INT64_MAX); [done|]. by intros [= <-].
Qed.

Lemma lpos_options_ok k : forall args p q, (length args <= k)%nat -> opts_ok p -> lpos_options args p = inr q -> opts_ok q.
Proof.
  induction k as [|k IH]; intros [|opt [|arg args]] p q Hk Hp; cbn [lpos_options length] in *; try (by intros [= <-]); try done; try lia.
  destruct Hp as (H1 & H2 & H3). destruct (argeq opt lit_rank).
  { destruct (getRangeLongLong _ _ _ _ _) as [e|r]; [done|]. destruct (Z.eqb_spec r 0); [done|]. apply IH; [lia|done]. }
  destruct (argeq opt lit_count).
  { destruct (getPositiveLongLong arg LERR_COUNT) as [e|n] eqn:En; [done|]. apply IH; [lia|]. apply positive_ok in En. repeat split; cbn; [done|lia|done]. }
  destruct (argeq opt lit_maxlen); [|done].
  destruct (getPositiveLongLong arg LERR_MAXLEN) as [e|n] eqn:En; [done|]. apply IH; [lia|]. apply positive_ok in En. by repeat split.
Qed.

Lemma positions_nonneg ele l d rank count maxlen i : i ∈ positions ele l d rank count maxlen -> 0 <= i.
Proof.
  assert (Hall : Forall (fun y => 0 <= y.1) (walked d l)).
  { assert (Hi : Forall (fun y => 0 <= y.1) (indexed l)). { apply list.Forall_lookup. intros k y Hy. unfold indexed in Hy. rewrite list_lookup_imap in Hy. apply fmap_Some in Hy as (x & _ & ->). cbn. lia. }
    destruct d; cbn [walked]; [by apply list.Forall_reverse|done]. }
  unfold positions. set (seen := if maxlen =? 0 then walked d l else take (Z.to_nat maxlen) (walked d l)).
  assert (Hseen : Forall (fun y => 0 <= y.1) seen) by (unfold seen; destruct (maxlen =? 0); [done|by apply Forall_take]).
  assert (Hf : Forall (fun j => 0 <= j) (drop (Z.to_nat (rank - 1)) (filter (fun y => y.2 = ele) seen).*1)) by (apply Forall_drop, Forall_fmap, list.Forall_forall; intros y [_ Hy]%list_elem_of_filter; by eapply list.Forall_forall in Hseen).
  intros Hin. destruct (count =? 0); [by eapply list.Forall_forall in Hf|]. eapply list.Forall_forall; [|exact Hin]. by apply Forall_take.
Qed.

Lemma lpos_ok s a key ele args : sim s a -> command_ok (lposCommand s key ele args) (lpos_spec a key ele args).
Proof.
  intros Hs. unfold lposCommand, lpos_spec. destruct (lpos_options args _) as [e|p] eqn:Ep; [by apply command_same|].
  apply (lpos_options_ok (length args)) in Ep as (H1 & H2 & H3); [|done|done]. apply on_list_ok; [done|]. intros o l _ Ha Hr. set (d := if lp_rank p <? 0 then LIST_HEAD else LIST_TAIL).
  assert (Hinit : exists it, lt_init o (match d with LIST_HEAD => -1 | LIST_TAIL => 0 end) d = Some it /\ iter_at o it l [] (walk_pos d l 0) d).
  { destruct (law_init o l [] d Hr) as (it & E1 & E2). exists it. by destruct d. }
  destruct Hinit as (it & -> & Hit). cbn [mbind option_bind]. destruct (law_length_iter _ _ _ _ _ _ Hit) as (o1 & Hlen & Hit1). rewrite Hlen. cbn [mbind option_bind].
  destruct (law_reset _ _ _ _ _ _ Hit1) as (o1r & _ & _).
  assert (Hst : steps_of o1 = Some (S (length l))). { unfold steps_of. destruct (law_length_iter _ _ _ _ _ _ Hit1) as (o2 & -> & _). cbn. unfold zlen. by rewrite Nat2Z.id. }
  rewrite Hst. cbn [mbind option_bind]. set (rank := if lp_rank p <? 0 then - lp_rank p else lp_rank p). assert (Hrank : rank = Z.abs (lp_rank p)) by (unfold rank; destruct (Z.ltb_spec (lp_rank p) 0); lia).
  destruct (lpos_loop_ok ele d rank (lp_count p) (lp_maxlen p) l ltac:(lia) H2 H3 (S (length l)) o1 it 0 0 [] None Hit1) as (o' & it' & p' & found' & mi & Hq & Hit' & Hres); [by left|lia|lia|done|lia|].
  change (Z.of_nat 0) with 0 in Hq. rewrite Hq. cbn [mbind option_bind]. destruct (law_reset _ _ _ _ _ _ Hit') as (o2 & -> & Hr2). cbn [mbind option_bind]. rewrite <- Hrank.
  assert (Hseen : seen_from d l (lp_maxlen p) 0 = if lp_maxlen p =? 0 then walked d l else take (Z.to_nat (lp_maxlen p)) (walked d l)) by (unfold seen_from; by rewrite drop_0, Z.sub_0_r). rewrite Hseen, Z.sub_0_r in Hres.
  set (seen := if lp_maxlen p =? 0 then walked d l else take (Z.to_nat (lp_maxlen p)) (walked d l)) in *. set (todo := drop (Z.to_nat (rank - 1)) (filter (fun y => y.2 = ele) seen).*1) in *.
  eexists. split; [|by apply (sim_same s a key o2 l)]. do 2 f_equal. cbn [snd]. destruct (Z.eqb_spec (lp_count p) (-1)) as [E1|E1]; cbn [negb].
  - assert (Hpos : positions ele l d rank (lp_count p) (lp_maxlen p) = take 1 todo) by (unfold positions; by rewrite E1). pose proof (positions_nonneg ele l d rank (lp_count p) (lp_maxlen p)) as Hnn. rewrite Hpos in *. subst mi.
    clearbody todo. destruct todo as [|i todo']; [done|]. specialize (Hnn i ltac:(by left)). change (default (-1) (list.head (i :: todo'))) with i. by rewrite (proj2 (Z.eqb_neq i (-1))) by lia.
  - rewrite Hres, app_nil_r, reverse_involutive. unfold positions. fold seen todo. destruct (Z.eqb_spec (lp_count p) 0); [done|]. do 2 f_equal. lia.
Qed.

(** *** Moving an element *)

Lemma handle_push_ok s a dst v w : sim s a -> val_ok v -> sv_db a !! dst <> Some OOther ->
  let '(a1, existed) := match sv_db a !! dst with Some _ => (a, true) | None => (dbAdd a dst [], false) end in
  let l := match sv_db a1 !! dst with Some (OList l) => l | _ => [] end in
  exists s', lmoveHandlePush s dst v w = Some (s', LBulk (arg_text v)) /\
    sim s' (let a2 := emit (set_list a1 dst (pushed_on w [arg_text v] l)) (KeyModified dst) in emit (if existed : bool then emit a2 (KeyReady dst) else a2) (Notify (push_event w) dst)).
Proof.
  intros Hs Hv Hd. unfold lmoveHandlePush. destruct (sim_lookup s a dst Hs) as [(-> & Ea)|[(_ & Ea)|(o & l & -> & Ea & Hr)]]; [|done|]; rewrite Ea.
  - destruct law_create as (o & -> & Hr). cbn [mbind option_bind]. cbn [dbAdd emit set_list sv_db]. rewrite lookup_insert_eq.
    destruct (law_convert o [] [v] Hr) as (o1 & -> & Hr1); [by apply list.Forall_singleton|done|]. cbn [mbind option_bind fmap list_fmap] in *. destruct (law_push _ _ _ _ w Hr1 Hv) as (o2 & -> & Hr2). cbn [mbind option_bind].
    rewrite (value_text_ok v Hv). cbn [mbind option_bind]. eexists. split; [done|]. repeat apply sim_emit. apply sim_set; [|done]. by apply (sim_add s a dst o []).
  - cbn [mbind option_bind]. rewrite Ea. destruct (law_convert o l [v] Hr) as (o1 & -> & Hr1); [by apply list.Forall_singleton|done|]. cbn [mbind option_bind fmap list_fmap] in *. destruct (law_push _ _ _ _ w Hr1 Hv) as (o2 & -> & Hr2). cbn [mbind option_bind].
    rewrite (value_text_ok v Hv). cbn [mbind option_bind]. eexists. split; [done|]. repeat apply sim_emit. by apply sim_set.
Qed.

Lemma lmove_ok s a src dst wf wt : sim s a -> full INT64_MAX a -> command_ok (lmoveGenericCommand s src dst wf wt) (lmove_spec a src dst wf wt).
Proof.
  intros Hs Hfull. unfold lmoveGenericCommand, lmove_spec. apply on_list_ok; [done|]. intros o l Eo El Hr. destruct (Hfull src l ltac:(done)) as [Hl Hmx].
  destruct (law_length _ _ _ Hr) as (o1 & -> & Hr1). cbn [mbind option_bind]. rewrite (proj2 (Z.eqb_neq (zlen l) 0)) by (destruct l; [done|]; rewrite zlen_cons; pose proof (zlen_nonneg l0); lia).
  destruct (popped_one wf l Hl) as (x & rest & Hp). rewrite Hp. destruct (law_pop o1 l wf x rest Hr1 Hp) as (v & o2 & Hpop & Ht & Hv & Hr2).
  assert (Hgo : sv_db a !! dst <> Some OOther -> command_ok ('(v, o) ← lt_pop o1 wf; v ← v; '(s, r) ← lmoveHandlePush (set_list s src o) dst v wt;
      match sv_db s !! src with Some (OList o) => s ← listElementsRemoved s src wf o 1; Some (s, r) | _ => None end)
    (let s := set_list a src rest in
        let '(s, existed) := match sv_db s !! dst with Some _ => (s, true) | None => (dbAdd s dst [], false) end in
        let l := match sv_db s !! dst with Some (OList l) => l | _ => [] end in
        let s := emit (set_list s dst (pushed_on wt [x] l)) (KeyModified dst) in
        let s := emit (if existed : bool then emit s (KeyReady dst) else s) (Notify (push_event wt) dst) in
        let rest := match sv_db s !! src with Some (OList l) => l | _ => [] end in
        (pop_done s src wf rest 1, LBulk x))).
  { intros Hd. rewrite Hpop. cbn [mbind option_bind]. pose proof (sim_set s a src o2 rest Hs Hr2) as Hs1. assert (Hd1 : sv_db (set_list a src rest) !! dst <> Some OOther).
    { cbn [set_list sv_db]. destruct (decide (src = dst)) as [->|]; [by rewrite lookup_insert_eq|by rewrite lookup_insert_ne]. }
    pose proof (handle_push_ok _ _ dst v wt Hs1 Hv Hd1) as Hpush. cbv zeta. destruct (match sv_db (set_list a src rest) !! dst with Some _ => _ | None => _ end) as [a1 existed] eqn:Ea1. cbv zeta in Hpush. destruct Hpush as (s' & -> & Hs'). cbn [mbind option_bind]. rewrite Ht in *.
    set (a2 := emit (if existed then _ else _) _) in *. destruct (sim_lookup s' a2 src Hs') as [(_ & E2)|[(_ & E2)|(o3 & l3 & -> & -> & Hr3)]].
    3: { destruct (removed_ok s' a2 src wf o3 l3 1 Hs' Hr3) as (s'' & -> & Hs''). cbn [mbind option_bind]. by exists s''. }
    all: exfalso; assert (Hsrc : exists l3, sv_db a2 !! src = Some (OList l3)); [|destruct Hsrc as [? ?]; congruence].
    all: unfold a2; destruct existed; cbn [emit set_list sv_db]; (destruct (decide (dst = src)) as [->|Hne]; [rewrite lookup_insert_eq; by eexists|rewrite lookup_insert_ne by done]).
    all: exists rest; destruct (sv_db (set_list a src rest) !! dst); simplify_eq; cbn [dbAdd emit set_list sv_db]; rewrite ?lookup_insert_ne by done; by rewrite lookup_insert_eq. }
  destruct (sim_lookup s a dst Hs) as [(E1 & E2)|[(E1 & E2)|(od & ld & E1 & E2 & _)]]; rewrite E1, E2; [|by apply command_same|]; apply Hgo; congruence.
Qed.

(** *** Moving several elements *)

Lemma popped_S w n l x rest : popped w 1 l = ([x], rest) -> popped w (S n) l = (x :: (popped w n rest).1, (popped w n rest).2).
Proof.
  destruct w; cbn [popped fst snd].
  - destruct l as [|y l]; [done|]. change (take 1 (y :: l)) with [y]. change (drop 1 (y :: l)) with l. by intros [= -> ->].
  - destruct l as [|y l _] using rev_ind; [done|]. rewrite reverse_snoc, length_app. cbn [take length]. replace (length l + 1 - 1)%nat with (length l) by lia. rewrite take_app_length. intros [= -> ->].
    f_equal. replace (length rest + 1 - S n)%nat with (length rest - n)%nat by lia. by rewrite take_app_le by lia.
Qed.

Lemma pop_loop_ok w n : forall o l, room o l [] -> (n <= length l)%nat ->
  exists vals o', pop_loop n o w = Some (vals, o') /\ arg_text <$> vals = (popped w n l).1 /\ Forall val_ok vals /\ room o' (popped w n l).2 [].
Proof.
  induction n as [|n IH]; intros o l Hr Hn; cbn [pop_loop].
  - exists [], o. split; [done|]. destruct w; cbn [popped fst snd]; (split; [done|]; split; [done|]); [done|]. by rewrite Nat.sub_0_r, firstn_all.
  - assert (Hl : l <> []) by (intros ->; cbn in Hn; lia). destruct (popped_one w l Hl) as (x & rest & Hp). destruct (law_pop o l w x rest Hr Hp) as (v & o1 & -> & Ht & Hv & Hr1). cbn [mbind option_bind]. rewrite (popped_S w n l x rest Hp). cbn [fst snd].
    assert (Hlen : (n <= length rest)%nat).
    { destruct w; cbn [popped] in Hp; injection Hp as _ <-; [rewrite length_drop|rewrite length_take]; lia. }
    destruct (IH o1 rest Hr1 Hlen) as (vals & o' & -> & Hvs & Hok & Hr'). cbn [mbind option_bind]. exists (v :: vals), o'. split; [done|]. split; [cbn [fmap list_fmap]; by rewrite Ht, <- Hvs|]. by split; [constructor|].
Qed.

Lemma texts_ok vals : Forall val_ok vals -> mapM value_text vals = Some (arg_text <$> vals).
Proof. intros H. apply mapM_Some. induction H as [|v vals Hv _ IH]; cbn [fmap list_fmap]; constructor; [by apply value_text_ok|done]. Qed.

Lemma push_block_ok w vals o l : room o l [] -> Forall val_ok vals -> zlen vals <= MAX_ARGS -> exists o', push_block o vals w = Some o' /\ room o' (placed w (arg_text <$> vals) l) [].
Proof.
  intros Hr Hok Hn. unfold push_block. destruct (law_convert o l vals Hr Hok Hn) as (o1 & -> & Hr1). cbn [mbind option_bind]. set (vs := match w with LIST_HEAD => reverse vals | LIST_TAIL => vals end).
  assert (Hp : vs ≡ₚ vals) by (unfold vs; destruct w; [apply reverse_Permutation|done]). assert (Hr2 : room o1 l ((arg_text <$> vs) ++ [])) by (rewrite app_nil_r; apply (law_order _ _ (arg_text <$> vals)); [by rewrite Hp|done]).
  destruct (push_vals_ok w vs o1 l [] Hr2) as (o2 & -> & Hr3); [by rewrite Hp|]. exists o2. split; [done|]. unfold vs in Hr3. destruct w; cbn [pushed_on placed] in *; [by rewrite fmap_reverse, reverse_involutive in Hr3|done].
Qed.

Lemma movem_ok s a src dst wf wt o l n ord (d : option L) (dl : option (list (list Z))) : sim s a -> room o l [] -> (n <= length l)%nat -> Z.of_nat n <= MAX_ARGS ->
  (src <> dst -> match d, dl with Some od, Some ld => room od ld [] | None, None => True | _, _ => False end) ->
  let '(out, rest) := popped wf n l in let block := if lmovem_reversed ord wf wt then reverse out else out in
  command_ok (lmovemMoveAndReply s src o dst d wf wt (Z.of_nat n) ord)
    (if decide (src = dst) then
       add_dirty (emit (emit (emit (set_list a src (placed wt block rest)) (Notify (pop_event wf) src)) (Notify (push_event wt) src)) (KeyModified src)) (Z.of_nat n)
     else
       let s := set_list a src rest in
       let '(s, ld) := match dl with Some ld => (s, ld) | None => (dbAdd s dst [], []) end in
       let s := emit (set_list s dst (placed wt block ld)) (KeyModified dst) in
       let s := match dl with Some _ => emit s (KeyReady dst) | None => s end in
       pop_done (emit s (Notify (push_event wt) dst)) src wf rest (Z.of_nat n), LBulks block).
Proof.
  intros Hs Hr Hn Hmx Hd. unfold lmovemMoveAndReply. rewrite Nat2Z.id. destruct (pop_loop_ok wf n o l Hr Hn) as (vals & o1 & -> & Hvs & Hok & Hr1). cbn [mbind option_bind].
  assert (Hlv : zlen vals <= MAX_ARGS). { apply (f_equal zlen) in Hvs. unfold zlen in *. rewrite length_fmap in Hvs. rewrite Hvs. destruct wf; cbn [popped fst]; rewrite length_take; lia. }
  destruct (popped wf n l) as [out rest]. cbn [fst snd] in *. cbv zeta. set (b := lmovem_reversed ord wf wt). set (vals' := if b then reverse vals else vals).
  assert (Hok' : Forall val_ok vals') by (unfold vals'; destruct b; [by rewrite reverse_Permutation|done]). assert (Hl' : zlen vals' <= MAX_ARGS) by (unfold vals', zlen in *; destruct b; [by rewrite length_reverse|done]).
  assert (Ht : arg_text <$> vals' = if b then reverse out else out) by (unfold vals'; rewrite <- Hvs; destruct b; [by rewrite fmap_reverse|done]). rewrite (texts_ok _ Hok'), Ht. cbn [mbind option_bind]. rewrite <- Ht. destruct (decide (src = dst)) as [<-|Hne].
  - destruct (push_block_ok wt vals' o1 rest Hr1 Hok' Hl') as (o2 & -> & Hr2). cbn [mbind option_bind]. eexists. split; [done|]. by apply sim_dirty, sim_emit, sim_emit, sim_emit, sim_set.
  - specialize (Hd Hne). pose proof (sim_set s a src o1 rest Hs Hr1) as Hs1.
    assert (Hgo : forall od ld s1 a1 (existed : bool), room od ld [] -> sim s1 a1 ->
      command_ok ('(_, dstobj) ← lt_length od; dstobj ← push_block dstobj vals' wt;
        let s := emit (set_list s1 dst dstobj) (KeyModified dst) in let s := if existed then emit s (KeyReady dst) else s in let s := emit s (Notify (push_event wt) dst) in
        s ← listElementsRemoved s src wf o1 (Z.of_nat n); Some (s, LBulks (arg_text <$> vals')))
      (let s := emit (set_list a1 dst (placed wt (arg_text <$> vals') ld)) (KeyModified dst) in let s := if existed then emit s (KeyReady dst) else s in
       pop_done (emit s (Notify (push_event wt) dst)) src wf rest (Z.of_nat n), LBulks (arg_text <$> vals'))).
    { intros od ld s1 a1 existed Hrd Hs2. destruct (law_length _ _ _ Hrd) as (od1 & -> & Hrd1). cbn [mbind option_bind]. destruct (push_block_ok wt vals' od1 ld Hrd1 Hok' Hl') as (od2 & -> & Hrd2). cbn [mbind option_bind]. cbv zeta.
      pose proof (sim_emit _ _ (KeyModified dst) (sim_set _ _ dst od2 _ Hs2 Hrd2)) as Hs3.
      assert (Hs4 : sim (if existed then emit (emit (set_list s1 dst od2) (KeyModified dst)) (KeyReady dst) else emit (set_list s1 dst od2) (KeyModified dst)) (if existed then emit (emit (set_list a1 dst (placed wt (arg_text <$> vals') ld)) (KeyModified dst)) (KeyReady dst) else emit (set_list a1 dst (placed wt (arg_text <$> vals') ld)) (KeyModified dst))) by (destruct existed; [by apply sim_emit|done]).
      destruct (removed_ok _ _ src wf o1 rest (Z.of_nat n) (sim_emit _ _ (Notify (push_event wt) dst) Hs4) Hr1) as (s' & -> & Hs'). cbn [mbind option_bind]. by exists s'. }
    destruct d as [od|], dl as [ld|]; try done; cbn [mbind option_bind].
    + by apply (Hgo od ld _ _ true).
    + destruct law_create as (od & -> & Hrd). cbn [mbind option_bind]. apply (Hgo od [] _ _ false); [done|]. by apply sim_add.
Qed.

Lemma lmovem_ok s a src dst wf wt mode count ord : sim s a -> 0 < count <= MAX_ARGS -> command_ok (lmovemGenericCommand s src dst wf wt mode count ord) (lmovem_spec a src dst wf wt mode count ord).
Proof.
  intros Hs Hc. unfold lmovemGenericCommand, lmovem_spec, on_list. destruct (sim_lookup s a src Hs) as [(-> & ->)|[(-> & ->)|(o & l & E1 & E2 & Hr)]]; [by apply command_same..|]. rewrite E1, E2. destruct (law_length _ _ _ Hr) as (o1 & -> & Hr1). cbn [mbind option_bind].
  set (n := match mode with LMOVEM_EXACTLY => if zlen l <? count then 0 else count | _ => Z.min count (zlen l) end).
  assert (Hn : match mode with LMOVEM_EXACTLY => if zlen l <? count then 0 else count | _ => if count <? zlen l then count else zlen l end = n) by (unfold n; destruct mode; [destruct (Z.ltb_spec count (zlen l)); lia..|done]). rewrite Hn.
  assert (Hrange : 0 <= n <= zlen l /\ n <= MAX_ARGS) by (pose proof (zlen_nonneg l); unfold n; destruct mode; [lia..|destruct (Z.ltb_spec (zlen l) count); unfold MAX_ARGS in *; lia]). clearbody n. clear Hn.
  assert (Hsame : sim (set_list s src o1) a) by (by apply (sim_same s a src o1 l)).
  pose proof (fun d dl => movem_ok s a src dst wf wt o1 l (Z.to_nat n) ord d dl Hs Hr1 ltac:(unfold zlen in *; lia) ltac:(lia)) as Hmv. rewrite Z2Nat.id in Hmv by lia.
  destruct (popped wf (Z.to_nat n) l) as [out rest]. cbv zeta in *. destruct (n =? 0); [by apply command_same|].
  destruct (sim_lookup s a dst Hs) as [(E3 & E4)|[(E3 & E4)|(od & ld & E3 & E4 & Hrd)]]; rewrite E3, E4.
  - by apply (Hmv None None).
  - by apply command_same.
  - by apply (Hmv (Some od) (Some ld)).
Qed.

Lemma parse_pos opts mode n ord : lmovemParseOptions opts = inr (mode, n, ord) -> 0 < n.
Proof.
  unfold lmovemParseOptions. destruct opts as [|sel [|arg [|os [|]]]]; try done; [by intros [= _ <- _]|]. destruct (if argeq sel lit_count then _ else _); [|done]. unfold getRangeLongLong. destruct (string2ll arg) as [v|]; [|done].
  destruct ((v <? 1) || _) eqn:E1; [done|]. apply orb_false_iff in E1 as [E1%Z.ltb_ge _]. destruct (argeq os lit_obo); [|destruct (argeq os lit_bulk); [|done]]; intros [= _ <- _]; lia.
Qed.

(** ** Histories *)

(** What a command may carry: strings of bytes below 4 GB, at least one and at most
    [MAX_ARGS] elements to push or move at once, no index that cannot be negated, and no number of keys that
    overflows. *)
Definition cmd_ok (c : list_cmd) : Prop :=
  match c with
  | CPush _ args _ _ => args <> [] /\ Forall elem_ok args /\ zlen args <= MAX_ARGS
  | CInsert _ _ _ value => elem_ok value
  | CIndex _ index => string2ll index <> Some INT64_MIN
  | CSet _ index value => elem_ok value /\ string2ll index <> Some INT64_MIN
  | CMpop numkeys _ => forall n, string2ll numkeys = Some n -> n <= INT_MAX - 2
  | CMovem _ _ _ _ opts => forall mode n ord, lmovemParseOptions opts = inr (mode, n, ord) -> n <= MAX_ARGS
  | _ => True
  end.

Lemma exec_list_ok s a c : sim s a -> full INT64_MAX a -> cmd_ok c -> command_ok (exec_list s c) (list_spec a c).
Proof.
  intros Hs Hfull Hc. destruct c; cbn [exec_list list_spec cmd_ok] in *.
  - destruct Hc as (_ & H1 & H2). by apply push_command_ok.
  - by apply linsert_ok.
  - by apply llen_ok.
  - by apply lindex_ok.
  - by apply lrange_ok.
  - destruct Hc. by apply lset_ok.
  - by apply pop_command_ok.
  - by apply lmpop_ok.
  - by apply ltrim_ok.
  - by apply lpos_ok.
  - by apply lrem_ok.
  - unfold lmoveCommand. destruct (getListPosition from); [|by apply command_same]. destruct (getListPosition to); [|by apply command_same]. by apply lmove_ok.
  - by apply lmove_ok.
  - unfold lmovemCommand. destruct (getListPosition from); [|by apply command_same]. destruct (getListPosition to); [|by apply command_same]. destruct (lmovemParseOptions opts) as [|[[mode n] ord]] eqn:Ep; [by apply command_same|]. apply lmovem_ok; [done|]. split; [by eapply parse_pos|by eapply Hc].
Qed.
End Sim.

(** ** Lists are never empty *)

Definition room_for (M : Z) (l : list (list Z)) : Prop := l <> [] /\ zlen l <= M.

Lemma full_mono M N a : full M a -> M <= N -> full N a.
Proof. intros Ha HN k l Hl. destruct (Ha k l Hl). split; [done|lia]. Qed.

Lemma full_set M a key l : full M a -> room_for M l -> full M (set_list a key l).
Proof. intros Ha Hl k l'. cbn [set_list sv_db]. destruct (decide (key = k)) as [<-|]; [rewrite lookup_insert_eq; by intros [= <-]|rewrite lookup_insert_ne by done; apply Ha]. Qed.

(** All keys but one. *)
Definition full_but (M : Z) (key : list Z) (a : lists) : Prop := forall k l, k <> key -> sv_db a !! k = Some (OList l) -> room_for M l.

Lemma full_put_back M a key l : full_but M key a -> zlen l <= M -> full M (put_back a key l).
Proof.
  intros Ha Hl k l'. destruct l as [|x l]; cbn [put_back emit dbDelete set_list sv_db]; (destruct (decide (key = k)) as [<-|]; [rewrite ?lookup_delete_eq, ?lookup_insert_eq|rewrite ?lookup_delete_ne, ?lookup_insert_ne by done; by apply Ha]); [done|by intros [= <-]].
Qed.

Lemma full_weaken M key a : full M a -> full_but M key a.
Proof. intros Ha k l _. apply Ha. Qed.

Lemma full_on_list M N a key none f : full M a -> M <= N -> (forall l, sv_db a !! key = Some (OList l) -> room_for M l -> full N (f l).1) -> full N (on_list a key none f).1.
Proof. intros Ha HN Hf. unfold on_list. destruct (sv_db a !! key) as [[l|]|] eqn:El; [apply Hf; [done|by apply (Ha key)]|by apply (full_mono M)..]. Qed.

Lemma full_pop_done M a key w l n : full_but M key a -> zlen l <= M -> full M (pop_done a key w l n).
Proof. intros Ha Hl. unfold pop_done. by apply (full_put_back M (emit a _)). Qed.

Lemma popped_le w n l : zlen (popped w n l).2 <= zlen l.
Proof. unfold zlen. destruct w; cbn [popped snd]; [rewrite length_drop|rewrite length_take]; lia. Qed.

Lemma full_pop_count M a key w count l r : full M a -> zlen l <= M -> full M (pop_count_spec a key w count l r).1.
Proof. intros Ha Hl. unfold pop_count_spec. pose proof (popped_le w (Z.to_nat (Z.min count (zlen l))) l). destruct (popped _ _ _). cbn [snd] in *. apply full_pop_done; [by apply full_weaken|lia]. Qed.

Lemma zlen_pushed w args l : zlen (pushed_on w args l) = zlen args + zlen l.
Proof. destruct w; cbn [pushed_on]; unfold zlen; rewrite length_app, ?length_reverse; lia. Qed.

Lemma pushed_room M w args l : args <> [] -> zlen args + zlen l <= M -> room_for M (pushed_on w args l).
Proof. intros Hne Hl. split; [|by rewrite zlen_pushed]. intros H. apply (f_equal zlen) in H. rewrite zlen_pushed in H. destruct args; [done|]. rewrite zlen_cons, zlen_nil in H. pose proof (zlen_nonneg args). pose proof (zlen_nonneg l). lia. Qed.

Lemma slice_le l start end_ : zlen (slice l start end_) <= zlen l.
Proof. unfold slice. destruct (bounds _ _ _) as [[i j]|]; unfold zlen; [rewrite length_take, length_drop; lia|cbn; lia]. Qed.

Lemma removed_le t x l : zlen (removed_by t x l) <= zlen l.
Proof. unfold removed_by, zlen. destruct (t <? 0); [rewrite length_reverse; pose proof (remove_first_le (if t =? 0 then length l else Z.to_nat (Z.abs t)) x (reverse l)); rewrite length_reverse in *; lia|apply inj_le, remove_first_le]. Qed.

Lemma full_lmove M a src dst wf wt : 0 <= M -> full M a -> full (M + 1) (lmove_spec a src dst wf wt).1.
Proof.
  intros HM Ha. unfold lmove_spec. apply (full_on_list M); [done|lia|]. intros l El [_ Hl]. pose proof (popped_le wf 1 l) as Hle. destruct (popped wf 1 l) as [out rest]. cbn [snd] in Hle. assert (Ha' : full (M + 1) a) by (apply (full_mono M); [done|lia]). destruct out as [|x out].
  { by destruct (sv_db a !! dst) as [[]|]. }
  assert (Hgo : full (M + 1) (let s := set_list a src rest in
        let '(s, existed) := match sv_db s !! dst with Some _ => (s, true) | None => (dbAdd s dst [], false) end in
        let l := match sv_db s !! dst with Some (OList l) => l | _ => [] end in
        let s := emit (set_list s dst (pushed_on wt [x] l)) (KeyModified dst) in
        let s := emit (if existed : bool then emit s (KeyReady dst) else s) (Notify (push_event wt) dst) in
        let rest := match sv_db s !! src with Some (OList l) => l | _ => [] end in
        (pop_done s src wf rest 1, LBulk x)).1).
  { cbv zeta. destruct (match sv_db (set_list a src rest) !! dst with Some _ => _ | None => _ end) as [a1 existed] eqn:E1. cbn [fst].
    assert (H1 : forall k l, sv_db a1 !! k = Some (OList l) -> zlen l <= M).
    { intros k l'. destruct (sv_db (set_list a src rest) !! dst); injection E1 as <- _; cbn [dbAdd emit set_list sv_db]; [|destruct (decide (dst = k)) as [<-|]; [rewrite lookup_insert_eq; intros [= <-]; rewrite zlen_nil; lia|rewrite lookup_insert_ne by done]];
        (destruct (decide (src = k)) as [<-|]; [rewrite lookup_insert_eq; intros [= <-]; lia|rewrite lookup_insert_ne by done; apply Ha]). }
    assert (Hdb : forall k, k <> src -> k <> dst -> sv_db a1 !! k = sv_db a !! k) by (intros k ? ?; destruct (sv_db (set_list a src rest) !! dst); injection E1 as <- _; cbn [dbAdd emit set_list sv_db]; by rewrite !lookup_insert_ne).
    set (ld := match sv_db a1 !! dst with Some (OList l) => l | _ => [] end). assert (Hld : zlen ld <= M) by (unfold ld; destruct (sv_db a1 !! dst) as [[l'|]|] eqn:E2; [by apply (H1 dst)|rewrite zlen_nil; lia..]).
    set (a2 := emit (if existed then _ else _) _). assert (H2 : forall k, sv_db a2 !! k = if decide (k = dst) then Some (OList (pushed_on wt [x] ld)) else sv_db a1 !! k).
    { intros k. unfold a2. destruct existed; cbn [emit set_list sv_db]; (case_decide as Ek; [rewrite Ek; by rewrite lookup_insert_eq|by rewrite lookup_insert_ne]). }
    assert (Hpu : room_for (M + 1) (pushed_on wt [x] ld)) by (apply pushed_room; [done|change (zlen [x]) with 1; lia]). apply full_pop_done.
    - intros k l' Hk. rewrite H2. case_decide as Ek; [by intros [= <-]|]. rewrite Hdb by done. apply Ha'.
    - rewrite H2. case_decide; [apply Hpu|]. destruct (sv_db a1 !! src) as [[l'|]|] eqn:E2; [specialize (H1 _ _ E2)|rewrite zlen_nil|rewrite zlen_nil]; lia. }
  destruct (sv_db a !! dst) as [[]|]; done.
Qed.

Lemma zlen_placed w block l : zlen (placed w block l) = zlen block + zlen l.
Proof. destruct w; cbn [placed]; rewrite zlen_app; lia. Qed.

Lemma placed_room M w block l : 0 < zlen block -> zlen block + zlen l <= M -> room_for M (placed w block l).
Proof. intros Hb Hl. split; [|by rewrite zlen_placed]. intros H. apply (f_equal zlen) in H. rewrite zlen_placed, zlen_nil in H. pose proof (zlen_nonneg l). lia. Qed.

Lemma full_lmovem M a src dst wf wt mode count ord : 0 <= M -> full M a -> 0 < count <= MAX_ARGS -> full (M + MAX_ARGS) (lmovem_spec a src dst wf wt mode count ord).1.
Proof.
  intros HM Ha Hc. unfold lmovem_spec. apply (full_on_list M); [done|lia|]. intros l El [Hne Hl]. set (n := match mode with LMOVEM_EXACTLY => _ | _ => _ end). assert (Hn : 0 <= n <= zlen l /\ n <= MAX_ARGS) by (pose proof (zlen_nonneg l); unfold n; destruct mode; [lia..|destruct (Z.ltb_spec (zlen l) count); unfold MAX_ARGS in *; lia]). clearbody n.
  assert (Ha' : full (M + MAX_ARGS) a) by (apply (full_mono M); [done|unfold MAX_ARGS; lia]). pose proof (popped_le wf (Z.to_nat n) l) as Hle. assert (Hout : zlen (popped wf (Z.to_nat n) l).1 = n) by (unfold zlen in *; destruct wf; cbn [popped fst]; rewrite length_take, ?length_reverse; lia).
  destruct (popped wf (Z.to_nat n) l) as [out rest]. cbn [fst snd] in *. set (block := if lmovem_reversed ord wf wt then reverse out else out). assert (Hb : zlen block = n) by (unfold block, zlen in *; destruct (lmovem_reversed _ _ _); by rewrite ?length_reverse). clearbody block.
  destruct (Z.eqb_spec n 0) as [|Hn0]; [done|]. assert (Hpl : forall k, zlen k <= M -> room_for (M + MAX_ARGS) (placed wt block k)) by (intros k Hk; apply placed_room; lia).
  assert (Hgo : forall d, sv_db a !! dst = d -> d <> Some OOther -> full (M + MAX_ARGS) (if decide (src = dst) then
       add_dirty (emit (emit (emit (set_list a src (placed wt block rest)) (Notify (pop_event wf) src)) (Notify (push_event wt) src)) (KeyModified src)) n
     else
       let s := set_list a src rest in
       let '(s, ld) := match d with Some (OList ld) => (s, ld) | _ => (dbAdd s dst [], []) end in
       let s := emit (set_list s dst (placed wt block ld)) (KeyModified dst) in
       let s := match d with Some _ => emit s (KeyReady dst) | None => s end in
       pop_done (emit s (Notify (push_event wt) dst)) src wf rest n)).
  { intros d Ed Hd. destruct (decide (src = dst)) as [<-|Hsd]; [apply (full_set _ a); [done|apply Hpl; lia]|]. assert (Hdl : room_for (M + MAX_ARGS) (placed wt block (match d with Some (OList ld) => ld | _ => [] end))).
    { apply Hpl. destruct d as [[ld|]|]; [by apply (Ha dst)|done|rewrite zlen_nil; lia]. }
    destruct d as [[ld|]|]; [|done|]; cbv zeta; (apply full_pop_done; [|lia]); intros k l'; cbn [emit set_list dbAdd sv_db]; intros Hk;
      (destruct (decide (dst = k)) as [<-|]; [rewrite lookup_insert_eq; by intros [= <-]|rewrite !lookup_insert_ne by done; apply Ha']). }
  destruct (sv_db a !! dst) as [[ld|]|] eqn:Ed; [|done|]; cbn [fst]; by apply (Hgo _ eq_refl).
Qed.

Lemma full_spec M a c : 0 <= M -> full M a -> cmd_ok c -> full (M + MAX_ARGS) (list_spec a c).1.
Proof.
  intros HM Ha Hc. set (N := M + MAX_ARGS). assert (HN : M + 1 <= N) by (unfold N, MAX_ARGS; lia). assert (Ha' : full N a) by (apply (full_mono M); [done|lia]).
  assert (Hon : forall key none f, (forall l, sv_db a !! key = Some (OList l) -> room_for M l -> full N (f l).1) -> full N (on_list a key none f).1) by (intros key none f; apply full_on_list; [done|lia]).
  assert (Hpc : forall key w count l r, zlen l <= M -> full N (pop_count_spec a key w count l r).1) by (intros; apply full_pop_count; [done|lia]).
  assert (Hmv : forall src dst wf wt, full N (lmove_spec a src dst wf wt).1) by (intros; apply (full_mono (M + 1)); [by apply full_lmove|done]).
  destruct c; cbn [list_spec cmd_ok] in *.
  - destruct Hc as (Hne & _ & Hmx). assert (Hpu : forall l, zlen l <= M -> room_for N (pushed_on w args l)) by (intros; apply pushed_room; [done|unfold N; lia]).
    unfold lpush_spec. destruct (sv_db a !! key) as [[l|]|] eqn:El; [|done|destruct xx; [done|]]; cbn [fst]; intros k l'; cbn [emit add_dirty set_list dbAdd sv_db];
      (destruct (decide (key = k)) as [<-|]; [rewrite lookup_insert_eq; intros [= <-]; apply Hpu|rewrite !lookup_insert_ne by done; apply Ha']); [by apply (Ha key)|done].
  - unfold linsert_spec. assert (Hgo : forall w, full N (on_list a key (LInteger 0) (fun l => match list_find (fun x => x = pivot) l with None => (a, LInteger (-1))
        | Some (i, _) => (add_dirty (set_list (emit (emit (emit a (KeyModified key)) (KeyReady key)) (Notify EV_LINSERT key)) key (inserted_at w i value l)) 1, LInteger (zlen l + 1)) end)).1).
    { intros w. apply Hon. intros l El [_ Hl]. destruct (list_find _ l) as [[i y]|]; [|done]. apply (full_set N a); [done|]. split; [|rewrite inserted_len; lia]. intros Hp. apply (f_equal zlen) in Hp. rewrite inserted_len, zlen_nil in Hp. pose proof (zlen_nonneg l). lia. }
    destruct (argeq where_arg lit_after); [apply Hgo|]. destruct (argeq where_arg lit_before); [apply Hgo|done].
  - by apply Hon.
  - apply Hon. intros l _ _. by destruct (string2ll index).
  - unfold lrange_spec. destruct (string2ll start), (string2ll end_); try done. by apply Hon.
  - apply Hon. intros l El [Hne Hl]. destruct (string2ll index) as [idx|]; [|done]. destruct (seek_index l idx); [|done]. apply (full_set N a); [done|]. split; [|unfold zlen in *; rewrite length_insert; lia]. intros Hp. apply (f_equal length) in Hp. rewrite length_insert in Hp. by destruct l.
  - unfold lpop_spec. destruct args as [|c [|]]; [| |done]; [apply Hon; intros l El [_ Hl]; by apply Hpc|]. destruct (getPositiveLongLong _ _); [done|]. apply Hon. intros l El [_ Hl]. case_match; [done|by apply Hpc].
  - unfold lmpop_spec. destruct (getRangeLongLong _ _ _ _ _); [done|]. destruct (lmpop_args _ _) as [|[[keys w] count]]; [done|]. induction keys as [|key keys IH]; [done|]. cbn [mpop_spec]. destruct (sv_db a !! key) as [[l|]|] eqn:El; [apply Hpc; by apply (Ha key)|done|done].
  - unfold ltrim_spec. destruct (string2ll start) as [st|], (string2ll end_) as [en|]; try done. apply Hon. intros l El [_ Hl]. pose proof (slice_le l st en). apply (full_put_back N (emit a _)); [by apply full_weaken|lia].
  - unfold lpos_spec. destruct (lpos_options _ _); [done|]. by apply Hon.
  - unfold lrem_spec. destruct (getRangeLongLong _ _ _ _ _) as [|t]; [done|]. apply Hon. intros l El [_ Hl]. case_match; [done|]. pose proof (removed_le t ele l). apply (full_put_back N (emit (add_dirty a _) _)); [by apply full_weaken|lia].
  - destruct (getListPosition from); [|done]. by destruct (getListPosition to).
  - done.
  - destruct (getListPosition from); [|done]. destruct (getListPosition to); [|done]. destruct (lmovemParseOptions opts) as [|[[mode n] ord]] eqn:Ep; [done|]. apply full_lmovem; [done|done|]. split; [by eapply parse_pos|by eapply Hc].
Qed.

Definition no_keys {L : Type} : server L := {| sv_db := ∅; sv_dirty := 0; sv_effects := [] |}.

Fixpoint list_run {L I E : Type} `{!list_ops L I E} (s : server L) (cs : list list_cmd) : option (server L * list list_reply) :=
  match cs with
  | [] => Some (s, [])
  | c :: cs => '(s, r) ← exec_list s c; '(s, rs) ← list_run s cs; Some (s, r :: rs)
  end.
Fixpoint spec_run (a : lists) (cs : list list_cmd) : lists * list list_reply :=
  match cs with
  | [] => (a, [])
  | c :: cs => let '(a, r) := list_spec a c in let '(a, rs) := spec_run a cs in (a, r :: rs)
  end.

Lemma run_ok {L I E : Type} `{!list_ops L I E} `{!list_laws L I E} cs : forall (s : server L) a M, sim s a -> 0 <= M -> full M a -> Forall cmd_ok cs -> M + MAX_ARGS * zlen cs <= INT64_MAX ->
  exists s', list_run s cs = Some (s', (spec_run a cs).2) /\ sim s' (spec_run a cs).1 /\ full (M + MAX_ARGS * zlen cs) (spec_run a cs).1.
Proof.
  induction cs as [|c cs IH]; intros s a M Hs HM Hf Hok Hmx; [exists s; split; [done|]; split; [done|]; apply (full_mono M); [done|change (zlen (@nil list_cmd)) with 0; lia]|]. apply list.Forall_cons in Hok as [Hc Hok]. cbn [list_run spec_run].
  rewrite zlen_cons in *. pose proof (zlen_nonneg cs) as Hz. assert (HA : 0 < MAX_ARGS) by done. assert (Hf1 : full INT64_MAX a) by (apply (full_mono M); [done|nia]).
  destruct (exec_list_ok s a c Hs Hf1 Hc) as (s1 & -> & Hs1). cbn [mbind option_bind]. pose proof (full_spec M a c HM Hf Hc) as Hf2. destruct (list_spec a c) as [a1 r]. cbn [fst snd] in *.
  destruct (IH s1 a1 (M + MAX_ARGS) Hs1 ltac:(lia) Hf2 Hok ltac:(lia)) as (s' & -> & Hs' & Hf'). cbn [mbind option_bind]. destruct (spec_run a1 cs) as [a' rs]. exists s'. split; [done|]. split; [done|]. cbn [fst] in *. apply (full_mono _ _ _ Hf'). lia.
Qed.
