(* ===== verification/TListThms.v ===== *)
(** * Lists: both encodings have the laws, and the commands of t_list.c act on lists

    A listpack that a command has just filled may be larger than the limit of a node; the
    number of elements that one command pushes is bounded. *)

From stdpp Require Import base list gmap numbers option tactics.
From S2P Require Import Prelude Util SdsArgs ListpackEnc Listpack ListpackNav ListpackUpd ListpackBulk Lzf LzfSpec Bitops BitopsThms Quicklist QuicklistOps QuicklistSpec QuicklistComp QuicklistEnds QuicklistMerge QuicklistIns QuicklistRep QuicklistThms QuicklistIter TList TListSpec.

(** ** Elements *)

Lemma entry_elem_ok e t : valid_entry e -> entry_text e = Some t -> elem_ok t.
Proof.
  intros He. destruct (valid_entry_get e He) as (v & Hv & Hok). unfold entry_text. rewrite Hv. cbn [mbind option_bind]. destruct v as [off len|n].
  - intros Hr. destruct (rd_bytes_inv _ _ _ _ Hr) as (Ho & Hl & Hb & Ht). assert (Hz : zlen e < 2 ^ 32) by apply He. split; [|lia]. apply list.Forall_lookup. intros i x Hx. pose proof (lookup_lt_Some _ _ _ Hx) as Hlt.
    specialize (Ht (Z.of_nat i) ltac:(unfold zlen in *; lia)). rewrite rd_lookup, Nat2Z.id, Hx in Ht by lia. symmetry in Ht. eapply rd_byte; [|exact Ht]. apply He.
  - intros [= <-]. cbn in Hok. split; [apply ll_text_bytes|]. pose proof (zlen_ll_text n Hok). unfold LONG_STR_SIZE in *. lia.
Qed.

Lemma vals_elem_ok c : cont_ok c -> Forall elem_ok (vals c).
Proof.
  destruct c as [v|es]; cbn [cont_ok vals].
  - intros Hv. by constructor.
  - intros (Hv & _). apply list.Forall_forall. intros t (e & He & Ht)%list_elem_of_omap. eapply list.Forall_forall in Hv; [|exact He]. by eapply entry_elem_ok.
Qed.

Lemma flat_elem_ok ql cs : core ql cs -> Forall elem_ok (flat cs).
Proof.
  intros Hco. pose proof (co_holds _ _ Hco) as Hh. clear Hco. unfold holds in Hh. induction Hh as [|x c l cs [Hr _] _ IH]; [constructor|]. rewrite flat_cons. apply list.Forall_app. split; [|done]. by apply vals_elem_ok, (nr_ok _ _ Hr).
Qed.

Lemma raw_intbuf b es i v : raw b (Packed es) -> vals (Packed es) !! i = Some v -> lpGet_intbuf b (pos es i) (replicate 21 0) = Some v.
Proof.
  intros [num Hr] Hi. pose proof Hr as (Hv & _). rewrite vals_lookup in Hi by done. apply bind_Some in Hi as (e & He & Ht).
  destruct (repr_at b es num Hr i e He) as (a & c & -> & Ha). pose proof (repr_valid _ _ _ Hr _ _ He) as Hve.
  destruct (valid_entry_get e Hve) as (w & Hw & Hok). unfold entry_text in Ht. rewrite Hw in Ht. cbn [mbind option_bind] in Ht.
  unfold lpGet_intbuf, ent in *. rewrite <- Ha, <- app_assoc, (lpGetWithBuf_embed _ _ _ _ Hw). cbn [mbind option_bind].
  destruct w as [off len|w]; cbn [lpval_shift]; [by apply rd_bytes_embed|]. injection Ht as <-. cbn in Hok.
  pose proof (zlen_ll_text w Hok) as Hl. unfold LONG_STR_SIZE in *.
  pose proof (ll2string_ok [] (replicate 21 0) [] w Hok) as H. cbn [app] in H. rewrite app_nil_r in H. change (zlen (@nil Z)) with 0 in H. change (zlen (replicate 21 0)) with 21 in H.
  change LP_INTBUF_SIZE with 21. rewrite H by lia. cbn [mbind option_bind]. rewrite <- app_assoc. by apply rd_bytes_head.
Qed.

Lemma compare_ok v s c : int_ok v -> cache_ok s c -> exists c', compare_value v s c = (bool_decide (arg_text v = s), c') /\ cache_ok s c'.
Proof.
  intros Hv Hc. destruct v as [t|n]; cbn [compare_value arg_text]; [by exists c|]. assert (Hcl : cached_ll s c = (string2ll s, Some (string2ll s))) by (by destruct Hc as [-> | ->]).
  rewrite Hcl. exists (Some (string2ll s)). split; [|by right]. f_equal. apply bool_decide_ext. rewrite string2ll_iff. cbn in Hv. split; [by intros [_ ->]|by intros <-].
Qed.

(** ** Listpacks *)

Definition MAX_STR : Z := 65536.

Definition lp_room (lp : list Z) (es : list (list Z)) (vs : list (list Z)) : Prop :=
  raw lp (Packed es) /\ cont_ok (Packed es) /\ zlen es + zlen vs <= MAX_ELEMENTS /\ Forall (fun s => zlen s <= MAX_STR) vs.

Lemma int_entry n : zlen (ent (arg_enc (LVal n))) <= 14.
Proof.
  cbn [arg_enc]. rewrite zlen_ent. unfold lpEncodeIntegerGetType.
  assert (Hb : forall e : list Z, zlen e <= 9 -> zlen e + lpEncodeBacklenBytes (zlen e) <= 14) by (intros e He; pose proof (lpEncodeBacklenBytes_pos (zlen e)); lia).
  repeat case_match; apply Hb; unfold zlen; cbn [length]; rewrite ?length_map; cbn; lia.
Qed.

Lemma arg_cont_ok v : val_ok v -> zlen (arg_text v) <= MAX_STR -> arg_valid v /\ cont_ok (Packed [arg_enc v]) /\ vals (Packed [arg_enc v]) = [arg_text v].
Proof.
  intros Hv Hl. assert (Ha : arg_valid v) by (destruct v as [s|n]; cbn in *; [destruct Hv; split; [done|unfold MAX_STR in *; lia]|done]). split; [done|].
  destruct (arg_enc_valid v Ha) as [Hval Ht]. split; [|cbn [vals omap list_omap]; by rewrite Ht]. split; [by constructor|]. split; [by vm_compute|]. constructor; [|constructor].
  destruct v as [s|n]; cbn [arg_text] in *; [by apply ent_encode; [apply Hv|]|]. pose proof (int_entry n). unfold MAX_ENTRY. lia.
Qed.

Section Lp.
Context (junk : nat -> Z) (usable : Z -> Z) (Husable : forall n, 0 <= n -> n <= usable n).

Lemma put_room lp es v vs i w : lp_room lp es (arg_text v :: vs) -> val_ok v -> put_ok es i w -> w <> LP_REPLACE ->
  exists lp' p, lpPut junk usable lp v (pos es i) w = Some (Some (lp', p)) /\ lp_room lp' (put_list es (arg_enc v) i w) vs /\
    vals (Packed (put_list es (arg_enc v) i w)) = match w with LP_AFTER => take (S i) (vals (Packed es)) ++ arg_text v :: drop (S i) (vals (Packed es)) | _ => take i (vals (Packed es)) ++ arg_text v :: drop i (vals (Packed es)) end.
Proof.
  intros ([num Hr] & Hok & Hn & Hs) Hv Hp Hw. apply list.Forall_cons in Hs as [Hs Hvs]. rewrite zlen_cons in Hn. destruct (arg_cont_ok v Hv Hs) as (Ha & Hc1 & Hv1).
  assert (Hput : exists j, put_list es (arg_enc v) i w = take j es ++ [arg_enc v] ++ drop j es /\ j = match w with LP_AFTER => S i | _ => i end) by (destruct w; [by eexists|by eexists|done]).
  destruct Hput as (j & Hpl & Hj). assert (Hz : zlen (take j es) + zlen (drop j es) = zlen es) by (rewrite <- zlen_app, take_drop; done).
  assert (Hc : cont_ok (Packed (take j es ++ [arg_enc v] ++ drop j es))).
  { pose proof (zlen_nonneg vs). apply packed_ok_app; [by apply packed_ok_take|apply packed_ok_app; [done|by apply packed_ok_drop|]|]; rewrite ?zlen_app; change (zlen [arg_enc v]) with 1; pose proof (zlen_nonneg (take j es)); pose proof (zlen_nonneg (drop j es)); lia. }
  pose proof (packed_total _ Hc). destruct (put_spec junk usable Husable lp es num v i w Hr Ha Hp) as [_ Hq]. rewrite Hpl in Hq. destruct (Hq ltac:(lia)) as (lp' & num' & Hput & Hr'). eexists lp', _. split; [exact Hput|]. rewrite Hpl.
  assert (Hve : Forall valid_entry es) by apply Hok. split.
  - split; [by exists num'|]. split; [done|]. split; [|done]. rewrite !zlen_app. change (zlen [arg_enc v]) with 1. lia.
  - rewrite !vals_app, Hv1, vals_take, vals_drop by done. subst j. by destruct w.
Qed.

Lemma replace_room lp es v vs i : lp_room lp es (v :: vs) -> elem_ok v -> (i < length es)%nat ->
  exists lp' p, lpReplace junk usable lp (pos es i) v = Some (Some (lp', p)) /\ lp_room lp' (<[i := lp_encode v]> es) vs /\ vals (Packed (<[i := lp_encode v]> es)) = <[i := v]> (vals (Packed es)).
Proof.
  intros ([num Hr] & Hok & Hn & Hs) Hv Hi. apply list.Forall_cons in Hs as [Hs Hvs]. rewrite zlen_cons in Hn. unfold MAX_STR in Hs.
  pose proof (packed_ok_insert es i v Hok (proj1 Hv) Hs) as Hc. pose proof (packed_total _ Hc). assert (Ha : arg_valid (SVal v)) by (split; [apply Hv|lia]).
  destruct (put_spec junk usable Husable lp es num (SVal v) i LP_REPLACE Hr Ha Hi) as [_ Hq]. cbn [put_list arg_enc] in Hq. destruct (Hq ltac:(lia)) as (lp' & num' & Hput & Hr'). eexists lp', _. split; [exact Hput|].
  split; [|apply vals_insert; [apply Hok|done|apply Hv|done]]. split; [by exists num'|]. split; [done|]. split; [|done]. unfold zlen in *. rewrite length_insert. lia.
Qed.
End Lp.

Section Impl.
Context (junk : nat -> Z) (usable : Z -> Z) (Husable : forall n, 0 <= n -> n <= usable n).
Context (lzf_base : Z) (lzf_junk : Z -> Z) (Hbase : 8192 <= lzf_base /\ lzf_base + 2 ^ 32 <= 2 ^ 64) (Hlzf : forall i, 0 <= lzf_junk i < 2 ^ 64).
Context (packed_threshold : Z) (Hthr : 0 <= packed_threshold <= 65537).
Context (max_size depth : Z) (Hmax : -4 <= max_size).

(** A listpack becomes the only node of a quicklist. *)
Lemma append_listpack_ok ql cs zl es : inv ql cs -> raw zl (Packed es) -> cont_ok (Packed es) -> es <> [] ->
  exists ql', quicklistAppendListpack junk lzf_base lzf_junk ql zl = Some ql' /\ inv ql' (cs ++ [Packed es]).
Proof.
  intros Hinv Hr Hok Hne. pose proof Hinv as [Hco Hu]. unfold quicklistAppendListpack. destruct (raw_length zl es Hr) as (zl' & -> & Hr'). cbn [mbind option_bind]. rewrite (raw_bytes _ _ Hr'). cbn [mbind option_bind].
  assert (Hv : Forall valid_entry es) by apply Hok. assert (Hm : zlen es <= MAX_ELEMENTS) by apply Hok. unfold MAX_ELEMENTS in Hm. pose proof (zlen_nonneg es) as H0.
  set (n := set_count (set_entry quicklistCreateNode zl' (total_bytes es) false) (zlen es)). assert (Hc : qn_count n = zlen (vals (Packed es))) by (unfold n; rewrite set_count_val, zlen_vals by (done || lia); done).
  assert (Hrep : node_rep n (Packed es)) by (by split). assert (Hvn : vals (Packed es) <> []) by (intros E; apply (f_equal length) in E; rewrite length_vals in E by done; by destruct es).
  assert (Hadj : adjacent (ql_tail ql) true (ql_nodes ql) []) by (unfold ql_tail; destruct (ql_nodes ql) as [|[h nh] b _] using rev_ind; [constructor|rewrite reverse_snoc; apply adj_after]).
  assert (Hlen : length (ql_nodes ql) = length cs) by (eapply list.Forall2_length, (co_holds _ _ Hco)).
  rewrite <- (with_count_same ql) in Hco. rewrite <- (app_nil_r cs) in Hco.
  destruct (ql_insert_core junk lzf_base lzf_junk Hbase Hlzf ql _ cs [] (ql_tail ql) (ql_nodes ql) [] n (Packed es) true Hco ltac:(by rewrite app_nil_r) Hlen Hadj Hrep Hc Hvn) as (l' & Hi & _ & Hco' & Hu'); [done..|].
  apply insert_inline in Hi. unfold fresh_node in *. match goal with |- context [__quicklistInsertNode ?j ?b ?k ?q ?t ?i ?m ?w] => change (__quicklistInsertNode j b k q t i m w) with (__quicklistInsertNode j b k q (ql_tail ql) i n true) end. rewrite Hi. cbn [mbind option_bind]. eexists. split; [done|]. rewrite Hc. split; [exact Hco'|]. apply Hu'. by apply (inv_only ql cs).
Qed.

(** ** Representation *)

Definition list_room (o : listobj) (l vs : list (list Z)) : Prop :=
  match o with
  | ListLp lp => exists es, lp_room lp es vs /\ vals (Packed es) = l
  | ListQl ql => exists cs, inv ql cs /\ flat cs = l
  end.

Definition fwd (d : lwhere) : bool := bool_decide (d = LIST_TAIL).

(** The element a position in a listpack is before, or after. *)
Definition lp_at (es : list (list Z)) (p : nat) (d : lwhere) : option Z := match d with LIST_TAIL => ptr es p | LIST_HEAD => match p with O => None | S i => Some (pos es i) end end.

Definition list_iter (o : listobj) (it : listTypeIterator) (l vs : list (list Z)) (p : nat) (d : lwhere) : Prop :=
  li_direction it = d /\ (p <= length l)%nat /\
  match o, li_pos it with
  | ListLp lp, IterLp lpi => exists es, lp_room lp es vs /\ vals (Packed es) = l /\ lpi = lp_at es p d
  | ListQl ql, IterQl iter => qi_forward iter = fwd d /\ at_pos true ql iter l p
  | _, _ => False
  end.

Definition list_entry (o : listobj) (it : listTypeIterator) (e : listTypeEntry) (l vs : list (list Z)) (i : nat) (d : lwhere) : Prop :=
  li_direction it = d /\ (i < length l)%nat /\
  match o, li_pos it, e with
  | ListLp lp, IterLp lpi, EntLp p => exists es, lp_room lp es vs /\ vals (Packed es) = l /\ p = pos es i /\ lpi = lp_at es (after_pos i d) d
  | ListQl ql, IterQl iter, EntQl e => qi_forward iter = fwd d /\ on_elem true ql iter e l i
  | _, _, _ => False
  end.

Lemma lp_weaken lp es vs : lp_room lp es vs -> lp_room lp es [].
Proof. intros (H1 & H2 & H3 & _). split; [done|]. split; [done|]. split; [|constructor]. change (zlen (@nil (list Z))) with 0. pose proof (zlen_nonneg vs). lia. Qed.

Lemma impl_weaken o l vs : list_room o l vs -> list_room o l [].
Proof. destruct o as [lp|ql]; [|done]. intros (es & Hr & Hl). exists es. split; [by eapply lp_weaken|done]. Qed.

Lemma impl_order o l vs vs' : vs ≡ₚ vs' -> list_room o l vs -> list_room o l vs'.
Proof.
  intros Hp. destruct o as [lp|ql]; [|done]. intros (es & (H1 & H2 & H3 & H4) & Hl). exists es. split; [|done]. split; [done|]. split; [done|]. split; [unfold zlen in *; by rewrite <- Hp|by rewrite <- Hp].
Qed.

Lemma lp_len lp es vs : lp_room lp es vs -> length (vals (Packed es)) = length es /\ zlen (vals (Packed es)) = zlen es /\ Forall valid_entry es.
Proof. intros (_ & Hok & _). assert (Hv : Forall valid_entry es) by apply Hok. by rewrite length_vals, zlen_vals. Qed.

Lemma seek_vals es idx : Forall valid_entry es -> seek_index es idx = seek_index (vals (Packed es)) idx.
Proof. intros Hv. unfold seek_index. by rewrite zlen_vals. Qed.

Lemma impl_create : exists o, createListListpackObject junk usable = Some o /\ list_room o [] [].
Proof.
  unfold createListListpackObject. destruct (raw_new junk usable Husable) as (b & -> & Hr). cbn [mbind option_bind]. eexists. split; [done|]. exists []. split; [|done]. split; [done|]. split; [|split; [by vm_compute|constructor]]. split; [constructor|]. split; [by vm_compute|constructor].
Qed.

Lemma exceeds_false sz n : quicklistNodeExceedsLimit max_size sz n = Some false -> sz <= 32768.
Proof.
  unfold quicklistNodeExceedsLimit, quicklistNodeLimit. destruct (max_size >=? 0) eqn:E; cbn [mbind option_bind].
  - intros [= [H _]%orb_false_iff]. apply negb_false_iff in H. unfold sizeMeetsSafetyLimit, SIZE_SAFETY_LIMIT in H. lia.
  - rewrite Z.geb_leb in E. apply Z.leb_gt in E. assert (max_size = -1 \/ max_size = -2 \/ max_size = -3 \/ max_size = -4) as [-> |[-> |[-> | ->]]] by lia;
      vm_compute quicklistNodeNegFillLimit; cbn [mbind option_bind]; rewrite Z.gtb_ltb; intros [= H]; apply Z.ltb_ge in H; lia.
Qed.

Lemma exceeds_total sz n : exists b, quicklistNodeExceedsLimit max_size sz n = Some b.
Proof. destruct (exceeds_spec max_size sz n ltac:(lia)) as (b & H & _). by exists b. Qed.

Lemma add_bytes_ge vs v : v ∈ vs -> sds_len v <= foldr (fun v n => sds_len v + n) 0 vs.
Proof.
  assert (Hp : forall v, 0 <= sds_len v) by (intros [s|n]; cbn; [apply zlen_nonneg|lia]). assert (Hf : forall l, 0 <= foldr (fun v n => sds_len v + n) 0 l) by (intros l; induction l as [|x l IH]; cbn [foldr]; [lia|]; specialize (Hp x); lia).
  induction vs as [|x vs IH]; intros Hin; [by inversion Hin|]. cbn [foldr]. specialize (Hp x). pose proof (Hf vs). apply elem_of_cons in Hin as [-> |Hin]; [lia|]. specialize (IH Hin). lia.
Qed.

Lemma impl_convert o l vs : list_room o l [] -> Forall val_ok vs -> zlen vs <= MAX_ARGS ->
  exists o', listTypeTryConversionAppend junk lzf_base lzf_junk max_size depth o vs = Some o' /\ list_room o' l (arg_text <$> vs).
Proof.
  intros Hr Hok Hn. destruct o as [lp|ql]; cbn [listTypeTryConversionAppend listTypeTryConversionRaw]; [|by exists (ListQl ql)].
  destruct Hr as (es & (Hr & Hc & Hm & _) & <-). unfold listTypeTryConvertListpack. rewrite (raw_bytes _ _ Hr). cbn [mbind option_bind]. destruct (raw_length lp es Hr) as (lp1 & -> & Hr1). cbn [mbind option_bind].
  set (add := foldr _ 0 vs). destruct (exceeds_total (total_bytes es + add) (u32 (zlen es + zlen vs))) as (b & Hb). rewrite Hb. cbn [mbind option_bind]. destruct b.
  - destruct (raw_length lp1 es Hr1) as (lp2 & -> & Hr2). cbn [mbind option_bind]. pose proof (new_ok max_size depth) as Hnew. destruct (Z.eqb_spec (zlen es) 0) as [E0|E0].
    + eexists. split; [done|]. exists []. split; [done|]. by rewrite (zlen_0_nil _ E0).
    + destruct (append_listpack_ok _ [] lp2 es Hnew Hr2 Hc) as (ql' & -> & Hinv); [by intros ->|]. cbn [mbind option_bind]. eexists. split; [done|]. exists ([] ++ [Packed es]). split; [done|]. by rewrite flat_app, flat_cons, app_nil_r.
  - apply exceeds_false in Hb. eexists. split; [done|]. exists es. split; [|done]. split; [done|]. split; [done|].
    assert (Hv : Forall valid_entry es) by apply Hc. pose proof (body_min es Hv) as Hmin. unfold total_bytes, LP_HDR_SIZE in Hb.
    assert (Hadd : 0 <= add) by (unfold add; clear; induction vs as [|x vs IH]; cbn [foldr]; [lia|]; destruct x; cbn [sds_len]; [pose proof (zlen_nonneg s)|]; lia).
    split; [unfold MAX_ELEMENTS, MAX_ARGS, zlen in *; rewrite length_fmap; lia|]. apply Forall_fmap, list.Forall_forall. intros v Hin. pose proof (add_bytes_ge vs v Hin) as Hge. fold add in Hge. pose proof (zlen_nonneg (body es)).
    eapply list.Forall_forall in Hok; [|exact Hin]. unfold MAX_STR. destruct v as [s|n]; cbn [arg_text compose sds_len] in *; [lia|]. pose proof (zlen_ll_text n Hok). unfold LONG_STR_SIZE in *. lia.
Qed.

Lemma impl_shrink o l : list_room o l [] -> exists o', listTypeTryConversion junk lzf_base lzf_junk max_size depth o LIST_CONV_SHRINKING = Some o' /\ list_room o' l [].
Proof.
  destruct o as [lp|ql]; intros Hr; cbn [listTypeTryConversion listTypeTryConversionRaw]; [by exists (ListLp lp)|]. unfold listTypeTryConvertQuicklist. destruct Hr as (cs & Hinv & <-). pose proof Hinv as [Hco _].
  assert (Hsame : exists o', Some (ListQl ql) = Some o' /\ list_room o' (flat cs) []) by (eexists; split; [done|]; by exists cs). rewrite (wf_len _ (co_wf _ _ Hco)).
  destruct (ql_nodes ql) as [|[id n] [|x b]] eqn:El; [done| |by rewrite (proj2 (Z.eqb_neq _ 1)) by (rewrite !zlen_cons; pose proof (zlen_nonneg b); lia)].
  change (zlen [(id, n)] =? 1) with true. cbn [negb]. unfold ql_head. rewrite El. cbn [fmap list_fmap head fst mbind option_bind]. destruct (node_at_split ql [] id n [] (co_wf _ _ Hco) El) as (_ & -> & _). cbn [mbind option_bind].
  destruct (qn_plain n) eqn:Ep; [done|]. destruct (exceeds_total 0 0) as [b Hb]. unfold quicklistNodeExceedsLimit in Hb. destruct (quicklistNodeLimit max_size) as [[sl cl]|]; [|done]. cbn [mbind option_bind]. case_match; [done|].
  pose proof (end_raw ql [] id n [] (co_wf _ _ Hco) (co_lzf _ _ Hco) El (or_introl eq_refl)) as Hz. pose proof (co_holds _ _ Hco) as Hh. rewrite El in Hh. inversion Hh as [|? c ? cs' [Hrep _] Hn]; subst. inversion Hn; subst. cbn [snd] in *.
  destruct (packed_of n c Hrep Ep) as [es ->]. eexists. split; [done|]. exists es. split; [|by rewrite flat_cons, app_nil_r]. pose proof (nr_raw _ _ Hrep) as Hraw. rewrite Hz in Hraw. pose proof (nr_ok _ _ Hrep) as Hok. split; [done|]. split; [done|]. split; [|constructor]. rewrite zlen_nil, Z.add_0_r. apply Hok.
Qed.

Lemma impl_push o l v vs w : list_room o l (arg_text v :: vs) -> val_ok v -> exists o', listTypePush junk usable lzf_base lzf_junk packed_threshold o v w = Some o' /\ list_room o' (pushed_on w [arg_text v] l) vs.
Proof.
  intros Hr Hv. destruct o as [lp|ql]; cbn [listTypePush].
  - destruct Hr as (es & Hr & <-). destruct (lp_len _ _ _ Hr) as (Hl & _). pose proof (proj1 Hr) as [num Hlp].
    assert (Hgo : forall i, (i <= length es)%nat -> i = match w with LIST_HEAD => 0%nat | LIST_TAIL => length es end ->
      exists o', with_lp (lpPut junk usable lp v (pos es i) LP_BEFORE) = Some o' /\ list_room o' (pushed_on w [arg_text v] (vals (Packed es))) vs).
    { intros i Hi Ei. destruct (put_room junk usable Husable lp es v vs i LP_BEFORE Hr Hv Hi) as (lp' & p & -> & Hr' & Hvals); [done|]. cbn [with_lp mbind option_bind]. eexists. split; [done|]. eexists. split; [exact Hr'|]. rewrite Hvals. subst i. destruct w; cbn [pushed_on].
      - by rewrite take_0, drop_0.
      - by rewrite <- Hl, firstn_all, drop_all. }
    destruct w; [pose proof (prepend_put junk usable lp es num v Hlp) as Hp|pose proof (append_put junk usable lp es num v Hlp) as Hp]; (destruct v; rewrite Hp; (apply Hgo; [lia|done])).
  - destruct Hr as (cs & Hinv & <-). rewrite (value_text_ok v Hv). cbn [mbind option_bind]. assert (He : elem_ok (arg_text v)).
    { destruct v as [s|n]; [done|]. cbn in Hv |- *. split; [apply ll_text_bytes|]. pose proof (zlen_ll_text n Hv). unfold LONG_STR_SIZE in *. lia. }
    destruct (push_ok junk usable Husable lzf_base lzf_junk Hbase Hlzf packed_threshold Hthr ql cs (arg_text v) (bool_decide (w = LIST_HEAD)) Hinv He) as (ql' & cs' & -> & Hinv' & Hf). cbn [mbind option_bind]. eexists. split; [done|]. exists cs'. split; [done|]. rewrite Hf. by destruct w.
Qed.

Lemma popped_int ql front v ql' : quicklistPopCustom junk usable lzf_base lzf_junk ql front = Some (Some v, ql') -> int_ok v.
Proof.
  unfold quicklistPopCustom. destruct (ql_count ql =? 0); [done|]. destruct (if front then _ else _); [|done]. intros (node & _ & (_ & _ & H)%bind_Some)%bind_Some. destruct (qn_plain node).
  - apply bind_Some in H as (data & _ & ([[q g] p] & _ & [= <- _])%bind_Some). done.
  - apply bind_Some in H as (r & _ & (p & _ & (u & Hr & ([[q g] p'] & _ & [= <- _])%bind_Some)%bind_Some)%bind_Some). by eapply read_int_ok.
Qed.

Lemma popped_spec w l x rest : popped w 1 l = ([x], rest) <-> pop_spec (bool_decide (w = LIST_HEAD)) l x rest.
Proof.
  destruct w; cbn [popped].
  - change (bool_decide (LIST_HEAD = LIST_HEAD)) with true. cbn [pop_spec]. destruct l as [|y l]; [done|]. change (take 1 (y :: l)) with [y]. change (drop 1 (y :: l)) with l. split; [by intros [= -> ->]|by intros [= -> ->]].
  - destruct l as [|y l _] using rev_ind; [split; [done|intros H; by destruct rest]|]. rewrite reverse_snoc, length_app. cbn [take length]. replace (length l + 1 - 1)%nat with (length l) by lia. rewrite take_app_length. change (bool_decide (LIST_TAIL = LIST_HEAD)) with false. cbn [pop_spec]. split; [by intros [= -> ->]|]. intros H. by apply app_inj_tail in H as [-> ->].
Qed.

(** The first, or the last, element of a listpack. *)
Lemma lp_end lp es w : raw lp (Packed es) -> es <> [] -> exists i, (i < length es)%nat /\ (match w with LIST_HEAD => lpFirst lp | LIST_TAIL => lpLast lp end) = Some (Some (pos es i)) /\
  i = match w with LIST_HEAD => 0%nat | LIST_TAIL => (length es - 1)%nat end.
Proof.
  intros [num Hr] Hne. assert (0 < length es)%nat by (destruct es; [done|cbn; lia]). destruct w; eexists; (split; [|split; [|done]]); [done|rewrite (nav_first _ _ _ Hr), ptr_lt by done; done|lia|].
  rewrite (nav_last _ _ _ Hr). destruct (length es) as [|k]; [lia|]. by rewrite Nat.sub_1_r.
Qed.

Lemma delete_end (front : bool) (l rest : list (list Z)) x : pop_spec front l x rest -> l !! (if front then 0 else length l - 1)%nat = Some x /\ delete (if front then 0 else length l - 1)%nat l = rest.
Proof.
  destruct front; cbn [pop_spec]; intros ->; [done|]. rewrite length_app. cbn [length]. replace (length rest + 1 - 1)%nat with (length rest) by lia.
  rewrite lookup_app_r, Nat.sub_diag by lia. split; [done|]. by rewrite delete_take_drop, take_app_length, drop_ge, app_nil_r by (rewrite length_app; cbn; lia).
Qed.

Lemma lp_shrunk lp' (es es' vs : list (list Z)) : raw lp' (Packed es') -> cont_ok (Packed es') -> (length es' <= length es)%nat -> zlen es + zlen vs <= MAX_ELEMENTS -> Forall (fun s => zlen s <= MAX_STR) vs -> lp_room lp' es' vs.
Proof. intros H1 H2 H3 H4 H5. split; [done|]. split; [done|]. split; [unfold zlen in *; lia|done]. Qed.

Lemma impl_pop o l w x rest : list_room o l [] -> popped w 1 l = ([x], rest) -> exists v o', listTypePop junk usable lzf_base lzf_junk o w = Some (Some v, o') /\ arg_text v = x /\ val_ok v /\ list_room o' rest [].
Proof.
  rewrite popped_spec. set (front := bool_decide (w = LIST_HEAD)). intros Hr Hp. destruct o as [lp|ql]; cbn [listTypePop].
  - destruct Hr as (es & Hr & <-). destruct (lp_len _ _ _ Hr) as (Hl & _ & Hv). assert (Hne : es <> []) by (intros ->; destruct front; cbn [pop_spec vals omap list_omap] in Hp; [done|by destruct rest]).
    destruct (lp_end lp es w (proj1 Hr) Hne) as (i & Hi & -> & Ei). cbn [mbind option_bind]. destruct (delete_end front _ _ _ Hp) as [Hx Hd]. rewrite Hl in Hx, Hd.
    assert (Ei' : i = (if front then 0 else length es - 1)%nat) by (unfold front; subst i; by destruct w). rewrite <- Ei' in Hx, Hd. clear Ei Ei'.
    rewrite (raw_intbuf lp es i x (proj1 Hr) Hx). cbn [mbind option_bind]. destruct (raw_delete junk usable Husable lp es i (proj1 Hr) Hi) as (lp' & p & -> & Hr'). cbn [with_lp mbind option_bind].
    eexists _, _. split; [done|]. split; [done|]. destruct Hr as (_ & Hok & Hn & _). split; [pose proof (vals_elem_ok _ Hok) as Hf; rewrite list.Forall_lookup in Hf; by apply (Hf i)|].
    exists (delete i es). split; [|by rewrite vals_delete, Hd]. apply (lp_shrunk lp' es); [done|by apply packed_ok_delete|rewrite length_delete by (by apply lookup_lt_is_Some); lia|done|constructor].
  - destruct Hr as (cs & Hinv & <-). pose proof (pop_ok junk usable Husable lzf_base lzf_junk Hbase Hlzf ql cs front Hinv) as Hpop. unfold quicklistPop in Hpop. rewrite (co_count _ _ (proj1 Hinv)) in Hpop. pose proof (flat_elem_ok ql cs (proj1 Hinv)) as Hel.
    destruct (flat cs) as [|y l]; [destruct front; cbn in Hp; [done|by destruct rest]|]. rewrite zlen_cons, (proj2 (Z.eqb_neq _ 0)) in Hpop by (pose proof (zlen_nonneg l); lia). destruct Hpop as (le & ql' & cs' & Hpop & Hinv' & Hs).
    fold front. rewrite Hpop. cbn [mbind option_bind]. eexists _, _. split; [done|]. destruct (delete_end front _ _ _ Hp) as [Hx Hd]. destruct (delete_end front _ _ _ Hs) as [Hx' Hd']. rewrite Hx in Hx'. injection Hx' as ->.
    split; [done|]. split; [|exists cs'; split; [done|by rewrite <- Hd']]. pose proof (popped_int _ _ _ _ Hpop) as Hi. rewrite list.Forall_lookup in Hel. specialize (Hel _ _ Hx). by destruct le.
Qed.

Lemma lp_length lp es vs : lp_room lp es vs -> exists lp', lpLength lp = Some (zlen es, lp') /\ lp_room lp' es vs.
Proof. intros (H1 & H2). destruct (raw_length lp es H1) as (lp' & -> & Hr). exists lp'. by split. Qed.

Lemma impl_length o l vs : list_room o l vs -> exists o', listTypeLength o = Some (zlen l, o') /\ list_room o' l vs.
Proof.
  destruct o as [lp|ql]; cbn [listTypeLength]; intros Hr.
  - destruct Hr as (es & Hr & <-). destruct (lp_len _ _ _ Hr) as (_ & -> & _). destruct (lp_length _ _ _ Hr) as (lp' & -> & Hr'). cbn [mbind option_bind]. eexists. split; [done|]. by exists es.
  - destruct Hr as (cs & Hinv & <-). rewrite (co_count _ _ (proj1 Hinv)). eexists. split; [done|]. by exists cs.
Qed.

Lemma at_pos_count clean ql iter l p : at_pos clean ql iter l p -> ql_count ql = zlen l.
Proof. intros [cs _ [Hco _] <- _|ca c cb a id n b j Hco _ _ _ <- _ _ _ _|ca c cb a id n b i e Hf <- _ _ _ _]; [apply (co_count _ _ Hco)..|apply (co_count _ _ (fo_core _ _ _ _ _ _ _ _ _ _ Hf))]. Qed.

Lemma impl_length_iter o it l vs p d : list_iter o it l vs p d -> exists o', listTypeLength o = Some (zlen l, o') /\ list_iter o' it l vs p d.
Proof.
  intros (Hd & Hp & H). unfold list_iter. destruct o as [lp|ql], (li_pos it) as [lpi|iter]; try done; cbn [listTypeLength].
  - destruct H as (es & Hr & <- & ->). destruct (lp_len _ _ _ Hr) as (_ & -> & _). destruct (lp_length _ _ _ Hr) as (lp' & -> & Hr'). cbn [mbind option_bind]. eexists. split; [done|]. split; [done|]. split; [done|]. by exists es.
  - destruct H as (Hf & Hat). rewrite (at_pos_count _ _ _ _ _ Hat). by eexists.
Qed.

Lemma seek_first es d : seek_index es (first_index d) = match d with LIST_TAIL => if decide (0 < length es)%nat then Some 0%nat else None | LIST_HEAD => match length es with O => None | S k => Some k end end.
Proof.
  unfold seek_index, zlen. destruct d; cbn [first_index].
  - change (-1 <? 0) with true. cbv iota. destruct (length es) as [|k] eqn:En; [done|]. rewrite (proj2 (Z.leb_le _ _)), (proj2 (Z.ltb_lt _ _)) by lia. cbn [andb]. f_equal. lia.
  - change (0 <? 0) with false. cbv iota. case_decide; [by rewrite (proj2 (Z.ltb_lt _ _)) by lia|by rewrite (proj2 (Z.ltb_ge _ _)) by lia].
Qed.

Lemma impl_init o l vs d : list_room o l vs -> exists it, listTypeInitIterator o (first_index d) d = Some it /\ list_iter o it l vs (walk_pos d l 0) d.
Proof.
  intros Hr. unfold listTypeInitIterator, list_iter. assert (HI : INT64_MIN < first_index d) by (by destruct d). destruct o as [lp|ql].
  - destruct Hr as (es & Hr & <-). destruct (lp_len _ _ _ Hr) as (Hl & _). rewrite (raw_seek lp es _ (proj1 Hr) HI). cbn [mbind option_bind]. eexists. split; [done|]. cbn [li_direction li_pos]. split; [done|]. split; [destruct d; cbn [walk_pos]; lia|].
    exists es. split; [done|]. split; [done|]. rewrite seek_first. destruct d; cbn [walk_pos lp_at].
    + rewrite Hl, Nat.sub_0_r. by destruct (length es).
    + unfold ptr. by case_decide.
  - destruct Hr as (cs & Hinv & <-). cbn [mbind option_bind]. eexists. split; [done|]. cbn [li_direction li_pos]. split; [done|]. split; [destruct d; cbn [walk_pos]; lia|].
    destruct (init_pos true ql cs (fwd d) (first_index d) Hinv HI) as [Hf Hat]; [by destruct d|]. split; [done|]. fold (fwd d). match type of Hat with at_pos _ _ _ _ ?p => replace (walk_pos d (flat cs) 0) with p; [done|] end.
    clear. unfold norm_index, zlen. destruct d; cbn [first_index walk_pos]; [change (fwd LIST_HEAD) with false; change (-1 <? 0) with true|change (fwd LIST_TAIL) with true; change (0 <? 0) with false]; cbv iota; case_decide; lia.
Qed.

Lemma next_ahead p d l : next_pos p d l = ahead (fwd d) p l.
Proof. by destruct d. Qed.

Lemma lp_step_ok lp es i d : raw lp (Packed es) -> (i < length es)%nat -> lp_step lp (pos es i) d = Some (lp_at es (after_pos i d) d).
Proof. intros Hr Hi. destruct d; cbn [lp_step after_pos lp_at]; [|by apply raw_next]. destruct Hr as [num Hr]. rewrite (nav_prev _ _ _ Hr) by lia. done. Qed.

Lemma lp_at_next es p d : (p <= length es)%nat -> lp_at es p d = pos es <$> next_pos p d es.
Proof. intros Hp. destruct d; cbn [lp_at next_pos]; [by destruct p|]. unfold ptr. by case_decide. Qed.

Lemma next_pos_lt p d (l : list (list Z)) i : (p <= length l)%nat -> next_pos p d l = Some i -> (i < length l)%nat.
Proof. intros Hp. destruct d; cbn [next_pos]; [destruct p; [done|]|case_decide; [|done]]; intros [= <-]; lia. Qed.

Lemma impl_next o it l vs p d : list_iter o it l vs p d -> exists o' it' e, listTypeNext junk lzf_base lzf_junk o it = Some (o', it', e) /\
  match next_pos p d l with
  | None => e = None /\ list_iter o' it' l vs p d
  | Some i => exists e', e = Some e' /\ list_entry o' it' e' l vs i d
  end.
Proof.
  intros (Hd & Hp & H). pose proof (next_pos_lt p d l) as Hlt. unfold list_iter, list_entry, listTypeNext. destruct o as [lp|ql], (li_pos it) as [lpi|iter] eqn:Eit; try done.
  - destruct H as (es & Hr & Hl & ->). destruct (lp_len _ _ _ Hr) as (Hn & _). rewrite Hl in Hn. assert (Hnp : next_pos p d l = next_pos p d es) by (destruct d; cbn [next_pos]; by rewrite ?Hn). rewrite (lp_at_next es p d), Hnp in * by lia. destruct (next_pos p d es) as [i|] eqn:Ei; cbn [fmap option_fmap option_map].
    + specialize (Hlt i Hp eq_refl). rewrite Hd, (lp_step_ok lp es i d (proj1 Hr)) by lia. cbn [mbind option_bind]. eexists _, _, _. split; [done|]. eexists. split; [done|]. cbn [li_direction li_pos]. split; [done|]. split; [done|]. by exists es.
    + eexists _, _, _. split; [done|]. split; [done|]. rewrite Eit. split; [done|]. split; [done|]. exists es. split; [done|]. split; [done|]. by rewrite (lp_at_next es p d), Ei by lia.
  - destruct H as (Hf & Hat). destruct (iter_next_ok junk lzf_base lzf_junk Hbase Hlzf true ql iter l p Hat) as (ql' & iter' & e & -> & Hf' & Hres). cbn [mbind option_bind]. rewrite Hf in *. rewrite next_ahead in *. eexists _, _, _. split; [done|].
    destruct (ahead (fwd d) p l) as [k|]; [destruct Hres as (e' & -> & Hon); eexists; split; [done|]|destruct Hres as (-> & Hat'); split; [done|]]; cbn [li_direction li_pos]; (split; [done|]); (split; [by first [done|apply Hlt]|done]).
Qed.

Lemma impl_entry o it e l vs i d : list_entry o it e l vs i d -> list_iter o it l vs (after_pos i d) d.
Proof.
  intros (Hd & Hi & H). split; [done|]. split; [destruct d; cbn [after_pos]; lia|]. destruct o as [lp|ql], (li_pos it) as [lpi|iter], e as [p|e]; try done.
  - destruct H as (es & Hr & Hl & _ & ->). by exists es.
  - destruct H as (Hf & Hon). split; [done|]. apply on_elem_pos in Hon. rewrite Hf in Hon. by destruct d.
Qed.

Lemma impl_value o it e l vs i d : list_entry o it e l vs i d -> exists v, listTypeGetValue o e = Some v /\ int_ok v /\ l !! i = Some (arg_text v).
Proof.
  intros (Hd & Hi & H). destruct o as [lp|ql], (li_pos it) as [lpi|iter], e as [p|e]; try done; cbn [listTypeGetValue].
  - destruct H as (es & Hr & <- & -> & _). destruct (lookup_lt_is_Some_2 _ _ Hi) as [x Hx]. destruct (raw_read lp es i x (proj1 Hr) Hx) as (v & Hv & Ht). exists v. split; [done|]. split; [by eapply read_int_ok|congruence].
  - destruct H as (Hf & Hon). destruct Hon as (ca & c & cb & a & id & n & b & j & Hfo & <- & _ & _ & _ & -> & Hint). destruct (found_lookup _ _ _ _ _ _ _ _ _ _ Hfo) as (v & Hv & Ht). exists v. split; [done|]. split; [by apply Hint|done].
Qed.

Lemma impl_equal o it e l vs i d s c : list_entry o it e l vs i d -> cache_ok s c -> exists c', listTypeEqual o e s c = Some (bool_decide (l !! i = Some s), c') /\ cache_ok s c'.
Proof.
  intros He Hc. destruct (impl_value _ _ _ _ _ _ _ He) as (v & Hv & Hint & Hl). unfold listTypeEqual. rewrite Hv. cbn [mbind option_bind]. destruct (compare_ok v s c Hint Hc) as (c' & -> & Hc'). exists c'. split; [|done]. do 2 f_equal. apply bool_decide_ext. rewrite Hl. split; [by intros ->|by intros [= ->]].
Qed.

Lemma impl_reset o it l vs p d : list_iter o it l vs p d -> exists o', listTypeResetIterator junk lzf_base lzf_junk o it = Some o' /\ list_room o' l vs.
Proof.
  intros (Hd & Hi & H). unfold listTypeResetIterator. destruct o as [lp|ql], (li_pos it) as [lpi|iter]; try done.
  - destruct H as (es & Hr & Hl & _). eexists. split; [done|]. by exists es.
  - destruct H as (Hf & Hat). destruct (reset_pos junk lzf_base lzf_junk Hbase Hlzf true ql iter l p Hat) as (ql' & cs & -> & Hinv & Hl). cbn [mbind option_bind]. eexists. split; [done|]. by exists cs.
Qed.

Lemma impl_delete o it e l vs i d : list_entry o it e l vs i d -> exists o' it', listTypeDelete junk usable lzf_base lzf_junk o it e = Some (o', it') /\ list_iter o' it' (delete i l) vs i d.
Proof.
  intros (Hd & Hi & H). assert (Hdl : length (delete i l) = (length l - 1)%nat) by (rewrite length_delete by (by apply lookup_lt_is_Some); lia). unfold listTypeDelete, list_iter. rewrite Hdl. destruct o as [lp|ql], (li_pos it) as [lpi|iter], e as [p|e]; try done.
  - destruct H as (es & Hr & <- & -> & _). destruct (lp_len _ _ _ Hr) as (Hn & _ & Hv). rewrite Hn in Hi. destruct Hr as ([num Hr] & Hok & Hm & Hvs).
    destruct (delete_spec junk usable Husable lp es num i Hr Hi) as (lp' & num' & -> & Hr'). cbn [mbind option_bind]. assert (Hde : length (delete i es) = (length es - 1)%nat) by (rewrite length_delete by (by apply lookup_lt_is_Some); lia).
    assert (Hst : step_deleted lp' (ptr (delete i es) i) (li_direction it) = Some (lp_at (delete i es) i d)).
    { rewrite Hd. destruct d; cbn [step_deleted lp_at]; [|done]. destruct (decide (i < length (delete i es))%nat) as [Hlt|Hge].
      - rewrite ptr_lt by done. by rewrite (nav_prev _ _ _ Hr') by lia.
      - rewrite ptr_ge by lia. rewrite (nav_last _ _ _ Hr'). replace (length (delete i es)) with i by lia. done. }
    rewrite Hst. cbn [mbind option_bind]. eexists _, _. split; [done|]. cbn [li_direction li_pos]. split; [done|]. split; [lia|]. exists (delete i es). split; [|by rewrite vals_delete].
    apply (lp_shrunk lp' es); [by exists num'|by apply packed_ok_delete|lia|done|done].
  - destruct H as (Hf & Hon). destruct (delete_pos junk usable Husable lzf_base lzf_junk Hbase Hlzf ql iter e l i Hon) as (ql' & iter' & -> & Hf' & Hat). cbn [mbind option_bind]. eexists _, _. split; [done|]. cbn [li_direction li_pos]. split; [done|]. split; [lia|]. by rewrite Hf'.
Qed.

Lemma seek_norm (l : list (list Z)) idx : seek_index l idx = if bool_decide (0 <= norm_index idx (zlen l) < zlen l) then Some (Z.to_nat (norm_index idx (zlen l))) else None.
Proof. unfold seek_index. fold (norm_index idx (zlen l)). case_bool_decide as H; [by rewrite (proj2 (Z.leb_le _ _)), (proj2 (Z.ltb_lt _ _)) by lia|]. destruct (Z.leb_spec 0 (norm_index idx (zlen l))); [|done]. by destruct (Z.ltb_spec (norm_index idx (zlen l)) (zlen l)); [lia|]. Qed.

Lemma seek_lt (l : list (list Z)) idx i : seek_index l idx = Some i -> (i < length l)%nat.
Proof. rewrite seek_norm. case_bool_decide; [|done]. intros [= <-]. unfold zlen in *. lia. Qed.

Lemma impl_index o l idx : list_room o l [] -> INT64_MIN < idx -> exists it o1 it1 e o', listTypeInitIterator o idx LIST_TAIL = Some it /\ listTypeNext junk lzf_base lzf_junk o it = Some (o1, it1, e) /\
  match seek_index l idx with
  | None => e = None
  | Some i => exists e' v, e = Some e' /\ listTypeGetValue o1 e' = Some v /\ l !! i = Some (arg_text v) /\ value_text v = Some (arg_text v)
  end /\ listTypeResetIterator junk lzf_base lzf_junk o1 it1 = Some o' /\ list_room o' l [].
Proof.
  intros Hr Hm. assert (Htext : forall v, int_ok v -> value_text v = Some (arg_text v)) by (intros [s|n] Hv; [done|]; by apply (value_text_ok (LVal n))). unfold listTypeInitIterator, listTypeNext. destruct o as [lp|ql].
  - destruct Hr as (es & Hr & <-). destruct (lp_len _ _ _ Hr) as (Hn & _ & Hv). rewrite (raw_seek lp es _ (proj1 Hr) Hm), <- (seek_vals es idx Hv). cbn [mbind option_bind]. destruct (seek_index es idx) as [i|] eqn:Ei; cbn [fmap option_fmap option_map].
    + pose proof (seek_lt _ _ _ Ei) as Hi.
      eexists _, _, _, _, _. split; [done|]. cbn [li_pos li_direction]. rewrite (lp_step_ok lp es i LIST_TAIL (proj1 Hr) Hi). cbn [mbind option_bind]. split; [done|]. split; [|split; [done|by exists es]].
      rewrite <- Hn in Hi. destruct (lookup_lt_is_Some_2 _ _ Hi) as [x Hx]. destruct (raw_read lp es i x (proj1 Hr) Hx) as (v & Hv' & Ht). eexists _, v. split; [done|]. split; [done|]. split; [congruence|]. apply Htext. by eapply read_int_ok.
    + eexists _, _, _, _, _. split; [done|]. cbn [li_pos]. split; [done|]. split; [done|]. split; [done|by exists es].
  - destruct Hr as (cs & Hinv & <-). cbn [mbind option_bind]. change (bool_decide (LIST_TAIL = LIST_TAIL)) with true. destruct (init_pos false ql cs true idx Hinv Hm) as [Hf Hat]; [done|]. set (iter := (quicklistInitIteratorAtIdx ql true idx).1) in *.
    destruct (iter_next_ok junk lzf_base lzf_junk Hbase Hlzf false ql iter _ _ Hat) as (ql' & iter' & e & Hnext & Hf' & Hres). rewrite Hf in Hres.
    assert (Ha : ahead true (if decide (0 <= norm_index idx (zlen (flat cs)) < zlen (flat cs)) then (Z.to_nat (norm_index idx (zlen (flat cs))) + 0)%nat else length (flat cs)) (flat cs) = seek_index (flat cs) idx).
    { rewrite seek_norm. unfold ahead. generalize (norm_index idx (zlen (flat cs))). intros k. unfold zlen. destruct (decide (0 <= k < Z.of_nat (length (flat cs)))) as [Hk|Hk].
      - rewrite bool_decide_true, decide_True by lia. f_equal. lia.
      - by rewrite bool_decide_false, decide_False by lia. }
    rewrite Ha in Hres. assert (Hreset : exists o', listTypeResetIterator junk lzf_base lzf_junk (ListQl ql') {| li_direction := LIST_TAIL; li_pos := IterQl iter' |} = Some o' /\ list_room o' (flat cs) []).
    { assert (exists p, at_pos false ql' iter' (flat cs) p) as [p Hat'] by (destruct (seek_index (flat cs) idx) as [k|]; [destruct Hres as (e' & _ & Hon); eexists; by eapply on_elem_pos|destruct Hres as (_ & Hat'); by eexists]).
      unfold listTypeResetIterator. cbn [li_pos]. destruct (reset_pos junk lzf_base lzf_junk Hbase Hlzf false ql' iter' _ p Hat') as (ql2 & cs2 & -> & Hinv2 & Hl2). cbn [mbind option_bind]. eexists. split; [done|]. by exists cs2. }
    destruct Hreset as (o' & Hreset & Hr'). eexists _, _, _, _, _. split; [done|]. cbn [li_pos li_direction]. rewrite Hnext. cbn [mbind option_bind]. split; [done|]. split; [|split; [exact Hreset|done]].
    destruct (seek_index (flat cs) idx) as [k|]; [|by destruct Hres as [-> _]]. destruct Hres as (e' & -> & (ca & c & cb & a & id & n & b & j & Hfo & Hl & _ & _ & _ & -> & Hint)). destruct (found_lookup _ _ _ _ _ _ _ _ _ _ Hfo) as (v & Hv & Ht).
    eexists _, v. split; [done|]. split; [done|]. split; [by rewrite <- Hl|]. by apply Htext, Hint.
Qed.

Lemma inserted_mid w j v (a b c : list (list Z)) : (j < length b)%nat -> inserted_at w (length a + j) v (a ++ b ++ c) = a ++ vput (bool_decide (w = LIST_TAIL)) j b v ++ c.
Proof.
  intros Hj. destruct w; cbn [inserted_at]; unfold vput, place; [change (bool_decide (LIST_HEAD = LIST_TAIL)) with false|change (bool_decide (LIST_TAIL = LIST_TAIL)) with true]; cbv iota;
    rewrite <- ?Nat.add_succ_r, take_app_add, drop_app_add, take_app_le, drop_app_le by lia; by rewrite <- !app_assoc.
Qed.

Lemma impl_insert o it e l v vs i d w : list_entry o it e l (v :: vs) i d -> elem_ok v ->
  exists o1 it' o', listTypeInsert junk usable lzf_base lzf_junk packed_threshold o it e v w = Some (o1, it') /\ listTypeResetIterator junk lzf_base lzf_junk o1 it' = Some o' /\ list_room o' (inserted_at w i v l) vs.
Proof.
  intros (Hd & Hi & H) Hv. unfold listTypeInsert. destruct o as [lp|ql], (li_pos it) as [lpi|iter] eqn:Eit, e as [p|e]; try done.
  - destruct H as (es & Hr & <- & -> & _). destruct (lp_len _ _ _ Hr) as (Hn & _). rewrite Hn in Hi. set (pw := match w with LIST_TAIL => LP_AFTER | LIST_HEAD => LP_BEFORE end).
    assert (Hpo : put_ok es i pw) by (destruct w; cbn; lia). destruct (put_room junk usable Husable lp es (SVal v) vs i pw Hr Hv Hpo) as (lp' & p & Hput & Hr' & Hvals); [by destruct w|]. cbn [lpPut] in Hput. rewrite Hput. cbn [with_lp mbind option_bind].
    eexists _, _, _. split; [done|]. unfold listTypeResetIterator. rewrite Eit. split; [done|]. eexists. split; [exact Hr'|]. rewrite Hvals. by destruct w.
  - destruct H as (Hf & (ca & c & cb & a & id & n & b & j & Hfo & <- & _ & _ & _ & -> & _)).
    destruct (quicklistInsert_ok junk usable Husable lzf_base lzf_junk Hbase Hlzf packed_threshold Hthr ql ca c cb a id n b j e v (bool_decide (w = LIST_TAIL)) Hfo Hv) as (ql' & cs' & -> & Hinv & Hfl). cbn [mbind option_bind].
    eexists _, _, _. split; [done|]. split; [done|]. exists cs'. split; [done|]. rewrite Hfl, flat_app, flat_cons, inserted_mid; [done|]. apply (found_lt _ _ _ _ _ _ _ _ _ _ Hfo).
Qed.

Lemma impl_replace o l v vs idx : list_room o l (v :: vs) -> elem_ok v -> INT64_MIN < idx ->
  exists o', listTypeReplaceAtIndex junk usable lzf_base lzf_junk packed_threshold o idx v = Some (o', bool_decide (is_Some (seek_index l idx))) /\ list_room o' (match seek_index l idx with Some i => <[i := v]> l | None => l end) vs.
Proof.
  intros Hr Hv Hm. destruct o as [lp|ql]; cbn [listTypeReplaceAtIndex].
  - destruct Hr as (es & Hr & <-). destruct (lp_len _ _ _ Hr) as (Hn & _ & Hve). rewrite (raw_seek lp es _ (proj1 Hr) Hm), (seek_vals es idx Hve). cbn [mbind option_bind]. destruct (seek_index (vals (Packed es)) idx) as [i|] eqn:Ei; cbn [fmap option_fmap option_map].
    + apply seek_lt in Ei. destruct (replace_room junk usable Husable lp es v vs i Hr Hv ltac:(lia)) as (lp' & p & -> & Hr' & Hvals). cbn [with_lp mbind option_bind]. eexists. split; [done|]. by eexists.
    + eexists. split; [done|]. exists es. split; [|done]. destruct Hr as (H1 & H2 & H3 & H4). apply list.Forall_cons in H4 as [_ H4]. apply (lp_shrunk lp es); [done|done|done| |done]. rewrite zlen_cons in H3. lia.
  - destruct Hr as (cs & Hinv & <-). destruct (replace_at_ok junk usable Husable lzf_base lzf_junk Hbase Hlzf packed_threshold Hthr ql cs idx v Hinv Hv Hm) as (ql' & r & cs' & -> & Hinv' & Hres). cbn [mbind option_bind]. rewrite seek_norm. case_bool_decide; destruct Hres as [-> <-]; (eexists; split; [done|]; by exists cs').
Qed.

(** ** Ranges *)

Definition cut (l : list (list Z)) (start : Z) (n : nat) : list (list Z) := match seek_index l start with Some i => take i l ++ drop (i + n) l | None => l end.

Lemma cut_head l n : (n <= length l)%nat -> cut l 0 n = drop n l.
Proof. intros Hn. unfold cut. rewrite seek_norm. unfold norm_index. change (0 <? 0) with false. cbv iota. case_bool_decide as H; [done|]. unfold zlen in H. by destruct l; [rewrite drop_nil|cbn in H; lia]. Qed.

Lemma cut_tail l n : (n <= length l)%nat -> cut l (- Z.of_nat n) n = take (length l - n) l.
Proof.
  intros Hn. unfold cut. rewrite seek_norm. unfold norm_index, zlen. destruct (Z.ltb_spec (- Z.of_nat n) 0) as [Hlt|Hge].
  - rewrite bool_decide_true by lia. replace (Z.to_nat (Z.of_nat (length l) + - Z.of_nat n)) with (length l - n)%nat by lia. by rewrite drop_ge, app_nil_r by lia.
  - assert (n = 0%nat) as -> by lia. rewrite Nat.sub_0_r, firstn_all. case_bool_decide; [|done]. change (Z.to_nat (- Z.of_nat 0)) with 0%nat. by rewrite Nat.add_0_r, take_0, drop_0.
Qed.

Lemma lp_cut lp l start n : list_room (ListLp lp) l [] -> INT64_MIN < start -> exists lp', lpDeleteRange junk usable lp start (Z.of_nat n) = Some lp' /\ list_room (ListLp lp') (cut l start n) [].
Proof.
  intros (es & Hr & <-) Hm. destruct (lp_len _ _ _ Hr) as (Hn & _ & Hv). destruct Hr as (Hraw & Hok & Hz & _). destruct (raw_delete_range junk usable Husable lp es start (Z.of_nat n) Hraw Hm ltac:(lia)) as (lp' & -> & Hr'). exists lp'. split; [done|].
  unfold cut. rewrite <- (seek_vals es start Hv). rewrite Nat2Z.id in Hr'. destruct (seek_index es start) as [i|]; eexists; (split; [apply (lp_shrunk lp' es); [exact Hr'|..|exact Hz|constructor]|]); try done.
  - apply packed_ok_app; [by apply packed_ok_take|by apply packed_ok_drop|]. destruct Hok as (_ & Hm' & _). unfold zlen in *. rewrite length_take, length_drop. lia.
  - rewrite length_app, length_take, length_drop. lia.
  - by rewrite vals_app, vals_take, vals_drop.
Qed.

Lemma ql_cut ql l start n : list_room (ListQl ql) l [] -> INT64_MIN < start -> exists ql' r, quicklistDelRange junk usable lzf_base lzf_junk ql start (Z.of_nat n) = Some (ql', r) /\ list_room (ListQl ql') (cut l start n) [].
Proof.
  intros (cs & Hinv & <-) Hm. destruct (del_range_ok junk usable Husable lzf_base lzf_junk Hbase Hlzf ql cs start (Z.of_nat n) Hinv Hm) as (ql' & r & cs' & -> & Hinv' & Hres). exists ql', r. split; [done|]. exists cs'. split; [done|].
  unfold cut. rewrite seek_norm. case_bool_decide as Hc; destruct Hres as [_ ->].
  - rewrite bool_decide_true by lia. do 2 f_equal. lia.
  - case_bool_decide as Hk; [|done]. assert (n = 0%nat) as -> by lia. by rewrite Nat.add_0_r, take_drop.
Qed.

Lemma impl_del_range o l w n : list_room o l [] -> zlen l <= INT64_MAX -> (0 < n <= length l)%nat ->
  exists o', listTypeDelRange junk usable lzf_base lzf_junk o (match w with LIST_HEAD => 0 | LIST_TAIL => - Z.of_nat n end) (Z.of_nat n) = Some o' /\ list_room o' (popped w n l).2 [].
Proof.
  intros Hr Hmx Hn. set (st := match w with LIST_HEAD => 0 | LIST_TAIL => - Z.of_nat n end). assert (Hst : INT64_MIN < st) by (unfold st, zlen, INT64_MIN, INT64_MAX in *; destruct w; lia).
  assert (Hc : (popped w n l).2 = cut l st n) by (unfold st; destruct w; cbn [popped snd]; [by rewrite cut_head by lia|by rewrite cut_tail by lia]). rewrite Hc. destruct o as [lp|ql]; cbn [listTypeDelRange].
  - rewrite Z.gtb_ltb, (proj2 (Z.ltb_lt _ _)) by lia. destruct (lp_cut lp l st n Hr Hst) as (lp' & -> & Hr'). cbn [mbind option_bind]. by eexists.
  - destruct (ql_cut ql l st n Hr Hst) as (ql' & r & -> & Hr'). cbn [mbind option_bind]. by eexists.
Qed.

Lemma impl_trim o l a b : list_room o l [] -> zlen l <= INT64_MAX -> (a + b <= length l)%nat ->
  exists o', list_trim junk usable lzf_base lzf_junk o (Z.of_nat a) (Z.of_nat b) = Some o' /\ list_room o' (take (length l - a - b) (drop a l)) [].
Proof.
  intros Hr Hmx Hn. assert (Hst : INT64_MIN < - Z.of_nat b) by (unfold zlen, INT64_MIN, INT64_MAX in *; lia).
  assert (Hc : take (length l - a - b) (drop a l) = cut (cut l 0 a) (- Z.of_nat b) b) by (rewrite cut_head, cut_tail by (rewrite ?length_drop; lia); by rewrite length_drop). rewrite Hc. destruct o as [lp|ql]; cbn [list_trim].
  - destruct (lp_cut lp l 0 a Hr ltac:(done)) as (lp' & -> & Hr'). cbn [mbind option_bind]. destruct (lp_cut lp' _ _ b Hr' Hst) as (lp2 & -> & Hr2). cbn [mbind option_bind]. by eexists.
  - destruct (ql_cut ql l 0 a Hr ltac:(done)) as (ql' & r & -> & Hr'). cbn [mbind option_bind]. destruct (ql_cut ql' _ _ b Hr' Hst) as (ql2 & r2 & -> & Hr2). cbn [mbind option_bind]. by eexists.
Qed.

(** The [n] elements a walk meets from position [p] on. *)
Definition met (d : lwhere) (l : list (list Z)) (p n : nat) : list (list Z) := match d with LIST_TAIL => take n (drop p l) | LIST_HEAD => reverse (take n (drop (p - n) l)) end.

Lemma met_step d l p n i x : (match d with LIST_TAIL => p + S n <= length l | LIST_HEAD => S n <= p <= length l end)%nat -> next_pos p d l = Some i -> l !! i = Some x -> met d l p (S n) = x :: met d l (after_pos i d) n.
Proof.
  destruct d; cbn [next_pos met after_pos].
  - destruct p as [|q]; [done|]. intros Hp [= <-] Hx. replace (S q - S n)%nat with (q - n)%nat by lia. rewrite (take_S_r _ _ x), reverse_snoc; [done|]. rewrite lookup_drop. by replace (q - n + n)%nat with q by lia.
  - case_decide; [|done]. intros Hp [= <-] Hx. by rewrite (drop_S l x p Hx).
Qed.

Definition in_walk (d : lwhere) (l : list (list Z)) (p n : nat) : Prop := (match d with LIST_TAIL => p + n <= length l | LIST_HEAD => n <= p <= length l end)%nat.

Lemma walk_step d l p n : in_walk d l p (S n) -> exists i x, next_pos p d l = Some i /\ l !! i = Some x /\ in_walk d l (after_pos i d) n /\ met d l p (S n) = x :: met d l (after_pos i d) n.
Proof.
  intros Hw. assert (exists i, next_pos p d l = Some i /\ (i < length l)%nat /\ in_walk d l (after_pos i d) n) as (i & Hi & Hlt & Hw').
  { destruct d; cbn [in_walk next_pos after_pos] in *; [destruct p as [|q]; [lia|]; exists q; split; [done|]; lia|]. exists p. rewrite decide_True by lia. split; [done|]. lia. }
  destruct (lookup_lt_is_Some_2 _ _ Hlt) as [x Hx]. exists i, x. split; [done|]. split; [done|]. split; [done|]. by apply met_step.
Qed.

Lemma ql_range_ok n : forall d ql iter l p, qi_forward iter = fwd d -> at_pos false ql iter l p -> in_walk d l p n ->
  exists ql' iter' p', ql_range junk lzf_base lzf_junk n ql iter = Some (ql', iter', met d l p n) /\ at_pos false ql' iter' l p'.
Proof.
  induction n as [|n IH]; intros d ql iter l p Hf Hat Hw; cbn [ql_range]; [eexists _, _, _; split; [|exact Hat]; by destruct d|].
  destruct (walk_step d l p n Hw) as (i & x & Hi & Hx & Hw' & ->). destruct (iter_next_ok junk lzf_base lzf_junk Hbase Hlzf false ql iter l p Hat) as (ql1 & iter1 & e & -> & Hf1 & Hres). cbn [mbind option_bind]. rewrite Hf in Hres, Hf1. rewrite <- next_ahead, Hi in Hres.
  destruct Hres as (e' & -> & Hon). cbn [mbind option_bind]. pose proof (on_elem_pos _ _ _ _ _ _ Hon) as Hat1. rewrite Hf1 in Hat1. destruct Hon as (ca & c & cb & a & id & m & b & j & Hfo & Hl & _ & _ & _ & -> & Hint). destruct (found_lookup _ _ _ _ _ _ _ _ _ _ Hfo) as (v & Hv & Ht).
  rewrite Hl, Hx in Ht. injection Ht as ->. rewrite Hv. cbn [mbind option_bind]. assert (value_text v = Some (arg_text v)) as -> by (specialize (Hint v Hv); destruct v as [s|k]; [done|]; by apply (value_text_ok (LVal k))). cbn [mbind option_bind].
  destruct (IH d ql1 iter1 l (after_pos (length (flat ca) + j) d) Hf1) as (ql' & iter' & p' & -> & Hat'); [by destruct d|done|]. cbn [mbind option_bind]. by eexists _, _, _.
Qed.

Lemma lp_range_ok n : forall lp es p d, raw lp (Packed es) -> Forall valid_entry es -> in_walk d (vals (Packed es)) p n ->
  lp_range n lp (total_bytes es) (lp_at es p d) (negb (fwd d)) = Some (met d (vals (Packed es)) p n).
Proof.
  induction n as [|n IH]; intros lp es p d Hr Hv Hw; cbn [lp_range]; [by destruct d|]. destruct (walk_step d _ p n Hw) as (i & x & Hi & Hx & Hw' & ->). pose proof (lookup_lt_Some _ _ _ Hx) as Hlt. rewrite length_vals in Hlt by done.
  assert (Hp : lp_at es p d = Some (pos es i)). { destruct d; cbn [next_pos lp_at] in *; [destruct p; [done|]; by injection Hi as ->|]. rewrite length_vals in Hi by done. unfold ptr. case_decide; [|done]. by injection Hi as ->. }
  rewrite Hp. cbn [mbind option_bind]. rewrite (raw_intbuf lp es i x Hr Hx). cbn [mbind option_bind].
  assert (Hst : (if negb (fwd d) then lpPrev lp (pos es i) else lpNextWithBytes lp (pos es i) (total_bytes es)) = Some (lp_at es (after_pos i d) d)).
  { destruct Hr as [num Hr]. destruct d; cbn [lp_at after_pos]; [change (fwd LIST_HEAD) with false; cbn [negb]; by rewrite (nav_prev _ _ _ Hr) by lia|]. change (fwd LIST_TAIL) with true. cbn [negb]. by apply (nav_nextWithBytes _ _ _ Hr). }
  rewrite Hst. cbn [mbind option_bind]. by rewrite (IH lp es (after_pos i d) d Hr Hv Hw').
Qed.

Lemma impl_range o l vs a n rev : list_room o l vs -> (a + n <= length l)%nat -> (0 < n)%nat ->
  exists o', list_range junk lzf_base lzf_junk o (if rev : bool then Z.of_nat (a + n) - 1 else Z.of_nat a) (Z.of_nat n) rev = Some (o', if rev then reverse (take n (drop a l)) else take n (drop a l)) /\ list_room o' l vs.
Proof.
  intros Hr Hn Hn0. set (idx := if rev then Z.of_nat (a + n) - 1 else Z.of_nat a). set (d := if rev then LIST_HEAD else LIST_TAIL). set (p := (if rev then a + n else a)%nat). assert (Hidx : 0 <= idx < zlen l) by (unfold idx, zlen; destruct rev; lia).
  assert (Hm : INT64_MIN < idx) by (assert (INT64_MIN < 0) by done; lia). assert (Hw : in_walk d l p n) by (unfold d, p; destruct rev; cbn [in_walk]; lia).
  assert (Hmet : (if rev then reverse (take n (drop a l)) else take n (drop a l)) = met d l p n) by (unfold d, p; destruct rev; cbn [met]; [by rewrite Nat.add_sub|done]). rewrite Hmet. destruct o as [lp|ql]; cbn [list_range].
  - destruct Hr as (es & Hr & <-). destruct (lp_len _ _ _ Hr) as (Hl & Hz & Hv). unfold addListListpackRangeReply. rewrite (raw_seek lp es idx (proj1 Hr) Hm), (raw_bytes _ _ (proj1 Hr)). cbn [mbind option_bind].
    assert (Hat : pos es <$> seek_index es idx = lp_at es p d).
    { rewrite seek_norm. unfold norm_index. rewrite (proj2 (Z.ltb_ge idx 0)), bool_decide_true by lia. cbn [fmap option_fmap option_map]. unfold idx, p, d. destruct rev; cbn [lp_at].
      - destruct (a + n)%nat as [|k] eqn:Ek; [lia|]. do 2 f_equal. lia.
      - rewrite ptr_lt by lia. by rewrite Nat2Z.id. }
    rewrite Hat, Nat2Z.id. replace rev with (negb (fwd d)) by (unfold d; by destruct rev). rewrite (lp_range_ok n lp es p d (proj1 Hr) Hv Hw). cbn [mbind option_bind]. eexists. split; [done|]. by exists es.
  - destruct Hr as (cs & Hinv & <-). unfold addListQuicklistRangeReply. destruct (init_pos false ql cs (negb rev) idx Hinv Hm) as [Hf Hat]; [done|]. set (iter := (quicklistInitIteratorAtIdx ql (negb rev) idx).1) in *.
    assert (Hp : (if decide (0 <= norm_index idx (zlen (flat cs)) < zlen (flat cs)) then (Z.to_nat (norm_index idx (zlen (flat cs))) + if negb rev then 0 else 1)%nat else if negb rev then length (flat cs) else 0%nat) = p).
    { unfold norm_index. rewrite (proj2 (Z.ltb_ge idx 0)), decide_True by lia. unfold idx, p. destruct rev; cbn [negb]; lia. }
    rewrite Hp in Hat. rewrite Nat2Z.id. destruct (ql_range_ok n d ql iter (flat cs) p) as (ql1 & iter1 & p1 & -> & Hat1); [rewrite Hf; unfold d; by destruct rev|done|done|]. cbn [mbind option_bind].
    destruct (reset_pos junk lzf_base lzf_junk Hbase Hlzf false ql1 iter1 _ p1 Hat1) as (ql2 & cs2 & -> & Hinv2 & Hl2). cbn [mbind option_bind]. eexists. split; [done|]. by exists cs2.
Qed.

(** ** The instance *)

#[local] Instance impl_ops : list_ops listobj listTypeIterator listTypeEntry := listType_ops junk usable lzf_base lzf_junk packed_threshold max_size depth.

#[local] Instance impl_laws : list_laws listobj listTypeIterator listTypeEntry :=
  Build_list_laws _ _ _ impl_ops list_room list_iter list_entry impl_create impl_convert impl_weaken impl_order impl_shrink impl_push impl_pop impl_length impl_length_iter impl_init impl_index impl_next
    impl_entry impl_equal impl_insert impl_delete impl_reset impl_replace impl_del_range impl_trim impl_range.

Lemma sim_no_keys : sim no_keys no_keys.
Proof. split; [|done..]. intros key. cbn [no_keys sv_db]. rewrite !lookup_empty. constructor. Qed.

Lemma full_no_keys : full 0 no_keys.
Proof. intros key l. cbn [no_keys sv_db]. by rewrite lookup_empty. Qed.

(** A list and its representation at the same key; the keyspaces have the same keys. *)
Definition shows (s : server listobj) (a : lists) : Prop :=
  forall key, match sv_db s !! key, sv_db a !! key with
  | Some (OList o), Some (OList l) => list_room o l [] /\ l <> []
  | Some OOther, Some OOther => True
  | None, None => True
  | _, _ => False
  end.

Lemma sim_shows M s a : sim s a -> full M a -> shows s a.
Proof. intros [Hs _ _] Hf key. specialize (Hs key). specialize (Hf key). destruct Hs as [x y Hxy|]; [|done]. destruct Hxy as [|o l Hr]; [done|]. split; [exact Hr|]. by apply (Hf l). Qed.

(** C9: The list commands (LPUSH, RPUSH, LPUSHX, RPUSHX, LINSERT, LLEN, LINDEX, LRANGE, LSET,
    LPOP, RPOP, LMPOP, LTRIM, LPOS, LREM, LMOVE, LMOVEM, RPOPLPUSH), on lists that are listpacks while
    they are small and quicklists afterwards, act on the keys as the same commands act on plain
    lists of strings: no history of commands fails, every reply is the one of the plain lists,
    the change counter, the modified keys and the notifications are the same and in the same
    order, each key holds the representation of its plain list, and no list is empty.  This
    is for commands within [cmd_ok] (elements shorter than 4 GB, at most 16384 pushed or moved
    at once, no index [-2^63] in LINDEX and LSET, an LMPOP key count of at most [INT_MAX - 2]),
    fewer than [2^49] of them, a list-max-listpack-size of at least -4 and a packed threshold
    of at most 65537. *)
Theorem list_history cs : Forall cmd_ok cs -> MAX_ARGS * zlen cs <= INT64_MAX ->
  exists s, list_run no_keys cs = Some (s, (spec_run no_keys cs).2) /\ shows s (spec_run no_keys cs).1 /\
    sv_dirty s = sv_dirty (spec_run no_keys cs).1 /\ sv_effects s = sv_effects (spec_run no_keys cs).1.
Proof.
  intros Hok Hmx. destruct (run_ok cs no_keys no_keys 0 sim_no_keys ltac:(lia) full_no_keys Hok Hmx) as (s & Hrun & Hs & Hf). exists s. split; [exact Hrun|]. split; [by eapply sim_shows|]. split; apply Hs.
Qed.
End Impl.

(** ** Numbers of keys *)

(** LMPOP accepts any positive [int] as the number of keys; for the two largest ones the index
    of the argument after the keys is not an [int]. *)
Theorem lmpop_index_overflows {L I E : Type} `{!list_ops L I E} (s : server L) args : lmpopGenericCommand s (ll_text INT_MAX) args = None /\ lmpopGenericCommand s (ll_text (INT_MAX - 1)) args = None.
Proof. split; reflexivity. Qed.

(** ** Many empty strings *)

Section Empties.
Context (junk : nat -> Z) (usable : Z -> Z) (Husable : forall n, 0 <= n -> n <= usable n) (lzf_base : Z) (lzf_junk : Z -> Z) (packed_threshold depth : Z).

#[local] Instance default_ops : list_ops listobj listTypeIterator listTypeEntry := listType_ops junk usable lzf_base lzf_junk packed_threshold (-2) depth.

Lemma push_same v k : arg_valid v -> forall lp es num, lp_repr lp es num -> total_bytes es + zlen (ent (arg_enc v)) * Z.of_nat k < 2 ^ 32 ->
  exists lp' num', push_loop (ListLp lp) (replicate k v) LIST_TAIL = Some (ListLp lp') /\ lp_repr lp' (es ++ replicate k (arg_enc v)) num'.
Proof.
  intros Ha. induction k as [|k IH]; intros lp es num Hr Ht; [exists lp, num; by rewrite app_nil_r|]. cbn [replicate push_loop lt_push default_ops listType_ops listTypePush].
  pose proof (append_put junk usable lp es num v Hr) as Hp. pose proof (zlen_nonneg (ent (arg_enc v))) as H0.
  destruct (put_spec junk usable Husable lp es num v (length es) LP_BEFORE Hr Ha (le_n _)) as [_ Hput]. cbn [put_list] in Hput. rewrite firstn_all, drop_all in Hput.
  assert (Hb : total_bytes (es ++ [arg_enc v]) = total_bytes es + zlen (ent (arg_enc v))) by (unfold total_bytes; rewrite body_app, zlen_app; cbn [body]; rewrite app_nil_r; lia). rewrite Hb in Hput.
  destruct (Hput ltac:(nia)) as (lp1 & num1 & Hq & Hr1). rewrite <- Hp in Hq. assert (Hw : listTypePush junk usable lzf_base lzf_junk packed_threshold (ListLp lp) v LIST_TAIL = Some (ListLp lp1)) by (unfold listTypePush; destruct v; rewrite Hq; done).
  cbn [listTypePush] in Hw. rewrite Hw. cbn [mbind option_bind]. destruct (IH lp1 _ num1 Hr1 ltac:(lia)) as (lp' & num' & Hpl & Hr'). exists lp', num'. split; [exact Hpl|]. by rewrite <- app_assoc in Hr'.
Qed.

(** A new list takes objects of no counted length without being converted. *)
Lemma convert_uncounted lp v k : raw lp (Packed []) -> sds_len v = 0 -> exists lp', raw lp' (Packed []) /\ lt_convert_append (ListLp lp) (replicate k v) = Some (ListLp lp').
Proof.
  intros Hr Hv. destruct (raw_length lp [] Hr) as (lp1 & Hlen & Hr1). exists lp1. split; [done|]. assert (Hadd : foldr (fun v n => sds_len v + n) 0 (replicate k v) = 0) by (clear -Hv; induction k; [done|]; cbn [replicate foldr]; lia).
  cbn [lt_convert_append default_ops listType_ops]. unfold listTypeTryConversionAppend, listTypeTryConversionRaw, listTypeTryConvertListpack. rewrite (raw_bytes _ _ Hr). cbn [mbind option_bind]. rewrite Hlen. cbn [mbind option_bind]. by rewrite Hadd.
Qed.

(** The next conversion of a listpack with 65537 elements counts one element. *)
Lemma long_listpack lp es num v : lp_repr lp es num -> zlen es = 65537 -> exists o', lt_convert_append (ListLp lp) [v] = Some o' /\ lt_length o' = Some (1, o').
Proof.
  intros Hr Hes. cbn [lt_convert_append lt_length default_ops listType_ops]. unfold listTypeTryConversionAppend, listTypeTryConversionRaw, listTypeTryConvertListpack. rewrite (raw_bytes lp es) by (by exists num). cbn [mbind option_bind].
  destruct (raw_length lp es ltac:(by exists num)) as (lp4 & -> & Hr4). cbn [mbind option_bind]. unfold quicklistNodeExceedsLimit.
  assert (Hv : Forall valid_entry es) by (destruct Hr; done). pose proof (body_min es Hv) as Hmin. assert (Hbig : 8192 < total_bytes es + foldr (fun v n => sds_len v + n) 0 [v]).
  { unfold total_bytes. cbn [foldr]. assert (0 <= sds_len v) by (destruct v; cbn; [apply zlen_nonneg|lia]). unfold LP_HDR_SIZE. lia. }
  change (quicklistNodeLimit (-2)) with (Some (Some 8192, @None Z)). cbn [mbind option_bind]. rewrite Z.gtb_ltb, (proj2 (Z.ltb_lt _ _) Hbig). destruct (raw_length lp4 es Hr4) as (lp5 & -> & [num5 Hr5]). cbn [mbind option_bind]. rewrite Hes. change (65537 =? 0) with false. cbv iota.
  destruct (append_listpack_truncates junk lzf_base lzf_junk (-2) depth lp5 es num5 Hr5 Hes) as (ql & -> & Hc). cbn [mbind option_bind]. eexists. split; [done|]. cbn [listTypeLength]. by rewrite Hc.
Qed.

(** An RPUSH of 65537 empty strings leaves a listpack, because only the lengths of the strings
    are added to its size; it has 65537 elements.  The conversion before the next push makes it
    a node whose counter has 16 bits, and the list has one element. *)
Theorem rpush_empty_strings key : exists s o,
  list_run no_keys [CPush key (replicate (Z.to_nat 65537) []) LIST_TAIL false] = Some (s, [LInteger 65537]) /\ sv_db s !! key = Some (OList o) /\
  forall v, exists o', lt_convert_append o [v] = Some o' /\ lt_length o' = Some (1, o').
Proof.
  destruct (raw_new junk usable Husable) as (lp0 & Hnew & Hraw). cbn [list_run exec_list]. unfold pushGenericCommand. cbn [no_keys sv_db]. rewrite lookup_empty. cbn [lt_create default_ops listType_ops]. unfold createListListpackObject. rewrite Hnew. cbn [mbind option_bind].
  rewrite fmap_replicate. assert (Hkz : Z.of_nat (Z.to_nat 65537) = 65537) by (rewrite Z2Nat.id; lia). revert Hkz. generalize (Z.to_nat 65537). intros k Hkz.
  assert (Hzk : zlen (replicate k (SVal [])) = 65537) by (unfold zlen; by rewrite length_replicate). destruct (convert_uncounted lp0 (SVal []) k Hraw eq_refl) as (lp1 & [num1 Hr1] & Hconv).
  assert (Ha : arg_valid (SVal [])) by (split; [constructor|by vm_compute]). destruct (push_same (SVal []) k Ha lp1 [] num1 Hr1) as (lp2 & num2 & Hpush & Hr2); [change (total_bytes []) with 7; change (zlen (ent (arg_enc (SVal [])))) with 2; lia|].
  rewrite app_nil_l in Hr2. set (es := replicate k (arg_enc (SVal []))) in *. assert (Hes : zlen es = 65537) by (unfold es, zlen; by rewrite length_replicate). destruct (raw_length lp2 es ltac:(by exists num2)) as (lp3 & Hlen3 & [num3 Hr3]).
  unfold push_to. rewrite Hconv. cbn [mbind option_bind]. rewrite Hpush. cbn [mbind option_bind lt_length default_ops listType_ops listTypeLength]. rewrite Hlen3. cbn [mbind option_bind]. rewrite Hes.
  eexists _, (ListLp lp3). split; [done|]. split; [cbn [emit add_dirty set_list sv_db]; by rewrite lookup_insert_eq|]. intros v. by apply (long_listpack lp3 es num3).
Qed.

(** Elements that LMOVEM popped as integers have no counted length: a new destination takes
    65537 of them as a listpack, and the next push counts one element. *)
Theorem lmovem_integers n : is_s 64 n -> exists o1 o,
  lt_create = Some o1 /\ push_block o1 (replicate (Z.to_nat 65537) (LVal n)) LIST_TAIL = Some o /\ (exists o', lt_length o = Some (65537, o')) /\
  forall v, exists o', lt_convert_append o [v] = Some o' /\ lt_length o' = Some (1, o').
Proof.
  intros Hn. destruct (raw_new junk usable Husable) as (lp0 & Hnew & Hraw). assert (Hkz : Z.of_nat (Z.to_nat 65537) = 65537) by (rewrite Z2Nat.id; lia). revert Hkz. generalize (Z.to_nat 65537). intros k Hkz.
  destruct (convert_uncounted lp0 (LVal n) k Hraw eq_refl) as (lp1 & [num1 Hr1] & Hconv).
  pose proof (int_entry n) as Hent.
  destruct (push_same (LVal n) k Hn lp1 [] num1 Hr1) as (lp2 & num2 & Hpush & Hr2); [change (total_bytes []) with 7; pose proof (zlen_nonneg (ent (arg_enc (LVal n)))); nia|]. rewrite app_nil_l in Hr2.
  set (es := replicate k (arg_enc (LVal n))) in *. assert (Hes : zlen es = 65537) by (unfold es, zlen; by rewrite length_replicate). exists (ListLp lp0), (ListLp lp2). split; [cbn [lt_create default_ops listType_ops]; unfold createListListpackObject; by rewrite Hnew|]. split; [unfold push_block; rewrite Hconv; exact Hpush|].
  split; [|intros v; by apply (long_listpack lp2 es num2)]. destruct (raw_length lp2 es ltac:(by exists num2)) as (lp3 & Hlen3 & _). exists (ListLp lp3). cbn [lt_length default_ops listType_ops listTypeLength]. rewrite Hlen3. cbn [mbind option_bind]. by rewrite Hes.
Qed.
End Empties.

Section Sample.
#[local] Instance sample_list_ops : list_ops listobj listTypeIterator listTypeEntry := listType_ops (fun _ => 0) (fun n => n) 65536 (fun _ => 0) 0 (-2) 1.

Definition key_a : list Z := [97].
Definition key_b : list Z := [98].
Definition dig (n : Z) : list Z := ll_text n.

Definition sample_cmds : list list_cmd := [
  CPush key_a [[120]; dig 12; [121]] LIST_TAIL false; CPush key_b [[122]] LIST_HEAD true; CMove key_a key_b [76; 69; 70; 84] [82; 73; 71; 72; 84]; CInsert key_a [65; 70; 84; 69; 82] (dig 12) [119];
  CRange key_a (dig 0) (dig (-1)); CSet key_a (dig (-1)) [118]; CIndex key_a (dig 2); CPos key_a [118] []; CRem key_a (dig 0) (dig 12); CPop key_a [dig 9] LIST_TAIL; CLen key_a; CMovem key_b key_b [76; 69; 70; 84] [82; 73; 71; 72; 84] [[67; 79; 85; 78; 84]; dig 2; [98; 117; 108; 107]]; CMpop (dig 2) [key_a; key_b; [76; 69; 70; 84]]; CPush key_b [[97]; [98]] LIST_HEAD false; CTrim key_b (dig 1) (dig 0)].

Lemma sample_cmds_ok : Forall cmd_ok sample_cmds.
Proof.
  assert (Hd : elem_ok [120] /\ elem_ok (dig 12) /\ elem_ok [121] /\ elem_ok [122] /\ elem_ok [119] /\ elem_ok [118] /\ elem_ok [97] /\ elem_ok [98]) by (repeat split; first [by vm_compute|by repeat constructor]).
  destruct Hd as (H1 & H2 & H3 & H4 & H5 & H6 & H7 & H8). unfold sample_cmds. repeat (apply list.Forall_cons; split); try exact Logic.I; try apply list.Forall_nil_2; cbn [cmd_ok].
  - split; [done|]. split; [by repeat constructor|done].
  - split; [done|]. split; [by repeat constructor|done].
  - done.
  - split; [done|]. vm_compute. discriminate.
  - vm_compute. discriminate.
  - assert (Hp : lmovemParseOptions [[67; 79; 85; 78; 84]; dig 2; [98; 117; 108; 107]] = inr (LMOVEM_UPTO, 2, LMOVEM_ORDER_BULK)) by (by vm_compute). rewrite Hp. intros mode n ord [= _ <- _]. unfold MAX_ARGS. lia.
  - assert (string2ll (dig 2) = Some 2) as -> by (by vm_compute). intros n [= <-]. unfold INT_MAX. lia.
  - split; [done|]. split; [by repeat constructor|done].
Qed.

Lemma list_history_witness : exists s, list_run no_keys sample_cmds = Some (s,
    [LInteger 3; LInteger 0; LBulk [120]; LInteger 3; LBulks [[49; 50]; [119]; [121]]; LOk; LBulk [118]; LInteger 2; LInteger 1; LBulks [[118]; [119]]; LInteger 0; LBulks [[120]]; LPopped key_b [[120]]; LInteger 2; LOk]) /\ sv_dirty s = 15.
Proof.
  destruct (list_history (fun _ => 0) (fun n => n) id_usable 65536 (fun _ => 0) ltac:(lia) no_junk 0 ltac:(lia) (-2) 1 ltac:(lia) sample_cmds sample_cmds_ok ltac:(by vm_compute)) as (s & Hrun & _ & Hd & _).
  exists s. split; [exact Hrun|]. rewrite Hd. by vm_compute.
Defined.
End Sample.
